(* ===== verification/_CoqProject ===== *)
-Q . S2P
Prelude.v
Rng.v
Float64.v
Plan.v
Policy.v
Env.v
TokenBucket.v
EngineState.v
Engine.v
Accept.v
Drain.v
EngineInv.v
Loss.v
AcceptSpec.v
DrainSpec.v
EngineRun.v
EngineProps.v
EngineCalls.v
EngineDemo.v
Stream.v
StreamProps.v
StreamRun.v
Bidi.v
BidiProps.v
BidiRun.v
BidiCalls.v
DatagramPlan.v
DatagramState.v
Datagram.v
DatagramProps.v
DatagramRun.v
DatagramPaths.v
Schedule.v
ScheduleProps.v
Fingerprint.v
FingerprintProps.v
Target.v
Driver.v
DriverProps.v
DriverRun.v
Experiment.v
Wire.v
WireSchedule.v
WireProps.v
WireSpec.v
Toxic.v
ToxicProps.v
Server.v
Tasks.v
Control.v
ControlInv.v
ControlSafe.v
ControlRun.v
ControlSpec.v
ControlDemo.v
UdpState.v
UdpRuntime.v
UdpOwn.v
UdpInv.v
UdpSteps.v
UdpSafe.v
UdpRun.v
UdpWorker.v
UdpWorkerInv.v
UdpWorkerRun.v
UdpAccounts.v
Scenario.v
Service.v
ServiceProps.v
ServiceTarget.v
ServiceRun.v
Connections.v
Relay.v
RelayInv.v
RelayRun.v
RelayDemo.v
Config.v
Metrics.v
Admin.v
AdminRun.v
