(* ===== verification/Prelude.v ===== *)
(** * Eggchaos: a verification development

    Eggchaos injects deterministic network faults into byte streams and
    datagram flows.  This library models the crates that decide what the
    program does, [src/crates/eggchaos-core] and
    [src/crates/eggchaos-experiment], the documents of
    [src/crates/eggchaos-protocol], the toxic translation of
    [src/crates/eggchaos-toxiproxy] and the control plane, the
    connections, the datagram runtime, the scenario runs, the configuration,
    the metrics and the admin API of [src/crates/eggchaos-server], as executable definitions, and proves what
    they promise.  File and function names below are those of the code.

    ** How the parts interact

    A fault plan (plan.rs, or datagram.rs for datagrams) is a validated list of
    typed faults.  It is published through a live policy cell (policy.rs) under a
    generation.  Each direction of a connection compiles the published plan into
    an engine (engine.rs, datagram.rs) with seeds derived by rng.rs; the engine
    accepts bytes or datagrams, queues, delays, drops and releases them.  A chaos
    stream (stream.rs) wraps a transport with one or two engines and replaces
    them when a new generation is published.  A scenario schedule
    (crate eggchaos-experiment) is compiled to a tape of events, fingerprinted,
    and played against a policy target by the driver, which publishes plans at
    their deadlines and restores the initial ones afterwards.  The server keeps
    proxies under their names, supervises their listeners and publishes plans to
    them; its requests arrive over HTTP as wire documents, or as
    Toxiproxy toxics.

    ** Files, and the code they model

    - [Prelude]: machine integers with the overflow behaviour of each Rust
      operation, the [result] type and its notation, shared lemmas and tactics.
    - [Rng] (rng.rs; the seeds of datagram.rs), [Float64] (binary64 through the
      standard library's [SpecFloat]; [DeterministicRng::bernoulli]), [Plan]
      (plan.rs), [Policy] (policy.rs: the compare-and-swap loop of any number of
      publishers as interleaved threads).
    - The engine (engine.rs): [Env] is the environment (clock, timers,
      [AsyncWrite]); [TokenBucket]; [EngineState] the record [DirectionEngine],
      one field per field of the code; [Engine] construction and accessors;
      [Accept] the write side ([accept], [accept_vectored] and what they call);
      [Drain] the poll side ([poll_queue], [poll_flush], [poll_shutdown],
      [poll_due_termination], and the two sides together).  [EngineInv], [Loss],
      [AcceptSpec] and [DrainSpec] are their specifications; [EngineRun] defines
      runs, [EngineProps] and [EngineCalls] state the theorems, [EngineDemo]
      instantiates them.
    - Streams (stream.rs): [Stream] is the evidence and [ChaosStream];
      [StreamProps] and [StreamRun] its theorems and instances.  [Bidi]
      is [BidirectionalChaosStream] with [BidiProps], [BidiRun], [BidiCalls].
    - Datagrams (datagram.rs): [DatagramPlan], [DatagramState], [Datagram]
      ([DatagramDirectionEngine]), with [DatagramProps], [DatagramRun],
      [DatagramPaths].
    - Schedules (crate eggchaos-experiment): [Schedule] (action.rs, source.rs,
      error.rs, compiler.rs) and [ScheduleProps]; [Fingerprint] (fingerprint.rs)
      and [FingerprintProps]; [Target] (target.rs, stream_target.rs: the trait
      [PolicyTarget] is a class, its contract the class [PolicyTargetOk], which
      the in-process stream target discharges); [Driver] (driver.rs) with
      [DriverProps] and [DriverRun]; [Experiment] (gate.rs,
      experiment.rs), which also replays the repository's golden corpus.
    - Wire documents (crate eggchaos-protocol): [Wire] (stream.rs),
      [WireSchedule] (scenario_v2.rs), with [WireProps] and [WireSpec].  Toxics
      (lib.rs of crate eggchaos-toxiproxy): [Toxic], [ToxicProps].
    - [Tasks]: a system of calls that take atomic steps on shared state, bind
      sockets, await what the state records and interleave with background
      tasks in any order; and the rely-guarantee logic [safe] by which a call
      is proved by itself against what the others may do and what it may await.
    - The control plane (crate eggchaos-server): [Server] (runtime/model.rs,
      runtime/mod.rs, native.rs: definitions, patches, views, errors);
      [Control] (runtime/control.rs: the state of [RuntimeInner] and every
      operation on it, each a process with one atomic step for each stretch of
      code under one lock; runtime/supervisor.rs and the system of calls and
      supervisors); [ControlInv] and [ControlSafe] prove that every
      call and every supervisor keeps the invariant, [ControlRun] states what
      follows for all runs, [ControlSpec] the abstract store of faults,
      [ControlDemo] the runs that go wrong and the instances.
    - The datagram server (runtime/datagram): [UdpState] (model.rs, mod.rs:
      limits, definitions, errors; the structures of registry.rs and
      association.rs, with an [Arc] as a position in the list that holds what it
      points to; supervisor.rs and the setup half of association.rs: one move of
      a listener task for each stretch under one lock or between two awaits);
      [UdpRuntime] (registry.rs, every operation
      of [DatagramRuntime]).  [UdpOwn] is who owns which slot, lease, setup and
      association, and its invariant under the transitions of the runtime;
      [UdpInv] the whole invariant, [UdpSteps] that every move keeps it,
      [UdpSafe] the calls.  [UdpRun] has that what was told to stop
      can stop, the theorems about all runs, runs that
      go wrong and the instances.  There a worker is what the others see
      of it; [UdpWorker] is its code ([association_loop] and what it calls, with
      the two engines of its association) and the runtime in which every
      association has its worker, [UdpWorkerInv] what the others do to an
      association, [UdpWorkerRun] what its worker does, [UdpAccounts] the
      theorems and the instances.
    - The service as a whole: [Scenario] (the documents and records of
      scenario.rs, runtime/scenario_registry.rs); [Service] joins the control
      plane, the datagram runtime and the scenario runs in one state, embeds the
      processes of the parts in it, and has what goes across them: datagram
      proxies and faults (runtime/control_datagram.rs), the whole reset,
      scenarios (scenario.rs: validation, the event driver; starting and
      cancelling in runtime/control.rs), schedules as others see them, the
      server as a target of schedules ([ControlStateTarget] of
      scenario_v2/runtime.rs) and the shutdown.  [ServiceProps] proves each of
      its operations safe from what the parts promise, [ServiceTarget] that it
      keeps the contract of [Target], [ServiceRun] the theorems about events
      and runs, the runs that go wrong and the instances.
    - Connections: [Connections] (the connection types of runtime/model.rs,
      transport.rs, metrics.rs, and what connection.rs computes on one value);
      [Relay] (connection.rs, supervisor.rs): accept paths, connection tasks and
      purges as state machines whose states are their awaits, around the control
      plane of [Control], which moves by its own steps.  [RelayInv] is the
      invariant of the accounts, [RelayRun] the theorems about all runs,
      [RelayDemo] the runs that go wrong and the instances.
    - Configuration and start (config.rs, [ServiceBuilder] and [EggchaosService]
      of runtime/mod.rs, [serve] of the command line): [Config].
    - The admin API: [Metrics] (the text of the metrics, runtime/control.rs; the
      node, which is the service with its connections), [Admin] (admin.rs,
      operations.rs, native.rs, the inventory of routes.rs and the paths of the
      command line), [AdminRun] its theorems and instances.

    ** What the theorems show

    - Engine: under a preserving plan the engine refines a FIFO byte pipe; its
      invariant holds in all runs; limits, blackholes, terminations, stream loss
      and vectored writes do what their configuration says; a poll sends exactly
      due bytes, and a due queue drains.
    - Streams: policy transitions lose no bytes, evidence and terminations
      survive them, no byte is accepted under a stale policy; both directions of
      a bidirectional connection are byte-exact and reads answer.  Theorems about
      stalls, failed barriers and stranded output state where the code falls short
      of that.
    - Datagrams: the queue invariant, conservation of datagrams, exact ordered
      release, identity-scoped fate, bounded duplication, rate conformance.
    - Schedules: the compiler equals its declarative expansion; the fingerprint
      determines the schedule up to the ambiguities stated; prepared runs are on
      time, end, and replace nobody else's plans; the gate releases everyone.
    - Policy cells: publications of concurrent writers linearize.
    - Documents: schedules survive the trip to their wire form and back, toxics
      the trip to faults and back, with the exceptions stated.
    - Control plane: the invariant of proxies, supervisors and tracked tasks
      holds in every interleaving; no publication is lost; fault management
      refines an abstract store; shutdown joins every supervisor.  The theorems
      of [ControlDemo] are interleavings in which a call hangs, a listener is
      leaked or a request is undone.
    - Datagram server: in every interleaving of calls, listeners and workers the
      counts of associations are exact and within their limits, every published
      association is live and owned once, buffered bytes are accounted for, and
      no call, listener or waiter can hang.  The runtime with the actual workers
      refines that view; every datagram of an association is in one counter or
      one queue, and a cancelled worker ends.  [UdpRun] has interleavings that
      leak a listener or stop a proxy nobody asked to stop, [UdpAccounts] one in
      which a datagram is in no counter.
    - Service: the parts keep their invariants together, whatever interleaves;
      an event of a scenario that nobody interrupts does exactly what it says;
      the server is a [PolicyTargetOk], so the theorems of the schedule driver
      apply to it; the registry of runs is bounded and drops nothing alive.
      [ServiceRun] has interleavings in which a refused fault stays active, an
      acknowledged plan is overwritten, or a receipt is another's.
    - Connections: slots, accepted, completed and open connections reconcile in
      every interleaving, limits hold, no connection is closed twice, the tables
      of the counters sum to the totals; a supervisor raises its flag after its
      last connection, and always can.  [RelayRun] also has the abort that
      leaks a slot for ever, [RelayDemo] the purge that charges another proxy
      and the drain that loses its reason.
    - Configuration: a document that parses compiles, builds, and passes the
      check of the admin listener; a start that fails leaves listeners behind.
    - Admin API: the routes are those of the inventory; the path the command
      line writes for a fault reaches that fault, and a fault created over HTTP
      is what its path answers until it is deleted; a listener beyond the
      loopback answers nobody without its token; whatever requests interleave,
      the service keeps its invariants and every answer is in form.  No scrape
      repeats a series, except when a proxy is named like the overflow bucket.

    ** Conventions, bounds and fuel

    Integers are [Z] with each operation's wrapping, saturating or checked form
    written out; [usize] is 64 bits.  A [Duration] and an [Instant] are
    nanoseconds.  Poll functions take the index of their next clock reading and
    return the index after their last; a [Pin<&mut Self>] method is a function
    from the state to the answer and the new state.  Loops that recurse on data
    need no fuel.  [poll_queue] takes as fuel the bytes and segments queued
    ([queue_fuel]); every turn removes one of them.  The read loop of a
    bidirectional stream takes fuel that covers the bytes the transport can still
    deliver ([read_fuel] under the class [Backlog]), and that it is enough is
    part of the theorem on reads.  A server operation that keeps a lock over an
    await (joining a task under the lock of the proxy map) releases it first in
    the model, which allows the interleavings of the code and more (so with the lock of
    [scenario_tasks] while a shutdown joins); a request future is never dropped
    half way.  What a listener task does after it has
    resolved an association (reserving, sending, counting) is one step, as is a
    poll of a select.  A [HashMap] is iterated in the order of
    [map_to_list].  The driver needs no fuel: its wake ([run_woken]) is [None] when the timer
    never fires and nobody cancels, and then the run has no outcome; that
    deadlines the clock can reach do fire is the law [timers_fire] of the
    termination theorem.  The calls of a target always return.

    ** Parameters

    The Tokio clock and timers ([Env], [RunEnv]), the transports behind a stream,
    the cancellation token, other publishers ([RunEnv]), SHA-256, the HTTP server, what serde reads
    from a body ([AdminEnv]) and the [Notify] primitive are outside the
    repository.  They enter as class members
    or section variables with their documented behaviour as laws; the [Demo]
    files instantiate each with a concrete one.

    ** Not modelled

    Serde implementations, [Debug] and getters that only read a field; the memory
    orderings of atomics (each counter has one writer); waker registration, apart
    from the gate; poisoning of locks; [run_with_workload], which joins
    [run_from_epoch] with a caller's future.  Of the server: the bytes that a relay
    moves (egress_relay, over the streams of [Stream]); a running schedule is the driver of [Driver] over a target, and in [Service]
    it is what it does to the others, at any time; of the Toxiproxy crate its
    HTTP server.  The command
    line, the embedding and client adapters, the bindings, benchmarks and
    fuzzing are input and output around the components above. *)

From Stdlib Require Import Bool.
From stdpp Require Import base list gmap strings.
From Stdlib Require Export ZArith Lia.
#[global] Open Scope Z_scope.

(** ** Machine-width integers

    A [u64], [u128], [usize] or [u16] is a [Z] kept in range; each Rust
    operation on it is written out with the overflow behaviour it has.  The
    targets of the repository are 64-bit, so [usize] is 64 bits wide. *)

Definition U8_MAX : Z := 255.
Definition U16_MAX : Z := 65535.
Definition U64_MAX : Z := 18446744073709551615.
Definition USIZE_MAX : Z := U64_MAX.
Definition U128_MAX : Z := 340282366920938463463374607431768211455.
Definition TWO64 : Z := 18446744073709551616.

(** [Wrapping<u64>] and [u64::wrapping_*]. *)
Definition wrap64 (x : Z) : Z := x mod TWO64.
Definition wadd (a b : Z) : Z := wrap64 (a + b).
Definition wmul (a b : Z) : Z := wrap64 (a * b).
Definition wxorshr (a s : Z) : Z := Z.lxor a (Z.shiftr a s).
Definition rotl64 (a r : Z) : Z :=
  Z.lor (wrap64 (Z.shiftl a r)) (Z.shiftr a (64 - r)).

(** [saturating_add], [saturating_sub], [saturating_mul] at width [m]. *)
Definition sat_add (m a b : Z) : Z := Z.min (a + b) m.
Definition sat_mul (m a b : Z) : Z := Z.min (a * b) m.
Definition sat_sub (a b : Z) : Z := Z.max (a - b) 0.
Abbreviation sat_add64 := (sat_add U64_MAX).
Abbreviation sat_mul64 := (sat_mul U64_MAX).
Abbreviation sat_add128 := (sat_add U128_MAX).
Abbreviation sat_mul128 := (sat_mul U128_MAX).

Definition is_u64 (x : Z) : Prop := 0 <= x < TWO64.
Definition is_byte (x : Z) : Prop := 0 <= x <= U8_MAX.

(** ** Results, polls and their notation *)

Inductive result (A E : Type) : Type :=
| Ok (a : A)
| Err (e : E).
Arguments Ok {A E} a.
Arguments Err {A E} e.

Inductive poll (A : Type) : Type :=
| Ready (a : A)
| Pending.
Arguments Ready {A} a.
Arguments Pending {A}.

Declare Scope egg_scope.
Delimit Scope egg_scope with egg.
Notation "'let?' x ':=' c 'in' k" :=
  (match c with Ok x => k | Err e => Err e end)
  (at level 10, x name, c at level 200, k at level 200) : egg_scope.
#[global] Open Scope egg_scope.

(** [map_err], [Option::transpose] and [collect::<Result<Vec<_>, _>>()], which
    stops at the first error. *)
Definition map_err {A E F} (f : E -> F) (r : result A E) : result A F :=
  match r with Ok a => Ok a | Err e => Err (f e) end.
Definition try_map {A B E} (f : A -> result B E) (o : option A) : result (option B) E :=
  match o with None => Ok None | Some a => let? b := f a in Ok (Some b) end.
Fixpoint collect {A B E} (f : A -> result B E) (l : list A) : result (list B) E :=
  match l with
  | [] => Ok []
  | x :: l => let? y := f x in let? ys := collect f l in Ok (y :: ys)
  end.

Definition is_ok {A E} (r : result A E) : bool :=
  match r with Ok _ => true | Err _ => false end.
Definition is_pending {A} (p : poll A) : bool :=
  match p with Pending => true | Ready _ => false end.
Definition is_none {A} (o : option A) : bool :=
  match o with None => true | Some _ => false end.
Definition is_some {A} (o : option A) : bool := negb (is_none o).

(** ** Byte strings indexed by [Z]

    A Rust [Vec<u8>], [Bytes] or slice is a [list Z]; lengths and offsets are
    [Z] because they meet [u64] counters everywhere. *)

Abbreviation bytes := (list Z).
Definition zlen {A} (l : list A) : Z := Z.of_nat (length l).
Definition ztake {A} (n : Z) (l : list A) : list A := take (Z.to_nat n) l.
Definition zdrop {A} (n : Z) (l : list A) : list A := drop (Z.to_nat n) l.
Definition zsum (l : list Z) : Z := foldr Z.add 0 l.

(** ** Automation *)

Create HintDb egg.
Create Rewrite HintDb egg_rw.

(** Case analysis on the scrutinee of the outermost [match] or [if]. *)
Ltac case_split :=
  match goal with
  | |- context [if ?b then _ else _] => destruct b eqn:?
  | |- context [match ?x with _ => _ end] => destruct x eqn:?
  end.

Ltac case_split_in H :=
  match type of H with
  | context [if ?b then _ else _] => destruct b eqn:?
  | context [match ?x with _ => _ end] => destruct x eqn:?
  end.

(** Split conjunctions only, never a record. *)
Ltac conjs := repeat match goal with |- _ /\ _ => split end.

(** Boolean comparisons in the context as propositions. *)
Ltac bools :=
  repeat match goal with
  | H : _ && _ = true |- _ => apply andb_true_iff in H; destruct H
  | H : _ || _ = false |- _ => apply orb_false_iff in H; destruct H
  | H : negb _ = true |- _ => apply negb_true_iff in H
  | H : negb _ = false |- _ => apply negb_false_iff in H
  | H : (_ <=? _) = true |- _ => apply Z.leb_le in H
  | H : (_ <=? _) = false |- _ => apply Z.leb_gt in H
  | H : (_ <? _) = true |- _ => apply Z.ltb_lt in H
  | H : (_ <? _) = false |- _ => apply Z.ltb_ge in H
  | H : (_ =? _) = true |- _ => apply Z.eqb_eq in H
  | H : (_ =? _) = false |- _ => apply Z.eqb_neq in H
  | H : (_ >? _) = _ |- _ => rewrite Z.gtb_ltb in H
  | H : (_ >=? _) = _ |- _ => rewrite Z.geb_leb in H
  end.

(** Arithmetic with the saturating operations and constants unfolded. *)
Ltac sat := unfold sat_add, sat_mul, sat_sub, is_u64, is_byte, USIZE_MAX, U64_MAX,
  U128_MAX, U16_MAX, U8_MAX, TWO64 in *; lia.

(** ** Generic lemmas *)

Lemma zlen_nonneg {A} (l : list A) : 0 <= zlen l.
Proof. unfold zlen; lia. Qed.
Lemma zlen_nil {A} : zlen (@nil A) = 0.
Proof. reflexivity. Qed.
Lemma zlen_cons {A} (x : A) l : zlen (x :: l) = 1 + zlen l.
Proof. unfold zlen; simpl; lia. Qed.
Lemma zlen_app {A} (l k : list A) : zlen (l ++ k) = zlen l + zlen k.
Proof. unfold zlen; rewrite length_app; lia. Qed.
Lemma zlen_zero_inv {A} (l : list A) : zlen l = 0 -> l = [].
Proof. destruct l; [done|]. unfold zlen; simpl; lia. Qed.
Lemma zlen_map {A B} (f : A -> B) l : zlen (map f l) = zlen l.
Proof. unfold zlen; by rewrite length_map. Qed.

Lemma zlen_ztake {A} n (l : list A) : 0 <= n -> zlen (ztake n l) = Z.min n (zlen l).
Proof. unfold zlen, ztake; intros; rewrite length_take; lia. Qed.
Lemma zlen_zdrop {A} n (l : list A) : 0 <= n -> zlen (zdrop n l) = Z.max 0 (zlen l - n).
Proof. unfold zlen, zdrop; intros; rewrite length_drop; lia. Qed.
Lemma ztake_zdrop {A} n (l : list A) : ztake n l ++ zdrop n l = l.
Proof. apply take_drop. Qed.
Lemma ztake_all {A} n (l : list A) : zlen l <= n -> ztake n l = l.
Proof. unfold zlen, ztake; intros; apply take_ge; lia. Qed.
Lemma zdrop_all {A} n (l : list A) : zlen l <= n -> zdrop n l = [].
Proof. unfold zlen, zdrop; intros; apply drop_ge; lia. Qed.
Lemma ztake_0 {A} (l : list A) : ztake 0 l = [].
Proof. reflexivity. Qed.
Lemma zdrop_0 {A} (l : list A) : zdrop 0 l = l.
Proof. reflexivity. Qed.
Lemma ztake_nil {A} n : ztake n (@nil A) = [].
Proof. unfold ztake; apply take_nil. Qed.
Lemma zdrop_nil {A} n : zdrop n (@nil A) = [].
Proof. unfold zdrop; apply drop_nil. Qed.

Lemma collect_ok {A B E} (f : A -> result B E) l k :
  collect f l = Ok k <-> Forall2 (fun x y => f x = Ok y) l k.
Proof.
  revert k; induction l as [|x l IH]; intros k; cbn.
  - split; [intros [= <-]; constructor|]. intros H. by inversion H.
  - split.
    + destruct (f x) as [y|e] eqn:Ef; [|done]. destruct (collect f l) as [ys|e]; [|done].
      intros [= <-]. constructor; [done|]. by apply IH.
    + intros H. inversion H as [|? y ? ys Hy Hys]; subst. rewrite Hy. by rewrite (proj2 (IH ys) Hys).
Qed.

Lemma collect_map {A B C E} (g : A -> B) (f : B -> result C E) l : collect f (map g l) = collect (fun x => f (g x)) l.
Proof. induction l as [|x l IH]; cbn; [done|]. by rewrite IH. Qed.

Lemma collect_ext {A B E} (f g : A -> result B E) l : (forall x, x ∈ l -> f x = g x) -> collect f l = collect g l.
Proof.
  induction l as [|x l IH]; cbn; intros H; [done|]. rewrite (H x) by apply list_elem_of_here.
  rewrite IH; [done|]. intros y Hy. apply H. by apply list_elem_of_further.
Qed.

Lemma zdrop_zdrop {A} n m (l : list A) : 0 <= n -> 0 <= m -> zdrop n (zdrop m l) = zdrop (m + n) l.
Proof. intros; unfold zdrop; rewrite drop_drop; f_equal; lia. Qed.
Lemma ztake_ztake {A} n m (l : list A) : 0 <= n -> 0 <= m -> ztake n (ztake m l) = ztake (Z.min n m) l.
Proof. intros; unfold ztake; rewrite take_take; f_equal; lia. Qed.
Lemma ztake_app_l {A} n (l k : list A) : 0 <= n <= zlen l -> ztake n (l ++ k) = ztake n l.
Proof. unfold zlen, ztake; intros; rewrite take_app_le; [done|lia]. Qed.
Lemma ztake_app_r {A} n (l k : list A) : zlen l <= n -> ztake n (l ++ k) = l ++ ztake (n - zlen l) k.
Proof.
  unfold zlen, ztake; intros; rewrite take_app_ge by lia; do 2 f_equal; lia.
Qed.
Lemma ztake_split {A} n m (l : list A) : 0 <= n -> 0 <= m ->
  ztake (n + m) l = ztake n l ++ ztake m (zdrop n l).
Proof.
  intros; unfold ztake, zdrop.
  replace (Z.to_nat (n + m)) with (Z.to_nat n + Z.to_nat m)%nat by lia.
  symmetry; apply take_take_drop.
Qed.
Lemma ztake_zdrop_comm {A} n m (l : list A) : 0 <= n -> 0 <= m ->
  ztake m (zdrop n l) = zdrop n (ztake (n + m) l).
Proof.
  intros; unfold ztake, zdrop.
  replace (Z.to_nat (n + m)) with (Z.to_nat n + Z.to_nat m)%nat by lia.
  apply take_drop_commute.
Qed.

Lemma zsum_app l k : zsum (l ++ k) = zsum l + zsum k.
Proof. induction l; simpl; [done|]. rewrite IHl; lia. Qed.
Lemma zsum_nonneg l : Forall (fun x => 0 <= x) l -> 0 <= zsum l.
Proof. induction 1; simpl; lia. Qed.
Lemma zlen_concat {A} (ll : list (list A)) : zlen (concat ll) = zsum (map zlen ll).
Proof. induction ll; simpl; [done|]. by rewrite zlen_app, IHll. Qed.

#[export] Hint Rewrite @zlen_nil @zlen_cons @zlen_app @zlen_map @ztake_0 @zdrop_0 @ztake_nil
  @zdrop_nil zsum_app : egg_rw.
#[export] Hint Resolve zlen_nonneg : egg.

(** A duplicate scan over identities: the invariant of its set of seen ones. *)
Lemma fresh_ids_cons {A} (f : A -> string) x l (ids : gset string) :
  (NoDup (map f (x :: l)) /\ forall y, y ∈ (x :: l) -> f y ∉ ids)
  <-> (f x ∉ ids) /\ NoDup (map f l) /\ forall y, y ∈ l -> f y ∉ ({[f x]} ∪ ids).
Proof.
  cbn [map]. rewrite NoDup_cons. split.
  - intros ((Hx & Hn) & Hi). split; [apply Hi, list_elem_of_here|]. split; [done|].
    intros y Hy. rewrite elem_of_union, elem_of_singleton. intros [E|Hin].
    + apply Hx. rewrite <- E. apply list_elem_of_fmap. by exists y.
    + by apply (Hi y); [right|].
  - intros (Hx & Hn & Hi). split; [split; [|done]|].
    + intros (y & E & Hy)%list_elem_of_fmap. apply (Hi y Hy). rewrite elem_of_union, elem_of_singleton. by left.
    + intros y [->|Hy]%elem_of_cons; [done|]. intros Hin. apply (Hi y Hy). rewrite elem_of_union. by right.
Qed.

(** An unsaturated sum is the sum. *)
Lemma sat_add_le_inv m a b c : sat_add m a b <= c -> c < m -> a + b <= c.
Proof. unfold sat_add. lia. Qed.

Lemma wrap64_range x : is_u64 (wrap64 x).
Proof. unfold is_u64, wrap64. apply Z.mod_pos_bound. reflexivity. Qed.
Lemma wrap64_small x : is_u64 x -> wrap64 x = x.
Proof. intros; apply Z.mod_small; assumption. Qed.
Lemma wadd_range a b : is_u64 (wadd a b).
Proof. apply wrap64_range. Qed.
Lemma wmul_range a b : is_u64 (wmul a b).
Proof. apply wrap64_range. Qed.
#[export] Hint Resolve wrap64_range wadd_range wmul_range : egg.

(** ** Strings *)

Lemma string_length_app (s t : string) : String.length (s +:+ t) = (String.length s + String.length t)%nat.
Proof. induction s as [|c s IH]; [done|]. exact (f_equal S IH). Qed.

Lemma string_app_assoc (a b c : string) : (a +:+ b) +:+ c = a +:+ (b +:+ c).
Proof. induction a as [|x a IH]; [done|]. exact (f_equal (String x) IH). Qed.
