(* ===== verification/Rng.v ===== *)
(** * Deterministic randomness ([crates/eggchaos-core/src/rng.rs])

    Seed derivation and the SplitMix64-v1 generator, bit for bit.  A [&str] is
    a [string] of bytes; [Wrapping<u64>] arithmetic is [wadd]/[wmul].  The
    additions inside [Wrapping(... + c)] are plain [u64] additions: they wrap
    in the release profile, which is the value modelled, and the predicates
    named [*_adds_fit] say when a build with overflow checks does not panic. *)

From stdpp Require Import base list strings.
From S2P Require Import Prelude.

Inductive Direction := Upstream | Downstream.
#[export] Instance Direction_eq_dec : EqDecision Direction.
Proof. solve_decision. Defined.

Definition GOLDEN : Z := 0x9e3779b97f4a7c15.
Definition MIX1 : Z := 0xbf58476d1ce4e5b9.
Definition MIX2 : Z := 0x94d049bb133111eb.

(** The bytes of a Rust string slice. *)
Fixpoint as_bytes (s : string) : bytes :=
  match s with
  | EmptyString => []
  | String c s' => Z.of_N (Ascii.N_of_ascii c) :: as_bytes s'
  end.
Definition str_len (s : string) : Z := zlen (as_bytes s).

Definition splitmix (value : Z) : Z :=
  let value := wadd value GOLDEN in
  let z := value in
  let z := wmul (wxorshr z 30) MIX1 in
  let z := wmul (wxorshr z 27) MIX2 in
  wxorshr z 31.

(** One round of the per-byte folds: add, xor-shift, multiply. *)
Definition mix_round (h x s k : Z) : Z := wmul (wxorshr (wadd h x) s) k.

Definition fold_bytes (h : Z) (bs : bytes) : Z :=
  foldl (fun h byte => mix_round h (byte + 0x100) 30 MIX1) h bs.

(** Everything [derive_seed] folds in before the connection key. *)
Definition derive_seed_prefix (run_seed : Z) (proxy fault : string) : Z :=
  let h := wadd run_seed GOLDEN in
  let h := fold_bytes h (as_bytes proxy) in
  let h := mix_round h 0xff 29 MIX1 in
  let h := mix_round h (wadd (rotl64 (str_len proxy) 19) 0xa0) 27 MIX2 in
  let h := fold_bytes h (as_bytes fault) in
  mix_round h (wadd (rotl64 (str_len fault) 23) 0xb0) 27 MIX2.

Definition direction_tag (d : Direction) : Z :=
  match d with Upstream => 0x5550 | Downstream => 0x444e end.

Definition derive_seed (run_seed : Z) (proxy : string) (connection_key : Z)
    (direction : Direction) (fault : string) : Z :=
  let h := derive_seed_prefix run_seed proxy fault in
  let h := wadd h (rotl64 connection_key 17) in
  let h := wadd h (direction_tag direction) in
  splitmix h.

Definition derive_policy_seed (scenario_seed run_id event_index : Z) : Z :=
  let h := wadd scenario_seed GOLDEN in
  let h := mix_round h (wadd (rotl64 run_id 13) 0x100) 29 MIX1 in
  let h := mix_round h (wadd (rotl64 event_index 31) 0x200) 27 MIX2 in
  splitmix (Z.lxor h 0x51edee155eed5eed).

(** [u64::from_le_bytes]. *)
Fixpoint from_le_bytes (bs : bytes) : Z :=
  match bs with
  | [] => 0
  | b :: bs' => b + 256 * from_le_bytes bs'
  end.

(** [schedule_fingerprint.chunks(8)] of a 32-byte array. *)
Definition fingerprint_lanes (fp : bytes) : list Z :=
  map (fun i => from_le_bytes (take 8 (drop (8 * i) fp))) [0; 1; 2; 3]%nat.

Definition derive_schedule_policy_seed (scenario_seed execution_key : Z)
    (schedule_fingerprint : bytes) (compiled_event_index : Z) : Z :=
  let h := wadd scenario_seed GOLDEN in
  let h := mix_round h (wadd (rotl64 execution_key 7) 0x100) 29 MIX1 in
  let h := foldl (fun h lane => mix_round h (wadd (rotl64 lane 11) 0x300) 23 MIX2) h
             (fingerprint_lanes schedule_fingerprint) in
  let h := mix_round h (wadd (rotl64 compiled_event_index 23) 0x400) 27 MIX2 in
  splitmix (Z.lxor h 0x547c0dec0dec0dec).

(** The plain [u64] additions of [derive_schedule_policy_seed] stay in range. *)
Definition schedule_adds_fit (execution_key : Z) (fp : bytes) (index : Z) : bool :=
  (rotl64 execution_key 7 + 0x100 <=? U64_MAX)
  && forallb (fun lane => rotl64 lane 11 + 0x300 <=? U64_MAX) (fingerprint_lanes fp)
  && (rotl64 index 23 + 0x400 <=? U64_MAX).

Definition derive_stream_loss_seed (run_seed : Z) (proxy : string) (connection_key : Z)
    (direction : Direction) (fault : string) : Z :=
  wadd (derive_seed run_seed proxy connection_key direction fault) 0x57524d5f4348554e.

(** [derive_datagram_seed] of datagram.rs. *)
Definition derive_datagram_seed (seed_namespace : Z) (proxy : string) (association : Z)
    (direction : Direction) (fault : string) : Z :=
  Z.lxor (derive_seed seed_namespace proxy association direction fault) 0xd47a6a4a00000001.

(** ** The generator *)

Record DeterministicRng := { rng_state : Z }.

Definition rng_new (seed : Z) : DeterministicRng := {| rng_state := seed |}.

Definition next_u64 (r : DeterministicRng) : Z * DeterministicRng :=
  let state := wadd (rng_state r) GOLDEN in
  (splitmix state, {| rng_state := state |}).

Definition below (r : DeterministicRng) (upper : Z) : Z * DeterministicRng :=
  let '(v, r') := next_u64 r in
  if upper =? 0 then (0, r') else (v mod upper, r').

(** The [n]-th value drawn from a generator. *)
Fixpoint nth_output (r : DeterministicRng) (n : nat) : Z :=
  match n with
  | O => (next_u64 r).1
  | S n' => nth_output (next_u64 r).2 n'
  end.

(** ** Bijectivity of the mixing steps *)

Lemma wxorshr_inj a b s :
  0 <= a -> 0 <= b -> 0 < s -> wxorshr a s = wxorshr b s -> a = b.
Proof.
  unfold wxorshr; intros Ha Hb Hs E.
  set (d := Z.lxor a b).
  assert (Hd : 0 <= d) by (apply Z.lxor_nonneg; lia).
  assert (Ed : d = Z.shiftr d s).
  { unfold d. rewrite Z.shiftr_lxor. apply Z.lxor_eq.
    rewrite <- (Z.lxor_nilpotent (Z.lxor a (Z.shiftr a s))). rewrite E at 2.
    rewrite !Z.lxor_assoc. f_equal. rewrite <- !Z.lxor_assoc.
    by rewrite (Z.lxor_comm b (Z.shiftr a s)). }
  rewrite Z.shiftr_div_pow2 in Ed by lia.
  assert (1 < 2 ^ s) by (apply Z.pow_gt_1; lia).
  destruct (Z.eq_dec d 0) as [E0|]; [by apply Z.lxor_eq|].
  assert (d / 2 ^ s < d) by (apply Z.div_lt; lia). lia.
Qed.

Lemma lxor_u64 a b : is_u64 a -> is_u64 b -> is_u64 (Z.lxor a b).
Proof.
  unfold is_u64; intros Ha Hb.
  assert (0 <= Z.lxor a b) by (apply Z.lxor_nonneg; lia).
  split; [lia|]. destruct (Z.eq_dec (Z.lxor a b) 0) as [->|]; [reflexivity|].
  change TWO64 with (2 ^ 64) in *. apply Z.log2_lt_pow2; [lia|].
  eapply Z.le_lt_trans; [by apply Z.log2_lxor; lia|].
  assert (forall x, 0 <= x < 2 ^ 64 -> Z.log2 x < 64).
  { intros x Hx. destruct (Z.eq_dec x 0) as [->|]; [reflexivity|]. apply Z.log2_lt_pow2; lia. }
  apply Z.max_lub_lt; auto.
Qed.

Lemma shiftr_u64 a s : is_u64 a -> 0 <= s -> is_u64 (Z.shiftr a s).
Proof.
  unfold is_u64; intros Ha Hs. rewrite Z.shiftr_div_pow2 by lia.
  assert (0 < 2 ^ s) by (apply Z.pow_pos_nonneg; lia).
  split; [apply Z.div_pos; lia|].
  apply Z.div_lt_upper_bound; [lia|]. unfold TWO64 in *; nia.
Qed.

Lemma wxorshr_range a s : is_u64 a -> 0 <= s -> is_u64 (wxorshr a s).
Proof. intros; unfold wxorshr; auto using lxor_u64, shiftr_u64. Qed.
#[export] Hint Resolve wxorshr_range lxor_u64 shiftr_u64 : egg.

Lemma wadd_inj_l c a b : is_u64 a -> is_u64 b -> wadd c a = wadd c b -> a = b.
Proof.
  unfold wadd, wrap64, is_u64; intros Ha Hb E.
  rewrite <- (Z.mod_small a TWO64 Ha), <- (Z.mod_small b TWO64 Hb).
  replace a with (c + a - c) at 1 by lia. replace b with (c + b - c) at 1 by lia.
  by rewrite Zminus_mod, E, <- Zminus_mod.
Qed.

Lemma wadd_inj_r c a b : is_u64 a -> is_u64 b -> wadd a c = wadd b c -> a = b.
Proof. unfold wadd; rewrite !(Z.add_comm _ c). apply wadd_inj_l. Qed.

(** Multiplication by a constant with a known inverse modulo [2^64]. *)
Lemma wmul_inj k kinv a b :
  (k * kinv) mod TWO64 = 1 -> is_u64 a -> is_u64 b -> wmul a k = wmul b k -> a = b.
Proof.
  unfold wmul, wrap64, is_u64; intros Hk Ha Hb E.
  assert (R : forall x, 0 <= x < TWO64 -> ((x * k) mod TWO64 * kinv) mod TWO64 = x).
  { intros x Hx. rewrite Zmult_mod_idemp_l, <- Z.mul_assoc, Zmult_mod, Hk, Z.mul_1_r.
    rewrite Zmod_mod. by apply Z.mod_small. }
  rewrite <- (R a Ha), <- (R b Hb). by rewrite E.
Qed.

Definition MIX1_INV : Z := 0x96de1b173f119089.
Definition MIX2_INV : Z := 0x319642b2d24d8ec3.

Lemma mix_round_inj h x y s k kinv :
  (k * kinv) mod TWO64 = 1 -> 0 < s -> is_u64 x -> is_u64 y ->
  mix_round h x s k = mix_round h y s k -> x = y.
Proof.
  unfold mix_round; intros Hk Hs Hx Hy E.
  apply wmul_inj with (kinv := kinv) in E; auto with egg zarith;
    try (apply wxorshr_range; [apply wadd_range|lia]).
  apply wxorshr_inj in E; [|apply wadd_range..|lia].
  by apply wadd_inj_l in E.
Qed.

Lemma splitmix_inj a b : is_u64 a -> is_u64 b -> splitmix a = splitmix b -> a = b.
Proof.
  unfold splitmix; intros Ha Hb E.
  apply wxorshr_inj in E; [|apply wmul_range..|lia].
  apply (wmul_inj MIX2 MIX2_INV) in E; [|reflexivity|(apply wxorshr_range; [apply wmul_range|lia])..].
  apply wxorshr_inj in E; [|apply wmul_range..|lia].
  apply (wmul_inj MIX1 MIX1_INV) in E; [|reflexivity|(apply wxorshr_range; [apply wadd_range|lia])..].
  apply wxorshr_inj in E; [|apply wadd_range..|lia].
  by apply wadd_inj_r in E.
Qed.

Lemma splitmix_range a : is_u64 (splitmix a).
Proof. unfold splitmix. apply wxorshr_range; [apply wmul_range|lia]. Qed.
#[export] Hint Resolve splitmix_range : egg.

Lemma rotl64_arith a r : is_u64 a -> 0 < r < 64 ->
  rotl64 a r = (a mod 2 ^ (64 - r)) * 2 ^ r + a / 2 ^ (64 - r).
Proof.
  unfold is_u64, rotl64, wrap64; intros Ha Hr.
  change TWO64 with (2 ^ 64) in *.
  rewrite Z.shiftl_mul_pow2, Z.shiftr_div_pow2 by lia.
  replace (2 ^ 64) with (2 ^ (64 - r) * 2 ^ r) by (rewrite <- Z.pow_add_r by lia; f_equal; lia).
  rewrite Z.mul_mod_distr_r by (apply Z.pow_nonzero; lia).
  assert (Hq : 0 <= a / 2 ^ (64 - r) < 2 ^ r).
  { split; [apply Z.div_pos; [lia|apply Z.pow_pos_nonneg; lia]|].
    apply Z.div_lt_upper_bound; [apply Z.pow_pos_nonneg; lia|].
    rewrite <- Z.pow_add_r by lia. replace (64 - r + r) with 64 by lia. lia. }
  rewrite <- Z.shiftl_mul_pow2 by lia.
  symmetry; apply Z.add_nocarry_lor. apply Z.bits_inj'; intros n Hn.
  rewrite Z.land_spec, Z.bits_0, Z.shiftl_spec by lia.
  destruct (Z.lt_ge_cases n r); [by rewrite Z.testbit_neg_r by lia|].
  rewrite (Z.bits_above_log2 (a / _)); [apply andb_false_r|lia|].
  destruct (Z.eq_dec (a / 2 ^ (64 - r)) 0) as [->|]; [simpl; lia|].
  apply Z.log2_lt_pow2; [lia|]. eapply Z.lt_le_trans; [apply Hq|]. apply Z.pow_le_mono_r; lia.
Qed.

Lemma rotl64_range a r : is_u64 a -> 0 < r < 64 -> is_u64 (rotl64 a r).
Proof.
  intros Ha Hr; rewrite rotl64_arith by done. unfold is_u64 in *.
  change TWO64 with (2 ^ 64) in *.
  assert (E : 2 ^ 64 = 2 ^ (64 - r) * 2 ^ r) by (rewrite <- Z.pow_add_r by lia; f_equal; lia).
  assert (0 < 2 ^ (64 - r)) by (apply Z.pow_pos_nonneg; lia).
  assert (0 < 2 ^ r) by (apply Z.pow_pos_nonneg; lia).
  pose proof (Z.mod_pos_bound a (2 ^ (64 - r)) ltac:(lia)).
  assert (0 <= a / 2 ^ (64 - r)) by (apply Z.div_pos; lia).
  assert (a / 2 ^ (64 - r) < 2 ^ r) by (apply Z.div_lt_upper_bound; lia).
  nia.
Qed.

Lemma rotl64_inj a b r : is_u64 a -> is_u64 b -> 0 < r < 64 -> rotl64 a r = rotl64 b r -> a = b.
Proof.
  intros Ha Hb Hr. rewrite !rotl64_arith by done. unfold is_u64 in *.
  assert (P : 0 < 2 ^ (64 - r)) by (apply Z.pow_pos_nonneg; lia).
  assert (Q : 0 < 2 ^ r) by (apply Z.pow_pos_nonneg; lia).
  assert (B : forall x, 0 <= x < TWO64 -> 0 <= x / 2 ^ (64 - r) < 2 ^ r).
  { intros x Hx. split; [apply Z.div_pos; lia|]. apply Z.div_lt_upper_bound; [lia|].
    rewrite <- Z.pow_add_r by lia. replace (64 - r + r) with 64 by lia. apply Hx. }
  intros E.
  rewrite (Z.div_mod a (2 ^ (64 - r))), (Z.div_mod b (2 ^ (64 - r))) by lia.
  pose proof (B a Ha); pose proof (B b Hb).
  assert (a mod 2 ^ (64 - r) = b mod 2 ^ (64 - r)) by nia.
  nia.
Qed.

(** ** Golden vectors of the repository's own tests *)

Example golden_next_u64 :
  let '(a, r) := next_u64 (rng_new 42) in
  (a, (next_u64 r).1) = (2949826092126892291, 5139283748462763858).
Proof. vm_compute. reflexivity. Qed.
Example golden_derive_seed :
  derive_seed 42 "proxy" 7 Upstream "latency" = 1461454122856154019.
Proof. vm_compute. reflexivity. Qed.
Example golden_policy_seed :
  map (fun '(s, r, i) => derive_policy_seed s r i) [(7, 1, 0); (7, 1, 1); (8, 1, 0)]
  = [4026889766568732747; 11250473848183634583; 3937417822122820953].
Proof. vm_compute. reflexivity. Qed.
Definition fingerprint_a : bytes :=
  [0x9c; 0x4f; 0x83; 0x42; 0xfe; 0x16; 0xa1; 0x07; 0xd2; 0x10; 0x70; 0x7f; 0x82; 0x2b; 0x42; 0x71;
   0x01; 0xee; 0x55; 0x9c; 0x18; 0xab; 0x2d; 0xe3; 0x7c; 0x6f; 0x4d; 0x14; 0x29; 0xc7; 0x73; 0x90].
Example golden_schedule_seed :
  map (fun '(s, i) => derive_schedule_policy_seed s 1 fingerprint_a i) [(7, 0); (7, 1); (8, 0)]
  = [11956359045004790358; 10516128691288792563; 3838218024120561196].
Proof. vm_compute. reflexivity. Qed.
Example golden_datagram_seed :
  derive_datagram_seed 42 "proxy" 7 Upstream "loss" = 8567709853283824039.
Proof. vm_compute. reflexivity. Qed.

(** ** Properties *)

Lemma direction_tag_range d : is_u64 (direction_tag d).
Proof. destruct d; split; vm_compute; congruence. Qed.

Lemma lxor_inj_l c a b : Z.lxor c a = Z.lxor c b -> a = b.
Proof.
  intros E. apply (f_equal (Z.lxor c)) in E.
  by rewrite <- !Z.lxor_assoc, Z.lxor_nilpotent, !Z.lxor_0_l in E.
Qed.

Lemma derive_seed_unfold rs p k d f :
  derive_seed rs p k d f
  = splitmix (wadd (wadd (derive_seed_prefix rs p f) (rotl64 k 17)) (direction_tag d)).
Proof. reflexivity. Qed.

(** connection identity is not lost by seed derivation.  For one run seed,
    proxy and fault, two connections of the same direction never share a seed,
    and the two directions of one connection never share a seed. *)
Theorem derive_seed_separates (run_seed : Z) (proxy fault : string) (k1 k2 : Z) (d1 d2 : Direction)
    (Hk1 : is_u64 k1) (Hk2 : is_u64 k2) (Hone : d1 = d2 \/ k1 = k2)
    (Heq : derive_seed run_seed proxy k1 d1 fault = derive_seed run_seed proxy k2 d2 fault) :
  k1 = k2 /\ d1 = d2.
Proof.
  rewrite !derive_seed_unfold in Heq. generalize dependent (derive_seed_prefix run_seed proxy fault).
  intros h Heq. apply splitmix_inj in Heq; [|apply wadd_range..].
  destruct Hone as [->| ->].
  - apply wadd_inj_r in Heq; [|apply wadd_range..].
    apply wadd_inj_l in Heq; [|apply rotl64_range; auto; lia..].
    apply rotl64_inj in Heq; auto; lia.
  - apply wadd_inj_l in Heq; [|apply direction_tag_range..].
    split; [done|]. by destruct d1, d2.
Qed.

Lemma derive_seed_separates_witness :
  7 = 7 /\ Upstream = Upstream.
Proof.
  apply (derive_seed_separates 42 "proxy" "latency" 7 7 Upstream Upstream);
    [by split|by split|by left|reflexivity].
Defined.

Lemma next_state_closed r n :
  nth_output r n = splitmix (wadd (rng_state r) ((Z.of_nat n + 1) * GOLDEN)).
Proof.
  revert r; induction n as [|n IH]; intros r; cbn [nth_output next_u64 fst snd].
  - by rewrite Z.mul_1_l.
  - rewrite IH; cbn [rng_state]. f_equal. unfold wadd, wrap64.
    rewrite Zplus_mod_idemp_l. f_equal. lia.
Qed.

Definition GOLDEN_INV : Z := 0xf1de83e19937733d.

(** The Weyl sequence of states does not revisit a state within a cycle. *)
Lemma weyl_inj s i j :
  0 <= i < TWO64 -> 0 <= j < TWO64 ->
  wadd s ((i + 1) * GOLDEN) = wadd s ((j + 1) * GOLDEN) -> i = j.
Proof.
  intros Hi Hj E.
  assert (E1 : wrap64 ((i + 1) * GOLDEN) = wrap64 ((j + 1) * GOLDEN)).
  { apply (wadd_inj_l s); [apply wrap64_range..|]. unfold wadd, wrap64 in *.
    by rewrite !Zplus_mod_idemp_r. }
  assert (E2 : wmul (wadd 1 i) GOLDEN = wmul (wadd 1 j) GOLDEN).
  { unfold wmul, wadd, wrap64 in *. rewrite !Zmult_mod_idemp_l, !(Z.add_comm 1). exact E1. }
  apply (wmul_inj GOLDEN GOLDEN_INV) in E2; [|reflexivity|apply wadd_range..].
  by apply wadd_inj_l in E2.
Qed.

(** the generator has full period.  Over one whole cycle of [2^64] draws,
    whatever the seed, no raw value is ever repeated. *)
Theorem rng_full_period (seed : Z) (i j : nat)
    (Hi : Z.of_nat i < TWO64) (Hj : Z.of_nat j < TWO64)
    (Heq : nth_output (rng_new seed) i = nth_output (rng_new seed) j) : i = j.
Proof.
  rewrite !next_state_closed in Heq. apply splitmix_inj in Heq; [|apply wadd_range..].
  apply weyl_inj in Heq; lia.
Qed.

Lemma rng_full_period_witness : 2%nat = 2%nat.
Proof. apply (rng_full_period 42 2 2); reflexivity. Defined.

(** The last folding round and the finaliser, with their prefix abstracted. *)
Definition seed_tail (h index r c salt : Z) : Z :=
  splitmix (Z.lxor (mix_round h (wadd (rotl64 index r) c) 27 MIX2) salt).

Lemma seed_tail_inj h r c salt i j :
  is_u64 i -> is_u64 j -> 0 < r < 64 -> is_u64 salt ->
  seed_tail h i r c salt = seed_tail h j r c salt -> i = j.
Proof.
  unfold seed_tail; intros Hi Hj Hr Hs E.
  apply splitmix_inj in E; [|apply lxor_u64; [apply wmul_range|done]..].
  rewrite !(Z.lxor_comm _ salt) in E. apply lxor_inj_l in E.
  apply (mix_round_inj _ _ _ _ _ MIX2_INV) in E; [|reflexivity|lia|apply wadd_range..].
  apply wadd_inj_r in E; [|apply rotl64_range; auto..].
  by apply rotl64_inj in E.
Qed.

Lemma derive_policy_seed_tail s r i :
  derive_policy_seed s r i
  = seed_tail (mix_round (wadd s GOLDEN) (wadd (rotl64 r 13) 0x100) 29 MIX1) i
      31 0x200 0x51edee155eed5eed.
Proof. unfold derive_policy_seed, seed_tail. reflexivity. Qed.
Lemma derive_schedule_policy_seed_tail s k fp i :
  derive_schedule_policy_seed s k fp i
  = seed_tail
      (foldl (fun h lane => mix_round h (wadd (rotl64 lane 11) 0x300) 23 MIX2)
         (mix_round (wadd s GOLDEN) (wadd (rotl64 k 7) 0x100) 29 MIX1) (fingerprint_lanes fp))
      i 23 0x400 0x547c0dec0dec0dec.
Proof. unfold derive_schedule_policy_seed, seed_tail. reflexivity. Qed.

(** Policy seed namespaces separate scenario events.  Within one run two
    event indices never share a derived namespace (v1), and within one portable
    schedule two compiled event indices never share one (v2). *)
Theorem policy_seeds_separate_events (seed run : Z) (fp : bytes) (i j : Z)
    (Hi : is_u64 i) (Hj : is_u64 j) (Hne : i <> j) :
  derive_policy_seed seed run i <> derive_policy_seed seed run j
  /\ derive_schedule_policy_seed seed run fp i <> derive_schedule_policy_seed seed run fp j.
Proof.
  rewrite !derive_policy_seed_tail, !derive_schedule_policy_seed_tail. split; intros E; apply Hne;
    (apply seed_tail_inj in E; [done|done|done|lia|split; vm_compute; congruence]).
Qed.

Lemma policy_seeds_separate_events_witness :
  derive_policy_seed 7 1 0 <> derive_policy_seed 7 1 1
  /\ derive_schedule_policy_seed 7 1 fingerprint_a 0 <> derive_schedule_policy_seed 7 1 fingerprint_a 1.
Proof. apply (policy_seeds_separate_events 7 1 fingerprint_a 0 1); [split; by vm_compute..|lia]. Defined.

Lemma derive_seed_range rs p k d f : is_u64 (derive_seed rs p k d f).
Proof. apply splitmix_range. Qed.

(** The activation draw, the stream-loss chunk draw and the datagram draw
    of one fault identity never start from the same seed. *)
Theorem seed_domains_disjoint (rs : Z) (proxy fault : string) (k : Z) (d : Direction) :
  derive_stream_loss_seed rs proxy k d fault <> derive_seed rs proxy k d fault
  /\ derive_datagram_seed rs proxy k d fault <> derive_seed rs proxy k d fault.
Proof.
  unfold derive_stream_loss_seed, derive_datagram_seed.
  pose proof (derive_seed_range rs proxy k d fault) as Hr.
  set (s := derive_seed _ _ _ _ _) in *. split; intros E.
  - assert (E' : wadd s 0x57524d5f4348554e = wadd s 0).
    { rewrite E. unfold wadd. rewrite Z.add_0_r. by rewrite wrap64_small. }
    apply wadd_inj_l in E'; [discriminate|split; vm_compute; congruence..].
  - rewrite <- (Z.lxor_0_r s) in E at 2. apply lxor_inj_l in E. discriminate.
Qed.

(** The plain [u64] additions in the schedule derivation can overflow: an
    [execution_key] whose rotation is within [0x100] of [2^64], such as
    [u64::MAX], makes a build with overflow checks panic. *)
Theorem schedule_seed_addition_can_overflow (fp : bytes) (index : Z) :
  schedule_adds_fit U64_MAX fp index = false.
Proof. unfold schedule_adds_fit. replace (rotl64 U64_MAX 7) with U64_MAX by reflexivity. reflexivity. Qed.

Lemma next_u64_range r : is_u64 (next_u64 r).1.
Proof. apply splitmix_range. Qed.

Lemma below_range r upper : 0 < upper -> 0 <= (below r upper).1 < upper.
Proof.
  intros H; unfold below; cbn. destruct (Z.eqb_spec upper 0); [lia|]. cbn.
  apply Z.mod_pos_bound; lia.
Qed.
Lemma below_nonneg r upper : 0 <= upper -> 0 <= (below r upper).1.
Proof.
  intros H; destruct (Z.eq_dec upper 0) as [->|]; [by unfold below; cbn|].
  apply below_range; lia.
Qed.
#[export] Hint Resolve next_u64_range below_range below_nonneg : egg.
