(* ===== verification/Float64.v ===== *)
(** * IEEE-754 doubles and probability decisions

    [f64] is the standard library's executable specification of binary64
    ([SpecFloat], precision 53, exponent bound 1024).  This file holds the
    floating-point operations the code uses, [Probability] of
    [crates/eggchaos-core/src/plan.rs] and [DeterministicRng::bernoulli] of
    [crates/eggchaos-core/src/rng.rs], and shows that the integer threshold the
    code computes through [f64] is exact. *)

From stdpp Require Import base list.
From Stdlib Require Import SpecFloat.
From S2P Require Import Prelude Rng.

Definition f64 : Type := spec_float.
Definition f64_prec : Z := 53.
Definition f64_emax : Z := 1024.

Definition f64_mul : f64 -> f64 -> f64 := SFmul f64_prec f64_emax.
Definition f64_add : f64 -> f64 -> f64 := SFadd f64_prec f64_emax.
Definition f64_of_Z (z : Z) : f64 := binary_normalize f64_prec f64_emax z 0 false.
Definition f64_zero : f64 := S754_zero false.
Definition f64_one : f64 := f64_of_Z 1.

Definition f64_is_nan (x : f64) : bool := match x with S754_nan => true | _ => false end.
Definition f64_is_finite (x : f64) : bool :=
  match x with S754_zero _ | S754_finite _ _ _ => true | _ => false end.

(** [f64::min]: a NaN operand is ignored. *)
Definition f64_min (x y : f64) : f64 :=
  if f64_is_nan x then y else if f64_is_nan y then x else if SFltb y x then y else x.

(** [x as u64]: truncate toward zero, saturate, NaN to zero. *)
Definition f64_to_u64 (x : f64) : Z :=
  match x with
  | S754_nan | S754_zero _ | S754_infinity true => 0
  | S754_infinity false => U64_MAX
  | S754_finite true _ _ => 0
  | S754_finite false m e => Z.min U64_MAX (Z.shiftl (Zpos m) e)
  end.

(** ** [Probability] (plan.rs) *)

Definition Probability : Type := f64.

Definition probability_in_range (value : f64) : bool :=
  f64_is_finite value && (SFleb f64_zero value && SFleb value f64_one).

Definition probability_new (value : f64) : option Probability :=
  if probability_in_range value then Some value else None.

(** ** [DeterministicRng::bernoulli] (rng.rs) *)

Definition bernoulli_threshold (probability : f64) : Z :=
  f64_to_u64 (f64_mul probability (f64_of_Z U64_MAX)).

Definition bernoulli (r : DeterministicRng) (probability : f64) : bool * DeterministicRng :=
  if f64_is_nan probability || SFleb probability f64_zero then (false, r)
  else if SFleb f64_one probability then (true, r)
  else
    let threshold := bernoulli_threshold probability in
    let '(v, r') := next_u64 r in
    (v <? threshold, r').

(** ** Exactness of the threshold *)

Lemma digits2_pos_size m : Zpos (digits2_pos m) = Z.log2 (Zpos m) + 1.
Proof.
  induction m as [m IH|m IH|]; cbn [digits2_pos]; [| |reflexivity];
    rewrite Pos2Z.inj_succ, IH.
  - change (Zpos m~1) with (2 * Zpos m + 1). rewrite Z.log2_succ_double by lia. lia.
  - change (Zpos m~0) with (2 * Zpos m). rewrite Z.log2_double by lia. lia.
Qed.

Lemma log2_mul_pow2 m k : 0 < m -> 0 <= k -> Z.log2 (m * 2 ^ k) = k + Z.log2 m.
Proof. intros. by apply Z.log2_mul_pow2. Qed.

Lemma iter_pos_comm {A} (f : A -> A) n x :
  SpecFloat.iter_pos f n (f x) = f (SpecFloat.iter_pos f n x).
Proof. revert x; induction n as [n IH|n IH|]; intros x; simpl; rewrite ?IH; reflexivity. Qed.

Lemma iter_pos_succ {A} (f : A -> A) n x :
  SpecFloat.iter_pos f (Pos.succ n) x = f (SpecFloat.iter_pos f n x).
Proof.
  revert x. induction n as [n IH|n IH|]; intros x; simpl; rewrite ?IH, ?iter_pos_comm; done.
Qed.

(** Shifting out zero bits is exact: no round or sticky bit is set. *)
Lemma shr_1_exact m : 0 < m ->
  shr_1 {| shr_m := 2 * m; shr_r := false; shr_s := false |}
  = {| shr_m := m; shr_r := false; shr_s := false |}.
Proof. intros; destruct m as [|p|p]; [lia| |lia]; reflexivity. Qed.

Lemma iter_shr_exact n m : 0 < m ->
  SpecFloat.iter_pos shr_1 n {| shr_m := m * 2 ^ Zpos n; shr_r := false; shr_s := false |}
  = {| shr_m := m; shr_r := false; shr_s := false |}.
Proof.
  revert m; induction n as [|n IH] using Pos.peano_ind; intros m Hm.
  - cbn [SpecFloat.iter_pos]. rewrite <- (shr_1_exact m) by done. f_equal. f_equal. lia.
  - rewrite iter_pos_succ. rewrite <- (shr_1_exact m) by done. f_equal.
    rewrite <- (IH (2 * m)) by lia. do 2 f_equal. rewrite Pos2Z.inj_succ, Z.pow_succ_r by lia. lia.
Qed.

Lemma shr_exact n m e : 0 < m -> 0 <= n ->
  shr {| shr_m := m * 2 ^ n; shr_r := false; shr_s := false |} e n
  = ({| shr_m := m; shr_r := false; shr_s := false |}, e + n).
Proof.
  intros Hm Hn. destruct n as [|n|n]; [|by cbn [shr]; rewrite iter_shr_exact|lia].
  cbn. rewrite Z.mul_1_r, Z.add_0_r. done.
Qed.

Lemma Zdigits2_pos m : 0 < m -> Zdigits2 m = Z.log2 m + 1.
Proof. intros; destruct m; [lia| |lia]. apply digits2_pos_size. Qed.

(** Rounding does nothing to a mantissa that is a 53-bit number followed by
    zeros, when the exponent range allows it. *)
Lemma binary_round_aux_exact m k e :
  0 < m -> 0 <= k ->
  fexp f64_prec f64_emax (Z.log2 m + 1 + k + e) = e + k ->
  e + k <= f64_emax - f64_prec ->
  binary_round_aux f64_prec f64_emax false (m * 2 ^ k) e loc_Exact
  = S754_finite false (Z.to_pos m) (e + k).
Proof.
  intros Hm Hk Hf He. unfold binary_round_aux, shr_fexp.
  rewrite Zdigits2_pos by (apply Z.mul_pos_pos; [done|]; apply Z.pow_pos_nonneg; lia).
  rewrite log2_mul_pow2 by lia.
  replace (k + Z.log2 m + 1 + e) with (Z.log2 m + 1 + k + e) by lia. rewrite Hf.
  replace (e + k - e) with k by lia. cbn [shr_record_of_loc]. rewrite shr_exact by done.
  cbn [shr_m loc_of_shr_record round_nearest_even]. rewrite Zdigits2_pos by done.
  replace (Z.log2 m + 1 + (e + k)) with (Z.log2 m + 1 + k + e) by lia. rewrite Hf.
  rewrite Z.sub_diag. cbn [shr shr_record_of_loc shr_m].
  destruct m as [|p|p]; [lia| |lia].
  destruct (Z.leb_spec (e + k) (f64_emax - f64_prec)); [done|lia].
Qed.

Lemma u64_max_as_f64 : f64_of_Z U64_MAX = S754_finite false 4503599627370496 12.
Proof. vm_compute. reflexivity. Qed.

Lemma valid_f64_cases m e : bounded f64_prec f64_emax m e = true ->
  e <= 971 /\ ((Z.log2 (Zpos m) = 52 /\ -1074 <= e) \/ (Z.log2 (Zpos m) <= 52 /\ e = -1074)).
Proof.
  unfold bounded, canonical_mantissa, fexp, emin, f64_prec, f64_emax. rewrite digits2_pos_size.
  intros H; bools. lia.
Qed.

Lemma f64_mul_two64 m e :
  bounded f64_prec f64_emax m e = true -> e <= 0 ->
  exists m' e', f64_mul (S754_finite false m e) (f64_of_Z U64_MAX) = S754_finite false m' e'
    /\ e' <= e + 64 /\ Zpos m' = Zpos m * 2 ^ (e + 64 - e').
Proof.
  intros Hb He. apply valid_f64_cases in Hb. rewrite u64_max_as_f64.
  unfold f64_mul, SFmul. cbn [xorb].
  set (l := Z.log2 (Zpos m)) in *.
  assert (Hl : 0 <= l) by apply Z.log2_nonneg.
  (* the mantissa grows to 53 bits, the remaining zeros are shifted out *)
  assert (E : Zpos (m * 4503599627370496) = (Zpos m * 2 ^ (52 - l)) * 2 ^ l).
  { rewrite <- Z.mul_assoc, <- Z.pow_add_r by lia. rewrite Pos2Z.inj_mul.
    f_equal. replace (52 - l + l) with 52 by lia. reflexivity. }
  rewrite E.
  assert (Hp : 0 < Zpos m * 2 ^ (52 - l)) by (apply Z.mul_pos_pos; [lia|apply Z.pow_pos_nonneg; lia]).
  rewrite binary_round_aux_exact; [| done | lia | |].
  - do 2 eexists; split; [reflexivity|]. split; [lia|].
    rewrite Z2Pos.id by done. do 2 f_equal. lia.
  - rewrite log2_mul_pow2 by lia. fold l. unfold fexp, emin, f64_prec, f64_emax. lia.
  - unfold f64_prec, f64_emax; lia.
Qed.

(** [SFcompare] against the constants the code compares with. *)
Lemma f64_lt_one_cases m e : bounded f64_prec f64_emax m e = true ->
  SFleb f64_one (S754_finite false m e) = false -> e < -52 /\ Zpos m < 2 ^ 53.
Proof.
  intros Hb H. apply valid_f64_cases in Hb as [_ Hb].
  assert (Hm : Zpos m < 2 ^ 53).
  { apply Z.log2_lt_pow2; [lia|]. lia. }
  split; [|done].
  change f64_one with (S754_finite false 4503599627370496 (-52)) in H.
  unfold SFleb, SFcompare in H.
  destruct (Z.compare_spec (-52) e) as [Eq|Lt|Gt]; try discriminate; [|lia].
  subst e. exfalso. destruct Hb as [[Hl _]|[_ Hl]]; [|lia].
  assert (Hlow : 2 ^ 52 <= Zpos m) by (rewrite <- Hl; apply Z.log2_spec; lia).
  change (Pos.compare_cont Eq 4503599627370496 m) with (4503599627370496 ?= m)%positive in H.
  destruct (Pos.compare_spec 4503599627370496 m) as [| |G]; try discriminate.
  apply Pos2Z.pos_lt_pos in G. apply (Z.lt_irrefl (2 ^ 52)). eapply Z.le_lt_trans; [exact Hlow|exact G].
Qed.

Lemma shiftl_mono_l x y a : x <= y -> Z.shiftl x a <= Z.shiftl y a.
Proof.
  intros H. destruct (Z.le_ge_cases 0 a).
  - rewrite !Z.shiftl_mul_pow2 by lia. apply Z.mul_le_mono_nonneg_r; [apply Z.pow_nonneg; lia|done].
  - rewrite <- (Z.opp_involutive a), !Z.shiftl_opp_r, !Z.shiftr_div_pow2 by lia.
    apply Z.div_le_mono; [apply Z.pow_pos_nonneg; lia|done].
Qed.

Lemma shiftl_mono_r m a b : 0 < m -> a <= b -> Z.shiftl m a <= Z.shiftl m b.
Proof.
  intros Hm H. replace b with ((b - a) + a) by lia. rewrite <- Z.shiftl_shiftl by lia.
  apply shiftl_mono_l. rewrite Z.shiftl_mul_pow2 by lia.
  assert (0 < 2 ^ (b - a)) by (apply Z.pow_pos_nonneg; lia). nia.
Qed.

(** the activation threshold is exact.  For every probability strictly
    between 0 and 1, written [m * 2^e], the threshold the code computes in
    floating point is the floor of [m * 2^e * 2^64], and it is a [u64]: no
    rounding error and no saturation enter the decision. *)
Theorem bernoulli_threshold_exact (m : positive) (e : Z)
    (Hvalid : valid_binary f64_prec f64_emax (S754_finite false m e) = true)
    (Hlt : SFleb f64_one (S754_finite false m e) = false) :
  bernoulli_threshold (S754_finite false m e) = Z.shiftl (Zpos m) (e + 64)
  /\ 0 <= bernoulli_threshold (S754_finite false m e) < U64_MAX.
Proof.
  cbn [valid_binary] in Hvalid. destruct (f64_lt_one_cases m e Hvalid Hlt) as [He Hm].
  destruct (f64_mul_two64 m e Hvalid ltac:(lia)) as (m' & e' & E & Hle & Hm').
  unfold bernoulli_threshold. rewrite E. cbn [f64_to_u64].
  assert (Es : Z.shiftl (Zpos m') e' = Z.shiftl (Zpos m) (e + 64)).
  { rewrite Hm', <- Z.shiftl_mul_pow2 by lia. rewrite Z.shiftl_shiftl by lia. f_equal. lia. }
  rewrite Es.
  assert (Hu : Z.shiftl (Zpos m) (e + 64) <= (2 ^ 53 - 1) * 2 ^ 11).
  { transitivity (Z.shiftl (Zpos m) 11); [apply shiftl_mono_r; lia|].
    rewrite Z.shiftl_mul_pow2 by lia. lia. }
  assert (0 <= Z.shiftl (Zpos m) (e + 64)) by (apply Z.shiftl_nonneg; lia).
  unfold U64_MAX. split; lia.
Qed.

(** One half, as [0.5]. *)
Definition f64_half : f64 := S754_finite false 4503599627370496 (-53).

Lemma bernoulli_threshold_exact_witness :
  bernoulli_threshold f64_half = 2 ^ 63 /\ 0 <= bernoulli_threshold f64_half < U64_MAX.
Proof. apply (bernoulli_threshold_exact 4503599627370496 (-53)); reflexivity. Defined.

(** Boundary probabilities never consume a draw and decide without the RNG. *)
Lemma bernoulli_one r : bernoulli r f64_one = (true, r).
Proof. reflexivity. Qed.
Lemma bernoulli_zero r : bernoulli r f64_zero = (false, r).
Proof. reflexivity. Qed.
