(* ===== verification/Plan.v ===== *)
(** * Fault plans ([crates/eggchaos-core/src/plan.rs])

    Typed fault configurations, their validation, and the plan edits the
    control plane performs.  A [Duration] is its number of nanoseconds; a
    [NonZeroU64] is a [Z] (the zero checks the code repeats are kept). *)

From Stdlib Require Import Bool SpecFloat.
From stdpp Require Import base list gmap strings.
From S2P Require Import Prelude Rng Float64.

Definition Duration : Type := Z.
Definition NANOS_PER_SEC : Z := 1000000000.
Definition DURATION_MAX : Duration := U64_MAX * NANOS_PER_SEC + 999999999.
Definition duration_saturating_add (a b : Duration) : Duration := Z.min (a + b) DURATION_MAX.

Definition MAX_STREAM_FAULT_DURATION : Duration := 86400 * NANOS_PER_SEC.
Definition MAX_STREAM_FAULTS : Z := 256.
Definition STREAM_LOSS_GRAIN_BYTES : Z := 32 * 1024.
Definition duration_exceeds_max (value : Duration) : bool := MAX_STREAM_FAULT_DURATION <? value.

Inductive RngVersion := V1.

Inductive ValidationError :=
| ProbabilityOutOfRange
| InvalidFaultId
| DuplicateFaultId (id : string)
| ZeroCapacity
| InvalidSlice
| InvalidRate
| ZeroLimit
| DurationTooLong
| TooManyFaults
| GenerationOverflow.

(** [FaultId(String)]: the newtype is transparent here and [fault_id_new] is its
    only constructor in the code. *)
Definition FaultId : Type := string.
Definition fault_id_new (value : string) : result FaultId ValidationError :=
  if (str_len value =? 0) || (128 <? str_len value) then Err InvalidFaultId else Ok value.

Record LatencyConfig := { lat_delay : Duration; lat_jitter : Duration; lat_max_buffer_bytes : Z }.
Record BandwidthConfig := { bw_bytes_per_second : Z; bw_burst_bytes : Z }.
Record BlackholeConfig := { bh_close_after : option Duration }.
Record LimitDataConfig := { ld_bytes : Z }.
Record SlowCloseConfig := { sc_delay : Duration }.
Record SliceConfig := { sl_average_size : Z; sl_variation : Z; sl_delay : Duration }.
Record DisconnectConfig := { dc_after : Duration; dc_hard_reset : bool }.
Record StreamLossConfig := { slc_loss_rate : Probability; slc_correlation : Probability }.

Inductive FaultKind :=
| Latency (c : LatencyConfig)
| Bandwidth (c : BandwidthConfig)
| Blackhole (c : BlackholeConfig)
| LimitData (c : LimitDataConfig)
| SlowClose (c : SlowCloseConfig)
| Slice (c : SliceConfig)
| Disconnect (c : DisconnectConfig)
| StreamLoss (c : StreamLossConfig).

Definition STREAM_LOSS_TYPE_NAME : string := "stream-loss".
Definition FAULT_TYPE_NAMES : list string :=
  ["latency"; "bandwidth"; "blackhole"; "limit-data"; "slow-close"; "slice"; "disconnect"]%string.

Definition type_name (k : FaultKind) : string :=
  match k with
  | Latency _ => "latency"
  | Bandwidth _ => "bandwidth"
  | Blackhole _ => "blackhole"
  | LimitData _ => "limit-data"
  | SlowClose _ => "slow-close"
  | Slice _ => "slice"
  | Disconnect _ => "disconnect"
  | StreamLoss _ => STREAM_LOSS_TYPE_NAME
  end.

Definition type_index (k : FaultKind) : option nat :=
  match k with
  | Latency _ => Some 0%nat
  | Bandwidth _ => Some 1%nat
  | Blackhole _ => Some 2%nat
  | LimitData _ => Some 3%nat
  | SlowClose _ => Some 4%nat
  | Slice _ => Some 5%nat
  | Disconnect _ => Some 6%nat
  | StreamLoss _ => None
  end.

Record FaultSpec := { fs_id : FaultId; fs_probability : Probability; fs_kind : FaultKind }.
Record FaultPlan := { faults : list FaultSpec }.

(** ** [FaultSpec::validate] *)

Definition kind_duration_too_long (k : FaultKind) : bool :=
  match k with
  | Latency c => duration_exceeds_max (lat_delay c) || duration_exceeds_max (lat_jitter c)
  | Blackhole c =>
      match bh_close_after c with Some d => duration_exceeds_max d | None => false end
  | SlowClose c => duration_exceeds_max (sc_delay c)
  | Slice c => duration_exceeds_max (sl_delay c)
  | Disconnect c => duration_exceeds_max (dc_after c)
  | _ => false
  end.

Definition fault_validate (f : FaultSpec) : result unit ValidationError :=
  if kind_duration_too_long (fs_kind f) then Err DurationTooLong
  else
    match fs_kind f with
    | Latency c => if lat_max_buffer_bytes c =? 0 then Err ZeroCapacity else Ok tt
    | Slice c => if sl_average_size c <=? sl_variation c then Err InvalidSlice else Ok tt
    | Bandwidth c =>
        if (bw_bytes_per_second c =? 0) || (bw_burst_bytes c =? 0) then Err InvalidRate else Ok tt
    | LimitData c => if ld_bytes c =? 0 then Err ZeroLimit else Ok tt
    | StreamLoss c =>
        if negb (f64_is_finite (slc_loss_rate c))
           || negb (SFleb f64_zero (slc_loss_rate c) && SFleb (slc_loss_rate c) f64_one)
           || negb (f64_is_finite (slc_correlation c))
           || negb (SFleb f64_zero (slc_correlation c) && SFleb (slc_correlation c) f64_one)
        then Err ProbabilityOutOfRange else Ok tt
    | _ => Ok tt
    end.

(** ** Plan construction and validation *)

Fixpoint plan_new_loop (ids : gset string) (fs : list FaultSpec) : result unit ValidationError :=
  match fs with
  | [] => Ok tt
  | fault :: rest =>
      if bool_decide (fs_id fault ∈ ids) then Err (DuplicateFaultId (fs_id fault))
      else
        let? _u := fault_validate fault in
        plan_new_loop ({[fs_id fault]} ∪ ids) rest
  end.

Definition plan_new (fs : list FaultSpec) : result FaultPlan ValidationError :=
  if MAX_STREAM_FAULTS <? zlen fs then Err TooManyFaults
  else let? _u := plan_new_loop ∅ fs in Ok {| faults := fs |}.

Definition plan_empty : FaultPlan := {| faults := [] |}.
Definition plan_is_empty (p : FaultPlan) : bool :=
  match faults p with [] => true | _ => false end.

Definition plan_get (p : FaultPlan) (id : string) : option FaultSpec :=
  List.find (fun f => bool_decide (fs_id f = id)) (faults p).

Definition with_fault (p : FaultPlan) (fault : FaultSpec) : result FaultPlan ValidationError :=
  if MAX_STREAM_FAULTS <=? zlen (faults p) then Err TooManyFaults
  else if is_some (plan_get p (fs_id fault)) then Err (DuplicateFaultId (fs_id fault))
  else
    let? _u := fault_validate fault in
    Ok {| faults := faults p ++ [fault] |}.

Definition without_fault (p : FaultPlan) (id : string) : FaultPlan :=
  {| faults := List.filter (fun f => negb (bool_decide (fs_id f = id))) (faults p) |}.

(** [iter_mut().find(..)] then assignment: the first match is overwritten. *)
Fixpoint replace_first (fault : FaultSpec) (fs : list FaultSpec) : option (list FaultSpec) :=
  match fs with
  | [] => None
  | f :: rest =>
      if bool_decide (fs_id f = fs_id fault) then Some (fault :: rest)
      else match replace_first fault rest with
           | Some rest' => Some (f :: rest')
           | None => None
           end
  end.

Definition replace_fault (p : FaultPlan) (fault : FaultSpec) : result FaultPlan ValidationError :=
  let? _u := fault_validate fault in
  match replace_first fault (faults p) with
  | Some fs => Ok {| faults := fs |}
  | None => with_fault p fault
  end.

Fixpoint plan_validate_loop (ids : gset string) (fs : list FaultSpec) : result unit ValidationError :=
  match fs with
  | [] => Ok tt
  | fault :: rest =>
      if bool_decide (fs_id fault ∈ ids) then Err (DuplicateFaultId (fs_id fault))
      else match probability_new (fs_probability fault) with
           | None => Err ProbabilityOutOfRange
           | Some _ =>
               let? _u := fault_validate fault in
               plan_validate_loop ({[fs_id fault]} ∪ ids) rest
           end
  end.

Definition plan_validate (p : FaultPlan) : result unit ValidationError :=
  if MAX_STREAM_FAULTS <? zlen (faults p) then Err TooManyFaults
  else plan_validate_loop ∅ (faults p).

(** ** Plans as the types of the code bound them *)

(** The ranges of [u64], [NonZeroU64], [usize] and [Duration] fields. *)
Definition kind_typed (k : FaultKind) : Prop :=
  match k with
  | Latency c => 0 <= lat_delay c /\ 0 <= lat_jitter c /\ 0 <= lat_max_buffer_bytes c
  | Bandwidth c => 0 <= bw_bytes_per_second c <= U64_MAX /\ 0 <= bw_burst_bytes c <= U64_MAX
  | Blackhole c => match bh_close_after c with Some d => 0 <= d | None => True end
  | LimitData c => 0 <= ld_bytes c <= U64_MAX
  | SlowClose c => 0 <= sc_delay c
  | Slice c => 0 < sl_average_size c <= U64_MAX /\ 0 <= sl_variation c <= U64_MAX /\ 0 <= sl_delay c
  | Disconnect c => 0 <= dc_after c
  | StreamLoss _ => True
  end.
Definition plan_typed (p : FaultPlan) : Prop := Forall (fun f => kind_typed (fs_kind f)) (faults p).

(** ** What validation promises, declaratively *)

Definition kind_wf (k : FaultKind) : Prop :=
  match k with
  | Latency c => lat_delay c <= MAX_STREAM_FAULT_DURATION
                 /\ lat_jitter c <= MAX_STREAM_FAULT_DURATION /\ lat_max_buffer_bytes c <> 0
  | Bandwidth c => bw_bytes_per_second c <> 0 /\ bw_burst_bytes c <> 0
  | Blackhole c => match bh_close_after c with
                   | Some d => d <= MAX_STREAM_FAULT_DURATION | None => True end
  | LimitData c => ld_bytes c <> 0
  | SlowClose c => sc_delay c <= MAX_STREAM_FAULT_DURATION
  | Slice c => sl_variation c < sl_average_size c /\ sl_delay c <= MAX_STREAM_FAULT_DURATION
  | Disconnect c => dc_after c <= MAX_STREAM_FAULT_DURATION
  | StreamLoss c => probability_in_range (slc_loss_rate c) = true
                    /\ probability_in_range (slc_correlation c) = true
  end.

Record plan_wf (p : FaultPlan) : Prop := {
  pw_bounded : zlen (faults p) <= MAX_STREAM_FAULTS;
  pw_unique : NoDup (map fs_id (faults p));
  pw_prob : Forall (fun f => probability_in_range (fs_probability f) = true) (faults p);
  pw_kind : Forall (fun f => kind_wf (fs_kind f)) (faults p)
}.

(** ** Lemmas *)

Lemma fault_validate_ok f : fault_validate f = Ok tt <-> kind_wf (fs_kind f).
Proof.
  unfold fault_validate, kind_duration_too_long, duration_exceeds_max, probability_in_range.
  destruct (fs_kind f) as [c|c|c|c|c|c|c|c]; cbn [kind_wf];
    repeat case_split; bools; unfold probability_in_range;
    repeat match goal with
    | H : _ || _ = true |- _ => apply orb_true_iff in H; destruct H
    end; bools; split; intros; try discriminate; try done; try lia;
    repeat match goal with H : _ = true |- _ => rewrite H; clear H
           | H : _ /\ _ |- _ => destruct H end; try done; try lia.
  all: repeat match goal with H : context [SFleb] |- _ => revert H
       | H : context [f64_is_finite] |- _ => revert H end;
       repeat match goal with |- context [f64_is_finite ?x] => destruct (f64_is_finite x)
       | |- context [SFleb ?x ?y] => destruct (SFleb x y) end; cbn; intros; try done.
Qed.

Lemma fault_validate_unit f u : fault_validate f = Ok u -> kind_wf (fs_kind f).
Proof. destruct u. apply fault_validate_ok. Qed.

Lemma plan_validate_loop_ok ids fs :
  plan_validate_loop ids fs = Ok tt <->
  NoDup (map fs_id fs) /\ (forall f, f ∈ fs -> fs_id f ∉ ids)
  /\ Forall (fun f => probability_in_range (fs_probability f) = true) fs
  /\ Forall (fun f => kind_wf (fs_kind f)) fs.
Proof.
  revert ids; induction fs as [|f fs IH]; intros ids; cbn [plan_validate_loop map].
  - split; [|done]. intros _. split; [constructor|]. split; [|done]. intros f Hf. by apply not_elem_of_nil in Hf.
  - case_bool_decide as Hin.
    { split; [discriminate|]. intros (_ & H & _). exfalso. apply (H f); [by left|done]. }
    unfold probability_new. destruct (probability_in_range (fs_probability f)) eqn:Ep.
    2: { split; [discriminate|]. intros (_ & _ & H & _). inversion H; congruence. }
    destruct (fault_validate f) as [[]|e] eqn:Ef.
    2: { split; [discriminate|]. intros (_ & _ & _ & H). inversion H as [|? ? Hk]; subst.
         apply fault_validate_ok in Hk. congruence. }
    rewrite IH, !Forall_cons. apply fault_validate_ok in Ef. pose proof (fresh_ids_cons fs_id f fs ids) as F.
    cbn [map] in F. tauto.
Qed.

Lemma plan_new_loop_validate ids fs :
  Forall (fun f => probability_in_range (fs_probability f) = true) fs ->
  plan_new_loop ids fs = plan_validate_loop ids fs.
Proof.
  intros H; revert ids; induction H as [|f fs Hp Hfs IH]; intros ids; cbn; [done|].
  unfold probability_new. rewrite Hp. by rewrite IH.
Qed.

Lemma plan_get_none p id : plan_get p id = None <-> id ∉ map fs_id (faults p).
Proof.
  unfold plan_get. split.
  - intros H Hin. apply list_elem_of_fmap in Hin as (f & -> & Hf).
    apply list_elem_of_In in Hf. pose proof (List.find_none _ _ H f Hf) as E. cbn in E.
    by rewrite bool_decide_eq_true_2 in E.
  - intros H. destruct (List.find _ _) as [f|] eqn:E; [|done].
    apply List.find_some in E as [Hin E]. apply bool_decide_eq_true in E as <-.
    exfalso; apply H. apply list_elem_of_fmap. exists f. split; [done|]. by apply list_elem_of_In.
Qed.

Lemma replace_first_some fault fs fs' :
  replace_first fault fs = Some fs' ->
  map fs_id fs' = map fs_id fs
  /\ exists l f r, fs = l ++ f :: r /\ fs' = l ++ fault :: r /\ fs_id f = fs_id fault.
Proof.
  revert fs'; induction fs as [|f fs IH]; intros fs'; cbn [replace_first]; [discriminate|].
  case_bool_decide as E.
  - intros [= <-]. cbn. rewrite E. split; [done|]. by exists [], f, fs.
  - destruct (replace_first fault fs) as [k|]; [|discriminate]. intros [= <-].
    destruct (IH k eq_refl) as (Hm & l & g & r & -> & -> & Eg). cbn. rewrite Hm.
    split; [done|]. by exists (f :: l), g, r.
Qed.

Lemma replace_first_none fault fs :
  replace_first fault fs = None -> fs_id fault ∉ map fs_id fs.
Proof.
  induction fs as [|f fs IH]; cbn [replace_first map]; [intros _; apply not_elem_of_nil|].
  case_bool_decide as E; [discriminate|]. destruct (replace_first fault fs); [discriminate|].
  intros _. apply not_elem_of_cons. split; [congruence|auto].
Qed.

Lemma plan_wf_validate p : plan_validate p = Ok tt <-> plan_wf p.
Proof.
  unfold plan_validate. destruct (Z.ltb_spec MAX_STREAM_FAULTS (zlen (faults p))) as [H|H].
  - split; [discriminate|]. intros []. lia.
  - rewrite plan_validate_loop_ok. split.
    + intros (?&?&?&?). by constructor.
    + intros []. repeat split; try done.
Qed.

Lemma with_fault_wf p fault p' :
  plan_wf p -> probability_in_range (fs_probability fault) = true ->
  with_fault p fault = Ok p' ->
  plan_wf p' /\ faults p' = faults p ++ [fault] /\ fs_id fault ∉ map fs_id (faults p).
Proof.
  intros [] Hp. unfold with_fault.
  destruct (Z.leb_spec MAX_STREAM_FAULTS (zlen (faults p))); [discriminate|].
  destruct (plan_get p (fs_id fault)) eqn:G; [discriminate|]. cbn.
  destruct (fault_validate fault) eqn:V; [|discriminate]. intros [= <-].
  apply plan_get_none in G. apply fault_validate_unit in V. split; [|done].
  constructor; cbn [faults].
  - rewrite zlen_app. cbn. unfold zlen in *; cbn; lia.
  - rewrite map_app. apply NoDup_app. split; [done|]. split; [|apply NoDup_singleton].
    intros x Hx [->|E]%elem_of_cons; [done|by apply not_elem_of_nil in E].
  - by apply Forall_app_2; [|constructor].
  - by apply Forall_app_2; [|constructor].
Qed.

(** [FaultPlan::validate] accepts exactly the plans that satisfy the plan
    invariants: at most 256 faults, distinct identities, every activation
    probability finite and in [0, 1], every kind-specific bound.  And
    [FaultPlan::new] accepts exactly the same lists whenever the probabilities
    come from [Probability::new]. *)
Theorem plan_validate_decides_wf (p : FaultPlan) :
  (plan_validate p = Ok tt <-> plan_wf p)
  /\ (Forall (fun f => probability_in_range (fs_probability f) = true) (faults p) ->
      (plan_new (faults p) = Ok p <-> plan_wf p)).
Proof.
  split; [apply plan_wf_validate|]. intros Hp. rewrite <- plan_wf_validate.
  unfold plan_new, plan_validate. rewrite plan_new_loop_validate by done.
  destruct (_ <? _); [by split|]. destruct (plan_validate_loop ∅ (faults p)) as [[]|]; split; try done.
  intros _. by destruct p.
Qed.

Lemma without_fault_wf p id : plan_wf p -> plan_wf (without_fault p id).
Proof.
  intros [Hb Hu Hp Hk]. unfold without_fault.
  assert (Hsub : sublist (List.filter (fun f => negb (bool_decide (fs_id f = id))) (faults p)) (faults p)).
  { clear. induction (faults p) as [|f l IH]; cbn; [constructor|]. destruct (negb _); by constructor. }
  constructor; cbn [faults].
  - apply sublist_length in Hsub. unfold zlen in *; lia.
  - eapply sublist_NoDup; [exact Hu|]. by apply (fmap_sublist fs_id).
  - eapply List.incl_Forall; [apply List.incl_filter|exact Hp].
  - eapply List.incl_Forall; [apply List.incl_filter|exact Hk].
Qed.

Lemma replace_fault_wf p fault p' :
  plan_wf p -> probability_in_range (fs_probability fault) = true ->
  replace_fault p fault = Ok p' -> plan_wf p'.
Proof.
  intros Hw Hp. unfold replace_fault.
  destruct (fault_validate fault) eqn:V; [|discriminate].
  destruct (replace_first fault (faults p)) as [fs|] eqn:R.
  - intros [= <-]. apply replace_first_some in R as (Hm & l & f & r & E & -> & _).
    apply fault_validate_unit in V. destruct Hw as [Hb Hu Hpr Hk].
    rewrite E in *.
    constructor; cbn [faults].
    + rewrite zlen_app, zlen_cons in *. lia.
    + rewrite <- Hm in Hu. exact Hu.
    + apply Forall_app in Hpr as [H1 H2]. apply Forall_cons in H2 as [_ H2]. by apply Forall_app_2; [|constructor].
    + apply Forall_app in Hk as [H1 H2]. apply Forall_cons in H2 as [_ H2]. by apply Forall_app_2; [|constructor].
  - intros H. by eapply with_fault_wf in H as [? _].
Qed.

(** Every plan edit keeps the plan invariants: appending, replacing and
    removing a fault, whatever the fault, starting from a valid plan. *)
Theorem plan_edits_preserve_wf (p p' : FaultPlan) (fault : FaultSpec) (id : string)
    (Hwf : plan_wf p) (Hprob : probability_in_range (fs_probability fault) = true) :
  (with_fault p fault = Ok p' -> plan_wf p')
  /\ (replace_fault p fault = Ok p' -> plan_wf p')
  /\ plan_wf (without_fault p id).
Proof.
  split; [intros H; by eapply with_fault_wf in H as [? _]|].
  split; [by apply replace_fault_wf|by apply without_fault_wf].
Qed.

(** Replacing a fault is an in-place upsert.  If the identity is present,
    exactly that entry changes and the order of identities is kept; if it is
    absent, the fault is appended when the plan has room and is refused with
    [TooManyFaults] when it is full; an invalid fault is refused with its own
    error and the plan is untouched. *)
Theorem replace_fault_spec (p : FaultPlan) (fault : FaultSpec) :
  match fault_validate fault with
  | Err e => replace_fault p fault = Err e
  | Ok _ =>
      match plan_get p (fs_id fault) with
      | Some old => exists l r, faults p = l ++ old :: r
          /\ replace_fault p fault = Ok {| faults := l ++ fault :: r |}
      | None =>
          replace_fault p fault
          = if MAX_STREAM_FAULTS <=? zlen (faults p) then Err TooManyFaults
            else Ok {| faults := faults p ++ [fault] |}
      end
  end.
Proof.
  unfold replace_fault. destruct (fault_validate fault) as [u|e] eqn:V; [|done].
  destruct (plan_get p (fs_id fault)) as [old|] eqn:G.
  - unfold plan_get in G. clear V. revert G. destruct p as [fs]; cbn [faults].
    induction fs as [|f fs IH]; cbn; [discriminate|]. case_bool_decide as E.
    + intros [= <-]. by exists [], fs.
    + intros G. destruct (IH G) as (l & r & -> & Hr).
      destruct (replace_first fault (l ++ old :: r)) as [k|] eqn:R.
      * exists (f :: l), r. split; [done|]. by injection Hr as ->.
      * apply replace_first_none in R. exfalso. apply R. apply List.find_some in G as [_ G].
        apply bool_decide_eq_true in G as <-. rewrite map_app. apply elem_of_app. right. by left.
  - assert (R : replace_first fault (faults p) = None).
    { destruct (replace_first _ _) as [k|] eqn:R; [|done]. exfalso.
      apply plan_get_none in G. apply replace_first_some in R as (_ & l & f & r & E & _ & Ef).
      apply G. rewrite <- Ef, E, map_app. apply elem_of_app. right. by left. }
    rewrite R. unfold with_fault. rewrite G, V. done.
Qed.

(** Removal deletes exactly the named fault: no entry of that identity
    remains and every other identity still resolves to the same fault. *)
Theorem without_fault_spec (p : FaultPlan) (id other : string) (Hne : other <> id) :
  plan_get (without_fault p id) id = None
  /\ plan_get (without_fault p id) other = plan_get p other.
Proof.
  split.
  - apply plan_get_none. cbn. intros Hin. apply list_elem_of_fmap in Hin as (f & -> & Hf).
    apply list_elem_of_In, List.filter_In in Hf as [_ Hf]. by rewrite bool_decide_eq_true_2 in Hf.
  - unfold plan_get, without_fault; cbn [faults]. induction (faults p) as [|f l IH]; [done|]. cbn.
    destruct (bool_decide_reflect (fs_id f = id)) as [E|E]; cbn.
    + case_bool_decide; [congruence|done].
    + case_bool_decide; [done|apply IH].
Qed.

(** ** Witnesses *)

Definition demo_latency (id : string) : FaultSpec :=
  {| fs_id := id; fs_probability := f64_half;
     fs_kind := Latency {| lat_delay := 10000000; lat_jitter := 1000000; lat_max_buffer_bytes := 64 |} |}.
Definition demo_plan : FaultPlan := {| faults := [demo_latency "a"; demo_latency "b"] |}.

Lemma demo_plan_wf : plan_wf demo_plan.
Proof. apply plan_wf_validate. vm_compute. reflexivity. Qed.

Lemma plan_validate_decides_wf_witness :
  plan_validate demo_plan = Ok tt /\ plan_new (faults demo_plan) = Ok demo_plan.
Proof.
  split.
  - apply (proj1 (plan_validate_decides_wf demo_plan)). apply demo_plan_wf.
  - apply (proj2 (plan_validate_decides_wf demo_plan)); [|apply demo_plan_wf].
    repeat constructor.
Defined.

Lemma plan_edits_preserve_wf_witness :
  exists p', with_fault demo_plan (demo_latency "c") = Ok p' /\ plan_wf p'.
Proof.
  eexists. split; [vm_compute; reflexivity|].
  eapply (plan_edits_preserve_wf demo_plan _ (demo_latency "c") "a");
    [apply demo_plan_wf|reflexivity|vm_compute; reflexivity].
Defined.

Lemma without_fault_spec_witness :
  plan_get (without_fault demo_plan "a") "a" = None
  /\ plan_get (without_fault demo_plan "a") "b" = plan_get demo_plan "b".
Proof. apply (without_fault_spec demo_plan "a" "b"). discriminate. Defined.
