(* ===== verification/Policy.v ===== *)
(** * Generation-published policies
      ([crates/eggchaos-core/src/policy.rs], and [DatagramLivePolicy] of datagram.rs)

    The read-mostly publisher both policy types use: an [ArcSwap] cell that
    publishers update in a load / compare-and-swap loop.  An [Arc] pointer is
    an index into an append-only memory, because a snapshot a publisher still
    holds cannot be freed and its address cannot be reused.  The section is
    generic in the plan type and its validator; [Stream] below and
    [Datagram.v] instantiate it. *)

From stdpp Require Import base list relations.
From S2P Require Import Prelude Rng Float64 Plan.

Section Publisher.
Context {PlanT E : Type} (validate : PlanT -> result unit E) (generation_overflow : E).

Record PublishedPolicy := { generation : Z; pub_plan : PlanT; seed_namespace : Z }.

Record PolicyConflict := { pc_expected : Z; pc_found : Z }.
Inductive PublishError := Invalid (e : E) | Conflict (c : PolicyConflict).

(** The cell: every snapshot ever stored, and the address of the current one. *)
Record ArcSwap := { snapshots : list PublishedPolicy; current : nat }.

Definition live_new (plan : PlanT) (ns : Z) : result ArcSwap E :=
  let? _u := validate plan in
  Ok {| snapshots := [{| generation := 1; pub_plan := plan; seed_namespace := ns |}]; current := 0 |}.

Definition snapshot (c : ArcSwap) : option PublishedPolicy := snapshots c !! current c.

Definition next_policy (cur : PublishedPolicy) (plan : PlanT) (ns : Z) : PublishedPolicy :=
  {| generation := sat_add64 (generation cur) 1; pub_plan := plan; seed_namespace := ns |}.

(** [compare_and_swap(&current, next)]: swaps only when the stored pointer is
    still the one the publisher loaded. *)
Definition compare_and_swap (c : ArcSwap) (expected : nat) (next : PublishedPolicy) : bool * ArcSwap :=
  if Nat.eqb (current c) expected
  then (true, {| snapshots := snapshots c ++ [next]; current := length (snapshots c) |})
  else (false, c).

(** ** Publishers as threads

    [publish] has no expected generation, [publish_expected] has one. *)
Record Request := { rq_plan : PlanT; rq_ns : Z; rq_expected : option Z }.

Inductive Thread :=
| TStart (r : Request)                                (* before plan.validate() *)
| TLoad (r : Request)                                 (* top of the loop *)
| TSwap (r : Request) (ptr : nat) (cur : PublishedPolicy) (* before compare_and_swap *)
| TDone (r : Request) (res : result PublishedPolicy PublishError).

(** The checks between the load and the swap; the order differs in nothing
    but the conflict test, which only [publish_expected] has. *)
Definition loop_checks (r : Request) (cur : PublishedPolicy) : option PublishError :=
  match rq_expected r with
  | Some expected =>
      if negb (generation cur =? expected)
      then Some (Conflict {| pc_expected := expected; pc_found := generation cur |})
      else if generation cur =? U64_MAX then Some (Invalid generation_overflow) else None
  | None => if generation cur =? U64_MAX then Some (Invalid generation_overflow) else None
  end.

Definition thread_step (t : Thread) (c : ArcSwap) : Thread * ArcSwap :=
  match t with
  | TStart r =>
      match validate (rq_plan r) with
      | Err e => (TDone r (Err (Invalid e)), c)
      | Ok _ => (TLoad r, c)
      end
  | TLoad r =>
      match snapshot c with
      | None => (t, c)
      | Some cur =>
          match loop_checks r cur with
          | Some e => (TDone r (Err e), c)
          | None => (TSwap r (current c) cur, c)
          end
      end
  | TSwap r ptr cur =>
      let next := next_policy cur (rq_plan r) (rq_ns r) in
      let '(swapped, c') := compare_and_swap c ptr next in
      if swapped then (TDone r (Ok next), c') else (TLoad r, c')
  | TDone _ _ => (t, c)
  end.

(** [publish] and [publish_expected] as one uncontended call. *)
Definition publish_call (c : ArcSwap) (r : Request) : result PublishedPolicy PublishError * ArcSwap :=
  match validate (rq_plan r) with
  | Err e => (Err (Invalid e), c)
  | Ok _ =>
      match snapshot c with
      | None => (Err (Invalid generation_overflow), c)
      | Some cur =>
          match loop_checks r cur with
          | Some e => (Err e, c)
          | None =>
              let next := next_policy cur (rq_plan r) (rq_ns r) in
              (Ok next, (compare_and_swap c (current c) next).2)
          end
      end
  end.

Definition publish (c : ArcSwap) (plan : PlanT) (ns : Z) :=
  publish_call c {| rq_plan := plan; rq_ns := ns; rq_expected := None |}.
Definition publish_expected (c : ArcSwap) (plan : PlanT) (ns expected : Z) :=
  publish_call c {| rq_plan := plan; rq_ns := ns; rq_expected := Some expected |}.

(** ** The concurrent system: any number of publishers, any interleaving *)
Record System := { threads : list Thread; cell : ArcSwap }.

Inductive sys_step : System -> System -> Prop :=
| step_thread ts1 t ts2 c :
    sys_step {| threads := ts1 ++ t :: ts2; cell := c |}
             {| threads := ts1 ++ (thread_step t c).1 :: ts2; cell := (thread_step t c).2 |}.

Definition initial_system (c : ArcSwap) (rs : list Request) : System :=
  {| threads := map TStart rs; cell := c |}.

(** ** Invariants *)

Record cell_ok (c : ArcSwap) : Prop := {
  ck_current : S (current c) = length (snapshots c);
  ck_bound : zlen (snapshots c) <= U64_MAX;
  ck_gen : forall i s, snapshots c !! i = Some s -> generation s = Z.of_nat i + 1;
  ck_valid : Forall (fun s => validate (pub_plan s) = Ok tt) (snapshots c)
}.

Definition thread_ok (c : ArcSwap) (t : Thread) : Prop :=
  match t with
  | TStart _ => True
  | TLoad r => validate (rq_plan r) = Ok tt
  | TSwap r ptr cur =>
      validate (rq_plan r) = Ok tt /\ snapshots c !! ptr = Some cur /\ loop_checks r cur = None
  | TDone r (Ok s) =>
      pub_plan s = rq_plan r /\ seed_namespace s = rq_ns r
      /\ 1 < generation s
      /\ snapshots c !! Z.to_nat (generation s - 1) = Some s
      /\ match rq_expected r with Some e => generation s = e + 1 | None => True end
  | TDone r (Err (Invalid e)) => validate (rq_plan r) = Err e \/ e = generation_overflow
  | TDone r (Err (Conflict cf)) =>
      rq_expected r = Some (pc_expected cf) /\ pc_found cf <> pc_expected cf
  end.

Lemma cell_ok_new plan ns c : live_new plan ns = Ok c -> cell_ok c.
Proof.
  unfold live_new. destruct (validate plan) as [[]|] eqn:V; [|discriminate]. intros [= <-].
  constructor; cbn; [done|unfold zlen, U64_MAX; cbn; lia| |by constructor].
  intros [|i] s H; cbn in *; [by injection H as <-|discriminate].
Qed.

Lemma cell_ok_current c : cell_ok c ->
  exists s, snapshot c = Some s /\ generation s = zlen (snapshots c) /\ generation s <= U64_MAX.
Proof.
  intros [Hc Hb Hg _]. unfold snapshot. destruct (lookup_lt_is_Some_2 (snapshots c) (current c)) as [s Hs]; [lia|].
  exists s. split; [done|]. rewrite (Hg _ _ Hs). unfold zlen in *; lia.
Qed.

Lemma loop_checks_none r cur : loop_checks r cur = None ->
  generation cur <> U64_MAX /\ match rq_expected r with Some e => generation cur = e | None => True end.
Proof.
  unfold loop_checks. destruct (rq_expected r); repeat case_split; intros; bools; try done; auto.
Qed.

(** A successful swap appends exactly one snapshot, one generation later. *)
Lemma swap_ok c r cur :
  cell_ok c -> snapshot c = Some cur -> validate (rq_plan r) = Ok tt -> loop_checks r cur = None ->
  let next := next_policy cur (rq_plan r) (rq_ns r) in
  cell_ok {| snapshots := snapshots c ++ [next]; current := length (snapshots c) |}
  /\ generation next = generation cur + 1.
Proof.
  intros Hc Hs Hv Hl next. destruct (cell_ok_current c Hc) as (s & Hs' & Hg & Hle).
  rewrite Hs in Hs'; injection Hs' as <-. apply loop_checks_none in Hl as [Hm _].
  assert (En : generation next = generation cur + 1) by (unfold next; cbn; sat).
  split; [|done]. destruct Hc as [Hc Hb Hgen Hval]. constructor; cbn.
  - rewrite length_app; cbn; lia.
  - rewrite zlen_app. unfold zlen in *; cbn in *; lia.
  - intros i s H. apply lookup_app_Some in H as [H|[Hge H]]; [by apply Hgen|].
    destruct (i - length (snapshots c))%nat as [|k] eqn:Ei; cbn in H; [|discriminate].
    injection H as <-. rewrite En, Hg. unfold zlen. lia.
  - apply Forall_app_2; [done|]. by constructor.
Qed.

Lemma thread_ok_mono c extra n t :
  thread_ok c t -> thread_ok {| snapshots := snapshots c ++ extra; current := n |} t.
Proof.
  destruct t as [| |r ptr cur|r [s|[e|cf]]]; cbn; intros H; try done.
  - destruct H as (? & ? & ?). repeat split; auto using lookup_app_l_Some.
  - destruct H as (?&?&?&?&?). repeat split; auto using lookup_app_l_Some.
Qed.

(** One step keeps both invariants, and the memory only grows. *)
Lemma thread_step_ok c t :
  cell_ok c -> thread_ok c t ->
  cell_ok (thread_step t c).2 /\ thread_ok (thread_step t c).2 (thread_step t c).1
  /\ exists extra, snapshots (thread_step t c).2 = snapshots c ++ extra.
Proof.
  intros Hc Ht. assert (Hid : exists extra, snapshots c = snapshots c ++ extra) by (exists []; by rewrite app_nil_r).
  destruct t as [r|r|r ptr cur|r res]; cbn [thread_step].
  - destruct (validate (rq_plan r)) as [[]|e] eqn:V; cbn; auto.
  - destruct (cell_ok_current c Hc) as (s & Hs & Hg & Hle). rewrite Hs.
    destruct (loop_checks r s) as [e|] eqn:L; cbn; [|by auto].
    split; [done|]. split; [|done]. unfold loop_checks in L.
    destruct (rq_expected r) as [x|]; repeat case_split_in L; try discriminate; injection L as <-; bools; auto.
  - cbn in Ht. destruct Ht as (Hv & Hp & Hl). unfold compare_and_swap.
    destruct (Nat.eqb_spec (current c) ptr) as [Ep|]; cbn; [|by auto]. subst ptr.
    destruct (swap_ok c r cur Hc Hp Hv Hl) as [Hok En]. split; [exact Hok|]. split; [|by eexists].
    cbn in En. apply loop_checks_none in Hl as [_ Hex]. destruct (cell_ok_current c Hc) as (s & Hs & Hg & _).
    unfold snapshot in Hs. rewrite Hp in Hs; injection Hs as <-. repeat split.
    + cbn. unfold zlen in Hg. pose proof (ck_current c Hc). sat.
    + cbn [generation next_policy]. rewrite En. rewrite lookup_app_r by (rewrite Hg; unfold zlen; lia).
      replace (Z.to_nat (generation cur + 1 - 1) - length (snapshots c))%nat with 0%nat by (rewrite Hg; unfold zlen; lia). done.
    + cbn [generation next_policy]. destruct (rq_expected r); [|done]. rewrite En. lia.
  - cbn. auto.
Qed.

Definition sys_ok (s : System) : Prop := cell_ok (cell s) /\ Forall (thread_ok (cell s)) (threads s).

Lemma sys_step_ok s s' : sys_ok s -> sys_step s s' -> sys_ok s'.
Proof.
  intros [Hc Ht] Hstep. destruct Hstep as [ts1 t ts2 c]; cbn in *.
  apply Forall_app in Ht as [H1 H2]. apply Forall_cons in H2 as [Hth H2].
  destruct (thread_step_ok c t Hc Hth) as (Hc' & Ht' & extra & Ee).
  split; [done|]; cbn.
  assert (Hm : forall l, Forall (thread_ok c) l -> Forall (thread_ok (thread_step t c).2) l).
  { intros l Hl. eapply Forall_impl; [exact Hl|]. intros x Hx. destruct (thread_step t c).2 as [sn cu]; cbn in Ee; subst sn.
    by apply thread_ok_mono. }
  apply Forall_app_2; [auto|]. constructor; auto.
Qed.

Lemma reachable_ok s s' : sys_ok s -> rtc sys_step s s' -> sys_ok s'.
Proof. intros H Hr; induction Hr; eauto using sys_step_ok. Qed.

Lemma initial_ok c rs : cell_ok c -> sys_ok (initial_system c rs).
Proof. intros H; split; [done|]. cbn. apply Forall_map, Forall_true. done. Qed.

Lemma snapshots_grow s s' : sys_ok s -> rtc sys_step s s' ->
  exists extra, snapshots (cell s') = snapshots (cell s) ++ extra.
Proof.
  intros Hok Hr; revert Hok; induction Hr as [s|s s1 s2 Hst Hr IH]; intros Hok; [exists []; by rewrite app_nil_r|].
  destruct (IH (sys_step_ok _ _ Hok Hst)) as [e2 E2].
  destruct Hst as [ts1 t ts2 c]; destruct Hok as [Hc Ht]; cbn in *.
  apply Forall_app in Ht as [_ Ht]. apply Forall_cons in Ht as [Ht _].
  destruct (thread_step_ok c t Hc Ht) as (_ & _ & e1 & E1). exists (e1 ++ e2). by rewrite E2, E1, app_assoc.
Qed.

(** ** No publication is lost *)

Definition success (t : Thread) : option PublishedPolicy :=
  match t with TDone _ (Ok s) => Some s | _ => None end.
Definition successes (ts : list Thread) : list PublishedPolicy := omap success ts.

Lemma thread_step_success c t :
  match success t with
  | Some _ => thread_step t c = (t, c)
  | None =>
      (success (thread_step t c).1 = None /\ (thread_step t c).2 = c)
      \/ exists s, success (thread_step t c).1 = Some s
               /\ snapshots (thread_step t c).2 = snapshots c ++ [s]
  end.
Proof.
  destruct t as [r|r|r ptr cur|r [s|e]]; cbn; auto.
  - destruct (validate (rq_plan r)); cbn; auto.
  - destruct (snapshot c) as [cur|]; cbn; auto. destruct (loop_checks r cur); cbn; auto.
  - unfold compare_and_swap. destruct (Nat.eqb _ _); cbn; eauto.
Qed.

Definition ledger_ok (s : System) : Prop :=
  successes (threads s) ≡ₚ drop 1 (snapshots (cell s)).

Lemma sys_step_ledger s s' :
  snapshots (cell s) <> [] -> ledger_ok s -> sys_step s s' -> ledger_ok s'.
Proof.
  unfold ledger_ok, successes. intros Hne Hl Hst; destruct Hst as [ts1 t ts2 c]; cbn in *.
  pose proof (thread_step_success c t) as Hs. rewrite omap_app in *. cbn in *.
  destruct (success t) as [x|] eqn:Ex.
  - rewrite Hs; cbn. by rewrite Ex.
  - destruct Hs as [[E1 E2]|(x & E1 & E2)]; rewrite E1, E2; [done|].
    rewrite drop_app_le by (destruct (snapshots c); [done|cbn; lia]).
    rewrite <- Hl, <- Permutation_middle. by rewrite (Permutation_app_comm _ [x]).
Qed.

Lemma reachable_ledger s s' : sys_ok s -> ledger_ok s -> rtc sys_step s s' -> ledger_ok s'.
Proof.
  intros Hok Hl Hr; induction Hr as [|s s1 s2 Hst Hr IH]; [done|].
  apply IH; [by eapply sys_step_ok|]. eapply sys_step_ledger; [|done|done].
  destruct Hok as [[Hc _ _ _] _]. destruct (snapshots (cell s)); [discriminate|done].
Qed.

Lemma initial_ledger plan ns c rs : live_new plan ns = Ok c -> ledger_ok (initial_system c rs).
Proof.
  unfold live_new. destruct (validate plan); [|discriminate]. intros [= <-].
  unfold ledger_ok, successes. cbn. induction rs; cbn; done.
Qed.

(** ** Uncontended calls *)

Fixpoint run_alone (n : nat) (t : Thread) (c : ArcSwap) : Thread * ArcSwap :=
  match n with
  | O => (t, c)
  | S n' => let '(t', c') := thread_step t c in run_alone n' t' c'
  end.

Lemma run_alone_publish c r : cell_ok c ->
  run_alone 3 (TStart r) c = (TDone r (publish_call c r).1, (publish_call c r).2).
Proof.
  intros Hc. destruct (cell_ok_current c Hc) as (cur & Hs & _). unfold publish_call.
  cbn. destruct (validate (rq_plan r)) as [[]|e]; cbn; [|done].
  rewrite Hs. destruct (loop_checks r cur) as [e|]; cbn; [done|].
  unfold compare_and_swap. by rewrite Nat.eqb_refl.
Qed.

(** From any point of its loop a publisher left alone finishes: at most one
    failed swap, one reload and one more swap. *)
Lemma run_alone_done c t : cell_ok c ->
  exists r res, (run_alone 4 t c).1 = TDone r res.
Proof.
  intros Hc. destruct (cell_ok_current c Hc) as (cur & Hs & _).
  assert (L : forall r, exists r' res, (run_alone 2 (TLoad r) c).1 = TDone r' res).
  { intros r. cbn. rewrite Hs. destruct (loop_checks r cur) as [e|]; cbn; [by eauto|].
    unfold compare_and_swap. rewrite Nat.eqb_refl. cbn. eauto. }
  assert (D : forall n r res c', run_alone n (TDone r res) c' = (TDone r res, c')) by (induction n; cbn; auto).
  assert (M : forall n t c' r res, (run_alone n t c').1 = TDone r res -> (run_alone (S n) t c').1 = TDone r res).
  { induction n as [|n IH]; intros t' c' r res H; [cbn in H; subst; done|].
    cbn [run_alone] in *. destruct (thread_step t' c'). by apply IH. }
  destruct t as [r|r|r ptr cu|r res].
  - change (run_alone 4 (TStart r) c) with
      (let '(t', c') := thread_step (TStart r) c in run_alone 3 t' c').
    cbn [thread_step]. destruct (validate _); [|rewrite D; eauto].
    destruct (L r) as (r' & res & Er). exists r', res. by apply M.
  - destruct (L r) as (r' & res & Er). exists r', res. by do 2 apply M.
  - change (run_alone 4 (TSwap r ptr cu) c) with
      (let '(t', c') := thread_step (TSwap r ptr cu) c in run_alone 3 t' c').
    cbn [thread_step]. unfold compare_and_swap. destruct (Nat.eqb _ _); [rewrite D; eauto|].
    destruct (L r) as (r' & res & Er). exists r', res. by apply M.
  - rewrite D. eauto.
Qed.

End Publisher.

Arguments PublishedPolicy : clear implicits.
Arguments PublishError : clear implicits.
Arguments ArcSwap : clear implicits.
Arguments System : clear implicits.
Arguments Thread : clear implicits.
Arguments Request : clear implicits.

(** ** The stream policy *)
Module Stream.

Abbreviation LivePolicy := (ArcSwap FaultPlan).
Abbreviation system := (System FaultPlan ValidationError).
Definition new : FaultPlan -> Z -> result LivePolicy ValidationError := live_new plan_validate.
Definition publish_plan : LivePolicy -> FaultPlan -> Z -> _ :=
  publish plan_validate GenerationOverflow.
Definition publish_plan_expected : LivePolicy -> FaultPlan -> Z -> Z -> _ :=
  publish_expected plan_validate GenerationOverflow.
Definition step : system -> system -> Prop := sys_step plan_validate GenerationOverflow.

(** C38: concurrent publication is linearizable.  However any number of
    publishers interleave on one policy: generations are exactly 1, 2, 3, ... in
    storage order, every stored plan is valid, the current snapshot is the
    last one stored, and the snapshots stored after the first are, up to order,
    exactly the results of the publishers that reported success (none is lost,
    none is stored twice). *)
Theorem publications_linearize (plan : FaultPlan) (ns : Z) (c : LivePolicy)
    (rs : list (Request FaultPlan)) (s : system)
    (Hnew : new plan ns = Ok c) (Hreach : rtc step (initial_system c rs) s) :
  (forall i p, snapshots (cell s) !! i = Some p ->
     generation p = Z.of_nat i + 1 /\ plan_wf (pub_plan p))
  /\ snapshot (cell s) = last (snapshots (cell s))
  /\ successes (threads s) ≡ₚ drop 1 (snapshots (cell s)).
Proof.
  assert (Hok : sys_ok plan_validate GenerationOverflow (initial_system c rs))
    by (apply initial_ok; by eapply cell_ok_new).
  destruct (reachable_ok _ _ _ _ Hok Hreach) as [[Hc Hb Hg Hv] _].
  split; [|split].
  - intros i p Hp. split; [by apply Hg|]. apply plan_wf_validate.
    rewrite Forall_forall in Hv. apply Hv. apply list_elem_of_lookup. eauto.
  - unfold snapshot. rewrite last_lookup. f_equal. lia.
  - eapply (reachable_ledger _ _ _ s Hok); [by eapply initial_ledger|done].
Qed.

(** [publish_expected] never overwrites a base it did not see.  A publisher
    that succeeds stored its own plan at generation [expected + 1]; one that
    reports a conflict found another generation; and nothing else is reported
    but an invalid plan or the generation overflow. *)
Theorem publish_expected_compare_and_swap (plan : FaultPlan) (ns : Z) (c : LivePolicy)
    (rs : list (Request FaultPlan)) (s : system) (r : Request FaultPlan) (e : Z) res
    (Hnew : new plan ns = Ok c) (Hreach : rtc step (initial_system c rs) s)
    (Hin : TDone r res ∈ threads s) (Hexp : rq_expected r = Some e) :
  match res with
  | Ok p => generation p = e + 1 /\ pub_plan p = rq_plan r /\ seed_namespace p = rq_ns r
            /\ snapshots (cell s) !! Z.to_nat e = Some p
  | Err (Conflict cf) => pc_expected cf = e /\ pc_found cf <> e
  | Err (Invalid err) => plan_validate (rq_plan r) = Err err \/ err = GenerationOverflow
  end.
Proof.
  assert (Hok : sys_ok plan_validate GenerationOverflow (initial_system c rs))
    by (apply initial_ok; by eapply cell_ok_new).
  destruct (reachable_ok _ _ _ _ Hok Hreach) as [_ Ht].
  rewrite Forall_forall in Ht. specialize (Ht _ Hin). cbn in Ht. rewrite Hexp in Ht.
  destruct res as [p|[err|cf]]; [|done|].
  - destruct Ht as (?&?&?&Hl&Hg). repeat split; try done. rewrite Hg in Hl.
    by replace (e + 1 - 1) with e in Hl by lia.
  - destruct Ht as [[= ->] ?]. done.
Qed.

(** A publication always terminates.  A publisher that runs without
    interference finishes within four of its steps from any point of its loop,
    and from the start with the result and the cell of the sequential call. *)
Theorem publish_terminates_alone (plan : FaultPlan) (ns : Z) (c0 : LivePolicy)
    (rs : list (Request FaultPlan)) (s : system) (t : Thread FaultPlan ValidationError)
    (r : Request FaultPlan)
    (Hnew : new plan ns = Ok c0) (Hreach : rtc step (initial_system c0 rs) s) :
  (exists r' res, (run_alone plan_validate GenerationOverflow 4 t (cell s)).1 = TDone r' res)
  /\ run_alone plan_validate GenerationOverflow 3 (TStart r) (cell s)
     = let '(res, c') := publish_call plan_validate GenerationOverflow (cell s) r in (TDone r res, c').
Proof.
  assert (Hok : sys_ok plan_validate GenerationOverflow (initial_system c0 rs))
    by (apply initial_ok; by eapply cell_ok_new).
  destruct (reachable_ok _ _ _ _ Hok Hreach) as [Hc _]. split; [by eapply run_alone_done|].
  rewrite run_alone_publish by done. by destruct (publish_call _ _ _ _).
Qed.

(** ** Witnesses: two publishers race from generation one *)

Definition demo_cell : LivePolicy :=
  {| snapshots := [{| generation := 1; pub_plan := plan_empty; seed_namespace := 9 |}]; current := 0 |}.
Definition demo_req (e : option Z) : Request FaultPlan :=
  {| rq_plan := demo_plan; rq_ns := 9; rq_expected := e |}.
Fixpoint run_schedule (tids : list nat) (s : system) : system :=
  match tids with
  | [] => s
  | i :: tids' =>
      match threads s !! i with
      | None => run_schedule tids' s
      | Some t =>
          let '(t', c') := thread_step plan_validate GenerationOverflow t (cell s) in
          run_schedule tids' {| threads := <[i := t']> (threads s); cell := c' |}
      end
  end.

Lemma run_schedule_reaches tids s : rtc step s (run_schedule tids s).
Proof.
  revert s; induction tids as [|i tids IH]; intros [ts c]; cbn; [done|].
  destruct (ts !! i) as [t|] eqn:Et; [|apply IH].
  destruct (thread_step _ _ t c) as [t' c'] eqn:Es. eapply rtc_l; [|apply IH].
  pose proof (step_thread plan_validate GenerationOverflow (take i ts) t (drop (S i) ts) c) as H.
  rewrite Es in H; cbn in H. rewrite take_drop_middle in H by done.
  rewrite insert_take_drop by by eapply lookup_lt_Some. exact H.
Qed.

(** The first publisher loads, the second publishes, the first conflicts. *)
Definition demo_system : system :=
  run_schedule [0; 0; 1; 1; 1; 0; 0]%nat (initial_system demo_cell [demo_req (Some 1); demo_req None]).

Lemma demo_system_reachable :
  rtc step (initial_system demo_cell [demo_req (Some 1); demo_req None]) demo_system.
Proof. apply run_schedule_reaches. Qed.

Lemma publications_linearize_witness :
  snapshot (cell demo_system) = last (snapshots (cell demo_system))
  /\ length (snapshots (cell demo_system)) = 2%nat.
Proof.
  split; [|vm_compute; reflexivity].
  apply (publications_linearize plan_empty 9 demo_cell [demo_req (Some 1); demo_req None] demo_system);
    [reflexivity|apply demo_system_reachable].
Defined.

Lemma publish_expected_compare_and_swap_witness :
  TDone (demo_req (Some 1)) (Err (Conflict {| pc_expected := 1; pc_found := 2 |})) ∈ threads demo_system
  /\ 1 = 1 /\ 2 <> 1.
Proof.
  assert (Hin : TDone (demo_req (Some 1)) (Err (Conflict {| pc_expected := 1; pc_found := 2 |})) ∈ threads demo_system).
  { apply list_elem_of_lookup. exists 0%nat. vm_compute. reflexivity. }
  split; [exact Hin|].
  exact (publish_expected_compare_and_swap plan_empty 9 demo_cell [demo_req (Some 1); demo_req None]
    demo_system (demo_req (Some 1)) 1 _ eq_refl demo_system_reachable Hin eq_refl).
Defined.

Lemma publish_terminates_alone_witness :
  exists r' res, (run_alone plan_validate GenerationOverflow 4 (TLoad (demo_req None)) (cell demo_system)).1
                 = TDone r' res.
Proof.
  apply (publish_terminates_alone plan_empty 9 demo_cell [demo_req (Some 1); demo_req None] demo_system
    (TLoad (demo_req None)) (demo_req None)); [reflexivity|apply demo_system_reachable].
Defined.
End Stream.
