(* ===== verification/Env.v ===== *)
(** * The environment of the poll-driven code

    Time, timers and transports, as the Tokio runtime provides them.  They are
    not part of the repository, so they are parameters with the documented
    behaviour as class laws:
    - [clock k] is the value of the [k]-th call of [Instant::now()] the program
      makes; the clock is monotonic;
    - [sleep_elapsed k d] is whether polling a [Sleep] with deadline [d] after
      the [k]-th clock reading resolves; it never resolves before [d];
    - a transport implements [AsyncWrite]; what it has taken so far is [sunk].
    A function that reads the clock takes the index [k] of its first reading. *)

From stdpp Require Import base list strings.
From S2P Require Import Prelude Rng Float64 Plan.

(** ** Instants *)

Definition Instant : Type := Z.
(** The largest instant of the 64-bit Unix [Timespec]. *)
Definition INSTANT_MAX : Instant := 9223372036854775807 * NANOS_PER_SEC + 999999999.
Definition instant_checked_add (t : Instant) (d : Duration) : option Instant :=
  if t + d <=? INSTANT_MAX then Some (t + d) else None.
Definition saturating_duration_since (a b : Instant) : Duration := Z.max (a - b) 0.
(** [t.checked_add(d).unwrap_or(t + fallback)]. *)
Definition add_or (t : Instant) (d fallback : Duration) : Instant :=
  match instant_checked_add t d with Some x => x | None => t + fallback end.

Lemma add_or_ge t d f : 0 <= d -> 0 <= f -> t <= add_or t d f.
Proof. intros; unfold add_or, instant_checked_add. destruct (t + d <=? INSTANT_MAX); lia. Qed.
Lemma add_or_le t d f b : d <= b -> f <= b -> add_or t d f <= t + b.
Proof. intros; unfold add_or, instant_checked_add. destruct (t + d <=? INSTANT_MAX); lia. Qed.
Lemma add_or_in_range t d f : t + d <= INSTANT_MAX -> add_or t d f = t + d.
Proof. intros; unfold add_or, instant_checked_add. destruct (Z.leb_spec (t + d) INSTANT_MAX); [done|lia]. Qed.

(** ** Clock and timers *)

Class Env := {
  clock : nat -> Instant;
  sleep_elapsed : nat -> Instant -> bool
}.

Class EnvOk (E : Env) : Prop := {
  clock_mono : forall i j, (i <= j)%nat -> clock i <= clock j;
  sleep_not_early : forall k d, sleep_elapsed k d = true -> d <= clock k
}.

(** ** I/O results *)

Inductive IoErrorKind :=
| WriteZero | InvalidData | InvalidInput | ConnectionAborted | ConnectionReset | OtherKind.
Record IoError := { io_kind : IoErrorKind; io_message : string }.
Abbreviation io_poll A := (poll (result A IoError)).

(** ** [tokio::io::AsyncWrite] *)

Class AsyncWrite (T : Type) := {
  tx_write : T -> bytes -> io_poll Z * T;
  tx_flush : T -> io_poll unit * T;
  tx_shutdown : T -> io_poll unit * T;
  sunk : T -> bytes
}.

(** The documented contract: [Ok n] took the first [n] bytes; anything else
    took nothing.  An [n] beyond the slice is left possible, because the code
    defends against it. *)
Class AsyncWriteOk (T : Type) `{W : AsyncWrite T} : Prop := {
  tx_write_ok : forall t b n t', tx_write t b = (Ready (Ok n), t') ->
    0 <= n /\ (n <= zlen b -> sunk t' = sunk t ++ ztake n b);
  tx_write_err : forall t b e t', tx_write t b = (Ready (Err e), t') -> sunk t' = sunk t;
  tx_write_pending : forall t b t', tx_write t b = (Pending, t') -> sunk t' = sunk t;
  tx_flush_keeps : forall t, sunk (tx_flush t).2 = sunk t;
  tx_shutdown_keeps : forall t, sunk (tx_shutdown t).2 = sunk t
}.

(** A scripted transport, for concrete runs: each entry is the most bytes the
    next write takes, [None] is a pending poll; an exhausted script takes all. *)
Record Pipe := { pipe_script : list (option Z); pipe_taken : bytes; pipe_closed : bool }.

#[export] Instance Pipe_write : AsyncWrite Pipe := {
  tx_write p b :=
    match pipe_script p with
    | [] => (Ready (Ok (zlen b)),
             {| pipe_script := []; pipe_taken := pipe_taken p ++ b; pipe_closed := pipe_closed p |})
    | None :: s => (Pending, {| pipe_script := s; pipe_taken := pipe_taken p; pipe_closed := pipe_closed p |})
    | Some n :: s =>
        let n := Z.max 0 (Z.min n (zlen b)) in
        (Ready (Ok n), {| pipe_script := s; pipe_taken := pipe_taken p ++ ztake n b;
                          pipe_closed := pipe_closed p |})
    end;
  tx_flush p := (Ready (Ok tt), p);
  tx_shutdown p := (Ready (Ok tt), {| pipe_script := pipe_script p; pipe_taken := pipe_taken p; pipe_closed := true |});
  sunk := pipe_taken
}.

#[export] Instance Pipe_write_ok : AsyncWriteOk Pipe.
Proof.
  split; intros; cbn in *; try done;
    destruct (pipe_script t) as [|[m|] s]; cbn in *; simplify_eq; cbn; try done.
  - split; [apply zlen_nonneg|]. intros _. by rewrite ztake_all.
  - split; [lia|]. done.
Qed.

(** A clock that advances by [step] nanoseconds at each reading, with timers
    that fire as soon as they may. *)
Definition ticking_env (start step : Z) : Env := {|
  clock k := start + step * Z.of_nat k;
  sleep_elapsed k d := d <=? start + step * Z.of_nat k
|}.
Lemma ticking_env_ok start step : 0 <= step -> EnvOk (ticking_env start step).
Proof. intros; split; cbn; intros; bools; nia. Qed.

(** ** [ArmedTimer] ([crates/eggchaos-core/src/engine.rs])

    A [Sleep] is represented by its own deadline. *)

Record ArmedTimer := { at_sleep : option Instant; at_deadline : option Instant }.
Definition timer_default : ArmedTimer := {| at_sleep := None; at_deadline := None |}.

Section Timer.
Context `{E : Env}.

(** [ArmedTimer::poll]: returns whether it resolved.  The [expect] on an armed
    timer is the [None] branch, unreachable by [timer_ok]. *)
Definition timer_poll (k : nat) (now deadline : Instant) (t : ArmedTimer) : bool * ArmedTimer :=
  let t1 :=
    if negb (bool_decide (at_deadline t = Some deadline))
    then {| at_sleep := Some (clock k + saturating_duration_since deadline now);
            at_deadline := Some deadline |}
    else t in
  match at_sleep t1 with
  | Some s => if sleep_elapsed (S k) s then (true, timer_default) else (false, t1)
  | None => (false, t1)
  end.

(** The cached [Sleep] is armed exactly when a deadline is, and never fires
    before that deadline. *)
Definition timer_ok (t : ArmedTimer) : Prop :=
  match at_sleep t, at_deadline t with
  | Some s, Some d => d <= s
  | None, None => True
  | _, _ => False
  end.

Lemma timer_default_ok : timer_ok timer_default.
Proof. exact I. Qed.

Lemma timer_poll_ok `{!EnvOk E} k now deadline t b t' :
  timer_ok t -> now <= clock k -> timer_poll k now deadline t = (b, t') ->
  timer_ok t' /\ (b = true -> deadline <= clock (S k)).
Proof.
  intros Ht Hnow. unfold timer_poll.
  case_bool_decide as Hd; cbn [negb at_sleep].
  - destruct t as [[s|] [d|]]; cbn in *; try done. injection Hd as ->.
    destruct (sleep_elapsed (S k) s) eqn:He; intros [= <- <-]; cbn; split; try done.
    intros _. apply sleep_not_early in He. lia.
  - destruct (sleep_elapsed _ _) eqn:He; intros [= <- <-]; cbn; unfold saturating_duration_since in *.
    + split; [done|]. intros _. apply sleep_not_early in He. lia.
    + split; [lia|done].
Qed.

End Timer.
#[export] Hint Resolve timer_default_ok : egg.
