(* ===== verification/TokenBucket.v ===== *)
(** * The stream token bucket ([TokenBucket] of [crates/eggchaos-core/src/engine.rs])

    Integer fixed-point tokens: one byte is [10^6] microtokens.  [u128]
    arithmetic saturates as in the code. *)

From stdpp Require Import base list.
From S2P Require Import Prelude Rng Float64 Plan Env.

Definition MICRO : Z := 1000000.

Record TokenBucket := {
  tb_rate : Z;
  tb_capacity_micro : Z;
  tb_tokens_micro : Z;
  tb_last : Instant;
  tb_cursor : Instant
}.

Definition bucket_new (rate burst : Z) (now : Instant) : TokenBucket :=
  {| tb_rate := rate; tb_capacity_micro := burst * MICRO; tb_tokens_micro := burst * MICRO;
     tb_last := now; tb_cursor := now |}.

Definition bucket_refill (b : TokenBucket) (now : Instant) : TokenBucket :=
  let elapsed_nanos := saturating_duration_since now (tb_last b) in
  if 0 <? elapsed_nanos then
    let earned := sat_mul128 elapsed_nanos (tb_rate b) / 1000 in
    {| tb_rate := tb_rate b; tb_capacity_micro := tb_capacity_micro b;
       tb_tokens_micro := Z.min (sat_add128 (tb_tokens_micro b) earned) (tb_capacity_micro b);
       tb_last := now; tb_cursor := tb_cursor b |}
  else b.

(** [ceil(deficit_micro * 1000 / rate)], the wait in nanoseconds. *)
Definition wait_nanos_of (rate deficit : Z) : Z :=
  sat_add128 (sat_mul128 deficit 1000) (rate - 1) / rate.
(** [base.max(now.checked_add(wait).unwrap_or(now))]. *)
Definition release_after (base now : Instant) (wait : Duration) : Instant :=
  Z.max base (match instant_checked_add now wait with Some t => t | None => now end).
(** Ceiling milliseconds of an imposed wait. *)
Definition throttle_ms_of (wait : Duration) : Z :=
  Z.min (sat_add128 wait 999999 / 1000000) U64_MAX.

(** Returns the release instant, the throttle delay in milliseconds and the
    bucket.  [len] is the segment length. *)
Definition bucket_consume (b : TokenBucket) (len : Z) (now earliest : Instant)
    : Instant * Z * TokenBucket :=
  let b := bucket_refill b now in
  let need := sat_mul128 len MICRO in
  let base := Z.max earliest now in
  if need <=? tb_tokens_micro b then
    (base, 0,
     {| tb_rate := tb_rate b; tb_capacity_micro := tb_capacity_micro b;
        tb_tokens_micro := tb_tokens_micro b - need; tb_last := tb_last b;
        tb_cursor := Z.max (tb_cursor b) base |})
  else
    let deficit := need - tb_tokens_micro b in
    let wait := Z.min (wait_nanos_of (tb_rate b) deficit) U64_MAX in
    let release := release_after base now wait in
    let throttled_ms :=
      throttle_ms_of (saturating_duration_since release (Z.max earliest now)) in
    (release, throttled_ms,
     {| tb_rate := tb_rate b; tb_capacity_micro := tb_capacity_micro b;
        tb_tokens_micro := 0; tb_last := tb_last b; tb_cursor := Z.max (tb_cursor b) release |}).

(** ** Invariant *)

Record bucket_ok (b : TokenBucket) : Prop := {
  bk_rate : 0 < tb_rate b <= U64_MAX;
  bk_cap : 0 <= tb_capacity_micro b <= U64_MAX * MICRO;
  bk_tokens : 0 <= tb_tokens_micro b <= tb_capacity_micro b
}.

Lemma bucket_new_ok rate burst now :
  0 < rate <= U64_MAX -> 0 <= burst <= U64_MAX -> bucket_ok (bucket_new rate burst now).
Proof. intros; constructor; cbn; unfold MICRO; lia. Qed.

Lemma earned_nonneg d r : 0 <= d -> 0 <= r -> 0 <= sat_mul128 d r / 1000.
Proof. intros. apply Z.div_pos; [|lia]. unfold sat_mul, U128_MAX. nia. Qed.

Lemma bucket_refill_ok b now : bucket_ok b -> bucket_ok (bucket_refill b now).
Proof.
  intros [Hr Hc Ht]. unfold bucket_refill.
  destruct (Z.ltb_spec 0 (saturating_duration_since now (tb_last b))); [|by constructor].
  pose proof (earned_nonneg (saturating_duration_since now (tb_last b)) (tb_rate b) ltac:(lia) ltac:(lia)).
  constructor; cbn; auto. unfold sat_add, U128_MAX in *. lia.
Qed.

Lemma bucket_consume_ok b len now earliest r ms b' :
  bucket_ok b -> 0 <= len -> bucket_consume b len now earliest = (r, ms, b') ->
  bucket_ok b' /\ Z.max earliest now <= r /\ 0 <= ms
  /\ tb_rate b' = tb_rate b /\ tb_capacity_micro b' = tb_capacity_micro b.
Proof.
  intros Hb Hlen. pose proof (bucket_refill_ok b now Hb) as Hb'.
  assert (Hk : tb_rate (bucket_refill b now) = tb_rate b
               /\ tb_capacity_micro (bucket_refill b now) = tb_capacity_micro b)
    by (unfold bucket_refill; case_split; done).
  destruct Hk as [K1 K2]. destruct Hb' as [Hr Hc Ht].
  assert (0 <= sat_mul128 len MICRO) by (unfold sat_mul, MICRO, U128_MAX; lia).
  unfold bucket_consume. destruct (Z.leb_spec (sat_mul128 len MICRO) (tb_tokens_micro (bucket_refill b now)));
    intros [= <- <- <-]; (split; [constructor; cbn; lia|]); cbn; repeat split; try lia.
  - unfold release_after. lia.
  - unfold throttle_ms_of. apply Z.min_glb; [|unfold U64_MAX; lia]. apply Z.div_pos; [|lia].
  unfold sat_add, saturating_duration_since, U128_MAX. lia.
Qed.

(** ** Refill never exceeds what elapsed time earns, nor one burst *)

Lemma bucket_refill_bound b now : bucket_ok b ->
  let b' := bucket_refill b now in
  tb_tokens_micro b' <= tb_capacity_micro b
  /\ 1000 * tb_tokens_micro b' <= 1000 * tb_tokens_micro b + tb_rate b * (tb_last b' - tb_last b)
  /\ tb_last b <= tb_last b' /\ (tb_last b' = tb_last b \/ tb_last b' = now).
Proof.
  intros [Hr Hc Ht]. unfold bucket_refill.
  destruct (Z.ltb_spec 0 (saturating_duration_since now (tb_last b))) as [Hd|Hd]; cbn; [|lia].
  unfold saturating_duration_since in *. rewrite Z.max_l in * by lia.
  assert (1000 * (sat_mul128 (now - tb_last b) (tb_rate b) / 1000) <= (now - tb_last b) * tb_rate b).
  { etransitivity; [apply Z.mul_div_le; lia|]. unfold sat_mul. lia. }
  unfold sat_add in *. lia.
Qed.

(** ** A run of consumptions *)

Record Demand := { dm_len : Z; dm_now : Instant; dm_earliest : Instant }.

Fixpoint bucket_run (b : TokenBucket) (ds : list Demand) : list (Instant * Z) * TokenBucket :=
  match ds with
  | [] => ([], b)
  | d :: ds' =>
      let '(r, ms, b1) := bucket_consume b (dm_len d) (dm_now d) (dm_earliest d) in
      let '(out, b2) := bucket_run b1 ds' in
      ((r, ms) :: out, b2)
  end.

(** The bytes a run passed on tokens alone, without waiting for a refill. *)
Fixpoint passed_on_tokens (b : TokenBucket) (ds : list Demand) : Z :=
  match ds with
  | [] => 0
  | d :: ds' =>
      let b0 := bucket_refill b (dm_now d) in
      let b1 := (bucket_consume b (dm_len d) (dm_now d) (dm_earliest d)).2 in
      (if sat_mul128 (dm_len d) MICRO <=? tb_tokens_micro b0 then dm_len d else 0)
      + passed_on_tokens b1 ds'
  end.

Lemma bucket_run_conform b ds T :
  bucket_ok b -> tb_last b <= T -> Forall (fun d => 0 <= dm_len d <= U64_MAX /\ dm_now d <= T) ds ->
  1000 * MICRO * passed_on_tokens b ds
  <= 1000 * tb_tokens_micro b + tb_rate b * (T - tb_last b).
Proof.
  intros Hb HT Hds; revert b Hb HT; induction Hds as [|d ds [Hlen Hnow] Hds IH]; intros b Hb HT.
  - cbn. destruct Hb. nia.
  - cbn [passed_on_tokens].
    destruct (bucket_consume b (dm_len d) (dm_now d) (dm_earliest d)) as [[r ms] b1] eqn:E. cbn [snd].
    destruct (bucket_consume_ok b (dm_len d) _ _ _ _ _ Hb ltac:(lia) E) as (Hb1 & _ & _ & Kr & Kc).
    destruct (bucket_refill_bound b (dm_now d) Hb) as (B1 & B2 & B3 & B4).
    assert (El : tb_last b1 = tb_last (bucket_refill b (dm_now d))).
    { revert E. unfold bucket_consume. case_split; intros [= _ _ <-]; done. }
    specialize (IH b1 Hb1 ltac:(lia)). rewrite Kr in IH.
    assert (En : sat_mul128 (dm_len d) MICRO = dm_len d * MICRO)
      by (unfold sat_mul, MICRO, U128_MAX, U64_MAX in *; lia).
    destruct (Z.leb_spec (sat_mul128 (dm_len d) MICRO) (tb_tokens_micro (bucket_refill b (dm_now d)))) as [Hle|Hgt].
    + assert (Et : tb_tokens_micro b1 = tb_tokens_micro (bucket_refill b (dm_now d)) - dm_len d * MICRO).
      { revert E. unfold bucket_consume. case_split; intros [= _ _ <-]; bools; cbn; lia. }
      unfold MICRO in *. nia.
    + assert (Et : tb_tokens_micro b1 = 0).
      { revert E. unfold bucket_consume. case_split; intros [= _ _ <-]; bools; cbn; lia. }
      destruct (bucket_refill_ok b (dm_now d) Hb). unfold MICRO in *. nia.
Qed.

(** Rate conformance of unthrottled traffic.  Over any sequence of segments
    up to time [T], the bytes a bucket passes on its tokens alone are at most
    one burst plus [rate] bytes per elapsed second; an idle period of any
    length therefore never grants more than one burst. *)
Theorem token_bucket_conformance (rate burst : Z) (t0 T : Instant) (ds : list Demand)
    (Hrate : 0 < rate <= U64_MAX) (Hburst : 0 <= burst <= U64_MAX) (HT : t0 <= T)
    (Hds : Forall (fun d => 0 <= dm_len d <= U64_MAX /\ dm_now d <= T) ds) :
  NANOS_PER_SEC * passed_on_tokens (bucket_new rate burst t0) ds
  <= NANOS_PER_SEC * burst + rate * (T - t0).
Proof.
  pose proof (bucket_run_conform (bucket_new rate burst t0) ds T
    (bucket_new_ok rate burst t0 Hrate Hburst) HT Hds) as H.
  cbn in H. unfold NANOS_PER_SEC, MICRO in *. lia.
Qed.

Lemma token_bucket_conformance_witness :
  NANOS_PER_SEC * passed_on_tokens (bucket_new 1000 10 0)
    [{| dm_len := 8; dm_now := 0; dm_earliest := 0 |};
     {| dm_len := 8; dm_now := 6000000; dm_earliest := 0 |}]
  <= NANOS_PER_SEC * 10 + 1000 * (6000000 - 0).
Proof.
  apply token_bucket_conformance; try (unfold U64_MAX; lia).
  repeat constructor; cbn; unfold U64_MAX; lia.
Defined.

(** The ceiling divisions of [bucket_consume]. *)
Lemma ceil_div_spec n d : 0 < d -> let q := (n + (d - 1)) / d in n <= d * q < n + d.
Proof.
  intros Hd q. unfold q. pose proof (Z.div_mod (n + (d - 1)) d ltac:(lia)).
  pose proof (Z.mod_pos_bound (n + (d - 1)) d Hd). lia.
Qed.

Lemma bucket_consume_short b len now earliest :
  tb_last b = now -> 0 <= len <= U64_MAX -> tb_tokens_micro b < len * MICRO -> earliest <= now ->
  let wait := wait_nanos_of (tb_rate b) (len * MICRO - tb_tokens_micro b) in
  0 <= wait -> wait <= U64_MAX -> now + wait <= INSTANT_MAX ->
  exists b', bucket_consume b len now earliest = (now + wait, throttle_ms_of wait, b')
    /\ tb_tokens_micro b' = 0.
Proof.
  intros Hl Hlen Hs He wait Hw0 Hw Hi. unfold bucket_consume.
  assert (Er : bucket_refill b now = b).
  { unfold bucket_refill, saturating_duration_since. rewrite Hl, Z.sub_diag. done. }
  assert (En : sat_mul128 len MICRO = len * MICRO)
    by (unfold sat_mul, MICRO, U128_MAX, U64_MAX in *; lia).
  rewrite Er, En. destruct (Z.leb_spec (len * MICRO) (tb_tokens_micro b)); [lia|].
  change (wait_nanos_of (tb_rate b) (len * MICRO - tb_tokens_micro b)) with wait.
  rewrite (Z.min_l wait) by done. unfold release_after, instant_checked_add.
  destruct (Z.leb_spec (now + wait) INSTANT_MAX); [|lia].
  rewrite (Z.max_r earliest now), (Z.max_r now (now + wait)) by lia.
  unfold saturating_duration_since. replace (now + wait - now) with wait by lia.
  rewrite (Z.max_l wait 0) by lia. by eexists.
Qed.

(** The wait imposed on a segment that exceeds the tokens is the exact
    ceiling of its deficit divided by the rate, and the reported throttle
    time is that wait, beyond the latency-derived earliest time, rounded up to
    a millisecond. *)
Theorem bucket_wait_is_ceiling (b : TokenBucket) (len : Z) (now earliest : Instant)
    (Hb : bucket_ok b) (Hlen : 0 <= len <= U64_MAX) (Hlast : tb_last b = now)
    (Hshort : tb_tokens_micro b < len * MICRO) (Hnow : 0 <= now)
    (Hroom : now + (len * MICRO * 1000 / tb_rate b + 1) <= Z.min U64_MAX INSTANT_MAX)
    (Hearly : earliest <= now) :
  exists release ms b', bucket_consume b len now earliest = (release, ms, b')
  /\ tb_tokens_micro b' = 0
  /\ (let deficit := len * MICRO - tb_tokens_micro b in
      deficit * 1000 <= tb_rate b * (release - now) < deficit * 1000 + tb_rate b)
  /\ (ms - 1) * 1000000 < release - now <= ms * 1000000.
Proof.
  destruct Hb as [Hr Hc Ht].
  assert (Hd : 0 < len * MICRO - tb_tokens_micro b <= len * MICRO) by lia.
  remember (len * MICRO - tb_tokens_micro b) as deficit eqn:Ed.
  assert (E1 : wait_nanos_of (tb_rate b) deficit = (deficit * 1000 + (tb_rate b - 1)) / tb_rate b).
  { unfold wait_nanos_of. f_equal. unfold sat_add, sat_mul, MICRO, U128_MAX, U64_MAX in *; lia. }
  pose proof (ceil_div_spec (deficit * 1000) (tb_rate b) ltac:(lia)) as Hq. cbn zeta in Hq.
  rewrite <- E1 in Hq. set (wait := wait_nanos_of (tb_rate b) deficit) in *.
  assert (Hw0 : 0 <= wait) by nia.
  assert (Hw1 : wait <= len * MICRO * 1000 / tb_rate b + 1).
  { enough (wait - 1 <= len * MICRO * 1000 / tb_rate b) by lia.
    apply Z.div_le_lower_bound; lia. }
  destruct (bucket_consume_short b len now earliest) as (b' & Ec & Et); rewrite <- ?Ed; fold wait; try lia.
  exists (now + wait), (throttle_ms_of wait), b'. rewrite <- Ed in Ec. fold wait in Ec.
  split; [exact Ec|]. split; [exact Et|].
  replace (now + wait - now) with wait by lia. split; [exact Hq|].
  pose proof (ceil_div_spec wait 1000000 ltac:(lia)) as Hms. cbn zeta in Hms.
  unfold throttle_ms_of. replace (sat_add128 wait 999999) with (wait + (1000000 - 1))
    by (unfold sat_add, U128_MAX, U64_MAX in *; lia).
  rewrite Z.min_l; [lia|]. unfold U64_MAX in *; lia.
Qed.

Lemma bucket_wait_is_ceiling_witness :
  exists release ms b', bucket_consume (bucket_new 1000 1 0) 1000 0 0 = (release, ms, b')
  /\ tb_tokens_micro b' = 0
  /\ (let deficit := 1000 * MICRO - tb_tokens_micro (bucket_new 1000 1 0) in
      deficit * 1000 <= tb_rate (bucket_new 1000 1 0) * (release - 0)
        < deficit * 1000 + tb_rate (bucket_new 1000 1 0))
  /\ (ms - 1) * 1000000 < release - 0 <= ms * 1000000.
Proof.
  apply (bucket_wait_is_ceiling (bucket_new 1000 1 0) 1000 0 0).
  - apply bucket_new_ok; unfold U64_MAX; lia.
  - unfold U64_MAX; lia.
  - reflexivity.
  - reflexivity.
  - lia.
  - vm_compute. discriminate.
  - lia.
Defined.

(** What an empty bucket answers depends only on its rate, the length and the
    instants; the bucket stays empty with the same refill time. *)
Definition empty_release (rate len : Z) (now earliest : Instant) : Instant :=
  release_after (Z.max earliest now) now
    (Z.min (wait_nanos_of rate (sat_mul128 len MICRO - 0)) U64_MAX).

Lemma need_positive len : 0 < len -> 0 < sat_mul128 len MICRO.
Proof. unfold sat_mul, MICRO, U128_MAX. lia. Qed.

Lemma bucket_refill_now b now : tb_last b = now -> bucket_refill b now = b.
Proof. intros H. unfold bucket_refill, saturating_duration_since. rewrite H, Z.sub_diag. done. Qed.

Lemma bucket_consume_empty b len now earliest :
  0 < len -> tb_tokens_micro b = 0 -> tb_last b = now ->
  exists ms b', bucket_consume b len now earliest = (empty_release (tb_rate b) len now earliest, ms, b')
    /\ tb_tokens_micro b' = 0 /\ tb_last b' = now /\ tb_rate b' = tb_rate b.
Proof.
  intros Hlen H0 Hl. apply need_positive in Hlen. unfold bucket_consume, empty_release.
  rewrite bucket_refill_now, H0 by done. cbn zeta. generalize dependent (sat_mul128 len MICRO). intros need Hn.
  destruct (Z.leb_spec need 0) as [Hz|Hz]; [lia|].
  do 2 eexists. split; [reflexivity|]. done.
Qed.

(** A deficit does not carry over.  After a segment had to wait (which
    leaves the bucket empty at its refill time), any number of further
    segments of the same length scheduled at that instant all get the same
    release time instead of queueing one behind the other, so back-to-back
    segments leave together and the sustained rate is exceeded. *)
Theorem bucket_deficits_do_not_queue (b : TokenBucket) (len : Z) (now earliest : Instant) (n : nat)
    (Hlen : 0 < len) (Hempty : tb_tokens_micro b = 0) (Hlast : tb_last b = now) :
  map fst (bucket_run b (repeat {| dm_len := len; dm_now := now; dm_earliest := earliest |} n)).1
  = repeat (empty_release (tb_rate b) len now earliest) n.
Proof.
  revert b Hempty Hlast. induction n as [|n IH]; intros b Hempty Hlast; [done|]. cbn [repeat bucket_run].
  cbn [dm_len dm_now dm_earliest].
  destruct (bucket_consume_empty b len now earliest Hlen Hempty Hlast) as (ms & b' & -> & H1 & H2 & H3).
  specialize (IH b' H1 H2). destruct (bucket_run b' _) as [out b2]. cbn [map fst] in *.
  by rewrite IH, H3.
Qed.

(** A rate of 1000 bytes per second and an empty bucket: 4000 bytes offered at
    time 0 in four segments all leave after one second. *)
Lemma bucket_deficits_do_not_queue_witness :
  let b := {| tb_rate := 1000; tb_capacity_micro := MICRO; tb_tokens_micro := 0;
              tb_last := 0; tb_cursor := 0 |} in
  map fst (bucket_run b (repeat {| dm_len := 1000; dm_now := 0; dm_earliest := 0 |} 4)).1
  = repeat (empty_release 1000 1000 0 0) 4
  /\ empty_release 1000 1000 0 0 = 1000000000.
Proof.
  split; [|vm_compute; reflexivity].
  refine (bucket_deficits_do_not_queue _ 1000 0 0 4 _ _ _); [lia|reflexivity|reflexivity].
Defined.
