(* ===== verification/EngineState.v ===== *)
(** * State of the direction engine ([crates/eggchaos-core/src/engine.rs])

    The termination handle, the evidence counters, the per-fault states and the
    [DirectionEngine] record with its field updates.  The handle's shared slot
    is the field [e_term_handle]: only the engine that owns it publishes, and a
    policy transition passes the same slot to the next engine. *)

From stdpp Require Import base list strings.
From S2P Require Import Prelude Rng Float64 Plan Env TokenBucket.

(** ** Termination *)

Inductive TerminationRequest := Graceful | HardReset.
Record TerminationInfo := {
  ti_request : TerminationRequest;
  ti_direction : Direction;
  ti_fault_id : option string
}.

(** [TermSlot]: the mutex-protected option; [notify_waiters] wakes parked tasks
    and stores nothing. *)
Definition TermSlot : Type := option TerminationInfo.
Definition handle_new : TermSlot := None.
Definition handle_get (h : TermSlot) : option TerminationInfo := h.
Definition handle_publish (h : TermSlot) (info : TerminationInfo) : bool * TermSlot :=
  match h with
  | None => (true, Some info)
  | Some _ => (false, h)
  end.

(** ** Evidence *)

Record EngineEvidence := {
  v_bytes_accepted : Z;
  v_bytes_forwarded : Z;
  v_bytes_discarded : Z;
  v_segments : Z;
  v_slices : Z;
  v_buffered_bytes : Z;
  v_high_water_bytes : Z;
  v_injected_delay_ms : Z;
  v_throttled_delay_ms : Z;
  v_termination : option TerminationRequest;
  v_activations : list Z;
  v_chunks_evaluated : Z;
  v_chunks_dropped : Z;
  v_loss_bytes_discarded : Z;
  v_rng_version : RngVersion
}.

Definition evidence_default : EngineEvidence :=
  {| v_bytes_accepted := 0; v_bytes_forwarded := 0; v_bytes_discarded := 0; v_segments := 0;
     v_slices := 0; v_buffered_bytes := 0; v_high_water_bytes := 0; v_injected_delay_ms := 0;
     v_throttled_delay_ms := 0; v_termination := None; v_activations := [0; 0; 0; 0; 0; 0; 0];
     v_chunks_evaluated := 0; v_chunks_dropped := 0; v_loss_bytes_discarded := 0;
     v_rng_version := V1 |}.

Definition set_v_bytes_accepted (x : Z) (r : EngineEvidence) : EngineEvidence :=
  {| v_bytes_accepted := x; v_bytes_forwarded := v_bytes_forwarded r;
     v_bytes_discarded := v_bytes_discarded r; v_segments := v_segments r;
     v_slices := v_slices r; v_buffered_bytes := v_buffered_bytes r;
     v_high_water_bytes := v_high_water_bytes r; v_injected_delay_ms := v_injected_delay_ms r;
     v_throttled_delay_ms := v_throttled_delay_ms r; v_termination := v_termination r;
     v_activations := v_activations r; v_chunks_evaluated := v_chunks_evaluated r;
     v_chunks_dropped := v_chunks_dropped r;
     v_loss_bytes_discarded := v_loss_bytes_discarded r; v_rng_version := v_rng_version r |}.
Definition set_v_bytes_forwarded (x : Z) (r : EngineEvidence) : EngineEvidence :=
  {| v_bytes_accepted := v_bytes_accepted r; v_bytes_forwarded := x;
     v_bytes_discarded := v_bytes_discarded r; v_segments := v_segments r;
     v_slices := v_slices r; v_buffered_bytes := v_buffered_bytes r;
     v_high_water_bytes := v_high_water_bytes r; v_injected_delay_ms := v_injected_delay_ms r;
     v_throttled_delay_ms := v_throttled_delay_ms r; v_termination := v_termination r;
     v_activations := v_activations r; v_chunks_evaluated := v_chunks_evaluated r;
     v_chunks_dropped := v_chunks_dropped r;
     v_loss_bytes_discarded := v_loss_bytes_discarded r; v_rng_version := v_rng_version r |}.
Definition set_v_bytes_discarded (x : Z) (r : EngineEvidence) : EngineEvidence :=
  {| v_bytes_accepted := v_bytes_accepted r; v_bytes_forwarded := v_bytes_forwarded r;
     v_bytes_discarded := x; v_segments := v_segments r; v_slices := v_slices r;
     v_buffered_bytes := v_buffered_bytes r; v_high_water_bytes := v_high_water_bytes r;
     v_injected_delay_ms := v_injected_delay_ms r;
     v_throttled_delay_ms := v_throttled_delay_ms r; v_termination := v_termination r;
     v_activations := v_activations r; v_chunks_evaluated := v_chunks_evaluated r;
     v_chunks_dropped := v_chunks_dropped r;
     v_loss_bytes_discarded := v_loss_bytes_discarded r; v_rng_version := v_rng_version r |}.
Definition set_v_segments (x : Z) (r : EngineEvidence) : EngineEvidence :=
  {| v_bytes_accepted := v_bytes_accepted r; v_bytes_forwarded := v_bytes_forwarded r;
     v_bytes_discarded := v_bytes_discarded r; v_segments := x; v_slices := v_slices r;
     v_buffered_bytes := v_buffered_bytes r; v_high_water_bytes := v_high_water_bytes r;
     v_injected_delay_ms := v_injected_delay_ms r;
     v_throttled_delay_ms := v_throttled_delay_ms r; v_termination := v_termination r;
     v_activations := v_activations r; v_chunks_evaluated := v_chunks_evaluated r;
     v_chunks_dropped := v_chunks_dropped r;
     v_loss_bytes_discarded := v_loss_bytes_discarded r; v_rng_version := v_rng_version r |}.
Definition set_v_slices (x : Z) (r : EngineEvidence) : EngineEvidence :=
  {| v_bytes_accepted := v_bytes_accepted r; v_bytes_forwarded := v_bytes_forwarded r;
     v_bytes_discarded := v_bytes_discarded r; v_segments := v_segments r; v_slices := x;
     v_buffered_bytes := v_buffered_bytes r; v_high_water_bytes := v_high_water_bytes r;
     v_injected_delay_ms := v_injected_delay_ms r;
     v_throttled_delay_ms := v_throttled_delay_ms r; v_termination := v_termination r;
     v_activations := v_activations r; v_chunks_evaluated := v_chunks_evaluated r;
     v_chunks_dropped := v_chunks_dropped r;
     v_loss_bytes_discarded := v_loss_bytes_discarded r; v_rng_version := v_rng_version r |}.
Definition set_v_buffered_bytes (x : Z) (r : EngineEvidence) : EngineEvidence :=
  {| v_bytes_accepted := v_bytes_accepted r; v_bytes_forwarded := v_bytes_forwarded r;
     v_bytes_discarded := v_bytes_discarded r; v_segments := v_segments r;
     v_slices := v_slices r; v_buffered_bytes := x; v_high_water_bytes := v_high_water_bytes r;
     v_injected_delay_ms := v_injected_delay_ms r;
     v_throttled_delay_ms := v_throttled_delay_ms r; v_termination := v_termination r;
     v_activations := v_activations r; v_chunks_evaluated := v_chunks_evaluated r;
     v_chunks_dropped := v_chunks_dropped r;
     v_loss_bytes_discarded := v_loss_bytes_discarded r; v_rng_version := v_rng_version r |}.
Definition set_v_high_water_bytes (x : Z) (r : EngineEvidence) : EngineEvidence :=
  {| v_bytes_accepted := v_bytes_accepted r; v_bytes_forwarded := v_bytes_forwarded r;
     v_bytes_discarded := v_bytes_discarded r; v_segments := v_segments r;
     v_slices := v_slices r; v_buffered_bytes := v_buffered_bytes r; v_high_water_bytes := x;
     v_injected_delay_ms := v_injected_delay_ms r;
     v_throttled_delay_ms := v_throttled_delay_ms r; v_termination := v_termination r;
     v_activations := v_activations r; v_chunks_evaluated := v_chunks_evaluated r;
     v_chunks_dropped := v_chunks_dropped r;
     v_loss_bytes_discarded := v_loss_bytes_discarded r; v_rng_version := v_rng_version r |}.
Definition set_v_injected_delay_ms (x : Z) (r : EngineEvidence) : EngineEvidence :=
  {| v_bytes_accepted := v_bytes_accepted r; v_bytes_forwarded := v_bytes_forwarded r;
     v_bytes_discarded := v_bytes_discarded r; v_segments := v_segments r;
     v_slices := v_slices r; v_buffered_bytes := v_buffered_bytes r;
     v_high_water_bytes := v_high_water_bytes r; v_injected_delay_ms := x;
     v_throttled_delay_ms := v_throttled_delay_ms r; v_termination := v_termination r;
     v_activations := v_activations r; v_chunks_evaluated := v_chunks_evaluated r;
     v_chunks_dropped := v_chunks_dropped r;
     v_loss_bytes_discarded := v_loss_bytes_discarded r; v_rng_version := v_rng_version r |}.
Definition set_v_throttled_delay_ms (x : Z) (r : EngineEvidence) : EngineEvidence :=
  {| v_bytes_accepted := v_bytes_accepted r; v_bytes_forwarded := v_bytes_forwarded r;
     v_bytes_discarded := v_bytes_discarded r; v_segments := v_segments r;
     v_slices := v_slices r; v_buffered_bytes := v_buffered_bytes r;
     v_high_water_bytes := v_high_water_bytes r; v_injected_delay_ms := v_injected_delay_ms r;
     v_throttled_delay_ms := x; v_termination := v_termination r;
     v_activations := v_activations r; v_chunks_evaluated := v_chunks_evaluated r;
     v_chunks_dropped := v_chunks_dropped r;
     v_loss_bytes_discarded := v_loss_bytes_discarded r; v_rng_version := v_rng_version r |}.
Definition set_v_termination (x : option TerminationRequest) (r : EngineEvidence) : EngineEvidence :=
  {| v_bytes_accepted := v_bytes_accepted r; v_bytes_forwarded := v_bytes_forwarded r;
     v_bytes_discarded := v_bytes_discarded r; v_segments := v_segments r;
     v_slices := v_slices r; v_buffered_bytes := v_buffered_bytes r;
     v_high_water_bytes := v_high_water_bytes r; v_injected_delay_ms := v_injected_delay_ms r;
     v_throttled_delay_ms := v_throttled_delay_ms r; v_termination := x;
     v_activations := v_activations r; v_chunks_evaluated := v_chunks_evaluated r;
     v_chunks_dropped := v_chunks_dropped r;
     v_loss_bytes_discarded := v_loss_bytes_discarded r; v_rng_version := v_rng_version r |}.
Definition set_v_activations (x : list Z) (r : EngineEvidence) : EngineEvidence :=
  {| v_bytes_accepted := v_bytes_accepted r; v_bytes_forwarded := v_bytes_forwarded r;
     v_bytes_discarded := v_bytes_discarded r; v_segments := v_segments r;
     v_slices := v_slices r; v_buffered_bytes := v_buffered_bytes r;
     v_high_water_bytes := v_high_water_bytes r; v_injected_delay_ms := v_injected_delay_ms r;
     v_throttled_delay_ms := v_throttled_delay_ms r; v_termination := v_termination r;
     v_activations := x; v_chunks_evaluated := v_chunks_evaluated r;
     v_chunks_dropped := v_chunks_dropped r;
     v_loss_bytes_discarded := v_loss_bytes_discarded r; v_rng_version := v_rng_version r |}.
Definition set_v_chunks_evaluated (x : Z) (r : EngineEvidence) : EngineEvidence :=
  {| v_bytes_accepted := v_bytes_accepted r; v_bytes_forwarded := v_bytes_forwarded r;
     v_bytes_discarded := v_bytes_discarded r; v_segments := v_segments r;
     v_slices := v_slices r; v_buffered_bytes := v_buffered_bytes r;
     v_high_water_bytes := v_high_water_bytes r; v_injected_delay_ms := v_injected_delay_ms r;
     v_throttled_delay_ms := v_throttled_delay_ms r; v_termination := v_termination r;
     v_activations := v_activations r; v_chunks_evaluated := x;
     v_chunks_dropped := v_chunks_dropped r;
     v_loss_bytes_discarded := v_loss_bytes_discarded r; v_rng_version := v_rng_version r |}.
Definition set_v_chunks_dropped (x : Z) (r : EngineEvidence) : EngineEvidence :=
  {| v_bytes_accepted := v_bytes_accepted r; v_bytes_forwarded := v_bytes_forwarded r;
     v_bytes_discarded := v_bytes_discarded r; v_segments := v_segments r;
     v_slices := v_slices r; v_buffered_bytes := v_buffered_bytes r;
     v_high_water_bytes := v_high_water_bytes r; v_injected_delay_ms := v_injected_delay_ms r;
     v_throttled_delay_ms := v_throttled_delay_ms r; v_termination := v_termination r;
     v_activations := v_activations r; v_chunks_evaluated := v_chunks_evaluated r;
     v_chunks_dropped := x; v_loss_bytes_discarded := v_loss_bytes_discarded r;
     v_rng_version := v_rng_version r |}.
Definition set_v_loss_bytes_discarded (x : Z) (r : EngineEvidence) : EngineEvidence :=
  {| v_bytes_accepted := v_bytes_accepted r; v_bytes_forwarded := v_bytes_forwarded r;
     v_bytes_discarded := v_bytes_discarded r; v_segments := v_segments r;
     v_slices := v_slices r; v_buffered_bytes := v_buffered_bytes r;
     v_high_water_bytes := v_high_water_bytes r; v_injected_delay_ms := v_injected_delay_ms r;
     v_throttled_delay_ms := v_throttled_delay_ms r; v_termination := v_termination r;
     v_activations := v_activations r; v_chunks_evaluated := v_chunks_evaluated r;
     v_chunks_dropped := v_chunks_dropped r; v_loss_bytes_discarded := x;
     v_rng_version := v_rng_version r |}.
Definition set_v_rng_version (x : RngVersion) (r : EngineEvidence) : EngineEvidence :=
  {| v_bytes_accepted := v_bytes_accepted r; v_bytes_forwarded := v_bytes_forwarded r;
     v_bytes_discarded := v_bytes_discarded r; v_segments := v_segments r;
     v_slices := v_slices r; v_buffered_bytes := v_buffered_bytes r;
     v_high_water_bytes := v_high_water_bytes r; v_injected_delay_ms := v_injected_delay_ms r;
     v_throttled_delay_ms := v_throttled_delay_ms r; v_termination := v_termination r;
     v_activations := v_activations r; v_chunks_evaluated := v_chunks_evaluated r;
     v_chunks_dropped := v_chunks_dropped r;
     v_loss_bytes_discarded := v_loss_bytes_discarded r; v_rng_version := x |}.

(** ** Queue entries and fault-local states *)

Record Queued := { q_bytes : bytes; q_release : Instant }.

Record BlackholeState := { bs_deadline : option Instant; bs_fault_id : FaultId }.
Record DisconnectState := { ds_deadline : Instant; ds_hard_reset : bool; ds_fault_id : FaultId }.
Record StreamLossConnState := {
  sls_rng : DeterministicRng;
  sls_decided : option (Z * bool);
  sls_prev_dropped : bool
}.

(** ** [DirectionEngine] *)

Record DirectionEngine := {
  e_plan : FaultPlan;
  e_direction : Direction;
  e_queue : list Queued;
  e_buffered : Z;
  e_high_water : Z;
  e_max_buffer : Z;
  e_rngs : list (bool * DeterministicRng);
  e_evidence : EngineEvidence;
  e_termination : option TerminationInfo;
  e_term_handle : TermSlot;
  e_queue_timer : ArmedTimer;
  e_term_timer : ArmedTimer;
  e_shutdown_timer : ArmedTimer;
  e_shutdown_deadline : option Instant;
  e_slow_close : option Duration;
  e_remaining_limit : option (Z * FaultId);
  e_blackhole : option BlackholeState;
  e_disconnect : option DisconnectState;
  e_bandwidth : option TokenBucket;
  e_slicer_active : bool;
  e_slice_cursor : Instant;
  e_stream_loss : list (option StreamLossConnState);
  e_stream_loss_offset : Z;
  e_stream_loss_evaluated : Z
}.

Definition set_e_queue (x : list Queued) (r : DirectionEngine) : DirectionEngine :=
  {| e_plan := e_plan r; e_direction := e_direction r; e_queue := x;
     e_buffered := e_buffered r; e_high_water := e_high_water r;
     e_max_buffer := e_max_buffer r; e_rngs := e_rngs r; e_evidence := e_evidence r;
     e_termination := e_termination r; e_term_handle := e_term_handle r;
     e_queue_timer := e_queue_timer r; e_term_timer := e_term_timer r;
     e_shutdown_timer := e_shutdown_timer r; e_shutdown_deadline := e_shutdown_deadline r;
     e_slow_close := e_slow_close r; e_remaining_limit := e_remaining_limit r;
     e_blackhole := e_blackhole r; e_disconnect := e_disconnect r;
     e_bandwidth := e_bandwidth r; e_slicer_active := e_slicer_active r;
     e_slice_cursor := e_slice_cursor r; e_stream_loss := e_stream_loss r;
     e_stream_loss_offset := e_stream_loss_offset r;
     e_stream_loss_evaluated := e_stream_loss_evaluated r |}.
Definition set_e_buffered (x : Z) (r : DirectionEngine) : DirectionEngine :=
  {| e_plan := e_plan r; e_direction := e_direction r; e_queue := e_queue r; e_buffered := x;
     e_high_water := e_high_water r; e_max_buffer := e_max_buffer r; e_rngs := e_rngs r;
     e_evidence := e_evidence r; e_termination := e_termination r;
     e_term_handle := e_term_handle r; e_queue_timer := e_queue_timer r;
     e_term_timer := e_term_timer r; e_shutdown_timer := e_shutdown_timer r;
     e_shutdown_deadline := e_shutdown_deadline r; e_slow_close := e_slow_close r;
     e_remaining_limit := e_remaining_limit r; e_blackhole := e_blackhole r;
     e_disconnect := e_disconnect r; e_bandwidth := e_bandwidth r;
     e_slicer_active := e_slicer_active r; e_slice_cursor := e_slice_cursor r;
     e_stream_loss := e_stream_loss r; e_stream_loss_offset := e_stream_loss_offset r;
     e_stream_loss_evaluated := e_stream_loss_evaluated r |}.
Definition set_e_high_water (x : Z) (r : DirectionEngine) : DirectionEngine :=
  {| e_plan := e_plan r; e_direction := e_direction r; e_queue := e_queue r;
     e_buffered := e_buffered r; e_high_water := x; e_max_buffer := e_max_buffer r;
     e_rngs := e_rngs r; e_evidence := e_evidence r; e_termination := e_termination r;
     e_term_handle := e_term_handle r; e_queue_timer := e_queue_timer r;
     e_term_timer := e_term_timer r; e_shutdown_timer := e_shutdown_timer r;
     e_shutdown_deadline := e_shutdown_deadline r; e_slow_close := e_slow_close r;
     e_remaining_limit := e_remaining_limit r; e_blackhole := e_blackhole r;
     e_disconnect := e_disconnect r; e_bandwidth := e_bandwidth r;
     e_slicer_active := e_slicer_active r; e_slice_cursor := e_slice_cursor r;
     e_stream_loss := e_stream_loss r; e_stream_loss_offset := e_stream_loss_offset r;
     e_stream_loss_evaluated := e_stream_loss_evaluated r |}.
Definition set_e_rngs (x : list (bool * DeterministicRng)) (r : DirectionEngine) : DirectionEngine :=
  {| e_plan := e_plan r; e_direction := e_direction r; e_queue := e_queue r;
     e_buffered := e_buffered r; e_high_water := e_high_water r;
     e_max_buffer := e_max_buffer r; e_rngs := x; e_evidence := e_evidence r;
     e_termination := e_termination r; e_term_handle := e_term_handle r;
     e_queue_timer := e_queue_timer r; e_term_timer := e_term_timer r;
     e_shutdown_timer := e_shutdown_timer r; e_shutdown_deadline := e_shutdown_deadline r;
     e_slow_close := e_slow_close r; e_remaining_limit := e_remaining_limit r;
     e_blackhole := e_blackhole r; e_disconnect := e_disconnect r;
     e_bandwidth := e_bandwidth r; e_slicer_active := e_slicer_active r;
     e_slice_cursor := e_slice_cursor r; e_stream_loss := e_stream_loss r;
     e_stream_loss_offset := e_stream_loss_offset r;
     e_stream_loss_evaluated := e_stream_loss_evaluated r |}.
Definition set_e_evidence (x : EngineEvidence) (r : DirectionEngine) : DirectionEngine :=
  {| e_plan := e_plan r; e_direction := e_direction r; e_queue := e_queue r;
     e_buffered := e_buffered r; e_high_water := e_high_water r;
     e_max_buffer := e_max_buffer r; e_rngs := e_rngs r; e_evidence := x;
     e_termination := e_termination r; e_term_handle := e_term_handle r;
     e_queue_timer := e_queue_timer r; e_term_timer := e_term_timer r;
     e_shutdown_timer := e_shutdown_timer r; e_shutdown_deadline := e_shutdown_deadline r;
     e_slow_close := e_slow_close r; e_remaining_limit := e_remaining_limit r;
     e_blackhole := e_blackhole r; e_disconnect := e_disconnect r;
     e_bandwidth := e_bandwidth r; e_slicer_active := e_slicer_active r;
     e_slice_cursor := e_slice_cursor r; e_stream_loss := e_stream_loss r;
     e_stream_loss_offset := e_stream_loss_offset r;
     e_stream_loss_evaluated := e_stream_loss_evaluated r |}.
Definition set_e_termination (x : option TerminationInfo) (r : DirectionEngine) : DirectionEngine :=
  {| e_plan := e_plan r; e_direction := e_direction r; e_queue := e_queue r;
     e_buffered := e_buffered r; e_high_water := e_high_water r;
     e_max_buffer := e_max_buffer r; e_rngs := e_rngs r; e_evidence := e_evidence r;
     e_termination := x; e_term_handle := e_term_handle r; e_queue_timer := e_queue_timer r;
     e_term_timer := e_term_timer r; e_shutdown_timer := e_shutdown_timer r;
     e_shutdown_deadline := e_shutdown_deadline r; e_slow_close := e_slow_close r;
     e_remaining_limit := e_remaining_limit r; e_blackhole := e_blackhole r;
     e_disconnect := e_disconnect r; e_bandwidth := e_bandwidth r;
     e_slicer_active := e_slicer_active r; e_slice_cursor := e_slice_cursor r;
     e_stream_loss := e_stream_loss r; e_stream_loss_offset := e_stream_loss_offset r;
     e_stream_loss_evaluated := e_stream_loss_evaluated r |}.
Definition set_e_term_handle (x : TermSlot) (r : DirectionEngine) : DirectionEngine :=
  {| e_plan := e_plan r; e_direction := e_direction r; e_queue := e_queue r;
     e_buffered := e_buffered r; e_high_water := e_high_water r;
     e_max_buffer := e_max_buffer r; e_rngs := e_rngs r; e_evidence := e_evidence r;
     e_termination := e_termination r; e_term_handle := x; e_queue_timer := e_queue_timer r;
     e_term_timer := e_term_timer r; e_shutdown_timer := e_shutdown_timer r;
     e_shutdown_deadline := e_shutdown_deadline r; e_slow_close := e_slow_close r;
     e_remaining_limit := e_remaining_limit r; e_blackhole := e_blackhole r;
     e_disconnect := e_disconnect r; e_bandwidth := e_bandwidth r;
     e_slicer_active := e_slicer_active r; e_slice_cursor := e_slice_cursor r;
     e_stream_loss := e_stream_loss r; e_stream_loss_offset := e_stream_loss_offset r;
     e_stream_loss_evaluated := e_stream_loss_evaluated r |}.
Definition set_e_queue_timer (x : ArmedTimer) (r : DirectionEngine) : DirectionEngine :=
  {| e_plan := e_plan r; e_direction := e_direction r; e_queue := e_queue r;
     e_buffered := e_buffered r; e_high_water := e_high_water r;
     e_max_buffer := e_max_buffer r; e_rngs := e_rngs r; e_evidence := e_evidence r;
     e_termination := e_termination r; e_term_handle := e_term_handle r; e_queue_timer := x;
     e_term_timer := e_term_timer r; e_shutdown_timer := e_shutdown_timer r;
     e_shutdown_deadline := e_shutdown_deadline r; e_slow_close := e_slow_close r;
     e_remaining_limit := e_remaining_limit r; e_blackhole := e_blackhole r;
     e_disconnect := e_disconnect r; e_bandwidth := e_bandwidth r;
     e_slicer_active := e_slicer_active r; e_slice_cursor := e_slice_cursor r;
     e_stream_loss := e_stream_loss r; e_stream_loss_offset := e_stream_loss_offset r;
     e_stream_loss_evaluated := e_stream_loss_evaluated r |}.
Definition set_e_term_timer (x : ArmedTimer) (r : DirectionEngine) : DirectionEngine :=
  {| e_plan := e_plan r; e_direction := e_direction r; e_queue := e_queue r;
     e_buffered := e_buffered r; e_high_water := e_high_water r;
     e_max_buffer := e_max_buffer r; e_rngs := e_rngs r; e_evidence := e_evidence r;
     e_termination := e_termination r; e_term_handle := e_term_handle r;
     e_queue_timer := e_queue_timer r; e_term_timer := x;
     e_shutdown_timer := e_shutdown_timer r; e_shutdown_deadline := e_shutdown_deadline r;
     e_slow_close := e_slow_close r; e_remaining_limit := e_remaining_limit r;
     e_blackhole := e_blackhole r; e_disconnect := e_disconnect r;
     e_bandwidth := e_bandwidth r; e_slicer_active := e_slicer_active r;
     e_slice_cursor := e_slice_cursor r; e_stream_loss := e_stream_loss r;
     e_stream_loss_offset := e_stream_loss_offset r;
     e_stream_loss_evaluated := e_stream_loss_evaluated r |}.
Definition set_e_shutdown_timer (x : ArmedTimer) (r : DirectionEngine) : DirectionEngine :=
  {| e_plan := e_plan r; e_direction := e_direction r; e_queue := e_queue r;
     e_buffered := e_buffered r; e_high_water := e_high_water r;
     e_max_buffer := e_max_buffer r; e_rngs := e_rngs r; e_evidence := e_evidence r;
     e_termination := e_termination r; e_term_handle := e_term_handle r;
     e_queue_timer := e_queue_timer r; e_term_timer := e_term_timer r; e_shutdown_timer := x;
     e_shutdown_deadline := e_shutdown_deadline r; e_slow_close := e_slow_close r;
     e_remaining_limit := e_remaining_limit r; e_blackhole := e_blackhole r;
     e_disconnect := e_disconnect r; e_bandwidth := e_bandwidth r;
     e_slicer_active := e_slicer_active r; e_slice_cursor := e_slice_cursor r;
     e_stream_loss := e_stream_loss r; e_stream_loss_offset := e_stream_loss_offset r;
     e_stream_loss_evaluated := e_stream_loss_evaluated r |}.
Definition set_e_shutdown_deadline (x : option Instant) (r : DirectionEngine) : DirectionEngine :=
  {| e_plan := e_plan r; e_direction := e_direction r; e_queue := e_queue r;
     e_buffered := e_buffered r; e_high_water := e_high_water r;
     e_max_buffer := e_max_buffer r; e_rngs := e_rngs r; e_evidence := e_evidence r;
     e_termination := e_termination r; e_term_handle := e_term_handle r;
     e_queue_timer := e_queue_timer r; e_term_timer := e_term_timer r;
     e_shutdown_timer := e_shutdown_timer r; e_shutdown_deadline := x;
     e_slow_close := e_slow_close r; e_remaining_limit := e_remaining_limit r;
     e_blackhole := e_blackhole r; e_disconnect := e_disconnect r;
     e_bandwidth := e_bandwidth r; e_slicer_active := e_slicer_active r;
     e_slice_cursor := e_slice_cursor r; e_stream_loss := e_stream_loss r;
     e_stream_loss_offset := e_stream_loss_offset r;
     e_stream_loss_evaluated := e_stream_loss_evaluated r |}.
Definition set_e_remaining_limit (x : option (Z * FaultId)) (r : DirectionEngine) : DirectionEngine :=
  {| e_plan := e_plan r; e_direction := e_direction r; e_queue := e_queue r;
     e_buffered := e_buffered r; e_high_water := e_high_water r;
     e_max_buffer := e_max_buffer r; e_rngs := e_rngs r; e_evidence := e_evidence r;
     e_termination := e_termination r; e_term_handle := e_term_handle r;
     e_queue_timer := e_queue_timer r; e_term_timer := e_term_timer r;
     e_shutdown_timer := e_shutdown_timer r; e_shutdown_deadline := e_shutdown_deadline r;
     e_slow_close := e_slow_close r; e_remaining_limit := x; e_blackhole := e_blackhole r;
     e_disconnect := e_disconnect r; e_bandwidth := e_bandwidth r;
     e_slicer_active := e_slicer_active r; e_slice_cursor := e_slice_cursor r;
     e_stream_loss := e_stream_loss r; e_stream_loss_offset := e_stream_loss_offset r;
     e_stream_loss_evaluated := e_stream_loss_evaluated r |}.
Definition set_e_bandwidth (x : option TokenBucket) (r : DirectionEngine) : DirectionEngine :=
  {| e_plan := e_plan r; e_direction := e_direction r; e_queue := e_queue r;
     e_buffered := e_buffered r; e_high_water := e_high_water r;
     e_max_buffer := e_max_buffer r; e_rngs := e_rngs r; e_evidence := e_evidence r;
     e_termination := e_termination r; e_term_handle := e_term_handle r;
     e_queue_timer := e_queue_timer r; e_term_timer := e_term_timer r;
     e_shutdown_timer := e_shutdown_timer r; e_shutdown_deadline := e_shutdown_deadline r;
     e_slow_close := e_slow_close r; e_remaining_limit := e_remaining_limit r;
     e_blackhole := e_blackhole r; e_disconnect := e_disconnect r; e_bandwidth := x;
     e_slicer_active := e_slicer_active r; e_slice_cursor := e_slice_cursor r;
     e_stream_loss := e_stream_loss r; e_stream_loss_offset := e_stream_loss_offset r;
     e_stream_loss_evaluated := e_stream_loss_evaluated r |}.
Definition set_e_slice_cursor (x : Instant) (r : DirectionEngine) : DirectionEngine :=
  {| e_plan := e_plan r; e_direction := e_direction r; e_queue := e_queue r;
     e_buffered := e_buffered r; e_high_water := e_high_water r;
     e_max_buffer := e_max_buffer r; e_rngs := e_rngs r; e_evidence := e_evidence r;
     e_termination := e_termination r; e_term_handle := e_term_handle r;
     e_queue_timer := e_queue_timer r; e_term_timer := e_term_timer r;
     e_shutdown_timer := e_shutdown_timer r; e_shutdown_deadline := e_shutdown_deadline r;
     e_slow_close := e_slow_close r; e_remaining_limit := e_remaining_limit r;
     e_blackhole := e_blackhole r; e_disconnect := e_disconnect r;
     e_bandwidth := e_bandwidth r; e_slicer_active := e_slicer_active r; e_slice_cursor := x;
     e_stream_loss := e_stream_loss r; e_stream_loss_offset := e_stream_loss_offset r;
     e_stream_loss_evaluated := e_stream_loss_evaluated r |}.
Definition set_e_stream_loss (x : list (option StreamLossConnState)) (r : DirectionEngine) : DirectionEngine :=
  {| e_plan := e_plan r; e_direction := e_direction r; e_queue := e_queue r;
     e_buffered := e_buffered r; e_high_water := e_high_water r;
     e_max_buffer := e_max_buffer r; e_rngs := e_rngs r; e_evidence := e_evidence r;
     e_termination := e_termination r; e_term_handle := e_term_handle r;
     e_queue_timer := e_queue_timer r; e_term_timer := e_term_timer r;
     e_shutdown_timer := e_shutdown_timer r; e_shutdown_deadline := e_shutdown_deadline r;
     e_slow_close := e_slow_close r; e_remaining_limit := e_remaining_limit r;
     e_blackhole := e_blackhole r; e_disconnect := e_disconnect r;
     e_bandwidth := e_bandwidth r; e_slicer_active := e_slicer_active r;
     e_slice_cursor := e_slice_cursor r; e_stream_loss := x;
     e_stream_loss_offset := e_stream_loss_offset r;
     e_stream_loss_evaluated := e_stream_loss_evaluated r |}.
Definition set_e_stream_loss_offset (x : Z) (r : DirectionEngine) : DirectionEngine :=
  {| e_plan := e_plan r; e_direction := e_direction r; e_queue := e_queue r;
     e_buffered := e_buffered r; e_high_water := e_high_water r;
     e_max_buffer := e_max_buffer r; e_rngs := e_rngs r; e_evidence := e_evidence r;
     e_termination := e_termination r; e_term_handle := e_term_handle r;
     e_queue_timer := e_queue_timer r; e_term_timer := e_term_timer r;
     e_shutdown_timer := e_shutdown_timer r; e_shutdown_deadline := e_shutdown_deadline r;
     e_slow_close := e_slow_close r; e_remaining_limit := e_remaining_limit r;
     e_blackhole := e_blackhole r; e_disconnect := e_disconnect r;
     e_bandwidth := e_bandwidth r; e_slicer_active := e_slicer_active r;
     e_slice_cursor := e_slice_cursor r; e_stream_loss := e_stream_loss r;
     e_stream_loss_offset := x; e_stream_loss_evaluated := e_stream_loss_evaluated r |}.
Definition set_e_stream_loss_evaluated (x : Z) (r : DirectionEngine) : DirectionEngine :=
  {| e_plan := e_plan r; e_direction := e_direction r; e_queue := e_queue r;
     e_buffered := e_buffered r; e_high_water := e_high_water r;
     e_max_buffer := e_max_buffer r; e_rngs := e_rngs r; e_evidence := e_evidence r;
     e_termination := e_termination r; e_term_handle := e_term_handle r;
     e_queue_timer := e_queue_timer r; e_term_timer := e_term_timer r;
     e_shutdown_timer := e_shutdown_timer r; e_shutdown_deadline := e_shutdown_deadline r;
     e_slow_close := e_slow_close r; e_remaining_limit := e_remaining_limit r;
     e_blackhole := e_blackhole r; e_disconnect := e_disconnect r;
     e_bandwidth := e_bandwidth r; e_slicer_active := e_slicer_active r;
     e_slice_cursor := e_slice_cursor r; e_stream_loss := e_stream_loss r;
     e_stream_loss_offset := e_stream_loss_offset r; e_stream_loss_evaluated := x |}.

(** ** Updates the code repeats *)

Definition add_counter (get : EngineEvidence -> Z) (set : Z -> EngineEvidence -> EngineEvidence)
    (n : Z) (e : DirectionEngine) : DirectionEngine :=
  set_e_evidence (set (sat_add64 (get (e_evidence e)) n) (e_evidence e)) e.

Definition add_accepted := add_counter v_bytes_accepted set_v_bytes_accepted.
Definition add_forwarded := add_counter v_bytes_forwarded set_v_bytes_forwarded.
Definition add_discarded := add_counter v_bytes_discarded set_v_bytes_discarded.
Definition add_segments := add_counter v_segments set_v_segments.
Definition add_slices := add_counter v_slices set_v_slices.
Definition add_injected := add_counter v_injected_delay_ms set_v_injected_delay_ms.
Definition add_throttled := add_counter v_throttled_delay_ms set_v_throttled_delay_ms.
Definition add_chunks_evaluated := add_counter v_chunks_evaluated set_v_chunks_evaluated.
Definition add_chunks_dropped := add_counter v_chunks_dropped set_v_chunks_dropped.
Definition add_loss_discarded := add_counter v_loss_bytes_discarded set_v_loss_bytes_discarded.

(** [self.evidence.activations[i] = self.evidence.activations[i].saturating_add(1)]. *)
Definition bump_activation (i : nat) (e : DirectionEngine) : DirectionEngine :=
  set_e_evidence
    (set_v_activations (alter (fun n => sat_add64 n 1) i (v_activations (e_evidence e))) (e_evidence e)) e.

(** The queue's payload, front first. *)
Definition queue_bytes (q : list Queued) : bytes := concat (map q_bytes q).
