(* ===== verification/Engine.v ===== *)
(** * Compiling and observing a direction engine ([crates/eggchaos-core/src/engine.rs])

    [DirectionEngine::new_with_arc_plan] and the engine's accessors,
    termination publication and evidence merging. *)

From Stdlib Require Import Bool.
From stdpp Require Import base list strings.
From S2P Require Import Prelude Rng Float64 Plan Env TokenBucket EngineState.

(** ** Compilation of a plan *)

(** The locals of the compilation loop. *)
Record Compiling := {
  c_max_buffer : Z;
  c_remaining_limit : option (Z * FaultId);
  c_blackhole : option BlackholeState;
  c_disconnect : option DisconnectState;
  c_bandwidth_cfg : option (Z * Z);
  c_slicer_active : bool
}.

Definition compiling_start : Compiling :=
  {| c_max_buffer := 64 * 1024; c_remaining_limit := None; c_blackhole := None;
     c_disconnect := None; c_bandwidth_cfg := None; c_slicer_active := false |}.

Definition compile_limit (cur : option (Z * FaultId)) (bytes : Z) (id : FaultId) : option (Z * FaultId) :=
  match cur with
  | Some (limit, _) => if bytes <? limit then Some (bytes, id) else cur
  | None => Some (bytes, id)
  end.

Definition compile_blackhole (now : Instant) (cur : option BlackholeState)
    (close_after : option Duration) (id : FaultId) : option BlackholeState :=
  let deadline := match close_after with
                  | Some d => Some (add_or now d MAX_STREAM_FAULT_DURATION)
                  | None => None end in
  let fresh := Some {| bs_deadline := deadline; bs_fault_id := id |} in
  match cur, deadline with
  | None, _ => fresh
  | Some existing, _ =>
      match bs_deadline existing, deadline with
      | None, _ => cur                                  (* indefinite dominates *)
      | Some _, None => Some {| bs_deadline := None; bs_fault_id := id |}
      | Some d, Some n => if d <=? n then cur else fresh
      end
  end.

Definition compile_disconnect (now : Instant) (cur : option DisconnectState)
    (c : DisconnectConfig) (id : FaultId) : option DisconnectState :=
  let deadline := add_or now (dc_after c) MAX_STREAM_FAULT_DURATION in
  let replace :=
    match cur with
    | None => true
    | Some existing =>
        (deadline <? ds_deadline existing)
        || ((deadline =? ds_deadline existing) && dc_hard_reset c && negb (ds_hard_reset existing))
    end in
  if replace
  then Some {| ds_deadline := deadline; ds_hard_reset := dc_hard_reset c; ds_fault_id := id |}
  else cur.

Definition compile_bandwidth (cur : option (Z * Z)) (c : BandwidthConfig) : option (Z * Z) :=
  Some (match cur with
        | Some (rate, burst) => (Z.min rate (bw_bytes_per_second c), Z.min burst (bw_burst_bytes c))
        | None => (bw_bytes_per_second c, bw_burst_bytes c)
        end).

(** The [match fault.kind] of the loop, for an active fault. *)
Definition compile_kind (now : Instant) (fault : FaultSpec) (a : Compiling) : Compiling :=
  let id := fs_id fault in
  match fs_kind fault with
  | Latency c =>
      {| c_max_buffer := Z.min (c_max_buffer a) (lat_max_buffer_bytes c);
         c_remaining_limit := c_remaining_limit a; c_blackhole := c_blackhole a;
         c_disconnect := c_disconnect a; c_bandwidth_cfg := c_bandwidth_cfg a;
         c_slicer_active := c_slicer_active a |}
  | LimitData c =>
      {| c_max_buffer := c_max_buffer a;
         c_remaining_limit := compile_limit (c_remaining_limit a) (ld_bytes c) id;
         c_blackhole := c_blackhole a; c_disconnect := c_disconnect a;
         c_bandwidth_cfg := c_bandwidth_cfg a; c_slicer_active := c_slicer_active a |}
  | Blackhole c =>
      {| c_max_buffer := c_max_buffer a; c_remaining_limit := c_remaining_limit a;
         c_blackhole := compile_blackhole now (c_blackhole a) (bh_close_after c) id;
         c_disconnect := c_disconnect a; c_bandwidth_cfg := c_bandwidth_cfg a;
         c_slicer_active := c_slicer_active a |}
  | Bandwidth c =>
      {| c_max_buffer := c_max_buffer a; c_remaining_limit := c_remaining_limit a;
         c_blackhole := c_blackhole a; c_disconnect := c_disconnect a;
         c_bandwidth_cfg := compile_bandwidth (c_bandwidth_cfg a) c;
         c_slicer_active := c_slicer_active a |}
  | Slice _ =>
      {| c_max_buffer := c_max_buffer a; c_remaining_limit := c_remaining_limit a;
         c_blackhole := c_blackhole a; c_disconnect := c_disconnect a;
         c_bandwidth_cfg := c_bandwidth_cfg a; c_slicer_active := true |}
  | Disconnect c =>
      {| c_max_buffer := c_max_buffer a; c_remaining_limit := c_remaining_limit a;
         c_blackhole := c_blackhole a;
         c_disconnect := compile_disconnect now (c_disconnect a) c id;
         c_bandwidth_cfg := c_bandwidth_cfg a; c_slicer_active := c_slicer_active a |}
  | SlowClose _ | StreamLoss _ => a
  end.

(** The fault-local stream-loss state pushed for an active fault. *)
Definition compile_stream_loss (run_seed : Z) (proxy : string) (key : Z) (d : Direction)
    (fault : FaultSpec) : option StreamLossConnState :=
  match fs_kind fault with
  | StreamLoss _ =>
      Some {| sls_rng := rng_new (derive_stream_loss_seed run_seed proxy key d (fs_id fault));
              sls_decided := None; sls_prev_dropped := false |}
  | _ => None
  end.

Fixpoint compile_faults (now : Instant) (run_seed : Z) (proxy : string) (key : Z) (d : Direction)
    (fs : list FaultSpec) (a : Compiling)
    : Compiling * list (bool * DeterministicRng) * list (option StreamLossConnState) :=
  match fs with
  | [] => (a, [], [])
  | fault :: rest =>
      let rng0 := rng_new (derive_seed run_seed proxy key d (fs_id fault)) in
      let '(active, rng) := bernoulli rng0 (fs_probability fault) in
      if active then
        let '(a', rngs, sl) :=
          compile_faults now run_seed proxy key d rest (compile_kind now fault a) in
        (a', (true, rng) :: rngs, compile_stream_loss run_seed proxy key d fault :: sl)
      else
        let '(a', rngs, sl) := compile_faults now run_seed proxy key d rest a in
        (a', (false, rng) :: rngs, None :: sl)
  end.

(** [filter_map] over the active slow-close faults, then [reduce]. *)
Fixpoint slow_close_delays (fs : list FaultSpec) (rngs : list (bool * DeterministicRng)) : list Duration :=
  match fs, rngs with
  | f :: fs', (active, _) :: rngs' =>
      match active, fs_kind f with
      | true, SlowClose c => sc_delay c :: slow_close_delays fs' rngs'
      | _, _ => slow_close_delays fs' rngs'
      end
  | _, _ => []
  end.
Definition reduce_saturating (ds : list Duration) : option Duration :=
  match ds with
  | [] => None
  | d :: ds' => Some (foldl duration_saturating_add d ds')
  end.

Section Construction.
Context `{E : Env}.

Definition new_with_arc_plan (k : nat) (plan : FaultPlan) (run_seed : Z) (proxy : string)
    (connection_key : Z) (direction : Direction) (term_handle : TermSlot)
    : result DirectionEngine ValidationError :=
  let? _u := plan_validate plan in
  let now := clock k in
  let '(c, rngs, stream_loss) :=
    compile_faults now run_seed proxy connection_key direction (faults plan) compiling_start in
  let slow_close := reduce_saturating (slow_close_delays (faults plan) rngs) in
  let termination := handle_get term_handle in
  let evidence := set_v_termination (ti_request <$> termination) evidence_default in
  Ok {| e_plan := plan; e_direction := direction; e_queue := []; e_buffered := 0;
        e_high_water := 0; e_max_buffer := Z.max (c_max_buffer c) 1; e_rngs := rngs;
        e_evidence := evidence; e_termination := termination; e_term_handle := term_handle;
        e_queue_timer := timer_default; e_term_timer := timer_default;
        e_shutdown_timer := timer_default; e_shutdown_deadline := None;
        e_slow_close := slow_close; e_remaining_limit := c_remaining_limit c;
        e_blackhole := c_blackhole c; e_disconnect := c_disconnect c;
        e_bandwidth := match c_bandwidth_cfg c with
                       | Some (rate, burst) => Some (bucket_new rate burst now)
                       | None => None end;
        e_slicer_active := c_slicer_active c; e_slice_cursor := now;
        e_stream_loss := stream_loss; e_stream_loss_offset := 0; e_stream_loss_evaluated := 0 |}.

Definition engine_new (k : nat) (plan : FaultPlan) (run_seed : Z) (proxy : string)
    (connection_key : Z) (direction : Direction) : result DirectionEngine ValidationError :=
  new_with_arc_plan k plan run_seed proxy connection_key direction handle_new.

Definition engine_empty (k : nat) : DirectionEngine :=
  {| e_plan := plan_empty; e_direction := Upstream; e_queue := []; e_buffered := 0;
     e_high_water := 0; e_max_buffer := 64 * 1024; e_rngs := []; e_evidence := evidence_default;
     e_termination := None; e_term_handle := handle_new; e_queue_timer := timer_default;
     e_term_timer := timer_default; e_shutdown_timer := timer_default; e_shutdown_deadline := None;
     e_slow_close := None; e_remaining_limit := None; e_blackhole := None; e_disconnect := None;
     e_bandwidth := None; e_slicer_active := false; e_slice_cursor := clock k;
     e_stream_loss := []; e_stream_loss_offset := 0; e_stream_loss_evaluated := 0 |}.
End Construction.

(** ** Accessors *)

Definition engine_is_empty (e : DirectionEngine) : bool := plan_is_empty (e_plan e).

Definition is_preserving_only (e : DirectionEngine) : bool :=
  forallb (fun f => match fs_kind f with
                    | Latency _ | Bandwidth _ | Slice _ | LimitData _ | Disconnect _ | SlowClose _ => true
                    | Blackhole _ | StreamLoss _ => false
                    end) (faults (e_plan e)).

Definition limit_available (e : DirectionEngine) : Z :=
  match e_remaining_limit e with Some (remaining, _) => remaining | None => U64_MAX end.
Definition free_capacity (e : DirectionEngine) : Z := sat_sub (e_max_buffer e) (e_buffered e).

Definition bounded_accept_capacity (e : DirectionEngine) : Z :=
  Z.min (limit_available e) (free_capacity e).

Definition engine_evidence (e : DirectionEngine) : EngineEvidence :=
  set_v_high_water_bytes (e_high_water e) (set_v_buffered_bytes (e_buffered e) (e_evidence e)).

Definition absorb_activations (mine previous : list Z) : list Z := zip_with sat_add64 mine previous.

Definition absorb_evidence (previous : EngineEvidence) (e : DirectionEngine) : DirectionEngine :=
  let v := e_evidence e in
  let v' :=
    {| v_bytes_accepted := sat_add64 (v_bytes_accepted v) (v_bytes_accepted previous);
       v_bytes_forwarded := sat_add64 (v_bytes_forwarded v) (v_bytes_forwarded previous);
       v_bytes_discarded := sat_add64 (v_bytes_discarded v) (v_bytes_discarded previous);
       v_segments := sat_add64 (v_segments v) (v_segments previous);
       v_slices := sat_add64 (v_slices v) (v_slices previous);
       v_buffered_bytes := v_buffered_bytes v;
       v_high_water_bytes := v_high_water_bytes v;
       v_injected_delay_ms := sat_add64 (v_injected_delay_ms v) (v_injected_delay_ms previous);
       v_throttled_delay_ms := sat_add64 (v_throttled_delay_ms v) (v_throttled_delay_ms previous);
       v_termination := v_termination v;
       v_activations := absorb_activations (v_activations v) (v_activations previous);
       v_chunks_evaluated := sat_add64 (v_chunks_evaluated v) (v_chunks_evaluated previous);
       v_chunks_dropped := sat_add64 (v_chunks_dropped v) (v_chunks_dropped previous);
       v_loss_bytes_discarded :=
         sat_add64 (v_loss_bytes_discarded v) (v_loss_bytes_discarded previous);
       v_rng_version := v_rng_version v |} in
  set_e_high_water (Z.max (e_high_water e) (v_high_water_bytes previous)) (set_e_evidence v' e).

Definition termination_request (e : DirectionEngine) : option TerminationRequest :=
  ti_request <$> e_termination e.
Definition queue_is_empty (e : DirectionEngine) : bool :=
  match e_queue e with [] => true | _ => false end.

(** ** Termination *)

(** First published request wins, in the shared slot and in the engine. *)
Definition publish_termination (info : TerminationInfo) (e : DirectionEngine) : bool * DirectionEngine :=
  let e := set_e_term_handle (handle_publish (e_term_handle e) info).2 e in
  match e_termination e with
  | None =>
      let e := set_e_termination (Some info) e in
      (true, set_e_evidence (set_v_termination (Some (ti_request info)) (e_evidence e)) e)
  | Some i => (false, set_e_evidence (set_v_termination (Some (ti_request i)) (e_evidence e)) e)
  end.

(** Publish, and count the activation when this call set the request. *)
Definition publish_counted (info : TerminationInfo) (slot : nat) (e : DirectionEngine) : DirectionEngine :=
  let '(fresh, e) := publish_termination info e in
  if fresh then bump_activation slot e else e.

Definition disconnect_info (e : DirectionEngine) (s : DisconnectState) : TerminationInfo :=
  {| ti_request := if ds_hard_reset s then HardReset else Graceful;
     ti_direction := e_direction e; ti_fault_id := Some (ds_fault_id s) |}.
Definition graceful_info (e : DirectionEngine) (id : FaultId) : TerminationInfo :=
  {| ti_request := Graceful; ti_direction := e_direction e; ti_fault_id := Some id |}.

(** [refresh_sync_terminations] with its one clock reading. *)
Definition refresh_sync_terminations (now : Instant) (e : DirectionEngine) : DirectionEngine :=
  match e_termination e with
  | Some _ => e
  | None =>
      let blackhole_close :=
        match e_blackhole e with
        | Some s =>
            match bs_deadline s with
            | Some deadline =>
                if deadline <=? now then publish_counted (graceful_info e (bs_fault_id s)) 2 e else e
            | None => e
            end
        | None => e
        end in
      match e_disconnect e with
      | Some s =>
          if ds_deadline s <=? now then publish_counted (disconnect_info e s) 6 e else blackhole_close
      | None => blackhole_close
      end
  end.

Definition blackhole_discarding (now : Instant) (e : DirectionEngine) : bool :=
  match e_blackhole e with
  | None => false
  | Some s => match bs_deadline s with None => true | Some deadline => now <? deadline end
  end.
