(* ===== verification/Accept.v ===== *)
(** * Accepting bytes into the pipeline ([crates/eggchaos-core/src/engine.rs])

    [next_slice_size], [decide_stream_loss_chunk], [push_preserve_run],
    [accept_with_stream_loss], [accept] and [accept_vectored].  Loops over the
    input recurse with the input's length as fuel: every iteration that goes on
    takes at least one byte. *)

From Stdlib Require Import Bool.
From stdpp Require Import base list strings.
From S2P Require Import Prelude Rng Float64 Plan Env TokenBucket EngineState Engine.

(** ** Slicer *)

Definition slice_stage (c : SliceConfig) (rng : DeterministicRng) : Z * DeterministicRng :=
  let span := sat_add64 (sat_mul64 (sl_variation c) 2) 1 in
  let '(offset, rng') := below rng span in
  (Z.max (sat_add64 (sat_sub (sl_average_size c) (sl_variation c)) offset) 1, rng').

Fixpoint slice_draws (fs : list FaultSpec) (rngs : list (bool * DeterministicRng)) (size : Z)
    : Z * list (bool * DeterministicRng) :=
  match fs, rngs with
  | f :: fs', (active, rng) :: rngs' =>
      match active, fs_kind f with
      | true, Slice c =>
          let '(stage_size, rng') := slice_stage c rng in
          let '(size', rest) := slice_draws fs' rngs' (Z.min size stage_size) in
          (size', (active, rng') :: rest)
      | _, _ =>
          let '(size', rest) := slice_draws fs' rngs' size in
          (size', (active, rng) :: rest)
      end
  | _, _ => (size, rngs)
  end.

Definition next_slice_size (remaining : Z) (e : DirectionEngine) : Z * DirectionEngine :=
  let '(size, rngs) := slice_draws (faults (e_plan e)) (e_rngs e) (Z.max remaining 1) in
  (Z.max (Z.min size remaining) 1, set_e_rngs rngs e).

(** ** Stream loss *)

(** The correlated probability [min(1, loss_rate + correlation)]. *)
Definition correlated_rate (c : StreamLossConfig) : f64 :=
  f64_min (f64_add (slc_loss_rate c) (slc_correlation c)) f64_one.

(** One chunk decision: the draw and the previous-drop bit. *)
Definition chunk_draw (c : StreamLossConfig) (st : DeterministicRng * bool) : DeterministicRng * bool :=
  let '(rng, prev) := st in
  let '(drop, rng') := bernoulli rng (if prev then correlated_rate c else slc_loss_rate c) in
  (rng', drop).

Fixpoint chunk_draws (n : nat) (c : StreamLossConfig) (st : DeterministicRng * bool)
    : DeterministicRng * bool :=
  match n with O => st | S n' => chunk_draws n' c (chunk_draw c st) end.

(** The decision of one fault for [chunk]. *)
Definition decide_fault (c : StreamLossConfig) (conn : StreamLossConnState) (chunk : Z)
    : bool * StreamLossConnState :=
  let advance (start : Z) (drop : bool) :=
    let n := Z.to_nat (chunk + 1 - start) in
    let '(rng, prev) := chunk_draws n c (sls_rng conn, sls_prev_dropped conn) in
    let drop' := match n with O => drop | S _ => prev end in
    (drop', {| sls_rng := rng; sls_decided := Some (chunk, drop'); sls_prev_dropped := prev |}) in
  match sls_decided conn with
  | Some (decided_chunk, drop) =>
      if decided_chunk =? chunk then (drop, conn)
      else advance (sat_add64 decided_chunk 1) drop
  | None => advance 0 false
  end.

Fixpoint decide_all (fs : list FaultSpec) (states : list (option StreamLossConnState)) (chunk : Z)
    : bool * list (option StreamLossConnState) :=
  match fs, states with
  | f :: fs', state :: states' =>
      let '(drop, state') :=
        match fs_kind f, state with
        | StreamLoss c, Some conn =>
            let '(d, conn') := decide_fault c conn chunk in (d, Some conn')
        | _, _ => (false, state)
        end in
      let '(rest, states'') := decide_all fs' states' chunk in
      (drop || rest, state' :: states'')
  | _, _ => (false, states)
  end.

Definition decide_stream_loss_chunk (chunk : Z) (e : DirectionEngine) : bool * DirectionEngine :=
  let '(drop_any, states) := decide_all (faults (e_plan e)) (e_stream_loss e) chunk in
  let e := set_e_stream_loss states e in
  if chunk =? e_stream_loss_evaluated e then
    let e := set_e_stream_loss_evaluated (e_stream_loss_evaluated e + 1) e in
    let e := add_chunks_evaluated 1 e in
    (drop_any, if drop_any then add_chunks_dropped 1 e else e)
  else (drop_any, e).

(** ** One segment through latency, bandwidth and the inter-slice delay *)

Definition latency_nanos (c : LatencyConfig) (rng : DeterministicRng) : Z * DeterministicRng :=
  let jitter_range := Z.min (lat_jitter c) U64_MAX in
  let '(jitter, rng') :=
    if jitter_range =? 0 then (0, rng)
    else let '(v, rng') := below rng (sat_add64 (sat_mul64 jitter_range 2) 1) in
         (v - jitter_range, rng') in
  (Z.min (Z.max (lat_delay c + jitter) 0) U64_MAX, rng').

(** The locals of the per-segment loop over the faults. *)
Record Stages := {
  sg_release : Instant;
  sg_slice_delay : Duration;
  sg_injected : Z;
  sg_latency : bool;
  sg_slice : bool
}.

Fixpoint run_stages (fs : list FaultSpec) (rngs : list (bool * DeterministicRng)) (s : Stages)
    : Stages * list (bool * DeterministicRng) :=
  match fs, rngs with
  | f :: fs', (active, rng) :: rngs' =>
      let '(s', rng') :=
        match active, fs_kind f with
        | true, Latency c =>
            let '(nanos, rng') := latency_nanos c rng in
            ({| sg_release := add_or (sg_release s) nanos MAX_STREAM_FAULT_DURATION;
                sg_slice_delay := sg_slice_delay s;
                sg_injected := sat_add64 (sg_injected s) (nanos / 1000000);
                sg_latency := true; sg_slice := sg_slice s |}, rng')
        | true, Slice c =>
            ({| sg_release := sg_release s; sg_slice_delay := Z.max (sg_slice_delay s) (sl_delay c);
                sg_injected := sg_injected s; sg_latency := sg_latency s; sg_slice := true |}, rng)
        | _, _ => (s, rng)
        end in
      let '(s'', rest) := run_stages fs' rngs' s' in
      (s'', (active, rng') :: rest)
  | _, _ => (s, rngs)
  end.

(** The bandwidth stage of a segment of [chunk] bytes. *)
Definition throttle (chunk : Z) (now release : Instant) (e : DirectionEngine) : Instant * DirectionEngine :=
  match e_bandwidth e with
  | Some bucket =>
      let '(r, throttled_ms, bucket') := bucket_consume bucket chunk now release in
      (r, add_throttled throttled_ms (set_e_bandwidth (Some bucket') e))
  | None => (release, e)
  end.

(** The inter-slice delay: it staggers logical slices. *)
Definition stagger (slice_delay : Duration) (release : Instant) (e : DirectionEngine)
    : Instant * DirectionEngine :=
  if e_slicer_active e && negb (slice_delay =? 0) then
    let release := Z.max release (e_slice_cursor e) in
    (release,
     set_e_slice_cursor
       (add_or release slice_delay (Z.min MAX_STREAM_FAULT_DURATION slice_delay)) e)
  else (release, e).

(** [queue.push_back] and its accounting. *)
Definition queue_segment (segment : bytes) (release : Instant) (e : DirectionEngine) : DirectionEngine :=
  let e := set_e_queue (e_queue e ++ [{| q_bytes := segment; q_release := release |}]) e in
  let e := set_e_buffered (e_buffered e + zlen segment) e in
  let e := set_e_high_water (Z.max (e_high_water e) (e_buffered e)) e in
  let e := add_segments 1 e in
  if e_slicer_active e then add_slices 1 e else e.

(** Queue one segment; returns whether latency and slice stages engaged. *)
Definition push_segment (now : Instant) (segment : bytes) (e : DirectionEngine)
    : bool * bool * DirectionEngine :=
  let '(s, rngs) :=
    run_stages (faults (e_plan e)) (e_rngs e)
      {| sg_release := now; sg_slice_delay := 0;
         sg_injected := v_injected_delay_ms (e_evidence e); sg_latency := false; sg_slice := false |} in
  let e := set_e_evidence (set_v_injected_delay_ms (sg_injected s) (e_evidence e)) (set_e_rngs rngs e) in
  let '(release, e) := throttle (zlen segment) now (sg_release s) e in
  let '(release, e) := stagger (sg_slice_delay s) release e in
  (sg_latency s, sg_slice s, queue_segment segment release e).

(** The slicer's choice, or the whole remainder. *)
Definition next_chunk (remaining : Z) (e : DirectionEngine) : Z * DirectionEngine :=
  let '(size, e') := if e_slicer_active e then next_slice_size remaining e else (remaining, e) in
  (Z.min (Z.max size 1) remaining, e').

(** [push_preserve_run]: owned byte count, latency and slice engagement. *)
Fixpoint push_run (fuel : nat) (now : Instant) (data : bytes) (e : DirectionEngine)
    : Z * bool * bool * DirectionEngine :=
  match fuel, data with
  | O, _ | _, [] => (0, false, false, e)
  | S fuel', _ =>
      let '(chunk, e) := next_chunk (zlen data) e in
      if e_max_buffer e <? e_buffered e + chunk then (0, false, false, e)
      else
        let '(latency, slice, e) := push_segment now (ztake chunk data) e in
        let '(owned, latency', slice', e) := push_run fuel' now (zdrop chunk data) e in
        (chunk + owned, latency || latency', slice || slice', e)
  end.
Definition push_preserve_run (now : Instant) (data : bytes) (e : DirectionEngine) :=
  push_run (length data) now data e.

(** ** Accounting at the end of an [accept] call *)

Definition count_engaged (engaged : list nat) (e : DirectionEngine) : DirectionEngine :=
  foldl (fun e i => bump_activation i e) e engaged.

(** Charge [n] accepted bytes to the byte limit; exhaustion terminates. *)
Definition charge_limit (n : Z) (e : DirectionEngine) : DirectionEngine :=
  match e_remaining_limit e with
  | None => e
  | Some (remaining, id) =>
      let remaining := sat_sub remaining n in
      let e := set_e_remaining_limit (Some (remaining, id)) e in
      if remaining =? 0 then publish_counted (graceful_info e id) 3 e else e
  end.

(** ** The stream-loss path *)

Record LossRun := { lr_offset : Z; lr_discarded : Z; lr_preserved : Z; lr_latency : bool; lr_slice : bool }.

Fixpoint loss_loop (fuel : nat) (now : Instant) (data : bytes) (r : LossRun) (e : DirectionEngine)
    : LossRun * DirectionEngine :=
  match fuel, data with
  | O, _ | _, [] => (r, e)
  | S fuel', _ =>
      let chunk := e_stream_loss_offset e / STREAM_LOSS_GRAIN_BYTES in
      let chunk_end := if (chunk + 1) * STREAM_LOSS_GRAIN_BYTES <=? U64_MAX
                       then (chunk + 1) * STREAM_LOSS_GRAIN_BYTES else U64_MAX in
      let run := Z.min (sat_sub chunk_end (e_stream_loss_offset e)) (zlen data) in
      if run =? 0 then (r, e)
      else
        let '(drop, e) := decide_stream_loss_chunk chunk e in
        if drop then
          let e := set_e_stream_loss_offset (sat_add64 (e_stream_loss_offset e) run) e in
          let e := add_segments 1 e in
          loss_loop fuel' now (zdrop run data)
            {| lr_offset := lr_offset r + run; lr_discarded := sat_add64 (lr_discarded r) run;
               lr_preserved := lr_preserved r; lr_latency := lr_latency r; lr_slice := lr_slice r |} e
        else
          let run := Z.min run (free_capacity e) in
          if run =? 0 then (r, e)
          else
            let '(owned, latency, slice, e) := push_preserve_run now (ztake run data) e in
            let e := set_e_stream_loss_offset (sat_add64 (e_stream_loss_offset e) owned) e in
            let r := {| lr_offset := lr_offset r + owned; lr_discarded := lr_discarded r;
                        lr_preserved := lr_preserved r + owned;
                        lr_latency := lr_latency r || latency; lr_slice := lr_slice r || slice |} in
            if owned <? run then (r, e) else loss_loop fuel' now (zdrop run data) r e
  end.

Definition loss_engaged (r : LossRun) (e : DirectionEngine) : list nat :=
  (if lr_latency r then [0%nat] else [])
  ++ (if is_some (e_bandwidth e) && (0 <? lr_preserved r) then [1%nat] else [])
  ++ (if is_some (e_remaining_limit e) then [3%nat] else [])
  ++ (if lr_slice r then [5%nat] else []).

Definition accept_with_stream_loss (input : bytes) (limit : Z) (now : Instant) (e : DirectionEngine)
    : Z * DirectionEngine :=
  let limit_cap := Z.min (zlen input) limit in
  let data := ztake limit_cap input in
  let '(r, e) := loss_loop (length data) now data
    {| lr_offset := 0; lr_discarded := 0; lr_preserved := 0; lr_latency := false; lr_slice := false |} e in
  if lr_offset r =? 0 then (0, e)
  else
    let e := add_accepted (lr_offset r) e in
    let e := add_discarded (lr_discarded r) e in
    let e := add_loss_discarded (lr_discarded r) e in
    let e := count_engaged (loss_engaged r e) e in
    (lr_offset r, charge_limit (lr_offset r) e).

(** ** [accept] *)

(** The stages that count one activation per preserving [accept]. *)
Fixpoint active_kind (p : FaultKind -> bool) (fs : list FaultSpec) (rngs : list (bool * DeterministicRng)) : bool :=
  match fs, rngs with
  | f :: fs', (active, _) :: rngs' => (active && p (fs_kind f)) || active_kind p fs' rngs'
  | _, _ => false
  end.
Definition is_latency (k : FaultKind) : bool := match k with Latency _ => true | _ => false end.
Definition is_slice (k : FaultKind) : bool := match k with Slice _ => true | _ => false end.

Definition accept_engaged (e : DirectionEngine) : list nat :=
  (if active_kind is_latency (faults (e_plan e)) (e_rngs e) then [0%nat] else [])
  ++ (if is_some (e_bandwidth e) then [1%nat] else [])
  ++ (if is_some (e_remaining_limit e) then [3%nat] else [])
  ++ (if active_kind is_slice (faults (e_plan e)) (e_rngs e) then [5%nat] else []).

(** The destructive blackhole path: discard without buffering. *)
Definition accept_blackhole (input : bytes) (limit : Z) (e : DirectionEngine) : Z * DirectionEngine :=
  let accepted_cap := Z.min (zlen input) limit in
  if accepted_cap =? 0 then (0, e)
  else
    let e := add_accepted accepted_cap e in
    let e := add_discarded accepted_cap e in
    let e := add_segments 1 e in
    let e := bump_activation 2 e in
    let e :=
      match e_remaining_limit e with
      | None => e
      | Some (_, id) =>
          let limit := limit - accepted_cap in
          let e := set_e_remaining_limit (Some (limit, id)) e in
          if limit =? 0 then publish_counted (graceful_info e id) 3 e else e
      end in
    (accepted_cap, e).

(** The preserving path: the segmentation loop of [accept] is the loop of
    [push_preserve_run], run on the first [accepted_cap] bytes. *)
Definition accept_preserving (input : bytes) (accepted_cap : Z) (now : Instant) (e : DirectionEngine)
    : Z * DirectionEngine :=
  if accepted_cap =? 0 then (0, e)
  else
    let '(offset, _, _, e) := push_preserve_run now (ztake accepted_cap input) e in
    if offset =? 0 then (0, e)
    else
      let e := add_accepted offset e in
      let e := count_engaged (accept_engaged e) e in
      (offset, charge_limit offset e).

(** [accept] at instants: [t0] for the termination refresh, [now] for the
    segments, [t2] for the blackhole test. *)
Definition accept_at (t0 now t2 : Instant) (input : bytes) (e : DirectionEngine) : Z * DirectionEngine :=
  let e := refresh_sync_terminations t0 e in
  match input with
  | [] => (0, e)
  | _ =>
      let limit := limit_available e in
      if limit =? 0 then
        (0, match e_termination e, e_remaining_limit e with
            | None, Some (_, id) => publish_counted (graceful_info e id) 3 e
            | _, _ => e
            end)
      else
        let capacity := free_capacity e in
        let accepted_cap := Z.min (Z.min (zlen input) limit) capacity in
        if blackhole_discarding t2 e then accept_blackhole input limit e
        else if existsb is_some (e_stream_loss e) then accept_with_stream_loss input limit now e
        else accept_preserving input accepted_cap now e
  end.

(** The copy loop of the vectored path: a bounded prefix of the buffers. *)
Fixpoint join_prefix (remaining : Z) (bufs : list bytes) : bytes :=
  match bufs with
  | [] => []
  | buf :: rest =>
      if remaining =? 0 then []
      else
        let n := Z.min (zlen buf) remaining in
        ztake n buf ++ join_prefix (remaining - n) rest
  end.
Definition total_len (bufs : list bytes) : Z :=
  foldl (fun a b => sat_add USIZE_MAX a (zlen b)) 0 bufs.

Definition accept_vectored_at (t0 now t2 : Instant) (bufs : list bytes) (e : DirectionEngine)
    : Z * DirectionEngine :=
  let total := total_len bufs in
  if total =? 0 then (0, refresh_sync_terminations t0 e)
  else if negb (is_preserving_only e) then accept_at t0 now t2 (concat bufs) e
  else
    let bounded := bounded_accept_capacity e in
    if bounded =? 0 then accept_at t0 now t2 [] e
    else accept_at t0 now t2 (join_prefix (Z.min total bounded) bufs) e.

Section AcceptClock.
Context `{E : Env}.
(** The calls as the code makes them, reading the clock from index [k]. *)
Definition accept (k : nat) (input : bytes) (e : DirectionEngine) : Z * DirectionEngine :=
  accept_at (clock k) (clock (S k)) (clock (S (S k))) input e.
Definition accept_vectored (k : nat) (bufs : list bytes) (e : DirectionEngine) : Z * DirectionEngine :=
  accept_vectored_at (clock k) (clock (S k)) (clock (S (S k))) bufs e.
End AcceptClock.
