(* ===== verification/Drain.v ===== *)
(** * Draining the pipeline ([crates/eggchaos-core/src/engine.rs])

    [poll_due_termination], [poll_queue], [poll_flush] and [poll_shutdown].
    Every function takes the index of its first clock reading and returns the
    index after its last one.

    Then specifications of [push_segment], [push_run], the slicer and the
    stream-loss decision: which fields they leave alone (their frame), what
    they append to the queue, and when the appended segments may leave. *)

From Stdlib Require Import Bool.
From stdpp Require Import base list strings.
From S2P Require Import Prelude Rng Float64 Plan Env TokenBucket EngineState Engine Accept.

(** [TerminationHandle::poll_terminated]: parks unless the slot is set. *)
Definition poll_terminated (h : TermSlot) : poll TerminationInfo :=
  match handle_get h with Some info => Ready info | None => Pending end.

(** The earliest pending deadline across disconnect and finite blackhole. *)
Definition due_deadline (e : DirectionEngine) : option Instant :=
  let deadline := match e_disconnect e with Some s => Some (ds_deadline s) | None => None end in
  match e_blackhole e with
  | Some s =>
      match bs_deadline s with
      | Some end_ => Some (match deadline with Some current => Z.min current end_ | None => end_ end)
      | None => deadline
      end
  | None => deadline
  end.

(** [io::Error::new] of the two transport contract violations. *)
Definition write_zero_error : IoError :=
  {| io_kind := WriteZero; io_message := "inner stream accepted zero bytes" |}.
Definition overrun_error : IoError :=
  {| io_kind := InvalidData; io_message := "inner stream wrote more than supplied slice" |}.

Section Drain.
Context `{E : Env} {T : Type} `{W : AsyncWrite T}.

Definition poll_due_termination (k : nat) (e : DirectionEngine)
    : poll TerminationInfo * nat * DirectionEngine :=
  let e := refresh_sync_terminations (clock k) e in
  match e_termination e with
  | Some info => (Ready info, S k, e)
  | None =>
      match due_deadline e with
      | Some end_ =>
          let now := clock (S k) in
          if now <? end_ then
            let '(fired, timer) := timer_poll (2 + k) now end_ (e_term_timer e) in
            let e := set_e_term_timer timer e in
            if negb fired then (Pending, (4 + k)%nat, e)
            else
              let e := refresh_sync_terminations (clock (4 + k)) e in
              match e_termination e with
              | Some info => (Ready info, (5 + k)%nat, e)
              | None => (poll_terminated (e_term_handle e), (5 + k)%nat, e)
              end
          else
            let e := refresh_sync_terminations (clock (2 + k)) e in
            match e_termination e with
            | Some info => (Ready info, (3 + k)%nat, e)
            | None => (poll_terminated (e_term_handle e), (3 + k)%nat, e)
            end
      | None => (poll_terminated (e_term_handle e), S k, e)
      end
  end.

(** One iteration of the loop of [poll_queue]. *)
Inductive QueueStep :=
| QDone (r : io_poll unit) (k : nat) (e : DirectionEngine) (t : T)
| QNext (k : nat) (e : DirectionEngine) (t : T).

(** The write of the head segment and its bookkeeping. *)
Definition write_front (k : nat) (front : Queued) (rest : list Queued) (e : DirectionEngine) (t : T)
    : QueueStep :=
  match tx_write t (q_bytes front) with
  | (Ready (Ok n), t') =>
      if n =? 0 then QDone (Ready (Err write_zero_error)) k e t'
      else if zlen (q_bytes front) <? n then QDone (Ready (Err overrun_error)) k e t'
      else
        let e := add_forwarded n e in
        let e := set_e_buffered (sat_sub (e_buffered e) n) e in
        let e := set_e_queue
                   (if n =? zlen (q_bytes front) then rest
                    else {| q_bytes := zdrop n (q_bytes front); q_release := q_release front |} :: rest) e in
        QNext k e t'
  | (Ready (Err error), t') => QDone (Ready (Err error)) k e t'
  | (Pending, t') => QDone Pending k e t'
  end.

Definition queue_step (k : nat) (e : DirectionEngine) (t : T) : QueueStep :=
  match e_queue e with
  | [] => QDone (Ready (Ok tt)) k e t
  | front :: rest =>
      let now := clock k in
      if now <? q_release front then
        let '(fired, timer) := timer_poll (S k) now (q_release front) (e_queue_timer e) in
        let e := set_e_queue_timer timer e in
        if negb fired then QDone Pending (3 + k)%nat e t
        else write_front (3 + k) front rest e t
      else write_front (S k) front rest e t
  end.

Fixpoint queue_loop (fuel : nat) (k : nat) (e : DirectionEngine) (t : T)
    : option (io_poll unit * nat * DirectionEngine * T) :=
  match fuel with
  | O => None
  | S fuel' =>
      match queue_step k e t with
      | QDone r k' e' t' => Some (r, k', e', t')
      | QNext k' e' t' => queue_loop fuel' k' e' t'
      end
  end.

(** Every iteration that goes on forwards at least one byte, so one more
    iteration than there are queued bytes is enough ([queue_loop_total]). *)
Definition queue_fuel (e : DirectionEngine) : nat := S (length (queue_bytes (e_queue e))).

Definition poll_queue (k : nat) (e : DirectionEngine) (t : T) : io_poll unit * nat * DirectionEngine * T :=
  match queue_loop (queue_fuel e) k e t with
  | Some r => r
  | None => (Pending, k, e, t)
  end.

(** [DirectionEngine::poll_flush]. *)
Definition engine_poll_flush (k : nat) (e : DirectionEngine) (t : T)
    : io_poll unit * nat * DirectionEngine * T :=
  match poll_queue k e t with
  | (Ready (Ok _), k', e', t') => let '(r, t'') := tx_flush t' in (r, k', e', t'')
  | other => other
  end.

(** The slow-close deadline, armed by the first call that finds the queue
    drained. *)
Definition arm_slow_close (now : Instant) (e : DirectionEngine) : DirectionEngine :=
  match e_shutdown_deadline e with
  | Some _ => e
  | None =>
      match e_slow_close e with
      | Some delay =>
          let e := set_e_shutdown_deadline
                     (Some (add_or now delay (Z.min MAX_STREAM_FAULT_DURATION delay))) e in
          if negb (delay =? 0) then bump_activation 4 e else e
      | None => e
      end
  end.

(** [DirectionEngine::poll_shutdown]. *)
Definition engine_poll_shutdown (k : nat) (e : DirectionEngine) (t : T)
    : io_poll unit * nat * DirectionEngine * T :=
  match poll_queue k e t with
  | (Ready (Ok _), k, e, t) =>
      let e := arm_slow_close (clock k) e in
      match e_shutdown_deadline e with
      | Some deadline =>
          let now := clock (S k) in
          if now <? deadline then
            let '(fired, timer) := timer_poll (2 + k) now deadline (e_shutdown_timer e) in
            let e := set_e_shutdown_timer timer e in
            if negb fired then (Pending, (4 + k)%nat, e, t)
            else let '(r, t') := tx_shutdown t in (r, (4 + k)%nat, e, t')
          else let '(r, t') := tx_shutdown t in (r, (2 + k)%nat, e, t')
      | None => let '(r, t') := tx_shutdown t in (r, (2 + k)%nat, e, t')
      end
  | other => other
  end.

End Drain.

(** * What the segmentation pipeline does to an engine *)

(** ** Frames *)

(** The fields the pipeline never changes. *)
Definition pipe_frame (e : DirectionEngine) :=
  (e_plan e, e_direction e, e_max_buffer e,
   (e_termination e, e_term_handle e, e_remaining_limit e, e_blackhole e, e_disconnect e),
   (e_queue_timer e, e_term_timer e, e_shutdown_timer e, e_shutdown_deadline e, e_slow_close e),
   (e_slicer_active e, is_some (e_bandwidth e), map fst (e_rngs e)),
   (v_bytes_accepted (e_evidence e), v_bytes_forwarded (e_evidence e),
    v_bytes_discarded (e_evidence e), v_termination (e_evidence e),
    v_activations (e_evidence e), v_loss_bytes_discarded (e_evidence e), v_rng_version (e_evidence e))).

(** The stream-loss decision state and its chunk counters. *)
Definition loss_frame (e : DirectionEngine) :=
  (e_stream_loss e, e_stream_loss_offset e, e_stream_loss_evaluated e,
   v_chunks_evaluated (e_evidence e), v_chunks_dropped (e_evidence e)).

(** The queue and its accounting. *)
Definition queue_frame (e : DirectionEngine) :=
  (e_queue e, e_buffered e, e_high_water e, e_bandwidth e).

(** All equalities of a frame equation at once. *)
Ltac frames :=
  unfold pipe_frame, loss_frame, queue_frame in *;
  repeat match goal with
  | H : (_, _) = (_, _) |- _ => apply pair_equal_spec in H; destruct H
  end.

Definition bandwidth_ok (e : DirectionEngine) : Prop := from_option bucket_ok True (e_bandwidth e).

Lemma queue_bytes_app q1 q2 : queue_bytes (q1 ++ q2) = queue_bytes q1 ++ queue_bytes q2.
Proof. unfold queue_bytes. by rewrite map_app, concat_app. Qed.
Lemma queue_bytes_one b r : queue_bytes [{| q_bytes := b; q_release := r |}] = b.
Proof. unfold queue_bytes; cbn. apply app_nil_r. Qed.
Lemma queue_bytes_cons q rest : queue_bytes (q :: rest) = q_bytes q ++ queue_bytes rest.
Proof. reflexivity. Qed.

(** ** Latency and slicer draws *)

Lemma latency_nanos_nonneg c rng n r : latency_nanos c rng = (n, r) -> 0 <= n.
Proof.
  unfold latency_nanos. destruct (if _ =? 0 then _ else _) as [j r']. intros [= <- <-].
  unfold U64_MAX. lia.
Qed.

Lemma run_stages_spec fs : forall rngs s s' rngs',
  run_stages fs rngs s = (s', rngs') -> 0 <= sg_slice_delay s ->
  sg_release s <= sg_release s' /\ 0 <= sg_slice_delay s' /\ map fst rngs' = map fst rngs.
Proof.
  induction fs as [|f fs IH]; intros rngs s s' rngs'; cbn [run_stages]; [by intros [= <- <-]|].
  destruct rngs as [|[active rng] rngs]; [by intros [= <- <-]|].
  destruct (match active, fs_kind f with
            | true, Latency c => _ | true, Slice c => _ | _, _ => _ end) as [s1 rng1] eqn:Es.
  destruct (run_stages fs rngs s1) as [s2 rest] eqn:Er. intros [= <- <-] H0.
  assert (H1 : sg_release s <= sg_release s1 /\ 0 <= sg_slice_delay s1).
  { destruct active; [|by injection Es as <- <-].
    destruct (fs_kind f) as [c| | | | |c| |]; try (injection Es as <- <-; cbn; lia).
    destruct (latency_nanos c rng) as [n r] eqn:El. injection Es as <- <-. cbn. split; [|lia].
    apply add_or_ge; [by apply (latency_nanos_nonneg c rng n r)|vm_compute; discriminate]. }
  destruct H1 as [H1 H2]. destruct (IH _ _ _ _ Er H2) as (H3 & H4 & H5).
  cbn [map fst]. rewrite H5. repeat split; auto; lia.
Qed.

Lemma slice_draws_actives fs : forall rngs size size' rngs',
  slice_draws fs rngs size = (size', rngs') -> map fst rngs' = map fst rngs.
Proof.
  induction fs as [|f fs IH]; intros rngs size size' rngs'; cbn [slice_draws]; [by intros [= _ <-]|].
  destruct rngs as [|[active rng] rngs]; [by intros [= _ <-]|].
  destruct active; [destruct (fs_kind f) as [| | | | |c| |]|];
    try (destruct (slice_stage c rng));
    destruct (slice_draws fs rngs _) as [sz rest] eqn:Er; intros [= _ <-];
    cbn [map fst]; f_equal; eauto.
Qed.

Lemma next_chunk_spec remaining e c e' : 0 < remaining -> next_chunk remaining e = (c, e') ->
  1 <= c <= remaining /\ pipe_frame e' = pipe_frame e /\ loss_frame e' = loss_frame e
  /\ queue_frame e' = queue_frame e.
Proof.
  intros Hr. unfold next_chunk, next_slice_size. destruct (e_slicer_active e) eqn:Ea.
  - destruct (slice_draws _ _ _) as [size rngs] eqn:Es. intros [= <- <-].
    apply slice_draws_actives in Es. split; [lia|].
    unfold pipe_frame, loss_frame, queue_frame; cbn. by rewrite Es.
  - intros [= <- <-]. split; [lia|]. done.
Qed.

(** ** One segment *)

Lemma throttle_spec chunk now release e r e' :
  throttle chunk now release e = (r, e') -> 0 <= chunk -> now <= release -> bandwidth_ok e ->
  now <= r /\ pipe_frame e' = pipe_frame e /\ loss_frame e' = loss_frame e /\ bandwidth_ok e'
  /\ (e_queue e', e_buffered e', e_high_water e') = (e_queue e, e_buffered e, e_high_water e).
Proof.
  unfold throttle, bandwidth_ok. intros H Hc Hr Hb.
  destruct (e_bandwidth e) as [b|] eqn:Eb; [|injection H as <- <-; by rewrite Eb].
  cbn in Hb. destruct (bucket_consume b chunk now release) as [[r' ms] b'] eqn:Ec.
  destruct (bucket_consume_ok b chunk now _ _ _ _ Hb Hc Ec) as (Hb' & Hr' & _).
  injection H as <- <-. split; [lia|].
  destruct e as [? ? ? ? ? ? ? [] ? ? ? ? ? ? ? ? ? ? bw ? ? ? ? ?]. cbn in Eb. subst bw. done.
Qed.

Lemma stagger_spec d release e r e' : stagger d release e = (r, e') ->
  release <= r /\ pipe_frame e' = pipe_frame e /\ loss_frame e' = loss_frame e
  /\ queue_frame e' = queue_frame e.
Proof. unfold stagger. case_split; intros [= <- <-]; repeat split; lia. Qed.

Lemma queue_segment_spec seg r e : let e' := queue_segment seg r e in
  e_queue e' = e_queue e ++ [{| q_bytes := seg; q_release := r |}]
  /\ e_buffered e' = e_buffered e + zlen seg
  /\ e_high_water e' = Z.max (e_high_water e) (e_buffered e + zlen seg)
  /\ pipe_frame e' = pipe_frame e /\ loss_frame e' = loss_frame e /\ e_bandwidth e' = e_bandwidth e.
Proof. destruct e as [? ? ? ? ? ? ? [] ? ? ? ? ? ? ? ? ? ? ? [] ? ? ? ?]; repeat split. Qed.

Lemma push_segment_spec now seg e l s e' :
  push_segment now seg e = (l, s, e') -> bandwidth_ok e ->
  exists release, now <= release
  /\ e_queue e' = e_queue e ++ [{| q_bytes := seg; q_release := release |}]
  /\ e_buffered e' = e_buffered e + zlen seg
  /\ e_high_water e' = Z.max (e_high_water e) (e_buffered e + zlen seg)
  /\ pipe_frame e' = pipe_frame e /\ loss_frame e' = loss_frame e /\ bandwidth_ok e'.
Proof.
  unfold push_segment. destruct (run_stages _ _ _) as [st rngs] eqn:Es. cbv zeta. intros H Hb.
  apply run_stages_spec in Es; [|cbn; lia]. cbn [sg_release] in Es. destruct Es as (Hrel & _ & Hact).
  set (e0 := set_e_evidence _ _) in H.
  assert (F0 : pipe_frame e0 = pipe_frame e) by (unfold pipe_frame; cbn; by rewrite Hact).
  assert (G0 : loss_frame e0 = loss_frame e /\ queue_frame e0 = queue_frame e) by done.
  assert (O0 : bandwidth_ok e0) by exact Hb. destruct G0 as [G0 Q0]. clearbody e0.
  destruct (throttle _ _ _ e0) as [r1 e1] eqn:E1.
  apply throttle_spec in E1; [|apply zlen_nonneg|done|done]. destruct E1 as (R1 & F1 & G1 & O1 & Q1).
  destruct (stagger _ _ e1) as [r2 e2] eqn:E2. apply stagger_spec in E2. destruct E2 as (R2 & F2 & G2 & Q2).
  injection H as _ _ <-. destruct (queue_segment_spec seg r2 e2) as (Q3 & B3 & W3 & F3 & G3 & O3).
  exists r2. unfold bandwidth_ok in *. rewrite Q3, B3, W3, F3, G3, O3, F2, G2.
  injection Q0 as A0 A1 A2 A3. injection Q1 as B0 B1 B2. injection Q2 as C0 C1 C2 C3.
  rewrite C0, C1, C2, C3, B0, B1, B2, A0, A1, A2.
  split; [lia|]. do 3 (split; [reflexivity|]). split; [congruence|]. split; [congruence|done].
Qed.

(** ** A run of segments *)

Definition queued_from (now : Instant) (q : Queued) : Prop := q_bytes q <> [] /\ now <= q_release q.

Lemma push_run_nil now e : bandwidth_ok e -> e_buffered e <= e_high_water e ->
  0 = zlen (@nil Z)
  /\ (exists segs, e_queue e = e_queue e ++ segs /\ queue_bytes segs = []
        /\ Forall (queued_from now) segs)
  /\ e_buffered e = e_buffered e + zlen (@nil Z)
  /\ e_high_water e = Z.max (e_high_water e) (e_buffered e + zlen (@nil Z))
  /\ pipe_frame e = pipe_frame e /\ loss_frame e = loss_frame e /\ bandwidth_ok e.
Proof.
  intros Hb Hw. change (zlen (@nil Z)) with 0. split; [done|]. split; [|split; [lia|split; [lia|done]]].
  exists []. by rewrite app_nil_r.
Qed.

Lemma push_run_spec fuel : forall now data e owned l s e',
  push_run fuel now data e = (owned, l, s, e') -> (length data <= fuel)%nat -> bandwidth_ok e ->
  e_buffered e + zlen data <= e_max_buffer e -> e_buffered e <= e_high_water e ->
  owned = zlen data
  /\ (exists segs, e_queue e' = e_queue e ++ segs /\ queue_bytes segs = data
        /\ Forall (queued_from now) segs)
  /\ e_buffered e' = e_buffered e + zlen data
  /\ e_high_water e' = Z.max (e_high_water e) (e_buffered e + zlen data)
  /\ pipe_frame e' = pipe_frame e /\ loss_frame e' = loss_frame e /\ bandwidth_ok e'.
Proof.
  induction fuel as [|fuel IH]; intros now data e owned l s e' H Hf Hb Hcap Hhw.
  - destruct data; [|cbn in Hf; lia]. injection H as <- _ _ <-. by apply push_run_nil.
  - destruct data as [|x data].
    { injection H as <- _ _ <-. by apply push_run_nil. }
    cbn [push_run] in H. remember (x :: data) as d eqn:Ed.
    assert (Hd : 0 < zlen d) by (subst d; rewrite zlen_cons; pose proof (zlen_nonneg data); lia).
    destruct (next_chunk (zlen d) e) as [c e1] eqn:En.
    apply next_chunk_spec in En; [|done]. destruct En as (Hc & Hp1 & Hl1 & Hq1). frames.
    rewrite (proj2 (Z.ltb_ge _ _)) in H by lia.
    destruct (push_segment now (ztake c d) e1) as [[l1 s1] e2] eqn:Ep.
    apply push_segment_spec in Ep; [|unfold bandwidth_ok in *; congruence].
    destruct Ep as (r & Hr & Q2 & B2 & W2 & F2 & G2 & O2). frames.
    assert (Hlen : zlen (ztake c d) = c) by (rewrite zlen_ztake; lia).
    assert (Hrest : zlen (zdrop c d) = zlen d - c) by (rewrite zlen_zdrop; lia).
    destruct (push_run fuel now (zdrop c d) e2) as [[[o2 l2] s2] e3] eqn:Er. injection H as <- <- <- <-.
    apply IH in Er; [|unfold zlen in *; lia|done|lia|lia].
    destruct Er as (Ho & (segs & Q3 & Qb & Qf) & B3 & W3 & F3 & G3 & O3). frames.
    split; [lia|]. split.
    { exists ({| q_bytes := ztake c d; q_release := r |} :: segs).
      rewrite Q3, Q2, <- app_assoc. split; [|split].
      - cbn. congruence.
      - rewrite queue_bytes_cons, Qb. apply ztake_zdrop.
      - constructor; [|done]. split; [|exact Hr]. cbn. intros Hn. rewrite Hn, zlen_nil in Hlen. lia. }
    split; [lia|]. split; [lia|]. split; [unfold pipe_frame; congruence|].
    split; [unfold loss_frame; congruence|done].
Qed.

Lemma push_preserve_run_spec now data e owned l s e' :
  push_preserve_run now data e = (owned, l, s, e') -> bandwidth_ok e ->
  e_buffered e + zlen data <= e_max_buffer e -> e_buffered e <= e_high_water e ->
  owned = zlen data
  /\ (exists segs, e_queue e' = e_queue e ++ segs /\ queue_bytes segs = data
        /\ Forall (queued_from now) segs)
  /\ e_buffered e' = e_buffered e + zlen data
  /\ e_high_water e' = Z.max (e_high_water e) (e_buffered e + zlen data)
  /\ pipe_frame e' = pipe_frame e /\ loss_frame e' = loss_frame e /\ bandwidth_ok e'.
Proof. intros H. by apply (push_run_spec _ _ _ _ _ _ _ _ H). Qed.
