(* ===== verification/EngineInv.v ===== *)
(** * The engine invariant

    [engine_wf] relates the queue, its accounting, the byte limit, the
    termination slot and the byte ledger.  [wf_owing owed] is the same statement
    inside an operation that has queued or discarded [owed] bytes it has not yet
    counted as accepted; [engine_wf] is [wf_owing 0]. *)

From Stdlib Require Import Bool.
From stdpp Require Import base list strings.
From S2P Require Import Prelude Rng Float64 Plan Env TokenBucket EngineState Engine Accept.
From S2P Require Import Drain.

(** The largest buffer bound a plan can leave: [64 * 1024]. *)
Definition BUFFER_MAX : Z := 65536.

Definition limit_wf (e : DirectionEngine) : Prop :=
  match e_remaining_limit e with
  | Some (r, _) => 0 <= r <= U64_MAX /\ (r = 0 -> e_termination e <> None)
  | None => True
  end.

Record ledger_wf (owed : Z) (v : EngineEvidence) (buffered : Z) : Prop := {
  lg_accepted : 0 <= v_bytes_accepted v <= U64_MAX;
  lg_forwarded : 0 <= v_bytes_forwarded v <= U64_MAX;
  lg_discarded : 0 <= v_bytes_discarded v <= U64_MAX;
  lg_balance : v_bytes_accepted v + owed < U64_MAX ->
    v_bytes_accepted v + owed = v_bytes_forwarded v + v_bytes_discarded v + buffered
}.

Record wf_owing (owed : Z) (e : DirectionEngine) : Prop := {
  wf_plan : plan_validate (e_plan e) = Ok tt;
  wf_rngs : length (e_rngs e) = length (faults (e_plan e));
  wf_loss : length (e_stream_loss e) = length (faults (e_plan e));
  wf_offset : 0 <= e_stream_loss_offset e;
  wf_buffered : e_buffered e = zlen (queue_bytes (e_queue e));
  wf_capacity : e_buffered e <= e_max_buffer e <= BUFFER_MAX;
  wf_max_buffer : 1 <= e_max_buffer e;
  wf_high_water : e_buffered e <= e_high_water e <= BUFFER_MAX;
  wf_segments : Forall (fun q => q_bytes q <> []) (e_queue e);
  wf_limit : limit_wf e;
  wf_handle : e_term_handle e = e_termination e;
  wf_reported : v_termination (e_evidence e) = ti_request <$> e_termination e;
  wf_bucket : bandwidth_ok e;
  wf_timers : timer_ok (e_queue_timer e) /\ timer_ok (e_term_timer e) /\ timer_ok (e_shutdown_timer e);
  wf_activations : length (v_activations (e_evidence e)) = 7%nat;
  wf_ledger : ledger_wf owed (e_evidence e) (e_buffered e)
}.

Definition engine_wf : DirectionEngine -> Prop := wf_owing 0.

(** ** Shapes: each accounting step is an update of few fields *)

(** The counters other than termination and activations. *)
Definition v_counts (v : EngineEvidence) :=
  (v_bytes_accepted v, v_bytes_forwarded v, v_bytes_discarded v, v_segments v, v_slices v,
   v_injected_delay_ms v, v_throttled_delay_ms v, v_chunks_evaluated v, v_chunks_dropped v,
   v_loss_bytes_discarded v).

Lemma engine_eta_term e t h : e_termination e = t -> e_term_handle e = h ->
  set_e_term_handle h (set_e_termination t e) = e.
Proof. intros <- <-. by destruct e. Qed.

Lemma publish_counted_shape info slot e : exists v,
  publish_counted info slot e
    = set_e_evidence v (set_e_term_handle (Some (default info (e_term_handle e)))
        (set_e_termination (Some (default info (e_termination e))) e))
  /\ v_counts v = v_counts (e_evidence e)
  /\ v_termination v = Some (ti_request (default info (e_termination e)))
  /\ length (v_activations v) = length (v_activations (e_evidence e)).
Proof.
  destruct e as [? ? ? ? ? ? ? ? t h ? ? ? ? ? ? ? ? ? ? ? ? ? ?].
  unfold publish_counted, publish_termination, bump_activation, handle_publish. cbn.
  destruct t, h; cbn; eexists; (split; [reflexivity|]);
    cbn; rewrite ?length_alter; done.
Qed.

Lemma bump_activation_shape i e : exists v, bump_activation i e = set_e_evidence v e
  /\ v_counts v = v_counts (e_evidence e) /\ v_termination v = v_termination (e_evidence e)
  /\ length (v_activations v) = length (v_activations (e_evidence e)).
Proof. eexists. split; [reflexivity|]. cbn. by rewrite length_alter. Qed.

Lemma set_e_evidence_id e : set_e_evidence (e_evidence e) e = e.
Proof. by destruct e. Qed.

Lemma count_engaged_shape engaged : forall e, exists v, count_engaged engaged e = set_e_evidence v e
  /\ v_counts v = v_counts (e_evidence e) /\ v_termination v = v_termination (e_evidence e)
  /\ length (v_activations v) = length (v_activations (e_evidence e)).
Proof.
  induction engaged as [|i engaged IH]; intros e.
  - exists (e_evidence e). cbn. by rewrite set_e_evidence_id.
  - unfold count_engaged. cbn [foldl]. destruct (bump_activation_shape i e) as (v & -> & C & T & L).
    destruct (IH (set_e_evidence v e)) as (v' & E & C' & T' & L'). unfold count_engaged in E.
    exists v'. rewrite E. cbn in *. repeat split; congruence.
Qed.

(** What a refresh does: nothing, or one publication for a deadline passed. *)
Definition due_info (now : Instant) (e : DirectionEngine) (info : TerminationInfo) : Prop :=
  (exists s, e_disconnect e = Some s /\ ds_deadline s <= now /\ info = disconnect_info e s)
  \/ (exists s d, e_blackhole e = Some s /\ bs_deadline s = Some d /\ d <= now
        /\ info = graceful_info e (bs_fault_id s)).

Lemma refresh_shape now e :
  refresh_sync_terminations now e = e
  \/ exists info slot, refresh_sync_terminations now e = publish_counted info slot e
       /\ e_termination e = None /\ due_info now e info.
Proof.
  unfold refresh_sync_terminations, due_info. destruct (e_termination e) eqn:Et; [by left|].
  destruct (e_disconnect e) as [s|] eqn:Ed.
  - destruct (ds_deadline s <=? now) eqn:El; bools; [right; eauto 10|].
    destruct (e_blackhole e) as [b|] eqn:Eb; [|by left].
    destruct (bs_deadline b) as [d|] eqn:Ebd; [|by left].
    destruct (d <=? now) eqn:Eld; bools; [right; eauto 12|by left].
  - destruct (e_blackhole e) as [b|] eqn:Eb; [|by left].
    destruct (bs_deadline b) as [d|] eqn:Ebd; [|by left].
    destruct (d <=? now) eqn:Eld; bools; [right; eauto 12|by left].
Qed.

(** ** Preservation by the accounting steps *)

Lemma counts_ledger owed v v' b : v_counts v' = v_counts v -> ledger_wf owed v b -> ledger_wf owed v' b.
Proof. intros [= E1 E2 E3 _ _ _ _ _ _ _] [? ? ? ?]. split; rewrite ?E1, ?E2, ?E3; done. Qed.

Lemma wf_evidence owed e v : v_counts v = v_counts (e_evidence e) ->
  v_termination v = v_termination (e_evidence e) ->
  length (v_activations v) = length (v_activations (e_evidence e)) ->
  wf_owing owed e -> wf_owing owed (set_e_evidence v e).
Proof.
  intros Hc Ht Hl []. split; cbn; rewrite ?Ht, ?Hl; try done. by apply (counts_ledger _ (e_evidence e)).
Qed.

Lemma wf_publish owed info slot e : wf_owing owed e -> wf_owing owed (publish_counted info slot e).
Proof.
  intros H. destruct (publish_counted_shape info slot e) as (v & -> & Hc & Ht & Hl). destruct H.
  split; cbn; rewrite ?Ht, ?Hl; try done.
  - unfold limit_wf in *. cbn. destruct (e_remaining_limit e) as [[r i]|]; [|done].
    split; [apply wf_limit0|done].
  - by rewrite wf_handle0.
  - by apply (counts_ledger _ (e_evidence e)).
Qed.

Lemma wf_count_engaged owed engaged e : wf_owing owed e -> wf_owing owed (count_engaged engaged e).
Proof. destruct (count_engaged_shape engaged e) as (v & -> & ? & ? & ?). by apply wf_evidence. Qed.

Lemma wf_refresh owed now e : wf_owing owed e -> wf_owing owed (refresh_sync_terminations now e).
Proof. destruct (refresh_shape now e) as [->|(i & s & -> & _)]; [done|apply wf_publish]. Qed.

#[export] Hint Resolve wf_publish wf_count_engaged wf_refresh : egg.

Lemma wf_add_segments owed n e : wf_owing owed e -> wf_owing owed (add_segments n e).
Proof. intros []. split; cbn; try done. by destruct wf_ledger0. Qed.

Lemma wf_add_accepted owed n e : 0 <= n <= owed -> wf_owing owed e -> wf_owing (owed - n) (add_accepted n e).
Proof.
  intros Hn []. split; cbn; try done. destruct wf_ledger0 as [A F D B].
  split; cbn; try done; [unfold sat_add; lia|]. unfold sat_add. intros. lia.
Qed.

Lemma wf_add_discarded owed n e : 0 <= n -> 0 <= owed -> wf_owing owed e ->
  wf_owing (owed + n) (add_discarded n e).
Proof.
  intros Hn Ho []. split; cbn; try done. destruct wf_ledger0 as [A F D B].
  pose proof (zlen_nonneg (queue_bytes (e_queue e))).
  split; cbn; try done; [unfold sat_add; lia|]. unfold sat_add. intros. lia.
Qed.

Lemma wf_add_loss_discarded owed n e : wf_owing owed e -> wf_owing owed (add_loss_discarded n e).
Proof. intros []. split; cbn; try done. by destruct wf_ledger0. Qed.

Lemma wf_charge_limit owed n e : 0 <= n -> wf_owing owed e -> wf_owing owed (charge_limit n e).
Proof.
  intros Hn H. unfold charge_limit. destruct (e_remaining_limit e) as [[r id]|] eqn:Er; [|done].
  assert (Hr : 0 <= r <= U64_MAX).
  { destruct H. unfold limit_wf in *. rewrite Er in *. tauto. }
  destruct (sat_sub r n =? 0) eqn:E0; bools.
  - destruct (publish_counted_shape (graceful_info (set_e_remaining_limit (Some (sat_sub r n, id)) e) id) 3
      (set_e_remaining_limit (Some (sat_sub r n, id)) e)) as (v & -> & Hc & Ht & Hl). destruct H.
    split; cbn in *; rewrite ?Ht, ?Hl; try done.
    + unfold limit_wf. cbn. split; [unfold sat_sub; lia|done].
    + by rewrite wf_handle0.
    + by apply (counts_ledger _ (e_evidence e)).
  - destruct H. split; cbn; try done. unfold limit_wf. cbn. split; [unfold sat_sub in *; lia|done].
Qed.
