(* ===== verification/Loss.v ===== *)
(** * Stream loss as a function of the absolute offset

    The decision for a chunk depends only on the fault's seed and the chunk
    number ([chunk_lost]); [survivors] is the reference definition of what a
    stream-loss plan lets through.  [loss_loop] is proved to implement it. *)

From Stdlib Require Import Bool.
From stdpp Require Import base list strings.
From S2P Require Import Prelude Rng Float64 Plan Env TokenBucket EngineState Engine Accept.
From S2P Require Import Drain EngineInv.

(** ** Reference semantics *)

(** The [chunk]-th decision of a fault whose generator started at [rng0]. *)
Definition loss_bit (c : StreamLossConfig) (rng0 : DeterministicRng) (chunk : Z) : bool :=
  (chunk_draws (Z.to_nat (chunk + 1)) c (rng0, false)).2.

(** A chunk is lost when any active fault selects it. *)
Fixpoint chunk_lost (fs : list FaultSpec) (seeds : list (option DeterministicRng)) (chunk : Z) : bool :=
  match fs, seeds with
  | f :: fs', seed :: seeds' =>
      match fs_kind f, seed with
      | StreamLoss c, Some rng0 => loss_bit c rng0 chunk
      | _, _ => false
      end || chunk_lost fs' seeds' chunk
  | _, _ => false
  end.

(** The bytes at absolute offsets from [off] on whose chunk is not lost. *)
Fixpoint survivors (lost : Z -> bool) (off : Z) (bs : bytes) : bytes :=
  match bs with
  | [] => []
  | b :: bs' =>
      if lost (off / STREAM_LOSS_GRAIN_BYTES) then survivors lost (off + 1) bs'
      else b :: survivors lost (off + 1) bs'
  end.

Lemma survivors_app lost l1 : forall off l2,
  survivors lost off (l1 ++ l2) = survivors lost off l1 ++ survivors lost (off + zlen l1) l2.
Proof.
  induction l1 as [|x l1 IH]; intros off l2; cbn [survivors app].
  - by rewrite zlen_nil, Z.add_0_r.
  - rewrite IH, zlen_cons, Z.add_assoc. by case_split.
Qed.

Lemma survivors_same_chunk lost chunk bs : forall off,
  chunk * STREAM_LOSS_GRAIN_BYTES <= off -> off + zlen bs <= (chunk + 1) * STREAM_LOSS_GRAIN_BYTES ->
  survivors lost off bs = if lost chunk then [] else bs.
Proof.
  induction bs as [|b bs IH]; intros off H1 H2; cbn [survivors]; [by case_split|].
  rewrite zlen_cons in H2. pose proof (zlen_nonneg bs).
  assert (Ec : off / STREAM_LOSS_GRAIN_BYTES = chunk).
  { symmetry. apply (Z.div_unique off _ chunk (off - chunk * STREAM_LOSS_GRAIN_BYTES));
      unfold STREAM_LOSS_GRAIN_BYTES in *; lia. }
  rewrite Ec, IH by lia. by case_split.
Qed.

Lemma survivors_length lost bs : forall off, zlen (survivors lost off bs) <= zlen bs.
Proof.
  induction bs as [|b bs IH]; intros off; cbn [survivors]; [done|].
  specialize (IH (off + 1)). case_split; rewrite ?zlen_cons; lia.
Qed.

(** ** Decision states *)

(** [conn] has drawn the decisions up to some chunk at most [bound]. *)
Definition conn_ok (bound : Z) (c : StreamLossConfig) (rng0 : DeterministicRng)
    (conn : StreamLossConnState) : Prop :=
  match sls_decided conn with
  | None => (sls_rng conn, sls_prev_dropped conn) = (rng0, false)
  | Some (d, drop) =>
      0 <= d <= bound /\ drop = sls_prev_dropped conn
      /\ (sls_rng conn, sls_prev_dropped conn) = chunk_draws (Z.to_nat (d + 1)) c (rng0, false)
  end.

Definition conn_rel (bound : Z) (f : FaultSpec) (seed : option DeterministicRng)
    (st : option StreamLossConnState) : Prop :=
  match st, seed with
  | Some conn, Some rng0 => exists c, fs_kind f = StreamLoss c /\ conn_ok bound c rng0 conn
  | None, None => True
  | _, _ => False
  end.

Lemma chunk_draws_add c n : forall m st, chunk_draws (n + m) c st = chunk_draws m c (chunk_draws n c st).
Proof. induction n as [|n IH]; intros m st; cbn; [done|apply IH]. Qed.

Lemma decide_fault_spec bound c rng0 conn chunk : conn_ok bound c rng0 conn ->
  0 <= bound <= chunk -> chunk < U64_MAX ->
  exists conn', decide_fault c conn chunk = (loss_bit c rng0 chunk, conn') /\ conn_ok chunk c rng0 conn'.
Proof.
  intros H Hb Hc. unfold conn_ok in H. unfold decide_fault, loss_bit.
  destruct (sls_decided conn) as [[d drop]|] eqn:Ed.
  - destruct H as (Hd & -> & Hs). destruct (d =? chunk) eqn:Edc; bools.
    + subst d. exists conn. rewrite <- Hs. cbn. split; [done|]. unfold conn_ok. rewrite Ed. repeat split; [lia|lia|done].
    + replace (sat_add64 d 1) with (d + 1) by (unfold sat_add; lia). cbv zeta.
      assert (En : Z.to_nat (chunk + 1) = (Z.to_nat (d + 1) + Z.to_nat (chunk + 1 - (d + 1)))%nat) by lia.
      rewrite En, chunk_draws_add, <- Hs.
      destruct (Z.to_nat (chunk + 1 - (d + 1))) as [|n] eqn:En'; [lia|].
      destruct (chunk_draws (S n) c (sls_rng conn, sls_prev_dropped conn)) as [rng prev] eqn:Er.
      cbn [snd]. eexists. split; [reflexivity|]. unfold conn_ok. cbn [sls_decided sls_prev_dropped sls_rng].
      split; [lia|]. split; [done|]. by rewrite En, chunk_draws_add, <- Hs, Er.
  - rewrite Z.sub_0_r, H. destruct (Z.to_nat (chunk + 1)) as [|n] eqn:En; [lia|].
    destruct (chunk_draws (S n) c (rng0, false)) as [rng prev] eqn:Er.
    cbn [snd]. eexists. split; [reflexivity|]. unfold conn_ok. cbn [sls_decided sls_prev_dropped sls_rng].
    split; [lia|]. split; [done|]. by rewrite En, Er.
Qed.

Lemma decide_all_spec bound chunk : 0 <= bound <= chunk -> chunk < U64_MAX ->
  forall fs seeds sts, Forall3 (conn_rel bound) fs seeds sts ->
  exists sts', decide_all fs sts chunk = (chunk_lost fs seeds chunk, sts')
    /\ Forall3 (conn_rel chunk) fs seeds sts'.
Proof.
  intros Hb Hc fs seeds sts H. induction H as [|f seed st fs seeds sts H1 _ (sts' & E & F)].
  - exists []. by split; [|constructor].
  - cbn [decide_all chunk_lost]. destruct st as [conn|], seed as [rng0|]; cbn in H1; try done.
    + destruct H1 as (c & Hk & Hok). rewrite Hk.
      destruct (decide_fault_spec _ _ _ _ chunk Hok Hb Hc) as (conn' & -> & Hok').
      rewrite E. eexists. split; [reflexivity|]. constructor; [|done]. cbn. eauto.
    + exists (None :: sts'). rewrite E. split; [by destruct (fs_kind f)|]. by constructor.
Qed.

Lemma decide_all_length fs : forall sts chunk, length (decide_all fs sts chunk).2 = length sts.
Proof.
  induction fs as [|f fs IH]; intros [|st sts] chunk; cbn [decide_all]; try done.
  specialize (IH sts chunk).
  destruct (match fs_kind f, st with StreamLoss c, Some conn => _ | _, _ => _ end) as [dr st'].
  destruct (decide_all fs sts chunk) as [r sts']. cbn in *. lia.
Qed.

(** ** Engines *)

(** The engine's loss states follow the streams started at [seeds], and no
    decision is ahead of the offset. *)
Definition loss_ok (seeds : list (option DeterministicRng)) (e : DirectionEngine) : Prop :=
  0 <= e_stream_loss_offset e
  /\ Forall3 (conn_rel (e_stream_loss_offset e / STREAM_LOSS_GRAIN_BYTES))
       (faults (e_plan e)) seeds (e_stream_loss e).

Definition engine_lost (seeds : list (option DeterministicRng)) (e : DirectionEngine) : Z -> bool :=
  chunk_lost (faults (e_plan e)) seeds.

Lemma decide_chunk_frames chunk e d e' : decide_stream_loss_chunk chunk e = (d, e') ->
  pipe_frame e' = pipe_frame e /\ queue_frame e' = queue_frame e
  /\ e_stream_loss_offset e' = e_stream_loss_offset e
  /\ (d, e_stream_loss e') = decide_all (faults (e_plan e)) (e_stream_loss e) chunk.
Proof.
  unfold decide_stream_loss_chunk. destruct (decide_all _ _ chunk) as [d0 sts].
  destruct e as [? ? ? ? ? ? ? [] ? ? ? ? ? ? ? ? ? ? ? ? ? ? ? ?]. cbn.
  destruct (chunk =? _); [destruct d0|]; intros [= <- <-]; done.
Qed.

Lemma conn_rel_mono b b' f seed st : b <= b' -> conn_rel b f seed st -> conn_rel b' f seed st.
Proof.
  intros Hb. destruct st, seed; cbn; try done. intros (c & Hk & H). exists c. split; [done|].
  unfold conn_ok in *. destruct (sls_decided s) as [[dc dr]|]; [|done]. destruct H as (? & ? & ?).
  repeat split; auto; lia.
Qed.

(** ** Accounting across frames *)

Lemma wf_same_frames owed e e' : pipe_frame e' = pipe_frame e -> queue_frame e' = queue_frame e ->
  length (e_stream_loss e') = length (e_stream_loss e) ->
  e_stream_loss_offset e' = e_stream_loss_offset e -> wf_owing owed e -> wf_owing owed e'.
Proof.
  intros F Q L O []. frames. unfold bandwidth_ok, limit_wf in *.
  assert (Ha : length (e_rngs e') = length (e_rngs e)).
  { rewrite <- (length_map fst (e_rngs e')), <- (length_map fst (e_rngs e)). congruence. }
  split; unfold bandwidth_ok, limit_wf; try congruence; try lia; try (destruct wf_timers as (? & ? & ?); repeat split; congruence).
  - destruct (e_remaining_limit e') as [[r i]|] eqn:Er; [|done].
    replace (e_remaining_limit e) with (Some (r, i)) in wf_limit by congruence.
    destruct wf_limit as [? Hz]. split; [done|]. intros Hr0. specialize (Hz Hr0). congruence.
  - destruct wf_ledger. split; try congruence; lia.
Qed.

Lemma wf_pushed owed now data e owned l s e' :
  push_preserve_run now data e = (owned, l, s, e') -> zlen data <= free_capacity e ->
  wf_owing owed e ->
  owned = zlen data /\ wf_owing (owed + zlen data) e'
  /\ pipe_frame e' = pipe_frame e /\ loss_frame e' = loss_frame e
  /\ e_buffered e' = e_buffered e + zlen data
  /\ exists segs, e_queue e' = e_queue e ++ segs /\ queue_bytes segs = data
       /\ Forall (queued_from now) segs.
Proof.
  intros H Hc Hw. destruct (Hw) as [].
  pose proof (zlen_nonneg data). unfold free_capacity, sat_sub in Hc.
  apply push_preserve_run_spec in H; [|done|lia|lia].
  destruct H as (-> & (segs & Q & Qb & Qf) & B & W & F & G & O). split; [done|].
  split; [|repeat split; auto; exists segs; done].
  frames. unfold limit_wf in *.
  assert (Ha : length (e_rngs e') = length (e_rngs e)).
  { rewrite <- (length_map fst (e_rngs e')), <- (length_map fst (e_rngs e)). congruence. }
  split; unfold limit_wf; try congruence; try lia; try (destruct wf_timers as (? & ? & ?); repeat split; congruence).
  - rewrite B, Q, queue_bytes_app, zlen_app, Qb. lia.
  - rewrite Q. apply Forall_app. split; [done|]. eapply Forall_impl; [exact Qf|]. by intros q [? _].
  - destruct (e_remaining_limit e') as [[r i]|] eqn:Er; [|done].
    replace (e_remaining_limit e) with (Some (r, i)) in wf_limit by congruence.
    destruct wf_limit as [? Hz]. split; [done|]. intros Hr0. specialize (Hz Hr0). congruence.
  - destruct wf_ledger as [? ? ? LB]. split; [congruence..|].
    replace (v_bytes_accepted (e_evidence e')) with (v_bytes_accepted (e_evidence e)) by congruence.
    replace (v_bytes_forwarded (e_evidence e')) with (v_bytes_forwarded (e_evidence e)) by congruence.
    replace (v_bytes_discarded (e_evidence e')) with (v_bytes_discarded (e_evidence e)) by congruence.
    intros HA. lia.
Qed.

(** ** The loop *)

(** What a run of [loss_loop] from [r, e] to [r', e'] did to the accounting. *)
Record loop_effect (owed : Z) (now : Instant) (data : bytes) (r r' : LossRun)
    (e e' : DirectionEngine) (n : Z) (segs : list Queued) : Prop := {
  le_taken : 0 <= n <= zlen data;
  le_offset : lr_offset r' = lr_offset r + n;
  le_preserved : lr_preserved r' = lr_preserved r + zlen (queue_bytes segs);
  le_discarded : lr_discarded r' = lr_discarded r + (n - zlen (queue_bytes segs));
  le_kept : zlen (queue_bytes segs) <= n;
  le_wf : wf_owing (owed + zlen (queue_bytes segs)) e';
  le_frame : pipe_frame e' = pipe_frame e;
  le_queue : e_queue e' = e_queue e ++ segs;
  le_from : Forall (queued_from now) segs
}.

(** What it did to the bytes, for an engine following [seeds]. *)
Record loop_result (seeds : list (option DeterministicRng)) (data : bytes)
    (e e' : DirectionEngine) (n : Z) (segs : list Queued) : Prop := {
  lf_ok : loss_ok seeds e';
  lf_offset : e_stream_loss_offset e' = e_stream_loss_offset e + n;
  lf_bytes : queue_bytes segs = survivors (engine_lost seeds e) (e_stream_loss_offset e) (ztake n data);
  lf_stop : n < zlen data -> free_capacity e' = 0
    /\ engine_lost seeds e ((e_stream_loss_offset e + n) / STREAM_LOSS_GRAIN_BYTES) = false
}.

Lemma loop_effect_nil owed now data r e : wf_owing owed e -> loop_effect owed now data r r e e 0 [].
Proof.
  intros H. pose proof (zlen_nonneg data).
  split; cbn; rewrite ?Z.add_0_r, ?app_nil_r; try done; try lia; try constructor.
Qed.

Lemma loop_effect_trans owed now d1 d2 r0 r1 r2 e0 e1 e2 n1 n2 s1 s2 :
  n1 = zlen d1 ->
  loop_effect owed now d1 r0 r1 e0 e1 n1 s1 ->
  loop_effect (owed + zlen (queue_bytes s1)) now d2 r1 r2 e1 e2 n2 s2 ->
  loop_effect owed now (d1 ++ d2) r0 r2 e0 e2 (n1 + n2) (s1 ++ s2).
Proof.
  intros -> [] []. split; rewrite ?queue_bytes_app, ?zlen_app; try lia; try congruence.
  - by rewrite Z.add_assoc.
  - by rewrite le_queue1, le_queue0, app_assoc.
  - by apply Forall_app.
Qed.

Lemma loop_result_trans seeds d1 d2 e0 e1 e2 n1 n2 s1 s2 :
  n1 = zlen d1 -> 0 <= n2 -> e_plan e1 = e_plan e0 ->
  loop_result seeds d1 e0 e1 n1 s1 -> loop_result seeds d2 e1 e2 n2 s2 ->
  loop_result seeds (d1 ++ d2) e0 e2 (n1 + n2) (s1 ++ s2).
Proof.
  intros -> Hn Hp [] []. unfold engine_lost in *. rewrite Hp in *. split; rewrite ?queue_bytes_app; try done; try lia.
  - rewrite lf_bytes0, lf_bytes1, lf_offset0. rewrite (ztake_all (zlen d1) d1) by lia.
    rewrite ztake_app_r, survivors_app by lia. do 3 f_equal. lia.
  - rewrite zlen_app. intros H. rewrite Z.add_assoc, <- lf_offset0. apply lf_stop1. lia.
Qed.

(** The run of one iteration stays within one chunk. *)
Definition chunk_run (e : DirectionEngine) (data : bytes) : Z :=
  let chunk := e_stream_loss_offset e / STREAM_LOSS_GRAIN_BYTES in
  let chunk_end := if (chunk + 1) * STREAM_LOSS_GRAIN_BYTES <=? U64_MAX
                   then (chunk + 1) * STREAM_LOSS_GRAIN_BYTES else U64_MAX in
  Z.min (sat_sub chunk_end (e_stream_loss_offset e)) (zlen data).

Lemma chunk_run_bounds e data : 0 <= e_stream_loss_offset e ->
  let chunk := e_stream_loss_offset e / STREAM_LOSS_GRAIN_BYTES in
  0 <= chunk_run e data <= zlen data
  /\ chunk * STREAM_LOSS_GRAIN_BYTES <= e_stream_loss_offset e
  /\ (e_stream_loss_offset e < U64_MAX -> chunk < U64_MAX)
  /\ (e_stream_loss_offset e + chunk_run e data <= (chunk + 1) * STREAM_LOSS_GRAIN_BYTES \/ chunk_run e data = 0)
  /\ (0 < zlen data -> e_stream_loss_offset e < U64_MAX -> 0 < chunk_run e data).
Proof.
  intros Ho. unfold chunk_run. cbv zeta. pose proof (zlen_nonneg data).
  pose proof (Z.div_mod (e_stream_loss_offset e) STREAM_LOSS_GRAIN_BYTES ltac:(discriminate)) as Hd.
  pose proof (Z.mod_pos_bound (e_stream_loss_offset e) STREAM_LOSS_GRAIN_BYTES ltac:(reflexivity)) as Hm.
  set (c := e_stream_loss_offset e / STREAM_LOSS_GRAIN_BYTES) in *.
  set (o := e_stream_loss_offset e) in *. unfold STREAM_LOSS_GRAIN_BYTES, sat_sub in *.
  destruct (Z.leb_spec ((c + 1) * (32 * 1024)) U64_MAX); repeat split; lia.
Qed.

(** One decision, for the accounting and for the reference semantics. *)
Lemma decide_chunk_effect owed now data r e d e' :
  decide_stream_loss_chunk (e_stream_loss_offset e / STREAM_LOSS_GRAIN_BYTES) e = (d, e') ->
  wf_owing owed e -> loop_effect owed now data r r e e' 0 [].
Proof.
  intros H Hw. apply decide_chunk_frames in H. destruct H as (F & Q & O & D).
  assert (Hl : length (e_stream_loss e') = length (e_stream_loss e)).
  { pose proof (decide_all_length (faults (e_plan e)) (e_stream_loss e)
      (e_stream_loss_offset e / STREAM_LOSS_GRAIN_BYTES)) as L. by rewrite <- D in L. }
  pose proof (wf_same_frames owed e e' F Q Hl O Hw) as Hw'. pose proof (zlen_nonneg data).
  split; cbn; rewrite ?Z.add_0_r, ?app_nil_r; try done; try lia; try constructor. by injection Q.
Qed.

Lemma decide_chunk_result seeds e d e' :
  decide_stream_loss_chunk (e_stream_loss_offset e / STREAM_LOSS_GRAIN_BYTES) e = (d, e') ->
  loss_ok seeds e -> e_stream_loss_offset e < U64_MAX ->
  d = engine_lost seeds e (e_stream_loss_offset e / STREAM_LOSS_GRAIN_BYTES)
  /\ loss_ok seeds e' /\ e_stream_loss_offset e' = e_stream_loss_offset e /\ e_plan e' = e_plan e.
Proof.
  intros H [Ho Hr] Hlt. apply decide_chunk_frames in H. destruct H as (F & _ & O & D).
  set (chunk := e_stream_loss_offset e / STREAM_LOSS_GRAIN_BYTES) in *.
  assert (Hc : 0 <= chunk < U64_MAX).
  { destruct (chunk_run_bounds e [] Ho) as (_ & _ & B & _). split; [apply Z.div_pos; [done|reflexivity]|by apply B]. }
  destruct (decide_all_spec chunk chunk ltac:(lia) ltac:(lia) _ _ _ Hr) as (sts' & E & R).
  rewrite E in D. injection D as D1 D2. assert (Hp : e_plan e' = e_plan e) by (frames; done).
  split; [done|]. split; [|done]. unfold loss_ok. rewrite O, Hp. split; [done|].
  change (e_stream_loss_offset e / STREAM_LOSS_GRAIN_BYTES) with chunk. by rewrite D2.
Qed.

(** Moving the offset forward within the decided chunk. *)
Lemma loss_ok_advance seeds e n : loss_ok seeds e -> 0 <= n ->
  loss_ok seeds (set_e_stream_loss_offset (e_stream_loss_offset e + n) e).
Proof.
  intros [Ho Hr] Hn. split; cbn; [lia|].
  assert (e_stream_loss_offset e / STREAM_LOSS_GRAIN_BYTES
          <= (e_stream_loss_offset e + n) / STREAM_LOSS_GRAIN_BYTES)
    by (apply Z.div_le_mono; [reflexivity|lia]).
  eapply Forall3_impl; [exact Hr|]. intros f s c. by apply conn_rel_mono.
Qed.

Lemma wf_set_offset owed n e : 0 <= n -> wf_owing owed e -> wf_owing owed (set_e_stream_loss_offset n e).
Proof. intros ? []. by split. Qed.

Lemma sat_add64_nonneg a b : 0 <= a -> 0 <= b -> 0 <= sat_add64 a b.
Proof. unfold sat_add, U64_MAX. lia. Qed.

Lemma zlen_ztake_le {A} n (l : list A) : 0 <= n <= zlen l -> zlen (ztake n l) = n.
Proof. intros. rewrite zlen_ztake; lia. Qed.

(** A dropped run. *)
Definition drop_run (run : Z) (e : DirectionEngine) : DirectionEngine :=
  add_segments 1 (set_e_stream_loss_offset (sat_add64 (e_stream_loss_offset e) run) e).
Definition note_drop (run : Z) (r : LossRun) : LossRun :=
  {| lr_offset := lr_offset r + run; lr_discarded := sat_add64 (lr_discarded r) run;
     lr_preserved := lr_preserved r; lr_latency := lr_latency r; lr_slice := lr_slice r |}.

Lemma drop_run_effect owed now data r e run : wf_owing owed e -> zlen data = run ->
  lr_discarded r + run <= U64_MAX ->
  loop_effect owed now data r (note_drop run r) e (drop_run run e) run [].
Proof.
  intros Hw Hd Hs. pose proof (zlen_nonneg data).
  split; cbn [note_drop lr_offset lr_discarded lr_preserved]; rewrite ?app_nil_r; try done; try lia.
  - change (zlen (queue_bytes [])) with 0. lia.
  - change (zlen (queue_bytes [])) with 0. unfold sat_add. lia.
  - change (zlen (queue_bytes [])) with 0. lia.
  - change (zlen (queue_bytes [])) with 0. rewrite Z.add_0_r. apply wf_add_segments, wf_set_offset; [|done].
    apply sat_add64_nonneg; [apply (wf_offset _ _ Hw)|lia].
Qed.

Lemma drop_run_result seeds data e run : loss_ok seeds e -> zlen data = run ->
  e_stream_loss_offset e + run < U64_MAX ->
  (let chunk := e_stream_loss_offset e / STREAM_LOSS_GRAIN_BYTES in
   engine_lost seeds e chunk = true /\ chunk * STREAM_LOSS_GRAIN_BYTES <= e_stream_loss_offset e
   /\ e_stream_loss_offset e + run <= (chunk + 1) * STREAM_LOSS_GRAIN_BYTES) ->
  loop_result seeds data e (drop_run run e) run [].
Proof.
  intros Hok Hd Hlt (Hl & H1 & H2). pose proof (zlen_nonneg data).
  assert (Es : sat_add64 (e_stream_loss_offset e) run = e_stream_loss_offset e + run) by (unfold sat_add; lia).
  unfold drop_run. rewrite Es. split.
  - pose proof (loss_ok_advance seeds e run Hok ltac:(lia)) as [A B]. by split.
  - done.
  - rewrite ztake_all by lia. rewrite (survivors_same_chunk _ _ data _ H1) by lia. by rewrite Hl.
  - lia.
Qed.

(** A preserved run. *)
Definition note_keep (owned : Z) (latency slice : bool) (r : LossRun) : LossRun :=
  {| lr_offset := lr_offset r + owned; lr_discarded := lr_discarded r;
     lr_preserved := lr_preserved r + owned;
     lr_latency := lr_latency r || latency; lr_slice := lr_slice r || slice |}.
Definition keep_run (owned : Z) (e : DirectionEngine) : DirectionEngine :=
  set_e_stream_loss_offset (sat_add64 (e_stream_loss_offset e) owned) e.

Lemma keep_run_effect owed now data r e owned l s e' : wf_owing owed e ->
  zlen data <= free_capacity e -> push_preserve_run now data e = (owned, l, s, e') ->
  exists segs, loop_effect owed now data r (note_keep owned l s r) e (keep_run owned e') owned segs
  /\ owned = zlen data /\ queue_bytes segs = data /\ loss_frame e' = loss_frame e /\ e_plan e' = e_plan e.
Proof.
  intros Hw Hc H. destruct (wf_pushed _ _ _ _ _ _ _ _ H Hc Hw) as (-> & W & F & L & B & segs & Q & Qb & Qf).
  exists segs. pose proof (zlen_nonneg data). split; [|split; [done|split; [done|split; [done|by frames]]]].
  split; cbn [note_keep lr_offset lr_discarded lr_preserved]; rewrite ?Qb; try done; try lia.
  apply wf_set_offset; [|done]. apply sat_add64_nonneg; [apply (wf_offset _ _ W)|lia].
Qed.

Lemma keep_run_result seeds data e owned e' segs : loss_ok seeds e -> owned = zlen data ->
  queue_bytes segs = data -> loss_frame e' = loss_frame e -> e_plan e' = e_plan e ->
  e_stream_loss_offset e + owned < U64_MAX ->
  (let chunk := e_stream_loss_offset e / STREAM_LOSS_GRAIN_BYTES in
   engine_lost seeds e chunk = false /\ chunk * STREAM_LOSS_GRAIN_BYTES <= e_stream_loss_offset e
   /\ e_stream_loss_offset e + owned <= (chunk + 1) * STREAM_LOSS_GRAIN_BYTES) ->
  loop_result seeds data e (keep_run owned e') owned segs.
Proof.
  intros Hok -> Hq Hf Hp Hlt (Hl & H1 & H2). pose proof (zlen_nonneg data). frames.
  assert (Es : sat_add64 (e_stream_loss_offset e') (zlen data) = e_stream_loss_offset e' + zlen data)
    by (unfold sat_add; lia).
  unfold keep_run. rewrite Es. split.
  - apply loss_ok_advance; [|lia]. unfold loss_ok in *. congruence.
  - cbn. lia.
  - rewrite Hq, ztake_all by lia. rewrite (survivors_same_chunk _ _ data _ H1) by lia. by rewrite Hl.
  - lia.
Qed.

Lemma loss_loop_unfold fuel now data r e : data <> [] ->
  loss_loop (S fuel) now data r e =
  let run := chunk_run e data in
  if run =? 0 then (r, e)
  else
    let '(drop, e1) := decide_stream_loss_chunk (e_stream_loss_offset e / STREAM_LOSS_GRAIN_BYTES) e in
    if drop then loss_loop fuel now (zdrop run data) (note_drop run r) (drop_run run e1)
    else
      let run := Z.min run (free_capacity e1) in
      if run =? 0 then (r, e1)
      else
        let '(owned, latency, slice, e2) := push_preserve_run now (ztake run data) e1 in
        if owned <? run then (note_keep owned latency slice r, keep_run owned e2)
        else loss_loop fuel now (zdrop run data) (note_keep owned latency slice r) (keep_run owned e2).
Proof. by destruct data. Qed.

Lemma loop_effect_after owed now data r e e1 r2 e2 n segs :
  loop_effect owed now data r r e e1 0 [] -> loop_effect owed now data r r2 e1 e2 n segs ->
  loop_effect owed now data r r2 e e2 n segs.
Proof.
  intros [] []. split; try done; try congruence. rewrite le_queue1, le_queue0. by rewrite app_nil_r.
Qed.

(** The result of a decision seen from before it. *)
Lemma loop_result_after seeds data e e1 e2 n segs : e_plan e1 = e_plan e ->
  e_stream_loss_offset e1 = e_stream_loss_offset e ->
  loop_result seeds data e1 e2 n segs -> loop_result seeds data e e2 n segs.
Proof. intros Hp Ho []. unfold engine_lost in *. rewrite Hp, Ho in *. by split. Qed.

Lemma loop_effect_chain owed now run data r0 r1 r2 e0 e1 e2 n2 s1 s2 :
  0 <= run <= zlen data ->
  loop_effect owed now (ztake run data) r0 r1 e0 e1 run s1 ->
  loop_effect (owed + zlen (queue_bytes s1)) now (zdrop run data) r1 r2 e1 e2 n2 s2 ->
  loop_effect owed now data r0 r2 e0 e2 (run + n2) (s1 ++ s2).
Proof.
  intros Hr H1 H2. rewrite <- (ztake_zdrop run data) at 1.
  refine (loop_effect_trans _ _ _ _ _ _ _ _ _ _ _ _ _ _ _ H1 H2). by rewrite zlen_ztake_le.
Qed.

Lemma loop_result_chain seeds run data e0 e1 e2 n2 s1 s2 :
  0 <= run <= zlen data -> 0 <= n2 -> e_plan e1 = e_plan e0 ->
  loop_result seeds (ztake run data) e0 e1 run s1 -> loop_result seeds (zdrop run data) e1 e2 n2 s2 ->
  loop_result seeds data e0 e2 (run + n2) (s1 ++ s2).
Proof.
  intros Hr Hn Hp H1 H2. rewrite <- (ztake_zdrop run data) at 1.
  refine (loop_result_trans _ _ _ _ _ _ _ _ _ _ _ Hn Hp H1 H2). by rewrite zlen_ztake_le.
Qed.

Lemma loss_loop_spec fuel : forall now data r e r' e' owed,
  loss_loop fuel now data r e = (r', e') -> (length data <= fuel)%nat ->
  wf_owing owed e -> lr_discarded r + zlen data <= U64_MAX ->
  exists n segs, loop_effect owed now data r r' e e' n segs
  /\ (forall seeds, loss_ok seeds e -> e_stream_loss_offset e + zlen data < U64_MAX ->
        loop_result seeds data e e' n segs).
Proof.
  induction fuel as [|fuel IH]; intros now data r e r' e' owed H Hf Hw Hd.
  all: pose proof (wf_offset _ _ Hw) as Ho.
  { destruct data; [|cbn in Hf; lia]. injection H as <- <-. exists 0, [].
    split; [by apply loop_effect_nil|]. intros seeds Hs Hlt. split; try done; cbn; lia. }
  destruct (decide (data = [])) as [->|Hne].
  { injection H as <- <-. exists 0, []. split; [by apply loop_effect_nil|].
    intros seeds Hs Hlt. split; try done; cbn; lia. }
  rewrite loss_loop_unfold in H by done. cbv zeta in H.
  destruct (chunk_run_bounds e data Ho) as (Hr & Hc1 & Hc2 & Hc3 & Hc4). cbv zeta in *.
  assert (Hpos : 0 < zlen data).
  { destruct data; [done|]. rewrite zlen_cons. pose proof (zlen_nonneg data). lia. }
  destruct (chunk_run e data =? 0) eqn:E0; bools.
  { injection H as <- <-. exists 0, []. split; [by apply loop_effect_nil|]. intros; lia. }
  set (run := chunk_run e data) in *.
  destruct (decide_stream_loss_chunk _ e) as [drop e1] eqn:Ed.
  pose proof (fun d => decide_chunk_effect owed now d r _ _ _ Ed Hw) as Edec.
  assert (Hw1 : wf_owing owed e1).
  { pose proof (le_wf _ _ _ _ _ _ _ _ _ (Edec data)) as W. cbn in W. by rewrite Z.add_0_r in W. }
  assert (Ho1 : e_stream_loss_offset e1 = e_stream_loss_offset e /\ e_plan e1 = e_plan e).
  { apply decide_chunk_frames in Ed. destruct Ed as (F & _ & O & _). frames. done. }
  destruct Ho1 as [Ho1 Hp1].
  destruct drop.
  - (* dropped *)
    assert (Hlen : zlen (ztake run data) = run) by (apply zlen_ztake_le; lia).
    pose proof (drop_run_effect owed now (ztake run data) r e1 run Hw1 Hlen ltac:(lia)) as D1.
    apply (loop_effect_after _ _ _ _ _ _ _ _ _ _ (Edec _)) in D1.
    apply IH with (owed := owed) in H.
    + destruct H as (n & segs & D2 & R2). exists (run + n), segs. split.
      * refine (loop_effect_chain _ _ _ _ _ _ _ _ _ _ _ [] _ _ D1 _); [lia|].
        cbn. rewrite Z.add_0_r. exact D2.
      * intros seeds Hok Hlt. destruct (decide_chunk_result seeds _ _ _ Ed Hok ltac:(lia)) as (Hl & Hok1 & _ & _).
        assert (R1 : loop_result seeds (ztake run data) e (drop_run run e1) run []).
        { apply (loop_result_after _ _ _ e1); [done|done|].
          apply drop_run_result; rewrite ?Ho1; try done; [lia|]. cbv zeta.
          unfold engine_lost in *. rewrite Hp1. split; [done|lia]. }
        refine (loop_result_chain _ _ _ _ _ _ _ [] _ _ _ _ R1 (R2 seeds _ _)); [lia|exact (proj1 (le_taken _ _ _ _ _ _ _ _ _ D2))|done|exact (lf_ok _ _ _ _ _ _ R1)|].
        rewrite (lf_offset _ _ _ _ _ _ R1), zlen_zdrop by lia. lia.
    + assert (zlen (zdrop run data) = zlen data - run) by (rewrite zlen_zdrop; lia). unfold zlen in *; lia.
    + pose proof (le_wf _ _ _ _ _ _ _ _ _ D1) as W. cbn in W. by rewrite Z.add_0_r in W.
    + rewrite zlen_zdrop by lia. cbn [note_drop lr_discarded]. unfold sat_add. lia.
  - (* preserved *)
    set (run' := Z.min run (free_capacity e1)) in *.
    assert (Hf1 : 0 <= free_capacity e1) by (unfold free_capacity, sat_sub; lia).
    destruct (run' =? 0) eqn:E1; bools.
    { injection H as <- <-. exists 0, []. split; [apply Edec|]. intros seeds Hok Hlt.
      destruct (decide_chunk_result seeds _ _ _ Ed Hok ltac:(lia)) as (Hl & Hok1 & _ & _).
      split; rewrite ?Z.add_0_r; try done. intros _. split; [lia|]. by rewrite Hl. }
    assert (Hlen : zlen (ztake run' data) = run') by (apply zlen_ztake_le; lia).
    destruct (push_preserve_run now (ztake run' data) e1) as [[[owned l] s] e2] eqn:Ep.
    destruct (keep_run_effect owed now (ztake run' data) r e1 owned l s e2 Hw1 ltac:(lia) Ep)
      as (segs1 & D1 & -> & Hq & Hlf & Hp2).
    rewrite Hlen in *. rewrite Z.ltb_irrefl in H.
    apply (loop_effect_after _ _ _ _ _ _ _ _ _ _ (Edec _)) in D1.
    apply IH with (owed := owed + zlen (queue_bytes segs1)) in H.
    + destruct H as (n & segs & D2 & R2). exists (run' + n), (segs1 ++ segs). split.
      * refine (loop_effect_chain _ _ _ _ _ _ _ _ _ _ _ _ _ _ D1 D2). lia.
      * intros seeds Hok Hlt. destruct (decide_chunk_result seeds _ _ _ Ed Hok ltac:(lia)) as (Hl & Hok1 & _ & _).
        assert (R1 : loop_result seeds (ztake run' data) e (keep_run run' e2) run' segs1).
        { apply (loop_result_after _ _ _ e1); [done|done|].
          apply keep_run_result; rewrite ?Ho1; try done; [lia|]. cbv zeta.
          unfold engine_lost in *. rewrite Hp1. split; [done|lia]. }
        refine (loop_result_chain _ _ _ _ _ _ _ _ _ _ _ _ R1 (R2 seeds _ _)); [lia|exact (proj1 (le_taken _ _ _ _ _ _ _ _ _ D2))|by rewrite <- Hp1|exact (lf_ok _ _ _ _ _ _ R1)|].
        rewrite (lf_offset _ _ _ _ _ _ R1), zlen_zdrop by lia. lia.
    + assert (zlen (zdrop run' data) = zlen data - run') by (rewrite zlen_zdrop; lia). unfold zlen in *; lia.
    + apply (le_wf _ _ _ _ _ _ _ _ _ D1).
    + rewrite zlen_zdrop by lia. cbn [note_keep lr_discarded]. lia.
Qed.
