(* ===== verification/AcceptSpec.v ===== *)
(** * What [accept] and [accept_vectored] do

    One specification lemma per path (preserving, blackhole, stream loss), then
    the properties of the calls. *)

From Stdlib Require Import Bool.
From stdpp Require Import base list strings.
From S2P Require Import Prelude Rng Float64 Plan Env TokenBucket EngineState Engine Accept.
From S2P Require Import Drain EngineInv Loss.

(** ** Fields no [accept] changes, and the effect on the byte limit *)

Definition static_frame (e : DirectionEngine) :=
  (e_plan e, e_direction e, e_max_buffer e, e_blackhole e, e_disconnect e, e_slow_close e,
   e_shutdown_deadline e, (e_queue_timer e, e_term_timer e, e_shutdown_timer e), e_slicer_active e).

(** [n] bytes charged to the limit: it terminates exactly at exhaustion. *)
Definition limit_effect (n : Z) (e e' : DirectionEngine) : Prop :=
  match e_remaining_limit e with
  | None => e_remaining_limit e' = None /\ e_termination e' = e_termination e
  | Some (r, id) =>
      n <= r /\ e_remaining_limit e' = Some (r - n, id)
      /\ e_termination e' = if r - n =? 0 then Some (default (graceful_info e id) (e_termination e))
                            else e_termination e
  end.

Lemma limit_effect_none e : limit_wf e -> limit_effect 0 e e.
Proof.
  unfold limit_effect, limit_wf. destruct (e_remaining_limit e) as [[r id]|]; [|done].
  intros [H0 H1]. rewrite Z.sub_0_r. split; [lia|]. split; [done|].
  destruct (Z.eqb_spec r 0) as [->|]; [|done]. by destruct (e_termination e); [|destruct H1].
Qed.

Lemma charge_limit_shape n e : limit_wf e -> 0 <= n <= limit_available e ->
  exists v h t l, charge_limit n e
    = set_e_evidence v (set_e_term_handle h (set_e_termination t (set_e_remaining_limit l e)))
  /\ v_counts v = v_counts (e_evidence e)
  /\ limit_effect n e (charge_limit n e).
Proof.
  unfold charge_limit, limit_wf, limit_effect, limit_available.
  destruct (e_remaining_limit e) as [[r id]|] eqn:Er; intros Hw Hn.
  - assert (Es : sat_sub r n = r - n) by (unfold sat_sub; lia). rewrite Es.
    destruct (Z.eqb_spec (r - n) 0) as [E0|E0].
    + destruct (publish_counted_shape (graceful_info (set_e_remaining_limit (Some (r - n, id)) e) id) 3
        (set_e_remaining_limit (Some (r - n, id)) e)) as (v & -> & Hc & _).
      do 4 eexists. split; [reflexivity|]. split; [exact Hc|]. cbn. split; [lia|]. by rewrite E0.
    + exists (e_evidence e), (e_term_handle e), (e_termination e), (Some (r - n, id)).
      destruct e; cbn in *. split; [done|]. split; [done|]. split; [lia|done].
  - exists (e_evidence e), (e_term_handle e), (e_termination e), (e_remaining_limit e).
    by destruct e; cbn in *.
Qed.

(** Everything an accounting step leaves alone. *)
Definition settled_frame (e : DirectionEngine) :=
  (static_frame e, e_queue e, e_buffered e, e_high_water e, e_rngs e, e_bandwidth e,
   (e_stream_loss e, e_stream_loss_offset e, e_stream_loss_evaluated e)).

Lemma settled_parts e e' : settled_frame e' = settled_frame e ->
  static_frame e' = static_frame e /\ e_queue e' = e_queue e /\ e_buffered e' = e_buffered e
  /\ (e_stream_loss e', e_stream_loss_offset e') = (e_stream_loss e, e_stream_loss_offset e).
Proof.
  unfold settled_frame. intros H. do 6 (apply pair_equal_spec in H as [H ?]).
  do 3 (split; [done|]). congruence.
Qed.

Lemma counts_parts v v' : v_counts v' = v_counts v ->
  v_bytes_accepted v' = v_bytes_accepted v /\ v_bytes_forwarded v' = v_bytes_forwarded v
  /\ v_bytes_discarded v' = v_bytes_discarded v.
Proof. by intros [= -> -> ->]. Qed.

(** The pipeline leaves the static fields alone. *)
Lemma pipe_static e e' : pipe_frame e' = pipe_frame e ->
  static_frame e' = static_frame e /\ e_remaining_limit e' = e_remaining_limit e
  /\ e_termination e' = e_termination e /\ e_direction e' = e_direction e
  /\ v_bytes_accepted (e_evidence e') = v_bytes_accepted (e_evidence e)
  /\ v_bytes_forwarded (e_evidence e') = v_bytes_forwarded (e_evidence e)
  /\ v_bytes_discarded (e_evidence e') = v_bytes_discarded (e_evidence e).
Proof. intros F. frames. unfold static_frame. repeat split; congruence. Qed.

Lemma charge_limit_frame n e : limit_wf e -> 0 <= n <= limit_available e ->
  settled_frame (charge_limit n e) = settled_frame e.
Proof.
  intros Hw Hn. destruct (charge_limit_shape n e Hw Hn) as (v & h & t & l & -> & _). by destruct e.
Qed.

Lemma publish_counted_frame info slot e :
  settled_frame (publish_counted info slot e) = settled_frame e
  /\ e_remaining_limit (publish_counted info slot e) = e_remaining_limit e
  /\ v_counts (e_evidence (publish_counted info slot e)) = v_counts (e_evidence e).
Proof. destruct (publish_counted_shape info slot e) as (v & -> & Hc & _). by destruct e. Qed.

Lemma refresh_frame now e :
  settled_frame (refresh_sync_terminations now e) = settled_frame e
  /\ e_remaining_limit (refresh_sync_terminations now e) = e_remaining_limit e
  /\ v_counts (e_evidence (refresh_sync_terminations now e)) = v_counts (e_evidence e).
Proof. destruct (refresh_shape now e) as [->|(i & s & -> & _)]; [done|apply publish_counted_frame]. Qed.

Lemma count_engaged_frame l e : settled_frame (count_engaged l e) = settled_frame e
  /\ e_remaining_limit (count_engaged l e) = e_remaining_limit e
  /\ e_termination (count_engaged l e) = e_termination e
  /\ v_counts (e_evidence (count_engaged l e)) = v_counts (e_evidence e)
  /\ e_direction (count_engaged l e) = e_direction e.
Proof. destruct (count_engaged_shape l e) as (v & -> & Hc & _). by destruct e. Qed.

(** ** The common end of an [accept]: count the bytes, the stages, the limit *)

Definition settle (n : Z) (engaged : DirectionEngine -> list nat) (e : DirectionEngine) : DirectionEngine :=
  let e := count_engaged (engaged e) e in charge_limit n e.

Lemma settle_spec owed n engaged e : wf_owing owed e -> 0 <= n <= limit_available e ->
  wf_owing owed (settle n engaged e) /\ settled_frame (settle n engaged e) = settled_frame e
  /\ limit_effect n e (settle n engaged e)
  /\ v_counts (e_evidence (settle n engaged e)) = v_counts (e_evidence e).
Proof.
  intros Hw Hn. unfold settle.
  destruct (count_engaged_frame (engaged e) e) as (F & L & T & V & D).
  pose proof (wf_count_engaged owed (engaged e) e Hw) as Hw1.
  set (e1 := count_engaged (engaged e) e) in *. clearbody e1.
  assert (Hn1 : 0 <= n <= limit_available e1) by (unfold limit_available in *; by rewrite L).
  destruct (charge_limit_shape n e1 (wf_limit _ _ Hw1) Hn1) as (v & h & t & l & E & Hc & Hl).
  split; [apply wf_charge_limit; [lia|done]|]. split; [rewrite <- F; apply charge_limit_frame; [apply (wf_limit _ _ Hw1)|done]|].
  split.
  - unfold limit_effect, graceful_info in *. by rewrite L, T, D in Hl.
  - rewrite E. cbn. by rewrite Hc.
Qed.

(** ** Outcome of one call *)

(** [n] bytes of [input] became the engine's; those in [segs] were queued and
    the others discarded. *)
Record accepted (now : Instant) (input : bytes) (n : Z) (segs : list Queued) (e e' : DirectionEngine)
    : Prop := {
  ac_wf : engine_wf e';
  ac_range : 0 <= n <= zlen input /\ n <= limit_available e;
  ac_static : static_frame e' = static_frame e;
  ac_limit : limit_effect n e e';
  ac_queue : e_queue e' = e_queue e ++ segs;
  ac_from : Forall (queued_from now) segs;
  ac_kept : zlen (queue_bytes segs) <= n;
  ac_counts : v_bytes_accepted (e_evidence e') = sat_add64 (v_bytes_accepted (e_evidence e)) n
    /\ v_bytes_forwarded (e_evidence e') = v_bytes_forwarded (e_evidence e)
    /\ v_bytes_discarded (e_evidence e')
       = sat_add64 (v_bytes_discarded (e_evidence e)) (n - zlen (queue_bytes segs))
}.

Lemma accepted_nothing now input e : engine_wf e -> accepted now input 0 [] e e.
Proof.
  intros Hw. pose proof (zlen_nonneg input). pose proof (wf_limit _ _ Hw) as Hl.
  destruct (wf_ledger _ _ Hw) as [A F D B].
  split; try done; rewrite ?app_nil_r; try done.
  - split; [lia|]. unfold limit_available, limit_wf in *.
    destruct (e_remaining_limit e) as [[r i]|]; [lia|unfold U64_MAX; lia].
  - by apply limit_effect_none.
  - change (zlen (queue_bytes [])) with 0. unfold sat_add. lia.
Qed.

Lemma limit_available_wf e : engine_wf e -> 0 <= limit_available e <= U64_MAX.
Proof.
  intros Hw. pose proof (wf_limit _ _ Hw) as Hl. unfold limit_available, limit_wf in *.
  destruct (e_remaining_limit e) as [[r i]|]; [lia|unfold U64_MAX; lia].
Qed.

(** ** The preserving path *)

Lemma accept_preserving_spec now input cap e : engine_wf e ->
  cap = Z.min (Z.min (zlen input) (limit_available e)) (free_capacity e) ->
  exists segs e', accept_preserving input cap now e = (cap, e')
  /\ accepted now input cap segs e e' /\ queue_bytes segs = ztake cap input
  /\ (e_stream_loss e', e_stream_loss_offset e') = (e_stream_loss e, e_stream_loss_offset e).
Proof.
  intros Hw Hcap. pose proof (zlen_nonneg input). pose proof (limit_available_wf e Hw).
  assert (0 <= free_capacity e) by (unfold free_capacity, sat_sub; lia).
  unfold accept_preserving. destruct (Z.eqb_spec cap 0) as [E0|E0].
  { exists [], e. rewrite E0. split; [done|]. split; [by apply accepted_nothing|done]. }
  destruct (push_preserve_run now (ztake cap input) e) as [[[n l] s] e1] eqn:Ep.
  assert (Hlen : zlen (ztake cap input) = cap) by (apply zlen_ztake_le; lia).
  destruct (wf_pushed 0 _ _ _ _ _ _ _ Ep ltac:(lia) Hw) as (-> & W & F & L & B & segs & Q & Qb & Qf).
  rewrite Hlen in *. rewrite Z.add_0_l in W. destruct (Z.eqb_spec cap 0); [done|].
  apply (wf_add_accepted cap cap) in W; [|lia]. rewrite Z.sub_diag in W.
  destruct (pipe_static _ _ F) as (Fs & Hr & Ht & Hd & Va & Vf & Vd).
  destruct (settle_spec 0 cap accept_engaged (add_accepted cap e1) W) as (S1 & S2 & S3 & S4).
  { unfold limit_available. cbn. rewrite Hr. fold (limit_available e). lia. }
  exists segs, (settle cap accept_engaged (add_accepted cap e1)). split; [done|].
  destruct (settled_parts _ _ S2) as (Ss & Sq & _ & Sl).
  split; [|split; [done|]; rewrite Sl; unfold loss_frame in L; cbn; congruence]. destruct (counts_parts _ _ S4) as (Sa & Sf & Sd).
  split; rewrite ?Qb, ?Hlen; try done; try lia.
  - rewrite Ss. exact Fs.
  - unfold limit_effect, graceful_info in *. cbn in S3. by rewrite Hr, Ht, Hd in S3.
  - rewrite Sq. exact Q.
  - rewrite Sa, Sf, Sd, Z.sub_diag. cbn. rewrite Va, Vf, Vd.
    destruct (wf_ledger _ _ Hw). split; [done|]. split; [done|]. unfold sat_add. lia.
Qed.

(** ** The two destructive paths *)

Lemma add_discarded_accepted n d e : add_discarded d (add_accepted n e) = add_accepted n (add_discarded d e).
Proof. by destruct e as [? ? ? ? ? ? ? [] ? ? ? ? ? ? ? ? ? ? ? ? ? ? ? ?]. Qed.

(** [kept] queued bytes are owed; [n] are counted, [n - kept] as discarded. *)
Lemma wf_settle_discards n kept e : 0 <= kept <= n -> wf_owing kept e ->
  engine_wf (add_discarded (n - kept) (add_accepted n e)).
Proof.
  intros Hk Hw. rewrite add_discarded_accepted.
  apply (wf_add_discarded kept (n - kept)) in Hw; [|lia|lia].
  apply (wf_add_accepted (kept + (n - kept)) n) in Hw; [|lia].
  by replace (kept + (n - kept) - n) with 0 in Hw by lia.
Qed.

Lemma limit_effect_congr n e1 e e' : e_remaining_limit e1 = e_remaining_limit e ->
  e_termination e1 = e_termination e -> e_direction e1 = e_direction e ->
  limit_effect n e1 e' -> limit_effect n e e'.
Proof. unfold limit_effect, graceful_info. by intros -> -> ->. Qed.

Lemma limit_available_congr e1 e : e_remaining_limit e1 = e_remaining_limit e ->
  limit_available e1 = limit_available e.
Proof. unfold limit_available. by intros ->. Qed.

Lemma accept_loss_unfold input limit now e :
  accept_with_stream_loss input limit now e =
  let data := ztake (Z.min (zlen input) limit) input in
  let '(r, e1) := loss_loop (length data) now data
    {| lr_offset := 0; lr_discarded := 0; lr_preserved := 0; lr_latency := false; lr_slice := false |} e in
  if lr_offset r =? 0 then (0, e1)
  else (lr_offset r, settle (lr_offset r) (loss_engaged r)
         (add_loss_discarded (lr_discarded r) (add_discarded (lr_discarded r) (add_accepted (lr_offset r) e1)))).
Proof. reflexivity. Qed.

Lemma accept_loss_spec now input e n e' : engine_wf e ->
  accept_with_stream_loss input (limit_available e) now e = (n, e') ->
  exists segs, accepted now input n segs e e'
  /\ (forall seeds, loss_ok seeds e -> e_stream_loss_offset e + zlen input < U64_MAX ->
        let off := e_stream_loss_offset e in
        loss_ok seeds e' /\ e_stream_loss_offset e' = off + n
        /\ queue_bytes segs = survivors (engine_lost seeds e) off (ztake n input)
        /\ (n < Z.min (zlen input) (limit_available e) -> free_capacity e' = 0
              /\ engine_lost seeds e ((off + n) / STREAM_LOSS_GRAIN_BYTES) = false)).
Proof.
  intros Hw. pose proof (zlen_nonneg input). pose proof (limit_available_wf e Hw).
  rewrite accept_loss_unfold. cbv zeta. set (cap := Z.min (zlen input) (limit_available e)).
  assert (Hlen : zlen (ztake cap input) = cap) by (apply zlen_ztake_le; lia).
  destruct (loss_loop _ now (ztake cap input) _ e) as [r e1] eqn:El.
  apply (loss_loop_spec _ _ _ _ _ _ _ 0) in El; [|done|done|cbn; lia].
  destruct El as (m & segs & [L1 L2 L3 L4 L5 L6 L7 L8 L9] & Hres). cbn in L2, L3, L4.
  destruct (pipe_static _ _ L7) as (Fs & Hr & Ht & Hd & Va & Vf & Vd). rewrite Z.add_0_l in *.
  assert (Hm : lr_offset r = m) by lia. rewrite Hm. rewrite L4.
  assert (Htake : ztake m (ztake cap input) = ztake m input) by (rewrite ztake_ztake by lia; f_equal; lia).
  destruct (Z.eqb_spec m 0) as [E0|E0]; intros [= <- <-]; exists segs.
  - pose proof (zlen_nonneg (queue_bytes segs)). assert (Hk : zlen (queue_bytes segs) = 0) by lia.
    assert (Hs : segs = []).
    { destruct segs as [|q segs]; [done|]. rewrite queue_bytes_cons, zlen_app in Hk.
      apply Forall_cons in L9. destruct L9 as [[Hq _] _]. pose proof (zlen_nonneg (queue_bytes segs)).
      pose proof (zlen_nonneg (q_bytes q)). destruct Hq. apply zlen_zero_inv. lia. }
    subst segs. cbn in L6, L8. rewrite app_nil_r in L8. split.
    + split; rewrite ?app_nil_r; try done; try lia.
      * apply (limit_effect_congr _ e1); try done. apply limit_effect_none, (wf_limit _ _ L6).
      * rewrite Va, Vf, Vd. change (zlen (queue_bytes [])) with 0. destruct (wf_ledger _ _ Hw). unfold sat_add. lia.
    + intros seeds Hok Hlt. cbv zeta. destruct (Hres seeds Hok ltac:(lia)) as [R1 R2 R3 R4].
      rewrite E0 in *. rewrite Z.add_0_r in *. do 2 (split; [done|]). split; [done|]. rewrite Hlen in R4. exact R4.
  - apply (wf_settle_discards m) in L6; [|pose proof (zlen_nonneg (queue_bytes segs)); lia].
    apply (wf_add_loss_discarded 0 (m - zlen (queue_bytes segs))) in L6.
    set (e2 := add_loss_discarded _ _) in *.
    destruct (settle_spec 0 m (loss_engaged r) e2 L6) as (S1 & S2 & S3 & S4).
    { rewrite (limit_available_congr e2 e) by exact Hr. lia. }
    destruct (settled_parts _ _ S2) as (Ss & Sq & Sb & Sl). destruct (counts_parts _ _ S4) as (Sa & Sf & Sd).
    split.
    + split; try done; try lia.
      * rewrite Ss. exact Fs.
      * by apply (limit_effect_congr _ e2).
      * rewrite Sq. exact L8.
      * rewrite Sa, Sf, Sd. cbn. by rewrite Va, Vf, Vd.
    + intros seeds Hok Hlt. cbv zeta. destruct (Hres seeds Hok ltac:(lia)) as [R1 R2 R3 R4].
      rewrite Htake, Hlen in *. injection Sl as Sl1 Sl2.
      assert (Hp : e_plan (settle m (loss_engaged r) e2) = e_plan e1).
      { unfold static_frame in Ss. by injection Ss. }
      assert (Hfc : free_capacity (settle m (loss_engaged r) e2) = free_capacity e1).
      { unfold free_capacity. rewrite Sb. f_equal. unfold static_frame in Ss. by injection Ss. }
      split; [|split; [by rewrite Sl2|split; [done|by rewrite Hfc]]].
      unfold loss_ok in *. by rewrite Sl1, Sl2, Hp.
Qed.

Lemma accept_blackhole_unfold input e : limit_wf e -> 
  let cap := Z.min (zlen input) (limit_available e) in 0 <= cap ->
  accept_blackhole input (limit_available e) e =
  if cap =? 0 then (0, e)
  else (cap, charge_limit cap (bump_activation 2 (add_segments 1 (add_discarded cap (add_accepted cap e))))).
Proof.
  intros Hw cap Hc. unfold accept_blackhole. fold cap. destruct (cap =? 0) eqn:E0; [done|].
  f_equal. set (e1 := bump_activation 2 _). unfold charge_limit.
  assert (Hr : e_remaining_limit e1 = e_remaining_limit e) by done. rewrite Hr.
  destruct (e_remaining_limit e) as [[r id]|] eqn:Er; [|done].
  assert (Ea : limit_available e = r) by (unfold limit_available; by rewrite Er).
  assert (Es : sat_sub r cap = limit_available e - cap) by (unfold sat_sub; lia).
  by rewrite Es.
Qed.

Lemma accept_blackhole_spec now input e n e' : engine_wf e ->
  accept_blackhole input (limit_available e) e = (n, e') ->
  n = Z.min (zlen input) (limit_available e) /\ accepted now input n [] e e'.
Proof.
  intros Hw. pose proof (zlen_nonneg input). pose proof (limit_available_wf e Hw).
  rewrite accept_blackhole_unfold; [|apply (wf_limit _ _ Hw)|lia]. cbv zeta.
  set (cap := Z.min (zlen input) (limit_available e)) in *.
  destruct (Z.eqb_spec cap 0) as [E0|E0]; intros [= <- <-].
  { split; [lia|]. by apply accepted_nothing. }
  split; [done|].
  pose proof (wf_settle_discards cap 0 e ltac:(lia) Hw) as W. rewrite Z.sub_0_r in W.
  apply (wf_add_segments 0 1) in W.
  set (e1 := add_segments 1 _) in *.
  destruct (bump_activation_shape 2 e1) as (v & Eb & Hc & Ht & Hl).
  pose proof (wf_evidence 0 e1 v Hc Ht Hl W) as Wb. rewrite <- Eb in Wb.
  set (e2 := bump_activation 2 e1) in *.
  assert (Hr : e_remaining_limit e2 = e_remaining_limit e) by done.
  assert (Hlim : 0 <= cap <= limit_available e2) by (rewrite (limit_available_congr e2 e Hr); lia).
  destruct (charge_limit_shape cap e2 (wf_limit _ _ Wb) Hlim) as (v' & h & t & l & E & Hc' & Hle).
  destruct (settled_parts _ _ (charge_limit_frame cap e2 (wf_limit _ _ Wb) Hlim)) as (Ss & Sq & _).
  split; try done; try lia.
  - by apply wf_charge_limit; [lia|].
  - rewrite Sq, app_nil_r. done.
  - change (zlen (queue_bytes [])) with 0. lia.
  - rewrite E. cbn [e_evidence set_e_evidence]. destruct (counts_parts _ _ Hc') as (-> & -> & ->).
    change (zlen (queue_bytes [])) with 0. rewrite Z.sub_0_r. done.
Qed.

(** ** The whole call *)

(** The engine after the termination refresh that opens every call. *)
Definition refreshed (t0 : Instant) (e : DirectionEngine) : DirectionEngine :=
  refresh_sync_terminations t0 e.

(** Which path the call takes and how many bytes it then owns. *)
Inductive path := PIdle | PBlackhole | PLoss | PPreserve.
Definition accept_path (t2 : Instant) (input : bytes) (e : DirectionEngine) : path :=
  match input with
  | [] => PIdle
  | _ => if limit_available e =? 0 then PIdle
         else if blackhole_discarding t2 e then PBlackhole
         else if existsb is_some (e_stream_loss e) then PLoss else PPreserve
  end.

Lemma accept_at_cases t0 now t2 input e n e' :
  engine_wf e -> accept_at t0 now t2 input e = (n, e') ->
  let e1 := refreshed t0 e in
  engine_wf e1 /\
  match accept_path t2 input e1 with
  | PIdle => n = 0 /\ e' = e1
  | PBlackhole => accept_blackhole input (limit_available e1) e1 = (n, e')
  | PLoss => accept_with_stream_loss input (limit_available e1) now e1 = (n, e')
  | PPreserve => accept_preserving input
      (Z.min (Z.min (zlen input) (limit_available e1)) (free_capacity e1)) now e1 = (n, e')
  end.
Proof.
  intros Hw. unfold accept_at, refreshed, accept_path. pose proof (wf_refresh 0 t0 e Hw) as Hw1.
  set (e1 := refresh_sync_terminations t0 e) in *. clearbody e1. cbv zeta.
  destruct input as [|b input]; [intros [= <- <-]; done|].
  destruct (limit_available e1 =? 0) eqn:El.
  { pose proof (wf_limit _ _ Hw1) as Hl. unfold limit_available, limit_wf in *.
    destruct (e_remaining_limit e1) as [[r i]|]; [|done]. bools.
    destruct (e_termination e1); [intros [= <- <-]; done|]. by destruct (proj2 Hl). }
  destruct (blackhole_discarding t2 e1); [done|]. by destruct (existsb _ _).
Qed.

Lemma accept_at_accepted t0 now t2 input e n e' : engine_wf e ->
  accept_at t0 now t2 input e = (n, e') ->
  exists segs, accepted now input n segs (refreshed t0 e) e'.
Proof.
  intros Hw H. apply accept_at_cases in H as [Hw1 H]; [|done]. cbv zeta in *.
  destruct (accept_path _ _ _).
  - destruct H as [-> ->]. exists []. by apply accepted_nothing.
  - apply (accept_blackhole_spec now) in H as [_ H]; [by exists []|done].
  - apply accept_loss_spec in H as (segs & H & _); [by exists segs|done].
  - edestruct (accept_preserving_spec now input) as (segs & e2 & E & A & _ & _); [exact Hw1|reflexivity|].
    rewrite E in H. injection H as <- <-. by exists segs.
Qed.
