(* ===== verification/DrainSpec.v ===== *)
(** * What draining does

    The loop of [poll_queue] terminates, forwards a prefix of the queue in order
    and never a byte before its release time; [poll_shutdown] reaches the
    transport only after the queue is empty and the slow-close delay is over;
    [poll_due_termination] fires exactly at a deadline. *)

From Stdlib Require Import Bool.
From stdpp Require Import base list strings.
From S2P Require Import Prelude Rng Float64 Plan Env TokenBucket EngineState Engine Accept.
From S2P Require Import Drain EngineInv Loss AcceptSpec.

(** The bytes of the leading segments already due at [now]. *)
Fixpoint due_prefix (now : Instant) (q : list Queued) : bytes :=
  match q with
  | [] => []
  | front :: rest => if q_release front <=? now then q_bytes front ++ due_prefix now rest else []
  end.

Lemma due_prefix_mono a b q : a <= b -> due_prefix a q `prefix_of` due_prefix b q.
Proof.
  intros Hab. induction q as [|f q IH]; cbn; [done|].
  destruct (q_release f <=? a) eqn:Ea; bools; [|apply prefix_nil].
  rewrite (proj2 (Z.leb_le _ _)) by lia. by apply prefix_app.
Qed.

Lemma due_prefix_full now q : Forall (fun s => q_release s <= now) q -> due_prefix now q = queue_bytes q.
Proof.
  induction 1 as [|f q Hf _ IH]; [done|]. cbn. rewrite (proj2 (Z.leb_le _ _) Hf), IH. done.
Qed.

(** [w] went out by [now]: it is the front of the queue, and all of it was due. *)
Record sent (now : Instant) (w : bytes) (q q' : list Queued) : Prop := {
  st_split : queue_bytes q = w ++ queue_bytes q';
  st_rest : forall later, now <= later -> due_prefix later q = w ++ due_prefix later q'
}.

Lemma st_due now w q q' : sent now w q q' -> w `prefix_of` due_prefix now q.
Proof. intros [_ H]. rewrite (H now) by lia. by eexists. Qed.

Lemma sent_nil now q : sent now [] q q.
Proof. by split. Qed.

Lemma sent_mono a b w q q' : a <= b -> sent a w q q' -> sent b w q q'.
Proof. intros Hab [S R]. split; [done|]. intros later Hl. apply R. lia. Qed.

Lemma sent_trans now w1 w2 q1 q2 q3 : sent now w1 q1 q2 -> sent now w2 q2 q3 -> sent now (w1 ++ w2) q1 q3.
Proof.
  intros [A1 C1] [A2 C2]. split; [by rewrite A1, A2, app_assoc|].
  intros later Hl. by rewrite C1, C2, app_assoc.
Qed.

Lemma sent_front now front rest n : q_release front <= now -> 0 <= n <= zlen (q_bytes front) ->
  sent now (ztake n (q_bytes front)) (front :: rest)
    (if n =? zlen (q_bytes front) then rest
     else {| q_bytes := zdrop n (q_bytes front); q_release := q_release front |} :: rest).
Proof.
  intros Hr Hn. assert (S : forall k, q_bytes front ++ k = ztake n (q_bytes front) ++ zdrop n (q_bytes front) ++ k).
  { intros k. by rewrite app_assoc, ztake_zdrop. }
  split; [|intros later Hl; cbn [due_prefix]; rewrite (proj2 (Z.leb_le _ _)) by lia];
    (destruct (Z.eqb_spec n (zlen (q_bytes front))) as [E|E]; [by rewrite (ztake_all n) by lia|]).
  - apply S.
  - cbn [due_prefix q_release]. rewrite (proj2 (Z.leb_le _ _)) by lia. apply S.
Qed.

(** What draining leaves alone. *)
Definition drain_frame (e : DirectionEngine) :=
  (e_plan e, e_direction e, e_max_buffer e, e_high_water e, (e_termination e, e_term_handle e),
   (e_remaining_limit e, e_blackhole e, e_disconnect e, e_slow_close e, e_shutdown_deadline e),
   (e_rngs e, e_bandwidth e, e_slicer_active e, e_slice_cursor e),
   (e_stream_loss e, e_stream_loss_offset e, e_stream_loss_evaluated e),
   (v_bytes_accepted (e_evidence e), v_bytes_discarded (e_evidence e), v_activations (e_evidence e))).

Lemma wf_queue_timer owed e timer : timer_ok timer -> wf_owing owed e ->
  wf_owing owed (set_e_queue_timer timer e).
Proof. intros Ht []. split; cbn; try done. destruct wf_timers as (? & ? & ?). done. Qed.
Lemma wf_term_timer owed e timer : timer_ok timer -> wf_owing owed e ->
  wf_owing owed (set_e_term_timer timer e).
Proof. intros Ht []. split; cbn; try done. destruct wf_timers as (? & ? & ?). done. Qed.
Lemma wf_shutdown_timer owed e timer : timer_ok timer -> wf_owing owed e ->
  wf_owing owed (set_e_shutdown_timer timer e).
Proof. intros Ht []. split; cbn; try done. destruct wf_timers as (? & ? & ?). done. Qed.

(** Forwarding [n] bytes of the head. *)
Definition forward_front (n : Z) (front : Queued) (rest : list Queued) (e : DirectionEngine) : DirectionEngine :=
  let e := add_forwarded n e in
  let e := set_e_buffered (sat_sub (e_buffered e) n) e in
  set_e_queue
    (if n =? zlen (q_bytes front) then rest
     else {| q_bytes := zdrop n (q_bytes front); q_release := q_release front |} :: rest) e.

Lemma forward_front_wf n front rest e : engine_wf e -> e_queue e = front :: rest ->
  0 < n <= zlen (q_bytes front) ->
  engine_wf (forward_front n front rest e) /\ drain_frame (forward_front n front rest e) = drain_frame e
  /\ v_bytes_forwarded (e_evidence (forward_front n front rest e))
     = sat_add64 (v_bytes_forwarded (e_evidence e)) n.
Proof.
  intros Hw Hq Hn. split; [|done]. destruct Hw.
  assert (Hb : e_buffered e = zlen (q_bytes front) + zlen (queue_bytes rest))
    by (rewrite wf_buffered, Hq, queue_bytes_cons, zlen_app; done).
  pose proof (zlen_nonneg (queue_bytes rest)).
  assert (Es : sat_sub (e_buffered e) n = e_buffered e - n) by (unfold sat_sub; lia).
  rewrite Hq in *. apply Forall_cons in wf_segments. destruct wf_segments as [Hf Hrest].
  split; unfold forward_front; cbn -[zdrop sat_sub queue_bytes]; rewrite ?Es; try done; try lia.
  - destruct (Z.eqb_spec n (zlen (q_bytes front))); [lia|].
    rewrite queue_bytes_cons, zlen_app. cbn [q_bytes]. rewrite zlen_zdrop; lia.
  - destruct (Z.eqb_spec n (zlen (q_bytes front))) as [|Hne]; [done|]. constructor; [|done]. cbn [q_bytes].
    intros E. pose proof (zlen_zdrop n (q_bytes front) ltac:(lia)) as Hz. rewrite E in Hz.
    change (zlen []) with 0 in Hz. lia.
  - destruct wf_ledger as [A F D B]. split; cbn; try done; unfold sat_add; lia.
Qed.

(** ** The queue loop *)

(** The transport claimed more bytes than it was given. *)
Definition overrun {T} `{AsyncWrite T} : Prop :=
  exists (t : T) b n t', tx_write t b = (Ready (Ok n), t') /\ zlen b < n.

Section DrainSpec.
Context `{Env0 : Env} `{!EnvOk Env0} {T : Type} `{Tx : AsyncWrite T} `{!AsyncWriteOk T}.
Local Abbreviation overrun := (@overrun T Tx).

Lemma write_front_cases k front rest e t :
  match write_front k front rest e t with
  | QNext k' e' t' => k' = k /\ exists n, 0 < n <= zlen (q_bytes front)
      /\ e' = forward_front n front rest e /\ sunk t' = sunk t ++ ztake n (q_bytes front)
  | QDone r k' e' t' => k' = k /\ e' = e /\ r <> Ready (Ok tt)
      /\ (overrun \/ sunk t' = sunk t)
  end.
Proof.
  unfold write_front. destruct (tx_write t (q_bytes front)) as [[[n|err]|] t'] eqn:Ew.
  - destruct (tx_write_ok _ _ _ _ Ew) as [Hn Hs].
    destruct (Z.eqb_spec n 0) as [E0|E0].
    { split; [done|]. split; [done|]. split; [done|]. right. rewrite Hs by (pose proof (zlen_nonneg (q_bytes front)); lia).
      rewrite E0, ztake_0. apply app_nil_r. }
    destruct (Z.ltb_spec (zlen (q_bytes front)) n) as [E1|E1].
    { conjs; try done. left. exists t, (q_bytes front), n, t'. split; [done|lia]. }
    split; [done|]. exists n. split; [lia|]. split; [done|]. by apply Hs.
  - split; [done|]. split; [done|]. split; [done|]. right. by apply (tx_write_err _ _ _ _ Ew).
  - split; [done|]. split; [done|]. split; [done|]. right. by apply (tx_write_pending _ _ _ Ew).
Qed.

(** One iteration. *)
Lemma queue_step_spec k e t : engine_wf e ->
  match queue_step k e t with
  | QNext k' e' t' => exists w, w <> [] /\ (k < k')%nat /\ engine_wf e' /\ sunk t' = sunk t ++ w
      /\ sent (clock k') w (e_queue e) (e_queue e') /\ drain_frame e' = drain_frame e
      /\ v_bytes_forwarded (e_evidence e') = sat_add64 (v_bytes_forwarded (e_evidence e)) (zlen w)
  | QDone r k' e' t' => (k <= k')%nat /\ engine_wf e' /\ e_queue e' = e_queue e /\ drain_frame e' = drain_frame e
      /\ v_bytes_forwarded (e_evidence e') = v_bytes_forwarded (e_evidence e)
      /\ (r = Ready (Ok tt) -> e_queue e = [])
      /\ (overrun \/ sunk t' = sunk t)
  end.
Proof.
  intros Hw. unfold queue_step. destruct (e_queue e) as [|front rest] eqn:Eq; [by conjs; auto|].
  assert (Wr : forall k1 e1, engine_wf e1 -> (k < k1)%nat -> e_queue e1 = front :: rest ->
    drain_frame e1 = drain_frame e -> e_evidence e1 = e_evidence e -> q_release front <= clock k1 ->
    match write_front k1 front rest e1 t with
    | QNext k' e' t' => exists w, w <> [] /\ (k < k')%nat /\ engine_wf e' /\ sunk t' = sunk t ++ w
      /\ sent (clock k') w (front :: rest) (e_queue e') /\ drain_frame e' = drain_frame e
      /\ v_bytes_forwarded (e_evidence e') = sat_add64 (v_bytes_forwarded (e_evidence e)) (zlen w)
    | QDone r k' e' t' => (k <= k')%nat /\ engine_wf e' /\ e_queue e' = front :: rest
      /\ drain_frame e' = drain_frame e
      /\ v_bytes_forwarded (e_evidence e') = v_bytes_forwarded (e_evidence e)
      /\ (r = Ready (Ok tt) -> front :: rest = [])
      /\ (overrun \/ sunk t' = sunk t)
    end).
  { intros k1 e1 Hw1 Hk Hq1 Hd He Hrel. pose proof (write_front_cases k1 front rest e1 t) as C.
    destruct (write_front k1 front rest e1 t) as [r k' e' t'|k' e' t'].
    - destruct C as (-> & -> & C1 & C2). rewrite He. conjs; auto; [lia|]. by intros ->.
    - destruct C as (-> & n & Hn & -> & Hs). exists (ztake n (q_bytes front)).
      destruct (forward_front_wf n front rest e1 Hw1 Hq1 Hn) as (W & D & V).
      assert (Hl : zlen (ztake n (q_bytes front)) = n) by (rewrite zlen_ztake; lia).
      split; [intros E; rewrite E, zlen_nil in Hl; lia|]. split; [lia|]. split; [done|]. split; [done|].
      split; [by apply sent_front; [|lia]|]. split; [congruence|]. rewrite V, Hl. congruence. }
  destruct (Z.ltb_spec (clock k) (q_release front)) as [Hlt|Hge].
  - destruct (timer_poll (S k) (clock k) (q_release front) (e_queue_timer e)) as [fired timer] eqn:Et.
    apply timer_poll_ok in Et; [|apply (wf_timers _ _ Hw)|apply clock_mono; lia].
    destruct Et as [Ht Hdue]. pose proof (wf_queue_timer 0 e timer Ht Hw) as Hw1.
    destruct fired; cbn [negb].
    + apply Wr; try done; [lia|]. specialize (Hdue eq_refl). pose proof (clock_mono (S (S k)) (3 + k) ltac:(lia)). lia.
    + conjs; try done; try lia; auto.
  - apply Wr; try done; [lia|]. pose proof (clock_mono k (S k) ltac:(lia)). lia.
Qed.

(** Fuel: each iteration that goes on shortens the queue's payload. *)
Lemma queue_loop_spec fuel : forall k e t, engine_wf e -> (length (queue_bytes (e_queue e)) < fuel)%nat ->
  exists r k' e' t' w, queue_loop fuel k e t = Some (r, k', e', t')
  /\ (k <= k')%nat /\ engine_wf e' /\ sent (clock k') w (e_queue e) (e_queue e')
  /\ drain_frame e' = drain_frame e
  /\ (r = Ready (Ok tt) -> e_queue e' = [])
  /\ v_bytes_forwarded (e_evidence e') = sat_add64 (v_bytes_forwarded (e_evidence e)) (zlen w)
  /\ (overrun \/ sunk t' = sunk t ++ w).
Proof.
  induction fuel as [|fuel IH]; intros k e t Hw Hf; [lia|]. cbn [queue_loop].
  pose proof (queue_step_spec k e t Hw) as S.
  destruct (queue_step k e t) as [r k' e' t'|k1 e1 t1].
  - destruct S as (S1 & S2 & S3 & S4 & S5 & S6 & S7). exists r, k', e', t', [].
    rewrite S3, app_nil_r, S5. split; [done|]. split; [done|]. split; [done|]. split; [apply sent_nil|].
    split; [done|]. split; [auto|]. split; [|auto].
    destruct (wf_ledger _ _ Hw). change (zlen []) with 0. unfold sat_add. lia.
  - destruct S as (w & S1 & S2 & S3 & S4 & S5 & S6 & S7).
    assert (Hlen : (length (queue_bytes (e_queue e1)) < fuel)%nat).
    { pose proof (st_split _ _ _ _ S5) as E. rewrite E, length_app in Hf. destruct w; [done|]. cbn in Hf. lia. }
    destruct (IH k1 e1 t1 S3 Hlen) as (r & k' & e' & t' & w' & L1 & L2 & L3 & L4 & L5 & L6 & L7 & L8).
    exists r, k', e', t', (w ++ w'). split; [done|]. split; [lia|]. split; [done|].
    split; [refine (sent_trans _ _ _ _ _ _ (sent_mono _ _ _ _ _ _ S5) L4); by apply clock_mono|].
    split; [congruence|]. split; [done|]. split.
    + rewrite L7, S7, zlen_app. pose proof (zlen_nonneg w). pose proof (zlen_nonneg w'). unfold sat_add. lia.
    + destruct L8 as [L8|L8]; [by left|right]. by rewrite L8, S4, app_assoc.
Qed.

Lemma poll_queue_spec k e t r k' e' t' : engine_wf e -> poll_queue k e t = (r, k', e', t') ->
  exists w, (k <= k')%nat /\ engine_wf e' /\ sent (clock k') w (e_queue e) (e_queue e')
  /\ drain_frame e' = drain_frame e
  /\ (r = Ready (Ok tt) -> e_queue e' = [])
  /\ v_bytes_forwarded (e_evidence e') = sat_add64 (v_bytes_forwarded (e_evidence e)) (zlen w)
  /\ (overrun \/ sunk t' = sunk t ++ w).
Proof.
  intros Hw. unfold poll_queue.
  destruct (queue_loop_spec (queue_fuel e) k e t Hw ltac:(unfold queue_fuel; lia))
    as (r0 & k0 & e0 & t0 & w & -> & H). intros [= <- <- <- <-]. by exists w.
Qed.

Lemma queue_loop_more fuel : forall more k e t x, queue_loop fuel k e t = Some x ->
  (fuel <= more)%nat -> queue_loop more k e t = Some x.
Proof.
  induction fuel as [|fuel IH]; intros more k e t x H Hm; [done|].
  destruct more as [|more]; [lia|]. cbn in *. destruct (queue_step k e t); [done|]. apply IH; [done|lia].
Qed.

(** Polling the queue never moves [P] when writes do not. *)
Lemma queue_loop_keeps (P : T -> Prop) fuel : (forall t b, P t -> P (tx_write t b).2) ->
  forall k e t r k' e' t', P t -> queue_loop fuel k e t = Some (r, k', e', t') -> P t'.
Proof.
  intros HP. induction fuel as [|fuel IH]; intros k e t r k' e' t' Ht; [done|]. cbn.
  assert (Hf : forall k1 front rest e1, match write_front k1 front rest e1 t with
    | QDone _ _ _ t1 | QNext _ _ t1 => P t1 end).
  { intros k1 front rest e1. unfold write_front. pose proof (HP t (q_bytes front) Ht) as H.
    destruct (tx_write t (q_bytes front)) as [[[n|err]|] t1]; cbn in H; [|done|done].
    destruct (n =? 0); [done|]. by destruct (_ <? n). }
  assert (Hs : match queue_step k e t with QDone _ _ _ t1 | QNext _ _ t1 => P t1 end).
  { unfold queue_step. destruct (e_queue e) as [|front rest]; [done|].
    destruct (_ <? _); [|apply Hf]. destruct (timer_poll _ _ _ _) as [fired timer].
    destruct fired; cbn; [apply Hf|done]. }
  destruct (queue_step k e t); [by intros [= <- <- <- <-]|]. by apply IH.
Qed.

(** ** Slow close *)

Lemma arm_slow_close_frame now e :
  e_queue (arm_slow_close now e) = e_queue e /\ e_slow_close (arm_slow_close now e) = e_slow_close e
  /\ e_shutdown_timer (arm_slow_close now e) = e_shutdown_timer e
  /\ (e_shutdown_deadline e = None -> forall delay, e_slow_close e = Some delay ->
        e_shutdown_deadline (arm_slow_close now e)
        = Some (add_or now delay (Z.min MAX_STREAM_FAULT_DURATION delay))).
Proof.
  unfold arm_slow_close. destruct (e_shutdown_deadline e) eqn:Ed; [by conjs|].
  destruct (e_slow_close e) as [delay|] eqn:Es; [|by conjs].
  destruct (negb (delay =? 0)); cbn; conjs; try done; by intros _ ? [= <-].
Qed.

Lemma wf_arm_slow_close owed now e : wf_owing owed e -> wf_owing owed (arm_slow_close now e).
Proof.
  intros H. unfold arm_slow_close. destruct (e_shutdown_deadline e); [done|].
  destruct (e_slow_close e) as [delay|]; [|done].
  set (e1 := set_e_shutdown_deadline _ e). assert (wf_owing owed e1) by (destruct H; by split).
  destruct (negb (delay =? 0)); [|done].
  destruct (bump_activation_shape 4 e1) as (v & -> & ? & ? & ?). by apply wf_evidence.
Qed.

Definition wf_poll_result (k : nat) (e : DirectionEngine) (x : io_poll unit * nat * DirectionEngine * T) : Prop :=
  let '(_, k', e', _) := x in (k <= k')%nat /\ engine_wf e'.

(** [engine_poll_shutdown] by the branch it leaves through. *)
Inductive shutdown_exit (k : nat) (e : DirectionEngine) (t : T)
    : io_poll unit * nat * DirectionEngine * T -> Prop :=
| SxQueue r k' e' t' : poll_queue k e t = (r, k', e', t') -> r <> Ready (Ok tt) ->
    shutdown_exit k e t (r, k', e', t')
| SxWait k1 e1 t1 timer : poll_queue k e t = (Ready (Ok tt), k1, e1, t1) -> timer_ok timer ->
    shutdown_exit k e t (Pending, (4 + k1)%nat, set_e_shutdown_timer timer (arm_slow_close (clock k1) e1), t1)
| SxShut k1 e1 t1 timer k' : poll_queue k e t = (Ready (Ok tt), k1, e1, t1) -> timer_ok timer ->
    (2 + k1 <= k')%nat ->
    (forall d, e_shutdown_deadline (arm_slow_close (clock k1) e1) = Some d -> d <= clock k') ->
    shutdown_exit k e t ((tx_shutdown t1).1, k',
      set_e_shutdown_timer timer (arm_slow_close (clock k1) e1), (tx_shutdown t1).2).

Lemma set_shutdown_timer_id e : set_e_shutdown_timer (e_shutdown_timer e) e = e.
Proof. by destruct e. Qed.

Lemma engine_poll_shutdown_exit k e t : engine_wf e -> shutdown_exit k e t (engine_poll_shutdown k e t).
Proof.
  intros Hw. unfold engine_poll_shutdown. destruct (poll_queue k e t) as [[[r k1] e1] t1] eqn:Eq.
  destruct (poll_queue_spec _ _ _ _ _ _ _ Hw Eq) as (w & _ & Hw1 & _).
  destruct r as [[[]|err]|]; [|by apply SxQueue|by apply SxQueue]. cbv zeta.
  pose proof (wf_timers _ _ (wf_arm_slow_close 0 (clock k1) e1 Hw1)) as (_ & _ & Hst).
  set (e2 := arm_slow_close (clock k1) e1) in *.
  destruct (e_shutdown_deadline e2) as [d|] eqn:Ed.
  - destruct (Z.ltb_spec (clock (S k1)) d) as [Hlt|Hge].
    + destruct (timer_poll (2 + k1) (clock (S k1)) d (e_shutdown_timer e2)) as [fired timer] eqn:Et.
      apply timer_poll_ok in Et; [|done|apply clock_mono; lia]. destruct Et as [Ht Hd].
      destruct fired; cbn [negb]; [|by apply SxWait].
      rewrite (surjective_pairing (tx_shutdown t1)).
      apply SxShut; [done|done|lia|]. fold e2. rewrite Ed. intros ? [= <-]. specialize (Hd eq_refl).
      pose proof (clock_mono (S (2 + k1)) (4 + k1) ltac:(lia)). lia.
    + rewrite (surjective_pairing (tx_shutdown t1)). rewrite <- (set_shutdown_timer_id e2) at 1.
      apply SxShut; [done|done|lia|]. fold e2. rewrite Ed. intros ? [= <-].
      pose proof (clock_mono (S k1) (2 + k1) ltac:(lia)). lia.
  - rewrite (surjective_pairing (tx_shutdown t1)). rewrite <- (set_shutdown_timer_id e2) at 1.
    apply SxShut; [done|done|lia|]. fold e2. by rewrite Ed.
Qed.

(** ** Due terminations *)

Lemma refresh_due now e d : due_deadline e = Some d -> d <= now -> e_termination e = None ->
  exists info, e_termination (refresh_sync_terminations now e) = Some info /\ due_info now e info.
Proof.
  unfold due_deadline. intros Hd Hn Ht.
  destruct (refresh_shape now e) as [E|(info & slot & E & _ & Hi)].
  - exfalso. revert E. unfold refresh_sync_terminations. rewrite Ht. intros E.
    assert (X : forall i s, publish_counted i s e <> e).
    { intros i s Hc. destruct (publish_counted_shape i s e) as (v & Es & _). rewrite Hc in Es.
      apply (f_equal e_termination) in Es. cbn in Es. by rewrite Ht in Es. }
    destruct (e_disconnect e) as [s|]; [destruct (Z.leb_spec (ds_deadline s) now); [by apply X in E|]|];
      (destruct (e_blackhole e) as [b|]; [destruct (bs_deadline b) as [bd|]|]; [|simplify_eq; lia..]);
      (destruct (Z.leb_spec bd now); [by apply X in E|simplify_eq; lia]).
  - exists info. split; [|done]. rewrite E. destruct (publish_counted_shape info slot e) as (v & -> & _).
    cbn. by rewrite Ht.
Qed.

Lemma due_info_mono a b e info : a <= b -> due_info a e info -> due_info b e info.
Proof.
  intros Hab [(s & H1 & H2 & H3)|(s & d & H1 & H2 & H3 & H4)]; [left|right].
  - exists s. conjs; auto; lia.
  - exists s, d. conjs; auto; lia.
Qed.

(** A refresh answers: a termination that was there, a due one, or none. *)
Lemma refresh_answer now e : engine_wf e ->
  let e1 := refresh_sync_terminations now e in
  engine_wf e1 /\ settled_frame e1 = settled_frame e
  /\ match e_termination e1 with
     | Some info => e_termination e = Some info \/ (e_termination e = None /\ due_info now e info)
     | None => e1 = e /\ e_termination e = None
     end.
Proof.
  intros Hw e1. split; [by apply wf_refresh|]. split; [apply refresh_frame|].
  unfold e1. destruct (refresh_shape now e) as [->|(info & slot & -> & Ht & Hi)].
  - destruct (e_termination e); [by left|done].
  - destruct (publish_counted_shape info slot e) as (v & -> & _). cbn. rewrite Ht. by right.
Qed.

Record due_result (k : nat) (e : DirectionEngine) (r : poll TerminationInfo) (k' : nat)
    (e' : DirectionEngine) : Prop := {
  dr_clock : (k <= k')%nat;
  dr_wf : engine_wf e';
  dr_queue : e_queue e' = e_queue e;
  dr_ready : forall info, r = Ready info -> e_termination e' = Some info
    /\ (e_termination e = Some info \/ (e_termination e = None /\ due_info (clock k') e info));
  dr_pending : r = Pending -> e_termination e' = None /\ e_termination e = None
    /\ forall d, due_deadline e = Some d -> clock (S k) < d
}.

Lemma due_result_refresh k k' e e1 : engine_wf e -> engine_wf e1 -> (k <= k')%nat ->
  e_termination e = None -> e_termination e1 = None -> e_queue e1 = e_queue e ->
  (e_disconnect e1, e_blackhole e1, e_direction e1) = (e_disconnect e, e_blackhole e, e_direction e) ->
  (exists d, due_deadline e1 = Some d /\ d <= clock k') ->
  exists info, e_termination (refresh_sync_terminations (clock k') e1) = Some info
  /\ due_result k e (Ready info) (S k') (refresh_sync_terminations (clock k') e1).
Proof.
  intros Hw Hw1 Hk Ht Ht1 Hq [= Hd Hb Hdir] (d & Hdd & Hle).
  destruct (refresh_due _ _ _ Hdd Hle Ht1) as (info & Ei & Hi). exists info. split; [done|].
  destruct (refresh_answer (clock k') e1 Hw1) as (W & F & _).
  destruct (settled_parts _ _ F) as (_ & Q & _).
  split; try done; [lia|by rewrite Q|].
  intros ? [= <-]. split; [done|]. right. split; [done|].
  apply (due_info_mono (clock k')); [apply clock_mono; lia|].
  unfold due_info, disconnect_info, graceful_info in *. by rewrite <- Hd, <- Hb, <- Hdir.
Qed.

Lemma poll_due_spec k e r k' e' : engine_wf e -> poll_due_termination k e = (r, k', e') ->
  due_result k e r k' e'.
Proof.
  intros Hw. unfold poll_due_termination. cbv zeta.
  destruct (refresh_answer (clock k) e Hw) as (W1 & F1 & A1). cbv zeta in A1.
  set (e1 := refresh_sync_terminations (clock k) e) in *.
  destruct (settled_parts _ _ F1) as (_ & Q1 & _).
  destruct (e_termination e1) as [info|] eqn:Et1.
  { intros [= <- <- <-]. split; try done; [lia|]. intros ? [= <-]. split; [done|].
    destruct A1 as [A1|[A1 A2]]; [by left|right]. split; [done|].
    apply (due_info_mono (clock k)); [apply clock_mono; lia|done]. }
  destruct A1 as [-> Ht]. clear F1 Q1.
  destruct (due_deadline e) as [d|] eqn:Ed.
  - destruct (Z.ltb_spec (clock (S k)) d) as [Hlt|Hge].
    + destruct (timer_poll (2 + k) (clock (S k)) d (e_term_timer e)) as [fired timer] eqn:Ep.
      apply timer_poll_ok in Ep; [|apply (wf_timers _ _ Hw)|apply clock_mono; lia]. destruct Ep as [Hok Hdue].
      pose proof (wf_term_timer 0 e timer Hok Hw) as Hw2.
      destruct fired; cbn [negb].
      * specialize (Hdue eq_refl). pose proof (clock_mono (S (2 + k)) (4 + k) ltac:(lia)).
        destruct (due_result_refresh k (4 + k) e (set_e_term_timer timer e)) as (info & E & R);
          try done; [lia|exists d; split; [exact Ed|lia]|].
        rewrite E. by intros [= <- <- <-].
      * intros [= <- <- <-]. split; try done; [lia|]. intros _. split; [done|]. split; [done|].
        intros d0 Hd0. rewrite Ed in Hd0. by injection Hd0 as <-.
    + pose proof (clock_mono (S k) (2 + k) ltac:(lia)).
      destruct (due_result_refresh k (2 + k) e e) as (info & E & R); try done; [lia|exists d; split; [done|lia]|].
      rewrite E. by intros [= <- <- <-].
  - unfold poll_terminated, handle_get. rewrite (wf_handle _ _ Hw), Ht. intros [= <- <- <-].
    split; try done; [lia|]. intros _. conjs; try done. intros d Hd. by rewrite Ed in Hd.
Qed.
End DrainSpec.
