(* ===== verification/EngineRun.v ===== *)
(** * Runs of an engine

    Construction establishes the invariant; a run is any sequence of calls of
    the engine's public operations against one transport, with the log of the
    bytes the calls reported as owned. *)

From Stdlib Require Import Bool.
From stdpp Require Import base list strings.
From S2P Require Import Prelude Rng Float64 Plan Env TokenBucket EngineState Engine Accept.
From S2P Require Import Drain EngineInv Loss AcceptSpec DrainSpec.

(** ** Compilation *)

Definition compiling_ok (a : Compiling) : Prop :=
  c_max_buffer a <= BUFFER_MAX
  /\ match c_remaining_limit a with Some (r, _) => 0 < r <= U64_MAX | None => True end
  /\ match c_bandwidth_cfg a with
     | Some (rate, burst) => 0 < rate <= U64_MAX /\ 0 <= burst <= U64_MAX | None => True end.

Lemma compile_kind_ok now f a : kind_wf (fs_kind f) -> kind_typed (fs_kind f) ->
  compiling_ok a -> compiling_ok (compile_kind now f a).
Proof.
  unfold compiling_ok, compile_kind. intros Hk Ht (H1 & H2 & H3).
  destruct (fs_kind f) as [c|c|c|c|c|c|c|c]; cbn in *; conjs; try done; try lia.
  - unfold compile_bandwidth. destruct (c_bandwidth_cfg a) as [[r b]|]; lia.
  - unfold compile_limit. destruct (c_remaining_limit a) as [[r i]|]; [|lia].
    destruct (Z.ltb_spec (ld_bytes c) r); lia.
Qed.

(** The loss streams a fresh engine starts: one per active stream-loss fault. *)
Fixpoint initial_seeds (run_seed : Z) (proxy : string) (key : Z) (d : Direction) (fs : list FaultSpec)
    : list (option DeterministicRng) :=
  match fs with
  | [] => []
  | f :: fs' =>
      (if (bernoulli (rng_new (derive_seed run_seed proxy key d (fs_id f))) (fs_probability f)).1
       then match fs_kind f with
            | StreamLoss _ => Some (rng_new (derive_stream_loss_seed run_seed proxy key d (fs_id f)))
            | _ => None
            end
       else None) :: initial_seeds run_seed proxy key d fs'
  end.

Lemma compile_faults_spec now rs proxy key d fs : forall a a' rngs sl,
  compile_faults now rs proxy key d fs a = (a', rngs, sl) ->
  Forall (fun f => kind_wf (fs_kind f)) fs -> Forall (fun f => kind_typed (fs_kind f)) fs ->
  compiling_ok a ->
  compiling_ok a' /\ length rngs = length fs
  /\ Forall3 (conn_rel 0) fs (initial_seeds rs proxy key d fs) sl
  /\ (forallb (fun f => match fs_kind f with Blackhole _ => false | _ => true end) fs = true ->
      c_blackhole a' = c_blackhole a).
Proof.
  induction fs as [|f fs IH]; intros a a' rngs sl; cbn [compile_faults initial_seeds].
  { intros [= <- <- <-]. split; [done|]. split; [done|]. split; [constructor|done]. }
  intros H Hk Ht Ha. apply Forall_cons in Hk as [Hk1 Hk]. apply Forall_cons in Ht as [Ht1 Ht].
  destruct (bernoulli _ (fs_probability f)) as [active rng]. cbn [fst].
  destruct active.
  - destruct (compile_faults _ _ _ _ _ fs (compile_kind now f a)) as [[a1 rngs1] sl1] eqn:E.
    injection H as <- <- <-. apply IH in E; [|done|done|by apply compile_kind_ok].
    destruct E as (E1 & E2 & E3 & E4). conjs; [done|cbn; lia| |].
    + constructor; [|done]. unfold compile_stream_loss. destruct (fs_kind f) eqn:Ek; cbn; try done.
      eexists. split; [exact Ek|]. done.
    + cbn [forallb]. intros Hb. bools. rewrite E4 by done.
      unfold compile_kind. by destruct (fs_kind f).
  - destruct (compile_faults _ _ _ _ _ fs a) as [[a1 rngs1] sl1] eqn:E.
    injection H as <- <- <-. apply IH in E; [|done|done|done].
    destruct E as (E1 & E2 & E3 & E4). conjs; [done|cbn; lia|by constructor|].
    cbn [forallb]. intros Hb. bools. by apply E4.
Qed.

Section Construct.
Context `{Env0 : Env}.

Lemma new_engine_shape k plan rs proxy key d slot e : plan_typed plan ->
  new_with_arc_plan k plan rs proxy key d slot = Ok e ->
  engine_wf e /\ e_plan e = plan /\ e_direction e = d /\ e_queue e = []
  /\ e_termination e = slot /\ e_stream_loss_offset e = 0
  /\ loss_ok (initial_seeds rs proxy key d (faults plan)) e
  /\ (is_preserving_only e = true -> e_blackhole e = None)
  /\ (v_bytes_accepted (e_evidence e) = 0 /\ v_bytes_forwarded (e_evidence e) = 0).
Proof.
  intros Ht. unfold new_with_arc_plan. destruct (plan_validate plan) as [[]|] eqn:Ev; [|done]. cbv zeta.
  destruct (compile_faults (clock k) rs proxy key d (faults plan) compiling_start) as [[c rngs] sl] eqn:Ec.
  pose proof (proj1 (plan_wf_validate plan) Ev) as Hwf.
  apply compile_faults_spec in Ec; [|apply Hwf|done|by vm_compute].
  destruct Ec as ((C1 & C2 & C3) & Hl & Hs & Hbh). intros [= <-].
  assert (Hlen : length sl = length (faults plan)) by (apply Forall3_length_lm in Hs as ?; apply Forall3_length_lr in Hs; done).
  split; [|conjs; try done].
  - split; cbn; try done; try (unfold BUFFER_MAX in *; lia).
    + unfold limit_wf. cbn. destruct (c_remaining_limit c) as [[r i]|]; [|done]. split; [lia|intros ->; lia].
    + unfold bandwidth_ok. cbn. destruct (c_bandwidth_cfg c) as [[rate burst]|]; [|done]. cbn.
      apply bucket_new_ok; tauto.
  - unfold is_preserving_only. cbn. intros Hp. rewrite Hbh; [done|].
    revert Hp. generalize (faults plan). induction l as [|f l IH]; [done|]. cbn.
    intros Hp. bools. rewrite IH by done. by destruct (fs_kind f).
Qed.
End Construct.

(** ** Runs *)

Inductive Op :=
| OpAccept (input : bytes)
| OpAcceptVectored (bufs : list bytes)
| OpFlush
| OpShutdown
| OpDue
| OpRefresh.

Record Run (T : Type) := { rn_clock : nat; rn_engine : DirectionEngine; rn_tx : T; rn_log : bytes }.
Arguments rn_clock {T} r.
Arguments rn_engine {T} r.
Arguments rn_tx {T} r.
Arguments rn_log {T} r.

(** Less than [2^64] bytes of caller data in one vectored call. *)
Definition op_input (o : Op) : bytes :=
  match o with
  | OpAccept input => input
  | OpAcceptVectored bufs => concat bufs
  | _ => []
  end.

Section Runs.
Context `{Env0 : Env} {T : Type} `{Tx : AsyncWrite T}.

Definition exec (s : Run T) (o : Op) : Run T :=
  let k := rn_clock s in
  match o with
  | OpAccept input =>
      let '(n, e) := accept k input (rn_engine s) in
      {| rn_clock := 3 + k; rn_engine := e; rn_tx := rn_tx s; rn_log := rn_log s ++ ztake n input |}
  | OpAcceptVectored bufs =>
      let '(n, e) := accept_vectored k bufs (rn_engine s) in
      {| rn_clock := 3 + k; rn_engine := e; rn_tx := rn_tx s; rn_log := rn_log s ++ ztake n (concat bufs) |}
  | OpFlush =>
      let '(_, k', e, t) := engine_poll_flush k (rn_engine s) (rn_tx s) in
      {| rn_clock := k'; rn_engine := e; rn_tx := t; rn_log := rn_log s |}
  | OpShutdown =>
      let '(_, k', e, t) := engine_poll_shutdown k (rn_engine s) (rn_tx s) in
      {| rn_clock := k'; rn_engine := e; rn_tx := t; rn_log := rn_log s |}
  | OpDue =>
      let '(_, k', e) := poll_due_termination k (rn_engine s) in
      {| rn_clock := k'; rn_engine := e; rn_tx := rn_tx s; rn_log := rn_log s |}
  | OpRefresh =>
      {| rn_clock := S k; rn_engine := refresh_sync_terminations (clock k) (rn_engine s);
         rn_tx := rn_tx s; rn_log := rn_log s |}
  end.

Definition run_ops (s : Run T) (ops : list Op) : Run T := foldl exec s ops.

Lemma run_ops_app s o1 o2 : run_ops s (o1 ++ o2) = run_ops (run_ops s o1) o2.
Proof. unfold run_ops. apply foldl_app. Qed.
End Runs.

(** ** The vectored call *)

Lemma join_prefix_take bufs : forall m, 0 <= m -> join_prefix m bufs = ztake m (concat bufs).
Proof.
  induction bufs as [|b bufs IH]; intros m Hm; cbn [join_prefix concat].
  { by rewrite ztake_nil. }
  pose proof (zlen_nonneg b).
  destruct (Z.eqb_spec m 0) as [->|Hne]; [done|].
  destruct (Z.le_gt_cases (zlen b) m).
  - rewrite Z.min_l, ztake_all, IH, ztake_app_r by lia. done.
  - rewrite Z.min_r by lia. rewrite ztake_app_l by lia. rewrite IH by lia.
    rewrite Z.sub_diag, ztake_0. apply app_nil_r.
Qed.

Lemma total_len_spec bufs : total_len bufs = Z.min (zlen (concat bufs)) USIZE_MAX.
Proof.
  unfold total_len. assert (G : forall a, 0 <= a <= USIZE_MAX ->
    foldl (fun a b => sat_add USIZE_MAX a (zlen b)) a bufs = Z.min (a + zlen (concat bufs)) USIZE_MAX).
  { induction bufs as [|b bufs IH]; intros a Ha; cbn [foldl concat].
    - rewrite zlen_nil. lia.
    - pose proof (zlen_nonneg b). pose proof (zlen_nonneg (concat bufs)).
      rewrite IH, zlen_app by (unfold sat_add; lia). unfold sat_add. lia. }
  rewrite G; [done|]. unfold USIZE_MAX, U64_MAX. lia.
Qed.

Lemma accept_at_unfold t0 now t2 input e : engine_wf e ->
  accept_at t0 now t2 input e =
  let e1 := refreshed t0 e in
  match accept_path t2 input e1 with
  | PIdle => (0, e1)
  | PBlackhole => accept_blackhole input (limit_available e1) e1
  | PLoss => accept_with_stream_loss input (limit_available e1) now e1
  | PPreserve => accept_preserving input
      (Z.min (Z.min (zlen input) (limit_available e1)) (free_capacity e1)) now e1
  end.
Proof.
  intros Hw. destruct (accept_at t0 now t2 input e) as [n e'] eqn:E.
  destruct (accept_at_cases _ _ _ _ _ _ _ Hw E) as [_ C]. cbv zeta in *.
  destruct (accept_path _ _ _); [by destruct C as [-> ->]|done..].
Qed.

(** An engine on which neither destructive path can be taken. *)
Definition preserving (e : DirectionEngine) : Prop :=
  e_blackhole e = None /\ existsb is_some (e_stream_loss e) = false.

Lemma refreshed_keeps t0 e : e_blackhole (refreshed t0 e) = e_blackhole e
  /\ e_stream_loss (refreshed t0 e) = e_stream_loss e
  /\ e_stream_loss_offset (refreshed t0 e) = e_stream_loss_offset e
  /\ limit_available (refreshed t0 e) = limit_available e /\ free_capacity (refreshed t0 e) = free_capacity e
  /\ e_queue (refreshed t0 e) = e_queue e /\ e_plan (refreshed t0 e) = e_plan e.
Proof.
  destruct (refresh_frame t0 e) as (F & L & _). unfold refreshed.
  destruct (settled_parts _ _ F) as (S & Q & B & [= Hl Ho]). unfold static_frame in S.
  unfold limit_available, free_capacity. rewrite L, B. injection S. intros. conjs; congruence.
Qed.

Lemma accept_preserving_prefix cap now i1 i2 e : ztake cap i1 = ztake cap i2 ->
  accept_preserving i1 cap now e = accept_preserving i2 cap now e.
Proof. unfold accept_preserving. by intros ->. Qed.

Lemma preserving_path t2 input e : preserving e -> input <> [] ->
  accept_path t2 input e = if limit_available e =? 0 then PIdle else PPreserve.
Proof.
  intros [Hb Hl] Hi. unfold accept_path, blackhole_discarding. rewrite Hb, Hl.
  destruct input; [done|]. by destruct (limit_available e =? 0).
Qed.

(** A preserving call sees its input only through the prefix it can own. *)
Lemma accept_at_preserving t0 now t2 input e : engine_wf e -> preserving e ->
  accept_at t0 now t2 input e =
  let cap := Z.min (zlen input) (bounded_accept_capacity e) in
  if limit_available e =? 0 then (0, refreshed t0 e)
  else accept_preserving input cap now (refreshed t0 e).
Proof.
  intros Hw [Hb Hl]. rewrite accept_at_unfold by done. cbv zeta.
  destruct (refreshed_keeps t0 e) as (K1 & K2 & _ & K3 & K4 & _).
  destruct (decide (input = [])) as [->|Hi].
  { cbn [accept_path]. destruct (_ =? 0); [done|]. change (zlen []) with 0. unfold bounded_accept_capacity.
    pose proof (limit_available_wf e Hw). unfold free_capacity, sat_sub. rewrite Z.min_l by lia. done. }
  rewrite preserving_path by (unfold preserving; by rewrite ?K1, ?K2).
  rewrite K3, K4. destruct (_ =? 0); [done|]. unfold bounded_accept_capacity. by rewrite Z.min_assoc.
Qed.

Lemma accept_vectored_shape t0 now t2 bufs e : engine_wf e ->
  (exists input, accept_vectored_at t0 now t2 bufs e = accept_at t0 now t2 input e
     /\ (input = concat bufs \/ exists m, 0 <= m /\ input = ztake m (concat bufs))).
Proof.
  intros Hw. unfold accept_vectored_at. rewrite total_len_spec.
  pose proof (zlen_nonneg (concat bufs)). pose proof (limit_available_wf e Hw).
  destruct (Z.eqb_spec (Z.min (zlen (concat bufs)) USIZE_MAX) 0) as [E|E].
  - exists []. split; [by destruct e|]. right. exists 0. split; [lia|done].
  - destruct (is_preserving_only e); cbn [negb]; [|by exists (concat bufs); auto].
    destruct (Z.eqb_spec (bounded_accept_capacity e) 0) as [E0|E0].
    + exists []. split; [done|]. right. exists 0. split; [lia|done].
    + assert (0 <= bounded_accept_capacity e) by (unfold bounded_accept_capacity, free_capacity, sat_sub; lia).
      eexists. split; [reflexivity|]. right. eexists. split; [|apply join_prefix_take]; unfold USIZE_MAX, U64_MAX in *; lia.
Qed.

Lemma accept_vectored_eq `{Env0 : Env} j bufs e : engine_wf e ->
  (is_preserving_only e = true -> preserving e) ->
  accept_vectored j bufs e = accept j (concat bufs) e.
Proof.
  intros Hw Hp. unfold accept_vectored, accept, accept_vectored_at. rewrite total_len_spec.
  pose proof (zlen_nonneg (concat bufs)). pose proof (limit_available_wf e Hw).
  destruct (Z.eqb_spec (Z.min (zlen (concat bufs)) USIZE_MAX) 0) as [E|E].
  { rewrite (zlen_zero_inv (concat bufs)) by (unfold USIZE_MAX, U64_MAX in *; lia). by destruct e. }
  destruct (is_preserving_only e); cbn [negb]; [|done]. specialize (Hp eq_refl).
  assert (Hcap : 0 <= bounded_accept_capacity e <= BUFFER_MAX).
  { destruct (wf_capacity _ _ Hw). pose proof (wf_buffered _ _ Hw). pose proof (zlen_nonneg (queue_bytes (e_queue e))).
    unfold bounded_accept_capacity, free_capacity, sat_sub. lia. }
  rewrite !(accept_at_preserving _ _ _ (concat bufs)) by done. cbv zeta.
  destruct (Z.eqb_spec (bounded_accept_capacity e) 0) as [E0|E0].
  - rewrite accept_at_preserving by done. cbv zeta. rewrite E0. destruct (limit_available e =? 0); [done|].
    change (zlen []) with 0. rewrite !Z.min_r by lia. by apply accept_preserving_prefix.
  - rewrite join_prefix_take by (unfold USIZE_MAX, U64_MAX; lia). rewrite accept_at_preserving by done. cbv zeta.
    destruct (limit_available e =? 0); [done|].
    assert (Em : Z.min (Z.min (zlen (concat bufs)) USIZE_MAX) (bounded_accept_capacity e)
                 = Z.min (zlen (concat bufs)) (bounded_accept_capacity e))
      by (unfold USIZE_MAX, U64_MAX, BUFFER_MAX in *; lia).
    rewrite Em. set (m := Z.min (zlen (concat bufs)) (bounded_accept_capacity e)) in *.
    rewrite zlen_ztake by lia. replace (Z.min (Z.min m _) _) with m by lia.
    apply accept_preserving_prefix. rewrite ztake_ztake by lia. f_equal. lia.
Qed.
