(* ===== verification/EngineProps.v ===== *)
(** * Correctness of the direction engine

    The engine as a byte pipe: what goes in comes out in order, once, not
    early; limits, destructive faults, stream loss, termination and shutdown
    do what their configuration says.  All runs start from a constructed
    engine and interleave the operations in any order. *)

From Stdlib Require Import Bool.
From stdpp Require Import base list strings.
From S2P Require Import Prelude Rng Float64 Plan Env TokenBucket EngineState Engine Accept.
From S2P Require Import Drain EngineInv Loss AcceptSpec DrainSpec EngineRun.

(** ** One step *)

Lemma loss_ok_active seeds e : loss_ok seeds e ->
  existsb is_some (e_stream_loss e) = existsb is_some seeds.
Proof.
  intros [_ H]. induction H as [|f sd st fs sds sts H1 _ IH]; [done|]. cbn. rewrite IH.
  destruct st, sd; cbn in *; try done.
Qed.

Lemma no_seeds_no_loss fs seeds c : existsb is_some seeds = false -> chunk_lost fs seeds c = false.
Proof.
  revert fs. induction seeds as [|s seeds IH]; intros [|f fs]; cbn; try done.
  intros H. bools. rewrite IH by done. destruct s; [done|]. by destruct (fs_kind f).
Qed.

Lemma survivors_none lost off bs : (forall c, lost c = false) -> survivors lost off bs = bs.
Proof. intros H. revert off. induction bs as [|b bs IH]; intros off; cbn; [done|]. by rewrite H, IH. Qed.

(** The loss state is at absolute offset [off] of the stream. *)
Definition tracks (seeds : list (option DeterministicRng)) (off : Z) (e : DirectionEngine) : Prop :=
  loss_ok seeds e /\ (existsb is_some (e_stream_loss e) = true -> e_stream_loss_offset e = off).

Lemma tracks_congr seeds off e e' : e_plan e' = e_plan e ->
  (e_stream_loss e', e_stream_loss_offset e') = (e_stream_loss e, e_stream_loss_offset e) ->
  tracks seeds off e -> tracks seeds off e'.
Proof. intros Hp [= Hs Ho]. unfold tracks, loss_ok. by rewrite Hp, Hs, Ho. Qed.

Lemma accept_at_tracks seeds off t0 now t2 input e n e' :
  engine_wf e -> e_blackhole e = None -> tracks seeds off e ->
  (existsb is_some seeds = true -> off + zlen input < U64_MAX) ->
  accept_at t0 now t2 input e = (n, e') ->
  exists segs, accepted now input n segs (refreshed t0 e) e'
  /\ queue_bytes segs = survivors (engine_lost seeds e) off (ztake n input) /\ tracks seeds (off + n) e'.
Proof.
  intros Hw Hb Htr Hlt H. assert (Hw1 : engine_wf (refreshed t0 e)) by (by apply wf_refresh). rewrite accept_at_unfold in H by done.
  destruct (refreshed_keeps t0 e) as (K1 & K2 & K3 & K4 & K5 & K6 & K7). cbv zeta in H.
  assert (Ht1 : tracks seeds off (refreshed t0 e)) by (apply (tracks_congr _ _ e); [done|by rewrite K2, K3|done]).
  assert (El : engine_lost seeds (refreshed t0 e) = engine_lost seeds e) by (unfold engine_lost; by rewrite K7).
  assert (Hlen : existsb is_some (e_stream_loss e) = false -> forall c, engine_lost seeds e c = false).
  { intros Ha c. apply no_seeds_no_loss. rewrite <- (loss_ok_active seeds e); [done|apply Htr]. }
  destruct (accept_path t2 input (refreshed t0 e)) eqn:Ep.
  - injection H as <- <-. exists []. rewrite Z.add_0_r, ztake_0. split; [by apply accepted_nothing|done].
  - exfalso. unfold accept_path, blackhole_discarding in Ep. rewrite K1, Hb in Ep. destruct input; [done|].
    destruct (_ =? 0); [done|]. by destruct (existsb is_some (e_stream_loss (refreshed t0 e))).
  - assert (Ha : existsb is_some (e_stream_loss e) = true).
    { unfold accept_path in Ep. destruct input; [done|]. destruct (_ =? 0); [done|].
      destruct (blackhole_discarding _ _); [done|]. rewrite K2 in Ep. by destruct (existsb is_some (e_stream_loss e)). }
    destruct Ht1 as [Hok Hoff]. rewrite K2 in Hoff. specialize (Hoff Ha).
    apply accept_loss_spec in H as (segs & A & R); [|done]. destruct (R seeds Hok ltac:(rewrite Hoff; apply Hlt; by rewrite <- (loss_ok_active seeds e (proj1 Htr)))) as (R1 & R2 & R3 & _).
    exists segs. rewrite Hoff, El in *. split; [done|]. split; [done|]. split; [done|]. by intros _.
  - assert (Ha : existsb is_some (e_stream_loss e) = false).
    { unfold accept_path in Ep. destruct input; [done|]. destruct (_ =? 0); [done|].
      destruct (blackhole_discarding _ _); [done|]. rewrite K2 in Ep. by destruct (existsb is_some (e_stream_loss e)). }
    destruct (accept_preserving_spec now input _ (refreshed t0 e) Hw1 eq_refl) as (segs & e2 & E & A & Hq & Hl).
    rewrite E in H. injection H as <- <-. exists segs. split; [done|].
    split; [rewrite survivors_none; [done|by apply Hlen]|].
    assert (Hp : e_plan e2 = e_plan (refreshed t0 e)).
    { pose proof (ac_static _ _ _ _ _ _ A) as S. unfold static_frame in S. by injection S. }
    destruct Ht1 as [Hok Hoff]. injection Hl as Hl1 Hl2. split.
    + unfold loss_ok in *. by rewrite Hl1, Hl2, Hp.
    + rewrite Hl1, K2, Ha. done.
Qed.

Section Props.
Context `{Env0 : Env} `{!EnvOk Env0} {T : Type} `{Tx : AsyncWrite T} `{!AsyncWriteOk T}.
Local Abbreviation overrun := (@overrun T Tx).

Definition charged (n : Z) (e e' : DirectionEngine) : Prop :=
  match e_remaining_limit e with
  | Some (r, id) => n <= r /\ e_remaining_limit e' = Some (r - n, id)
  | None => e_remaining_limit e' = None
  end.

(** Where a termination comes from: the byte limit, used up, or the deadline
    of a disconnect or a blackhole that has passed ([due_info]). *)
Definition spent (e : DirectionEngine) (info : TerminationInfo) : Prop :=
  exists id, e_remaining_limit e = Some (0, id) /\ info = graceful_info e id.
Definition deadlines (e : DirectionEngine) := (e_direction e, e_disconnect e, e_blackhole e).
Lemma due_info_congr now e e' info : deadlines e' = deadlines e -> due_info now e' info -> due_info now e info.
Proof. unfold deadlines, due_info, disconnect_info, graceful_info. by intros [= -> -> ->]. Qed.
Lemma refreshed_deadlines t0 e : deadlines (refreshed t0 e) = deadlines e.
Proof.
  destruct (refresh_frame t0 e) as (F & _). destruct (settled_parts _ _ F) as (S & _).
  unfold static_frame in S. unfold deadlines, refreshed. by injection S as _ -> _ -> -> _.
Qed.

(** One operation: [gained] became the engine's, [w] went out. *)
Record step_effect (o : Op) (s s' : Run T) (gained w : bytes) (segs : list Queued) : Prop := {
  se_clock : (rn_clock s <= rn_clock s')%nat;
  se_wf : engine_wf (rn_engine s');
  se_plan : e_plan (rn_engine s') = e_plan (rn_engine s);
  se_blackhole : e_blackhole (rn_engine s') = e_blackhole (rn_engine s);
  se_log : rn_log s' = rn_log s ++ gained;
  se_gained : zlen gained <= zlen (op_input o);
  se_term : forall i, e_termination (rn_engine s) = Some i -> e_termination (rn_engine s') = Some i;
  se_sunk : overrun \/ sunk (rn_tx s') = sunk (rn_tx s) ++ w;
  se_sent : sent (clock (rn_clock s')) w (e_queue (rn_engine s) ++ segs) (e_queue (rn_engine s'));
  se_from : Forall (queued_from (clock (rn_clock s))) segs;
  se_bytes : forall seeds off, e_blackhole (rn_engine s) = None -> tracks seeds off (rn_engine s) ->
    (existsb is_some seeds = true -> off + zlen (op_input o) < U64_MAX) ->
    queue_bytes segs = survivors (engine_lost seeds (rn_engine s)) off gained
    /\ tracks seeds (off + zlen gained) (rn_engine s');
  se_limit : charged (zlen gained) (rn_engine s) (rn_engine s');
  se_accepted : v_bytes_accepted (e_evidence (rn_engine s'))
    = sat_add64 (v_bytes_accepted (e_evidence (rn_engine s))) (zlen gained);
  se_deadlines : deadlines (rn_engine s') = deadlines (rn_engine s);
  se_origin : forall i, e_termination (rn_engine s) = None -> e_termination (rn_engine s') = Some i ->
    due_info (clock (rn_clock s')) (rn_engine s) i \/ spent (rn_engine s') i
}.

Lemma limit_effect_charged n e e' : limit_effect n e e' -> charged n e e'.
Proof. unfold limit_effect, charged. destruct (e_remaining_limit e) as [[r id]|]; tauto. Qed.

Lemma limit_effect_term n e e' i : limit_effect n e e' -> e_termination e = Some i -> e_termination e' = Some i.
Proof.
  unfold limit_effect. intros H Ht. destruct (e_remaining_limit e) as [[r id]|].
  - destruct H as (_ & _ & ->). rewrite Ht. by destruct (_ =? 0).
  - destruct H as [_ ->]. done.
Qed.

Lemma refreshed_term t0 e i : e_termination e = Some i -> refreshed t0 e = e.
Proof. intros Ht. unfold refreshed, refresh_sync_terminations. by rewrite Ht. Qed.

Lemma refreshed_origin t0 e i : engine_wf e -> e_termination e = None -> e_termination (refreshed t0 e) = Some i -> due_info t0 e i.
Proof.
  intros Hw Ht Hi. destruct (refresh_answer t0 e Hw) as (_ & _ & A). cbv zeta in A. unfold refreshed in Hi. rewrite Hi, Ht in A.
  by destruct A as [|[_ A]].
Qed.
Lemma limit_effect_origin n e e' i : limit_effect n e e' -> deadlines e' = deadlines e -> e_termination e' = Some i ->
  e_termination e = Some i \/ spent e' i.
Proof.
  unfold limit_effect, spent, deadlines, graceful_info. intros H [= D _ _] Hi. destruct (e_remaining_limit e) as [[r id]|].
  - destruct H as (_ & -> & H). rewrite H in Hi. destruct (Z.eqb_spec (r - n) 0) as [->|]; [|by left]. injection Hi as <-.
    destruct (e_termination e); [by left|right]. exists id. by rewrite D.
  - destruct H as [_ H]. left. by rewrite <- H.
Qed.

Lemma queued_from_mono a b segs : a <= b -> Forall (queued_from b) segs -> Forall (queued_from a) segs.
Proof. intros Hab H. eapply Forall_impl; [exact H|]. intros q [? ?]. split; [done|lia]. Qed.

(** An accept call on [input], a prefix of [full]. *)
Lemma accept_step o s n e' input full :
  engine_wf (rn_engine s) ->
  accept (rn_clock s) input (rn_engine s) = (n, e') -> op_input o = full ->
  (input = full \/ exists m, 0 <= m /\ input = ztake m full) ->
  exists segs, step_effect o s
    {| rn_clock := 3 + rn_clock s; rn_engine := e'; rn_tx := rn_tx s; rn_log := rn_log s ++ ztake n full |}
    (ztake n full) [] segs.
Proof.
  intros Hw H Ho Hin. unfold accept in H. set (k := rn_clock s) in *. set (e := rn_engine s) in *.
  assert (Hi : zlen input <= zlen full /\ (n <= zlen input -> 0 <= n -> ztake n input = ztake n full)).
  { destruct Hin as [->|(m & Hm & ->)]; [done|]. rewrite zlen_ztake by done. split; [lia|].
    intros Hn Hn0. rewrite ztake_ztake by lia. f_equal. lia. }
  destruct Hi as [Hi1 Hi2]. pose proof (zlen_nonneg input).
  destruct (accept_at_accepted _ _ _ _ _ _ _ Hw H) as (segs0 & A0).
  destruct (ac_range _ _ _ _ _ _ A0) as [Hn _]. specialize (Hi2 ltac:(lia) ltac:(lia)).
  assert (Hlen : zlen (ztake n full) = n) by (rewrite zlen_ztake; lia).
  assert (Hex : exists segs, accepted (clock (S k)) input n segs (refreshed (clock k) e) e'
    /\ forall seeds off, e_blackhole e = None -> tracks seeds off e ->
       (existsb is_some seeds = true -> off + zlen full < U64_MAX) ->
       queue_bytes segs = survivors (engine_lost seeds e) off (ztake n full) /\ tracks seeds (off + n) e').
  { exists segs0. split; [exact A0|]. intros seeds off Hb Ht Hlt.
    destruct (accept_at_tracks seeds off _ _ _ input e n e' Hw Hb Ht ltac:(intros Ha; specialize (Hlt Ha); lia) H) as (segs & A & Hq & Ht').
    assert (segs = segs0) as ->.
    { pose proof (ac_queue _ _ _ _ _ _ A) as Q1. pose proof (ac_queue _ _ _ _ _ _ A0) as Q2.
      rewrite Q1 in Q2. by apply app_inv_head in Q2. }
    by rewrite <- Hi2. }
  clear segs0 A0. destruct Hex as (segs & A & Hb). exists segs. destruct A as [W R S L Q F K C].
  destruct (refreshed_keeps (clock k) e) as (K1 & K2 & K3 & K4 & K5 & K6 & K7).
  split; cbn [rn_clock rn_engine rn_tx rn_log]; fold k e; rewrite ?Hlen, ?Ho; try done; try lia.
  - rewrite <- K7. unfold static_frame in S. by injection S.
  - rewrite <- K1. unfold static_frame in S. injection S. congruence.
  - intros i Hi. apply (limit_effect_term _ _ _ _ L). by rewrite (refreshed_term _ _ _ Hi).
  - right. by rewrite app_nil_r.
  - rewrite Q, K6. apply sent_nil.
  - eapply queued_from_mono; [|exact F]. apply clock_mono. lia.
  - destruct (refresh_frame (clock k) e) as (_ & Hr & _). apply limit_effect_charged in L.
    unfold charged, refreshed in *. by rewrite Hr in L.
  - destruct C as [-> _]. destruct (refresh_frame (clock k) e) as (_ & _ & Vc).
    destruct (counts_parts _ _ Vc) as [Va _]. unfold refreshed. by rewrite Va.
  - etrans; [|apply refreshed_deadlines]. unfold static_frame in S. unfold deadlines. by injection S as _ -> _ -> -> _.
  - intros i Hi Hi'. assert (D : deadlines e' = deadlines (refreshed (clock k) e)).
    { unfold static_frame in S. unfold deadlines. by injection S as _ -> _ -> -> _. }
    destruct (limit_effect_origin _ _ _ _ L D Hi') as [Hr|]; [left|by right].
    apply (due_info_mono (clock k)); [apply clock_mono; lia|]. by apply refreshed_origin.
Qed.

(** What draining, shutdown and termination polls leave alone. *)
Definition still (e : DirectionEngine) :=
  (e_plan e, e_blackhole e, e_remaining_limit e, e_stream_loss e, e_stream_loss_offset e,
   v_bytes_accepted (e_evidence e), (e_direction e, e_disconnect e)).

Lemma quiet_step o s s' w : op_input o = [] ->
  (rn_clock s <= rn_clock s')%nat -> engine_wf (rn_engine s) -> engine_wf (rn_engine s') ->
  still (rn_engine s') = still (rn_engine s) -> rn_log s' = rn_log s ->
  (forall i, e_termination (rn_engine s) = Some i -> e_termination (rn_engine s') = Some i) ->
  (forall i, e_termination (rn_engine s) = None -> e_termination (rn_engine s') = Some i ->
    due_info (clock (rn_clock s')) (rn_engine s) i) ->
  (overrun \/ sunk (rn_tx s') = sunk (rn_tx s) ++ w) ->
  sent (clock (rn_clock s')) w (e_queue (rn_engine s)) (e_queue (rn_engine s')) ->
  step_effect o s s' [] w [].
Proof.
  intros Ho Hk Hw Hw' [= S1 S2 S3 S4 S5 S6 S7 S8] Hl Ht Hi Hs Hsent.
  split; rewrite ?Ho, ?app_nil_r; try done.
  - intros seeds off Hb Htr Hlt. split; [done|]. change (zlen []) with 0. rewrite Z.add_0_r.
    apply (tracks_congr _ _ (rn_engine s)); [done|congruence|done].
  - unfold charged. rewrite S3. change (zlen []) with 0. pose proof (wf_limit _ _ Hw) as L.
    unfold limit_wf in L. destruct (e_remaining_limit (rn_engine s)) as [[r id]|]; [|done].
    rewrite Z.sub_0_r. split; [lia|done].
  - rewrite S6. change (zlen []) with 0. destruct (wf_ledger _ _ Hw). unfold sat_add. lia.
  - unfold deadlines. congruence.
  - intros i H0 H1. left. by apply Hi.
Qed.

Lemma drain_still e e' : drain_frame e' = drain_frame e ->
  still e' = still e /\ e_termination e' = e_termination e.
Proof. unfold drain_frame, still. intros [= ]. split; congruence. Qed.

Lemma arm_slow_close_still now e timer :
  still (set_e_shutdown_timer timer (arm_slow_close now e)) = still e
  /\ e_termination (arm_slow_close now e) = e_termination e.
Proof.
  unfold arm_slow_close. destruct (e_shutdown_deadline e); [done|].
  destruct (e_slow_close e) as [d|]; [|done]. by destruct (negb (d =? 0)).
Qed.

Lemma refresh_still now e : still (refresh_sync_terminations now e) = still e.
Proof.
  destruct (refreshed_keeps now e) as (K1 & K2 & K3 & _ & _ & _ & K7).
  destruct (refresh_frame now e) as (_ & L & V). destruct (counts_parts _ _ V) as [Va _].
  pose proof (refreshed_deadlines now e) as D. unfold deadlines in D. injection D as D1 D2 _.
  unfold still, refreshed in *. congruence.
Qed.

Lemma poll_due_still k e r k' e' : poll_due_termination k e = (r, k', e') ->
  still e' = still e /\ (forall i, e_termination e = Some i -> e_termination e' = Some i).
Proof.
  unfold poll_due_termination. cbv zeta. intros H. split.
  - revert H. pose proof (refresh_still (clock k) e) as S1.
    set (e1 := refresh_sync_terminations (clock k) e) in *. clearbody e1. rewrite <- S1.
    destruct (e_termination e1); [by intros [= <- <- <-]|].
    destruct (due_deadline e1) as [d|]; [|by intros [= <- <- <-]].
    destruct (clock (S k) <? d).
    + destruct (timer_poll _ _ _ _) as [fired timer]. destruct fired; cbn [negb]; [|by intros [= <- <- <-]].
      pose proof (refresh_still (clock (4 + k)) (set_e_term_timer timer e1)) as S2.
      destruct (e_termination (refresh_sync_terminations _ (set_e_term_timer timer e1)));
        intros [= <- <- <-]; exact S2.
    + destruct (e_termination (refresh_sync_terminations _ e1)); intros [= <- <- <-]; apply refresh_still.
  - intros i Hi. revert H. change (refresh_sync_terminations (clock k) e) with (refreshed (clock k) e).
    rewrite (refreshed_term _ _ _ Hi), Hi. by intros [= <- <- <-].
Qed.

Lemma exec_effect s o : engine_wf (rn_engine s) ->
  exists gained w segs, step_effect o s (exec s o) gained w segs.
Proof.
  intros Hw. destruct o as [input|bufs| | | |]; unfold exec.
  - destruct (accept (rn_clock s) input (rn_engine s)) as [n e'] eqn:E.
    destruct (accept_step (OpAccept input) s n e' input input Hw E eq_refl ltac:(by left)) as (segs & H).
    by exists (ztake n input), [], segs.
  - destruct (accept_vectored (rn_clock s) bufs (rn_engine s)) as [n e'] eqn:E.
    unfold accept_vectored in E.
    destruct (accept_vectored_shape (clock (rn_clock s)) (clock (S (rn_clock s)))
      (clock (S (S (rn_clock s)))) bufs _ Hw) as (input & E2 & Hin). rewrite E2 in E.
    destruct (accept_step (OpAcceptVectored bufs) s n e' input (concat bufs) Hw E eq_refl Hin) as (segs & H).
    by exists (ztake n (concat bufs)), [], segs.
  - unfold engine_poll_flush.
    destruct (poll_queue (rn_clock s) (rn_engine s) (rn_tx s)) as [[[r k'] e'] t'] eqn:E.
    destruct (poll_queue_spec _ _ _ _ _ _ _ Hw E) as (w & P1 & P2 & P3 & P4 & _ & _ & P7).
    apply drain_still in P4 as [P4 P5].
    assert (G : forall t'', sunk t'' = sunk t' -> step_effect OpFlush s
      {| rn_clock := k'; rn_engine := e'; rn_tx := t''; rn_log := rn_log s |} [] w []).
    { intros t'' Ht. apply quiet_step; cbn; try done; [by rewrite P5|intros i; rewrite P5; congruence|by rewrite Ht]. }
    exists [], w, []. destruct r as [[u|err]|]; [|by apply G..].
    destruct (tx_flush t') as [r2 t''] eqn:Ef. apply G. pose proof (tx_flush_keeps t') as K. by rewrite Ef in K.
  - destruct (engine_poll_shutdown_exit (rn_clock s) (rn_engine s) (rn_tx s) Hw) as
      [r k' e' t' E Hr|k1 e1 t1 timer E Hti|k1 e1 t1 timer k' E Hti Hk Hd];
      destruct (poll_queue_spec _ _ _ _ _ _ _ Hw E) as (w & P1 & P2 & P3 & P4 & _ & _ & P7);
      apply drain_still in P4 as [P4 P5]; exists [], w, [].
    + apply quiet_step; cbn; try done; [by rewrite P5|intros i; rewrite P5; congruence].
    + destruct (arm_slow_close_still (clock k1) e1 timer) as [A1 A2].
      destruct (arm_slow_close_frame (clock k1) e1) as (A3 & _).
      apply quiet_step; cbn; try done; try lia; [by apply wf_shutdown_timer, wf_arm_slow_close|congruence|congruence|congruence|].
      rewrite A3. apply (sent_mono (clock k1)); [apply clock_mono; lia|done].
    + destruct (arm_slow_close_still (clock k1) e1 timer) as [A1 A2].
      destruct (arm_slow_close_frame (clock k1) e1) as (A3 & _).
      apply quiet_step; cbn; try done; try lia; [by apply wf_shutdown_timer, wf_arm_slow_close|congruence|congruence|congruence| |].
      * by rewrite tx_shutdown_keeps.
      * rewrite A3. apply (sent_mono (clock k1)); [apply clock_mono; lia|done].
  - destruct (poll_due_termination (rn_clock s) (rn_engine s)) as [[r k'] e'] eqn:E.
    destruct (poll_due_spec _ _ _ _ _ Hw E) as [D1 D2 D3 D4 D5]. destruct (poll_due_still _ _ _ _ _ E) as [S1 S2].
    exists [], [], []. apply quiet_step; cbn; try done; [|by right; rewrite app_nil_r|rewrite D3; apply sent_nil].
    intros i Hn Hs. destruct r as [info|]; [|by destruct (D5 eq_refl) as [D5' _]; rewrite D5' in Hs].
    destruct (D4 info eq_refl) as [D4' [D6|[_ D6]]]; [by rewrite D6 in Hn|]. rewrite D4' in Hs. by injection Hs as <-.
  - destruct (refreshed_keeps (clock (rn_clock s)) (rn_engine s)) as (_ & _ & _ & _ & _ & Hq & _).
    unfold refreshed in Hq. exists [], [], [].
    apply quiet_step; cbn; try done; [lia|by apply wf_refresh|apply refresh_still| | | |].
    + intros i Hi. pose proof (refreshed_term (clock (rn_clock s)) _ _ Hi) as E. unfold refreshed in E. by rewrite E.
    + intros i H0 H1. apply (due_info_mono (clock (rn_clock s))); [apply clock_mono; lia|]. by apply refreshed_origin.
    + right. by rewrite app_nil_r.
    + rewrite Hq. apply sent_nil.
Qed.

(** ** Whole runs *)

Definition start (k : nat) (e : DirectionEngine) (t : T) : Run T :=
  {| rn_clock := k; rn_engine := e; rn_tx := t; rn_log := [] |}.
Definition total_input (ops : list Op) : Z := zsum (map (fun o => zlen (op_input o)) ops).

Lemma total_input_nonneg ops : 0 <= total_input ops.
Proof.
  apply zsum_nonneg, Forall_forall. intros x Hx. apply list_elem_of_fmap in Hx as (o & -> & _).
  apply zlen_nonneg.
Qed.

Record run_effect (s s' : Run T) (bound : Z) (gained : bytes) : Prop := {
  re_clock : (rn_clock s <= rn_clock s')%nat;
  re_wf : engine_wf (rn_engine s');
  re_plan : e_plan (rn_engine s') = e_plan (rn_engine s);
  re_blackhole : e_blackhole (rn_engine s') = e_blackhole (rn_engine s);
  re_log : rn_log s' = rn_log s ++ gained;
  re_gained : zlen gained <= bound;
  re_term : forall i, e_termination (rn_engine s) = Some i -> e_termination (rn_engine s') = Some i;
  re_limit : charged (zlen gained) (rn_engine s) (rn_engine s');
  re_accepted : v_bytes_accepted (e_evidence (rn_engine s'))
    = sat_add64 (v_bytes_accepted (e_evidence (rn_engine s))) (zlen gained);
  re_deadlines : deadlines (rn_engine s') = deadlines (rn_engine s);
  re_origin : forall i, e_termination (rn_engine s) = None -> e_termination (rn_engine s') = Some i ->
    due_info (clock (rn_clock s')) (rn_engine s) i \/ spent (rn_engine s') i;
  re_bytes : forall seeds off, e_blackhole (rn_engine s) = None ->
    tracks seeds off (rn_engine s) -> (existsb is_some seeds = true -> off + bound < U64_MAX) ->
    (~ overrun -> sunk (rn_tx s') ++ queue_bytes (e_queue (rn_engine s'))
      = sunk (rn_tx s) ++ queue_bytes (e_queue (rn_engine s))
        ++ survivors (engine_lost seeds (rn_engine s)) off gained)
    /\ tracks seeds (off + zlen gained) (rn_engine s')
}.

Lemma run_ops_effect ops : forall s, engine_wf (rn_engine s) ->
  exists gained, run_effect s (run_ops s ops) (total_input ops) gained.
Proof.
  induction ops as [|o ops IH]; intros s Hw.
  - exists []. cbn. split; rewrite ?app_nil_r; try done.
    + unfold charged. change (zlen []) with 0. pose proof (wf_limit _ _ Hw) as L.
      unfold limit_wf in L. destruct (e_remaining_limit (rn_engine s)) as [[r id]|]; [|done].
      rewrite Z.sub_0_r. split; [lia|done].
    + change (zlen []) with 0. destruct (wf_ledger _ _ Hw). unfold sat_add. lia.
    + congruence.
    + intros seeds off _ Ht _. change (zlen []) with 0. rewrite Z.add_0_r. cbn. by rewrite app_nil_r.
  - change (run_ops s (o :: ops)) with (run_ops (exec s o) ops). destruct (exec_effect s o Hw) as (g1 & w & segs & S).
    destruct (IH (exec s o) (se_wf _ _ _ _ _ _ S)) as (g2 & R).
    exists (g1 ++ g2). pose proof (se_gained _ _ _ _ _ _ S) as G1. pose proof (re_gained _ _ _ _ R) as G2.
    pose proof (zlen_nonneg g1). pose proof (zlen_nonneg g2). pose proof (total_input_nonneg ops).
    change (total_input (o :: ops)) with (zlen (op_input o) + total_input ops).
    destruct R as [R1 R2 R3 R4 R5 R6 R7 R8 RA RD RO R9]. destruct S as [S1 S2 S3 S4 S5 S6 S7 S8 S9 S10 S11 S12 SA SD SO].
    split; try done; try lia; try congruence.
    + by rewrite R5, S5, app_assoc.
    + rewrite zlen_app. lia.
    + intros i Hi. by apply R7, S7.
    + unfold charged in *. rewrite zlen_app. destruct (e_remaining_limit (rn_engine s)) as [[r id]|].
      * destruct S12 as [? E]. rewrite E in R8. destruct R8 as [? ->]. split; [lia|]. do 2 f_equal. lia.
      * by rewrite S12 in R8.
    + rewrite RA, SA, zlen_app. unfold sat_add. lia.
    + intros i Hn Hi. destruct (e_termination (rn_engine (exec s o))) as [j|] eqn:Ej.
      * rewrite (R7 j eq_refl) in Hi. injection Hi as <-. destruct (SO j Hn eq_refl) as [D|(id & L & ->)].
        -- left. apply (due_info_mono (clock (rn_clock (exec s o)))); [by apply clock_mono|done].
        -- right. exists id. unfold charged in R8. rewrite L in R8. destruct R8 as [L1 L2]. rewrite L2.
           unfold deadlines in RD. injection RD as RD _ _. unfold graceful_info. rewrite RD. split; [|done]. do 2 f_equal. lia.
      * destruct (RO i eq_refl Hi) as [D|]; [left|by right]. by eapply due_info_congr.
    + intros seeds off Hb Ht Hlt. pose proof (zlen_nonneg (op_input o)).
      destruct (S11 seeds off Hb Ht ltac:(intros Ha; specialize (Hlt Ha); lia)) as [Q1 T1].
      destruct (R9 seeds (off + zlen g1) ltac:(congruence) T1 ltac:(intros Ha; specialize (Hlt Ha); lia)) as [Q2 T2].
      rewrite zlen_app, Z.add_assoc. split; [|done]. intros Hov. destruct S8 as [?|S8]; [done|].
      rewrite (Q2 Hov), S8, survivors_app, <- Q1. unfold engine_lost in *. rewrite S3.
      rewrite <- (app_assoc (sunk _)). f_equal. rewrite (app_assoc (queue_bytes (e_queue (rn_engine s)))).
      rewrite <- queue_bytes_app, (st_split _ _ _ _ S9). by rewrite app_assoc.
Qed.

Lemma preserving_no_seeds rs proxy key d e plan : e_plan e = plan -> is_preserving_only e = true ->
  existsb is_some (initial_seeds rs proxy key d (faults plan)) = false.
Proof.
  intros Hp. unfold is_preserving_only. rewrite Hp. clear.
  induction (faults plan) as [|f fs IH]; [done|]. cbn. intros H. bools. rewrite IH by done.
  destruct (bernoulli _ _).1; [|done]. by destruct (fs_kind f).
Qed.

(** An engine built from a preserving-only plan stays on the preserving path. *)
Lemma run_preserving k plan rs proxy key d slot e t ops :
  plan_typed plan -> new_with_arc_plan k plan rs proxy key d slot = Ok e ->
  is_preserving_only e = true -> preserving (rn_engine (run_ops (start k e t) ops)).
Proof.
  intros Htyped Hnew Hpres.
  destruct (new_engine_shape _ _ _ _ _ _ _ _ Htyped Hnew) as (Hw & Hp & _ & _ & _ & Ho & Hl & Hb & _).
  destruct (run_ops_effect ops (start k e t) Hw) as (g & R).
  pose proof (preserving_no_seeds rs proxy key d e plan Hp Hpres) as Hs.
  destruct (re_bytes _ _ _ _ R _ 0 (Hb Hpres) (conj Hl (fun _ => Ho))) as [_ [Tr _]]; [by rewrite Hs|].
  split; [rewrite (re_blackhole _ _ _ _ R); by apply Hb|]. by rewrite (loss_ok_active _ _ Tr).
Qed.

(** ** Properties of runs *)

(** C2: every engine state a program can reach satisfies the invariant.  From
    any valid plan, however the calls to [accept], [accept_vectored],
    [poll_flush], [poll_shutdown] and [poll_due_termination] are interleaved:
    the queue accounting is exact, never exceeds the configured bound or 64 KiB,
    no queued segment is empty, an exhausted byte limit has published its
    termination, the shared slot agrees with the engine, and accepted bytes are
    exactly forwarded plus discarded plus buffered bytes. *)
Theorem engine_runs_preserve_invariant (k : nat) (plan : FaultPlan) (rs : Z) (proxy : string) (key : Z)
    (d : Direction) (slot : TermSlot) (e : DirectionEngine) (t : T) (ops : list Op)
    (Htyped : plan_typed plan) (Hnew : new_with_arc_plan k plan rs proxy key d slot = Ok e) :
  engine_wf (rn_engine (run_ops (start k e t) ops)).
Proof.
  destruct (new_engine_shape _ _ _ _ _ _ _ _ Htyped Hnew) as (Hw & _).
  destruct (run_ops_effect ops (start k e t) Hw) as (g & R). apply R.
Qed.

(** C1: a preserving engine is a FIFO byte pipe.  When the plan has only
    preserving faults - neither a blackhole nor stream loss - and the transport
    never claims to have taken more than it was given, then after any
    interleaving of calls the bytes that reached the transport followed by the
    bytes still queued are exactly the bytes the calls reported as owned, in
    order: nothing is lost, duplicated, reordered or invented. *)
Theorem preserving_engine_is_fifo (k : nat) (plan : FaultPlan) (rs : Z) (proxy : string) (key : Z)
    (d : Direction) (slot : TermSlot) (e : DirectionEngine) (t : T) (ops : list Op)
    (Htyped : plan_typed plan) (Hnew : new_with_arc_plan k plan rs proxy key d slot = Ok e)
    (Hpres : is_preserving_only e = true) (Htx : ~ overrun) :
  let s := run_ops (start k e t) ops in
  sunk (rn_tx s) ++ queue_bytes (e_queue (rn_engine s)) = sunk t ++ rn_log s.
Proof.
  destruct (new_engine_shape _ _ _ _ _ _ _ _ Htyped Hnew) as (Hw & Hp & Hd & Hq & _ & Ho & Hl & Hb & _).
  destruct (run_ops_effect ops (start k e t) Hw) as (g & R). cbv zeta.
  pose proof (preserving_no_seeds rs proxy key d e plan Hp Hpres) as Hs.
  destruct (re_bytes _ _ _ _ R _ 0 (Hb Hpres) (conj Hl (fun _ => Ho))) as [E _]; [by rewrite Hs|].
  rewrite (E Htx). cbn. rewrite Hq. cbn. rewrite survivors_none.
  - by rewrite (re_log _ _ _ _ R).
  - intros c. by apply no_seeds_no_loss.
Qed.

(** C3: stream loss depends on the absolute offset only.  For a plan without a
    blackhole, after any interleaving of calls, the bytes out and still queued
    are the [survivors] of the owned bytes: each 32 KiB chunk of the stream is
    kept or lost as a whole, by a decision computed from the seed and the chunk
    number alone, so no fragmentation of the writes changes the outcome. *)
Theorem stream_loss_is_fragmentation_independent (k : nat) (plan : FaultPlan) (rs : Z) (proxy : string)
    (key : Z) (d : Direction) (slot : TermSlot) (e : DirectionEngine) (t : T) (ops : list Op)
    (Htyped : plan_typed plan) (Hnew : new_with_arc_plan k plan rs proxy key d slot = Ok e)
    (Hbh : e_blackhole e = None) (Htx : ~ overrun) (Hbound : total_input ops < U64_MAX) :
  let s := run_ops (start k e t) ops in
  let lost := chunk_lost (faults plan) (initial_seeds rs proxy key d (faults plan)) in
  sunk (rn_tx s) ++ queue_bytes (e_queue (rn_engine s)) = sunk t ++ survivors lost 0 (rn_log s).
Proof.
  destruct (new_engine_shape _ _ _ _ _ _ _ _ Htyped Hnew) as (Hw & Hp & Hd & Hq & _ & Ho & Hl & _ & _).
  destruct (run_ops_effect ops (start k e t) Hw) as (g & R). cbv zeta.
  destruct (re_bytes _ _ _ _ R _ 0 Hbh (conj Hl (fun _ => Ho))) as [E _]; [done|].
  rewrite (E Htx), (re_log _ _ _ _ R). cbn. rewrite Hq. cbn. unfold engine_lost. by rewrite Hp.
Qed.

(** C4: [limit_data] is exact.  Over any run of an engine with a byte limit it
    never owns more than the limit, the remaining budget is the limit less
    what it owned (discarded bytes count too), and owning exactly the limit
    terminates it.  It does not terminate earlier for the limit: an engine
    whose slot was free terminates with the limit's graceful request, all of
    the limit owned, or with the request of a disconnect or blackhole whose
    deadline has passed; without these faults it terminates if and only if
    the limit is owned. *)
Theorem limit_data_is_exact (k : nat) (plan : FaultPlan) (rs : Z) (proxy : string) (key : Z)
    (d : Direction) (slot : TermSlot) (e : DirectionEngine) (t : T) (ops : list Op) (limit : Z) (id : FaultId)
    (Htyped : plan_typed plan) (Hnew : new_with_arc_plan k plan rs proxy key d slot = Ok e)
    (Hlimit : e_remaining_limit e = Some (limit, id)) :
  let s := run_ops (start k e t) ops in
  zlen (rn_log s) <= limit
  /\ e_remaining_limit (rn_engine s) = Some (limit - zlen (rn_log s), id)
  /\ (zlen (rn_log s) = limit -> e_termination (rn_engine s) <> None)
  /\ (slot = None -> forall info, e_termination (rn_engine s) = Some info ->
      due_info (clock (rn_clock s)) e info \/ zlen (rn_log s) = limit /\ info = graceful_info e id)
  /\ (slot = None -> e_disconnect e = None -> e_blackhole e = None ->
      zlen (rn_log s) = limit <-> e_termination (rn_engine s) = Some (graceful_info e id)).
Proof.
  destruct (new_engine_shape _ _ _ _ _ _ _ _ Htyped Hnew) as (Hw & _ & _ & _ & Hslot & _).
  destruct (run_ops_effect ops (start k e t) Hw) as (g & R). cbv zeta.
  rewrite (re_log _ _ _ _ R). cbn. pose proof (re_limit _ _ _ _ R) as C. unfold charged in C.
  cbn [rn_engine start] in C. rewrite Hlimit in C. destruct C as [C1 C2].
  pose proof (wf_limit _ _ (re_wf _ _ _ _ R)) as L. unfold limit_wf in L. rewrite C2 in L.
  assert (Origin : slot = None -> forall info, e_termination (rn_engine (run_ops (start k e t) ops)) = Some info ->
    due_info (clock (rn_clock (run_ops (start k e t) ops))) e info \/ zlen g = limit /\ info = graceful_info e id).
  { intros Hs info Hi. destruct (re_origin _ _ _ _ R info) as [D|(id' & S & ->)]; [cbn; congruence|exact Hi|by left|right].
    rewrite C2 in S. injection S as S <-. pose proof (re_deadlines _ _ _ _ R) as D. unfold deadlines in D. injection D as D _ _.
    cbn in D. unfold graceful_info. rewrite D. split; [lia|done]. }
  assert (Full : zlen g = limit -> e_termination (rn_engine (run_ops (start k e t) ops)) <> None) by (intros Hz; apply L; lia).
  conjs; try done. intros Hs Hd Hb.
  assert (Never : forall info, ~ due_info (clock (rn_clock (run_ops (start k e t) ops))) e info).
  { intros info [(x & E & _)|(x & y & E & _)]; congruence. }
  split.
  - intros Hz. destruct (e_termination (rn_engine (run_ops _ _))) as [info|] eqn:Ei; [|by destruct (Full Hz)].
    destruct (Origin Hs info eq_refl) as [D|[_ ->]]; [by destruct (Never info)|done].
  - intros Hi. destruct (Origin Hs _ Hi) as [D|[Hz _]]; [by destruct (Never (graceful_info e id))|done].
Qed.

(** The first termination is final.  Once a request is set it is the one the
    engine, its shared slot and its evidence report after any further calls. *)
Theorem termination_is_final (k : nat) (plan : FaultPlan) (rs : Z) (proxy : string) (key : Z)
    (d : Direction) (slot : TermSlot) (e : DirectionEngine) (t : T) (ops1 ops2 : list Op)
    (info : TerminationInfo)
    (Htyped : plan_typed plan) (Hnew : new_with_arc_plan k plan rs proxy key d slot = Ok e)
    (Hset : e_termination (rn_engine (run_ops (start k e t) ops1)) = Some info) :
  let e' := rn_engine (run_ops (start k e t) (ops1 ++ ops2)) in
  e_termination e' = Some info /\ e_term_handle e' = Some info
  /\ v_termination (engine_evidence e') = Some (ti_request info).
Proof.
  destruct (new_engine_shape _ _ _ _ _ _ _ _ Htyped Hnew) as (Hw & _).
  destruct (run_ops_effect ops1 (start k e t) Hw) as (g & R). cbv zeta. rewrite run_ops_app.
  destruct (run_ops_effect ops2 _ (re_wf _ _ _ _ R)) as (g2 & R2).
  pose proof (re_term _ _ _ _ R2 _ Hset) as E. pose proof (re_wf _ _ _ _ R2) as W.
  split; [done|]. split; [by rewrite (wf_handle _ _ W)|].
  unfold engine_evidence. cbn. by rewrite (wf_reported _ _ W), E.
Qed.

(** The vectored call is the scalar call.  In every state an engine can
    reach, under any plan, [accept_vectored] on a list of buffers owns the same
    bytes and leaves the same engine as [accept] on their concatenation. *)
Theorem vectored_accept_is_scalar_accept (k : nat) (plan : FaultPlan) (rs : Z) (proxy : string) (key : Z)
    (d : Direction) (slot : TermSlot) (e : DirectionEngine) (t : T) (ops : list Op) (j : nat)
    (bufs : list bytes)
    (Htyped : plan_typed plan) (Hnew : new_with_arc_plan k plan rs proxy key d slot = Ok e) :
  let e' := rn_engine (run_ops (start k e t) ops) in
  accept_vectored j bufs e' = accept j (concat bufs) e'.
Proof.
  cbv zeta. pose proof (run_preserving k plan rs proxy key d slot e t ops Htyped Hnew) as Hp.
  assert (Hpl : e_plan (rn_engine (run_ops (start k e t) ops)) = e_plan e
                /\ engine_wf (rn_engine (run_ops (start k e t) ops))).
  { destruct (new_engine_shape _ _ _ _ _ _ _ _ Htyped Hnew) as (Hw & _).
    destruct (run_ops_effect ops (start k e t) Hw) as (g & R). split; apply R. }
  destruct Hpl as [Hpl Hw]. set (e' := rn_engine _) in *.
  apply accept_vectored_eq; [done|]. intros H. apply Hp. unfold is_preserving_only in *. by rewrite <- Hpl.
Qed.
End Props.
