(* ===== verification/EngineCalls.v ===== *)
(** * Single calls of the engine, and shaping

    What one [accept], one [poll_queue], one [poll_shutdown] and one
    [poll_due_termination] do, for any engine that satisfies the invariant.
    Then release times of queued segments against the configured latency and
    jitter, and segment lengths against the configured slice sizes. *)

From Stdlib Require Import Bool.
From stdpp Require Import base list strings.
From S2P Require Import Prelude Rng Float64 Plan Env TokenBucket EngineState Engine Accept Drain EngineInv Loss AcceptSpec DrainSpec EngineRun EngineProps.

Section Calls.
Context `{Env0 : Env} `{!EnvOk Env0}.

(** C9: [accept] owns exactly what fits.  On an engine without destructive
    faults it takes the longest prefix that the byte limit and the free queue
    capacity allow, queues exactly that prefix in order as non-empty segments
    none of which may leave before the call, and counts it. *)
Theorem accept_owns_what_fits (k : nat) (input : bytes) (e e' : DirectionEngine) (n : Z)
    (Hwf : engine_wf e) (Hpres : preserving e) (Hcall : accept k input e = (n, e')) :
  n = Z.min (zlen input) (bounded_accept_capacity e)
  /\ (exists segs, e_queue e' = e_queue e ++ segs /\ queue_bytes segs = ztake n input
       /\ Forall (queued_from (clock k)) segs)
  /\ e_buffered e' = e_buffered e + n
  /\ v_bytes_accepted (e_evidence e') = sat_add64 (v_bytes_accepted (e_evidence e)) n.
Proof.
  unfold accept in Hcall. rewrite accept_at_preserving in Hcall by done. cbv zeta in Hcall.
  destruct (refreshed_keeps (clock k) e) as (K1 & K2 & K3 & K4 & K5 & K6 & K7).
  destruct (refresh_frame (clock k) e) as (F & _ & V). destruct (counts_parts _ _ V) as (Va & _).
  pose proof (wf_refresh 0 (clock k) e Hwf : engine_wf (refreshed (clock k) e)) as Hw1.
  pose proof (limit_available_wf e Hwf). pose proof (zlen_nonneg input).
  assert (0 <= free_capacity e) by (unfold free_capacity, sat_sub; lia).
  destruct (Z.eqb_spec (limit_available e) 0) as [E0|E0].
  - injection Hcall as <- <-. unfold bounded_accept_capacity. split; [lia|].
    split; [exists []; by rewrite K6, app_nil_r|]. destruct (settled_parts _ _ F) as (_ & _ & B & _).
    unfold refreshed in *. rewrite B, Va, Z.add_0_r. split; [done|].
    destruct (wf_ledger _ _ Hwf). unfold sat_add. lia.
  - set (cap := Z.min (zlen input) (bounded_accept_capacity e)) in *.
    destruct (accept_preserving_spec (clock (S k)) input cap (refreshed (clock k) e) Hw1) as (segs & e2 & E & A & Hq & _).
    { unfold cap, bounded_accept_capacity. rewrite K4, K5. lia. }
    rewrite E in Hcall. injection Hcall as <- <-. destruct A as [W R S L Q Fr Kp (C1 & _)].
    split; [done|]. rewrite K6 in Q. split; [|split].
    + exists segs. split; [done|]. split; [done|]. eapply queued_from_mono; [|exact Fr]. apply clock_mono. lia.
    + rewrite (wf_buffered _ _ W), (wf_buffered _ _ Hwf), Q, queue_bytes_app, zlen_app, Hq.
      rewrite zlen_ztake_le; [done|]. lia.
    + unfold refreshed in *. by rewrite C1, Va.
Qed.

(** a blackhole owns and discards.  While it is discarding, [accept] takes
    the whole input up to the byte limit whatever the queue bound, queues
    nothing, and counts every byte as accepted and discarded. *)
Theorem blackhole_owns_and_discards (k : nat) (input : bytes) (e e' : DirectionEngine) (n : Z)
    (Hwf : engine_wf e) (Hbh : blackhole_discarding (clock (S (S k))) e = true)
    (Hcall : accept k input e = (n, e')) :
  n = Z.min (zlen input) (limit_available e)
  /\ e_queue e' = e_queue e
  /\ v_bytes_accepted (e_evidence e') = sat_add64 (v_bytes_accepted (e_evidence e)) n
  /\ v_bytes_discarded (e_evidence e') = sat_add64 (v_bytes_discarded (e_evidence e)) n.
Proof.
  unfold accept in Hcall. rewrite accept_at_unfold in Hcall by done. cbv zeta in Hcall.
  destruct (refreshed_keeps (clock k) e) as (K1 & K2 & K3 & K4 & K5 & K6 & K7).
  destruct (refresh_frame (clock k) e) as (F & _ & V). destruct (counts_parts _ _ V) as (Va & _ & Vd).
  pose proof (wf_refresh 0 (clock k) e Hwf : engine_wf (refreshed (clock k) e)) as Hw1.
  pose proof (limit_available_wf e Hwf). pose proof (zlen_nonneg input).
  unfold refreshed in *. set (e1 := refresh_sync_terminations (clock k) e) in *.
  assert (Hb1 : blackhole_discarding (clock (S (S k))) e1 = true) by (unfold blackhole_discarding in *; by rewrite K1).
  unfold accept_path in Hcall. rewrite Hb1 in Hcall.
  assert (Hidle : n = 0 -> e' = e1 -> Z.min (zlen input) (limit_available e) = 0 ->
    n = Z.min (zlen input) (limit_available e) /\ e_queue e' = e_queue e
    /\ v_bytes_accepted (e_evidence e') = sat_add64 (v_bytes_accepted (e_evidence e)) n
    /\ v_bytes_discarded (e_evidence e') = sat_add64 (v_bytes_discarded (e_evidence e)) n).
  { intros -> -> Hz. split; [done|]. split; [done|]. rewrite Va, Vd.
    destruct (wf_ledger _ _ Hwf). unfold sat_add. lia. }
  destruct input as [|b input].
  { injection Hcall as <- <-. apply Hidle; try done. change (zlen []) with 0. lia. }
  destruct (Z.eqb_spec (limit_available e1) 0) as [E0|E0].
  { injection Hcall as <- <-. apply Hidle; try done. lia. }
  apply (accept_blackhole_spec 0) in Hcall as [-> A]; [|done].
  destruct A as [W R S L Q Fr Kp (C1 & _ & C2)]. change (zlen (queue_bytes [])) with 0 in C2.
  rewrite Z.sub_0_r in C2. rewrite K4 in *. split; [done|].
  split; [by rewrite Q, app_nil_r, K6|]. by rewrite C1, C2, Va, Vd.
Qed.

(** deadlines and terminations.  [poll_due_termination] answers [Ready] only
    with a termination that was already set or whose configured deadline
    (disconnect, finite blackhole) has passed; it answers [Pending] only when no
    termination is set and every deadline is still ahead.  Either way the engine
    keeps its queue and invariant. *)
Theorem due_terminations_fire_at_deadlines (k k' : nat) (e e' : DirectionEngine) (r : poll TerminationInfo)
    (Hwf : engine_wf e) (Hcall : poll_due_termination k e = (r, k', e')) :
  engine_wf e' /\ e_queue e' = e_queue e
  /\ match r with
     | Ready info => e_termination e' = Some info
         /\ (e_termination e = Some info \/ (e_termination e = None /\ due_info (clock k') e info))
     | Pending => e_termination e' = None
         /\ (forall s, e_disconnect e = Some s -> clock (S k) < ds_deadline s)
         /\ (forall s d, e_blackhole e = Some s -> bs_deadline s = Some d -> clock (S k) < d)
     end.
Proof.
  destruct (poll_due_spec _ _ _ _ _ Hwf Hcall) as [D1 D2 D3 D4 D5]. split; [done|]. split; [done|].
  destruct r as [info|]; [by apply D4|]. destruct (D5 eq_refl) as (P1 & P2 & P3). split; [done|].
  unfold due_deadline in P3. split; [intros s Hs|intros s d Hs Hd]; rewrite Hs in P3.
  - destruct (e_blackhole e) as [b|]; [destruct (bs_deadline b) as [bd|]|]; specialize (P3 _ eq_refl); lia.
  - rewrite Hd in P3. destruct (e_disconnect e); specialize (P3 _ eq_refl); lia.
Qed.

Context {T : Type} `{Tx : AsyncWrite T} `{!AsyncWriteOk T}.

(** No byte leaves early, and the bytes that leave are the front of the
    queue.  One [poll_queue] sends some [w] such that queue = [w] followed by
    the new queue and [w] consists of bytes whose release time had come by the
    last clock reading; it reports [Ready(Ok)] only with an empty queue; it
    counts exactly [w] as forwarded and no longer buffered. *)
Theorem poll_queue_sends_due_prefix (k k' : nat) (e e' : DirectionEngine) (t t' : T) (r : io_poll unit)
    (Hwf : engine_wf e) (Htx : ~ @overrun T Tx) (Hcall : poll_queue k e t = (r, k', e', t')) :
  engine_wf e' /\ exists w,
    sunk t' = sunk t ++ w
    /\ queue_bytes (e_queue e) = w ++ queue_bytes (e_queue e')
    /\ w `prefix_of` due_prefix (clock k') (e_queue e)
    /\ v_bytes_forwarded (e_evidence e') = sat_add64 (v_bytes_forwarded (e_evidence e)) (zlen w)
    /\ e_buffered e' = e_buffered e - zlen w
    /\ (r = Ready (Ok tt) -> e_queue e' = []).
Proof.
  destruct (poll_queue_spec _ _ _ _ _ _ _ Hwf Hcall) as (w & P1 & P2 & P3 & P4 & P5 & P6 & P7).
  split; [done|]. exists w. destruct P7 as [?|P7]; [done|].
  split; [done|]. split; [apply (st_split _ _ _ _ P3)|]. split; [apply (st_due _ _ _ _ P3)|].
  split; [done|]. split; [|done].
  rewrite (wf_buffered _ _ P2), (wf_buffered _ _ Hwf), (st_split _ _ _ _ P3), zlen_app. lia.
Qed.

(** The loop of [poll_queue] terminates.  It satisfies the equation of the
    code's unbounded [loop] - one iteration, then either the result or the rest
    of the loop - so the fuel is never what ends it. *)
Theorem poll_queue_is_its_loop (k : nat) (e : DirectionEngine) (t : T) (Hwf : engine_wf e) :
  poll_queue k e t =
  match queue_step k e t with
  | QDone r k' e' t' => (r, k', e', t')
  | QNext k' e' t' => poll_queue k' e' t'
  end.
Proof.
  pose proof (queue_step_spec k e t Hwf) as S. unfold poll_queue at 1.
  destruct (queue_loop_spec (queue_fuel e) k e t Hwf ltac:(unfold queue_fuel; lia))
    as (r & k' & e' & t' & w & E & _). rewrite E. unfold queue_fuel in E. cbn [queue_loop] in E.
  destruct (queue_step k e t) as [r1 k1 e1 t1|k1 e1 t1]; [by injection E as <- <- <- <-|].
  destruct S as (w1 & Hne & _ & W1 & _ & S & _). unfold poll_queue.
  destruct (queue_loop_spec (queue_fuel e1) k1 e1 t1 W1 ltac:(unfold queue_fuel; lia))
    as (r2 & k2 & e2 & t2 & w2 & E2 & _). rewrite E2.
  apply (queue_loop_more _ (length (queue_bytes (e_queue e)))) in E2; [congruence|].
  pose proof (st_split _ _ _ _ S) as L. unfold queue_fuel. rewrite L, length_app. destruct w1; [done|]. cbn. lia.
Qed.

Lemma queue_loop_drains fuel : forall k e t, engine_wf e ->
  (forall t b, b <> [] -> exists n t', tx_write t b = (Ready (Ok n), t') /\ 0 < n <= zlen b) ->
  Forall (fun q => q_release q <= clock k) (e_queue e) ->
  (length (queue_bytes (e_queue e)) < fuel)%nat ->
  exists k' e' t', queue_loop fuel k e t = Some (Ready (Ok tt), k', e', t')
    /\ e_queue_timer e' = e_queue_timer e.
Proof.
  induction fuel as [|fuel IH]; intros k e t Hw Htx Hdue Hf; [lia|]. cbn [queue_loop].
  pose proof (queue_step_spec k e t Hw) as S.
  assert (Hs : match queue_step k e t with
               | QDone r _ e1 _ => r = Ready (Ok tt) /\ e1 = e
               | QNext _ e1 _ => e_queue_timer e1 = e_queue_timer e /\ exists n front rest, 0 < n <= zlen (q_bytes front)
                   /\ e_queue e = front :: rest /\ e_queue e1 = e_queue (forward_front n front rest e) end).
  { unfold queue_step. destruct (e_queue e) as [|front rest] eqn:Eq; [done|].
    apply Forall_cons in Hdue as [Hd _]. rewrite (proj2 (Z.ltb_ge _ _)) by lia.
    pose proof (wf_segments _ _ Hw) as Hse. rewrite Eq in Hse. apply Forall_cons in Hse as [Hne _].
    destruct (Htx t (q_bytes front) Hne) as (n & t' & Ew & Hn). unfold write_front. rewrite Ew.
    rewrite (proj2 (Z.eqb_neq n 0)), (proj2 (Z.ltb_ge _ _)) by lia.
    split; [done|]. exists n, front, rest. done. }
  destruct (queue_step k e t) as [r k1 e1 t1|k1 e1 t1]; [destruct Hs as [-> ->]; eauto|].
  destruct S as (w & Hne & Hk & W1 & _ & S & _). destruct Hs as [Hti Hs]. rewrite <- Hti. apply IH; [done|done| |].
  - destruct Hs as (n & front & rest & Hn & Eq & ->). rewrite Eq in Hdue. apply Forall_cons in Hdue as [Hd Hr].
    pose proof (clock_mono k k1 ltac:(lia)). unfold forward_front. cbn [e_queue set_e_queue].
    assert (Hr' : Forall (fun q => q_release q <= clock k1) rest)
      by (eapply Forall_impl; [exact Hr|]; cbn; intros; lia).
    destruct (_ =? _); [done|]. constructor; [cbn; lia|done].
  - pose proof (st_split _ _ _ _ S) as L. rewrite L, length_app in Hf. destruct w; [done|]. cbn in Hf. lia.
Qed.

(** Due bytes do get out.  If every queued segment is due and the transport
    always takes at least one byte, a single [poll_queue] succeeds, empties the
    queue, and the transport has received all of it. *)
Theorem due_queue_drains (k : nat) (e : DirectionEngine) (t : T) (Hwf : engine_wf e)
    (Hready : forall t b, b <> [] -> exists n t', tx_write t b = (Ready (Ok n), t') /\ 0 < n <= zlen b)
    (Hbounded : ~ @overrun T Tx)
    (Hdue : Forall (fun q => q_release q <= clock k) (e_queue e)) :
  exists k' e' t', poll_queue k e t = (Ready (Ok tt), k', e', t')
  /\ e_queue e' = [] /\ sunk t' = sunk t ++ queue_bytes (e_queue e).
Proof.
  destruct (queue_loop_drains (queue_fuel e) k e t Hwf Hready Hdue ltac:(unfold queue_fuel; lia))
    as (k' & e' & t' & E & _).
  assert (Ep : poll_queue k e t = (Ready (Ok tt), k', e', t')) by (unfold poll_queue; by rewrite E).
  exists k', e', t'. destruct (poll_queue_spec _ _ _ _ _ _ _ Hwf Ep) as (w & _ & _ & S & _ & Q & _ & [?|Su]); [done|].
  split; [done|]. specialize (Q eq_refl). split; [done|].
  rewrite Su, (st_split _ _ _ _ S), Q. cbn. by rewrite app_nil_r.
Qed.

(** slow close holds the shutdown back.  Whatever [poll_shutdown] answers,
    the transport's own shutdown is polled ([P], which no write changes, no
    longer holds) only when the queue has been drained and the slow-close
    deadline, armed no earlier than this call or by an earlier one, has passed. *)
Theorem slow_close_holds_the_shutdown (P : T -> Prop) (k k' : nat) (e e' : DirectionEngine) (t t' : T)
    (r : io_poll unit) (Hwf : engine_wf e)
    (Hwrites : forall t b, P t -> P (tx_write t b).2) (Hopen : P t)
    (Hcall : engine_poll_shutdown k e t = (r, k', e', t')) (Hshut : ~ P t') :
  e_queue e' = []
  /\ (forall deadline, e_shutdown_deadline e = Some deadline -> deadline <= clock k')
  /\ (forall delay, e_shutdown_deadline e = None -> e_slow_close e = Some delay ->
        clock k + Z.min MAX_STREAM_FAULT_DURATION delay <= clock k').
Proof.
  pose proof (engine_poll_shutdown_exit k e t Hwf) as X. rewrite Hcall in X.
  assert (Keep : forall r1 k1 e1 t1, poll_queue k e t = (r1, k1, e1, t1) -> P t1).
  { intros r1 k1 e1 t1. unfold poll_queue. destruct (queue_loop _ _ _ _) as [[[[r0 k0] e0] t0]|] eqn:El;
      intros [= <- <- <- <-]; [|exact Hopen]. exact (queue_loop_keeps P _ Hwrites _ _ _ _ _ _ _ Hopen El). }
  inversion X as [r1 k1 e1 t1 Eq Hr|k1 e1 t1 timer Eq Hti|k1 e1 t1 timer k1' Eq Hti Hk Hd]; subst.
  - destruct Hshut. by apply (Keep _ _ _ _ Eq).
  - destruct Hshut. by apply (Keep _ _ _ _ Eq).
  - destruct (poll_queue_spec _ _ _ _ _ _ _ Hwf Eq) as (w & Hk1 & _ & _ & F & Q & _).
    destruct (arm_slow_close_frame (clock k1) e1) as (A1 & A2 & A3 & A4).
    assert (Hsc : e_slow_close e1 = e_slow_close e /\ e_shutdown_deadline e1 = e_shutdown_deadline e).
    { unfold drain_frame in F. injection F. intros. by split. }
    destruct Hsc as [Hsc Hsd]. split; [cbn; rewrite A1; by apply Q|]. split.
    + intros deadline Hdl. apply Hd. unfold arm_slow_close. rewrite Hsd, Hdl. congruence.
    + intros delay Hnone Hdelay. rewrite <- Hsd in Hnone. rewrite <- Hsc in Hdelay.
      pose proof (Hd _ (A4 Hnone _ Hdelay)) as Hle. pose proof (clock_mono k k1 Hk1).
      unfold add_or, instant_checked_add in Hle. destruct (_ <=? _) in Hle; lia.
Qed.
End Calls.

(** * What shaping faults do to the segments *)

(** ** Latency *)

(** The least and the most delay the active latency faults can add up to. *)
Fixpoint latency_window (fs : list FaultSpec) (actives : list bool) : Z * Z :=
  match fs, actives with
  | f :: fs', a :: actives' =>
      let '(lo, hi) := latency_window fs' actives' in
      match a, fs_kind f with
      | true, Latency c => (Z.max (lat_delay c - lat_jitter c) 0 + lo, lat_delay c + lat_jitter c + hi)
      | _, _ => (lo, hi)
      end
  | _, _ => (0, 0)
  end.

(** Latency bounds as validation leaves them. *)
Definition latencies_ok (fs : list FaultSpec) : Prop :=
  Forall (fun f => kind_wf (fs_kind f) /\ kind_typed (fs_kind f)) fs.

Lemma latency_nanos_window c rng n r : latency_nanos c rng = (n, r) ->
  0 <= lat_delay c <= MAX_STREAM_FAULT_DURATION -> 0 <= lat_jitter c <= MAX_STREAM_FAULT_DURATION ->
  Z.max (lat_delay c - lat_jitter c) 0 <= n <= lat_delay c + lat_jitter c.
Proof.
  unfold latency_nanos. intros H Hd Hj.
  assert (Ej : Z.min (lat_jitter c) U64_MAX = lat_jitter c)
    by (unfold MAX_STREAM_FAULT_DURATION, NANOS_PER_SEC, U64_MAX in *; lia).
  rewrite Ej in H.
  assert (Es : sat_add64 (sat_mul64 (lat_jitter c) 2) 1 = 2 * lat_jitter c + 1)
    by (unfold sat_add, sat_mul, MAX_STREAM_FAULT_DURATION, NANOS_PER_SEC, U64_MAX in *; lia).
  rewrite Es in H. destruct (Z.eqb_spec (lat_jitter c) 0) as [E0|E0].
  - injection H as <- <-. unfold MAX_STREAM_FAULT_DURATION, NANOS_PER_SEC, U64_MAX in *. lia.
  - pose proof (below_range rng (2 * lat_jitter c + 1) ltac:(lia)) as Hb.
    destruct (below rng (2 * lat_jitter c + 1)) as [v rng'].
    injection H as <- <-. cbn [fst] in Hb. unfold MAX_STREAM_FAULT_DURATION, NANOS_PER_SEC, U64_MAX in *. lia.
Qed.

Lemma latency_window_nonneg fs actives : latencies_ok fs ->
  0 <= (latency_window fs actives).1 <= (latency_window fs actives).2.
Proof.
  intros H. revert actives. induction H as [|f fs [Hw Ht] _ IH]; intros [|a actives]; cbn; try lia.
  specialize (IH actives). destruct (latency_window fs actives) as [lo hi]. cbn [fst snd] in IH.
  destruct a; [|done]. destruct (fs_kind f) as [c| | | | | | |]; cbn in *; lia.
Qed.

Lemma run_stages_window fs : latencies_ok fs -> forall rngs s s' rngs',
  run_stages fs rngs s = (s', rngs') ->
  sg_release s + (latency_window fs (map fst rngs)).2 <= INSTANT_MAX ->
  sg_release s + (latency_window fs (map fst rngs)).1 <= sg_release s'
  <= sg_release s + (latency_window fs (map fst rngs)).2.
Proof.
  induction 1 as [|f fs [Hw Ht] Hok IH]; intros rngs s s' rngs'; cbn [run_stages].
  { intros [= <- <-]. cbn. lia. }
  destruct rngs as [|[active rng] rngs]; [intros [= <- <-]; cbn; lia|].
  destruct (match active, fs_kind f with
            | true, Latency c => _ | true, Slice c => _ | _, _ => _ end) as [s1 rng1] eqn:Es.
  destruct (run_stages fs rngs s1) as [s2 rest] eqn:Er. intros [= <- <-].
  specialize (IH rngs s1 s2 rest Er). pose proof (latency_window_nonneg fs (map fst rngs) Hok) as Hn.
  cbn [map fst latency_window]. destruct (latency_window fs (map fst rngs)) as [lo hi]. cbn [fst snd] in *.
  destruct active; [|injection Es as <- <-; intros; cbn in *; lia].
  destruct (fs_kind f) as [c|c|c|c|c|c|c|c];
    [|injection Es as <- <-; cbn in *; intros; lia..].
  destruct (latency_nanos c rng) as [n r] eqn:El. injection Es as <- <-. cbn [sg_release fst snd] in *.
  cbn in Hw, Ht. pose proof (latency_nanos_window c rng n r El ltac:(lia) ltac:(lia)) as Hnw.
  intros Hm. unfold add_or, instant_checked_add in *.
  destruct (Z.leb_spec (sg_release s + n) INSTANT_MAX) as [Hi|Hi]; [|lia]. lia.
Qed.

(** No stage but latency: releases stay in the window. *)
Definition latency_only (e : DirectionEngine) : Prop :=
  e_bandwidth e = None /\ e_slicer_active e = false.

Definition engine_window (e : DirectionEngine) : Z * Z :=
  latency_window (faults (e_plan e)) (map fst (e_rngs e)).

Lemma engine_window_frame e e' : pipe_frame e' = pipe_frame e -> engine_window e' = engine_window e.
Proof. intros F. frames. unfold engine_window. congruence. Qed.

Lemma push_segment_window now seg e l s e' : latencies_ok (faults (e_plan e)) -> bandwidth_ok e ->
  now + (engine_window e).2 <= INSTANT_MAX ->
  push_segment now seg e = (l, s, e') ->
  exists q, e_queue e' = e_queue e ++ [q]
  /\ now + (engine_window e).1 <= q_release q
  /\ (latency_only e -> q_release q <= now + (engine_window e).2).
Proof.
  unfold push_segment. intros Hok Hb Hm. destruct (run_stages _ _ _) as [st rngs] eqn:Es. cbv zeta. intros H.
  pose proof (run_stages_window _ Hok _ _ _ _ Es Hm) as Hwin. cbn [sg_release] in Hwin.
  change (latency_window (faults (e_plan e)) (map fst (e_rngs e))) with (engine_window e) in Hwin.
  pose proof (latency_window_nonneg (faults (e_plan e)) (map fst (e_rngs e)) Hok) as Hnn.
  change (latency_window (faults (e_plan e)) (map fst (e_rngs e))) with (engine_window e) in Hnn.
  set (e0 := set_e_evidence _ _) in H.
  assert (H0 : e_queue e0 = e_queue e /\ bandwidth_ok e0 /\ (latency_only e -> latency_only e0)) by done.
  clearbody e0. destruct H0 as (Q0 & B0 & L0).
  destruct (throttle _ _ _ e0) as [r1 e1] eqn:E1.
  assert (R1 : sg_release st <= r1 /\ (latency_only e0 -> r1 = sg_release st /\ latency_only e1)).
  { unfold throttle in E1. destruct (e_bandwidth e0) as [b|] eqn:Eb.
    - unfold bandwidth_ok in B0. rewrite Eb in B0. cbn in B0.
      destruct (bucket_consume b (zlen seg) now (sg_release st)) as [[r ms] b'] eqn:Ec.
      destruct (bucket_consume_ok _ _ _ _ _ _ _ B0 (zlen_nonneg seg) Ec) as (_ & Hr & _).
      injection E1 as <- <-. split; [lia|]. intros [L _]. by rewrite Eb in L.
    - injection E1 as <- <-. split; [lia|]. done. }
  apply throttle_spec in E1; [|apply zlen_nonneg|lia|done]. destruct E1 as (_ & _ & _ & _ & [= Q1 _ _]).
  destruct (stagger _ _ e1) as [r2 e2] eqn:E2.
  assert (R2 : r1 <= r2 /\ (latency_only e1 -> r2 = r1)).
  { unfold stagger in E2. destruct (e_slicer_active e1 && _) eqn:Ea; injection E2 as <- <-; (split; [lia|]).
    - intros [_ L]. by rewrite L in Ea.
    - done. }
  apply stagger_spec in E2 as (_ & _ & _ & [= Q2 _ _ _]). injection H as _ _ <-.
  exists {| q_bytes := seg; q_release := r2 |}.
  destruct (queue_segment_spec seg r2 e2) as (Q3 & _). rewrite Q3, Q2, Q1, Q0. split; [done|]. cbn.
  split; [lia|]. intros L. destruct R1 as [_ R1]. destruct (R1 (L0 L)) as [-> L1].
  destruct R2 as [_ R2]. rewrite (R2 L1). lia.
Qed.

(** ** Slices *)

(** The least and the largest slice every active slicer allows. *)
Fixpoint slice_window (fs : list FaultSpec) (actives : list bool) : Z * Z :=
  match fs, actives with
  | f :: fs', a :: actives' =>
      let '(lo, hi) := slice_window fs' actives' in
      match a, fs_kind f with
      | true, Slice c => (Z.min (sl_average_size c - sl_variation c) lo,
                          Z.min (sl_average_size c + sl_variation c) hi)
      | _, _ => (lo, hi)
      end
  | _, _ => (U64_MAX, U64_MAX)
  end.
Definition engine_slices (e : DirectionEngine) : Z * Z :=
  slice_window (faults (e_plan e)) (map fst (e_rngs e)).

Lemma slice_stage_window c rng n r : slice_stage c rng = (n, r) ->
  sl_variation c < sl_average_size c -> 0 < sl_average_size c <= U64_MAX -> 0 <= sl_variation c ->
  sl_average_size c - sl_variation c <= n <= sl_average_size c + sl_variation c.
Proof.
  unfold slice_stage. intros H Hv Ha H0.
  set (span := sat_add64 (sat_mul64 (sl_variation c) 2) 1) in *.
  assert (Hs : 0 < span <= 2 * sl_variation c + 1) by (unfold span, sat_add, sat_mul, U64_MAX; lia).
  clearbody span. pose proof (below_range rng span ltac:(lia)) as Hb.
  destruct (below rng span) as [v rng']. cbn [fst] in Hb. injection H as <- <-.
  unfold sat_add, sat_sub. lia.
Qed.

Lemma slice_draws_window fs : latencies_ok fs -> forall rngs size size' rngs',
  slice_draws fs rngs size = (size', rngs') -> size <= U64_MAX ->
  Z.min size (slice_window fs (map fst rngs)).1 <= size' <= size
  /\ size' <= (slice_window fs (map fst rngs)).2.
Proof.
  induction 1 as [|f fs [Hw Ht] Hok IH]; intros rngs size size' rngs'; cbn [slice_draws].
  { intros [= <- <-]. cbn. lia. }
  destruct rngs as [|[active rng] rngs]; [intros [= <- <-]; cbn; lia|].
  cbn [map fst slice_window]. destruct (slice_window fs (map fst rngs)) as [lo hi] eqn:Ew.
  assert (Skip : (let '(size', rest) := slice_draws fs rngs size in (size', (active, rng) :: rest)) = (size', rngs') ->
    size <= U64_MAX -> Z.min size lo <= size' <= size /\ size' <= hi).
  { destruct (slice_draws fs rngs size) as [sz rest] eqn:Ed. intros [= <- <-] Hs.
    specialize (IH _ _ _ _ Ed Hs). rewrite Ew in IH. exact IH. }
  destruct active; [|exact Skip]. destruct (fs_kind f) as [c|c|c|c|c|c|c|c]; try exact Skip. clear Skip.
  destruct (slice_stage c rng) as [n r] eqn:Est. cbn in Hw, Ht.
  apply slice_stage_window in Est; [|lia|lia|lia].
  destruct (slice_draws fs rngs (Z.min size n)) as [sz rest] eqn:Ed. intros [= <- <-] Hs.
  specialize (IH _ _ _ _ Ed ltac:(lia)). rewrite Ew in IH. cbn [fst snd] in *. lia.
Qed.

Lemma next_chunk_window remaining e c e' : latencies_ok (faults (e_plan e)) ->
  0 < remaining <= U64_MAX -> e_slicer_active e = true -> 0 < (engine_slices e).1 -> 0 < (engine_slices e).2 ->
  next_chunk remaining e = (c, e') ->
  c <= (engine_slices e).2 /\ (c = remaining \/ (engine_slices e).1 <= c).
Proof.
  intros Hok Hr Ha Hlo Hhi. unfold next_chunk, next_slice_size. rewrite Ha.
  destruct (slice_draws _ _ _) as [size rngs] eqn:Ed. intros [= <- <-].
  apply slice_draws_window in Ed; [|done|lia]. fold (engine_slices e) in Ed. lia.
Qed.

Lemma slice_window_positive fs actives : latencies_ok fs ->
  0 < (slice_window fs actives).1 /\ 0 < (slice_window fs actives).2.
Proof.
  intros H. revert actives. induction H as [|f fs [Hw Ht] _ IH]; intros [|a actives]; cbn; try (unfold U64_MAX; lia).
  specialize (IH actives). destruct (slice_window fs actives) as [lo hi]. cbn [fst snd] in IH.
  destruct a; [|done]. destruct (fs_kind f) as [| | | | |c| |]; cbn in *; lia.
Qed.

(** Every slice is small enough, and large enough unless it is the last. *)
Fixpoint sliced (lo hi : Z) (segs : list Queued) : Prop :=
  match segs with
  | [] => True
  | q :: rest => zlen (q_bytes q) <= hi /\ (rest = [] \/ lo <= zlen (q_bytes q)) /\ sliced lo hi rest
  end.

(** ** A run of segments *)

Lemma push_run_shape fuel : forall now data e owned l s e',
  push_run fuel now data e = (owned, l, s, e') -> (length data <= fuel)%nat -> bandwidth_ok e ->
  latencies_ok (faults (e_plan e)) -> e_buffered e + zlen data <= e_max_buffer e ->
  e_buffered e <= e_high_water e -> zlen data <= U64_MAX -> now + (engine_window e).2 <= INSTANT_MAX ->
  exists segs, e_queue e' = e_queue e ++ segs /\ (data = [] -> segs = [])
  /\ Forall (fun q => now + (engine_window e).1 <= q_release q
       /\ (latency_only e -> q_release q <= now + (engine_window e).2)) segs
  /\ (e_slicer_active e = true -> sliced (engine_slices e).1 (engine_slices e).2 segs).
Proof.
  induction fuel as [|fuel IH]; intros now data e owned l s e' H Hf Hb Hok Hcap Hhw Hu Hm.
  { destruct data; [|cbn in Hf; lia]. injection H as <- _ _ <-. exists []. by rewrite app_nil_r. }
  destruct data as [|x data]; [injection H as <- _ _ <-; exists []; by rewrite app_nil_r|].
  cbn [push_run] in H. remember (x :: data) as d eqn:Ed.
  assert (Hd : 0 < zlen d) by (subst d; rewrite zlen_cons; pose proof (zlen_nonneg data); lia).
  destruct (next_chunk (zlen d) e) as [c e1] eqn:En. pose proof En as En'.
  destruct (slice_window_positive (faults (e_plan e)) (map fst (e_rngs e)) Hok) as [Hp1 Hp2].
  apply next_chunk_spec in En; [|done]. destruct En as (Hc & F1 & _ & Q1).
  pose proof (engine_window_frame _ _ F1) as Ew1. injection Q1 as Qq Qb Qh Qw.
  assert (Hpl1 : e_plan e1 = e_plan e /\ e_max_buffer e1 = e_max_buffer e /\ e_slicer_active e1 = e_slicer_active e)
    by (frames; done). destruct Hpl1 as (Hpl1 & Hmx1 & Hsl1).
  rewrite (proj2 (Z.ltb_ge _ _)) in H by lia.
  destruct (push_segment now (ztake c d) e1) as [[l1 s1] e2] eqn:Ep.
  assert (Hb1 : bandwidth_ok e1) by (unfold bandwidth_ok in *; congruence).
  destruct (push_segment_window _ _ _ _ _ _ ltac:(by rewrite Hpl1) Hb1 ltac:(by rewrite Ew1) Ep) as (q & Q2 & Lo & Hi).
  destruct (push_segment_spec _ _ _ _ _ _ Ep Hb1) as (r & _ & Q2' & B2 & W2 & F2 & _ & O2).
  assert (Eq : q = {| q_bytes := ztake c d; q_release := r |}).
  { rewrite Q2 in Q2'. apply app_inv_head in Q2'. by injection Q2'. }
  assert (F : pipe_frame e2 = pipe_frame e) by congruence.
  pose proof (engine_window_frame _ _ F) as Ew2.
  assert (Hpl2 : e_plan e2 = e_plan e /\ e_max_buffer e2 = e_max_buffer e /\ e_slicer_active e2 = e_slicer_active e
    /\ is_some (e_bandwidth e2) = is_some (e_bandwidth e) /\ engine_slices e2 = engine_slices e)
    by (unfold engine_slices; frames; conjs; congruence).
  destruct Hpl2 as (Hpl2 & Hmx2 & Hsl2 & Hbw2 & Hes2).
  assert (Hlen : zlen (ztake c d) = c) by (apply zlen_ztake_le; lia).
  assert (Hrest : zlen (zdrop c d) = zlen d - c) by (rewrite zlen_zdrop; lia).
  assert (Hlo : latency_only e -> latency_only e1 /\ latency_only e2).
  { unfold latency_only. intros [Hn L]. rewrite Qw, Hsl1, Hsl2. split; [done|]. split; [|done].
    rewrite Hn in Hbw2. by destruct (e_bandwidth e2). }
  destruct (push_run fuel now (zdrop c d) e2) as [[[o2 l2] s2] e3] eqn:Er. injection H as <- <- <- <-.
  apply IH in Er; [|unfold zlen in *; lia|done|by rewrite Hpl2|lia|lia|lia|by rewrite Ew2].
  destruct Er as (segs & Q3 & Hnil & Fw & Sl). rewrite Ew1 in *. rewrite Ew2, Hes2 in *.
  exists (q :: segs). split; [rewrite Q3, Q2, Qq, <- app_assoc; done|]. split; [intros Hn; rewrite Hn in Hd; by change (zlen []) with 0 in Hd|].
  split.
  - constructor; [split; [done|intros L; apply Hi, Hlo, L]|].
    eapply Forall_impl; [exact Fw|]. cbn. intros x0 [A B]. split; [done|]. intros L. apply B, Hlo, L.
  - intros Ha. destruct (next_chunk_window (zlen d) e c e1 Hok ltac:(lia) Ha Hp1 Hp2 En') as [C1 C2].
    cbn [sliced]. rewrite Eq. cbn [q_bytes]. rewrite Hlen. split; [done|]. split; [|apply Sl; congruence].
    destruct C2 as [->|C2]; [left|by right]. apply Hnil. apply zlen_zero_inv. lia.
Qed.

Lemma wf_latencies e : engine_wf e -> plan_typed (e_plan e) -> latencies_ok (faults (e_plan e)).
Proof.
  intros Hw Ht. pose proof (proj1 (plan_wf_validate _) (wf_plan _ _ Hw)) as [_ _ _ Hk].
  unfold latencies_ok, plan_typed in *. rewrite Forall_forall in *. intros f Hf. auto.
Qed.

Section Shaping.
Context `{Env0 : Env} `{!EnvOk Env0}.

(** The segments one [accept] adds on the preserving path. *)
Lemma accept_segments k input e n e' : engine_wf e -> preserving e -> plan_typed (e_plan e) ->
  clock (S k) + (engine_window e).2 <= INSTANT_MAX -> accept k input e = (n, e') ->
  exists segs, e_queue e' = e_queue e ++ segs
  /\ Forall (fun q => clock (S k) + (engine_window e).1 <= q_release q
       /\ (latency_only e -> q_release q <= clock (S k) + (engine_window e).2)) segs
  /\ (e_slicer_active e = true -> sliced (engine_slices e).1 (engine_slices e).2 segs).
Proof.
  intros Hw Hp Ht Hm H. unfold accept in H. rewrite accept_at_preserving in H by done. cbv zeta in H.
  destruct (refreshed_keeps (clock k) e) as (K1 & K2 & K3 & K4 & K5 & K6 & K7).
  destruct (refresh_frame (clock k) e) as (F & _). unfold refreshed in *.
  set (e1 := refresh_sync_terminations (clock k) e) in *.
  pose proof (wf_refresh 0 (clock k) e Hw : engine_wf e1) as Hw1.
  assert (Hk : e_rngs e1 = e_rngs e /\ e_bandwidth e1 = e_bandwidth e /\ e_slicer_active e1 = e_slicer_active e).
  { unfold settled_frame in F. do 6 (apply pair_equal_spec in F as [F ?]). conjs; try done.
    unfold static_frame in F. by injection F. }
  destruct Hk as (Hk1 & Hk2 & Hk3).
  assert (Hok : latencies_ok (faults (e_plan e1))) by (rewrite K7; by apply wf_latencies).
  assert (Hwin : engine_window e1 = engine_window e) by (unfold engine_window; by rewrite K7, Hk1).
  assert (Hsli : engine_slices e1 = engine_slices e) by (unfold engine_slices; by rewrite K7, Hk1).
  assert (Hon : latency_only e -> latency_only e1) by (unfold latency_only; by rewrite Hk2, Hk3).
  assert (Hnil : forall ex, e_queue ex = e_queue e -> exists segs, e_queue ex = e_queue e ++ segs
    /\ Forall (fun q => clock (S k) + (engine_window e).1 <= q_release q
       /\ (latency_only e -> q_release q <= clock (S k) + (engine_window e).2)) segs
    /\ (e_slicer_active e = true -> sliced (engine_slices e).1 (engine_slices e).2 segs)).
  { intros ex Hq. exists []. by rewrite Hq, app_nil_r. }
  destruct (limit_available e =? 0); [injection H as <- <-; by apply Hnil|].
  unfold accept_preserving in H. set (cap := Z.min (zlen input) (bounded_accept_capacity e)) in *.
  destruct (Z.eqb_spec cap 0) as [E0|E0]; [injection H as <- <-; by apply Hnil|].
  destruct (push_preserve_run (clock (S k)) (ztake cap input) e1) as [[[o l] s] e2] eqn:Ep.
  pose proof (zlen_nonneg input). pose proof (limit_available_wf e Hw).
  assert (0 <= cap) by (unfold cap, bounded_accept_capacity, free_capacity, sat_sub; lia).
  assert (Hlen : zlen (ztake cap input) = cap) by (apply zlen_ztake_le; lia).
  destruct (wf_capacity _ _ Hw1). destruct (wf_high_water _ _ Hw1).
  assert (Hcl : cap <= limit_available e) by (unfold cap, bounded_accept_capacity; lia).
  assert (Hcap : cap <= free_capacity e1) by (unfold cap, bounded_accept_capacity; rewrite K5; lia).
  destruct (push_run_shape _ _ _ _ _ _ _ _ Ep ltac:(done) (wf_bucket _ _ Hw1) Hok) as (segs & Q & _ & Fw & Sl);
    [unfold free_capacity, sat_sub in Hcap; lia|lia|lia|by rewrite Hwin|].
  rewrite K6 in Q. rewrite Hwin in Fw. rewrite Hsli, Hk3 in Sl.
  assert (Fin : Forall (fun q => clock (S k) + (engine_window e).1 <= q_release q
       /\ (latency_only e -> q_release q <= clock (S k) + (engine_window e).2)) segs).
  { eapply Forall_impl; [exact Fw|]. cbn. intros q [A B]. split; auto. }
  destruct (wf_pushed 0 _ _ _ _ _ _ _ Ep ltac:(rewrite Hlen; exact Hcap) Hw1) as (-> & W & F2 & _). rewrite Hlen in *.
  rewrite (proj2 (Z.eqb_neq cap 0)) in H by done. injection H as <- <-. exists segs. split; [|done].
  rewrite Z.add_0_l in W. apply (wf_add_accepted cap cap) in W; [|lia]. rewrite Z.sub_diag in W.
  destruct (pipe_static _ _ F2) as (_ & Hr & _).
  destruct (settle_spec 0 cap accept_engaged (add_accepted cap e2) W) as (_ & S2 & _).
  { assert (El : limit_available (add_accepted cap e2) = limit_available e).
    { rewrite <- K4. apply limit_available_congr. exact Hr. }
    rewrite El. unfold cap, bounded_accept_capacity. lia. }
  destruct (settled_parts _ _ S2) as (_ & Sq & _). unfold settle in Sq. rewrite Sq. exact Q.
Qed.

(** latency and jitter.  Every segment an [accept] queues is released no
    earlier than the sum of [max(delay - jitter, 0)] over the active latency
    faults after the call, and, when no bandwidth or slice fault is active, no
    later than the sum of [delay + jitter]. *)
Theorem latency_stays_in_its_window (k : nat) (input : bytes) (e e' : DirectionEngine) (n : Z)
    (Hwf : engine_wf e) (Hpres : preserving e) (Htyped : plan_typed (e_plan e))
    (Hclock : clock (S k) + (engine_window e).2 <= INSTANT_MAX) (Hcall : accept k input e = (n, e')) :
  exists segs, e_queue e' = e_queue e ++ segs
  /\ Forall (fun q => clock (S k) + (engine_window e).1 <= q_release q) segs
  /\ (latency_only e -> Forall (fun q => q_release q <= clock (S k) + (engine_window e).2) segs).
Proof.
  destruct (accept_segments k input e n e' Hwf Hpres Htyped Hclock Hcall) as (segs & Q & F & _).
  exists segs. split; [done|]. split; [|intros L]; (eapply Forall_impl; [exact F|]); cbn; intros q [A B]; auto.
Qed.

(** Slice sizes.  With active slicers, every segment an [accept] queues is
    at most [average + variation] of each of them, and at least the smallest
    [average - variation] unless it is the last one of the call. *)
Theorem slices_stay_in_their_window (k : nat) (input : bytes) (e e' : DirectionEngine) (n : Z)
    (Hwf : engine_wf e) (Hpres : preserving e) (Htyped : plan_typed (e_plan e))
    (Hclock : clock (S k) + (engine_window e).2 <= INSTANT_MAX) (Hcall : accept k input e = (n, e'))
    (Hslicer : e_slicer_active e = true) :
  exists segs, e_queue e' = e_queue e ++ segs
  /\ sliced (engine_slices e).1 (engine_slices e).2 segs.
Proof.
  destruct (accept_segments k input e n e' Hwf Hpres Htyped Hclock Hcall) as (segs & Q & _ & S).
  exists segs. split; [done|]. by apply S.
Qed.
End Shaping.
