(* ===== verification/EngineDemo.v ===== *)
(** * Concrete runs of the engine

    Each lemma applies a property of the engine to a concrete plan, clock and
    transport, with every hypothesis discharged by evaluation. *)

From Stdlib Require Import Bool.
From stdpp Require Import base list strings.
From S2P Require Import Prelude Rng Float64 Plan Env TokenBucket EngineState Engine Accept.
From S2P Require Import Drain EngineInv Loss AcceptSpec DrainSpec EngineRun EngineProps EngineCalls.
From S2P Require Import EngineCalls.

(** ** The scene *)

#[local] Instance demo_env : Env := ticking_env 0 1000000.
#[local] Instance demo_env_ok : EnvOk demo_env.
Proof. apply ticking_env_ok. lia. Qed.

Definition always (id : string) (kind : FaultKind) : FaultSpec :=
  {| fs_id := id; fs_probability := f64_one; fs_kind := kind |}.
Definition ms (n : Z) : Duration := n * 1000000.

Definition shaping_plan : FaultPlan := {| faults :=
  [always "lag" (Latency {| lat_delay := ms 20; lat_jitter := ms 5; lat_max_buffer_bytes := 64 |});
   always "cut" (Slice {| sl_average_size := 4; sl_variation := 1; sl_delay := 0 |})] |}.
Definition lag_plan : FaultPlan := {| faults :=
  [always "lag" (Latency {| lat_delay := ms 20; lat_jitter := ms 5; lat_max_buffer_bytes := 64 |})] |}.
Definition limit_plan : FaultPlan := {| faults :=
  [always "cap" (LimitData {| ld_bytes := 8 |}); always "slow" (SlowClose {| sc_delay := ms 30 |})] |}.
Definition loss_plan : FaultPlan := {| faults :=
  [always "lose" (StreamLoss {| slc_loss_rate := f64_one; slc_correlation := f64_zero |})] |}.
Definition hole_plan : FaultPlan := {| faults :=
  [always "hole" (Blackhole {| bh_close_after := Some (ms 90) |})] |}.
Definition drop_plan : FaultPlan := {| faults :=
  [always "drop" (Disconnect {| dc_after := 0; dc_hard_reset := true |})] |}.

Definition demo_engine (p : FaultPlan) : DirectionEngine :=
  match new_with_arc_plan 0 p 7 "proxy" 1 Upstream None with
  | Ok e => e
  | Err _ => engine_empty 0
  end.
Definition demo_pipe (script : list (option Z)) : Pipe :=
  {| pipe_script := script; pipe_taken := []; pipe_closed := false |}.

Lemma pipe_bounded : ~ @overrun Pipe Pipe_write.
Proof.
  intros (t & b & n & t' & H & Hn). cbn in H. pose proof (zlen_nonneg b).
  destruct (pipe_script t) as [|[m|] s]; simplify_eq; lia.
Qed.

Ltac typed := repeat (constructor; [vm_compute; intuition congruence|]); try constructor.

Lemma shaping_typed : plan_typed shaping_plan. Proof. typed. Qed.
Lemma lag_typed : plan_typed lag_plan. Proof. typed. Qed.
Lemma limit_typed : plan_typed limit_plan. Proof. typed. Qed.
Lemma loss_typed : plan_typed loss_plan. Proof. typed. Qed.
Lemma hole_typed : plan_typed hole_plan. Proof. typed. Qed.
Lemma drop_typed : plan_typed drop_plan. Proof. typed. Qed.

Lemma demo_wf p : plan_typed p -> new_with_arc_plan 0 p 7 "proxy" 1 Upstream None = Ok (demo_engine p) ->
  engine_wf (demo_engine p).
Proof. intros Ht Hn. apply (new_engine_shape 0 p 7 "proxy" 1 Upstream None _ Ht Hn). Qed.

Definition demo_ops : list Op :=
  [OpAccept [1; 2; 3; 4; 5; 6; 7; 8; 9; 10]; OpFlush; OpAcceptVectored [[11; 12]; []; [13]];
   OpDue; OpFlush; OpFlush; OpFlush; OpFlush; OpFlush; OpFlush; OpFlush; OpShutdown].

(** ** Runs *)

Lemma engine_runs_preserve_invariant_witness :
  let s := run_ops (start 0 (demo_engine shaping_plan) (demo_pipe [None; Some 2])) demo_ops in
  engine_wf (rn_engine s) /\ rn_log s = [1; 2; 3; 4; 5; 6; 7; 8; 9; 10; 11; 12; 13].
Proof.
  split; [|vm_compute; reflexivity].
  apply (engine_runs_preserve_invariant 0 shaping_plan 7 "proxy" 1 Upstream None);
    [exact shaping_typed|vm_compute; reflexivity].
Defined.

Lemma preserving_engine_is_fifo_witness :
  let s := run_ops (start 0 (demo_engine shaping_plan) (demo_pipe [None; Some 2])) demo_ops in
  sunk (rn_tx s) ++ queue_bytes (e_queue (rn_engine s)) = sunk (demo_pipe [None; Some 2]) ++ rn_log s
  /\ sunk (rn_tx s) <> [].
Proof.
  split; [|vm_compute; discriminate].
  refine (preserving_engine_is_fifo 0 shaping_plan 7 "proxy" 1 Upstream None (demo_engine shaping_plan)
    (demo_pipe [None; Some 2]) demo_ops shaping_typed _ _ pipe_bounded); vm_compute; reflexivity.
Defined.

Lemma stream_loss_is_fragmentation_independent_witness :
  let s := run_ops (start 0 (demo_engine loss_plan) (demo_pipe [])) demo_ops in
  let lost := chunk_lost (faults loss_plan) (initial_seeds 7 "proxy" 1 Upstream (faults loss_plan)) in
  sunk (rn_tx s) ++ queue_bytes (e_queue (rn_engine s))
    = sunk (demo_pipe []) ++ survivors lost 0 (rn_log s)
  /\ lost 0 = true /\ rn_log s = [1; 2; 3; 4; 5; 6; 7; 8; 9; 10; 11; 12; 13].
Proof.
  split; [|vm_compute; split; reflexivity].
  refine (stream_loss_is_fragmentation_independent 0 loss_plan 7 "proxy" 1 Upstream None
    (demo_engine loss_plan) (demo_pipe []) demo_ops loss_typed _ _ pipe_bounded _); vm_compute; reflexivity.
Defined.

Definition cap_reached : TerminationInfo :=
  {| ti_request := Graceful; ti_direction := Upstream; ti_fault_id := Some "cap"%string |}.

Lemma limit_data_is_exact_witness :
  let s := run_ops (start 0 (demo_engine limit_plan) (demo_pipe [])) demo_ops in
  zlen (rn_log s) <= 8
  /\ e_remaining_limit (rn_engine s) = Some (8 - zlen (rn_log s), "cap"%string)
  /\ (zlen (rn_log s) = 8 <-> e_termination (rn_engine s) = Some cap_reached)
  /\ zlen (rn_log s) = 8 /\ zlen (rn_log (run_ops (start 0 (demo_engine limit_plan) (demo_pipe [])) [OpAccept [1; 2; 3; 4; 5; 6; 7]])) = 7.
Proof.
  assert (N : new_with_arc_plan 0 limit_plan 7 "proxy" 1 Upstream None = Ok (demo_engine limit_plan)) by (vm_compute; reflexivity).
  assert (L : e_remaining_limit (demo_engine limit_plan) = Some (8, "cap"%string)) by (vm_compute; reflexivity).
  destruct (limit_data_is_exact 0 limit_plan 7 "proxy" 1 Upstream None
    (demo_engine limit_plan) (demo_pipe []) demo_ops 8 "cap"%string limit_typed N L) as (A & B & _ & _ & C).
  split; [exact A|]. split; [exact B|]. split; [|split; vm_compute; reflexivity].
  apply C; vm_compute; reflexivity.
Defined.

Lemma termination_is_final_witness :
  let e' := rn_engine (run_ops (start 0 (demo_engine limit_plan) (demo_pipe [])) (demo_ops ++ demo_ops)) in
  e_termination e' = Some cap_reached /\ e_term_handle e' = Some cap_reached
  /\ v_termination (engine_evidence e') = Some (ti_request cap_reached).
Proof.
  refine (termination_is_final 0 limit_plan 7 "proxy" 1 Upstream None
    (demo_engine limit_plan) (demo_pipe []) demo_ops demo_ops cap_reached limit_typed _ _);
    vm_compute; reflexivity.
Defined.

Lemma vectored_accept_is_scalar_accept_witness :
  let e' := rn_engine (run_ops (start 0 (demo_engine shaping_plan) (demo_pipe [None])) demo_ops) in
  accept_vectored 99 [[1; 2]; [3]] e' = accept 99 (concat [[1; 2]; [3]]) e'.
Proof.
  refine (vectored_accept_is_scalar_accept 0 shaping_plan 7 "proxy" 1 Upstream None
    (demo_engine shaping_plan) (demo_pipe [None]) demo_ops 99 [[1; 2]; [3]] shaping_typed _).
  vm_compute; reflexivity.
Defined.

(** ** Single calls *)

Lemma shaping_wf : engine_wf (demo_engine shaping_plan).
Proof. apply demo_wf; [exact shaping_typed|vm_compute; reflexivity]. Qed.
Lemma lag_wf : engine_wf (demo_engine lag_plan).
Proof. apply demo_wf; [exact lag_typed|vm_compute; reflexivity]. Qed.
Lemma limit_wf_demo : engine_wf (demo_engine limit_plan).
Proof. apply demo_wf; [exact limit_typed|vm_compute; reflexivity]. Qed.
Lemma hole_wf : engine_wf (demo_engine hole_plan).
Proof. apply demo_wf; [exact hole_typed|vm_compute; reflexivity]. Qed.
Lemma drop_wf : engine_wf (demo_engine drop_plan).
Proof. apply demo_wf; [exact drop_typed|vm_compute; reflexivity]. Qed.

Definition ten : bytes := [1; 2; 3; 4; 5; 6; 7; 8; 9; 10].

Lemma accept_owns_what_fits_witness :
  let '(n, e') := accept 1 ten (demo_engine shaping_plan) in
  n = Z.min (zlen ten) (bounded_accept_capacity (demo_engine shaping_plan)) /\ n = 10
  /\ e_buffered e' = e_buffered (demo_engine shaping_plan) + n.
Proof.
  pose proof (fun e' n => accept_owns_what_fits 1 ten (demo_engine shaping_plan) e' n shaping_wf
    ltac:(split; vm_compute; reflexivity)) as H.
  destruct (accept 1 ten (demo_engine shaping_plan)) as [n e'].
  destruct (H e' n eq_refl) as (H1 & _ & H2 & _).
  split; [exact H1|]. split; [|exact H2]. rewrite H1. vm_compute. reflexivity.
Defined.

Lemma hole_discards : blackhole_discarding (clock 3) (demo_engine hole_plan) = true.
Proof. vm_compute. reflexivity. Qed.

Lemma blackhole_owns_and_discards_witness :
  let '(n, e') := accept 1 ten (demo_engine hole_plan) in
  n = Z.min (zlen ten) (limit_available (demo_engine hole_plan)) /\ n = 10
  /\ e_queue e' = e_queue (demo_engine hole_plan).
Proof.
  pose proof (fun e' n => blackhole_owns_and_discards 1 ten (demo_engine hole_plan) e' n hole_wf hole_discards) as H.
  destruct (accept 1 ten (demo_engine hole_plan)) as [n e'].
  destruct (H e' n eq_refl) as (H1 & H2 & _).
  split; [exact H1|]. split; [|exact H2]. rewrite H1. vm_compute. reflexivity.
Defined.

Lemma due_terminations_fire_at_deadlines_witness :
  exists info k' e', poll_due_termination 5 (demo_engine drop_plan) = (Ready info, k', e')
  /\ e_termination e' = Some info
  /\ (e_termination (demo_engine drop_plan) = Some info
      \/ (e_termination (demo_engine drop_plan) = None /\ due_info (clock k') (demo_engine drop_plan) info)).
Proof.
  destruct (poll_due_termination 5 (demo_engine drop_plan)) as [[r k'] e'] eqn:E.
  pose proof (due_terminations_fire_at_deadlines 5 k' (demo_engine drop_plan) e' r drop_wf E) as (_ & _ & H).
  destruct r as [info|]; [exists info, k', e'; split; [reflexivity|exact H]|].
  exfalso. revert E. vm_compute. discriminate.
Defined.

Definition loaded (p : FaultPlan) : DirectionEngine := (accept 1 ten (demo_engine p)).2.

Lemma loaded_wf p : engine_wf (demo_engine p) -> engine_wf (loaded p).
Proof.
  unfold loaded. destruct (accept 1 ten (demo_engine p)) as [n e] eqn:E. intros Hw.
  destruct (accept_at_accepted _ _ _ _ _ _ _ Hw E) as (segs & A). apply A.
Qed.
Lemma loaded_lag_wf : engine_wf (loaded lag_plan).
Proof. exact (loaded_wf _ lag_wf). Qed.

Lemma poll_queue_sends_due_prefix_witness :
  let '(r, k', e', t') := poll_queue 60 (loaded lag_plan) (demo_pipe [Some 4; None]) in
  exists w, sunk t' = sunk (demo_pipe [Some 4; None]) ++ w
    /\ queue_bytes (e_queue (loaded lag_plan)) = w ++ queue_bytes (e_queue e')
    /\ w `prefix_of` due_prefix (clock k') (e_queue (loaded lag_plan)).
Proof.
  pose proof (fun r k' e' t' => poll_queue_sends_due_prefix 60 k' (loaded lag_plan) e'
    (demo_pipe [Some 4; None]) t' r loaded_lag_wf pipe_bounded) as H.
  destruct (poll_queue 60 (loaded lag_plan) (demo_pipe [Some 4; None])) as [[[r k'] e'] t'].
  destruct (H r k' e' t' eq_refl) as (_ & w & H1 & H2 & H3 & _). exists w. auto.
Defined.

Lemma poll_queue_is_its_loop_witness :
  poll_queue 60 (demo_engine lag_plan) (demo_pipe []) =
  match queue_step 60 (demo_engine lag_plan) (demo_pipe []) with
  | QDone r k' e' t' => (r, k', e', t')
  | QNext k' e' t' => poll_queue k' e' t'
  end.
Proof. apply (poll_queue_is_its_loop 60 (demo_engine lag_plan) (demo_pipe []) lag_wf). Defined.

(** A transport that takes everything. *)
Record Sponge := { sp_taken : bytes; sp_closed : bool }.
#[local] Instance Sponge_write : AsyncWrite Sponge := {
  tx_write p b := (Ready (Ok (zlen b)), {| sp_taken := sp_taken p ++ b; sp_closed := sp_closed p |});
  tx_flush p := (Ready (Ok tt), p);
  tx_shutdown p := (Ready (Ok tt), {| sp_taken := sp_taken p; sp_closed := true |});
  sunk := sp_taken
}.
#[local] Instance Sponge_write_ok : AsyncWriteOk Sponge.
Proof.
  split; intros; cbn in *; simplify_eq; cbn; try done.
  split; [apply zlen_nonneg|]. intros _. by rewrite ztake_all.
Qed.
Definition sponge : Sponge := {| sp_taken := []; sp_closed := false |}.

Lemma sponge_bounded : ~ @overrun Sponge Sponge_write.
Proof. intros (t & b & n & t' & H & Hn). cbn in H. simplify_eq. lia. Qed.

Lemma sponge_ready (t : Sponge) (b : bytes) : b <> [] ->
  exists n t', tx_write t b = (Ready (Ok n), t') /\ 0 < n <= zlen b.
Proof.
  intros Hb. cbn. do 2 eexists. split; [reflexivity|]. pose proof (zlen_nonneg b).
  assert (zlen b <> 0) by (intros E; by apply Hb, zlen_zero_inv). lia.
Qed.

Lemma lag_due : Forall (fun q => q_release q <= clock 60) (e_queue (loaded lag_plan)).
Proof.
  apply List.Forall_forall. intros q Hq. apply Z.leb_le. revert q Hq. apply List.forallb_forall.
  vm_compute. reflexivity.
Qed.

Lemma due_queue_drains_witness :
  exists k' e' t', poll_queue 60 (loaded lag_plan) sponge = (Ready (Ok tt), k', e', t')
  /\ e_queue e' = [] /\ sunk t' = sunk sponge ++ queue_bytes (e_queue (loaded lag_plan)).
Proof.
  apply (due_queue_drains 60 (loaded lag_plan) sponge loaded_lag_wf sponge_ready sponge_bounded lag_due).
Defined.

Definition open (t : Sponge) : Prop := sp_closed t = false.

(** A first [poll_shutdown] arms the 30 ms slow close and stays pending; a later
    one closes the transport. *)
Definition closing : Run Sponge := run_ops (start 5 (demo_engine limit_plan) sponge) [OpShutdown].

Lemma closing_wf : engine_wf (rn_engine closing).
Proof. destruct (run_ops_effect [OpShutdown] (start 5 (demo_engine limit_plan) sponge) limit_wf_demo) as (g & R). apply R. Qed.
Lemma closing_open : open (rn_tx closing).
Proof. vm_compute. reflexivity. Qed.
Lemma closing_deadline : e_shutdown_deadline (rn_engine closing) = Some (clock 5 + ms 30).
Proof. vm_compute. reflexivity. Qed.
Lemma later_shut : ~ open (engine_poll_shutdown 50 (rn_engine closing) (rn_tx closing)).2.
Proof. vm_compute. discriminate. Qed.

Lemma slow_close_holds_the_shutdown_witness :
  let '(r, k', e', t') := engine_poll_shutdown 50 (rn_engine closing) (rn_tx closing) in
  e_queue e' = [] /\ clock 5 + ms 30 <= clock k'.
Proof.
  pose proof (fun k' e' t' r => slow_close_holds_the_shutdown open 50 k' (rn_engine closing) e'
    (rn_tx closing) t' r closing_wf (fun t b H => H) closing_open) as H.
  pose proof later_shut as Hs. rewrite closing_deadline in H.
  destruct (engine_poll_shutdown 50 (rn_engine closing) (rn_tx closing)) as [[[r k'] e'] t'].
  destruct (H k' e' t' r eq_refl Hs) as (H1 & H2 & _). split; [exact H1|exact (H2 _ eq_refl)].
Defined.

Lemma shaping_clock : clock 2 + (engine_window (demo_engine shaping_plan)).2 <= INSTANT_MAX.
Proof. apply Z.leb_le. vm_compute. reflexivity. Qed.
Lemma lag_clock : clock 2 + (engine_window (demo_engine lag_plan)).2 <= INSTANT_MAX.
Proof. apply Z.leb_le. vm_compute. reflexivity. Qed.
Lemma shaping_preserving : preserving (demo_engine shaping_plan).
Proof. split; vm_compute; reflexivity. Qed.
Lemma lag_preserving : preserving (demo_engine lag_plan).
Proof. split; vm_compute; reflexivity. Qed.
Lemma demo_plan_typed p : new_with_arc_plan 0 p 7 "proxy" 1 Upstream None = Ok (demo_engine p) ->
  plan_typed p -> plan_typed (e_plan (demo_engine p)).
Proof.
  intros Hn Ht. destruct (new_engine_shape 0 p 7 "proxy" 1 Upstream None _ Ht Hn) as (_ & -> & _). exact Ht.
Qed.
Lemma shaping_engine_typed : plan_typed (e_plan (demo_engine shaping_plan)).
Proof. apply demo_plan_typed; [vm_compute; reflexivity|exact shaping_typed]. Qed.
Lemma lag_engine_typed : plan_typed (e_plan (demo_engine lag_plan)).
Proof. apply demo_plan_typed; [vm_compute; reflexivity|exact lag_typed]. Qed.
Lemma lag_only : latency_only (demo_engine lag_plan).
Proof. split; vm_compute; reflexivity. Qed.

Lemma latency_stays_in_its_window_witness :
  let '(n, e') := accept 1 ten (demo_engine lag_plan) in
  exists segs, e_queue e' = e_queue (demo_engine lag_plan) ++ segs
  /\ Forall (fun q => clock 2 + ms 15 <= q_release q) segs
  /\ Forall (fun q => q_release q <= clock 2 + ms 25) segs.
Proof.
  pose proof (fun e' n => latency_stays_in_its_window 1 ten (demo_engine lag_plan) e' n lag_wf lag_preserving
    lag_engine_typed lag_clock) as H.
  assert (W : engine_window (demo_engine lag_plan) = (ms 15, ms 25)) by (vm_compute; reflexivity).
  rewrite W in H. destruct (accept 1 ten (demo_engine lag_plan)) as [n e'].
  destruct (H e' n eq_refl) as (segs & Q & Lo & Hi). exists segs. split; [exact Q|].
  split; [exact Lo|exact (Hi lag_only)].
Defined.

Lemma shaping_slicer : e_slicer_active (demo_engine shaping_plan) = true.
Proof. vm_compute. reflexivity. Qed.

Lemma slices_stay_in_their_window_witness :
  let '(n, e') := accept 1 ten (demo_engine shaping_plan) in
  exists segs, e_queue e' = e_queue (demo_engine shaping_plan) ++ segs /\ sliced 3 5 segs.
Proof.
  pose proof (fun e' n => slices_stay_in_their_window 1 ten (demo_engine shaping_plan) e' n shaping_wf
    shaping_preserving shaping_engine_typed shaping_clock) as H.
  assert (W : engine_slices (demo_engine shaping_plan) = (3, 5)) by (vm_compute; reflexivity).
  rewrite W in H. destruct (accept 1 ten (demo_engine shaping_plan)) as [n e'].
  exact (H e' n eq_refl shaping_slicer).
Defined.
