(* ===== verification/Stream.v ===== *)
(** * [ChaosStream] and its evidence ([crates/eggchaos-core/src/stream.rs])

    [StreamEvidence] and what a stream writes to it.  The stream that owns the
    record is its only writer; readers load the counters one by one, so a
    snapshot is modelled at an instant without a concurrent write.  Then a
    transport wrapped with one direction engine, its live policy and its
    evidence.  [AsyncRead] and the vectored write of the transport are
    parameters with their documented contract, like [AsyncWrite]. *)

From Stdlib Require Import Bool.
From stdpp Require Import base list strings.
From S2P Require Import Prelude Rng Float64 Plan Policy Env TokenBucket EngineState Engine Accept Drain.

Definition MAX_EVIDENCE_FAULTS : Z := 128.

Record ActiveFault := { af_id : string; af_fault_type : string }.

Record StreamEvidence := {
  sv_observed_generation : Z;
  sv_pending_generation : Z;
  sv_seed_namespace : Z;
  sv_bytes_accepted : Z;
  sv_bytes_forwarded : Z;
  sv_bytes_discarded : Z;
  sv_high_water_bytes : Z;
  sv_injected_delay_ms : Z;
  sv_throttled_delay_ms : Z;
  sv_segments : Z;
  sv_slices : Z;
  sv_buffered_bytes : Z;
  sv_transitions : Z;
  sv_activations : list Z;
  sv_chunks_evaluated : Z;
  sv_chunks_dropped : Z;
  sv_loss_bytes_discarded : Z;
  sv_active_faults : list ActiveFault * bool;
  sv_termination : option TerminationInfo;
  sv_direct_bytes : Z
}.

Definition stream_evidence_default : StreamEvidence :=
  {| sv_observed_generation := 0; sv_pending_generation := 0; sv_seed_namespace := 0;
     sv_bytes_accepted := 0; sv_bytes_forwarded := 0; sv_bytes_discarded := 0;
     sv_high_water_bytes := 0; sv_injected_delay_ms := 0; sv_throttled_delay_ms := 0;
     sv_segments := 0; sv_slices := 0; sv_buffered_bytes := 0; sv_transitions := 0;
     sv_activations := [0; 0; 0; 0; 0; 0; 0]; sv_chunks_evaluated := 0; sv_chunks_dropped := 0;
     sv_loss_bytes_discarded := 0; sv_active_faults := ([], false); sv_termination := None;
     sv_direct_bytes := 0 |}.

(** [DirectionSummary]. *)
Record DirectionSummary := {
  sm_bytes_accepted : Z;
  sm_bytes_forwarded : Z;
  sm_bytes_discarded : Z;
  sm_segments : Z;
  sm_slices : Z;
  sm_buffered_bytes : Z;
  sm_high_water_bytes : Z;
  sm_injected_delay_ms : Z;
  sm_throttled_delay_ms : Z;
  sm_activations : list Z;
  sm_chunks_evaluated : Z;
  sm_chunks_dropped : Z;
  sm_loss_bytes_discarded : Z;
  sm_termination : option TerminationRequest;
  sm_rng_version : RngVersion
}.

(** The loop of [refresh_policy] over the plan's faults. *)
Fixpoint collect_faults (fs : list FaultSpec) (acc : list ActiveFault) : list ActiveFault * bool :=
  match fs with
  | [] => (acc, false)
  | f :: fs' =>
      if MAX_EVIDENCE_FAULTS <=? zlen acc then (acc, true)
      else collect_faults fs' (acc ++ [{| af_id := fs_id f; af_fault_type := type_name (fs_kind f) |}])
  end.

Definition refresh_policy (snap : PublishedPolicy FaultPlan) (v : StreamEvidence) : StreamEvidence :=
  {| sv_observed_generation := generation snap; sv_pending_generation := sv_pending_generation v;
     sv_seed_namespace := seed_namespace snap;
     sv_bytes_accepted := sv_bytes_accepted v; sv_bytes_forwarded := sv_bytes_forwarded v;
     sv_bytes_discarded := sv_bytes_discarded v; sv_high_water_bytes := sv_high_water_bytes v;
     sv_injected_delay_ms := sv_injected_delay_ms v; sv_throttled_delay_ms := sv_throttled_delay_ms v;
     sv_segments := sv_segments v; sv_slices := sv_slices v; sv_buffered_bytes := sv_buffered_bytes v;
     sv_transitions := sv_transitions v; sv_activations := sv_activations v;
     sv_chunks_evaluated := sv_chunks_evaluated v; sv_chunks_dropped := sv_chunks_dropped v;
     sv_loss_bytes_discarded := sv_loss_bytes_discarded v;
     sv_active_faults := collect_faults (faults (pub_plan snap)) [];
     sv_termination := sv_termination v; sv_direct_bytes := sv_direct_bytes v |}.

Definition set_pending (g : Z) (v : StreamEvidence) : StreamEvidence :=
  {| sv_observed_generation := sv_observed_generation v; sv_pending_generation := g;
     sv_seed_namespace := sv_seed_namespace v;
     sv_bytes_accepted := sv_bytes_accepted v; sv_bytes_forwarded := sv_bytes_forwarded v;
     sv_bytes_discarded := sv_bytes_discarded v; sv_high_water_bytes := sv_high_water_bytes v;
     sv_injected_delay_ms := sv_injected_delay_ms v; sv_throttled_delay_ms := sv_throttled_delay_ms v;
     sv_segments := sv_segments v; sv_slices := sv_slices v; sv_buffered_bytes := sv_buffered_bytes v;
     sv_transitions := sv_transitions v; sv_activations := sv_activations v;
     sv_chunks_evaluated := sv_chunks_evaluated v; sv_chunks_dropped := sv_chunks_dropped v;
     sv_loss_bytes_discarded := sv_loss_bytes_discarded v; sv_active_faults := sv_active_faults v;
     sv_termination := sv_termination v; sv_direct_bytes := sv_direct_bytes v |}.

(** [transitions.fetch_add(1)] wraps. *)
Definition bump_transitions (v : StreamEvidence) : StreamEvidence :=
  {| sv_observed_generation := sv_observed_generation v; sv_pending_generation := sv_pending_generation v;
     sv_seed_namespace := sv_seed_namespace v;
     sv_bytes_accepted := sv_bytes_accepted v; sv_bytes_forwarded := sv_bytes_forwarded v;
     sv_bytes_discarded := sv_bytes_discarded v; sv_high_water_bytes := sv_high_water_bytes v;
     sv_injected_delay_ms := sv_injected_delay_ms v; sv_throttled_delay_ms := sv_throttled_delay_ms v;
     sv_segments := sv_segments v; sv_slices := sv_slices v; sv_buffered_bytes := sv_buffered_bytes v;
     sv_transitions := wadd (sv_transitions v) 1; sv_activations := sv_activations v;
     sv_chunks_evaluated := sv_chunks_evaluated v; sv_chunks_dropped := sv_chunks_dropped v;
     sv_loss_bytes_discarded := sv_loss_bytes_discarded v; sv_active_faults := sv_active_faults v;
     sv_termination := sv_termination v; sv_direct_bytes := sv_direct_bytes v |}.

Definition mirror_engine (e : DirectionEngine) (v : StreamEvidence) : StreamEvidence :=
  let evidence := engine_evidence e in
  let direct := sv_direct_bytes v in
  {| sv_observed_generation := sv_observed_generation v; sv_pending_generation := sv_pending_generation v;
     sv_seed_namespace := sv_seed_namespace v;
     sv_bytes_accepted := sat_add64 (v_bytes_accepted evidence) direct;
     sv_bytes_forwarded := sat_add64 (v_bytes_forwarded evidence) direct;
     sv_bytes_discarded := v_bytes_discarded evidence;
     sv_high_water_bytes := v_high_water_bytes evidence;
     sv_injected_delay_ms := v_injected_delay_ms evidence;
     sv_throttled_delay_ms := v_throttled_delay_ms evidence;
     sv_segments := v_segments evidence; sv_slices := v_slices evidence;
     sv_buffered_bytes := v_buffered_bytes evidence;
     sv_transitions := sv_transitions v; sv_activations := v_activations evidence;
     sv_chunks_evaluated := v_chunks_evaluated evidence; sv_chunks_dropped := v_chunks_dropped evidence;
     sv_loss_bytes_discarded := v_loss_bytes_discarded evidence;
     sv_active_faults := sv_active_faults v;
     sv_termination :=
       match v_termination evidence with
       | None => sv_termination v
       | Some request =>
           match sv_termination v with
           | Some info => Some info
           | None => Some {| ti_request := request; ti_direction := e_direction e;
                             ti_fault_id := match e_termination e with
                                            | Some info => ti_fault_id info | None => None end |}
           end
       end;
     sv_direct_bytes := direct |}.

Definition note_direct (n : Z) (v : StreamEvidence) : StreamEvidence :=
  if 0 <? n then
    {| sv_observed_generation := sv_observed_generation v; sv_pending_generation := sv_pending_generation v;
       sv_seed_namespace := sv_seed_namespace v;
       sv_bytes_accepted := sat_add64 (sv_bytes_accepted v) n;
       sv_bytes_forwarded := sat_add64 (sv_bytes_forwarded v) n;
       sv_bytes_discarded := sv_bytes_discarded v; sv_high_water_bytes := sv_high_water_bytes v;
       sv_injected_delay_ms := sv_injected_delay_ms v; sv_throttled_delay_ms := sv_throttled_delay_ms v;
       sv_segments := sv_segments v; sv_slices := sv_slices v; sv_buffered_bytes := sv_buffered_bytes v;
       sv_transitions := sv_transitions v; sv_activations := sv_activations v;
       sv_chunks_evaluated := sv_chunks_evaluated v; sv_chunks_dropped := sv_chunks_dropped v;
       sv_loss_bytes_discarded := sv_loss_bytes_discarded v; sv_active_faults := sv_active_faults v;
       sv_termination := sv_termination v; sv_direct_bytes := sat_add64 (sv_direct_bytes v) n |}
  else v.

(** [StreamEvidence::snapshot]. *)
Record DirectionEvidenceSnapshot := {
  ds_counters : StreamEvidence;
  ds_active_faults_truncated : bool;
  ds_termination : option TerminationRequest;
  ds_termination_fault_id : option string;
  ds_rng_version : RngVersion
}.
Definition evidence_snapshot (v : StreamEvidence) (rng_version : RngVersion) : DirectionEvidenceSnapshot :=
  {| ds_counters := v;
     ds_active_faults_truncated := (sv_active_faults v).2;
     ds_termination := ti_request <$> sv_termination v;
     ds_termination_fault_id := match sv_termination v with Some i => ti_fault_id i | None => None end;
     ds_rng_version := rng_version |}.

(** At most [MAX_EVIDENCE_FAULTS] identities; truncated exactly when more exist. *)
Lemma collect_faults_spec fs : forall acc, zlen acc <= MAX_EVIDENCE_FAULTS ->
  let r := collect_faults fs acc in
  zlen r.1 <= MAX_EVIDENCE_FAULTS
  /\ r.1 = acc ++ ztake (MAX_EVIDENCE_FAULTS - zlen acc)
       (map (fun f => {| af_id := fs_id f; af_fault_type := type_name (fs_kind f) |}) fs)
  /\ (r.2 = true <-> MAX_EVIDENCE_FAULTS < zlen acc + zlen fs).
Proof.
  induction fs as [|f fs IH]; intros acc Ha; cbn [collect_faults map].
  { cbn. rewrite ztake_nil, app_nil_r. change (zlen (@nil FaultSpec)) with 0. split; [done|]. split; [done|]. split; [done|lia]. }
  pose proof (zlen_nonneg fs). destruct (Z.leb_spec MAX_EVIDENCE_FAULTS (zlen acc)).
  - cbn [fst snd]. split; [done|]. replace (MAX_EVIDENCE_FAULTS - zlen acc) with 0 by lia.
    rewrite ztake_0, app_nil_r. split; [done|]. rewrite zlen_cons. split; [lia|done].
  - cbv zeta. destruct (IH (acc ++ [{| af_id := fs_id f; af_fault_type := type_name (fs_kind f) |}])) as (I1 & I2 & I3).
    { rewrite zlen_app. change (zlen [_]) with 1. lia. }
    split; [done|]. rewrite zlen_app in I2, I3. change (zlen [_]) with 1 in I2, I3. split.
    + rewrite I2, <- app_assoc. f_equal. unfold ztake.
      replace (Z.to_nat (MAX_EVIDENCE_FAULTS - zlen acc)) with (S (Z.to_nat (MAX_EVIDENCE_FAULTS - (zlen acc + 1)))) by lia.
      done.
    + rewrite I3, zlen_cons. lia.
Qed.

(** * The stream *)

Abbreviation LivePolicy := (ArcSwap FaultPlan).

(** ** The rest of the transport *)

(** [poll_read] into a buffer with [cap] free bytes yields the bytes it filled. *)
Class AsyncRead (T : Type) := {
  rx_read : T -> Z -> io_poll bytes * T;
  received : T -> bytes
}.
Class AsyncWriteVectored (T : Type) := {
  tx_write_vectored : T -> list bytes -> io_poll Z * T
}.

(** ** State *)

Record ChaosStream (T : Type) := {
  cs_inner : T;
  cs_engine : DirectionEngine;
  cs_direction : Direction;
  cs_live_policy : option LivePolicy;
  cs_proxy : string;
  cs_connection_key : Z;
  cs_observed : Z;
  cs_evidence : StreamEvidence
}.
Arguments cs_inner {T} _.
Arguments cs_engine {T} _.
Arguments cs_direction {T} _.
Arguments cs_live_policy {T} _.
Arguments cs_proxy {T} _.
Arguments cs_connection_key {T} _.
Arguments cs_observed {T} _.
Arguments cs_evidence {T} _.

Section State.
Context {T : Type}.

(** The fields a call changes: transport, engine and evidence. *)
Definition cs_set (t : T) (e : DirectionEngine) (v : StreamEvidence) (s : ChaosStream T) : ChaosStream T :=
  {| cs_inner := t; cs_engine := e; cs_direction := cs_direction s; cs_live_policy := cs_live_policy s;
     cs_proxy := cs_proxy s; cs_connection_key := cs_connection_key s; cs_observed := cs_observed s;
     cs_evidence := v |}.
Definition cs_set_observed (g : Z) (s : ChaosStream T) : ChaosStream T :=
  {| cs_inner := cs_inner s; cs_engine := cs_engine s; cs_direction := cs_direction s;
     cs_live_policy := cs_live_policy s; cs_proxy := cs_proxy s;
     cs_connection_key := cs_connection_key s; cs_observed := g; cs_evidence := cs_evidence s |}.
(** [mirror_engine] of the stream's own engine. *)
Definition mirrored (s : ChaosStream T) : ChaosStream T :=
  cs_set (cs_inner s) (cs_engine s) (mirror_engine (cs_engine s) (cs_evidence s)) s.

(** [format!("eggchaos stream ...")]. *)
Definition direction_str (d : Direction) : string :=
  match d with Upstream => "upstream" | Downstream => "downstream" end.
Definition terminated_error (info : option TerminationInfo) : IoError :=
  let detail :=
    match info with
    | Some i =>
        match ti_fault_id i with
        | Some id => String.append "terminated by fault "
                       (String.append id (String.append " (" (String.append (direction_str (ti_direction i)) ")")))
        | None => String.append "terminated (" (String.append (direction_str (ti_direction i)) ")")
        end
    | None => "terminated"%string
    end in
  {| io_kind := ConnectionAborted; io_message := String.append "eggchaos stream " detail |}.
End State.

Section Stream.
Context `{E : Env} {T : Type} `{W : AsyncWrite T} `{R : AsyncRead T} `{V : AsyncWriteVectored T}.

(** ** Construction *)

Definition stream_new (k : nat) (inner : T) (plan : FaultPlan) (run_seed : Z) (proxy : string)
    (key : Z) (d : Direction) : result (ChaosStream T) ValidationError :=
  let? engine := engine_new k plan run_seed proxy key d in
  let v := refresh_policy {| generation := 0; pub_plan := plan; seed_namespace := run_seed |}
             stream_evidence_default in
  Ok {| cs_inner := inner; cs_engine := engine; cs_direction := d; cs_live_policy := None;
        cs_proxy := proxy; cs_connection_key := key; cs_observed := 0; cs_evidence := v |}.

Definition passthrough (k : nat) (inner : T) (d : Direction) : ChaosStream T :=
  {| cs_inner := inner; cs_engine := engine_empty k; cs_direction := d; cs_live_policy := None;
     cs_proxy := ""; cs_connection_key := 0; cs_observed := 0; cs_evidence := stream_evidence_default |}.

(** [policy.snapshot()].  The cell always has a current snapshot; the default
    is that of [LivePolicy::default]. *)
Definition current_policy (policy : LivePolicy) : PublishedPolicy FaultPlan :=
  default {| generation := 1; pub_plan := plan_empty; seed_namespace := 0 |} (snapshot policy).

Definition stream_new_live (k : nat) (inner : T) (policy : LivePolicy)
    (proxy : string) (key : Z) (d : Direction) : result (ChaosStream T) ValidationError :=
  let snap := current_policy policy in
  let? engine := new_with_arc_plan k (pub_plan snap) (seed_namespace snap) proxy key d handle_new in
  Ok {| cs_inner := inner; cs_engine := engine; cs_direction := d; cs_live_policy := Some policy;
        cs_proxy := proxy; cs_connection_key := key; cs_observed := generation snap;
        cs_evidence := refresh_policy snap stream_evidence_default |}.

Definition live_snapshot (s : ChaosStream T) : option (PublishedPolicy FaultPlan) :=
  current_policy <$> cs_live_policy s.

(** ** Live transitions *)

(** Replacing the engine by one compiled from [snap]; the [expect] on a
    published plan is the [Err] branch, which leaves the stream unchanged. *)
Definition swap_engine (k : nat) (snap : PublishedPolicy FaultPlan) (s : ChaosStream T) : ChaosStream T :=
  let previous := engine_evidence (cs_engine s) in
  match new_with_arc_plan k (pub_plan snap) (seed_namespace snap) (cs_proxy s) (cs_connection_key s)
          (cs_direction s) (e_term_handle (cs_engine s)) with
  | Err _ => s
  | Ok engine =>
      let engine := absorb_evidence previous engine in
      let v := bump_transitions (set_pending 0 (refresh_policy snap (cs_evidence s))) in
      mirrored (cs_set_observed (generation snap) (cs_set (cs_inner s) engine v s))
  end.

Definition update_live (k : nat) (s : ChaosStream T) : poll unit * nat * ChaosStream T :=
  match live_snapshot s with
  | None => (Ready tt, k, s)
  | Some snap =>
      if generation snap =? cs_observed s then (Ready tt, k, s)
      else
        let v := set_pending (generation snap) (cs_evidence s) in
        if queue_is_empty (cs_engine s)
        then (Ready tt, S k, swap_engine k snap (cs_set (cs_inner s) (cs_engine s) v s))
        else
          let '(outcome, k, engine, inner) := engine_poll_flush k (cs_engine s) (cs_inner s) in
          let s := cs_set inner engine v s in
          if is_pending outcome then (Pending, k, s)
          else (Ready tt, S k, swap_engine k snap s)
  end.

(** ** Observers *)

Definition pending_generation (s : ChaosStream T) : option Z :=
  match live_snapshot s with
  | Some snap => if generation snap =? cs_observed s then None else Some (generation snap)
  | None => None
  end.

Definition poll_termination (k : nat) (s : ChaosStream T)
    : poll (option TerminationInfo) * nat * ChaosStream T :=
  if engine_is_empty (cs_engine s) then (Pending, k, s)
  else
    let '(r, k, engine) := poll_due_termination k (cs_engine s) in
    (match r with Ready info => Ready (Some info) | Pending => Pending end, k,
     cs_set (cs_inner s) engine (cs_evidence s) s).

Definition summary (s : ChaosStream T) : DirectionSummary :=
  let e := engine_evidence (cs_engine s) in
  let direct := sv_direct_bytes (cs_evidence s) in
  {| sm_bytes_accepted := sat_add64 (v_bytes_accepted e) direct;
     sm_bytes_forwarded := sat_add64 (v_bytes_forwarded e) direct;
     sm_bytes_discarded := v_bytes_discarded e;
     sm_segments := v_segments e; sm_slices := v_slices e;
     sm_buffered_bytes := v_buffered_bytes e; sm_high_water_bytes := v_high_water_bytes e;
     sm_injected_delay_ms := v_injected_delay_ms e; sm_throttled_delay_ms := v_throttled_delay_ms e;
     sm_activations := v_activations e; sm_chunks_evaluated := v_chunks_evaluated e;
     sm_chunks_dropped := v_chunks_dropped e; sm_loss_bytes_discarded := v_loss_bytes_discarded e;
     sm_termination := v_termination e; sm_rng_version := v_rng_version e |}.
(** Its accepted and forwarded bytes. *)
Definition summary_bytes (s : ChaosStream T) : Z * Z :=
  (sm_bytes_accepted (summary s), sm_bytes_forwarded (summary s)).

(** ** [AsyncWrite] *)

(** [termination_request().is_some() && queue_is_empty()]. *)
Definition ended (e : DirectionEngine) : bool := is_some (termination_request e) && queue_is_empty e.

Definition write_direct (r : io_poll Z * T) (s : ChaosStream T) : io_poll Z * ChaosStream T :=
  match r with
  | (Ready (Ok written), inner) =>
      (Ready (Ok written), cs_set inner (cs_engine s) (note_direct written (cs_evidence s)) s)
  | (other, inner) => (other, cs_set inner (cs_engine s) (cs_evidence s) s)
  end.

(** [poll_write] behind [update_live] and the direct path. *)
Definition write_engine (k : nat) (data : bytes) (s : ChaosStream T) : io_poll Z * nat * ChaosStream T :=
  let '(drive, k, engine, inner) := engine_poll_flush k (cs_engine s) (cs_inner s) in
  let s := cs_set inner engine (cs_evidence s) s in
  match drive with
  | Ready (Err error) => (Ready (Err error), k, mirrored s)
  | _ =>
      match data with
      | [] => (Ready (Ok 0), k, s)
      | _ =>
          if ended engine then (Ready (Err (terminated_error (e_termination engine))), k, s)
          else
            let '(accepted, engine) := accept k data engine in
            let k := (3 + k)%nat in
            if 0 <? accepted then
              let '(_, k, engine, inner) := engine_poll_flush k engine inner in
              (Ready (Ok accepted), k, mirrored (cs_set inner engine (cs_evidence s) s))
            else
              let s := cs_set inner engine (cs_evidence s) s in
              if ended engine then (Ready (Err (terminated_error (e_termination engine))), k, s)
              else (Pending, k, s)
      end
  end.

Definition stream_poll_write (k : nat) (data : bytes) (s : ChaosStream T) : io_poll Z * nat * ChaosStream T :=
  let '(live, k, s) := update_live k s in
  if is_pending live then (Pending, k, s)
  else if engine_is_empty (cs_engine s) then
    let '(r, s) := write_direct (tx_write (cs_inner s) data) s in (r, k, s)
  else write_engine k data s.

Definition stream_poll_flush (k : nat) (s : ChaosStream T) : io_poll unit * nat * ChaosStream T :=
  let '(live, k, s) := update_live k s in
  if is_pending live then (Pending, k, s)
  else
    let '(outcome, k, engine, inner) := engine_poll_flush k (cs_engine s) (cs_inner s) in
    (outcome, k, mirrored (cs_set inner engine (cs_evidence s) s)).

Definition stream_poll_shutdown (k : nat) (s : ChaosStream T) : io_poll unit * nat * ChaosStream T :=
  let '(live, k, s) := update_live k s in
  if is_pending live then (Pending, k, s)
  else
    let '(outcome, k, engine, inner) := engine_poll_shutdown k (cs_engine s) (cs_inner s) in
    (outcome, k, mirrored (cs_set inner engine (cs_evidence s) s)).

(** The branch of [poll_write_vectored] with no bounded capacity. *)
Definition write_vectored_full (k : nat) (s : ChaosStream T) : io_poll Z * nat * ChaosStream T :=
  let '(drive, k, engine, inner) := engine_poll_flush k (cs_engine s) (cs_inner s) in
  match drive with
  | Ready (Err error) => (Ready (Err error), k, cs_set inner engine (cs_evidence s) s)
  | _ =>
      let engine := refresh_sync_terminations (clock k) engine in
      let s := cs_set inner engine (cs_evidence s) s in
      if ended engine then (Ready (Err (terminated_error (e_termination engine))), S k, s)
      else (Pending, S k, s)
  end.

Definition stream_poll_write_vectored (k : nat) (bufs : list bytes) (s : ChaosStream T)
    : io_poll Z * nat * ChaosStream T :=
  let '(live, k, s) := update_live k s in
  if is_pending live then (Pending, k, s)
  else if engine_is_empty (cs_engine s) then
    let '(r, s) := write_direct (tx_write_vectored (cs_inner s) bufs) s in (r, k, s)
  else if negb (is_preserving_only (cs_engine s)) then stream_poll_write k (concat bufs) s
  else
    let bounded := bounded_accept_capacity (cs_engine s) in
    if bounded =? 0 then write_vectored_full k s
    else stream_poll_write k (join_prefix (Z.min (total_len bufs) bounded) bufs) s.

(** ** [AsyncRead] *)

(** Reads pump the write queue; a drained graceful termination turns a
    would-be-idle read into end of file. *)
Definition stream_poll_read (k : nat) (cap : Z) (s : ChaosStream T) : io_poll bytes * nat * ChaosStream T :=
  if engine_is_empty (cs_engine s) then
    let '(r, inner) := rx_read (cs_inner s) cap in
    (r, k, cs_set inner (cs_engine s) (cs_evidence s) s)
  else
    let '(_, k, engine, inner) := engine_poll_flush k (cs_engine s) (cs_inner s) in
    let s := mirrored (cs_set inner engine (cs_evidence s) s) in
    let '(r, inner) := rx_read inner cap in
    let s := cs_set inner (cs_engine s) (cs_evidence s) s in
    match queue_is_empty engine, termination_request engine, r with
    | true, Some Graceful, Pending => (Ready (Ok []), k, s)
    | _, _, _ => (r, k, s)
    end.
End Stream.
