(* ===== verification/StreamProps.v ===== *)
(** * Correctness of [ChaosStream]

    A run interleaves the stream's calls with policy publications.  Every call
    decomposes into engine operations, direct writes and engine swaps; each of
    these moves the stream by a [moved] step, and [moved] composes. *)

From Stdlib Require Import Bool.
From stdpp Require Import base list strings.
From S2P Require Import Prelude Rng Float64 Plan Policy Env TokenBucket EngineState Engine.
From S2P Require Import Accept Drain EngineInv Loss AcceptSpec DrainSpec EngineRun.
From S2P Require Import EngineProps Stream.

(** ** The swap of an engine *)

(** A fresh engine that absorbs the counters of a drained one. *)
Lemma wf_absorb prev e : engine_wf e -> e_queue e = [] ->
  v_bytes_accepted (e_evidence e) = 0 -> v_bytes_forwarded (e_evidence e) = 0 ->
  ledger_wf 0 prev 0 -> v_high_water_bytes prev <= BUFFER_MAX -> length (v_activations prev) = 7%nat ->
  engine_wf (absorb_evidence prev e)
  /\ v_bytes_accepted (e_evidence (absorb_evidence prev e)) = v_bytes_accepted prev
  /\ v_bytes_forwarded (e_evidence (absorb_evidence prev e)) = v_bytes_forwarded prev.
Proof.
  intros Hw Hq Ha Hf [A F D B] Hh Hl. pose proof (wf_ledger _ _ Hw) as [A' F' D' B'].
  pose proof (wf_buffered _ _ Hw) as Hb. rewrite Hq in Hb. change (zlen (queue_bytes [])) with 0 in Hb.
  rewrite Ha, Hf, Hb in B'. assert (Hd : v_bytes_discarded (e_evidence e) = 0) by (unfold U64_MAX in *; lia).
  assert (Z1 : forall x, 0 <= x <= U64_MAX -> sat_add64 0 x = x) by (intros; unfold sat_add; lia).
  split; [|unfold absorb_evidence; cbn; rewrite Ha, Hf; split; by apply Z1].
  destruct Hw. split; unfold absorb_evidence; cbn; try done; try lia.
  - unfold absorb_activations. rewrite length_zip_with, Hl, wf_activations. done.
  - rewrite Hb. split; cbn; rewrite ?Ha, ?Hf, ?Hd, ?Z1 by lia; try done.
Qed.

(** ** Policies and transports *)

Definition policy_ok (p : LivePolicy) : Prop :=
  let plan := pub_plan (current_policy p) in
  plan_typed plan /\ plan_validate plan = Ok tt.
Definition policy_preserving (p : LivePolicy) : Prop :=
  forallb (fun f => match fs_kind f with Blackhole _ | StreamLoss _ => false | _ => true end)
    (faults (pub_plan (current_policy p))) = true.

(** A transport that may stall but does not fail. *)
Record reliable (T : Type) `{W : AsyncWrite T} : Prop := {
  rl_write : forall (t : T) b, b <> [] ->
    match (tx_write t b).1 with
    | Ready (Ok n) => 0 < n <= zlen b
    | Ready (Err _) => False
    | Pending => True
    end;
  rl_empty : forall (t : T), match (tx_write t []).1 with Ready (Ok n) => n = 0 | _ => True end;
  rl_flush : forall (t : T), match (tx_flush t).1 with Ready (Err _) => False | _ => True end
}.
Arguments rl_write {T W} _.
Arguments rl_empty {T W} _.
Arguments rl_flush {T W} _.

(** What the stream needs of the transport's own vectored write and read. *)
Class AsyncVectoredOk (T : Type) `{W : AsyncWrite T} `{R : AsyncRead T} `{V : AsyncWriteVectored T} : Prop := {
  txv_ok : forall t bufs n t', tx_write_vectored t bufs = (Ready (Ok n), t') ->
    0 <= n <= zlen (concat bufs) /\ sunk t' = sunk t ++ ztake n (concat bufs);
  txv_other : forall t bufs, match (tx_write_vectored t bufs).1 with
    | Ready (Ok _) => True | _ => sunk (tx_write_vectored t bufs).2 = sunk t end;
  rx_keeps : forall t cap, sunk (rx_read t cap).2 = sunk t
}.

Section Reliable.
Context `{Env0 : Env} `{!EnvOk Env0} {T : Type} `{Tx : AsyncWrite T} `{!AsyncWriteOk T}.

Lemma reliable_bounded : reliable T -> ~ @overrun T Tx.
Proof.
  intros [Hr He _] (t & b & n & t' & E & Hn). destruct b as [|x b].
  - specialize (He t). rewrite E in He. cbn in He. change (zlen []) with 0 in Hn. lia.
  - specialize (Hr t (x :: b) ltac:(done)). rewrite E in Hr. cbn in Hr. lia.
Qed.

Lemma queue_loop_no_error fuel : reliable T -> forall k e t r k' e' t', engine_wf e ->
  queue_loop fuel k e t = Some (r, k', e', t') -> forall err, r <> Ready (Err err).
Proof.
  intros Hr. induction fuel as [|fuel IH]; intros k e t r k' e' t' Hw; [done|]. cbn [queue_loop].
  pose proof (queue_step_spec k e t Hw) as S.
  assert (W : forall k1 front rest e1, q_bytes front <> [] ->
    match write_front k1 front rest e1 t with QDone r _ _ _ => forall err, r <> Ready (Err err) | _ => True end).
  { intros k1 front rest e1 Hf. unfold write_front. pose proof (rl_write Hr t _ Hf) as H.
    destruct (tx_write t (q_bytes front)) as [[[n|err]|] t1]; cbn in H; [|done|done].
    rewrite (proj2 (Z.eqb_neq n 0)), (proj2 (Z.ltb_ge (zlen (q_bytes front)) n)) by lia. done. }
  assert (D : match queue_step k e t with QDone r _ _ _ => forall err, r <> Ready (Err err) | _ => True end).
  { unfold queue_step. pose proof (wf_segments _ _ Hw) as Hs. destruct (e_queue e) as [|front rest]; [done|].
    apply Forall_cons in Hs as [Hf _]. destruct (_ <? _); [|by apply W].
    destruct (timer_poll _ _ _ _) as [fired timer]. destruct fired; cbn; [by apply W|done]. }
  destruct (queue_step k e t) as [r0 k0 e0 t0|k1 e1 t1]; [by intros [= <- <- <- <-]|].
  destruct S as (w & _ & _ & Hw1 & _). by apply IH.
Qed.

(** A flush of a reliable transport ends with an empty queue or pending. *)
Lemma flush_drains k e t r k' e' t' : reliable T -> engine_wf e ->
  engine_poll_flush k e t = (r, k', e', t') -> r = Pending \/ (r = Ready (Ok tt) /\ e_queue e' = []).
Proof.
  intros Hr Hw. unfold engine_poll_flush. destruct (poll_queue k e t) as [[[r0 k0] e0] t0] eqn:E.
  destruct (poll_queue_spec _ _ _ _ _ _ _ Hw E) as (w & _ & _ & _ & _ & Hq & _).
  unfold poll_queue in E. destruct (queue_loop_spec (queue_fuel e) k e t Hw ltac:(unfold queue_fuel; lia))
    as (r1 & k1 & e1 & t1 & w1 & El & _). rewrite El in E. injection E as -> -> -> ->.
  pose proof (queue_loop_no_error _ Hr _ _ _ _ _ _ _ Hw El) as Hn.
  destruct r0 as [[[]|err]|]; [|by destruct (Hn err)|intros [= <- <- <- <-]; by left].
  pose proof (rl_flush Hr t0) as Hf. destruct (tx_flush t0) as [[[[]|err]|] t2]; cbn in Hf; [| done |];
    intros [= <- <- <- <-]; [right; auto|by left].
Qed.
End Reliable.

(** ** Steps *)

Section Moved.
Context `{Env0 : Env} `{!EnvOk Env0} {T : Type} `{Tx : AsyncWrite T} `{!AsyncWriteOk T}.

Record stream_ok (s : ChaosStream T) : Prop := {
  so_wf : engine_wf (cs_engine s);
  so_hole : e_blackhole (cs_engine s) = None;
  so_loss : exists seeds off, existsb is_some seeds = false /\ tracks seeds off (cs_engine s);
  so_plain : engine_is_empty (cs_engine s) = true -> e_queue (cs_engine s) = [];
  so_direct : 0 <= sv_direct_bytes (cs_evidence s) <= U64_MAX;
  so_policy : forall p, cs_live_policy s = Some p -> policy_ok p /\ policy_preserving p
}.

(** The engine is the one of the policy generation the stream has observed. *)
Definition synced (s : ChaosStream T) : Prop :=
  forall p, cs_live_policy s = Some p -> cs_observed s = generation (current_policy p) ->
  e_plan (cs_engine s) = pub_plan (current_policy p).

Definition up_to_date (s : ChaosStream T) : Prop :=
  pending_generation s = None
  /\ forall p, cs_live_policy s = Some p -> e_plan (cs_engine s) = pub_plan (current_policy p).

Lemma swap_plan k s p : policy_ok p -> synced s -> cs_live_policy s = Some p ->
  up_to_date (swap_engine k (current_policy p) s).
Proof.
  intros [Hty Hval] Hs Hp. unfold swap_engine. set (snap := current_policy p) in *.
  destruct (new_with_arc_plan k (pub_plan snap) (seed_namespace snap) (cs_proxy s) (cs_connection_key s)
    (cs_direction s) (e_term_handle (cs_engine s))) as [e|err] eqn:En;
    [|unfold new_with_arc_plan in En; rewrite Hval in En; by repeat case_split_in En].
  destruct (new_engine_shape _ _ _ _ _ _ _ _ Hty En) as (_ & Pl & _).
  split.
  - unfold pending_generation, live_snapshot, mirrored. cbn. rewrite Hp. cbn. by rewrite Z.eqb_refl.
  - intros p' Hp'. cbn in Hp'. rewrite Hp in Hp'. injection Hp' as <-. exact Pl.
Qed.

(** [gained] bytes were reported as written; none of the others moved out of
    the sequence "delivered, then queued". *)
Record moved (s s' : ChaosStream T) (gained : bytes) : Prop := {
  mv_ok : stream_ok s';
  mv_bytes : sunk (cs_inner s') ++ queue_bytes (e_queue (cs_engine s'))
    = sunk (cs_inner s) ++ queue_bytes (e_queue (cs_engine s)) ++ gained;
  mv_term : forall i, e_termination (cs_engine s) = Some i -> e_termination (cs_engine s') = Some i;
  mv_accepted : (summary_bytes s').1 = sat_add64 (summary_bytes s).1 (zlen gained);
  mv_sync : up_to_date s -> up_to_date s';
  mv_synced : synced s -> synced s';
  mv_policy : cs_live_policy s' = cs_live_policy s;
  mv_observed : cs_observed s' = cs_observed s
    \/ exists p, cs_live_policy s = Some p /\ cs_observed s' = generation (current_policy p)
}.

Lemma summary_nonneg s : stream_ok s -> 0 <= (summary_bytes s).1 <= U64_MAX.
Proof.
  intros [W _ _ _ D _]. destruct (wf_ledger _ _ W). unfold summary_bytes, engine_evidence. cbn.
  unfold sat_add. lia.
Qed.

Lemma moved_refl s : stream_ok s -> moved s s [].
Proof.
  intros H. pose proof (summary_nonneg s H). split; try done; [by rewrite app_nil_r| |by left].
  change (zlen []) with 0. unfold sat_add. lia.
Qed.

Lemma moved_trans s1 s2 s3 g1 g2 : moved s1 s2 g1 -> moved s2 s3 g2 -> moved s1 s3 (g1 ++ g2).
Proof.
  intros [A1 A2 A3 A4 A5 A6 A7 A8] [B1 B2 B3 B4 B5 B6 B7 B8].
  split; [done| |auto| |auto|auto|congruence|by rewrite A7 in B8; destruct B8 as [->|?]; [|right]].
  - by rewrite B2, !app_assoc, A2, !app_assoc.
  - rewrite B4, A4, zlen_app. pose proof (zlen_nonneg g1). pose proof (zlen_nonneg g2). unfold sat_add. lia.
Qed.

Lemma moved_quiet_l s1 s2 s3 g : moved s1 s2 [] -> moved s2 s3 g -> moved s1 s3 g.
Proof. intros H1 H2. exact (moved_trans _ _ _ _ _ H1 H2). Qed.
Lemma moved_quiet_r s1 s2 s3 g : moved s1 s2 g -> moved s2 s3 [] -> moved s1 s3 g.
Proof. intros H1 H2. rewrite <- (app_nil_r g). exact (moved_trans _ _ _ _ _ H1 H2). Qed.

(** Only the evidence record changes, and not its direct-path counter. *)
Lemma moved_evidence s s' v : stream_ok s -> sv_direct_bytes v = sv_direct_bytes (cs_evidence s) ->
  s' = cs_set (cs_inner s) (cs_engine s) v s -> moved s s' [].
Proof.
  intros H Hv ->. pose proof (summary_nonneg s H). destruct H as [W B L P D Q].
  split; cbn -[summary_bytes]; try done; [split; cbn; rewrite ?Hv; try done|by rewrite app_nil_r| |by left].
  unfold summary_bytes in *. cbn in *. rewrite Hv. change (zlen []) with 0. unfold sat_add in *. lia.
Qed.

Lemma mirror_direct e v : sv_direct_bytes (mirror_engine e v) = sv_direct_bytes v.
Proof. done. Qed.

Lemma moved_mirror s : stream_ok s -> moved s (mirrored s) [].
Proof. intros H. by apply (moved_evidence s _ (mirror_engine (cs_engine s) (cs_evidence s))). Qed.

Lemma queue_nil e : engine_wf e -> queue_bytes (e_queue e) = [] -> e_queue e = [].
Proof.
  intros Hw Hq. pose proof (wf_segments _ _ Hw) as H. destruct (e_queue e) as [|q l]; [done|].
  apply Forall_cons in H as [H _]. rewrite queue_bytes_cons in Hq. apply app_eq_nil in Hq as [Hq _]. done.
Qed.

Definition run_at (k : nat) (s : ChaosStream T) : Run T :=
  {| rn_clock := k; rn_engine := cs_engine s; rn_tx := cs_inner s; rn_log := [] |}.

(** An engine operation on the stream's engine and transport. *)
Lemma moved_engine k s o v s' : stream_ok s -> ~ @overrun T Tx ->
  (engine_is_empty (cs_engine s) = true -> op_input o = []) ->
  sv_direct_bytes v = sv_direct_bytes (cs_evidence s) ->
  s' = cs_set (rn_tx (exec (run_at k s) o)) (rn_engine (exec (run_at k s) o)) v s ->
  moved s s' (rn_log (exec (run_at k s) o)).
Proof.
  intros H Hov Hin Hv ->. pose proof (so_wf _ H) as Hw. pose proof (so_direct _ H) as Hd.
  destruct (exec_effect (run_at k s) o Hw) as (g & w & segs & S). set (x := exec (run_at k s) o) in *.
  destruct (so_loss _ H) as (seeds & off & Hs & Ht).
  assert (Hno : forall c, engine_lost seeds (cs_engine s) c = false)
    by (intros c; by apply no_seeds_no_loss).
  destruct (se_bytes _ _ _ _ _ _ S seeds off (so_hole _ H) Ht ltac:(by rewrite Hs)) as [Hb Ht'].
  cbn [rn_engine run_at] in *. rewrite survivors_none in Hb by done.
  assert (Hall : sunk (rn_tx x) ++ queue_bytes (e_queue (rn_engine x))
    = sunk (cs_inner s) ++ queue_bytes (e_queue (cs_engine s)) ++ g).
  { destruct (se_sunk _ _ _ _ _ _ S) as [?|E]; [done|]. rewrite E. cbn [rn_tx run_at].
    rewrite <- Hb, <- queue_bytes_app, <- app_assoc. f_equal.
    symmetry. exact (st_split _ _ _ _ (se_sent _ _ _ _ _ _ S)). }
  rewrite (se_log _ _ _ _ _ _ S). cbn [rn_log run_at app].
  split; cbn -[summary_bytes].
  - split; cbn; rewrite ?Hv; try done.
    + apply S.
    + rewrite (se_blackhole _ _ _ _ _ _ S). apply H.
    + exists seeds, (off + zlen g). done.
    + unfold engine_is_empty. rewrite (se_plan _ _ _ _ _ _ S). intros He.
      apply queue_nil; [apply S|]. pose proof (so_plain _ H He) as Hq0.
      pose proof (st_split _ _ _ _ (se_sent _ _ _ _ _ _ S)) as E. cbn [rn_engine run_at] in E.
      rewrite Hq0 in E. cbn [app] in E. rewrite Hb in E.
      pose proof (se_gained _ _ _ _ _ _ S) as Hg. rewrite (Hin He) in Hg. change (zlen []) with 0 in Hg.
      pose proof (zlen_nonneg g). rewrite (zlen_zero_inv g) in E by lia. symmetry in E.
      by apply app_eq_nil in E as [_ E].
    + apply H.
  - done.
  - apply S.
  - pose proof (se_accepted _ _ _ _ _ _ S) as A. cbn [rn_engine run_at] in A.
    unfold summary_bytes, engine_evidence. cbn. rewrite A, Hv.
    destruct (wf_ledger _ _ Hw) as [A0 _ _ _]. pose proof (zlen_nonneg g). unfold sat_add. lia.
  - intros [U1 U2]. split; [exact U1|]. intros p Hp. cbn in *. rewrite (se_plan _ _ _ _ _ _ S). by apply U2.
  - intros U p Hp Ho. cbn in *. rewrite (se_plan _ _ _ _ _ _ S). by apply U.
  - done.
  - by left.
Qed.

(** Replacing a drained engine: the barrier transition. *)
Lemma moved_swap k s p : stream_ok s -> e_queue (cs_engine s) = [] -> cs_live_policy s = Some p ->
  moved s (swap_engine k (current_policy p) s) []
  /\ cs_observed (swap_engine k (current_policy p) s) = generation (current_policy p).
Proof.
  intros H Hq Hp. destruct (so_policy _ H p Hp) as [[Hty Hval] Hpres]. unfold policy_preserving in Hpres.
  unfold swap_engine. set (snap := current_policy p) in *.
  destruct (new_with_arc_plan k (pub_plan snap) (seed_namespace snap) (cs_proxy s) (cs_connection_key s)
    (cs_direction s) (e_term_handle (cs_engine s))) as [e|err] eqn:En;
    [|unfold new_with_arc_plan in En; rewrite Hval in En; by repeat case_split_in En].
  destruct (new_engine_shape _ _ _ _ _ _ _ _ Hty En) as (W & Pl & Di & Q & Te & Of & Lo & Hole & Va & Vf).
  assert (Hpe : is_preserving_only e = true).
  { unfold is_preserving_only. rewrite Pl. revert Hpres. generalize (faults (pub_plan snap)).
    induction l as [|f fs IH]; [done|]. cbn. intros Hf. bools. rewrite IH by done. by destruct (fs_kind f). }
  pose proof (so_wf _ H) as Hw. set (prev := engine_evidence (cs_engine s)).
  pose proof (wf_buffered _ _ Hw) as Hb. rewrite Hq in Hb. change (zlen (queue_bytes [])) with 0 in Hb.
  destruct (wf_absorb prev e W Q Va Vf) as (W2 & A2 & F2).
  { pose proof (wf_ledger _ _ Hw) as Hl. rewrite Hb in Hl. by destruct Hl. }
  { apply (wf_high_water _ _ Hw). }
  { apply (wf_activations _ _ Hw). }
  set (e2 := absorb_evidence prev e) in *.
  assert (Hq2 : e_queue e2 = []) by exact Q.
  split; [|done]. pose proof (so_direct _ H) as Hd.
  split; unfold mirrored; cbn -[summary_bytes engine_evidence].
  - split; cbn; try done; [by apply Hole| |apply H].
    exists (initial_seeds (seed_namespace snap) (cs_proxy s) (cs_connection_key s) (cs_direction s) (faults (pub_plan snap))), 0.
    split; [by apply (preserving_no_seeds _ _ _ _ e)|]. split; [exact Lo|]. by intros _.
  - change (sunk (cs_inner s) ++ queue_bytes (e_queue e2)
      = sunk (cs_inner s) ++ queue_bytes (e_queue (cs_engine s)) ++ []). by rewrite Hq2, Hq.
  - intros i Hi. change (e_termination e = Some i). by rewrite Te, (wf_handle _ _ Hw).
  - transitivity (sat_add64 (v_bytes_accepted (e_evidence e2)) (sv_direct_bytes (cs_evidence s))); [done|].
    rewrite A2. pose proof (summary_nonneg s H) as Hn. unfold summary_bytes, summary, prev in *. cbn [fst sm_bytes_accepted] in *.
    change (zlen []) with 0. unfold sat_add in *. lia.
  - intros _. split.
    + unfold pending_generation, live_snapshot. cbn. rewrite Hp. cbn. by rewrite Z.eqb_refl.
    + intros p' Hp'. cbn in Hp'. rewrite Hp in Hp'. injection Hp' as <-. exact Pl.
  - intros _ p' Hp' _. cbn in Hp'. rewrite Hp in Hp'. injection Hp' as <-. exact Pl.
  - done.
  - right. by exists p.
Qed.

(** The engine operations a stream call performs. *)

Lemma moved_flush k s v r k' e t : stream_ok s -> ~ @overrun T Tx ->
  sv_direct_bytes v = sv_direct_bytes (cs_evidence s) ->
  engine_poll_flush k (cs_engine s) (cs_inner s) = (r, k', e, t) -> moved s (cs_set t e v s) [].
Proof.
  intros H Hov Hv E. assert (M := moved_engine k s OpFlush v _ H Hov (fun _ => eq_refl) Hv eq_refl).
  unfold exec in M. cbn [run_at rn_clock rn_engine rn_tx rn_log] in M. rewrite E in M. exact M.
Qed.

Lemma moved_shutdown k s v r k' e t : stream_ok s -> ~ @overrun T Tx ->
  sv_direct_bytes v = sv_direct_bytes (cs_evidence s) ->
  engine_poll_shutdown k (cs_engine s) (cs_inner s) = (r, k', e, t) -> moved s (cs_set t e v s) [].
Proof.
  intros H Hov Hv E. assert (M := moved_engine k s OpShutdown v _ H Hov (fun _ => eq_refl) Hv eq_refl).
  unfold exec in M. cbn [run_at rn_clock rn_engine rn_tx rn_log] in M. rewrite E in M. exact M.
Qed.

Lemma moved_due k s v r k' e : stream_ok s -> ~ @overrun T Tx ->
  sv_direct_bytes v = sv_direct_bytes (cs_evidence s) ->
  poll_due_termination k (cs_engine s) = (r, k', e) -> moved s (cs_set (cs_inner s) e v s) [].
Proof.
  intros H Hov Hv E. assert (M := moved_engine k s OpDue v _ H Hov (fun _ => eq_refl) Hv eq_refl).
  unfold exec in M. cbn [run_at rn_clock rn_engine rn_tx rn_log] in M. rewrite E in M. exact M.
Qed.

Lemma moved_refresh k s v : stream_ok s -> ~ @overrun T Tx ->
  sv_direct_bytes v = sv_direct_bytes (cs_evidence s) ->
  moved s (cs_set (cs_inner s) (refresh_sync_terminations (clock k) (cs_engine s)) v s) [].
Proof. intros H Hov Hv. by apply (moved_engine k s OpRefresh v). Qed.

Lemma moved_accept k s v data n e : stream_ok s -> ~ @overrun T Tx ->
  sv_direct_bytes v = sv_direct_bytes (cs_evidence s) -> engine_is_empty (cs_engine s) = false ->
  accept k data (cs_engine s) = (n, e) -> moved s (cs_set (cs_inner s) e v s) (ztake n data).
Proof.
  intros H Hov Hv Hne E. assert (M := fun Hin => moved_engine k s (OpAccept data) v _ H Hov Hin Hv eq_refl).
  unfold exec in M. cbn [run_at rn_clock rn_engine rn_tx rn_log] in M. rewrite E in M.
  apply M. by rewrite Hne.
Qed.

(** A write of the direct path, from the bytes the transport took. *)
Lemma moved_direct s n t data : stream_ok s -> engine_is_empty (cs_engine s) = true ->
  0 <= n <= zlen data -> sunk t = sunk (cs_inner s) ++ ztake n data ->
  moved s (cs_set t (cs_engine s) (note_direct n (cs_evidence s)) s) (ztake n data).
Proof.
  intros H He Hn Ht. pose proof (so_direct _ H) as Hd. pose proof (so_plain _ H He) as Hq.
  assert (Hz : zlen (ztake n data) = n) by (rewrite zlen_ztake; lia).
  assert (E : sv_direct_bytes (note_direct n (cs_evidence s)) = sat_add64 (sv_direct_bytes (cs_evidence s)) n).
  { unfold note_direct. destruct (Z.ltb_spec 0 n); cbn; [done|]. unfold sat_add. lia. }
  pose proof (wf_ledger _ _ (so_wf _ H)) as [A0 _ _ _].
  split; cbn -[summary_bytes note_direct]; try done.
  - destruct H. split; cbn -[note_direct]; rewrite ?E; try done. unfold sat_add. lia.
  - rewrite Hq, Ht. cbn. by rewrite !app_nil_r.
  - unfold summary_bytes, engine_evidence. cbn -[note_direct]. rewrite E, Hz. unfold sat_add. lia.
  - by left.
Qed.
End Moved.

(** ** Calls *)

Section Calls.
Context `{Env0 : Env} `{!EnvOk Env0} {T : Type} `{Tx : AsyncWrite T} `{!AsyncWriteOk T}.
Context `{Rx : AsyncRead T} `{Vx : AsyncWriteVectored T} `{!AsyncVectoredOk T}.
Context (Hr : reliable T).

Lemma update_live_moved k s r k' s' : stream_ok s -> update_live k s = (r, k', s') ->
  moved s s' [] /\ (r = Ready tt -> synced s -> up_to_date s').
Proof.
  intros H. pose proof (reliable_bounded Hr) as Hov. unfold update_live, live_snapshot.
  destruct (cs_live_policy s) as [p|] eqn:Ep; cbn [fmap option_fmap option_map].
  2:{ intros [= <- <- <-]. split; [by apply moved_refl|]. intros _ _. unfold up_to_date, pending_generation, live_snapshot.
      rewrite Ep. done. }
  destruct (Z.eqb_spec (generation (current_policy p)) (cs_observed s)) as [Eg|Eg].
  { intros [= <- <- <-]. split; [by apply moved_refl|]. intros _ Hs. split.
    - unfold pending_generation, live_snapshot. rewrite Ep. cbn. by rewrite Eg, Z.eqb_refl.
    - intros p' Hp'. rewrite Ep in Hp'. injection Hp' as <-. apply Hs; [done|by rewrite Eg]. }
  set (v := set_pending _ _). assert (Hv : sv_direct_bytes v = sv_direct_bytes (cs_evidence s)) by done.
  destruct (so_policy _ H p Ep) as [Hok _].
  assert (Swap : forall k1 s1, moved s s1 [] -> e_queue (cs_engine s1) = [] -> cs_live_policy s1 = Some p ->
    (synced s -> synced s1) -> moved s (swap_engine k1 (current_policy p) s1) []
    /\ (Ready tt = Ready tt -> synced s -> up_to_date (swap_engine k1 (current_policy p) s1))).
  { intros k1 s1 M Hq Hp1 Hs1. destruct (moved_swap k1 s1 p (mv_ok _ _ _ M) Hq Hp1) as [M2 _].
    split; [exact (moved_quiet_l _ _ _ _ M M2)|]. intros _ Hs. apply swap_plan; auto. }
  destruct (queue_is_empty (cs_engine s)) eqn:Eq.
  - intros [= <- <- <-]. unfold queue_is_empty in Eq. apply Swap; try done.
    + by apply (moved_evidence s _ v).
    + cbn. by destruct (e_queue (cs_engine s)).
  - destruct (engine_poll_flush k (cs_engine s) (cs_inner s)) as [[[o k1] e1] t1] eqn:Ef.
    pose proof (moved_flush k s v _ _ _ _ H Hov Hv Ef) as M.
    destruct (flush_drains _ _ _ _ _ _ _ Hr (so_wf _ H) Ef) as [->|[-> Hq]]; cbn [is_pending].
    + by intros [= <- <- <-].
    + intros [= <- <- <-]. apply Swap; try done. intros Hs p' Hp' Ho. cbn in Hp', Ho.
      rewrite Ep in Hp'. injection Hp' as <-. by rewrite Ho in Eg.
Qed.

Lemma write_direct_moved s r t res s' data : stream_ok s -> engine_is_empty (cs_engine s) = true ->
  match r with
  | Ready (Ok n) => 0 <= n <= zlen data /\ sunk t = sunk (cs_inner s) ++ ztake n data
  | _ => sunk t = sunk (cs_inner s)
  end ->
  write_direct (r, t) s = (res, s') ->
  moved s s' (match res with Ready (Ok n) => ztake n data | _ => [] end).
Proof.
  intros H He Hc.
  assert (Q : sunk t = sunk (cs_inner s) -> moved s (cs_set t (cs_engine s) (cs_evidence s) s) []).
  { intros Et. pose proof (moved_refl s H) as [_ M2 M3 M4 _ _ _ _].
    split; cbn -[summary_bytes]; try done; [by destruct H|by rewrite Et|by left]. }
  destruct r as [[n|err]|]; cbn [write_direct]; intros [= <- <-]; [|by apply Q..].
  destruct Hc. by apply moved_direct.
Qed.

Definition gained (r : io_poll Z) (data : bytes) : bytes :=
  match r with Ready (Ok n) => ztake n data | _ => [] end.

(** A call never reports more bytes than it was given. *)
Definition within (r : io_poll Z) (data : bytes) : Prop :=
  match r with Ready (Ok n) => 0 <= n <= zlen data | _ => True end.

Lemma ztake_neg {A} n (l : list A) : n <= 0 -> ztake n l = [].
Proof. intros. unfold ztake. by replace (Z.to_nat n) with 0%nat by lia. Qed.

Lemma write_engine_moved k data s r k' s' : stream_ok s -> engine_is_empty (cs_engine s) = false ->
  write_engine k data s = (r, k', s') -> moved s s' (gained r data).
Proof.
  intros H Hne. pose proof (reliable_bounded Hr) as Hov. unfold write_engine.
  destruct (engine_poll_flush k (cs_engine s) (cs_inner s)) as [[[drive k1] e1] t1] eqn:E1.
  pose proof (moved_flush k s _ _ _ _ _ H Hov eq_refl E1) as M1. cbv zeta.
  assert (Hne1 : engine_is_empty e1 = false).
  { unfold engine_is_empty in *. destruct (exec_effect (run_at k s) OpFlush (so_wf _ H)) as (? & ? & ? & S).
    pose proof (se_plan _ _ _ _ _ _ S) as P. unfold exec in P. cbn [run_at rn_engine rn_tx rn_clock] in P.
    rewrite E1 in P. cbn in P. by rewrite P. }
  set (s1 := cs_set t1 e1 (cs_evidence s) s) in *. pose proof (mv_ok _ _ _ M1) as H1.
  assert (Body : match data with
      | [] => (Ready (Ok 0), k1, s1)
      | _ =>
          if ended e1 then (Ready (Err (terminated_error (e_termination e1))), k1, s1)
          else
            let '(accepted, engine) := accept k1 data e1 in
            let k := (3 + k1)%nat in
            if 0 <? accepted then
              let '(_, k, engine, inner) := engine_poll_flush k engine t1 in
              (Ready (Ok accepted), k, mirrored (cs_set inner engine (cs_evidence s1) s1))
            else
              let s := cs_set t1 engine (cs_evidence s1) s1 in
              if ended engine then (Ready (Err (terminated_error (e_termination engine))), k, s)
              else (Pending, k, s)
      end = (r, k', s') -> moved s s' (gained r data)).
  { destruct data as [|b data]; [by intros [= <- <- <-]|]. set (all := b :: data) in *.
    destruct (ended e1); [by intros [= <- <- <-]|].
    destruct (accept k1 all e1) as [n e2] eqn:E2. cbv zeta.
    pose proof (moved_accept k1 s1 (cs_evidence s1) all n e2 H1 Hov eq_refl Hne1 E2) as M2.
    set (s2 := cs_set (cs_inner s1) e2 (cs_evidence s1) s1) in *.
    destruct (Z.ltb_spec 0 n).
    - destruct (engine_poll_flush (3 + k1) e2 t1) as [[[drive3 k3] e3] t3] eqn:E3.
      pose proof (moved_flush _ s2 (cs_evidence s1) _ _ _ _ (mv_ok _ _ _ M2) Hov eq_refl E3) as M3.
      pose proof (moved_mirror _ (mv_ok _ _ _ M3)) as M4. intros [= <- <- <-].
      exact (moved_quiet_l _ _ _ _ M1 (moved_quiet_r _ _ _ _ (moved_quiet_r _ _ _ _ M2 M3) M4)).
    - rewrite ztake_neg in M2 by lia. pose proof (moved_quiet_l _ _ _ _ M1 M2) as M.
      destruct (ended e2); by intros [= <- <- <-]. }
  destruct drive as [[u|err]|]; [exact Body| |exact Body].
  intros [= <- <- <-]. exact (moved_quiet_r _ _ _ _ M1 (moved_mirror _ H1)).
Qed.

Lemma write_engine_within k data s r k' s' : stream_ok s ->
  write_engine k data s = (r, k', s') -> within r data.
Proof.
  intros H. unfold write_engine.
  destruct (engine_poll_flush k (cs_engine s) (cs_inner s)) as [[[drive k1] e1] t1] eqn:E1.
  pose proof (mv_ok _ _ _ (moved_flush k s _ _ _ _ _ H (reliable_bounded Hr) eq_refl E1)) as H1. cbv zeta.
  pose proof (so_wf _ H1) as Hw. cbn in Hw. pose proof (zlen_nonneg data) as Hz.
  assert (A : forall n e2, accept k1 data e1 = (n, e2) -> 0 <= n <= zlen data).
  { intros n e2 E. unfold accept in E. destruct (accept_at_accepted _ _ _ _ _ _ _ Hw E) as (segs & Ac).
    pose proof (ac_range _ _ _ _ _ _ Ac). lia. }
  destruct drive as [[u|err]|]; [|by intros [= <- <- <-]|];
    (destruct data as [|b data]; [intros [= <- <- <-]; cbn; lia|]);
    (destruct (ended e1); [by intros [= <- <- <-]|]);
    (destruct (accept k1 (b :: data) e1) as [n e2] eqn:E2; specialize (A _ _ eq_refl));
    (destruct (0 <? n); [destruct (engine_poll_flush (3 + k1) e2 t1) as [[[d3 k3] e3] t3]; by intros [= <- <- <-]|]);
    by (destruct (ended e2); intros [= <- <- <-]).
Qed.

(** What a reliable transport's own write answers. *)
Lemma write_answer t data r t' : tx_write t data = (r, t') ->
  match r with
  | Ready (Ok n) => 0 <= n <= zlen data /\ sunk t' = sunk t ++ ztake n data
  | _ => sunk t' = sunk t
  end.
Proof.
  intros Et. destruct r as [[n|err]|];
    [|by apply (tx_write_err _ _ _ _ Et)|by apply (tx_write_pending _ _ _ Et)].
  destruct (tx_write_ok _ _ _ _ Et) as [Hn Hs]. assert (n <= zlen data).
  { destruct data as [|b data].
    - pose proof (rl_empty Hr t) as Hz. rewrite Et in Hz. cbn in Hz. rewrite Hz. apply zlen_nonneg.
    - pose proof (rl_write Hr t (b :: data) ltac:(done)) as Hz. rewrite Et in Hz. cbn in Hz. lia. }
  split; [lia|]. by apply Hs.
Qed.

Lemma poll_write_moved k data s r k' s' : stream_ok s -> stream_poll_write k data s = (r, k', s') ->
  moved s s' (gained r data) /\ within r data /\ (r <> Pending -> synced s -> up_to_date s').
Proof.
  intros H. unfold stream_poll_write. destruct (update_live k s) as [[live k1] s1] eqn:E1.
  destruct (update_live_moved _ _ _ _ _ H E1) as [M1 U1].
  destruct live as [[]|]; cbn [is_pending]; [|by intros [= <- <- <-]].
  specialize (U1 eq_refl). pose proof (mv_ok _ _ _ M1) as H1.
  assert (Fin : forall r s', moved s1 s' (gained r data) -> within r data -> moved s s' (gained r data)
    /\ within r data /\ (r <> Pending -> synced s -> up_to_date s')).
  { intros r0 s0 M Hwi. split; [exact (moved_quiet_l _ _ _ _ M1 M)|]. split; [done|]. intros _ Hs. apply (mv_sync _ _ _ M), U1, Hs. }
  destruct (engine_is_empty (cs_engine s1)) eqn:He.
  - destruct (tx_write (cs_inner s1) data) as [r0 t0] eqn:Et.
    destruct (write_direct (r0, t0) s1) as [r1 s2] eqn:Ed. intros [= <- <- <-].
    pose proof (write_answer _ _ _ _ Et) as C.
    apply Fin; [exact (write_direct_moved s1 r0 t0 r1 s2 data H1 He C Ed)|].
    destruct r0 as [[n|err]|]; injection Ed as <- <-; [by apply C|done|done].
  - intros E. apply Fin; [exact (write_engine_moved _ _ _ _ _ _ H1 He E)|exact (write_engine_within _ _ _ _ _ _ H1 E)].
Qed.

Lemma poll_flush_moved k s r k' s' : stream_ok s -> stream_poll_flush k s = (r, k', s') ->
  moved s s' [] /\ (r <> Pending -> synced s -> up_to_date s').
Proof.
  intros H. unfold stream_poll_flush. destruct (update_live k s) as [[live k1] s1] eqn:E1.
  destruct (update_live_moved _ _ _ _ _ H E1) as [M1 U1].
  destruct live as [[]|]; cbn [is_pending]; [|by intros [= <- <- <-]]. pose proof (mv_ok _ _ _ M1) as H1.
  destruct (engine_poll_flush k1 (cs_engine s1) (cs_inner s1)) as [[[o k2] e2] t2] eqn:E2.
  pose proof (moved_flush _ s1 (cs_evidence s1) _ _ _ _ H1 (reliable_bounded Hr) eq_refl E2) as M2.
  pose proof (moved_quiet_r _ _ _ _ M2 (moved_mirror _ (mv_ok _ _ _ M2))) as M. intros [= <- <- <-].
  split; [exact (moved_quiet_l _ _ _ _ M1 M)|]. intros _ Hs. apply (mv_sync _ _ _ M), U1; done.
Qed.

Lemma poll_shutdown_moved k s r k' s' : stream_ok s -> stream_poll_shutdown k s = (r, k', s') ->
  moved s s' [] /\ (r <> Pending -> synced s -> up_to_date s').
Proof.
  intros H. unfold stream_poll_shutdown. destruct (update_live k s) as [[live k1] s1] eqn:E1.
  destruct (update_live_moved _ _ _ _ _ H E1) as [M1 U1].
  destruct live as [[]|]; cbn [is_pending]; [|by intros [= <- <- <-]]. pose proof (mv_ok _ _ _ M1) as H1.
  destruct (engine_poll_shutdown k1 (cs_engine s1) (cs_inner s1)) as [[[o k2] e2] t2] eqn:E2.
  pose proof (moved_shutdown _ s1 (cs_evidence s1) _ _ _ _ H1 (reliable_bounded Hr) eq_refl E2) as M2.
  pose proof (moved_quiet_r _ _ _ _ M2 (moved_mirror _ (mv_ok _ _ _ M2))) as M. intros [= <- <- <-].
  split; [exact (moved_quiet_l _ _ _ _ M1 M)|]. intros _ Hs. apply (mv_sync _ _ _ M), U1; done.
Qed.

Lemma gained_prefix r m data : 0 <= m -> within r (ztake m data) -> gained r (ztake m data) = gained r data.
Proof.
  intros Hm. destruct r as [[n|err]|]; [|done|done]. cbn. rewrite zlen_ztake by done.
  intros Hn. rewrite ztake_ztake by lia. f_equal. lia.
Qed.

Lemma write_vectored_full_moved k s r k' s' : stream_ok s -> write_vectored_full k s = (r, k', s') ->
  moved s s' [] /\ forall data, gained r data = [].
Proof.
  intros H. pose proof (reliable_bounded Hr) as Hov. unfold write_vectored_full.
  destruct (engine_poll_flush k (cs_engine s) (cs_inner s)) as [[[o k1] e1] t1] eqn:E1.
  pose proof (moved_flush _ s (cs_evidence s) _ _ _ _ H Hov eq_refl E1) as M1.
  pose proof (moved_refresh k1 _ (cs_evidence s) (mv_ok _ _ _ M1) Hov eq_refl) as M2.
  pose proof (moved_quiet_l _ _ _ _ M1 M2) as M. cbv zeta.
  destruct o as [[u|err]|]; [|by intros [= <- <- <-]|];
    (destruct (ended _); by intros [= <- <- <-]).
Qed.

Lemma poll_write_vectored_moved k bufs s r k' s' : stream_ok s ->
  stream_poll_write_vectored k bufs s = (r, k', s') ->
  moved s s' (gained r (concat bufs)) /\ (r <> Pending -> synced s -> up_to_date s').
Proof.
  intros H. unfold stream_poll_write_vectored. destruct (update_live k s) as [[live k1] s1] eqn:E1.
  destruct (update_live_moved _ _ _ _ _ H E1) as [M1 U1].
  destruct live as [[]|]; cbn [is_pending]; [|by intros [= <- <- <-]].
  specialize (U1 eq_refl). pose proof (mv_ok _ _ _ M1) as H1.
  assert (Fin : forall r s', moved s1 s' (gained r (concat bufs)) -> moved s s' (gained r (concat bufs))
    /\ (r <> Pending -> synced s -> up_to_date s')).
  { intros r0 s0 M. split; [exact (moved_quiet_l _ _ _ _ M1 M)|]. intros _ Hs. apply (mv_sync _ _ _ M), U1, Hs. }
  destruct (engine_is_empty (cs_engine s1)) eqn:He.
  { destruct (tx_write_vectored (cs_inner s1) bufs) as [r0 t0] eqn:Et.
    destruct (write_direct (r0, t0) s1) as [r1 s2] eqn:Ed. intros [= <- <- <-]. apply Fin.
    refine (write_direct_moved s1 r0 t0 r1 s2 (concat bufs) H1 He _ Ed).
    pose proof (txv_other (cs_inner s1) bufs) as Ho. rewrite Et in Ho. cbn in Ho.
    destruct r0 as [[n|err]|]; [|done|done]. exact (txv_ok _ _ _ _ Et). }
  destruct (is_preserving_only (cs_engine s1)); cbn [negb].
  2:{ intros E. apply Fin. by apply poll_write_moved in E as [E _]. }
  destruct (Z.eqb_spec (bounded_accept_capacity (cs_engine s1)) 0) as [E0|E0].
  - intros E. destruct (write_vectored_full_moved _ _ _ _ _ H1 E) as [M G]. apply Fin. by rewrite G.
  - pose proof (limit_available_wf _ (so_wf _ H1)). rewrite total_len_spec, join_prefix_take.
    2:{ pose proof (zlen_nonneg (concat bufs)). unfold bounded_accept_capacity, free_capacity, sat_sub, USIZE_MAX, U64_MAX in *. lia. }
    intros E. apply poll_write_moved in E as (M & Wi & _); [|done]. apply Fin. rewrite gained_prefix in M; [done| |done].
    pose proof (zlen_nonneg (concat bufs)). unfold bounded_accept_capacity, free_capacity, sat_sub, USIZE_MAX, U64_MAX in *. lia.
Qed.

Lemma poll_read_moved k cap s r k' s' : stream_ok s -> stream_poll_read k cap s = (r, k', s') -> moved s s' [].
Proof.
  intros H. unfold stream_poll_read.
  assert (Rd : forall s0, stream_ok s0 -> moved s0 (cs_set (rx_read (cs_inner s0) cap).2 (cs_engine s0) (cs_evidence s0) s0) []).
  { intros s0 H0. pose proof (moved_refl s0 H0) as [_ M2 M3 M4 _ _ _ _].
    split; cbn -[summary_bytes]; try done; [by destruct H0|by rewrite rx_keeps|by left]. }
  destruct (engine_is_empty (cs_engine s)).
  - specialize (Rd s H). destruct (rx_read (cs_inner s) cap) as [r0 t0]. by intros [= <- <- <-].
  - destruct (engine_poll_flush k (cs_engine s) (cs_inner s)) as [[[o k1] e1] t1] eqn:E1.
    pose proof (moved_flush _ s (cs_evidence s) _ _ _ _ H (reliable_bounded Hr) eq_refl E1) as M1.
    pose proof (moved_quiet_l _ _ _ _ M1 (moved_mirror _ (mv_ok _ _ _ M1))) as M2.
    pose proof (moved_quiet_l _ _ _ _ M2 (Rd _ (mv_ok _ _ _ M2))) as M3.
    cbn [cs_inner mirrored cs_set] in *. destruct (rx_read t1 cap) as [r0 t0]. cbv zeta. revert M3. clear.
    destruct (queue_is_empty e1), (termination_request e1) as [[]|], r0 as [[]|]; by intros M [= <- <- <-].
Qed.

Lemma poll_termination_moved k s r k' s' : stream_ok s -> poll_termination k s = (r, k', s') -> moved s s' [].
Proof.
  intros H. unfold poll_termination. destruct (engine_is_empty (cs_engine s)).
  - intros [= <- <- <-]. by apply moved_refl.
  - destruct (poll_due_termination k (cs_engine s)) as [[r0 k0] e0] eqn:E. intros [= <- <- <-].
    exact (moved_due k s (cs_evidence s) r0 k0 e0 H (reliable_bounded Hr) eq_refl E).
Qed.
End Calls.
