(* ===== verification/StreamRun.v ===== *)
(** * Runs of a live stream

    A run interleaves the calls of a [ChaosStream] with publications on its
    live policy.  The theorems state what survives the policy transitions;
    then where the stream falls short of its contract, and the inputs at which
    the theorems about every stream are applied. *)

From Stdlib Require Import Bool.
From stdpp Require Import base list strings.
From S2P Require Import Prelude Rng Float64 Plan Policy Env TokenBucket EngineState Engine Accept Drain EngineInv Loss AcceptSpec DrainSpec EngineRun EngineProps EngineCalls EngineDemo Stream StreamProps.

(** ** Publications *)

Definition preserving_plan (p : FaultPlan) : Prop :=
  forallb (fun f => match fs_kind f with Blackhole _ | StreamLoss _ => false | _ => true end) (faults p) = true.

(** The publisher's invariant and the values the policies are made of. *)
Record cell_fine (p : LivePolicy) : Prop := {
  cf_cell : cell_ok plan_validate p;
  cf_plans : plan_typed (pub_plan (current_policy p)) /\ preserving_plan (pub_plan (current_policy p))
}.

Lemma cell_fine_policy p : cell_fine p -> policy_ok p /\ policy_preserving p.
Proof.
  intros [Hc [Ht Hp]]. split; [|exact Hp]. split; [exact Ht|].
  destruct (cell_ok_current _ p Hc) as (cur & Hs & _). pose proof (ck_valid _ _ Hc) as Hv.
  unfold current_policy. unfold snapshot in *. rewrite Hs. cbn.
  rewrite Forall_lookup in Hv. exact (Hv _ _ Hs).
Qed.

(** An uncontended publication leaves the cell alone or installs the plan under
    the next generation. *)
Lemma publish_keeps (P : FaultPlan -> Prop) plan ns p : cell_ok plan_validate p -> P (pub_plan (current_policy p)) -> P plan ->
  let p' := (Stream.publish_plan p plan ns).2 in
  (cell_ok plan_validate p' /\ P (pub_plan (current_policy p')))
  /\ (p' = p \/ (generation (current_policy p) < generation (current_policy p')
                /\ pub_plan (current_policy p') = plan)).
Proof.
  intros Hc Hf Hp. unfold Stream.publish_plan, publish, publish_call. cbn [rq_plan].
  destruct (plan_validate plan) as [[]|err] eqn:V; [|cbn; split; [done|by left]].
  destruct (cell_ok_current _ p Hc) as (cur & Hs & _). rewrite Hs.
  destruct (loop_checks _ _ _) as [err|] eqn:L; [cbn; split; [done|by left]|].
  destruct (swap_ok plan_validate GenerationOverflow p
    {| rq_plan := plan; rq_ns := ns; rq_expected := None |} cur Hc Hs V L) as [Hok Hg]. unfold compare_and_swap. rewrite Nat.eqb_refl. cbn [snd].
  cbn [rq_plan rq_ns] in *. set (p' := {| snapshots := _; current := _ |}) in *.
  assert (E : current_policy p' = next_policy cur plan ns).
  { unfold current_policy, snapshot, p'. cbn [snapshots current]. by rewrite lookup_app_r, Nat.sub_diag. }
  split.
  - split; [exact Hok|]. by rewrite E.
  - right. rewrite E. split; [|done]. rewrite Hg. unfold current_policy. rewrite Hs. cbn. lia.
Qed.
Lemma publish_moves plan ns p : cell_fine p -> plan_typed plan -> preserving_plan plan ->
  let p' := (Stream.publish_plan p plan ns).2 in
  cell_fine p' /\ (p' = p \/ (generation (current_policy p) < generation (current_policy p')
                              /\ pub_plan (current_policy p') = plan)).
Proof.
  intros [Hc Hf] Ht Hp. destruct (publish_keeps (fun q => plan_typed q /\ preserving_plan q) plan ns p Hc Hf (conj Ht Hp)) as [[? ?] M].
  split; [by split|exact M].
Qed.

(** ** Runs *)

Inductive SOp :=
| SWrite (data : bytes)
| SWriteVectored (bufs : list bytes)
| SFlush
| SShutdown
| SRead (cap : Z)
| STermination
| SPublish (plan : FaultPlan) (ns : Z).

Definition publication_fine (o : SOp) : Prop :=
  match o with SPublish plan _ => plan_typed plan /\ preserving_plan plan | _ => True end.

Record SRun (T : Type) := { sr_clock : nat; sr_stream : ChaosStream T; sr_log : bytes }.
Arguments sr_clock {T} _.
Arguments sr_stream {T} _.
Arguments sr_log {T} _.

Definition set_live {T} (p : LivePolicy) (s : ChaosStream T) : ChaosStream T :=
  {| cs_inner := cs_inner s; cs_engine := cs_engine s; cs_direction := cs_direction s;
     cs_live_policy := Some p; cs_proxy := cs_proxy s; cs_connection_key := cs_connection_key s;
     cs_observed := cs_observed s; cs_evidence := cs_evidence s |}.

Section Runs.
Context `{Env0 : Env} {T : Type} `{Tx : AsyncWrite T} `{Rx : AsyncRead T} `{Vx : AsyncWriteVectored T}.

Definition sexec (x : SRun T) (o : SOp) : SRun T :=
  let k := sr_clock x in
  let s := sr_stream x in
  match o with
  | SWrite data =>
      let '(r, k', s') := stream_poll_write k data s in
      {| sr_clock := k'; sr_stream := s'; sr_log := sr_log x ++ gained r data |}
  | SWriteVectored bufs =>
      let '(r, k', s') := stream_poll_write_vectored k bufs s in
      {| sr_clock := k'; sr_stream := s'; sr_log := sr_log x ++ gained r (concat bufs) |}
  | SFlush =>
      let '(_, k', s') := stream_poll_flush k s in {| sr_clock := k'; sr_stream := s'; sr_log := sr_log x |}
  | SShutdown =>
      let '(_, k', s') := stream_poll_shutdown k s in {| sr_clock := k'; sr_stream := s'; sr_log := sr_log x |}
  | SRead cap =>
      let '(_, k', s') := stream_poll_read k cap s in {| sr_clock := k'; sr_stream := s'; sr_log := sr_log x |}
  | STermination =>
      let '(_, k', s') := poll_termination k s in {| sr_clock := k'; sr_stream := s'; sr_log := sr_log x |}
  | SPublish plan ns =>
      match cs_live_policy s with
      | Some p => {| sr_clock := k; sr_stream := set_live (Stream.publish_plan p plan ns).2 s; sr_log := sr_log x |}
      | None => x
      end
  end.
Definition srun (x : SRun T) (ops : list SOp) : SRun T := foldl sexec x ops.
Definition sstart (k : nat) (s : ChaosStream T) : SRun T :=
  {| sr_clock := k; sr_stream := s; sr_log := [] |}.
End Runs.

Section Props.
Context `{Env0 : Env} `{!EnvOk Env0} {T : Type} `{Tx : AsyncWrite T} `{!AsyncWriteOk T}.
Context `{Rx : AsyncRead T} `{Vx : AsyncWriteVectored T} `{!AsyncVectoredOk T}.

(** The state of a run, relative to the stream it started from. *)
Record run_ok (s0 : ChaosStream T) (x : SRun T) : Prop := {
  ro_ok : stream_ok (sr_stream x);
  ro_cell : forall p, cs_live_policy (sr_stream x) = Some p ->
    cell_fine p /\ cs_observed (sr_stream x) <= generation (current_policy p);
  ro_synced : synced (sr_stream x);
  ro_bytes : sunk (cs_inner (sr_stream x)) ++ queue_bytes (e_queue (cs_engine (sr_stream x)))
    = sunk (cs_inner s0) ++ queue_bytes (e_queue (cs_engine s0)) ++ sr_log x;
  ro_term : forall i, e_termination (cs_engine s0) = Some i -> e_termination (cs_engine (sr_stream x)) = Some i;
  ro_accepted : (summary_bytes (sr_stream x)).1 = sat_add64 (summary_bytes s0).1 (zlen (sr_log x))
}.

Lemma run_ok_moved s0 x k' s' g : run_ok s0 x -> moved (sr_stream x) s' g ->
  run_ok s0 {| sr_clock := k'; sr_stream := s'; sr_log := sr_log x ++ g |}.
Proof.
  intros [R1 R2 R3 R4 R5 R6] [M1 M2 M3 M4 M5 M6 M7 M8]. split; cbn [sr_stream sr_log]; auto.
  - intros p Hp. rewrite M7 in Hp. destruct (R2 p Hp) as [Hf Ho]. split; [done|].
    destruct M8 as [->|(p' & Hp' & ->)]; [done|]. rewrite Hp in Hp'. injection Hp' as <-. lia.
  - by rewrite M2, app_assoc, R4, !app_assoc.
  - rewrite M4, R6, zlen_app. pose proof (zlen_nonneg (sr_log x)). pose proof (zlen_nonneg g). unfold sat_add. lia.
Qed.

Lemma run_ok_quiet s0 x k' s' : run_ok s0 x -> moved (sr_stream x) s' [] ->
  run_ok s0 {| sr_clock := k'; sr_stream := s'; sr_log := sr_log x |}.
Proof. intros R M. pose proof (run_ok_moved s0 x k' s' [] R M) as H. by rewrite app_nil_r in H. Qed.

Lemma run_ok_publish s0 x p plan ns : run_ok s0 x -> cs_live_policy (sr_stream x) = Some p ->
  plan_typed plan -> preserving_plan plan ->
  run_ok s0 {| sr_clock := sr_clock x; sr_stream := set_live (Stream.publish_plan p plan ns).2 (sr_stream x);
               sr_log := sr_log x |}.
Proof.
  intros [R1 R2 R3 R4 R5 R6] Hp Ht Hpp. destruct (R2 p Hp) as [Hf Ho].
  destruct (publish_moves plan ns p Hf Ht Hpp) as [Hf' Hm]. set (p' := (Stream.publish_plan p plan ns).2) in *.
  split; cbn [sr_stream sr_log]; try done.
  - destruct R1. split; cbn; try done. intros q [= <-]. by apply cell_fine_policy.
  - intros q [= <-]. split; [done|]. cbn. destruct Hm as [->|[Hg _]]; lia.
  - intros q [= <-] Hq. cbn in *. destruct Hm as [Hm|[Hg _]]; [|lia]. rewrite Hm in *. by apply R3.
Qed.

Lemma sexec_ok s0 x o : reliable T -> run_ok s0 x -> publication_fine o -> run_ok s0 (sexec x o).
Proof.
  intros Hr R Ho. pose proof (ro_ok _ _ R) as H. destruct o as [data|bufs| | |cap| |plan ns]; cbn [sexec].
  - destruct (stream_poll_write _ _ _) as [[r k'] s'] eqn:E. apply run_ok_moved; [done|].
    by apply (poll_write_moved Hr) in E as [? _].
  - destruct (stream_poll_write_vectored _ _ _) as [[r k'] s'] eqn:E. apply run_ok_moved; [done|].
    by apply (poll_write_vectored_moved Hr) in E as [? _].
  - destruct (stream_poll_flush _ _) as [[r k'] s'] eqn:E. apply run_ok_quiet; [done|].
    by apply (poll_flush_moved Hr) in E as [? _].
  - destruct (stream_poll_shutdown _ _) as [[r k'] s'] eqn:E. apply run_ok_quiet; [done|].
    by apply (poll_shutdown_moved Hr) in E as [? _].
  - destruct (stream_poll_read _ _ _) as [[r k'] s'] eqn:E. apply run_ok_quiet; [done|].
    by apply (poll_read_moved Hr) in E.
  - destruct (poll_termination _ _) as [[r k'] s'] eqn:E. apply run_ok_quiet; [done|].
    by apply (poll_termination_moved Hr) in E.
  - destruct (cs_live_policy (sr_stream x)) as [p|] eqn:Ep; [|done]. destruct Ho. by apply run_ok_publish.
Qed.

Lemma srun_ok s0 ops : reliable T -> Forall publication_fine ops -> forall x, run_ok s0 x -> run_ok s0 (srun x ops).
Proof.
  intros Hr. induction 1 as [|o ops Ho _ IH]; intros x R; [done|]. cbn. by apply IH, sexec_ok.
Qed.

Lemma run_ok_start k s : stream_ok s -> synced s ->
  (forall p, cs_live_policy s = Some p -> cell_fine p /\ cs_observed s <= generation (current_policy p)) ->
  run_ok s (sstart k s).
Proof.
  intros H Hs Hc. pose proof (summary_nonneg s H). split; cbn [sstart sr_stream sr_log]; try done; [by rewrite app_nil_r|].
  change (zlen []) with 0. unfold sat_add. lia.
Qed.

(** Construction from a live policy. *)
Lemma new_live_start k inner p proxy key d s : cell_fine p ->
  stream_new_live k inner p proxy key d = Ok s ->
  run_ok s (sstart k s) /\ cs_inner s = inner /\ e_queue (cs_engine s) = [] /\ (summary_bytes s).1 = 0.
Proof.
  intros Hf. destruct (cell_fine_policy p Hf) as [[Hty Hval] Hp]. unfold stream_new_live. cbv zeta.
  set (snap := current_policy p) in *.
  destruct (new_with_arc_plan k (pub_plan snap) (seed_namespace snap) proxy key d handle_new) as [e|err] eqn:En; [|done].
  destruct (new_engine_shape _ _ _ _ _ _ _ _ Hty En) as (W & Pl & Di & Q & Te & Of & Lo & Hole & Va & Vf).
  assert (Hpe : is_preserving_only e = true).
  { unfold is_preserving_only. rewrite Pl. revert Hp. unfold policy_preserving. fold snap. generalize (faults (pub_plan snap)).
    induction l as [|f fs IH]; [done|]. cbn. intros Hfs. bools. rewrite IH by done. by destruct (fs_kind f). }
  intros [= <-]. split; [|conjs; try done].
  - apply run_ok_start.
    + split; cbn; try done; [by apply Hole| |intros q [= <-]; by apply cell_fine_policy].
      exists (initial_seeds (seed_namespace snap) proxy key d (faults (pub_plan snap))), 0.
      split; [by apply (preserving_no_seeds _ _ _ _ e)|]. split; [exact Lo|]. by intros _.
    + intros q [= <-] _. exact Pl.
    + intros q [= <-]. split; [done|]. cbn. fold snap. lia.
  - unfold summary_bytes, engine_evidence. cbn. by rewrite Va.
Qed.

(** ** Properties *)

(** C15: policy transitions forget nothing.  A live stream under preserving
    plans, over a transport that may stall but does not fail: however writes,
    vectored writes, reads, flushes, shutdowns, termination polls and policy
    publications interleave, the bytes that reached the transport followed by
    the bytes still queued are exactly the bytes the writes reported, in order.
    The engine is swapped in between, the direct path of the empty plan
    included, and no swap loses, repeats or reorders a byte. *)
Theorem policy_transitions_forget_nothing (k : nat) (inner : T) (p : LivePolicy) (proxy : string) (key : Z)
    (d : Direction) (s : ChaosStream T) (ops : list SOp)
    (Hr : reliable T) (Hp : cell_fine p) (Hnew : stream_new_live k inner p proxy key d = Ok s)
    (Hpub : Forall publication_fine ops) :
  let x := srun (sstart k s) ops in
  sunk (cs_inner (sr_stream x)) ++ queue_bytes (e_queue (cs_engine (sr_stream x)))
  = sunk inner ++ sr_log x.
Proof.
  destruct (new_live_start _ _ _ _ _ _ _ Hp Hnew) as (R0 & Hi & Hq & _).
  pose proof (ro_bytes _ _ (srun_ok s ops Hr Hpub _ R0)) as R. cbv zeta. by rewrite R, Hi, Hq.
Qed.

(** Evidence is cumulative.  Over the same runs the accepted counter of
    [summary] is the number of bytes the writes reported (until the counter
    saturates), and it is what was forwarded, discarded or is still buffered:
    the counters of a replaced engine are not lost and direct-path bytes are
    counted once. *)
Theorem summary_counts_every_write (k : nat) (inner : T) (p : LivePolicy) (proxy : string) (key : Z)
    (d : Direction) (s : ChaosStream T) (ops : list SOp)
    (Hr : reliable T) (Hp : cell_fine p) (Hnew : stream_new_live k inner p proxy key d = Ok s)
    (Hpub : Forall publication_fine ops) (Hfits : zlen (sr_log (srun (sstart k s) ops)) < U64_MAX) :
  let x := srun (sstart k s) ops in
  let v := engine_evidence (cs_engine (sr_stream x)) in
  (summary_bytes (sr_stream x)).1 = zlen (sr_log x)
  /\ (summary_bytes (sr_stream x)).1
     = (summary_bytes (sr_stream x)).2 + v_bytes_discarded v + v_buffered_bytes v.
Proof.
  destruct (new_live_start _ _ _ _ _ _ _ Hp Hnew) as (R0 & _ & _ & Hz).
  destruct (srun_ok s ops Hr Hpub _ R0) as [Ok _ _ _ _ A]. cbv zeta. rewrite Hz in A.
  set (x := srun (sstart k s) ops) in *. pose proof (zlen_nonneg (sr_log x)).
  assert (E : (summary_bytes (sr_stream x)).1 = zlen (sr_log x)) by (rewrite A; unfold sat_add; lia).
  split; [done|]. destruct (wf_ledger _ _ (so_wf _ Ok)) as [LA LF LD LB]. pose proof (so_direct _ Ok) as D.
  rewrite (wf_buffered _ _ (so_wf _ Ok)) in LB. pose proof (wf_buffered _ _ (so_wf _ Ok)) as B.
  pose proof (zlen_nonneg (queue_bytes (e_queue (cs_engine (sr_stream x))))).
  unfold summary_bytes, engine_evidence in *. cbn in *. unfold sat_add in *. lia.
Qed.

(** *** Transitions into any plan

    For a termination the plans need not be preserving: blackholes and stream
    loss may be published, too. *)

Record cell_typed (p : LivePolicy) : Prop := {
  ct_cell : cell_ok plan_validate p;
  ct_plan : plan_typed (pub_plan (current_policy p))
}.
Lemma cell_typed_policy p : cell_typed p -> policy_ok p.
Proof.
  intros [Hc Ht]. split; [done|]. destruct (cell_ok_current _ p Hc) as (cur & Hs & _). pose proof (ck_valid _ _ Hc) as Hv.
  unfold current_policy. unfold snapshot in *. rewrite Hs. cbn. rewrite Forall_lookup in Hv. exact (Hv _ _ Hs).
Qed.
Definition publication_typed (o : SOp) : Prop := match o with SPublish plan _ => plan_typed plan | _ => True end.

(** What every step of a call keeps, whatever the plan. *)
Record evolves (s s' : ChaosStream T) : Prop := {
  vo_wf : engine_wf (cs_engine s');
  vo_term : forall i, e_termination (cs_engine s) = Some i -> e_termination (cs_engine s') = Some i;
  vo_policy : cs_live_policy s' = cs_live_policy s
}.
Lemma evolves_same s s' : engine_wf (cs_engine s) -> cs_engine s' = cs_engine s -> cs_live_policy s' = cs_live_policy s -> evolves s s'.
Proof. intros W E P. split; by rewrite ?E. Qed.
Lemma evolves_trans s1 s2 s3 : evolves s1 s2 -> evolves s2 s3 -> evolves s1 s3.
Proof. intros [A1 A2 A3] [B1 B2 B3]. split; [done|auto|congruence]. Qed.
Lemma evolves_op k s o t e v : engine_wf (cs_engine s) -> rn_engine (exec (run_at k s) o) = e -> evolves s (cs_set t e v s).
Proof.
  intros W <-. destruct (exec_effect (run_at k s) o W) as (g & w & segs & S). split; [apply S|apply S|done].
Qed.
Lemma evolves_flush k s r k' e t t' v : engine_wf (cs_engine s) -> engine_poll_flush k (cs_engine s) (cs_inner s) = (r, k', e, t) ->
  evolves s (cs_set t' e v s).
Proof. intros W E. apply (evolves_op k s OpFlush); [done|]. cbn. by rewrite E. Qed.
Lemma evolves_swap k s p : engine_wf (cs_engine s) -> e_queue (cs_engine s) = [] -> policy_ok p ->
  evolves s (swap_engine k (current_policy p) s).
Proof.
  intros W Hq [Hty Hval]. unfold swap_engine. set (snap := current_policy p) in *.
  destruct (new_with_arc_plan k (pub_plan snap) (seed_namespace snap) (cs_proxy s) (cs_connection_key s)
    (cs_direction s) (e_term_handle (cs_engine s))) as [e|err] eqn:En; [|by apply evolves_same].
  destruct (new_engine_shape _ _ _ _ _ _ _ _ Hty En) as (We & _ & _ & Q & Te & _ & _ & _ & Va & Vf).
  pose proof (wf_buffered _ _ W) as Hb. rewrite Hq in Hb. change (zlen (queue_bytes [])) with 0 in Hb.
  destruct (wf_absorb (engine_evidence (cs_engine s)) e We Q Va Vf) as (W2 & _).
  { pose proof (wf_ledger _ _ W) as Hl. rewrite Hb in Hl. by destruct Hl. }
  { apply (wf_high_water _ _ W). }
  { apply (wf_activations _ _ W). }
  split; [exact W2| |done]. intros i Hi. change (e_termination e = Some i). by rewrite Te, (wf_handle _ _ W).
Qed.

Definition policies_ok (s : ChaosStream T) : Prop := forall p, cs_live_policy s = Some p -> policy_ok p.
Lemma evolves_policies s s' : evolves s s' -> policies_ok s -> policies_ok s'.
Proof. intros [_ _ E] P p. rewrite E. apply P. Qed.

Section Evolution.
Context (Hr : reliable T).

Lemma update_live_evolves k s r k' s' : engine_wf (cs_engine s) -> policies_ok s -> update_live k s = (r, k', s') -> evolves s s'.
Proof.
  intros W P. unfold update_live, live_snapshot. destruct (cs_live_policy s) as [p|] eqn:Ep; cbn [fmap option_fmap option_map];
    [|intros [= <- <- <-]; by apply evolves_same].
  destruct (_ =? _); [intros [= <- <- <-]; by apply evolves_same|]. set (v := set_pending _ _).
  destruct (queue_is_empty (cs_engine s)) eqn:Eq.
  - intros [= <- <- <-]. eapply evolves_trans; [by apply (evolves_same s (cs_set (cs_inner s) (cs_engine s) v s))|].
    apply evolves_swap; [done| |by apply P]. unfold queue_is_empty in Eq. cbn. by destruct (e_queue (cs_engine s)).
  - destruct (engine_poll_flush k (cs_engine s) (cs_inner s)) as [[[o k1] e1] t1] eqn:Ef.
    pose proof (evolves_flush k s _ _ _ _ t1 v W Ef) as M.
    destruct (flush_drains _ _ _ _ _ _ _ Hr W Ef) as [->|[-> Hq]]; cbn [is_pending]; intros [= <- <- <-]; [done|].
    eapply evolves_trans; [exact M|]. apply evolves_swap; [apply M|exact Hq|by apply P].
Qed.
(** Every call begins with it. *)
Lemma updated_evolves {A} k s (pend : A) (f : nat -> ChaosStream T -> A * nat * ChaosStream T) r k' s' :
  engine_wf (cs_engine s) -> policies_ok s ->
  (forall k1 s1 r k' s', engine_wf (cs_engine s1) -> policies_ok s1 -> f k1 s1 = (r, k', s') -> evolves s1 s') ->
  (let '(live, k1, s1) := update_live k s in if is_pending live then (pend, k1, s1) else f k1 s1) = (r, k', s') -> evolves s s'.
Proof.
  intros W P F. destruct (update_live k s) as [[live k1] s1] eqn:E. pose proof (update_live_evolves _ _ _ _ _ W P E) as M.
  destruct (is_pending live); [by intros [= <- <- <-]|]. intros H. eapply evolves_trans; [exact M|].
  eapply F; [apply M|by eapply evolves_policies|exact H].
Qed.

Lemma write_direct_evolves x s r s' : engine_wf (cs_engine s) -> write_direct x s = (r, s') -> evolves s s'.
Proof. intros W. destruct x as [[[n|err]|] t]; intros [= <- <-]; by apply evolves_same. Qed.
Lemma write_engine_evolves k data s r k' s' : engine_wf (cs_engine s) -> write_engine k data s = (r, k', s') -> evolves s s'.
Proof.
  intros W. unfold write_engine. destruct (engine_poll_flush k (cs_engine s) (cs_inner s)) as [[[drive k1] e1] t1] eqn:E1.
  pose proof (evolves_flush k s _ _ _ _ t1 (cs_evidence s) W E1) as M. cbv zeta. set (s1 := cs_set t1 e1 (cs_evidence s) s) in *.
  assert (Mirror : evolves s (mirrored s1)) by (eapply evolves_trans; [exact M|]; apply evolves_same; [apply M|done..]).
  destruct drive as [[u|err]|]; [|by intros [= <- <- <-]|]; (destruct data as [|b data]; [by intros [= <- <- <-]|]);
    (destruct (ended e1); [by intros [= <- <- <-]|]); (destruct (accept k1 (b :: data) e1) as [n e2] eqn:E2);
    (assert (M2 : forall t v, evolves s (cs_set t e2 v s1)) by
      (intros t v; eapply evolves_trans; [exact M|]; apply (evolves_op k1 s1 (OpAccept (b :: data))); [apply M|unfold exec; cbn [run_at rn_clock rn_engine rn_tx rn_log s1 cs_engine cs_inner cs_set]; by rewrite E2]));
    (destruct (0 <? n); [|destruct (ended e2); by intros [= <- <- <-]]);
    (destruct (engine_poll_flush (3 + k1) e2 t1) as [[[d3 k3] e3] t3] eqn:E3); intros [= <- <- <-];
    (eapply evolves_trans; [apply (M2 t1 (cs_evidence s1))|]);
    exact (evolves_flush (3 + k1) (cs_set t1 e2 (cs_evidence s1) s1) _ _ _ _ t3 _ (vo_wf _ _ (M2 t1 (cs_evidence s1))) E3).
Qed.

Lemma poll_write_evolves k data s r k' s' : engine_wf (cs_engine s) -> policies_ok s -> stream_poll_write k data s = (r, k', s') -> evolves s s'.
Proof.
  intros W P. apply updated_evolves; [done..|]. intros k1 s1 r1 k2 s2 W1 _. destruct (engine_is_empty (cs_engine s1)); [|by apply write_engine_evolves].
  destruct (write_direct _ s1) as [r0 s0] eqn:E. intros [= <- <- <-]. by eapply write_direct_evolves.
Qed.
Lemma poll_flush_evolves k s r k' s' : engine_wf (cs_engine s) -> policies_ok s -> stream_poll_flush k s = (r, k', s') -> evolves s s'.
Proof.
  intros W P. apply updated_evolves; [done..|]. intros k1 s1 r1 k2 s2 W1 _.
  destruct (engine_poll_flush k1 (cs_engine s1) (cs_inner s1)) as [[[o k3] e] t] eqn:E. intros [= <- <- <-].
  exact (evolves_flush k1 s1 _ _ _ _ t _ W1 E).
Qed.
Lemma poll_shutdown_evolves k s r k' s' : engine_wf (cs_engine s) -> policies_ok s -> stream_poll_shutdown k s = (r, k', s') -> evolves s s'.
Proof.
  intros W P. apply updated_evolves; [done..|]. intros k1 s1 r1 k2 s2 W1 _.
  destruct (engine_poll_shutdown k1 (cs_engine s1) (cs_inner s1)) as [[[o k3] e] t] eqn:E. intros [= <- <- <-].
  refine (evolves_op k1 s1 OpShutdown t e _ W1 _). cbn. by rewrite E.
Qed.
Lemma write_vectored_full_evolves k s r k' s' : engine_wf (cs_engine s) -> write_vectored_full k s = (r, k', s') -> evolves s s'.
Proof.
  intros W. unfold write_vectored_full. destruct (engine_poll_flush k (cs_engine s) (cs_inner s)) as [[[o k1] e1] t1] eqn:E1.
  pose proof (evolves_flush k s _ _ _ _ t1 (cs_evidence s) W E1) as M. cbv zeta.
  assert (M2 : evolves s (cs_set t1 (refresh_sync_terminations (clock k1) e1) (cs_evidence s) s)).
  { eapply evolves_trans; [exact M|]. by apply (evolves_op k1 (cs_set t1 e1 (cs_evidence s) s) OpRefresh); [apply M|]. }
  destruct o as [[u|err]|]; [|by intros [= <- <- <-]|]; (destruct (ended _); by intros [= <- <- <-]).
Qed.
Lemma poll_write_vectored_evolves k bufs s r k' s' : engine_wf (cs_engine s) -> policies_ok s ->
  stream_poll_write_vectored k bufs s = (r, k', s') -> evolves s s'.
Proof.
  intros W P. apply updated_evolves; [done..|]. intros k1 s1 r1 k2 s2 W1 P1. destruct (engine_is_empty (cs_engine s1)).
  - destruct (write_direct _ s1) as [r0 s0] eqn:E. intros [= <- <- <-]. by eapply write_direct_evolves.
  - destruct (negb _); [by apply poll_write_evolves|]. cbv zeta. destruct (_ =? 0); [by apply write_vectored_full_evolves|by apply poll_write_evolves].
Qed.
Lemma poll_read_evolves k cap s r k' s' : engine_wf (cs_engine s) -> stream_poll_read k cap s = (r, k', s') -> evolves s s'.
Proof.
  intros W. unfold stream_poll_read. destruct (engine_is_empty (cs_engine s)).
  - destruct (rx_read (cs_inner s) cap) as [r0 t0]. intros [= <- <- <-]. by apply evolves_same.
  - destruct (engine_poll_flush k (cs_engine s) (cs_inner s)) as [[[o k1] e1] t1] eqn:E1. cbv zeta. cbn [cs_inner mirrored cs_set].
    destruct (rx_read t1 cap) as [r0 t0]. pose proof (fun v => evolves_flush k s _ _ _ _ t0 v W E1) as M. revert M. clear.
    destruct (queue_is_empty e1), (termination_request e1) as [[]|], r0 as [[]|]; intros M [= <- <- <-]; apply M.
Qed.
Lemma poll_termination_evolves k s r k' s' : engine_wf (cs_engine s) -> poll_termination k s = (r, k', s') -> evolves s s'.
Proof.
  intros W. unfold poll_termination. destruct (engine_is_empty (cs_engine s)); [intros [= <- <- <-]; by apply evolves_same|].
  destruct (poll_due_termination k (cs_engine s)) as [[r0 k0] e0] eqn:E. intros [= <- <- <-].
  apply (evolves_op k s OpDue); [done|]. cbn. by rewrite E.
Qed.

(** A run: the policy moves by its publications only. *)
Record lasting (s0 : ChaosStream T) (x : SRun T) : Prop := {
  la_wf : engine_wf (cs_engine (sr_stream x));
  la_cell : forall p, cs_live_policy (sr_stream x) = Some p -> cell_typed p;
  la_term : forall i, e_termination (cs_engine s0) = Some i -> e_termination (cs_engine (sr_stream x)) = Some i
}.
Lemma sexec_lasts s0 x o : lasting s0 x -> publication_typed o -> lasting s0 (sexec x o).
Proof.
  intros L Ho. pose proof L as [W C K]. assert (P : policies_ok (sr_stream x)) by (intros p Hp; by apply cell_typed_policy, C).
  assert (Go : forall y, evolves (sr_stream x) (sr_stream y) -> lasting s0 y).
  { intros y [E1 E2 E3]. split; [done|by rewrite E3|auto]. }
  destruct o as [data|bufs| | |cap| |plan ns]; cbn [sexec].
  - destruct (stream_poll_write _ _ _) as [[r k'] s'] eqn:E. by eapply Go, poll_write_evolves.
  - destruct (stream_poll_write_vectored _ _ _) as [[r k'] s'] eqn:E. by eapply Go, poll_write_vectored_evolves.
  - destruct (stream_poll_flush _ _) as [[r k'] s'] eqn:E. by eapply Go, poll_flush_evolves.
  - destruct (stream_poll_shutdown _ _) as [[r k'] s'] eqn:E. by eapply Go, poll_shutdown_evolves.
  - destruct (stream_poll_read _ _ _) as [[r k'] s'] eqn:E. by eapply Go, poll_read_evolves.
  - destruct (poll_termination _ _) as [[r k'] s'] eqn:E. by eapply Go, poll_termination_evolves.
  - destruct (cs_live_policy (sr_stream x)) as [p|] eqn:Ep; [|exact L]. destruct (C p eq_refl) as [Cc Ct].
    destruct (publish_keeps plan_typed plan ns p Cc Ct Ho) as [[C1 C2] _]. split; [exact W| |exact K]. intros q [= <-]. by split.
Qed.
Lemma srun_lasts s0 ops : Forall publication_typed ops -> forall x, lasting s0 x -> lasting s0 (srun x ops).
Proof. induction 1 as [|o ops Ho _ IH]; intros x L; [done|]. cbn. by apply IH, sexec_lasts. Qed.
End Evolution.

Lemma new_live_lasts k inner p proxy key d s : cell_typed p -> stream_new_live k inner p proxy key d = Ok s -> lasting s (sstart k s).
Proof.
  intros C. destruct (cell_typed_policy p C) as [Hty _]. unfold stream_new_live. cbv zeta.
  destruct (new_with_arc_plan _ _ _ _ _ _ _) as [e|err] eqn:En; [|done]. intros [= <-].
  destruct (new_engine_shape _ _ _ _ _ _ _ _ Hty En) as (W & _). split; [exact W|by intros q [= <-]|exact (fun i Hi => Hi)].
Qed.

(** C16: terminations survive transitions.  Over a transport that may stall but
    does not fail, whatever plans are published - blackholes and stream loss
    included -: once a termination is set it is the one the engine holds and
    the stream reports after any further calls and publications. *)
Theorem termination_survives_transitions (k : nat) (inner : T) (p : LivePolicy) (proxy : string) (key : Z)
    (d : Direction) (s : ChaosStream T) (ops1 ops2 : list SOp) (info : TerminationInfo)
    (Hr : reliable T) (Hp : cell_typed p) (Hnew : stream_new_live k inner p proxy key d = Ok s)
    (Hpub1 : Forall publication_typed ops1) (Hpub2 : Forall publication_typed ops2)
    (Hset : e_termination (cs_engine (sr_stream (srun (sstart k s) ops1))) = Some info) :
  let s' := sr_stream (srun (sstart k s) (ops1 ++ ops2)) in
  e_termination (cs_engine s') = Some info /\ sm_termination (summary s') = Some (ti_request info).
Proof.
  pose proof (srun_lasts Hr s ops1 Hpub1 _ (new_live_lasts _ _ _ _ _ _ _ Hp Hnew)) as [W C _].
  assert (L : lasting (sr_stream (srun (sstart k s) ops1)) (srun (sstart k s) (ops1 ++ ops2))).
  { unfold srun. rewrite foldl_app. apply (srun_lasts Hr _ ops2 Hpub2). by split. }
  destruct L as [W' _ K]. specialize (K _ Hset). split; [done|].
  pose proof (wf_reported _ _ W') as R. rewrite K in R. exact R.
Qed.

(** C17: no byte is accepted under a stale policy.  In any such run, a write that
    answers (success or error) did so with the engine compiled from the policy
    that is current at the call: the stream has no pending generation left and
    its plan is the published one. *)
Theorem writes_use_the_current_policy (k : nat) (inner : T) (p : LivePolicy) (proxy : string) (key : Z)
    (d : Direction) (s : ChaosStream T) (ops : list SOp) (data : bytes) (r : io_poll Z) (k' : nat)
    (s' : ChaosStream T)
    (Hr : reliable T) (Hp : cell_fine p) (Hnew : stream_new_live k inner p proxy key d = Ok s)
    (Hpub : Forall publication_fine ops)
    (Hcall : stream_poll_write (sr_clock (srun (sstart k s) ops)) data (sr_stream (srun (sstart k s) ops))
             = (r, k', s'))
    (Hans : r <> Pending) :
  pending_generation s' = None
  /\ cs_live_policy s' = cs_live_policy (sr_stream (srun (sstart k s) ops))
  /\ forall q, cs_live_policy s' = Some q -> e_plan (cs_engine s') = pub_plan (current_policy q).
Proof.
  destruct (new_live_start _ _ _ _ _ _ _ Hp Hnew) as (R0 & _).
  destruct (srun_ok s ops Hr Hpub _ R0) as [Ok _ Sy _ _ _].
  destruct (poll_write_moved Hr _ _ _ _ _ _ Ok Hcall) as (M & _ & U).
  destruct (U Hans Sy) as [U1 U2]. split; [done|]. split; [apply M|done].
Qed.
End Props.

(** * At concrete streams *)

Section Stall.
Context `{Env0 : Env} `{!EnvOk Env0} {T : Type} `{Tx : AsyncWrite T} `{!AsyncWriteOk T}.
Context `{Vx : AsyncWriteVectored T}.

(** A transport that always makes progress. *)
Record willing : Prop := {
  wl_write : forall (t : T) b, b <> [] -> exists n t', tx_write t b = (Ready (Ok n), t') /\ 0 < n <= zlen b;
  wl_flush : forall t : T, exists t', tx_flush t = (Ready (Ok tt), t')
}.

Lemma willing_drains (k : nat) (e : DirectionEngine) (t : T) : willing -> engine_wf e ->
  Forall (fun q => q_release q <= clock k) (e_queue e) ->
  exists k' e' t', engine_poll_flush k e t = (Ready (Ok tt), k', e', t') /\ engine_wf e'
  /\ e_queue e' = [] /\ drain_frame e' = drain_frame e /\ e_queue_timer e' = e_queue_timer e.
Proof.
  intros [Hwr Hfl] Hw Hdue.
  destruct (queue_loop_drains (queue_fuel e) k e t Hw Hwr Hdue ltac:(unfold queue_fuel; lia))
    as (k' & e' & t' & E & Hti).
  assert (Ep : poll_queue k e t = (Ready (Ok tt), k', e', t')) by (unfold poll_queue; by rewrite E).
  destruct (poll_queue_spec _ _ _ _ _ _ _ Hw Ep) as (w & _ & W & _ & F & Q & _).
  destruct (Hfl t') as (t2 & Ef). exists k', e', t2. unfold engine_poll_flush. rewrite Ep, Ef. auto.
Qed.

(** No armed [Sleep] fires after [now]. *)
Definition elapsed (now : Instant) (timer : ArmedTimer) : Prop :=
  match at_sleep timer with Some s => s <= now | None => True end.

(** A stream whose queue is full but entirely due; the release timer has fired. *)
Record full_and_due (k : nat) (s : ChaosStream T) : Prop := {
  fd_wf : engine_wf (cs_engine s);
  fd_sync : pending_generation s = None;
  fd_plan : engine_is_empty (cs_engine s) = false;
  fd_pres : is_preserving_only (cs_engine s) = true /\ preserving (cs_engine s);
  fd_full : free_capacity (cs_engine s) = 0;
  fd_limit : 0 < limit_available (cs_engine s);
  fd_due : Forall (fun q => q_release q <= clock k) (e_queue (cs_engine s));
  fd_timer : elapsed (clock k) (e_queue_timer (cs_engine s));
  fd_term : e_termination (cs_engine s) = None /\ due_deadline (cs_engine s) = None
}.

Lemma update_live_idle k s : pending_generation s = None -> update_live k s = (Ready tt, k, s).
Proof.
  unfold pending_generation, update_live. destruct (live_snapshot s) as [snap|]; [|done].
  by destruct (generation snap =? cs_observed s).
Qed.

Lemma refresh_idle now e : e_termination e = None -> due_deadline e = None -> refresh_sync_terminations now e = e.
Proof.
  intros Ht Hd. destruct (refresh_shape now e) as [E|(i & slot & _ & _ & Hi)]; [done|]. exfalso.
  unfold due_deadline in Hd. destruct Hi as [(x & Hx & _)|(x & d & Hx & Hb & _)]; rewrite Hx in Hd.
  - destruct (e_blackhole e) as [b|]; [destruct (bs_deadline b)|]; done.
  - by rewrite Hb in Hd.
Qed.

Lemma drained_idle e e' : drain_frame e' = drain_frame e ->
  e_termination e' = e_termination e /\ due_deadline e' = due_deadline e
  /\ limit_available e' = limit_available e /\ e_max_buffer e' = e_max_buffer e
  /\ (preserving e -> preserving e').
Proof.
  unfold drain_frame, due_deadline, limit_available, preserving. intros F.
  injection F as _ _ Em _ Et _ El Eb Ed _ _ _ _ _ _ Es _ _ _ _ _. by rewrite Em, Et, El, Eb, Ed, Es.
Qed.

(** The vectored write can stall.  On a stream whose queue is full and whose
    release timer has fired, over a transport that takes everything: the woken
    [poll_write_vectored] drains the whole queue and then answers [Pending],
    although the queue is empty, there is room, the transport was ready and no
    timer is left to fire, so nothing will wake the caller again.  [poll_write]
    in the same state accepts. *)
Theorem vectored_write_can_stall (k : nat) (s : ChaosStream T) (bufs : list bytes)
    (Hs : full_and_due k s) (Hw : willing) (Hb : concat bufs <> []) :
  (exists k' s', stream_poll_write_vectored k bufs s = (Pending, k', s')
    /\ e_queue (cs_engine s') = [] /\ elapsed (clock k) (e_queue_timer (cs_engine s'))
    /\ 0 < bounded_accept_capacity (cs_engine s'))
  /\ exists n k' s', stream_poll_write k (concat bufs) s = (Ready (Ok n), k', s') /\ 0 < n.
Proof.
  destruct Hs as [Wf Sy Pl [Po Pr] Fu Li Du Ti [Te De]].
  destruct (willing_drains k (cs_engine s) (cs_inner s) Hw Wf Du) as (k1 & e1 & t1 & E & W1 & Q1 & F1 & T1).
  destruct (drained_idle _ _ F1) as (Te1 & De1 & Li1 & Mb1 & Pr1). rewrite Te in Te1. rewrite De in De1. specialize (Pr1 Pr).
  pose proof (wf_max_buffer _ _ W1) as Hm. pose proof (wf_buffered _ _ W1) as Hbf. rewrite Q1 in Hbf.
  change (zlen (queue_bytes [])) with 0 in Hbf.
  assert (Cap : 0 < bounded_accept_capacity e1)
    by (unfold bounded_accept_capacity, free_capacity, sat_sub; lia).
  split.
  - exists (S k1), (cs_set t1 e1 (cs_evidence s) s). conjs; [|exact Q1|cbn; by rewrite T1|exact Cap].
    unfold stream_poll_write_vectored. rewrite update_live_idle by done. cbn [is_pending]. rewrite Pl, Po. cbn [negb].
    unfold bounded_accept_capacity at 1. rewrite Fu, Z.min_r by lia. cbn [Z.eqb].
    unfold write_vectored_full. rewrite E, refresh_idle by done. unfold ended, termination_request. by rewrite Te1.
  - unfold stream_poll_write. rewrite update_live_idle by done. cbn [is_pending]. rewrite Pl.
    unfold write_engine. rewrite E. unfold ended, termination_request. rewrite Te1. cbn [fmap option_fmap option_map is_some is_none negb andb].
    destruct (concat bufs) as [|b rest] eqn:Ec; [done|]. set (all := b :: rest).
    assert (A : accept k1 all e1 = (Z.min (zlen all) (bounded_accept_capacity e1), (accept k1 all e1).2)).
    { unfold accept. rewrite accept_at_preserving by done. cbv zeta. rewrite Li1, (proj2 (Z.eqb_neq _ 0)) by lia.
      unfold refreshed. rewrite refresh_idle by done.
      destruct (accept_preserving_spec (clock (S k1)) all _ e1 W1 eq_refl) as (segs & e2 & E2 & _).
      unfold bounded_accept_capacity. rewrite Z.min_assoc, E2. done. }
    rewrite A. set (n := Z.min (zlen all) (bounded_accept_capacity e1)) in *.
    assert (Hn : 0 < n).
    { unfold n, all. rewrite zlen_cons. pose proof (zlen_nonneg rest). lia. }
    rewrite (proj2 (Z.ltb_lt 0 n) Hn).
    destruct (engine_poll_flush (3 + k1) (accept k1 all e1).2 t1) as [[[o k3] e3] t3]. eexists n, _, _.
    split; [reflexivity|exact Hn].
Qed.

(** What a swap does to the counters, whatever is queued. *)
Lemma swap_counts k (s : ChaosStream T) p : engine_wf (cs_engine s) -> policy_ok p ->
  let s' := swap_engine k (current_policy p) s in
  e_queue (cs_engine s') = [] /\ e_buffered (cs_engine s') = 0 /\ cs_inner s' = cs_inner s
  /\ v_bytes_accepted (e_evidence (cs_engine s')) = v_bytes_accepted (e_evidence (cs_engine s))
  /\ v_bytes_forwarded (e_evidence (cs_engine s')) = v_bytes_forwarded (e_evidence (cs_engine s))
  /\ v_bytes_discarded (e_evidence (cs_engine s')) = v_bytes_discarded (e_evidence (cs_engine s)).
Proof.
  intros Hw [Hty Hval]. cbv zeta. unfold swap_engine. set (snap := current_policy p) in *.
  destruct (new_with_arc_plan k (pub_plan snap) (seed_namespace snap) (cs_proxy s) (cs_connection_key s)
    (cs_direction s) (e_term_handle (cs_engine s))) as [e|err] eqn:En;
    [|unfold new_with_arc_plan in En; rewrite Hval in En; by repeat case_split_in En].
  destruct (new_engine_shape _ _ _ _ _ _ _ _ Hty En) as (W & _ & _ & Q & _ & _ & _ & _ & Va & Vf).
  pose proof (wf_buffered _ _ W) as B. rewrite Q in B. change (zlen (queue_bytes [])) with 0 in B.
  destruct (wf_ledger _ _ W) as [_ _ _ L]. rewrite Va, Vf, B in L.
  assert (Vd : v_bytes_discarded (e_evidence e) = 0) by (unfold U64_MAX in *; lia).
  destruct (wf_ledger _ _ Hw) as [A F D _]. unfold mirrored, absorb_evidence, engine_evidence. cbn.
  rewrite Va, Vf, Vd. unfold sat_add. conjs; try done; lia.
Qed.

(** A failing transport defeats the barrier.  When the flush before an
    engine swap fails, [update_live] answers as if it had drained: the engine is
    swapped, the bytes that were still queued are gone - neither sent nor counted
    as discarded - and the error is not reported. *)
Theorem failed_barrier_drops_owned_bytes (k : nat) (s : ChaosStream T) (p : LivePolicy) (err : IoError)
    (k1 : nat) (e1 : DirectionEngine) (t1 : T)
    (Hwf : engine_wf (cs_engine s)) (Hpol : policy_ok p) (Hlive : cs_live_policy s = Some p)
    (Hstale : generation (current_policy p) <> cs_observed s) (Hqueue : e_queue (cs_engine s) <> [])
    (Hflush : engine_poll_flush k (cs_engine s) (cs_inner s) = (Ready (Err err), k1, e1, t1))
    (Hleft : e_queue e1 <> []) (Hfits : v_bytes_accepted (e_evidence (cs_engine s)) < U64_MAX) :
  exists s', update_live k s = (Ready tt, S k1, s') /\ cs_inner s' = t1
  /\ e_queue (cs_engine s') = [] /\ e_buffered (cs_engine s') = 0
  /\ (let v := e_evidence (cs_engine s') in
      v_bytes_accepted v = v_bytes_forwarded v + v_bytes_discarded v + zlen (queue_bytes (e_queue e1))
      /\ 0 < zlen (queue_bytes (e_queue e1))).
Proof.
  assert (H1 : engine_wf e1 /\ v_bytes_accepted (e_evidence e1) = v_bytes_accepted (e_evidence (cs_engine s))).
  { unfold engine_poll_flush in Hflush. destruct (poll_queue k _ _) as [[[r0 k0] e0] t0] eqn:Ep.
    destruct (poll_queue_spec _ _ _ _ _ _ _ Hwf Ep) as (w & _ & W & _ & F & _).
    assert (e0 = e1) as -> by (destruct r0 as [[u|x]|]; [destruct (tx_flush t0)| |]; congruence).
    split; [done|]. unfold drain_frame in F. by injection F. }
  destruct H1 as [W1 A1]. unfold update_live, live_snapshot. rewrite Hlive. cbn [fmap option_fmap option_map].
  rewrite (proj2 (Z.eqb_neq _ _) Hstale). unfold queue_is_empty.
  destruct (e_queue (cs_engine s)) as [|q0 qs]; [done|]. rewrite Hflush. cbn [is_pending].
  set (s1 := cs_set t1 e1 _ s).
  destruct (swap_counts k1 s1 p W1 Hpol) as (S1 & S2 & S3 & S4 & S5 & S6).
  eexists. split; [reflexivity|]. split; [exact S3|]. split; [exact S1|]. split; [exact S2|].
  cbv zeta. rewrite S4, S5, S6. cbn [cs_engine s1 cs_set].
  destruct (wf_ledger _ _ W1) as [_ _ _ L]. rewrite (wf_buffered _ _ W1), Z.add_0_r in L. split; [apply L; lia|].
  pose proof (wf_segments _ _ W1) as Hs. destruct (e_queue e1) as [|q1 q2]; [done|].
  apply Forall_cons in Hs as [Hs _]. rewrite queue_bytes_cons, zlen_app.
  pose proof (zlen_nonneg (queue_bytes q2)). pose proof (zlen_nonneg (q_bytes q1)).
  destruct (Z.eq_dec (zlen (q_bytes q1)) 0) as [E|E]; [by apply zlen_zero_inv in E|lia].
Qed.
End Stall.

(** * Instances of the theorems *)

#[export] Instance stream_env : Env := ticking_env 0 1000000.
#[export] Instance stream_env_ok : EnvOk stream_env.
Proof. apply ticking_env_ok. lia. Qed.

(** ** Transports *)

(** Stalls on demand, otherwise takes at most four bytes per write. *)
Record Duct := { du_stalls : list bool; du_taken : bytes }.
Definition duct_write (t : Duct) (b : bytes) : io_poll Z * Duct :=
  let take := {| du_stalls := tail (du_stalls t); du_taken := du_taken t ++ ztake 4 b |} in
  match du_stalls t with
  | true :: rest => (Pending, {| du_stalls := rest; du_taken := du_taken t |})
  | _ => (Ready (Ok (Z.min 4 (zlen b))), take)
  end.

#[export] Instance Duct_write : AsyncWrite Duct := {
  tx_write := duct_write;
  tx_flush t := (Ready (Ok tt), t);
  tx_shutdown t := (Ready (Ok tt), t);
  sunk := du_taken
}.
#[export] Instance Duct_read : AsyncRead Duct := { rx_read t cap := (Pending, t); received t := [] }.
#[export] Instance Duct_vectored : AsyncWriteVectored Duct := {
  tx_write_vectored t bufs := duct_write t (concat bufs)
}.

Lemma duct_takes (b : bytes) : ztake (Z.min 4 (zlen b)) b = ztake 4 b.
Proof.
  destruct (Z.le_gt_cases 4 (zlen b)); [by rewrite Z.min_l|].
  rewrite Z.min_r, !ztake_all by lia. done.
Qed.

#[export] Instance Duct_write_ok : AsyncWriteOk Duct.
Proof.
  split; try done; cbn; unfold duct_write.
  - intros [[|[] st] w] b n t' H; cbn in H; simplify_eq; pose proof (zlen_nonneg b);
      (split; [lia|]); cbn; by rewrite duct_takes.
  - intros [[|[] st] w] b err t' H; cbn in H; by simplify_eq.
  - intros [[|[] st] w] b t' H; cbn in H; by simplify_eq.
Qed.
#[export] Instance Duct_vectored_ok : AsyncVectoredOk Duct.
Proof.
  split; try done; cbn; unfold duct_write.
  - intros [[|[] st] w] bufs n t' H; cbn in H; simplify_eq; pose proof (zlen_nonneg (concat bufs));
      (split; [lia|]); cbn; by rewrite duct_takes.
  - intros [[|[] st] w] bufs; done.
Qed.
Lemma duct_reliable : reliable Duct.
Proof.
  split; try done; cbn; unfold duct_write.
  - intros [[|[] st] w] b Hb; cbn; try done; pose proof (zlen_nonneg b);
      assert (zlen b <> 0) by (intros E; by apply zlen_zero_inv in E); lia.
  - intros [[|[] st] w]; done.
Qed.

(** Refuses every write. *)
Record Wall := { wall_taken : bytes }.
Definition wall_error : IoError := {| io_kind := ConnectionReset; io_message := "reset" |}.
#[export] Instance Wall_write : AsyncWrite Wall := {
  tx_write t b := (Ready (Err wall_error), t);
  tx_flush t := (Ready (Ok tt), t);
  tx_shutdown t := (Ready (Ok tt), t);
  sunk := wall_taken
}.
#[export] Instance Wall_write_ok : AsyncWriteOk Wall.
Proof. split; intros; cbn in *; by simplify_eq. Qed.

(** ** Policies *)

Definition policy_of (plan : FaultPlan) : LivePolicy :=
  {| snapshots := [{| generation := 1; pub_plan := plan; seed_namespace := 9 |}]; current := 0 |}.

Lemma policy_of_fine plan : Stream.new plan 9 = Ok (policy_of plan) -> plan_typed plan -> preserving_plan plan ->
  cell_fine (policy_of plan).
Proof. intros Hn Ht Hp. split; [by eapply cell_ok_new|done]. Qed.

Definition demo_stream {T} (t : T) (plan : FaultPlan) : ChaosStream T :=
  match stream_new_live 0 t (policy_of plan) "proxy" 1 Upstream with
  | Ok s => s
  | Err _ => passthrough 0 t Upstream
  end.

Definition duct : Duct := {| du_stalls := [true; false; true]; du_taken := [] |}.
(** Lag, then no faults at all, then a byte limit. *)
Definition story : list SOp :=
  [SWrite [1; 2; 3; 4; 5; 6]; SPublish plan_empty 10; SWrite [7]; SFlush; SRead 16]
  ++ repeat SFlush 12
  ++ [SWrite [7; 8]; SPublish limit_plan 11; SWriteVectored [[9]; [10; 11]; [12; 13; 14; 15; 16; 17]];
      SWrite [18; 19; 20]; STermination; SFlush; SWrite [21]].

Lemma story_fine : Forall publication_fine story.
Proof.
  repeat constructor; try exact limit_typed; vm_compute; intuition congruence.
Qed.
Lemma lag_fine : cell_fine (policy_of lag_plan).
Proof. apply policy_of_fine; [reflexivity|exact lag_typed|reflexivity]. Qed.

(** ** Transitions *)

Definition published : list SOp := [SPublish limit_plan 11].
Lemma published_fine : Forall publication_fine published.
Proof. constructor; [split; [exact limit_typed|reflexivity]|by constructor]. Qed.
(** Into a blackhole and into stream loss. *)
Definition into_destructive : list SOp := [SPublish hole_plan 12; SFlush; SWrite [1; 2]; SPublish loss_plan 13; SFlush; STermination].
Lemma destructive_typed : Forall publication_typed into_destructive.
Proof. repeat (constructor; [first [exact hole_typed|exact loss_typed|exact I]|]). constructor. Qed.
Lemma story_typed : Forall publication_typed story.
Proof. eapply Forall_impl; [exact story_fine|]. intros [] H; try exact I. apply H. Qed.
Lemma lag_cell_typed : cell_typed (policy_of lag_plan).
Proof. destruct lag_fine as [C [F _]]. by split. Qed.

Definition lag_stream : ChaosStream Duct := demo_stream duct lag_plan.
Lemma lag_stream_new : stream_new_live 0 duct (policy_of lag_plan) "proxy" 1 Upstream = Ok lag_stream.
Proof. vm_compute. reflexivity. Qed.
Definition told : SRun Duct := srun (sstart 1 lag_stream) story.

Lemma policy_transitions_forget_nothing_witness :
  let x := srun (sstart 0 lag_stream) story in
  sunk (cs_inner (sr_stream x)) ++ queue_bytes (e_queue (cs_engine (sr_stream x))) = sunk duct ++ sr_log x
  /\ zlen (sr_log x) = 16 /\ cs_observed (sr_stream x) = 3.
Proof.
  split; [|vm_compute; split; reflexivity].
  exact (policy_transitions_forget_nothing 0 duct (policy_of lag_plan) "proxy" 1 Upstream lag_stream story
    duct_reliable lag_fine lag_stream_new story_fine).
Defined.

Lemma summary_counts_every_write_witness :
  let x := srun (sstart 0 lag_stream) story in
  let v := engine_evidence (cs_engine (sr_stream x)) in
  (summary_bytes (sr_stream x)).1 = zlen (sr_log x)
  /\ (summary_bytes (sr_stream x)).1
     = (summary_bytes (sr_stream x)).2 + v_bytes_discarded v + v_buffered_bytes v.
Proof.
  apply (summary_counts_every_write 0 duct (policy_of lag_plan) "proxy" 1 Upstream lag_stream story
    duct_reliable lag_fine lag_stream_new story_fine).
  vm_compute. reflexivity.
Defined.

Lemma termination_survives_transitions_witness :
  let s' := sr_stream (srun (sstart 0 lag_stream) (story ++ into_destructive)) in
  e_termination (cs_engine s') = Some cap_reached /\ sm_termination (summary s') = Some Graceful
  /\ cs_observed s' = 5 /\ e_plan (cs_engine s') = loss_plan.
Proof.
  assert (C : e_termination (cs_engine (sr_stream (srun (sstart 0 lag_stream) story))) = Some cap_reached) by (vm_compute; reflexivity).
  destruct (termination_survives_transitions 0 duct (policy_of lag_plan) "proxy" 1 Upstream lag_stream story into_destructive cap_reached
    duct_reliable lag_cell_typed lag_stream_new story_typed destructive_typed C) as [A B].
  split; [exact A|]. split; [exact B|]. split; vm_compute; reflexivity.
Defined.

Definition fresh_write : io_poll Z * nat * ChaosStream Duct :=
  stream_poll_write (sr_clock (srun (sstart 0 lag_stream) published)) [1; 2] (sr_stream (srun (sstart 0 lag_stream) published)).

Lemma writes_use_the_current_policy_witness :
  pending_generation fresh_write.2 = None /\ e_plan (cs_engine fresh_write.2) = limit_plan.
Proof.
  destruct (writes_use_the_current_policy 0 duct (policy_of lag_plan) "proxy" 1 Upstream lag_stream published
    [1; 2] fresh_write.1.1 fresh_write.1.2 fresh_write.2 duct_reliable lag_fine lag_stream_new) as (A & B & C).
  - exact published_fine.
  - vm_compute. reflexivity.
  - vm_compute. discriminate.
  - split; [exact A|]. rewrite (C (Stream.publish_plan (policy_of lag_plan) limit_plan 11).2); [vm_compute; reflexivity|].
    rewrite B. vm_compute. reflexivity.
Defined.

(** ** The two departures *)

#[local] Existing Instance Sponge_write.
#[local] Existing Instance Sponge_write_ok.
#[local] Instance Sponge_vectored : AsyncWriteVectored Sponge := {
  tx_write_vectored t bufs := tx_write t (concat bufs)
}.
Lemma sponge_willing : @willing Sponge Sponge_write.
Proof. split; [exact sponge_ready|]. intros t. by eexists. Qed.

(** Sixty-four bytes fill the lag plan's queue; the timer armed by the flush has
    fired at the sixtieth clock reading. *)
Definition filled : Run Sponge :=
  run_ops (start 1 (demo_engine lag_plan) sponge) [OpAccept (repeat 7 80); OpFlush].
Definition full_stream : ChaosStream Sponge :=
  {| cs_inner := rn_tx filled; cs_engine := rn_engine filled; cs_direction := Upstream;
     cs_live_policy := Some (policy_of lag_plan); cs_proxy := "proxy"; cs_connection_key := 1;
     cs_observed := 1; cs_evidence := stream_evidence_default |}.

Lemma filled_wf : engine_wf (rn_engine filled).
Proof.
  destruct (run_ops_effect [OpAccept (repeat 7 80); OpFlush] (start 1 (demo_engine lag_plan) sponge)
    (demo_wf _ lag_typed eq_refl)) as (g & R). apply R.
Qed.
Lemma filled_due : Forall (fun q => q_release q <= clock 60) (e_queue (rn_engine filled)).
Proof.
  apply List.Forall_forall. intros q Hq. apply Z.leb_le. revert q Hq. apply List.forallb_forall.
  vm_compute. reflexivity.
Qed.
Lemma full_stream_due : full_and_due 60 full_stream.
Proof.
  split; [exact filled_wf|vm_compute; reflexivity..| |vm_compute; reflexivity|vm_compute; reflexivity
    |exact filled_due| |vm_compute; split; reflexivity].
  - split; [vm_compute; reflexivity|split; vm_compute; reflexivity].
  - vm_compute. discriminate.
Qed.

Lemma vectored_write_can_stall_witness :
  (exists k' s', stream_poll_write_vectored 60 [[1]; [2]] full_stream = (Pending, k', s')
    /\ e_queue (cs_engine s') = [] /\ elapsed (clock 60) (e_queue_timer (cs_engine s'))
    /\ 0 < bounded_accept_capacity (cs_engine s'))
  /\ exists n k' s', stream_poll_write 60 [1; 2] full_stream = (Ready (Ok n), k', s') /\ 0 < n.
Proof. exact (vectored_write_can_stall 60 full_stream [[1]; [2]] full_stream_due sponge_willing ltac:(done)). Defined.

(** A stream over a transport that refuses, with ten bytes queued, and a policy
    published under it. *)
Definition walled : ChaosStream Wall :=
  {| cs_inner := {| wall_taken := [] |}; cs_engine := rn_engine filled; cs_direction := Upstream;
     cs_live_policy := Some (Stream.publish_plan (policy_of lag_plan) plan_empty 10).2;
     cs_proxy := "proxy"; cs_connection_key := 1; cs_observed := 1; cs_evidence := stream_evidence_default |}.
Definition refused := engine_poll_flush 60 (cs_engine walled) (cs_inner walled).

Lemma failed_barrier_drops_owned_bytes_witness :
  exists s', update_live 60 walled = (Ready tt, S refused.1.1.2, s') /\ cs_inner s' = refused.2
  /\ e_queue (cs_engine s') = [] /\ e_buffered (cs_engine s') = 0
  /\ (let v := e_evidence (cs_engine s') in
      v_bytes_accepted v = v_bytes_forwarded v + v_bytes_discarded v + zlen (queue_bytes (e_queue refused.1.2))
      /\ 0 < zlen (queue_bytes (e_queue refused.1.2))).
Proof.
  apply (failed_barrier_drops_owned_bytes 60 walled (Stream.publish_plan (policy_of lag_plan) plan_empty 10).2
    wall_error refused.1.1.2 refused.1.2 refused.2 filled_wf).
  - split; [constructor|reflexivity].
  - reflexivity.
  - vm_compute. discriminate.
  - vm_compute. discriminate.
  - vm_compute. reflexivity.
  - vm_compute. discriminate.
  - vm_compute. reflexivity.
Defined.
