(* ===== verification/Bidi.v ===== *)
(** * [BidirectionalChaosStream] ([crates/eggchaos-core/src/stream.rs])

    One physical connection with an engine per direction.  The write side is a
    [ChaosStream]; the read side pulls bytes from the transport through the
    downstream engine into an output buffer.  Each direction is seen as a
    [ChaosStream] by [upstream_half] and [downstream_half], whose transport is the
    connection and the output buffer. *)

From Stdlib Require Import Bool.
From stdpp Require Import base list strings.
From S2P Require Import Prelude Rng Float64 Plan Policy Env TokenBucket EngineState Engine.
From S2P Require Import Accept Drain Stream.

(** ** [CaptureWriter] *)

Record Capture := { captured : bytes }.
#[export] Instance Capture_write : AsyncWrite Capture := {
  tx_write w data := (Ready (Ok (zlen data)), {| captured := captured w ++ data |});
  tx_flush w := (Ready (Ok tt), w);
  tx_shutdown w := (Ready (Ok tt), w);
  sunk := captured
}.

(** ** State *)

Record BidirectionalChaosStream (T : Type) := {
  bi_inner : T;
  bi_upstream : DirectionEngine;
  bi_downstream : DirectionEngine;
  bi_output : bytes;
  bi_pending : bytes;
  bi_upstream_policy : option LivePolicy;
  bi_downstream_policy : option LivePolicy;
  bi_observed_upstream : Z;
  bi_observed_downstream : Z;
  bi_proxy : string;
  bi_key : Z;
  bi_upstream_evidence : StreamEvidence;
  bi_downstream_evidence : StreamEvidence
}.
Arguments bi_inner {T} _.
Arguments bi_upstream {T} _.
Arguments bi_downstream {T} _.
Arguments bi_output {T} _.
Arguments bi_pending {T} _.
Arguments bi_upstream_policy {T} _.
Arguments bi_downstream_policy {T} _.
Arguments bi_observed_upstream {T} _.
Arguments bi_observed_downstream {T} _.
Arguments bi_proxy {T} _.
Arguments bi_key {T} _.
Arguments bi_upstream_evidence {T} _.
Arguments bi_downstream_evidence {T} _.

Section Halves.
Context {T : Type}.

Definition upstream_half (s : BidirectionalChaosStream T) : ChaosStream T :=
  {| cs_inner := bi_inner s; cs_engine := bi_upstream s; cs_direction := Upstream;
     cs_live_policy := bi_upstream_policy s; cs_proxy := bi_proxy s; cs_connection_key := bi_key s;
     cs_observed := bi_observed_upstream s; cs_evidence := bi_upstream_evidence s |}.
Definition set_upstream_half (h : ChaosStream T) (s : BidirectionalChaosStream T) : BidirectionalChaosStream T :=
  {| bi_inner := cs_inner h; bi_upstream := cs_engine h; bi_downstream := bi_downstream s;
     bi_output := bi_output s; bi_pending := bi_pending s;
     bi_upstream_policy := bi_upstream_policy s; bi_downstream_policy := bi_downstream_policy s;
     bi_observed_upstream := cs_observed h; bi_observed_downstream := bi_observed_downstream s;
     bi_proxy := bi_proxy s; bi_key := bi_key s;
     bi_upstream_evidence := cs_evidence h; bi_downstream_evidence := bi_downstream_evidence s |}.

Definition downstream_half (s : BidirectionalChaosStream T) : ChaosStream Capture :=
  {| cs_inner := {| captured := bi_output s |}; cs_engine := bi_downstream s; cs_direction := Downstream;
     cs_live_policy := bi_downstream_policy s; cs_proxy := bi_proxy s; cs_connection_key := bi_key s;
     cs_observed := bi_observed_downstream s; cs_evidence := bi_downstream_evidence s |}.
Definition set_downstream_half (h : ChaosStream Capture) (s : BidirectionalChaosStream T)
    : BidirectionalChaosStream T :=
  {| bi_inner := bi_inner s; bi_upstream := bi_upstream s; bi_downstream := cs_engine h;
     bi_output := captured (cs_inner h); bi_pending := bi_pending s;
     bi_upstream_policy := bi_upstream_policy s; bi_downstream_policy := bi_downstream_policy s;
     bi_observed_upstream := bi_observed_upstream s; bi_observed_downstream := cs_observed h;
     bi_proxy := bi_proxy s; bi_key := bi_key s;
     bi_upstream_evidence := bi_upstream_evidence s; bi_downstream_evidence := cs_evidence h |}.

(** The buffers a read changes besides the downstream half. *)
Definition set_read (t : T) (output pending : bytes) (s : BidirectionalChaosStream T)
    : BidirectionalChaosStream T :=
  {| bi_inner := t; bi_upstream := bi_upstream s; bi_downstream := bi_downstream s;
     bi_output := output; bi_pending := pending;
     bi_upstream_policy := bi_upstream_policy s; bi_downstream_policy := bi_downstream_policy s;
     bi_observed_upstream := bi_observed_upstream s; bi_observed_downstream := bi_observed_downstream s;
     bi_proxy := bi_proxy s; bi_key := bi_key s;
     bi_upstream_evidence := bi_upstream_evidence s; bi_downstream_evidence := bi_downstream_evidence s |}.
Definition set_inner (t : T) (s : BidirectionalChaosStream T) : BidirectionalChaosStream T :=
  set_read t (bi_output s) (bi_pending s) s.
Definition set_pending_downstream (p : bytes) (s : BidirectionalChaosStream T) : BidirectionalChaosStream T :=
  set_read (bi_inner s) (bi_output s) p s.
(** [downstream_evidence.mirror_engine(&downstream)]. *)
Definition mirror_downstream (s : BidirectionalChaosStream T) : BidirectionalChaosStream T :=
  set_downstream_half (mirrored (downstream_half s)) s.
End Halves.

(** ** Errors *)

(** The [Display] of [ValidationError]. *)
Definition validation_message (e : ValidationError) : string :=
  match e with
  | ProbabilityOutOfRange => "probability must be finite and between 0 and 1"
  | InvalidFaultId => "fault id must be 1..=128 bytes"
  | DuplicateFaultId id => String.append "duplicate fault id: " id
  | ZeroCapacity => "fault buffer capacity must be non-zero"
  | InvalidSlice => "slice variation must be smaller than average size"
  | InvalidRate => "bandwidth rate and burst must be non-zero"
  | ZeroLimit => "limit_data bytes must be non-zero"
  | DurationTooLong => "fault delay duration must be at most 24 hours"
  | TooManyFaults => "fault plans are limited to 256 stages"
  | GenerationOverflow => "policy generation overflowed"
  end%string.
Definition invalid_plan (e : ValidationError) : IoError :=
  {| io_kind := InvalidInput; io_message := validation_message e |}.
Definition reset_error (info : option TerminationInfo) : IoError :=
  {| io_kind := ConnectionReset;
     io_message := match info with
                   | Some i => match ti_fault_id i with
                               | Some id => String.append "connection reset by fault " id
                               | None => "connection reset"%string
                               end
                   | None => "connection reset"%string
                   end |}.

(** ** Construction *)

Section Bidi.
Context `{E : Env} {T : Type} `{W : AsyncWrite T} `{R : AsyncRead T}.

Definition bidi_new_live (k : nat) (inner : T) (upstream downstream : LivePolicy) (proxy : string) (key : Z)
    : result (BidirectionalChaosStream T) ValidationError :=
  let up := current_policy upstream in
  let down := current_policy downstream in
  let? up_engine := new_with_arc_plan k (pub_plan up) (seed_namespace up) proxy key Upstream handle_new in
  let? down_engine :=
    new_with_arc_plan (S k) (pub_plan down) (seed_namespace down) proxy key Downstream handle_new in
  Ok {| bi_inner := inner; bi_upstream := up_engine; bi_downstream := down_engine;
        bi_output := []; bi_pending := [];
        bi_upstream_policy := Some upstream; bi_downstream_policy := Some downstream;
        bi_observed_upstream := generation up; bi_observed_downstream := generation down;
        bi_proxy := proxy; bi_key := key;
        bi_upstream_evidence := refresh_policy up stream_evidence_default;
        bi_downstream_evidence := refresh_policy down stream_evidence_default |}.

Definition pending_upstream_generation (s : BidirectionalChaosStream T) : option Z :=
  pending_generation (upstream_half s).
Definition pending_downstream_generation (s : BidirectionalChaosStream T) : option Z :=
  pending_generation (downstream_half s).

(** ** Live transitions *)

(** The transition of one direction: [ChaosStream]'s, with the compile error
    returned. *)
Definition transition {U : Type} `{AsyncWrite U} (k : nat) (h : ChaosStream U)
    : io_poll unit * nat * ChaosStream U :=
  match live_snapshot h with
  | None => (Ready (Ok tt), k, h)
  | Some snap =>
      if generation snap =? cs_observed h then (Ready (Ok tt), k, h)
      else
        let v := set_pending (generation snap) (cs_evidence h) in
        let '(outcome, k, engine, inner) :=
          if queue_is_empty (cs_engine h) then (Ready (Ok tt), k, cs_engine h, cs_inner h)
          else engine_poll_flush k (cs_engine h) (cs_inner h) in
        let h := cs_set inner engine v h in
        if is_pending outcome then (Pending, k, h)
        else
          match new_with_arc_plan k (pub_plan snap) (seed_namespace snap) (cs_proxy h) (cs_connection_key h)
                  (cs_direction h) (e_term_handle (cs_engine h)) with
          | Err error => (Ready (Err (invalid_plan error)), S k, h)
          | Ok _ => (Ready (Ok tt), S k, swap_engine k snap h)
          end
  end.

(** Downstream waits for the output buffer to be served. *)
Definition transition_downstream (k : nat) (s : BidirectionalChaosStream T)
    : io_poll unit * nat * BidirectionalChaosStream T :=
  let h := downstream_half s in
  match live_snapshot h, bi_output s with
  | Some snap, _ :: _ =>
      if generation snap =? cs_observed h then (Ready (Ok tt), k, s)
      else (Ready (Ok tt), k, set_downstream_half
              (cs_set (cs_inner h) (cs_engine h) (set_pending (generation snap) (cs_evidence h)) h) s)
  | _, _ =>
      let '(r, k, h) := transition k h in (r, k, set_downstream_half h s)
  end.

Definition update_policies (k : nat) (s : BidirectionalChaosStream T)
    : io_poll unit * nat * BidirectionalChaosStream T :=
  let '(r, k, h) := transition k (upstream_half s) in
  let s := set_upstream_half h s in
  match r with
  | Ready (Ok _) => transition_downstream k s
  | other => (other, k, s)
  end.

(** ** Writing *)

(** [poll_write] behind the policies and the direct path: [ChaosStream]'s, with
    the evidence mirrored before the first termination error. *)
Definition bidi_write_engine (k : nat) (data : bytes) (h : ChaosStream T) : io_poll Z * nat * ChaosStream T :=
  let '(drive, k, engine, inner) := engine_poll_flush k (cs_engine h) (cs_inner h) in
  let h := cs_set inner engine (cs_evidence h) h in
  match drive with
  | Ready (Err error) => (Ready (Err error), k, mirrored h)
  | _ =>
      match data with
      | [] => (Ready (Ok 0), k, h)
      | _ =>
          if ended engine then (Ready (Err (terminated_error (e_termination engine))), k, mirrored h)
          else
            let '(accepted, engine) := accept k data engine in
            let k := (3 + k)%nat in
            if 0 <? accepted then
              let '(_, k, engine, inner) := engine_poll_flush k engine inner in
              (Ready (Ok accepted), k, mirrored (cs_set inner engine (cs_evidence h) h))
            else
              let h := cs_set inner engine (cs_evidence h) h in
              if ended engine then (Ready (Err (terminated_error (e_termination engine))), k, h)
              else (Pending, k, h)
      end
  end.

Definition bidi_poll_write (k : nat) (data : bytes) (s : BidirectionalChaosStream T)
    : io_poll Z * nat * BidirectionalChaosStream T :=
  let '(live, k, s) := update_policies k s in
  match live with
  | Ready (Err error) => (Ready (Err error), k, s)
  | Pending => (Pending, k, s)
  | Ready (Ok _) =>
      let h := upstream_half s in
      if engine_is_empty (bi_upstream s) then
        let '(r, h) := write_direct (tx_write (cs_inner h) data) h in (r, k, set_upstream_half h s)
      else
        let '(r, k, h) := bidi_write_engine k data h in (r, k, set_upstream_half h s)
  end.

Definition bidi_poll_flush (k : nat) (s : BidirectionalChaosStream T)
    : io_poll unit * nat * BidirectionalChaosStream T :=
  let '(live, k, s) := update_policies k s in
  match live with
  | Ready (Err error) => (Ready (Err error), k, s)
  | Pending => (Pending, k, s)
  | Ready (Ok _) =>
      let h := upstream_half s in
      let '(outcome, k, engine, inner) := engine_poll_flush k (cs_engine h) (cs_inner h) in
      (outcome, k, set_upstream_half (mirrored (cs_set inner engine (cs_evidence h) h)) s)
  end.

Definition bidi_poll_shutdown (k : nat) (s : BidirectionalChaosStream T)
    : io_poll unit * nat * BidirectionalChaosStream T :=
  let '(live, k, s) := update_policies k s in
  match live with
  | Ready (Err error) => (Ready (Err error), k, s)
  | Pending => (Pending, k, s)
  | Ready (Ok _) =>
      let h := upstream_half s in
      let '(outcome, k, engine, inner) := engine_poll_shutdown k (cs_engine h) (cs_inner h) in
      (outcome, k, set_upstream_half (cs_set inner engine (cs_evidence h) h) s)
  end.

Definition bidi_poll_write_vectored (k : nat) (bufs : list bytes) (s : BidirectionalChaosStream T)
    : io_poll Z * nat * BidirectionalChaosStream T :=
  bidi_poll_write k (concat bufs) s.

(** ** Reading *)

(** One turn of the loop of [poll_read]: an answer, or another turn. *)
Inductive ReadStep :=
| RDone (r : io_poll bytes) (k : nat) (s : BidirectionalChaosStream T)
| RAgain (k : nat) (s : BidirectionalChaosStream T).

(** [downstream.poll_flush(cx, &mut CaptureWriter(&mut output))]. *)
Definition flush_downstream (k : nat) (s : BidirectionalChaosStream T)
    : io_poll unit * nat * BidirectionalChaosStream T :=
  let '(r, k, engine, out) := engine_poll_flush k (bi_downstream s) {| captured := bi_output s |} in
  (r, k, set_downstream_half (cs_set out engine (bi_downstream_evidence s) (downstream_half s)) s).

(** [downstream.accept(data)], what it leaves in [pending_downstream], and the
    mirrored evidence. *)
Definition accept_downstream (k : nat) (data : bytes) (s : BidirectionalChaosStream T)
    : Z * nat * BidirectionalChaosStream T :=
  let '(accepted, engine) := accept k data (bi_downstream s) in
  let s := set_downstream_half (cs_set {| captured := bi_output s |} engine (bi_downstream_evidence s)
                                  (downstream_half s)) s in
  (accepted, (3 + k)%nat, mirror_downstream (set_pending_downstream (zdrop accepted data) s)).

Definition serve_output (k : nat) (cap : Z) (s : BidirectionalChaosStream T) : ReadStep :=
  let take := Z.min cap (zlen (bi_output s)) in
  RDone (Ready (Ok (ztake take (bi_output s)))) k
    (set_read (bi_inner s) (zdrop take (bi_output s)) (bi_pending s) s).

Definition offer_pending (k : nat) (s : BidirectionalChaosStream T) : ReadStep :=
  let '(accepted, k, s) := accept_downstream k (bi_pending s) s in
  if accepted =? 0 then
    if queue_is_empty (bi_downstream s) then RDone (Ready (Ok [])) k (set_pending_downstream [] s)
    else
      let '(flush, k, s) := flush_downstream k s in
      match flush with
      | Pending => if zlen (bi_output s) =? 0 then RDone Pending k s else RAgain k s
      | Ready (Err error) => RDone (Ready (Err error)) k s
      | Ready (Ok _) => RAgain k s
      end
  else RAgain k s.

(** The size of the buffer a read of the transport gets. *)
Definition READ_CHUNK : Z := 8192.

(** The read of the transport under a graceful termination. *)
Definition read_ending (k : nat) (s : BidirectionalChaosStream T) : ReadStep :=
  match rx_read (bi_inner s) READ_CHUNK with
  | (Pending, t) => RDone (Ready (Ok [])) k (set_inner t s)
  | (Ready (Err error), t) => RDone (Ready (Err error)) k (set_inner t s)
  | (Ready (Ok []), t) => RDone (Ready (Ok [])) k (set_inner t s)
  | (Ready (Ok data), t) =>
      let '(accepted, k, s) := accept_downstream k data (set_inner t s) in
      if accepted =? 0 then RAgain k s
      else
        let '(flush, k, s) := flush_downstream k s in
        let s := mirror_downstream s in
        match flush with
        | Ready (Ok _) => RAgain k s
        | Ready (Err error) => RDone (Ready (Err error)) k s
        | Pending => if zlen (bi_output s) =? 0 then RDone Pending k s else RAgain k s
        end
  end.

(** The read of the transport of a live direction. *)
Definition read_live (k : nat) (s : BidirectionalChaosStream T) : ReadStep :=
  match rx_read (bi_inner s) READ_CHUNK with
  | (Pending, t) => RDone Pending k (set_inner t s)
  | (Ready (Err error), t) => RDone (Ready (Err error)) k (set_inner t s)
  | (Ready (Ok []), t) => RDone (Ready (Ok [])) k (set_inner t s)
  | (Ready (Ok data), t) =>
      let '(accepted, k, s) := accept_downstream k data (set_inner t s) in
      if accepted =? 0 then RDone Pending k s else RAgain k s
  end.

Definition read_transport (k : nat) (s : BidirectionalChaosStream T) : ReadStep :=
  match termination_request (bi_downstream s) with
  | Some Graceful => read_ending k s
  | Some HardReset => RDone (Ready (Err (reset_error (e_termination (bi_downstream s))))) k s
  | None => read_live k s
  end.

Definition read_step (k : nat) (cap : Z) (s : BidirectionalChaosStream T) : ReadStep :=
  match bi_output s, bi_pending s with
  | _ :: _, _ => serve_output k cap s
  | [], _ :: _ => offer_pending k s
  | [], [] =>
      if queue_is_empty (bi_downstream s) then read_transport k s
      else
        let '(flush, k, s) := flush_downstream k s in
        let s := mirror_downstream s in
        match flush with
        | Pending => RDone Pending k s
        | Ready (Err error) => RDone (Ready (Err error)) k s
        | Ready (Ok _) =>
            match bi_output s with
            | _ :: _ => RAgain k s
            | [] => read_transport k s
            end
        end
  end.

Fixpoint read_loop (fuel : nat) (k : nat) (cap : Z) (s : BidirectionalChaosStream T)
    : option (io_poll bytes * nat * BidirectionalChaosStream T) :=
  match fuel with
  | O => None
  | S fuel' =>
      match read_step k cap s with
      | RDone r k s => Some (r, k, s)
      | RAgain k s => read_loop fuel' k cap s
      end
  end.

(** The direct path of the empty downstream plan. *)
Definition read_direct (k : nat) (cap : Z) (s : BidirectionalChaosStream T)
    : io_poll bytes * nat * BidirectionalChaosStream T :=
  let h := downstream_half s in
  match rx_read (bi_inner s) cap with
  | (Ready (Ok data), t) =>
      (Ready (Ok data), k,
       set_downstream_half (cs_set (cs_inner h) (cs_engine h) (note_direct (zlen data) (cs_evidence h)) h)
         (set_inner t s))
  | (other, t) => (other, k, set_inner t s)
  end.

(** The read-side pump of the write direction. *)
Definition pump_upstream (k : nat) (s : BidirectionalChaosStream T) : nat * BidirectionalChaosStream T :=
  if engine_is_empty (bi_upstream s) then (k, s)
  else
    let h := upstream_half s in
    let '(_, k, engine, inner) := engine_poll_flush k (cs_engine h) (cs_inner h) in
    (k, set_upstream_half (mirrored (cs_set inner engine (cs_evidence h) h)) s).

(** [poll_read] into a buffer with [cap] free bytes; [fuel] bounds the turns of the loop. *)
Definition bidi_poll_read (fuel : BidirectionalChaosStream T -> nat) (k : nat) (cap : Z) (s : BidirectionalChaosStream T)
    : option (io_poll bytes * nat * BidirectionalChaosStream T) :=
  let '(live, k, s) := update_policies k s in
  match live with
  | Ready (Err error) => Some (Ready (Err error), k, s)
  | Pending => Some (Pending, k, s)
  | Ready (Ok _) =>
      let '(k, s) := pump_upstream k s in
      if engine_is_empty (bi_downstream s) then Some (read_direct k cap s)
      else read_loop (fuel s) k cap s
  end.
End Bidi.

(** ** Evidence *)

Record BidirectionalEvidenceSnapshot := {
  bs_connection_key : Z;
  bs_proxy : string;
  bs_upstream : DirectionEvidenceSnapshot;
  bs_downstream : DirectionEvidenceSnapshot
}.
Definition bidi_evidence_snapshot {T} (s : BidirectionalChaosStream T) : BidirectionalEvidenceSnapshot :=
  {| bs_connection_key := bi_key s; bs_proxy := bi_proxy s;
     bs_upstream := evidence_snapshot (bi_upstream_evidence s) V1;
     bs_downstream := evidence_snapshot (bi_downstream_evidence s) V1 |}.
