(* ===== verification/BidiProps.v ===== *)
(** * Steps of [BidirectionalChaosStream]

    Every call decomposes into transitions and engine operations of the two
    halves, and turns of the read loop; each moves bytes by a [carried] step, and
    [carried] composes. *)

From Stdlib Require Import Bool.
From stdpp Require Import base list strings.
From S2P Require Import Prelude Rng Float64 Plan Policy Env TokenBucket EngineState Engine.
From S2P Require Import Accept Drain EngineInv Loss AcceptSpec DrainSpec EngineRun.
From S2P Require Import EngineProps Stream StreamProps Bidi.

(** ** Transports *)

#[export] Instance Capture_write_ok : AsyncWriteOk Capture.
Proof.
  split; cbn; try done.
  intros w b n w' [= <- <-]. split; [apply zlen_nonneg|]. intros _. cbn. by rewrite ztake_all.
Qed.
Lemma capture_reliable : reliable Capture.
Proof.
  split; cbn; try done. intros w b Hb. pose proof (zlen_nonneg b). destruct b as [|x b]; [done|].
  rewrite zlen_cons in *. pose proof (zlen_nonneg b). lia.
Qed.

(** [poll_read] yields at most the free part of the buffer, in order; writing
    does not read. *)
Class AsyncReadOk (T : Type) `{W : AsyncWrite T} `{R : AsyncRead T} : Prop := {
  rd_ok : forall t cap b t', rx_read t cap = (Ready (Ok b), t') ->
    zlen b <= Z.max 0 cap /\ received t' = received t ++ b;
  rd_other : forall t cap, match (rx_read t cap).1 with
    | Ready (Ok _) => True | _ => received (rx_read t cap).2 = received t end;
  rd_sunk : forall t cap, sunk (rx_read t cap).2 = sunk t;
  rd_write : forall t b, received (tx_write t b).2 = received t;
  rd_flush : forall t, received (tx_flush t).2 = received t;
  rd_shutdown : forall t, received (tx_shutdown t).2 = received t
}.

(** How many reads in a row can find data: each one that does uses one up. *)
Class Backlog (T : Type) `{R : AsyncRead T} := {
  backlog : T -> nat;
  backlog_read : forall t cap x b t', rx_read t cap = (Ready (Ok (x :: b)), t') -> (backlog t' < backlog t)%nat
}.

(** What the write operations of a transport keep, a flush of an engine keeps. *)
Section Keeps.
Context `{Env0 : Env} {T A : Type} `{Tx : AsyncWrite T} (f : T -> A).
Context (Kw : forall t b, f (tx_write t b).2 = f t) (Kf : forall t, f (tx_flush t).2 = f t)
  (Ks : forall t, f (tx_shutdown t).2 = f t).

Lemma write_front_keeps k front rest e t :
  match write_front k front rest e t with QDone _ _ _ t' | QNext _ _ t' => f t' = f t end.
Proof.
  unfold write_front. pose proof (Kw t (q_bytes front)) as H.
  destruct (tx_write t (q_bytes front)) as [[[n|err]|] t']; cbn in H; [|done..]. by repeat case_split.
Qed.
Lemma queue_step_keeps k e t :
  match queue_step k e t with QDone _ _ _ t' | QNext _ _ t' => f t' = f t end.
Proof.
  unfold queue_step. destruct (e_queue e) as [|front rest]; [done|].
  destruct (_ <? _); [|apply write_front_keeps]. destruct (timer_poll _ _ _ _) as [fired timer].
  destruct fired; [apply write_front_keeps|done].
Qed.
Lemma loop_keeps fuel : forall k e t r k' e' t',
  queue_loop fuel k e t = Some (r, k', e', t') -> f t' = f t.
Proof.
  induction fuel as [|fuel IH]; intros k e t r k' e' t'; [done|]. cbn [queue_loop].
  pose proof (queue_step_keeps k e t) as S. destruct (queue_step k e t) as [r0 k0 e0 t0|k0 e0 t0].
  - by intros [= <- <- <- <-].
  - intros H. by rewrite (IH _ _ _ _ _ _ _ H).
Qed.
Lemma queue_keeps k e t r k' e' t' : poll_queue k e t = (r, k', e', t') -> f t' = f t.
Proof.
  unfold poll_queue. destruct (queue_loop _ _ _ _) as [[[[r0 k0] e0] t0]|] eqn:El; [|by intros [= <- <- <- <-]].
  intros [= <- <- <- <-]. exact (loop_keeps _ _ _ _ _ _ _ _ El).
Qed.
Lemma flush_keeps k e t r k' e' t' : engine_poll_flush k e t = (r, k', e', t') -> f t' = f t.
Proof.
  unfold engine_poll_flush. destruct (poll_queue k e t) as [[[r0 k0] e0] t0] eqn:E. apply queue_keeps in E.
  destruct r0 as [[u|err]|]; [|by intros [= <- <- <- <-]..].
  pose proof (Kf t0) as H. destruct (tx_flush t0) as [r1 t1]. cbn in H. intros [= <- <- <- <-]. congruence.
Qed.
Lemma shutdown_keeps k e t r k' e' t' : engine_poll_shutdown k e t = (r, k', e', t') -> f t' = f t.
Proof.
  unfold engine_poll_shutdown. destruct (poll_queue k e t) as [[[r0 k0] e0] t0] eqn:E. apply queue_keeps in E.
  destruct r0 as [[u|err]|]; [|by intros [= <- <- <- <-]..]. pose proof (Ks t0) as H. revert H.
  destruct (tx_shutdown t0) as [r1 t1]. cbn [snd]. intros H.
  destruct (e_shutdown_deadline _); [|intros [= <- <- <- <-]; congruence].
  destruct (_ <? _); [|intros [= <- <- <- <-]; congruence].
  destruct (timer_poll _ _ _ _) as [fired timer]. destruct fired; cbn [negb]; intros [= <- <- <- <-]; congruence.
Qed.
End Keeps.

(** ** Downstream plans *)

(** A plan under which reads neither drop nor cut the bytes: not empty, without
    blackhole, stream loss or byte limit. *)
Definition readable_plan (plan : FaultPlan) : Prop :=
  plan_is_empty plan = false
  /\ forallb (fun f => match fs_kind f with Blackhole _ | StreamLoss _ | LimitData _ => false | _ => true end)
       (faults plan) = true.
Definition readable_engine (e : DirectionEngine) : Prop :=
  engine_is_empty e = false /\ e_remaining_limit e = None.

Lemma readable_preserving plan : readable_plan plan ->
  forallb (fun f => match fs_kind f with Blackhole _ | StreamLoss _ => false | _ => true end) (faults plan) = true.
Proof.
  intros [_ H]. revert H. induction (faults plan) as [|f fs IH]; [done|]. cbn. intros H. bools.
  rewrite IH by done. by destruct (fs_kind f).
Qed.

Lemma compile_faults_unlimited now rs proxy key d fs : forall a c rngs sl,
  forallb (fun f => match fs_kind f with Blackhole _ | StreamLoss _ | LimitData _ => false | _ => true end) fs = true ->
  c_remaining_limit a = None -> compile_faults now rs proxy key d fs a = (c, rngs, sl) -> c_remaining_limit c = None.
Proof.
  induction fs as [|f fs IH]; intros a c rngs sl; cbn [forallb compile_faults]; [by intros _ ? [= <- <- <-]|].
  intros Hf Ha. bools. destruct (bernoulli _ _) as [active rng].
  destruct active; [destruct (compile_faults _ _ _ _ _ _ (compile_kind _ _ _)) as [[c0 rngs0] sl0] eqn:E
    |destruct (compile_faults _ _ _ _ _ _ _) as [[c0 rngs0] sl0] eqn:E]; intros [= <- <- <-];
    (eapply IH; [done| |exact E]); [|done].
  unfold compile_kind. by destruct (fs_kind f).
Qed.

Lemma new_engine_readable `{Env0 : Env} k plan rs proxy key d slot e : readable_plan plan ->
  new_with_arc_plan k plan rs proxy key d slot = Ok e -> readable_engine e.
Proof.
  intros [He Hf]. unfold new_with_arc_plan. destruct (plan_validate plan) as [[]|]; [|done]. cbv zeta.
  destruct (compile_faults _ _ _ _ _ _ _) as [[c rngs] sl] eqn:Ec. intros [= <-]. split; [exact He|].
  eapply (compile_faults_unlimited _ _ _ _ _ _ compiling_start); [exact Hf|done|exact Ec].
Qed.

(** ** Transitions *)

Lemma published_compiles `{Env0 : Env} k plan rs proxy key d slot : plan_validate plan = Ok tt ->
  exists e, new_with_arc_plan k plan rs proxy key d slot = Ok e.
Proof.
  intros Hv. unfold new_with_arc_plan. rewrite Hv. cbv zeta.
  destruct (compile_faults _ _ _ _ _ _ _) as [[c rngs] sl]. by eexists.
Qed.

Section Transition.
Context `{Env0 : Env} `{!EnvOk Env0} {U : Type} `{Tx : AsyncWrite U} `{!AsyncWriteOk U}.

Definition lift_poll (r : poll unit) : io_poll unit :=
  match r with Ready u => Ready (Ok u) | Pending => Pending end.

(** Published plans compile, so a transition is that of [ChaosStream]. *)
Lemma transition_is_update_live k (h : ChaosStream U) r k' h' :
  (forall p, cs_live_policy h = Some p -> policy_ok p) ->
  transition k h = (r, k', h') ->
  exists r0, update_live k h = (r0, k', h') /\ r = lift_poll r0.
Proof.
  intros Hp. unfold transition, update_live, live_snapshot.
  destruct (cs_live_policy h) as [p|]; cbn [fmap option_fmap option_map];
    [|intros [= <- <- <-]; by exists (Ready tt)].
  destruct (Hp p eq_refl) as [_ Hval].
  destruct (_ =? _); [intros [= <- <- <-]; by exists (Ready tt)|].
  assert (C : forall k0 (h1 : ChaosStream U), match new_with_arc_plan k0 (pub_plan (current_policy p)) (seed_namespace (current_policy p))
      (cs_proxy h1) (cs_connection_key h1) (cs_direction h1) (e_term_handle (cs_engine h1)) with
    | Err error => (Ready (Err (invalid_plan error)), S k0, h1)
    | Ok _ => (Ready (Ok tt), S k0, swap_engine k0 (current_policy p) h1)
    end = (r, k', h') -> (Ready tt, S k0, swap_engine k0 (current_policy p) h1) = (Ready tt, k', h') /\ r = Ready (Ok tt)).
  { intros k0 h1. destruct (published_compiles k0 (pub_plan (current_policy p)) (seed_namespace (current_policy p))
      (cs_proxy h1) (cs_connection_key h1) (cs_direction h1) (e_term_handle (cs_engine h1)) Hval) as (e & ->).
    by intros [= <- <- <-]. }
  destruct (queue_is_empty (cs_engine h)); cbn [is_pending].
  - intros H. apply C in H as [H ->]. exists (Ready tt). split; [exact H|done].
  - destruct (engine_poll_flush _ _ _) as [[[o k1] e1] i1]. destruct (is_pending o) eqn:Eo.
    + intros [= <- <- <-]. by exists Pending.
    + intros H. apply C in H as [H ->]. exists (Ready tt). split; [exact H|done].
Qed.

Lemma flush_limit k e (t : U) r k' e' t' : engine_wf e -> engine_poll_flush k e t = (r, k', e', t') ->
  e_plan e' = e_plan e /\ (e_remaining_limit e = None -> e_remaining_limit e' = None) /\ engine_wf e'.
Proof.
  intros Hw E.
  destruct (exec_effect {| rn_clock := k; rn_engine := e; rn_tx := t; rn_log := [] |} OpFlush Hw) as (g & w & segs & S).
  unfold exec in S. cbn [rn_clock rn_engine rn_tx] in S. rewrite E in S.
  pose proof (se_plan _ _ _ _ _ _ S) as P. pose proof (se_limit _ _ _ _ _ _ S) as L. pose proof (se_wf _ _ _ _ _ _ S) as W.
  cbn [rn_engine] in *. split; [done|]. split; [|done]. intros Hl. unfold charged in L. by rewrite Hl in L.
Qed.

Lemma accept_limit k data e n e' : engine_wf e -> accept k data e = (n, e') ->
  e_plan e' = e_plan e /\ (e_remaining_limit e = None -> e_remaining_limit e' = None) /\ engine_wf e'.
Proof.
  intros Hw E.
  destruct (exec_effect {| rn_clock := k; rn_engine := e; rn_tx := {| captured := [] |}; rn_log := [] |} (OpAccept data) Hw)
    as (g & w & segs & S).
  unfold exec in S. cbn [rn_clock rn_engine rn_tx] in S. rewrite E in S.
  pose proof (se_plan _ _ _ _ _ _ S) as P. pose proof (se_limit _ _ _ _ _ _ S) as L. pose proof (se_wf _ _ _ _ _ _ S) as W.
  cbn [rn_engine] in *. split; [done|]. split; [|done]. intros Hl. unfold charged in L. by rewrite Hl in L.
Qed.

Lemma update_live_readable k (h : ChaosStream U) r k' h' : engine_wf (cs_engine h) ->
  readable_engine (cs_engine h) ->
  (forall p, cs_live_policy h = Some p -> readable_plan (pub_plan (current_policy p))) ->
  update_live k h = (r, k', h') -> readable_engine (cs_engine h').
Proof.
  intros Hw He Hp. unfold update_live, live_snapshot.
  destruct (cs_live_policy h) as [p|]; cbn [fmap option_fmap option_map]; [|by intros [= <- <- <-]].
  specialize (Hp p eq_refl). destruct (_ =? _); [by intros [= <- <- <-]|].
  assert (Sw : forall k0 (h1 : ChaosStream U), readable_engine (cs_engine h1) ->
    readable_engine (cs_engine (swap_engine k0 (current_policy p) h1))).
  { intros k0 h1 H1. unfold swap_engine. destruct (new_with_arc_plan _ _ _ _ _ _ _) as [e|err] eqn:En; [|done].
    exact (new_engine_readable _ _ _ _ _ _ _ _ Hp En). }
  destruct (queue_is_empty (cs_engine h)); [intros [= <- <- <-]; by apply Sw|].
  destruct (engine_poll_flush _ _ _) as [[[o k1] e1] i1] eqn:Ef.
  assert (H1 : readable_engine e1).
  { destruct (flush_limit _ _ _ _ _ _ _ Hw Ef) as (P & L & _). destruct He as [He1 He2].
    split; [unfold engine_is_empty in *; by rewrite P|by apply L]. }
  destruct (is_pending o); intros [= <- <- <-]; [done|by apply Sw].
Qed.

(** What a transition does to the transport is a flush of the old engine. *)
Lemma update_live_keeps {A} (f : U -> A) k (h : ChaosStream U) r k' h' :
  (forall t b, f (tx_write t b).2 = f t) -> (forall t, f (tx_flush t).2 = f t) ->
  update_live k h = (r, k', h') -> f (cs_inner h') = f (cs_inner h).
Proof.
  intros Kw Kf. unfold update_live. destruct (live_snapshot h) as [snap|]; [|by intros [= <- <- <-]].
  assert (Sw : forall k0 (h1 : ChaosStream U), cs_inner (swap_engine k0 snap h1) = cs_inner h1).
  { intros k0 h1. unfold swap_engine. by destruct (new_with_arc_plan _ _ _ _ _ _ _). }
  destruct (_ =? _); [by intros [= <- <- <-]|].
  destruct (queue_is_empty (cs_engine h)); [intros [= <- <- <-]; by rewrite Sw|].
  destruct (engine_poll_flush _ _ _) as [[[o k1] e1] i1] eqn:Ef.
  pose proof (flush_keeps f Kw Kf _ _ _ _ _ _ _ Ef) as K.
  destruct (is_pending o); intros [= <- <- <-]; [done|by rewrite Sw].
Qed.
End Transition.

(** ** Steps *)

Section Carried.
Context `{Env0 : Env} `{!EnvOk Env0} {T : Type} `{Tx : AsyncWrite T} `{!AsyncWriteOk T}.
Context `{Rx : AsyncRead T} `{!AsyncReadOk T} (Hr : reliable T).
Local Abbreviation bidi := (BidirectionalChaosStream T).

Record bidi_ok (s : bidi) : Prop := {
  bo_up : stream_ok (upstream_half s);
  bo_down : stream_ok (downstream_half s);
  bo_read : readable_engine (bi_downstream s);
  bo_policy : forall p, bi_downstream_policy s = Some p -> readable_plan (pub_plan (current_policy p))
}.

Lemma bidi_ok_wf s : bidi_ok s -> engine_wf (bi_downstream s).
Proof. intros H. exact (so_wf _ (bo_down _ H)). Qed.

(** The bytes on their way to the reader, in order. *)
Definition inbound (s : bidi) : bytes := bi_output s ++ queue_bytes (e_queue (bi_downstream s)) ++ bi_pending s.

(** [written] bytes entered upstream; [fresh] bytes came from the transport and
    [out] bytes were read, and the rest is still inbound. *)
Record carried (s s' : bidi) (written fresh out : bytes) : Prop := {
  cr_ok : bidi_ok s';
  cr_up : moved (upstream_half s) (upstream_half s') written;
  cr_received : received (bi_inner s') = received (bi_inner s) ++ fresh;
  cr_read : inbound s ++ fresh = out ++ inbound s';
  cr_policy : bi_downstream_policy s' = bi_downstream_policy s
}.

Lemma carried_refl s : bidi_ok s -> carried s s [] [] [].
Proof. intros H. split; try done; [by apply moved_refl, H|by rewrite app_nil_r|by rewrite app_nil_r]. Qed.

Lemma carried_trans s1 s2 s3 w1 w2 f1 f2 o1 o2 : carried s1 s2 w1 f1 o1 -> carried s2 s3 w2 f2 o2 ->
  carried s1 s3 (w1 ++ w2) (f1 ++ f2) (o1 ++ o2).
Proof.
  intros [A1 A2 A3 A4 A5] [B1 B2 B3 B4 B5]. split; [done|by eapply moved_trans| | |congruence].
  - by rewrite B3, A3, app_assoc.
  - by rewrite app_assoc, A4, <- !app_assoc, B4.
Qed.
Lemma carried_quiet s1 s2 s3 w f o : carried s1 s2 [] [] [] -> carried s2 s3 w f o -> carried s1 s3 w f o.
Proof. intros H1 H2. exact (carried_trans _ _ _ _ _ _ _ _ _ H1 H2). Qed.
Lemma carried_then s1 s2 s3 w f o : carried s1 s2 w f o -> carried s2 s3 [] [] [] -> carried s1 s3 w f o.
Proof.
  intros H1 H2. pose proof (carried_trans _ _ _ _ _ _ _ _ _ H1 H2) as H. by rewrite !app_nil_r in H.
Qed.

(** A step of the upstream half alone. *)
Lemma carried_upstream s h w : bidi_ok s -> moved (upstream_half s) h w ->
  received (cs_inner h) = received (bi_inner s) ->
  cs_direction h = Upstream -> cs_proxy h = bi_proxy s -> cs_connection_key h = bi_key s ->
  carried s (set_upstream_half h s) w [] [].
Proof.
  intros H M Hrc Hd Hp Hk.
  assert (E : upstream_half (set_upstream_half h s) = h).
  { pose proof (mv_policy _ _ _ M) as Hl. destruct h. cbn in *. unfold upstream_half. cbn. congruence. }
  split; try done; [|by rewrite E|by rewrite app_nil_r|by rewrite app_nil_r].
  destruct H. split; try done. rewrite E. apply M.
Qed.

(** A step of the downstream half alone. *)
Lemma carried_downstream s h : bidi_ok s -> moved (downstream_half s) h [] -> readable_engine (cs_engine h) ->
  cs_direction h = Downstream -> cs_proxy h = bi_proxy s -> cs_connection_key h = bi_key s ->
  carried s (set_downstream_half h s) [] [] [].
Proof.
  intros H M Hrd Hd Hp Hk.
  assert (E : downstream_half (set_downstream_half h s) = h).
  { pose proof (mv_policy _ _ _ M) as Hl. destruct h as [[c] ? ? ? ? ? ? ?]. cbn in *. unfold downstream_half. cbn. congruence. }
  pose proof (mv_bytes _ _ _ M) as B. cbn in B. split; try done.
  - destruct H. split; try done. rewrite E. apply M.
  - apply moved_refl, H.
  - by rewrite app_nil_r.
  - unfold inbound. cbn. rewrite app_nil_r in B |- *. by rewrite !app_assoc, B.
Qed.

Lemma swap_engine_frame {U} `{AsyncWrite U} k snap (h : ChaosStream U) :
  (cs_direction (swap_engine k snap h), cs_proxy (swap_engine k snap h), cs_connection_key (swap_engine k snap h))
  = (cs_direction h, cs_proxy h, cs_connection_key h).
Proof. unfold swap_engine. by destruct (new_with_arc_plan _ _ _ _ _ _ _). Qed.

Lemma update_live_frame {U} `{AsyncWrite U} k (h : ChaosStream U) r k' h' : update_live k h = (r, k', h') ->
  (cs_direction h', cs_proxy h', cs_connection_key h') = (cs_direction h, cs_proxy h, cs_connection_key h).
Proof.
  unfold update_live. destruct (live_snapshot h); [|by intros [= <- <- <-]].
  destruct (_ =? _); [by intros [= <- <- <-]|].
  destruct (queue_is_empty _); [intros [= <- <- <-]; by rewrite swap_engine_frame|].
  destruct (engine_poll_flush _ _ _) as [[[o k1] e1] i1].
  destruct (is_pending o); intros [= <- <- <-]; [done|by rewrite swap_engine_frame].
Qed.

Lemma transition_upstream_carried k s r k' h : bidi_ok s -> transition k (upstream_half s) = (r, k', h) ->
  carried s (set_upstream_half h s) [] [] [].
Proof.
  intros H E. pose proof (bo_up _ H) as Hu. apply transition_is_update_live in E as (r0 & E & _);
    [|intros p Hp; by destruct (so_policy _ Hu p Hp)].
  pose proof (update_live_frame _ _ _ _ _ E) as [= F1 F2 F3].
  apply carried_upstream; try done; [by apply (update_live_moved Hr) in E as [? _]|].
  exact (update_live_keeps received _ _ _ _ _ rd_write rd_flush E).
Qed.

Lemma transition_downstream_carried k s r k' s' : bidi_ok s -> transition_downstream k s = (r, k', s') ->
  carried s s' [] [] [].
Proof.
  intros H. pose proof (bo_down _ H) as Hd. unfold transition_downstream.
  assert (Tr : (let '(r, k, h) := transition k (downstream_half s) in (r, k, set_downstream_half h s)) = (r, k', s') ->
    carried s s' [] [] []).
  { destruct (transition k (downstream_half s)) as [[r1 k1] h1] eqn:E. intros [= <- <- <-].
    apply transition_is_update_live in E as (r0 & E & _); [|intros p Hp; by destruct (so_policy _ Hd p Hp)].
    pose proof (update_live_frame _ _ _ _ _ E) as [= F1 F2 F3].
    apply carried_downstream; try done; [by apply (update_live_moved capture_reliable) in E as [? _]|].
    apply (update_live_readable _ _ _ _ _ (so_wf _ Hd) (bo_read _ H)) in E; [done|]. apply H. }
  destruct (live_snapshot (downstream_half s)) as [snap|]; [|exact Tr].
  destruct (bi_output s) as [|b out]; [exact Tr|].
  destruct (_ =? _); intros [= <- <- <-]; [by apply carried_refl|].
  apply carried_downstream; try done; [|apply H].
  by apply (moved_evidence (downstream_half s) _ (set_pending (generation snap) (bi_downstream_evidence s))).
Qed.

Lemma update_policies_carried k s r k' s' : bidi_ok s -> update_policies k s = (r, k', s') -> carried s s' [] [] [].
Proof.
  intros H. unfold update_policies. destruct (transition k (upstream_half s)) as [[r1 k1] h1] eqn:E.
  pose proof (transition_upstream_carried _ _ _ _ _ H E) as C1.
  destruct r1 as [[u|err]|]; [|by intros [= <- <- <-]..].
  intros E2. exact (carried_quiet _ _ _ _ _ _ C1 (transition_downstream_carried _ _ _ _ _ (cr_ok _ _ _ _ _ C1) E2)).
Qed.
(** ** The read side *)

Lemma flush_downstream_carried k s r k' s' : bidi_ok s -> flush_downstream k s = (r, k', s') -> carried s s' [] [] [].
Proof.
  intros H. pose proof (bo_down _ H) as Hd. unfold flush_downstream.
  destruct (engine_poll_flush _ _ _) as [[[r1 k1] e1] o1] eqn:E. intros [= <- <- <-].
  apply carried_downstream; try done.
  - exact (moved_flush k (downstream_half s) _ _ _ _ _ Hd (reliable_bounded capture_reliable) eq_refl E).
  - destruct (flush_limit _ _ _ _ _ _ _ (so_wf _ Hd) E) as (P & L & _). destruct (bo_read _ H) as [R1 R2].
    split; cbn; [unfold engine_is_empty in *; by rewrite P|by apply L].
Qed.

Lemma mirror_downstream_carried s : bidi_ok s -> carried s (mirror_downstream s) [] [] [].
Proof.
  intros H. apply carried_downstream; try done; [apply moved_mirror, H|apply H].
Qed.

(** A drained engine without a limit always makes room. *)
Lemma accept_progress k data e n e' : engine_wf e -> preserving e -> e_remaining_limit e = None ->
  e_queue e = [] -> data <> [] -> accept k data e = (n, e') -> 0 < n.
Proof.
  intros Hw Hp Hl Hq Hd. unfold accept. rewrite accept_at_preserving by done. cbv zeta.
  pose proof (wf_buffered _ _ Hw) as B. rewrite Hq in B. change (zlen (queue_bytes [])) with 0 in B.
  pose proof (wf_max_buffer _ _ Hw). pose proof (wf_capacity _ _ Hw). unfold BUFFER_MAX in *.
  assert (La : limit_available e = USIZE_MAX) by (unfold limit_available; by rewrite Hl).
  assert (Fc : free_capacity e = e_max_buffer e) by (unfold free_capacity, sat_sub; rewrite B; lia).
  assert (Hz : 0 < zlen data) by (destruct data; [done|]; rewrite zlen_cons; pose proof (zlen_nonneg data); lia).
  rewrite La. destruct (Z.eqb_spec USIZE_MAX 0) as [?|_]; [done|].
  destruct (refreshed_keeps (clock k) e) as (_ & _ & _ & K4 & K5 & _).
  destruct (accept_preserving_spec (clock (S k)) data (Z.min (zlen data) (bounded_accept_capacity e))
    (refreshed (clock k) e) (wf_refresh 0 (clock k) e Hw)) as (segs & e2 & E & _).
  { unfold bounded_accept_capacity. rewrite K4, K5. lia. }
  rewrite E. intros [= <- <-]. unfold bounded_accept_capacity. rewrite La, Fc. unfold USIZE_MAX, U64_MAX. lia.
Qed.

Lemma stream_ok_preserving {U} `{AsyncWrite U} (h : ChaosStream U) : stream_ok h -> preserving (cs_engine h).
Proof.
  intros Hs. split; [apply Hs|]. destruct (so_loss _ Hs) as (seeds & off & Hn & [Hl _]).
  by rewrite (loss_ok_active _ _ Hl).
Qed.

Record accepted_downstream (data : bytes) (s : bidi) (n : Z) (s' : bidi) : Prop := {
  ad_ok : bidi_ok s';
  ad_up : upstream_half s' = upstream_half s;
  ad_policy : bi_downstream_policy s' = bi_downstream_policy s;
  ad_range : 0 <= n <= zlen data;
  ad_pending : bi_pending s' = zdrop n data;
  ad_output : bi_output s' = bi_output s;
  ad_queue : queue_bytes (e_queue (bi_downstream s')) = queue_bytes (e_queue (bi_downstream s)) ++ ztake n data;
  ad_progress : data <> [] -> e_queue (bi_downstream s) = [] -> 0 < n
}.

Lemma accept_downstream_spec k data s n k' s' : bidi_ok s -> accept_downstream k data s = (n, k', s') ->
  accepted_downstream data s n s'.
Proof.
  intros H. pose proof (bo_down _ H) as Hd. destruct (bo_read _ H) as [R1 R2]. unfold accept_downstream.
  destruct (accept k data (bi_downstream s)) as [n1 e1] eqn:E. intros [= <- <- <-].
  pose proof (moved_accept k (downstream_half s) (bi_downstream_evidence s) data n1 e1 Hd
    (reliable_bounded capture_reliable) eq_refl R1 E) as M.
  pose proof (moved_quiet_r _ _ _ _ M (moved_mirror _ (mv_ok _ _ _ M))) as M2.
  pose proof (mv_bytes _ _ _ M) as B. cbn in B. apply app_inv_head in B.
  unfold accept in E. pose proof E as E0. apply accept_at_accepted in E as (segs & A); [|apply Hd].
  destruct (accept_limit k data _ _ _ (so_wf _ Hd) E0) as (P & L & _).
  split; try done.
  - split; [apply H|apply M2|split; cbn; [unfold engine_is_empty in *; by rewrite P|by apply L]|apply H].
  - apply (ac_range _ _ _ _ _ _ A).
  - intros Hne Hq. exact (accept_progress _ _ _ _ _ (so_wf _ Hd) (stream_ok_preserving _ Hd) R2 Hq Hne E0).
Qed.

(** Offering what is pending. *)
Lemma offer_carried k s n k' s' : bidi_ok s -> accept_downstream k (bi_pending s) s = (n, k', s') ->
  carried s s' [] [] [].
Proof.
  intros H E. apply accept_downstream_spec in E as [A1 A2 A3 A4 A5 A6 A7 _]; [|done]. split; try done.
  - rewrite A2. apply moved_refl, H.
  - change (bi_inner s') with (cs_inner (upstream_half s')). by rewrite A2, app_nil_r.
  - unfold inbound. rewrite A5, A6, A7, app_nil_r. cbn [app]. by rewrite <- (app_assoc _ (ztake n _)), ztake_zdrop.
Qed.

(** The transport after a read. *)
Lemma set_inner_carried s t : bidi_ok s -> sunk t = sunk (bi_inner s) -> received t = received (bi_inner s) ->
  carried s (set_inner t s) [] [] [].
Proof.
  intros H Es Er. destruct H as [U D R P].
  assert (M : moved (upstream_half s) (upstream_half (set_inner t s)) []).
  { destruct (moved_refl _ U) as [M1 M2 M3 M4 M5 M6 M7 M8]. split; try done; [by destruct M1|].
    cbn in *. by rewrite Es. }
  split; try done; [split; try done; apply M|cbn; by rewrite Er, app_nil_r|by rewrite app_nil_r].
Qed.

(** Fresh bytes through the engine, with nothing else pending. *)
Lemma take_carried k s t data n k' s' : bidi_ok s -> bi_pending s = [] ->
  sunk t = sunk (bi_inner s) -> received t = received (bi_inner s) ++ data ->
  accept_downstream k data (set_inner t s) = (n, k', s') ->
  carried s s' [] data [] /\ (data <> [] -> e_queue (bi_downstream s) = [] -> 0 < n).
Proof.
  intros H Hp Es Er E. destruct H as [U D R P].
  assert (M : moved (upstream_half s) (upstream_half (set_inner t s)) []).
  { destruct (moved_refl _ U) as [M1 M2 M3 M4 M5 M6 M7 M8]. split; try done; [by destruct M1|].
    cbn in *. by rewrite Es. }
  apply accept_downstream_spec in E as [A1 A2 A3 A4 A5 A6 A7 A8]; [|split; try done; apply M].
  split; [|exact A8]. split; try done.
  - by rewrite A2.
  - change (bi_inner s') with (cs_inner (upstream_half s')). by rewrite A2.
  - unfold inbound. rewrite A5, A6, A7, Hp. cbn [app]. cbn. by rewrite app_nil_r, <- !app_assoc, ztake_zdrop.
Qed.
End Carried.
