(* ===== verification/BidiRun.v ===== *)
(** * Runs of [BidirectionalChaosStream]

    A run interleaves reads, writes and publications on both directions. *)

From Stdlib Require Import Bool.
From stdpp Require Import base list strings.
From S2P Require Import Prelude Rng Float64 Plan Policy Env TokenBucket EngineState Engine.
From S2P Require Import Accept Drain EngineInv Loss AcceptSpec DrainSpec EngineRun.
From S2P Require Import EngineProps Stream StreamProps StreamRun Bidi BidiProps.

(** ** The read loop *)

Section Reading.
Context `{Env0 : Env} `{!EnvOk Env0} {T : Type} `{Tx : AsyncWrite T} `{!AsyncWriteOk T}.
Context `{Rx : AsyncRead T} `{!AsyncReadOk T} (Hr : reliable T).
Local Abbreviation bidi := (BidirectionalChaosStream T).

(** The bytes a read returned. *)
Definition got (r : io_poll bytes) : bytes := match r with Ready (Ok b) => b | _ => [] end.

Definition step_carried (s : bidi) (x : ReadStep) : Prop :=
  match x with
  | RDone r _ s' => exists fresh, carried s s' [] fresh (got r)
  | RAgain _ s' => exists fresh, carried s s' [] fresh []
  end.

Lemma step_carried_quiet s s1 x : carried s s1 [] [] [] -> step_carried s1 x -> step_carried s x.
Proof.
  intros C. destruct x as [r k s'|k s']; intros [f H]; exists f; exact (carried_quiet _ _ _ _ _ _ C H).
Qed.
Lemma step_carried_fresh s s1 fresh x : carried s s1 [] fresh [] ->
  match x with RDone r _ s' => carried s1 s' [] [] [] /\ got r = [] | RAgain _ s' => carried s1 s' [] [] [] end ->
  step_carried s x.
Proof.
  intros C. destruct x as [r k s'|k s']; [intros [H G]|intros H]; exists fresh; rewrite ?G;
    exact (carried_then _ _ _ _ _ _ C H).
Qed.

Lemma serve_carried k cap s : bidi_ok s -> step_carried s (serve_output k cap s).
Proof.
  intros [U D R P]. exists []. unfold serve_output. set (take := Z.min _ _). split; try done.
  - split; try done. destruct D. by split.
  - by apply moved_refl.
  - by rewrite app_nil_r.
  - unfold inbound. cbn. rewrite app_nil_r, (app_assoc (ztake _ _)), ztake_zdrop. done.
Qed.

Lemma offer_pending_carried k s : bidi_ok s -> bi_pending s <> [] -> step_carried s (offer_pending k s).
Proof.
  intros H Hp. unfold offer_pending. destruct (accept_downstream k (bi_pending s) s) as [[n k1] s1] eqn:E.
  pose proof (offer_carried _ _ _ _ _ H E) as C. pose proof (cr_ok _ _ _ _ _ C) as H1.
  destruct (Z.eqb_spec n 0) as [->|]; [|by exists []].
  apply accept_downstream_spec in E as [A1 A2 A3 A4 A5 A6 A7 A8]; [|done].
  destruct (queue_is_empty (bi_downstream s1)) eqn:Eq.
  - exfalso. rewrite ztake_0, app_nil_r in A7. unfold queue_is_empty in Eq.
    destruct (e_queue (bi_downstream s1)) eqn:Eq1; [|done]. symmetry in A7.
    apply queue_nil in A7; [|apply (so_wf _ (bo_down _ H))]. specialize (A8 Hp A7). lia.
  - destruct (flush_downstream k1 s1) as [[flush k2] s2] eqn:Ef.
    pose proof (carried_then _ _ _ _ _ _ C (flush_downstream_carried _ _ _ _ _ H1 Ef)) as C2.
    destruct flush as [[u|err]|]; [by exists []..|]. destruct (_ =? 0); by exists [].
Qed.

(** A read of the transport, by its answer. *)
Lemma read_cases s cap : match rx_read (bi_inner s) cap with
  | (Ready (Ok data), t) => sunk t = sunk (bi_inner s) /\ received t = received (bi_inner s) ++ data
      /\ zlen data <= Z.max 0 cap
  | (_, t) => sunk t = sunk (bi_inner s) /\ received t = received (bi_inner s)
  end.
Proof.
  pose proof (rd_sunk (bi_inner s) cap) as S. pose proof (rd_other (bi_inner s) cap) as O.
  destruct (rx_read (bi_inner s) cap) as [[[data|err]|] t] eqn:E; cbn in *; try done.
  by apply rd_ok in E as [? ->].
Qed.

Lemma read_live_carried k s : bidi_ok s -> bi_pending s = [] -> e_queue (bi_downstream s) = [] ->
  step_carried s (read_live k s).
Proof.
  intros H Hp Hq. unfold read_live. pose proof (read_cases s READ_CHUNK) as C.
  destruct (rx_read (bi_inner s) READ_CHUNK) as [[[data|err]|] t];
    [|destruct C; exists []; by apply set_inner_carried..].
  destruct C as (Es & Er & _). destruct data as [|b data].
  { exists []. apply set_inner_carried; [done|done|by rewrite Er, app_nil_r]. }
  destruct (accept_downstream k (b :: data) (set_inner t s)) as [[n k1] s1] eqn:E.
  destruct (take_carried _ _ _ _ _ _ _ H Hp Es Er E) as [C N]. specialize (N ltac:(done) Hq).
  rewrite (proj2 (Z.eqb_neq n 0)) by lia. by exists (b :: data).
Qed.

Lemma read_ending_carried k s : bidi_ok s -> bi_pending s = [] -> step_carried s (read_ending k s).
Proof.
  intros H Hp. unfold read_ending. pose proof (read_cases s READ_CHUNK) as C.
  destruct (rx_read (bi_inner s) READ_CHUNK) as [[[data|err]|] t];
    [|destruct C; exists []; by apply set_inner_carried..].
  destruct C as (Es & Er & _). destruct data as [|b data].
  { exists []. apply set_inner_carried; [done|done|by rewrite Er, app_nil_r]. }
  destruct (accept_downstream k (b :: data) (set_inner t s)) as [[n k1] s1] eqn:E.
  destruct (take_carried _ _ _ _ _ _ _ H Hp Es Er E) as [C _]. pose proof (cr_ok _ _ _ _ _ C) as H1.
  apply (step_carried_fresh s s1 (b :: data)); [done|]. destruct (n =? 0); [by apply carried_refl|].
  destruct (flush_downstream k1 s1) as [[flush k2] s2] eqn:Ef.
  pose proof (flush_downstream_carried _ _ _ _ _ H1 Ef) as C2.
  pose proof (carried_then _ _ _ _ _ _ C2 (mirror_downstream_carried _ (cr_ok _ _ _ _ _ C2))) as C3.
  destruct flush as [[u|e]|]; [done|done|]. by destruct (zlen _ =? 0).
Qed.

Lemma read_transport_carried k s : bidi_ok s -> bi_pending s = [] -> e_queue (bi_downstream s) = [] ->
  step_carried s (read_transport k s).
Proof.
  intros H Hp Hq. unfold read_transport. destruct (termination_request _) as [[]|].
  - by apply read_ending_carried.
  - exists []. by apply carried_refl.
  - by apply read_live_carried.
Qed.

Lemma read_step_carried k cap s : bidi_ok s -> step_carried s (read_step k cap s).
Proof.
  intros H. unfold read_step. destruct (bi_output s) as [|o output] eqn:Eo; [|by apply serve_carried].
  destruct (bi_pending s) as [|p pending] eqn:Ep; [|apply offer_pending_carried; [done|by rewrite Ep]].
  destruct (queue_is_empty (bi_downstream s)) eqn:Eq.
  { apply read_transport_carried; [done|done|]. unfold queue_is_empty in Eq. by destruct (e_queue (bi_downstream s)). }
  destruct (flush_downstream k s) as [[flush k1] s1] eqn:Ef.
  pose proof (flush_downstream_carried _ _ _ _ _ H Ef) as C.
  pose proof (carried_then _ _ _ _ _ _ C (mirror_downstream_carried _ (cr_ok _ _ _ _ _ C))) as C2.
  destruct flush as [[u|err]|]; [|by exists []..].
  destruct (bi_output (mirror_downstream s1)) as [|o out] eqn:Eo1; [|by exists []].
  apply (step_carried_quiet _ _ _ C2). apply read_transport_carried; [apply C2| |].
  - unfold flush_downstream in Ef. destruct (engine_poll_flush _ _ _) as [[[? ?] ?] ?]. injection Ef as _ _ <-. exact Ep.
  - unfold flush_downstream in Ef. destruct (engine_poll_flush k (bi_downstream s) _) as [[[r2 k2] e2] o2] eqn:E2.
    injection Ef as -> <- <-.
    destruct (flush_drains _ _ _ _ _ _ _ capture_reliable (so_wf _ (bo_down _ H)) E2) as [?|[_ Hq]]; [done|exact Hq].
Qed.

Lemma read_loop_carried fuel : forall k cap s r k' s', bidi_ok s -> read_loop fuel k cap s = Some (r, k', s') ->
  exists fresh, carried s s' [] fresh (got r).
Proof.
  induction fuel as [|fuel IH]; intros k cap s r k' s' H; [done|]. cbn [read_loop].
  pose proof (read_step_carried k cap s H) as C. destruct (read_step k cap s) as [r1 k1 s1|k1 s1].
  - by intros [= <- <- <-].
  - destruct C as [f1 C1]. intros E. destruct (IH _ _ _ _ _ _ (cr_ok _ _ _ _ _ C1) E) as [f2 C2].
    exists (f1 ++ f2). exact (carried_trans _ _ _ _ _ _ _ _ _ C1 C2).
Qed.
End Reading.

(** ** The read loop ends *)

Section Ending.
Context `{Env0 : Env} `{!EnvOk Env0} {T : Type} `{Tx : AsyncWrite T} `{!AsyncWriteOk T}.
Context `{Rx : AsyncRead T} `{!AsyncReadOk T} `{!Backlog T}.
Local Abbreviation bidi := (BidirectionalChaosStream T).

(** Every turn that goes on leaves output to serve, or uses up a read of the
    transport, or moves pending bytes into the engine. *)
Definition read_measure (s : bidi) : Z := (READ_CHUNK + 1) * Z.of_nat (backlog (bi_inner s)) + zlen (bi_pending s).
Definition read_fuel (s : bidi) : nat := Z.to_nat (2 + read_measure s).

Lemma read_measure_nonneg s : 0 <= read_measure s.
Proof. unfold read_measure, READ_CHUNK. pose proof (zlen_nonneg (bi_pending s)). lia. Qed.

Definition progresses (s : bidi) (x : ReadStep) : Prop :=
  match x with
  | RDone _ _ _ => True
  | RAgain _ s' => engine_wf (bi_downstream s') /\ (bi_output s' <> [] \/ read_measure s' < read_measure s)
  end.

Lemma flush_output k e o u k' e' out : engine_wf e -> e_queue e <> [] ->
  engine_poll_flush k e {| captured := o |} = (Ready (Ok u), k', e', out) -> captured out <> [].
Proof.
  intros Hw Hq E. destruct (flush_drains _ _ _ _ _ _ _ capture_reliable Hw E) as [?|[_ Hq']]; [done|].
  destruct (exec_effect {| rn_clock := k; rn_engine := e; rn_tx := {| captured := o |}; rn_log := [] |} OpFlush Hw)
    as (g & w & segs & S).
  pose proof (se_gained _ _ _ _ _ _ S) as Hg. pose proof (se_sunk _ _ _ _ _ _ S) as Hs.
  pose proof (st_split _ _ _ _ (se_sent _ _ _ _ _ _ S)) as Hp. unfold exec in Hs, Hp.
  cbn [rn_clock rn_engine rn_tx] in *. rewrite E in Hs, Hp. cbn [rn_engine rn_tx] in *. rewrite Hq' in Hp.
  destruct Hs as [Ho|Hs]; [by destruct (reliable_bounded capture_reliable)|]. cbn in Hs. rewrite Hs. intros Hn.
  apply app_eq_nil in Hn as [_ ->]. rewrite queue_bytes_app in Hp. cbn in Hp.
  apply app_eq_nil in Hp as [Hp _]. by apply queue_nil in Hp.
Qed.

Lemma flush_downstream_wf k (s : bidi) r k' (s' : bidi) : engine_wf (bi_downstream s) -> flush_downstream k s = (r, k', s') ->
  engine_wf (bi_downstream s') /\ read_measure s' = read_measure s
  /\ bi_pending s' = bi_pending s
  /\ (e_queue (bi_downstream s) <> [] -> r = Ready (Ok tt) -> bi_output s' <> []).
Proof.
  intros Hw. unfold flush_downstream. destruct (engine_poll_flush _ _ _) as [[[r1 k1] e1] o1] eqn:E.
  intros [= <- <- <-]. pose proof (flush_limit _ _ _ _ _ _ _ Hw E) as (_ & _ & W).
  split; [exact W|]. split; [done|]. split; [done|]. intros Hq ->. exact (flush_output _ _ _ _ _ _ _ Hw Hq E).
Qed.

Lemma accept_downstream_wf k data (s : bidi) n k' (s' : bidi) : engine_wf (bi_downstream s) -> accept_downstream k data s = (n, k', s') ->
  engine_wf (bi_downstream s') /\ bi_inner s' = bi_inner s /\ bi_pending s' = zdrop n data /\ 0 <= n <= zlen data.
Proof.
  intros Hw. unfold accept_downstream. destruct (accept k data (bi_downstream s)) as [n1 e1] eqn:E.
  intros [= <- <- <-]. pose proof (accept_limit _ _ _ _ _ Hw E) as (_ & _ & W).
  unfold accept in E. apply accept_at_accepted in E as (segs & A); [|done].
  split; [exact W|]. split; [done|]. split; [done|]. apply (ac_range _ _ _ _ _ _ A).
Qed.

Lemma offer_progresses k s : engine_wf (bi_downstream s) -> bi_pending s <> [] -> progresses s (offer_pending k s).
Proof.
  intros Hw Hp. unfold offer_pending. destruct (accept_downstream k (bi_pending s) s) as [[n k1] s1] eqn:E.
  apply accept_downstream_wf in E as (W1 & I1 & P1 & N1); [|done].
  destruct (Z.eqb_spec n 0) as [->|Hn].
  - destruct (queue_is_empty (bi_downstream s1)) eqn:Eq; [done|].
    destruct (flush_downstream k1 s1) as [[flush k2] s2] eqn:Ef.
    apply flush_downstream_wf in Ef as (W2 & _ & _ & O2); [|done].
    assert (Hq : e_queue (bi_downstream s1) <> []) by (unfold queue_is_empty in Eq; by destruct (e_queue (bi_downstream s1))).
    destruct flush as [[[]|err]|]; [|done|].
    + split; [done|]. left. by apply O2.
    + destruct (Z.eqb_spec (zlen (bi_output s2)) 0) as [?|Hz]; [done|]. split; [done|]. left. intros Ho. by rewrite Ho in Hz.
  - split; [done|]. right. unfold read_measure. rewrite I1, P1, zlen_zdrop by lia. lia.
Qed.

Lemma read_uses_backlog k x data s t n k1 s1 : engine_wf (bi_downstream s) -> bi_pending s = [] ->
  rx_read (bi_inner s) READ_CHUNK = (Ready (Ok (x :: data)), t) ->
  accept_downstream k (x :: data) (set_inner t s) = (n, k1, s1) ->
  engine_wf (bi_downstream s1) /\ read_measure s1 < read_measure s.
Proof.
  intros Hw Hp Er E. apply accept_downstream_wf in E as (W1 & I1 & P1 & N1); [|done]. split; [done|].
  pose proof (backlog_read _ _ _ _ _ Er) as B. apply rd_ok in Er as [Hl _].
  unfold read_measure. rewrite I1, P1, Hp. cbn [bi_inner set_inner set_read].
  rewrite zlen_zdrop by lia. change (zlen []) with 0. unfold READ_CHUNK in *. lia.
Qed.

Lemma read_transport_progresses k s : engine_wf (bi_downstream s) -> bi_pending s = [] ->
  progresses s (read_transport k s).
Proof.
  intros Hw Hp. unfold read_transport. destruct (termination_request _) as [[]|]; [| done |].
  - unfold read_ending. destruct (rx_read (bi_inner s) READ_CHUNK) as [[[[|x data]|err]|] t] eqn:Er; try done.
    destruct (accept_downstream k (x :: data) (set_inner t s)) as [[n k1] s1] eqn:E.
    destruct (read_uses_backlog _ _ _ _ _ _ _ _ Hw Hp Er E) as [W M].
    destruct (n =? 0); [by split; [|right]|].
    destruct (flush_downstream k1 s1) as [[flush k2] s2] eqn:Ef.
    apply flush_downstream_wf in Ef as (W2 & M2 & _ & _); [|done].
    assert (G : engine_wf (bi_downstream (mirror_downstream s2))
      /\ read_measure (mirror_downstream s2) < read_measure s) by (split; [exact W2|by rewrite <- M2 in M]).
    destruct flush as [[u|err]|]; [by split; [|right]; apply G|done|].
    destruct (_ =? 0); [done|]. by split; [|right]; apply G.
  - unfold read_live. destruct (rx_read (bi_inner s) READ_CHUNK) as [[[[|x data]|err]|] t] eqn:Er; try done.
    destruct (accept_downstream k (x :: data) (set_inner t s)) as [[n k1] s1] eqn:E.
    destruct (read_uses_backlog _ _ _ _ _ _ _ _ Hw Hp Er E) as [W M].
    destruct (n =? 0); [done|]. by split; [|right].
Qed.

Lemma read_step_progresses k cap s : engine_wf (bi_downstream s) -> progresses s (read_step k cap s).
Proof.
  intros Hw. unfold read_step. destruct (bi_output s) as [|o output]; [|done].
  destruct (bi_pending s) as [|p pending] eqn:Ep; [|apply offer_progresses; [done|by rewrite Ep]].
  destruct (queue_is_empty (bi_downstream s)); [by apply read_transport_progresses|].
  destruct (flush_downstream k s) as [[flush k1] s1] eqn:Ef.
  apply flush_downstream_wf in Ef as (W1 & M1 & P1 & _); [|done]. destruct flush as [[u|err]|]; [|done..].
  destruct (bi_output (mirror_downstream s1)) as [|o out] eqn:Eo.
  - assert (P : progresses (mirror_downstream s1) (read_transport k1 (mirror_downstream s1))).
    { apply read_transport_progresses; [exact W1|]. cbn. by rewrite P1, Ep. }
    unfold progresses in *. destruct (read_transport _ _); [done|].
    change (read_measure (mirror_downstream s1)) with (read_measure s1) in P. by rewrite M1 in P.
  - split; [exact W1|]. left. by rewrite Eo.
Qed.

Lemma read_loop_serves fuel k cap s : bi_output s <> [] -> is_Some (read_loop (S fuel) k cap s).
Proof. intros Ho. cbn. unfold read_step. destruct (bi_output s) eqn:E; [done|]. by eexists. Qed.

Lemma read_loop_ends fuel : forall k cap s, engine_wf (bi_downstream s) -> (read_fuel s <= fuel)%nat ->
  is_Some (read_loop fuel k cap s).
Proof.
  induction fuel as [|fuel IH]; intros k cap s Hw Hf; [unfold read_fuel in Hf; pose proof (read_measure_nonneg s); lia|]. cbn [read_loop].
  pose proof (read_step_progresses k cap s Hw) as P. destruct (read_step k cap s) as [r1 k1 s1|k1 s1]; [by eexists|].
  destruct P as [W [Ho|M]].
  - destruct fuel as [|fuel]; [unfold read_fuel in Hf; pose proof (read_measure_nonneg s); lia|]. by apply read_loop_serves.
  - apply IH; [done|]. unfold read_fuel in *. pose proof (read_measure_nonneg s1). lia.
Qed.

Lemma read_loop_more f1 f2 : forall k cap s x, (f1 <= f2)%nat -> read_loop f1 k cap s = Some x ->
  read_loop f2 k cap s = Some x.
Proof.
  revert f2. induction f1 as [|f1 IH]; intros f2 k cap s x Hf; [done|]. destruct f2 as [|f2]; [lia|]. cbn [read_loop].
  destruct (read_step k cap s) as [r1 k1 s1|k1 s1]; [done|]. apply IH. lia.
Qed.
End Ending.
