(* ===== verification/BidiCalls.v ===== *)
(** * Correctness of [BidirectionalChaosStream]

    Over any interleaving of reads, writes and publications both directions are
    byte-exact while the downstream plans are readable; the read loop ends; and
    where the read side departs from its contract. *)

From Stdlib Require Import Bool.
From stdpp Require Import base list strings.
From S2P Require Import Prelude Rng Float64 Plan Policy Env TokenBucket EngineState Engine Accept Drain EngineInv Loss AcceptSpec DrainSpec EngineRun EngineProps EngineCalls EngineDemo Stream StreamProps StreamRun Bidi BidiProps BidiRun.

Section Calls.
Context `{Env0 : Env} `{!EnvOk Env0} {T : Type} `{Tx : AsyncWrite T} `{!AsyncWriteOk T}.
Context `{Rx : AsyncRead T} `{!AsyncReadOk T} (Hr : reliable T).
Local Abbreviation bidi := (BidirectionalChaosStream T).

(** The write path of a half is [ChaosStream]'s, up to one more mirroring. *)
Lemma bidi_write_engine_eq k data (h : ChaosStream T) r k' h' : bidi_write_engine k data h = (r, k', h') ->
  exists h0, write_engine k data h = (r, k', h0) /\ (h' = h0 \/ h' = mirrored h0).
Proof.
  unfold bidi_write_engine, write_engine.
  destruct (engine_poll_flush k (cs_engine h) (cs_inner h)) as [[[drive k1] e1] i1].
  destruct drive as [[u|err]|]; [|intros [= <- <- <-]; eauto|];
    (destruct data as [|b data]; [intros [= <- <- <-]; eauto|]);
    (destruct (ended e1); [intros [= <- <- <-]; eauto|]); destruct (accept _ _ _) as [n e2]; cbv zeta;
    (destruct (0 <? n); [destruct (engine_poll_flush _ _ _) as [[[? ?] ?] ?]; intros [= <- <- <-]; eauto|]);
    (destruct (ended e2); intros [= <- <- <-]; eauto).
Qed.

Lemma write_engine_received k data (h : ChaosStream T) r k' h' : write_engine k data h = (r, k', h') ->
  received (cs_inner h') = received (cs_inner h)
  /\ (cs_direction h', cs_proxy h', cs_connection_key h') = (cs_direction h, cs_proxy h, cs_connection_key h).
Proof.
  unfold write_engine. destruct (engine_poll_flush k (cs_engine h) (cs_inner h)) as [[[drive k1] e1] i1] eqn:E1.
  apply (flush_keeps received rd_write rd_flush) in E1.
  destruct drive as [[u|err]|]; [|by intros [= <- <- <-]|];
    (destruct data as [|b data]; [by intros [= <- <- <-]|]);
    (destruct (ended e1); [by intros [= <- <- <-]|]); destruct (accept _ _ _) as [n e2]; cbv zeta;
    (destruct (0 <? n);
      [destruct (engine_poll_flush _ e2 _) as [[[? ?] ?] ?] eqn:E2; apply (flush_keeps received rd_write rd_flush) in E2;
       intros [= <- <- <-]; cbn; split; [congruence|done]|]);
    (destruct (ended e2); by intros [= <- <- <-]).
Qed.

Lemma bidi_poll_write_carried k data s r k' s' : bidi_ok s -> bidi_poll_write k data s = (r, k', s') ->
  carried s s' (gained r data) [] [].
Proof.
  intros H. unfold bidi_poll_write. destruct (update_policies k s) as [[live k1] s1] eqn:E1.
  pose proof (update_policies_carried Hr _ _ _ _ _ H E1) as C1. pose proof (cr_ok _ _ _ _ _ C1) as H1.
  pose proof (bo_up _ H1) as U1. destruct live as [[u|err]|]; [|by intros [= <- <- <-]..]. cbv zeta.
  destruct (engine_is_empty (bi_upstream s1)) eqn:He.
  - destruct (tx_write (cs_inner (upstream_half s1)) data) as [r0 t0] eqn:Et.
    destruct (write_direct (r0, t0) (upstream_half s1)) as [r1 h] eqn:Ed. intros [= <- <- <-].
    pose proof (rd_write (cs_inner (upstream_half s1)) data) as Er. rewrite Et in Er. cbn in Er.
    pose proof (write_answer Hr _ _ _ _ Et) as C.
    apply (carried_quiet _ _ _ _ _ _ C1). apply carried_upstream; [done| | | | |].
    + by apply (write_direct_moved _ r0 t0).
    + unfold write_direct in Ed. destruct r0 as [[n|err]|]; by injection Ed as _ <-.
    + unfold write_direct in Ed. destruct r0 as [[n|err]|]; by injection Ed as _ <-.
    + unfold write_direct in Ed. destruct r0 as [[n|err]|]; by injection Ed as _ <-.
    + unfold write_direct in Ed. destruct r0 as [[n|err]|]; by injection Ed as _ <-.
  - destruct (bidi_write_engine k1 data (upstream_half s1)) as [[r2 k2] h2] eqn:Ew. intros [= <- <- <-].
    apply bidi_write_engine_eq in Ew as (h0 & Ew & Hh).
    destruct (write_engine_received _ _ _ _ _ _ Ew) as (Rc & [= Fd Fp Fk]).
    pose proof (write_engine_moved Hr _ _ _ _ _ _ U1 He Ew) as M.
    apply (carried_quiet _ _ _ _ _ _ C1). destruct Hh as [-> | ->]; apply carried_upstream; try done.
    exact (moved_quiet_r _ _ _ _ M (moved_mirror _ (mv_ok _ _ _ M))).
Qed.

Lemma bidi_poll_flush_carried k s r k' s' : bidi_ok s -> bidi_poll_flush k s = (r, k', s') -> carried s s' [] [] [].
Proof.
  intros H. unfold bidi_poll_flush. destruct (update_policies k s) as [[live k1] s1] eqn:E1.
  pose proof (update_policies_carried Hr _ _ _ _ _ H E1) as C1. pose proof (cr_ok _ _ _ _ _ C1) as H1.
  destruct live as [[u|err]|]; [|by intros [= <- <- <-]..]. cbv zeta.
  destruct (engine_poll_flush _ _ _) as [[[o k2] e2] i2] eqn:Ef. intros [= <- <- <-].
  pose proof (moved_flush k1 (upstream_half s1) _ _ _ _ _ (bo_up _ H1) (reliable_bounded Hr) eq_refl Ef) as M.
  apply (carried_quiet _ _ _ _ _ _ C1). apply carried_upstream; try done.
  - exact (moved_quiet_r _ _ _ _ M (moved_mirror _ (mv_ok _ _ _ M))).
  - exact (flush_keeps received rd_write rd_flush _ _ _ _ _ _ _ Ef).
Qed.

Lemma bidi_poll_shutdown_carried k s r k' s' : bidi_ok s -> bidi_poll_shutdown k s = (r, k', s') ->
  carried s s' [] [] [].
Proof.
  intros H. unfold bidi_poll_shutdown. destruct (update_policies k s) as [[live k1] s1] eqn:E1.
  pose proof (update_policies_carried Hr _ _ _ _ _ H E1) as C1. pose proof (cr_ok _ _ _ _ _ C1) as H1.
  destruct live as [[u|err]|]; [|by intros [= <- <- <-]..]. cbv zeta.
  destruct (engine_poll_shutdown _ _ _) as [[[o k2] e2] i2] eqn:Ef. intros [= <- <- <-].
  pose proof (moved_shutdown k1 (upstream_half s1) _ _ _ _ _ (bo_up _ H1) (reliable_bounded Hr) eq_refl Ef) as M.
  apply (carried_quiet _ _ _ _ _ _ C1). apply carried_upstream; try done.
  exact (shutdown_keeps received rd_write rd_shutdown _ _ _ _ _ _ _ Ef).
Qed.

Lemma pump_upstream_carried k s k' s' : bidi_ok s -> pump_upstream k s = (k', s') -> carried s s' [] [] [].
Proof.
  intros H. unfold pump_upstream. destruct (engine_is_empty (bi_upstream s)); [intros [= <- <-]; by apply carried_refl|].
  cbv zeta. destruct (engine_poll_flush _ _ _) as [[[o k2] e2] i2] eqn:Ef. intros [= <- <-].
  pose proof (moved_flush k (upstream_half s) _ _ _ _ _ (bo_up _ H) (reliable_bounded Hr) eq_refl Ef) as M.
  apply carried_upstream; try done.
  - exact (moved_quiet_r _ _ _ _ M (moved_mirror _ (mv_ok _ _ _ M))).
  - exact (flush_keeps received rd_write rd_flush _ _ _ _ _ _ _ Ef).
Qed.

Lemma bidi_poll_read_carried fuel k cap s r k' s' : bidi_ok s -> bidi_poll_read fuel k cap s = Some (r, k', s') ->
  exists fresh, carried s s' [] fresh (got r).
Proof.
  intros H. unfold bidi_poll_read. destruct (update_policies k s) as [[live k1] s1] eqn:E1.
  pose proof (update_policies_carried Hr _ _ _ _ _ H E1) as C1. pose proof (cr_ok _ _ _ _ _ C1) as H1.
  destruct live as [[u|err]|]; [|intros [= <- <- <-]; by exists []..].
  destruct (pump_upstream k1 s1) as [k2 s2] eqn:E2. pose proof (pump_upstream_carried _ _ _ _ H1 E2) as C2.
  pose proof (cr_ok _ _ _ _ _ C2) as H2. rewrite (proj1 (bo_read _ H2)). intros E.
  destruct (read_loop_carried _ _ _ _ _ _ _ H2 E) as [f C3]. exists f.
  exact (carried_quiet _ _ _ _ _ _ C1 (carried_quiet _ _ _ _ _ _ C2 C3)).
Qed.
End Calls.

(** ** Runs *)

Inductive BOp :=
| BRead (cap : Z)
| BWrite (data : bytes)
| BWriteVectored (bufs : list bytes)
| BFlush
| BShutdown
| BPublishUpstream (plan : FaultPlan) (ns : Z)
| BPublishDownstream (plan : FaultPlan) (ns : Z).

(** Readable plans downstream, preserving ones upstream. *)
Definition bop_fine (o : BOp) : Prop :=
  match o with
  | BPublishUpstream plan _ => plan_typed plan /\ preserving_plan plan
  | BPublishDownstream plan _ => plan_typed plan /\ readable_plan plan
  | _ => True
  end.

Record BRun (T : Type) := {
  br_clock : nat;
  br_stream : BidirectionalChaosStream T;
  br_written : bytes;
  br_read : bytes
}.
Arguments br_clock {T} _.
Arguments br_stream {T} _.
Arguments br_written {T} _.
Arguments br_read {T} _.

Definition set_policies {T} (up down : option LivePolicy) (s : BidirectionalChaosStream T)
    : BidirectionalChaosStream T :=
  {| bi_inner := bi_inner s; bi_upstream := bi_upstream s; bi_downstream := bi_downstream s;
     bi_output := bi_output s; bi_pending := bi_pending s; bi_upstream_policy := up; bi_downstream_policy := down;
     bi_observed_upstream := bi_observed_upstream s; bi_observed_downstream := bi_observed_downstream s;
     bi_proxy := bi_proxy s; bi_key := bi_key s;
     bi_upstream_evidence := bi_upstream_evidence s; bi_downstream_evidence := bi_downstream_evidence s |}.

Section Runs.
Context `{Env0 : Env} {T : Type} `{Tx : AsyncWrite T} `{Rx : AsyncRead T} `{!Backlog T}.

(** [poll_read] with the fuel that is always enough ([reads_answer]). *)
Definition bidi_read (k : nat) (cap : Z) (s : BidirectionalChaosStream T)
    : option (io_poll bytes * nat * BidirectionalChaosStream T) := bidi_poll_read read_fuel k cap s.

Definition bexec (x : BRun T) (o : BOp) : BRun T :=
  let k := br_clock x in
  let s := br_stream x in
  let quiet k s := {| br_clock := k; br_stream := s; br_written := br_written x; br_read := br_read x |} in
  match o with
  | BRead cap =>
      match bidi_read k cap s with
      | Some (r, k', s') =>
          {| br_clock := k'; br_stream := s'; br_written := br_written x; br_read := br_read x ++ got r |}
      | None => x
      end
  | BWrite data =>
      let '(r, k', s') := bidi_poll_write k data s in
      {| br_clock := k'; br_stream := s'; br_written := br_written x ++ gained r data; br_read := br_read x |}
  | BWriteVectored bufs =>
      let '(r, k', s') := bidi_poll_write_vectored k bufs s in
      {| br_clock := k'; br_stream := s'; br_written := br_written x ++ gained r (concat bufs);
         br_read := br_read x |}
  | BFlush => let '(_, k', s') := bidi_poll_flush k s in quiet k' s'
  | BShutdown => let '(_, k', s') := bidi_poll_shutdown k s in quiet k' s'
  | BPublishUpstream plan ns =>
      match bi_upstream_policy s with
      | Some p => quiet k (set_policies (Some (Stream.publish_plan p plan ns).2) (bi_downstream_policy s) s)
      | None => x
      end
  | BPublishDownstream plan ns =>
      match bi_downstream_policy s with
      | Some p => quiet k (set_policies (bi_upstream_policy s) (Some (Stream.publish_plan p plan ns).2) s)
      | None => x
      end
  end.
Definition brun (x : BRun T) (ops : list BOp) : BRun T := foldl bexec x ops.
Definition bstart (k : nat) (s : BidirectionalChaosStream T) : BRun T :=
  {| br_clock := k; br_stream := s; br_written := []; br_read := [] |}.
End Runs.

Section Props.
Context `{Env0 : Env} `{!EnvOk Env0} {T : Type} `{Tx : AsyncWrite T} `{!AsyncWriteOk T}.
Context `{Rx : AsyncRead T} `{!AsyncReadOk T} `{!Backlog T}.

(** The state of a run over the connection [inner]. *)
Record brun_ok (inner : T) (x : BRun T) : Prop := {
  bk_ok : bidi_ok (br_stream x);
  bk_up : forall p, bi_upstream_policy (br_stream x) = Some p -> cell_fine p;
  bk_down : forall p, bi_downstream_policy (br_stream x) = Some p -> cell_fine p;
  bk_written : sunk (bi_inner (br_stream x)) ++ queue_bytes (e_queue (bi_upstream (br_stream x)))
    = sunk inner ++ br_written x;
  bk_read : received (bi_inner (br_stream x)) = received inner ++ br_read x ++ inbound (br_stream x)
}.

Lemma brun_ok_carried inner x k' s' w f o : brun_ok inner x -> carried (br_stream x) s' w f o ->
  brun_ok inner {| br_clock := k'; br_stream := s'; br_written := br_written x ++ w; br_read := br_read x ++ o |}.
Proof.
  intros [R1 R2 R3 R4 R5] [C1 C2 C3 C4 C5]. split; cbn [br_stream br_written br_read]; try done.
  - intros p Hp. apply R2. pose proof (mv_policy _ _ _ C2) as E. cbn in E. by rewrite <- E.
  - rewrite C5. exact R3.
  - pose proof (mv_bytes _ _ _ C2) as B. cbn in B. by rewrite B, app_assoc, R4, app_assoc.
  - rewrite C3, R5, <- !app_assoc. do 2 f_equal. exact C4.
Qed.

Lemma brun_ok_quiet inner x k' s' : brun_ok inner x -> carried (br_stream x) s' [] [] [] ->
  brun_ok inner {| br_clock := k'; br_stream := s'; br_written := br_written x; br_read := br_read x |}.
Proof. intros R C. pose proof (brun_ok_carried inner x k' s' _ _ _ R C) as H. by rewrite !app_nil_r in H. Qed.

Lemma stream_ok_policy {U} `{AsyncWrite U} (h h' : ChaosStream U) : stream_ok h ->
  cs_engine h' = cs_engine h -> cs_evidence h' = cs_evidence h ->
  (forall p, cs_live_policy h' = Some p -> policy_ok p /\ policy_preserving p) -> stream_ok h'.
Proof. intros [] E1 E2 Hp. split; by rewrite ?E1, ?E2. Qed.

Lemma bexec_ok inner x o : reliable T -> brun_ok inner x -> bop_fine o -> brun_ok inner (bexec x o).
Proof.
  intros Hr R Ho. pose proof (bk_ok _ _ R) as H.
  destruct o as [cap|data|bufs| | |plan ns|plan ns]; cbn [bexec]; cbv zeta.
  - destruct (bidi_read _ _ _) as [[[r k'] s']|] eqn:E; [|done].
    destruct (bidi_poll_read_carried Hr _ _ _ _ _ _ _ H E) as [f C].
    pose proof (brun_ok_carried inner x k' s' _ _ _ R C) as X. by rewrite app_nil_r in X.
  - destruct (bidi_poll_write _ _ _) as [[r k'] s'] eqn:E.
    pose proof (brun_ok_carried inner x k' s' _ _ _ R (bidi_poll_write_carried Hr _ _ _ _ _ _ H E)) as X.
    by rewrite app_nil_r in X.
  - destruct (bidi_poll_write_vectored _ _ _) as [[r k'] s'] eqn:E.
    pose proof (brun_ok_carried inner x k' s' _ _ _ R (bidi_poll_write_carried Hr _ _ _ _ _ _ H E)) as X.
    by rewrite app_nil_r in X.
  - destruct (bidi_poll_flush _ _) as [[r k'] s'] eqn:E. apply brun_ok_quiet; [done|].
    by apply (bidi_poll_flush_carried Hr) in E.
  - destruct (bidi_poll_shutdown _ _) as [[r k'] s'] eqn:E. apply brun_ok_quiet; [done|].
    by apply (bidi_poll_shutdown_carried Hr) in E.
  - destruct (bi_upstream_policy (br_stream x)) as [p|] eqn:Ep; [|done]. destruct Ho as [Ht Hp].
    destruct (publish_moves plan ns p (bk_up _ _ R p Ep) Ht Hp) as [Hf _].
    destruct R as [R1 R2 R3 R4 R5]. destruct H as [U D Rd P].
    split; cbn; try done; [|by intros q [= <-]].
    split; try done. apply (stream_ok_policy _ _ U); try done. intros q [= <-]. by apply cell_fine_policy.
  - destruct (bi_downstream_policy (br_stream x)) as [p|] eqn:Ep; [|done]. destruct Ho as [Ht Hp].
    destruct (publish_moves plan ns p (bk_down _ _ R p Ep) Ht (readable_preserving _ Hp)) as [Hf Hm].
    destruct R as [R1 R2 R3 R4 R5]. destruct H as [U D Rd P]. specialize (P p Ep).
    split; cbn; try done; [|by intros q [= <-]].
    split; try done.
    + apply (stream_ok_policy _ _ D); try done. intros q [= <-]. by apply cell_fine_policy.
    + intros q [= <-]. by destruct Hm as [->|[_ ->]].
Qed.

Lemma brun_ok_run inner ops : reliable T -> Forall bop_fine ops -> forall x, brun_ok inner x -> brun_ok inner (brun x ops).
Proof. intros Hr. induction 1 as [|o ops Ho _ IH]; intros x R; [done|]. cbn. by apply IH, bexec_ok. Qed.

Lemma bidi_new_start k inner up down proxy key s : cell_fine up -> cell_fine down ->
  readable_plan (pub_plan (current_policy down)) -> bidi_new_live k inner up down proxy key = Ok s ->
  brun_ok inner (bstart k s).
Proof.
  intros Hu Hd Hrd. unfold bidi_new_live. cbv zeta.
  destruct (new_with_arc_plan k _ _ _ _ Upstream _) as [eu|] eqn:Eu; [|done].
  destruct (new_with_arc_plan (S k) _ _ _ _ Downstream _) as [ed|] eqn:Ed; [|done]. intros [= <-].
  set (s := {| bi_inner := inner |}).
  destruct (new_live_start k inner up proxy key Upstream (upstream_half s)) as (Ru & _ & Qu & _); [done| |].
  { unfold stream_new_live. cbv zeta. by rewrite Eu. }
  destruct (new_live_start (S k) {| captured := [] |} down proxy key Downstream (downstream_half s)) as (Rd & _ & Qd & _); [done| |].
  { unfold stream_new_live. cbv zeta. by rewrite Ed. }
  split; cbn [bstart br_stream br_written br_read].
  - split; [apply (ro_ok _ _ Ru)|apply (ro_ok _ _ Rd)|exact (new_engine_readable _ _ _ _ _ _ _ _ Hrd Ed)|].
    by intros p [= <-].
  - by intros p [= <-].
  - by intros p [= <-].
  - change (e_queue (bi_upstream s)) with (e_queue (cs_engine (upstream_half s))). by rewrite Qu.
  - unfold inbound. change (e_queue (bi_downstream s)) with (e_queue (cs_engine (downstream_half s))). rewrite Qd.
    cbn. by rewrite app_nil_r.
Qed.

(** ** Properties *)

(** C27: both directions are byte-exact.  A live connection under preserving
    upstream plans and readable downstream plans (not empty, and without
    blackhole, loss or limit), over a transport that may stall but does not
    fail: however reads, writes, flushes, shutdowns and publications interleave,
    the bytes read, followed by the output buffer, the downstream queue and the
    bytes the engine has not taken yet, are exactly the bytes that came from the
    transport, in order; and the bytes the transport took, followed by the
    upstream queue, are exactly the bytes the writes reported. *)
Theorem bidirectional_bytes_are_exact (k : nat) (inner : T) (up down : LivePolicy) (proxy : string) (key : Z)
    (s : BidirectionalChaosStream T) (ops : list BOp)
    (Hr : reliable T) (Hup : cell_fine up) (Hdown : cell_fine down)
    (Hread : readable_plan (pub_plan (current_policy down)))
    (Hnew : bidi_new_live k inner up down proxy key = Ok s) (Hops : Forall bop_fine ops) :
  let x := brun (bstart k s) ops in
  received (bi_inner (br_stream x)) = received inner ++ br_read x ++ bi_output (br_stream x)
    ++ queue_bytes (e_queue (bi_downstream (br_stream x))) ++ bi_pending (br_stream x)
  /\ sunk (bi_inner (br_stream x)) ++ queue_bytes (e_queue (bi_upstream (br_stream x)))
     = sunk inner ++ br_written x.
Proof.
  pose proof (bidi_new_start _ _ _ _ _ _ _ Hup Hdown Hread Hnew) as R0.
  destruct (brun_ok_run inner ops Hr Hops _ R0) as [_ _ _ W R]. split; [exact R|exact W].
Qed.

(** A read always answers.  For any engine that satisfies the invariant,
    destructive faults included, the loop of [poll_read] ends after finitely many
    turns as long as the transport has finitely many reads ready, and more fuel
    does not change the answer. *)
Theorem reads_answer (fuel k : nat) (cap : Z) (s : BidirectionalChaosStream T)
    (Hwf : engine_wf (bi_downstream s)) (Hfuel : (read_fuel s <= fuel)%nat) :
  exists answer, read_loop (read_fuel s) k cap s = Some answer /\ read_loop fuel k cap s = Some answer.
Proof.
  destruct (read_loop_ends (read_fuel s) k cap s Hwf ltac:(lia)) as [a E].
  exists a. split; [done|]. by apply (read_loop_more (read_fuel s)).
Qed.

(** ** Departures *)

(** Bytes in the output buffer of a connection whose downstream plan is empty. *)
Definition stranded (s : BidirectionalChaosStream T) : Prop :=
  engine_is_empty (bi_downstream s) = true /\ bi_output s <> [].

Lemma transition_stranded k s r k' s' : stranded s -> transition_downstream k s = (r, k', s') ->
  bi_output s' = bi_output s /\ bi_downstream s' = bi_downstream s /\ bi_inner s' = bi_inner s.
Proof.
  intros [_ Ho]. unfold transition_downstream. destruct (bi_output s) as [|o out] eqn:Eo; [done|].
  destruct (live_snapshot (downstream_half s)) as [snap|] eqn:El.
  - destruct (_ =? _); intros [= <- <- <-]; [done|]. cbn. by rewrite Eo.
  - unfold transition. rewrite El. intros [= <- <- <-]. by destruct s.
Qed.

Lemma update_stranded k s r k' s' : stranded s -> update_policies k s = (r, k', s') ->
  bi_output s' = bi_output s /\ bi_downstream s' = bi_downstream s.
Proof.
  intros Hs. unfold update_policies. destruct (transition k (upstream_half s)) as [[r1 k1] h1].
  destruct r1 as [[u|err]|]; [|by intros [= <- <- <-]..]. intros E.
  assert (H1 : stranded (set_upstream_half h1 s)) by exact Hs.
  by destruct (transition_stranded _ _ _ _ _ H1 E) as (-> & -> & _).
Qed.

Lemma pump_stranded k s k' s' : pump_upstream k s = (k', s') ->
  bi_output s' = bi_output s /\ bi_downstream s' = bi_downstream s.
Proof.
  unfold pump_upstream. destruct (engine_is_empty _); [by intros [= <- <-]|]. cbv zeta.
  destruct (engine_poll_flush _ _ _) as [[[? ?] ?] ?]. by intros [= <- <-].
Qed.

Lemma bexec_stranded x o : stranded (br_stream x) ->
  bi_output (br_stream (bexec x o)) = bi_output (br_stream x)
  /\ bi_downstream (br_stream (bexec x o)) = bi_downstream (br_stream x).
Proof.
  intros Hs. destruct x as [k s w b]. cbn [br_stream br_clock] in *.
  assert (W : forall data, let '(_, _, s') := bidi_poll_write k data s in
    bi_output s' = bi_output s /\ bi_downstream s' = bi_downstream s).
  { intros data. unfold bidi_poll_write. destruct (update_policies k s) as [[r1 k1] s1] eqn:E.
    destruct (update_stranded _ _ _ _ _ Hs E) as [<- <-]. destruct r1 as [[u|err]|]; [|done..]. cbv zeta.
    destruct (engine_is_empty _); [by destruct (write_direct _ _)|].
    by destruct (bidi_write_engine _ _ _) as [[? ?] ?]. }
  destruct o as [cap|data|bufs| | |plan ns|plan ns]; cbn [bexec br_clock br_stream]; cbv zeta.
  - unfold bidi_read, bidi_poll_read. destruct (update_policies k s) as [[r1 k1] s1] eqn:E.
    destruct (update_stranded _ _ _ _ _ Hs E) as [Eo Ed]. destruct r1 as [[u|err]|]; [|done..].
    destruct (pump_upstream k1 s1) as [k2 s2] eqn:E2. destruct (pump_stranded _ _ _ _ E2) as [Eo2 Ed2].
    rewrite Ed2, Ed, (proj1 Hs). rewrite <- Eo, <- Eo2, <- Ed, <- Ed2. unfold read_direct.
    by destruct (rx_read _ _) as [[[data|err]|] t].
  - specialize (W data). by destruct (bidi_poll_write k data s) as [[? ?] ?].
  - specialize (W (concat bufs)). unfold bidi_poll_write_vectored.
    by destruct (bidi_poll_write k (concat bufs) s) as [[? ?] ?].
  - unfold bidi_poll_flush. destruct (update_policies k s) as [[r1 k1] s1] eqn:E.
    destruct (update_stranded _ _ _ _ _ Hs E) as [<- <-]. destruct r1 as [[u|err]|]; [|done..]. cbv zeta.
    by destruct (engine_poll_flush _ _ _) as [[[? ?] ?] ?].
  - unfold bidi_poll_shutdown. destruct (update_policies k s) as [[r1 k1] s1] eqn:E.
    destruct (update_stranded _ _ _ _ _ Hs E) as [<- <-]. destruct r1 as [[u|err]|]; [|done..]. cbv zeta.
    by destruct (engine_poll_shutdown _ _ _) as [[[? ?] ?] ?].
  - by destruct (bi_upstream_policy s).
  - by destruct (bi_downstream_policy s).
Qed.

(** C30: an empty downstream plan strands the bytes before it.  Once the output
    buffer holds bytes while the downstream engine is empty - the transition to
    an empty plan drains the old queue into that buffer - no sequence of reads,
    writes, flushes and publications (of any plans) ever serves them or leaves
    the empty engine: reads bypass the buffer and the next transition waits for
    it. *)
Theorem empty_plan_strands_output (x : BRun T) (ops : list BOp) (Hs : stranded (br_stream x)) :
  stranded (br_stream (brun x ops)) /\ bi_output (br_stream (brun x ops)) = bi_output (br_stream x).
Proof.
  revert x Hs. induction ops as [|o ops IH]; intros x Hs; [done|]. cbn.
  destruct (bexec_stranded x o Hs) as [Eo Ed]. rewrite <- Eo. apply IH.
  destruct Hs as [H1 H2]. split; [by rewrite Ed|by rewrite Eo].
Qed.

Lemma transition_current {U} `{AsyncWrite U} k (h : ChaosStream U) : pending_generation h = None ->
  transition k h = (Ready (Ok tt), k, h).
Proof.
  unfold pending_generation, transition. destruct (live_snapshot h) as [snap|]; [|done].
  by destruct (generation snap =? cs_observed h).
Qed.

(** Due bytes wait for the segment behind them.  When the downstream queue
    has a due segment and one that is not, a read moves the due bytes into the
    output buffer and still answers [Pending]: they are served only after the
    timer of the later segment. *)
Theorem due_bytes_wait_for_the_next_segment (k k1 : nat) (cap : Z) (s s1 : BidirectionalChaosStream T)
    (Hcurrent : pending_upstream_generation s = None /\ pending_downstream_generation s = None)
    (Hup : engine_is_empty (bi_upstream s) = true) (Hdown : engine_is_empty (bi_downstream s) = false)
    (Hidle : bi_output s = [] /\ bi_pending s = []) (Hqueue : e_queue (bi_downstream s) <> [])
    (Hflush : flush_downstream k s = (Pending, k1, s1)) :
  exists s2, bidi_read k cap s = Some (Pending, k1, s2) /\ bi_output s2 = bi_output s1.
Proof.
  destruct Hcurrent as [P1 P2], Hidle as [I1 I2]. unfold bidi_read, bidi_poll_read.
  assert (U : update_policies k s = (Ready (Ok tt), k, s)).
  { unfold update_policies. rewrite (transition_current _ _ P1).
    assert (Es : set_upstream_half (upstream_half s) s = s) by (by destruct s). rewrite Es.
    unfold transition_downstream. rewrite (transition_current _ _ P2), I1.
    destruct (live_snapshot (downstream_half s)); by destruct s. }
  rewrite U. unfold pump_upstream. rewrite Hup, Hdown. exists (mirror_downstream s1). split; [|done].
  assert (F : forall fuel, read_loop (S fuel) k cap s = Some (Pending, k1, mirror_downstream s1)).
  { intros fuel. cbn [read_loop]. unfold read_step. rewrite I1, I2.
    assert (Eq : queue_is_empty (bi_downstream s) = false) by (unfold queue_is_empty; by destruct (e_queue (bi_downstream s))).
    by rewrite Eq, Hflush. }
  pose proof (read_measure_nonneg s). unfold read_fuel.
  destruct (Z.to_nat (2 + read_measure s)) as [|n] eqn:E; [lia|]. apply F.
Qed.
End Props.

(** * At concrete inputs *)

(** ** A connection *)

(** Chunks the peer has sent, with stalls in between; takes every write. *)
Record Wire := { wi_chunks : list (option bytes); wi_received : bytes; wi_taken : bytes }.
Definition wire_read (t : Wire) (cap : Z) : io_poll bytes * Wire :=
  match wi_chunks t with
  | [] => (Pending, t)
  | None :: rest => (Pending, {| wi_chunks := rest; wi_received := wi_received t; wi_taken := wi_taken t |})
  | Some c :: rest =>
      let data := ztake cap c in
      (Ready (Ok data),
       {| wi_chunks := (match zdrop cap c with [] => [] | more => [Some more] end) ++ rest;
          wi_received := wi_received t ++ data; wi_taken := wi_taken t |})
  end.
#[export] Instance Wire_write : AsyncWrite Wire := {
  tx_write t b := (Ready (Ok (zlen b)),
    {| wi_chunks := wi_chunks t; wi_received := wi_received t; wi_taken := wi_taken t ++ b |});
  tx_flush t := (Ready (Ok tt), t);
  tx_shutdown t := (Ready (Ok tt), t);
  sunk := wi_taken
}.
#[export] Instance Wire_read : AsyncRead Wire := { rx_read := wire_read; received := wi_received }.
#[export] Instance Wire_write_ok : AsyncWriteOk Wire.
Proof.
  split; cbn; try done.
  intros t b n t' [= <- <-]. split; [apply zlen_nonneg|]. intros _. cbn. by rewrite ztake_all.
Qed.
Lemma wire_reliable : reliable Wire.
Proof.
  split; cbn; try done. intros t b Hb. pose proof (zlen_nonneg b).
  assert (zlen b <> 0) by (intros E; by apply zlen_zero_inv in E). lia.
Qed.
#[export] Instance Wire_read_ok : AsyncReadOk Wire.
Proof.
  split; try done; cbn; unfold wire_read.
  - intros [[|[c|] rest] g w] cap b t' H; cbn in H; simplify_eq. cbn. split; [|done].
    unfold zlen, ztake. rewrite length_take. lia.
  - by intros [[|[c|] rest] g w] cap.
  - by intros [[|[c|] rest] g w] cap.
Qed.

Definition chunk_bytes (c : option bytes) : nat := match c with Some b => length b | None => 0 end.
Fixpoint chunks_left (l : list (option bytes)) : nat :=
  match l with [] => 0 | c :: l' => chunk_bytes c + chunks_left l' end.
#[export] Instance Wire_backlog : Backlog Wire.
Proof.
  refine {| backlog t := chunks_left (wi_chunks t) |}.
  intros [[|[c|] rest] g w] cap x b t' H; cbn in H; unfold wire_read in H; cbn in H; simplify_eq.
  assert (L : (length (ztake cap c) + length (zdrop cap c) = length c)%nat)
    by (rewrite <- length_app, ztake_zdrop; done).
  match goal with Hc : ztake cap c = _ |- _ => rewrite Hc in L end. cbn in *. destruct (zdrop cap c); cbn in *; lia.
Defined.

Definition wire : Wire :=
  {| wi_chunks := [Some [1; 2; 3]; None; Some (repeat 4 90); None; Some [5]; None; Some [6; 7]]; wi_received := [];
     wi_taken := [] |}.
Definition demo_connection (w : Wire) (up down : FaultPlan) : option (BidirectionalChaosStream Wire) :=
  match bidi_new_live 0 w (policy_of up) (policy_of down) "proxy" 1 with Ok s => Some s | Err _ => None end.
Definition idle_connection : BidirectionalChaosStream Wire :=
  {| bi_inner := wire; bi_upstream := engine_empty 0; bi_downstream := engine_empty 0; bi_output := []; bi_pending := [];
     bi_upstream_policy := None; bi_downstream_policy := None; bi_observed_upstream := 0; bi_observed_downstream := 0;
     bi_proxy := ""; bi_key := 0; bi_upstream_evidence := stream_evidence_default;
     bi_downstream_evidence := stream_evidence_default |}.
Definition connection (down : FaultPlan) : BidirectionalChaosStream Wire :=
  default idle_connection (demo_connection wire plan_empty down).

(** ** Bytes *)

Definition chat : list BOp :=
  [BRead 16; BWrite [8; 9]; BPublishUpstream lag_plan 3; BWrite [10]; BRead 16; BPublishDownstream shaping_plan 4]
  ++ repeat (BRead 16) 8 ++ [BWriteVectored [[11]; [12]]; BFlush] ++ repeat (BRead 7) 6.
Lemma shaping_fine : cell_fine (policy_of shaping_plan).
Proof. apply policy_of_fine; [reflexivity|exact shaping_typed|reflexivity]. Qed.
Lemma empty_fine : cell_fine (policy_of plan_empty).
Proof. apply policy_of_fine; [reflexivity|constructor|reflexivity]. Qed.
Lemma chat_fine : Forall bop_fine chat.
Proof.
  repeat (apply Forall_cons_2;
    [first [exact I | exact (conj lag_typed eq_refl) | exact (conj shaping_typed (conj eq_refl eq_refl))]|]).
  apply Forall_nil_2.
Qed.
Lemma connection_new : bidi_new_live 0 wire (policy_of plan_empty) (policy_of lag_plan) "proxy" 1
  = Ok (connection lag_plan).
Proof. vm_compute. reflexivity. Qed.

Lemma bidirectional_bytes_are_exact_witness :
  let x := brun (bstart 0 (connection lag_plan)) chat in
  received (bi_inner (br_stream x)) = received wire ++ br_read x ++ bi_output (br_stream x)
    ++ queue_bytes (e_queue (bi_downstream (br_stream x))) ++ bi_pending (br_stream x)
  /\ sunk (bi_inner (br_stream x)) ++ queue_bytes (e_queue (bi_upstream (br_stream x))) = sunk wire ++ br_written x
  /\ 32 < zlen (br_read x) /\ bi_observed_downstream (br_stream x) = 2 /\ zlen (br_written x) = 5.
Proof.
  cbv zeta.
  destruct (bidirectional_bytes_are_exact 0 wire (policy_of plan_empty) (policy_of lag_plan) "proxy" 1
    (connection lag_plan) chat wire_reliable empty_fine lag_fine (conj eq_refl eq_refl) connection_new chat_fine) as [A B].
  split; [exact A|]. split; [exact B|]. vm_compute. repeat split.
Defined.

(** A pending suffix, a queue and a backlog. *)
Definition midway : BidirectionalChaosStream Wire :=
  br_stream (brun (bstart 0 (connection lag_plan)) [BRead 16; BRead 16; BRead 16]).
Lemma midway_wf : engine_wf (bi_downstream midway).
Proof.
  pose proof (bidi_new_start 0 wire _ _ _ _ _ empty_fine lag_fine (conj eq_refl eq_refl) connection_new) as R.
  apply (brun_ok_run wire [BRead 16; BRead 16; BRead 16] wire_reliable ltac:(repeat constructor)) in R.
  unfold midway. exact (bidi_ok_wf _ (bk_ok _ _ R)).
Qed.
Lemma reads_answer_witness :
  exists answer, read_loop (read_fuel midway) 60 16 midway = Some answer
  /\ read_loop (read_fuel midway + 5) 60 16 midway = Some answer.
Proof. exact (reads_answer (read_fuel midway + 5) 60 16 midway midway_wf ltac:(lia)). Defined.

(** ** The two departures *)

(** Three delayed bytes, then the empty plan. *)
Definition cleared : BRun Wire :=
  brun (bstart 0 (connection lag_plan)) (BRead 16 :: BPublishDownstream plan_empty 5 :: repeat (BRead 16) 12).
Lemma empty_plan_strands_output_witness :
  bi_output (br_stream cleared) = [1; 2; 3] /\ br_read cleared <> []
  /\ bi_output (br_stream (brun cleared [BPublishDownstream lag_plan 6; BRead 16; BWrite [1]; BRead 16])) = [1; 2; 3].
Proof.
  assert (Hs : stranded (br_stream cleared)) by (split; vm_compute; [reflexivity|discriminate]).
  split; [vm_compute; reflexivity|]. split; [vm_compute; discriminate|].
  rewrite (proj2 (empty_plan_strands_output cleared
    [BPublishDownstream lag_plan 6; BRead 16; BWrite [1]; BRead 16] Hs)).
  vm_compute. reflexivity.
Defined.

(** Slices ten milliseconds apart. *)
Definition stagger_plan : FaultPlan := {| faults :=
  [always "cut" (Slice {| sl_average_size := 4; sl_variation := 1; sl_delay := ms 10 |})] |}.
Definition sliced : BidirectionalChaosStream Wire :=
  br_stream (brun (bstart 0 (default idle_connection (demo_connection
    {| wi_chunks := [Some (seqZ 0 20)]; wi_received := []; wi_taken := [] |} plan_empty stagger_plan))) [BRead 16; BRead 16]).
Definition moved_out := flush_downstream 15 sliced.
Lemma due_bytes_wait_for_the_next_segment_witness :
  exists s2, bidi_read 15 16 sliced = Some (Pending, moved_out.1.2, s2) /\ bi_output s2 = [3; 4; 5].
Proof.
  destruct (due_bytes_wait_for_the_next_segment 15 moved_out.1.2 16 sliced moved_out.2) as (s2 & E & O);
    [split; vm_compute; reflexivity|vm_compute; reflexivity|vm_compute; reflexivity|split; vm_compute; reflexivity
    |vm_compute; discriminate|vm_compute; reflexivity|].
  exists s2. split; [exact E|]. rewrite O. vm_compute. reflexivity.
Defined.
