(* ===== verification/DatagramPlan.v ===== *)
(** * Datagram plans and their publisher ([crates/eggchaos-core/src/datagram.rs])

    Queue limits, the ordered datagram fault stages, their validation and the
    live policy.  The code's error type is [&'static str]. *)

From Stdlib Require Import Bool.
From stdpp Require Import base list gmap strings.
From S2P Require Import Prelude Rng Float64 Plan Policy.

(** ** Limits *)

Record DatagramQueueLimits := {
  max_queued_datagrams : Z;
  max_queued_bytes : Z;
  max_datagram_bytes : Z
}.

Definition limits_validate (l : DatagramQueueLimits) : result DatagramQueueLimits string :=
  if (1000000 <? max_queued_datagrams l) || (1073741824 <? max_queued_bytes l)
     || (65535 <? max_datagram_bytes l)
  then Err "datagram queue limits exceed hard bounds"%string
  else Ok l.

(** The [NonZeroU64] fields of accepted limits. *)
Record limits_ok (l : DatagramQueueLimits) : Prop := {
  lo_datagrams : 1 <= max_queued_datagrams l <= 1000000;
  lo_bytes : 1 <= max_queued_bytes l <= 1073741824;
  lo_datagram : 1 <= max_datagram_bytes l <= 65535
}.

(** ** Stages *)

Inductive DatagramFaultKind :=
| DDelay (delay jitter : Duration)
| DLoss
| DDuplicate (additional_copies : Z)
| DReorder (hold : Duration)
| DPayloadCorrupt (count : Z)
| DBandwidth (bytes_per_second burst_bytes : Z).

Record DatagramFaultSpec := {
  dg_id : FaultId;
  dg_probability : Probability;
  dg_kind : DatagramFaultKind
}.
Record DatagramPlan := { dp_faults : list DatagramFaultSpec }.

Definition fault_type_index (k : DatagramFaultKind) : nat :=
  match k with
  | DDelay _ _ => 0 | DLoss => 1 | DDuplicate _ => 2 | DReorder _ => 3
  | DPayloadCorrupt _ => 4 | DBandwidth _ _ => 5
  end.
Definition DATAGRAM_FAULT_TYPE_NAMES : list string :=
  ["delay"; "loss"; "duplicate"; "reorder"; "payload-corrupt"; "bandwidth"]%string.
Definition datagram_type_name (k : DatagramFaultKind) : string :=
  nth (fault_type_index k) DATAGRAM_FAULT_TYPE_NAMES EmptyString.

(** ** Validation *)

Definition DAY : Duration := 86400 * NANOS_PER_SEC.
Definition MAX_CANDIDATES : Z := 4096.

(** The [match &f.kind] of the loop: the amplification so far, or the error. *)
Definition validate_kind (k : DatagramFaultKind) (maximum_candidates : Z) : result Z string :=
  match k with
  | DDuplicate n =>
      if (n =? 0) || (16 <? n) then Err "duplicate count must be 1..=16"%string
      else
        let m := sat_mul64 maximum_candidates (n + 1) in
        if MAX_CANDIDATES <? m
        then Err "plan duplication amplification exceeds 4096 candidates"%string else Ok m
  | DDelay delay jitter =>
      if (DAY <? delay) || (DAY <? jitter)
      then Err "delay and jitter must be at most 24 hours"%string else Ok maximum_candidates
  | DReorder hold =>
      if DAY <? hold then Err "reorder hold must be at most 24 hours"%string else Ok maximum_candidates
  | _ => Ok maximum_candidates
  end.

Fixpoint dvalidate_loop (ids : gset string) (maximum_candidates : Z) (fs : list DatagramFaultSpec)
    : result unit string :=
  match fs with
  | [] => Ok tt
  | f :: rest =>
      if (str_len (dg_id f) =? 0) || (128 <? str_len (dg_id f))
      then Err "fault id must be 1..=128 bytes"%string
      else match probability_new (dg_probability f) with
      | None => Err "probability must be finite and within 0..=1"%string
      | Some _ =>
          if bool_decide (dg_id f ∈ ids) then Err "duplicate fault id"%string
          else
            let? m := validate_kind (dg_kind f) maximum_candidates in
            dvalidate_loop ({[dg_id f]} ∪ ids) m rest
      end
  end.

Definition dplan_validate (p : DatagramPlan) : result unit string :=
  if 256 <? zlen (dp_faults p) then Err "datagram plans are limited to 256 stages"%string
  else dvalidate_loop ∅ 1 (dp_faults p).
Definition dplan_new (fs : list DatagramFaultSpec) : result DatagramPlan string :=
  let? _u := dplan_validate {| dp_faults := fs |} in Ok {| dp_faults := fs |}.
Definition dplan_empty : DatagramPlan := {| dp_faults := [] |}.

(** ** What validation promises *)

(** Outputs of a stage per input. *)
Definition stage_factor (k : DatagramFaultKind) : Z :=
  match k with DDuplicate n => n + 1 | _ => 1 end.
Definition amplification (fs : list DatagramFaultSpec) : Z :=
  foldl (fun a f => a * stage_factor (dg_kind f)) 1 fs.

Definition dkind_wf (k : DatagramFaultKind) : Prop :=
  match k with
  | DDelay delay jitter => delay <= DAY /\ jitter <= DAY
  | DReorder hold => hold <= DAY
  | DDuplicate n => 1 <= n <= 16
  | _ => True
  end.

(** The ranges the types of the code impose on the fields. *)
Definition dkind_typed (k : DatagramFaultKind) : Prop :=
  match k with
  | DDelay delay jitter => 0 <= delay /\ 0 <= jitter
  | DReorder hold => 0 <= hold
  | DDuplicate n => 0 <= n <= U8_MAX
  | DPayloadCorrupt n => 1 <= n <= U64_MAX
  | DBandwidth rate burst => 1 <= rate <= U64_MAX /\ 1 <= burst <= U64_MAX
  | DLoss => True
  end.
Definition dplan_typed (p : DatagramPlan) : Prop := Forall (fun f => dkind_typed (dg_kind f)) (dp_faults p).

Record dplan_wf (p : DatagramPlan) : Prop := {
  dw_bounded : zlen (dp_faults p) <= 256;
  dw_unique : NoDup (map dg_id (dp_faults p));
  dw_ids : Forall (fun f => 1 <= str_len (dg_id f) <= 128) (dp_faults p);
  dw_prob : Forall (fun f => probability_in_range (dg_probability f) = true) (dp_faults p);
  dw_kind : Forall (fun f => dkind_wf (dg_kind f)) (dp_faults p);
  dw_amplification : amplification (dp_faults p) <= MAX_CANDIDATES
}.

Definition amplify (m : Z) (fs : list DatagramFaultSpec) : Z :=
  foldl (fun a f => a * stage_factor (dg_kind f)) m fs.

Lemma amplify_ge fs : forall m, 1 <= m -> Forall (fun f => dkind_typed (dg_kind f)) fs -> m <= amplify m fs.
Proof.
  induction fs as [|f fs IH]; intros m Hm Ht; [cbn; lia|]. apply Forall_cons in Ht as [H1 Ht]. cbn [amplify foldl].
  assert (1 <= stage_factor (dg_kind f)) by (destruct (dg_kind f); cbn in *; lia).
  fold (amplify (m * stage_factor (dg_kind f)) fs). specialize (IH (m * stage_factor (dg_kind f)) ltac:(nia) Ht). nia.
Qed.

Lemma validate_kind_ok k m m' : 1 <= m <= MAX_CANDIDATES -> dkind_typed k ->
  validate_kind k m = Ok m' <-> dkind_wf k /\ m' = m * stage_factor k /\ m' <= MAX_CANDIDATES.
Proof.
  intros Hm Ht. unfold validate_kind, MAX_CANDIDATES in *.
  destruct k as [delay jitter| |n|hold|n|rate burst]; cbn [dkind_wf stage_factor dkind_typed] in *;
    rewrite ?Z.mul_1_r.
  - destruct (Z.ltb_spec DAY delay); cbn [orb]; [split; [done|lia]|].
    destruct (Z.ltb_spec DAY jitter); [split; [done|lia]|]. split; [intros [= <-]; lia|intros (_ & -> & _); done].
  - split; [intros [= <-]; auto with lia|intros (_ & -> & _); done].
  - destruct (Z.eqb_spec n 0); cbn [orb]; [split; [done|lia]|].
    destruct (Z.ltb_spec 16 n); [split; [done|lia]|].
    assert (E : sat_mul64 m (n + 1) = m * (n + 1)) by (unfold sat_mul, U64_MAX; nia). rewrite E.
    destruct (Z.ltb_spec 4096 (m * (n + 1))); (split; [intros [= <-]; auto with lia|intros (_ & -> & ?); f_equal; lia]) ||
      (split; [done|lia]).
  - destruct (Z.ltb_spec DAY hold); [split; [done|lia]|]. split; [intros [= <-]; lia|intros (_ & -> & _); done].
  - split; [intros [= <-]; auto with lia|intros (_ & -> & _); done].
  - split; [intros [= <-]; auto with lia|intros (_ & -> & _); done].
Qed.

Lemma dvalidate_loop_ok fs : forall ids m, 1 <= m <= MAX_CANDIDATES ->
  Forall (fun f => dkind_typed (dg_kind f)) fs ->
  dvalidate_loop ids m fs = Ok tt <->
  NoDup (map dg_id fs) /\ (forall f, f ∈ fs -> dg_id f ∉ ids)
  /\ Forall (fun f => 1 <= str_len (dg_id f) <= 128) fs
  /\ Forall (fun f => probability_in_range (dg_probability f) = true) fs
  /\ Forall (fun f => dkind_wf (dg_kind f)) fs /\ amplify m fs <= MAX_CANDIDATES.
Proof.
  induction fs as [|f fs IH]; intros ids m Hm Ht; cbn [dvalidate_loop map].
  { split; [intros _|done]. conjs; try constructor; [|cbn; lia]. intros f Hf. by apply not_elem_of_nil in Hf. }
  apply Forall_cons in Ht as [H1 Ht].
  assert (0 <= str_len (dg_id f)) by apply zlen_nonneg.
  destruct (Z.eqb_spec (str_len (dg_id f)) 0); cbn [orb].
  { split; [done|]. intros (_ & _ & Hi & _). apply Forall_cons in Hi as [? _]. lia. }
  destruct (Z.ltb_spec 128 (str_len (dg_id f))).
  { split; [done|]. intros (_ & _ & Hi & _). apply Forall_cons in Hi as [? _]. lia. }
  unfold probability_new. destruct (probability_in_range (dg_probability f)) eqn:Ep.
  2:{ split; [done|]. intros (_ & _ & _ & Hi & _). apply Forall_cons in Hi as [? _]. congruence. }
  case_bool_decide as Hin.
  { split; [done|]. intros (_ & Hn & _). destruct (Hn f); [apply list_elem_of_here|done]. }
  pose proof (validate_kind_ok (dg_kind f) m) as K.
  destruct (validate_kind (dg_kind f) m) as [m'|err].
  - destruct (proj1 (K m' Hm H1) eq_refl) as (K1 & -> & K3).
    assert (1 <= stage_factor (dg_kind f)) by (destruct (dg_kind f); cbn in *; lia).
    rewrite IH by (try done; nia). pose proof (fresh_ids_cons dg_id f fs ids) as F. cbn [map] in F.
    rewrite !Forall_cons. cbn [amplify foldl]. unfold amplify. assert (1 <= str_len (dg_id f) <= 128) by lia. tauto.
  - split; [done|]. intros (_ & _ & _ & _ & Hk & Ha). apply Forall_cons in Hk as [Hk _]. cbn [amplify foldl] in Ha.
    assert (1 <= stage_factor (dg_kind f)) by (destruct (dg_kind f); cbn in *; lia).
    pose proof (amplify_ge fs (m * stage_factor (dg_kind f)) ltac:(nia) Ht) as G. unfold amplify in G.
    by specialize (proj2 (K (m * stage_factor (dg_kind f)) Hm H1) ltac:(conjs; try done; lia)).
Qed.

Lemma dplan_wf_validate p : dplan_typed p -> dplan_validate p = Ok tt <-> dplan_wf p.
Proof.
  intros Ht. unfold dplan_validate. destruct (Z.ltb_spec 256 (zlen (dp_faults p))) as [H|H].
  - split; [done|]. intros []. lia.
  - rewrite dvalidate_loop_ok by (try done; unfold MAX_CANDIDATES; lia). split.
    + intros (A & _ & B & C & D & E). by split.
    + intros []. conjs; try done.
Qed.

(** datagram validation decides its invariants.  A plan is accepted exactly
    when it has at most 256 stages, distinct identities of 1 to 128 bytes,
    probabilities in range, delays within a day, duplicate counts from 1 to 16,
    and a total amplification - the product over its duplicate stages - of at
    most 4096, however the intermediate products saturate. *)
Theorem datagram_validate_decides_wf (p : DatagramPlan) (Htyped : dplan_typed p) :
  (dplan_validate p = Ok tt <-> dplan_wf p)
  /\ (dplan_new (dp_faults p) = Ok p <-> dplan_wf p).
Proof.
  split; [by apply dplan_wf_validate|]. rewrite <- dplan_wf_validate by done. unfold dplan_new.
  destruct p as [fs]. cbn [dp_faults]. destruct (dplan_validate _) as [[]|]; by split.
Qed.

(** ** The publisher ([DatagramLivePolicy])

    The same load / compare-and-swap loop as the stream policies, with
    [&'static str] errors and no expected-generation variant. *)
Module Live.
Abbreviation DatagramLivePolicy := (ArcSwap DatagramPlan).
Abbreviation PublishedDatagramPolicy := (PublishedPolicy DatagramPlan).
Definition new : DatagramPlan -> Z -> result DatagramLivePolicy string := live_new dplan_validate.
Definition publish_plan : DatagramLivePolicy -> DatagramPlan -> Z -> _ :=
  publish dplan_validate "generation overflow"%string.
Definition step := sys_step dplan_validate "generation overflow"%string.
End Live.

(** ** Demonstration *)

Definition dspec (id : string) (k : DatagramFaultKind) : DatagramFaultSpec :=
  {| dg_id := id; dg_probability := f64_one; dg_kind := k |}.

Lemma datagram_validate_decides_wf_witness :
  let bad := {| dp_faults := [dspec "a" (DDuplicate 16); dspec "b" (DDuplicate 16); dspec "c" (DDuplicate 14)] |} in
  ~ dplan_wf bad.
Proof.
  cbv zeta. intros H. apply datagram_validate_decides_wf in H.
  - vm_compute in H. discriminate H.
  - repeat constructor; vm_compute; intuition congruence.
Defined.
