(* ===== verification/DatagramState.v ===== *)
(** * State of the datagram engine ([crates/eggchaos-core/src/datagram.rs])

    Evidence counters, scheduled candidates, bandwidth buckets and the
    [DatagramDirectionEngine] record with its field updates.

    The [BinaryHeap<Reverse<Candidate>>] is represented by the list of its
    elements in the order the heap pops them, which its contract fixes because
    no two candidates have equal keys ([queue_keys_are_unique] in
    [DatagramProps.v]); the bucket map is a finite map. *)

From stdpp Require Import base list gmap strings.
From S2P Require Import Prelude Rng Float64 Plan Policy Env DatagramPlan.

(** ** Evidence *)

Record DatagramEvidence := {
  d_admitted_datagrams : Z;
  d_admitted_bytes : Z;
  d_emitted_datagrams : Z;
  d_emitted_bytes : Z;
  d_configured_loss : Z;
  d_queue_overflow : Z;
  d_oversize_datagrams : Z;
  d_duplicated_copies : Z;
  d_corrupted_candidates : Z;
  d_reorder_activations : Z;
  d_queued_datagrams : Z;
  d_queued_bytes : Z;
  d_high_water_datagrams : Z;
  d_high_water_bytes : Z;
  d_fault_activations : list Z;
  d_injected_delay_nanos : Z;
  d_bandwidth_delay_nanos : Z;
  d_last_generation : Z;
  d_last_seed_namespace : Z;
  d_rng_version : RngVersion
}.

Definition devidence_default : DatagramEvidence :=
  {| d_admitted_datagrams := 0; d_admitted_bytes := 0; d_emitted_datagrams := 0; d_emitted_bytes := 0;
     d_configured_loss := 0; d_queue_overflow := 0; d_oversize_datagrams := 0; d_duplicated_copies := 0;
     d_corrupted_candidates := 0; d_reorder_activations := 0; d_queued_datagrams := 0;
     d_queued_bytes := 0; d_high_water_datagrams := 0; d_high_water_bytes := 0;
     d_fault_activations := [0; 0; 0; 0; 0; 0]; d_injected_delay_nanos := 0;
     d_bandwidth_delay_nanos := 0; d_last_generation := 0; d_last_seed_namespace := 0;
     d_rng_version := V1 |}.

Definition set_d_admitted_datagrams (x : Z) (r : DatagramEvidence) : DatagramEvidence :=
  {| d_admitted_datagrams := x; d_admitted_bytes := d_admitted_bytes r;
     d_emitted_datagrams := d_emitted_datagrams r; d_emitted_bytes := d_emitted_bytes r;
     d_configured_loss := d_configured_loss r; d_queue_overflow := d_queue_overflow r;
     d_oversize_datagrams := d_oversize_datagrams r;
     d_duplicated_copies := d_duplicated_copies r;
     d_corrupted_candidates := d_corrupted_candidates r;
     d_reorder_activations := d_reorder_activations r;
     d_queued_datagrams := d_queued_datagrams r; d_queued_bytes := d_queued_bytes r;
     d_high_water_datagrams := d_high_water_datagrams r;
     d_high_water_bytes := d_high_water_bytes r; d_fault_activations := d_fault_activations r;
     d_injected_delay_nanos := d_injected_delay_nanos r;
     d_bandwidth_delay_nanos := d_bandwidth_delay_nanos r;
     d_last_generation := d_last_generation r;
     d_last_seed_namespace := d_last_seed_namespace r; d_rng_version := d_rng_version r |}.
Definition set_d_admitted_bytes (x : Z) (r : DatagramEvidence) : DatagramEvidence :=
  {| d_admitted_datagrams := d_admitted_datagrams r; d_admitted_bytes := x;
     d_emitted_datagrams := d_emitted_datagrams r; d_emitted_bytes := d_emitted_bytes r;
     d_configured_loss := d_configured_loss r; d_queue_overflow := d_queue_overflow r;
     d_oversize_datagrams := d_oversize_datagrams r;
     d_duplicated_copies := d_duplicated_copies r;
     d_corrupted_candidates := d_corrupted_candidates r;
     d_reorder_activations := d_reorder_activations r;
     d_queued_datagrams := d_queued_datagrams r; d_queued_bytes := d_queued_bytes r;
     d_high_water_datagrams := d_high_water_datagrams r;
     d_high_water_bytes := d_high_water_bytes r; d_fault_activations := d_fault_activations r;
     d_injected_delay_nanos := d_injected_delay_nanos r;
     d_bandwidth_delay_nanos := d_bandwidth_delay_nanos r;
     d_last_generation := d_last_generation r;
     d_last_seed_namespace := d_last_seed_namespace r; d_rng_version := d_rng_version r |}.
Definition set_d_emitted_datagrams (x : Z) (r : DatagramEvidence) : DatagramEvidence :=
  {| d_admitted_datagrams := d_admitted_datagrams r; d_admitted_bytes := d_admitted_bytes r;
     d_emitted_datagrams := x; d_emitted_bytes := d_emitted_bytes r;
     d_configured_loss := d_configured_loss r; d_queue_overflow := d_queue_overflow r;
     d_oversize_datagrams := d_oversize_datagrams r;
     d_duplicated_copies := d_duplicated_copies r;
     d_corrupted_candidates := d_corrupted_candidates r;
     d_reorder_activations := d_reorder_activations r;
     d_queued_datagrams := d_queued_datagrams r; d_queued_bytes := d_queued_bytes r;
     d_high_water_datagrams := d_high_water_datagrams r;
     d_high_water_bytes := d_high_water_bytes r; d_fault_activations := d_fault_activations r;
     d_injected_delay_nanos := d_injected_delay_nanos r;
     d_bandwidth_delay_nanos := d_bandwidth_delay_nanos r;
     d_last_generation := d_last_generation r;
     d_last_seed_namespace := d_last_seed_namespace r; d_rng_version := d_rng_version r |}.
Definition set_d_emitted_bytes (x : Z) (r : DatagramEvidence) : DatagramEvidence :=
  {| d_admitted_datagrams := d_admitted_datagrams r; d_admitted_bytes := d_admitted_bytes r;
     d_emitted_datagrams := d_emitted_datagrams r; d_emitted_bytes := x;
     d_configured_loss := d_configured_loss r; d_queue_overflow := d_queue_overflow r;
     d_oversize_datagrams := d_oversize_datagrams r;
     d_duplicated_copies := d_duplicated_copies r;
     d_corrupted_candidates := d_corrupted_candidates r;
     d_reorder_activations := d_reorder_activations r;
     d_queued_datagrams := d_queued_datagrams r; d_queued_bytes := d_queued_bytes r;
     d_high_water_datagrams := d_high_water_datagrams r;
     d_high_water_bytes := d_high_water_bytes r; d_fault_activations := d_fault_activations r;
     d_injected_delay_nanos := d_injected_delay_nanos r;
     d_bandwidth_delay_nanos := d_bandwidth_delay_nanos r;
     d_last_generation := d_last_generation r;
     d_last_seed_namespace := d_last_seed_namespace r; d_rng_version := d_rng_version r |}.
Definition set_d_configured_loss (x : Z) (r : DatagramEvidence) : DatagramEvidence :=
  {| d_admitted_datagrams := d_admitted_datagrams r; d_admitted_bytes := d_admitted_bytes r;
     d_emitted_datagrams := d_emitted_datagrams r; d_emitted_bytes := d_emitted_bytes r;
     d_configured_loss := x; d_queue_overflow := d_queue_overflow r;
     d_oversize_datagrams := d_oversize_datagrams r;
     d_duplicated_copies := d_duplicated_copies r;
     d_corrupted_candidates := d_corrupted_candidates r;
     d_reorder_activations := d_reorder_activations r;
     d_queued_datagrams := d_queued_datagrams r; d_queued_bytes := d_queued_bytes r;
     d_high_water_datagrams := d_high_water_datagrams r;
     d_high_water_bytes := d_high_water_bytes r; d_fault_activations := d_fault_activations r;
     d_injected_delay_nanos := d_injected_delay_nanos r;
     d_bandwidth_delay_nanos := d_bandwidth_delay_nanos r;
     d_last_generation := d_last_generation r;
     d_last_seed_namespace := d_last_seed_namespace r; d_rng_version := d_rng_version r |}.
Definition set_d_queue_overflow (x : Z) (r : DatagramEvidence) : DatagramEvidence :=
  {| d_admitted_datagrams := d_admitted_datagrams r; d_admitted_bytes := d_admitted_bytes r;
     d_emitted_datagrams := d_emitted_datagrams r; d_emitted_bytes := d_emitted_bytes r;
     d_configured_loss := d_configured_loss r; d_queue_overflow := x;
     d_oversize_datagrams := d_oversize_datagrams r;
     d_duplicated_copies := d_duplicated_copies r;
     d_corrupted_candidates := d_corrupted_candidates r;
     d_reorder_activations := d_reorder_activations r;
     d_queued_datagrams := d_queued_datagrams r; d_queued_bytes := d_queued_bytes r;
     d_high_water_datagrams := d_high_water_datagrams r;
     d_high_water_bytes := d_high_water_bytes r; d_fault_activations := d_fault_activations r;
     d_injected_delay_nanos := d_injected_delay_nanos r;
     d_bandwidth_delay_nanos := d_bandwidth_delay_nanos r;
     d_last_generation := d_last_generation r;
     d_last_seed_namespace := d_last_seed_namespace r; d_rng_version := d_rng_version r |}.
Definition set_d_oversize_datagrams (x : Z) (r : DatagramEvidence) : DatagramEvidence :=
  {| d_admitted_datagrams := d_admitted_datagrams r; d_admitted_bytes := d_admitted_bytes r;
     d_emitted_datagrams := d_emitted_datagrams r; d_emitted_bytes := d_emitted_bytes r;
     d_configured_loss := d_configured_loss r; d_queue_overflow := d_queue_overflow r;
     d_oversize_datagrams := x; d_duplicated_copies := d_duplicated_copies r;
     d_corrupted_candidates := d_corrupted_candidates r;
     d_reorder_activations := d_reorder_activations r;
     d_queued_datagrams := d_queued_datagrams r; d_queued_bytes := d_queued_bytes r;
     d_high_water_datagrams := d_high_water_datagrams r;
     d_high_water_bytes := d_high_water_bytes r; d_fault_activations := d_fault_activations r;
     d_injected_delay_nanos := d_injected_delay_nanos r;
     d_bandwidth_delay_nanos := d_bandwidth_delay_nanos r;
     d_last_generation := d_last_generation r;
     d_last_seed_namespace := d_last_seed_namespace r; d_rng_version := d_rng_version r |}.
Definition set_d_duplicated_copies (x : Z) (r : DatagramEvidence) : DatagramEvidence :=
  {| d_admitted_datagrams := d_admitted_datagrams r; d_admitted_bytes := d_admitted_bytes r;
     d_emitted_datagrams := d_emitted_datagrams r; d_emitted_bytes := d_emitted_bytes r;
     d_configured_loss := d_configured_loss r; d_queue_overflow := d_queue_overflow r;
     d_oversize_datagrams := d_oversize_datagrams r; d_duplicated_copies := x;
     d_corrupted_candidates := d_corrupted_candidates r;
     d_reorder_activations := d_reorder_activations r;
     d_queued_datagrams := d_queued_datagrams r; d_queued_bytes := d_queued_bytes r;
     d_high_water_datagrams := d_high_water_datagrams r;
     d_high_water_bytes := d_high_water_bytes r; d_fault_activations := d_fault_activations r;
     d_injected_delay_nanos := d_injected_delay_nanos r;
     d_bandwidth_delay_nanos := d_bandwidth_delay_nanos r;
     d_last_generation := d_last_generation r;
     d_last_seed_namespace := d_last_seed_namespace r; d_rng_version := d_rng_version r |}.
Definition set_d_corrupted_candidates (x : Z) (r : DatagramEvidence) : DatagramEvidence :=
  {| d_admitted_datagrams := d_admitted_datagrams r; d_admitted_bytes := d_admitted_bytes r;
     d_emitted_datagrams := d_emitted_datagrams r; d_emitted_bytes := d_emitted_bytes r;
     d_configured_loss := d_configured_loss r; d_queue_overflow := d_queue_overflow r;
     d_oversize_datagrams := d_oversize_datagrams r;
     d_duplicated_copies := d_duplicated_copies r; d_corrupted_candidates := x;
     d_reorder_activations := d_reorder_activations r;
     d_queued_datagrams := d_queued_datagrams r; d_queued_bytes := d_queued_bytes r;
     d_high_water_datagrams := d_high_water_datagrams r;
     d_high_water_bytes := d_high_water_bytes r; d_fault_activations := d_fault_activations r;
     d_injected_delay_nanos := d_injected_delay_nanos r;
     d_bandwidth_delay_nanos := d_bandwidth_delay_nanos r;
     d_last_generation := d_last_generation r;
     d_last_seed_namespace := d_last_seed_namespace r; d_rng_version := d_rng_version r |}.
Definition set_d_reorder_activations (x : Z) (r : DatagramEvidence) : DatagramEvidence :=
  {| d_admitted_datagrams := d_admitted_datagrams r; d_admitted_bytes := d_admitted_bytes r;
     d_emitted_datagrams := d_emitted_datagrams r; d_emitted_bytes := d_emitted_bytes r;
     d_configured_loss := d_configured_loss r; d_queue_overflow := d_queue_overflow r;
     d_oversize_datagrams := d_oversize_datagrams r;
     d_duplicated_copies := d_duplicated_copies r;
     d_corrupted_candidates := d_corrupted_candidates r; d_reorder_activations := x;
     d_queued_datagrams := d_queued_datagrams r; d_queued_bytes := d_queued_bytes r;
     d_high_water_datagrams := d_high_water_datagrams r;
     d_high_water_bytes := d_high_water_bytes r; d_fault_activations := d_fault_activations r;
     d_injected_delay_nanos := d_injected_delay_nanos r;
     d_bandwidth_delay_nanos := d_bandwidth_delay_nanos r;
     d_last_generation := d_last_generation r;
     d_last_seed_namespace := d_last_seed_namespace r; d_rng_version := d_rng_version r |}.
Definition set_d_queued_datagrams (x : Z) (r : DatagramEvidence) : DatagramEvidence :=
  {| d_admitted_datagrams := d_admitted_datagrams r; d_admitted_bytes := d_admitted_bytes r;
     d_emitted_datagrams := d_emitted_datagrams r; d_emitted_bytes := d_emitted_bytes r;
     d_configured_loss := d_configured_loss r; d_queue_overflow := d_queue_overflow r;
     d_oversize_datagrams := d_oversize_datagrams r;
     d_duplicated_copies := d_duplicated_copies r;
     d_corrupted_candidates := d_corrupted_candidates r;
     d_reorder_activations := d_reorder_activations r; d_queued_datagrams := x;
     d_queued_bytes := d_queued_bytes r; d_high_water_datagrams := d_high_water_datagrams r;
     d_high_water_bytes := d_high_water_bytes r; d_fault_activations := d_fault_activations r;
     d_injected_delay_nanos := d_injected_delay_nanos r;
     d_bandwidth_delay_nanos := d_bandwidth_delay_nanos r;
     d_last_generation := d_last_generation r;
     d_last_seed_namespace := d_last_seed_namespace r; d_rng_version := d_rng_version r |}.
Definition set_d_queued_bytes (x : Z) (r : DatagramEvidence) : DatagramEvidence :=
  {| d_admitted_datagrams := d_admitted_datagrams r; d_admitted_bytes := d_admitted_bytes r;
     d_emitted_datagrams := d_emitted_datagrams r; d_emitted_bytes := d_emitted_bytes r;
     d_configured_loss := d_configured_loss r; d_queue_overflow := d_queue_overflow r;
     d_oversize_datagrams := d_oversize_datagrams r;
     d_duplicated_copies := d_duplicated_copies r;
     d_corrupted_candidates := d_corrupted_candidates r;
     d_reorder_activations := d_reorder_activations r;
     d_queued_datagrams := d_queued_datagrams r; d_queued_bytes := x;
     d_high_water_datagrams := d_high_water_datagrams r;
     d_high_water_bytes := d_high_water_bytes r; d_fault_activations := d_fault_activations r;
     d_injected_delay_nanos := d_injected_delay_nanos r;
     d_bandwidth_delay_nanos := d_bandwidth_delay_nanos r;
     d_last_generation := d_last_generation r;
     d_last_seed_namespace := d_last_seed_namespace r; d_rng_version := d_rng_version r |}.
Definition set_d_high_water_datagrams (x : Z) (r : DatagramEvidence) : DatagramEvidence :=
  {| d_admitted_datagrams := d_admitted_datagrams r; d_admitted_bytes := d_admitted_bytes r;
     d_emitted_datagrams := d_emitted_datagrams r; d_emitted_bytes := d_emitted_bytes r;
     d_configured_loss := d_configured_loss r; d_queue_overflow := d_queue_overflow r;
     d_oversize_datagrams := d_oversize_datagrams r;
     d_duplicated_copies := d_duplicated_copies r;
     d_corrupted_candidates := d_corrupted_candidates r;
     d_reorder_activations := d_reorder_activations r;
     d_queued_datagrams := d_queued_datagrams r; d_queued_bytes := d_queued_bytes r;
     d_high_water_datagrams := x; d_high_water_bytes := d_high_water_bytes r;
     d_fault_activations := d_fault_activations r;
     d_injected_delay_nanos := d_injected_delay_nanos r;
     d_bandwidth_delay_nanos := d_bandwidth_delay_nanos r;
     d_last_generation := d_last_generation r;
     d_last_seed_namespace := d_last_seed_namespace r; d_rng_version := d_rng_version r |}.
Definition set_d_high_water_bytes (x : Z) (r : DatagramEvidence) : DatagramEvidence :=
  {| d_admitted_datagrams := d_admitted_datagrams r; d_admitted_bytes := d_admitted_bytes r;
     d_emitted_datagrams := d_emitted_datagrams r; d_emitted_bytes := d_emitted_bytes r;
     d_configured_loss := d_configured_loss r; d_queue_overflow := d_queue_overflow r;
     d_oversize_datagrams := d_oversize_datagrams r;
     d_duplicated_copies := d_duplicated_copies r;
     d_corrupted_candidates := d_corrupted_candidates r;
     d_reorder_activations := d_reorder_activations r;
     d_queued_datagrams := d_queued_datagrams r; d_queued_bytes := d_queued_bytes r;
     d_high_water_datagrams := d_high_water_datagrams r; d_high_water_bytes := x;
     d_fault_activations := d_fault_activations r;
     d_injected_delay_nanos := d_injected_delay_nanos r;
     d_bandwidth_delay_nanos := d_bandwidth_delay_nanos r;
     d_last_generation := d_last_generation r;
     d_last_seed_namespace := d_last_seed_namespace r; d_rng_version := d_rng_version r |}.
Definition set_d_fault_activations (x : list Z) (r : DatagramEvidence) : DatagramEvidence :=
  {| d_admitted_datagrams := d_admitted_datagrams r; d_admitted_bytes := d_admitted_bytes r;
     d_emitted_datagrams := d_emitted_datagrams r; d_emitted_bytes := d_emitted_bytes r;
     d_configured_loss := d_configured_loss r; d_queue_overflow := d_queue_overflow r;
     d_oversize_datagrams := d_oversize_datagrams r;
     d_duplicated_copies := d_duplicated_copies r;
     d_corrupted_candidates := d_corrupted_candidates r;
     d_reorder_activations := d_reorder_activations r;
     d_queued_datagrams := d_queued_datagrams r; d_queued_bytes := d_queued_bytes r;
     d_high_water_datagrams := d_high_water_datagrams r;
     d_high_water_bytes := d_high_water_bytes r; d_fault_activations := x;
     d_injected_delay_nanos := d_injected_delay_nanos r;
     d_bandwidth_delay_nanos := d_bandwidth_delay_nanos r;
     d_last_generation := d_last_generation r;
     d_last_seed_namespace := d_last_seed_namespace r; d_rng_version := d_rng_version r |}.
Definition set_d_injected_delay_nanos (x : Z) (r : DatagramEvidence) : DatagramEvidence :=
  {| d_admitted_datagrams := d_admitted_datagrams r; d_admitted_bytes := d_admitted_bytes r;
     d_emitted_datagrams := d_emitted_datagrams r; d_emitted_bytes := d_emitted_bytes r;
     d_configured_loss := d_configured_loss r; d_queue_overflow := d_queue_overflow r;
     d_oversize_datagrams := d_oversize_datagrams r;
     d_duplicated_copies := d_duplicated_copies r;
     d_corrupted_candidates := d_corrupted_candidates r;
     d_reorder_activations := d_reorder_activations r;
     d_queued_datagrams := d_queued_datagrams r; d_queued_bytes := d_queued_bytes r;
     d_high_water_datagrams := d_high_water_datagrams r;
     d_high_water_bytes := d_high_water_bytes r; d_fault_activations := d_fault_activations r;
     d_injected_delay_nanos := x; d_bandwidth_delay_nanos := d_bandwidth_delay_nanos r;
     d_last_generation := d_last_generation r;
     d_last_seed_namespace := d_last_seed_namespace r; d_rng_version := d_rng_version r |}.
Definition set_d_bandwidth_delay_nanos (x : Z) (r : DatagramEvidence) : DatagramEvidence :=
  {| d_admitted_datagrams := d_admitted_datagrams r; d_admitted_bytes := d_admitted_bytes r;
     d_emitted_datagrams := d_emitted_datagrams r; d_emitted_bytes := d_emitted_bytes r;
     d_configured_loss := d_configured_loss r; d_queue_overflow := d_queue_overflow r;
     d_oversize_datagrams := d_oversize_datagrams r;
     d_duplicated_copies := d_duplicated_copies r;
     d_corrupted_candidates := d_corrupted_candidates r;
     d_reorder_activations := d_reorder_activations r;
     d_queued_datagrams := d_queued_datagrams r; d_queued_bytes := d_queued_bytes r;
     d_high_water_datagrams := d_high_water_datagrams r;
     d_high_water_bytes := d_high_water_bytes r; d_fault_activations := d_fault_activations r;
     d_injected_delay_nanos := d_injected_delay_nanos r; d_bandwidth_delay_nanos := x;
     d_last_generation := d_last_generation r;
     d_last_seed_namespace := d_last_seed_namespace r; d_rng_version := d_rng_version r |}.
Definition set_d_last_generation (x : Z) (r : DatagramEvidence) : DatagramEvidence :=
  {| d_admitted_datagrams := d_admitted_datagrams r; d_admitted_bytes := d_admitted_bytes r;
     d_emitted_datagrams := d_emitted_datagrams r; d_emitted_bytes := d_emitted_bytes r;
     d_configured_loss := d_configured_loss r; d_queue_overflow := d_queue_overflow r;
     d_oversize_datagrams := d_oversize_datagrams r;
     d_duplicated_copies := d_duplicated_copies r;
     d_corrupted_candidates := d_corrupted_candidates r;
     d_reorder_activations := d_reorder_activations r;
     d_queued_datagrams := d_queued_datagrams r; d_queued_bytes := d_queued_bytes r;
     d_high_water_datagrams := d_high_water_datagrams r;
     d_high_water_bytes := d_high_water_bytes r; d_fault_activations := d_fault_activations r;
     d_injected_delay_nanos := d_injected_delay_nanos r;
     d_bandwidth_delay_nanos := d_bandwidth_delay_nanos r; d_last_generation := x;
     d_last_seed_namespace := d_last_seed_namespace r; d_rng_version := d_rng_version r |}.
Definition set_d_last_seed_namespace (x : Z) (r : DatagramEvidence) : DatagramEvidence :=
  {| d_admitted_datagrams := d_admitted_datagrams r; d_admitted_bytes := d_admitted_bytes r;
     d_emitted_datagrams := d_emitted_datagrams r; d_emitted_bytes := d_emitted_bytes r;
     d_configured_loss := d_configured_loss r; d_queue_overflow := d_queue_overflow r;
     d_oversize_datagrams := d_oversize_datagrams r;
     d_duplicated_copies := d_duplicated_copies r;
     d_corrupted_candidates := d_corrupted_candidates r;
     d_reorder_activations := d_reorder_activations r;
     d_queued_datagrams := d_queued_datagrams r; d_queued_bytes := d_queued_bytes r;
     d_high_water_datagrams := d_high_water_datagrams r;
     d_high_water_bytes := d_high_water_bytes r; d_fault_activations := d_fault_activations r;
     d_injected_delay_nanos := d_injected_delay_nanos r;
     d_bandwidth_delay_nanos := d_bandwidth_delay_nanos r;
     d_last_generation := d_last_generation r; d_last_seed_namespace := x;
     d_rng_version := d_rng_version r |}.

(** ** Candidates *)

Record DatagramScheduled := {
  ds_payload : bytes;
  ds_ingress_ordinal : Z;
  ds_copy_index : Z;
  ds_generation : Z
}.

Record Candidate := {
  cd_at : Instant;
  cd_ordinal : Z;
  cd_copy : Z;
  cd_payload : bytes;
  cd_generation : Z
}.

(** [Ord for Candidate]: lexicographic on [(at, ordinal, copy)]. *)
Definition key_lt (a b : Candidate) : Prop :=
  cd_at a < cd_at b
  \/ (cd_at a = cd_at b /\ (cd_ordinal a < cd_ordinal b
      \/ (cd_ordinal a = cd_ordinal b /\ cd_copy a < cd_copy b))).
Definition key_ltb (a b : Candidate) : bool :=
  (cd_at a <? cd_at b)
  || ((cd_at a =? cd_at b) && ((cd_ordinal a <? cd_ordinal b)
      || ((cd_ordinal a =? cd_ordinal b) && (cd_copy a <? cd_copy b)))).

(** [BinaryHeap::push]. *)
Fixpoint heap_push (c : Candidate) (q : list Candidate) : list Candidate :=
  match q with
  | [] => [c]
  | x :: q' => if key_ltb c x then c :: q else x :: heap_push c q'
  end.

(** ** The engine *)

Record Bucket := { bk_tokens : Z; bk_updated : Instant }.

Record DatagramDirectionEngine := {
  de_limits : DatagramQueueLimits;
  de_proxy : string;
  de_association : Z;
  de_direction : Direction;
  de_rng_version : RngVersion;
  de_ordinal : Z;
  de_queue : list Candidate;
  de_evidence : DatagramEvidence;
  de_buckets : gmap string Bucket;
  de_buckets_generation : Z
}.

Definition set_de_ordinal (x : Z) (r : DatagramDirectionEngine) : DatagramDirectionEngine :=
  {| de_limits := de_limits r; de_proxy := de_proxy r; de_association := de_association r;
     de_direction := de_direction r; de_rng_version := de_rng_version r; de_ordinal := x;
     de_queue := de_queue r; de_evidence := de_evidence r; de_buckets := de_buckets r;
     de_buckets_generation := de_buckets_generation r |}.
Definition set_de_queue (x : list Candidate) (r : DatagramDirectionEngine) : DatagramDirectionEngine :=
  {| de_limits := de_limits r; de_proxy := de_proxy r; de_association := de_association r;
     de_direction := de_direction r; de_rng_version := de_rng_version r;
     de_ordinal := de_ordinal r; de_queue := x; de_evidence := de_evidence r;
     de_buckets := de_buckets r; de_buckets_generation := de_buckets_generation r |}.
Definition set_de_evidence (x : DatagramEvidence) (r : DatagramDirectionEngine) : DatagramDirectionEngine :=
  {| de_limits := de_limits r; de_proxy := de_proxy r; de_association := de_association r;
     de_direction := de_direction r; de_rng_version := de_rng_version r;
     de_ordinal := de_ordinal r; de_queue := de_queue r; de_evidence := x;
     de_buckets := de_buckets r; de_buckets_generation := de_buckets_generation r |}.
Definition set_de_buckets (x : gmap string Bucket) (r : DatagramDirectionEngine) : DatagramDirectionEngine :=
  {| de_limits := de_limits r; de_proxy := de_proxy r; de_association := de_association r;
     de_direction := de_direction r; de_rng_version := de_rng_version r;
     de_ordinal := de_ordinal r; de_queue := de_queue r; de_evidence := de_evidence r;
     de_buckets := x; de_buckets_generation := de_buckets_generation r |}.
Definition set_de_buckets_generation (x : Z) (r : DatagramDirectionEngine) : DatagramDirectionEngine :=
  {| de_limits := de_limits r; de_proxy := de_proxy r; de_association := de_association r;
     de_direction := de_direction r; de_rng_version := de_rng_version r;
     de_ordinal := de_ordinal r; de_queue := de_queue r; de_evidence := de_evidence r;
     de_buckets := de_buckets r; de_buckets_generation := x |}.

Definition dengine_new (limits : DatagramQueueLimits) (proxy : string) (association : Z) (d : Direction)
    (v : RngVersion) : result DatagramDirectionEngine string :=
  let? limits := limits_validate limits in
  Ok {| de_limits := limits; de_proxy := proxy; de_association := association; de_direction := d;
        de_rng_version := v; de_ordinal := 0; de_queue := []; de_evidence := devidence_default;
        de_buckets := ∅; de_buckets_generation := 0 |}.

Inductive DatagramAdmission :=
| Consumed
| Immediate (items : list DatagramScheduled)
| QueuedAdmission.
