(* ===== verification/Datagram.v ===== *)
(** * The datagram engine ([crates/eggchaos-core/src/datagram.rs])

    Admission, the fault stages, bandwidth pacing and the release of due
    candidates.  [now + delay] on [Instant] panics past the largest instant; the
    model adds without a bound. *)

From Stdlib Require Import Bool SpecFloat.
From stdpp Require Import base list gmap strings.
From S2P Require Import Prelude Rng Float64 Plan Policy Env DatagramPlan DatagramState.
Import Live.

(** ** Delays *)

(** [Duration::from_secs_f64], nearest nanosecond with ties to even. *)
Definition round_half_even (num den : Z) : Z :=
  let q := num / den in
  let r := num mod den in
  if 2 * r <? den then q else if den <? 2 * r then q + 1 else if Z.even q then q else q + 1.
Definition duration_from_secs_f64 (x : f64) : Duration :=
  match x with
  | S754_finite false m e =>
      if 0 <=? e then Zpos m * 2 ^ e * NANOS_PER_SEC
      else round_half_even (Zpos m * NANOS_PER_SEC) (2 ^ (- e))
  | _ => 0
  end.

Definition jittered (delay jitter : Duration) (rng : DeterministicRng) : Duration * DeterministicRng :=
  if jitter =? 0 then (delay, rng)
  else
    let range := Z.min jitter U64_MAX in
    let '(drawn, rng) := below rng (sat_add64 (sat_mul64 range 2) 1) in
    let total := delay + (drawn - range) in
    (Z.min (Z.max total 0) U64_MAX, rng).

Definition fault_delay (k : DatagramFaultKind) (rng : DeterministicRng) : Duration * DeterministicRng :=
  match k with
  | DDelay delay jitter => jittered delay jitter rng
  | DReorder hold => (hold, rng)
  | DBandwidth rate _ => (duration_from_secs_f64 (SFdiv f64_prec f64_emax f64_one (f64_of_Z rate)), rng)
  | _ => (0, rng)
  end.

(** ** Corruption *)

Definition swap (i j : nat) (v : bytes) : bytes :=
  match v !! i, v !! j with
  | Some a, Some b => <[j := a]> (<[i := b]> v)
  | _, _ => v
  end.

(** Iterations [i .. i + n) of the corruption loop. *)
Fixpoint corrupt_loop (n : nat) (i : nat) (v : bytes) (rng : DeterministicRng) : bytes * DeterministicRng :=
  match n with
  | O => (v, rng)
  | S n' =>
      let '(offset, rng) := below rng (zlen v - Z.of_nat i) in
      let v := swap i (i + Z.to_nat offset) v in
      let '(bit, rng) := below rng 8 in
      let v := alter (fun b => Z.lxor b (Z.shiftl 1 bit)) i v in
      corrupt_loop n' (S i) v rng
  end.
Definition corrupt (count : Z) (payload : bytes) (rng : DeterministicRng) : bytes :=
  (corrupt_loop (Z.to_nat (Z.min count (zlen payload))) 0 payload rng).1.

(** ** Evidence updates *)

Section Evidence.
Definition with_evidence (f : DatagramEvidence -> DatagramEvidence) (e : DatagramDirectionEngine)
    : DatagramDirectionEngine := set_de_evidence (f (de_evidence e)) e.
Definition note_admitted (size : Z) (v : DatagramEvidence) : DatagramEvidence :=
  set_d_admitted_bytes (sat_add64 (d_admitted_bytes v) size)
    (set_d_admitted_datagrams (sat_add64 (d_admitted_datagrams v) 1) v).
Definition note_overflow (v : DatagramEvidence) : DatagramEvidence :=
  set_d_queue_overflow (sat_add64 (d_queue_overflow v) 1) v.
Definition note_activation (i : nat) (v : DatagramEvidence) : DatagramEvidence :=
  set_d_fault_activations (alter (fun n => sat_add64 n 1) i (d_fault_activations v)) v.
(** The four queue counters of [enqueue] and [emit_immediate]. *)
Definition note_queued (size : Z) (v : DatagramEvidence) : DatagramEvidence :=
  let v := set_d_queued_datagrams (sat_add64 (d_queued_datagrams v) 1) v in
  let v := set_d_queued_bytes (sat_add64 (d_queued_bytes v) size) v in
  let v := set_d_high_water_datagrams (Z.max (d_high_water_datagrams v) (d_queued_datagrams v)) v in
  set_d_high_water_bytes (Z.max (d_high_water_bytes v) (d_queued_bytes v)) v.
(** The four counters of an emission. *)
Definition note_emitted (size : Z) (v : DatagramEvidence) : DatagramEvidence :=
  let v := set_d_queued_datagrams (sat_sub (d_queued_datagrams v) 1) v in
  let v := set_d_queued_bytes (sat_sub (d_queued_bytes v) size) v in
  let v := set_d_emitted_datagrams (sat_add64 (d_emitted_datagrams v) 1) v in
  set_d_emitted_bytes (sat_add64 (d_emitted_bytes v) size) v.
Definition note_delay (k : DatagramFaultKind) (added : Duration) (v : DatagramEvidence) : DatagramEvidence :=
  match k with
  | DBandwidth _ _ => set_d_bandwidth_delay_nanos (sat_add128 (d_bandwidth_delay_nanos v) added) v
  | _ => set_d_injected_delay_nanos (sat_add128 (d_injected_delay_nanos v) added) v
  end.
End Evidence.

(** ** Scheduling *)

Definition fits (size : Z) (e : DatagramDirectionEngine) : bool :=
  (zlen (de_queue e) <? max_queued_datagrams (de_limits e))
  && (sat_add64 (d_queued_bytes (de_evidence e)) size <=? max_queued_bytes (de_limits e)).
Definition fits_all (datagrams size : Z) (e : DatagramDirectionEngine) : bool :=
  (sat_add64 (zlen (de_queue e)) datagrams <=? max_queued_datagrams (de_limits e))
  && (sat_add64 (d_queued_bytes (de_evidence e)) size <=? max_queued_bytes (de_limits e)).

Definition enqueue (at_ : Instant) (ordinal copy : Z) (payload : bytes) (generation : Z)
    (e : DatagramDirectionEngine) : DatagramDirectionEngine :=
  let e := with_evidence (note_queued (zlen payload)) e in
  set_de_queue (heap_push {| cd_at := at_; cd_ordinal := ordinal; cd_copy := copy; cd_payload := payload;
                             cd_generation := generation |} (de_queue e)) e.

Definition emit_immediate (ordinal : Z) (payload : bytes) (generation copy : Z) (e : DatagramDirectionEngine)
    : DatagramScheduled * DatagramDirectionEngine :=
  ({| ds_payload := payload; ds_ingress_ordinal := ordinal; ds_copy_index := copy; ds_generation := generation |},
   with_evidence (note_emitted (zlen payload)) (with_evidence (note_queued (zlen payload)) e)).

Definition scheduled_of (c : Candidate) : DatagramScheduled :=
  {| ds_payload := cd_payload c; ds_ingress_ordinal := cd_ordinal c; ds_copy_index := cd_copy c;
     ds_generation := cd_generation c |}.

(** The [while] loop of [take_ready], on the heap's elements in pop order. *)
Fixpoint take_ready_loop (now : Instant) (q : list Candidate) (v : DatagramEvidence)
    : list DatagramScheduled * list Candidate * DatagramEvidence :=
  match q with
  | [] => ([], [], v)
  | c :: q' =>
      if cd_at c <=? now then
        let '(out, rest, v) := take_ready_loop now q' (note_emitted (zlen (cd_payload c)) v) in
        (scheduled_of c :: out, rest, v)
      else ([], q, v)
  end.
Definition take_ready (now : Instant) (e : DatagramDirectionEngine)
    : list DatagramScheduled * DatagramDirectionEngine :=
  let '(out, rest, v) := take_ready_loop now (de_queue e) (de_evidence e) in
  (out, set_de_queue rest (set_de_evidence v e)).

Definition next_deadline (e : DatagramDirectionEngine) : option Instant := cd_at <$> head (de_queue e).
Definition discard_all (e : DatagramDirectionEngine) : Z * DatagramDirectionEngine :=
  (zlen (de_queue e),
   set_de_queue [] (with_evidence (fun v => set_d_queued_bytes 0 (set_d_queued_datagrams 0 v)) e)).

(** ** Bandwidth *)

Definition bucket_pace (now : Instant) (size rate burst : Z) (b : Bucket) : Duration * Bucket :=
  let virtual_now := Z.max now (bk_updated b) in
  let elapsed := saturating_duration_since virtual_now (bk_updated b) in
  let refill := sat_mul128 elapsed rate / 1000000000 in
  let tokens := Z.min (sat_add64 (bk_tokens b) (Z.min refill U64_MAX)) burst in
  if size <=? tokens then
    (saturating_duration_since virtual_now now, {| bk_tokens := tokens - size; bk_updated := virtual_now |})
  else
    let deficit := size - tokens in
    let nanos := sat_add128 (sat_mul128 deficit 1000000000) (rate - 1) / rate in
    let service := Z.min nanos U64_MAX in
    (duration_saturating_add (saturating_duration_since virtual_now now) service,
     {| bk_tokens := 0;
        bk_updated := match instant_checked_add virtual_now service with Some t => t | None => virtual_now end |}).

Definition bandwidth_delay (id : string) (now : Instant) (size rate burst : Z) (e : DatagramDirectionEngine)
    : Duration * DatagramDirectionEngine :=
  let bucket := default {| bk_tokens := burst; bk_updated := now |} (de_buckets e !! id) in
  let '(delay, bucket) := bucket_pace now size rate burst bucket in
  (delay, set_de_buckets (<[id := bucket]> (de_buckets e)) e).

(** ** Stages *)

(** A candidate inside [admit]: copy index, payload, accumulated delay. *)
Definition Draft : Type := Z * bytes * Duration.

Definition stage_seed (policy : PublishedDatagramPolicy) (ordinal copy stage : Z) (fault : DatagramFaultSpec)
    (e : DatagramDirectionEngine) : Z :=
  Z.lxor
    (derive_datagram_seed (Z.lxor (seed_namespace policy) copy) (de_proxy e)
       (Z.lxor (Z.lxor (de_association e) (rotl64 ordinal 9)) stage) (de_direction e) (dg_id fault))
    (match de_rng_version e with V1 => 0 end).

(** The [for _ in 1..=additional_copies] loop. *)
Fixpoint duplicate_loop (n : nat) (payload : bytes) (delay : Duration) (next_copy : Z) (v : DatagramEvidence)
    : list Draft * Z * DatagramEvidence :=
  match n with
  | O => ([], next_copy, v)
  | S n' =>
      let v := set_d_duplicated_copies (sat_add64 (d_duplicated_copies v) 1) v in
      let '(rest, next, v) := duplicate_loop n' payload delay (sat_add U16_MAX next_copy 1) v in
      ((next_copy, payload, delay) :: rest, next, v)
  end.

(** The effect of an activated stage on one candidate. *)
Definition apply_fault (now : Instant) (fault : DatagramFaultSpec) (rng : DeterministicRng) (draft : Draft)
    (next_copy : Z) (e : DatagramDirectionEngine) : list Draft * Z * DatagramDirectionEngine :=
  let '(copy, payload, delay) := draft in
  match dg_kind fault with
  | DLoss =>
      ([], next_copy,
       with_evidence (fun v => set_d_configured_loss (sat_add64 (d_configured_loss v) 1) v) e)
  | DDuplicate n =>
      let '(copies, next_copy, v) := duplicate_loop (Z.to_nat n) payload delay next_copy (de_evidence e) in
      (draft :: copies, next_copy, set_de_evidence v e)
  | DPayloadCorrupt count =>
      match payload with
      | [] => ([draft], next_copy, e)
      | _ =>
          ([(copy, corrupt count payload rng, delay)], next_copy,
           with_evidence (fun v => set_d_corrupted_candidates (sat_add64 (d_corrupted_candidates v) 1) v) e)
      end
  | kind =>
      let '(added, e) :=
        match kind with
        | DBandwidth rate burst => bandwidth_delay (dg_id fault) now (zlen payload) rate burst e
        | _ => ((fault_delay kind rng).1, e)
        end in
      let e := with_evidence (note_delay kind added) e in
      let e := match kind with
               | DReorder _ =>
                   with_evidence (fun v => set_d_reorder_activations (sat_add64 (d_reorder_activations v) 1) v) e
               | _ => e
               end in
      ([(copy, payload, duration_saturating_add delay added)], next_copy, e)
  end.

Definition run_candidate (now : Instant) (policy : PublishedDatagramPolicy) (ordinal stage : Z)
    (fault : DatagramFaultSpec) (draft : Draft) (next_copy : Z) (e : DatagramDirectionEngine)
    : list Draft * Z * DatagramDirectionEngine :=
  let rng := rng_new (stage_seed policy ordinal draft.1.1 stage fault e) in
  let '(active, rng) := bernoulli rng (dg_probability fault) in
  if negb active then ([draft], next_copy, e)
  else apply_fault now fault rng draft next_copy
         (with_evidence (note_activation (fault_type_index (dg_kind fault))) e).

Fixpoint run_stage (now : Instant) (policy : PublishedDatagramPolicy) (ordinal stage : Z)
    (fault : DatagramFaultSpec) (drafts : list Draft) (next_copy : Z) (e : DatagramDirectionEngine)
    : list Draft * Z * DatagramDirectionEngine :=
  match drafts with
  | [] => ([], next_copy, e)
  | draft :: rest =>
      let '(out, next_copy, e) := run_candidate now policy ordinal stage fault draft next_copy e in
      let '(more, next_copy, e) := run_stage now policy ordinal stage fault rest next_copy e in
      (out ++ more, next_copy, e)
  end.

Fixpoint run_stages (now : Instant) (policy : PublishedDatagramPolicy) (ordinal stage : Z)
    (fs : list DatagramFaultSpec) (drafts : list Draft) (next_copy : Z) (e : DatagramDirectionEngine)
    : list Draft * Z * DatagramDirectionEngine :=
  match fs with
  | [] => (drafts, next_copy, e)
  | fault :: rest =>
      let '(drafts, next_copy, e) := run_stage now policy ordinal stage fault drafts next_copy e in
      run_stages now policy ordinal (stage + 1) rest drafts next_copy e
  end.

(** ** Admission *)

Definition refresh_buckets (policy : PublishedDatagramPolicy) (e : DatagramDirectionEngine)
    : DatagramDirectionEngine :=
  if negb (generation policy =? de_buckets_generation e) then
    let live := map dg_id (dp_faults (pub_plan policy)) in
    set_de_buckets_generation (generation policy)
      (set_de_buckets (filter (fun p => p.1 ∈ live) (de_buckets e)) e)
  else e.

(** [try_fold(checked_add)] over the payload sizes. *)
Definition total_size (drafts : list Draft) : option Z :=
  foldl (fun acc d => match acc with
                      | Some total => if total + zlen d.1.2 <=? U64_MAX then Some (total + zlen d.1.2) else None
                      | None => None end) (Some 0) drafts.

Fixpoint emit_all (ordinal generation : Z) (drafts : list Draft) (e : DatagramDirectionEngine)
    : list DatagramScheduled * DatagramDirectionEngine :=
  match drafts with
  | [] => ([], e)
  | (copy, payload, _) :: rest =>
      let '(item, e) := emit_immediate ordinal payload generation copy e in
      let '(items, e) := emit_all ordinal generation rest e in
      (item :: items, e)
  end.

(** [out.sort_by_key(..)], a stable sort. *)
Definition item_ltb (a b : DatagramScheduled) : bool :=
  (ds_ingress_ordinal a <? ds_ingress_ordinal b)
  || ((ds_ingress_ordinal a =? ds_ingress_ordinal b) && (ds_copy_index a <? ds_copy_index b)).
Fixpoint sorted_insert (x : DatagramScheduled) (l : list DatagramScheduled) : list DatagramScheduled :=
  match l with
  | [] => [x]
  | y :: l' => if item_ltb y x then y :: sorted_insert x l' else x :: l
  end.
Definition sort_items (l : list DatagramScheduled) : list DatagramScheduled := foldr sorted_insert [] l.

Fixpoint queue_all (now : Instant) (ordinal generation : Z) (drafts : list Draft) (queued_any : bool)
    (e : DatagramDirectionEngine) : bool * DatagramDirectionEngine :=
  match drafts with
  | [] => (queued_any, e)
  | (copy, payload, delay) :: rest =>
      if (max_queued_datagrams (de_limits e) <=? zlen (de_queue e))
         || (max_queued_bytes (de_limits e) <? sat_add64 (d_queued_bytes (de_evidence e)) (zlen payload))
      then queue_all now ordinal generation rest queued_any (with_evidence note_overflow e)
      else queue_all now ordinal generation rest true (enqueue (now + delay) ordinal copy payload generation e)
  end.

(** The empty-plan branch. *)
Definition admit_plain (now : Instant) (payload : bytes) (ordinal generation : Z) (e : DatagramDirectionEngine)
    : DatagramAdmission * DatagramDirectionEngine :=
  if match de_queue e with [] => true | _ => false end && fits (zlen payload) e then
    let '(item, e) := emit_immediate ordinal payload generation 0 e in (Immediate [item], e)
  else if fits (zlen payload) e then (QueuedAdmission, enqueue now ordinal 0 payload generation e)
  else (Consumed, with_evidence note_overflow e).

(** The disposition of the surviving candidates. *)
Definition dispose (now : Instant) (ordinal generation : Z) (drafts : list Draft) (e : DatagramDirectionEngine)
    : DatagramAdmission * DatagramDirectionEngine :=
  let immediate :=
    match drafts with [] => false | _ => true end
    && forallb (fun d => d.2 =? 0) drafts
    && match de_queue e with [] => true | _ => false end
    && match total_size drafts with Some total => fits_all (zlen drafts) total e | None => false end in
  if immediate then
    let '(out, e) := emit_all ordinal generation drafts e in (Immediate (sort_items out), e)
  else match drafts with
  | [] => (Consumed, e)
  | _ =>
      let '(queued_any, e) := queue_all now ordinal generation drafts false e in
      (if queued_any then QueuedAdmission else Consumed, e)
  end.

(** [DatagramDirectionEngine::admit]. *)
Definition admit_datagram (now : Instant) (payload : bytes) (policy : PublishedDatagramPolicy) (e : DatagramDirectionEngine)
    : DatagramAdmission * DatagramDirectionEngine :=
  let ordinal := de_ordinal e in
  let e := set_de_ordinal (sat_add64 (de_ordinal e) 1) e in
  let e := with_evidence (note_admitted (zlen payload)) e in
  if max_datagram_bytes (de_limits e) <? zlen payload then
    (Consumed, with_evidence (fun v => set_d_oversize_datagrams (sat_add64 (d_oversize_datagrams v) 1) v) e)
  else
    let e := with_evidence (fun v => set_d_last_seed_namespace (seed_namespace policy)
                                       (set_d_last_generation (generation policy) v)) e in
    let e := refresh_buckets policy e in
    match dp_faults (pub_plan policy) with
    | [] => admit_plain now payload ordinal (generation policy) e
    | fs =>
        let '(drafts, _, e) := run_stages now policy ordinal 0 fs [(0, payload, 0)] 1 e in
        dispose now ordinal (generation policy) drafts e
    end.
