(* ===== verification/DatagramProps.v ===== *)
(** * Correctness of the datagram engine

    The queue invariant and the conservation law over runs, the order of
    release, the fate of a datagram, and what immediate emission stands for. *)

From Stdlib Require Import Bool.
From stdpp Require Import base list gmap strings sorting.
From S2P Require Import Prelude Rng Float64 Plan Policy Env DatagramPlan DatagramState Datagram.
Import Live.

(** ** The order of the heap *)

Lemma key_ltb_spec a b : if key_ltb a b then key_lt a b else ~ key_lt a b.
Proof.
  unfold key_lt, key_ltb.
  destruct (Z.ltb_spec (cd_at a) (cd_at b)); cbn [orb]; [lia|].
  destruct (Z.eqb_spec (cd_at a) (cd_at b)); cbn [andb]; [|lia].
  destruct (Z.ltb_spec (cd_ordinal a) (cd_ordinal b)); cbn [orb]; [lia|].
  destruct (Z.eqb_spec (cd_ordinal a) (cd_ordinal b)); cbn [andb]; [|lia].
  destruct (Z.ltb_spec (cd_copy a) (cd_copy b)); lia.
Qed.

#[export] Instance key_lt_trans : Transitive key_lt.
Proof. intros a b c. unfold key_lt. lia. Qed.
#[export] Instance key_lt_antisym : AntiSymm (=) key_lt.
Proof. intros a b. unfold key_lt. lia. Qed.

Definition same_key (a b : Candidate) : Prop :=
  cd_at a = cd_at b /\ cd_ordinal a = cd_ordinal b /\ cd_copy a = cd_copy b.
Lemma key_lt_total a b : key_lt a b \/ same_key a b \/ key_lt b a.
Proof. unfold key_lt, same_key. lia. Qed.

Lemma heap_push_perm c q : heap_push c q ≡ₚ c :: q.
Proof.
  induction q as [|x q IH]; cbn; [done|]. destruct (key_ltb c x); [done|]. rewrite IH. by constructor.
Qed.

Lemma heap_push_sorted c q : StronglySorted key_lt q -> Forall (fun x => ~ same_key c x) q ->
  StronglySorted key_lt (heap_push c q).
Proof.
  induction 1 as [|x q Hs IH Hx]; intros Hn; cbn; [by repeat constructor|].
  apply Forall_cons in Hn as [Hn1 Hn]. pose proof (key_ltb_spec c x) as L. destruct (key_ltb c x).
  - constructor; [by constructor|]. constructor; [done|].
    eapply Forall_impl; [exact Hx|]. intros y Hy. by apply (key_lt_trans c x y).
  - constructor; [by apply IH|]. rewrite (heap_push_perm c q). constructor; [|done].
    destruct (key_lt_total c x) as [?|[?|?]]; done.
Qed.

(** ** The invariant *)

Definition queue_size (q : list Candidate) : Z := zsum (map (fun c => zlen (cd_payload c)) q).

Record dengine_ok (e : DatagramDirectionEngine) : Prop := {
  do_limits : limits_ok (de_limits e);
  do_ordinal : 0 <= de_ordinal e <= U64_MAX;
  do_sorted : de_ordinal e < U64_MAX -> StronglySorted key_lt (de_queue e);
  do_past : de_ordinal e < U64_MAX -> Forall (fun c => 0 <= cd_ordinal c < de_ordinal e) (de_queue e);
  do_sizes : Forall (fun c => zlen (cd_payload c) <= max_datagram_bytes (de_limits e)) (de_queue e);
  do_datagrams : d_queued_datagrams (de_evidence e) = zlen (de_queue e);
  do_bytes : d_queued_bytes (de_evidence e) = queue_size (de_queue e);
  do_room : zlen (de_queue e) <= max_queued_datagrams (de_limits e)
    /\ queue_size (de_queue e) <= max_queued_bytes (de_limits e);
  do_high : zlen (de_queue e) <= d_high_water_datagrams (de_evidence e) <= max_queued_datagrams (de_limits e)
    /\ queue_size (de_queue e) <= d_high_water_bytes (de_evidence e) <= max_queued_bytes (de_limits e)
}.

Lemma queue_size_nonneg q : 0 <= queue_size q.
Proof. apply zsum_nonneg, Forall_forall. intros x (c & -> & _)%list_elem_of_fmap. apply zlen_nonneg. Qed.
Lemma queue_size_perm q q' : q ≡ₚ q' -> queue_size q = queue_size q'.
Proof. unfold queue_size, zsum. induction 1; cbn; lia. Qed.
Lemma queue_size_push c q : queue_size (heap_push c q) = zlen (cd_payload c) + queue_size q.
Proof. by rewrite (queue_size_perm _ _ (heap_push_perm c q)). Qed.
Lemma zlen_push c q : zlen (heap_push c q) = 1 + zlen q.
Proof. unfold zlen. rewrite (heap_push_perm c q). cbn. lia. Qed.

(** What the stages of one admission leave alone. *)
Definition queue_frame (e : DatagramDirectionEngine) :=
  (de_limits e, de_ordinal e, de_queue e, d_queued_datagrams (de_evidence e), d_queued_bytes (de_evidence e),
   (d_high_water_datagrams (de_evidence e), d_high_water_bytes (de_evidence e))).
Definition identity (e : DatagramDirectionEngine) :=
  (de_proxy e, de_association e, de_direction e, de_rng_version e).

Lemma dengine_ok_frame e e' : queue_frame e' = queue_frame e -> dengine_ok e -> dengine_ok e'.
Proof.
  unfold queue_frame. intros [= E1 E2 E3 E4 E5 E6 E7] []. split; rewrite ?E1, ?E2, ?E3, ?E4, ?E5, ?E6, ?E7; done.
Qed.

(** ** Conservation

    Every datagram admitted and every copy made is configured loss, oversize,
    overflow, emitted, queued, discarded by [discard_all] ([gone]) or, inside an
    admission, still being processed ([drafts]). *)
Record conserved (drafts gone : Z) (e : DatagramDirectionEngine) : Prop := {
  cv_range : 0 <= d_admitted_datagrams (de_evidence e) <= U64_MAX
    /\ 0 <= d_duplicated_copies (de_evidence e) <= U64_MAX /\ 0 <= d_configured_loss (de_evidence e)
    /\ 0 <= d_oversize_datagrams (de_evidence e) /\ 0 <= d_queue_overflow (de_evidence e)
    /\ 0 <= d_emitted_datagrams (de_evidence e) <= U64_MAX;
  cv_balance : d_admitted_datagrams (de_evidence e) + d_duplicated_copies (de_evidence e) < U64_MAX ->
    d_admitted_datagrams (de_evidence e) + d_duplicated_copies (de_evidence e)
    = d_configured_loss (de_evidence e) + d_oversize_datagrams (de_evidence e)
      + d_queue_overflow (de_evidence e) + d_emitted_datagrams (de_evidence e)
      + zlen (de_queue e) + drafts + gone
}.

(** The counters of the law, for steps that touch none of them. *)
Definition ledger (e : DatagramDirectionEngine) :=
  (d_admitted_datagrams (de_evidence e), d_duplicated_copies (de_evidence e), d_configured_loss (de_evidence e),
   d_oversize_datagrams (de_evidence e), d_queue_overflow (de_evidence e), d_emitted_datagrams (de_evidence e),
   de_queue e).
Lemma conserved_ledger drafts gone e e' : ledger e' = ledger e -> conserved drafts gone e -> conserved drafts gone e'.
Proof.
  unfold ledger. intros [= E1 E2 E3 E4 E5 E6 E7] []. split; rewrite ?E1, ?E2, ?E3, ?E4, ?E5, ?E6, ?E7; done.
Qed.

Ltac conserve := intros [? ?]; split; cbn in *; unfold sat_add, U64_MAX in *; conjs; try lia.

Lemma conserved_loss drafts gone e : 1 <= drafts -> 0 <= gone -> conserved drafts gone e ->
  conserved (drafts - 1) gone
    (with_evidence (fun v => set_d_configured_loss (sat_add64 (d_configured_loss v) 1) v) e).
Proof. intros H1 H2. pose proof (zlen_nonneg (de_queue e)). conserve. Qed.
Lemma conserved_overflow drafts gone e : 1 <= drafts -> 0 <= gone -> conserved drafts gone e ->
  conserved (drafts - 1) gone (with_evidence note_overflow e).
Proof. intros H1 H2. pose proof (zlen_nonneg (de_queue e)). conserve. Qed.
Lemma conserved_oversize drafts gone e : 1 <= drafts -> 0 <= gone -> conserved drafts gone e ->
  conserved (drafts - 1) gone
    (with_evidence (fun v => set_d_oversize_datagrams (sat_add64 (d_oversize_datagrams v) 1) v) e).
Proof. intros H1 H2. pose proof (zlen_nonneg (de_queue e)). conserve. Qed.
Lemma conserved_copy drafts gone e : 0 <= drafts -> 0 <= gone -> conserved drafts gone e ->
  conserved (drafts + 1) gone
    (with_evidence (fun v => set_d_duplicated_copies (sat_add64 (d_duplicated_copies v) 1) v) e).
Proof. intros H1 H2. pose proof (zlen_nonneg (de_queue e)). conserve. Qed.
Lemma conserved_admitted gone size e : 0 <= gone -> conserved 0 gone e ->
  conserved 1 gone (with_evidence (note_admitted size) e).
Proof. intros H2. pose proof (zlen_nonneg (de_queue e)). conserve. Qed.
Lemma conserved_enqueue drafts gone a o c p g e : 1 <= drafts -> 0 <= gone -> conserved drafts gone e ->
  conserved (drafts - 1) gone (enqueue a o c p g e).
Proof.
  intros H1 H2 [R B]. pose proof (zlen_nonneg (de_queue e)). split; cbn in *; [done|].
  rewrite zlen_push. lia.
Qed.
Lemma conserved_emit drafts gone o p g c e : 1 <= drafts -> 0 <= gone -> conserved drafts gone e ->
  conserved (drafts - 1) gone (emit_immediate o p g c e).2.
Proof. intros H1 H2. pose proof (zlen_nonneg (de_queue e)). conserve. Qed.

(** ** Stages *)

Definition copies (l : list Draft) : list Z := map (fun d => d.1.1) l.
Definition payloads_fit (m : Z) (l : list Draft) : Prop := Forall (fun d => zlen d.1.2 <= m) l.

Lemma duplicate_loop_spec n payload delay : forall next v out next' v',
  duplicate_loop n payload delay next v = (out, next', v') ->
  zlen out = Z.of_nat n
  /\ Forall (fun d => d.1.2 = payload) out
  /\ (forall e, set_de_evidence v' e =
        Nat.iter n (with_evidence (fun v => set_d_duplicated_copies (sat_add64 (d_duplicated_copies v) 1) v))
          (set_de_evidence v e))
  /\ (next + Z.of_nat n <= U16_MAX -> next' = next + Z.of_nat n /\ NoDup (copies out)
      /\ forall x, x ∈ copies out -> next <= x < next').
Proof.
  induction n as [|n IH]; intros next v out next' v' H; cbn [duplicate_loop] in H.
  { injection H as <- <- <-. split; [done|]. split; [done|]. split; [done|]. intros _. split; [lia|].
    split; [constructor|]. intros x Hx. by apply not_elem_of_nil in Hx. }
  destruct (duplicate_loop n payload delay (sat_add U16_MAX next 1) _) as [[rest nx] vx] eqn:E.
  injection H as <- <- <-. apply IH in E as (E1 & E2 & E3 & E4).
  split; [rewrite zlen_cons, E1; lia|]. split; [by constructor|]. split.
  - intros e. rewrite E3. rewrite Nat.iter_succ_r. done.
  - intros Hb. assert (Es : sat_add U16_MAX next 1 = next + 1) by (unfold sat_add; lia). rewrite Es in E4.
    destruct (E4 ltac:(lia)) as (-> & N & I). split; [lia|]. cbn [copies map]. split.
    + constructor; [|done]. intros Hx. specialize (I next Hx). lia.
    + intros x [->|Hx]%elem_of_cons; [cbn; lia|]. specialize (I x Hx). lia.
Qed.

Lemma conserved_copies n gone : 0 <= gone -> forall drafts e, 0 <= drafts -> conserved drafts gone e ->
  conserved (drafts + Z.of_nat n) gone
    (Nat.iter n (with_evidence (fun v => set_d_duplicated_copies (sat_add64 (d_duplicated_copies v) 1) v)) e).
Proof.
  intros Hg. induction n as [|n IH]; intros drafts e Hd H; [by rewrite Z.add_0_r|]. cbn [Nat.iter nat_rect].
  replace (drafts + Z.of_nat (S n)) with (drafts + Z.of_nat n + 1) by lia.
  apply conserved_copy; [lia|done|]. by apply IH.
Qed.
Lemma iter_frame n f e : (forall e, queue_frame (f e) = queue_frame e /\ identity (f e) = identity e) ->
  queue_frame (Nat.iter n f e) = queue_frame e /\ identity (Nat.iter n f e) = identity e.
Proof.
  intros Hf. induction n as [|n [IH1 IH2]]; [done|]. destruct (Hf (Nat.iter n f e)) as [H1 H2].
  change (Nat.iter (S n) f e) with (f (Nat.iter n f e)). rewrite H1, H2. done.
Qed.

Lemma set_evidence_id e : set_de_evidence (de_evidence e) e = e.
Proof. by destruct e. Qed.

Lemma zlen_insert {A} i (x : A) l : zlen (<[i := x]> l) = zlen l.
Proof. unfold zlen. by rewrite length_insert. Qed.
Lemma swap_length i j v : zlen (swap i j v) = zlen v.
Proof. unfold swap. destruct (v !! i), (v !! j); by rewrite ?zlen_insert. Qed.
Lemma corrupt_loop_length n : forall i v rng, zlen (corrupt_loop n i v rng).1 = zlen v.
Proof.
  induction n as [|n IH]; intros i v rng; cbn [corrupt_loop]; [done|].
  destruct (below rng _) as [o r1]. destruct (below r1 8) as [bit r2]. rewrite IH. unfold zlen.
  rewrite length_alter. exact (swap_length _ _ _).
Qed.
Lemma corrupt_length count payload rng : zlen (corrupt count payload rng) = zlen payload.
Proof. apply corrupt_loop_length. Qed.

(** One candidate through one stage. *)
Record candidate_effect (k : DatagramFaultKind) (draft : Draft) (next next' : Z) (out : list Draft)
    (e e' : DatagramDirectionEngine) : Prop := {
  ce_frame : queue_frame e' = queue_frame e /\ identity e' = identity e;
  ce_conserved : forall others gone, 0 <= others -> 0 <= gone ->
    conserved (others + 1) gone e -> conserved (others + zlen out) gone e';
  ce_sizes : Forall (fun d => zlen d.1.2 = zlen draft.1.2) out;
  ce_count : zlen out <= stage_factor k;
  ce_copies : next + (stage_factor k - 1) <= U16_MAX ->
    next <= next' <= next + (stage_factor k - 1)
    /\ (draft.1.1 < next -> NoDup (copies out))
    /\ forall x, x ∈ copies out -> x = draft.1.1 \/ next <= x < next'
}.

Lemma candidate_keeps k draft next out e e' : out = [draft] \/ (exists p d, out = [(draft.1.1, p, d)] /\ zlen p = zlen draft.1.2) ->
  queue_frame e' = queue_frame e -> identity e' = identity e -> ledger e' = ledger e -> 1 <= stage_factor k ->
  candidate_effect k draft next next out e e'.
Proof.
  intros Ho Hf Hi Hl Hk.
  assert (Hout : exists p d, out = [(draft.1.1, p, d)] /\ zlen p = zlen draft.1.2).
  { destruct Ho as [->|?]; [|done]. destruct draft as [[c p] d]. by exists p, d. }
  destruct Hout as (p & d & -> & Hp). split; try done.
  - intros others gone _ _. by apply conserved_ledger.
  - by repeat constructor.
  - intros _. split; [lia|]. cbn. split; [intros _; apply NoDup_singleton|].
    intros x Hx%list_elem_of_singleton. by left.
Qed.

Lemma apply_fault_effect now fault rng draft next e out next' e' : dkind_typed (dg_kind fault) ->
  apply_fault now fault rng draft next e = (out, next', e') ->
  candidate_effect (dg_kind fault) draft next next' out e e'.
Proof.
  intros Ht. destruct draft as [[copy payload] delay]. unfold apply_fault.
  destruct (dg_kind fault) as [d j| |n|hold|count|rate burst] eqn:Ek; cbn [dkind_typed] in Ht; cbv zeta.
  - intros [= <- <- <-]. apply candidate_keeps; try done. right. by do 2 eexists.
  - intros [= <- <- <-]. split; try done.
    + intros others gone H1 H2 Hc. change (zlen []) with 0. replace (others + 0) with (others + 1 - 1) by lia.
      apply conserved_loss; [lia|done|done].
    + cbn. intros _. split; [lia|]. split; [constructor|]. intros x Hx. by apply not_elem_of_nil in Hx.
  - destruct (duplicate_loop _ _ _ _ _) as [[cs nx] v] eqn:E. intros [= <- <- <-].
    apply duplicate_loop_spec in E as (E1 & E2 & E3 & E4). rewrite Z2Nat.id in * by lia.
    specialize (E3 e). rewrite set_evidence_id in E3. rewrite E3. split.
    + by apply iter_frame.
    + intros others gone H1 H2 Hc. rewrite zlen_cons, E1. rewrite Z.add_assoc.
      rewrite <- (Z2Nat.id n) at 1 by lia. apply conserved_copies; [done|lia|done].
    + constructor; [done|]. eapply Forall_impl; [exact E2|]. by intros x ->.
    + rewrite zlen_cons, E1. cbn. lia.
    + cbn [stage_factor]. intros Hb. destruct (E4 ltac:(lia)) as (-> & N & I). split; [lia|]. cbn [copies map]. split.
      * intros Hc. cbn in Hc. constructor; [|done]. intros Hx. specialize (I _ Hx). cbn in I. lia.
      * intros x [->|Hx]%elem_of_cons; [by left|]. right. by apply I.
  - intros [= <- <- <-]. apply candidate_keeps; try done. right. by do 2 eexists.
  - destruct payload as [|b payload]; intros [= <- <- <-]; apply candidate_keeps; try done; [by left|].
    right. do 2 eexists. split; [reflexivity|]. apply corrupt_length.
  - unfold bandwidth_delay. destruct (bucket_pace _ _ _ _ _) as [dl bk]. intros [= <- <- <-].
    apply candidate_keeps; try done. right. by do 2 eexists.
Qed.

Lemma run_candidate_effect now policy ordinal stage fault draft next e out next' e' :
  dkind_typed (dg_kind fault) ->
  run_candidate now policy ordinal stage fault draft next e = (out, next', e') ->
  candidate_effect (dg_kind fault) draft next next' out e e'.
Proof.
  intros Ht. unfold run_candidate. cbv zeta. destruct (bernoulli _ _) as [active rng]. destruct active; cbn [negb].
  - intros H. apply apply_fault_effect in H as [F C S N P]; [|done].
    split; [exact F| |exact S|exact N|exact P].
    intros others gone H1 H2 Hc. apply C; [done|done|]. by apply (conserved_ledger _ _ e).
  - intros [= <- <- <-]. apply candidate_keeps; try done; [by left|].
    destruct (dg_kind fault); cbn in *; lia.
Qed.

(** One stage over all candidates. *)
Record stage_effect (factor : Z) (l : list Draft) (next next' : Z) (out : list Draft)
    (e e' : DatagramDirectionEngine) : Prop := {
  sg_frame : queue_frame e' = queue_frame e /\ identity e' = identity e;
  sg_conserved : forall others gone, 0 <= others -> 0 <= gone ->
    conserved (others + zlen l) gone e -> conserved (others + zlen out) gone e';
  sg_sizes : forall m, payloads_fit m l -> payloads_fit m out;
  sg_count : zlen out <= zlen l * factor;
  sg_copies : next + zlen l * (factor - 1) <= U16_MAX -> NoDup (copies l) ->
    Forall (fun c => c < next) (copies l) ->
    next <= next' <= next + zlen l * (factor - 1) /\ NoDup (copies out)
    /\ forall x, x ∈ copies out -> x ∈ copies l \/ next <= x < next'
}.

Lemma run_stage_effect now policy ordinal stage fault l : dkind_typed (dg_kind fault) ->
  forall next e out next' e',
  run_stage now policy ordinal stage fault l next e = (out, next', e') ->
  stage_effect (stage_factor (dg_kind fault)) l next next' out e e'.
Proof.
  intros Ht. set (K := stage_factor (dg_kind fault)).
  assert (HK : 1 <= K) by (unfold K; destruct (dg_kind fault); cbn in *; lia).
  induction l as [|draft l IH]; intros next e out next' e'; cbn [run_stage].
  { intros [= <- <- <-]. split; try done. intros _ _ _.
    change (zlen []) with 0. split; [lia|]. split; [constructor|]. intros x Hx. by apply not_elem_of_nil in Hx. }
  destruct (run_candidate now policy ordinal stage fault draft next e) as [[out1 n1] e1] eqn:E1.
  destruct (run_stage now policy ordinal stage fault l n1 e1) as [[out2 n2] e2] eqn:E2. intros [= <- <- <-].
  apply run_candidate_effect in E1 as [F1 C1 S1 N1 P1]; [|done]. apply IH in E2 as [F2 C2 S2 N2 P2]. fold K in N1, P1.
  pose proof (zlen_nonneg l). pose proof (zlen_nonneg out1). split.
  - destruct F1, F2. split; congruence.
  - intros others gone H1 H2 Hc. rewrite zlen_app. rewrite zlen_cons in Hc.
    replace (others + (zlen out1 + zlen out2)) with (others + zlen out1 + zlen out2) by lia.
    apply C2; [lia|done|]. replace (others + zlen out1 + zlen l) with (others + zlen l + zlen out1) by lia.
    apply C1; [lia|done|]. by replace (others + zlen l + 1) with (others + (1 + zlen l)) by lia.
  - intros m Hm. apply Forall_cons in Hm as [Hm1 Hm]. apply Forall_app_2; [|by apply S2].
    eapply Forall_impl; [exact S1|]. cbn. intros x ->. done.
  - rewrite zlen_app, zlen_cons. nia.
  - rewrite zlen_cons. cbn [copies map]. intros Hb Hn Hf. apply NoDup_cons in Hn as [Hn1 Hn].
    apply Forall_cons in Hf as [Hf1 Hf]. destruct (P1 ltac:(nia)) as (A1 & A2 & A3). specialize (A2 Hf1).
    assert (Hf' : Forall (fun c => c < n1) (copies l)) by (eapply Forall_impl; [exact Hf|]; cbn; lia).
    destruct (P2 ltac:(nia) Hn Hf') as (B1 & B2 & B3). split; [nia|]. unfold copies in *. rewrite map_app. split.
    + apply NoDup_app. split; [done|]. split; [|done]. intros x Hx Hx2.
      destruct (B3 x Hx2) as [Hx3|Hx3], (A3 x Hx) as [Ex|Hx1]; [by rewrite Ex in Hx3| |lia..].
      rewrite Forall_forall in Hf. specialize (Hf _ Hx3). cbn in Hf. lia.
    + intros x [Hx|Hx]%elem_of_app.
      * destruct (A3 x Hx) as [->|?]; [left; by left|right; lia].
      * destruct (B3 x Hx) as [?|?]; [left; by right|right; lia].
Qed.

(** All stages: at most [amplification] candidates with distinct copy indices. *)
Lemma run_stages_effect now policy ordinal fs : Forall (fun f => dkind_typed (dg_kind f)) fs ->
  forall stage l next e out next' e' a,
  run_stages now policy ordinal stage fs l next e = (out, next', e') ->
  1 <= a -> zlen l <= a -> next <= a -> amplify a fs <= MAX_CANDIDATES ->
  NoDup (copies l) -> Forall (fun c => 0 <= c < next) (copies l) -> 0 <= next ->
  (queue_frame e' = queue_frame e /\ identity e' = identity e)
  /\ (forall gone, 0 <= gone -> conserved (zlen l) gone e -> conserved (zlen out) gone e')
  /\ (forall m, payloads_fit m l -> payloads_fit m out)
  /\ zlen out <= amplify a fs /\ NoDup (copies out) /\ Forall (fun c => 0 <= c < amplify a fs) (copies out).
Proof.
  induction 1 as [|fault fs Ht Hts IH]; intros stage l next e out next' e' a; cbn [run_stages].
  { intros [= <- <- <-] Ha Hl Hn Hm Hd Hf H0. cbn. split; [done|]. split; [done|]. split; [done|]. split; [done|].
    split; [done|]. eapply Forall_impl; [exact Hf|]. cbn. lia. }
  destruct (run_stage now policy ordinal stage fault l next e) as [[out1 n1] e1] eqn:E1.
  intros E2 Ha Hl Hn Hm Hd Hf H0. cbn [amplify foldl] in *. fold (amplify (a * stage_factor (dg_kind fault)) fs) in *.
  assert (HK : 1 <= stage_factor (dg_kind fault)) by (destruct (dg_kind fault); cbn in *; lia).
  pose proof (amplify_ge fs (a * stage_factor (dg_kind fault)) ltac:(nia) Hts) as Hge. unfold MAX_CANDIDATES in *.
  apply run_stage_effect in E1 as [F C S N P]; [|done]. set (K := stage_factor (dg_kind fault)) in *.
  pose proof (zlen_nonneg l).
  assert (Hf' : Forall (fun c => c < next) (copies l)) by (eapply Forall_impl; [exact Hf|]; cbn; lia).
  destruct (P ltac:(unfold U16_MAX; nia) Hd Hf') as (P1 & P2 & P3).
  destruct (IH _ _ _ _ _ _ _ (a * K) E2 ltac:(nia) ltac:(nia) ltac:(nia) Hm P2) as (I1 & I2 & I3 & I4); [|nia|].
  { apply Forall_forall. intros x Hx. destruct (P3 x Hx) as [Hx'|?]; [|lia].
    rewrite Forall_forall in Hf. specialize (Hf x Hx'). cbn in Hf. lia. }
  split; [destruct F, I1; split; congruence|]. split; [|split; [|done]].
  - intros gone Hg Hc. apply I2; [done|]. apply (C 0 gone); [lia|done|exact Hc].
  - intros m Hm'. by apply I3, S.
Qed.

(** ** Scheduling *)

Lemma dengine_ok_enqueue at_ ordinal copy payload g e : dengine_ok e ->
  zlen (de_queue e) < max_queued_datagrams (de_limits e) ->
  queue_size (de_queue e) + zlen payload <= max_queued_bytes (de_limits e) ->
  zlen payload <= max_datagram_bytes (de_limits e) ->
  (de_ordinal e < U64_MAX -> 0 <= ordinal < de_ordinal e
    /\ Forall (fun x => ~ (cd_ordinal x = ordinal /\ cd_copy x = copy)) (de_queue e)) ->
  dengine_ok (enqueue at_ ordinal copy payload g e).
Proof.
  intros [L O S P Z D B [R1 R2] [H1 H2]] Hd Hb Hs Hk. pose proof (zlen_nonneg payload). pose proof (zlen_nonneg (de_queue e)).
  pose proof (queue_size_nonneg (de_queue e)). destruct L as [L1 L2 L3].
  assert (E1 : sat_add64 (zlen (de_queue e)) 1 = zlen (de_queue e) + 1) by (unfold sat_add, U64_MAX; lia).
  assert (E2 : sat_add64 (queue_size (de_queue e)) (zlen payload) = queue_size (de_queue e) + zlen payload)
    by (unfold sat_add, U64_MAX; lia).
  split; cbn -[queue_size]; rewrite ?D, ?B, ?E1, ?E2, ?queue_size_push, ?zlen_push; cbn [cd_payload]; try done; try lia.
  - intros Ho. destruct (Hk Ho) as [_ Hu]. apply heap_push_sorted; [by apply S|].
    eapply Forall_impl; [exact Hu|]. cbn. intros x Hx (_ & E3 & E4). cbn in *. by apply Hx.
  - intros Ho. destruct (Hk Ho) as [Hr _]. rewrite (heap_push_perm _ (de_queue e)). constructor; [done|by apply P].
  - rewrite (heap_push_perm _ (de_queue e)). by constructor.
Qed.

Lemma dengine_ok_emit ordinal copy payload g e : dengine_ok e ->
  zlen (de_queue e) < max_queued_datagrams (de_limits e) ->
  queue_size (de_queue e) + zlen payload <= max_queued_bytes (de_limits e) ->
  dengine_ok (emit_immediate ordinal payload g copy e).2.
Proof.
  intros [L O S P Z D B [R1 R2] [H1 H2]] Hd Hb. pose proof (zlen_nonneg payload). pose proof (zlen_nonneg (de_queue e)).
  pose proof (queue_size_nonneg (de_queue e)). pose proof L as [L1 L2 L3].
  assert (E1 : sat_add64 (zlen (de_queue e)) 1 = zlen (de_queue e) + 1) by (unfold sat_add, U64_MAX; lia).
  assert (E2 : sat_add64 (queue_size (de_queue e)) (zlen payload) = queue_size (de_queue e) + zlen payload)
    by (unfold sat_add, U64_MAX; lia).
  split; cbn -[queue_size]; rewrite ?D, ?B, ?E1, ?E2; unfold sat_sub; try done; try lia.
Qed.

Definition drafts_size (l : list Draft) : Z := zsum (map (fun d => zlen d.1.2) l).
Lemma drafts_size_nonneg l : 0 <= drafts_size l.
Proof. apply zsum_nonneg, Forall_forall. intros x (c & -> & _)%list_elem_of_fmap. apply zlen_nonneg. Qed.

Lemma total_size_spec l t : total_size l = Some t -> t = drafts_size l.
Proof.
  unfold total_size. set (f := fun acc (d : Draft) => match acc with
    | Some total => if total + zlen d.1.2 <=? U64_MAX then Some (total + zlen d.1.2) else None
    | None => None end).
  assert (N : forall k, foldl f None k = None) by (intros k; by induction k).
  assert (G : forall k a, foldl f (Some a) k = Some t -> t = a + drafts_size k).
  { induction k as [|d k IH]; intros a; cbn [foldl].
    - intros [= ->]. unfold drafts_size. cbn. lia.
    - unfold f at 2. destruct (_ <=? _); [|by rewrite N]. intros H. apply IH in H.
      unfold drafts_size, zsum in *. cbn. lia. }
  intros H. apply G in H. lia.
Qed.

(** The items of an immediate admission, before sorting. *)
Definition item_of (ordinal g : Z) (d : Draft) : DatagramScheduled :=
  {| ds_payload := d.1.2; ds_ingress_ordinal := ordinal; ds_copy_index := d.1.1; ds_generation := g |}.

Lemma emit_all_spec ordinal g l : forall e items e', emit_all ordinal g l e = (items, e') ->
  items = map (item_of ordinal g) l
  /\ (de_queue e', de_limits e', de_ordinal e') = (de_queue e, de_limits e, de_ordinal e) /\ identity e' = identity e
  /\ (forall gone others, 0 <= gone -> 0 <= others -> conserved (others + zlen l) gone e -> conserved others gone e')
  /\ (dengine_ok e -> de_queue e = [] -> drafts_size l <= max_queued_bytes (de_limits e) -> dengine_ok e').
Proof.
  induction l as [|[[c p] d] l IH]; intros e items e'; cbn [emit_all].
  { intros [= <- <-]. split; [done|]. split; [done|]. split; [done|]. split; [|done].
    intros gone others _ _. change (zlen []) with 0. by rewrite Z.add_0_r. }
  destruct (emit_immediate ordinal p g c e) as [item e1] eqn:E1.
  destruct (emit_all ordinal g l e1) as [items1 e2] eqn:E2. intros [= <- <-].
  apply IH in E2 as (-> & F & I & C & O). pose proof E1 as E0. unfold emit_immediate in E0. injection E0 as <- E0.
  assert (F1 : (de_queue e1, de_limits e1, de_ordinal e1) = (de_queue e, de_limits e, de_ordinal e)
    /\ identity e1 = identity e) by (by rewrite <- E0).
  destruct F1 as [F1 I1]. split; [done|]. split; [congruence|]. split; [congruence|].
  pose proof (zlen_nonneg l). split.
  - intros gone others H1 H2 Hc. apply C; [done|done|]. rewrite zlen_cons in Hc.
    pose proof (conserved_emit (others + (1 + zlen l)) gone ordinal p g c e ltac:(lia) H1 Hc) as X. rewrite E1 in X.
    by replace (others + zlen l) with (others + (1 + zlen l) - 1) by lia.
  - intros Hok Hq Hs. injection F1 as Q1 L1 _. unfold drafts_size in *. cbn [map zsum foldr fst snd] in Hs.
    fold (drafts_size l) in *. pose proof (drafts_size_nonneg l). pose proof (zlen_nonneg p).
    apply O; [|congruence|rewrite L1; unfold drafts_size, zsum in *; lia].
    pose proof (dengine_ok_emit ordinal c p g e Hok) as X. rewrite E1, Hq in X. destruct (do_limits _ Hok).
    apply X; [change (zlen []) with 0; lia|]. change (queue_size []) with 0. unfold drafts_size, zsum in *; lia.
Qed.

(** What [queue_all] leaves alone. *)
Definition static (e : DatagramDirectionEngine) := (identity e, de_limits e, de_ordinal e).
Lemma static_overflow e : static (with_evidence note_overflow e) = static e.
Proof. done. Qed.
Lemma static_enqueue a o c p g e : static (enqueue a o c p g e) = static e.
Proof. done. Qed.
Lemma frame_overflow e : queue_frame (with_evidence note_overflow e) = queue_frame e.
Proof. done. Qed.
Lemma queue_enqueue a o c p g e : exists x, de_queue (enqueue a o c p g e) ≡ₚ x :: de_queue e
  /\ cd_ordinal x = o /\ cd_copy x = c.
Proof. eexists. split; [apply heap_push_perm|done]. Qed.

Definition too_full (size : Z) (e : DatagramDirectionEngine) : bool :=
  (max_queued_datagrams (de_limits e) <=? zlen (de_queue e))
  || (max_queued_bytes (de_limits e) <? sat_add64 (d_queued_bytes (de_evidence e)) size).

Lemma queue_all_cons now ordinal g c p d l any e :
  queue_all now ordinal g ((c, p, d) :: l) any e =
  if too_full (zlen p) e then queue_all now ordinal g l any (with_evidence note_overflow e)
  else queue_all now ordinal g l true (enqueue (now + d) ordinal c p g e).
Proof. done. Qed.

Lemma queue_all_static now ordinal g l : forall any e, static (queue_all now ordinal g l any e).2 = static e.
Proof.
  induction l as [|[[c p] d] l IH]; intros any e; [done|]. rewrite queue_all_cons.
  destruct (too_full _ _); rewrite IH; [apply static_overflow|apply static_enqueue].
Qed.

Lemma queue_all_conserved now ordinal g l gone others : 0 <= gone -> 0 <= others -> forall any e,
  conserved (others + zlen l) gone e -> conserved others gone (queue_all now ordinal g l any e).2.
Proof.
  intros Hg Ho. induction l as [|[[c p] d] l IH]; intros any e Hc.
  { cbn. change (zlen []) with 0 in Hc. by rewrite Z.add_0_r in Hc. }
  rewrite queue_all_cons. pose proof (zlen_nonneg l). rewrite zlen_cons in Hc.
  destruct (too_full _ _); apply IH; replace (others + zlen l) with (others + (1 + zlen l) - 1) by lia;
    [apply conserved_overflow|apply conserved_enqueue]; try done; lia.
Qed.

Lemma not_too_full e size : dengine_ok e -> 0 <= size -> too_full size e = false ->
  zlen (de_queue e) < max_queued_datagrams (de_limits e)
  /\ queue_size (de_queue e) + size <= max_queued_bytes (de_limits e).
Proof.
  intros Hok Hs H. pose proof (lo_bytes _ (do_limits _ Hok)) as L. pose proof (do_bytes _ Hok) as B.
  unfold too_full in H. rewrite B in H. apply orb_false_iff in H as [H1 H2].
  apply Z.leb_gt in H1. apply Z.ltb_ge in H2. split; [exact H1|].
  apply (sat_add_le_inv U64_MAX); [exact H2|]. unfold U64_MAX. lia.
Qed.

Definition fresh_copies (ordinal : Z) (l : list Draft) (e : DatagramDirectionEngine) : Prop :=
  de_ordinal e < U64_MAX -> 0 <= ordinal < de_ordinal e
  /\ Forall (fun x => cd_ordinal x = ordinal -> cd_copy x ∉ copies l) (de_queue e).

Lemma fresh_tail ordinal d l e : fresh_copies ordinal (d :: l) e -> fresh_copies ordinal l e.
Proof.
  intros H Ho. destruct (H Ho) as [H1 H2]. split; [done|]. eapply Forall_impl; [exact H2|].
  cbn. intros x Hx Ex Hin. apply (Hx Ex). by right.
Qed.
Lemma fresh_enqueue a ordinal c p d g l e : fresh_copies ordinal ((c, p, d) :: l) e -> c ∉ copies l ->
  fresh_copies ordinal l (enqueue a ordinal c p g e).
Proof.
  intros H Hc Ho. destruct (fresh_tail _ _ _ _ H Ho) as [H1 H2]. split; [exact H1|].
  destruct (queue_enqueue a ordinal c p g e) as (x & -> & _ & Ex). constructor; [by rewrite Ex|done].
Qed.

Lemma queue_all_ok now ordinal g l : forall any e, dengine_ok e ->
  payloads_fit (max_datagram_bytes (de_limits e)) l -> NoDup (copies l) -> fresh_copies ordinal l e ->
  dengine_ok (queue_all now ordinal g l any e).2.
Proof.
  induction l as [|[[c p] d] l IH]; intros any e Hok Hp Hn Hu; [done|]. rewrite queue_all_cons.
  apply Forall_cons in Hp as [Hp1 Hp]. apply NoDup_cons in Hn as [Hn1 Hn]. cbn in Hp1, Hn1.
  destruct (too_full (zlen p) e) eqn:Ef.
  - apply IH; [apply (dengine_ok_frame e); [apply frame_overflow|done]|exact Hp|done|].
    exact (fresh_tail _ _ _ _ Hu).
  - destruct (not_too_full e (zlen p) Hok (zlen_nonneg p) Ef) as [R1 R2].
    apply IH; [|exact Hp|done|exact (fresh_enqueue _ _ _ _ _ _ _ _ Hu Hn1)].
    apply dengine_ok_enqueue; try done. intros Ho. destruct (Hu Ho) as [U1 U2]. split; [done|].
    eapply Forall_impl; [exact U2|]. cbn. intros x Hx [Ex Ec]. apply (Hx Ex). rewrite Ec. by left.
Qed.

(** [take_ready_loop] drains a prefix; on a sorted queue it is the due part. *)
Lemma take_ready_loop_spec now q : forall v out rest v', take_ready_loop now q v = (out, rest, v') ->
  exists due, q = due ++ rest /\ out = map scheduled_of due /\ Forall (fun c => cd_at c <= now) due
  /\ match rest with c :: _ => now < cd_at c | [] => True end
  /\ v' = foldl (fun v c => note_emitted (zlen (cd_payload c)) v) v due.
Proof.
  induction q as [|c q IH]; intros v out rest v'; cbn [take_ready_loop].
  { intros [= <- <- <-]. by exists []. }
  destruct (Z.leb_spec (cd_at c) now) as [Hle|Hgt].
  - destruct (take_ready_loop now q _) as [[o r] w] eqn:E. intros [= <- <- <-].
    apply IH in E as (due & -> & -> & H1 & H2 & ->). exists (c :: due). conjs; try done. by constructor.
  - intros [= <- <- <-]. exists []. conjs; try done.
Qed.

(** Emission of queued candidates, as counters. *)
Lemma emitted_counters due : forall v,
  let v' := foldl (fun v c => note_emitted (zlen (cd_payload c)) v) v due in
  (d_admitted_datagrams v', d_duplicated_copies v', d_configured_loss v', d_oversize_datagrams v', d_queue_overflow v')
  = (d_admitted_datagrams v, d_duplicated_copies v, d_configured_loss v, d_oversize_datagrams v, d_queue_overflow v)
  /\ (d_high_water_datagrams v', d_high_water_bytes v') = (d_high_water_datagrams v, d_high_water_bytes v)
  /\ (0 <= d_emitted_datagrams v <= U64_MAX -> d_emitted_datagrams v' = sat_add64 (d_emitted_datagrams v) (zlen due))
  /\ (forall n s, d_queued_datagrams v = zlen due + n -> d_queued_bytes v = queue_size due + s -> 0 <= n -> 0 <= s ->
      d_queued_datagrams v' = n /\ d_queued_bytes v' = s).
Proof.
  induction due as [|c due IH]; intros v; cbn [foldl].
  { cbv zeta. split; [done|]. split; [done|]. change (zlen []) with 0. change (queue_size []) with 0.
    split; [unfold sat_add; lia|]. intros n s H1 H2 _ _. lia. }
  destruct (IH (note_emitted (zlen (cd_payload c)) v)) as (I1 & I2 & I3 & I4). cbv zeta in *.
  pose proof (zlen_nonneg due). pose proof (zlen_nonneg (cd_payload c)). pose proof (queue_size_nonneg due).
  split; [exact I1|]. split; [exact I2|]. split.
  - intros Hr. rewrite I3; cbn; rewrite ?zlen_cons; unfold sat_add, U64_MAX in *; lia.
  - intros n s Q1 Q2 Hn Hs. rewrite zlen_cons in Q1. change (queue_size (c :: due)) with (zlen (cd_payload c) + queue_size due) in Q2.
    apply I4; cbn; unfold sat_sub; lia.
Qed.

Lemma queue_size_app a b : queue_size (a ++ b) = queue_size a + queue_size b.
Proof. unfold queue_size. by rewrite map_app, zsum_app. Qed.

Lemma take_ready_ok now e out e' : take_ready now e = (out, e') ->
  (dengine_ok e -> dengine_ok e') /\ identity e' = identity e
  /\ (forall gone, 0 <= gone -> conserved 0 gone e -> conserved 0 gone e').
Proof.
  unfold take_ready. destruct (take_ready_loop _ _ _) as [[o rest] v] eqn:E. intros [= <- <-].
  apply take_ready_loop_spec in E as (due & Hq & -> & Hd & Hr & ->).
  destruct (emitted_counters due (de_evidence e)) as ([= C1 C2 C3 C4 C5] & [= H1 H2] & Em & Qd). cbv zeta in *.
  pose proof (zlen_nonneg due). pose proof (zlen_nonneg rest). pose proof (queue_size_nonneg due). pose proof (queue_size_nonneg rest).
  split; [|split; [done|]].
  - intros [L O S P Z D B [R1 R2] [W1 W2]]. rewrite Hq in *. rewrite zlen_app, queue_size_app in *.
    destruct (Qd (zlen rest) (queue_size rest)) as [Q1 Q2]; [done..|].
    split; cbn -[queue_size]; rewrite ?H1, ?H2; try done; try lia.
    + intros Ho. specialize (S Ho). clear -S. induction due as [|c due IH]; [done|]. cbn in S. inversion S. auto.
    + intros Ho. specialize (P Ho). by apply Forall_app in P as [_ P].
    + by apply Forall_app in Z as [_ Z].
  - intros gone Hg [Rg Bal]. rewrite Hq, zlen_app in Bal. split; cbn; rewrite C1, C2, C3, C4, C5.
    + conjs; try lia; rewrite Em by lia; unfold sat_add; lia.
    + intros Hlt. specialize (Bal Hlt). rewrite Em by lia. unfold sat_add. lia.
Qed.
