(* ===== verification/DatagramRun.v ===== *)
(** * Runs of the datagram engine

    A run interleaves admissions under any sequence of policies, releases of due
    candidates and discards.  The properties of the engine are stated on runs
    and on single calls. *)

From Stdlib Require Import Bool.
From stdpp Require Import base list gmap strings sorting.
From S2P Require Import Prelude Rng Float64 Plan Policy Env DatagramPlan DatagramState Datagram DatagramProps.

Import Live.

(** ** One admission *)

Lemma refresh_buckets_frame policy e : queue_frame (refresh_buckets policy e) = queue_frame e
  /\ identity (refresh_buckets policy e) = identity e /\ ledger (refresh_buckets policy e) = ledger e.
Proof. unfold refresh_buckets. by destruct (negb _). Qed.

Definition opened (payload : bytes) (e : DatagramDirectionEngine) : DatagramDirectionEngine :=
  with_evidence (note_admitted (zlen payload)) (set_de_ordinal (sat_add64 (de_ordinal e) 1) e).
Definition stamped (policy : PublishedDatagramPolicy) (e : DatagramDirectionEngine) : DatagramDirectionEngine :=
  refresh_buckets policy
    (with_evidence (fun v => set_d_last_seed_namespace (seed_namespace policy)
                               (set_d_last_generation (generation policy) v)) e).

Lemma stamped_frame policy e : queue_frame (stamped policy e) = queue_frame e
  /\ identity (stamped policy e) = identity e /\ ledger (stamped policy e) = ledger e.
Proof. unfold stamped. destruct (refresh_buckets_frame policy (with_evidence (fun v => set_d_last_seed_namespace
  (seed_namespace policy) (set_d_last_generation (generation policy) v)) e)) as (-> & -> & ->). done. Qed.

Lemma opened_ok payload e : dengine_ok e -> dengine_ok (opened payload e).
Proof.
  intros [L O S P Z D B R H]. split; cbn; try done; [unfold sat_add, U64_MAX in *; lia| |].
  - intros Ho. apply S. unfold sat_add in Ho. lia.
  - intros Ho. specialize (P ltac:(unfold sat_add in Ho; lia)). eapply Forall_impl; [exact P|]. cbn.
    intros x Hx. unfold sat_add in *. lia.
Qed.

(** Every queued candidate is older than the datagram being admitted. *)
Lemma opened_fresh payload e l : dengine_ok e -> fresh_copies (de_ordinal e) l (opened payload e).
Proof.
  intros Hok Ho. cbn in *. pose proof (do_ordinal _ Hok). assert (Hlt : de_ordinal e < U64_MAX) by (unfold sat_add in Ho; lia).
  split; [unfold sat_add in *; lia|]. eapply Forall_impl; [exact (do_past _ Hok Hlt)|]. cbn. intros x Hx Ex. lia.
Qed.

Lemma fresh_frame ordinal l e e' : queue_frame e' = queue_frame e -> fresh_copies ordinal l e -> fresh_copies ordinal l e'.
Proof. unfold fresh_copies, queue_frame. intros [= _ -> -> _ _ _ _]. done. Qed.

Record admission_effect (e e' : DatagramDirectionEngine) (drafts : Z) : Prop := {
  ae_static : identity e' = identity e /\ de_limits e' = de_limits e /\ de_ordinal e' = de_ordinal e;
  ae_ok : dengine_ok e';
  ae_conserved : forall gone, 0 <= gone -> conserved drafts gone e -> conserved 0 gone e'
}.

Lemma fits_room size e : dengine_ok e -> 0 <= size -> fits size e = true ->
  zlen (de_queue e) < max_queued_datagrams (de_limits e)
  /\ queue_size (de_queue e) + size <= max_queued_bytes (de_limits e).
Proof.
  intros Hok Hs Hf. apply not_too_full; [done|done|]. unfold fits, too_full in *.
  apply andb_true_iff in Hf as [H1 H2]. apply Z.ltb_lt in H1. apply Z.leb_le in H2.
  apply orb_false_iff. split; [by apply Z.leb_gt|by apply Z.ltb_ge].
Qed.

Lemma admit_plain_effect now payload ordinal g e a e' : dengine_ok e ->
  zlen payload <= max_datagram_bytes (de_limits e) -> fresh_copies ordinal [(0, payload, 0)] e ->
  admit_plain now payload ordinal g e = (a, e') -> admission_effect e e' 1.
Proof.
  intros Hok Hs Hf. unfold admit_plain. destruct (_ && fits _ _) eqn:Ei.
  - apply andb_true_iff in Ei as [_ Ei]. destruct (fits_room _ _ Hok (zlen_nonneg payload) Ei) as [R1 R2].
    destruct (emit_immediate ordinal payload g 0 e) as [item e1] eqn:E. intros [= <- <-].
    assert (He : e1 = (emit_immediate ordinal payload g 0 e).2) by (by rewrite E). rewrite He. split; [done| |].
    + by apply dengine_ok_emit.
    + intros gone Hg Hc. by apply (conserved_emit 1 gone ordinal payload g 0 e).
  - destruct (fits (zlen payload) e) eqn:Ef; intros [= <- <-].
    + destruct (fits_room _ _ Hok (zlen_nonneg payload) Ef) as [R1 R2]. split; [done| |].
      * apply dengine_ok_enqueue; try done. intros Ho. destruct (Hf Ho) as [F1 F2]. split; [done|].
        eapply Forall_impl; [exact F2|]. cbn. intros x Hx [Ex Ec]. apply (Hx Ex). rewrite Ec. by left.
      * intros gone Hg Hc. by apply (conserved_enqueue 1 gone).
    + split; [done| |].
      * by apply (dengine_ok_frame e).
      * intros gone Hg Hc. by apply (conserved_overflow 1 gone).
Qed.

(** The test of [dispose] for immediate emission. *)
Definition immediate_now (drafts : list Draft) (e : DatagramDirectionEngine) : bool :=
  match drafts with [] => false | _ => true end
  && forallb (fun d => d.2 =? 0) drafts
  && match de_queue e with [] => true | _ => false end
  && match total_size drafts with Some total => fits_all (zlen drafts) total e | None => false end.

Lemma dispose_eq now ordinal g drafts e : dispose now ordinal g drafts e =
  if immediate_now drafts e
  then (Immediate (sort_items (emit_all ordinal g drafts e).1), (emit_all ordinal g drafts e).2)
  else match drafts with
       | [] => (Consumed, e)
       | _ => (if (queue_all now ordinal g drafts false e).1 then QueuedAdmission else Consumed,
               (queue_all now ordinal g drafts false e).2)
       end.
Proof.
  unfold dispose, immediate_now. destruct (_ && _ && _ && _); [by destruct (emit_all _ _ _ _)|].
  destruct drafts; [done|]. by destruct (queue_all _ _ _ _ _ _).
Qed.

Record immediate_facts (drafts : list Draft) (e : DatagramDirectionEngine) : Prop := {
  if_queue : de_queue e = [];
  if_nonempty : drafts <> [];
  if_undelayed : Forall (fun d => d.2 = 0) drafts;
  if_count : zlen drafts <= max_queued_datagrams (de_limits e);
  if_size : drafts_size drafts <= max_queued_bytes (de_limits e)
}.

Lemma immediate_now_facts drafts e : dengine_ok e -> immediate_now drafts e = true -> immediate_facts drafts e.
Proof.
  intros Hok H. unfold immediate_now in H. rewrite !andb_true_iff in H. destruct H as [[[H1 H2] H3] H4].
  destruct (total_size drafts) as [total|] eqn:Et; [|done]. apply total_size_spec in Et as ->.
  unfold fits_all in H4. apply andb_true_iff in H4 as [H4 H5]. apply Z.leb_le in H4, H5.
  destruct (do_limits _ Hok) as [L1 L2 _]. rewrite (do_bytes _ Hok) in H5.
  destruct (de_queue e) eqn:Eq; [|done]. change (zlen []) with 0 in *. change (queue_size []) with 0 in *.
  split; [done|by destruct drafts| | |].
  - apply Forall_forall. intros d Hd. apply Z.eqb_eq. apply forallb_True in H2 || rewrite forallb_forall in H2.
    apply H2. by apply list_elem_of_In.
  - apply (sat_add_le_inv U64_MAX) in H4; [lia|]. unfold U64_MAX. lia.
  - apply (sat_add_le_inv U64_MAX) in H5; [lia|]. unfold U64_MAX. lia.
Qed.

Lemma dispose_effect now ordinal g drafts e : dengine_ok e ->
  payloads_fit (max_datagram_bytes (de_limits e)) drafts -> NoDup (copies drafts) -> fresh_copies ordinal drafts e ->
  admission_effect e (dispose now ordinal g drafts e).2 (zlen drafts).
Proof.
  intros Hok Hp Hn Hf. rewrite dispose_eq. destruct (immediate_now drafts e) eqn:Ei.
  - apply immediate_now_facts in Ei as [Q _ _ _ Sz]; [|done]. cbn [snd].
    destruct (emit_all ordinal g drafts e) as [items e1] eqn:E. apply emit_all_spec in E as (_ & F & I & C & O).
    injection F as _ F2 F3. split; [done|by apply O|]. intros gone Hg Hc. apply (C gone 0); [done|done|exact Hc].
  - destruct drafts as [|d ds] eqn:Ed; [by split; [|done|]|]. rewrite <- Ed in *. cbn [snd].
    pose proof (queue_all_static now ordinal g drafts false e) as S. unfold static in S.
    apply pair_eq in S as [S S3]. apply pair_eq in S as [S1 S2].
    split; [done|by apply queue_all_ok|]. intros gone Hg Hc. by apply (queue_all_conserved now ordinal g drafts gone 0).
Qed.

Definition policy_fine (policy : PublishedDatagramPolicy) : Prop :=
  dplan_wf (pub_plan policy) /\ dplan_typed (pub_plan policy).

Lemma admit_effect now payload policy e : dengine_ok e -> policy_fine policy ->
  dengine_ok (admit_datagram now payload policy e).2
  /\ identity (admit_datagram now payload policy e).2 = identity e
  /\ de_limits (admit_datagram now payload policy e).2 = de_limits e
  /\ de_ordinal (admit_datagram now payload policy e).2 = sat_add64 (de_ordinal e) 1
  /\ forall gone, 0 <= gone -> conserved 0 gone e -> conserved 0 gone (admit_datagram now payload policy e).2.
Proof.
  intros Hok [Hwf Hty]. pose proof (opened_ok payload e Hok) as Hok1. unfold admit_datagram. cbv zeta.
  fold (opened payload e). set (e1 := opened payload e) in *.
  assert (C1 : forall gone, 0 <= gone -> conserved 0 gone e -> conserved 1 gone e1).
  { intros gone Hg Hc. apply conserved_admitted; [done|]. by apply (conserved_ledger _ _ e). }
  destruct (Z.ltb_spec (max_datagram_bytes (de_limits e1)) (zlen payload)) as [Hbig|Hfit].
  { cbn [snd]. split; [by apply (dengine_ok_frame e1)|]. split; [done|]. split; [done|]. split; [done|].
    intros gone Hg Hc. apply (conserved_oversize 1 gone); [lia|done|by apply C1]. }
  fold (stamped policy e1). destruct (stamped_frame policy e1) as (F2 & I2 & L2). set (e2 := stamped policy e1) in *.
  assert (Hok2 : dengine_ok e2) by (by apply (dengine_ok_frame e1)).
  assert (Fin : forall e3 n, queue_frame e3 = queue_frame e2 -> identity e3 = identity e2 -> forall x,
    admission_effect e3 x n ->
    (forall gone, 0 <= gone -> conserved 1 gone e2 -> conserved n gone e3) ->
    dengine_ok x /\ identity x = identity e /\ de_limits x = de_limits e /\ de_ordinal x = sat_add64 (de_ordinal e) 1
    /\ forall gone, 0 <= gone -> conserved 0 gone e -> conserved 0 gone x).
  { intros e3 n F3 I3 x [(A1 & A2 & A3) A4 A5] C3. rewrite F2 in F3. unfold queue_frame in F3.
    injection F3 as G1 G2 _ _ _ _ _. split; [done|]. split; [by rewrite A1, I3, I2|]. split; [by rewrite A2, G1|].
    split; [by rewrite A3, G2|]. intros gone Hg Hc. apply A5; [done|]. apply C3; [done|].
    apply (conserved_ledger _ _ e1); [done|]. by apply C1. }
  assert (Hlim : de_limits e2 = de_limits e1) by (unfold queue_frame in F2; by injection F2).
  destruct (dp_faults (pub_plan policy)) as [|f0 fs0] eqn:Efs.
  - destruct (admit_plain now payload (de_ordinal e) (generation policy) e2) as [a e'] eqn:E. cbn [snd].
    apply (Fin e2 1); [done|done| |done]. apply (admit_plain_effect _ _ _ _ _ _ _ Hok2) in E; [done|by rewrite Hlim|].
    apply (fresh_frame _ _ e1); [done|]. by apply opened_fresh.
  - rewrite <- Efs. set (fs := dp_faults (pub_plan policy)) in *.
    destruct (run_stages now policy (de_ordinal e) 0 fs [(0, payload, 0)] 1 e2) as [[drafts nx] e3] eqn:E.
    apply (run_stages_effect now policy (de_ordinal e) fs Hty 0 _ _ _ _ _ _ 1) in E as ([F3 I3] & C3 & P3 & _ & N3 & _);
      [|lia|done|lia|apply Hwf|apply NoDup_singleton|constructor; [cbn; lia|constructor]|lia].
    apply (Fin e3 (zlen drafts)); [done|done| |exact C3]. apply dispose_effect.
    + by apply (dengine_ok_frame e2).
    + apply P3. assert (Hl3 : de_limits e3 = de_limits e2) by (unfold queue_frame in F3; by injection F3).
      rewrite Hl3, Hlim. by constructor.
    + done.
    + apply (fresh_frame _ _ e1); [congruence|]. by apply opened_fresh.
Qed.

Lemma discard_ok e gone : dengine_ok e -> 0 <= gone -> conserved 0 gone e ->
  dengine_ok (discard_all e).2 /\ conserved 0 (gone + (discard_all e).1) (discard_all e).2.
Proof.
  intros [L O S P Z D B R H] Hg [Rg Bal]. pose proof L as [L1 L2 L3]. pose proof (zlen_nonneg (de_queue e)).
  pose proof (queue_size_nonneg (de_queue e)). split.
  - split; cbn; try done; try constructor; change (zlen []) with 0; change (queue_size []) with 0; lia.
  - split; cbn; [done|]. intros Hlt. specialize (Bal Hlt). change (zlen []) with 0. lia.
Qed.

(** ** Runs *)

Inductive DOp :=
| DAdmit (now : Instant) (payload : bytes) (policy : PublishedDatagramPolicy)
| DTake (now : Instant)
| DDiscard.
Definition op_fine (o : DOp) : Prop := match o with DAdmit _ _ policy => policy_fine policy | _ => True end.

Record DRun := { dr_engine : DatagramDirectionEngine; dr_out : list DatagramScheduled; dr_gone : Z }.

Definition items_of (a : DatagramAdmission) : list DatagramScheduled :=
  match a with Immediate items => items | _ => [] end.
Definition dexec (x : DRun) (o : DOp) : DRun :=
  match o with
  | DAdmit now payload policy =>
      let '(a, e) := admit_datagram now payload policy (dr_engine x) in
      {| dr_engine := e; dr_out := dr_out x ++ items_of a; dr_gone := dr_gone x |}
  | DTake now =>
      let '(out, e) := take_ready now (dr_engine x) in
      {| dr_engine := e; dr_out := dr_out x ++ out; dr_gone := dr_gone x |}
  | DDiscard =>
      let '(n, e) := discard_all (dr_engine x) in
      {| dr_engine := e; dr_out := dr_out x; dr_gone := dr_gone x + n |}
  end.
Definition drun (x : DRun) (ops : list DOp) : DRun := foldl dexec x ops.
Definition dstart (e : DatagramDirectionEngine) : DRun := {| dr_engine := e; dr_out := []; dr_gone := 0 |}.

Record drun_ok (x : DRun) : Prop := {
  rk_engine : dengine_ok (dr_engine x);
  rk_gone : 0 <= dr_gone x;
  rk_conserved : conserved 0 (dr_gone x) (dr_engine x)
}.

Lemma dexec_ok x o : drun_ok x -> op_fine o -> drun_ok (dexec x o).
Proof.
  intros [R1 R2 R3] Ho. destruct o as [now payload policy|now|]; cbn [dexec].
  - destruct (admit_effect now payload policy (dr_engine x) R1 Ho) as (A1 & _ & _ & _ & A2).
    destruct (admit_datagram now payload policy (dr_engine x)) as [a e]. cbn [snd] in *. split; [done|done|]. by apply A2.
  - destruct (take_ready now (dr_engine x)) as [out e] eqn:E. apply take_ready_ok in E as (T1 & _ & T2).
    split; [by apply T1|done|]. by apply T2.
  - destruct (discard_ok (dr_engine x) (dr_gone x) R1 R2 R3) as [D1 D2]. pose proof (zlen_nonneg (de_queue (dr_engine x))).
    unfold discard_all in *. cbn [fst snd] in *. split; [done|cbn; lia|done].
Qed.

Lemma drun_ok_run ops : Forall op_fine ops -> forall x, drun_ok x -> drun_ok (drun x ops).
Proof. induction 1 as [|o ops Ho _ IH]; intros x Hx; [done|]. cbn. by apply IH, dexec_ok. Qed.

Lemma dstart_ok limits proxy assoc d v e : limits_ok limits -> dengine_new limits proxy assoc d v = Ok e ->
  drun_ok (dstart e).
Proof.
  intros L. unfold dengine_new, limits_validate. destruct (_ || _); [done|]. intros [= <-]. pose proof L as [L1 L2 L3].
  split; cbn; [|done|split; cbn; [unfold U64_MAX; lia|done]].
  split; cbn; try done; try (unfold U64_MAX; lia); try constructor; change (zlen []) with 0; change (queue_size []) with 0; lia.
Qed.

(** ** Properties *)

(** C35: the scheduler is bounded and ordered.  However admissions (under any
    sequence of valid policies), releases and discards interleave, the queue
    never holds more datagrams or payload bytes than its limits, its counters
    and high-water marks are exact bounds of what it holds, no candidate exceeds
    the datagram limit, and the pending candidates have pairwise distinct keys in
    heap order - as long as fewer than [2^64 - 1] datagrams were admitted. *)
Theorem datagram_runs_preserve_invariant (limits : DatagramQueueLimits) (proxy : string) (assoc : Z)
    (d : Direction) (v : RngVersion) (e : DatagramDirectionEngine) (ops : list DOp)
    (Hlimits : limits_ok limits) (Hnew : dengine_new limits proxy assoc d v = Ok e) (Hops : Forall op_fine ops) :
  dengine_ok (dr_engine (drun (dstart e) ops)).
Proof. by apply drun_ok_run, (dstart_ok limits proxy assoc d v). Qed.

(** C36: datagrams are conserved.  Over the same runs every datagram admitted and
    every copy made is accounted for exactly once: dropped by a loss stage,
    oversize, refused by the full queue, emitted, discarded or still queued. *)
Theorem datagrams_are_conserved (limits : DatagramQueueLimits) (proxy : string) (assoc : Z)
    (d : Direction) (v : RngVersion) (e : DatagramDirectionEngine) (ops : list DOp)
    (Hlimits : limits_ok limits) (Hnew : dengine_new limits proxy assoc d v = Ok e) (Hops : Forall op_fine ops)
    (Hcount : let ev := de_evidence (dr_engine (drun (dstart e) ops)) in
       d_admitted_datagrams ev + d_duplicated_copies ev < U64_MAX) :
  let x := drun (dstart e) ops in
  let ev := de_evidence (dr_engine x) in
  d_admitted_datagrams ev + d_duplicated_copies ev
  = d_configured_loss ev + d_oversize_datagrams ev + d_queue_overflow ev + d_emitted_datagrams ev
    + d_queued_datagrams ev + dr_gone x.
Proof.
  destruct (drun_ok_run ops Hops (dstart e)) as [R1 R2 [_ R3]]; [by apply (dstart_ok limits proxy assoc d v)|].
  cbv zeta in *. rewrite (do_datagrams _ R1). specialize (R3 Hcount). lia.
Qed.

Lemma filter_every {A} (P : A -> Prop) `{!forall x, Decision (P x)} (l : list A) : Forall P l -> filter P l = l.
Proof. induction 1 as [|x l Hx _ IH]; [done|]. rewrite filter_cons, decide_True by done. by rewrite IH. Qed.
Lemma filter_none {A} (P : A -> Prop) `{!forall x, Decision (P x)} (l : list A) :
  Forall (fun x => ~ P x) l -> filter P l = [].
Proof. induction 1 as [|x l Hx _ IH]; [done|]. by rewrite filter_cons, decide_False. Qed.

(** Release is exact and ordered.  On a well-formed engine [take_ready] gives
    exactly the candidates whose release time has come, in the order of release
    time, then ingress ordinal, then copy; it keeps exactly the others, counts
    what it gave as emitted, and the next deadline is after [now]. *)
Theorem take_ready_releases_the_due (now : Instant) (e e' : DatagramDirectionEngine) (out : list DatagramScheduled)
    (Hok : dengine_ok e) (Hord : de_ordinal e < U64_MAX) (Hcall : take_ready now e = (out, e')) :
  out = map scheduled_of (filter (fun c => cd_at c <= now) (de_queue e))
  /\ StronglySorted key_lt (filter (fun c => cd_at c <= now) (de_queue e))
  /\ de_queue e' = filter (fun c => ~ cd_at c <= now) (de_queue e)
  /\ (forall t, next_deadline e' = Some t -> now < t)
  /\ d_queued_datagrams (de_evidence e') = d_queued_datagrams (de_evidence e) - zlen out.
Proof.
  pose proof (take_ready_ok _ _ _ _ Hcall) as (Ok' & _ & _). specialize (Ok' Hok).
  unfold take_ready in Hcall. destruct (take_ready_loop _ _ _) as [[o rest] v] eqn:E. injection Hcall as <- <-.
  apply take_ready_loop_spec in E as (due & Hq & -> & Hd & Hr & _). pose proof (do_sorted _ Hok Hord) as S. rewrite Hq in S.
  assert (Hrest : Forall (fun c => ~ cd_at c <= now) rest).
  { assert (Sr : StronglySorted key_lt rest) by (clear -S; induction due as [|c due IH]; [done|]; cbn in S; inversion S; auto).
    destruct rest as [|c rest]; [done|]. constructor; [lia|]. inversion Sr as [|? ? _ Hc]; subst.
    eapply Forall_impl; [exact Hc|]. cbn. intros x Hx. unfold key_lt in Hx. lia. }
  assert (F1 : filter (fun c => cd_at c <= now) (de_queue e) = due)
    by (by rewrite Hq, filter_app, (filter_every _ due Hd), (filter_none _ rest Hrest), app_nil_r).
  assert (F2 : filter (fun c => ~ cd_at c <= now) (de_queue e) = rest).
  { rewrite Hq, filter_app, (filter_every _ rest Hrest), (filter_none _ due); [done|].
    eapply Forall_impl; [exact Hd|]. cbn. auto. }
  rewrite F1, F2. split; [done|]. split.
  { clear -S. induction due as [|c due IH]; [constructor|]. cbn in S. inversion S as [|? ? S1 S2]; subst.
    constructor; [by apply IH|]. by apply Forall_app in S2 as [S2 _]. }
  split; [done|]. split.
  - unfold next_deadline. cbn. intros t Ht. destruct rest as [|c rest]; [done|]. injection Ht as <-. done.
  - rewrite (do_datagrams _ Ok'), (do_datagrams _ Hok). cbn [de_queue set_de_queue set_de_evidence].
    rewrite Hq, zlen_app, zlen_map. lia.
Qed.

(** * The fate of a datagram *)

Import Live.

(** ** Identity-scoped decisions *)

Definition paced (k : DatagramFaultKind) : bool := match k with DBandwidth _ _ => true | _ => false end.

Lemma stage_seed_identity policy ordinal copy stage fault e1 e2 : identity e1 = identity e2 ->
  stage_seed policy ordinal copy stage fault e1 = stage_seed policy ordinal copy stage fault e2.
Proof.
  unfold stage_seed, identity. intros [= E1 E2 E3]. rewrite E1, E2, E3.
  by destruct (de_rng_version e1), (de_rng_version e2).
Qed.

Lemma duplicate_loop_evidence n payload delay : forall next v1 v2,
  (duplicate_loop n payload delay next v1).1 = (duplicate_loop n payload delay next v2).1.
Proof.
  induction n as [|n IH]; intros next v1 v2; [done|]. cbn [duplicate_loop].
  set (w1 := set_d_duplicated_copies _ v1). set (w2 := set_d_duplicated_copies _ v2).
  specialize (IH (sat_add U16_MAX next 1) w1 w2).
  destruct (duplicate_loop n payload delay _ w1) as [[r1 x1] y1].
  destruct (duplicate_loop n payload delay _ w2) as [[r2 x2] y2]. cbn in *. by injection IH as -> ->.
Qed.

Lemma apply_fault_identity n1 n2 fault rng draft next e1 e2 : paced (dg_kind fault) = false ->
  (apply_fault n1 fault rng draft next e1).1 = (apply_fault n2 fault rng draft next e2).1.
Proof.
  destruct draft as [[copy payload] delay]. unfold apply_fault.
  destruct (dg_kind fault) as [d j| |n|hold|count|rate burst]; intros Hp; try done; cbv zeta.
  - pose proof (duplicate_loop_evidence (Z.to_nat n) payload delay next (de_evidence e1) (de_evidence e2)) as H.
    destruct (duplicate_loop _ _ _ _ (de_evidence e1)) as [[r1 x1] y1].
    destruct (duplicate_loop _ _ _ _ (de_evidence e2)) as [[r2 x2] y2]. cbn in *. by injection H as -> ->.
  - by destruct payload.
Qed.

Lemma run_candidate_identity n1 n2 policy ordinal stage fault draft next e1 e2 : paced (dg_kind fault) = false ->
  identity e1 = identity e2 ->
  (run_candidate n1 policy ordinal stage fault draft next e1).1
  = (run_candidate n2 policy ordinal stage fault draft next e2).1.
Proof.
  intros Hp Hi. unfold run_candidate. cbv zeta. rewrite (stage_seed_identity _ _ _ _ _ e1 e2 Hi).
  destruct (bernoulli _ _) as [active rng]. destruct active; cbn [negb]; [|done]. by apply apply_fault_identity.
Qed.

Lemma run_candidate_keeps_identity now policy ordinal stage fault draft next e : dkind_typed (dg_kind fault) ->
  identity (run_candidate now policy ordinal stage fault draft next e).2 = identity e.
Proof.
  intros Ht. destruct (run_candidate _ _ _ _ _ _ _ _) as [[out nx] e'] eqn:E.
  by apply run_candidate_effect in E as [[_ ?] _ _ _ _].
Qed.

Lemma run_stage_identity n1 n2 policy ordinal stage fault l : paced (dg_kind fault) = false ->
  dkind_typed (dg_kind fault) -> forall next e1 e2, identity e1 = identity e2 ->
  (run_stage n1 policy ordinal stage fault l next e1).1 = (run_stage n2 policy ordinal stage fault l next e2).1
  /\ identity (run_stage n1 policy ordinal stage fault l next e1).2
     = identity (run_stage n2 policy ordinal stage fault l next e2).2.
Proof.
  intros Hp Ht. induction l as [|draft l IH]; intros next e1 e2 Hi; [done|]. cbn [run_stage].
  pose proof (run_candidate_identity n1 n2 policy ordinal stage fault draft next e1 e2 Hp Hi) as H.
  pose proof (run_candidate_keeps_identity n1 policy ordinal stage fault draft next e1 Ht) as I1.
  pose proof (run_candidate_keeps_identity n2 policy ordinal stage fault draft next e2 Ht) as I2.
  destruct (run_candidate n1 _ _ _ _ _ _ e1) as [[o1 x1] f1]. destruct (run_candidate n2 _ _ _ _ _ _ e2) as [[o2 x2] f2].
  cbn [fst snd] in *. injection H as -> ->. destruct (IH x2 f1 f2 ltac:(congruence)) as [J1 J2].
  destruct (run_stage n1 _ _ _ _ _ _ f1) as [[p1 y1] g1]. destruct (run_stage n2 _ _ _ _ _ _ f2) as [[p2 y2] g2].
  cbn in *. by injection J1 as -> ->.
Qed.

Lemma run_stages_identity n1 n2 policy ordinal fs : Forall (fun f => paced (dg_kind f) = false) fs ->
  Forall (fun f => dkind_typed (dg_kind f)) fs -> forall stage l next e1 e2, identity e1 = identity e2 ->
  (run_stages n1 policy ordinal stage fs l next e1).1 = (run_stages n2 policy ordinal stage fs l next e2).1.
Proof.
  induction 1 as [|fault fs Hp _ IH]; intros Ht stage l next e1 e2 Hi; [done|]. cbn [run_stages].
  apply Forall_cons in Ht as [Ht1 Ht].
  destruct (run_stage_identity n1 n2 policy ordinal stage fault l Hp Ht1 next e1 e2 Hi) as [J1 J2].
  destruct (run_stage n1 _ _ _ _ _ _ e1) as [[p1 y1] g1]. destruct (run_stage n2 _ _ _ _ _ _ e2) as [[p2 y2] g2].
  cbn [fst snd] in *. injection J1 as -> ->. by apply IH.
Qed.

(** Decisions are scoped to the datagram's identity.  For a plan without
    bandwidth stages, which copies of a datagram survive, with which payloads
    and which delays, depends only on the policy, the payload, its ingress
    ordinal and the engine's identity: not on the clock, on earlier traffic, on
    the queue or on the evidence. *)
Theorem datagram_fate_is_identity_scoped (policy : PublishedDatagramPolicy) (ordinal : Z) (payload : bytes)
    (now1 now2 : Instant) (e1 e2 : DatagramDirectionEngine)
    (Htyped : dplan_typed (pub_plan policy))
    (Hpace : Forall (fun f => paced (dg_kind f) = false) (dp_faults (pub_plan policy)))
    (Hid : identity e1 = identity e2) :
  (run_stages now1 policy ordinal 0 (dp_faults (pub_plan policy)) [(0, payload, 0)] 1 e1).1
  = (run_stages now2 policy ordinal 0 (dp_faults (pub_plan policy)) [(0, payload, 0)] 1 e2).1.
Proof. by apply run_stages_identity. Qed.

(** Duplication is bounded and copies are distinct.  A datagram that goes
    through a valid plan becomes at most 4096 candidates with pairwise distinct
    copy indices below 4096, so the 16-bit index never saturates; each candidate
    has the payload length limit of the original. *)
Theorem duplication_is_bounded (now : Instant) (policy : PublishedDatagramPolicy) (ordinal : Z) (payload : bytes)
    (e : DatagramDirectionEngine) (Hpolicy : policy_fine policy) :
  let drafts := (run_stages now policy ordinal 0 (dp_faults (pub_plan policy)) [(0, payload, 0)] 1 e).1.1 in
  zlen drafts <= 4096 /\ NoDup (copies drafts) /\ Forall (fun c => 0 <= c < 4096) (copies drafts)
  /\ Forall (fun d => zlen d.1.2 <= zlen payload) drafts.
Proof.
  destruct Hpolicy as [Hwf Hty]. cbv zeta.
  destruct (run_stages _ _ _ _ _ _ _ _) as [[drafts nx] e'] eqn:E. cbn [fst].
  pose proof (dw_amplification _ Hwf) as Ha.
  apply (run_stages_effect now policy ordinal _ Hty 0 _ _ _ _ _ _ 1) in E as (_ & _ & P & N & D & C);
    [|lia|done|lia|exact Ha|apply NoDup_singleton|constructor; [cbn; lia|constructor]|lia].
  unfold amplify, amplification, MAX_CANDIDATES in *. split; [lia|]. split; [done|]. split.
  - eapply Forall_impl; [exact C|]. cbn. lia.
  - apply P. by constructor.
Qed.

(** ** Corruption *)

Lemma swap_perm i j v : swap i j v ≡ₚ v.
Proof.
  unfold swap. destruct (v !! i) as [a|] eqn:Ei; [|done]. destruct (v !! j) as [b|] eqn:Ej; [|done].
  by apply Permutation_insert_swap.
Qed.
Lemma swap_take i j v : (i <= j)%nat -> take i (swap i j v) = take i v.
Proof.
  intros H. unfold swap. destruct (v !! i) as [a|]; [|done]. destruct (v !! j) as [b|]; [|done].
  by rewrite !take_insert_ge by lia.
Qed.
Lemma length_swap i j v : length (swap i j v) = length v.
Proof. pose proof (swap_length i j v). unfold zlen in *. lia. Qed.

(** Position [j] of [r] is that of [w] with one of its eight bits flipped. *)
Definition flipped (w r : bytes) (j : nat) : Prop :=
  exists x b, w !! j = Some x /\ 0 <= b < 8 /\ r !! j = Some (Z.lxor x (Z.shiftl 1 b)).

Lemma corrupt_loop_spec n : forall i v rng, (i + n <= length v)%nat ->
  let r := (corrupt_loop n i v rng).1 in
  take i r = take i v
  /\ exists w, w ≡ₚ v /\ take i w = take i v /\ drop (i + n) r = drop (i + n) w
     /\ forall j, (i <= j < i + n)%nat -> flipped w r j.
Proof.
  induction n as [|n IH]; intros i v rng Hlen; cbn [corrupt_loop].
  { split; [done|]. exists v. split; [done|]. split; [done|]. split; [done|]. lia. }
  destruct (below rng (zlen v - Z.of_nat i)) as [o r1].
  pose proof (below_range r1 8 ltac:(lia)) as Hbit. destruct (below r1 8) as [bit r2]. cbn [fst] in Hbit.
  set (v1 := swap i (i + Z.to_nat o) v). set (f := fun b => Z.lxor b (Z.shiftl 1 bit)).
  assert (L1 : length v1 = length v) by apply length_swap.
  destruct (lookup_lt_is_Some_2 v1 i) as [x Hx]; [lia|].
  assert (E1 : take i v1 ++ x :: drop (S i) v1 = v1) by (by apply take_drop_middle).
  assert (La : length (take i v1) = i) by (rewrite length_take; lia).
  assert (E2 : alter f i v1 = take i v1 ++ f x :: drop (S i) v1).
  { rewrite <- E1 at 1. rewrite alter_app_r_alt by lia. by rewrite La, Nat.sub_diag. }
  specialize (IH (S i) (alter f i v1) r2 ltac:(rewrite length_alter; lia)). cbv zeta in IH.
  set (r := (corrupt_loop n (S i) (alter f i v1) r2).1) in *.
  assert (Et : take (S i) (alter f i v1) = take i v1 ++ [f x]).
  { rewrite E2, take_app_ge by lia. rewrite La. by replace (S i - i)%nat with 1%nat by lia. }
  rewrite Et in IH. destruct IH as (R1 & w2 & W1 & W2 & W3 & W4).
  assert (Er : take i r = take i v).
  { rewrite <- (swap_take i (i + Z.to_nat o) v) by lia. fold v1.
    rewrite <- (take_app_length (take i v1) [f x]), <- R1, La, take_take. f_equal. lia. }
  split; [exact Er|].
  set (t2 := drop (S i) w2). assert (Ew2 : w2 = take i v1 ++ f x :: t2).
  { rewrite <- (take_drop (S i) w2), W2. unfold t2. by rewrite <- app_assoc. }
  assert (Pt : t2 ≡ₚ drop (S i) v1).
  { rewrite Ew2, E2 in W1. apply Permutation_app_inv_l in W1. by apply Permutation_cons_inv in W1. }
  exists (take i v1 ++ x :: t2). split.
  { rewrite Pt, E1. apply swap_perm. }
  split. { rewrite <- La at 1. rewrite take_app_length. apply swap_take. lia. }
  assert (Same : forall j, j <> i -> (take i v1 ++ x :: t2) !! j = w2 !! j).
  { intros j Hj. rewrite Ew2. destruct (Nat.lt_ge_cases j i).
    - by rewrite !lookup_app_l by lia.
    - rewrite !lookup_app_r by lia. rewrite La. by destruct (j - i)%nat eqn:Ej; [lia|]. }
  split.
  - replace (i + S n)%nat with (S i + n)%nat by lia. rewrite W3. apply list_eq. intros j.
    rewrite !lookup_drop. symmetry. apply Same. lia.
  - intros j Hj. destruct (decide (j = i)) as [->|Hne].
    + exists x, bit. split; [by apply list_lookup_middle|]. split; [done|].
      assert (Hl : take (S i) r !! i = Some (f x)) by (rewrite R1; by apply list_lookup_middle).
      rewrite lookup_take_lt in Hl by lia. exact Hl.
    + destruct (W4 j ltac:(lia)) as (y & b & Y1 & Y2 & Y3). exists y, b. split; [by rewrite Same|done].
Qed.

(** Corruption flips one bit in each of the configured number of bytes - of a
    reordered payload.  The result has the payload's length, and is a permutation
    [w] of the payload in which each of the first [min count length] bytes has
    exactly one bit flipped and no other byte differs from [w]. *)
Theorem corruption_flips_bits_of_a_permutation (count : Z) (payload : bytes) (rng : DeterministicRng)
    (Hcount : 0 <= count) :
  let n := Z.to_nat (Z.min count (zlen payload)) in
  let r := corrupt count payload rng in
  zlen r = zlen payload
  /\ exists w, w ≡ₚ payload /\ drop n r = drop n w /\ forall j, (j < n)%nat -> flipped w r j.
Proof.
  cbv zeta. split; [apply corrupt_length|]. unfold corrupt. set (n := Z.to_nat _).
  destruct (corrupt_loop_spec n 0 payload rng) as (_ & w & W1 & _ & W3 & W4); [unfold n, zlen; lia|].
  exists w. split; [done|]. split; [exact W3|]. intros j Hj. apply W4. lia.
Qed.
