(* ===== verification/DatagramPaths.v ===== *)
(** * Pacing, the immediate path, and concrete datagram engines

    The datagram token bucket conforms to its rate; emitting at admission is
    queueing followed by an immediate release.  Then the repository's golden
    traces replayed on the model, and each property of the datagram engine
    applied to a concrete engine and policy. *)

From Stdlib Require Import Bool SpecFloat.
From stdpp Require Import base list gmap strings sorting.
From S2P Require Import Prelude Rng Float64 Plan Policy Env DatagramPlan DatagramState Datagram DatagramProps DatagramRun.

(** ** Pacing *)

Record pace_ok (rate burst : Z) (b : Bucket) : Prop := {
  pc_rate : 1 <= rate <= U64_MAX;
  pc_tokens : 0 <= bk_tokens b <= burst /\ burst <= U64_MAX
}.

(** One datagram: its release time is the bucket's clock, which never goes back
    and advances by at least what the tokens do not cover. *)
Lemma bucket_pace_spec now size rate burst b d b' bound : pace_ok rate burst b ->
  0 <= size <= 65535 -> bk_updated b <= bound -> 0 <= now <= bound -> bound + size * 1000000000 <= INSTANT_MAX ->
  bucket_pace now size rate burst b = (d, b') ->
  pace_ok rate burst b' /\ 0 <= d /\ now + d = bk_updated b' /\ bk_updated b <= bk_updated b'
  /\ bk_updated b' <= bound + size * 1000000000
  /\ 1000000000 * (size + bk_tokens b') <= 1000000000 * bk_tokens b + rate * (bk_updated b' - bk_updated b).
Proof.
  intros [Hr Ht] Hs Hu Hn Hb. unfold bucket_pace. cbv zeta. set (vn := Z.max now (bk_updated b)).
  unfold saturating_duration_since. rewrite !Z.max_l by lia.
  assert (Hel : 0 <= vn - bk_updated b) by lia. set (el := vn - bk_updated b) in *.
  set (refill := sat_mul128 el rate / 1000000000).
  assert (Hrf : 0 <= refill /\ 1000000000 * refill <= rate * el).
  { unfold refill, sat_mul. assert (0 <= Z.min (el * rate) U128_MAX) by (unfold U128_MAX; nia).
    split; [apply Z.div_pos; lia|]. pose proof (Z.mul_div_le (Z.min (el * rate) U128_MAX) 1000000000 ltac:(lia)). nia. }
  set (tok := Z.min (sat_add64 (bk_tokens b) (Z.min refill U64_MAX)) burst).
  assert (Htok : 0 <= tok <= burst /\ tok <= bk_tokens b + refill).
  { unfold tok, sat_add. unfold U64_MAX in *. lia. }
  clearbody refill tok. destruct (Z.leb_spec size tok) as [Hle|Hgt].
  - intros [= <- <-]. cbn. split; [split; cbn; lia|]. fold el. conjs; nia.
  - set (def := size - tok) in *. assert (Hd : 0 < def <= 65535) by lia.
    assert (E : sat_add128 (sat_mul128 def 1000000000) (rate - 1) = def * 1000000000 + (rate - 1)).
    { unfold sat_add, sat_mul, U128_MAX, U64_MAX in *. lia. }
    rewrite E. set (nanos := (def * 1000000000 + (rate - 1)) / rate).
    assert (Hnan : 0 <= nanos <= def * 1000000000 /\ def * 1000000000 <= rate * nanos).
    { unfold nanos. pose proof (Z.div_mod (def * 1000000000 + (rate - 1)) rate ltac:(lia)) as Hdm.
      pose proof (Z.mod_pos_bound (def * 1000000000 + (rate - 1)) rate ltac:(lia)) as Hmb.
      split; [split|]; [apply Z.div_pos; lia| |lia].
      apply Z.div_le_upper_bound; [lia|]. nia. }
    clearbody nanos. rewrite (Z.min_l nanos U64_MAX) by (unfold U64_MAX; lia).
    unfold instant_checked_add. rewrite (proj2 (Z.leb_le _ _)) by lia.
    assert (Ed : duration_saturating_add (vn - now) nanos = vn - now + nanos).
    { unfold duration_saturating_add. apply Z.min_l. unfold DURATION_MAX, INSTANT_MAX, U64_MAX, NANOS_PER_SEC in *. lia. }
    rewrite Ed. intros [= <- <-]. cbn. split; [split; cbn; lia|]. conjs; try lia.
Qed.

(** A sequence of datagrams through one bucket: their release times. *)
Fixpoint paces (rate burst : Z) (b : Bucket) (reqs : list (Instant * Z)) : list Instant * Bucket :=
  match reqs with
  | [] => ([], b)
  | (now, size) :: reqs' =>
      let '(d, b) := bucket_pace now size rate burst b in
      let '(rs, b) := paces rate burst b reqs' in
      (now + d :: rs, b)
  end.
Definition load (reqs : list (Instant * Z)) : Z := zsum (map snd reqs).

Lemma load_nonneg reqs : Forall (fun r => 0 <= r.2 <= 65535) reqs -> 0 <= load reqs.
Proof. unfold load, zsum. induction 1; cbn; lia. Qed.

Lemma paces_spec rate burst reqs : forall b bound, pace_ok rate burst b ->
  Forall (fun r => 0 <= r.2 <= 65535) reqs -> Forall (fun r => 0 <= r.1 <= bound) reqs -> bk_updated b <= bound ->
  bound + load reqs * 1000000000 <= INSTANT_MAX ->
  let '(rs, b') := paces rate burst b reqs in
  pace_ok rate burst b' /\ bk_updated b <= bk_updated b'
  /\ Forall2 (fun r release => r.1 <= release) reqs rs
  /\ StronglySorted Z.le rs /\ Forall (fun r => bk_updated b <= r <= bk_updated b') rs
  /\ (reqs <> [] -> last rs = Some (bk_updated b'))
  /\ 1000000000 * (load reqs + bk_tokens b') <= 1000000000 * bk_tokens b + rate * (bk_updated b' - bk_updated b)
  /\ bk_updated b' <= bound + load reqs * 1000000000.
Proof.
  induction reqs as [|[now size] reqs IH]; intros b bound Hok Hs Hn Hu Hb; cbn [paces].
  { change (load []) with 0. split; [done|]. split; [lia|]. split; [constructor|]. split; [constructor|].
    split; [constructor|]. split; [done|]. lia. }
  apply Forall_cons in Hs as [Hs1 Hs]. apply Forall_cons in Hn as [Hn1 Hn]. cbn in Hs1, Hn1.
  change (load ((now, size) :: reqs)) with (size + load reqs) in *. pose proof (load_nonneg reqs Hs).
  destruct (bucket_pace now size rate burst b) as [d b1] eqn:E.
  destruct (bucket_pace_spec now size rate burst b d b1 bound Hok Hs1 Hu Hn1 ltac:(lia) E) as (O1 & D1 & R1 & M1 & B1 & C1).
  assert (Hn' : Forall (fun r => 0 <= r.1 <= bound + size * 1000000000) reqs)
    by (eapply Forall_impl; [exact Hn|]; cbn; lia).
  specialize (IH b1 (bound + size * 1000000000) O1 Hs Hn' B1 ltac:(lia)).
  destruct (paces rate burst b1 reqs) as [rs b2] eqn:Ep. destruct IH as (O2 & M2 & F2 & S2 & I2 & L2 & C2 & U2).
  split; [done|]. split; [lia|]. split; [constructor; [cbn; lia|done]|]. split.
  { constructor; [done|]. eapply Forall_impl; [exact I2|]. cbn. lia. }
  split. { constructor; [lia|]. eapply Forall_impl; [exact I2|]. cbn. lia. }
  split; [|split; [nia|lia]]. intros _. destruct reqs as [|r reqs].
  - injection Ep as <- <-. cbn. by rewrite R1.
  - destruct rs as [|r1 rs]; [by inversion F2|]. specialize (L2 ltac:(done)). exact L2.
Qed.

(** The datagram bucket conforms to its rate.  For any sequence of datagrams
    through one bandwidth stage: the release times never decrease and none is
    before its admission, and from any point on the bytes released fit in one
    burst plus the rate times the time since, so a deficit is carried over to
    the datagrams behind it. *)
Theorem datagram_bandwidth_conforms (rate burst : Z) (b : Bucket) (before after : list (Instant * Z)) (bound : Z)
    (Hbucket : pace_ok rate burst b)
    (Hsizes : Forall (fun r => 0 <= r.2 <= 65535) (before ++ after))
    (Htimes : Forall (fun r => 0 <= r.1 <= bound) (before ++ after)) (Hstart : bk_updated b <= bound)
    (Hrange : bound + load (before ++ after) * 1000000000 <= INSTANT_MAX) :
  let '(rs1, b1) := paces rate burst b before in
  let '(rs2, b2) := paces rate burst b1 after in
  Forall2 (fun r release => r.1 <= release) (before ++ after) (rs1 ++ rs2)
  /\ StronglySorted Z.le (rs1 ++ rs2)
  /\ (after <> [] -> last rs2 = Some (bk_updated b2))
  /\ 1000000000 * load after <= 1000000000 * burst + rate * (bk_updated b2 - bk_updated b1).
Proof.
  apply Forall_app in Hsizes as [S1 S2]. apply Forall_app in Htimes as [N1 N2].
  assert (El : load (before ++ after) = load before + load after) by (unfold load; by rewrite map_app, zsum_app).
  rewrite El in Hrange. pose proof (load_nonneg before S1). pose proof (load_nonneg after S2).
  pose proof (paces_spec rate burst before b bound Hbucket S1 N1 Hstart ltac:(lia)) as P1.
  destruct (paces rate burst b before) as [rs1 b1]. destruct P1 as (O1 & M1 & F1 & D1 & I1 & _ & C1 & U1).
  assert (N2' : Forall (fun r => 0 <= r.1 <= bound + load before * 1000000000) after)
    by (eapply Forall_impl; [exact N2|]; cbn; lia).
  pose proof (paces_spec rate burst after b1 _ O1 S2 N2' U1 ltac:(lia)) as P2.
  destruct (paces rate burst b1 after) as [rs2 b2]. destruct P2 as (O2 & M2 & F2 & D2 & I2 & L2 & C2 & _).
  split; [by apply Forall2_app|]. split; [|split; [done|]].
  - apply StronglySorted_app. split; [|done]. intros x y Hx Hy. rewrite Forall_forall in I1, I2.
    specialize (I1 x Hx). specialize (I2 y Hy). cbn in *. lia.
  - destruct (pc_tokens _ _ _ O1). destruct (pc_tokens _ _ _ O2). nia.
Qed.

(** ** The order of immediate items *)

Definition item_lt (a b : DatagramScheduled) : Prop :=
  ds_ingress_ordinal a < ds_ingress_ordinal b
  \/ (ds_ingress_ordinal a = ds_ingress_ordinal b /\ ds_copy_index a < ds_copy_index b).
#[export] Instance item_lt_trans : Transitive item_lt.
Proof. intros a b c. unfold item_lt. lia. Qed.
#[export] Instance item_lt_antisym : AntiSymm (=) item_lt.
Proof. intros a b. unfold item_lt. lia. Qed.

Lemma item_ltb_spec a b : if item_ltb a b then item_lt a b else ~ item_lt a b.
Proof.
  unfold item_lt, item_ltb. destruct (Z.ltb_spec (ds_ingress_ordinal a) (ds_ingress_ordinal b)); cbn [orb]; [lia|].
  destruct (Z.eqb_spec (ds_ingress_ordinal a) (ds_ingress_ordinal b)); cbn [andb]; [|lia].
  destruct (Z.ltb_spec (ds_copy_index a) (ds_copy_index b)); lia.
Qed.

Lemma sorted_insert_perm x l : sorted_insert x l ≡ₚ x :: l.
Proof.
  induction l as [|y l IH]; cbn; [done|]. destruct (item_ltb y x); [|done]. rewrite IH. by constructor.
Qed.
Lemma sort_items_perm l : sort_items l ≡ₚ l.
Proof. induction l as [|x l IH]; cbn; [done|]. rewrite sorted_insert_perm. by constructor. Qed.

(** Distinct identities are comparable. *)
Definition distinct_items (a b : DatagramScheduled) : Prop := item_lt a b \/ item_lt b a.

Lemma sorted_insert_sorted x l : StronglySorted item_lt l -> Forall (distinct_items x) l ->
  StronglySorted item_lt (sorted_insert x l).
Proof.
  induction 1 as [|y l Hs IH Hy]; intros Hd; cbn; [by repeat constructor|].
  apply Forall_cons in Hd as [Hd1 Hd]. pose proof (item_ltb_spec y x) as L. destruct (item_ltb y x).
  - constructor; [by apply IH|]. rewrite (sorted_insert_perm x l). by constructor.
  - constructor; [by constructor|]. assert (Hxy : item_lt x y) by (by destruct Hd1).
    constructor; [done|]. eapply Forall_impl; [exact Hy|]. intros z Hz. by apply (item_lt_trans x y z).
Qed.

Lemma sort_items_sorted ordinal g l : NoDup (copies l) ->
  StronglySorted item_lt (sort_items (map (item_of ordinal g) l)).
Proof.
  induction l as [|d l IH]; intros Hn; cbn; [constructor|]. apply NoDup_cons in Hn as [Hn1 Hn].
  apply sorted_insert_sorted; [by apply IH|]. rewrite (sort_items_perm (map (item_of ordinal g) l)).
  apply Forall_forall. intros y (d' & -> & Hd')%list_elem_of_fmap. unfold distinct_items, item_lt. cbn.
  assert (d.1.1 <> d'.1.1); [|lia]. intros E. apply Hn1. rewrite E. apply list_elem_of_fmap. by exists d'.
Qed.

(** ** Both paths, as counters *)

(** The evidence without the counters the two paths write. *)
Definition aside (v : DatagramEvidence) : DatagramEvidence :=
  set_d_queued_datagrams 0 (set_d_queued_bytes 0 (set_d_emitted_datagrams 0 (set_d_emitted_bytes 0
    (set_d_high_water_datagrams 0 (set_d_high_water_bytes 0 v))))).
Definition but_high_water (e : DatagramDirectionEngine) : DatagramDirectionEngine :=
  with_evidence (fun v => set_d_high_water_datagrams 0 (set_d_high_water_bytes 0 v)) e.

Lemma aside_queued s v : aside (note_queued s v) = aside v.
Proof. done. Qed.
Lemma aside_emitted s v : aside (note_emitted s v) = aside v.
Proof. done. Qed.

Lemma aside_high v v' : aside v = aside v' ->
  d_queued_datagrams v = d_queued_datagrams v' -> d_queued_bytes v = d_queued_bytes v' ->
  d_emitted_datagrams v = d_emitted_datagrams v' -> d_emitted_bytes v = d_emitted_bytes v' ->
  set_d_high_water_datagrams 0 (set_d_high_water_bytes 0 v) = set_d_high_water_datagrams 0 (set_d_high_water_bytes 0 v').
Proof.
  destruct v, v'. unfold aside. cbn. repeat match goal with r : RngVersion |- _ => destruct r end.
  intros [= ] -> -> -> ->. subst. done.
Qed.

(** The counters of [n] emissions of [s] bytes in all from an empty queue. *)
Record drained (v v' : DatagramEvidence) (n s : Z) : Prop := {
  dd_aside : aside v' = aside v;
  dd_queued : d_queued_datagrams v' = 0 /\ d_queued_bytes v' = 0;
  dd_emitted : d_emitted_datagrams v' = sat_add64 (d_emitted_datagrams v) n;
  dd_bytes : d_emitted_bytes v' = sat_add64 (d_emitted_bytes v) s
}.
Record fresh_counters (v : DatagramEvidence) : Prop := {
  fc_queued : d_queued_datagrams v = 0 /\ d_queued_bytes v = 0;
  fc_range : 0 <= d_emitted_datagrams v <= U64_MAX /\ 0 <= d_emitted_bytes v <= U64_MAX
}.

Lemma sat_add_step a n m : 0 <= n -> 0 <= m -> sat_add64 (sat_add64 a n) m = sat_add64 a (n + m).
Proof. unfold sat_add. lia. Qed.
Lemma sat_there_and_back s : 0 <= s <= U64_MAX -> sat_sub (sat_add64 0 s) s = 0.
Proof. unfold sat_sub, sat_add. lia. Qed.

Lemma drained_cons v s n t v' : 0 <= s -> 0 <= n -> 0 <= t ->
  drained (note_emitted s v) v' n t -> drained v v' (1 + n) (s + t).
Proof.
  intros Hs Hn Ht [A Q E B]. rewrite aside_emitted in A. cbn in E, B.
  rewrite sat_add_step in E, B by lia. by split.
Qed.

Lemma emit_all_drained ordinal g l : forall e items e', emit_all ordinal g l e = (items, e') ->
  fresh_counters (de_evidence e) -> drafts_size l <= U64_MAX ->
  drained (de_evidence e) (de_evidence e') (zlen l) (drafts_size l).
Proof.
  induction l as [|[[c p] d] l IH]; intros e items e'; cbn [emit_all].
  { intros [= <- <-] [Q R] _. change (zlen []) with 0. change (drafts_size []) with 0.
    split; [done|done|unfold sat_add; lia|unfold sat_add; lia]. }
  destruct (emit_immediate ordinal p g c e) as [item e1] eqn:E1.
  destruct (emit_all ordinal g l e1) as [items1 e2] eqn:E2. intros [= <- <-] [[Q1 Q2] [R1 R2]] Hs.
  pose proof (zlen_nonneg p). pose proof (zlen_nonneg l). pose proof (drafts_size_nonneg l).
  change (drafts_size ((c, p, d) :: l)) with (zlen p + drafts_size l) in *. rewrite zlen_cons.
  unfold emit_immediate in E1. injection E1 as <- <-.
  pose proof (sat_there_and_back 1 ltac:(unfold U64_MAX; lia)) as B1.
  pose proof (sat_there_and_back (zlen p) ltac:(lia)) as B2.
  apply IH in E2; [| |lia].
  - destruct E2 as [A Q E B]. cbn [de_evidence with_evidence set_de_evidence note_emitted note_queued] in E, B.
    cbn in E, B. rewrite sat_add_step in E, B by lia. by split.
  - split; cbn; rewrite ?Q1, ?Q2; [done|]. unfold sat_add, U64_MAX in *. lia.
Qed.

Lemma emissions_drained due : forall v, 0 <= d_emitted_datagrams v <= U64_MAX -> 0 <= d_emitted_bytes v <= U64_MAX ->
  d_queued_datagrams v = zlen due -> d_queued_bytes v = queue_size due ->
  drained v (foldl (fun v c => note_emitted (zlen (cd_payload c)) v) v due) (zlen due) (queue_size due).
Proof.
  induction due as [|c due IH]; intros v R1 R2 Q1 Q2; cbn [foldl].
  { change (zlen []) with 0 in *. change (queue_size []) with 0 in *. split; [done|done|unfold sat_add; lia..]. }
  pose proof (zlen_nonneg due). pose proof (zlen_nonneg (cd_payload c)). pose proof (queue_size_nonneg due).
  change (queue_size (c :: due)) with (zlen (cd_payload c) + queue_size due) in *. rewrite zlen_cons in *.
  apply drained_cons; [done..|]. apply IH; cbn; unfold sat_add, sat_sub, U64_MAX in *; lia.
Qed.

(** The queue path with room for everything. *)
Definition cand (now : Instant) (ordinal g : Z) (d : Draft) : Candidate :=
  {| cd_at := now + d.2; cd_ordinal := ordinal; cd_copy := d.1.1; cd_payload := d.1.2; cd_generation := g |}.

Definition note_all_queued (l : list Draft) (v : DatagramEvidence) : DatagramEvidence :=
  foldl (fun v d => note_queued (zlen d.1.2) v) v l.

Lemma queue_all_roomy now ordinal g l : forall any e,
  limits_ok (de_limits e) -> d_queued_bytes (de_evidence e) = queue_size (de_queue e) ->
  zlen (de_queue e) + zlen l <= max_queued_datagrams (de_limits e) ->
  queue_size (de_queue e) + drafts_size l <= max_queued_bytes (de_limits e) ->
  exists q, (queue_all now ordinal g l any e).2 = set_de_queue q (set_de_evidence (note_all_queued l (de_evidence e)) e)
  /\ q ≡ₚ map (cand now ordinal g) l ++ de_queue e.
Proof.
  induction l as [|[[c p] d] l IH]; intros any e L Hb Hn Hs.
  { exists (de_queue e). by destruct e. }
  rewrite queue_all_cons. rewrite zlen_cons in Hn. change (drafts_size ((c, p, d) :: l)) with (zlen p + drafts_size l) in Hs.
  pose proof (zlen_nonneg p). pose proof (zlen_nonneg l). pose proof (drafts_size_nonneg l).
  pose proof (queue_size_nonneg (de_queue e)). pose proof (lo_bytes _ L).
  assert (Eb : sat_add64 (queue_size (de_queue e)) (zlen p) = queue_size (de_queue e) + zlen p).
  { unfold sat_add. apply Z.min_l. transitivity (max_queued_bytes (de_limits e)); [lia|]. unfold U64_MAX. lia. }
  assert (Ef : too_full (zlen p) e = false).
  { unfold too_full. rewrite Hb, Eb. apply orb_false_iff. split; [apply Z.leb_gt; lia|apply Z.ltb_ge; lia]. }
  rewrite Ef. edestruct (IH true (enqueue (now + d) ordinal c p g e)) as (q & Hq & Pq).
  - exact L.
  - cbn -[queue_size heap_push]. by rewrite queue_size_push, Hb, Eb, Z.add_comm.
  - cbn -[heap_push]. rewrite zlen_push. lia.
  - cbn -[heap_push queue_size]. rewrite queue_size_push. cbn -[queue_size]. lia.
  - exists q. split; [exact Hq|]. rewrite Pq. cbn -[heap_push]. rewrite heap_push_perm. by rewrite Permutation_middle.
Qed.

(** ** The evidence of each path *)

Definition note_all_emitted (l : list Draft) (v : DatagramEvidence) : DatagramEvidence :=
  foldl (fun v d => note_emitted (zlen d.1.2) (note_queued (zlen d.1.2) v)) v l.

Lemma emit_all_evidence ordinal g l : forall e,
  (emit_all ordinal g l e).2 = set_de_evidence (note_all_emitted l (de_evidence e)) e.
Proof.
  induction l as [|[[c p] d] l IH]; intros e; [by destruct e|]. cbn [emit_all emit_immediate].
  specialize (IH (with_evidence (note_emitted (zlen p)) (with_evidence (note_queued (zlen p)) e))).
  destruct (emit_all _ _ _ _) as [items e']. exact IH.
Qed.

Lemma note_all_queued_spec l : forall v,
  aside (note_all_queued l v) = aside v
  /\ d_emitted_datagrams (note_all_queued l v) = d_emitted_datagrams v
  /\ d_emitted_bytes (note_all_queued l v) = d_emitted_bytes v
  /\ (0 <= d_queued_datagrams v -> 0 <= d_queued_bytes v ->
      d_queued_datagrams v + zlen l <= U64_MAX -> d_queued_bytes v + drafts_size l <= U64_MAX ->
      d_queued_datagrams (note_all_queued l v) = d_queued_datagrams v + zlen l
      /\ d_queued_bytes (note_all_queued l v) = d_queued_bytes v + drafts_size l).
Proof.
  induction l as [|[[c p] d] l IH]; intros v; cbn [note_all_queued foldl].
  { change (zlen []) with 0. change (drafts_size []) with 0. conjs; try done; intros; conjs; lia. }
  destruct (IH (note_queued (zlen p) v)) as (I1 & I2 & I3 & I4). unfold note_all_queued in *. cbn [fst snd].
  split; [exact I1|]. split; [exact I2|]. split; [exact I3|]. intros H1 H2 H3 H4. rewrite zlen_cons in *.
  change (drafts_size ((c, p, d) :: l)) with (zlen p + drafts_size l) in *.
  pose proof (zlen_nonneg p). pose proof (zlen_nonneg l). pose proof (drafts_size_nonneg l).
  destruct I4 as [J1 J2]; cbn in *; unfold sat_add in *; lia.
Qed.

(** One datagram at a time never reaches a higher mark than all at once. *)
Lemma high_water_le l : forall v w, drafts_size l <= U64_MAX ->
  d_queued_datagrams v = 0 -> d_queued_bytes v = 0 -> 0 <= d_queued_datagrams w -> 0 <= d_queued_bytes w ->
  d_high_water_datagrams v <= d_high_water_datagrams w -> d_high_water_bytes v <= d_high_water_bytes w ->
  d_high_water_datagrams (note_all_emitted l v) <= d_high_water_datagrams (note_all_queued l w)
  /\ d_high_water_bytes (note_all_emitted l v) <= d_high_water_bytes (note_all_queued l w).
Proof.
  induction l as [|[[c p] d] l IH]; intros v w Hs Q1 Q2 W1 W2 H1 H2; [done|].
  change (drafts_size ((c, p, d) :: l)) with (zlen p + drafts_size l) in *.
  pose proof (zlen_nonneg p). pose proof (drafts_size_nonneg l).
  unfold note_all_emitted, note_all_queued in *. cbn [foldl fst snd].
  apply IH; cbn; rewrite ?Q1, ?Q2; unfold sat_add, sat_sub, U64_MAX in *; lia.
Qed.

(** ** The equivalence *)

Lemma scheduled_sorted now q : Forall (fun c => cd_at c = now) q -> StronglySorted key_lt q ->
  StronglySorted item_lt (map scheduled_of q).
Proof.
  intros Hq. induction 1 as [|c q Hs IH Hc]; cbn; [constructor|]. apply Forall_cons in Hq as [Hq1 Hq].
  constructor; [by apply IH|]. apply Forall_forall. intros y (d & -> & Hd)%list_elem_of_fmap.
  rewrite Forall_forall in Hc, Hq. specialize (Hc d Hd). specialize (Hq d Hd). unfold key_lt, item_lt in *. cbn. lia.
Qed.

Lemma drain_everything now e : Forall (fun c => cd_at c <= now) (de_queue e) ->
  take_ready now e = (map scheduled_of (de_queue e),
    set_de_queue [] (set_de_evidence
      (foldl (fun v c => note_emitted (zlen (cd_payload c)) v) (de_evidence e) (de_queue e)) e)).
Proof.
  intros Hd. unfold take_ready. destruct (take_ready_loop _ _ _) as [[o r] v] eqn:E.
  apply take_ready_loop_spec in E as (due & Hq & -> & _ & Hr & ->). destruct r as [|c r].
  - rewrite app_nil_r in Hq. by subst.
  - rewrite Hq in Hd. apply Forall_app in Hd as [_ Hd]. apply Forall_cons in Hd as [Hd _]. lia.
Qed.

Lemma queue_size_cand now ordinal g l : queue_size (map (cand now ordinal g) l) = drafts_size l.
Proof. unfold queue_size, drafts_size. rewrite map_map. done. Qed.

(** The queue path from an empty queue, released at once. *)
Lemma queue_then_drain now ordinal g l e : dengine_ok e -> immediate_facts l e -> NoDup (copies l) ->
  payloads_fit (max_datagram_bytes (de_limits e)) l -> 0 <= ordinal < de_ordinal e -> de_ordinal e < U64_MAX ->
  0 <= d_emitted_datagrams (de_evidence e) <= U64_MAX -> 0 <= d_emitted_bytes (de_evidence e) <= U64_MAX ->
  exists v, take_ready now (queue_all now ordinal g l false e).2
            = (sort_items (map (item_of ordinal g) l), set_de_queue [] (set_de_evidence v e))
  /\ drained (de_evidence e) v (zlen l) (drafts_size l)
  /\ (d_high_water_datagrams v, d_high_water_bytes v)
     = (d_high_water_datagrams (note_all_queued l (de_evidence e)), d_high_water_bytes (note_all_queued l (de_evidence e))).
Proof.
  intros Hok [Q Ne Un Cn Sz] Hd Hp Hord Hlt R1 R2. pose proof (do_limits _ Hok) as L.
  pose proof (do_datagrams _ Hok) as Dn. pose proof (do_bytes _ Hok) as Db. rewrite Q in Dn, Db.
  change (zlen []) with 0 in Dn. change (queue_size []) with 0 in Db.
  assert (Hfr : fresh_copies ordinal l e) by (intros _; split; [done|rewrite Q; constructor]).
  pose proof (queue_all_ok now ordinal g l false e Hok Hp Hd Hfr) as Ok2.
  destruct (queue_all_roomy now ordinal g l false e) as (q & E2 & Pq); [done|by rewrite Db, Q| | |].
  { rewrite Q. change (zlen []) with 0. lia. } { rewrite Q. change (queue_size []) with 0. lia. }
  rewrite Q, app_nil_r in Pq. rewrite E2 in *. pose proof (do_sorted _ Ok2 Hlt) as S2.
  cbn [de_queue set_de_queue set_de_evidence de_evidence] in *.
  assert (Hat : Forall (fun c => cd_at c = now) q).
  { rewrite Pq. apply Forall_forall. intros c (d & -> & Hin)%list_elem_of_fmap. rewrite Forall_forall in Un.
    specialize (Un d Hin). change (now + d.2 = now). change (d.2 = 0) in Un. lia. }
  rewrite drain_everything by (cbn; eapply Forall_impl; [exact Hat|]; cbn; lia).
  cbn [de_queue set_de_queue set_de_evidence de_evidence].
  assert (Eo : map scheduled_of q = sort_items (map (item_of ordinal g) l)).
  { apply (StronglySorted_unique item_lt); [by apply (scheduled_sorted now)|by apply sort_items_sorted|].
    rewrite (sort_items_perm (map (item_of ordinal g) l)). rewrite Pq, map_map. reflexivity. }
  destruct (note_all_queued_spec l (de_evidence e)) as (A1 & A2 & A3 & A4).
  pose proof (zlen_nonneg l). pose proof (drafts_size_nonneg l). destruct L as [L1 L2 _].
  destruct A4 as [A4 A5]; [lia|lia| | |]; [rewrite Dn; unfold U64_MAX; lia|rewrite Db; unfold U64_MAX; lia|].
  assert (Ez : zlen q = zlen l) by (unfold zlen; by rewrite (Permutation_length Pq), length_map).
  assert (Es : queue_size q = drafts_size l) by (by rewrite (queue_size_perm _ _ Pq), queue_size_cand).
  rewrite Eo. eexists. split; [reflexivity|]. split.
  - destruct (emissions_drained q (note_all_queued l (de_evidence e))) as [D1 D2 D3 D4];
      [by rewrite A2|by rewrite A3|rewrite A4, Dn, Ez; lia|rewrite A5, Db, Es; lia|]. split; [exact (eq_trans D1 A1)|done|refine (eq_trans D3 _); by rewrite A2, Ez|refine (eq_trans D4 _); by rewrite A3, Es].
  - by destruct (emitted_counters q (note_all_queued l (de_evidence e))) as (_ & H2 & _).
Qed.

(** Immediate emission stands for queueing.  When [admit] decides to emit its
    candidates at once, queueing the same candidates and releasing the due ones
    at the same instant gives the same datagrams in the same order and leaves an
    equal engine, up to the two high-water marks, which the immediate path never
    sets higher. *)
Theorem immediate_is_queue_then_drain (now : Instant) (ordinal g : Z) (drafts : list Draft)
    (e e1 : DatagramDirectionEngine) (items : list DatagramScheduled) (Hok : dengine_ok e)
    (Hdistinct : NoDup (copies drafts)) (Hfit : payloads_fit (max_datagram_bytes (de_limits e)) drafts)
    (Hordinal : 0 <= ordinal < de_ordinal e) (Hlast : de_ordinal e < U64_MAX)
    (Hrange : 0 <= d_emitted_datagrams (de_evidence e) <= U64_MAX /\ 0 <= d_emitted_bytes (de_evidence e) <= U64_MAX)
    (Hcall : dispose now ordinal g drafts e = (Immediate items, e1)) :
  exists e2, take_ready now (queue_all now ordinal g drafts false e).2 = (items, e2)
  /\ but_high_water e2 = but_high_water e1
  /\ d_high_water_datagrams (de_evidence e1) <= d_high_water_datagrams (de_evidence e2)
  /\ d_high_water_bytes (de_evidence e1) <= d_high_water_bytes (de_evidence e2).
Proof.
  rewrite dispose_eq in Hcall. destruct (immediate_now drafts e) eqn:Ei.
  2: { destruct drafts; [done|]. by destruct (queue_all _ _ _ _ _ _).1. }
  apply immediate_now_facts in Ei; [|done]. destruct Hrange as [R1 R2].
  destruct (queue_then_drain now ordinal g drafts e) as (v & Ht & Dv & Hv); try done.
  injection Hcall as <- <-. destruct (emit_all ordinal g drafts e) as [out e1] eqn:Ee.
  pose proof (emit_all_evidence ordinal g drafts e) as Ev. rewrite Ee in Ev. cbn [fst snd] in *. subst e1.
  pose proof (emit_all_drained _ _ _ _ _ _ Ee) as Dd. apply emit_all_spec in Ee as (-> & _).
  pose proof (do_datagrams _ Hok) as Dn. pose proof (do_bytes _ Hok) as Db. pose proof Ei as [Q _ _ _ Sz].
  rewrite Q in Dn, Db. change (zlen []) with 0 in Dn. change (queue_size []) with 0 in Db.
  assert (Su : drafts_size drafts <= U64_MAX) by (pose proof (lo_bytes _ (do_limits _ Hok)); unfold U64_MAX; lia).
  specialize (Dd ltac:(by split) Su). rewrite Ht. eexists. split; [reflexivity|].
  cbn [de_evidence set_de_evidence set_de_queue] in *. destruct Dv as [V1 [V2 V3] V4 V5], Dd as [W1 [W2 W3] W4 W5].
  split; [|injection Hv as -> ->; apply high_water_le; lia].
  pose proof (aside_high v (note_all_emitted drafts (de_evidence e)) ltac:(congruence) ltac:(congruence)
    ltac:(congruence) ltac:(congruence) ltac:(congruence)) as Ha.
  unfold but_high_water, with_evidence. cbn [de_evidence set_de_evidence set_de_queue]. rewrite Ha.
  destruct e. cbn in Q |- *. by rewrite Q.
Qed.

(** * At concrete engines *)

Import Live.

Definition demo_limits : DatagramQueueLimits :=
  {| max_queued_datagrams := 8; max_queued_bytes := 64; max_datagram_bytes := 65535 |}.
Definition demo_engine : DatagramDirectionEngine :=
  {| de_limits := demo_limits; de_proxy := "golden-proxy"; de_association := 7; de_direction := Upstream;
     de_rng_version := V1; de_ordinal := 0; de_queue := []; de_evidence := devidence_default;
     de_buckets := ∅; de_buckets_generation := 0 |}.
Definition demo_policy (fs : list DatagramFaultSpec) : PublishedDatagramPolicy :=
  {| generation := 1; pub_plan := {| dp_faults := fs |}; seed_namespace := 7 |}.
Definition f64_half : f64 := SFdiv f64_prec f64_emax f64_one (f64_of_Z 2).

Lemma demo_limits_ok : limits_ok demo_limits.
Proof. split; cbn; lia. Qed.
Lemma demo_new : dengine_new demo_limits "golden-proxy" 7 Upstream V1 = Ok demo_engine.
Proof. reflexivity. Qed.

(** The engine after [ops], with what it emitted. *)
Definition demo (ops : list DOp) : DRun := drun (dstart demo_engine) ops.
Definition emitted (x : DRun) : list (Z * Z * bytes) :=
  map (fun s => (ds_ingress_ordinal s, ds_copy_index s, ds_payload s)) (dr_out x).

(** ** Golden traces ([tests/fixtures/datagram_golden_traces.json]) *)

Definition half_loss : DatagramFaultSpec := {| dg_id := "loss"; dg_probability := f64_half; dg_kind := DLoss |}.
Example golden_loss_intermediate :
  let x := demo (map (fun b => DAdmit 1000 [b] (demo_policy [half_loss])) [0; 1; 2; 3; 4; 5; 6; 7]) in
  emitted x = [(1, 0, [1]); (5, 0, [5]); (6, 0, [6])] /\ d_configured_loss (de_evidence (dr_engine x)) = 5.
Proof. vm_compute. by split. Qed.

Example golden_duplicate_copy_identity :
  emitted (demo [DAdmit 1000 [104; 105] (demo_policy [dspec "duplicate" (DDuplicate 2)])])
  = [(0, 0, [104; 105]); (0, 1, [104; 105]); (0, 2, [104; 105])].
Proof. vm_compute. reflexivity. Qed.

(** "payload" with two configured bytes: the first four positions change. *)
Definition word : bytes := [112; 97; 121; 108; 111; 97; 100].
Example golden_corruption_byte_vector :
  emitted (demo [DAdmit 1000 word (demo_policy [dspec "corrupt" (DPayloadCorrupt 2)])])
  = [(0, 0, [124; 113; 97; 112; 111; 97; 100])].
Proof. vm_compute. reflexivity. Qed.

Example golden_bandwidth_burst_refill :
  let policy := demo_policy [dspec "bandwidth" (DBandwidth 4 4)] in
  let x := demo [DAdmit 1000 [97; 98; 99; 100] policy; DAdmit 1000 [101; 102] policy; DTake 1000] in
  emitted x = [(0, 0, [97; 98; 99; 100])]
  /\ emitted (dexec x (DTake 500001000)) = [(0, 0, [97; 98; 99; 100]); (1, 0, [101; 102])].
Proof. vm_compute. by split. Qed.

(** ** Runs *)

Definition busy_policy : PublishedDatagramPolicy :=
  demo_policy [half_loss; dspec "dup" (DDuplicate 2); dspec "hold" (DReorder 1000)].
Definition busy_ops : list DOp :=
  [DAdmit 1000 [1; 2; 3] busy_policy; DAdmit 1001 [4] busy_policy; DAdmit 1002 [5; 6] busy_policy;
   DTake 1500; DAdmit 2002 [7] (demo_policy []); DDiscard; DAdmit 2003 [8] (demo_policy [])].

Lemma busy_fine : policy_fine busy_policy.
Proof.
  split; [|repeat constructor; vm_compute; intuition congruence].
  apply dplan_wf_validate; [repeat constructor; vm_compute; intuition congruence|by vm_compute].
Qed.
Lemma plain_fine : policy_fine (demo_policy []).
Proof. split; [apply dplan_wf_validate; [constructor|by vm_compute]|constructor]. Qed.
Lemma busy_ops_fine : Forall op_fine busy_ops.
Proof.
  repeat (apply Forall_cons_2; [exact busy_fine || exact plain_fine || exact I|]). apply Forall_nil_2.
Qed.

Lemma datagram_runs_preserve_invariant_witness : dengine_ok (dr_engine (demo busy_ops)).
Proof.
  exact (datagram_runs_preserve_invariant demo_limits "golden-proxy" 7 Upstream V1 demo_engine busy_ops
           demo_limits_ok demo_new busy_ops_fine).
Defined.

Lemma datagrams_are_conserved_witness :
  let x := demo busy_ops in
  let ev := de_evidence (dr_engine x) in
  d_admitted_datagrams ev + d_duplicated_copies ev
  = d_configured_loss ev + d_oversize_datagrams ev + d_queue_overflow ev + d_emitted_datagrams ev
    + d_queued_datagrams ev + dr_gone x
  /\ d_duplicated_copies ev = 2 /\ dr_gone x = 4.
Proof.
  cbv zeta. split; [|by vm_compute].
  apply (datagrams_are_conserved demo_limits "golden-proxy" 7 Upstream V1 demo_engine busy_ops
           demo_limits_ok demo_new busy_ops_fine).
  by vm_compute.
Defined.

(** Three candidates, two of them due. *)
Definition holding : DatagramDirectionEngine :=
  dr_engine (demo [DAdmit 1000 [1] (demo_policy [dspec "hold" (DReorder 50)]);
                   DAdmit 1001 [2] (demo_policy [dspec "hold" (DReorder 500)]);
                   DAdmit 1002 [3] (demo_policy [dspec "hold" (DReorder 10)])]).
Lemma holding_ok : dengine_ok holding.
Proof.
  apply drun_ok_run; [|by apply (dstart_ok _ _ _ _ _ _ demo_limits_ok demo_new)].
  assert (F : forall hold, hold = 50 \/ hold = 500 \/ hold = 10 ->
    policy_fine (demo_policy [dspec "hold" (DReorder hold)])).
  { intros hold Hh. split; [|repeat constructor; cbn; lia].
    apply dplan_wf_validate; [repeat constructor; cbn; lia|]. by destruct Hh as [->|[->| ->]]; vm_compute. }
  repeat (apply Forall_cons_2; [apply F; lia|]). apply Forall_nil_2.
Qed.

Lemma take_ready_releases_the_due_witness :
  exists e', take_ready 1060 holding
             = ([ {| ds_payload := [3]; ds_ingress_ordinal := 2; ds_copy_index := 0; ds_generation := 1 |};
                  {| ds_payload := [1]; ds_ingress_ordinal := 0; ds_copy_index := 0; ds_generation := 1 |} ], e')
  /\ (forall t, next_deadline e' = Some t -> 1060 < t).
Proof.
  eexists. split; [vm_compute; reflexivity|].
  eapply (take_ready_releases_the_due 1060 holding _ _ holding_ok); [by vm_compute|vm_compute; reflexivity].
Defined.

(** ** Stages *)

Lemma datagram_fate_is_identity_scoped_witness :
  let fs := dp_faults (pub_plan busy_policy) in
  (run_stages 5 busy_policy 3 0 fs [(0, [9], 0)] 1 demo_engine).1
  = (run_stages 77 busy_policy 3 0 fs [(0, [9], 0)] 1 holding).1
  /\ demo_engine <> holding.
Proof.
  cbv zeta. split; [|intros H; apply (f_equal de_ordinal) in H; vm_compute in H; discriminate H].
  apply (datagram_fate_is_identity_scoped busy_policy 3 [9] 5 77 demo_engine holding);
    [exact (proj2 busy_fine)|repeat constructor|by vm_compute].
Defined.

Lemma duplication_is_bounded_witness :
  let drafts := (run_stages 5 busy_policy 0 0 (dp_faults (pub_plan busy_policy)) [(0, [9], 0)] 1 demo_engine).1.1 in
  zlen drafts <= 4096 /\ NoDup (copies drafts).
Proof.
  cbv zeta. destruct (duplication_is_bounded 5 busy_policy 0 [9] demo_engine busy_fine) as (H1 & H2 & _).
  by split.
Defined.

Lemma corruption_flips_bits_of_a_permutation_witness :
  let r := corrupt 2 word (rng_new 0) in
  zlen r = 7 /\ exists w, w ≡ₚ word /\ drop 2 r = drop 2 w /\ forall j, (j < 2)%nat -> flipped w r j.
Proof. exact (corruption_flips_bits_of_a_permutation 2 word (rng_new 0) ltac:(lia)). Defined.

(** ** Pacing and the immediate path *)

Lemma datagram_bandwidth_conforms_witness :
  let '(rs1, b1) := paces 1000 10 {| bk_tokens := 10; bk_updated := 0 |} [(5, 8); (6, 8)] in
  let '(rs2, b2) := paces 1000 10 b1 [(7, 20); (8, 1)] in
  StronglySorted Z.le (rs1 ++ rs2) /\ 1000000000 * 21 <= 1000000000 * 10 + 1000 * (bk_updated b2 - bk_updated b1).
Proof.
  pose proof (datagram_bandwidth_conforms 1000 10 {| bk_tokens := 10; bk_updated := 0 |} [(5, 8); (6, 8)]
    [(7, 20); (8, 1)] 100) as H.
  destruct (paces 1000 10 _ [(5, 8); (6, 8)]) as [rs1 b1]. destruct (paces 1000 10 b1 [(7, 20); (8, 1)]) as [rs2 b2].
  destruct H as (_ & H1 & _ & H2); [split; vm_compute; intuition congruence|repeat constructor; cbn; lia
    |repeat constructor; cbn; lia|cbn; lia|vm_compute; congruence|].
  by split.
Defined.

Definition pair_drafts : list Draft := [(1, [5], 0); (0, [6; 7], 0)].
Definition ready_engine : DatagramDirectionEngine := set_de_ordinal 1 demo_engine.
Lemma ready_engine_ok : dengine_ok ready_engine.
Proof.
  split; cbn; try done; try constructor; try apply demo_limits_ok; unfold U64_MAX;
    try (change (zlen []) with 0); try (change (queue_size []) with 0); lia.
Qed.
Lemma immediate_is_queue_then_drain_witness :
  exists items e1, dispose 9 0 1 pair_drafts ready_engine = (Immediate items, e1)
  /\ exists e2, take_ready 9 (queue_all 9 0 1 pair_drafts false ready_engine).2 = (items, e2)
  /\ but_high_water e2 = but_high_water e1
  /\ d_high_water_datagrams (de_evidence e1) = 1 /\ d_high_water_datagrams (de_evidence e2) = 2.
Proof.
  eexists _, _. split; [vm_compute; reflexivity|].
  edestruct (immediate_is_queue_then_drain 9 0 1 pair_drafts ready_engine) as (e2 & H1 & H2 & _);
    [exact ready_engine_ok|repeat constructor; set_solver|repeat constructor; vm_compute; congruence
    |vm_compute; intuition congruence|by vm_compute|vm_compute; intuition congruence|vm_compute; reflexivity|].
  exists e2. split; [exact H1|]. split; [exact H2|]. split; [reflexivity|].
  apply (f_equal snd) in H1. cbn [snd] in H1. rewrite <- H1. by vm_compute.
Defined.
