(* ===== verification/Schedule.v ===== *)
(** * Scenario schedules and their compiler
      ([crates/eggchaos-experiment/src/{action,source,error,compiler}.rs])

    The source language of a Scenario V2 schedule - phases of explicit duration
    and one finite repeat block - and [compile_schedule], which checks a source
    and expands it to a flat event tape with absolute offsets. *)

From stdpp Require Import base list strings pretty.
From S2P Require Import Prelude Rng Float64 Plan Policy Env DatagramPlan.

(** [u32] casts and the decimal [Display] of unsigned integers. *)
Definition U32_MAX : Z := 4294967295.
Definition as_u32 (x : Z) : Z := x mod (U32_MAX + 1).
Definition dec (x : Z) : string := pretty (Z.to_N x).

(** ** Actions (action.rs) *)

Inductive ScenarioAction :=
| SetPlan (proxy : string) (direction : Direction) (fs : list FaultSpec)
| RemoveFault (proxy : string) (direction : Direction) (id : string)
| SetDatagramPlan (proxy : string) (direction : Direction) (fs : list DatagramFaultSpec)
| RemoveDatagramFault (proxy : string) (direction : Direction) (id : string).

(** ** Source documents (source.rs) *)

Definition MAX_COMPILED_EVENTS : Z := 1024.
Definition MAX_PHASES : Z := 256.
Definition MAX_PHASE_ACTIONS : Z := 64.
Definition MAX_REPEAT_COUNT : Z := 64.
Definition MAX_PHASE_NAME_BYTES : Z := 128.
Definition SCHEDULE_SCHEMA_VERSION : Z := 2.

Inductive IsolationPolicyV2 := Strict | Live.
Inductive CleanupPolicyV2 := RestoreInitial | Leave.
#[export] Instance IsolationPolicyV2_eq_dec : EqDecision IsolationPolicyV2.
Proof. solve_decision. Defined.
#[export] Instance CleanupPolicyV2_eq_dec : EqDecision CleanupPolicyV2.
Proof. solve_decision. Defined.
Definition isolation_default : IsolationPolicyV2 := Strict.
Definition cleanup_default : CleanupPolicyV2 := RestoreInitial.

Record SchedulePhaseV2 := {
  ph_name : option string;
  ph_duration_ns : Z;
  ph_actions : list ScenarioAction
}.
Record ScheduleRepeatV2 := { rp_count : Z; rp_phases : list SchedulePhaseV2 }.
Record ScenarioScheduleV2 := {
  src_version : Z;
  src_seed : Z;
  src_execution_key : Z;
  src_isolation : IsolationPolicyV2;
  src_cleanup : CleanupPolicyV2;
  src_phases : list SchedulePhaseV2;
  src_repeat : option ScheduleRepeatV2
}.

(** ** Errors (error.rs) *)

Inductive ScheduleError :=
| UnsupportedVersion (version : Z)
| TooManyCompiledEvents (have : Z)
| RepeatOutOfRange (got : Z)
| TooManyPhases (got : Z)
| TooManyRepeatPhases (got : Z)
| TooManyPhaseActions (got : Z)
| InvalidPhaseName
| OffsetOverflow
| EmptyPhase
| EmptySchedule
| InvalidStreamPlan (detail : string)
| InvalidDatagramPlan (detail : string).

(** The [Display] of [eggchaos_core::ValidationError] (plan.rs). *)
Definition validation_error_display (e : ValidationError) : string :=
  match e with
  | ProbabilityOutOfRange => "probability must be finite and between 0 and 1"
  | InvalidFaultId => "fault id must be 1..=128 bytes"
  | DuplicateFaultId id => "duplicate fault id: " +:+ id
  | ZeroCapacity => "fault buffer capacity must be non-zero"
  | InvalidSlice => "slice variation must be smaller than average size"
  | InvalidRate => "bandwidth rate and burst must be non-zero"
  | ZeroLimit => "limit_data bytes must be non-zero"
  | DurationTooLong => "fault delay duration must be at most 24 hours"
  | TooManyFaults => "fault plans are limited to 256 stages"
  | GenerationOverflow => "policy generation overflowed"
  end.

(** ** Structure checks (source.rs) *)

(** The body of the two phase loops of [check_structure]. *)
Definition check_phase (phase : SchedulePhaseV2) : result unit ScheduleError :=
  if match ph_actions phase with [] => true | _ => false end then Err EmptyPhase
  else if MAX_PHASE_ACTIONS <? zlen (ph_actions phase)
  then Err (TooManyPhaseActions (zlen (ph_actions phase)))
  else if match ph_name phase with
          | Some name => (str_len name =? 0) || (MAX_PHASE_NAME_BYTES <? str_len name)
          | None => false
          end
  then Err InvalidPhaseName
  else Ok tt.

(** A loop that checks every element and stops at the first error. *)
Fixpoint check_all {A} (check : A -> result unit ScheduleError) (l : list A) : result unit ScheduleError :=
  match l with
  | [] => Ok tt
  | x :: rest => let? _u := check x in check_all check rest
  end.

Definition check_repeat_bounds (repeat : option ScheduleRepeatV2) : result unit ScheduleError :=
  match repeat with
  | None => Ok tt
  | Some r =>
      if (rp_count r =? 0) || (MAX_REPEAT_COUNT <? rp_count r) then Err (RepeatOutOfRange (rp_count r))
      else if MAX_PHASES <? zlen (rp_phases r) then Err (TooManyRepeatPhases (zlen (rp_phases r)))
      else Ok tt
  end.

(** [any_top_action] is set by the first phase that passes, [any_repeat_action]
    by the first one of a repeat block, which is not empty. *)
Definition check_structure (s : ScenarioScheduleV2) : result unit ScheduleError :=
  if negb (src_version s =? SCHEDULE_SCHEMA_VERSION) then Err (UnsupportedVersion (src_version s))
  else if MAX_PHASES <? zlen (src_phases s) then Err (TooManyPhases (zlen (src_phases s)))
  else
    let? _u := check_repeat_bounds (src_repeat s) in
    let? _v := check_all check_phase (src_phases s) in
    let any_top_action := match src_phases s with [] => false | _ => true end in
    let? any_repeat_action :=
      match src_repeat s with
      | None => Ok false
      | Some r =>
          match rp_phases r with
          | [] => Err EmptySchedule
          | _ => let? _w := check_all check_phase (rp_phases r) in Ok true
          end
      end in
    if negb any_top_action && negb any_repeat_action then Err EmptySchedule else Ok tt.

Definition flattened_phases (s : ScenarioScheduleV2) : list SchedulePhaseV2 :=
  src_phases s ++
  match src_repeat s with
  | None => []
  | Some r => concat (replicate (Z.to_nat (rp_count r)) (rp_phases r))
  end.

(** ** Compiled tapes (compiler.rs) *)

Definition COMPILER_SEMANTICS_VERSION : Z := 1.

Inductive CompiledPhaseIdentity :=
| Top (index : Z)
| Repeat (iteration index : Z).
#[export] Instance CompiledPhaseIdentity_eq_dec : EqDecision CompiledPhaseIdentity.
Proof. solve_decision. Defined.

Record CompiledEventV2 := {
  ce_compiled_index : Z;
  ce_phase : CompiledPhaseIdentity;
  ce_offset_ns : Z;
  ce_action : ScenarioAction
}.

Record CompiledScenarioV2 := {
  cp_compiler_semantics_version : Z;
  cp_seed : Z;
  cp_execution_key : Z;
  cp_isolation : IsolationPolicyV2;
  cp_cleanup : CleanupPolicyV2;
  cp_events : list CompiledEventV2;
  cp_total_duration_ns : Z
}.

Definition check_event_count (count : Z) : result unit ScheduleError :=
  if MAX_COMPILED_EVENTS <? count then Err (TooManyCompiledEvents count) else Ok tt.

Definition phase_target_offset (running duration_ns : Z) : result Z ScheduleError :=
  if running + duration_ns <=? U64_MAX then Ok (running + duration_ns) else Err OffsetOverflow.

Definition validate_action (action : ScenarioAction) : result unit ScheduleError :=
  match action with
  | SetPlan _ _ fs =>
      match plan_new fs with
      | Ok _ => Ok tt
      | Err error => Err (InvalidStreamPlan (validation_error_display error))
      end
  | SetDatagramPlan _ _ fs =>
      match dplan_new fs with
      | Ok _ => Ok tt
      | Err error => Err (InvalidDatagramPlan error)
      end
  | RemoveFault _ _ id | RemoveDatagramFault _ _ id =>
      match fault_id_new id with
      | Ok _ => Ok tt
      | Err error => Err (InvalidStreamPlan (validation_error_display error))
      end
  end.

Definition validate_phase_actions (phase : SchedulePhaseV2) : result unit ScheduleError :=
  if MAX_PHASE_ACTIONS <? zlen (ph_actions phase)
  then Err (TooManyPhaseActions (zlen (ph_actions phase)))
  else check_all validate_action (ph_actions phase).

(** The counting loop: [total.checked_add(phase.actions.len())]. *)
Fixpoint count_events (total : Z) (phases : list SchedulePhaseV2) : result Z ScheduleError :=
  match phases with
  | [] => Ok total
  | phase :: rest =>
      if total + zlen (ph_actions phase) <=? USIZE_MAX
      then count_events (total + zlen (ph_actions phase)) rest
      else Err (TooManyCompiledEvents (MAX_COMPILED_EVENTS + 1))
  end.

(** [expanded_event_count]: the same count, saturating. *)
Definition expanded_event_count (s : ScenarioScheduleV2) : Z :=
  foldl (fun count phase => sat_add64 count (zlen (ph_actions phase))) 0 (flattened_phases s).

(** The mutable state of the expansion: [events], [cursor_ns], [compiled_index]. *)
Record Tape := { tp_events : list CompiledEventV2; tp_cursor : Z; tp_index : Z }.
Definition tape_start : Tape := {| tp_events := []; tp_cursor := 0; tp_index := 0 |}.

Definition push_event (phase : CompiledPhaseIdentity) (t : Tape) (action : ScenarioAction) : Tape :=
  {| tp_events := tp_events t ++
       [{| ce_compiled_index := tp_index t; ce_phase := phase;
           ce_offset_ns := tp_cursor t; ce_action := action |}];
     tp_cursor := tp_cursor t; tp_index := tp_index t + 1 |}.

Definition emit_phase (identity : CompiledPhaseIdentity) (phase : SchedulePhaseV2) (t : Tape)
    : result Tape ScheduleError :=
  let t := foldl (push_event identity) t (ph_actions phase) in
  let? cursor := phase_target_offset (tp_cursor t) (ph_duration_ns phase) in
  Ok {| tp_events := tp_events t; tp_cursor := cursor; tp_index := tp_index t |}.

Fixpoint top_loop (top_idx : Z) (phases : list SchedulePhaseV2) (t : Tape) : result Tape ScheduleError :=
  match phases with
  | [] => Ok t
  | phase :: rest =>
      let? _u := validate_phase_actions phase in
      let? t := emit_phase (Top (as_u32 top_idx)) phase t in
      top_loop (top_idx + 1) rest t
  end.

Fixpoint block_loop (iteration phase_idx : Z) (phases : list SchedulePhaseV2) (t : Tape)
    : result Tape ScheduleError :=
  match phases with
  | [] => Ok t
  | phase :: rest =>
      let? t := emit_phase (Repeat (iteration + 1) (as_u32 phase_idx)) phase t in
      block_loop iteration (phase_idx + 1) rest t
  end.

(** [for iteration in 0..repeat.count], with [n] iterations left. *)
Fixpoint repeat_loop (n : nat) (iteration : Z) (phases : list SchedulePhaseV2) (t : Tape)
    : result Tape ScheduleError :=
  match n with
  | O => Ok t
  | S n' =>
      let? t := block_loop iteration 0 phases t in
      repeat_loop n' (iteration + 1) phases t
  end.

Definition expand_repeat (repeat : option ScheduleRepeatV2) (t : Tape) : result Tape ScheduleError :=
  match repeat with
  | None => Ok t
  | Some r =>
      if MAX_REPEAT_COUNT <? rp_count r then Err (RepeatOutOfRange (rp_count r))
      else if MAX_PHASES <? zlen (rp_phases r) then Err (TooManyRepeatPhases (zlen (rp_phases r)))
      else
        let? _u := check_all validate_phase_actions (rp_phases r) in
        repeat_loop (Z.to_nat (rp_count r)) 0 (rp_phases r) t
  end.

Definition compile_schedule (s : ScenarioScheduleV2) : result CompiledScenarioV2 ScheduleError :=
  let? _u := check_structure s in
  let? total := count_events 0 (flattened_phases s) in
  let? _v := check_event_count total in
  let? t := top_loop 0 (src_phases s) tape_start in
  let? t := expand_repeat (src_repeat s) t in
  if MAX_COMPILED_EVENTS <? zlen (tp_events t) then Err (TooManyCompiledEvents (zlen (tp_events t)))
  else Ok {| cp_compiler_semantics_version := COMPILER_SEMANTICS_VERSION;
             cp_seed := src_seed s; cp_execution_key := src_execution_key s;
             cp_isolation := src_isolation s; cp_cleanup := src_cleanup s;
             cp_events := tp_events t; cp_total_duration_ns := tp_cursor t |}.

(** ** A small source, used by the examples of later files *)

Definition demo_phase (name : option string) (duration : Z) (actions : list ScenarioAction) : SchedulePhaseV2 :=
  {| ph_name := name; ph_duration_ns := duration; ph_actions := actions |}.
Definition demo_source : ScenarioScheduleV2 := {|
  src_version := 2; src_seed := 7; src_execution_key := 1;
  src_isolation := Strict; src_cleanup := RestoreInitial;
  src_phases := [demo_phase (Some "warm") 100 [SetPlan "web" Upstream [demo_latency "a"]]];
  src_repeat := Some {| rp_count := 2;
    rp_phases := [demo_phase None 50 [SetPlan "web" Downstream [demo_latency "b"; demo_latency "c"];
                                      RemoveFault "web" Downstream "b"];
                  demo_phase None 0 [SetPlan "web" Upstream []]] |}
|}.

Example demo_compiles :
  match compile_schedule demo_source with
  | Ok c => map (fun e => (ce_compiled_index e, ce_phase e, ce_offset_ns e)) (cp_events c)
            = [(0, Top 0, 0); (1, Repeat 1 0, 100); (2, Repeat 1 0, 100); (3, Repeat 1 1, 150);
               (4, Repeat 2 0, 150); (5, Repeat 2 0, 150); (6, Repeat 2 1, 200)]
            /\ cp_total_duration_ns c = 200
  | Err _ => False
  end.
Proof. vm_compute. split; reflexivity. Qed.
