(* ===== verification/ScheduleProps.v ===== *)
(** * The schedule compiler is its specification

    A source is accepted exactly when it is well formed, and the tape is then
    its declarative expansion: every action of every phase occurrence, at the
    sum of the durations before it, numbered in order. *)

From stdpp Require Import base list strings.
From S2P Require Import Prelude Rng Float64 Plan Policy Env DatagramPlan Schedule.

(** ** The specification *)

(** Ranges the field types impose. *)
Definition phase_typed (p : SchedulePhaseV2) : Prop := 0 <= ph_duration_ns p <= U64_MAX.
Record source_typed (s : ScenarioScheduleV2) : Prop := {
  st_phases : Forall phase_typed (src_phases s);
  st_repeat : forall r, src_repeat s = Some r -> 0 <= rp_count r <= U32_MAX /\ Forall phase_typed (rp_phases r)
}.

Definition action_wf (a : ScenarioAction) : Prop :=
  match a with
  | SetPlan _ _ fs => plan_new fs = Ok {| faults := fs |}
  | SetDatagramPlan _ _ fs => dplan_new fs = Ok {| dp_faults := fs |}
  | RemoveFault _ _ id | RemoveDatagramFault _ _ id => 1 <= str_len id <= 128
  end.

Record phase_wf (p : SchedulePhaseV2) : Prop := {
  pw_actions : 1 <= zlen (ph_actions p) <= MAX_PHASE_ACTIONS;
  pw_name : forall name, ph_name p = Some name -> 1 <= str_len name <= MAX_PHASE_NAME_BYTES;
  pw_valid : Forall action_wf (ph_actions p)
}.

(** Every occurrence of a phase with its identity, in schedule order. *)
Definition block (identity : Z -> CompiledPhaseIdentity) (ps : list SchedulePhaseV2)
    : list (CompiledPhaseIdentity * SchedulePhaseV2) :=
  imap (fun i p => (identity (Z.of_nat i), p)) ps.
Definition occurrences (s : ScenarioScheduleV2) : list (CompiledPhaseIdentity * SchedulePhaseV2) :=
  block Top (src_phases s) ++
  match src_repeat s with
  | None => []
  | Some r => concat (map (fun n => block (Repeat (Z.of_nat n + 1)) (rp_phases r))
                          (seq 0 (Z.to_nat (rp_count r))))
  end.

Definition duration (l : list (CompiledPhaseIdentity * SchedulePhaseV2)) : Z :=
  zsum (map (fun ip => ph_duration_ns ip.2) l).
Definition event_count (l : list (CompiledPhaseIdentity * SchedulePhaseV2)) : Z :=
  zsum (map (fun ip => zlen (ph_actions ip.2)) l).

(** Every action of the occurrences, at the time its phase starts. *)
Fixpoint scheduled (offset : Z) (l : list (CompiledPhaseIdentity * SchedulePhaseV2))
    : list (CompiledPhaseIdentity * Z * ScenarioAction) :=
  match l with
  | [] => []
  | (identity, p) :: rest =>
      map (fun a => (identity, offset, a)) (ph_actions p) ++ scheduled (offset + ph_duration_ns p) rest
  end.

Definition event_at (first : Z) (i : nat) (x : CompiledPhaseIdentity * Z * ScenarioAction) : CompiledEventV2 :=
  {| ce_compiled_index := first + Z.of_nat i; ce_phase := x.1.1; ce_offset_ns := x.1.2; ce_action := x.2 |}.
Definition numbered (first : Z) (xs : list (CompiledPhaseIdentity * Z * ScenarioAction)) : list CompiledEventV2 :=
  imap (event_at first) xs.

Record source_wf (s : ScenarioScheduleV2) : Prop := {
  sw_version : src_version s = 2;
  sw_phases : zlen (src_phases s) <= MAX_PHASES;
  sw_repeat : forall r, src_repeat s = Some r ->
    1 <= rp_count r <= MAX_REPEAT_COUNT /\ 1 <= zlen (rp_phases r) <= MAX_PHASES
    /\ Forall phase_wf (rp_phases r);
  sw_wf : Forall phase_wf (src_phases s);
  sw_some : src_phases s <> [] \/ src_repeat s <> None;
  sw_count : event_count (occurrences s) <= MAX_COMPILED_EVENTS;
  sw_duration : duration (occurrences s) <= U64_MAX
}.

Definition compiled_reference (s : ScenarioScheduleV2) : CompiledScenarioV2 := {|
  cp_compiler_semantics_version := COMPILER_SEMANTICS_VERSION;
  cp_seed := src_seed s; cp_execution_key := src_execution_key s;
  cp_isolation := src_isolation s; cp_cleanup := src_cleanup s;
  cp_events := numbered 0 (scheduled 0 (occurrences s));
  cp_total_duration_ns := duration (occurrences s)
|}.

(** ** Expansion *)

Fixpoint emit_all_phases (l : list (CompiledPhaseIdentity * SchedulePhaseV2)) (t : Tape) : result Tape ScheduleError :=
  match l with
  | [] => Ok t
  | (identity, p) :: rest => let? t := emit_phase identity p t in emit_all_phases rest t
  end.

Lemma emit_all_phases_app l k t :
  emit_all_phases (l ++ k) t = (let? t := emit_all_phases l t in emit_all_phases k t).
Proof.
  revert t; induction l as [|[i p] l IH]; intros t; cbn; [done|].
  destruct (emit_phase i p t); [apply IH|done].
Qed.

Lemma numbered_cons first x xs : numbered first (x :: xs) = event_at first 0 x :: numbered (first + 1) xs.
Proof.
  unfold numbered. cbn. f_equal. apply imap_ext. intros i y _. unfold event_at, compose. f_equal. lia.
Qed.

Lemma numbered_app first xs ys :
  numbered first (xs ++ ys) = numbered first xs ++ numbered (first + zlen xs) ys.
Proof.
  unfold numbered. rewrite imap_app. f_equal. apply imap_ext. intros i x _. unfold event_at, compose.
  f_equal. unfold zlen. lia.
Qed.

Lemma scheduled_app off l k :
  scheduled off (l ++ k) = scheduled off l ++ scheduled (off + duration l) k.
Proof.
  revert off; induction l as [|[i p] l IH]; intros off; cbn; [by rewrite Z.add_0_r|].
  rewrite IH, <- app_assoc. unfold duration; cbn. by rewrite Z.add_assoc.
Qed.

Lemma zlen_scheduled off l : zlen (scheduled off l) = event_count l.
Proof.
  revert off; induction l as [|[i p] l IH]; intros off; cbn; [done|].
  autorewrite with egg_rw. rewrite IH. done.
Qed.

Lemma push_events_spec identity t acts :
  foldl (push_event identity) t acts =
  {| tp_events := tp_events t ++ numbered (tp_index t) (map (fun a => (identity, tp_cursor t, a)) acts);
     tp_cursor := tp_cursor t; tp_index := tp_index t + zlen acts |}.
Proof.
  revert t; induction acts as [|a acts IH]; intros t; cbn [foldl map].
  - cbn. rewrite app_nil_r, Z.add_0_r. by destruct t.
  - rewrite IH. cbn [tp_events tp_cursor tp_index push_event].
    rewrite numbered_cons, <- app_assoc, (zlen_cons a acts), Z.add_assoc.
    unfold event_at. cbn. by rewrite Z.add_0_r.
Qed.

Definition durations_ok (l : list (CompiledPhaseIdentity * SchedulePhaseV2)) : Prop :=
  Forall (fun ip => phase_typed ip.2) l.

Lemma duration_nonneg l : durations_ok l -> 0 <= duration l.
Proof.
  intros H. apply zsum_nonneg, Forall_map. eapply Forall_impl; [exact H|].
  intros x Hx; cbv [compose]; unfold phase_typed in Hx; lia.
Qed.

(** The expansion of a list of occurrences, in closed form. *)
Lemma emit_all_phases_spec l t : durations_ok l -> tp_cursor t <= U64_MAX ->
  emit_all_phases l t =
  if tp_cursor t + duration l <=? U64_MAX
  then Ok {| tp_events := tp_events t ++ numbered (tp_index t) (scheduled (tp_cursor t) l);
             tp_cursor := tp_cursor t + duration l; tp_index := tp_index t + event_count l |}
  else Err OffsetOverflow.
Proof.
  intros Hd; revert t; induction Hd as [|[i p] l Hp Hd IH]; intros t Hc; cbn [emit_all_phases].
  - cbn. destruct (Z.leb_spec (tp_cursor t + 0) U64_MAX); [|lia].
    rewrite app_nil_r, !Z.add_0_r. by destruct t.
  - pose proof (duration_nonneg l Hd) as Hn. cbn [snd] in Hp. unfold phase_typed in Hp.
    unfold emit_phase, phase_target_offset. rewrite push_events_spec. cbn [tp_cursor tp_events tp_index].
    replace (duration ((i, p) :: l)) with (ph_duration_ns p + duration l) by done.
    destruct (Z.leb_spec (tp_cursor t + ph_duration_ns p) U64_MAX) as [H1|H1].
    + rewrite IH by (cbn; lia). cbn [tp_cursor tp_events tp_index]. rewrite !Z.add_assoc.
      destruct (Z.leb_spec (tp_cursor t + ph_duration_ns p + duration l) U64_MAX); [|done].
      f_equal. f_equal.
      * rewrite <- app_assoc. cbn [scheduled]. rewrite numbered_app, zlen_map. done.
      * change (event_count ((i, p) :: l)) with (zlen (ph_actions p) + event_count l). lia.
    + destruct (Z.leb_spec (tp_cursor t + (ph_duration_ns p + duration l)) U64_MAX); [lia|done].
Qed.

(** ** The loops of the compiler *)

Lemma as_u32_small x : 0 <= x <= U32_MAX -> as_u32 x = x.
Proof. intros; unfold as_u32. apply Z.mod_small. lia. Qed.

Lemma block_cons identity p ps :
  block identity (p :: ps) = (identity 0, p) :: block (fun i => identity (i + 1)) ps.
Proof.
  unfold block. cbn. f_equal. apply imap_ext. intros i x _. unfold compose.
  by rewrite Nat2Z.inj_succ.
Qed.

Lemma block_ext f g ps : (forall i, 0 <= i < zlen ps -> f i = g i) -> block f ps = block g ps.
Proof.
  intros H. apply imap_ext. intros i x Hx. f_equal. apply H.
  apply lookup_lt_Some in Hx. unfold zlen; lia.
Qed.

Lemma check_all_ok {A} (check : A -> result unit ScheduleError) (P : A -> Prop) l :
  (forall x, check x = Ok tt <-> P x) -> check_all check l = Ok tt <-> Forall P l.
Proof.
  intros H; induction l as [|x l IH]; cbn; [by split|].
  rewrite Forall_cons, <- H, <- IH. destruct (check x) as [[]|e]; cbn; split; try tauto; intuition discriminate.
Qed.

Lemma unit_ok {E} (r : result unit E) u : r = Ok u -> r = Ok tt.
Proof. by destruct u. Qed.

(** Interleaving validation with expansion changes only which error comes first. *)
Lemma top_loop_ok idx ps t t' : 0 <= idx -> idx + zlen ps <= U32_MAX ->
  top_loop idx ps t = Ok t' <->
  check_all validate_phase_actions ps = Ok tt
  /\ emit_all_phases (block (fun i => Top (idx + i)) ps) t = Ok t'.
Proof.
  revert idx t; induction ps as [|p ps IH]; intros idx t H0 H1; [cbn; tauto|].
  rewrite zlen_cons in H1. pose proof (zlen_nonneg ps).
  rewrite block_cons. cbn [top_loop check_all emit_all_phases].
  rewrite as_u32_small, Z.add_0_r by lia.
  destruct (validate_phase_actions p) as [[]|e]; [|split; [discriminate|intros [[=] _]]].
  destruct (emit_phase (Top idx) p t) as [t1|e]; [|split; [discriminate|intros [_ [=]]]].
  rewrite IH by lia. rewrite (block_ext (fun i => Top (idx + 1 + i)) (fun i => Top (idx + (i + 1))));
    [done|intros; f_equal; lia].
Qed.

Lemma block_loop_eq iteration idx ps t : 0 <= idx -> idx + zlen ps <= U32_MAX ->
  block_loop iteration idx ps t = emit_all_phases (block (fun i => Repeat (iteration + 1) (idx + i)) ps) t.
Proof.
  revert idx t; induction ps as [|p ps IH]; intros idx t H0 H1; [done|].
  rewrite zlen_cons in H1. pose proof (zlen_nonneg ps).
  rewrite block_cons. cbn [block_loop emit_all_phases]. rewrite as_u32_small, Z.add_0_r by lia.
  destruct (emit_phase _ p t) as [t1|e]; [|done]. rewrite IH by lia.
  f_equal. apply block_ext. intros; f_equal; lia.
Qed.

Lemma repeat_loop_eq n k ps t : zlen ps <= U32_MAX ->
  repeat_loop n (Z.of_nat k) ps t
  = emit_all_phases (concat (map (fun m => block (Repeat (Z.of_nat m + 1)) ps) (seq k n))) t.
Proof.
  intros Hp; revert k t; induction n as [|n IH]; intros k t; [done|].
  cbn [repeat_loop seq map concat]. rewrite emit_all_phases_app, block_loop_eq by lia.
  rewrite (block_ext _ (Repeat (Z.of_nat k + 1))) by done.
  destruct (emit_all_phases _ t) as [t1|e]; [|done].
  replace (Z.of_nat k + 1) with (Z.of_nat (S k)) by lia. apply IH.
Qed.

(** ** The checks of the compiler *)

Lemma fault_id_new_ok id : is_ok (fault_id_new id) = true <-> 1 <= str_len id <= 128.
Proof.
  unfold fault_id_new. pose proof (zlen_nonneg (as_bytes id)). unfold str_len in *.
  destruct (Z.eqb_spec (zlen (as_bytes id)) 0); destruct (Z.ltb_spec 128 (zlen (as_bytes id))); cbn;
    split; intros; try discriminate; try reflexivity; lia.
Qed.

Lemma plan_new_value fs p : plan_new fs = Ok p -> p = {| faults := fs |}.
Proof. unfold plan_new. repeat case_split; congruence. Qed.
Lemma dplan_new_value fs p : dplan_new fs = Ok p -> p = {| dp_faults := fs |}.
Proof. unfold dplan_new. repeat case_split; congruence. Qed.

Lemma validate_action_ok a : validate_action a = Ok tt <-> action_wf a.
Proof.
  destruct a as [? ? fs|? ? id|? ? fs|? ? id]; cbn [validate_action action_wf].
  - destruct (plan_new fs) as [p|e] eqn:E; [|by split].
    apply plan_new_value in E as ->. by split.
  - rewrite <- fault_id_new_ok. by destruct (fault_id_new id).
  - destruct (dplan_new fs) as [p|e] eqn:E; [|by split].
    apply dplan_new_value in E as ->. by split.
  - rewrite <- fault_id_new_ok. by destruct (fault_id_new id).
Qed.

Definition phase_shape (p : SchedulePhaseV2) : Prop :=
  1 <= zlen (ph_actions p) <= MAX_PHASE_ACTIONS
  /\ forall name, ph_name p = Some name -> 1 <= str_len name <= MAX_PHASE_NAME_BYTES.

Lemma check_phase_ok p : check_phase p = Ok tt <-> phase_shape p.
Proof.
  unfold check_phase, phase_shape. destruct (ph_actions p) as [|a acts] eqn:E; cbn [negb].
  { rewrite zlen_nil. split; [discriminate|intros [? _]; lia]. }
  rewrite zlen_cons. pose proof (zlen_nonneg acts).
  destruct (Z.ltb_spec MAX_PHASE_ACTIONS (1 + zlen acts)); [split; [discriminate|lia]|].
  destruct (ph_name p) as [name|]; [|split; [|done]; intros _; split; [lia|done]].
  pose proof (zlen_nonneg (as_bytes name)). unfold str_len in *.
  assert (B : forall b, (b = true -> ~ 1 <= zlen (as_bytes name) <= MAX_PHASE_NAME_BYTES) ->
    (b = false -> 1 <= zlen (as_bytes name) <= MAX_PHASE_NAME_BYTES) ->
    (if b then Err InvalidPhaseName else Ok tt) = Ok tt
    <-> 1 <= 1 + zlen acts <= MAX_PHASE_ACTIONS
        /\ forall x, Some name = Some x -> 1 <= zlen (as_bytes x) <= MAX_PHASE_NAME_BYTES).
  { intros [|] Ht Hf; split; try discriminate; [intros [_ Hx]; by destruct (Ht eq_refl (Hx _ eq_refl))| |done].
    intros _. split; [lia|]. intros ? [= <-]. by apply Hf. }
  apply B; intros Hb; bools; [|lia]. apply orb_true_iff in Hb as [Hb|Hb]; bools; lia.
Qed.

Lemma validate_phase_actions_ok p : phase_shape p ->
  validate_phase_actions p = Ok tt <-> Forall action_wf (ph_actions p).
Proof.
  intros [H _]. unfold validate_phase_actions.
  destruct (Z.ltb_spec MAX_PHASE_ACTIONS (zlen (ph_actions p))); [lia|].
  apply check_all_ok, validate_action_ok.
Qed.

Lemma phases_wf_split ps :
  Forall phase_wf ps <-> check_all check_phase ps = Ok tt /\ check_all validate_phase_actions ps = Ok tt.
Proof.
  induction ps as [|p ps IH]; cbn; [by split|]. rewrite Forall_cons, IH.
  assert (H : phase_wf p <-> phase_shape p /\ Forall action_wf (ph_actions p)).
  { unfold phase_shape. split; [intros [? ? ?]; tauto|intros ((? & ?) & ?); by split]. }
  rewrite H, <- check_phase_ok. destruct (check_phase p) as [[]|e] eqn:E; [|intuition discriminate].
  rewrite <- (validate_phase_actions_ok p) by (by apply check_phase_ok).
  destruct (validate_phase_actions p) as [[]|e'] eqn:E'; intuition discriminate.
Qed.

Definition block_structure (s : ScenarioScheduleV2) : Prop :=
  src_version s = 2 /\ zlen (src_phases s) <= MAX_PHASES
  /\ check_all check_phase (src_phases s) = Ok tt
  /\ match src_repeat s with
     | None => src_phases s <> []
     | Some r => 1 <= rp_count r <= MAX_REPEAT_COUNT /\ 1 <= zlen (rp_phases r) <= MAX_PHASES
                 /\ check_all check_phase (rp_phases r) = Ok tt
     end.

Lemma check_structure_ok s : (forall r, src_repeat s = Some r -> 0 <= rp_count r) ->
  check_structure s = Ok tt <-> block_structure s.
Proof.
  intros Hr. unfold check_structure, block_structure, check_repeat_bounds, SCHEDULE_SCHEMA_VERSION.
  destruct (Z.eqb_spec (src_version s) 2); cbn [negb]; [|split; [discriminate|tauto]].
  destruct (Z.ltb_spec MAX_PHASES (zlen (src_phases s))); [split; [discriminate|lia]|].
  destruct (src_repeat s) as [r|] eqn:Er.
  - specialize (Hr r eq_refl). destruct (Z.eqb_spec (rp_count r) 0); cbn [orb]; [split; [discriminate|lia]|].
    destruct (Z.ltb_spec MAX_REPEAT_COUNT (rp_count r)); [split; [discriminate|lia]|].
    destruct (Z.ltb_spec MAX_PHASES (zlen (rp_phases r))); [split; [discriminate|lia]|].
    destruct (check_all check_phase (src_phases s)) as [[]|?]; [|split; [discriminate|intuition discriminate]].
    destruct (rp_phases r) as [|p ps] eqn:Ep.
    { split; [discriminate|]. rewrite zlen_nil. lia. }
    rewrite zlen_cons in *. pose proof (zlen_nonneg ps).
    destruct (check_all check_phase (p :: ps)) as [[]|?];
      [|split; [discriminate|intuition discriminate]].
    rewrite andb_false_r. split; [|done]. intros _. conjs; try done; lia.
  - destruct (check_all check_phase (src_phases s)) as [[]|?]; [|split; [discriminate|intuition discriminate]].
    destruct (src_phases s); cbn; split; try discriminate; intuition discriminate.
Qed.

Lemma count_events_eq total ps : 0 <= total <= USIZE_MAX ->
  let n := zsum (map (fun p => zlen (ph_actions p)) ps) in
  count_events total ps = if total + n <=? USIZE_MAX then Ok (total + n)
                          else Err (TooManyCompiledEvents (MAX_COMPILED_EVENTS + 1)).
Proof.
  revert total; induction ps as [|p ps IH]; intros total H; cbn [count_events map zsum foldr].
  - rewrite Z.add_0_r. destruct (Z.leb_spec total USIZE_MAX); [done|lia].
  - pose proof (zlen_nonneg (ph_actions p)).
    change (foldr Z.add 0 ?l) with (zsum l).
    assert (0 <= zsum (map (fun p => zlen (ph_actions p)) ps)).
    { apply zsum_nonneg, Forall_map, Forall_true. intros; cbv [compose]. apply zlen_nonneg. }
    destruct (Z.leb_spec (total + zlen (ph_actions p)) USIZE_MAX).
    + rewrite IH by lia. cbn zeta. by rewrite Z.add_assoc.
    + destruct (Z.leb_spec (total + (zlen (ph_actions p) + zsum (map (fun p => zlen (ph_actions p)) ps))) USIZE_MAX);
        [lia|done].
Qed.

Lemma block_phases f ps : map snd (block f ps) = ps.
Proof.
  unfold block. apply list_eq. intros i.
  change (map snd) with (fmap (M := list) (snd (A := CompiledPhaseIdentity) (B := SchedulePhaseV2))).
  rewrite list_lookup_fmap, list_lookup_imap. by destruct (ps !! i).
Qed.

Lemma flattened_phases_eq s : flattened_phases s = map snd (occurrences s).
Proof.
  unfold flattened_phases, occurrences. rewrite map_app, block_phases. f_equal.
  destruct (src_repeat s) as [r|]; [|done]. generalize 0%nat. induction (Z.to_nat (rp_count r)) as [|n IH]; intros k; [done|].
  cbn [replicate seq map concat]. by rewrite map_app, block_phases, <- IH.
Qed.

Lemma event_count_flattened s :
  zsum (map (fun p => zlen (ph_actions p)) (flattened_phases s)) = event_count (occurrences s).
Proof. rewrite flattened_phases_eq, map_map. done. Qed.

(** ** Specification theorems *)

Lemma occurrences_typed s : source_typed s -> durations_ok (occurrences s).
Proof.
  intros [Hp Hr]. unfold durations_ok, occurrences.
  assert (B : forall f ps, Forall phase_typed ps -> Forall (fun ip => phase_typed ip.2) (block f ps)).
  { intros f ps H. apply (Forall_map snd phase_typed). by rewrite block_phases. }
  apply Forall_app_2; [by apply B|]. destruct (src_repeat s) as [r|]; [|done].
  destruct (Hr r eq_refl) as [_ H]. apply Forall_concat, Forall_map, Forall_true.
  intros n; cbv [compose]. by apply B.
Qed.

Lemma event_count_nonneg l : 0 <= event_count l.
Proof. apply zsum_nonneg, Forall_map, Forall_true. intros; cbv [compose]. apply zlen_nonneg. Qed.

(** The two expansion loops, once the structure is known to be right. *)
Lemma expansion_ok s t' : block_structure s ->
  (exists t, top_loop 0 (src_phases s) tape_start = Ok t /\ expand_repeat (src_repeat s) t = Ok t')
  <-> check_all validate_phase_actions (src_phases s) = Ok tt
      /\ match src_repeat s with
         | Some r => check_all validate_phase_actions (rp_phases r) = Ok tt | None => True end
      /\ emit_all_phases (occurrences s) tape_start = Ok t'.
Proof.
  intros (_ & Hp & _ & Hr). unfold occurrences. setoid_rewrite emit_all_phases_app.
  setoid_rewrite top_loop_ok; [|done|unfold MAX_PHASES, U32_MAX in *; lia].
  rewrite (block_ext (fun i => Top (0 + i)) Top) by done.
  destruct (src_repeat s) as [r|]; unfold expand_repeat.
  - destruct Hr as ((? & ?) & (? & ?) & _).
    destruct (Z.ltb_spec MAX_REPEAT_COUNT (rp_count r)); [lia|].
    destruct (Z.ltb_spec MAX_PHASES (zlen (rp_phases r))); [lia|].
    pose proof (fun n t => repeat_loop_eq n 0 (rp_phases r) t ltac:(unfold MAX_PHASES, U32_MAX in *; lia)) as RL.
    cbn [Z.of_nat] in RL. destruct (check_all validate_phase_actions (rp_phases r)) as [[]|?].
    + setoid_rewrite RL. destruct (emit_all_phases (block Top (src_phases s)) tape_start) as [t|e].
      * split; [intros (t0 & (Hv & [= <-]) & He); done|intros (Hv & _ & He); by exists t].
      * split; [intros (t0 & (_ & ?) & _); discriminate|intros (_ & _ & ?); discriminate].
    + split; [intros (t0 & _ & ?); discriminate|intros (_ & ? & _); discriminate].
  - destruct (emit_all_phases (block Top (src_phases s)) tape_start) as [t|e]; cbn [emit_all_phases].
    + split; [intros (t0 & (Hv & [= <-]) & He); done|intros (Hv & _ & He); by exists t].
    + split; [intros (t0 & (_ & ?) & _); discriminate|intros (_ & _ & ?); discriminate].
Qed.

Lemma source_wf_split s : source_typed s ->
  source_wf s <->
  block_structure s
  /\ event_count (occurrences s) <= MAX_COMPILED_EVENTS
  /\ (check_all validate_phase_actions (src_phases s) = Ok tt
      /\ match src_repeat s with
         | Some r => check_all validate_phase_actions (rp_phases r) = Ok tt | None => True end)
  /\ duration (occurrences s) <= U64_MAX.
Proof.
  intros _. unfold block_structure. split.
  - intros [H1 H2 H3 [H4 H4']%phases_wf_split H5 H6 H7]. conjs; try done; destruct (src_repeat s) as [r|]; try done.
    + destruct (H3 r eq_refl) as (? & ? & [? ?]%phases_wf_split). done.
    + by destruct H5.
    + destruct (H3 r eq_refl) as (? & ? & [? ?]%phases_wf_split). done.
  - intros ((H1 & H2 & H3 & H4) & H5 & (H6 & H7) & H8). split; try done.
    + intros r Er. rewrite Er in H4, H7. rewrite phases_wf_split. tauto.
    + by apply phases_wf_split.
    + destruct (src_repeat s); [by right|by left].
Qed.

Lemma compile_spec (s : ScenarioScheduleV2) (Ht : source_typed s) (c : CompiledScenarioV2) :
  compile_schedule s = Ok c <-> source_wf s /\ c = compiled_reference s.
Proof.
  rewrite (source_wf_split s Ht). unfold compile_schedule.
  pose proof (check_structure_ok s ltac:(intros r Er; apply (st_repeat s Ht r Er))) as Hs.
  destruct (check_structure s) as [[]|e]; [|split; [discriminate|intros ((H & _) & _); apply Hs in H; discriminate]].
  assert (Hb : block_structure s) by (by apply Hs). clear Hs.
  rewrite count_events_eq by (unfold USIZE_MAX, U64_MAX; lia). cbn zeta. rewrite event_count_flattened, Z.add_0_l.
  pose proof (event_count_nonneg (occurrences s)) as Hn.
  destruct (Z.leb_spec (event_count (occurrences s)) USIZE_MAX);
    [|split; [discriminate|unfold USIZE_MAX, U64_MAX, MAX_COMPILED_EVENTS in *; lia]].
  unfold check_event_count. destruct (Z.ltb_spec MAX_COMPILED_EVENTS (event_count (occurrences s)));
    [split; [discriminate|lia]|].
  pose proof (expansion_ok s) as He. pose proof (emit_all_phases_spec (occurrences s) tape_start
    (occurrences_typed s Ht)) as Hd.
  specialize (Hd ltac:(cbn; unfold U64_MAX; lia)). cbn [tp_cursor tp_index tp_events tape_start app] in Hd.
  rewrite !Z.add_0_l in Hd. split.
  - intros Hc. destruct (top_loop 0 (src_phases s) tape_start) as [t|] eqn:E1; [|discriminate].
    destruct (expand_repeat (src_repeat s) t) as [t'|] eqn:E2; [|discriminate].
    destruct (proj1 (He t' Hb) (ex_intro _ t (conj eq_refl E2))) as (V1 & V2 & V3). rewrite V3 in Hd.
    destruct (Z.leb_spec (duration (occurrences s)) U64_MAX); [|discriminate].
    injection Hd as ->. cbn [tp_events tp_cursor] in Hc.
    destruct (MAX_COMPILED_EVENTS <? _); [discriminate|]. injection Hc as <-. done.
  - intros ((_ & _ & (V1 & V2) & V3) & ->).
    destruct (Z.leb_spec (duration (occurrences s)) U64_MAX); [|lia].
    destruct (proj2 (He _ Hb) (conj V1 (conj V2 Hd))) as (t & -> & ->). cbn [tp_events tp_cursor].
    unfold numbered. unfold zlen. rewrite length_imap. fold (zlen (scheduled 0 (occurrences s))).
    rewrite zlen_scheduled. destruct (Z.ltb_spec MAX_COMPILED_EVENTS (event_count (occurrences s))); [lia|].
    done.
Qed.

(** C32: the compiler is its specification.  A source is compiled exactly when it
    is well formed - version 2, at most 256 phases on either level, 1 to 64
    actions per phase, names of 1 to 128 bytes, 1 to 64 repetitions, every action
    valid, at most 1024 expanded events, a total duration that fits [u64] - and
    the tape is then the declarative expansion: every action of every phase
    occurrence at the sum of the durations before it, in source order, numbered
    from 0.  In particular no cast or counter of the expansion wraps and the
    checks repeated after the expansion never fail. *)
Theorem compile_is_expansion (s : ScenarioScheduleV2) (Ht : source_typed s) (c : CompiledScenarioV2) :
  compile_schedule s = Ok c <-> source_wf s /\ c = compiled_reference s.
Proof. exact (compile_spec s Ht c). Qed.

Lemma demo_source_typed : source_typed demo_source.
Proof. split; [|intros r [= <-]; split; [cbn; unfold U32_MAX; lia|]]; repeat constructor; cbn; unfold U64_MAX; lia. Qed.

Lemma compile_is_expansion_witness :
  source_wf demo_source /\ compile_schedule demo_source = Ok (compiled_reference demo_source).
Proof.
  assert (E : compile_schedule demo_source = Ok (compiled_reference demo_source)) by (vm_compute; reflexivity).
  split; [|exact E]. apply (compile_is_expansion demo_source demo_source_typed (compiled_reference demo_source)). exact E.
Defined.

(** ** Well-formed tapes *)

Record tape_wf (c : CompiledScenarioV2) : Prop := {
  tw_version : cp_compiler_semantics_version c = COMPILER_SEMANTICS_VERSION;
  tw_count : 1 <= zlen (cp_events c) <= MAX_COMPILED_EVENTS;
  tw_index : forall i e, cp_events c !! i = Some e -> ce_compiled_index e = Z.of_nat i;
  tw_sorted : forall i j e f, (i <= j)%nat -> cp_events c !! i = Some e -> cp_events c !! j = Some f ->
    0 <= ce_offset_ns e <= ce_offset_ns f /\ ce_offset_ns f <= cp_total_duration_ns c;
  tw_total : cp_total_duration_ns c <= U64_MAX;
  tw_valid : Forall (fun e => action_wf (ce_action e)) (cp_events c)
}.

Lemma scheduled_valid off l : Forall (fun ip => Forall action_wf (ph_actions ip.2)) l ->
  Forall (fun x => action_wf x.2) (scheduled off l).
Proof.
  intros H; revert off; induction H as [|[i p] l Hp H IH]; intros off; cbn; [done|].
  apply Forall_app_2; [|apply IH]. by apply Forall_map.
Qed.

Lemma scheduled_bounds off l : durations_ok l ->
  Forall (fun x => off <= x.1.2 <= off + duration l) (scheduled off l).
Proof.
  intros H; revert off; induction H as [|[i p] l Hp H IH]; intros off; cbn [scheduled]; [done|].
  pose proof (duration_nonneg l H). change (duration ((i, p) :: l)) with (ph_duration_ns p + duration l).
  cbn in Hp; unfold phase_typed in Hp. apply Forall_app_2.
  - apply Forall_map, Forall_true. intros a; cbv [compose]; cbn [fst snd]. lia.
  - eapply Forall_impl; [apply IH|]. cbn beta; intros x Hx; lia.
Qed.

Lemma scheduled_in_order off l : durations_ok l -> forall i j x y, (i <= j)%nat ->
  scheduled off l !! i = Some x -> scheduled off l !! j = Some y -> x.1.2 <= y.1.2.
Proof.
  intros H; revert off; induction H as [|[id p] l Hp H IH]; intros off i j x y Hij; cbn [scheduled]; [done|].
  cbn in Hp; unfold phase_typed in Hp. rewrite !lookup_app_Some.
  assert (M : forall k z, map (fun a => (id, off, a)) (ph_actions p) !! k = Some z -> z.1.2 = off).
  { intros k z Hz. apply list_elem_of_lookup_2, list_elem_of_fmap in Hz as (a & -> & _). done. }
  pose proof (scheduled_bounds (off + ph_duration_ns p) l H) as B. rewrite Forall_lookup in B.
  intros [Hx|[Hi Hx]] [Hy|[Hj Hy]].
  - by rewrite (M _ _ Hx), (M _ _ Hy).
  - rewrite (M _ _ Hx). specialize (B _ _ Hy). cbn in B. lia.
  - apply lookup_lt_Some in Hy. lia.
  - eapply (IH _ _ _ x y); [|exact Hx|exact Hy]. lia.
Qed.

Lemma occurrences_forall (P : SchedulePhaseV2 -> Prop) s :
  Forall P (src_phases s) -> (forall r, src_repeat s = Some r -> Forall P (rp_phases r)) ->
  Forall (fun ip => P ip.2) (occurrences s).
Proof.
  intros H1 H2. apply (Forall_map snd P). rewrite <- flattened_phases_eq. unfold flattened_phases.
  apply Forall_app_2; [done|]. destruct (src_repeat s) as [r|]; [|done].
  apply Forall_concat, Forall_replicate, H2. done.
Qed.

Lemma occurrences_some s : source_wf s -> 1 <= event_count (occurrences s).
Proof.
  intros [_ _ Hr Hp Hs _ _].
  assert (F : Forall (fun ip => phase_wf ip.2) (occurrences s))
    by (apply occurrences_forall; [done|intros r Er; apply (Hr r Er)]).
  assert (N : occurrences s <> []).
  { intros E. apply (f_equal (map snd)) in E. rewrite <- flattened_phases_eq in E. unfold flattened_phases in E.
    apply app_eq_nil in E as [E1 E2]. destruct Hs as [Hs|Hs]; [done|].
    destruct (src_repeat s) as [r|] eqn:Er; [|done]. destruct (Hr r eq_refl) as ((H1 & _) & (H2 & _) & _).
    destruct (Z.to_nat (rp_count r)) eqn:En; [lia|]. cbn in E2. apply app_eq_nil in E2 as [E2 _].
    rewrite E2, zlen_nil in H2. lia. }
  destruct (occurrences s) as [|[i p] l]; [done|].
  apply Forall_cons in F as [[[Ha _] _ _] _]. pose proof (event_count_nonneg l).
  change (event_count ((i, p) :: l)) with (zlen (ph_actions p) + event_count l). cbn in Ha. lia.
Qed.

(** C33: compiled tapes are well formed.  Every tape the compiler returns has 1 to
    1024 events whose indices are their positions, whose offsets never decrease
    and never exceed the total duration, which fits [u64], and whose actions
    are all valid, so the driver never meets an invalid plan. *)
Theorem compiled_tapes_are_well_formed (s : ScenarioScheduleV2) (Ht : source_typed s) (c : CompiledScenarioV2)
    (Hc : compile_schedule s = Ok c) :
  tape_wf c.
Proof.
  assert (H : source_wf s /\ c = compiled_reference s).
  { revert Hc. apply compile_spec; done. }
  destruct H as [Hw ->]. pose proof (occurrences_typed s Ht) as Hd.
  assert (L : forall i e, cp_events (compiled_reference s) !! i = Some e ->
    exists x, scheduled 0 (occurrences s) !! i = Some x /\ e = event_at 0 i x).
  { intros i e. cbn. unfold numbered. rewrite list_lookup_imap. intros (x & Hx & He)%fmap_Some. by exists x. }
  split; try done.
  - cbn. unfold numbered, zlen. rewrite length_imap. fold (zlen (scheduled 0 (occurrences s))).
    rewrite zlen_scheduled. split; [by apply occurrences_some|apply sw_count, Hw].
  - intros i e (x & _ & ->)%L. done.
  - intros i j e f Hij (x & Hx & ->)%L (y & Hy & ->)%L. cbn.
    pose proof (scheduled_bounds 0 _ Hd) as B. rewrite Forall_lookup in B.
    pose proof (scheduled_in_order 0 _ Hd i j x y Hij Hx Hy). pose proof (B _ _ Hx). pose proof (B _ _ Hy). lia.
  - apply (sw_duration s Hw).
  - apply Forall_lookup. intros i e (x & Hx & ->)%L. cbn.
    assert (F : Forall (fun x => action_wf x.2) (scheduled 0 (occurrences s))).
    { apply scheduled_valid, (occurrences_forall (fun p => Forall action_wf (ph_actions p))).
      - eapply Forall_impl; [apply (sw_wf s Hw)|]. intros p Hp; apply Hp.
      - intros r Er. destruct (sw_repeat s Hw r Er) as (_ & _ & F).
        eapply Forall_impl; [exact F|]. intros p Hp; apply Hp. }
    rewrite Forall_lookup in F. by apply (F i).
Qed.

Lemma compiled_tapes_are_well_formed_witness : tape_wf (compiled_reference demo_source).
Proof.
  apply (compiled_tapes_are_well_formed demo_source demo_source_typed). vm_compute. reflexivity.
Defined.
