(* ===== verification/Fingerprint.v ===== *)
(** * Canonical schedule encoding and fingerprint
      ([crates/eggchaos-experiment/src/fingerprint.rs])

    The text a compiled schedule is hashed from, the hex rendering of digests
    and the decimal formatting of the standard library they use.  A Rust
    [Vec<u8>] of text is a [string]; a function that appends to [out] returns
    what it appends.  SHA-256 comes from the [sha2] crate and is a parameter. *)

From stdpp Require Import base list strings pretty.
From Stdlib Require Import SpecFloat Ascii.
From S2P Require Import Prelude Rng Float64 Plan Policy Env DatagramPlan Schedule.

(** ** [format!("{:.17}", x)] *)

Definition TEN17 : Z := 100000000000000000.

Definition digit (d : Z) : ascii := pretty_N_char (Z.to_N d).
(** The [k] low decimal digits of [n]. *)
Fixpoint digits (k : nat) (n : Z) : string :=
  match k with
  | O => EmptyString
  | S k' => (digits k' (n / 10) +:+ String (digit (n mod 10)) EmptyString)%string
  end.

(** [m * 10^17 / d] rounded to the nearest integer, ties to even. *)
Definition round_div (m d : Z) : Z :=
  let q := m / d in
  let r := m mod d in
  if (d <? 2 * r) || ((2 * r =? d) && Z.odd q) then q + 1 else q.

(** The magnitude of a double in units of [10^-17]. *)
Definition scaled17 (x : f64) : Z :=
  match x with
  | S754_finite _ m e =>
      if 0 <=? e then Zpos m * 2 ^ e * TEN17 else round_div (Zpos m * TEN17) (2 ^ (- e))
  | _ => 0
  end.

Definition fixed17 (n : Z) : string := (dec (n / TEN17) +:+ "." +:+ digits 17 (n mod TEN17))%string.

Definition format_17 (x : f64) : string :=
  (match x with
  | S754_nan => "NaN"
  | S754_infinity s => if s then "-inf" else "inf"
  | S754_zero s => (if s then "-" else "") +:+ fixed17 0
  | S754_finite s _ _ => (if s then "-" else "") +:+ fixed17 (scaled17 x)
  end)%string.

Local Open Scope string_scope.

(** ** Encoding *)

Definition direction_as_str (d : Direction) : string :=
  match d with Upstream => "upstream" | Downstream => "downstream" end.

Definition write_isolation (isolation : IsolationPolicyV2) : string :=
  match isolation with Strict => "strict" | Live => "live" end.

Definition write_cleanup (cleanup : CleanupPolicyV2) : string :=
  match cleanup with RestoreInitial => "restore-initial" | Leave => "leave" end.

Definition write_phase (phase : CompiledPhaseIdentity) : string :=
  match phase with
  | Top index => "top/" +:+ dec index
  | Repeat iteration index => "repeat/" +:+ dec iteration +:+ "/" +:+ dec index
  end.

(** Durations are already nanoseconds, so [as_nanos] is the identity. *)
Definition write_stream_fault_kind (kind : FaultKind) : string :=
  match kind with
  | Latency c => "latency;delay_ns=" +:+ dec (lat_delay c) +:+ ";jitter_ns=" +:+ dec (lat_jitter c)
                 +:+ ";max_buffer_bytes=" +:+ dec (lat_max_buffer_bytes c)
  | Bandwidth c => "bandwidth;bytes_per_second=" +:+ dec (bw_bytes_per_second c)
                   +:+ ";burst_bytes=" +:+ dec (bw_burst_bytes c)
  | Blackhole c => "blackhole;close_after_ns=" +:+
                   match bh_close_after c with Some d => dec d | None => "<none>" end
  | LimitData c => "limit-data;bytes=" +:+ dec (ld_bytes c)
  | SlowClose c => "slow-close;delay_ns=" +:+ dec (sc_delay c)
  | Slice c => "slice;average_size=" +:+ dec (sl_average_size c) +:+ ";variation=" +:+ dec (sl_variation c)
               +:+ ";delay_ns=" +:+ dec (sl_delay c)
  | Disconnect c => "disconnect;after_ns=" +:+ dec (dc_after c)
                    +:+ ";hard_reset=" +:+ (if dc_hard_reset c then "true" else "false")
  | StreamLoss c => "stream-loss;loss_rate=" +:+ format_17 (slc_loss_rate c)
                    +:+ ";correlation=" +:+ format_17 (slc_correlation c)
  end.

Definition write_datagram_fault_kind (kind : DatagramFaultKind) : string :=
  match kind with
  | DDelay delay jitter => "delay;delay_ns=" +:+ dec delay +:+ ";jitter_ns=" +:+ dec jitter
  | DLoss => "loss"
  | DDuplicate n => "duplicate;additional_copies=" +:+ dec n
  | DReorder hold => "reorder;hold_ns=" +:+ dec hold
  | DPayloadCorrupt n => "payload-corrupt;bytes=" +:+ dec n
  | DBandwidth rate burst => "bandwidth;bytes_per_second=" +:+ dec rate +:+ ";burst_bytes=" +:+ dec burst
  end.

(** The bodies of the two loops over faults. *)
Definition write_stream_fault (f : FaultSpec) : string :=
  fs_id f +:+ "~" +:+ format_17 (fs_probability f) +:+ "~" +:+ write_stream_fault_kind (fs_kind f) +:+ "|".
Definition write_datagram_fault (f : DatagramFaultSpec) : string :=
  dg_id f +:+ "~" +:+ format_17 (dg_probability f) +:+ "~" +:+ write_datagram_fault_kind (dg_kind f) +:+ "|".

Definition concat_map {A} (f : A -> string) (l : list A) : string := foldr (fun x s => f x +:+ s) "" l.

Definition write_action (action : ScenarioAction) : string :=
  match action with
  | SetPlan proxy direction fs =>
      "set-plan;proxy=" +:+ proxy +:+ ";direction=" +:+ direction_as_str direction
      +:+ ";faults=" +:+ concat_map write_stream_fault fs
  | RemoveFault proxy direction id =>
      "remove-fault;proxy=" +:+ proxy +:+ ";direction=" +:+ direction_as_str direction +:+ ";id=" +:+ id
  | SetDatagramPlan proxy direction fs =>
      "set-datagram-plan;proxy=" +:+ proxy +:+ ";direction=" +:+ direction_as_str direction
      +:+ ";faults=" +:+ concat_map write_datagram_fault fs
  | RemoveDatagramFault proxy direction id =>
      "remove-datagram-fault;proxy=" +:+ proxy +:+ ";direction=" +:+ direction_as_str direction +:+ ";id=" +:+ id
  end.

Definition NL : ascii := Ascii.ascii_of_nat 10.

(** What follows the newline of an event. *)
Definition event_line (event : CompiledEventV2) : string :=
  "event[" +:+ dec (ce_compiled_index event) +:+ "] phase=" +:+ write_phase (ce_phase event)
  +:+ " offset_ns=" +:+ dec (ce_offset_ns event) +:+ " action=" +:+ write_action (ce_action event).
Definition write_event (event : CompiledEventV2) : string := String NL (event_line event).

Definition encode_compiled_for_fingerprint (c : CompiledScenarioV2) : string :=
  "isolation=" +:+ write_isolation (cp_isolation c)
  +:+ String NL ("cleanup=" +:+ write_cleanup (cp_cleanup c)
  +:+ String NL ("seed=" +:+ dec (cp_seed c)
  +:+ String NL ("execution_key=" +:+ dec (cp_execution_key c)
  +:+ String NL ("total_duration_ns=" +:+ dec (cp_total_duration_ns c)
  +:+ String NL ("event_count=" +:+ dec (zlen (cp_events c))
  +:+ concat_map write_event (cp_events c)))))).

(** ** Digests *)

Definition FINGERPRINT_DOMAIN : string := "eggchaos/scenario-v2/fingerprint/v1/compiler-semantics=".

(** [u32::to_be_bytes]. *)
Definition to_be_bytes (x : Z) : bytes := map (fun s => Z.shiftr x s mod 256)%Z [24; 16; 8; 0]%Z.

(** The SHA-256 input, and the digest under a hash function. *)
Definition fingerprint_input (c : CompiledScenarioV2) : bytes :=
  (as_bytes FINGERPRINT_DOMAIN ++ to_be_bytes COMPILER_SEMANTICS_VERSION
   ++ as_bytes (encode_compiled_for_fingerprint c))%list.
Definition compiled_fingerprint (sha256 : bytes -> bytes) (c : CompiledScenarioV2) : bytes :=
  sha256 (fingerprint_input c).

Definition HEX (n : Z) : ascii :=
  match String.get (Z.to_nat n) "0123456789abcdef" with Some c => c | None => "0"%char end.
Definition fingerprint_hex (digest : bytes) : string :=
  foldr (fun b out => String (HEX (Z.shiftr b 4)) (String (HEX (Z.land b 15)) out)) "" digest.

(** ** Formatting examples *)

Definition half : f64 := S754_finite false 4503599627370496 (-53).
Example format_half : format_17 half = "0.50000000000000000".
Proof. vm_compute. reflexivity. Qed.
Example format_one : format_17 f64_one = "1.00000000000000000".
Proof. vm_compute. reflexivity. Qed.
Example format_tenth : format_17 (S754_finite false 7205759403792794 (-56)) = "0.10000000000000001".
Proof. vm_compute. reflexivity. Qed.
(** [3 * 2^-18] ends in a 5 at the eighteenth digit: the tie goes to even. *)
Example format_tie : format_17 (S754_finite false 6755399441055744 (-69)) = "0.00001144409179688".
Proof. vm_compute. reflexivity. Qed.
Example hex_example : fingerprint_hex [0; 255; 58] = "00ff3a".
Proof. vm_compute. reflexivity. Qed.
