(* ===== verification/FingerprintProps.v ===== *)
(** * What the schedule fingerprint separates

    The encoding is injective on schedules whose names avoid its separators -
    up to the 17 decimals it keeps of a probability - and is not injective
    beyond that. *)

From stdpp Require Import base list strings pretty.
From Stdlib Require Import SpecFloat Ascii.
From S2P Require Import Prelude Rng Float64 Plan Policy Env DatagramPlan Schedule ScheduleProps Fingerprint.

#[local] Arguments String.append : simpl nomatch.

(** ** Separators *)

Fixpoint lacks (c : ascii) (s : string) : bool :=
  match s with
  | EmptyString => true
  | String d s' => negb (bool_decide (d = c)) && lacks c s'
  end.

Lemma lacks_app c s t : lacks c (s +:+ t) = lacks c s && lacks c t.
Proof. induction s as [|d s IH]; cbn; [done|]. by rewrite IH, andb_assoc. Qed.

Lemma lacks_cons c d s : lacks c (String d s) = negb (bool_decide (d = c)) && lacks c s.
Proof. done. Qed.

(** A text is cut at the first separator, when there is one or at the end. *)
Definition cut_here (c : ascii) (t : string) : Prop :=
  match t with EmptyString => True | String d _ => d = c end.

Lemma split_tail c s1 s2 t1 t2 :
  lacks c s1 = true -> lacks c s2 = true -> cut_here c t1 -> cut_here c t2 ->
  s1 +:+ t1 = s2 +:+ t2 -> s1 = s2 /\ t1 = t2.
Proof.
  revert s2; induction s1 as [|d s1 IH]; intros [|d2 s2]; cbn; intros L1 L2 C1 C2 E.
  - done.
  - subst t1. cbn in C1. subst d2. apply andb_true_iff in L2 as [L2 _]. by rewrite bool_decide_eq_true_2 in L2.
  - subst t2. cbn in C2. subst d. apply andb_true_iff in L1 as [L1 _]. by rewrite bool_decide_eq_true_2 in L1.
  - injection E as -> E. apply andb_true_iff in L1 as [_ L1]. apply andb_true_iff in L2 as [_ L2].
    destruct (IH s2 L1 L2 C1 C2 E) as [-> ->]. done.
Qed.

Lemma split_char c s1 s2 t1 t2 :
  lacks c s1 = true -> lacks c s2 = true ->
  s1 +:+ String c t1 = s2 +:+ String c t2 -> s1 = s2 /\ t1 = t2.
Proof.
  intros L1 L2 E. destruct (split_tail c s1 s2 (String c t1) (String c t2)) as [-> [= ->]]; done.
Qed.

Lemma app_eq_l (s t1 t2 : string) : s +:+ t1 = s +:+ t2 -> t1 = t2.
Proof. apply (inj (String.append s)). Qed.

(** Texts ended by [c], and texts started by [c]. *)
Lemma ended_inj {A} (g : A -> string) c (l k : list A) :
  (forall x, x ∈ l -> lacks c (g x) = true) -> (forall x, x ∈ k -> lacks c (g x) = true) ->
  concat_map (fun x => g x +:+ String c EmptyString) l = concat_map (fun x => g x +:+ String c EmptyString) k ->
  Forall2 (fun x y => g x = g y) l k.
Proof.
  revert k; induction l as [|x l IH]; intros [|y k] Hl Hk E; cbn in E.
  - constructor.
  - by destruct (g y).
  - by destruct (g x).
  - rewrite !string_app_assoc in E. cbn in E.
    apply (split_char c) in E as [E1 E2]; [|by apply Hl, list_elem_of_here|by apply Hk, list_elem_of_here].
    constructor; [done|]. apply IH; [intros z Hz; by apply Hl, list_elem_of_further| |done].
    intros z Hz; by apply Hk, list_elem_of_further.
Qed.

Lemma started_inj {A} (g : A -> string) c (l k : list A) :
  (forall x, x ∈ l -> lacks c (g x) = true) -> (forall x, x ∈ k -> lacks c (g x) = true) ->
  concat_map (fun x => String c (g x)) l = concat_map (fun x => String c (g x)) k ->
  Forall2 (fun x y => g x = g y) l k.
Proof.
  assert (C : forall m, cut_here c (concat_map (fun x => String c (g x)) m)) by (intros [|? ?]; done).
  revert k; induction l as [|x l IH]; intros [|y k] Hl Hk E; cbn in E; try done.
  injection E as E.
  apply (split_tail c) in E as [E1 E2]; [|by apply Hl, list_elem_of_here|by apply Hk, list_elem_of_here|apply C|apply C].
  constructor; [done|]. apply IH; [intros z Hz; by apply Hl, list_elem_of_further| |done].
  intros z Hz; by apply Hk, list_elem_of_further.
Qed.

Lemma concat_map_lacks {A} (g : A -> string) c l :
  (forall x, x ∈ l -> lacks c (g x) = true) -> lacks c (concat_map g l) = true.
Proof.
  induction l as [|x l IH]; intros H; cbn; [done|]. rewrite lacks_app, (H x (list_elem_of_here _ _)).
  apply IH. intros y Hy. by apply H, list_elem_of_further.
Qed.

(** ** Decimal texts *)

Definition is_digit (c : ascii) : bool := (48 <=? Z.of_nat (nat_of_ascii c)) && (Z.of_nat (nat_of_ascii c) <=? 57).

Lemma pretty_N_char_digit n : is_digit (pretty_N_char n) = true.
Proof. unfold pretty_N_char. repeat case_match; reflexivity. Qed.

Lemma digit_lacks c n s : is_digit c = false -> lacks c s = true -> lacks c (String (pretty_N_char n) s) = true.
Proof.
  intros Hc Hs. rewrite lacks_cons, Hs, andb_true_r. apply negb_true_iff, bool_decide_eq_false_2. intros <-.
  by rewrite pretty_N_char_digit in Hc.
Qed.

Lemma pretty_go_lacks c n s : is_digit c = false -> lacks c s = true -> lacks c (pretty_N_go n s) = true.
Proof.
  intros Hc. revert s. induction (N.lt_wf_0 n) as [n _ IH]; intros s Hs.
  destruct (decide (0 < n)%N) as [Hn|Hn].
  - rewrite pretty_N_go_step by done. apply IH; [by apply N.div_lt|]. by apply digit_lacks.
  - replace n with 0%N by lia. by rewrite pretty_N_go_0.
Qed.

Lemma dec_lacks c x : is_digit c = false -> lacks c (dec x) = true.
Proof.
  intros Hc. unfold dec, pretty, pretty_N. case_decide; [|by apply pretty_go_lacks].
  by apply (digit_lacks c 0).
Qed.

Lemma dec_inj x y : 0 <= x -> 0 <= y -> dec x = dec y -> x = y.
Proof. intros Hx Hy E. unfold dec in E. apply (inj (pretty (A := N))) in E. lia. Qed.

Lemma digits_lacks c k n : is_digit c = false -> lacks c (digits k n) = true.
Proof.
  intros Hc. revert n; induction k as [|k IH]; intros n; cbn [digits]; [done|].
  rewrite lacks_app, IH. by apply digit_lacks.
Qed.

(** The separators of the encoding. *)
Definition separators : list ascii := [NL; "~"; "|"; ";"; " "; "]"; "/"]%char.

Lemma separator_not_digit c : c ∈ separators -> is_digit c = false.
Proof. unfold separators. rewrite !elem_of_cons. intros H. repeat destruct H as [->|H]; [reflexivity..|by apply elem_of_nil in H]. Qed.

Lemma separator_literal c s : c ∈ separators -> forallb (fun d => lacks d s) separators = true -> lacks c s = true.
Proof. intros Hc Hs. rewrite forallb_forall in Hs. apply Hs. by apply list_elem_of_In. Qed.

Lemma dec_clean c x : c ∈ separators -> lacks c (dec x) = true.
Proof. intros H. by apply dec_lacks, separator_not_digit. Qed.

Lemma format_clean c x : c ∈ separators -> lacks c (format_17 x) = true.
Proof.
  intros Hc. assert (F : forall n, lacks c (fixed17 n) = true).
  { intros n. unfold fixed17. rewrite !lacks_app, dec_clean, digits_lacks by auto using separator_not_digit.
    rewrite andb_true_r. apply separator_literal; [done|reflexivity]. }
  assert (L : forall s, forallb (fun d => lacks d s) separators = true -> lacks c s = true) by eauto using separator_literal.
  destruct x as [[]|[]| |[]]; cbn [format_17]; rewrite ?lacks_app, ?F, ?andb_true_r; apply L; reflexivity.
Qed.

(** A text put together from literals, numbers and probabilities is clean. *)
Ltac is_sep := refine (bool_decide_unpack _ _); exact I.
Ltac clean :=
  rewrite ?lacks_app, ?lacks_cons, ?dec_clean, ?format_clean by is_sep; first [reflexivity | done].

(** ** Fault kinds *)

Definition same_probability (p q : Probability) : Prop := format_17 p = format_17 q.

Definition same_kind (k1 k2 : FaultKind) : Prop :=
  match k1, k2 with
  | StreamLoss c1, StreamLoss c2 =>
      same_probability (slc_loss_rate c1) (slc_loss_rate c2)
      /\ same_probability (slc_correlation c1) (slc_correlation c2)
  | _, _ => k1 = k2
  end.

Lemma write_stream_kind_clean c k : c ∈ [NL; "~"; "|"]%char -> lacks c (write_stream_fault_kind k) = true.
Proof.
  rewrite !elem_of_cons, elem_of_nil. intros [->|[->|[->|[]]]];
    destruct k as [c|c|c|c|c|c|c|c]; cbn [write_stream_fault_kind];
    try destruct (bh_close_after c); try destruct (dc_hard_reset c); clean.
Qed.

Lemma write_datagram_kind_clean c k : c ∈ [NL; "~"; "|"]%char -> lacks c (write_datagram_fault_kind k) = true.
Proof.
  rewrite !elem_of_cons, elem_of_nil. intros [->|[->|[->|[]]]]; destruct k; cbn [write_datagram_fault_kind]; clean.
Qed.

(** Remove a common literal, or take a field up to the separator [c]. *)
Ltac strip H := cbn [String.append] in H; repeat (injection H as H).
Ltac field c H := apply (split_char c) in H as [? H]; [|clean|clean].

Lemma write_stream_kind_inj k1 k2 : kind_typed k1 -> kind_typed k2 ->
  write_stream_fault_kind k1 = write_stream_fault_kind k2 -> same_kind k1 k2.
Proof.
  destruct k1 as [c1|c1|c1|c1|c1|c1|c1|c1], k2 as [c2|c2|c2|c2|c2|c2|c2|c2];
    cbn [write_stream_fault_kind kind_typed same_kind]; intros T1 T2 H; try (cbn in H; discriminate H); strip H.
  - field ";"%char H. strip H. field ";"%char H. strip H.
    f_equal. destruct c1, c2; cbn in *. f_equal; apply dec_inj; tauto.
  - field ";"%char H. strip H. f_equal. destruct c1, c2; cbn in *. f_equal; apply dec_inj; tauto.
  - f_equal. destruct c1 as [[d1|]], c2 as [[d2|]]; cbn in *; [|exfalso|exfalso|done].
    + do 2 f_equal. by apply dec_inj.
    + apply (f_equal (lacks "<")) in H. by rewrite dec_lacks in H.
    + apply (f_equal (lacks "<")) in H. by rewrite dec_lacks in H.
  - f_equal. destruct c1, c2; cbn in *. f_equal. apply dec_inj; tauto.
  - f_equal. destruct c1, c2; cbn in *. f_equal. by apply dec_inj.
  - field ";"%char H. strip H. field ";"%char H. strip H.
    f_equal. destruct c1, c2; cbn in *. f_equal; apply dec_inj; intuition lia.
  - field ";"%char H. strip H. f_equal. destruct c1 as [a1 h1], c2 as [a2 h2]; cbn in *.
    f_equal; [by apply dec_inj|]. by destruct h1, h2.
  - field ";"%char H. strip H. done.
Qed.

Lemma write_datagram_kind_inj k1 k2 : dkind_typed k1 -> dkind_typed k2 ->
  write_datagram_fault_kind k1 = write_datagram_fault_kind k2 -> k1 = k2.
Proof.
  destruct k1, k2; cbn [write_datagram_fault_kind dkind_typed]; intros T1 T2 H; try (cbn in H; discriminate H);
    strip H; try done; try (f_equal; apply dec_inj; intuition lia).
  - field ";"%char H. strip H. f_equal; apply dec_inj; tauto.
  - field ";"%char H. strip H. f_equal; apply dec_inj; intuition lia.
Qed.

(** ** Faults, actions, events *)

Definition same_fault (f g : FaultSpec) : Prop :=
  fs_id f = fs_id g /\ same_probability (fs_probability f) (fs_probability g) /\ same_kind (fs_kind f) (fs_kind g).
Definition same_datagram_fault (f g : DatagramFaultSpec) : Prop :=
  dg_id f = dg_id g /\ same_probability (dg_probability f) (dg_probability g) /\ dg_kind f = dg_kind g.

Definition same_action (a b : ScenarioAction) : Prop :=
  match a, b with
  | SetPlan p d fs, SetPlan p' d' fs' => p = p' /\ d = d' /\ Forall2 same_fault fs fs'
  | SetDatagramPlan p d fs, SetDatagramPlan p' d' fs' => p = p' /\ d = d' /\ Forall2 same_datagram_fault fs fs'
  | RemoveFault _ _ _, RemoveFault _ _ _ => a = b
  | RemoveDatagramFault _ _ _, RemoveDatagramFault _ _ _ => a = b
  | _, _ => False
  end.

(** Names that avoid the separators after them. *)
Definition id_clean (id : string) : bool := lacks NL id && lacks "~" id && lacks "|" id.
Definition proxy_clean (proxy : string) : bool := lacks NL proxy && lacks ";" proxy.
Definition action_clean (a : ScenarioAction) : bool :=
  match a with
  | SetPlan p _ fs => proxy_clean p && forallb (fun f => id_clean (fs_id f)) fs
  | SetDatagramPlan p _ fs => proxy_clean p && forallb (fun f => id_clean (dg_id f)) fs
  | RemoveFault p _ id | RemoveDatagramFault p _ id => proxy_clean p && lacks NL id
  end.

(** The ranges of the field types. *)
Definition action_typed (a : ScenarioAction) : Prop :=
  match a with
  | SetPlan _ _ fs => Forall (fun f => kind_typed (fs_kind f)) fs
  | SetDatagramPlan _ _ fs => Forall (fun f => dkind_typed (dg_kind f)) fs
  | _ => True
  end.

Definition fault_text (id : string) (p : Probability) (kind : string) : string :=
  id +:+ "~" +:+ format_17 p +:+ "~" +:+ kind.

Lemma fault_text_clean c id p kind : c ∈ [NL; "|"]%char ->
  id_clean id = true -> lacks c kind = true -> lacks c (fault_text id p kind) = true.
Proof.
  unfold id_clean, fault_text. intros Hc [[Hn Ht]%andb_true_iff Hb]%andb_true_iff Hk. rewrite !lacks_app, Hk.
  revert Hc. rewrite !elem_of_cons, elem_of_nil. intros [->|[->|[]]]; rewrite ?format_clean by is_sep;
    rewrite ?Hn, ?Ht, ?Hb; reflexivity.
Qed.

Lemma fault_text_inj id1 id2 p1 p2 k1 k2 : id_clean id1 = true -> id_clean id2 = true ->
  fault_text id1 p1 k1 = fault_text id2 p2 k2 -> id1 = id2 /\ same_probability p1 p2 /\ k1 = k2.
Proof.
  unfold id_clean, fault_text. intros H1 H2 H. bools.
  apply (split_char "~") in H as [? H]; [|done|done]. apply (split_char "~") in H as [? H]; [|clean|clean]. done.
Qed.

Lemma write_stream_fault_text f :
  write_stream_fault f
  = fault_text (fs_id f) (fs_probability f) (write_stream_fault_kind (fs_kind f)) +:+ String "|" EmptyString.
Proof. unfold write_stream_fault, fault_text. by rewrite !string_app_assoc. Qed.
Lemma write_datagram_fault_text f :
  write_datagram_fault f
  = fault_text (dg_id f) (dg_probability f) (write_datagram_fault_kind (dg_kind f)) +:+ String "|" EmptyString.
Proof. unfold write_datagram_fault, fault_text. by rewrite !string_app_assoc. Qed.

(** A fault list, whatever its kinds are, can be read back from its text. *)
Section FaultLists.
Context {F : Type} (write : F -> string) (ident : F -> string) (prob : F -> Probability) (kind : F -> string).
Hypothesis write_text : forall f, write f = fault_text (ident f) (prob f) (kind f) +:+ String "|" EmptyString.
Hypothesis kind_clean : forall c f, c ∈ [NL; "~"; "|"]%char -> lacks c (kind f) = true.

Lemma faults_clean fs : forallb (fun f => id_clean (ident f)) fs = true -> lacks NL (concat_map write fs) = true.
Proof.
  intros H. apply concat_map_lacks. intros f Hf. rewrite forallb_forall in H.
  rewrite write_text, lacks_app, fault_text_clean; [reflexivity|is_sep| |].
  - by apply H, list_elem_of_In.
  - apply kind_clean. is_sep.
Qed.

Lemma faults_inj fs gs :
  forallb (fun f => id_clean (ident f)) fs = true -> forallb (fun f => id_clean (ident f)) gs = true ->
  concat_map write fs = concat_map write gs ->
  Forall2 (fun f g => ident f = ident g /\ same_probability (prob f) (prob g) /\ kind f = kind g) fs gs.
Proof.
  intros Hf Hg E. rewrite forallb_forall in Hf, Hg.
  assert (C : forall l, (forall x, In x l -> id_clean (ident x) = true) ->
    forall x, x ∈ l -> lacks "|" (fault_text (ident x) (prob x) (kind x)) = true).
  { intros l Hl x Hx. apply fault_text_clean; [is_sep|by apply Hl, list_elem_of_In|apply kind_clean; is_sep]. }
  assert (W : forall l, concat_map write l
    = concat_map (fun x => fault_text (ident x) (prob x) (kind x) +:+ String "|" EmptyString) l).
  { unfold concat_map. induction l as [|x l IH]; cbn; [done|]. by rewrite write_text, IH. }
  rewrite !W in E. apply ended_inj in E; [|by apply C|by apply C].
  assert (Hf' := proj2 (Forall_forall _ _) (fun x Hx => Hf x (proj1 (list_elem_of_In _ _) Hx))).
  assert (Hg' := proj2 (Forall_forall _ _) (fun x Hx => Hg x (proj1 (list_elem_of_In _ _) Hx))).
  clear Hf Hg C W. induction E as [|x y l k Exy E IH]; constructor.
  - apply Forall_cons in Hf' as [? _]. apply Forall_cons in Hg' as [? _]. by apply fault_text_inj.
  - apply Forall_cons in Hf' as [_ ?]. apply Forall_cons in Hg' as [_ ?]. by apply IH.
Qed.
End FaultLists.

Lemma direction_clean c d : c ∈ separators -> lacks c (direction_as_str d) = true.
Proof. intros Hc. apply separator_literal; [done|by destruct d]. Qed.
Lemma direction_inj d d' : direction_as_str d = direction_as_str d' -> d = d'.
Proof. by destruct d, d'. Qed.

Lemma stream_faults_clean fs : forallb (fun f => id_clean (fs_id f)) fs = true ->
  lacks NL (concat_map write_stream_fault fs) = true.
Proof.
  exact (faults_clean _ fs_id fs_probability (fun f => write_stream_fault_kind (fs_kind f))
           write_stream_fault_text (fun c f => write_stream_kind_clean c (fs_kind f)) fs).
Qed.
Lemma datagram_faults_clean fs : forallb (fun f => id_clean (dg_id f)) fs = true ->
  lacks NL (concat_map write_datagram_fault fs) = true.
Proof.
  exact (faults_clean _ dg_id dg_probability (fun f => write_datagram_fault_kind (dg_kind f))
           write_datagram_fault_text (fun c f => write_datagram_kind_clean c (dg_kind f)) fs).
Qed.

Lemma write_action_clean a : action_clean a = true -> lacks NL (write_action a) = true.
Proof.
  unfold action_clean, proxy_clean. destruct a as [p d fs|p d id|p d fs|p d id]; intros H; bools;
    cbn [write_action]; rewrite !lacks_app, direction_clean by is_sep.
  - rewrite stream_faults_clean by done. by rewrite H.
  - by rewrite H, H0.
  - rewrite datagram_faults_clean by done. by rewrite H.
  - by rewrite H, H0.
Qed.

Lemma stream_faults_inj fs gs :
  Forall (fun f => kind_typed (fs_kind f)) fs -> Forall (fun f => kind_typed (fs_kind f)) gs ->
  forallb (fun f => id_clean (fs_id f)) fs = true -> forallb (fun f => id_clean (fs_id f)) gs = true ->
  concat_map write_stream_fault fs = concat_map write_stream_fault gs -> Forall2 same_fault fs gs.
Proof.
  intros Tf Tg Cf Cg E.
  apply (faults_inj _ fs_id fs_probability (fun f => write_stream_fault_kind (fs_kind f))
           write_stream_fault_text (fun c f => write_stream_kind_clean c (fs_kind f))) in E; [|done|done].
  clear Cf Cg. induction E as [|f g fs gs (E1 & E2 & E3) E IH]; constructor; inversion Tf; inversion Tg; subst; [|auto].
  repeat split; [done|done|]. by apply write_stream_kind_inj.
Qed.

Lemma datagram_faults_inj fs gs :
  Forall (fun f => dkind_typed (dg_kind f)) fs -> Forall (fun f => dkind_typed (dg_kind f)) gs ->
  forallb (fun f => id_clean (dg_id f)) fs = true -> forallb (fun f => id_clean (dg_id f)) gs = true ->
  concat_map write_datagram_fault fs = concat_map write_datagram_fault gs -> Forall2 same_datagram_fault fs gs.
Proof.
  intros Tf Tg Cf Cg E.
  apply (faults_inj _ dg_id dg_probability (fun f => write_datagram_fault_kind (dg_kind f))
           write_datagram_fault_text (fun c f => write_datagram_kind_clean c (dg_kind f))) in E; [|done|done].
  clear Cf Cg. induction E as [|f g fs gs (E1 & E2 & E3) E IH]; constructor; inversion Tf; inversion Tg; subst; [|auto].
  repeat split; [done|done|]. by apply write_datagram_kind_inj.
Qed.

(** Two targets that start the same way have the same proxy and direction. *)
Lemma target_inj p d rest p' d' rest' : lacks ";" p = true -> lacks ";" p' = true ->
  p +:+ ";direction=" +:+ direction_as_str d +:+ String ";" rest
  = p' +:+ ";direction=" +:+ direction_as_str d' +:+ String ";" rest' -> p = p' /\ d = d' /\ rest = rest'.
Proof.
  intros Hp Hp' H. apply (split_char ";") in H as [-> H]; [|done|done]. strip H.
  apply (split_char ";") in H as [E ->]; [|apply direction_clean; is_sep..]. by apply direction_inj in E as ->.
Qed.

Lemma write_action_inj a b : action_typed a -> action_typed b ->
  action_clean a = true -> action_clean b = true -> write_action a = write_action b -> same_action a b.
Proof.
  unfold action_clean, proxy_clean.
  destruct a as [p d fs|p d id|p d fs|p d id], b as [p' d' gs|p' d' id'|p' d' gs|p' d' id'];
    cbn [write_action action_typed same_action]; intros Ta Tb Ca Cb H; try (cbn in H; discriminate H); bools; strip H.
  - apply target_inj in H as (-> & -> & H); [|done|done]. strip H. conjs; [done|done|]. by apply stream_faults_inj.
  - apply target_inj in H as (-> & -> & H); [|done|done]. strip H. by subst.
  - apply target_inj in H as (-> & -> & H); [|done|done]. strip H. conjs; [done|done|]. by apply datagram_faults_inj.
  - apply target_inj in H as (-> & -> & H); [|done|done]. strip H. by subst.
Qed.

Lemma write_phase_clean c i : c ∈ [NL; " "]%char -> lacks c (write_phase i) = true.
Proof. rewrite !elem_of_cons, elem_of_nil. intros [->|[->|[]]]; destruct i; cbn [write_phase]; clean. Qed.

Definition phase_identity_typed (i : CompiledPhaseIdentity) : Prop :=
  match i with Top n => 0 <= n | Repeat k n => 0 <= k /\ 0 <= n end.

Lemma write_phase_inj i j : phase_identity_typed i -> phase_identity_typed j ->
  write_phase i = write_phase j -> i = j.
Proof.
  destruct i, j; cbn [write_phase phase_identity_typed]; intros Ti Tj H; try (cbn in H; discriminate H); strip H.
  - f_equal. by apply dec_inj.
  - field "/"%char H. f_equal; apply dec_inj; tauto.
Qed.

(** ** Tapes *)

Record event_typed (e : CompiledEventV2) : Prop := {
  et_index : 0 <= ce_compiled_index e;
  et_phase : phase_identity_typed (ce_phase e);
  et_offset : 0 <= ce_offset_ns e;
  et_action : action_typed (ce_action e)
}.
Record tape_typed (c : CompiledScenarioV2) : Prop := {
  tt_seed : 0 <= cp_seed c; tt_key : 0 <= cp_execution_key c; tt_total : 0 <= cp_total_duration_ns c;
  tt_events : Forall event_typed (cp_events c)
}.
Definition tape_clean (c : CompiledScenarioV2) : bool := forallb (fun e => action_clean (ce_action e)) (cp_events c).

(** The same execution, up to the digits of a probability that are encoded. *)
Record same_event (e f : CompiledEventV2) : Prop := {
  se_index : ce_compiled_index e = ce_compiled_index f;
  se_phase : ce_phase e = ce_phase f;
  se_offset : ce_offset_ns e = ce_offset_ns f;
  se_action : same_action (ce_action e) (ce_action f)
}.
Record same_tape (c d : CompiledScenarioV2) : Prop := {
  sm_seed : cp_seed c = cp_seed d;
  sm_key : cp_execution_key c = cp_execution_key d;
  sm_isolation : cp_isolation c = cp_isolation d;
  sm_cleanup : cp_cleanup c = cp_cleanup d;
  sm_total : cp_total_duration_ns c = cp_total_duration_ns d;
  sm_events : Forall2 same_event (cp_events c) (cp_events d)
}.

Lemma event_line_clean e : action_clean (ce_action e) = true -> lacks NL (event_line e) = true.
Proof.
  intros H. unfold event_line. rewrite !lacks_app, write_action_clean by done.
  rewrite write_phase_clean by is_sep. clean.
Qed.

Lemma event_line_inj e f : event_typed e -> event_typed f ->
  action_clean (ce_action e) = true -> action_clean (ce_action f) = true ->
  event_line e = event_line f -> same_event e f.
Proof.
  intros [I1 P1 O1 A1] [I2 P2 O2 A2] C1 C2 H. unfold event_line in H. strip H.
  field "]"%char H. strip H.
  apply (split_char " ") in H as [? H]; [|apply write_phase_clean; is_sep..]. strip H.
  field " "%char H. strip H. split.
  - by apply dec_inj.
  - by apply write_phase_inj.
  - by apply dec_inj.
  - by apply write_action_inj.
Qed.

Lemma isolation_clean i : lacks NL (write_isolation i) = true.
Proof. by destruct i. Qed.
Lemma cleanup_clean p : lacks NL (write_cleanup p) = true.
Proof. by destruct p. Qed.

(** Encodings are equal only for the same execution. *)
Lemma encode_inj c d : tape_typed c -> tape_typed d -> tape_clean c = true -> tape_clean d = true ->
  encode_compiled_for_fingerprint c = encode_compiled_for_fingerprint d -> same_tape c d.
Proof.
  intros [S1 K1 D1 E1] [S2 K2 D2 E2] C1 C2 H. unfold encode_compiled_for_fingerprint in H. strip H.
  apply (split_char NL) in H as [Hi H]; [|apply isolation_clean..]. strip H.
  apply (split_char NL) in H as [Hc H]; [|apply cleanup_clean..]. strip H.
  field NL H. strip H. field NL H. strip H. field NL H. strip H.
  apply (split_tail NL) in H as [_ H]; [|clean|clean|by destruct (cp_events c)|by destruct (cp_events d)].
  unfold tape_clean in *. rewrite forallb_forall in C1, C2. apply started_inj in H.
  - split; try (by apply dec_inj).
    + by destruct (cp_isolation c), (cp_isolation d).
    + by destruct (cp_cleanup c), (cp_cleanup d).
    + rewrite Forall_forall in E1, E2.
      assert (G : Forall2 (fun e f => (e ∈ cp_events c /\ f ∈ cp_events d) /\ event_line e = event_line f)
                    (cp_events c) (cp_events d)).
      { apply Forall2_same_length_lookup. split; [by eapply Forall2_length|]. intros i x y Hx Hy.
        rewrite Forall2_lookup in H. specialize (H i). rewrite Hx, Hy in H. inversion H; subst.
        split; [split; by eapply list_elem_of_lookup_2|done]. }
      eapply Forall2_impl; [exact G|]. intros e f [[He Hf] Hl].
      apply event_line_inj; auto; [apply C1|apply C2]; by apply list_elem_of_In.
  - intros e He. apply event_line_clean, C1. by apply list_elem_of_In.
  - intros e He. apply event_line_clean, C2. by apply list_elem_of_In.
Qed.

(** ** The fingerprint *)

Lemma as_bytes_inj s t : as_bytes s = as_bytes t -> s = t.
Proof.
  revert t; induction s as [|c s IH]; intros [|d t] H; cbn in H; try discriminate; [done|].
  injection H as H1 H2. f_equal; [|by apply IH].
  apply N2Z.inj in H1. by rewrite <- (ascii_N_embedding c), H1, ascii_N_embedding.
Qed.

(** C34: the fingerprint determines the schedule.  Take two tapes whose proxy
    names avoid [;] and newline, whose fault identities avoid [~], [|] and
    newline and whose removed identities avoid newline.  If they have the same
    fingerprint under a hash that does not collide on their two encodings, they
    are the same execution: same seed, key, policies and total duration, and the
    same events with the same offsets, phases and actions, up to the 17 decimals
    of a probability. *)
Theorem fingerprint_determines_schedule (sha256 : bytes -> bytes) (c d : CompiledScenarioV2)
    (Tc : tape_typed c) (Td : tape_typed d) (Cc : tape_clean c = true) (Cd : tape_clean d = true)
    (Hn : sha256 (fingerprint_input c) = sha256 (fingerprint_input d) -> fingerprint_input c = fingerprint_input d) :
  compiled_fingerprint sha256 c = compiled_fingerprint sha256 d -> same_tape c d.
Proof.
  intros H. apply Hn in H. unfold fingerprint_input in H. do 2 apply app_inv_head in H.
  apply encode_inj; auto. by apply as_bytes_inj.
Qed.

Lemma demo_tape_typed : tape_typed (compiled_reference demo_source).
Proof.
  split; [vm_compute; discriminate..|]. vm_compute. repeat constructor; vm_compute; intuition discriminate.
Qed.

Lemma fingerprint_determines_schedule_witness :
  tape_clean (compiled_reference demo_source) = true
  /\ same_tape (compiled_reference demo_source) (compiled_reference demo_source).
Proof.
  assert (C : tape_clean (compiled_reference demo_source) = true) by (vm_compute; reflexivity).
  split; [exact C|].
  exact (fingerprint_determines_schedule (fun b => b) _ _ demo_tape_typed demo_tape_typed C C (fun e => e) eq_refl).
Defined.

(** ** What it does not separate *)

Definition datagram_loss (id : string) (p : Probability) : DatagramFaultSpec :=
  {| dg_id := id; dg_probability := p; dg_kind := DLoss |}.
Definition one_action (a : ScenarioAction) : ScenarioScheduleV2 := {|
  src_version := 2; src_seed := 1; src_execution_key := 1; src_isolation := Strict; src_cleanup := Leave;
  src_phases := [demo_phase None 0 [a]]; src_repeat := None |}.

(** Two losses, and one loss whose identity reads like the two. *)
Definition two_losses : ScenarioScheduleV2 :=
  one_action (SetDatagramPlan "dns" Upstream [datagram_loss "a" f64_one; datagram_loss "b" f64_one]).
Definition one_loss : ScenarioScheduleV2 :=
  one_action (SetDatagramPlan "dns" Upstream [datagram_loss "a~1.00000000000000000~loss|b" f64_one]).
(** A loss that never fires, and one of probability [2^-60]. *)
Definition tiny : Probability := S754_finite false 4503599627370496 (-112).
Definition never_loses : ScenarioScheduleV2 :=
  one_action (SetDatagramPlan "dns" Upstream [datagram_loss "a" f64_zero]).
Definition rarely_loses : ScenarioScheduleV2 :=
  one_action (SetDatagramPlan "dns" Upstream [datagram_loss "a" tiny]).

(** The fingerprint is not a replay identity in general.  Whatever the hash:
    a plan of two losses and a plan of one loss whose (valid) identity contains
    the separators have the same fingerprint, and so have a loss of
    probability 0, which never fires, and one of [2^-60], which can. *)
Theorem fingerprint_is_not_injective (sha256 : bytes -> bytes) :
  (exists c d, compile_schedule two_losses = Ok c /\ compile_schedule one_loss = Ok d
     /\ compiled_fingerprint sha256 c = compiled_fingerprint sha256 d /\ ~ same_tape c d)
  /\ (exists c d, compile_schedule never_loses = Ok c /\ compile_schedule rarely_loses = Ok d
     /\ compiled_fingerprint sha256 c = compiled_fingerprint sha256 d
     /\ c <> d /\ bernoulli_threshold f64_zero = 0 /\ bernoulli_threshold tiny = 16).
Proof.
  unfold compiled_fingerprint. split.
  - exists (compiled_reference two_losses), (compiled_reference one_loss). conjs; [reflexivity..| |].
    + vm_compute. reflexivity.
    + intros [_ _ _ _ _ H]. vm_compute in H. inversion H as [|? ? ? ? [_ _ _ A] _]; subst.
      destruct A as (_ & _ & A). inversion A as [|? ? ? ? _ B]. inversion B.
  - exists (compiled_reference never_loses), (compiled_reference rarely_loses). conjs; [reflexivity..| | |reflexivity|].
    + vm_compute. reflexivity.
    + intros H. vm_compute in H. discriminate H.
    + vm_compute. reflexivity.
Qed.

(** ** The resolution of an encoded probability *)

Lemma string_app_cut (s1 s2 t1 t2 : string) : String.length s1 = String.length s2 ->
  s1 +:+ t1 = s2 +:+ t2 -> s1 = s2 /\ t1 = t2.
Proof.
  revert s2; induction s1 as [|c s1 IH]; intros [|d s2] L E; cbn in *; try discriminate; [done|].
  injection E as -> E. injection L as L. by destruct (IH s2 L E) as [-> ->].
Qed.

Lemma digits_length k n : String.length (digits k n) = k.
Proof. revert n; induction k as [|k IH]; intros n; cbn [digits]; [done|]. rewrite string_length_app, IH. cbn. lia. Qed.

Lemma digits_inj k x y : 0 <= x < 10 ^ Z.of_nat k -> 0 <= y < 10 ^ Z.of_nat k -> digits k x = digits k y -> x = y.
Proof.
  revert x y; induction k as [|k IH]; intros x y Hx Hy E.
  - change (10 ^ Z.of_nat 0) with 1 in *. lia.
  - rewrite Nat2Z.inj_succ, Z.pow_succ_r in Hx, Hy by lia. cbn [digits] in E.
    assert (D : forall n, (n mod 10 < 10 /\ 0 <= n mod 10)) by (intros n; split; apply Z.mod_pos_bound; lia).
    apply string_app_cut in E as [E1 E2]; [|by rewrite !digits_length]. injection E2 as E2.
    apply pretty_N_char_inj in E2; [|destruct (D x); lia|destruct (D y); lia].
    apply IH in E1; [|split; [apply Z.div_pos|apply Z.div_lt_upper_bound]; lia..].
    rewrite (Z.div_mod x 10), (Z.div_mod y 10), E1 by lia. destruct (D x), (D y). f_equal. lia.
Qed.

Lemma fixed17_inj n m : 0 <= n -> 0 <= m -> fixed17 n = fixed17 m -> n = m.
Proof.
  intros Hn Hm H. unfold fixed17 in H. apply (split_char ".") in H as [H1 H2]; [|by apply dec_lacks..].
  apply dec_inj in H1; [|apply Z.div_pos; unfold TEN17; lia..].
  apply digits_inj in H2; [|change (10 ^ Z.of_nat 17) with TEN17; apply Z.mod_pos_bound; unfold TEN17; lia..].
  rewrite (Z.div_mod n TEN17), (Z.div_mod m TEN17), H1, H2 by (unfold TEN17; lia). done.
Qed.

Lemma round_div_close m d : 0 < d -> Z.abs (2 * (round_div m d * d - m)) <= d.
Proof.
  intros Hd. unfold round_div. pose proof (Z.div_mod m d ltac:(lia)). pose proof (Z.mod_pos_bound m d Hd).
  destruct (Z.ltb_spec d (2 * (m mod d))); cbn [orb]; [nia|].
  destruct (Z.eqb_spec (2 * (m mod d)) d); cbn [andb]; [destruct (Z.odd _); nia|nia].
Qed.

(** A probability in units of [2^-1074], exactly. *)
Definition f64_units (x : f64) : Z :=
  match x with S754_finite _ m e => Zpos m * 2 ^ (e + 1074) | _ => 0 end.

Lemma scaled17_close x : valid_binary f64_prec f64_emax x = true ->
  Z.abs (2 * (scaled17 x * 2 ^ 1074 - f64_units x * TEN17)) <= 2 ^ 1074.
Proof.
  intros Hv. assert (P : 0 < 2 ^ 1074) by (apply Z.pow_pos_nonneg; lia).
  destruct x as [| | |s m e]; cbn [scaled17 f64_units]; try lia.
  assert (He : -1074 <= e).
  { cbn in Hv. unfold bounded, canonical_mantissa, fexp, SpecFloat.emin, f64_prec, f64_emax in Hv. bools. lia. }
  destruct (Z.leb_spec 0 e) as [H|H].
  - rewrite Z.pow_add_r by lia. set (q := 2 ^ 1074) in *. replace (Zpos m * 2 ^ e * TEN17 * q - Zpos m * (2 ^ e * q) * TEN17) with 0 by ring.
    lia.
  - assert (D : 0 < 2 ^ (- e)) by (apply Z.pow_pos_nonneg; lia).
    pose proof (round_div_close (Zpos m * TEN17) (2 ^ (- e)) D) as R.
    assert (E : 2 ^ 1074 = 2 ^ (- e) * 2 ^ (e + 1074)) by (rewrite <- Z.pow_add_r by lia; f_equal; lia).
    rewrite E. assert (K : 0 < 2 ^ (e + 1074)) by (apply Z.pow_pos_nonneg; lia).
    set (d := 2 ^ (- e)) in *. set (k := 2 ^ (e + 1074)) in *. set (n := round_div _ _) in *.
    replace (2 * (n * (d * k) - Zpos m * k * TEN17)) with (2 * (n * d - Zpos m * TEN17) * k) by ring.
    rewrite Z.abs_mul, (Z.abs_eq k) by lia. nia.
Qed.

Lemma scaled17_nonneg x : 0 <= scaled17 x.
Proof.
  destruct x as [| | |s m e]; cbn [scaled17]; try lia. destruct (Z.leb_spec 0 e); [unfold TEN17; lia|].
  unfold round_div. assert (0 < 2 ^ (- e)) by (apply Z.pow_pos_nonneg; lia).
  assert (0 <= Zpos m * TEN17 / 2 ^ (- e)) by (apply Z.div_pos; unfold TEN17; lia). case_split; lia.
Qed.

Lemma probability_text x : probability_in_range x = true -> SFltb x f64_zero = false ->
  exists sign : bool, format_17 x = (if sign then "-" else "") +:+ fixed17 (scaled17 x) /\ (sign = true -> scaled17 x = 0).
Proof.
  unfold probability_in_range. intros H Hz. destruct x as [s|s| |s m e]; try discriminate.
  - exists s. done.
  - destruct s; [discriminate|]. exists false. done.
Qed.

(** How finely the fingerprint tells probabilities apart.  Two valid
    probabilities that are encoded alike differ by at most [10^-17]: probabilities
    further apart than that always change the encoding. *)
Theorem fingerprint_probability_resolution (p q : Probability)
    (Vp : valid_binary f64_prec f64_emax p = true) (Vq : valid_binary f64_prec f64_emax q = true)
    (Rp : probability_in_range p = true) (Rq : probability_in_range q = true) :
  same_probability p q -> Z.abs (f64_units p - f64_units q) * 10 ^ 17 <= 2 ^ 1074.
Proof.
  assert (Z0 : forall x, probability_in_range x = true -> SFltb x f64_zero = false).
  { intros x. unfold probability_in_range. destruct x as [[]|[]| |[]]; cbn; try discriminate; done. }
  unfold same_probability. intros H.
  destruct (probability_text p Rp (Z0 p Rp)) as (s & Ep & Sp), (probability_text q Rq (Z0 q Rq)) as (t & Eq & Sq).
  assert (E : scaled17 p = scaled17 q).
  { assert (N : forall n, lacks "-" (fixed17 n) = true).
    { intros n. unfold fixed17. by rewrite !lacks_app, dec_lacks, digits_lacks. }
    rewrite Ep, Eq in H. destruct s, t; cbn [String.append] in H.
    - injection H as H. apply fixed17_inj in H; auto using scaled17_nonneg.
    - apply (f_equal (lacks "-")) in H. by rewrite N in H.
    - apply (f_equal (lacks "-")) in H. by rewrite N in H.
    - apply fixed17_inj in H; auto using scaled17_nonneg. }
  pose proof (scaled17_close p Vp) as Cp. pose proof (scaled17_close q Vq) as Cq. rewrite E in Cp.
  change (10 ^ 17) with TEN17. generalize dependent (2 ^ 1074). intros u Cp Cq. unfold TEN17 in *. lia.
Qed.

Lemma fingerprint_probability_resolution_witness :
  same_probability f64_zero tiny /\ Z.abs (f64_units f64_zero - f64_units tiny) * 10 ^ 17 <= 2 ^ 1074.
Proof.
  assert (S : same_probability f64_zero tiny) by (vm_compute; reflexivity).
  split; [exact S|].
  apply (fingerprint_probability_resolution f64_zero tiny eq_refl eq_refl eq_refl eq_refl S).
Defined.
