(* ===== verification/Target.v ===== *)
(** * Publication targets
      ([crates/eggchaos-experiment/src/{target,stream_target}.rs], the resource
      types of [run.rs])

    The contract a schedule driver publishes through, as a class with its laws,
    and the in-process stream target that implements it.  Each operation locks
    only for itself, so it is one atomic step; what other publishers do between
    two operations is left to the driver's environment. *)

From stdpp Require Import base list gmap sorting strings pretty.
From Stdlib Require Import Ascii.
From S2P Require Import Prelude Rng Float64 Plan Policy Env DatagramPlan Schedule.

(** ** Resources (run.rs) *)

Inductive ScheduleTransport := StreamTransport | DatagramTransport.
#[export] Instance ScheduleTransport_eq_dec : EqDecision ScheduleTransport.
Proof. solve_decision. Defined.

Record ScheduleResource := {
  rs_proxy : string;
  rs_direction : Direction;
  rs_transport : ScheduleTransport
}.
#[export] Instance ScheduleResource_eq_dec : EqDecision ScheduleResource.
Proof. solve_decision. Defined.

(** ** Errors and receipts (target.rs) *)

Definition MAX_TARGET_LABEL_BYTES : nat := 256.
Definition MAX_RESOURCE_NAME_BYTES : Z := 128.

Record TargetCapabilities := { cap_stream : bool; cap_datagram : bool }.

Inductive TargetPlan := StreamPlan (p : FaultPlan) | DatagramPlanOf (p : DatagramPlan).

Record TargetSnapshot := { ts_generation : Z; ts_plan : TargetPlan }.
Record PublishReceipt := { rc_generation : Z }.

Inductive TargetError :=
| MissingResource (detail : string)
| UnsupportedCapability (detail : string)
| GenerationConflict (expected found : Z)
| Validation (detail : string)
| Internal (detail : string).

Definition target_error_display (e : TargetError) : string :=
  match e with
  | MissingResource detail => "resource not found: " +:+ detail
  | UnsupportedCapability detail => "unsupported capability: " +:+ detail
  | GenerationConflict expected found =>
      "generation conflict: expected " +:+ dec expected +:+ ", found " +:+ dec found
  | Validation detail => "invalid plan: " +:+ detail
  | Internal detail => "target error: " +:+ detail
  end.

(** [str::is_char_boundary] within the string: not a UTF-8 continuation byte. *)
Definition is_char_boundary (s : string) (i : nat) : bool :=
  Nat.eqb i 0 ||
  match String.get i s with
  | Some c => negb ((128 <=? Z.of_nat (nat_of_ascii c)) && (Z.of_nat (nat_of_ascii c) <? 192))
  | None => Nat.eqb i (String.length s)
  end.

(** The loop that moves [end] down to a boundary; 0 is one. *)
Fixpoint boundary_below (s : string) (e : nat) : nat :=
  match e with
  | O => O
  | S e' => if is_char_boundary s e then e else boundary_below s e'
  end.

Definition bounded (detail : string) : string :=
  if Nat.leb (String.length detail) MAX_TARGET_LABEL_BYTES then detail
  else String.substring 0 (boundary_below detail MAX_TARGET_LABEL_BYTES) detail.

Definition missing (detail : string) : TargetError := MissingResource (bounded detail).
Definition unsupported (detail : string) : TargetError := UnsupportedCapability (bounded detail).
Definition invalid (detail : string) : TargetError := Validation (bounded detail).
Definition internal (detail : string) : TargetError := Internal (bounded detail).

(** ** Resource identities (target.rs) *)

(** The derived [Debug] of the two enums. *)
Definition direction_debug (d : Direction) : string :=
  match d with Upstream => "Upstream" | Downstream => "Downstream" end.
Definition transport_debug (t : ScheduleTransport) : string :=
  match t with StreamTransport => "Stream" | DatagramTransport => "Datagram" end.

Definition resource_key (proxy : string) (direction : Direction) (transport : ScheduleTransport) : string :=
  proxy +:+ "|" +:+ direction_debug direction +:+ "|" +:+ transport_debug transport.

Definition action_resource (action : ScenarioAction) : ScheduleResource :=
  match action with
  | SetPlan proxy direction _ | RemoveFault proxy direction _ =>
      {| rs_proxy := proxy; rs_direction := direction; rs_transport := StreamTransport |}
  | SetDatagramPlan proxy direction _ | RemoveDatagramFault proxy direction _ =>
      {| rs_proxy := proxy; rs_direction := direction; rs_transport := DatagramTransport |}
  end.

(** The key the driver uses for a resource. *)
Definition key_of (r : ScheduleResource) : string :=
  resource_key (rs_proxy r) (rs_direction r) (rs_transport r).

(** ** The contract (target.rs) *)

Class PolicyTarget (T : Type) := {
  pt_capabilities : T -> TargetCapabilities;
  pt_snapshot : T -> ScheduleResource -> result TargetSnapshot TargetError;
  pt_current_generation : T -> ScheduleResource -> result Z TargetError;
  pt_publish : T -> ScheduleResource -> Z -> TargetPlan -> Z -> result PublishReceipt TargetError * T;
  pt_global_generation : T -> Z
}.

(** What the trait's documentation promises.  [pt_ok] is the implementation's
    own invariant; [pt_evolves] is what any number of publications can do. *)
Class PolicyTargetOk (T : Type) `{P : PolicyTarget T} := {
  pt_ok : T -> Prop;
  pt_evolves : T -> T -> Prop;
  pt_evolves_preorder :: PreOrder pt_evolves;
  pt_evolves_ok : forall t t', pt_evolves t t' -> pt_ok t -> pt_ok t';
  (** Generations only grow, and a generation names one plan. *)
  pt_monotone : forall t t' r s s', pt_ok t -> pt_evolves t t' ->
    pt_snapshot t r = Ok s -> pt_snapshot t' r = Ok s' ->
    ts_generation s <= ts_generation s' /\ (ts_generation s = ts_generation s' -> s = s');
  pt_generation_snapshot : forall t r g, pt_ok t ->
    pt_current_generation t r = Ok g <-> exists plan, pt_snapshot t r = Ok {| ts_generation := g; ts_plan := plan |};
  (** A publication replaces exactly the expected generation by a later one. *)
  pt_publish_ok : forall t r expected plan ns rc t', pt_ok t ->
    pt_publish t r expected plan ns = (Ok rc, t') ->
    pt_current_generation t r = Ok expected /\ expected < rc_generation rc
    /\ pt_snapshot t' r = Ok {| ts_generation := rc_generation rc; ts_plan := plan |}
    /\ pt_evolves t t';
  (** Otherwise nothing is published. *)
  pt_publish_err : forall t r expected plan ns e t', pt_ok t ->
    pt_publish t r expected plan ns = (Err e, t') -> t' = t
}.

(** ** The in-process stream target (stream_target.rs)

    A [LivePolicy] is a handle to a shared cell, so a resource holds two
    addresses into a store of cells: two resources may share one. *)

Record StreamResource := { sr_upstream : nat; sr_downstream : nat }.

Record StreamPolicyTarget := {
  spt_cells : list Policy.Stream.LivePolicy;
  spt_resources : gmap string StreamResource;
  spt_global : Z
}.

Definition stream_target_new (cells : list Policy.Stream.LivePolicy) : StreamPolicyTarget :=
  {| spt_cells := cells; spt_resources := ∅; spt_global := 0 |}.

Definition register (t : StreamPolicyTarget) (name : string) (upstream downstream : nat)
    : result unit TargetError * StreamPolicyTarget :=
  if (str_len name =? 0) || (MAX_RESOURCE_NAME_BYTES <? str_len name)
  then (Err (invalid "resource name must be 1..=128 bytes"), t)
  else (Ok tt, {| spt_cells := spt_cells t;
                  spt_resources := <[name := {| sr_upstream := upstream; sr_downstream := downstream |}]> (spt_resources t);
                  spt_global := spt_global t |}).

(** Byte order of strings, as [String: Ord]. *)
Definition string_le (a b : string) : Prop := String.leb a b = true.
#[export] Instance string_le_dec a b : Decision (string_le a b).
Proof. unfold string_le. apply _. Defined.

Definition names (t : StreamPolicyTarget) : list string :=
  merge_sort string_le (map fst (map_to_list (spt_resources t))).

Definition lookup_resource (t : StreamPolicyTarget) (r : ScheduleResource) : result StreamResource TargetError :=
  match rs_transport r with
  | DatagramTransport => Err (unsupported "stream-only target cannot apply datagram actions")
  | StreamTransport =>
      match spt_resources t !! rs_proxy r with
      | Some entry => Ok entry
      | None => Err (missing ("stream resource " +:+ rs_proxy r +:+ " not found"))
      end
  end.

Definition directional (entry : StreamResource) (direction : Direction) : nat :=
  match direction with Upstream => sr_upstream entry | Downstream => sr_downstream entry end.

(** Reading a cell: registered addresses are in range and cells are never
    empty, so the [None] branches are not reached ([stream_target_ok]). *)
Definition read_cell (t : StreamPolicyTarget) (a : nat) : option (PublishedPolicy FaultPlan) :=
  c ← spt_cells t !! a; Policy.snapshot c.

Definition stream_snapshot (t : StreamPolicyTarget) (r : ScheduleResource) : result TargetSnapshot TargetError :=
  let? entry := lookup_resource t r in
  match read_cell t (directional entry (rs_direction r)) with
  | Some s => Ok {| ts_generation := generation s; ts_plan := StreamPlan (pub_plan s) |}
  | None => Err (Internal EmptyString)
  end.

Definition stream_current_generation (t : StreamPolicyTarget) (r : ScheduleResource) : result Z TargetError :=
  let? entry := lookup_resource t r in
  match read_cell t (directional entry (rs_direction r)) with
  | Some s => Ok (generation s)
  | None => Err (Internal EmptyString)
  end.

Definition stream_publish (t : StreamPolicyTarget) (r : ScheduleResource) (expected : Z) (plan : TargetPlan)
    (seed_namespace : Z) : result PublishReceipt TargetError * StreamPolicyTarget :=
  match lookup_resource t r with
  | Err error => (Err error, t)
  | Ok entry =>
      match plan with
      | DatagramPlanOf _ => (Err (unsupported "stream-only target cannot publish datagram plans"), t)
      | StreamPlan plan =>
          let a := directional entry (rs_direction r) in
          match spt_cells t !! a with
          | None => (Err (Internal EmptyString), t)
          | Some cell =>
              match Policy.Stream.publish_plan_expected cell plan seed_namespace expected with
              | (Ok snapshot, cell') =>
                  (Ok {| rc_generation := generation snapshot |},
                   {| spt_cells := <[a := cell']> (spt_cells t); spt_resources := spt_resources t;
                      spt_global := wadd (spt_global t) 1 |})
              | (Err (Invalid error), _) => (Err (invalid (validation_error_display error)), t)
              | (Err (Conflict conflict), _) =>
                  (Err (GenerationConflict (pc_expected conflict) (pc_found conflict)), t)
              end
          end
      end
  end.

#[export] Instance StreamPolicyTarget_target : PolicyTarget StreamPolicyTarget := {
  pt_capabilities _ := {| cap_stream := true; cap_datagram := false |};
  pt_snapshot := stream_snapshot;
  pt_current_generation := stream_current_generation;
  pt_publish := stream_publish;
  pt_global_generation := spt_global
}.

(** [stream_target_from_policies]: the two policies are the two cells. *)
Definition stream_target_from_policies (name : string) (upstream downstream : Policy.Stream.LivePolicy)
    : result StreamPolicyTarget TargetError :=
  match register (stream_target_new [upstream; downstream]) name 0 1 with
  | (Ok _, t) => Ok t
  | (Err error, _) => Err error
  end.

(** ** The stream target keeps the contract *)

Record stream_target_ok (t : StreamPolicyTarget) : Prop := {
  sto_cells : Forall (cell_ok plan_validate) (spt_cells t);
  sto_range : forall name r, spt_resources t !! name = Some r ->
    (sr_upstream r < length (spt_cells t))%nat /\ (sr_downstream r < length (spt_cells t))%nat
}.

(** Publications keep the registrations and only append to cells. *)
Definition cell_grows (c c' : Policy.Stream.LivePolicy) : Prop :=
  (exists extra, snapshots c' = snapshots c ++ extra) /\ (cell_ok plan_validate c -> cell_ok plan_validate c').
Record stream_evolves (t t' : StreamPolicyTarget) : Prop := {
  sev_cells : Forall2 cell_grows (spt_cells t) (spt_cells t');
  sev_resources : spt_resources t' = spt_resources t
}.

#[export] Instance cell_grows_preorder : PreOrder cell_grows.
Proof.
  split.
  - intros c. split; [exists []; by rewrite app_nil_r|done].
  - intros c d e [[x X] H1] [[y Y] H2]. split; [|auto]. exists (x ++ y). by rewrite Y, X, app_assoc.
Qed.

#[export] Instance stream_evolves_preorder : PreOrder stream_evolves.
Proof.
  split.
  - intros t. by split.
  - intros t u v [A1 B1] [A2 B2]. split; [by etrans|congruence].
Qed.

Lemma stream_evolves_ok t t' : stream_evolves t t' -> stream_target_ok t -> stream_target_ok t'.
Proof.
  intros [Hc Hr] [Ho Hg]. split.
  - clear Hg. induction Hc as [|c c' l l' Hcc Hc IH]; [constructor|].
    apply Forall_cons in Ho as [H1 H2]. constructor; [by apply Hcc|by apply IH].
  - intros name r. rewrite Hr, <- (Forall2_length _ _ _ Hc). apply Hg.
Qed.

(** What a registered address holds. *)
Lemma read_cell_ok t a : stream_target_ok t -> (a < length (spt_cells t))%nat ->
  exists c s, spt_cells t !! a = Some c /\ read_cell t a = Some s /\ Policy.snapshot c = Some s
            /\ cell_ok plan_validate c /\ generation s = zlen (snapshots c).
Proof.
  intros [Hc _] Ha. destruct (lookup_lt_is_Some_2 _ _ Ha) as [c Ec].
  pose proof (Forall_lookup_1 _ _ _ _ Hc Ec) as Hok.
  destruct (cell_ok_current _ c Hok) as (s & Es & Eg & _).
  exists c, s. unfold read_cell. by rewrite Ec.
Qed.

Lemma directional_range t name entry d : stream_target_ok t -> spt_resources t !! name = Some entry ->
  (directional entry d < length (spt_cells t))%nat.
Proof. intros H E. destruct (sto_range t H name entry E). by destruct d. Qed.

Lemma lookup_resource_ok t r entry : lookup_resource t r = Ok entry ->
  rs_transport r = StreamTransport /\ spt_resources t !! rs_proxy r = Some entry.
Proof. unfold lookup_resource. repeat case_split; intros; try discriminate. split; congruence. Qed.

(** Every read goes through the cell the resource names. *)
Lemma stream_read t r entry : stream_target_ok t -> lookup_resource t r = Ok entry ->
  exists c s, spt_cells t !! directional entry (rs_direction r) = Some c /\ Policy.snapshot c = Some s
    /\ cell_ok plan_validate c /\ generation s = zlen (snapshots c)
    /\ stream_snapshot t r = Ok {| ts_generation := generation s; ts_plan := StreamPlan (pub_plan s) |}
    /\ stream_current_generation t r = Ok (generation s).
Proof.
  intros Ht El. pose proof (lookup_resource_ok t r entry El) as [_ Er].
  destruct (read_cell_ok t (directional entry (rs_direction r)) Ht) as (c & s & Ec & Es & En & Hc & Eg);
    [by eapply directional_range|].
  exists c, s. unfold stream_snapshot, stream_current_generation. rewrite El, Es. done.
Qed.

Lemma stream_snapshot_lookup t r s : stream_snapshot t r = Ok s -> exists entry, lookup_resource t r = Ok entry.
Proof. unfold stream_snapshot. destruct (lookup_resource t r); [by eauto|discriminate]. Qed.
Lemma stream_generation_lookup t r g : stream_current_generation t r = Ok g -> exists entry, lookup_resource t r = Ok entry.
Proof. unfold stream_current_generation. destruct (lookup_resource t r); [by eauto|discriminate]. Qed.

(** An uncontended [publish_expected] on a well-formed cell. *)
Lemma publish_expected_ok (c : Policy.Stream.LivePolicy) plan ns expected (s : PublishedPolicy FaultPlan) c' :
  cell_ok plan_validate c -> Policy.Stream.publish_plan_expected c plan ns expected = (Ok s, c') ->
  (exists cur, Policy.snapshot c = Some cur /\ generation cur = expected)
  /\ generation s = expected + 1 /\ pub_plan s = plan /\ Policy.snapshot c' = Some s
  /\ cell_ok plan_validate c' /\ snapshots c' = snapshots c ++ [s].
Proof.
  intros Hc. unfold Policy.Stream.publish_plan_expected, publish_expected, publish_call. cbn [rq_plan].
  destruct (plan_validate plan) as [[]|] eqn:Ev; [|discriminate].
  destruct (cell_ok_current _ c Hc) as (cur & Es & Eg & _). rewrite Es.
  set (r := {| rq_plan := plan; rq_ns := ns; rq_expected := Some expected |}).
  destruct (loop_checks GenerationOverflow r cur) as [e|] eqn:El; [discriminate|].
  destruct (swap_ok _ _ c r cur Hc Es Ev El) as [Hok Hn].
  pose proof (loop_checks_none _ _ _ El) as [_ Hx]. cbn in Hx.
  unfold compare_and_swap. rewrite Nat.eqb_refl. cbn [snd]. intros [= <- <-].
  conjs; [by exists cur|cbn in Hn |- *; lia|done| |done|done].
  unfold Policy.snapshot. cbn. rewrite lookup_app_r by lia. by rewrite Nat.sub_diag.
Qed.

Lemma stream_publish_spec t r expected plan ns rc t' : stream_target_ok t ->
  stream_publish t r expected plan ns = (Ok rc, t') ->
  exists entry c c' s p, lookup_resource t r = Ok entry /\ plan = StreamPlan p
    /\ spt_cells t !! directional entry (rs_direction r) = Some c
    /\ Policy.Stream.publish_plan_expected c p ns expected = (Ok s, c')
    /\ rc_generation rc = generation s
    /\ t' = {| spt_cells := <[directional entry (rs_direction r) := c']> (spt_cells t);
               spt_resources := spt_resources t; spt_global := wadd (spt_global t) 1 |}.
Proof.
  intros Ht. unfold stream_publish. destruct (lookup_resource t r) as [entry|] eqn:El; [|discriminate].
  destruct plan as [p|]; [|discriminate].
  destruct (spt_cells t !! _) as [c|] eqn:Ec; [|discriminate].
  destruct (Policy.Stream.publish_plan_expected c p ns expected) as [[s|[]] c'] eqn:Ep; try discriminate.
  intros [= <- <-]. by exists entry, c, c', s, p.
Qed.

#[export] Instance StreamPolicyTarget_ok : PolicyTargetOk StreamPolicyTarget.
Proof.
  refine {| pt_ok := stream_target_ok; pt_evolves := stream_evolves |}.
  - apply stream_evolves_ok.
  - intros t t' r s s' Ht He Hs Hs'. cbn in *. pose proof (stream_evolves_ok _ _ He Ht) as Ht'.
    destruct (stream_snapshot_lookup _ _ _ Hs) as [en El].
    assert (El' : lookup_resource t' r = Ok en)
      by (rewrite <- El; unfold lookup_resource; by rewrite (sev_resources _ _ He)).
    destruct (stream_read t r en Ht El) as (c & x & Ec & Ex & Hc & Hg & E1 & _).
    destruct (stream_read t' r en Ht' El') as (c' & x' & Ec' & Ex' & Hc' & Hg' & E1' & _).
    rewrite E1 in Hs; injection Hs as <-. rewrite E1' in Hs'; injection Hs' as <-. cbn.
    destruct (Forall2_lookup_lr _ _ _ _ _ _ (sev_cells _ _ He) Ec Ec') as [[ex Hex] _].
    rewrite Hg, Hg', Hex, zlen_app. pose proof (zlen_nonneg ex). split; [lia|]. intros Hl.
    assert (ex = []) as -> by (apply zlen_zero_inv; lia). rewrite app_nil_r in Hex.
    assert (E : snapshots c' = snapshots c) by done.
    rewrite zlen_nil, Z.add_0_r. assert (Exx : x = x'); [|by rewrite Exx].
    pose proof (ck_current _ c Hc) as K. pose proof (ck_current _ c' Hc') as K'.
    unfold Policy.snapshot in *. rewrite E in K', Ex'. rewrite <- K' in K. injection K as K. congruence.
  - intros t r g Ht. cbn. split.
    + intros Hg. destruct (stream_generation_lookup _ _ _ Hg) as [en El].
      destruct (stream_read t r en Ht El) as (c & x & _ & _ & _ & _ & E1 & E2).
      rewrite E2 in Hg; injection Hg as <-. eauto.
    + intros [plan Hs]. destruct (stream_snapshot_lookup _ _ _ Hs) as [en El].
      destruct (stream_read t r en Ht El) as (c & x & _ & _ & _ & _ & E1 & E2).
      rewrite E1 in Hs; injection Hs as <- _. done.
  - intros t r expected plan ns rc t' Ht Hp. cbn in *.
    destruct (stream_publish_spec _ _ _ _ _ _ _ Ht Hp) as (en & c & c' & s & p & El & -> & Ec & Ep & Er & ->).
    pose proof (Forall_lookup_1 _ _ _ _ (sto_cells t Ht) Ec) as Hc.
    destruct (publish_expected_ok c p ns expected s c' Hc Ep) as ((cur & Ecur & Eg) & Es & Epl & Esn & Hc' & Eapp).
    destruct (stream_read t r en Ht El) as (c0 & x & Ec0 & Ex & _ & _ & _ & E2).
    rewrite Ec in Ec0; injection Ec0 as <-. rewrite Ecur in Ex; injection Ex as <-.
    split; [by rewrite E2, Eg|]. split; [lia|].
    assert (He : stream_evolves t {| spt_cells := <[directional en (rs_direction r) := c']> (spt_cells t);
        spt_resources := spt_resources t; spt_global := wadd (spt_global t) 1 |}).
    { split; [|done]. cbn. rewrite <- (list_insert_id _ _ _ Ec) at 1.
      apply Forall2_insert; [reflexivity|]. split; [by eexists|done]. }
    split; [|exact He]. unfold stream_snapshot.
    assert (El' : lookup_resource {| spt_cells := <[directional en (rs_direction r) := c']> (spt_cells t);
        spt_resources := spt_resources t; spt_global := wadd (spt_global t) 1 |} r = Ok en) by exact El.
    rewrite El'. unfold read_cell; cbn. rewrite list_lookup_insert_eq by (by eapply lookup_lt_Some). cbn.
    rewrite Esn, Er, Epl. done.
  - intros t r expected plan ns e t' Ht. cbn. unfold stream_publish. repeat case_split; intros; congruence.
Defined.

(** ** Keys name resources *)

Lemma app_suffix (a x b y : string) : a +:+ x = b +:+ y -> (String.length x <= String.length y)%nat ->
  exists z, y = z +:+ x /\ a = b +:+ z.
Proof.
  revert a; induction b as [|c b IH]; intros a E L; [by exists a|].
  destruct a as [|d a].
  - exfalso. apply (f_equal String.length) in E. rewrite !string_length_app in E. cbn in E. lia.
  - injection E as -> E. destruct (IH a E L) as (z & -> & ->). by exists z.
Qed.

(** The end of the one text is the end of the other. *)
Lemma suffix_cut (x y z : string) : y = z +:+ x ->
  x = String.substring (String.length y - String.length x) (String.length x) y.
Proof.
  intros ->. rewrite string_length_app. replace (String.length z + String.length x - String.length x)%nat
    with (String.length z) by lia.
  induction z as [|c z IH]; [|exact IH].
  change (EmptyString +:+ x) with x. induction x as [|c x IH]; [done|]. exact (f_equal (String c) IH).
Qed.

Definition key_suffix (d : Direction) (t : ScheduleTransport) : string :=
  "|" +:+ direction_debug d +:+ "|" +:+ transport_debug t.

Lemma key_suffix_cut d1 t1 d2 t2 :
  (String.length (key_suffix d1 t1) <= String.length (key_suffix d2 t2))%nat ->
  key_suffix d1 t1 = String.substring (String.length (key_suffix d2 t2) - String.length (key_suffix d1 t1))
                       (String.length (key_suffix d1 t1)) (key_suffix d2 t2) ->
  d1 = d2 /\ t1 = t2.
Proof. destruct d1, t1, d2, t2; vm_compute; intros _ H; try discriminate H; done. Qed.

Lemma string_app_nil_r (s : string) : s +:+ EmptyString = s.
Proof. induction s as [|c s IH]; [done|]. exact (f_equal (String c) IH). Qed.

Lemma key_of_inj_le r1 r2 : key_of r1 = key_of r2 ->
  (String.length (key_suffix (rs_direction r1) (rs_transport r1))
   <= String.length (key_suffix (rs_direction r2) (rs_transport r2)))%nat -> r1 = r2.
Proof.
  destruct r1 as [p1 d1 t1], r2 as [p2 d2 t2]; cbn [rs_direction rs_transport]. intros E L.
  change (p1 +:+ key_suffix d1 t1 = p2 +:+ key_suffix d2 t2) in E.
  destruct (app_suffix _ _ _ _ E L) as (z & Hz & ->).
  destruct (key_suffix_cut d1 t1 d2 t2 L (suffix_cut _ _ _ Hz)) as [-> ->].
  apply (f_equal String.length) in Hz. rewrite string_length_app in Hz.
  destruct z; [by rewrite string_app_nil_r|cbn in Hz; lia].
Qed.

(** The key of a resource determines it, whatever its name contains. *)
Lemma key_of_inj r1 r2 : key_of r1 = key_of r2 -> r1 = r2.
Proof.
  intros E. destruct (Nat.le_ge_cases (String.length (key_suffix (rs_direction r1) (rs_transport r1)))
    (String.length (key_suffix (rs_direction r2) (rs_transport r2)))); [by apply key_of_inj_le|].
  symmetry. by apply key_of_inj_le.
Qed.
