(* ===== verification/Driver.v ===== *)
(** * The schedule driver
      ([crates/eggchaos-experiment/src/driver.rs], the record types of [run.rs])

    Plays a compiled tape through a [PolicyTarget]: ownership snapshots before
    the run, one publication per event at its deadline, cleanup after it.  The
    driver awaits between its steps, so everything it observes is indexed by a
    step counter: the clock, the cancellation token and what other publishers
    did to the target meanwhile. *)

From stdpp Require Import base list gmap sorting strings pretty.
From S2P Require Import Prelude Rng Float64 Plan Policy Env DatagramPlan Schedule Fingerprint Target.

(** ** Records (run.rs) *)

Inductive ScheduleRunStatus := RunPending | RunRunning | RunCancelling | RunCancelled | RunCompleted | RunFailed.
#[export] Instance ScheduleRunStatus_eq_dec : EqDecision ScheduleRunStatus.
Proof. solve_decision. Defined.

Record ScheduleEventResult := {
  er_compiled_index : Z;
  er_phase : CompiledPhaseIdentity;
  er_scheduled_offset_ns : Z;
  er_applied_elapsed_ns : Z;
  er_late_by_ns : Z;
  er_action : string;
  er_resource : ScheduleResource;
  er_upstream_generation : Z;
  er_downstream_generation : Z;
  er_global_generation : Z
}.

Inductive CleanupResourceOutcome := Restored | ConflictOutcome | MissingOutcome | NotRequested.
#[export] Instance CleanupResourceOutcome_eq_dec : EqDecision CleanupResourceOutcome.
Proof. solve_decision. Defined.
Record CleanupResourceRecord := { cr_resource : ScheduleResource; cr_outcome : CleanupResourceOutcome }.
Record CleanupOutcome := { co_policy : CleanupPolicyV2; co_resources : list CleanupResourceRecord }.

(** ** Driver state (driver.rs) *)

Record OwnedResource := {
  ow_resource : ScheduleResource;
  ow_last_owned_generation : Z;
  ow_initial_plan : TargetPlan
}.
Abbreviation Owned := (gmap string OwnedResource).

Record DriveOutcome := {
  do_status : ScheduleRunStatus;
  do_failure : option string;
  do_cleanup : CleanupOutcome;
  do_applied : Z
}.

(** [EventSink] and its implementation for [Vec]. *)
Class EventSink (S : Type) := { sink_record : S -> ScheduleEventResult -> S }.
#[export] Instance Vec_sink : EventSink (list ScheduleEventResult) := { sink_record v e := v ++ [e] }.

(** The environment of a run, at its [k]-th step. *)
Class RunEnv (T : Type) := {
  run_now : nat -> Instant;               (* [Instant::now()] *)
  run_cancelled : nat -> bool;            (* [token.is_cancelled()] *)
  run_cancel_ever : nat -> bool;          (* whether [token.cancelled()] ever resolves *)
  run_woken : nat -> Instant -> option (nat * bool); (* the [select!]: the step it resolves at, if ever, and by the sleep? *)
  run_others : nat -> T -> T              (* other publishers since the previous step *)
}.

(** Tokio's monotonic clock and timers, the token's stickiness, and publishers
    that go through the target's own operations; [run_between] is what they can
    do between two steps of the driver. *)
Class RunEnvOk (T : Type) `{PolicyTargetOk T} (R : RunEnv T) := {
  run_now_mono : forall i j, (i <= j)%nat -> run_now i <= run_now j;
  run_cancelled_mono : forall i j, (i <= j)%nat -> run_cancelled i = true -> run_cancelled j = true;
  run_woken_late : forall k d j, run_woken k d = Some (j, true) -> (k <= j)%nat /\ d <= run_now j;
  run_woken_cancelled : forall k d j, run_woken k d = Some (j, false) -> (k <= j)%nat /\ run_cancelled j = true;
  run_between : T -> T -> Prop;
  run_between_preorder :: PreOrder run_between;
  run_between_evolves : forall t t', run_between t t' -> pt_evolves t t';
  run_others_between : forall k t, pt_ok t -> run_between t (run_others k t)
}.

Section Driver.
Context {T S : Type} `{P : PolicyTarget T} `{R : RunEnv T} `{K : EventSink S}.
Context (sha256 : bytes -> bytes).

Record RunState := { rs_target : T; rs_owned : Owned; rs_sink : S; rs_tick : nat }.

(** ** A state and error monad *)

Definition Run (E A : Type) : Type := RunState -> result A E * RunState.
Definition rret {E A} (a : A) : Run E A := fun s => (Ok a, s).
Definition rfail {E A} (e : E) : Run E A := fun s => (Err e, s).
Definition rbind {E A B} (m : Run E A) (f : A -> Run E B) : Run E B := fun s =>
  match m s with (Ok a, s') => f a s' | (Err e, s') => (Err e, s') end.
Definition rmap_err {E E' A} (m : Run E A) (f : E -> E') : Run E' A := fun s =>
  match m s with (Ok a, s') => (Ok a, s') | (Err e, s') => (Err (f e), s') end.

Definition get_owned {E} : Run E Owned := fun s => (Ok (rs_owned s), s).
Definition put_owned {E} (o : Owned) : Run E unit := fun s =>
  (Ok tt, {| rs_target := rs_target s; rs_owned := o; rs_sink := rs_sink s; rs_tick := rs_tick s |}).
Definition record_event {E} (e : ScheduleEventResult) : Run E unit := fun s =>
  (Ok tt, {| rs_target := rs_target s; rs_owned := rs_owned s; rs_sink := sink_record (rs_sink s) e;
             rs_tick := rs_tick s |}).
Definition read_clock {E} : Run E Instant := fun s =>
  (Ok (run_now (rs_tick s)),
   {| rs_target := rs_target s; rs_owned := rs_owned s; rs_sink := rs_sink s; rs_tick := Datatypes.S (rs_tick s) |}).

(** One awaited target call: others first, then the operation. *)
Definition target_call {A} (f : T -> result A TargetError * T) : Run TargetError A := fun s =>
  let '(r, t) := f (run_others (rs_tick s) (rs_target s)) in
  (r, {| rs_target := t; rs_owned := rs_owned s; rs_sink := rs_sink s; rs_tick := Datatypes.S (rs_tick s) |}).
Definition call_snapshot (r : ScheduleResource) : Run TargetError TargetSnapshot :=
  target_call (fun t => (pt_snapshot t r, t)).
Definition call_generation (r : ScheduleResource) : Run TargetError Z :=
  target_call (fun t => (pt_current_generation t r, t)).
Definition call_publish (r : ScheduleResource) (expected : Z) (plan : TargetPlan) (ns : Z)
    : Run TargetError PublishReceipt :=
  target_call (fun t => pt_publish t r expected plan ns).
(** [global_generation] is not awaited. *)
Definition read_global {E} : Run E Z := fun s => (Ok (pt_global_generation (rs_target s)), s).

Local Notation "x <- m ;; k" := (rbind m (fun x => k)) (at level 100, m at next level, right associativity).
Local Notation "m ;; k" := (rbind m (fun _ => k)) (at level 100, right associativity).

(** ** Events *)

Definition expected_generation (r : ScheduleResource) (strict : bool) (key : string) : Run string (option Z) :=
  owned <- get_owned ;;
  match (if strict then owned !! key else None) with
  | Some entry => rret (Some (ow_last_owned_generation entry))
  | None => fun s => match call_generation r s with
                     | (Ok g, s') => (Ok (Some g), s')
                     | (Err _, s') => (Ok None, s')
                     end
  end.

Definition ok_or {A} (o : option A) (e : string) : Run string A :=
  match o with Some a => rret a | None => rfail e end.

Definition sibling (r : ScheduleResource) : ScheduleResource := {|
  rs_proxy := rs_proxy r;
  rs_direction := match rs_direction r with Upstream => Downstream | Downstream => Upstream end;
  rs_transport := rs_transport r
|}.

Definition directional_gens (r : ScheduleResource) (receipt : PublishReceipt) : Run TargetError (Z * Z) :=
  other <- call_generation (sibling r) ;;
  rret (match rs_direction r with
        | Upstream => (rc_generation receipt, other)
        | Downstream => (other, rc_generation receipt)
        end).

Definition update_owned (owned : Owned) (key : string) (r : ScheduleResource) (receipt : PublishReceipt) : Owned :=
  match owned !! key with
  | Some entry =>
      <[key := {| ow_resource := ow_resource entry; ow_last_owned_generation := rc_generation receipt;
                  ow_initial_plan := ow_initial_plan entry |}]> owned
  | None =>
      <[key := {| ow_resource := r; ow_last_owned_generation := rc_generation receipt;
                  ow_initial_plan := match rs_transport r with
                                     | StreamTransport => StreamPlan plan_empty
                                     | DatagramTransport => DatagramPlanOf dplan_empty
                                     end |}]> owned
  end.

Definition own (key : string) (r : ScheduleResource) (receipt : PublishReceipt) : Run string unit :=
  owned <- get_owned ;; put_owned (update_owned owned key r receipt).

(** [derive_schedule_policy_seed] of this run at an event index. *)
Definition event_namespace (c : CompiledScenarioV2) (fingerprint : bytes) (index : Z) : Z :=
  derive_schedule_policy_seed (cp_seed c) (cp_execution_key c) fingerprint index.

Definition is_strict (c : CompiledScenarioV2) : bool := bool_decide (cp_isolation c = Strict).

(** The tail every branch ends with: [sink.record(ScheduleEventResult { .. })]. *)
Definition record_result (event : CompiledEventV2) (elapsed late : Z) (action : string) (r : ScheduleResource)
    (gens : Z * Z) : Run string unit :=
  global <- read_global ;;
  record_event {| er_compiled_index := ce_compiled_index event; er_phase := ce_phase event;
                  er_scheduled_offset_ns := ce_offset_ns event; er_applied_elapsed_ns := elapsed;
                  er_late_by_ns := late; er_action := action; er_resource := r;
                  er_upstream_generation := gens.1; er_downstream_generation := gens.2;
                  er_global_generation := global |}.

(** The generations of a datagram event: the other direction is reported as 0. *)
Definition datagram_gens (direction : Direction) (receipt : PublishReceipt) : Z * Z :=
  match direction with Upstream => (rc_generation receipt, 0) | Downstream => (0, rc_generation receipt) end.

Definition apply_event (c : CompiledScenarioV2) (event : CompiledEventV2) (epoch : Instant) (fingerprint : bytes)
    : Run string unit :=
  now <- read_clock ;;
  let elapsed := Z.min (saturating_duration_since now epoch) U64_MAX in
  let late := sat_sub elapsed (ce_offset_ns event) in
  let ns := event_namespace c fingerprint (ce_compiled_index event) in
  let strict := is_strict c in
  match ce_action event with
  | SetPlan proxy direction fs =>
      plan <- match plan_new fs with
              | Ok plan => rret plan
              | Err error => rfail ("set-plan invalid: " +:+ validation_error_display error)
              end ;;
      let r := {| rs_proxy := proxy; rs_direction := direction; rs_transport := StreamTransport |} in
      let key := resource_key proxy direction StreamTransport in
      found <- expected_generation r strict key ;;
      expected <- ok_or found ("stream proxy " +:+ proxy +:+ " not found") ;;
      receipt <- rmap_err (call_publish r expected (StreamPlan plan) ns)
                   (fun error => "set-plan publish failed: " +:+ target_error_display error) ;;
      own key r receipt ;;
      gens <- rmap_err (directional_gens r receipt)
                (fun error => "generation evidence failed: " +:+ target_error_display error) ;;
      record_result event elapsed late "set-plan" r gens
  | RemoveFault proxy direction id =>
      let r := {| rs_proxy := proxy; rs_direction := direction; rs_transport := StreamTransport |} in
      snapshot <- rmap_err (call_snapshot r) (fun _ => "stream proxy " +:+ proxy +:+ " not found") ;;
      match ts_plan snapshot with
      | DatagramPlanOf _ => rfail ("stream proxy " +:+ proxy +:+ " not found")
      | StreamPlan base =>
          match plan_get base id with
          | None => rfail ("fault " +:+ id +:+ " not present on " +:+ proxy)
          | Some _ =>
              let plan := without_fault base id in
              let key := resource_key proxy direction StreamTransport in
              expected <-
                (if strict then
                   found <- expected_generation r strict key ;;
                   ok_or found ("stream proxy " +:+ proxy +:+ " not found")
                 else rret (ts_generation snapshot)) ;;
              receipt <- rmap_err (call_publish r expected (StreamPlan plan) ns)
                           (fun error => "remove-fault publish failed: " +:+ target_error_display error) ;;
              own key r receipt ;;
              gens <- rmap_err (directional_gens r receipt)
                        (fun error => "generation evidence failed: " +:+ target_error_display error) ;;
              record_result event elapsed late "remove-fault" r gens
          end
      end
  | SetDatagramPlan proxy direction fs =>
      plan <- match dplan_new fs with
              | Ok plan => rret plan
              | Err error => rfail ("set-datagram-plan invalid: " +:+ error)
              end ;;
      let r := {| rs_proxy := proxy; rs_direction := direction; rs_transport := DatagramTransport |} in
      let key := resource_key proxy direction DatagramTransport in
      found <- expected_generation r strict key ;;
      expected <- ok_or found ("datagram proxy " +:+ proxy +:+ " not found") ;;
      receipt <- rmap_err (call_publish r expected (DatagramPlanOf plan) ns)
                   (fun error => "set-datagram-plan publish failed: " +:+ target_error_display error) ;;
      own key r receipt ;;
      record_result event elapsed late "set-datagram-plan" r (datagram_gens direction receipt)
  | RemoveDatagramFault proxy direction id =>
      let r := {| rs_proxy := proxy; rs_direction := direction; rs_transport := DatagramTransport |} in
      snapshot <- rmap_err (call_snapshot r) (fun _ => "datagram proxy " +:+ proxy +:+ " not found") ;;
      match ts_plan snapshot with
      | StreamPlan _ => rfail ("datagram proxy " +:+ proxy +:+ " not found")
      | DatagramPlanOf current =>
          if negb (existsb (fun f => bool_decide (dg_id f = id)) (dp_faults current))
          then rfail ("datagram fault " +:+ id +:+ " not present on " +:+ proxy)
          else
            plan <- match dplan_new (List.filter (fun f => negb (bool_decide (dg_id f = id))) (dp_faults current)) with
                    | Ok plan => rret plan
                    | Err error => rfail ("datagram plan invalid: " +:+ error)
                    end ;;
            let key := resource_key proxy direction DatagramTransport in
            expected <-
              (if strict then
                 found <- expected_generation r strict key ;;
                 ok_or found ("datagram proxy " +:+ proxy +:+ " not found")
               else rret (ts_generation snapshot)) ;;
            receipt <- rmap_err (call_publish r expected (DatagramPlanOf plan) ns)
                         (fun error => "remove-datagram-fault publish failed: " +:+ target_error_display error) ;;
            own key r receipt ;;
            record_result event elapsed late "remove-datagram-fault" r (datagram_gens direction receipt)
      end
  end%string.

(** ** Deadlines *)

(** [None] is a wait that never ends: nobody cancels, and the deadline is
    beyond the clock's range or its sleep never fires. *)
Definition wait_for_deadline (k : nat) (epoch : Instant) (offset_ns : Z) : option (result unit unit * nat) :=
  match instant_checked_add epoch offset_ns with
  | None => if run_cancel_ever k then Some (Err tt, Datatypes.S k) else None
  | Some deadline =>
      if deadline <=? run_now k then Some (Ok tt, Datatypes.S k)
      else
        match run_woken (Datatypes.S k) deadline with
        | Some (j, slept) => Some (if (slept : bool) then Ok tt else Err tt, Datatypes.S j)
        | None => None
        end
  end.

Definition at_tick (k : nat) (s : RunState) : RunState :=
  {| rs_target := rs_target s; rs_owned := rs_owned s; rs_sink := rs_sink s; rs_tick := k |}.

(** How the event loop ends: [cancelled], [failure] and [applied]. *)
Record LoopEnd := { le_cancelled : bool; le_failure : option string; le_applied : Z; le_state : RunState }.

Fixpoint drive_loop (c : CompiledScenarioV2) (fingerprint : bytes) (epoch : Instant)
    (events : list CompiledEventV2) (applied : Z) (s : RunState) : option LoopEnd :=
  match events with
  | [] => Some {| le_cancelled := false; le_failure := None; le_applied := applied; le_state := s |}
  | event :: rest =>
      let k := rs_tick s in
      if run_cancelled k
      then Some {| le_cancelled := true; le_failure := None; le_applied := applied;
                   le_state := at_tick (Datatypes.S k) s |}
      else
        match wait_for_deadline (Datatypes.S k) epoch (ce_offset_ns event) with
        | None => None
        | Some (Err _, k) =>
            Some {| le_cancelled := true; le_failure := None; le_applied := applied; le_state := at_tick k s |}
        | Some (Ok _, k) =>
            match apply_event c event epoch fingerprint (at_tick k s) with
            | (Ok _, s) => drive_loop c fingerprint epoch rest (applied + 1) s
            | (Err reason, s) =>
                Some {| le_cancelled := false; le_failure := Some reason; le_applied := applied; le_state := s |}
            end
        end
  end.

(** ** Cleanup *)

Definition restore_target (entry : OwnedResource) (ns : Z) (s : RunState) : CleanupResourceOutcome * RunState :=
  match call_generation (ow_resource entry) s with
  | (Err _, s) => (MissingOutcome, s)
  | (Ok current, s) =>
      if negb (current =? ow_last_owned_generation entry) then (ConflictOutcome, s)
      else
        match call_publish (ow_resource entry) current (ow_initial_plan entry) ns s with
        | (Ok _, s) => (Restored, s)
        | (Err _, s) => (ConflictOutcome, s)
        end
  end.

Definition cleanup_one (c : CompiledScenarioV2) (entry : OwnedResource) (s : RunState)
    : CleanupResourceRecord * RunState :=
  let '(outcome, s) :=
    match cp_cleanup c with
    | Leave => (NotRequested, s)
    | RestoreInitial =>
        restore_target entry
          (event_namespace c (compiled_fingerprint sha256 c) (zlen (cp_events c))) s
    end in
  ({| cr_resource := ow_resource entry; cr_outcome := outcome |}, s).

Fixpoint cleanup_loop (c : CompiledScenarioV2) (entries : list OwnedResource) (s : RunState)
    : list CleanupResourceRecord * RunState :=
  match entries with
  | [] => ([], s)
  | entry :: rest =>
      let '(record, s) := cleanup_one c entry s in
      let '(records, s) := cleanup_loop c rest s in
      (record :: records, s)
  end.

(** The entries of a [BTreeMap] in key order. *)
Definition key_le (a b : string * OwnedResource) : Prop := string_le a.1 b.1.
#[local] Instance key_le_dec a b : Decision (key_le a b).
Proof. unfold key_le. apply _. Defined.
Definition owned_entries (o : Owned) : list OwnedResource := map snd (merge_sort key_le (map_to_list o)).

Definition run_cleanup (c : CompiledScenarioV2) (s : RunState) : CleanupOutcome * RunState :=
  let '(records, s) := cleanup_loop c (owned_entries (rs_owned s)) s in
  ({| co_policy := cp_cleanup c; co_resources := records |}, s).

(** ** Whole runs *)

Definition run_status (cancelled : bool) (failure : option string) : ScheduleRunStatus :=
  if cancelled then RunCancelled else if is_some failure then RunFailed else RunCompleted.

Definition drive (c : CompiledScenarioV2) (fingerprint : bytes) (epoch : Instant) (s : RunState)
    : option (DriveOutcome * RunState) :=
  match drive_loop c fingerprint epoch (cp_events c) 0 s with
  | None => None
  | Some e =>
      let '(cleanup, s) := run_cleanup c (le_state e) in
      Some ({| do_status := run_status (le_cancelled e) (le_failure e); do_failure := le_failure e;
               do_cleanup := cleanup; do_applied := le_applied e |}, s)
  end.

(** ** Preparation *)

Definition check_capability (caps : TargetCapabilities) (r : ScheduleResource) : result unit TargetError :=
  match rs_transport r with
  | StreamTransport =>
      if cap_stream caps then Ok tt
      else Err (unsupported ("stream resource '" +:+ bounded (rs_proxy r) +:+ "' requires stream support"))
  | DatagramTransport =>
      if cap_datagram caps then Ok tt
      else Err (unsupported ("datagram resource '" +:+ bounded (rs_proxy r) +:+ "' requires datagram support"))
  end%string.

Fixpoint prepare_loop (caps : TargetCapabilities) (events : list CompiledEventV2) (owned : Owned) (k : nat) (t : T)
    : result Owned TargetError * nat * T :=
  match events with
  | [] => (Ok owned, k, t)
  | event :: rest =>
      let r := action_resource (ce_action event) in
      let key := resource_key (rs_proxy r) (rs_direction r) (rs_transport r) in
      match owned !! key with
      | Some _ => prepare_loop caps rest owned k t
      | None =>
          match check_capability caps r with
          | Err error => (Err error, k, t)
          | Ok _ =>
              let t := run_others k t in
              match pt_snapshot t r with
              | Err error => (Err error, Datatypes.S k, t)
              | Ok snapshot =>
                  prepare_loop caps rest
                    (<[key := {| ow_resource := r; ow_last_owned_generation := ts_generation snapshot;
                                 ow_initial_plan := ts_plan snapshot |}]> owned)
                    (Datatypes.S k) t
              end
          end
      end
  end.

Definition prepare_initial (c : CompiledScenarioV2) (k : nat) (t : T) : result Owned TargetError * nat * T :=
  prepare_loop (pt_capabilities t) (cp_events c) ∅ k t.

End Driver.

Arguments RunState : clear implicits.
