(* ===== verification/DriverProps.v ===== *)
(** * What one event of a schedule does

    The effect of [apply_event] on every branch: it either publishes nothing, or
    publishes exactly once, for the resource its action names, over a
    generation it is entitled to. *)

From stdpp Require Import base list gmap sorting strings.
From S2P Require Import Prelude Rng Float64 Plan Policy Env DatagramPlan Schedule ScheduleProps.
From S2P Require Import Fingerprint Target Driver.

(** The resource an event names. *)
Definition event_resource (event : CompiledEventV2) : ScheduleResource := action_resource (ce_action event).

Section Effects.
Context {T S : Type} `{PO : PolicyTargetOk T} {R : RunEnv T} {RO : RunEnvOk T R} `{K : EventSink S}.
Implicit Types s : RunState T S.

(** ** Weakest preconditions of the driver's monad *)

Definition wp {E A} (m : Run E A) s (Q : result A E -> RunState T S -> Prop) : Prop := Q (m s).1 (m s).2.

Lemma wp_mono {E A} (m : Run E A) s (Q Q' : _ -> _ -> Prop) :
  wp m s Q -> (forall r s', Q r s' -> Q' r s') -> wp m s Q'.
Proof. unfold wp. auto. Qed.

Lemma wp_bind {E A B} (m : Run E A) (f : A -> Run E B) s Q :
  wp m s (fun r s' => match r with Ok a => wp (f a) s' Q | Err e => Q (Err e) s' end) -> wp (rbind m f) s Q.
Proof. unfold wp, rbind. destruct (m s) as [[a|e] s']; done. Qed.

Lemma wp_ret {E A} (a : A) s (Q : result A E -> _ -> Prop) : Q (Ok a) s -> wp (rret a) s Q.
Proof. done. Qed.
Lemma wp_fail {E A} (e : E) s (Q : result A E -> _ -> Prop) : Q (Err e) s -> wp (rfail e) s Q.
Proof. done. Qed.

Lemma wp_map_err {E E' A} (m : Run E A) (f : E -> E') s Q :
  wp m s (fun r s' => match r with Ok a => Q (Ok a) s' | Err e => Q (Err (f e)) s' end) -> wp (rmap_err m f) s Q.
Proof. unfold wp, rmap_err. destruct (m s) as [[a|e] s']; done. Qed.

(** The state after one observation of the target. *)
Definition step_to (t : T) s : RunState T S :=
  {| rs_target := t; rs_owned := rs_owned s; rs_sink := rs_sink s; rs_tick := Datatypes.S (rs_tick s) |}.
Definition seen s : T := run_others (rs_tick s) (rs_target s).

Lemma wp_snapshot r s Q : Q (pt_snapshot (seen s) r) (step_to (seen s) s) -> wp (call_snapshot r) s Q.
Proof. done. Qed.
Lemma wp_generation r s Q : Q (pt_current_generation (seen s) r) (step_to (seen s) s) -> wp (call_generation r) s Q.
Proof. done. Qed.
Lemma wp_publish r expected plan ns s Q :
  Q (pt_publish (seen s) r expected plan ns).1 (step_to (pt_publish (seen s) r expected plan ns).2 s) ->
  wp (call_publish r expected plan ns) s Q.
Proof. unfold wp, call_publish, target_call, seen, step_to. by destruct (pt_publish _ _ _ _ _). Qed.

(** ** Steps that publish nothing *)

Record quiet s s' : Prop := {
  qt_target : run_between (rs_target s) (rs_target s');
  qt_owned : rs_owned s' = rs_owned s;
  qt_sink : rs_sink s' = rs_sink s;
  qt_tick : (rs_tick s <= rs_tick s')%nat
}.

#[export] Instance quiet_preorder : PreOrder quiet.
Proof.
  split; [split; [reflexivity|done|done|lia]|].
  intros s1 s2 s3 [A1 B1 C1 D1] [A2 B2 C2 D2]. split; [by etrans|congruence|congruence|lia].
Qed.

Lemma quiet_seen s : pt_ok (rs_target s) -> quiet s (step_to (seen s) s).
Proof. intros H. split; [by apply run_others_between|done|done|cbn; lia]. Qed.
Lemma quiet_tick s k : (rs_tick s <= k)%nat -> quiet s (at_tick k s).
Proof. intros H. by split. Qed.
Lemma quiet_ok s s' : quiet s s' -> pt_ok (rs_target s) -> pt_ok (rs_target s').
Proof. intros [Ht _ _ _]. by apply pt_evolves_ok, run_between_evolves. Qed.

(** ** The effect of an event *)

Section Event.
Context (c : CompiledScenarioV2) (fingerprint : bytes) (event : CompiledEventV2) (epoch : Instant).
Local Abbreviation r := (event_resource event).
Local Abbreviation ns := (event_namespace c fingerprint (ce_compiled_index event)).

Definition elapsed_at s : Z := Z.min (saturating_duration_since (run_now (rs_tick s)) epoch) U64_MAX.

(** The plan an event publishes, given the target it was seen on: a removal edits
    the plan it read, and without ownership publishes over what it read. *)
Definition plan_for s (t : T) (expected : Z) (plan : TargetPlan) : Prop :=
  match ce_action event with
  | SetPlan _ _ fs => plan = StreamPlan {| faults := fs |}
  | SetDatagramPlan _ _ fs => plan = DatagramPlanOf {| dp_faults := fs |}
  | RemoveFault _ _ id =>
      exists t0 g base, run_between (rs_target s) t0 /\ run_between t0 t
        /\ pt_snapshot t0 r = Ok {| ts_generation := g; ts_plan := StreamPlan base |}
        /\ plan_get base id <> None /\ plan = StreamPlan (without_fault base id)
        /\ (is_strict c = false -> expected = g)
  | RemoveDatagramFault _ _ id =>
      exists t0 g base, run_between (rs_target s) t0 /\ run_between t0 t
        /\ pt_snapshot t0 r = Ok {| ts_generation := g; ts_plan := DatagramPlanOf base |}
        /\ existsb (fun f => bool_decide (dg_id f = id)) (dp_faults base) = true
        /\ plan = DatagramPlanOf {| dp_faults := List.filter (fun f => negb (bool_decide (dg_id f = id))) (dp_faults base) |}
        /\ (is_strict c = false -> expected = g)
  end.

Definition strictly_owned s (expected : Z) : Prop :=
  forall entry, is_strict c = true -> rs_owned s !! key_of r = Some entry ->
    expected = ow_last_owned_generation entry.

Definition recorded s s' (res : result unit string) : Prop :=
  match res with
  | Err _ => rs_sink s' = rs_sink s
  | Ok _ => exists result, rs_sink s' = sink_record (rs_sink s) result
      /\ er_compiled_index result = ce_compiled_index event /\ er_phase result = ce_phase event
      /\ er_scheduled_offset_ns result = ce_offset_ns event /\ er_applied_elapsed_ns result = elapsed_at s
      /\ er_late_by_ns result = sat_sub (elapsed_at s) (ce_offset_ns event) /\ er_resource result = r
  end.

Inductive effect s : result unit string -> RunState T S -> Prop :=
| effect_quiet e s' : quiet s s' -> effect s (Err e) s'
| effect_publish res s' s1 expected plan rc t2 :
    quiet s s1 ->
    pt_publish (rs_target s1) r expected plan ns = (Ok rc, t2) ->
    strictly_owned s expected -> plan_for s (rs_target s1) expected plan ->
    run_between t2 (rs_target s') ->
    rs_owned s' = update_owned (rs_owned s) (key_of r) r rc ->
    recorded s s' res ->
    (rs_tick s <= rs_tick s')%nat ->
    effect s res s'.

(** The three tails of the branches, from a state reached quietly. *)
Lemma wp_expected s s1 key b (Q : result (option Z) string -> RunState T S -> Prop) :
  pt_ok (rs_target s) -> quiet s s1 -> key = key_of r -> b = is_strict c ->
  (forall s2 found, quiet s s2 -> quiet s1 s2 -> (forall g, found = Some g -> strictly_owned s g) -> Q (Ok found) s2) ->
  wp (expected_generation r b key) s1 Q.
Proof.
  intros Hok Hq -> -> HQ. unfold expected_generation. apply wp_bind. unfold wp at 1, get_owned; cbn [fst snd].
  rewrite (qt_owned _ _ Hq). destruct (if is_strict c then rs_owned s !! key_of r else None) as [entry|] eqn:E.
  - apply wp_ret, HQ; [done|reflexivity|]. intros g [= <-] entry' Hs He. rewrite Hs, He in E. by injection E as <-.
  - pose proof (quiet_seen s1 (quiet_ok _ _ Hq Hok)) as Hq1.
    assert (Q2 : quiet s (step_to (seen s1) s1)) by (by etrans).
    assert (N : forall g, strictly_owned s g). { intros g entry Hs He. rewrite Hs, He in E. discriminate. }
    unfold wp, call_generation, target_call. fold (seen s1). fold (step_to (seen s1) s1). cbn [fst snd].
    destruct (pt_current_generation (seen s1) r); cbn [fst snd]; apply HQ; auto.
Qed.

(** Publication, ownership and evidence, in the two forms the branches have. *)
Lemma wp_publish_tail s s1 expected plan key (f : TargetError -> string) (tail : PublishReceipt -> Run string unit) :
  pt_ok (rs_target s) -> quiet s s1 -> key = key_of r ->
  strictly_owned s expected -> (forall t, run_between (rs_target s1) t -> plan_for s t expected plan) ->
  (forall rc s2, pt_ok (rs_target s2) -> rs_sink s2 = rs_sink s -> (rs_tick s <= rs_tick s2)%nat ->
     wp (tail rc) s2 (fun res s' => run_between (rs_target s2) (rs_target s') /\ rs_owned s' = rs_owned s2
        /\ recorded s s' res /\ (rs_tick s2 <= rs_tick s')%nat)) ->
  wp (rbind (rmap_err (call_publish r expected plan ns) f)
        (fun rc => rbind (own key r rc) (fun _ => tail rc))) s1 (effect s).
Proof.
  intros Hok Hq -> Hs Hp Ht. apply wp_bind, wp_map_err, wp_publish.
  pose proof (quiet_ok _ _ Hq Hok) as Hok1. pose proof (quiet_seen s1 Hok1) as Hq1.
  assert (Hq2 : quiet s (step_to (seen s1) s1)) by (by etrans).
  pose proof (quiet_ok _ _ Hq2 Hok) as Hok2. cbn [rs_target step_to] in Hok2.
  destruct (pt_publish (seen s1) r expected plan ns) as [[rc|e] t2] eqn:Ep; cbn [fst snd].
  - apply wp_bind. unfold own. apply wp_bind. unfold wp at 1, get_owned; cbn [fst snd].
    unfold wp at 1, put_owned; cbn [fst snd rs_target rs_owned rs_sink rs_tick step_to].
    rewrite (qt_owned _ _ Hq).
    destruct (pt_publish_ok _ _ _ _ _ _ _ Hok2 Ep) as (_ & _ & _ & Hev).
    pose proof (qt_tick _ _ Hq) as Hk. pose proof (qt_sink _ _ Hq) as Hk'.
    eapply wp_mono.
    + apply Ht; cbn [rs_target rs_owned rs_sink rs_tick]; [by eapply pt_evolves_ok|done|lia].
    + cbn [rs_target rs_owned rs_sink rs_tick]. intros res s' (E1 & E2 & E3 & E4).
      eapply (effect_publish s res s' (step_to (seen s1) s1) expected plan rc t2); try done; [|lia].
      apply Hp, run_others_between, Hok1.
  - rewrite (pt_publish_err _ _ _ _ _ _ _ Hok2 Ep). by apply effect_quiet.
Qed.

Lemma wp_record s s2 gens action : rs_sink s2 = rs_sink s ->
  wp (record_result event (elapsed_at s) (sat_sub (elapsed_at s) (ce_offset_ns event)) action r gens) s2
    (fun res s' => run_between (rs_target s2) (rs_target s') /\ rs_owned s' = rs_owned s2
       /\ recorded s s' res /\ (rs_tick s2 <= rs_tick s')%nat).
Proof.
  intros Hs. unfold wp; cbn. conjs; [reflexivity|done| |lia]. eexists. rewrite Hs. split; [reflexivity|]. done.
Qed.

Lemma wp_stream_tail s s2 rc (f : TargetError -> string) action : pt_ok (rs_target s2) ->
  rs_sink s2 = rs_sink s ->
  wp (rbind (rmap_err (directional_gens r rc) f)
        (record_result event (elapsed_at s) (sat_sub (elapsed_at s) (ce_offset_ns event)) action r)) s2
    (fun res s' => run_between (rs_target s2) (rs_target s') /\ rs_owned s' = rs_owned s2
       /\ recorded s s' res /\ (rs_tick s2 <= rs_tick s')%nat).
Proof.
  intros Hok Hs. apply wp_bind, wp_map_err. unfold directional_gens. apply wp_bind, wp_generation.
  pose proof (run_others_between (rs_tick s2) (rs_target s2) Hok) as He.
  destruct (pt_current_generation (seen s2) (sibling r)) as [g|e].
  - apply wp_ret. eapply wp_mono; [by apply wp_record|]. cbn [rs_target rs_owned rs_tick step_to].
    intros res s' (E1 & E2 & E3 & E4). conjs; [by etrans|done|done|lia].
  - cbn. conjs; [exact He|done|done|lia].
Qed.

(** A tail ends an event: it keeps ownership and records at most the event. *)
Definition ends s (tail : PublishReceipt -> Run string unit) : Prop :=
  forall rc s2, pt_ok (rs_target s2) -> rs_sink s2 = rs_sink s -> (rs_tick s <= rs_tick s2)%nat ->
    wp (tail rc) s2 (fun res s' => run_between (rs_target s2) (rs_target s') /\ rs_owned s' = rs_owned s2
       /\ recorded s s' res /\ (rs_tick s2 <= rs_tick s')%nat).

(** A set publishes its plan over the expected generation. *)
Lemma wp_set_tail s s1 key msg plan (f : TargetError -> string) tail :
  pt_ok (rs_target s) -> quiet s s1 -> key = key_of r ->
  (forall t expected, plan_for s t expected plan) -> ends s tail ->
  wp (rbind (expected_generation r (is_strict c) key) (fun found =>
        rbind (ok_or found msg) (fun expected =>
          rbind (rmap_err (call_publish r expected plan ns) f)
            (fun rc => rbind (own key r rc) (fun _ => tail rc))))) s1 (effect s).
Proof.
  intros Hok Hq Hk Hp Ht. apply wp_bind, (wp_expected s); [done|done|done|done|]. intros s2 found Hq2 _ Hs.
  apply wp_bind. destruct found as [g|]; [apply wp_ret|by apply wp_fail, effect_quiet].
  apply wp_publish_tail; auto.
Qed.

(** A removal publishes the edited plan: in strict mode over the generation it
    owns, otherwise over the one it read. *)
Lemma wp_remove_tail s s1 g key msg plan (f : TargetError -> string) tail :
  pt_ok (rs_target s) -> quiet s s1 -> key = key_of r ->
  (forall t expected, run_between (rs_target s1) t -> (is_strict c = false -> expected = g) ->
     plan_for s t expected plan) -> ends s tail ->
  wp (rbind (if is_strict c then rbind (expected_generation r (is_strict c) key) (fun found => ok_or found msg)
             else rret g) (fun expected =>
          rbind (rmap_err (call_publish r expected plan ns) f)
            (fun rc => rbind (own key r rc) (fun _ => tail rc)))) s1 (effect s).
Proof.
  intros Hok Hq Hk Hp Ht. apply wp_bind. destruct (is_strict c) eqn:Est.
  - apply wp_bind, (wp_expected s); [done|done|done|done|]. intros s2 found Hq2 Hq12 Hs.
    destruct found as [x|]; [apply wp_ret|by apply wp_fail, effect_quiet].
    apply wp_publish_tail; auto. intros t Hb. apply Hp; [|discriminate]. etrans; [apply Hq12|exact Hb].
  - apply wp_ret, wp_publish_tail; auto. intros entry Hst. by rewrite Est in Hst.
Qed.

(** What [apply_event] does, on every branch. *)
Lemma apply_event_effect s : pt_ok (rs_target s) ->
  effect s (apply_event c event epoch fingerprint s).1 (apply_event c event epoch fingerprint s).2.
Proof.
  intros Hok. change (wp (apply_event c event epoch fingerprint) s (effect s)). unfold apply_event.
  apply wp_bind. unfold wp at 1, read_clock; cbn [fst snd].
  fold (elapsed_at s). fold (at_tick (Datatypes.S (rs_tick s)) s).
  set (s1 := at_tick (Datatypes.S (rs_tick s)) s).
  assert (Hq : quiet s s1) by (apply quiet_tick; lia).
  assert (Hok1 : pt_ok (rs_target s1)) by done. pose proof (quiet_seen s1 Hok1) as Hq1.
  assert (Hq2 : quiet s (step_to (seen s1) s1)) by (by etrans).
  destruct (ce_action event) as [p d fs|p d id|p d fs|p d id] eqn:Ea; (
    match goal with |- context [{| rs_proxy := p; rs_direction := d; rs_transport := ?tr |}] =>
      assert (Er : {| rs_proxy := p; rs_direction := d; rs_transport := tr |} = r)
        by (unfold event_resource; by rewrite Ea); rewrite Er;
      assert (Ek : resource_key p d tr = key_of r) by (by rewrite <- Er) end).
  - apply wp_bind. destruct (plan_new fs) as [plan|e] eqn:Ep; [apply wp_ret|by apply wp_fail, effect_quiet].
    apply wp_set_tail; auto.
    + intros t expected. unfold plan_for. rewrite Ea. by rewrite (plan_new_value _ _ Ep).
    + intros rc s3 Hok3 Hs3 _. by apply wp_stream_tail.
  - apply wp_bind, wp_map_err, wp_snapshot.
    destruct (pt_snapshot (seen s1) r) as [[g [base|base]]|e] eqn:Es; cbn [ts_plan ts_generation];
      [|by apply effect_quiet..].
    destruct (plan_get base id) as [f|] eqn:Eg; [|by apply wp_fail, effect_quiet].
    apply wp_remove_tail; auto.
    + intros t expected Ht Hx. unfold plan_for. rewrite Ea. exists (seen s1), g, base.
      conjs; try done; [apply Hq2|by rewrite Eg].
    + intros rc s3 Hok3 Hs3 _. by apply wp_stream_tail.
  - apply wp_bind. destruct (dplan_new fs) as [plan|e] eqn:Ep; [apply wp_ret|by apply wp_fail, effect_quiet].
    apply wp_set_tail; auto.
    + intros t expected. unfold plan_for. rewrite Ea. by rewrite (dplan_new_value _ _ Ep).
    + intros rc s3 Hok3 Hs3 _. by apply wp_record.
  - apply wp_bind, wp_map_err, wp_snapshot.
    destruct (pt_snapshot (seen s1) r) as [[g [base|base]]|e] eqn:Es; cbn [ts_plan ts_generation];
      [by apply effect_quiet| |by apply effect_quiet].
    destruct (existsb (fun f => bool_decide (dg_id f = id)) (dp_faults base)) eqn:Eg;
      cbn [negb]; [|by apply wp_fail, effect_quiet].
    apply wp_bind. destruct (dplan_new _) as [plan|e] eqn:Ep; [apply wp_ret|by apply wp_fail, effect_quiet].
    apply dplan_new_value in Ep as ->. apply wp_remove_tail; auto.
    + intros t expected Ht Hx. unfold plan_for. rewrite Ea. exists (seen s1), g, base.
      conjs; try done; apply Hq2.
    + intros rc s3 Hok3 Hs3 _. by apply wp_record.
Qed.
End Event.
End Effects.
