(* ===== verification/DriverRun.v ===== *)
(** * Whole schedule runs

    Timing and progress of [drive], and what its publications replace; then
    preparation, and the theorems about prepared runs: they are on time, they
    end, and they publish only what the schedule says, over nothing but their
    own. *)

From stdpp Require Import base list gmap sorting strings.
From S2P Require Import Prelude Rng Float64 Plan Policy Env DatagramPlan Schedule ScheduleProps Fingerprint Target Driver DriverProps.

(** ** Progress and timing *)

Section Progress.
Context {T S : Type} `{P : PolicyTarget T} {R : RunEnv T} `{K : EventSink S}.
Implicit Types s : RunState T S.

(** Every sleep that has a deadline fires, or a cancellation comes first. *)
Definition timers_fire : Prop := forall k d, d <= INSTANT_MAX -> run_woken k d <> None.
Definition within_range (epoch : Instant) (e : CompiledEventV2) : Prop := epoch + ce_offset_ns e <= INSTANT_MAX.

Lemma wait_for_deadline_some k epoch offset : timers_fire -> epoch + offset <= INSTANT_MAX ->
  exists res k', wait_for_deadline k epoch offset = Some (res, k').
Proof.
  intros F H. unfold wait_for_deadline, instant_checked_add.
  destruct (Z.leb_spec (epoch + offset) INSTANT_MAX); [|lia]. case_split; [eauto|].
  destruct (run_woken _ _) as [[j slept]|] eqn:E; [eauto|]. by destruct (F _ _ H E).
Qed.

(** Where the loop stops: it passes no event beyond the range of the clock,
    and never ends only in front of one that nobody cancels. *)
Lemma drive_loop_stops c fingerprint epoch events applied s : timers_fire ->
  match drive_loop c fingerprint epoch events applied s with
  | Some e => le_cancelled e = false -> le_failure e = None -> Forall (within_range epoch) events
  | None => exists before event after k, events = before ++ event :: after /\ Forall (within_range epoch) before
      /\ INSTANT_MAX < epoch + ce_offset_ns event /\ run_cancel_ever k = false
  end.
Proof.
  intros F. revert applied s. induction events as [|event events IH]; intros applied s; cbn [drive_loop]; [by intros; constructor|].
  destruct (run_cancelled (rs_tick s)); [done|]. destruct (Z.leb_spec (epoch + ce_offset_ns event) INSTANT_MAX) as [In|Out].
  - destruct (wait_for_deadline_some (Datatypes.S (rs_tick s)) epoch (ce_offset_ns event) F In) as (res & k & ->).
    destruct res as [[]|[]]; [|done]. destruct (apply_event _ _ _ _ _) as [[[]|reason] s']; [|done].
    specialize (IH (applied + 1) s'). destruct (drive_loop _ _ _ _ _ _); [by intros; constructor; [|apply IH]|].
    destruct IH as (before & e & after & k' & -> & H & X). exists (event :: before), e, after, k'. split; [done|]. split; [by constructor|done].
  - unfold wait_for_deadline, instant_checked_add. rewrite (proj2 (Z.leb_gt _ _)) by lia.
    destruct (run_cancel_ever _) eqn:E; [done|]. by exists [], event, events, (Datatypes.S (rs_tick s)).
Qed.

(** So it ends unless some deadline is beyond the range of the clock. *)
Lemma drive_loop_ends c fingerprint epoch events applied s : timers_fire -> Forall (within_range epoch) events ->
  exists e, drive_loop c fingerprint epoch events applied s = Some e.
Proof.
  intros F H. pose proof (drive_loop_stops c fingerprint epoch events applied s F) as D.
  destruct (drive_loop _ _ _ _ _ _) as [e|]; [by exists e|]. destruct D as (before & e & after & k & -> & _ & X & _).
  apply Forall_app in H as [_ H]. apply Forall_cons in H as [H _]. unfold within_range in H. lia.
Qed.
End Progress.

Section Timing.
Context {T : Type} `{PO : PolicyTargetOk T} {R : RunEnv T} {RO : RunEnvOk T R}.
Implicit Types s : RunState T (list ScheduleEventResult).

(** An event that was recorded, at its deadline or later. *)
Record on_time (e : CompiledEventV2) (x : ScheduleEventResult) : Prop := {
  ot_index : er_compiled_index x = ce_compiled_index e;
  ot_phase : er_phase x = ce_phase e;
  ot_resource : er_resource x = event_resource e;
  ot_offset : er_scheduled_offset_ns x = ce_offset_ns e;
  ot_applied : ce_offset_ns e <= er_applied_elapsed_ns x <= U64_MAX;
  ot_late : er_late_by_ns x = er_applied_elapsed_ns x - er_scheduled_offset_ns x
}.

(** A wait that lets an event through ends at its deadline or later. *)
Lemma wait_for_deadline_spec k epoch offset res k' : wait_for_deadline k epoch offset = Some (res, k') ->
  (k < k')%nat /\ match res with
                  | Ok _ => epoch + offset <= run_now k'
                  | Err _ => True
                  end.
Proof.
  unfold wait_for_deadline, instant_checked_add. destruct (Z.leb_spec (epoch + offset) INSTANT_MAX) as [H|H].
  - destruct (Z.leb_spec (epoch + offset) (run_now k)) as [Hn|Hn].
    + intros [= <- <-]. split; [lia|]. pose proof (run_now_mono k (S k) ltac:(lia)). lia.
    + destruct (run_woken (S k) (epoch + offset)) as [[j [|]]|] eqn:Ew; [| |done]; intros [= <- <-].
      * apply run_woken_late in Ew as [Hj Hd]. split; [lia|]. pose proof (run_now_mono j (S j) ltac:(lia)). lia.
      * apply run_woken_cancelled in Ew as [Hj _]. split; [lia|done].
  - destruct (run_cancel_ever k); [|discriminate]. intros [= <- <-]. split; [lia|done].
Qed.

(** What the event loop of [drive] has done when it ends. *)
Record loop_report (events : list CompiledEventV2) (applied : Z) s (e : LoopEnd (T := T)) : Prop := {
  lr_ok : pt_ok (rs_target (le_state e));
  lr_tick : (rs_tick s <= rs_tick (le_state e))%nat;
  lr_recorded : exists rs, rs_sink (le_state e) = rs_sink s ++ rs
    /\ Forall2 on_time (take (length rs) events) rs
    /\ le_applied e = applied + zlen rs
    /\ (le_cancelled e = false -> le_failure e = None -> length rs = length events);
  lr_cancelled : le_cancelled e = true -> le_failure e = None
}.

Lemma effect_ok c fingerprint event epoch s res s' : pt_ok (rs_target s) ->
  effect c fingerprint event epoch s res s' -> pt_ok (rs_target s').
Proof.
  intros Hok He. destruct He as [e s' Hq|res s' s1 expected plan rc t2 Hq Hp _ _ Hb _ _ _].
  - by eapply quiet_ok.
  - pose proof (quiet_ok _ _ Hq Hok) as Hok1. destruct (pt_publish_ok _ _ _ _ _ _ _ Hok1 Hp) as (_ & _ & _ & He).
    eapply pt_evolves_ok; [by apply run_between_evolves|]. by eapply pt_evolves_ok.
Qed.

Lemma effect_tick c fingerprint event epoch s res s' :
  effect c fingerprint event epoch s res s' -> (rs_tick s <= rs_tick s')%nat.
Proof. intros [e s2 Hq|]; [apply Hq|done]. Qed.

Lemma effect_recorded c fingerprint event epoch s res s' :
  effect c fingerprint event epoch s res s' -> recorded event epoch s s' res.
Proof. intros [e s2 Hq|]; [apply Hq|done]. Qed.

Definition tape_offsets_ok (events : list CompiledEventV2) : Prop :=
  Forall (fun e => 0 <= ce_offset_ns e <= U64_MAX) events.

Lemma recorded_on_time event epoch s s' : 0 <= ce_offset_ns event <= U64_MAX ->
  epoch + ce_offset_ns event <= run_now (rs_tick s) ->
  recorded event epoch s s' (Ok tt) -> exists x, rs_sink s' = rs_sink s ++ [x] /\ on_time event x.
Proof.
  intros Ho Hn (x & Es & Ei & Ep & Eo & Ee & El & Er). exists x. split; [exact Es|].
  assert (Hx : ce_offset_ns event <= elapsed_at epoch s <= U64_MAX)
    by (unfold elapsed_at, saturating_duration_since; lia).
  split; try done; [by rewrite Ee|]. rewrite El, Ee, Eo. unfold sat_sub. lia.
Qed.

Lemma drive_loop_report c fingerprint epoch events applied s e :
  pt_ok (rs_target s) -> tape_offsets_ok events ->
  drive_loop c fingerprint epoch events applied s = Some e -> loop_report events applied s e.
Proof.
  revert applied s; induction events as [|event events IH]; intros applied s Hok Ho; cbn [drive_loop].
  { intros [= <-]. split; cbn; try done. exists []. rewrite app_nil_r. split; [done|]. split; [constructor|].
    unfold zlen; cbn. split; [lia|done]. }
  apply Forall_cons in Ho as [Ho1 Ho].
  assert (Quit : forall k failure cancelled s', (cancelled = true -> failure = None) ->
    (cancelled = false -> failure <> None) -> pt_ok (rs_target s') -> (rs_tick s <= rs_tick s')%nat ->
    rs_sink s' = rs_sink s -> k = applied ->
    loop_report (event :: events) applied s
      {| le_cancelled := cancelled; le_failure := failure; le_applied := k; le_state := s' |}).
  { intros k failure cancelled s' H1 H2 H3 H4 H5 ->. split; cbn; try done. exists []. rewrite app_nil_r.
    split; [done|]. split; [constructor|]. unfold zlen; cbn. split; [lia|]. intros Hc Hf. by destruct (H2 Hc). }
  destruct (run_cancelled (rs_tick s)).
  { intros [= <-]. apply Quit; cbn; try done; lia. }
  destruct (wait_for_deadline _ epoch (ce_offset_ns event)) as [[[[]|[]] k]|] eqn:Ew; [| |discriminate];
    apply wait_for_deadline_spec in Ew as [Hk Hw].
  - pose proof (apply_event_effect c fingerprint event epoch (at_tick k s) Hok) as He.
    destruct (apply_event c event epoch fingerprint (at_tick k s)) as [[[]|reason] s'] eqn:Ea; cbn [fst snd] in He;
      pose proof (effect_ok _ _ _ _ (at_tick k s) _ _ Hok He) as Hok'; pose proof (effect_tick _ _ _ _ _ _ _ He) as Ht;
      pose proof (effect_recorded _ _ _ _ _ _ _ He) as Hr; cbn [rs_tick at_tick] in Ht.
    + intros Hl. destruct (IH _ _ Hok' Ho Hl) as [L1 L2 (rs & E1 & E2 & E3 & E4) L3].
      destruct (recorded_on_time _ _ (at_tick k s) _ Ho1 Hw Hr) as (x & Ex & Hx). cbn [rs_sink at_tick] in Ex.
      split; [done|lia| |done]. exists (x :: rs). rewrite E1, Ex, <- app_assoc. split; [done|].
      split; [by constructor|]. rewrite zlen_cons. split; [lia|]. intros Hc Hf. cbn. by rewrite E4.
    + intros [= <-]. apply Quit; try done. lia.
  - intros [= <-]. apply Quit; cbn; try done; lia.
Qed.

End Timing.

(** ** A target that remembers what was published on it

    Any target can be wrapped so that each successful publication leaves a
    record of what it replaced and what it stored. *)

Record Publication := {
  pb_resource : ScheduleResource;
  pb_found : result TargetSnapshot TargetError;   (* just before *)
  pb_stored : TargetSnapshot                      (* just after *)
}.
Record Logged (T : Type) := { lg_target : T; lg_log : list Publication }.
Arguments lg_target {T}. Arguments lg_log {T}.

(** What a run owns: the snapshot it last put, or found, under each key. *)
Abbreviation Ownership := (gmap string TargetSnapshot).

Section Logging.
Context {T : Type} `{PO : PolicyTargetOk T} {R : RunEnv T} {RO : RunEnvOk T R}.

#[export] Instance Logged_target : PolicyTarget (Logged T) := {
  pt_capabilities t := pt_capabilities (lg_target t);
  pt_snapshot t r := pt_snapshot (lg_target t) r;
  pt_current_generation t r := pt_current_generation (lg_target t) r;
  pt_publish t r expected plan ns :=
    match pt_publish (lg_target t) r expected plan ns with
    | (Ok rc, t') =>
        (Ok rc, {| lg_target := t'; lg_log := lg_log t ++
           [{| pb_resource := r; pb_found := pt_snapshot (lg_target t) r;
               pb_stored := {| ts_generation := rc_generation rc; ts_plan := plan |} |}] |})
    | (Err e, t') => (Err e, {| lg_target := t'; lg_log := lg_log t |})
    end;
  pt_global_generation t := pt_global_generation (lg_target t)
}.

#[export] Instance Logged_ok : PolicyTargetOk (Logged T).
Proof.
  refine {| pt_ok t := pt_ok (lg_target t); pt_evolves t t' := pt_evolves (lg_target t) (lg_target t') |}.
  - split; [intros t; reflexivity|intros t u v; apply transitivity].
  - intros t t'. exact (pt_evolves_ok (lg_target t) (lg_target t')).
  - intros t t' r s s'. exact (pt_monotone (lg_target t) (lg_target t') r s s').
  - intros t r g. exact (pt_generation_snapshot (lg_target t) r g).
  - intros t r expected plan ns rc t' Hok. cbn.
    destruct (pt_publish (lg_target t) r expected plan ns) as [[rc'|e] u] eqn:Ep; [|discriminate].
    intros [= -> <-]. cbn. by eapply pt_publish_ok.
  - intros t r expected plan ns e t' Hok. cbn.
    destruct (pt_publish (lg_target t) r expected plan ns) as [[rc'|e'] u] eqn:Ep; [discriminate|].
    intros [= -> <-]. rewrite (pt_publish_err _ _ _ _ _ _ _ Hok Ep). by destruct t.
Defined.

#[export] Instance Logged_env : RunEnv (Logged T) := {
  run_now := run_now; run_cancelled := run_cancelled; run_cancel_ever := run_cancel_ever;
  run_woken := run_woken;
  run_others k t := {| lg_target := run_others k (lg_target t); lg_log := lg_log t |}
}.

#[export] Instance Logged_env_ok : RunEnvOk (Logged T) Logged_env.
Proof.
  refine {| run_between t t' := run_between (lg_target t) (lg_target t') /\ lg_log t' = lg_log t |}.
  - intros i j. apply (run_now_mono (T := T) i j).
  - intros i j. apply (run_cancelled_mono (T := T) i j).
  - intros k d j. apply (run_woken_late (T := T) k d j).
  - intros k d j. apply (run_woken_cancelled (T := T) k d j).
  - split; [intros t; split; [reflexivity|done]|]. intros t u v [A1 B1] [A2 B2].
    split; [by etrans|congruence].
  - intros t t' [H _]. exact (run_between_evolves (lg_target t) (lg_target t') H).
  - intros k t Hok. split; [exact (run_others_between k (lg_target t) Hok)|done].
Defined.

(** ** Chains of ownership *)

(** What a run owns after its publications. *)
Definition own_after (o : Ownership) (log : list Publication) : Ownership :=
  foldl (fun o p => <[key_of (pb_resource p) := pb_stored p]> o) o log.

(** Every publication replaces exactly what the run owns there, generation and plan. *)
Fixpoint chained (o : Ownership) (log : list Publication) : Prop :=
  match log with
  | [] => True
  | p :: rest =>
      (exists snap, o !! key_of (pb_resource p) = Some snap /\ pb_found p = Ok snap)
      /\ chained (<[key_of (pb_resource p) := pb_stored p]> o) rest
  end.

Lemma own_after_app o l k : own_after o (l ++ k) = own_after (own_after o l) k.
Proof. apply foldl_app. Qed.
Lemma chained_app o l k : chained o (l ++ k) <-> chained o l /\ chained (own_after o l) k.
Proof. revert o; induction l as [|p l IH]; intros o; cbn; [tauto|]. rewrite IH. tauto. Qed.

Section Chain.
Context {S : Type} `{K : EventSink S} (sha256 : bytes -> bytes) (c : CompiledScenarioV2).
Implicit Types s : RunState (Logged T) S.

(** The snapshots of [o] were the target's, and the target only evolved since. *)
Definition past (o : Ownership) (t : Logged T) : Prop :=
  forall r snap, o !! key_of r = Some snap ->
    exists t0 : Logged T, pt_ok t0 /\ pt_snapshot t0 r = Ok snap /\ pt_evolves t0 t.

(** The ownership map of the driver stands for [o]. *)
Record owns (o : Ownership) s : Prop := {
  ws_generation : ow_last_owned_generation <$> rs_owned s = ts_generation <$> o;
  ws_keys : forall k e, rs_owned s !! k = Some e -> key_of (ow_resource e) = k;
  ws_past : past o (rs_target s)
}.

Lemma past_evolves o t t' : past o t -> pt_evolves t t' -> past o t'.
Proof. intros H He r snap Hs. destruct (H r snap Hs) as (t0 & ? & ? & ?). exists t0. conjs; [done|done|by etrans]. Qed.

(** What a publication logs. *)
Definition logs (t : Logged T) r (rc : PublishReceipt) plan : Publication :=
  {| pb_resource := r; pb_found := pt_snapshot t r;
     pb_stored := {| ts_generation := rc_generation rc; ts_plan := plan |} |}.

Lemma publish_logs (t : Logged T) r expected plan ns rc t2 :
  pt_publish t r expected plan ns = (Ok rc, t2) -> lg_log t2 = lg_log t ++ [logs t r rc plan].
Proof.
  cbn. destruct (pt_publish (lg_target t) r expected plan ns) as [[rc'|e] u]; [|discriminate].
  by intros [= -> <-].
Qed.

(** A publication over the owned generation replaces the owned plan. *)
Lemma owned_publication o (t : Logged T) r expected plan ns rc t2 snap :
  past o t -> pt_ok t -> o !! key_of r = Some snap -> expected = ts_generation snap ->
  pt_publish t r expected plan ns = (Ok rc, t2) -> pt_snapshot t r = Ok snap.
Proof.
  intros Ho Hok Hs -> Hp. destruct (pt_publish_ok (T := Logged T) t r _ plan ns rc t2 Hok Hp) as (Hg & _).
  apply pt_generation_snapshot in Hg as [plan' Hn]; [|exact Hok].
  destruct (Ho r snap Hs) as (t0 & H0 & Hs0 & He0).
  destruct (pt_monotone t0 t r snap _ H0 He0 Hs0 Hn) as [_ Heq]. by rewrite Hn, <- Heq.
Qed.

Lemma past_publish o (t t2 : Logged T) r expected plan ns rc :
  past o t -> pt_ok t -> pt_publish t r expected plan ns = (Ok rc, t2) ->
  past (own_after o [logs t r rc plan]) t2 /\ pt_ok t2.
Proof.
  intros Ho Hok Hp. destruct (pt_publish_ok (T := Logged T) t r expected plan ns rc t2 Hok Hp) as (_ & _ & Hs & Hev).
  pose proof (pt_evolves_ok (T := Logged T) t t2 Hev Hok) as Hok2. split; [|exact Hok2].
  intros r' snap. cbn. rewrite lookup_insert_Some. intros [[E <-]|[N Hl]].
  - apply key_of_inj in E as <-. exists t2. conjs; [done|exact Hs|reflexivity].
  - by apply (past_evolves o t).
Qed.

Lemma update_owned_entries owned r rc entry : owned !! key_of r = Some entry ->
  (forall k e, owned !! k = Some e -> key_of (ow_resource e) = k) ->
  ow_last_owned_generation <$> update_owned owned (key_of r) r rc
    = <[key_of r := rc_generation rc]> (ow_last_owned_generation <$> owned)
  /\ forall k e, update_owned owned (key_of r) r rc !! k = Some e ->
       key_of (ow_resource e) = k
       /\ exists e0, owned !! k = Some e0 /\ ow_resource e = ow_resource e0 /\ ow_initial_plan e = ow_initial_plan e0.
Proof.
  intros He Hk. unfold update_owned. rewrite He. rewrite fmap_insert. split; [done|].
  intros k e. rewrite lookup_insert_Some. intros [[<- <-]|[_ Hl]]; cbn.
  - split; [by apply Hk|]. by exists entry.
  - split; [by apply Hk|]. by exists e.
Qed.

(** ** Events keep the chain *)

Definition covers (owned : Owned) (r : ScheduleResource) : Prop := is_Some (owned !! key_of r).

(** Later maps keep the resources and the initial plans of earlier ones. *)
Definition same_resources (owned owned' : Owned) : Prop :=
  (forall r, covers owned r -> covers owned' r)
  /\ forall k e, owned' !! k = Some e -> exists e0, owned !! k = Some e0
       /\ ow_resource e = ow_resource e0 /\ ow_initial_plan e = ow_initial_plan e0.

#[export] Instance same_resources_preorder : PreOrder same_resources.
Proof.
  split; [split; [done|by eauto]|]. intros a b d [A1 A2] [B1 B2]. split; [auto|].
  intros k e He. destruct (B2 k e He) as (e1 & H1 & Hr & Hp). destruct (A2 k e1 H1) as (e0 & H0 & Hr' & Hp').
  exists e0. conjs; [done|congruence|congruence].
Qed.

(** What a stretch of a run has published. *)
Record stretch (strict : bool) (o : Ownership) s s' (l : list Publication) : Prop := {
  sh_log : lg_log (rs_target s') = lg_log (rs_target s) ++ l;
  sh_chain : strict = true -> chained o l;
  sh_owns : owns (own_after o l) s';
  sh_ok : pt_ok (rs_target s');
  sh_same : same_resources (rs_owned s) (rs_owned s')
}.

Lemma stretch_app strict o s1 s2 s3 l k :
  stretch strict o s1 s2 l -> stretch strict (own_after o l) s2 s3 k -> stretch strict o s1 s3 (l ++ k).
Proof.
  intros [A B C D E] [A' B' C' D' E']. split; [by rewrite A', A, app_assoc| |by rewrite own_after_app|done|by etrans].
  intros H. apply chained_app. auto.
Qed.

Lemma stretch_quiet strict o s s' : owns o s -> pt_ok (rs_target s) -> quiet s s' -> stretch strict o s s' [].
Proof.
  intros [A B C] Hok Hq. pose proof (quiet_ok _ _ Hq Hok). destruct Hq as [[Hb Hl] Ho _ _].
  split; [by rewrite app_nil_r|done| |done|by rewrite Ho].
  split; [by rewrite Ho|by rewrite Ho|]. apply (past_evolves o (rs_target s)); [done|].
  exact (run_between_evolves (lg_target (rs_target s)) (lg_target (rs_target s')) Hb).
Qed.

(** A publication that carries out an event: a set stores its plan, a removal
    stores what it found there without the fault, which was present. *)
Definition carries_out (event : CompiledEventV2) (p : Publication) : Prop :=
  pb_resource p = event_resource event
  /\ match ce_action event with
     | SetPlan _ _ fs => ts_plan (pb_stored p) = StreamPlan {| faults := fs |}
     | SetDatagramPlan _ _ fs => ts_plan (pb_stored p) = DatagramPlanOf {| dp_faults := fs |}
     | RemoveFault _ _ id =>
         exists g base, pb_found p = Ok {| ts_generation := g; ts_plan := StreamPlan base |}
           /\ plan_get base id <> None /\ ts_plan (pb_stored p) = StreamPlan (without_fault base id)
     | RemoveDatagramFault _ _ id =>
         exists g base, pb_found p = Ok {| ts_generation := g; ts_plan := DatagramPlanOf base |}
           /\ existsb (fun f => bool_decide (dg_id f = id)) (dp_faults base) = true
           /\ ts_plan (pb_stored p) = DatagramPlanOf
                {| dp_faults := List.filter (fun f => negb (bool_decide (dg_id f = id))) (dp_faults base) |}
     end.

(** What a removal read is what its publication replaces, in either mode: the
    expected generation pins it. *)
Lemma read_is_replaced o s r (t0 t1 t2 : Logged T) g plan0 expected plan ns rc :
  owns o s -> pt_ok (rs_target s) -> covers (rs_owned s) r ->
  (is_strict c = true -> forall entry, rs_owned s !! key_of r = Some entry ->
     expected = ow_last_owned_generation entry) ->
  (is_strict c = false -> expected = g) ->
  run_between (rs_target s) t0 -> run_between t0 t1 ->
  pt_snapshot t0 r = Ok {| ts_generation := g; ts_plan := plan0 |} ->
  pt_publish t1 r expected plan ns = (Ok rc, t2) ->
  pt_snapshot t1 r = Ok {| ts_generation := g; ts_plan := plan0 |}.
Proof.
  intros Ho Hok [entry He] Hstrict Hlive B0 B1 Hs Hp.
  pose proof (run_between_evolves _ _ B0) as E0. pose proof (run_between_evolves _ _ B1) as E1.
  pose proof (pt_evolves_ok _ _ E0 Hok) as Hok0. pose proof (pt_evolves_ok _ _ E1 Hok0) as Hok1.
  destruct (pt_publish_ok _ _ _ _ _ _ _ Hok1 Hp) as (Hg & _).
  apply pt_generation_snapshot in Hg as [plan1 Hn]; [|done].
  destruct (pt_monotone t0 t1 r _ _ Hok0 E1 Hs Hn) as [Hle Heq]. cbn in Hle, Heq.
  rewrite Hn, <- Heq; [done|].
  destruct (is_strict c) eqn:Est; [|symmetry; by apply Hlive].
  specialize (Hstrict eq_refl entry He). pose proof (ws_generation _ _ Ho) as Hgen.
  apply (f_equal (lookup (key_of r))) in Hgen. rewrite !lookup_fmap, He in Hgen. cbn in Hgen.
  destruct (o !! key_of r) as [snap|] eqn:Eo; [|done]. injection Hgen as Hgen.
  destruct (ws_past _ _ Ho r snap Eo) as (tp & Hokp & Hsp & Ep).
  destruct (pt_monotone tp t0 r snap _ Hokp ltac:(by etrans) Hsp Hs) as [Hge _]. cbn in Hge. lia.
Qed.

Lemma event_stretch fingerprint event epoch o s res s' :
  owns o s -> pt_ok (rs_target s) -> covers (rs_owned s) (event_resource event) ->
  effect c fingerprint event epoch s res s' -> exists l, stretch (is_strict c) o s s' l
    /\ ((l = [] /\ is_ok res = false) \/ exists p, l = [p] /\ carries_out event p).
Proof.
  intros Ho Hok Hcov [e s2 Hq|res' s2 s1 expected plan rc t2 Hq Hp Hs Hplan Hb Hown _ _].
  { exists []. split; [by apply stretch_quiet|by left]. }
  pose proof Hcov as [entry He].
  pose proof (stretch_quiet (is_strict c) o s s1 Ho Hok Hq) as [L1 _ Ho1 Hok1 _].
  rewrite app_nil_r in L1. cbn [own_after foldl] in Ho1.
  destruct (past_publish o _ _ _ _ _ _ _ (ws_past _ _ Ho1) Hok1 Hp) as [Hpast Hok2].
  exists [logs (rs_target s1) (event_resource event) rc plan]. split.
  2: { right. eexists. split; [reflexivity|]. split; [done|]. unfold plan_for in Hplan. cbn [pb_stored pb_found logs ts_plan].
       destruct (ce_action event) as [? ? fs|? ? id|? ? fs|? ? id]; [done| |done|];
       destruct Hplan as (t0 & g & base & B0 & B1 & Hsn & Hhas & -> & Hlive); exists g, base;
       (conjs; [|done|done]); eapply (read_is_replaced o s _ t0 (rs_target s1)); eauto. }
  destruct Hb as [Hb Hl].
  pose proof (run_between_evolves _ _ Hb) as Hev.
  destruct (update_owned_entries (rs_owned s) (event_resource event) rc entry He (ws_keys _ _ Ho)) as [Hg Hk].
  split.
  - by rewrite Hl, (publish_logs _ _ _ _ _ _ _ Hp), L1.
  - intros Hst. split; [|done]. specialize (Hs entry Hst He). cbn [pb_resource pb_found logs].
    pose proof (ws_generation _ _ Ho) as Hgen. apply (f_equal (lookup (key_of (event_resource event)))) in Hgen.
    rewrite !lookup_fmap, He in Hgen. cbn in Hgen. destruct (o !! key_of (event_resource event)) as [snap|] eqn:Es; [|done].
    injection Hgen as Hgen. exists snap. split; [done|].
    eapply (owned_publication o); [apply Ho1|exact Hok1|exact Es| |exact Hp]. congruence.
  - split.
    + rewrite Hown, Hg, (ws_generation _ _ Ho). cbn. by rewrite fmap_insert.
    + intros k e. rewrite Hown. intros Hl'. by apply Hk in Hl' as [? _].
    + eapply past_evolves; [exact Hpast|exact Hev].
  - exact (pt_evolves_ok (T := Logged T) t2 (rs_target s2) Hev Hok2).
  - rewrite Hown. split; [|intros k e Hl'; by apply Hk in Hl' as [_ ?]].
    intros r [e Hr]. unfold covers, update_owned. rewrite He. rewrite lookup_insert_is_Some'. right. by exists e.
Qed.

Lemma drive_loop_stretch fingerprint epoch events applied o s e :
  owns o s -> pt_ok (rs_target s) -> Forall (fun ev => covers (rs_owned s) (event_resource ev)) events ->
  drive_loop c fingerprint epoch events applied s = Some e -> exists l, stretch (is_strict c) o s (le_state e) l
    /\ Forall2 carries_out (take (length l) events) l
    /\ le_applied e <= applied + zlen l <= le_applied e + 1.
Proof.
  revert applied o s; induction events as [|event events IH]; intros applied o s Ho Hok Hc; cbn [drive_loop].
  { intros [= <-]. exists []. split; [by apply stretch_quiet|]. split; [by constructor|rewrite zlen_nil; cbn; lia]. }
  apply Forall_cons in Hc as [Hc1 Hc].
  assert (Q : forall k cancelled failure, (rs_tick s <= k)%nat ->
    exists l, stretch (is_strict c) o s (at_tick k s) l /\ Forall2 carries_out (take (length l) (event :: events)) l
      /\ le_applied {| le_cancelled := cancelled; le_failure := failure; le_applied := applied;
                       le_state := at_tick k s |} <= applied + zlen l <= applied + 1).
  { intros. exists []. split; [by apply stretch_quiet, quiet_tick|]. split; [by constructor|rewrite zlen_nil; cbn; lia]. }
  destruct (run_cancelled (rs_tick s)); [intros [= <-]; apply Q; lia|].
  destruct (wait_for_deadline _ epoch (ce_offset_ns event)) as [[[[]|[]] k]|] eqn:Ew; [| |discriminate];
    apply wait_for_deadline_spec in Ew as [Hk _]; [|intros [= <-]; apply Q; lia].
  pose proof (apply_event_effect c fingerprint event epoch (at_tick k s) Hok) as He.
  pose proof (stretch_quiet (is_strict c) o s (at_tick k s) Ho Hok ltac:(apply quiet_tick; lia)) as Hq.
  destruct (apply_event c event epoch fingerprint (at_tick k s)) as [[[]|reason] s'] eqn:Ea; cbn [fst snd] in He;
    destruct (event_stretch _ _ _ o (at_tick k s) _ _ (sh_owns _ _ _ _ _ Hq) Hok Hc1 He) as (l & [A B C D E] & Hl).
  - destruct Hl as [[_ [=]]|(p & -> & Hp)]. intros Hd.
    destruct (IH (applied + 1) (own_after o [p]) s' C D) as (l' & Hl' & F' & N'); [|exact Hd|].
    { eapply Forall_impl; [exact Hc|]. intros ev Hev. by apply E. }
    exists ([p] ++ l'). split; [|split].
    + eapply stretch_app; [|exact Hl']. by split.
    + by constructor.
    + rewrite zlen_app. change (zlen [p]) with 1. lia.
  - intros [= <-]. exists l. split; [by split|]. cbn [le_applied].
    destruct Hl as [[-> _]|(p & -> & Hp)]; (split; [|unfold zlen; cbn; lia]); [by constructor|].
    cbn. constructor; [exact Hp|]. rewrite take_0. constructor.
Qed.

(** ** Cleanup *)

(** A publication of the cleanup puts the initial plan of an entry back. *)
Definition restores (entries : list OwnedResource) (p : Publication) : Prop :=
  exists entry, entry ∈ entries /\ pb_resource p = ow_resource entry /\ ts_plan (pb_stored p) = ow_initial_plan entry.

Lemma seen_past o s : past o (rs_target s) -> pt_ok (rs_target s) ->
  past o (seen s) /\ pt_ok (seen s) /\ lg_log (seen s) = lg_log (rs_target s).
Proof.
  intros Hp Hok. destruct (run_others_between (T := Logged T) (rs_tick s) (rs_target s) Hok) as [Hb Hl].
  pose proof (run_between_evolves _ _ Hb) as He. split; [|split; [|exact Hl]].
  - eapply past_evolves; [exact Hp|exact He].
  - exact (pt_evolves_ok (T := Logged T) _ (seen s) He Hok).
Qed.

(** One restoration: it publishes only over what the run owns, and says so. *)
Lemma restore_target_spec o s entry ns snap :
  past o (rs_target s) -> pt_ok (rs_target s) ->
  o !! key_of (ow_resource entry) = Some snap -> ow_last_owned_generation entry = ts_generation snap ->
  let '(outcome, s') := restore_target entry ns s in
  exists l, lg_log (rs_target s') = lg_log (rs_target s) ++ l /\ chained o l
    /\ past (own_after o l) (rs_target s') /\ pt_ok (rs_target s') /\ Forall (restores [entry]) l
    /\ map pb_resource l = (if bool_decide (outcome = Restored) then [ow_resource entry] else []) /\ (outcome <> NotRequested)
    /\ (forall r, key_of r <> key_of (ow_resource entry) -> own_after o l !! key_of r = o !! key_of r).
Proof.
  intros Hp Hok Hs Hg. destruct (seen_past o s Hp Hok) as (Hp1 & Hok1 & Hl1).
  assert (Q : forall outcome s', past o (rs_target s') -> pt_ok (rs_target s') ->
    lg_log (rs_target s') = lg_log (rs_target s) -> outcome <> Restored -> outcome <> NotRequested ->
    exists l, lg_log (rs_target s') = lg_log (rs_target s) ++ l /\ chained o l
    /\ past (own_after o l) (rs_target s') /\ pt_ok (rs_target s') /\ Forall (restores [entry]) l
    /\ map pb_resource l = (if bool_decide (outcome = Restored) then [ow_resource entry] else []) /\ (outcome <> NotRequested)
    /\ (forall r, key_of r <> key_of (ow_resource entry) -> own_after o l !! key_of r = o !! key_of r)).
  { intros outcome s' A B C D E. exists []. rewrite app_nil_r, bool_decide_eq_false_2 by done. conjs; try done. }
  unfold restore_target, call_generation, target_call. fold (seen s). cbn [fst snd].
  destruct (pt_current_generation (seen s) (ow_resource entry)) as [current|e] eqn:Ec; [|by apply Q].
  destruct (Z.eqb_spec current (ow_last_owned_generation entry)) as [En|En]; cbn [negb]; [|by apply Q].
  set (s1 := {| rs_target := seen s; rs_owned := rs_owned s; rs_sink := rs_sink s; rs_tick := Datatypes.S (rs_tick s) |}).
  destruct (seen_past o s1 Hp1 Hok1) as (Hp2 & Hok2 & Hl2).
  unfold call_publish, target_call. fold (seen s1).
  destruct (pt_publish (seen s1) (ow_resource entry) current (ow_initial_plan entry) ns) as [[rc|e] t2] eqn:Ep.
  - destruct (past_publish o _ _ _ _ _ _ _ Hp2 Hok2 Ep) as [Hp3 Hok3]. cbn [rs_target].
    exists [logs (seen s1) (ow_resource entry) rc (ow_initial_plan entry)].
    conjs; try done.
    + rewrite (publish_logs _ _ _ _ _ _ _ Ep), Hl2. cbn [rs_target s1]. by rewrite Hl1.
    + split; [|done]. exists snap. split; [done|].
      eapply (owned_publication o); [done|done|done| |exact Ep]. congruence.
    + constructor; [|done]. exists entry. split; [apply list_elem_of_here|done].
    + intros r Hr. cbn. by rewrite lookup_insert_ne.
  - pose proof (pt_publish_err (T := Logged T) _ _ _ _ _ _ _ Hok2 Ep) as ->.
    apply Q; cbn [rs_target]; try done.
Qed.

Definition entry_keys (entries : list OwnedResource) : list string := map (fun e => key_of (ow_resource e)) entries.

(** The whole cleanup: a chain of restorations, one at most per resource. *)
Lemma cleanup_loop_spec o s entries :
  past o (rs_target s) -> pt_ok (rs_target s) -> NoDup (entry_keys entries) ->
  Forall (fun e => exists snap, o !! key_of (ow_resource e) = Some snap
                     /\ ow_last_owned_generation e = ts_generation snap) entries ->
  let '(records, s') := cleanup_loop sha256 c entries s in
  map cr_resource records = map ow_resource entries
  /\ exists l, lg_log (rs_target s') = lg_log (rs_target s) ++ l /\ chained o l /\ Forall (restores entries) l
     /\ (cp_cleanup c = Leave -> l = [])
     /\ map pb_resource l = map cr_resource (List.filter (fun r => bool_decide (cr_outcome r = Restored)) records).
Proof.
  revert o s; induction entries as [|entry entries IH]; intros o s Hp Hok Hn He; cbn [cleanup_loop].
  { split; [done|]. exists []. by rewrite app_nil_r. }
  apply NoDup_cons in Hn as [Hn1 Hn]. apply Forall_cons in He as [(snap & Hs & Hg) He].
  unfold cleanup_one. destruct (cp_cleanup c) eqn:Ecl.
  - pose proof (restore_target_spec o s entry (event_namespace c (compiled_fingerprint sha256 c) (zlen (cp_events c)))
      snap Hp Hok Hs Hg) as Hr.
    destruct (restore_target _ _ s) as [outcome s1]. destruct Hr as (l & L1 & C1 & P1 & O1 & F1 & R1 & N1 & K1).
    specialize (IH (own_after o l) s1 P1 O1 Hn). destruct (cleanup_loop sha256 c entries s1) as [records s2].
    destruct IH as [M (l2 & L2 & C2 & F2 & _ & R2)].
    { apply Forall_forall. intros e Hin. rewrite Forall_forall in He. destruct (He e Hin) as (sn & A & B).
      exists sn. split; [|done]. rewrite K1; [done|]. intros E. apply Hn1. rewrite <- E.
      apply list_elem_of_fmap. by exists e. }
    split; [cbn; by rewrite M|]. exists (l ++ l2).
    assert (Up : forall q, Forall (restores q) l2 -> forall q', (forall x, x ∈ q -> x ∈ q') -> Forall (restores q') l2).
    { intros q Hq q' Hsub. eapply Forall_impl; [exact Hq|]. intros p (x & Hx & ?). exists x. auto. }
    conjs; [by rewrite L2, L1, app_assoc|by apply chained_app| |done|].
    + apply Forall_app_2; [|eapply Up; [exact F2|intros; by apply list_elem_of_further]].
      eapply Forall_impl; [exact F1|]. intros p (x & Hx & ?). exists x. split; [|done].
      apply list_elem_of_singleton in Hx as ->. apply list_elem_of_here.
    + rewrite map_app, R2, R1. cbn [List.filter cr_outcome]. by case_bool_decide.
  - specialize (IH o s Hp Hok Hn He). destruct (cleanup_loop sha256 c entries s) as [records s2].
    destruct IH as [M (l2 & L2 & C2 & F2 & N2 & R2)]. rewrite (N2 eq_refl) in *.
    split; [cbn; by rewrite M|]. exists []. conjs; try done.
Qed.
End Chain.
End Logging.

(** * What a run promises *)

Section Spec.
Context {T : Type} `{PO : PolicyTargetOk T} {R : RunEnv T} {RO : RunEnvOk T R}.
Context (sha256 : bytes -> bytes).

(** ** Preparation *)

(** The snapshots an ownership map stands for. *)
Definition snapshots_of (owned : Owned) : Ownership :=
  (fun e => {| ts_generation := ow_last_owned_generation e; ts_plan := ow_initial_plan e |}) <$> owned.

Definition start_state {S} (t : Logged T) (owned : Owned) (sink : S) (k : nat) : RunState (Logged T) S :=
  {| rs_target := t; rs_owned := owned; rs_sink := sink; rs_tick := k |}.

Lemma snapshots_of_owns {S} `{K : EventSink S} owned (t : Logged T) (sink : S) k :
  (forall k e, owned !! k = Some e -> key_of (ow_resource e) = k) ->
  past (snapshots_of owned) t -> owns (snapshots_of owned) (start_state t owned sink k).
Proof.
  intros Hk Hp. split; [|done|done]. cbn. unfold snapshots_of. by rewrite <- map_fmap_compose.
Qed.

(** The invariant of the preparation loop. *)
Record preparing (owned : Owned) (t0 t : Logged T) : Prop := {
  pp_ok : pt_ok t;
  pp_between : run_between t0 t;
  pp_keys : forall k e, owned !! k = Some e -> key_of (ow_resource e) = k;
  pp_past : past (snapshots_of owned) t
}.

Lemma prepare_loop_spec caps events owned k t0 t res k' t' : preparing owned t0 t ->
  prepare_loop caps events owned k t = (res, k', t') ->
  pt_ok t' /\ run_between t0 t'
  /\ match res with
     | Err _ => True
     | Ok owned' => preparing owned' t0 t'
         /\ (forall r, covers owned r -> covers owned' r)
         /\ Forall (fun e => covers owned' (event_resource e)) events
         /\ (forall r, covers owned' r -> covers owned r \/ Exists (fun e => event_resource e = r) events)
     end.
Proof.
  revert owned k t; induction events as [|event events IH]; intros owned k t Hp; cbn [prepare_loop].
  { intros [= <- <- <-]. destruct Hp. conjs; try done. auto. }
  fold (event_resource event). fold (key_of (event_resource event)).
  destruct (owned !! key_of (event_resource event)) as [entry|] eqn:Eo.
  - intros Hr. destruct (IH _ _ _ Hp Hr) as (A & B & C). conjs; [done|done|].
    destruct res as [owned'|]; [|done]. destruct C as (C1 & C2 & C3 & C4). conjs; [done|done| |].
    + constructor; [|done]. apply C2. by exists entry.
    + intros r Hc. destruct (C4 r Hc); [by left|right; by constructor].
  - destruct (check_capability caps (event_resource event)) as [[]|e].
    2: { intros [= <- <- <-]. by destruct Hp. }
    pose proof (run_others_between (T := Logged T) k t (pp_ok _ _ _ Hp)) as Hb.
    pose proof (run_between_evolves _ _ Hb) as He.
    pose proof (pt_evolves_ok _ _ He (pp_ok _ _ _ Hp)) as Hok.
    destruct (pt_snapshot (run_others k t) (event_resource event)) as [snap|e] eqn:Es.
    2: { intros [= <- <- <-]. conjs; [done| |done]. etrans; [apply Hp|exact Hb]. }
    intros Hr. apply IH in Hr as (A & B & C).
    + conjs; [done|done|]. destruct res as [owned'|]; [|done]. destruct C as (C1 & C2 & C3 & C4).
      assert (Up : forall r, covers owned r -> covers (<[key_of (event_resource event) :=
        {| ow_resource := event_resource event; ow_last_owned_generation := ts_generation snap;
           ow_initial_plan := ts_plan snap |}]> owned) r).
      { intros r Hc. unfold covers in *. rewrite lookup_insert_is_Some'. by right. }
      conjs; [done|intros r Hc; by apply C2, Up| |].
      * constructor; [|done]. apply C2. unfold covers. rewrite lookup_insert_is_Some'. by left.
      * intros r Hc. destruct (C4 r Hc) as [H|H]; [|right; by constructor].
        unfold covers in H. rewrite lookup_insert_is_Some' in H. destruct H as [H|H]; [|by left].
        right. constructor. by apply key_of_inj.
    + split; [done|etrans; [apply Hp|exact Hb]| |].
      * intros j e. rewrite lookup_insert_Some. intros [[<- <-]|[_ Hl]]; [done|by apply Hp].
      * intros r s. unfold snapshots_of. rewrite fmap_insert, lookup_insert_Some. intros [[E <-]|[N Hl]].
        -- apply key_of_inj in E as <-. exists (run_others k t). conjs; [done| |reflexivity].
           rewrite Es. by destruct snap.
        -- eapply past_evolves; [apply Hp|exact He|exact Hl].
Qed.

Lemma prepare_initial_spec (c : CompiledScenarioV2) k (t : Logged T) owned k' t' : pt_ok t ->
  prepare_initial c k t = (Ok owned, k', t') ->
  preparing owned t t' /\ Forall (fun e => covers owned (event_resource e)) (cp_events c).
Proof.
  intros Hok Hp. unfold prepare_initial in Hp. apply (prepare_loop_spec _ _ _ _ t) in Hp as (_ & _ & C & _ & D & _).
  - done.
  - split; [done|reflexivity|done|]. intros r s. unfold snapshots_of. by rewrite fmap_empty, lookup_empty.
Qed.

(** ** The contract *)

Lemma owned_entries_keys (owned : Owned) : (forall k e, owned !! k = Some e -> key_of (ow_resource e) = k) ->
  NoDup (entry_keys (owned_entries owned)) /\ forall e, e ∈ owned_entries owned <-> owned !! key_of (ow_resource e) = Some e.
Proof.
  intros Hk. pose proof (merge_sort_Permutation key_le (map_to_list owned)) as HP.
  assert (E : entry_keys (owned_entries owned) = map fst (merge_sort key_le (map_to_list owned))).
  { unfold entry_keys, owned_entries. rewrite map_map. apply map_ext_in. intros [k e] Hin. cbn.
    apply Hk. apply list_elem_of_In in Hin. rewrite HP in Hin. by apply elem_of_map_to_list. }
  split.
  - rewrite E, (Permutation_map fst HP). apply NoDup_fst_map_to_list.
  - intros e. unfold owned_entries. rewrite list_elem_of_In, in_map_iff. setoid_rewrite <- list_elem_of_In. split.
    + intros ([k e'] & <- & Hin). rewrite HP in Hin. apply elem_of_map_to_list in Hin. cbn in *. by rewrite (Hk _ _ Hin).
    + intros H. exists (key_of (ow_resource e), e). split; [done|]. rewrite HP. by apply elem_of_map_to_list.
Qed.

Lemma own_after_same_entry o l k : (forall p, p ∈ l -> key_of (pb_resource p) <> k) -> own_after o l !! k = o !! k.
Proof.
  revert o; induction l as [|p l IH]; intros o H; cbn; [done|].
  fold (own_after (<[key_of (pb_resource p) := pb_stored p]> o) l).
  rewrite IH by (intros q Hq; by apply H, list_elem_of_further).
  apply lookup_insert_ne, H, list_elem_of_here.
Qed.

(** C18: a run overwrites nobody.  Wrap any target that keeps the publication
    contract so that it remembers what each publication replaced, and let
    others publish on it at any step.  A run prepared on it publishes first for
    events, one publication per applied event, in tape order and each exactly
    what its event says (a removal edits the very plan it replaces); in strict
    mode each replaces exactly the plan and generation the run itself last put
    there or found at preparation.  Then, in either mode, the cleanup puts initial
    plans back, over nothing but the run's own last plans, and not at all under
    [Leave]. *)
Theorem schedule_runs_replace_only_their_own {S : Type} `{K : EventSink S} (c : CompiledScenarioV2)
    (fingerprint : bytes) (epoch : Instant) (k : nat) (t : Logged T) (owned : Owned) (k' : nat) (t' : Logged T)
    (sink : S) (outcome : DriveOutcome) (s' : RunState (Logged T) S)
    (Hok : pt_ok t) (Hprep : prepare_initial c k t = (Ok owned, k', t'))
    (Hrun : drive sha256 c fingerprint epoch (start_state t' owned sink k') = Some (outcome, s')) :
  exists run restored,
    lg_log (rs_target s') = lg_log t ++ run ++ restored
    /\ Forall2 carries_out (take (length run) (cp_events c)) run
    /\ do_applied outcome <= zlen run <= do_applied outcome + 1
    /\ (cp_isolation c = Strict -> chained (snapshots_of owned) run)
    /\ chained (own_after (snapshots_of owned) run) restored
    /\ Forall (fun p => exists e, owned !! key_of (pb_resource p) = Some e
                  /\ ts_plan (pb_stored p) = ow_initial_plan e) restored
    /\ (cp_cleanup c = Leave -> restored = []).
Proof.
  destruct (prepare_initial_spec _ _ _ _ _ _ Hok Hprep) as [[Hok' [_ Hlog] Hkeys Hpast] Hcov].
  pose proof (snapshots_of_owns owned t' sink k' Hkeys Hpast) as Ho.
  unfold drive in Hrun. destruct (drive_loop c fingerprint epoch (cp_events c) 0 (start_state t' owned sink k')) as [e|] eqn:Ed;
    [|discriminate].
  destruct (drive_loop_stretch c fingerprint epoch (cp_events c) 0 _ (start_state t' owned sink k') e Ho Hok' Hcov Ed)
    as (run & [L C O K2 [_ Same]] & F & N).
  unfold run_cleanup in Hrun.
  destruct (owned_entries_keys (rs_owned (le_state e)) (ws_keys _ _ O)) as [Hn He].
  pose proof (cleanup_loop_spec sha256 c (own_after (snapshots_of owned) run) (le_state e)
    (owned_entries (rs_owned (le_state e))) (ws_past _ _ O) K2 Hn) as Hc.
  destruct (cleanup_loop sha256 c (owned_entries (rs_owned (le_state e))) (le_state e)) as [records s2].
  injection Hrun as <- <-. destruct Hc as [_ (restored & L2 & C2 & F2 & N2 & _)].
  { apply Forall_forall. intros x Hx. apply He in Hx. pose proof (ws_generation _ _ O) as Hg.
    apply (f_equal (lookup (key_of (ow_resource x)))) in Hg. rewrite !lookup_fmap, Hx in Hg. cbn in Hg.
    destruct (own_after (snapshots_of owned) run !! key_of (ow_resource x)) as [snap|]; [|done].
    injection Hg as Hg. by exists snap. }
  exists run, restored. conjs; try done.
  - cbn [rs_target start_state] in L. by rewrite L2, L, Hlog, <- app_assoc.
  - cbn [do_applied]. lia.
  - cbn [do_applied]. lia.
  - intros Hst. apply C. unfold is_strict. by rewrite Hst.
  - eapply Forall_impl; [exact F2|]. intros p (x & Hx & Er & Ei). apply He in Hx.
    destruct (Same _ _ Hx) as (e0 & H0 & _ & Hi). exists e0. rewrite Er, Ei, Hi. by split.
Qed.

(** The cleanup writes one record per entry and touches only the target. *)
Lemma cleanup_keeps {S : Type} `{K : EventSink S} c entries (x : RunState T S) :
  rs_sink (cleanup_loop sha256 c entries x).2 = rs_sink x
  /\ rs_owned (cleanup_loop sha256 c entries x).2 = rs_owned x
  /\ length (cleanup_loop sha256 c entries x).1 = length entries.
Proof.
  revert x; induction entries as [|entry entries IH]; intros x; cbn [cleanup_loop]; [done|].
  assert (One : rs_sink (cleanup_one sha256 c entry x).2 = rs_sink x
              /\ rs_owned (cleanup_one sha256 c entry x).2 = rs_owned x).
  { unfold cleanup_one, restore_target, call_generation, call_publish, target_call.
    destruct (cp_cleanup c); [|done].
    destruct (pt_current_generation _ _) as [g|]; [|done]. destruct (g =? _); [|done]. cbn [negb rs_tick rs_target].
    destruct (pt_publish _ _ _ _ _) as [[] ?]; done. }
  destruct (cleanup_one sha256 c entry x) as [r1 x1]. specialize (IH x1). cbn [snd] in One.
  destruct (cleanup_loop sha256 c entries x1) as [r2 x2]. cbn in *. intuition congruence.
Qed.

(** C22: events are on time.  Whatever the target and the other publishers do, a
    run records exactly the events it applied, a prefix of the tape in order,
    each at its deadline or later with the lateness it reports; a run that
    neither failed nor was cancelled has recorded the whole tape. *)
Theorem schedule_runs_are_on_time (c : CompiledScenarioV2) (fingerprint : bytes) (epoch : Instant)
    (s : RunState T (list ScheduleEventResult)) (outcome : DriveOutcome) (s' : RunState T (list ScheduleEventResult))
    (Hok : pt_ok (rs_target s)) (Ht : tape_offsets_ok (cp_events c)) (Hs : rs_sink s = [])
    (Hrun : drive sha256 c fingerprint epoch s = Some (outcome, s')) :
  Forall2 on_time (take (length (rs_sink s')) (cp_events c)) (rs_sink s')
  /\ do_applied outcome = zlen (rs_sink s')
  /\ (do_status outcome = RunCompleted -> length (rs_sink s') = length (cp_events c))
  /\ (do_status outcome = RunFailed <-> do_failure outcome <> None).
Proof.
  unfold drive in Hrun. destruct (drive_loop c fingerprint epoch (cp_events c) 0 s) as [e|] eqn:Ed; [|discriminate].
  destruct (drive_loop_report _ _ _ _ _ _ _ Hok Ht Ed) as [_ _ (rs & E & F & N & L) Hcan].
  rewrite Hs in E. cbn [app] in E.
  pose proof cleanup_keeps as Keep.
  unfold run_cleanup in Hrun. specialize (Keep c (owned_entries (rs_owned (le_state e))) (le_state e)).
  destruct (cleanup_loop sha256 c _ _) as [records s2]. destruct Keep as (Keep & _). cbn [snd] in Keep.
  injection Hrun as <- <-. rewrite Keep, E. cbn [do_applied do_status do_failure]. conjs; [done|lia| |].
  - unfold run_status. destruct (le_cancelled e); [done|]. destruct (le_failure e); [done|]. auto.
  - unfold run_status. destruct (le_cancelled e) eqn:Ec; [by rewrite Hcan|]. by destruct (le_failure e).
Qed.

(** C26: a run ends.  Calls of the target return, and every sleep with a
    deadline the clock can reach fires unless a cancellation comes first.  If
    every deadline [epoch + offset] is within the range of the clock, the
    driver reaches an outcome, with one cleanup record per resource it owns,
    whatever the target answers, the other publishers do and the token does.
    A run without an outcome waits at an event whose deadline is beyond that
    range, and nobody cancels; and no run completes past such an event. *)
Theorem schedule_runs_end {S : Type} `{K : EventSink S} (c : CompiledScenarioV2) (fingerprint : bytes)
    (epoch : Instant) (s : RunState T S) (Ht : timers_fire) :
  (Forall (within_range epoch) (cp_events c) -> exists outcome s', drive sha256 c fingerprint epoch s = Some (outcome, s')
    /\ do_status outcome ∈ [RunCompleted; RunFailed; RunCancelled]
    /\ length (co_resources (do_cleanup outcome)) = size (rs_owned s'))
  /\ (drive sha256 c fingerprint epoch s = None -> exists before event after k,
        cp_events c = before ++ event :: after /\ Forall (within_range epoch) before
        /\ INSTANT_MAX < epoch + ce_offset_ns event /\ run_cancel_ever k = false)
  /\ (forall outcome s', drive sha256 c fingerprint epoch s = Some (outcome, s') -> do_status outcome = RunCompleted ->
        Forall (within_range epoch) (cp_events c)).
Proof.
  pose proof (drive_loop_stops c fingerprint epoch (cp_events c) 0 s Ht) as Stops.
  pose proof (drive_loop_ends c fingerprint epoch (cp_events c) 0 s Ht) as Ends. unfold drive.
  destruct (drive_loop c fingerprint epoch (cp_events c) 0 s) as [e|].
  2:{ split_and!; [intros H; by destruct (Ends H)|done|done]. }
  unfold run_cleanup. pose proof (cleanup_keeps c (owned_entries (rs_owned (le_state e))) (le_state e)) as (_ & Ko & Kl).
  destruct (cleanup_loop sha256 c _ _) as [records s2]. cbn [fst snd] in *. split_and!; [|done|].
  - intros _. do 2 eexists. split; [reflexivity|]. split.
    + cbn. unfold run_status. destruct (le_cancelled e), (le_failure e); cbn; set_solver.
    + cbn. rewrite Kl, Ko. unfold owned_entries. rewrite length_map, (Permutation_length (merge_sort_Permutation _ _)).
      apply length_map_to_list.
  - intros outcome s' [= <- <-]. cbn. unfold run_status. destruct (le_cancelled e); [done|]. destruct (le_failure e); [done|]. auto.
Qed.
End Spec.
