(* ===== verification/Experiment.v ===== *)
(** * The shared epoch gate and the experiment lifecycle
      ([crates/eggchaos-experiment/src/gate.rs], [experiment.rs])

    One start instant, captured once and handed to everybody.  [OnceLock] is a
    cell that is written once.  [tokio::sync::Notify] is not part of the
    repository: only its documented contract is used, that [notify_waiters]
    wakes every [Notified] future created before the call, so such a future is
    the number of notifications at its creation.  Starters and waiters are
    threads whose atomic accesses interleave freely.

    Then source to compiled schedule, to a prepared experiment with its initial
    snapshots, to a run from a captured epoch with its evidence. *)

From stdpp Require Import base list relations gmap strings.
From S2P Require Import Prelude Rng Float64 Plan Policy Env DatagramPlan Schedule ScheduleProps Fingerprint FingerprintProps Target Driver DriverProps DriverRun.

Record EpochGate := { g_epoch : option Instant; g_notifications : nat }.

Definition gate_new : EpochGate := {| g_epoch := None; g_notifications := 0 |}.

(** [get_or_init(Instant::now)]. *)
Definition capture (now : Instant) (g : EpochGate) : Instant * EpochGate :=
  match g_epoch g with
  | Some epoch => (epoch, g)
  | None => (now, {| g_epoch := Some now; g_notifications := g_notifications g |})
  end.
Definition notify_waiters (g : EpochGate) : EpochGate :=
  {| g_epoch := g_epoch g; g_notifications := S (g_notifications g) |}.

(** [start], run without interruption, and [started]. *)
Definition gate_start (now : Instant) (g : EpochGate) : Instant * EpochGate :=
  let '(epoch, g) := capture now g in (epoch, notify_waiters g).
Definition gate_started (now : Instant) : EpochGate := (gate_start now gate_new).2.

(** [epoch] and [try_epoch]. *)
Definition try_epoch (g : EpochGate) : option Instant := g_epoch g.

(** ** Threads *)

Inductive GateThread :=
| StartCall                     (* [start]: before [get_or_init] *)
| StartNotify (epoch : Instant) (* before [notify_waiters] *)
| Started (epoch : Instant)
| AwaitCreate                   (* [await_epoch]: top of the loop *)
| AwaitCheck (seen : nat)       (* [notified] created, before [epoch.get()] *)
| AwaitWait (seen : nat)        (* in [notified.await] *)
| Awaited (epoch : Instant).

(** One atomic access; [now] is the clock if this step reads it. *)
Definition gate_step (now : Instant) (t : GateThread) (g : EpochGate) : GateThread * EpochGate :=
  match t with
  | StartCall => let '(epoch, g) := capture now g in (StartNotify epoch, g)
  | StartNotify epoch => (Started epoch, notify_waiters g)
  | AwaitCreate => (AwaitCheck (g_notifications g), g)
  | AwaitCheck seen => match g_epoch g with Some epoch => (Awaited epoch, g) | None => (AwaitWait seen, g) end
  | AwaitWait seen => (if Nat.ltb seen (g_notifications g) then AwaitCreate else t, g)
  | Started _ | Awaited _ => (t, g)
  end.

Record GateSystem := { gs_threads : list GateThread; gs_gate : EpochGate }.

Inductive gate_sys_step : GateSystem -> GateSystem -> Prop :=
| gate_sys_thread ts1 t ts2 g now :
    gate_sys_step {| gs_threads := ts1 ++ t :: ts2; gs_gate := g |}
                  {| gs_threads := ts1 ++ (gate_step now t g).1 :: ts2; gs_gate := (gate_step now t g).2 |}.

(** Any number of [start] and [await_epoch] calls on a new gate. *)
Definition gate_initial (starters waiters : nat) : GateSystem :=
  {| gs_threads := replicate starters StartCall ++ replicate waiters AwaitCreate; gs_gate := gate_new |}.

(** A thread that runs without interruption. *)
Fixpoint run_gate (n : nat) (now : Instant) (t : GateThread) (g : EpochGate) : GateThread :=
  match n with
  | O => t
  | S n' => let '(t, g) := gate_step now t g in run_gate n' now t g
  end.

(** ** Invariant *)

Definition gate_ok (g : EpochGate) : Prop := (0 < g_notifications g)%nat -> g_epoch g <> None.

(** What a thread knows.  Nobody goes to sleep after the first notification. *)
Definition gate_thread_ok (g : EpochGate) (t : GateThread) : Prop :=
  match t with
  | StartCall | AwaitCreate => True
  | StartNotify e | Awaited e => g_epoch g = Some e
  | Started e => g_epoch g = Some e /\ (0 < g_notifications g)%nat
  | AwaitCheck seen => (seen <= g_notifications g)%nat
  | AwaitWait seen => seen = 0%nat
  end.

Definition gate_sys_ok (s : GateSystem) : Prop :=
  gate_ok (gs_gate s) /\ Forall (gate_thread_ok (gs_gate s)) (gs_threads s).

Lemma gate_step_ok now t g : gate_ok g -> gate_thread_ok g t ->
  gate_ok (gate_step now t g).2 /\ gate_thread_ok (gate_step now t g).2 (gate_step now t g).1.
Proof.
  unfold gate_ok. intros Hg Ht. destruct t as [|e|e| |seen|seen|e]; cbn in *; try done.
  - unfold capture. destruct (g_epoch g) as [e|] eqn:E; cbn; [by rewrite E|done].
  - rewrite Ht. split; [done|]. split; [done|lia].
  - destruct (g_epoch g) as [e|] eqn:E; cbn; [by rewrite E|]. rewrite E. split; [done|].
    destruct (g_notifications g); [lia|]. by destruct Hg; [lia|].
  - by case_split.
Qed.

(** Nothing another thread knows is undone. *)
Lemma gate_step_keeps now t g u : gate_thread_ok g u -> gate_thread_ok (gate_step now t g).2 u.
Proof.
  assert (C : forall e, g_epoch g = Some e -> g_epoch (gate_step now t g).2 = Some e).
  { intros e E. destruct t; cbn; try done; [unfold capture; by rewrite E|by rewrite E]. }
  assert (N : (g_notifications g <= g_notifications (gate_step now t g).2)%nat).
  { destruct t; cbn; try lia; [unfold capture; destruct (g_epoch g); cbn; lia|destruct (g_epoch g); cbn; lia]. }
  destruct u as [|e|e| |seen|seen|e]; cbn [gate_thread_ok]; auto; [|lia].
  intros [E Hn]. split; [auto|lia].
Qed.

Lemma gate_sys_step_ok s s' : gate_sys_ok s -> gate_sys_step s s' -> gate_sys_ok s'.
Proof.
  intros [Hg Ht] Hs. destruct Hs as [ts1 t ts2 g now]; unfold gate_sys_ok; cbn [gs_threads gs_gate] in *.
  apply Forall_app in Ht as [H1 H2]. apply Forall_cons in H2 as [Htt H2].
  destruct (gate_step_ok now t g Hg Htt) as [Hg' Ht']. split; [done|].
  apply Forall_app_2; [|constructor; [done|]]; (eapply Forall_impl; [eassumption|]); intros u; apply gate_step_keeps.
Qed.

Lemma gate_reachable_ok n m s : rtc gate_sys_step (gate_initial n m) s -> gate_sys_ok s.
Proof.
  intros H. assert (I : gate_sys_ok (gate_initial n m)).
  { split; [intros Hn; cbn in Hn; lia|]. apply Forall_app_2; by apply Forall_replicate. }
  revert I. induction H; eauto using gate_sys_step_ok.
Qed.

(** C37: the gate releases everybody at one epoch.  However any number of [start]
    and [await_epoch] calls interleave, all that return report the one captured
    epoch, and once some [start] has returned every waiter, asleep or not,
    finishes with that epoch within three of its own steps: no wake-up is lost. *)
Theorem gate_releases_everyone (n m : nat) (s : GateSystem) (Hr : rtc gate_sys_step (gate_initial n m) s) :
  (forall t e, t ∈ gs_threads s -> t ∈ [StartNotify e; Started e; Awaited e] -> try_epoch (gs_gate s) = Some e)
  /\ forall e t now, Started e ∈ gs_threads s -> t ∈ gs_threads s ->
       match t with
       | AwaitCreate | AwaitCheck _ | AwaitWait _ => run_gate 3 now t (gs_gate s) = Awaited e
       | Awaited e' => e' = e
       | _ => True
       end.
Proof.
  destruct (gate_reachable_ok n m s Hr) as [_ Ht]. rewrite Forall_forall in Ht. unfold try_epoch. split.
  - intros t e Hin. specialize (Ht t Hin). rewrite !elem_of_cons, elem_of_nil.
    intros [->|[->|[->|[]]]]; [exact Ht|exact (proj1 Ht)|exact Ht].
  - intros e t now Hs Hin. destruct (Ht _ Hs) as [He Hn]. specialize (Ht t Hin).
    destruct t as [|e'|e'| |seen|seen|e']; cbn [gate_thread_ok] in Ht; try done.
    + cbn. by rewrite He.
    + cbn. by rewrite He.
    + subst seen. cbn. destruct (g_notifications (gs_gate s)); [lia|]. cbn. by rewrite He.
    + congruence.
Qed.

(** ** Witness: a waiter asleep before the start *)

Definition gate_demo : GateSystem :=
  {| gs_threads := [Started 7; AwaitWait 0]; gs_gate := {| g_epoch := Some 7; g_notifications := 1 |} |}.

Lemma gate_demo_reachable : rtc gate_sys_step (gate_initial 1 1) gate_demo.
Proof.
  eapply rtc_l; [apply (gate_sys_thread [StartCall] AwaitCreate [] _ 0)|].
  eapply rtc_l; [apply (gate_sys_thread [StartCall] (AwaitCheck 0) [] _ 0)|].
  eapply rtc_l; [apply (gate_sys_thread [] StartCall [AwaitWait 0] _ 7)|].
  eapply rtc_l; [apply (gate_sys_thread [] (StartNotify 7) [AwaitWait 0] _ 0)|]. apply rtc_refl.
Qed.

Lemma gate_releases_everyone_witness : run_gate 3 9 (AwaitWait 0) (gs_gate gate_demo) = Awaited 7.
Proof.
  destruct (gate_releases_everyone 1 1 gate_demo gate_demo_reachable) as [_ H].
  apply (H 7 (AwaitWait 0) 9); cbn; set_solver.
Defined.

(** * The experiment lifecycle *)

Definition MAX_EXPERIMENT_IDENTITY_BYTES : Z := 128.

Inductive ExperimentError :=
| ScheduleErr (e : ScheduleError)
| TargetErr (e : TargetError)
| IdentityTooLong.

Record ExperimentEvidence := {
  ev_compiler_semantics_version : Z;
  ev_schedule_fingerprint : string;
  ev_seed : Z;
  ev_execution_key : Z;
  ev_integration_id : string;
  ev_applied : Z;
  ev_status : ScheduleRunStatus;
  ev_failure : option string;
  ev_cleanup : CleanupOutcome
}.

Record ExperimentOutcome := {
  eo_status : ScheduleRunStatus;
  eo_failure : option string;
  eo_cleanup : CleanupOutcome;
  eo_applied : Z;
  eo_evidence : ExperimentEvidence
}.

Record PreparedExperiment (T : Type) := {
  pe_target : T;
  pe_compiled : CompiledScenarioV2;
  pe_fingerprint : bytes;
  pe_initial : Owned;
  pe_integration_id : string
}.
Arguments pe_target {T}. Arguments pe_compiled {T}. Arguments pe_fingerprint {T}.
Arguments pe_initial {T}. Arguments pe_integration_id {T}.

Section Experiment.
Context {T S : Type} `{P : PolicyTarget T} `{R : RunEnv T} `{K : EventSink S}.
Context (sha256 : bytes -> bytes).

(** The step counter goes on where preparation left it. *)
Definition prepare_compiled (c : CompiledScenarioV2) (k : nat) (t : T)
    : result (PreparedExperiment T) ExperimentError * nat * T :=
  let fingerprint := compiled_fingerprint sha256 c in
  match prepare_initial c k t with
  | (Err error, k, t) => (Err (TargetErr error), k, t)
  | (Ok initial, k, t) =>
      (Ok {| pe_target := t; pe_compiled := c; pe_fingerprint := fingerprint; pe_initial := initial;
             pe_integration_id := EmptyString |}, k, t)
  end.

Definition prepare (source : ScenarioScheduleV2) (k : nat) (t : T)
    : result (PreparedExperiment T) ExperimentError * nat * T :=
  match compile_schedule source with
  | Err error => (Err (ScheduleErr error), k, t)
  | Ok c => prepare_compiled c k t
  end.

Definition with_integration_id (e : PreparedExperiment T) (id : string)
    : result (PreparedExperiment T) ExperimentError :=
  if MAX_EXPERIMENT_IDENTITY_BYTES <? str_len id then Err IdentityTooLong
  else Ok {| pe_target := pe_target e; pe_compiled := pe_compiled e; pe_fingerprint := pe_fingerprint e;
             pe_initial := pe_initial e; pe_integration_id := id |}.

Definition touched_resource_count (e : PreparedExperiment T) : Z := Z.of_nat (size (pe_initial e)).

(** [None]: the run waits for a cancellation that never comes. *)
Definition run_from_epoch (e : PreparedExperiment T) (epoch : Instant) (k : nat) (sink : S)
    : option (ExperimentOutcome * RunState T S) :=
  match drive sha256 (pe_compiled e) (pe_fingerprint e) epoch
          {| rs_target := pe_target e; rs_owned := pe_initial e; rs_sink := sink; rs_tick := k |} with
  | None => None
  | Some (outcome, s) =>
      let evidence := {|
        ev_compiler_semantics_version := cp_compiler_semantics_version (pe_compiled e);
        ev_schedule_fingerprint := fingerprint_hex (pe_fingerprint e);
        ev_seed := cp_seed (pe_compiled e);
        ev_execution_key := cp_execution_key (pe_compiled e);
        ev_integration_id := pe_integration_id e;
        ev_applied := do_applied outcome;
        ev_status := do_status outcome;
        ev_failure := do_failure outcome;
        ev_cleanup := do_cleanup outcome |} in
      Some ({| eo_status := do_status outcome; eo_failure := do_failure outcome; eo_cleanup := do_cleanup outcome;
               eo_applied := do_applied outcome; eo_evidence := evidence |}, s)
  end.

End Experiment.

(** ** Preparation *)

Section Preparation.
Context {T : Type} `{PO : PolicyTargetOk T} {R : RunEnv T} {RO : RunEnvOk T R}.
Context (sha256 : bytes -> bytes).

(** An entry was read from the target during preparation. *)
Definition snapshotted (t t' : Logged T) (entry : OwnedResource) : Prop :=
  exists t0 : Logged T, pt_evolves t0 t'
    /\ pt_snapshot t0 (ow_resource entry)
       = Ok {| ts_generation := ow_last_owned_generation entry; ts_plan := ow_initial_plan entry |}.

(** Preparation only reads.  Whatever the source, the target and the other
    publishers, preparing an experiment publishes nothing, compiles before it
    touches the target, and on success owns exactly the resources the compiled
    schedule touches, each under its own key with a snapshot the target had. *)
Theorem preparation_only_reads (source : ScenarioScheduleV2) (k : nat) (t : Logged T)
    (res : result (PreparedExperiment (Logged T)) ExperimentError) (k' : nat) (t' : Logged T)
    (Hok : pt_ok t) (Hp : prepare sha256 source k t = (res, k', t')) :
  lg_log t' = lg_log t
  /\ match res with
     | Err (ScheduleErr e) => compile_schedule source = Err e /\ t' = t
     | Err _ => True
     | Ok e =>
         compile_schedule source = Ok (pe_compiled e)
         /\ pe_fingerprint e = compiled_fingerprint sha256 (pe_compiled e)
         /\ (forall r, covers (pe_initial e) r <-> Exists (fun ev => event_resource ev = r) (cp_events (pe_compiled e)))
         /\ forall key entry, pe_initial e !! key = Some entry ->
              key = key_of (ow_resource entry) /\ snapshotted t t' entry
     end.
Proof.
  unfold prepare, prepare_compiled in Hp. destruct (compile_schedule source) as [c|e] eqn:Ec.
  2: { injection Hp as <- <- <-. done. }
  destruct (prepare_initial c k t) as [[r k1] t1] eqn:Ep.
  assert (I : preparing ∅ t t).
  { split; [done|reflexivity|done|]. intros r0 s. unfold snapshots_of. by rewrite fmap_empty, lookup_empty. }
  apply (prepare_loop_spec _ _ _ _ t _ _ _ _ I) in Ep as (_ & [_ Hl] & H).
  destruct r as [owned|e]; injection Hp as <- <- <-; (split; [exact Hl|]); [|done]. cbn.
  destruct H as ([_ _ Hk Hpast] & _ & Hc & Hex). conjs; [done|done| |].
  - intros r. split.
    + intros Hr. destruct (Hex r Hr) as [[? H]|H]; [by rewrite lookup_empty in H|done].
    + intros Hr. apply Exists_exists in Hr as (ev & Hin & <-). rewrite Forall_forall in Hc. by apply Hc.
  - intros key entry He. pose proof (Hk _ _ He) as <-. split; [done|].
    destruct (Hpast (ow_resource entry) {| ts_generation := ow_last_owned_generation entry;
      ts_plan := ow_initial_plan entry |}) as (t0 & _ & A & B); [|by exists t0].
    unfold snapshots_of. by rewrite lookup_fmap, He.
Qed.
End Preparation.

(** * At concrete inputs *)

(** ** SHA-256 *)

Definition w32 (x : Z) : Z := x mod 4294967296.
Definition rotr32 (x n : Z) : Z := Z.lor (Z.shiftr x n) (w32 (Z.shiftl x (32 - n))).
(** The constants of the standard are the first 32 bits of the fractional parts
    of the cube and square roots of the first primes. *)
Fixpoint cube_root_bits (n : nat) (root x : Z) : Z :=
  match n with
  | O => root
  | S n' =>
      let trial := root + Z.shiftl 1 (Z.of_nat n') in
      cube_root_bits n' (if trial * trial * trial <=? x then trial else root) x
  end.
Definition is_prime_nat (n : nat) : bool := forallb (fun d => negb (Nat.eqb (Nat.modulo n d) 0)) (seq 2 (n - 2)).
Definition first_primes : list Z := map Z.of_nat (List.filter is_prime_nat (seq 2 310)).
Definition sha_k : list Z :=
  Eval vm_compute in map (fun p => w32 (cube_root_bits 40 0 (Z.shiftl p 96))) first_primes.
Definition sha_h0 : list Z :=
  Eval vm_compute in map (fun p => w32 (Z.sqrt (Z.shiftl p 64))) (take 8 first_primes).

Definition be_word (bs : bytes) : Z := foldl (fun a b => a * 256 + b) 0 bs.
Fixpoint be_words (n : nat) (bs : bytes) : list Z :=
  match n with O => [] | S n' => be_word (take 4 bs) :: be_words n' (drop 4 bs) end.

(** The message schedule, most recent word first. *)
Fixpoint sha_extend (n : nat) (w : list Z) : list Z :=
  match n with
  | O => w
  | S n' =>
      let x15 := nth 14 w 0 in
      let x2 := nth 1 w 0 in
      let s0 := Z.lxor (Z.lxor (rotr32 x15 7) (rotr32 x15 18)) (Z.shiftr x15 3) in
      let s1 := Z.lxor (Z.lxor (rotr32 x2 17) (rotr32 x2 19)) (Z.shiftr x2 10) in
      sha_extend n' (w32 (nth 15 w 0 + s0 + nth 6 w 0 + s1) :: w)
  end.

Definition sha_round (h : list Z) (kw : Z * Z) : list Z :=
  match h with
  | [a; b; c; d; e; f; g; hh] =>
      let s1 := Z.lxor (Z.lxor (rotr32 e 6) (rotr32 e 11)) (rotr32 e 25) in
      let ch := Z.lxor (Z.land e f) (Z.land (4294967295 - e) g) in
      let t1 := w32 (hh + s1 + ch + kw.1 + kw.2) in
      let s0 := Z.lxor (Z.lxor (rotr32 a 2) (rotr32 a 13)) (rotr32 a 22) in
      let maj := Z.lxor (Z.lxor (Z.land a b) (Z.land a c)) (Z.land b c) in
      [w32 (t1 + w32 (s0 + maj)); a; b; c; w32 (d + t1); e; f; g]
  | _ => h
  end.

Definition sha_block (h : list Z) (block : bytes) : list Z :=
  let w := rev (sha_extend 48 (rev (be_words 16 block))) in
  zip_with (fun x y => w32 (x + y)) h (foldl sha_round h (zip sha_k w)).

Definition sha_pad (m : bytes) : bytes :=
  let n := zlen m in
  m ++ [128] ++ replicate (Z.to_nat ((55 - n) mod 64)) 0
    ++ map (fun s => Z.shiftr (n * 8) s mod 256) [56; 48; 40; 32; 24; 16; 8; 0].

Fixpoint sha_blocks (n : nat) (h : list Z) (m : bytes) : list Z :=
  match n with O => h | S n' => sha_blocks n' (sha_block h (take 64 m)) (drop 64 m) end.

Definition sha256 (m : bytes) : bytes :=
  let p := sha_pad m in
  concat (map (fun x => map (fun s => Z.shiftr x s mod 256) [24; 16; 8; 0])
             (sha_blocks (Z.to_nat (zlen p / 64)) sha_h0 p)).

Example sha256_abc :
  fingerprint_hex (sha256 (as_bytes "abc")) = "ba7816bf8f01cfea414140de5dae2223b00361a396177a9cb410ff61f20015ad"%string.
Proof. vm_compute. reflexivity. Qed.

(** ** The golden corpus *)

Definition corpus_delay : FaultSpec := {|
  fs_id := "delay"; fs_probability := f64_one;
  fs_kind := Latency {| lat_delay := 5000000; lat_jitter := 0; lat_max_buffer_bytes := 1024 |} |}.

(** [repeat.json] and [mixed_phases.json]. *)
Definition corpus_repeat : ScenarioScheduleV2 := {|
  src_version := 2; src_seed := 1; src_execution_key := 1; src_isolation := Strict; src_cleanup := RestoreInitial;
  src_phases := [demo_phase None 100 [SetPlan "cache" Downstream [corpus_delay]]];
  src_repeat := Some {| rp_count := 3; rp_phases :=
    [demo_phase (Some "hold"%string) 200 [RemoveFault "cache" Downstream "delay"];
     demo_phase (Some "release"%string) 300 [SetPlan "cache" Downstream [corpus_delay]]] |} |}.
Definition corpus_mixed : ScenarioScheduleV2 := {|
  src_version := 2; src_seed := 7; src_execution_key := 11; src_isolation := Strict; src_cleanup := RestoreInitial;
  src_phases := [demo_phase None 1000000000 [SetPlan "cache" Downstream [corpus_delay]];
                 demo_phase None 500000000 [SetDatagramPlan "dns" Upstream [datagram_loss "loss" half]]];
  src_repeat := None |}.

Definition corpus_entry (s : ScenarioScheduleV2) : option (string * list Z * list Z) :=
  match compile_schedule s with
  | Err _ => None
  | Ok c =>
      let fp := compiled_fingerprint sha256 c in
      Some (fingerprint_hex fp, map ce_offset_ns (cp_events c),
            map (fun e => event_namespace c fp (ce_compiled_index e)) (cp_events c))
  end.

Example golden_repeat : corpus_entry corpus_repeat =
  Some ("971b11fe544ebf9d357a2405221c87d86bdff7c99c31bb2f78ee3eac415ae218"%string,
        [0; 100; 300; 600; 800; 1100; 1300],
        [4132239789243883762; 16628800979794889395; 5380351215283828106; 8947372655211315871;
         17540541113500500571; 3787128798715580745; 6376060374847840927]).
Proof. vm_compute. reflexivity. Qed.
Example golden_mixed : corpus_entry corpus_mixed =
  Some ("dbbba6bdf21bf7d4fdb99eb88f2dff6f3ffa9f4b18da1e0f6d6803e69bf4d423"%string,
        [0; 1000000000], [4223970527764934551; 1163957107556411587]).
Proof. vm_compute. reflexivity. Qed.

(** ** A paced environment *)

(** Ten nanoseconds per step, timers that fire on time, nobody cancels, and
    optionally another publisher at one step. *)
Definition paced_env (meddle : nat -> StreamPolicyTarget -> StreamPolicyTarget) : RunEnv StreamPolicyTarget := {|
  run_now k := 10 * Z.of_nat k;
  run_cancelled _ := false;
  run_cancel_ever _ := false;
  run_woken k d := Some (Nat.max k (Z.to_nat (d / 10 + 1)), true);
  run_others := meddle
|}.

Lemma paced_env_ok meddle (H : forall k t, stream_target_ok t -> stream_evolves t (meddle k t)) :
  RunEnvOk StreamPolicyTarget (paced_env meddle).
Proof.
  refine {| run_between := stream_evolves |}; cbn; try done.
  - intros; lia.
  - intros k d j [= <-]. split; [lia|]. pose proof (Z.div_mod d 10 ltac:(lia)). pose proof (Z.mod_pos_bound d 10 ltac:(lia)). lia.
Qed.

Definition web (d : Direction) : ScheduleResource :=
  {| rs_proxy := "web"; rs_direction := d; rs_transport := StreamTransport |}.

(** Nobody else, and a publisher that clears the downstream plan at one step. *)
Definition alone (_ : nat) (t : StreamPolicyTarget) : StreamPolicyTarget := t.
Definition meddler (at_step : nat) (k : nat) (t : StreamPolicyTarget) : StreamPolicyTarget :=
  if Nat.eqb k at_step then
    match stream_current_generation t (web Downstream) with
    | Ok g => (stream_publish t (web Downstream) g (StreamPlan plan_empty) 0).2
    | Err _ => t
    end
  else t.

Lemma alone_ok k t : stream_target_ok t -> stream_evolves t (alone k t).
Proof. reflexivity. Qed.
Lemma meddler_ok n k t : stream_target_ok t -> stream_evolves t (meddler n k t).
Proof.
  intros Ht. unfold meddler. destruct (Nat.eqb k n); [|done].
  destruct (stream_current_generation t (web Downstream)) as [g|]; [|done].
  destruct (stream_publish t (web Downstream) g (StreamPlan plan_empty) 0) as [[rc|e] t'] eqn:E; cbn [snd].
  - by destruct (pt_publish_ok (PolicyTargetOk := StreamPolicyTarget_ok) t _ _ _ _ rc t' Ht E) as (_ & _ & _ & He).
  - pose proof (pt_publish_err (PolicyTargetOk := StreamPolicyTarget_ok) t _ _ _ _ e t' Ht E) as ->. done.
Qed.

Definition demo_cell_of (p : FaultPlan) : Policy.Stream.LivePolicy :=
  {| snapshots := [{| generation := 1; pub_plan := p; seed_namespace := 0 |}]; current := 0 |}.
Definition demo_target : StreamPolicyTarget := {|
  spt_cells := [demo_cell_of plan_empty; demo_cell_of plan_empty];
  spt_resources := {["web"%string := {| sr_upstream := 0; sr_downstream := 1 |}]};
  spt_global := 0 |}.
Definition logged_target : Logged StreamPolicyTarget := {| lg_target := demo_target; lg_log := [] |}.

Lemma demo_target_ok : stream_target_ok demo_target.
Proof.
  split.
  - assert (C : cell_ok plan_validate (demo_cell_of plan_empty)).
    { apply (cell_ok_new plan_validate plan_empty 0). reflexivity. }
    constructor; [exact C|]. constructor; [exact C|constructor].
  - intros name r. cbn. rewrite lookup_singleton_Some. intros [_ <-]. cbn. lia.
Qed.

Example demo_registered :
  stream_target_from_policies "web" (demo_cell_of plan_empty) (demo_cell_of plan_empty) = Ok demo_target.
Proof. vm_compute. reflexivity. Qed.

Definition demo_compiled : CompiledScenarioV2 := compiled_reference demo_source.

(** The runs do not depend on the digest, so a cheap hash serves them. *)
Definition demo_hash (b : bytes) : bytes := take 32 b.

(** Preparation, then the run from epoch 0. *)
Section Runs.
Context (meddle : nat -> StreamPolicyTarget -> StreamPolicyTarget).
#[local] Instance demo_env : RunEnv StreamPolicyTarget := paced_env meddle.

Definition demo_prepared := prepare_initial demo_compiled 0 logged_target.
Definition demo_owned : Owned := match demo_prepared.1.1 with Ok o => o | Err _ => ∅ end.
Definition demo_start : RunState (Logged StreamPolicyTarget) (list ScheduleEventResult) :=
  start_state demo_prepared.2 demo_owned [] demo_prepared.1.2.
Definition demo_run :=
  drive demo_hash demo_compiled (compiled_fingerprint demo_hash demo_compiled) 0 demo_start.
Definition demo_outcome : DriveOutcome :=
  match demo_run with Some (o, _) => o
  | None => {| do_status := RunPending; do_failure := None; do_cleanup := {| co_policy := Leave; co_resources := [] |};
               do_applied := 0 |} end.
Definition demo_final := match demo_run with Some (_, s) => s | None => demo_start end.
End Runs.

(** Undisturbed: seven events, two restorations. *)
Example undisturbed_run :
  do_status (demo_outcome alone) = RunCompleted /\ do_applied (demo_outcome alone) = 7
  /\ map cr_outcome (co_resources (do_cleanup (demo_outcome alone))) = [Restored; Restored]
  /\ length (lg_log (rs_target (demo_final alone))) = 9%nat
  /\ map (fun c => pub_plan <$> Policy.snapshot c) (spt_cells (lg_target (rs_target (demo_final alone))))
     = [Some plan_empty; Some plan_empty].
Proof. vm_compute. repeat split; reflexivity. Qed.

Example disturbed_run :
  do_status (demo_outcome (meddler 19)) = RunFailed
  /\ do_failure (demo_outcome (meddler 19))
     = Some "remove-fault publish failed: generation conflict: expected 2, found 3"%string.
Proof. vm_compute. split; reflexivity. Qed.

(** ** Witnesses *)

Lemma demo_run_meddled : demo_run (meddler 19) = Some (demo_outcome (meddler 19), demo_final (meddler 19)).
Proof. vm_compute. reflexivity. Qed.
Lemma demo_prepared_ok meddle :
  demo_prepared meddle = (Ok (demo_owned meddle), (demo_prepared meddle).1.2, (demo_prepared meddle).2)
  <-> is_ok (demo_prepared meddle).1.1 = true.
Proof. unfold demo_owned. destruct (demo_prepared meddle) as [[[o|e] k] t]; cbn; by split. Qed.

(** The meddler publishes between two steps: the run stops, keeps what it did,
    and its cleanup leaves the meddler's plan alone. *)
Lemma schedule_runs_replace_only_their_own_witness :
  map cr_outcome (co_resources (do_cleanup (demo_outcome (meddler 19)))) = [ConflictOutcome; Restored]
  /\ exists run restored, lg_log (rs_target (demo_final (meddler 19))) = [] ++ run ++ restored
       /\ length (run ++ restored) = 3%nat /\ 2 <= zlen run
       /\ chained (snapshots_of (demo_owned (meddler 19))) (run ++ restored).
Proof.
  split; [vm_compute; reflexivity|].
  pose proof (paced_env_ok (meddler 19) (meddler_ok 19)) as RO.
  destruct (schedule_runs_replace_only_their_own (R := paced_env (meddler 19)) (RO := RO) demo_hash
    demo_compiled (compiled_fingerprint demo_hash demo_compiled) 0 0 logged_target
    (demo_owned (meddler 19)) (demo_prepared (meddler 19)).1.2 (demo_prepared (meddler 19)).2 []
    (demo_outcome (meddler 19)) (demo_final (meddler 19)) demo_target_ok) as (run & restored & L & _ & N & C & D & _).
  - apply demo_prepared_ok. vm_compute. reflexivity.
  - exact demo_run_meddled.
  - exists run, restored. split; [exact L|].
    assert (E1 : length (run ++ restored) = 3%nat).
    { rewrite <- (app_nil_l (run ++ restored)). change (@nil Publication) with (lg_log logged_target). rewrite <- L.
      vm_compute. reflexivity. }
    split; [exact E1|]. split.
    + assert (E2 : do_applied (demo_outcome (meddler 19)) = 2) by (vm_compute; reflexivity). rewrite E2 in N. apply N.
    + apply chained_app. split; [by apply C|exact D].
Defined.

(** The same runs without the log, for the timing theorems. *)
#[local] Instance quiet_env : RunEnv StreamPolicyTarget := paced_env alone.
Definition plain_start : RunState StreamPolicyTarget (list ScheduleEventResult) :=
  {| rs_target := demo_target; rs_owned := demo_owned alone; rs_sink := []; rs_tick := 2 |}.
Definition plain_run := drive demo_hash demo_compiled (compiled_fingerprint demo_hash demo_compiled) 0 plain_start.
Definition plain_outcome : DriveOutcome := match plain_run with Some (o, _) => o | None => demo_outcome alone end.
Definition plain_final := match plain_run with Some (_, s) => s | None => plain_start end.

Example plain_timing :
  map (fun x => (er_scheduled_offset_ns x, er_applied_elapsed_ns x, er_late_by_ns x)) (rs_sink plain_final)
  = [(0, 40, 40); (100, 120, 20); (100, 170, 70); (150, 230, 80); (150, 280, 130); (150, 330, 180); (200, 390, 190)].
Proof. vm_compute. reflexivity. Qed.

Lemma schedule_runs_are_on_time_witness :
  Forall2 on_time (take (length (rs_sink plain_final)) (cp_events demo_compiled)) (rs_sink plain_final)
  /\ length (rs_sink plain_final) = length (cp_events demo_compiled).
Proof.
  pose proof (paced_env_ok alone alone_ok) as RO.
  assert (E : plain_run = Some (plain_outcome, plain_final)) by (vm_compute; reflexivity).
  assert (O : tape_offsets_ok (cp_events demo_compiled)) by (refine (bool_decide_unpack _ _); vm_compute; exact I).
  destruct (schedule_runs_are_on_time (RO := RO) demo_hash demo_compiled
    (compiled_fingerprint demo_hash demo_compiled) 0 plain_start plain_outcome plain_final demo_target_ok O
    eq_refl E) as (F & _ & C & _).
  split; [exact F|]. apply C. vm_compute. reflexivity.
Defined.

Lemma schedule_runs_end_witness : exists outcome s', plain_run = Some (outcome, s')
  /\ do_status outcome ∈ [RunCompleted; RunFailed; RunCancelled].
Proof.
  assert (D : Forall (fun e => 0 + ce_offset_ns e <= INSTANT_MAX) (cp_events demo_compiled))
    by (refine (bool_decide_unpack _ _); vm_compute; exact I).
  assert (Fire : @timers_fire StreamPolicyTarget quiet_env) by (intros k d _; discriminate).
  destruct (schedule_runs_end demo_hash demo_compiled (compiled_fingerprint demo_hash demo_compiled) 0 plain_start Fire)
    as (Ends & _ & _).
  destruct (Ends D) as (outcome & s' & E & S & _). exists outcome, s'. split; [exact E|exact S].
Defined.

Definition prepared_demo := prepare demo_hash demo_source 0 logged_target.
Lemma preparation_only_reads_witness :
  lg_log prepared_demo.2 = [] /\ is_ok prepared_demo.1.1 = true.
Proof.
  pose proof (paced_env_ok alone alone_ok) as RO. split; [|vm_compute; reflexivity].
  destruct prepared_demo as [[res k'] t'] eqn:E.
  destruct (preparation_only_reads (RO := RO) demo_hash demo_source 0 logged_target res k' t' demo_target_ok E)
    as [L _]. exact L.
Defined.
