(* ===== verification/Wire.v ===== *)
(** * Wire documents of the native API
      ([crates/eggchaos-protocol/src/stream.rs])

    The versioned request, patch and response documents of the [/v1] API, their
    validation, and their conversions from and to the plan types.  A document
    is the Rust value serde builds: missing fields have their defaults, unknown
    ones were refused.  The error type of every conversion is [String]. *)

From Stdlib Require Import Bool SpecFloat.
From stdpp Require Import base list gmap strings.
From S2P Require Import Prelude Rng Float64 Plan DatagramPlan Schedule.

(** ** Constants and defaults *)

Definition NATIVE_DEFAULT_BUFFER_BYTES : Z := 64 * 1024.
Definition NATIVE_DEFAULT_PROXY_TIMEOUT_MS : Z := 5000.
Definition NATIVE_DEFAULT_BANDWIDTH_BYTES_PER_SECOND : Z := 1.
Definition NATIVE_DEFAULT_BANDWIDTH_BURST_BYTES : Z := 64 * 1024.
Definition NATIVE_DEFAULT_LIMIT_BYTES : Z := 1.
Definition NATIVE_DEFAULT_SLICE_AVERAGE_SIZE : Z := 1024.
Definition MAX_TIMEOUT_MS : Z := 300000.
Definition MAX_CONNECTION_LIMIT : Z := 1000000.
Definition MAX_HISTORY_LIMIT : Z := 1000000.
Definition MAX_RELAY_BUFFER_BYTES : Z := 16 * 1024 * 1024.
Definition MAX_LATENCY_BUFFER_BYTES : Z := 64 * 1024 * 1024.

(** [std::net::SocketAddr]. *)
Inductive SocketAddr :=
| SocketV4 (ip port : Z)
| SocketV6 (ip port flowinfo scope_id : Z).
#[export] Instance SocketAddr_eq_dec : EqDecision SocketAddr.
Proof. solve_decision. Defined.

(** [NonZeroU64::new(value).ok_or(..)] and [Probability::new(..).map_err(to_string)]. *)
Definition nonzero_or (value : Z) (error : string) : result Z string :=
  if value =? 0 then Err error else Ok value.
Definition wire_probability (value : f64) : result Probability string :=
  match probability_new value with
  | Some p => Ok p
  | None => Err (validation_error_display ProbabilityOutOfRange)
  end.
Definition wire_fault_id (id : string) : result FaultId string :=
  map_err validation_error_display (fault_id_new id).

(** ** Stream proxies *)

Record NativeProxyRequestV1 := {
  pr_name : string;
  pr_listen : SocketAddr;
  pr_upstream : SocketAddr;
  pr_enabled : bool;
  pr_max_connections : option Z;
  pr_connect_timeout_ms : Z;
  pr_seed : Z
}.

Definition is_ascii_alphanumeric (b : Z) : bool :=
  ((48 <=? b) && (b <=? 57)) || ((65 <=? b) && (b <=? 90)) || ((97 <=? b) && (b <=? 122)).
Definition name_byte (b : Z) : bool := is_ascii_alphanumeric b || (b =? 46) || (b =? 95) || (b =? 45).

Definition validate_proxy_name (name : string) : result unit string :=
  if (str_len name =? 0) || (128 <? str_len name) then Err "proxy name must be 1..=128 bytes"%string
  else if negb (forallb name_byte (as_bytes name)) then Err "proxy name must match [A-Za-z0-9._-]+"%string
  else Ok tt.

(** The two range checks requests and patches share. *)
Definition timeout_in_range (timeout : Z) : bool := negb ((timeout =? 0) || (MAX_TIMEOUT_MS <? timeout)).
Definition connections_in_range (limit : Z) : bool := negb ((limit =? 0) || (MAX_CONNECTION_LIMIT <? limit)).
Definition timeout_error : string := "connect_timeout_ms must be in 1..=" +:+ dec MAX_TIMEOUT_MS.
Definition connections_error : string := "max_connections must be in 1..=" +:+ dec MAX_CONNECTION_LIMIT.

Definition proxy_request_validate (r : NativeProxyRequestV1) : result unit string :=
  let? _u := validate_proxy_name (pr_name r) in
  if negb (timeout_in_range (pr_connect_timeout_ms r)) then Err timeout_error
  else
    match pr_max_connections r with
    | Some limit => if negb (connections_in_range limit) then Err connections_error else Ok tt
    | None => Ok tt
    end.

Record NativeProxyPatchV1 := {
  pp_listen : option SocketAddr;
  pp_upstream : option SocketAddr;
  pp_enabled : option bool;
  pp_max_connections : option (option Z);
  pp_connect_timeout_ms : option Z
}.

Definition proxy_patch_validate (p : NativeProxyPatchV1) : result unit string :=
  if match pp_connect_timeout_ms p with Some t => negb (timeout_in_range t) | None => false end
  then Err timeout_error
  else
    match pp_max_connections p with
    | Some (Some limit) => if negb (connections_in_range limit) then Err connections_error else Ok tt
    | _ => Ok tt
    end.

(** ** Stream faults *)

Inductive FaultKindV1 :=
| LatencyV1 (delay_ns jitter_ns max_buffer_bytes : Z)
| BandwidthV1 (bytes_per_second burst_bytes : Z)
| BlackholeV1 (close_after_ns : option Z)
| LimitDataV1 (bytes : Z)
| SlowCloseV1 (delay_ns : Z)
| SliceV1 (average_size variation delay_ns : Z)
| DisconnectV1 (after_ns : Z) (hard_reset : bool)
| StreamLossV1 (loss_rate correlation : f64).

(** The closures of [into_core]; [Duration::from_nanos] is the identity here. *)
Definition nonzero (field : string) (value : Z) : result Z string :=
  nonzero_or value (field +:+ " must be non-zero").
Definition finite_probability (field : string) (value : f64) : result Probability string :=
  if f64_is_finite value && (SFleb f64_zero value && SFleb value f64_one)
  then wire_probability value
  else Err (field +:+ " must be finite and between 0 and 1").

Definition kind_into_core (k : FaultKindV1) : result FaultKind string :=
  match k with
  | LatencyV1 delay_ns jitter_ns max_buffer_bytes =>
      if (MAX_LATENCY_BUFFER_BYTES <? max_buffer_bytes)%Z
      then Err ("max_buffer_bytes must be at most " +:+ dec MAX_LATENCY_BUFFER_BYTES)
      else
        let? m := nonzero "max_buffer_bytes" max_buffer_bytes in
        Ok (Latency {| lat_delay := delay_ns; lat_jitter := jitter_ns; lat_max_buffer_bytes := m |})
  | BandwidthV1 bytes_per_second burst_bytes =>
      let? r := nonzero "bytes_per_second" bytes_per_second in
      let? b := nonzero "burst_bytes" burst_bytes in
      Ok (Bandwidth {| bw_bytes_per_second := r; bw_burst_bytes := b |})
  | BlackholeV1 close_after_ns => Ok (Blackhole {| bh_close_after := close_after_ns |})
  | LimitDataV1 n => let? n := nonzero "bytes" n in Ok (LimitData {| ld_bytes := n |})
  | SlowCloseV1 delay_ns => Ok (SlowClose {| sc_delay := delay_ns |})
  | SliceV1 average_size variation delay_ns =>
      let? a := nonzero "average_size" average_size in
      Ok (Slice {| sl_average_size := a; sl_variation := variation; sl_delay := delay_ns |})
  | DisconnectV1 after_ns hard_reset => Ok (Disconnect {| dc_after := after_ns; dc_hard_reset := hard_reset |})
  | StreamLossV1 loss_rate correlation =>
      let? l := finite_probability "loss_rate" loss_rate in
      let? c := finite_probability "correlation" correlation in
      Ok (StreamLoss {| slc_loss_rate := l; slc_correlation := c |})
  end%string.

(** [duration.as_nanos().min(u64::MAX) as u64]. *)
Definition ns (d : Duration) : Z := Z.min d U64_MAX.

Definition kind_from_core (k : FaultKind) : FaultKindV1 :=
  match k with
  | Latency v => LatencyV1 (ns (lat_delay v)) (ns (lat_jitter v)) (lat_max_buffer_bytes v)
  | Bandwidth v => BandwidthV1 (bw_bytes_per_second v) (bw_burst_bytes v)
  | Blackhole v => BlackholeV1 (option_map ns (bh_close_after v))
  | LimitData v => LimitDataV1 (ld_bytes v)
  | SlowClose v => SlowCloseV1 (ns (sc_delay v))
  | Slice v => SliceV1 (sl_average_size v) (sl_variation v) (ns (sl_delay v))
  | Disconnect v => DisconnectV1 (ns (dc_after v)) (dc_hard_reset v)
  | StreamLoss v => StreamLossV1 (slc_loss_rate v) (slc_correlation v)
  end.

Definition kind_validate (k : FaultKindV1) : result unit string :=
  let? kind := kind_into_core k in
  let? id := wire_fault_id "validation" in
  let? probability := wire_probability f64_one in
  match plan_new [{| fs_id := id; fs_probability := probability; fs_kind := kind |}] with
  | Ok _ => Ok tt
  | Err error => Err (validation_error_display error)
  end.

Record FaultUpsertV1 := {
  up_direction : Direction;
  up_id : string;
  up_probability : f64;
  up_kind : FaultKindV1
}.

Definition upsert_validate (u : FaultUpsertV1) : result unit string :=
  let? _id := wire_fault_id (up_id u) in
  let? _p := wire_probability (up_probability u) in
  kind_validate (up_kind u).

Definition upsert_into_core (u : FaultUpsertV1) : result (Direction * FaultSpec) string :=
  let? id := wire_fault_id (up_id u) in
  let? probability := wire_probability (up_probability u) in
  let? kind := kind_into_core (up_kind u) in
  Ok (up_direction u, {| fs_id := id; fs_probability := probability; fs_kind := kind |}).

Record FaultPatchV1 := { fp_probability : option f64; fp_kind : option FaultKindV1 }.

Definition patch_validate (p : FaultPatchV1) : result unit string :=
  let? _p := try_map wire_probability (fp_probability p) in
  let? _k := try_map kind_validate (fp_kind p) in
  Ok tt.

Definition patch_into_core (p : FaultPatchV1) : result (option f64 * option FaultKind) string :=
  let? _p := try_map wire_probability (fp_probability p) in
  let? kind := try_map kind_into_core (fp_kind p) in
  Ok (fp_probability p, kind).

Record NativeFaultViewV1 := { fv_id : string; fv_probability : f64; fv_kind : FaultKindV1 }.
Definition view_from_core (f : FaultSpec) : NativeFaultViewV1 :=
  {| fv_id := fs_id f; fv_probability := fs_probability f; fv_kind := kind_from_core (fs_kind f) |}.

(** ** Runtime configuration *)

Record DatagramRuntimeConfigV1 := {
  rd_max_proxies : Z;
  rd_max_associations : Z;
  rd_history : Z;
  rd_ingress_per_association : Z;
  rd_max_ingress_queue_bytes : Z
}.
Definition datagram_runtime_default : DatagramRuntimeConfigV1 := {|
  rd_max_proxies := 128; rd_max_associations := 4096; rd_history := 1024;
  rd_ingress_per_association := 16; rd_max_ingress_queue_bytes := 64 * 1024 * 1024
|}.

Record RuntimeConfigV1 := {
  rt_global_connections : Z;
  rt_history : Z;
  rt_relay_buffer_bytes : Z;
  rt_termination_grace_ms : Z;
  rt_datagram : DatagramRuntimeConfigV1
}.
Definition runtime_default : RuntimeConfigV1 := {|
  rt_global_connections := 1024; rt_history := 256;
  rt_relay_buffer_bytes := NATIVE_DEFAULT_BUFFER_BYTES;
  rt_termination_grace_ms := NATIVE_DEFAULT_PROXY_TIMEOUT_MS;
  rt_datagram := datagram_runtime_default
|}.

Definition runtime_validate (c : RuntimeConfigV1) : result unit string :=
  if (rt_global_connections c =? 0) || (MAX_CONNECTION_LIMIT <? rt_global_connections c)
  then Err ("runtime.global_connections must be in 1..=" +:+ dec MAX_CONNECTION_LIMIT)
  else if MAX_HISTORY_LIMIT <? rt_history c
  then Err ("runtime.history must be at most " +:+ dec MAX_HISTORY_LIMIT)
  else if (rt_relay_buffer_bytes c =? 0) || (MAX_RELAY_BUFFER_BYTES <? rt_relay_buffer_bytes c)
  then Err ("runtime.relay_buffer_bytes must be in 1..=" +:+ dec MAX_RELAY_BUFFER_BYTES)
  else if MAX_TIMEOUT_MS <? rt_termination_grace_ms c
  then Err ("runtime.termination_grace_ms must be at most " +:+ dec MAX_TIMEOUT_MS)
  else
    let d := rt_datagram c in
    if (rd_max_proxies d =? 0) || (rd_max_associations d =? 0) || (rd_history d =? 0)
       || (rd_ingress_per_association d =? 0) || (rd_max_ingress_queue_bytes d =? 0)
    then Err "runtime.datagram limits must be non-zero"
    else Ok tt.

Definition relay_buffer (c : RuntimeConfigV1) : result Z string :=
  if USIZE_MAX <? rt_relay_buffer_bytes c then Err "runtime.relay_buffer_bytes exceeds platform range"%string
  else if MAX_RELAY_BUFFER_BYTES <? rt_relay_buffer_bytes c
  then Err ("runtime.relay_buffer_bytes must be at most " +:+ dec MAX_RELAY_BUFFER_BYTES)
  else nonzero_or (rt_relay_buffer_bytes c) "runtime.relay_buffer_bytes must be non-zero".

(** [Duration::from_millis]. *)
Definition duration_from_millis (ms : Z) : Duration := ms * 1000000.
Definition termination_grace (c : RuntimeConfigV1) : result Duration string :=
  if MAX_TIMEOUT_MS <? rt_termination_grace_ms c
  then Err ("runtime.termination_grace_ms must be at most " +:+ dec MAX_TIMEOUT_MS)
  else Ok (duration_from_millis (rt_termination_grace_ms c)).

(** * Datagram documents *)

(** ** Datagram faults *)

Inductive DatagramFaultKindV1 :=
| DelayV1 (delay_ns jitter_ns : Z)
| LossV1
| DuplicateV1 (additional_copies : Z)
| ReorderV1 (hold_ns : Z)
| PayloadCorruptV1 (n : Z)
| DBandwidthV1 (bytes_per_second burst_bytes : Z).

Record DatagramFaultSpecV1 := { df_id : string; df_probability : f64; df_kind : DatagramFaultKindV1 }.

Definition dkind_into_core (k : DatagramFaultKindV1) : result DatagramFaultKind string :=
  match k with
  | DelayV1 delay_ns jitter_ns => Ok (DDelay delay_ns jitter_ns)
  | LossV1 => Ok DLoss
  | DuplicateV1 n =>
      if negb ((1 <=? n) && (n <=? 16))%Z then Err "additional_copies must be in 1..=16"
      else Ok (DDuplicate n)
  | ReorderV1 hold_ns => Ok (DReorder hold_ns)
  | PayloadCorruptV1 n => let? n := nonzero_or n "bytes must be nonzero" in Ok (DPayloadCorrupt n)
  | DBandwidthV1 rate burst =>
      let? r := nonzero_or rate "bytes_per_second must be nonzero" in
      let? b := nonzero_or burst "burst_bytes must be nonzero" in
      Ok (DBandwidth r b)
  end%string.

Definition dkind_from_core (k : DatagramFaultKind) : DatagramFaultKindV1 :=
  match k with
  | DDelay delay jitter => DelayV1 (ns delay) (ns jitter)
  | DLoss => LossV1
  | DDuplicate n => DuplicateV1 n
  | DReorder hold => ReorderV1 (ns hold)
  | DPayloadCorrupt n => PayloadCorruptV1 n
  | DBandwidth rate burst => DBandwidthV1 rate burst
  end.

Definition dspec_into_core (s : DatagramFaultSpecV1) : result DatagramFaultSpec string :=
  let? id := wire_fault_id (df_id s) in
  let? probability := wire_probability (df_probability s) in
  let? kind := dkind_into_core (df_kind s) in
  let spec := {| dg_id := id; dg_probability := probability; dg_kind := kind |} in
  let? _plan := dplan_new [spec] in
  Ok spec.

Definition dspec_from_core (s : DatagramFaultSpec) : DatagramFaultSpecV1 :=
  {| df_id := dg_id s; df_probability := dg_probability s; df_kind := dkind_from_core (dg_kind s) |}.

(** The top-level keys an upsert may have. *)
Definition upsert_keys : list string := ["direction"; "id"; "probability"; "kind"]%string.
Definition check_upsert_keys (keys : list string) : result unit string :=
  match List.find (fun key => negb (bool_decide (key ∈ upsert_keys))) keys with
  | Some other => Err other
  | None => Ok tt
  end.

Record DatagramFaultPatchV1 := { dfp_probability : option f64; dfp_kind : option DatagramFaultKindV1 }.
Definition dpatch_validate (p : DatagramFaultPatchV1) : result unit string :=
  let? _p := try_map wire_probability (dfp_probability p) in
  let? _k := try_map dkind_into_core (dfp_kind p) in
  Ok tt.
Definition dpatch_into_core_parts (p : DatagramFaultPatchV1)
    : result (option f64 * option DatagramFaultKind) string :=
  let? probability := try_map wire_probability (dfp_probability p) in
  let? kind := try_map dkind_into_core (dfp_kind p) in
  Ok (probability, kind).

(** ** Datagram proxies *)

Record NativeDatagramProxyRequestV1 := {
  dr_name : string;
  dr_listen : SocketAddr;
  dr_upstream : SocketAddr;
  dr_max_associations : Z;
  dr_association_idle_timeout_ms : Z;
  dr_max_queued_datagrams : Z;
  dr_max_queued_bytes : Z;
  dr_max_datagram_size : Z;
  dr_seed : Z;
  dr_upstream_faults : list DatagramFaultSpecV1;
  dr_downstream_faults : list DatagramFaultSpecV1
}.

(** A request that gives only the three fields without a default. *)
Definition datagram_request_default (name : string) (listen upstream : SocketAddr) : NativeDatagramProxyRequestV1 := {|
  dr_name := name; dr_listen := listen; dr_upstream := upstream;
  dr_max_associations := 256; dr_association_idle_timeout_ms := 60000;
  dr_max_queued_datagrams := 1024; dr_max_queued_bytes := 4 * 1024 * 1024; dr_max_datagram_size := 65507;
  dr_seed := 0; dr_upstream_faults := []; dr_downstream_faults := []
|}.

Record DatagramProxyCoreParts := {
  dc_name : string;
  dc_listen : SocketAddr;
  dc_upstream : SocketAddr;
  dc_max_associations : Z;
  dc_association_idle_timeout_ms : Z;
  dc_queue_limits : DatagramQueueLimits;
  dc_seed : Z;
  dc_upstream_faults : list DatagramFaultSpec;
  dc_downstream_faults : list DatagramFaultSpec
}.

(** The [HashSet] loop: every [insert] succeeds. *)
Fixpoint all_new (ids : gset string) (l : list string) : bool :=
  match l with
  | [] => true
  | id :: rest => negb (bool_decide (id ∈ ids)) && all_new ({[id]} ∪ ids) rest
  end.

Definition MAX_IDLE_MS : Z := 86400000.

Definition request_queue_limits (r : NativeDatagramProxyRequestV1) : result DatagramQueueLimits string :=
  let? datagrams := nonzero_or (dr_max_queued_datagrams r) "max_queued_datagrams must be nonzero" in
  let? queued := nonzero_or (dr_max_queued_bytes r) "max_queued_bytes must be nonzero" in
  let? size := nonzero_or (dr_max_datagram_size r) "max_datagram_size must be nonzero" in
  limits_validate {| max_queued_datagrams := datagrams; max_queued_bytes := queued; max_datagram_bytes := size |}.

Definition request_into_core_parts (r : NativeDatagramProxyRequestV1) : result DatagramProxyCoreParts string :=
  let? _name := validate_proxy_name (dr_name r) in
  if (dr_max_associations r =? 0) || (MAX_CONNECTION_LIMIT <? dr_max_associations r)
  then Err ("max_associations must be in 1..=" +:+ dec MAX_CONNECTION_LIMIT)
  else if (dr_association_idle_timeout_ms r =? 0) || (MAX_IDLE_MS <? dr_association_idle_timeout_ms r)
  then Err "association_idle_timeout_ms must be in 1..=86400000"
  else
    let? limits := request_queue_limits r in
    let? upstream := collect dspec_into_core (dr_upstream_faults r) in
    let? downstream := collect dspec_into_core (dr_downstream_faults r) in
    if negb (all_new ∅ (map dg_id (upstream ++ downstream)))
    then Err "datagram fault IDs must be unique across directions for path lookup"
    else
      let? _up := dplan_new upstream in
      let? _down := dplan_new downstream in
      Ok {| dc_name := dr_name r; dc_listen := dr_listen r; dc_upstream := dr_upstream r;
            dc_max_associations := dr_max_associations r;
            dc_association_idle_timeout_ms := dr_association_idle_timeout_ms r;
            dc_queue_limits := limits; dc_seed := dr_seed r;
            dc_upstream_faults := upstream; dc_downstream_faults := downstream |}.

Definition request_validate (r : NativeDatagramProxyRequestV1) : result unit string :=
  let? _parts := request_into_core_parts r in Ok tt.

Record NativeDatagramProxyPatchV1 := {
  dp_enabled : option bool;
  dp_listen : option SocketAddr;
  dp_upstream : option SocketAddr;
  dp_max_associations : option Z;
  dp_association_idle_timeout_ms : option Z
}.
Definition datagram_patch_validate (p : NativeDatagramProxyPatchV1) : result unit string :=
  if match dp_max_associations p with Some limit => (limit =? 0) || (65536 <? limit) | None => false end
  then Err "max_associations must be in 1..=65536"%string
  else if match dp_association_idle_timeout_ms p with
          | Some timeout => (timeout =? 0) || (MAX_IDLE_MS <? timeout)
          | None => false
          end
  then Err "association_idle_timeout_ms must be in 1..=86400000"%string
  else Ok tt.
