(* ===== verification/WireSchedule.v ===== *)
(** * Scenario documents
      ([ScenarioV1] of [crates/eggchaos-protocol/src/stream.rs], and
      [crates/eggchaos-protocol/src/scenario_v2.rs])

    The two generations of scenario documents, their conversions to the actions
    and sources of the experiment crate, and the response documents rendered
    from compiled schedules and finished runs. *)

From Stdlib Require Import Bool.
From stdpp Require Import base list gmap strings.
From S2P Require Import Prelude Rng Float64 Plan DatagramPlan Env Schedule Fingerprint Target Driver.
From S2P Require Import Wire.

(** ** Scenario V1 *)

Record ScenarioFaultV1 := { sf_id : string; sf_probability : f64; sf_kind : FaultKindV1 }.

Definition scenario_fault_into_core (f : ScenarioFaultV1) : result FaultSpec string :=
  let? id := wire_fault_id (sf_id f) in
  let? probability := wire_probability (sf_probability f) in
  let? kind := kind_into_core (sf_kind f) in
  Ok {| fs_id := id; fs_probability := probability; fs_kind := kind |}.

(** [ScenarioActionV1] and [ScenarioActionDto] are the same document. *)
Inductive ScenarioActionV1 :=
| SetPlanV1 (proxy : string) (direction : Direction) (fs : list ScenarioFaultV1)
| RemoveFaultV1 (proxy : string) (direction : Direction) (id : string)
| SetDatagramPlanV1 (proxy : string) (direction : Direction) (fs : list DatagramFaultSpecV1)
| RemoveDatagramFaultV1 (proxy : string) (direction : Direction) (id : string).

Record ScenarioEventV1 := { sev_at_ms : Z; sev_action : ScenarioActionV1 }.
Record ScenarioV1 := { sv_version : Z; sv_seed : Z; sv_events : list ScenarioEventV1 }.

(** [FaultPlan::new(..)] and [DatagramPlan::new(..)] with the error rendered. *)
Definition check_plan (fs : list FaultSpec) : result unit string :=
  match plan_new fs with Ok _ => Ok tt | Err error => Err (validation_error_display error) end.
Definition check_dplan (fs : list DatagramFaultSpec) : result unit string :=
  let? _plan := dplan_new fs in Ok tt.

Definition action_proxy (a : ScenarioActionV1) : string :=
  match a with
  | SetPlanV1 proxy _ _ | RemoveFaultV1 proxy _ _ | SetDatagramPlanV1 proxy _ _
  | RemoveDatagramFaultV1 proxy _ _ => proxy
  end.

Definition v1_validate_action (a : ScenarioActionV1) : result unit string :=
  match a with
  | SetPlanV1 _ _ fs => let? converted := collect scenario_fault_into_core fs in check_plan converted
  | SetDatagramPlanV1 _ _ fs => let? converted := collect dspec_into_core fs in check_dplan converted
  | RemoveFaultV1 _ _ id | RemoveDatagramFaultV1 _ _ id => let? _id := wire_fault_id id in Ok tt
  end.

(** The loop over the events; [previous] starts at 0. *)
Fixpoint v1_events_loop (previous : Z) (events : list ScenarioEventV1) : result unit string :=
  match events with
  | [] => Ok tt
  | event :: rest =>
      if sev_at_ms event <? previous then Err "scenario events must be ordered"%string
      else
        let? _name := validate_proxy_name (action_proxy (sev_action event)) in
        let? _action := v1_validate_action (sev_action event) in
        v1_events_loop (sev_at_ms event) rest
  end.

Definition scenario_validate (s : ScenarioV1) : result unit string :=
  if negb (sv_version s =? 1) then Err "unsupported scenario version"%string
  else if 1024 <? zlen (sv_events s) then Err "too many scenario events"%string
  else v1_events_loop 0 (sv_events s).

(** The [match event.action] of [into_core_actions], and
    [ScenarioActionDto::into_internal]: the two bodies do the same. *)
Definition action_into_internal (a : ScenarioActionV1) : result ScenarioAction string :=
  match a with
  | SetPlanV1 proxy direction fs =>
      let? converted := collect scenario_fault_into_core fs in
      let? _plan := check_plan converted in
      Ok (SetPlan proxy direction converted)
  | RemoveFaultV1 proxy direction id =>
      let? _id := wire_fault_id id in Ok (RemoveFault proxy direction id)
  | SetDatagramPlanV1 proxy direction fs =>
      let? converted := collect dspec_into_core fs in
      let? _plan := check_dplan converted in
      Ok (SetDatagramPlan proxy direction converted)
  | RemoveDatagramFaultV1 proxy direction id =>
      let? _id := wire_fault_id id in Ok (RemoveDatagramFault proxy direction id)
  end.

Definition into_core_actions (s : ScenarioV1) : result (list (Z * ScenarioAction)) string :=
  let? _valid := scenario_validate s in
  collect (fun event => let? action := action_into_internal (sev_action event) in Ok (sev_at_ms event, action))
    (sv_events s).

(** ** Schedule documents (version 2) *)

Record ScenarioPhaseV2Dto := {
  pd_name : option string;
  pd_duration_ns : Z;
  pd_actions : list ScenarioActionV1
}.
Record ScenarioRepeatV2Dto := { rpd_count : Z; rpd_phases : list ScenarioPhaseV2Dto }.
Record ScenarioScheduleV2Dto := {
  sd_version : Z;
  sd_seed : Z;
  sd_execution_key : Z;
  sd_isolation : IsolationPolicyV2;
  sd_cleanup : CleanupPolicyV2;
  sd_phases : list ScenarioPhaseV2Dto;
  sd_repeat : option ScenarioRepeatV2Dto
}.

Definition phase_into_internal (p : ScenarioPhaseV2Dto) : result SchedulePhaseV2 string :=
  let? actions := collect action_into_internal (pd_actions p) in
  Ok {| ph_name := pd_name p; ph_duration_ns := pd_duration_ns p; ph_actions := actions |}.

Definition repeat_into_internal (r : ScenarioRepeatV2Dto) : result ScheduleRepeatV2 string :=
  let? phases := collect phase_into_internal (rpd_phases r) in
  Ok {| rp_count := rpd_count r; rp_phases := phases |}.

Definition schedule_into_internal (d : ScenarioScheduleV2Dto) : result ScenarioScheduleV2 string :=
  if negb (sd_version d =? SCHEDULE_SCHEMA_VERSION)
  then Err ("unsupported schedule version: " +:+ dec (sd_version d))
  else
    let? phases := collect phase_into_internal (sd_phases d) in
    let? repeat := try_map repeat_into_internal (sd_repeat d) in
    Ok {| src_version := sd_version d; src_seed := sd_seed d; src_execution_key := sd_execution_key d;
          src_isolation := sd_isolation d; src_cleanup := sd_cleanup d;
          src_phases := phases; src_repeat := repeat |}.

(** The [From] conversions back to documents. *)
Definition fault_from_core (f : FaultSpec) : ScenarioFaultV1 :=
  {| sf_id := fs_id f; sf_probability := fs_probability f; sf_kind := kind_from_core (fs_kind f) |}.
Definition action_from_internal (a : ScenarioAction) : ScenarioActionV1 :=
  match a with
  | SetPlan proxy direction fs => SetPlanV1 proxy direction (map fault_from_core fs)
  | RemoveFault proxy direction id => RemoveFaultV1 proxy direction id
  | SetDatagramPlan proxy direction fs => SetDatagramPlanV1 proxy direction (map dspec_from_core fs)
  | RemoveDatagramFault proxy direction id => RemoveDatagramFaultV1 proxy direction id
  end.
Definition phase_from_internal (p : SchedulePhaseV2) : ScenarioPhaseV2Dto :=
  {| pd_name := ph_name p; pd_duration_ns := ph_duration_ns p;
     pd_actions := map action_from_internal (ph_actions p) |}.
Definition repeat_from_internal (r : ScheduleRepeatV2) : ScenarioRepeatV2Dto :=
  {| rpd_count := rp_count r; rpd_phases := map phase_from_internal (rp_phases r) |}.
Definition schedule_from_internal (s : ScenarioScheduleV2) : ScenarioScheduleV2Dto := {|
  sd_version := src_version s; sd_seed := src_seed s; sd_execution_key := src_execution_key s;
  sd_isolation := src_isolation s; sd_cleanup := src_cleanup s;
  sd_phases := map phase_from_internal (src_phases s);
  sd_repeat := option_map repeat_from_internal (src_repeat s)
|}.

(** ** TOML documents, with their own conversion *)

Record ScenarioPhaseV2Toml := {
  pt_name : option string;
  pt_duration_ns : Z;
  pt_actions : list ScenarioActionV1
}.
Record ScenarioRepeatV2Toml := { rpt_count : Z; rpt_phases : list ScenarioPhaseV2Toml }.
Record ScenarioScheduleV2Toml := {
  stm_version : Z;
  stm_seed : Z;
  stm_execution_key : Z;
  stm_isolation : IsolationPolicyV2;
  stm_cleanup : CleanupPolicyV2;
  stm_phases : list ScenarioPhaseV2Toml;
  stm_repeat : option ScenarioRepeatV2Toml
}.

(** The closure the conversion maps over the phases of both levels. *)
Definition toml_phase (phase : ScenarioPhaseV2Toml) : result SchedulePhaseV2 string :=
  let? actions := collect action_into_internal (pt_actions phase) in
  Ok {| ph_name := pt_name phase; ph_duration_ns := pt_duration_ns phase; ph_actions := actions |}.

Definition toml_into_internal (d : ScenarioScheduleV2Toml) : result ScenarioScheduleV2 string :=
  if negb (stm_version d =? SCHEDULE_SCHEMA_VERSION)
  then Err ("unsupported schedule version: " +:+ dec (stm_version d))
  else
    let? phases := collect toml_phase (stm_phases d) in
    let? repeat :=
      match stm_repeat d with
      | Some repeat =>
          let? phases := collect toml_phase (rpt_phases repeat) in
          Ok (Some {| rp_count := rpt_count repeat; rp_phases := phases |})
      | None => Ok None
      end in
    Ok {| src_version := stm_version d; src_seed := stm_seed d; src_execution_key := stm_execution_key d;
          src_isolation := stm_isolation d; src_cleanup := stm_cleanup d;
          src_phases := phases; src_repeat := repeat |}.

(** ** Responses *)

Definition phase_identity_string (phase : CompiledPhaseIdentity) : string :=
  match phase with
  | Top index => "top/" +:+ dec index
  | Repeat iteration index => "repeat/" +:+ dec iteration +:+ "/" +:+ dec index
  end%string.

Definition transport_string (t : ScheduleTransport) : string :=
  match t with StreamTransport => "stream" | DatagramTransport => "datagram" end.

Definition action_summary (a : ScenarioAction) : string * string * Direction * string :=
  match a with
  | SetPlan proxy direction _ => ("set-plan", proxy, direction, "stream")
  | RemoveFault proxy direction _ => ("remove-fault", proxy, direction, "stream")
  | SetDatagramPlan proxy direction _ => ("set-datagram-plan", proxy, direction, "datagram")
  | RemoveDatagramFault proxy direction _ => ("remove-datagram-fault", proxy, direction, "datagram")
  end%string.

Record ScheduleValidateV2 := {
  va_schedule_fingerprint : string;
  va_compiler_semantics_version : Z;
  va_event_count : Z;
  va_seed : Z;
  va_execution_key : Z;
  va_isolation : IsolationPolicyV2;
  va_cleanup_policy : CleanupPolicyV2
}.
Record ScheduleCompiledEventV2 := {
  ev_compiled_index : Z;
  ev_phase : string;
  ev_offset_ns : Z;
  ev_action : string;
  ev_proxy : string;
  ev_direction : Direction;
  ev_transport : string
}.
Record ScheduleCompileV2 := {
  co_schedule_fingerprint : string;
  co_compiler_semantics_version : Z;
  co_seed : Z;
  co_execution_key : Z;
  co_isolation : IsolationPolicyV2;
  co_cleanup_policy : CleanupPolicyV2;
  co_events : list ScheduleCompiledEventV2
}.

Definition event_from_compiled (event : CompiledEventV2) : ScheduleCompiledEventV2 :=
  let '(action, proxy, direction, transport) := action_summary (ce_action event) in
  {| ev_compiled_index := ce_compiled_index event; ev_phase := phase_identity_string (ce_phase event);
     ev_offset_ns := ce_offset_ns event; ev_action := action; ev_proxy := proxy;
     ev_direction := direction; ev_transport := transport |}.

Definition compile_from_compiled (sha256 : bytes -> bytes) (c : CompiledScenarioV2) : ScheduleCompileV2 := {|
  co_schedule_fingerprint := fingerprint_hex (compiled_fingerprint sha256 c);
  co_compiler_semantics_version := cp_compiler_semantics_version c;
  co_seed := cp_seed c; co_execution_key := cp_execution_key c;
  co_isolation := cp_isolation c; co_cleanup_policy := cp_cleanup c;
  co_events := map event_from_compiled (cp_events c)
|}.

Definition validate_from_compiled (sha256 : bytes -> bytes) (c : CompiledScenarioV2) : ScheduleValidateV2 := {|
  va_schedule_fingerprint := fingerprint_hex (compiled_fingerprint sha256 c);
  va_compiler_semantics_version := cp_compiler_semantics_version c;
  va_event_count := zlen (cp_events c);
  va_seed := cp_seed c; va_execution_key := cp_execution_key c;
  va_isolation := cp_isolation c; va_cleanup_policy := cp_cleanup c
|}.

(** Run records (run.rs) and their rendering. *)
Record ScenarioScheduleRunRecord := {
  rr_run_id : Z;
  rr_seed : Z;
  rr_execution_key : Z;
  rr_schedule_fingerprint : bytes;
  rr_compiler_semantics_version : Z;
  rr_isolation : IsolationPolicyV2;
  rr_cleanup_policy : CleanupPolicyV2;
  rr_status : ScheduleRunStatus;
  rr_applied : Z;
  rr_failure : option string;
  rr_events : list ScheduleEventResult;
  rr_cleanup : option CleanupOutcome
}.
Record ScheduleRunEventV2 := {
  rv_compiled_index : Z;
  rv_phase : string;
  rv_scheduled_offset_ns : Z;
  rv_applied_elapsed_ns : Z;
  rv_late_by_ns : Z;
  rv_action : string;
  rv_proxy : string;
  rv_direction : Direction;
  rv_transport : string;
  rv_global_generation : Z;
  rv_upstream_generation : Z;
  rv_downstream_generation : Z
}.
Record ScheduleCleanupResourceV2 := {
  cu_proxy : string;
  cu_direction : Direction;
  cu_transport : string;
  cu_outcome : string
}.
Record ScheduleCleanupV2 := { cl_policy : CleanupPolicyV2; cl_resources : list ScheduleCleanupResourceV2 }.
Record ScheduleRunV2 := {
  rn_run_id : Z;
  rn_seed : Z;
  rn_execution_key : Z;
  rn_schedule_fingerprint : string;
  rn_compiler_semantics_version : Z;
  rn_isolation : IsolationPolicyV2;
  rn_cleanup_policy : CleanupPolicyV2;
  rn_status : string;
  rn_applied : Z;
  rn_failure : option string;
  rn_events : list ScheduleRunEventV2;
  rn_cleanup : option ScheduleCleanupV2
}.

Definition status_string (s : ScheduleRunStatus) : string :=
  match s with
  | RunPending => "pending"
  | RunRunning => "running"
  | RunCancelling => "cancelling"
  | RunCancelled => "cancelled"
  | RunCompleted => "completed"
  | RunFailed => "failed"
  end.
Definition outcome_string (o : CleanupResourceOutcome) : string :=
  match o with
  | Restored => "restored"
  | ConflictOutcome => "conflict"
  | MissingOutcome => "missing"
  | NotRequested => "not_requested"
  end.
Definition run_event_from_record (e : ScheduleEventResult) : ScheduleRunEventV2 := {|
  rv_compiled_index := er_compiled_index e; rv_phase := phase_identity_string (er_phase e);
  rv_scheduled_offset_ns := er_scheduled_offset_ns e; rv_applied_elapsed_ns := er_applied_elapsed_ns e;
  rv_late_by_ns := er_late_by_ns e; rv_action := er_action e;
  rv_proxy := rs_proxy (er_resource e); rv_direction := rs_direction (er_resource e);
  rv_transport := transport_string (rs_transport (er_resource e));
  rv_global_generation := er_global_generation e;
  rv_upstream_generation := er_upstream_generation e;
  rv_downstream_generation := er_downstream_generation e
|}.
Definition cleanup_from_outcome (o : CleanupOutcome) : ScheduleCleanupV2 := {|
  cl_policy := co_policy o;
  cl_resources := map (fun r => {|
    cu_proxy := rs_proxy (cr_resource r); cu_direction := rs_direction (cr_resource r);
    cu_transport := transport_string (rs_transport (cr_resource r));
    cu_outcome := outcome_string (cr_outcome r) |}) (co_resources o)
|}.
Definition run_from_record (r : ScenarioScheduleRunRecord) : ScheduleRunV2 := {|
  rn_run_id := rr_run_id r; rn_seed := rr_seed r; rn_execution_key := rr_execution_key r;
  rn_schedule_fingerprint := fingerprint_hex (rr_schedule_fingerprint r);
  rn_compiler_semantics_version := rr_compiler_semantics_version r;
  rn_isolation := rr_isolation r; rn_cleanup_policy := rr_cleanup_policy r;
  rn_status := status_string (rr_status r); rn_applied := rr_applied r; rn_failure := rr_failure r;
  rn_events := map run_event_from_record (rr_events r);
  rn_cleanup := option_map cleanup_from_outcome (rr_cleanup r)
|}.
