(* ===== verification/WireProps.v ===== *)
(** * What the wire documents mean

    Conversions between documents and plans lose nothing and accept exactly
    what the plan types accept, apart from the bounds the wire adds. *)

From Stdlib Require Import Bool SpecFloat.
From stdpp Require Import base list gmap strings.
From S2P Require Import Prelude Rng Float64 Plan DatagramPlan Schedule ScheduleProps Wire WireSchedule.

(** ** Conversions and their inverses *)

Lemma collect_round_trip {A B E} (f : B -> result A E) (g : A -> B) l :
  Forall (fun x => f (g x) = Ok x) l -> collect f (map g l) = Ok l.
Proof. induction 1 as [|x l Hx _ IH]; cbn; [done|]. by rewrite Hx, IH. Qed.

Lemma collect_back {A B E} (f : A -> result B E) (g : B -> A) (P : A -> Prop) (Q : B -> Prop) l k :
  (forall x y, P x -> f x = Ok y -> g y = x /\ Q y) ->
  Forall P l -> collect f l = Ok k -> map g k = l /\ Forall Q k.
Proof.
  intros Hf Hl H. apply collect_ok in H. induction H as [|x y l k Hxy _ IH]; [done|].
  apply Forall_cons in Hl as [Hx Hl]. destruct (Hf x y Hx Hxy) as [<- Hq], (IH Hl) as [<- Hk]. auto.
Qed.

(** ** Ranges *)

Definition u64_field (x : Z) : Prop := 0 <= x <= U64_MAX.

(** What the field types of a document guarantee. *)
Definition kind_v1_typed (k : FaultKindV1) : Prop :=
  match k with
  | LatencyV1 d j m => u64_field d /\ u64_field j /\ u64_field m
  | BandwidthV1 r b => u64_field r /\ u64_field b
  | BlackholeV1 c => match c with Some d => u64_field d | None => True end
  | LimitDataV1 n => u64_field n
  | SlowCloseV1 d => u64_field d
  | SliceV1 a v d => u64_field a /\ u64_field v /\ u64_field d
  | DisconnectV1 a _ => u64_field a
  | StreamLossV1 _ _ => True
  end.
Definition dkind_v1_typed (k : DatagramFaultKindV1) : Prop :=
  match k with
  | DelayV1 d j => u64_field d /\ u64_field j
  | LossV1 => True
  | DuplicateV1 n => 0 <= n <= U8_MAX
  | ReorderV1 h => u64_field h
  | PayloadCorruptV1 n => u64_field n
  | DBandwidthV1 r b => u64_field r /\ u64_field b
  end.

(** What the newtypes guarantee of a fault that exists. *)
Definition id_ok (id : string) : Prop := 1 <= str_len id <= 128.
Record fault_built (f : FaultSpec) : Prop := {
  fb_id : id_ok (fs_id f);
  fb_probability : probability_in_range (fs_probability f) = true;
  fb_kind : kind_typed (fs_kind f)
}.
Record dfault_built (f : DatagramFaultSpec) : Prop := {
  db_id : id_ok (dg_id f);
  db_probability : probability_in_range (dg_probability f) = true;
  db_kind : dkind_typed (dg_kind f)
}.

(** The one bound the wire adds. *)
Definition kind_on_wire (k : FaultKind) : Prop :=
  match k with Latency c => lat_max_buffer_bytes c <= MAX_LATENCY_BUFFER_BYTES | _ => True end.

(** ** Scalars *)

Lemma nonzero_or_ok value error n : nonzero_or value error = Ok n <-> value <> 0 /\ n = value.
Proof. unfold nonzero_or. destruct (Z.eqb_spec value 0); intuition congruence. Qed.

Lemma wire_probability_ok v p : wire_probability v = Ok p <-> probability_in_range v = true /\ p = v.
Proof. unfold wire_probability, probability_new. destruct (probability_in_range v); intuition congruence. Qed.

Lemma finite_probability_ok field v p :
  finite_probability field v = Ok p <-> probability_in_range v = true /\ p = v.
Proof.
  unfold finite_probability. fold (probability_in_range v). rewrite <- wire_probability_ok.
  unfold wire_probability, probability_new. by destruct (probability_in_range v).
Qed.

Lemma wire_fault_id_ok id x : wire_fault_id id = Ok x <-> id_ok id /\ x = id.
Proof.
  unfold wire_fault_id, id_ok. rewrite <- fault_id_new_ok. unfold fault_id_new.
  destruct (_ || _); cbn; intuition congruence.
Qed.

Lemma ns_small d : d <= MAX_STREAM_FAULT_DURATION -> ns d = d.
Proof. unfold ns, MAX_STREAM_FAULT_DURATION, NANOS_PER_SEC, U64_MAX. lia. Qed.
Lemma ns_u64 d : u64_field d -> ns d = d.
Proof. unfold ns, u64_field. lia. Qed.

(** Inversion of a chain of fallible conversions that succeeded. *)
Ltac steps H :=
  repeat match type of H with
  | context [match ?c with Ok _ => _ | Err _ => _ end] => destruct c eqn:?; [|discriminate H]
  end.
Ltac scalars :=
  repeat match goal with
  | H : nonzero _ _ = Ok _ |- _ => apply nonzero_or_ok in H as [? ->]
  | H : nonzero_or _ _ = Ok _ |- _ => apply nonzero_or_ok in H as [? ->]
  | H : wire_probability _ = Ok _ |- _ => apply wire_probability_ok in H as [? ->]
  | H : finite_probability _ _ = Ok _ |- _ => apply finite_probability_ok in H as [? ->]
  | H : wire_fault_id _ = Ok _ |- _ => apply wire_fault_id_ok in H as [? ->]
  end.

(** ** Kinds *)

Lemma kind_back w k : kind_v1_typed w -> kind_into_core w = Ok k ->
  kind_from_core k = w /\ kind_typed k /\ kind_on_wire k.
Proof.
  destruct w as [d j m|r b|c|n|d|a v d|a h|l c]; cbn [kind_into_core kind_v1_typed]; intros T H.
  - destruct (Z.ltb_spec MAX_LATENCY_BUFFER_BYTES m); [discriminate|]. steps H. injection H as <-. scalars.
    cbn. rewrite !ns_u64 by tauto. unfold u64_field in T. split; [done|lia].
  - steps H. injection H as <-. scalars. cbn. unfold u64_field in T. split; [done|lia].
  - injection H as <-. cbn. destruct c as [c|]; cbn; [|done]. rewrite ns_u64 by done. unfold u64_field in T.
    split; [done|lia].
  - steps H. injection H as <-. scalars. cbn. unfold u64_field in T. split; [done|lia].
  - injection H as <-. cbn. rewrite ns_u64 by done. unfold u64_field in T. split; [done|lia].
  - steps H. injection H as <-. scalars. cbn. rewrite ns_u64 by tauto. unfold u64_field in T. split; [done|lia].
  - injection H as <-. cbn. rewrite ns_u64 by done. unfold u64_field in T. split; [done|lia].
  - steps H. injection H as <-. scalars. by cbn.
Qed.

Lemma nonzero_id field n : n <> 0 -> nonzero field n = Ok n.
Proof. intros H. by apply nonzero_or_ok. Qed.
Lemma finite_probability_id field v : probability_in_range v = true -> finite_probability field v = Ok v.
Proof. intros H. by apply finite_probability_ok. Qed.

Lemma kind_there k : kind_typed k -> kind_wf k -> kind_on_wire k -> kind_into_core (kind_from_core k) = Ok k.
Proof.
  destruct k as [[]|[]|[c]|[]|[]|[]|[]|[]]; cbn; intros T W O;
    rewrite ?(ns_small lat_delay), ?(ns_small lat_jitter), ?ns_small by tauto;
    rewrite ?nonzero_id by lia; rewrite ?finite_probability_id by tauto; try done.
  - by replace (MAX_LATENCY_BUFFER_BYTES <? lat_max_buffer_bytes) with false by lia.
  - destruct c as [c|]; cbn; [|done]. by rewrite ns_small.
Qed.

Lemma dkind_back w k : dkind_v1_typed w -> dkind_into_core w = Ok k -> dkind_from_core k = w /\ dkind_typed k.
Proof.
  destruct w as [d j| |n|h|n|r b]; cbn [dkind_into_core dkind_v1_typed]; intros T H.
  - injection H as <-. cbn. rewrite !ns_u64 by tauto. unfold u64_field in T. split; [done|lia].
  - by injection H as <-.
  - destruct (_ && _) eqn:E; [|discriminate]. injection H as <-. bools. cbn. split; [done|lia].
  - injection H as <-. cbn. rewrite ns_u64 by done. unfold u64_field in T. split; [done|lia].
  - steps H. injection H as <-. scalars. cbn. unfold u64_field in T. split; [done|lia].
  - steps H. injection H as <-. scalars. cbn. unfold u64_field in T. split; [done|lia].
Qed.

Lemma dkind_there k : dkind_typed k -> dkind_wf k -> dkind_into_core (dkind_from_core k) = Ok k.
Proof.
  destruct k as [d j| |n|h|n|r b]; cbn; intros T W;
    try (rewrite ?(ns_small d), ?(ns_small j), ?(ns_small h) by (unfold DAY, MAX_STREAM_FAULT_DURATION in *; lia)); try done.
  - by replace ((1 <=? n) && (n <=? 16)) with true by lia.
  - unfold nonzero_or. by replace (n =? 0) with false by lia.
  - unfold nonzero_or. replace (r =? 0) with false by lia. by replace (b =? 0) with false by lia.
Qed.

(** ** Faults *)

Lemma plan_singleton f : kind_wf (fs_kind f) -> plan_new [f] = Ok {| faults := [f] |}.
Proof. intros H. unfold plan_new. cbn. by rewrite (proj2 (fault_validate_ok f) H). Qed.

Lemma plan_new_wf fs : Forall fault_built fs -> plan_new fs = Ok {| faults := fs |} <-> plan_wf {| faults := fs |}.
Proof.
  intros Hb. rewrite <- plan_wf_validate. unfold plan_new, plan_validate. cbn [faults].
  rewrite plan_new_loop_validate.
  - destruct (_ <? _); [split; discriminate|]. destruct (plan_validate_loop _ _) as [[]|e]; split; congruence.
  - eapply Forall_impl; [exact Hb|]. by intros f [].
Qed.

Lemma dfault_built_typed fs : Forall dfault_built fs -> dplan_typed {| dp_faults := fs |}.
Proof. intros H. unfold dplan_typed. eapply Forall_impl; [exact H|]. by intros f []. Qed.

Lemma dplan_new_wf fs : Forall dfault_built fs ->
  dplan_new fs = Ok {| dp_faults := fs |} <-> dplan_wf {| dp_faults := fs |}.
Proof.
  intros Hb. rewrite <- dplan_wf_validate by (by apply dfault_built_typed). unfold dplan_new.
  destruct (dplan_validate _) as [[]|e]; split; congruence.
Qed.

Lemma dplan_singleton f : dfault_built f -> dkind_wf (dg_kind f) -> dplan_new [f] = Ok {| dp_faults := [f] |}.
Proof.
  intros Hb Hw. apply dplan_new_wf; [by apply Forall_singleton|]. destruct Hb as [Hi Hp Ht].
  split; cbn [dp_faults map]; rewrite ?Forall_singleton; try done.
  - apply NoDup_singleton.
  - unfold amplification, MAX_CANDIDATES. cbn [foldl]. destruct (dg_kind f); cbn in *; lia.
Qed.

Lemma fault_back w f : kind_v1_typed (sf_kind w) -> scenario_fault_into_core w = Ok f ->
  fault_from_core f = w /\ fault_built f /\ kind_on_wire (fs_kind f).
Proof.
  intros T H. unfold scenario_fault_into_core in H. steps H. injection H as <-. scalars.
  destruct (kind_back _ _ T ltac:(eassumption)) as (Hk & Ht & Ho). unfold fault_from_core. cbn. rewrite Hk.
  split; [by destruct w|]. by split; [split|].
Qed.

Lemma fault_there f : fault_built f -> kind_wf (fs_kind f) -> kind_on_wire (fs_kind f) ->
  scenario_fault_into_core (fault_from_core f) = Ok f.
Proof.
  intros [Hi Hp Ht] Hw Ho. unfold scenario_fault_into_core, fault_from_core. cbn.
  rewrite (proj2 (wire_fault_id_ok _ _) (conj Hi eq_refl)), (proj2 (wire_probability_ok _ _) (conj Hp eq_refl)).
  rewrite kind_there by done. by destruct f.
Qed.

Lemma dfault_back w f : dkind_v1_typed (df_kind w) -> dspec_into_core w = Ok f ->
  dspec_from_core f = w /\ dfault_built f /\ dplan_new [f] = Ok {| dp_faults := [f] |}.
Proof.
  intros T H. unfold dspec_into_core in H. steps H. injection H as <-. scalars.
  destruct (dkind_back _ _ T ltac:(eassumption)) as (Hk & Ht). unfold dspec_from_core. cbn. rewrite Hk.
  split; [by destruct w|]. split; [by split|]. by erewrite <- dplan_new_value.
Qed.

Lemma dfault_there f : dfault_built f -> dkind_wf (dg_kind f) -> dspec_into_core (dspec_from_core f) = Ok f.
Proof.
  intros Hb Hw. pose proof (dplan_singleton f Hb Hw) as Hd. destruct Hb as [Hi Hp Ht].
  unfold dspec_into_core, dspec_from_core. cbn.
  rewrite (proj2 (wire_fault_id_ok _ _) (conj Hi eq_refl)), (proj2 (wire_probability_ok _ _) (conj Hp eq_refl)).
  rewrite dkind_there by done. destruct f. cbn in *. by rewrite Hd.
Qed.

(** ** Actions *)

Definition action_v1_typed (a : ScenarioActionV1) : Prop :=
  match a with
  | SetPlanV1 _ _ fs => Forall (fun f => kind_v1_typed (sf_kind f)) fs
  | SetDatagramPlanV1 _ _ fs => Forall (fun f => dkind_v1_typed (df_kind f)) fs
  | _ => True
  end.
Definition action_built (a : ScenarioAction) : Prop :=
  match a with
  | SetPlan _ _ fs => Forall fault_built fs
  | SetDatagramPlan _ _ fs => Forall dfault_built fs
  | _ => True
  end.
Definition action_on_wire (a : ScenarioAction) : Prop :=
  match a with SetPlan _ _ fs => Forall (fun f => kind_on_wire (fs_kind f)) fs | _ => True end.

Lemma check_plan_ok fs : check_plan fs = Ok tt <-> plan_new fs = Ok {| faults := fs |}.
Proof.
  unfold check_plan. destruct (plan_new fs) as [p|e] eqn:E; [|by split].
  apply plan_new_value in E as ->. by split.
Qed.
Lemma check_dplan_ok fs : check_dplan fs = Ok tt <-> dplan_new fs = Ok {| dp_faults := fs |}.
Proof.
  unfold check_dplan. destruct (dplan_new fs) as [p|e] eqn:E; [|by split].
  apply dplan_new_value in E as ->. by split.
Qed.

Lemma action_back w a : action_v1_typed w -> action_into_internal w = Ok a ->
  action_from_internal a = w /\ (action_built a /\ action_wf a /\ action_on_wire a).
Proof.
  destruct w as [p d fs|p d id|p d fs|p d id]; cbn [action_into_internal action_v1_typed]; intros T H; steps H;
    injection H as <-; scalars; cbn.
  - destruct (collect_back _ fault_from_core _ (fun f => fault_built f /\ kind_on_wire (fs_kind f)) _ _
      (fun x y Tx Hx => fault_back x y Tx Hx) T ltac:(eassumption)) as [<- Hq].
    apply Forall_and in Hq as [Hb Ho]. split; [done|]. split; [done|]. split; [|done].
    apply check_plan_ok. by eapply unit_ok.
  - done.
  - destruct (collect_back _ dspec_from_core _ dfault_built _ _
      (fun x y Tx Hx => let '(conj a (conj b _)) := dfault_back x y Tx Hx in conj a b) T ltac:(eassumption)) as [<- Hq].
    split; [done|]. split; [done|]. split; [|done]. apply check_dplan_ok. by eapply unit_ok.
  - done.
Qed.

Lemma action_there a : action_built a -> action_wf a -> action_on_wire a ->
  action_into_internal (action_from_internal a) = Ok a.
Proof.
  destruct a as [p d fs|p d id|p d fs|p d id]; cbn; intros B W O.
  - rewrite (collect_round_trip scenario_fault_into_core).
    + by rewrite (proj2 (check_plan_ok fs) W).
    + apply plan_new_wf in W as [_ _ _ Hk]; [|done]. cbn [faults] in Hk.
      rewrite Forall_forall in *. intros f Hf. by apply fault_there; auto.
  - by rewrite (proj2 (wire_fault_id_ok _ _) (conj W eq_refl)).
  - rewrite (collect_round_trip dspec_into_core).
    + by rewrite (proj2 (check_dplan_ok fs) W).
    + apply dplan_new_wf in W as [_ _ _ _ Hk _]; [|done]. cbn [dp_faults] in Hk.
      rewrite Forall_forall in *. intros f Hf. by apply dfault_there; auto.
  - by rewrite (proj2 (wire_fault_id_ok _ _) (conj W eq_refl)).
Qed.

(** ** Schedules *)

(** The phases of both levels. *)
Definition source_phases (s : ScenarioScheduleV2) : list SchedulePhaseV2 :=
  src_phases s ++ match src_repeat s with Some r => rp_phases r | None => [] end.
Definition document_phases (d : ScenarioScheduleV2Dto) : list ScenarioPhaseV2Dto :=
  sd_phases d ++ match sd_repeat d with Some r => rpd_phases r | None => [] end.
Definition each_action (P : ScenarioAction -> Prop) (p : SchedulePhaseV2) : Prop := Forall P (ph_actions p).
Definition document_typed (d : ScenarioScheduleV2Dto) : Prop :=
  Forall (fun p => Forall action_v1_typed (pd_actions p)) (document_phases d).
Definition source_built (s : ScenarioScheduleV2) : Prop := Forall (each_action action_built) (source_phases s).
Definition source_on_wire (s : ScenarioScheduleV2) : Prop := Forall (each_action action_on_wire) (source_phases s).
Definition source_actions_wf (s : ScenarioScheduleV2) : Prop := Forall (each_action action_wf) (source_phases s).

Definition action_good (a : ScenarioAction) : Prop := action_built a /\ action_wf a /\ action_on_wire a.

Lemma phase_back w p : Forall action_v1_typed (pd_actions w) -> phase_into_internal w = Ok p ->
  phase_from_internal p = w /\ each_action action_good p.
Proof.
  intros T H. unfold phase_into_internal in H. steps H. injection H as <-.
  destruct (collect_back _ action_from_internal _ action_good _ _ action_back T ltac:(eassumption)) as [E G].
  split; [|done]. unfold phase_from_internal. cbn. rewrite E. by destruct w.
Qed.

Lemma phase_there p : each_action action_good p -> phase_into_internal (phase_from_internal p) = Ok p.
Proof.
  intros G. unfold phase_into_internal, phase_from_internal. cbn. rewrite collect_round_trip.
  - by destruct p.
  - eapply Forall_impl; [exact G|]. intros a (B & W & O). by apply action_there.
Qed.

Lemma phases_back ws ps : Forall (fun p => Forall action_v1_typed (pd_actions p)) ws ->
  collect phase_into_internal ws = Ok ps -> map phase_from_internal ps = ws /\ Forall (each_action action_good) ps.
Proof. intros T. by apply (collect_back _ _ _ _ _ _ phase_back). Qed.

Lemma phases_there ps : Forall (each_action action_good) ps ->
  collect phase_into_internal (map phase_from_internal ps) = Ok ps.
Proof. intros G. apply collect_round_trip. eapply Forall_impl; [exact G|]. apply phase_there. Qed.

Lemma good_split s : Forall (each_action action_good) (source_phases s) <->
  source_built s /\ source_actions_wf s /\ source_on_wire s.
Proof.
  unfold source_built, source_actions_wf, source_on_wire. rewrite <- !Forall_and. unfold each_action, action_good.
  split; intros H; (eapply Forall_impl; [exact H|]); intros p; cbn; by rewrite !Forall_and.
Qed.

Lemma schedule_back d s : document_typed d -> schedule_into_internal d = Ok s ->
  schedule_from_internal s = d /\ src_version s = 2 /\ Forall (each_action action_good) (source_phases s).
Proof.
  intros T H. unfold schedule_into_internal in H.
  destruct (Z.eqb_spec (sd_version d) SCHEDULE_SCHEMA_VERSION) as [Ev|]; [|discriminate]. cbn [negb] in H.
  apply Forall_app in T as [T1 T2].
  destruct (collect _ _) as [ps|] eqn:Ep; [|discriminate]. destruct (phases_back _ _ T1 Ep) as [E1 G1].
  unfold schedule_from_internal, source_phases. destruct d as [v sd k i c phs rep]. cbn in *.
  destruct rep as [[n rps]|]; cbn in *.
  - unfold repeat_into_internal in H. cbn in H. destruct (collect _ rps) as [qs|] eqn:Eq; [|discriminate].
    injection H as <-. cbn. destruct (phases_back _ _ T2 Eq) as [E2 G2].
    unfold repeat_from_internal. cbn. rewrite E1, E2. split; [done|]. split; [done|]. by apply Forall_app.
  - injection H as <-. cbn. rewrite E1, app_nil_r. done.
Qed.

Lemma schedule_there s : src_version s = 2 -> Forall (each_action action_good) (source_phases s) ->
  schedule_into_internal (schedule_from_internal s) = Ok s.
Proof.
  intros V G. unfold source_phases in G. apply Forall_app in G as [G1 G2].
  unfold schedule_into_internal, schedule_from_internal. cbn. rewrite V. cbn. rewrite phases_there by done.
  destruct s as [v sd k i c phs rep]. cbn in *. subst v.
  destruct rep as [[n rps]|]; cbn in *; [|done]. unfold repeat_into_internal, repeat_from_internal. cbn.
  by rewrite phases_there.
Qed.

Lemma collect_forall {A B E} (f : A -> result B E) (Q : B -> Prop) l k :
  (forall x y, f x = Ok y -> Q y) -> collect f l = Ok k -> Forall Q k.
Proof. intros Hf H. apply collect_ok in H. induction H; constructor; eauto. Qed.

(** Whatever its numbers, a document that converts has valid actions within the
    bound of the wire. *)
Lemma kind_result_on_wire w k : kind_into_core w = Ok k -> kind_on_wire k.
Proof.
  destruct w as [d j m|r b|c|n|d|a v d|a h|l c]; cbn [kind_into_core]; intros H; steps H; try (by injection H as <-).
  destruct (Z.ltb_spec MAX_LATENCY_BUFFER_BYTES m); [discriminate|]. steps H. injection H as <-. scalars. cbn. lia.
Qed.

Lemma action_result w a : action_into_internal w = Ok a -> action_wf a /\ action_on_wire a.
Proof.
  destruct w as [p d fs|p d id|p d fs|p d id]; cbn [action_into_internal]; intros H; steps H; injection H as <-;
    scalars; cbn; try done; split; try done.
  - apply check_plan_ok. by eapply unit_ok.
  - eapply collect_forall; [|eassumption]. intros x y Hx. unfold scenario_fault_into_core in Hx. steps Hx.
    injection Hx as <-. cbn. by eapply kind_result_on_wire.
  - apply check_dplan_ok. by eapply unit_ok.
Qed.

Lemma document_result d s : schedule_into_internal d = Ok s ->
  src_version s = 2 /\ source_actions_wf s /\ source_on_wire s.
Proof.
  intros H. unfold schedule_into_internal in H.
  destruct (Z.eqb_spec (sd_version d) SCHEDULE_SCHEMA_VERSION) as [Ev|]; [|discriminate]. cbn [negb] in H.
  assert (P : forall ws ps, collect phase_into_internal ws = Ok ps ->
    Forall (each_action (fun a => action_wf a /\ action_on_wire a)) ps).
  { intros ws ps. apply collect_forall. intros w p Hw. unfold phase_into_internal in Hw. steps Hw.
    injection Hw as <-. eapply collect_forall; [|eassumption]. apply action_result. }
  assert (G : src_version s = 2 /\ Forall (each_action (fun a => action_wf a /\ action_on_wire a)) (source_phases s)).
  { destruct (collect _ (sd_phases d)) as [ps|] eqn:Ep; [|discriminate]. apply P in Ep. unfold source_phases.
    destruct (sd_repeat d) as [r|]; cbn in H.
    - unfold repeat_into_internal in H. destruct (collect _ (rpd_phases r)) as [qs|] eqn:Eq; [|discriminate].
      injection H as <-. apply P in Eq. split; [done|]. by apply Forall_app.
    - injection H as <-. split; [done|]. cbn. by rewrite app_nil_r. }
  destruct G as [V G]. split; [done|]. unfold source_actions_wf, source_on_wire. rewrite <- Forall_and.
  eapply Forall_impl; [exact G|]. intros p. unfold each_action. by rewrite Forall_and.
Qed.

(** C28: schedule documents lose nothing.  A source whose actions are valid
    survives the trip to its wire document and back exactly when no latency
    fault of it has a buffer beyond 64 MiB; conversely a document that
    converts is given back, field for field, by the source it became. *)
Theorem schedule_documents_round_trip (s : ScenarioScheduleV2) (d : ScenarioScheduleV2Dto)
    (Hbuilt : source_built s) (Hvalid : source_actions_wf s) (Hversion : src_version s = SCHEDULE_SCHEMA_VERSION)
    (Hdoc : document_typed d) :
  (schedule_into_internal (schedule_from_internal s) = Ok s <-> source_on_wire s)
  /\ (forall s', schedule_into_internal d = Ok s' -> schedule_from_internal s' = d).
Proof.
  split; [split|].
  - intros H. by destruct (document_result _ _ H) as (_ & _ & O).
  - intros O. apply schedule_there; [done|]. by apply good_split.
  - intros s' H. by destruct (schedule_back d s' Hdoc H).
Qed.
