(* ===== verification/WireSpec.v ===== *)
(** * The contract of the wire documents

    JSON and TOML agree, documents compile without plan errors, validation of a
    request is validation of the plan it becomes, and the scenario and datagram
    proxy documents are accepted exactly when they are well formed. *)

From Stdlib Require Import Bool Sorted SpecFloat.
From stdpp Require Import base list gmap strings.
From S2P Require Import Prelude Rng Float64 Plan DatagramPlan Schedule ScheduleProps Wire WireSchedule WireProps.

(** ** JSON and TOML *)

(** The JSON document with the fields of a TOML one. *)
Definition toml_phase_dto (p : ScenarioPhaseV2Toml) : ScenarioPhaseV2Dto :=
  {| pd_name := pt_name p; pd_duration_ns := pt_duration_ns p; pd_actions := pt_actions p |}.
Definition toml_dto (t : ScenarioScheduleV2Toml) : ScenarioScheduleV2Dto := {|
  sd_version := stm_version t; sd_seed := stm_seed t; sd_execution_key := stm_execution_key t;
  sd_isolation := stm_isolation t; sd_cleanup := stm_cleanup t;
  sd_phases := map toml_phase_dto (stm_phases t);
  sd_repeat := option_map (fun r => {| rpd_count := rpt_count r; rpd_phases := map toml_phase_dto (rpt_phases r) |})
                          (stm_repeat t)
|}.

Lemma toml_phases ps : collect phase_into_internal (map toml_phase_dto ps) = collect toml_phase ps.
Proof. by rewrite collect_map. Qed.

Lemma toml_is_json t : toml_into_internal t = schedule_into_internal (toml_dto t).
Proof.
  unfold toml_into_internal, schedule_into_internal, toml_dto. cbn. case_match; [done|].
  rewrite toml_phases. destruct (collect toml_phase (stm_phases t)); [|done].
  destruct (stm_repeat t) as [r|]; cbn; [|done]. unfold repeat_into_internal. cbn. rewrite toml_phases.
  by destruct (collect toml_phase (rpt_phases r)).
Qed.

(** ** Compiling a converted document *)

Definition plan_error (e : ScheduleError) : bool :=
  match e with InvalidStreamPlan _ | InvalidDatagramPlan _ => true | _ => false end.
(** The result is not a plan error. *)
Definition plan_clean {A} (r : result A ScheduleError) : Prop := forall e, r = Err e -> plan_error e = false.

Lemma plan_clean_bind {A B} (r : result A ScheduleError) (f : A -> result B ScheduleError) :
  plan_clean r -> (forall a, r = Ok a -> plan_clean (f a)) -> plan_clean (let? a := r in f a).
Proof. intros Hr Hf. destruct r as [a|e]; [by apply Hf|]. intros e' [= <-]. by apply Hr. Qed.

Lemma plan_clean_ok {A} (a : A) : plan_clean (Ok a).
Proof. by intros e H. Qed.

Lemma check_all_clean {A} (check : A -> result unit ScheduleError) l :
  Forall (fun x => plan_clean (check x)) l -> plan_clean (check_all check l).
Proof.
  induction 1 as [|x l Hx _ IH]; [apply plan_clean_ok|]. cbn. by apply plan_clean_bind.
Qed.

Lemma check_phase_clean p : plan_clean (check_phase p).
Proof. intros e. unfold check_phase. repeat case_match; intros [= <-]; done. Qed.

Lemma validate_phase_clean p : each_action action_wf p -> plan_clean (validate_phase_actions p).
Proof.
  intros H e. unfold validate_phase_actions. case_match; [by intros [= <-]|].
  assert (Hc : plan_clean (check_all validate_action (ph_actions p))); [|apply Hc].
  apply check_all_clean. eapply Forall_impl; [exact H|]. intros a Ha e' E.
  apply validate_action_ok in Ha. congruence.
Qed.

Lemma emit_phase_clean i p t : plan_clean (emit_phase i p t).
Proof. intros e. unfold emit_phase, phase_target_offset. destruct (_ <=? _); intros [= <-]; done. Qed.

Lemma top_loop_clean i ps t : Forall (each_action action_wf) ps -> plan_clean (top_loop i ps t).
Proof.
  intros H; revert i t; induction H as [|p ps Hp _ IH]; intros i t; cbn; [apply plan_clean_ok|].
  apply plan_clean_bind; [by apply validate_phase_clean|]. intros _ _.
  apply plan_clean_bind; [apply emit_phase_clean|]. auto.
Qed.

Lemma block_loop_clean n i ps t : plan_clean (block_loop n i ps t).
Proof.
  revert i t; induction ps as [|p ps IH]; intros i t; cbn; [apply plan_clean_ok|].
  apply plan_clean_bind; [apply emit_phase_clean|]. auto.
Qed.

Lemma repeat_loop_clean n k ps t : plan_clean (repeat_loop n k ps t).
Proof.
  revert k t; induction n as [|n IH]; intros k t; cbn; [apply plan_clean_ok|].
  apply plan_clean_bind; [apply block_loop_clean|]. auto.
Qed.

Lemma count_events_clean n ps : plan_clean (count_events n ps).
Proof.
  revert n; induction ps as [|p ps IH]; intros n; cbn; [apply plan_clean_ok|].
  case_match; [apply IH|]. by intros e [= <-].
Qed.

Lemma check_structure_clean s : plan_clean (check_structure s).
Proof.
  unfold check_structure. case_match; [by intros e [= <-]|]. case_match; [by intros e [= <-]|].
  assert (C : forall ps, plan_clean (check_all check_phase ps)).
  { intros ps. apply check_all_clean. apply Forall_true. apply check_phase_clean. }
  apply plan_clean_bind.
  { intros e. unfold check_repeat_bounds. repeat case_match; intros [= <-]; done. }
  intros _ _. apply plan_clean_bind; [apply C|]. intros _ _. apply plan_clean_bind.
  { case_match; [|apply plan_clean_ok]. case_match; [by intros e [= <-]|].
    apply plan_clean_bind; [apply C|]. intros _ _. apply plan_clean_ok. }
  intros b _ e. case_match; intros [= <-]; done.
Qed.

Lemma compile_clean s : source_actions_wf s -> plan_clean (compile_schedule s).
Proof.
  intros H. unfold source_actions_wf, source_phases in H. apply Forall_app in H as [H1 H2].
  unfold compile_schedule. apply plan_clean_bind; [apply check_structure_clean|]. intros _ _.
  apply plan_clean_bind; [apply count_events_clean|]. intros n _.
  apply plan_clean_bind.
  { intros e. unfold check_event_count. destruct (_ <? _); [|done]. intros He. by injection He as <-. }
  intros _ _. apply plan_clean_bind; [by apply top_loop_clean|]. intros t _. apply plan_clean_bind.
  - unfold expand_repeat. destruct (src_repeat s) as [r|]; [|apply plan_clean_ok].
    case_match; [by intros e [= <-]|]. case_match; [by intros e [= <-]|].
    apply plan_clean_bind; [|intros _ _; apply repeat_loop_clean].
    apply check_all_clean. eapply Forall_impl; [exact H2|]. apply validate_phase_clean.
  - intros t' _ e. destruct (MAX_COMPILED_EVENTS <? zlen (tp_events t')); intros [= <-]; done.
Qed.

(** Documents fail early.  A TOML document converts like the JSON document
    with the same fields, errors included; and once a document has converted,
    its actions are valid, so compiling it can fail only on shape - counts,
    names, repetition, total duration - never with a plan error. *)
Theorem documents_fail_early (t : ScenarioScheduleV2Toml) :
  toml_into_internal t = schedule_into_internal (toml_dto t)
  /\ forall s, toml_into_internal t = Ok s ->
     source_actions_wf s /\ forall e, compile_schedule s = Err e -> plan_error e = false.
Proof.
  split; [apply toml_is_json|]. intros s H. rewrite toml_is_json in H.
  destruct (document_result _ _ H) as (_ & W & _). split; [done|]. by apply compile_clean.
Qed.

(** ** Fault requests *)

Lemma kind_validate_ok k : kind_validate k = Ok tt <-> exists kind, kind_into_core k = Ok kind /\ kind_wf kind.
Proof.
  unfold kind_validate. destruct (kind_into_core k) as [kind|e]; [|split; [discriminate|by intros (? & ? & _)]].
  change (wire_fault_id "validation") with (@Ok FaultId string "validation"%string).
  replace (wire_probability f64_one) with (@Ok Probability string f64_one) by (by vm_compute).
  set (f := {| fs_id := "validation"%string; fs_probability := f64_one; fs_kind := kind |}).
  unfold plan_new. cbn -[fault_validate]. split.
  - destruct (fault_validate f) as [[]|e] eqn:E; [|discriminate]. intros _. exists kind. split; [done|].
    by apply (fault_validate_ok f).
  - intros (k' & [= <-] & W). by rewrite (proj2 (fault_validate_ok f) W).
Qed.

Lemma upsert_into_core_some u f : upsert_into_core u = Ok (up_direction u, f) <->
  wire_fault_id (up_id u) = Ok (fs_id f) /\ wire_probability (up_probability u) = Ok (fs_probability f)
  /\ kind_into_core (up_kind u) = Ok (fs_kind f).
Proof.
  unfold upsert_into_core. destruct f as [i p k]; cbn.
  destruct (wire_fault_id _); [|intuition discriminate].
  destruct (wire_probability _); [|intuition discriminate].
  destruct (kind_into_core _); intuition congruence.
Qed.

(** Validating a request is validating the plan.  A fault request passes its
    own validation exactly when it converts and the fault it becomes is one a
    plan accepts - conversion alone does not check the 24 hour and slice bounds
    - so for any valid plan with room and without that identity, adding the
    converted fault succeeds exactly for the requests that validate. *)
Theorem requests_validate_like_plans (u : FaultUpsertV1) (p : FaultPlan) (f : FaultSpec)
    (Hroom : zlen (faults p) < MAX_STREAM_FAULTS) (Hnew : fs_id f ∉ map fs_id (faults p))
    (Hconv : upsert_into_core u = Ok (up_direction u, f)) :
  (upsert_validate u = Ok tt <-> kind_wf (fs_kind f))
  /\ (upsert_validate u = Ok tt <-> with_fault p f = Ok {| faults := faults p ++ [f] |}).
Proof.
  apply upsert_into_core_some in Hconv as (Hi & Hp & Hk).
  assert (V : upsert_validate u = Ok tt <-> kind_wf (fs_kind f)).
  { unfold upsert_validate. rewrite Hi, Hp, kind_validate_ok, Hk. split; [by intros (k & [= <-] & ?)|by eauto]. }
  split; [done|]. rewrite V. unfold with_fault.
  destruct (Z.leb_spec MAX_STREAM_FAULTS (zlen (faults p))); [lia|].
  apply plan_get_none in Hnew. rewrite Hnew. cbn. rewrite <- fault_validate_ok.
  by destruct (fault_validate f) as [[]|e].
Qed.

(** ** Scenario V1 *)

Lemma v1_validate_converts a :
  v1_validate_action a = (let? _a := action_into_internal a in Ok tt).
Proof.
  destruct a as [p d fs|p d id|p d fs|p d id]; cbn.
  - destruct (collect _ _); [|done]. by destruct (check_plan _) as [[]|].
  - by destruct (wire_fault_id id).
  - destruct (collect _ _); [|done]. by destruct (check_dplan _) as [[]|].
  - by destruct (wire_fault_id id).
Qed.

Definition v1_event_ok (e : ScenarioEventV1) : Prop :=
  validate_proxy_name (action_proxy (sev_action e)) = Ok tt
  /\ exists a, action_into_internal (sev_action e) = Ok a.

Lemma sorted_cons_iff x y l : Sorted Z.le (x :: y :: l) <-> x <= y /\ Sorted Z.le (y :: l).
Proof.
  split.
  - intros H. apply Sorted_inv in H as [H1 H2]. inversion H2; subst. done.
  - intros [H1 H2]. constructor; [done|]. by constructor.
Qed.

Lemma v1_events_loop_ok events : forall previous, v1_events_loop previous events = Ok tt <->
  Sorted Z.le (previous :: map sev_at_ms events) /\ Forall v1_event_ok events.
Proof.
  induction events as [|e events IH]; intros previous; cbn [v1_events_loop map].
  - split; [|done]. intros _. split; [|done]. repeat constructor.
  - rewrite sorted_cons_iff, Forall_cons. destruct (Z.ltb_spec (sev_at_ms e) previous); [split; [done|lia]|].
    unfold v1_event_ok at 1. rewrite v1_validate_converts.
    destruct (validate_proxy_name _) as [[]|]; [|split; [done|]; intros (_ & (? & _) & _); done].
    destruct (action_into_internal _) as [a|]; [|split; [done|]; intros (_ & (_ & ? & ?) & _); done].
    rewrite IH. split; [|tauto]. intros [? ?]. split; [done|]. eauto.
Qed.

Lemma sorted_from_zero l : Forall (fun x => 0 <= x) l -> Sorted Z.le (0 :: l) <-> Sorted Z.le l.
Proof.
  intros H. destruct l as [|x l]; [split; repeat constructor|]. apply Forall_cons in H as [H _].
  rewrite sorted_cons_iff. tauto.
Qed.

(** Scenario documents.  A V1 scenario validates exactly when its version is
    1, it has at most 1024 events in the order of their times, its proxy names
    are path segments and every action converts; it then converts to those
    actions at those times, each one valid, and otherwise validation and
    conversion report the same error. *)
Theorem scenario_v1_conversion (s : ScenarioV1) (Htyped : Forall (fun e => 0 <= sev_at_ms e) (sv_events s)) :
  (scenario_validate s = Ok tt <->
     sv_version s = 1 /\ zlen (sv_events s) <= 1024 /\ Sorted Z.le (map sev_at_ms (sv_events s))
     /\ Forall v1_event_ok (sv_events s))
  /\ (scenario_validate s = Ok tt -> exists l, into_core_actions s = Ok l
        /\ Forall2 (fun e x => x.1 = sev_at_ms e /\ action_into_internal (sev_action e) = Ok x.2) (sv_events s) l
        /\ Forall (fun x => action_wf x.2) l)
  /\ (forall e, scenario_validate s = Err e <-> into_core_actions s = Err e).
Proof.
  assert (V : scenario_validate s = Ok tt <->
     sv_version s = 1 /\ zlen (sv_events s) <= 1024 /\ Sorted Z.le (map sev_at_ms (sv_events s))
     /\ Forall v1_event_ok (sv_events s)).
  { unfold scenario_validate. destruct (Z.eqb_spec (sv_version s) 1); cbn [negb]; [|split; [done|tauto]].
    destruct (Z.ltb_spec 1024 (zlen (sv_events s))); [split; [done|lia]|].
    rewrite v1_events_loop_ok, sorted_from_zero by (by rewrite Forall_map). intuition. }
  assert (C : scenario_validate s = Ok tt -> exists l, into_core_actions s = Ok l
        /\ Forall2 (fun e x => x.1 = sev_at_ms e /\ action_into_internal (sev_action e) = Ok x.2) (sv_events s) l
        /\ Forall (fun x => action_wf x.2) l).
  { intros H. unfold into_core_actions. rewrite H. apply V in H as (_ & _ & _ & H).
    clear Htyped V. induction H as [|e es [_ [a Ha]] _ (l & El & Hl & Wl)]; cbn.
    - by exists [].
    - rewrite Ha, El. exists ((sev_at_ms e, a) :: l). split; [done|]. split; [by constructor|].
      constructor; [|done]. cbn. by apply action_result in Ha as [? _]. }
  split; [exact V|]. split; [exact C|]. intros e. split; intros H.
  - unfold into_core_actions. by rewrite H.
  - destruct (scenario_validate s) as [[]|e'] eqn:E.
    + destruct (C eq_refl) as (l & El & _). congruence.
    + unfold into_core_actions in H. rewrite E in H. by injection H as <-.
Qed.

(** ** Datagram proxies *)

Lemma all_new_ok ids l : all_new ids l = true <-> NoDup l /\ forall x, x ∈ l -> x ∉ ids.
Proof.
  revert ids; induction l as [|x l IH]; intros ids; cbn.
  - split; [|done]. intros _. split; [constructor|]. intros x Hx. by apply not_elem_of_nil in Hx.
  - rewrite andb_true_iff, IH, negb_true_iff, bool_decide_eq_false.
    pose proof (fresh_ids_cons (fun s => s) x l ids) as F. rewrite !map_id in F. tauto.
Qed.

(** What the field types of a request guarantee. *)
Record request_typed (r : NativeDatagramProxyRequestV1) : Prop := {
  rq_associations : 0 <= dr_max_associations r;
  rq_idle : 0 <= dr_association_idle_timeout_ms r;
  rq_datagrams : 0 <= dr_max_queued_datagrams r;
  rq_bytes : 0 <= dr_max_queued_bytes r;
  rq_size : 0 <= dr_max_datagram_size r;
  rq_up : Forall (fun f => dkind_v1_typed (df_kind f)) (dr_upstream_faults r);
  rq_down : Forall (fun f => dkind_v1_typed (df_kind f)) (dr_downstream_faults r)
}.

Definition request_limits (r : NativeDatagramProxyRequestV1) : DatagramQueueLimits :=
  {| max_queued_datagrams := dr_max_queued_datagrams r; max_queued_bytes := dr_max_queued_bytes r;
     max_datagram_bytes := dr_max_datagram_size r |}.

(** The well-formed requests, with the parts they denote. *)
Record request_parts (r : NativeDatagramProxyRequestV1) (up down : list DatagramFaultSpec) : Prop := {
  rp_name : validate_proxy_name (dr_name r) = Ok tt;
  rp_associations : 1 <= dr_max_associations r <= MAX_CONNECTION_LIMIT;
  rp_idle : 1 <= dr_association_idle_timeout_ms r <= MAX_IDLE_MS;
  rp_limits : limits_ok (request_limits r);
  rp_up : collect dspec_into_core (dr_upstream_faults r) = Ok up;
  rp_down : collect dspec_into_core (dr_downstream_faults r) = Ok down;
  rp_ids : NoDup (map dg_id (up ++ down));
  rp_up_wf : dplan_wf {| dp_faults := up |};
  rp_down_wf : dplan_wf {| dp_faults := down |}
}.
Definition parts_of (r : NativeDatagramProxyRequestV1) (up down : list DatagramFaultSpec) : DatagramProxyCoreParts :=
  {| dc_name := dr_name r; dc_listen := dr_listen r; dc_upstream := dr_upstream r;
     dc_max_associations := dr_max_associations r;
     dc_association_idle_timeout_ms := dr_association_idle_timeout_ms r;
     dc_queue_limits := request_limits r; dc_seed := dr_seed r;
     dc_upstream_faults := up; dc_downstream_faults := down |}.

Lemma out_of_range x m : 0 <= x -> ((x =? 0) || (m <? x) = false <-> 1 <= x <= m).
Proof. intros H. rewrite orb_false_iff, Z.eqb_neq, Z.ltb_ge. lia. Qed.

Lemma request_limits_ok r l : request_typed r ->
  request_queue_limits r = Ok l <-> l = request_limits r /\ limits_ok (request_limits r).
Proof.
  intros []. unfold request_queue_limits. split.
  - intros H. steps H. scalars. unfold limits_validate in H.
    destruct (_ || _) eqn:E in H; [done|]. injection H as <-. cbn in E. bools. split; [done|]. split; cbn; lia.
  - intros [-> [L1 L2 L3]]. unfold nonzero_or. cbn in *.
    repeat match goal with |- context [?x =? 0] => replace (x =? 0) with false by lia end.
    unfold limits_validate, request_limits. cbn [max_queued_datagrams max_queued_bytes max_datagram_bytes].
    match goal with |- (if ?b then _ else _) = _ => assert (E : b = false); [|by rewrite E] end.
    rewrite !orb_false_iff, !Z.ltb_ge. lia.
Qed.

Lemma dfaults_built ws fs : Forall (fun f => dkind_v1_typed (df_kind f)) ws ->
  collect dspec_into_core ws = Ok fs -> Forall dfault_built fs.
Proof.
  intros T H. by apply (collect_back _ dspec_from_core _ dfault_built _ _
    (fun x y Tx Hx => let '(conj a (conj b _)) := dfault_back x y Tx Hx in conj a b) T H).
Qed.

Lemma dplan_new_ok fs p : dplan_new fs = Ok p -> dplan_new fs = Ok {| dp_faults := fs |}.
Proof. intros H. by rewrite <- (dplan_new_value _ _ H). Qed.

(** Datagram proxy requests are checked completely.  A request converts
    exactly when its name is a path segment, its association cap and idle time
    are in range, its queue limits are acceptable, all its faults convert, the
    fault identities of the two directions are all distinct, and both fault
    lists are valid plans; the parts are then the request's own fields. *)
Theorem datagram_requests_are_checked (r : NativeDatagramProxyRequestV1) (Ht : request_typed r)
    (parts : DatagramProxyCoreParts) :
  request_into_core_parts r = Ok parts <->
  exists up down, request_parts r up down /\ parts = parts_of r up down.
Proof.
  pose proof Ht as [Ha Hi _ _ _ Hu Hd].
  unfold request_into_core_parts. split.
  - intros H. destruct (validate_proxy_name _) as [[]|] eqn:En; [|done].
    destruct (_ || _) eqn:Ea in H; [done|]. destruct (_ || _) eqn:Ei in H; [done|].
    apply out_of_range in Ea, Ei; [|done..]. steps H.
    destruct (all_new _ _) eqn:Eq in H; [|done]. cbn [negb] in H. steps H. injection H as <-.
    apply (request_limits_ok r _ Ht) in Heqr0 as [-> Hl]. apply all_new_ok in Eq as [Eq _].
    eexists _, _. split; [|reflexivity]. split; try done.
    + apply (dplan_new_wf _ (dfaults_built _ _ Hu Heqr1)). by eapply dplan_new_ok.
    + apply (dplan_new_wf _ (dfaults_built _ _ Hd Heqr2)). by eapply dplan_new_ok.
  - intros (up & down & [Hn Has Hid Hl Eu Ed Hq Wu Wd] & ->).
    rewrite Hn, (proj2 (out_of_range _ _ Ha) Has), (proj2 (out_of_range _ _ Hi) Hid).
    rewrite (proj2 (request_limits_ok r _ Ht) (conj eq_refl Hl)), Eu, Ed.
    rewrite (proj2 (all_new_ok ∅ _)) by (split; [done|]; intros x _; apply not_elem_of_empty). cbn [negb].
    rewrite (proj2 (dplan_new_wf up (dfaults_built _ _ Hu Eu)) Wu).
    by rewrite (proj2 (dplan_new_wf down (dfaults_built _ _ Hd Ed)) Wd).
Qed.

(** ** Runtime configuration *)

(** A configuration that validates never fails later, and the defaults do. *)
Lemma runtime_config_total c : runtime_validate c = Ok tt -> 0 <= rt_relay_buffer_bytes c ->
  relay_buffer c = Ok (rt_relay_buffer_bytes c)
  /\ termination_grace c = Ok (duration_from_millis (rt_termination_grace_ms c)).
Proof.
  unfold runtime_validate, relay_buffer, termination_grace. intros H H0.
  destruct (_ || _) in H; [done|]. destruct (_ <? _) in H; [done|].
  destruct ((rt_relay_buffer_bytes c =? 0) || _) eqn:E in H; [done|].
  destruct (MAX_TIMEOUT_MS <? _); [done|]. split; [|done]. apply out_of_range in E; [|done].
  unfold MAX_RELAY_BUFFER_BYTES, USIZE_MAX, U64_MAX in *.
  destruct (Z.ltb_spec 18446744073709551615 (rt_relay_buffer_bytes c)); [lia|].
  destruct (Z.ltb_spec (16 * 1024 * 1024) (rt_relay_buffer_bytes c)); [lia|].
  apply nonzero_or_ok. split; [lia|done].
Qed.

Lemma runtime_default_validates : runtime_validate runtime_default = Ok tt.
Proof. reflexivity. Qed.

(** * At concrete inputs *)

(** A stream fault is convertible without being acceptable to a plan. *)
Example late_disconnect_converts :
  let k := DisconnectV1 (MAX_STREAM_FAULT_DURATION + 1) false in
  is_ok (kind_into_core k) = true /\ kind_validate k = Err "fault delay duration must be at most 24 hours"%string.
Proof. by vm_compute. Qed.

(** A buffer of 128 MiB is legal in a plan but has no wire form. *)
Example big_buffer_is_refused :
  kind_into_core (kind_from_core (Latency {| lat_delay := 0; lat_jitter := 0; lat_max_buffer_bytes := 134217728 |}))
  = Err "max_buffer_bytes must be at most 67108864"%string.
Proof. by vm_compute. Qed.

Example defaults_convert :
  is_ok (request_into_core_parts
    (datagram_request_default "dns" (SocketV4 2130706433 0) (SocketV4 2130706433 5353))) = true.
Proof. by vm_compute. Qed.

Lemma schedule_documents_round_trip_witness :
  schedule_into_internal (schedule_from_internal demo_source) = Ok demo_source
  /\ schedule_from_internal demo_source = schedule_from_internal demo_source.
Proof.
  assert (B : source_built demo_source /\ source_actions_wf demo_source /\ source_on_wire demo_source).
  { apply good_split. repeat constructor; vm_compute; try done; try (by split). all: try (intros; discriminate). }
  destruct B as (B & W & O).
  assert (D : document_typed (schedule_from_internal demo_source)).
  { repeat constructor; vm_compute; try done; try (by split). all: try (intros; discriminate). }
  destruct (schedule_documents_round_trip demo_source (schedule_from_internal demo_source) B W eq_refl D) as [E F].
  assert (R := proj2 E O). split; [exact R|]. exact (F _ R).
Defined.

Definition demo_toml : ScenarioScheduleV2Toml := {|
  stm_version := 2; stm_seed := 7; stm_execution_key := 1; stm_isolation := Strict; stm_cleanup := Leave;
  stm_phases := [{| pt_name := None; pt_duration_ns := 100;
                    pt_actions := [SetPlanV1 "web" Upstream
                      [{| sf_id := "lag"; sf_probability := f64_one; sf_kind := LatencyV1 1000 0 65536 |}]] |}];
  stm_repeat := None
|}.

Lemma documents_fail_early_witness :
  match toml_into_internal demo_toml with
  | Ok s => source_actions_wf s
  | Err _ => False
  end.
Proof.
  pose proof (proj2 (documents_fail_early demo_toml)) as H.
  destruct (toml_into_internal demo_toml) as [s|e] eqn:E; [by destruct (H s eq_refl)|].
  vm_compute in E. discriminate E.
Defined.

Definition demo_upsert : FaultUpsertV1 :=
  {| up_direction := Upstream; up_id := "slow"; up_probability := f64_one; up_kind := SliceV1 1024 100 0 |}.
Definition demo_upsert_fault : FaultSpec := {|
  fs_id := "slow"; fs_probability := f64_one;
  fs_kind := Slice {| sl_average_size := 1024; sl_variation := 100; sl_delay := 0 |}
|}.

Lemma requests_validate_like_plans_witness :
  with_fault demo_plan demo_upsert_fault = Ok {| faults := faults demo_plan ++ [demo_upsert_fault] |}.
Proof.
  assert (N : fs_id demo_upsert_fault ∉ map fs_id (faults demo_plan)) by (refine (bool_decide_unpack _ _); by vm_compute).
  apply (requests_validate_like_plans demo_upsert demo_plan demo_upsert_fault); [by vm_compute|exact N|by vm_compute..].
Defined.

Definition demo_scenario : ScenarioV1 := {|
  sv_version := 1; sv_seed := 7;
  sv_events := [{| sev_at_ms := 25; sev_action := RemoveFaultV1 "cache" Upstream "delay" |};
                {| sev_at_ms := 25; sev_action := SetPlanV1 "cache" Downstream [] |}]
|}.

Lemma scenario_v1_conversion_witness : exists l, into_core_actions demo_scenario = Ok l
  /\ Forall2 (fun e x => x.1 = sev_at_ms e /\ action_into_internal (sev_action e) = Ok x.2) (sv_events demo_scenario) l
  /\ Forall (fun x => action_wf x.2) l.
Proof.
  assert (T : Forall (fun e => 0 <= sev_at_ms e) (sv_events demo_scenario)) by (repeat constructor; by vm_compute).
  apply (proj1 (proj2 (scenario_v1_conversion demo_scenario T))). by vm_compute.
Defined.

Definition demo_request : NativeDatagramProxyRequestV1 := {|
  dr_name := "dns"; dr_listen := SocketV4 2130706433 0; dr_upstream := SocketV4 2130706433 5353;
  dr_max_associations := 256; dr_association_idle_timeout_ms := 60000;
  dr_max_queued_datagrams := 1024; dr_max_queued_bytes := 4194304; dr_max_datagram_size := 65507; dr_seed := 0;
  dr_upstream_faults := [{| df_id := "drop"; df_probability := f64_half; df_kind := LossV1 |}];
  dr_downstream_faults := [{| df_id := "echo"; df_probability := f64_one; df_kind := DuplicateV1 2 |}]
|}.

Lemma datagram_requests_are_checked_witness :
  exists up down, request_parts demo_request up down
    /\ request_into_core_parts demo_request = Ok (parts_of demo_request up down).
Proof.
  assert (T : request_typed demo_request) by (split; repeat constructor; by vm_compute).
  destruct (request_into_core_parts demo_request) as [parts|e] eqn:E; [|vm_compute in E; discriminate E].
  destruct (proj1 (datagram_requests_are_checked demo_request T parts) E) as (up & down & H & ->).
  by exists up, down.
Defined.
