(* ===== verification/Toxic.v ===== *)
(** * Toxiproxy toxics
      ([crates/eggchaos-toxiproxy/src/lib.rs])

    The translation of Toxiproxy v2.12 toxics to faults and back, the merge of
    toxic updates, and proxy documents.  A toxic's type is a string; the
    [match] on it is a chain of tests.  Rendered JSON is a record: its names,
    strings and numbers, in the order of the code. *)

From Stdlib Require Import Bool SpecFloat.
From stdpp Require Import base list gmap strings.
From S2P Require Import Prelude Rng Float64 Plan Schedule Fingerprint Wire.

(** ** Errors and profiles *)

Record CompatError := { ce_status : Z; ce_message : string }.
Definition compat_new (status : Z) (message : string) : CompatError := {| ce_status := status; ce_message := message |}.
Definition proxy_not_found : CompatError := compat_new 404 "proxy not found".
Definition toxic_not_found : CompatError := compat_new 404 "toxic not found".
Definition proxy_exists : CompatError := compat_new 409 "proxy already exists".
Definition toxic_exists : CompatError := compat_new 409 "toxic already exists".
Definition invalid_type : CompatError := compat_new 400 "invalid toxic type".
Definition invalid_stream : CompatError := compat_new 400 "stream was invalid, can be either upstream or downstream".

Inductive CompatibilityError :=
| CInvalid (message : string)
| CUnsupported (kind : string)
| CAddress (message : string).
Definition compat_from (e : CompatibilityError) : CompatError :=
  match e with
  | CInvalid message | CAddress message => compat_new 400 message
  | CUnsupported _ => invalid_type
  end.

Inductive CompatProfile := StrictV2_12 | PostV2_12_2026_09_25.
Definition profile_default : CompatProfile := StrictV2_12.
Definition profile_as_str (p : CompatProfile) : string :=
  match p with StrictV2_12 => "strict-v2.12" | PostV2_12_2026_09_25 => "post-v2.12-2026-09-25" end.
Definition accepts_packet_loss (p : CompatProfile) : bool :=
  match p with StrictV2_12 => false | PostV2_12_2026_09_25 => true end.
Definition version (p : CompatProfile) : string :=
  match p with StrictV2_12 => "2.12.0" | PostV2_12_2026_09_25 => "git" end.

(** ** Toxics *)

Record ToxicAttributes := {
  ta_latency : option Z;
  ta_jitter : option Z;
  ta_rate : option Z;
  ta_average_size : option Z;
  ta_size_variation : option Z;
  ta_delay : option Z;
  ta_timeout : option Z;
  ta_bytes : option Z;
  ta_loss_rate : option f64;
  ta_correlation : option f64
}.
Definition attrs_default : ToxicAttributes := {|
  ta_latency := None; ta_jitter := None; ta_rate := None; ta_average_size := None; ta_size_variation := None;
  ta_delay := None; ta_timeout := None; ta_bytes := None; ta_loss_rate := None; ta_correlation := None
|}.

(** The struct literals with [..ToxicAttributes::default()]. *)
Definition latency_attrs (latency jitter : option Z) : ToxicAttributes := {|
  ta_latency := latency; ta_jitter := jitter; ta_rate := None; ta_average_size := None; ta_size_variation := None;
  ta_delay := None; ta_timeout := None; ta_bytes := None; ta_loss_rate := None; ta_correlation := None
|}.
Definition rate_attrs (rate : option Z) : ToxicAttributes := {|
  ta_latency := None; ta_jitter := None; ta_rate := rate; ta_average_size := None; ta_size_variation := None;
  ta_delay := None; ta_timeout := None; ta_bytes := None; ta_loss_rate := None; ta_correlation := None
|}.
Definition slicer_attrs (average_size size_variation delay : option Z) : ToxicAttributes := {|
  ta_latency := None; ta_jitter := None; ta_rate := None; ta_average_size := average_size;
  ta_size_variation := size_variation; ta_delay := delay; ta_timeout := None; ta_bytes := None;
  ta_loss_rate := None; ta_correlation := None
|}.
Definition delay_attrs (delay : option Z) : ToxicAttributes := slicer_attrs None None delay.
Definition timeout_attrs (timeout : option Z) : ToxicAttributes := {|
  ta_latency := None; ta_jitter := None; ta_rate := None; ta_average_size := None; ta_size_variation := None;
  ta_delay := None; ta_timeout := timeout; ta_bytes := None; ta_loss_rate := None; ta_correlation := None
|}.
Definition bytes_attrs (n : option Z) : ToxicAttributes := {|
  ta_latency := None; ta_jitter := None; ta_rate := None; ta_average_size := None; ta_size_variation := None;
  ta_delay := None; ta_timeout := None; ta_bytes := n; ta_loss_rate := None; ta_correlation := None
|}.
Definition loss_attrs (loss_rate correlation : option f64) : ToxicAttributes := {|
  ta_latency := None; ta_jitter := None; ta_rate := None; ta_average_size := None; ta_size_variation := None;
  ta_delay := None; ta_timeout := None; ta_bytes := None; ta_loss_rate := loss_rate; ta_correlation := correlation
|}.

Record Toxic := {
  tx_name : option string;
  tx_type : string;
  tx_stream : string;
  tx_toxicity : f64;
  tx_attributes : ToxicAttributes
}.
Record ToxicUpdate := {
  tu_type : option string;
  tu_stream : option string;
  tu_toxicity : option f64;
  tu_attributes : option ToxicAttributes
}.

(** ** Scalars *)

(** [str::eq_ignore_ascii_case]. *)
Definition ascii_lower (b : Z) : Z := if (65 <=? b) && (b <=? 90) then b + 32 else b.
Definition eq_ignore_ascii_case (a b : string) : bool :=
  bool_decide (map ascii_lower (as_bytes a) = map ascii_lower (as_bytes b)).

Definition parse_stream (stream : string) : result Direction CompatError :=
  if eq_ignore_ascii_case stream "upstream" then Ok Upstream
  else if eq_ignore_ascii_case stream "downstream" then Ok Downstream
  else Err invalid_stream.

(** [f64::clamp(0.0, 1.0)]. *)
Definition clamp_probability (value : f64) : f64 :=
  let value := if SFltb value f64_zero then f64_zero else value in
  if SFltb f64_one value then f64_one else value.
Definition clamp_toxicity (toxicity : f64) : result f64 CompatError :=
  if f64_is_finite toxicity then Ok (clamp_probability toxicity)
  else Err (compat_new 400 "toxicity must be finite").

Definition unwrap_or {A} (o : option A) (d : A) : A := match o with Some a => a | None => d end.
Definition duration_from_micros (us : Z) : Duration := us * 1000.
(** [as_millis] and [as_micros], clamped to [u64]. *)
Definition as_millis (d : Duration) : Z := Z.min (d / 1000000) U64_MAX.
Definition as_micros (d : Duration) : Z := Z.min (d / 1000) U64_MAX.

(** ** From toxics to faults *)

Definition compat_probability (value : f64) : result Probability CompatError :=
  map_err (compat_new 400) (wire_probability value).

Definition kind_from_attrs (kind : string) (a : ToxicAttributes) (profile : CompatProfile)
    : result FaultKind CompatError :=
  if bool_decide (kind = "latency")%string then
    Ok (Latency {| lat_delay := duration_from_millis (unwrap_or (ta_latency a) 0);
                   lat_jitter := duration_from_millis (unwrap_or (ta_jitter a) 0);
                   lat_max_buffer_bytes := 64 * 1024 |})
  else if bool_decide (kind = "bandwidth")%string then
    Ok (Bandwidth {| bw_bytes_per_second := sat_mul64 (Z.max (unwrap_or (ta_rate a) 1) 1) 1024;
                     bw_burst_bytes := 64 * 1024 |})
  else if bool_decide (kind = "timeout")%string then
    Ok (Blackhole {| bh_close_after :=
          match ta_timeout a with
          | Some timeout => if 0 <? timeout then Some (duration_from_millis timeout) else None
          | None => None
          end |})
  else if bool_decide (kind = "slow_close")%string then
    Ok (SlowClose {| sc_delay := duration_from_millis (unwrap_or (ta_delay a) 0) |})
  else if bool_decide (kind = "reset_peer")%string then
    Ok (Disconnect {| dc_after := duration_from_millis (unwrap_or (ta_timeout a) 0); dc_hard_reset := true |})
  else if bool_decide (kind = "slicer")%string then
    Ok (Slice {| sl_average_size := Z.max (unwrap_or (ta_average_size a) 1) 1;
                 sl_variation := unwrap_or (ta_size_variation a) 0;
                 sl_delay := duration_from_micros (unwrap_or (ta_delay a) 0) |})
  else if bool_decide (kind = "limit_data")%string then
    Ok (LimitData {| ld_bytes := Z.max (unwrap_or (ta_bytes a) 1) 1 |})
  else if bool_decide (kind = "packet_loss")%string then
    if negb (accepts_packet_loss profile) then Err invalid_type
    else
      let? loss_rate := compat_probability (clamp_probability (unwrap_or (ta_loss_rate a) f64_zero)) in
      let? correlation := compat_probability (clamp_probability (unwrap_or (ta_correlation a) f64_zero)) in
      Ok (StreamLoss {| slc_loss_rate := loss_rate; slc_correlation := correlation |})
  else Err invalid_type.

Definition TOXIC_TYPES : list string :=
  ["latency"; "bandwidth"; "timeout"; "slow_close"; "reset_peer"; "slicer"; "limit_data"; "packet_loss"]%string.

(** [name.filter(|n| !n.is_empty()).unwrap_or_else(<type>_<stream>)]. *)
Definition toxic_name (name : option string) (kind : string) (direction : Direction) : string :=
  match name with
  | Some (String c s) => String c s
  | _ => (kind +:+ "_" +:+ direction_as_str direction)%string
  end.

Definition to_fault_with_profile (t : Toxic) (profile : CompatProfile)
    : result (Direction * FaultSpec) CompatibilityError :=
  let? direction := map_err (fun e => CInvalid (ce_message e)) (parse_stream (tx_stream t)) in
  if negb (bool_decide (tx_type t ∈ TOXIC_TYPES)) then Err (CUnsupported (tx_type t))
  else if bool_decide (tx_type t = "packet_loss")%string && negb (accepts_packet_loss profile)
  then Err (CUnsupported "packet_loss")
  else
    let? kind := map_err (fun e => CInvalid (ce_message e)) (kind_from_attrs (tx_type t) (tx_attributes t) profile) in
    let? id := map_err CInvalid (wire_fault_id (toxic_name (tx_name t) (tx_type t) direction)) in
    let? toxicity := map_err (fun e => CInvalid (ce_message e)) (clamp_toxicity (tx_toxicity t)) in
    let? probability := map_err CInvalid (wire_probability toxicity) in
    Ok (direction, {| fs_id := id; fs_probability := probability; fs_kind := kind |}).

Definition to_fault (t : Toxic) : result (Direction * FaultSpec) CompatibilityError :=
  to_fault_with_profile t profile_default.

(** ** From faults to toxics *)

(** [((bytes_per_second + 512) / 1024).max(1)]: a plain [u64] addition, which
    wraps in the release profile and panics with overflow checks. *)
Definition export_rate (bytes_per_second : Z) : Z := Z.max (wadd bytes_per_second 512 / 1024) 1.
Definition export_rate_fits (bytes_per_second : Z) : bool := bytes_per_second + 512 <=? U64_MAX.

Definition attrs_from_kind (kind : FaultKind) (profile : CompatProfile)
    : result (string * ToxicAttributes) CompatError :=
  match kind with
  | Latency c => Ok ("latency", latency_attrs (Some (as_millis (lat_delay c))) (Some (as_millis (lat_jitter c))))
  | Bandwidth c => Ok ("bandwidth", rate_attrs (Some (export_rate (bw_bytes_per_second c))))
  | Blackhole c =>
      Ok ("timeout", timeout_attrs (Some (match bh_close_after c with Some after => as_millis after | None => 0 end)))
  | LimitData c => Ok ("limit_data", bytes_attrs (Some (ld_bytes c)))
  | SlowClose c => Ok ("slow_close", delay_attrs (Some (as_millis (sc_delay c))))
  | Slice c => Ok ("slicer", slicer_attrs (Some (sl_average_size c)) (Some (sl_variation c)) (Some (as_micros (sl_delay c))))
  | Disconnect c => Ok ("reset_peer", timeout_attrs (Some (as_millis (dc_after c))))
  | StreamLoss c =>
      if accepts_packet_loss profile
      then Ok ("packet_loss", loss_attrs (Some (slc_loss_rate c)) (Some (slc_correlation c)))
      else Err invalid_type
  end%string.

(** JSON numbers and the rendered attribute object. *)
Inductive json_number := JInt (n : Z) | JFloat (x : f64).

Definition attributes_object (kind : string) (a : ToxicAttributes) : list (string * json_number) :=
  let get (o : option Z) := JInt (unwrap_or o 0) in
  let get_f64 (o : option f64) := JFloat (unwrap_or o f64_zero) in
  if bool_decide (kind = "latency") then [("latency", get (ta_latency a)); ("jitter", get (ta_jitter a))]
  else if bool_decide (kind = "bandwidth") then [("rate", get (ta_rate a))]
  else if bool_decide (kind = "slow_close") then [("delay", get (ta_delay a))]
  else if bool_decide (kind = "timeout") || bool_decide (kind = "reset_peer") then [("timeout", get (ta_timeout a))]
  else if bool_decide (kind = "slicer")
  then [("average_size", get (ta_average_size a)); ("size_variation", get (ta_size_variation a)); ("delay", get (ta_delay a))]
  else if bool_decide (kind = "limit_data") then [("bytes", get (ta_bytes a))]
  else if bool_decide (kind = "packet_loss")
  then [("loss_rate", get_f64 (ta_loss_rate a)); ("correlation", get_f64 (ta_correlation a))]
  else [].

Record ToxicView := {
  tv_name : string;
  tv_type : string;
  tv_stream : string;
  tv_toxicity : f64;
  tv_attributes : list (string * json_number)
}.

Definition fault_to_toxic (direction : Direction) (fault : FaultSpec) (profile : CompatProfile)
    : result ToxicView CompatError :=
  match attrs_from_kind (fs_kind fault) profile with
  | Err e => Err e
  | Ok (kind, attrs) =>
      Ok {| tv_name := fs_id fault; tv_type := kind; tv_stream := direction_as_str direction;
            tv_toxicity := fs_probability fault; tv_attributes := attributes_object kind attrs |}
  end.

(** ** Updates *)

Definition pick {A} (current incoming : option A) : option A :=
  match incoming with Some a => Some a | None => current end.

Definition merge_attributes (kind : string) (base patch : ToxicAttributes) : ToxicAttributes :=
  if bool_decide (kind = "latency")%string
  then latency_attrs (pick (ta_latency base) (ta_latency patch)) (pick (ta_jitter base) (ta_jitter patch))
  else if bool_decide (kind = "bandwidth")%string then rate_attrs (pick (ta_rate base) (ta_rate patch))
  else if bool_decide (kind = "slow_close")%string then delay_attrs (pick (ta_delay base) (ta_delay patch))
  else if bool_decide (kind = "timeout")%string || bool_decide (kind = "reset_peer")%string
  then timeout_attrs (pick (ta_timeout base) (ta_timeout patch))
  else if bool_decide (kind = "slicer")%string
  then slicer_attrs (pick (ta_average_size base) (ta_average_size patch))
         (pick (ta_size_variation base) (ta_size_variation patch)) (pick (ta_delay base) (ta_delay patch))
  else if bool_decide (kind = "limit_data")%string then bytes_attrs (pick (ta_bytes base) (ta_bytes patch))
  else if bool_decide (kind = "packet_loss")%string
  then loss_attrs (pick (ta_loss_rate base) (ta_loss_rate patch)) (pick (ta_correlation base) (ta_correlation patch))
  else attrs_default.

(** The patch [update_toxic] sends to the native authority for an existing fault. *)
Definition toxic_patch (existing : FaultSpec) (patch : ToxicUpdate) (profile : CompatProfile)
    : result (f64 * FaultKind) CompatError :=
  match attrs_from_kind (fs_kind existing) profile with
  | Err e => Err e
  | Ok (kind_name, base_attrs) =>
      let merged := match tu_attributes patch with
                    | Some attrs => merge_attributes kind_name base_attrs attrs
                    | None => base_attrs
                    end in
      let? kind := kind_from_attrs kind_name merged profile in
      let? probability := match tu_toxicity patch with
                          | Some toxicity => clamp_toxicity toxicity
                          | None => Ok (fs_probability existing)
                          end in
      Ok (probability, kind)
  end.
