(* ===== verification/ToxicProps.v ===== *)
(** * What the Toxiproxy translation preserves

    Which toxics become faults, which faults survive the trip through a toxic,
    and what a toxicity update does to the ones that do not. *)

From Stdlib Require Import Bool SpecFloat.
From stdpp Require Import base list gmap strings.
From S2P Require Import Prelude Rng Float64 Plan Schedule ScheduleProps Fingerprint Wire WireProps Toxic.

(** ** Clamping *)

Lemma one_value : f64_one = S754_finite false 4503599627370496 (-52).
Proof. reflexivity. Qed.

Lemma leb_not_gtb p q m e :
  SFleb (S754_finite false m e) (S754_finite false p q) = negb (SFltb (S754_finite false p q) (S754_finite false m e)).
Proof.
  unfold SFleb, SFltb, SFcompare. rewrite (Z.compare_antisym q e). destruct (q ?= e)%Z; [|done|done]. cbn [CompOpp].
  change (Pos.compare_cont Eq m p) with (m ?= p)%positive. change (Pos.compare_cont Eq p m) with (p ?= m)%positive.
  rewrite (Pos.compare_antisym p m). by destruct (p ?= m)%positive.
Qed.

Lemma leb_one m e : SFleb (S754_finite false m e) f64_one = negb (SFltb f64_one (S754_finite false m e)).
Proof. rewrite one_value. apply leb_not_gtb. Qed.

Lemma clamp_in_range x : f64_is_nan x = false -> probability_in_range (clamp_probability x) = true.
Proof.
  destruct x as [s|s| |s m e]; intros H; try discriminate H; try (destruct s; reflexivity).
  destruct s; [reflexivity|]. unfold clamp_probability.
  change (SFltb (S754_finite false m e) f64_zero) with false. cbv iota zeta.
  destruct (SFltb f64_one (S754_finite false m e)) eqn:E; [reflexivity|].
  unfold probability_in_range. by rewrite leb_one, E.
Qed.

Lemma clamp_id x : probability_in_range x = true -> clamp_probability x = x.
Proof.
  destruct x as [s|s| |s m e]; intros H; try discriminate H; try (destruct s; (discriminate H || reflexivity)).
  destruct s; [discriminate H|]. unfold clamp_probability.
  change (SFltb (S754_finite false m e) f64_zero) with false. cbv iota zeta.
  unfold probability_in_range in H. rewrite leb_one in H.
  by destruct (SFltb f64_one (S754_finite false m e)).
Qed.

(** ** Kinds *)

(** Decide the tests on a known toxic type. *)
Ltac toxic_tests :=
  repeat first [ rewrite bool_decide_eq_true_2 by reflexivity | rewrite bool_decide_eq_false_2 by discriminate ].

(** The faults a toxic can describe. *)
Definition toxic_exact (k : FaultKind) : Prop :=
  match k with
  | Latency c => lat_delay c mod 1000000 = 0 /\ lat_jitter c mod 1000000 = 0 /\ lat_max_buffer_bytes c = 65536
  | Bandwidth c => bw_bytes_per_second c mod 1024 = 0 /\ bw_burst_bytes c = 65536
  | Blackhole c => match bh_close_after c with Some d => 0 < d /\ d mod 1000000 = 0 | None => True end
  | SlowClose c => sc_delay c mod 1000000 = 0
  | Slice c => sl_delay c mod 1000 = 0
  | Disconnect c => dc_after c mod 1000000 = 0 /\ dc_hard_reset c = true
  | LimitData _ | StreamLoss _ => True
  end.

Lemma millis_back d : 0 <= d <= MAX_STREAM_FAULT_DURATION -> as_millis d = d / 1000000.
Proof.
  intros H. unfold as_millis, MAX_STREAM_FAULT_DURATION, NANOS_PER_SEC, U64_MAX in *.
  apply Z.min_l. apply Z.div_le_upper_bound; lia.
Qed.
Lemma micros_back d : 0 <= d <= MAX_STREAM_FAULT_DURATION -> as_micros d = d / 1000.
Proof.
  intros H. unfold as_micros, MAX_STREAM_FAULT_DURATION, NANOS_PER_SEC, U64_MAX in *.
  apply Z.min_l. apply Z.div_le_upper_bound; lia.
Qed.
Lemma div_mul_exact d n : 0 < n -> d / n * n = d <-> d mod n = 0.
Proof. intros H. pose proof (Z.div_mod d n ltac:(lia)). lia. Qed.

Lemma export_rate_exact b : 0 < b <= U64_MAX ->
  sat_mul64 (Z.max (export_rate b) 1) 1024 = b <-> b mod 1024 = 0.
Proof.
  intros H. unfold export_rate, wadd, wrap64, sat_mul, TWO64, U64_MAX in *.
  destruct (Z.leb_spec (b + 512) 18446744073709551615).
  - rewrite Z.mod_small by lia. pose proof (Z.div_mod (b + 512) 1024 ltac:(lia)).
    pose proof (Z.mod_pos_bound (b + 512) 1024 ltac:(lia)). split; intros E.
    + apply Z.mod_divide; [lia|]. exists (Z.max ((b + 512) / 1024) 1). lia.
    + apply Z.mod_divide in E as [q Eq]; [|lia]. assert ((b + 512) / 1024 = q) by lia. lia.
  - replace ((b + 512) mod 18446744073709551616) with (b + 512 - 18446744073709551616).
    2:{ symmetry. rewrite <- (Z.mod_add _ (-1)) by lia. rewrite Z.mod_small; lia. }
    rewrite Z.div_small by lia. split; intros E; [lia|]. apply Z.mod_divide in E as [q Eq]; lia.
Qed.

Lemma compat_probability_id v : probability_in_range v = true -> compat_probability v = Ok v.
Proof. intros H. unfold compat_probability. by rewrite (proj2 (wire_probability_ok v v) (conj H eq_refl)). Qed.

Lemma toxic_exact_iff profile k n a : kind_typed k -> kind_wf k -> attrs_from_kind k profile = Ok (n, a) ->
  kind_from_attrs n a profile = Ok k <-> toxic_exact k.
Proof.
  intros T W H. destruct k as [[d j b]|[r b]|[c]|[l]|[d]|[av v d]|[af hr]|[l c]]; cbn in *;
    try (injection H as <- <-); unfold kind_from_attrs; toxic_tests; cbn; unfold duration_from_millis, duration_from_micros.
  - rewrite !millis_back by lia. rewrite <- !div_mul_exact by lia. split.
    + intros [= E1 E2 E3]. lia.
    + intros (-> & -> & ->). done.
  - change (64 * 1024) with 65536. rewrite <- export_rate_exact by lia. split; [intros [= E1 E2]; lia|].
    intros [-> ->]. done.
  - destruct c as [d|]; cbn; [|done]. rewrite millis_back by lia. rewrite <- div_mul_exact by lia.
    destruct (Z.ltb_spec 0 (d / 1000000)); split; intros E; try discriminate E; try lia; try (injection E as E; lia).
    by rewrite (proj2 E).
  - rewrite !Z.max_l by lia. done.
  - rewrite millis_back by lia. rewrite <- div_mul_exact by lia. split; [intros [= E]; done|by intros ->].
  - rewrite micros_back by lia. rewrite <- div_mul_exact by lia. rewrite Z.max_l by lia.
    split; [intros [= E]; done|by intros ->].
  - rewrite millis_back by lia. rewrite <- div_mul_exact by lia. split; [intros [= E1 E2]; done|by intros [-> ->]].
  - destruct (accepts_packet_loss profile); [|discriminate]. injection H as <- <-. toxic_tests. cbn.
    destruct W as [Wl Wc]. by rewrite !clamp_id, !compat_probability_id by done.
Qed.

(** ** Round trips *)

(** The ranges the decoder leaves an attribute object in. *)
Definition attrs_typed (a : ToxicAttributes) : Prop :=
  Forall (fun o => match o with Some n => 0 <= n <= U64_MAX | None => True end)
    [ta_latency a; ta_jitter a; ta_rate a; ta_average_size a; ta_size_variation a; ta_delay a; ta_timeout a; ta_bytes a].

(** Split a hypothesis on a chain of toxic type tests into its cases. *)
Ltac toxic_cases H :=
  unfold kind_from_attrs in H;
  repeat match type of H with
         | (if bool_decide (?k = ?s) then _ else _) = Ok _ => destruct (decide (k = s)) as [->|?];
             [rewrite bool_decide_eq_true_2 in H by reflexivity
             |rewrite bool_decide_eq_false_2 in H by assumption]
         end.

Lemma unwrap_typed o d : match o with Some n => 0 <= n <= U64_MAX | None => True end -> 0 <= d <= U64_MAX ->
  0 <= unwrap_or o d <= U64_MAX.
Proof. by destruct o. Qed.

Lemma compat_probability_ok v p : compat_probability v = Ok p -> probability_in_range v = true /\ p = v.
Proof.
  unfold compat_probability. intros H. destruct (wire_probability v) as [q|] eqn:E; [|discriminate H].
  injection H as <-. by apply wire_probability_ok.
Qed.

Lemma millis_mod n : duration_from_millis n mod 1000000 = 0.
Proof. apply Z.mod_mul. lia. Qed.

(** What a toxic creates is exact, saturated bandwidths apart. *)
Lemma created_exact profile kind a k : attrs_typed a -> kind_from_attrs kind a profile = Ok k ->
  toxic_exact k \/ kind = "bandwidth"%string /\ U64_MAX < Z.max (unwrap_or (ta_rate a) 1) 1 * 1024.
Proof.
  intros T H. unfold attrs_typed in T. decompose_Forall_hyps. toxic_cases H.
  - injection H as <-. left. cbn. by rewrite !millis_mod.
  - injection H as <-. cbn. unfold sat_mul. destruct (Z.leb_spec (Z.max (unwrap_or (ta_rate a) 1) 1 * 1024) U64_MAX).
    + left. rewrite Z.min_l by lia. split; [|done]. apply Z.mod_mul. lia.
    + by right.
  - injection H as <-. left. cbn. destruct (ta_timeout a) as [t|]; [|done].
    destruct (Z.ltb_spec 0 t); [|done]. split; [unfold duration_from_millis; lia|apply millis_mod].
  - injection H as <-. left. apply millis_mod.
  - injection H as <-. left. split; [apply millis_mod|done].
  - injection H as <-. left. apply Z.mod_mul. lia.
  - injection H as <-. by left.
  - destruct (accepts_packet_loss profile); [|discriminate H]. cbn in H.
    destruct (compat_probability _); [|discriminate H]. cbn in H.
    destruct (compat_probability _); [|discriminate H]. injection H as <-. by left.
  - discriminate H.
Qed.

Lemma created_typed profile kind a k : attrs_typed a -> kind_from_attrs kind a profile = Ok k -> kind_typed k.
Proof.
  intros T H. unfold attrs_typed in T. decompose_Forall_hyps.
  assert (U : forall o, match o with Some n => 0 <= n <= U64_MAX | None => True end -> forall d, 0 <= d <= 1 ->
    0 <= unwrap_or o d <= U64_MAX) by (intros o ? d ?; apply unwrap_typed; [done|unfold U64_MAX; lia]).
  assert (M : forall x, 0 <= x <= U64_MAX -> 0 < Z.max x 1 <= U64_MAX) by (unfold U64_MAX; lia).
  assert (B : forall x, 0 <= x <= U64_MAX -> 0 <= sat_mul64 x 1024 <= U64_MAX) by (unfold sat_mul, U64_MAX; lia).
  assert (N : forall x, 0 <= x <= U64_MAX -> 0 <= duration_from_millis x) by (unfold duration_from_millis; lia).
  toxic_cases H; try discriminate H.
  - injection H as <-. split; [|split]; [apply N, U; [done|lia]..|discriminate].
  - injection H as <-. split; [apply B|by split].
    pose proof (M _ (U (ta_rate a) ltac:(eassumption) 1 ltac:(lia))). lia.
  - injection H as <-. cbn. destruct (ta_timeout a) as [t|]; [|done].
    destruct (Z.ltb_spec 0 t); [|done]. unfold duration_from_millis. lia.
  - injection H as <-. apply N, U; [done|lia].
  - injection H as <-. apply N, U; [done|lia].
  - injection H as <-. split; [apply M, U; [done|lia]|split; [apply U; [done|lia]|]].
    pose proof (U (ta_delay a) ltac:(done) 0 ltac:(lia)).
    cbn. unfold duration_from_micros. lia.
  - injection H as <-. pose proof (M _ (U (ta_bytes a) ltac:(eassumption) 1 ltac:(lia))). cbn. lia.
  - destruct (accepts_packet_loss profile); [|discriminate H]. cbn in H.
    destruct (compat_probability _); [|discriminate H]. cbn in H.
    destruct (compat_probability _); [|discriminate H]. injection H as <-. done.
Qed.

Lemma created_name profile kind a k : kind_from_attrs kind a profile = Ok k ->
  exists a', attrs_from_kind k profile = Ok (kind, a').
Proof.
  intros H. toxic_cases H; try discriminate H; try (injection H as <-; cbn; by eexists).
  destruct (accepts_packet_loss profile) eqn:E; [|discriminate H]. cbn in H.
  destruct (compat_probability _); [|discriminate H]. cbn in H.
  destruct (compat_probability _); [|discriminate H]. injection H as <-. cbn. rewrite E. by eexists.
Qed.

(** C29: a toxic reads back as what was written: when the attributes of a
    toxic of type [kind] make a fault [k] the plan accepts, rendering [k]
    gives the type [kind] again, and the rendered attributes make [k] again.
    The one exception is a bandwidth whose rate in KiB/s overflowed [u64]
    when it was turned into bytes per second. *)
Theorem toxics_round_trip profile kind a k :
  attrs_typed a -> kind_from_attrs kind a profile = Ok k -> kind_wf k ->
  exists a', attrs_from_kind k profile = Ok (kind, a')
    /\ (kind_from_attrs kind a' profile = Ok k
        \/ kind = "bandwidth"%string /\ U64_MAX < Z.max (unwrap_or (ta_rate a) 1) 1 * 1024).
Proof.
  intros T H W. destruct (created_name _ _ _ _ H) as [a' Ha]. exists a'. split; [done|].
  pose proof (toxic_exact_iff _ _ _ _ (created_typed _ _ _ _ T H) W Ha) as I.
  destruct (created_exact _ _ _ _ T H) as [E|E]; [left; by apply I|by right].
Qed.

(** ** Updates *)

(** The update of nothing but the toxicity. *)
Definition toxicity_only (t : f64) : ToxicUpdate :=
  {| tu_type := None; tu_stream := None; tu_toxicity := Some t; tu_attributes := None |}.

(** Rendered attributes always make a fault. *)
Lemma rebuilds profile k n a : kind_wf k -> attrs_from_kind k profile = Ok (n, a) ->
  exists k', kind_from_attrs n a profile = Ok k'.
Proof.
  intros W H. destruct k as [c|c|c|c|c|c|c|[l c]]; cbn in H;
    try (injection H as <- <-; unfold kind_from_attrs; toxic_tests; by eexists).
  destruct (accepts_packet_loss profile) eqn:E; [|discriminate]. injection H as <- <-.
  destruct W as [Wl Wc]. unfold kind_from_attrs. toxic_tests. rewrite E. cbn.
  rewrite !clamp_id, !compat_probability_id by done. by eexists.
Qed.

(** A toxicity update leaves the rest of a fault alone exactly when a
    toxic can describe it: [update_toxic] rebuilds the kind from the rendered
    attributes, so it rewrites every fault a toxic cannot describe, such as a
    graceful disconnect, a latency with a buffer of its own or a
    sub-millisecond delay. *)
Theorem toxicity_updates_keep_exact_faults profile f t :
  kind_typed (fs_kind f) -> kind_wf (fs_kind f) -> f64_is_finite t = true ->
  is_ok (attrs_from_kind (fs_kind f) profile) = true ->
  exists k, toxic_patch f (toxicity_only t) profile = Ok (clamp_probability t, k)
    /\ (k = fs_kind f <-> toxic_exact (fs_kind f)).
Proof.
  intros T W F S. destruct (attrs_from_kind (fs_kind f) profile) as [[n a]|] eqn:E; [|discriminate S].
  destruct (rebuilds _ _ _ _ W E) as [k Hk]. exists k. unfold toxic_patch. rewrite E. cbn [tu_attributes tu_toxicity toxicity_only].
  rewrite Hk. unfold clamp_toxicity. rewrite F. split; [done|].
  rewrite <- (toxic_exact_iff profile _ _ _ T W E), Hk. split; congruence.
Qed.

(** ** Toxics become faults *)

Definition not_nan (o : option f64) : Prop := match o with Some x => f64_is_nan x = false | None => True end.

(** The toxics the adapter accepts under a profile. *)
Record toxic_ok (profile : CompatProfile) (t : Toxic) : Prop := {
  tok_stream : is_ok (parse_stream (tx_stream t)) = true;
  tok_type : tx_type t ∈ TOXIC_TYPES;
  tok_profile : tx_type t = "packet_loss"%string -> accepts_packet_loss profile = true
                /\ not_nan (ta_loss_rate (tx_attributes t)) /\ not_nan (ta_correlation (tx_attributes t));
  tok_name : forall d, parse_stream (tx_stream t) = Ok d -> id_ok (toxic_name (tx_name t) (tx_type t) d);
  tok_toxicity : f64_is_finite (tx_toxicity t) = true
}.

Lemma compat_clamped o : is_ok (compat_probability (clamp_probability (unwrap_or o f64_zero))) = true <-> not_nan o.
Proof.
  destruct o as [x|]; cbn [unwrap_or not_nan]; [|split; [done|reflexivity]].
  destruct (f64_is_nan x) eqn:E.
  - destruct x; try discriminate E. split; [intros H; vm_compute in H; discriminate H|discriminate].
  - split; [done|intros _]. by rewrite compat_probability_id by (by apply clamp_in_range).
Qed.

Lemma kind_from_attrs_total kind a profile : kind ∈ TOXIC_TYPES ->
  is_ok (kind_from_attrs kind a profile) = true <->
  (kind = "packet_loss"%string -> accepts_packet_loss profile = true
     /\ not_nan (ta_loss_rate a) /\ not_nan (ta_correlation a)).
Proof.
  intros H. unfold TOXIC_TYPES in H.
  repeat (apply elem_of_cons in H as [->|H]; [first [split; [done|reflexivity]|idtac]|]); [|by apply elem_of_nil in H].
  rewrite <- !compat_clamped. unfold kind_from_attrs. toxic_tests.
  destruct (accepts_packet_loss profile); cbn [negb]; [|split; [done|intros K; by destruct (K eq_refl)]].
  destruct (compat_probability (clamp_probability (unwrap_or (ta_loss_rate a) f64_zero)));
    destruct (compat_probability (clamp_probability (unwrap_or (ta_correlation a) f64_zero))); cbn; intuition.
Qed.

Lemma clamp_toxicity_ok t p : clamp_toxicity t = Ok p <-> f64_is_finite t = true /\ p = clamp_probability t.
Proof. unfold clamp_toxicity. destruct (f64_is_finite t); intuition congruence. Qed.

Lemma finite_not_nan x : f64_is_finite x = true -> f64_is_nan x = false.
Proof. by destruct x. Qed.

Lemma to_fault_inv t profile d f : to_fault_with_profile t profile = Ok (d, f) ->
  toxic_ok profile t /\ parse_stream (tx_stream t) = Ok d
  /\ kind_from_attrs (tx_type t) (tx_attributes t) profile = Ok (fs_kind f)
  /\ fs_id f = toxic_name (tx_name t) (tx_type t) d /\ fs_probability f = clamp_probability (tx_toxicity t).
Proof.
  unfold to_fault_with_profile. intros H.
  destruct (parse_stream (tx_stream t)) as [d'|] eqn:Es; [|discriminate H]. cbn [map_err] in H.
  destruct (bool_decide_reflect (tx_type t ∈ TOXIC_TYPES)) as [Et|]; [|discriminate H]. cbn [negb] in H.
  destruct (bool_decide _ && _) eqn:Ep in H; [discriminate H|]. clear Ep.
  destruct (kind_from_attrs _ _ _) as [k|] eqn:Ek; [|discriminate H]. cbn [map_err] in H.
  destruct (wire_fault_id _) as [id|] eqn:Ei; [|discriminate H]. cbn [map_err] in H.
  destruct (clamp_toxicity _) as [p|] eqn:Ec; [|discriminate H]. cbn [map_err] in H.
  destruct (wire_probability p) as [q|] eqn:Eq; [|discriminate H]. cbn [map_err] in H. injection H as <- <-.
  scalars. apply clamp_toxicity_ok in Ec as [Ef ->]. split; [|done]. constructor; [by rewrite Es|done| |..].
  - apply kind_from_attrs_total; [done|by rewrite Ek].
  - intros d. by rewrite Es; intros [= <-].
  - done.
Qed.

Lemma to_fault_total t profile : toxic_ok profile t -> is_ok (to_fault_with_profile t profile) = true.
Proof.
  intros [Hs Ht Hp Hn Hf]. unfold to_fault_with_profile.
  destruct (parse_stream (tx_stream t)) as [d|] eqn:Es; [|discriminate Hs]. cbn [map_err].
  rewrite bool_decide_eq_true_2 by done. cbn [negb].
  destruct (bool_decide _ && _) eqn:Ep.
  { apply andb_true_iff in Ep as [Ep Ea]. apply bool_decide_eq_true in Ep. destruct (Hp Ep) as [A _]. by rewrite A in Ea. }
  apply (kind_from_attrs_total _ _ _ Ht) in Hp. destruct (kind_from_attrs _ _ _) as [k|]; [|discriminate Hp].
  cbn [map_err]. rewrite (proj2 (wire_fault_id_ok _ _) (conj (Hn d eq_refl) eq_refl)). cbn [map_err].
  unfold clamp_toxicity. rewrite Hf. cbn [map_err].
  by rewrite (proj2 (wire_probability_ok _ _) (conj (clamp_in_range _ (finite_not_nan _ Hf)) eq_refl)).
Qed.

(** A toxic becomes a fault exactly when its stream is upstream or
    downstream in any case, its type belongs to the profile, its name, or the
    default [<type>_<stream>], has 1 to 128 bytes, its toxicity is finite and
    no packet-loss rate is NaN.  The fault has that name, the kind of the
    attributes and the toxicity clamped to the unit interval, a valid
    probability; every refusal has status 400. *)
Theorem toxics_become_faults t profile :
  match to_fault_with_profile t profile with
  | Ok (d, f) => toxic_ok profile t /\ parse_stream (tx_stream t) = Ok d
      /\ kind_from_attrs (tx_type t) (tx_attributes t) profile = Ok (fs_kind f)
      /\ fs_id f = toxic_name (tx_name t) (tx_type t) d
      /\ fs_probability f = clamp_probability (tx_toxicity t) /\ probability_in_range (fs_probability f) = true
  | Err e => ~ toxic_ok profile t /\ ce_status (compat_from e) = 400
  end.
Proof.
  destruct (to_fault_with_profile t profile) as [[d f]|e] eqn:E.
  - apply to_fault_inv in E as (T & Hd & Hk & Hi & Hp). split_and!; try done.
    rewrite Hp. by apply clamp_in_range, finite_not_nan, (tok_toxicity _ _ T).
  - split; [|by destruct e]. intros T%to_fault_total. by rewrite E in T.
Qed.

(** * At concrete inputs *)

Definition graceful : FaultSpec := {| fs_id := "cut"; fs_probability := f64_one;
  fs_kind := Disconnect {| dc_after := 5000000; dc_hard_reset := false |} |}.
Definition brief_hole : FaultSpec := {| fs_id := "hole"; fs_probability := f64_one;
  fs_kind := Blackhole {| bh_close_after := Some 500000 |} |}.
Definition fast_link : FaultSpec := {| fs_id := "link"; fs_probability := f64_one;
  fs_kind := Bandwidth {| bw_bytes_per_second := U64_MAX; bw_burst_bytes := 64 * 1024 |} |}.

Definition halved (f : FaultSpec) : option FaultKind :=
  match toxic_patch f (toxicity_only f64_half) profile_default with Ok (_, k) => Some k | Err _ => None end.

(** Halving the toxicity of a graceful disconnect makes it a hard reset, of a
    half-millisecond blackhole makes it endless, and of the fastest link a
    toxic can ask for makes it the slowest. *)
Example halved_graceful : halved graceful = Some (Disconnect {| dc_after := 5000000; dc_hard_reset := true |}).
Proof. vm_compute. reflexivity. Qed.
Example halved_brief_hole : halved brief_hole = Some (Blackhole {| bh_close_after := None |}).
Proof. vm_compute. reflexivity. Qed.
Example halved_fast_link :
  halved fast_link = Some (Bandwidth {| bw_bytes_per_second := 1024; bw_burst_bytes := 64 * 1024 |}).
Proof. vm_compute. reflexivity. Qed.

Definition slow_toxic : ToxicAttributes := latency_attrs (Some 250) None.

Lemma toxics_round_trip_witness : exists k a',
  kind_from_attrs "latency" slow_toxic profile_default = Ok k /\ attrs_from_kind k profile_default = Ok ("latency"%string, a')
  /\ kind_from_attrs "latency" a' profile_default = Ok k.
Proof.
  destruct (toxics_round_trip profile_default "latency" slow_toxic
    (Latency {| lat_delay := 250000000; lat_jitter := 0; lat_max_buffer_bytes := 64 * 1024 |})) as (a' & H & [R|[E _]]).
  - unfold attrs_typed, U64_MAX. repeat (constructor; [cbn; lia|]). constructor.
  - reflexivity.
  - cbn. unfold MAX_STREAM_FAULT_DURATION, NANOS_PER_SEC. lia.
  - exists (Latency {| lat_delay := 250000000; lat_jitter := 0; lat_max_buffer_bytes := 64 * 1024 |}), a'. by split_and!.
  - discriminate E.
Defined.

Lemma toxicity_updates_keep_exact_faults_witness :
  exists k, toxic_patch graceful (toxicity_only f64_half) profile_default = Ok (clamp_probability f64_half, k)
    /\ k <> fs_kind graceful.
Proof.
  destruct (toxicity_updates_keep_exact_faults profile_default graceful f64_half) as (k & H & I).
  - cbn. lia.
  - cbn. unfold MAX_STREAM_FAULT_DURATION, NANOS_PER_SEC. lia.
  - reflexivity.
  - reflexivity.
  - exists k. split; [exact H|]. intros E%I. destruct E as [_ E]. discriminate E.
Defined.
