(* ===== verification/Server.v ===== *)
(** * Proxies of the server
      ([crates/eggchaos-server/src/runtime/mod.rs], [runtime/model.rs] and
      the conversions of [native.rs])

    A proxy definition with its validation, the patches and views of the
    control plane, and its errors.  A [LivePolicy] is the cell of [Policy.v];
    a clone of a definition shares the cell with the original in the code,
    here it carries a copy.  [Control.v] publishes only through the stored
    definition, under the lock of its map, so no stale copy is ever used. *)

From Stdlib Require Import Bool SpecFloat.
From stdpp Require Import base list gmap strings.
From S2P Require Import Prelude Rng Float64 Plan Policy Schedule Wire.

Abbreviation LivePolicy := (ArcSwap FaultPlan).

Definition MAX_CONTROL_TIMEOUT_MS : Z := 300000.

(** ** Addresses: [Ipv4Addr] and [Ipv6Addr] as numbers *)

Definition is_unspecified (a : SocketAddr) : bool :=
  match a with SocketV4 ip _ => ip =? 0 | SocketV6 ip _ _ _ => ip =? 0 end.
Definition is_multicast (a : SocketAddr) : bool :=
  match a with
  | SocketV4 ip _ => Z.shiftr ip 28 =? 14
  | SocketV6 ip _ _ _ => Z.shiftr ip 120 =? 255
  end.
Definition is_broadcast (a : SocketAddr) : bool :=
  match a with SocketV4 ip _ => ip =? 4294967295 | SocketV6 _ _ _ _ => false end.

(** ** Errors *)

Inductive ControlError :=
| ControlNotFound (message : string)
| ControlConflict (message : string)
| ControlInvalid (message : string)
| BindFailed (proxy reason : string)
| RestartFailed (proxy reason : string).

Definition control_code (e : ControlError) : string :=
  match e with
  | ControlNotFound _ => "not_found"
  | ControlConflict _ => "conflict"
  | ControlInvalid _ => "invalid"
  | BindFailed _ _ => "bind_failed"
  | RestartFailed _ _ => "restart_failed"
  end.

(** [Display] of [ControlError]. *)
Definition control_error_display (e : ControlError) : string :=
  match e with
  | ControlNotFound m => "proxy not found: " +:+ m
  | ControlConflict m => "conflict: " +:+ m
  | ControlInvalid m => "invalid: " +:+ m
  | BindFailed proxy reason => "bind failed for proxy " +:+ proxy +:+ ": " +:+ reason
  | RestartFailed proxy reason => "restart failed for proxy " +:+ proxy +:+ ": " +:+ reason
  end.

(** The two ways a definition is refused. *)
Inductive EggchaosError :=
| InvalidProxy (message : string)
| InvalidPlan (e : ValidationError).

(** The closure [map_err] applies to [validate] in every operation. *)
Definition definition_error (e : EggchaosError) : ControlError :=
  match e with
  | InvalidProxy message => ControlInvalid message
  | InvalidPlan e => ControlInvalid ("invalid fault plan: " +:+ validation_error_display e)
  end.

(** ** Definitions *)

Record ProxySpec := {
  ps_name : string;
  ps_listen : SocketAddr;
  ps_upstream : SocketAddr;
  ps_upstream_faults : FaultPlan;
  ps_downstream_faults : FaultPlan;
  ps_upstream_policy : LivePolicy;
  ps_downstream_policy : LivePolicy;
  ps_enabled : bool;
  ps_max_connections : option Z;
  ps_connect_timeout : Duration;
  ps_seed : Z
}.

(** [LivePolicy::default()]: the empty plan at generation one, namespace zero. *)
Definition policy_default : LivePolicy :=
  {| snapshots := [{| generation := 1; pub_plan := plan_empty; seed_namespace := 0 |}]; current := 0 |}.

Definition proxy_spec_new (name : string) (listen upstream : SocketAddr) : ProxySpec := {|
  ps_name := name; ps_listen := listen; ps_upstream := upstream;
  ps_upstream_faults := plan_empty; ps_downstream_faults := plan_empty;
  ps_upstream_policy := policy_default; ps_downstream_policy := policy_default;
  ps_enabled := true; ps_max_connections := None;
  ps_connect_timeout := duration_from_millis NATIVE_DEFAULT_PROXY_TIMEOUT_MS; ps_seed := 0
|}.

Definition set_ps_enabled (enabled : bool) (p : ProxySpec) : ProxySpec := {|
  ps_name := ps_name p; ps_listen := ps_listen p; ps_upstream := ps_upstream p;
  ps_upstream_faults := ps_upstream_faults p; ps_downstream_faults := ps_downstream_faults p;
  ps_upstream_policy := ps_upstream_policy p; ps_downstream_policy := ps_downstream_policy p;
  ps_enabled := enabled; ps_max_connections := ps_max_connections p;
  ps_connect_timeout := ps_connect_timeout p; ps_seed := ps_seed p
|}.
Definition set_ps_policies (up down : LivePolicy) (p : ProxySpec) : ProxySpec := {|
  ps_name := ps_name p; ps_listen := ps_listen p; ps_upstream := ps_upstream p;
  ps_upstream_faults := ps_upstream_faults p; ps_downstream_faults := ps_downstream_faults p;
  ps_upstream_policy := up; ps_downstream_policy := down;
  ps_enabled := ps_enabled p; ps_max_connections := ps_max_connections p;
  ps_connect_timeout := ps_connect_timeout p; ps_seed := ps_seed p
|}.
Definition set_ps_faults (up down : FaultPlan) (p : ProxySpec) : ProxySpec := {|
  ps_name := ps_name p; ps_listen := ps_listen p; ps_upstream := ps_upstream p;
  ps_upstream_faults := up; ps_downstream_faults := down;
  ps_upstream_policy := ps_upstream_policy p; ps_downstream_policy := ps_downstream_policy p;
  ps_enabled := ps_enabled p; ps_max_connections := ps_max_connections p;
  ps_connect_timeout := ps_connect_timeout p; ps_seed := ps_seed p
|}.

Definition proxy_spec_validate (p : ProxySpec) : result unit EggchaosError :=
  if (str_len (ps_name p) =? 0) || (128 <? str_len (ps_name p))
  then Err (InvalidProxy "proxy name must be 1..=128 bytes")
  else if negb (forallb name_byte (as_bytes (ps_name p)))
  then Err (InvalidProxy "proxy name must match [A-Za-z0-9._-]+")
  else
    let? _u := map_err InvalidPlan (plan_validate (ps_upstream_faults p)) in
    let? _d := map_err InvalidPlan (plan_validate (ps_downstream_faults p)) in
    if match ps_max_connections p with
       | Some limit => (limit =? 0) || (1000000 <? limit)
       | None => false
       end
    then Err (InvalidProxy "max_connections must be in 1..=1000000")
    else if ps_connect_timeout p =? 0
    then Err (InvalidProxy "connect timeout must be non-zero")
    else if MAX_CONTROL_TIMEOUT_MS <? ps_connect_timeout p / 1000000
    then Err (InvalidProxy "connect timeout must be at most 300000 ms")
    else if is_unspecified (ps_upstream p) || is_multicast (ps_upstream p) || is_broadcast (ps_upstream p)
    then Err (InvalidProxy "upstream must be a unicast socket address")
    else if is_multicast (ps_listen p) || is_broadcast (ps_listen p)
    then Err (InvalidProxy "listen address must be unicast or unspecified")
    else Ok tt.

(** [init_policies]; [None] is the panic of [LivePolicy::new]. *)
Definition init_policies (service_seed : Z) (p : ProxySpec) : option ProxySpec :=
  let namespace := Z.lxor service_seed (ps_seed p) in
  match Stream.new (ps_upstream_faults p) namespace, Stream.new (ps_downstream_faults p) namespace with
  | Ok up, Ok down => Some (set_ps_policies up down p)
  | _, _ => None
  end.

(** ** Patches and views *)

Record ProxyPatch := {
  pt_listen : option SocketAddr;
  pt_upstream : option SocketAddr;
  pt_enabled : option bool;
  pt_max_connections : option (option Z);
  pt_connect_timeout_ms : option Z
}.
Definition patch_from_wire (p : NativeProxyPatchV1) : ProxyPatch := {|
  pt_listen := pp_listen p; pt_upstream := pp_upstream p; pt_enabled := pp_enabled p;
  pt_max_connections := pp_max_connections p; pt_connect_timeout_ms := pp_connect_timeout_ms p
|}.

Record FaultUpsert := {
  fu_direction : Direction;
  fu_id : string;
  fu_probability : f64;
  fu_kind : FaultKind
}.
Record FaultPatch := { fpt_probability : option f64; fpt_kind : option FaultKind }.

Definition proxy_request_into_spec (r : NativeProxyRequestV1) : result ProxySpec string :=
  let? _u := proxy_request_validate r in
  let proxy := {|
    ps_name := pr_name r; ps_listen := pr_listen r; ps_upstream := pr_upstream r;
    ps_upstream_faults := plan_empty; ps_downstream_faults := plan_empty;
    ps_upstream_policy := policy_default; ps_downstream_policy := policy_default;
    ps_enabled := pr_enabled r; ps_max_connections := pr_max_connections r;
    ps_connect_timeout := duration_from_millis (pr_connect_timeout_ms r); ps_seed := pr_seed r
  |} in
  match proxy_spec_validate proxy with
  | Err (InvalidProxy message) => Err ("invalid proxy: " +:+ message)
  | Err (InvalidPlan e) => Err (validation_error_display e)
  | Ok _ => Ok proxy
  end.
Definition fault_upsert_into_runtime (u : FaultUpsertV1) : result FaultUpsert string :=
  match upsert_into_core u with
  | Err e => Err e
  | Ok (direction, spec) =>
      Ok {| fu_direction := direction; fu_id := fs_id spec; fu_probability := fs_probability spec; fu_kind := fs_kind spec |}
  end.
Definition fault_patch_into_runtime (p : FaultPatchV1) : result FaultPatch string :=
  match patch_into_core p with
  | Err e => Err e
  | Ok (probability, kind) => Ok {| fpt_probability := probability; fpt_kind := kind |}
  end.

Record ProxyView := {
  pv_name : string;
  pv_listen : SocketAddr;
  pv_upstream : SocketAddr;
  pv_bound_addr : option SocketAddr;
  pv_running : bool;
  pv_enabled : bool;
  pv_upstream_faults : FaultPlan;
  pv_downstream_faults : FaultPlan;
  pv_upstream_generation : Z;
  pv_downstream_generation : Z;
  pv_upstream_seed_namespace : Z;
  pv_downstream_seed_namespace : Z;
  pv_max_connections : option Z;
  pv_connect_timeout_ms : Z;
  pv_seed : Z
}.
