(* ===== verification/Tasks.v ===== *)
(** * Tasks that share a state

    The asynchronous operations of the server as processes: what a task does
    between two awaits is one atomic step on the state; at an await every other
    task, and the environment, may move.  [System] interleaves any number of
    them, and [safe] is a rely-guarantee logic for what no interleaving can
    break. *)

From stdpp Require Import base list strings relations.
From S2P Require Import Prelude Wire.

(** What binding a socket and reading its address answer. *)
Inductive BindAnswer :=
| Bound (addr : SocketAddr)
| BindError (source : string)
| AddrError (source : string).

(** ** Processes *)

Section Process.
Context {S W : Type}.

Inductive process (A : Type) : Type :=
| Ret (a : A)
| Panic
| Step (f : S -> S) (k : S -> process A)   (* [k] sees the state before the step *)
| BindListener (addr : SocketAddr) (k : BindAnswer -> process A)
| Await (w : W) (k : process A).

Fixpoint proc_bind {A B} (p : process A) (k : A -> process B) : process B :=
  match p with
  | Ret _ a => k a
  | Panic _ => Panic B
  | Step _ f q => Step B f (fun c => proc_bind (q c) k)
  | BindListener _ addr q => BindListener B addr (fun ans => proc_bind (q ans) k)
  | Await _ w q => Await B w (proc_bind q k)
  end.

(** One atomic step: the new state and what the task does next. *)
Definition atomic {A} (f : S -> S * process A) : process A := Step A (fun c => (f c).1) (fun c => (f c).2).
Definition observe {A} (f : S -> A) : process A := atomic (fun c => (c, Ret A (f c))).

(** A task nobody interrupts, up to its first await. *)
Fixpoint alone {A} (p : process A) (c : S) : option (A * S) :=
  match p with
  | Ret _ a => Some (a, c)
  | Step _ f k => alone (k c) (f c)
  | _ => None
  end.
End Process.

Arguments process : clear implicits.
Arguments Ret {S W A} a.
Arguments Panic {S W A}.
Arguments Step {S W A} f k.
Arguments BindListener {S W A} addr k.
Arguments Await {S W A} w k.
Notation "'do!' x ':=' p 'in' k" := (proc_bind p (fun x => k))
  (at level 10, x name, p at level 200, k at level 200) : egg_scope.

(** ** Systems

    [ready] says when an await is over, [happen] what an event of the
    environment does; [None] when it cannot occur. *)
Class TaskState (S W E : Type) := {
  ready : S -> W -> bool;
  happen : E -> S -> option S
}.

Inductive move (E : Type) :=
| Call (i : nat)                        (* task [i] runs its next step *)
| Answer (i : nat) (a : BindAnswer)     (* the system answers its bind *)
| Event (e : E).
Arguments Call {E} i.
Arguments Answer {E} i a.
Arguments Event {E} e.

Section System.
Context {S W E : Type} `{TS : !TaskState S W E} {A : Type}.

Record System := { sys_state : S; sys_calls : list (process S W A) }.

Definition sys_next (ch : move E) (s : System) : option System :=
  let c := sys_state s in
  match ch with
  | Call i =>
      match sys_calls s !! i with
      | Some (Step f k) => Some {| sys_state := f c; sys_calls := <[i := k c]> (sys_calls s) |}
      | Some (Await w k) => if ready c w then Some {| sys_state := c; sys_calls := <[i := k]> (sys_calls s) |} else None
      | _ => None
      end
  | Answer i a =>
      match sys_calls s !! i with
      | Some (BindListener _ k) => Some {| sys_state := c; sys_calls := <[i := k a]> (sys_calls s) |}
      | _ => None
      end
  | Event e => option_map (fun c => {| sys_state := c; sys_calls := sys_calls s |}) (happen e c)
  end.

Definition sys_step (s s' : System) : Prop := exists ch, sys_next ch s = Some s'.

(** A schedule, run as far as each move applies. *)
Fixpoint run (chs : list (move E)) (s : System) : option System :=
  match chs with
  | [] => Some s
  | ch :: chs => match sys_next ch s with Some s => run chs s | None => None end
  end.

Lemma run_reaches chs s s' : run chs s = Some s' -> rtc sys_step s s'.
Proof.
  revert s. induction chs as [|ch chs IH]; cbn; intros s H; [by injection H as ->|].
  destruct (sys_next ch s) as [t|] eqn:N; [|discriminate H]. eapply rtc_l; [by exists ch|by apply IH].
Qed.

(** The end of a schedule that applies. *)
Definition end_of (chs : list (move E)) (s : System) : System := default s (run chs s).

Lemma end_of_reaches chs s : is_some (run chs s) = true -> rtc sys_step s (end_of chs s).
Proof. unfold end_of. intros H. apply (run_reaches chs). by destruct (run chs s). Qed.

Lemma end_of_step ch s : is_some (sys_next ch s) = true -> sys_next ch s = Some (end_of [ch] s).
Proof. unfold end_of. cbn. by destruct (sys_next ch s). Qed.
End System.

Arguments System : clear implicits.

(** ** Rely and guarantee

    [safe R G p c Q]: from [c], whatever steps of kind [R] the others take
    between its own, the task keeps the invariant, takes steps of kind [G]
    only, does not panic, awaits only what it [May], and returns an [a] with
    [Q a]. *)
Section Logic.
Context {S W E : Type} `{TS : !TaskState S W E} (Inv : S -> Prop) (May : S -> W -> Prop).

Fixpoint safe {A} (R G : relation S) (p : process S W A) (c : S) (Q : A -> S -> Prop) : Prop :=
  match p with
  | Ret a => forall c', rtc R c c' -> Inv c' -> Q a c'
  | Panic => False
  | Step f k => forall c', rtc R c c' -> Inv c' -> Inv (f c') /\ G c' (f c') /\ safe R G (k c') (f c') Q
  | BindListener _ k => forall a, safe R G (k a) c Q
  | Await w k => forall c', rtc R c c' -> Inv c' -> May c' w /\ (ready c' w = true -> safe R G k c' Q)
  end.

Lemma safe_mono {A} R G (p : process S W A) c c' Q : rtc R c c' -> safe R G p c Q -> safe R G p c' Q.
Proof.
  intros H. induction p as [a| |f k IH|addr k IH|w k IH]; cbn; intros P; try done.
  - intros c'' H'. apply P. by etrans.
  - intros c'' H'. apply P. by etrans.
  - intros a. by apply IH.
  - intros c'' H'. apply P. by etrans.
Qed.

Lemma safe_bind {A B} R G (p : process S W A) (k : A -> process S W B) c Q Q' :
  safe R G p c Q -> (forall a c', Inv c' -> Q a c' -> safe R G (k a) c' Q') -> Inv c ->
  safe R G (proc_bind p k) c Q'.
Proof.
  revert c. induction p as [a| |f q IH|addr q IH|w q IH]; cbn; intros c P K I.
  - apply K; [done|]. by apply P.
  - done.
  - intros c' H I'. destruct (P c' H I') as (I'' & Hg & P'). split; [done|]. split; [done|]. by apply IH.
  - intros a. by apply IH.
  - intros c' H I'. destruct (P c' H I') as [M P']. split; [done|]. intros Wt. apply IH; [by apply P'|done|done].
Qed.

Lemma safe_post {A} R G (p : process S W A) c (Q Q' : A -> S -> Prop) :
  (forall a c', Inv c' -> Q a c' -> Q' a c') -> safe R G p c Q -> safe R G p c Q'.
Proof.
  intros K. revert c. induction p as [a| |f k IH|addr k IH|w k IH]; cbn; intros c P; auto.
  - intros c' H I. destruct (P c' H I) as (? & ? & ?). auto.
  - intros c' H I. destruct (P c' H I) as [M P']. auto.
Qed.

(** A weaker rely and a stronger guarantee. *)
Lemma safe_weaken (R R' G G' : relation S) {A} (p : process S W A) c Q :
  (forall a b, R' a b -> R a b) -> (forall a b, G a b -> G' a b) -> safe R G p c Q -> safe R' G' p c Q.
Proof.
  intros HR HG. assert (HR' : forall a b, rtc R' a b -> rtc R a b).
  { intros a b H. induction H; [done|]. eapply rtc_l; [by apply HR|done]. }
  revert c. induction p as [a| |f k IH|addr k IH|w k IH]; cbn; intros c P; auto.
  - intros c' H I. destruct (P c' (HR' _ _ H) I) as (? & ? & ?). auto.
  - intros c' H I. destruct (P c' (HR' _ _ H) I). auto.
Qed.

(** ** A pool of tasks

    Each task has its own rely and guarantee; a step anyone takes is a step
    everyone else expects. *)
Context {A : Type} (R G : nat -> relation S) (Q : nat -> A -> S -> Prop).
Context (guarantees_meet : forall i j c c', i <> j -> G i c c' -> R j c c').
Context (events_keep : forall e c c' i, Inv c -> happen e c = Some c' -> Inv c' /\ R i c c').

Definition pool_ok (s : System S W A) : Prop :=
  Inv (sys_state s) /\ forall i p, sys_calls s !! i = Some p -> safe (R i) (G i) p (sys_state s) (Q i).

Lemma pool_update s i p c p' :
  pool_ok s -> sys_calls s !! i = Some p -> Inv c ->
  (forall j, i <> j -> rtc (R j) (sys_state s) c) -> safe (R i) (G i) p' c (Q i) ->
  pool_ok {| sys_state := c; sys_calls := <[i := p']> (sys_calls s) |}.
Proof.
  intros [I P] H I' J P'. split; [done|]. intros j q Hj. cbn in Hj.
  destruct (decide (i = j)) as [<-|Hne].
  - rewrite list_lookup_insert_eq in Hj by (by eapply lookup_lt_Some). by injection Hj as <-.
  - rewrite list_lookup_insert_ne in Hj by done. eapply safe_mono; [by apply J|by apply P].
Qed.

Lemma pool_environment s c :
  pool_ok s -> Inv c -> (forall j, R j (sys_state s) c) ->
  pool_ok {| sys_state := c; sys_calls := sys_calls s |}.
Proof.
  intros [I P] I' J. split; [done|]. intros j q Hj. eapply safe_mono; [by apply rtc_once, J|by apply P].
Qed.

Lemma pool_step s s' : pool_ok s -> sys_step s s' -> pool_ok s'.
Proof.
  intros P [ch H]. pose proof P as [I T]. destruct ch as [i|i a|e]; cbn in H.
  - destruct (sys_calls s !! i) as [[a| |f k|addr k|w k]|] eqn:Ei; try discriminate H.
    + injection H as <-. destruct (T _ _ Ei (sys_state s)) as (I' & Hg & T'); [done|done|].
      eapply pool_update; try done. intros j Hj. by apply rtc_once, (guarantees_meet i).
    + destruct (ready _ _) eqn:Ew; [|discriminate H]. injection H as <-.
      eapply pool_update; try done. by apply (T _ _ Ei).
  - destruct (sys_calls s !! i) as [[]|] eqn:Ei; try discriminate H. injection H as <-.
    eapply pool_update; try done. by apply (T _ _ Ei).
  - destruct (happen e (sys_state s)) as [c|] eqn:Eh; [|discriminate H]. injection H as <-.
    apply pool_environment; [done|by eapply (events_keep _ _ _ 0)|]. intros j. by eapply events_keep.
Qed.

Lemma pool_reachable s s' : pool_ok s -> rtc sys_step s s' -> pool_ok s'.
Proof. intros P H. induction H; eauto using pool_step. Qed.

(** What a task awaits, it may. *)
Lemma pool_awaits s i w k : pool_ok s -> sys_calls s !! i = Some (Await w k) -> May (sys_state s) w.
Proof. intros [I T] H. by apply (T _ _ H (sys_state s)). Qed.

(** Whoever moves, the step is one that was promised. *)
Lemma pool_move s s' : pool_ok s -> sys_step s s' ->
  sys_state s' = sys_state s \/ (exists i, G i (sys_state s) (sys_state s'))
  \/ (exists e, happen e (sys_state s) = Some (sys_state s')).
Proof.
  intros [I T] [ch H]. destruct ch as [i|i a|e]; cbn in H.
  - destruct (sys_calls s !! i) as [[a| |f k|addr k|w k]|] eqn:Ei; try discriminate H.
    + injection H as <-. right; left. exists i. by destruct (T _ _ Ei (sys_state s)) as (_ & Hg & _).
    + destruct (ready _ _); [|discriminate H]. injection H as <-. by left.
  - destruct (sys_calls s !! i) as [[]|]; try discriminate H. injection H as <-. by left.
  - destruct (happen e (sys_state s)) as [c|] eqn:Eh; [|discriminate H]. injection H as <-. right; right. by exists e.
Qed.
End Logic.
