(* ===== verification/Control.v ===== *)
(** * The control plane
      ([crates/eggchaos-server/src/runtime/control.rs], [runtime/mod.rs],
      [runtime/supervisor.rs])

    The state of [RuntimeInner] that proxy management owns, and every
    operation on it.  An operation is a process of [Tasks]: what it does between two
    awaits is one atomic step on the state, which is what the lock of the
    proxy map gives it; between steps every other task may run.  Binding a
    socket is answered by the operating system, and awaiting a supervisor by
    the supervisor.  Pointers are addresses: a token, a done flag or a task is
    a position in the memory that holds it. *)

From Stdlib Require Import Bool SpecFloat.
From stdpp Require Import base list gmap strings sorting relations.
From S2P Require Import Prelude Rng Float64 Plan Policy Schedule Fingerprint Wire Server Tasks.

(** ** State *)

(** [CancellationToken]: a node of the tree of child tokens. *)
Record TokenNode := { tn_parent : option nat; tn_cancelled : bool }.

Record ManagedProxy := {
  mp_spec : ProxySpec;
  mp_running : bool;
  mp_bound_addr : option SocketAddr;
  mp_cancel : nat;
  mp_done : nat;
  mp_counters : nat   (* the shared [active] and [ordinal] counters *)
}.

Inductive SupervisorPhase :=
| SLoop                          (* top of the accept loop *)
| SSelect (entry : ManagedProxy) (* awaiting cancellation or a client *)
| SStopping                      (* left the loop: children, then the purge *)
| SFlagged                       (* [done.finish()] was called *)
| SFinished.                     (* the task returned *)

Record Supervisor := {
  sv_name : string;
  sv_listener : SocketAddr;
  sv_cancel : nat;
  sv_done : nat;
  sv_phase : SupervisorPhase
}.

Record Control := {
  rt_seed : Z;
  rt_proxies : gmap string ManagedProxy;
  rt_generation : Z;
  rt_shutdown_initiated : bool;
  rt_tokens : list TokenNode;         (* address 0: the shutdown token *)
  rt_dones : list bool;
  rt_counters : nat;                  (* counters allocated so far *)
  rt_supervisors : list Supervisor;   (* every task ever spawned *)
  rt_root : list (string * nat);
  rt_cancellations : gmap Z nat
}.

Definition SHUTDOWN_TOKEN : nat := 0.

Definition control_new (seed : Z) : Control := {|
  rt_seed := seed; rt_proxies := ∅; rt_generation := 1; rt_shutdown_initiated := false;
  rt_tokens := [{| tn_parent := None; tn_cancelled := false |}]; rt_dones := []; rt_counters := 0;
  rt_supervisors := []; rt_root := []; rt_cancellations := ∅
|}.

(** One setter per field. *)
Definition set_proxies (m : gmap string ManagedProxy) (c : Control) : Control := {|
  rt_seed := rt_seed c; rt_proxies := m; rt_generation := rt_generation c;
  rt_shutdown_initiated := rt_shutdown_initiated c; rt_tokens := rt_tokens c; rt_dones := rt_dones c;
  rt_counters := rt_counters c; rt_supervisors := rt_supervisors c; rt_root := rt_root c;
  rt_cancellations := rt_cancellations c |}.
Definition set_generation (g : Z) (c : Control) : Control := {|
  rt_seed := rt_seed c; rt_proxies := rt_proxies c; rt_generation := g;
  rt_shutdown_initiated := rt_shutdown_initiated c; rt_tokens := rt_tokens c; rt_dones := rt_dones c;
  rt_counters := rt_counters c; rt_supervisors := rt_supervisors c; rt_root := rt_root c;
  rt_cancellations := rt_cancellations c |}.
Definition set_shutdown (b : bool) (c : Control) : Control := {|
  rt_seed := rt_seed c; rt_proxies := rt_proxies c; rt_generation := rt_generation c;
  rt_shutdown_initiated := b; rt_tokens := rt_tokens c; rt_dones := rt_dones c;
  rt_counters := rt_counters c; rt_supervisors := rt_supervisors c; rt_root := rt_root c;
  rt_cancellations := rt_cancellations c |}.
Definition set_tokens (ts : list TokenNode) (c : Control) : Control := {|
  rt_seed := rt_seed c; rt_proxies := rt_proxies c; rt_generation := rt_generation c;
  rt_shutdown_initiated := rt_shutdown_initiated c; rt_tokens := ts; rt_dones := rt_dones c;
  rt_counters := rt_counters c; rt_supervisors := rt_supervisors c; rt_root := rt_root c;
  rt_cancellations := rt_cancellations c |}.
Definition set_dones (ds : list bool) (c : Control) : Control := {|
  rt_seed := rt_seed c; rt_proxies := rt_proxies c; rt_generation := rt_generation c;
  rt_shutdown_initiated := rt_shutdown_initiated c; rt_tokens := rt_tokens c; rt_dones := ds;
  rt_counters := rt_counters c; rt_supervisors := rt_supervisors c; rt_root := rt_root c;
  rt_cancellations := rt_cancellations c |}.
Definition set_counters (n : nat) (c : Control) : Control := {|
  rt_seed := rt_seed c; rt_proxies := rt_proxies c; rt_generation := rt_generation c;
  rt_shutdown_initiated := rt_shutdown_initiated c; rt_tokens := rt_tokens c; rt_dones := rt_dones c;
  rt_counters := n; rt_supervisors := rt_supervisors c; rt_root := rt_root c;
  rt_cancellations := rt_cancellations c |}.
Definition set_supervisors (s : list Supervisor) (c : Control) : Control := {|
  rt_seed := rt_seed c; rt_proxies := rt_proxies c; rt_generation := rt_generation c;
  rt_shutdown_initiated := rt_shutdown_initiated c; rt_tokens := rt_tokens c; rt_dones := rt_dones c;
  rt_counters := rt_counters c; rt_supervisors := s; rt_root := rt_root c;
  rt_cancellations := rt_cancellations c |}.
Definition set_root (r : list (string * nat)) (c : Control) : Control := {|
  rt_seed := rt_seed c; rt_proxies := rt_proxies c; rt_generation := rt_generation c;
  rt_shutdown_initiated := rt_shutdown_initiated c; rt_tokens := rt_tokens c; rt_dones := rt_dones c;
  rt_counters := rt_counters c; rt_supervisors := rt_supervisors c; rt_root := r;
  rt_cancellations := rt_cancellations c |}.
Definition set_cancellations (m : gmap Z nat) (c : Control) : Control := {|
  rt_seed := rt_seed c; rt_proxies := rt_proxies c; rt_generation := rt_generation c;
  rt_shutdown_initiated := rt_shutdown_initiated c; rt_tokens := rt_tokens c; rt_dones := rt_dones c;
  rt_counters := rt_counters c; rt_supervisors := rt_supervisors c; rt_root := rt_root c;
  rt_cancellations := m |}.

(** ** Tokens, flags and handles *)

Definition child_token (parent : nat) (c : Control) : nat * Control :=
  (length (rt_tokens c), set_tokens (rt_tokens c ++ [{| tn_parent := Some parent; tn_cancelled := false |}]) c).
Definition cancel_token (t : nat) (c : Control) : Control :=
  set_tokens (alter (fun n => {| tn_parent := tn_parent n; tn_cancelled := true |}) t (rt_tokens c)) c.

(** A token is cancelled when it or an ancestor is; a parent is older than
    its children, so the address bounds the walk. *)
Fixpoint cancelled_within (fuel : nat) (ts : list TokenNode) (t : nat) : bool :=
  match fuel with
  | O => false
  | S fuel =>
      match ts !! t with
      | None => false
      | Some n => tn_cancelled n || match tn_parent n with Some p => cancelled_within fuel ts p | None => false end
      end
  end.
Definition is_cancelled (c : Control) (t : nat) : bool := cancelled_within (S t) (rt_tokens c) t.

(** [SupervisorDone::default()]. *)
Definition new_done (c : Control) : nat * Control :=
  (length (rt_dones c), set_dones (rt_dones c ++ [false]) c).
Definition is_done (c : Control) (d : nat) : bool := default false (rt_dones c !! d).

Definition new_counters (c : Control) : nat * Control := (rt_counters c, set_counters (S (rt_counters c)) c).

Definition is_finished (c : Control) (h : nat) : bool :=
  match rt_supervisors c !! h with
  | Some s => match sv_phase s with SFinished => true | _ => false end
  | None => false
  end.

(** [next_generation]: [fetch_add(1) + 1]. *)
Definition next_generation (c : Control) : Z * Control :=
  let g := wadd (rt_generation c) 1 in (g, set_generation g c).

(** [Vec::swap_remove]. *)
Definition swap_remove {A} (i : nat) (l : list A) : list A :=
  match last l with
  | Some x => take (length l - 1) (<[i := x]> l)
  | None => l
  end.

(** [Iterator::position]. *)
Fixpoint position {A} (f : A -> bool) (l : list A) : option nat :=
  match l with
  | [] => None
  | x :: l => if f x then Some O else option_map S (position f l)
  end.

Definition untrack (name : string) (c : Control) : Control :=
  match position (fun '(tracked, h) => bool_decide (tracked = name) && is_finished c h) (rt_root c) with
  | Some i => set_root (swap_remove i (rt_root c)) c
  | None => c
  end.

(** The atomic load of a policy cell, which is never empty. *)
Definition load (cell : LivePolicy) : PublishedPolicy FaultPlan :=
  match snapshot cell with
  | Some p => p
  | None => {| generation := 1; pub_plan := plan_empty; seed_namespace := 0 |}
  end.

Definition view_of (entry : ManagedProxy) : ProxyView :=
  let spec := mp_spec entry in
  let upstream := load (ps_upstream_policy spec) in
  let downstream := load (ps_downstream_policy spec) in
  {| pv_name := ps_name spec; pv_listen := ps_listen spec; pv_upstream := ps_upstream spec;
     pv_bound_addr := mp_bound_addr entry; pv_running := mp_running entry; pv_enabled := ps_enabled spec;
     pv_upstream_faults := pub_plan upstream; pv_downstream_faults := pub_plan downstream;
     pv_upstream_generation := generation upstream; pv_downstream_generation := generation downstream;
     pv_upstream_seed_namespace := seed_namespace upstream;
     pv_downstream_seed_namespace := seed_namespace downstream;
     pv_max_connections := ps_max_connections spec;
     pv_connect_timeout_ms := Z.min (ps_connect_timeout spec / 1000000) U64_MAX; pv_seed := ps_seed spec |}.

(** ** Tasks *)

(** What a task awaits: a done flag, or the end of a task. *)
Inductive Waiting := OnDone (d : nat) | OnHandle (h : nat).

Abbreviation proc := (process Control Waiting).

(** Take a generation; a new child of the shutdown token; read the
    generation. *)
Definition bump : proc Z := atomic (fun c => let '(g, c) := next_generation c in (c, Ret g)).
Definition fresh_scope : proc nat := atomic (fun c => let '(t, c) := child_token SHUTDOWN_TOKEN c in (c, Ret t)).
Definition generation_now : proc Z := observe rt_generation.

(** ** Listeners *)

Definition shutting_down : ControlError := ControlInvalid "service is shutting down".

(** [cancel.cancel(); done.join().await; self.untrack(name).await;] *)
Definition stop_supervisor {A} (name : string) (cancel done : nat) (k : proc A) : proc A :=
  atomic (fun c => (cancel_token cancel c, Await (OnDone done) (atomic (fun c => (untrack name c, k))))).

Definition spawn_supervisor (listener : SocketAddr) (name : string) (cancel : nat) : proc (result nat ControlError) :=
  atomic (fun c =>
    if rt_shutdown_initiated c then (cancel_token cancel c, Ret (Err shutting_down))
    else
      let '(done, c) := new_done c in
      let handle := length (rt_supervisors c) in
      let task := {| sv_name := name; sv_listener := listener; sv_cancel := cancel; sv_done := done; sv_phase := SLoop |} in
      (set_root (rt_root c ++ [(name, handle)]) (set_supervisors (rt_supervisors c ++ [task]) c), Ret (Ok done))).

(** [TcpListener::bind(..).map_err(..)?.local_addr().map_err(..)?]. *)
Definition bind_for (proxy : string) (listen : SocketAddr) : proc (result SocketAddr ControlError) :=
  BindListener listen (fun answer =>
    match answer with
    | Bound addr => Ret (Ok addr)
    | BindError source | AddrError source => Ret (Err (BindFailed proxy source))
    end).

Definition already_exists (name : string) : ControlError :=
  ControlConflict ("proxy " +:+ name +:+ " already exists").
Definition MAX_PROXIES : Z := 1024.
Definition too_many_proxies : ControlError :=
  ControlInvalid "stream proxy count exceeds the 1024 proxy limit".
Definition contains (name : string) (c : Control) : bool := is_some (rt_proxies c !! name).
Definition proxy_count (c : Control) : Z := Z.of_nat (size (rt_proxies c)).

Definition insert_proxy (name : string) (entry : ManagedProxy) (c : Control) : Control :=
  set_proxies (<[name := entry]> (rt_proxies c)) c.

(** ** Definitions *)

Definition import_definition (proxy : ProxySpec) : proc (result Z ControlError) :=
  match proxy_spec_validate proxy with
  | Err e => Ret (Err (definition_error e))
  | Ok _ =>
      atomic (fun c =>
        match init_policies (rt_seed c) proxy with
        | None => (c, Panic)
        | Some proxy =>
            let name := ps_name proxy in
            if contains name c then (c, Ret (Err (already_exists name)))
            else
              let '(cancel, c) := child_token SHUTDOWN_TOKEN c in
              let '(done, c) := new_done c in
              let '(counters, c) := new_counters c in
              let entry := {| mp_spec := proxy; mp_running := false; mp_bound_addr := None;
                              mp_cancel := cancel; mp_done := done; mp_counters := counters |} in
              let '(g, c) := next_generation (insert_proxy name entry c) in
              (c, Ret (Ok g))
        end)
  end.

(** The last block of [create_proxy]: publish the entry of a bound listener,
    or stop its supervisor when the name was taken meanwhile. *)
Definition create_publish (name : string) (entry : ManagedProxy) : proc (result (ProxyView * Z) ControlError) :=
  atomic (fun c =>
    if contains name c
    then (c, stop_supervisor name (mp_cancel entry) (mp_done entry) (Ret (Err (already_exists name))))
    else if MAX_PROXIES <=? proxy_count c
    then (c, stop_supervisor name (mp_cancel entry) (mp_done entry) (Ret (Err too_many_proxies)))
    else (insert_proxy name entry c, do! g := bump in Ret (Ok (view_of entry, g)))).

Definition create_bound (proxy : ProxySpec) (bound_addr : SocketAddr) : proc (result (ProxyView * Z) ControlError) :=
  atomic (fun c =>
    match init_policies (rt_seed c) proxy with
    | None => (c, Panic)
    | Some proxy =>
        let proxy := set_ps_enabled true proxy in
        let name := ps_name proxy in
        let '(cancel, c) := child_token SHUTDOWN_TOKEN c in
        let '(counters, c) := new_counters c in
        (c, do! spawned := spawn_supervisor bound_addr name cancel in
            match spawned with
            | Err e => Ret (Err e)
            | Ok done =>
                create_publish name
                  {| mp_spec := proxy; mp_running := true; mp_bound_addr := Some bound_addr;
                     mp_cancel := cancel; mp_done := done; mp_counters := counters |}
            end)
    end).

Definition create_proxy (proxy : ProxySpec) : proc (result (ProxyView * Z) ControlError) :=
  do! down := observe rt_shutdown_initiated in
  if (down : bool) then Ret (Err shutting_down)
  else
    match proxy_spec_validate proxy with
    | Err e => Ret (Err (definition_error e))
    | Ok _ =>
        do! refusal := observe (fun c =>
          if contains (ps_name proxy) c then Some (already_exists (ps_name proxy))
          else if MAX_PROXIES <=? proxy_count c then Some too_many_proxies
          else None) in
        match refusal with
        | Some e => Ret (Err e)
        | None =>
            do! bound := bind_for (ps_name proxy) (ps_listen proxy) in
            match bound with
            | Err e => Ret (Err e)
            | Ok bound_addr => create_bound proxy bound_addr
            end
        end
    end.

(** [start_stored]: bind the definition as it was read, then mark the entry
    that is stored now. *)
Definition stored_shutting_down : ControlError := ControlInvalid "control state is shutting down".

Definition start_publish (name : string) (bound_addr : SocketAddr) (cancel done : nat)
    : proc (result SocketAddr ControlError) :=
  atomic (fun c =>
    match rt_proxies c !! name with
    | None => (c, stop_supervisor name cancel done (Ret (Err (ControlNotFound name))))
    | Some entry =>
        (insert_proxy name
           {| mp_spec := set_ps_enabled true (mp_spec entry); mp_running := true; mp_bound_addr := Some bound_addr;
              mp_cancel := cancel; mp_done := done; mp_counters := mp_counters entry |} c,
         Ret (Ok bound_addr))
    end).

Definition start_stored (name : string) (spec : ProxySpec) : proc (result SocketAddr ControlError) :=
  do! down := observe rt_shutdown_initiated in
  if (down : bool) then Ret (Err stored_shutting_down)
  else
    do! bound := bind_for name (ps_listen spec) in
    match bound with
    | Err e => Ret (Err e)
    | Ok bound_addr =>
        do! down := observe rt_shutdown_initiated in
        if (down : bool) then Ret (Err stored_shutting_down)
        else
          do! cancel := fresh_scope in
          do! spawned := spawn_supervisor bound_addr name cancel in
          match spawned with
          | Err e => Ret (Err e)
          | Ok done => start_publish name bound_addr cancel done
          end
    end.

(** [start_all] keeps the first error and goes on. *)
Definition keep_first (first : option ControlError) (e : ControlError) : option ControlError :=
  match first with None => Some e | Some _ => first end.
Fixpoint start_names (names : list string) (first_error : option ControlError) : proc (result Z ControlError) :=
  match names with
  | [] => match first_error with Some e => Ret (Err e) | None => do! g := generation_now in Ret (Ok g) end
  | name :: names =>
      do! spec := observe (fun c => option_map mp_spec (rt_proxies c !! name)) in
      match spec with
      | None => start_names names (keep_first first_error (ControlNotFound name))
      | Some spec =>
          do! started := start_stored name spec in
          match started with
          | Ok _ => start_names names first_error
          | Err e => start_names names (keep_first first_error e)
          end
      end
  end.

(** The names of a [BTreeMap] whose entries satisfy a test, in its order. *)
Definition names_where (f : ManagedProxy -> bool) (c : Control) : list string :=
  merge_sort String.le (map fst (List.filter (fun '(_, e) => f e) (map_to_list (rt_proxies c)))).
Definition start_all : proc (result Z ControlError) :=
  do! names := observe (names_where (fun e => ps_enabled (mp_spec e) && negb (mp_running e))) in
  start_names names None.

Definition delete_proxy (name : string) : proc (result Z ControlError) :=
  atomic (fun c =>
    match rt_proxies c !! name with
    | None => (c, Ret (Err (ControlNotFound name)))
    | Some entry =>
        (set_proxies (delete name (rt_proxies c)) c,
         stop_supervisor name (mp_cancel entry) (mp_done entry) (do! g := bump in Ret (Ok g)))
    end).

(** Mark an entry stopped under a fresh scope; the old scope is returned. *)
Definition mark_stopped (spec : ProxySpec) (name : string) (entry : ManagedProxy) (c : Control) : Control :=
  let '(fresh, c) := child_token SHUTDOWN_TOKEN c in
  insert_proxy name
    {| mp_spec := spec; mp_running := false; mp_bound_addr := None; mp_cancel := fresh;
       mp_done := mp_done entry; mp_counters := mp_counters entry |} c.

Definition set_enabled (name : string) (enabled : bool) : proc (result Z ControlError) :=
  if enabled then
    do! found := observe (fun c => option_map (fun e => (mp_spec e, mp_running e)) (rt_proxies c !! name)) in
    match found with
    | None => Ret (Err (ControlNotFound name))
    | Some (spec, running) =>
        if (running : bool) then do! g := generation_now in Ret (Ok g)
        else
          do! started := start_stored name spec in
          match started with
          | Err e => Ret (Err e)
          | Ok _ => do! g := bump in Ret (Ok g)
          end
    end
  else
    atomic (fun c =>
      match rt_proxies c !! name with
      | None => (c, Ret (Err (ControlNotFound name)))
      | Some entry =>
          if negb (mp_running entry) then (c, Ret (Ok (rt_generation c)))
          else (mark_stopped (set_ps_enabled false (mp_spec entry)) name entry c,
                stop_supervisor name (mp_cancel entry) (mp_done entry) (do! g := bump in Ret (Ok g)))
      end).

(** ** Updates *)

Definition patch_only_enabled (p : ProxyPatch) : bool :=
  is_none (pt_listen p) && is_none (pt_upstream p) && is_none (pt_max_connections p)
  && is_none (pt_connect_timeout_ms p).
Definition differs (o : option SocketAddr) (a : SocketAddr) : bool :=
  match o with Some x => negb (bool_decide (x = a)) | None => false end.
Definition needs_restart (p : ProxyPatch) (current : ProxySpec) : bool :=
  differs (pt_listen p) (ps_listen current) || differs (pt_upstream p) (ps_upstream current).
Definition patched (p : ProxyPatch) (spec : ProxySpec) : ProxySpec := {|
  ps_name := ps_name spec;
  ps_listen := default (ps_listen spec) (pt_listen p);
  ps_upstream := default (ps_upstream spec) (pt_upstream p);
  ps_upstream_faults := ps_upstream_faults spec; ps_downstream_faults := ps_downstream_faults spec;
  ps_upstream_policy := ps_upstream_policy spec; ps_downstream_policy := ps_downstream_policy spec;
  ps_enabled := ps_enabled spec;
  ps_max_connections := default (ps_max_connections spec) (pt_max_connections p);
  ps_connect_timeout := match pt_connect_timeout_ms p with Some ms => duration_from_millis ms | None => ps_connect_timeout spec end;
  ps_seed := ps_seed spec
|}.
(** [next]: the patched definition with the live policies of the entry. *)
Definition with_policies_of (spec : ProxySpec) (entry : ManagedProxy) : ProxySpec :=
  set_ps_policies (ps_upstream_policy (mp_spec entry)) (ps_downstream_policy (mp_spec entry)) spec.
Definition patch_generation (g : option Z) : proc Z :=
  match g with Some g => Ret g | None => bump end.

(** Live fields, or a proxy that was stopped when it was read. *)
Definition update_live_fields (name : string) (spec : ProxySpec) (g : option Z)
    : proc (result (ProxyView * Z) ControlError) :=
  atomic (fun c =>
    match rt_proxies c !! name with
    | None => (c, Ret (Err (ControlNotFound name)))
    | Some entry =>
        let entry := {| mp_spec := with_policies_of spec entry; mp_running := mp_running entry;
                        mp_bound_addr := mp_bound_addr entry; mp_cancel := mp_cancel entry;
                        mp_done := mp_done entry; mp_counters := mp_counters entry |} in
        (insert_proxy name entry c, do! g := patch_generation g in Ret (Ok (view_of entry, g)))
    end).

(** The end of a restart: publish the replacement listener. *)
Definition restart_publish (name : string) (spec : ProxySpec) (bound_addr : SocketAddr) (cancel done : nat)
    (g : option Z) : proc (result (ProxyView * Z) ControlError) :=
  atomic (fun c =>
    match rt_proxies c !! name with
    | None => (c, stop_supervisor name cancel done (Ret (Err (ControlNotFound name))))
    | Some entry =>
        let entry := {| mp_spec := with_policies_of spec entry; mp_running := true;
                        mp_bound_addr := Some bound_addr; mp_cancel := cancel; mp_done := done;
                        mp_counters := mp_counters entry |} in
        (insert_proxy name entry c, do! g := patch_generation g in Ret (Ok (view_of entry, g)))
    end).

Definition restart_bound (name : string) (spec : ProxySpec) (bound_addr : SocketAddr) (g : option Z)
    : proc (result (ProxyView * Z) ControlError) :=
  atomic (fun c =>
    match rt_proxies c !! name with
    | None => (c, Ret (Err (ControlNotFound name)))
    | Some entry =>
        if negb (mp_running entry)
        then (c, Ret (Err (ControlConflict ("proxy " +:+ name +:+ " is already being restarted"))))
        else
          (mark_stopped (mp_spec entry) name entry c,
           stop_supervisor name (mp_cancel entry) (mp_done entry)
             (do! cancel := fresh_scope in
              do! spawned := spawn_supervisor bound_addr name cancel in
              match spawned with
              | Err e => Ret (Err e)
              | Ok done => restart_publish name spec bound_addr cancel done g
              end))
    end).

Definition restart_proxy (name : string) (spec : ProxySpec) (g : option Z) : proc (result (ProxyView * Z) ControlError) :=
  BindListener (ps_listen spec) (fun answer =>
    match answer with
    | BindError source =>
        Ret (Err (RestartFailed name ("replacement bind failed (" +:+ source +:+ "); old listener still serving")))
    | AddrError source => Ret (Err (RestartFailed name ("replacement bound but address unreadable: " +:+ source)))
    | Bound bound_addr => restart_bound name spec bound_addr g
    end).

Definition update_fields (name : string) (patch : ProxyPatch) (g : option Z) : proc (result (ProxyView * Z) ControlError) :=
  if bool_decide (pt_connect_timeout_ms patch = Some 0)
  then Ret (Err (ControlInvalid "connect timeout must be non-zero"))
  else
    do! found := observe (fun c => option_map (fun e => (mp_spec e, mp_running e)) (rt_proxies c !! name)) in
    match found with
    | None => Ret (Err (ControlNotFound name))
    | Some (current, running) =>
        let restart := needs_restart patch current in
        let spec := patched patch current in
        match proxy_spec_validate spec with
        | Err e => Ret (Err (definition_error e))
        | Ok _ => if negb restart || negb running then update_live_fields name spec g else restart_proxy name spec g
        end
    end.

Definition update_proxy (name : string) (patch : ProxyPatch) : proc (result (ProxyView * Z) ControlError) :=
  match pt_enabled patch with
  | None => update_fields name patch None
  | Some enabled =>
      do! g := set_enabled name enabled in
      match g with
      | Err e => Ret (Err e)
      | Ok g =>
          if patch_only_enabled patch then
            observe (fun c => match rt_proxies c !! name with
                              | Some entry => Ok (view_of entry, g)
                              | None => Err (ControlNotFound name)
                              end)
          else update_fields name patch (Some g)
      end
  end.

(** ** Faults *)

Definition policy_of (direction : Direction) (spec : ProxySpec) : LivePolicy :=
  match direction with Upstream => ps_upstream_policy spec | Downstream => ps_downstream_policy spec end.

(** The policy and its canonical mirror of one direction, replaced together. *)
Definition set_direction (direction : Direction) (cell : LivePolicy) (mirror : FaultPlan) (spec : ProxySpec) : ProxySpec :=
  match direction with
  | Upstream =>
      set_ps_faults mirror (ps_downstream_faults spec) (set_ps_policies cell (ps_downstream_policy spec) spec)
  | Downstream =>
      set_ps_faults (ps_upstream_faults spec) mirror (set_ps_policies (ps_upstream_policy spec) cell spec)
  end.
Definition set_spec (entry : ManagedProxy) (spec : ProxySpec) : ManagedProxy := {|
  mp_spec := spec; mp_running := mp_running entry; mp_bound_addr := mp_bound_addr entry;
  mp_cancel := mp_cancel entry; mp_done := mp_done entry; mp_counters := mp_counters entry
|}.

Definition publish_error_display (e : PublishError ValidationError) : string :=
  match e with Invalid e => validation_error_display e | Conflict _ => "" end.

(** Publish a plan on one direction of an entry under its current namespace
    and refresh the mirror from what was published. *)
Definition publish_direction (direction : Direction) (plan : FaultPlan) (entry : ManagedProxy)
    : result ManagedProxy string :=
  let cell := policy_of direction (mp_spec entry) in
  match Stream.publish_plan cell plan (seed_namespace (load cell)) with
  | (Err e, _) => Err (publish_error_display e)
  | (Ok published, cell) => Ok (set_spec entry (set_direction direction cell (pub_plan published) (mp_spec entry)))
  end.

Definition build_fault_spec (u : FaultUpsert) : result FaultSpec ControlError :=
  if (str_len (fu_id u) =? 0) || (128 <? str_len (fu_id u))
  then Err (ControlInvalid "fault id must be 1..=128 bytes")
  else if negb (probability_in_range (fu_probability u))
  then Err (ControlInvalid "probability must be finite and between 0 and 1")
  else
    let? id := map_err ControlInvalid (wire_fault_id (fu_id u)) in
    let? probability := map_err ControlInvalid (wire_probability (fu_probability u)) in
    Ok {| fs_id := id; fs_probability := probability; fs_kind := fu_kind u |}.

Definition fault_exists (id proxy : string) (direction : Direction) : ControlError :=
  ControlConflict ("fault " +:+ id +:+ " already exists on " +:+ proxy +:+ "/" +:+
    direction_as_str direction).

(** [FaultPlan::new(..)] then [publish] and the mirror: the tail both edits
    share. *)
Definition publish_faults (name : string) (direction : Direction) (fs : list FaultSpec) (entry : ManagedProxy) (c : Control)
    : result (Z * Control) ControlError :=
  let? next := map_err (fun e => ControlInvalid (validation_error_display e)) (plan_new fs) in
  let? entry := map_err ControlInvalid (publish_direction direction next entry) in
  Ok (next_generation (insert_proxy name entry c)).

Definition add_fault_locked (proxy : string) (direction : Direction) (spec : FaultSpec) (c : Control)
    : result (Direction * FaultSpec * Z * Control) ControlError :=
  match rt_proxies c !! proxy with
  | None => Err (ControlNotFound proxy)
  | Some entry =>
      let base := pub_plan (load (policy_of direction (mp_spec entry))) in
      if is_some (plan_get base (fs_id spec)) then Err (fault_exists (fs_id spec) proxy direction)
      else
        match publish_faults proxy direction (faults base ++ [spec]) entry c with
        | Err e => Err e
        | Ok (g, c) => Ok (direction, spec, g, c)
        end
  end.

(** Keep the state of a critical section that failed before it changed it. *)
Definition locked {A} (f : Control -> result (A * Control) ControlError) : proc (result A ControlError) :=
  atomic (fun c => match f c with Ok (a, c') => (c', Ret (Ok a)) | Err e => (c, Ret (Err e)) end).

Definition add_fault (proxy : string) (u : FaultUpsert) : proc (result (Direction * FaultSpec * Z) ControlError) :=
  match build_fault_spec u with
  | Err e => Ret (Err e)
  | Ok spec => locked (add_fault_locked proxy (fu_direction u) spec)
  end.

Definition patch_spec (patch : FaultPatch) (existing : FaultSpec) : result FaultSpec ControlError :=
  let? probability := match fpt_probability patch with
                      | Some p => map_err ControlInvalid (wire_probability p)
                      | None => Ok (fs_probability existing)
                      end in
  Ok {| fs_id := fs_id existing; fs_probability := probability;
        fs_kind := default (fs_kind existing) (fpt_kind patch) |}.

(** [faults.iter().position(..)] then the assignment: the first match. *)
Fixpoint overwrite (id : string) (next : FaultSpec) (fs : list FaultSpec) : list FaultSpec :=
  match fs with
  | [] => []
  | f :: fs => if bool_decide (fs_id f = id) then next :: fs else f :: overwrite id next fs
  end.

Definition no_fault (id proxy : string) : ControlError := ControlNotFound ("fault " +:+ id +:+ " on " +:+ proxy).

(** One direction of the loop of [update_fault]: [None] when it has no such
    fault. *)
Definition update_direction (proxy id : string) (patch : FaultPatch) (entry : ManagedProxy) (c : Control)
    (direction : Direction) : option (result (Direction * FaultSpec * Z * Control) ControlError) :=
  let base := pub_plan (load (policy_of direction (mp_spec entry))) in
  match plan_get base id with
  | None => None
  | Some existing =>
      Some (let? next_spec := patch_spec patch existing in
            match publish_faults proxy direction (overwrite id next_spec (faults base)) entry c with
            | Err e => Err e
            | Ok (g, c) => Ok (direction, next_spec, g, c)
            end)
  end.

Definition update_fault_locked (proxy id : string) (patch : FaultPatch) (c : Control)
    : result (Direction * FaultSpec * Z * Control) ControlError :=
  match rt_proxies c !! proxy with
  | None => Err (ControlNotFound proxy)
  | Some entry =>
      match update_direction proxy id patch entry c Upstream with
      | Some r => r
      | None =>
          match update_direction proxy id patch entry c Downstream with
          | Some r => r
          | None => Err (no_fault id proxy)
          end
      end
  end.

Definition update_fault (proxy id : string) (patch : FaultPatch) : proc (result (Direction * FaultSpec * Z) ControlError) :=
  if match fpt_probability patch with Some p => negb (probability_in_range p) | None => false end
  then Ret (Err (ControlInvalid "probability must be finite and between 0 and 1"))
  else locked (update_fault_locked proxy id patch).

Definition remove_direction (proxy id : string) (entry : ManagedProxy) (c : Control) (direction : Direction)
    : option (result (Z * Control) ControlError) :=
  let base := pub_plan (load (policy_of direction (mp_spec entry))) in
  if is_none (plan_get base id) then None
  else
    Some (let next := without_fault base id in
          let? _u := map_err (fun e => ControlInvalid (validation_error_display e)) (plan_validate next) in
          let? entry := map_err ControlInvalid (publish_direction direction next entry) in
          Ok (next_generation (insert_proxy proxy entry c))).

Definition remove_fault_locked (proxy id : string) (c : Control) : result (Z * Control) ControlError :=
  match rt_proxies c !! proxy with
  | None => Err (ControlNotFound proxy)
  | Some entry =>
      match remove_direction proxy id entry c Upstream with
      | Some r => r
      | None =>
          match remove_direction proxy id entry c Downstream with
          | Some r => r
          | None => Err (no_fault id proxy)
          end
      end
  end.
Definition remove_fault (proxy id : string) : proc (result Z ControlError) := locked (remove_fault_locked proxy id).

(** [get_fault] and [list_faults]: reads of the live snapshots. *)
Definition live_plan (direction : Direction) (entry : ManagedProxy) : FaultPlan :=
  pub_plan (load (policy_of direction (mp_spec entry))).
Definition get_fault_now (proxy id : string) (c : Control) : option (Direction * FaultSpec) :=
  match rt_proxies c !! proxy with
  | None => None
  | Some entry =>
      match plan_get (live_plan Upstream entry) id with
      | Some fault => Some (Upstream, fault)
      | None => option_map (pair Downstream) (plan_get (live_plan Downstream entry) id)
      end
  end.
Definition get_fault (proxy id : string) : proc (option (Direction * FaultSpec)) := observe (get_fault_now proxy id).
Definition list_faults_now (proxy : string) (c : Control) : option (list FaultSpec * list FaultSpec) :=
  option_map (fun entry => (faults (live_plan Upstream entry), faults (live_plan Downstream entry))) (rt_proxies c !! proxy).
Definition list_faults (proxy : string) : proc (option (list FaultSpec * list FaultSpec)) := observe (list_faults_now proxy).

(** ** Whole plans *)

(** Store both published cells and their plans; a cell whose publication
    failed was left alone. *)
Definition store_cells (name : string) (entry : ManagedProxy) (up down : LivePolicy) (c : Control) : Control :=
  insert_proxy name (set_spec entry (set_ps_policies up down (mp_spec entry))) c.
Definition store_published (name : string) (entry : ManagedProxy) (up down : LivePolicy) (plan_up plan_down : FaultPlan)
    (c : Control) : Control :=
  insert_proxy name (set_spec entry (set_ps_faults plan_up plan_down (set_ps_policies up down (mp_spec entry)))) c.

Definition publish_plans (name : string) (upstream downstream : FaultPlan) : proc (result Z ControlError) :=
  match plan_validate upstream, plan_validate downstream with
  | Err e, _ | Ok _, Err e => Ret (Err (ControlInvalid (validation_error_display e)))
  | Ok _, Ok _ =>
      atomic (fun c =>
        match rt_proxies c !! name with
        | None => (c, Ret (Err (ControlNotFound name)))
        | Some entry =>
            let up := ps_upstream_policy (mp_spec entry) in
            let down := ps_downstream_policy (mp_spec entry) in
            let ns_down := seed_namespace (load down) in
            match Stream.publish_plan up upstream (seed_namespace (load up)) with
            | (Err e, _) => (c, Ret (Err (ControlInvalid (publish_error_display e))))
            | (Ok published_up, up) =>
                match Stream.publish_plan down downstream ns_down with
                | (Err e, _) => (store_cells name entry up down c, Ret (Err (ControlInvalid (publish_error_display e))))
                | (Ok published_down, down) =>
                    let '(g, c) := next_generation
                      (store_published name entry up down (pub_plan published_up) (pub_plan published_down) c) in
                    (c, Ret (Ok g))
                end
            end
        end)
  end.

(** [conflict_message]. *)
Definition conflict_message (proxy : string) (conflict : PolicyConflict) : string :=
  "proxy " +:+ proxy +:+ " policy moved from generation " +:+ dec (pc_expected conflict) +:+ " to "
  +:+ dec (pc_found conflict) +:+ " during the operation; retry from current state".
Definition expected_error (name : string) (e : PublishError ValidationError) : ControlError :=
  match e with
  | Invalid e => ControlInvalid (validation_error_display e)
  | Conflict conflict => ControlConflict (conflict_message name conflict)
  end.

Record ExpectedPublish := {
  ep_upstream : FaultPlan;
  ep_downstream : FaultPlan;
  ep_upstream_seed : Z;
  ep_downstream_seed : Z;
  ep_expected_upstream : Z;
  ep_expected_downstream : Z
}.

Definition stale (cell : LivePolicy) (expected : Z) : option PolicyConflict :=
  let found := generation (load cell) in
  if found =? expected then None else Some {| pc_expected := expected; pc_found := found |}.

Definition publish_plans_expected (name : string) (p : ExpectedPublish) : proc (result (Z * Z * Z) ControlError) :=
  atomic (fun c =>
    match rt_proxies c !! name with
    | None => (c, Ret (Err (ControlNotFound name)))
    | Some entry =>
        let up := ps_upstream_policy (mp_spec entry) in
        let down := ps_downstream_policy (mp_spec entry) in
        match stale up (ep_expected_upstream p), stale down (ep_expected_downstream p) with
        | Some conflict, _ | None, Some conflict => (c, Ret (Err (ControlConflict (conflict_message name conflict))))
        | None, None =>
            match Stream.publish_plan_expected up (ep_upstream p) (ep_upstream_seed p) (ep_expected_upstream p) with
            | (Err e, _) => (c, Ret (Err (expected_error name e)))
            | (Ok published_up, up) =>
                match Stream.publish_plan_expected down (ep_downstream p) (ep_downstream_seed p) (ep_expected_downstream p) with
                | (Err e, _) => (store_cells name entry up down c, Ret (Err (expected_error name e)))
                | (Ok published_down, down) =>
                    let '(g, c) := next_generation
                      (store_published name entry up down (pub_plan published_up) (pub_plan published_down) c) in
                    (c, Ret (Ok (g, generation published_up, generation published_down)))
                end
            end
        end
    end).

Definition publish_direction_expected (name : string) (direction : Direction) (plan : FaultPlan)
    (ns expected : Z) : proc (result (Z * Z) ControlError) :=
  locked (fun c =>
    match rt_proxies c !! name with
    | None => Err (ControlNotFound name)
    | Some entry =>
        match Stream.publish_plan_expected (policy_of direction (mp_spec entry)) plan ns expected with
        | (Err e, _) => Err (expected_error name e)
        | (Ok published, cell) =>
            let entry := set_spec entry (set_direction direction cell (pub_plan published) (mp_spec entry)) in
            let '(g, c) := next_generation (insert_proxy name entry c) in
            Ok ((g, generation published), c)
        end
    end).

Definition snapshot_policies_now (name : string) (c : Control)
    : option (PublishedPolicy FaultPlan * PublishedPolicy FaultPlan) :=
  option_map (fun entry => (load (ps_upstream_policy (mp_spec entry)), load (ps_downstream_policy (mp_spec entry))))
    (rt_proxies c !! name).
Definition snapshot_policies (name : string) : proc (option (PublishedPolicy FaultPlan * PublishedPolicy FaultPlan)) :=
  observe (snapshot_policies_now name).
Definition current_generations (name : string) : proc (option (Z * Z)) :=
  do! found := snapshot_policies name in
  Ret (option_map (fun '(up, down) => (generation up, generation down)) found).

(** ** Reset *)

(** One direction: publish the empty plan, and only then clear the mirror. *)
Definition clear_direction (direction : Direction) (spec : ProxySpec) : ProxySpec :=
  let cell := policy_of direction spec in
  match Stream.publish_plan cell plan_empty (seed_namespace (load cell)) with
  | (Ok _, cell) => set_direction direction cell plan_empty spec
  | (Err _, _) => spec
  end.
Definition reset_entry (entry : ManagedProxy) : ManagedProxy :=
  set_spec entry (clear_direction Downstream (clear_direction Upstream (set_ps_enabled true (mp_spec entry)))).

Record ResetReport := { rr_generation : Z; rr_reset : bool; rr_failed_enables : list string }.

Fixpoint reset_start (names failed : list string) : proc (list string) :=
  match names with
  | [] => Ret failed
  | name :: names =>
      do! spec := observe (fun c => option_map mp_spec (rt_proxies c !! name)) in
      match spec with
      | None => reset_start names failed
      | Some spec =>
          do! started := start_stored name spec in
          match started with
          | Ok _ => reset_start names failed
          | Err _ => reset_start names (failed ++ [name])
          end
      end
  end.

Definition cancel_all_tokens (ts : list nat) (c : Control) : Control := foldl (fun c t => cancel_token t c) c ts.

(** The stream half of a reset: which proxies could not be enabled. *)
Definition reset_streams : proc (list string) :=
  do! tokens := observe (fun c => map snd (map_to_list (rt_cancellations c))) in
  do! to_start := atomic (fun c =>
    let c := cancel_all_tokens tokens c in
    let c := set_proxies (reset_entry <$> rt_proxies c) c in
    (c, Ret (names_where (fun e => negb (mp_running e)) c))) in
  reset_start to_start [].
(** The reset of a service without datagram proxies; [Service] has all of it. *)
Definition reset : proc (result ResetReport ControlError) :=
  do! failed := reset_streams in
  do! g := bump in
  Ret (Ok {| rr_generation := g; rr_reset := true; rr_failed_enables := failed |}).

(** ** Connections and shutdown *)

Definition kill (id : Z) : proc bool :=
  do! token := atomic (fun c =>
    (set_cancellations (delete id (rt_cancellations c)) c, Ret (rt_cancellations c !! id))) in
  match token with
  | Some token => atomic (fun c => (cancel_token token c, Ret true))
  | None => Ret false
  end.

Definition initiate_shutdown : proc unit :=
  do! _u := atomic (fun c => (set_shutdown true c, Ret tt)) in
  atomic (fun c => (cancel_token SHUTDOWN_TOKEN c, Ret tt)).

Fixpoint await_all {A} (handles : list nat) (k : proc A) : proc A :=
  match handles with [] => k | h :: handles => Await (OnHandle h) (await_all handles k) end.

(** The draining loop; two rounds are enough, see [shutdown_drains]. *)
Fixpoint drain_root (fuel : nat) : proc unit :=
  match fuel with
  | O => Panic
  | S fuel =>
      do! tracked := atomic (fun c => (set_root [] c, Ret (rt_root c))) in
      match tracked with
      | [] => Ret tt
      | _ :: _ => await_all (map snd tracked) (drain_root fuel)
      end
  end.
Definition shutdown_and_join : proc unit :=
  do! _u := initiate_shutdown in drain_root 2.

(** Reads of the definitions. *)
Definition get (name : string) : proc (option ProxyView) :=
  observe (fun c => option_map view_of (rt_proxies c !! name)).
Definition list_views (c : Control) : list ProxyView :=
  omap (fun name => option_map view_of (rt_proxies c !! name)) (names_where (fun _ => true) c).

(** * The system *)

(** ** Supervisors *)

Inductive SupEvent :=
| SupNext                       (* run to the next await *)
| SupCancelled                  (* [cancel.cancelled()] wins the select *)
| SupAccept (id : option Z).    (* a client: admitted under this id, or refused *)

Definition set_phase (phase : SupervisorPhase) (s : Supervisor) : Supervisor := {|
  sv_name := sv_name s; sv_listener := sv_listener s; sv_cancel := sv_cancel s; sv_done := sv_done s; sv_phase := phase
|}.
Definition set_supervisor (h : nat) (phase : SupervisorPhase) (c : Control) : Control :=
  set_supervisors (alter (set_phase phase) h (rt_supervisors c)) c.
Definition finish_done (d : nat) (c : Control) : Control := set_dones (alter (fun _ => true) d (rt_dones c)) c.

Definition scope_cancelled (c : Control) (s : Supervisor) : bool :=
  is_cancelled c (sv_cancel s) || is_cancelled c SHUTDOWN_TOKEN.

(** One move of a supervisor; [None] when it cannot move that way. *)
Definition sup_next (h : nat) (ev : SupEvent) (c : Control) : option Control :=
  match rt_supervisors c !! h with
  | None => None
  | Some s =>
      match sv_phase s, ev with
      | SLoop, SupNext =>
          match rt_proxies c !! sv_name s with
          | None => Some (set_supervisor h SStopping c)
          | Some entry => Some (set_supervisor h (if scope_cancelled c s then SStopping else SSelect entry) c)
          end
      | SSelect _, SupCancelled => if scope_cancelled c s then Some (set_supervisor h SStopping c) else None
      | SSelect entry, SupAccept None => Some (set_supervisor h SLoop c)
      | SSelect entry, SupAccept (Some id) =>
          let '(token, c) := child_token (mp_cancel entry) c in
          Some (set_supervisor h SLoop (set_cancellations (<[id := token]> (rt_cancellations c)) c))
      | SStopping, SupNext => Some (set_supervisor h SFlagged (finish_done (sv_done s) c))
      | SFlagged, SupNext => Some (set_supervisor h SFinished c)
      | _, _ => None
      end
  end.

(** ** Calls *)

Inductive request :=
| RqImport (proxy : ProxySpec)
| RqCreate (proxy : ProxySpec)
| RqStartAll
| RqDelete (name : string)
| RqSetEnabled (name : string) (enabled : bool)
| RqUpdate (name : string) (patch : ProxyPatch)
| RqAddFault (proxy : string) (u : FaultUpsert)
| RqUpdateFault (proxy id : string) (patch : FaultPatch)
| RqRemoveFault (proxy id : string)
| RqPublishPlans (name : string) (upstream downstream : FaultPlan)
| RqPublishExpected (name : string) (p : ExpectedPublish)
| RqPublishDirection (name : string) (direction : Direction) (plan : FaultPlan) (ns expected : Z)
| RqReset
| RqKill (id : Z)
| RqGet (name : string)
| RqShutdown.

Inductive response :=
| RsGeneration (r : result Z ControlError)
| RsView (r : result (ProxyView * Z) ControlError)
| RsFault (r : result (Direction * FaultSpec * Z) ControlError)
| RsPublished (r : result (Z * Z * Z) ControlError)
| RsDirection (r : result (Z * Z) ControlError)
| RsReset (r : result ResetReport ControlError)
| RsKilled (b : bool)
| RsGot (v : option ProxyView)
| RsStopped.

Definition call (r : request) : proc response :=
  match r with
  | RqImport proxy => do! x := import_definition proxy in Ret (RsGeneration x)
  | RqCreate proxy => do! x := create_proxy proxy in Ret (RsView x)
  | RqStartAll => do! x := start_all in Ret (RsGeneration x)
  | RqDelete name => do! x := delete_proxy name in Ret (RsGeneration x)
  | RqSetEnabled name enabled => do! x := set_enabled name enabled in Ret (RsGeneration x)
  | RqUpdate name patch => do! x := update_proxy name patch in Ret (RsView x)
  | RqAddFault proxy u => do! x := add_fault proxy u in Ret (RsFault x)
  | RqUpdateFault proxy id patch => do! x := update_fault proxy id patch in Ret (RsFault x)
  | RqRemoveFault proxy id => do! x := remove_fault proxy id in Ret (RsGeneration x)
  | RqPublishPlans name up down => do! x := publish_plans name up down in Ret (RsGeneration x)
  | RqPublishExpected name p => do! x := publish_plans_expected name p in Ret (RsPublished x)
  | RqPublishDirection name d plan ns e => do! x := publish_direction_expected name d plan ns e in Ret (RsDirection x)
  | RqReset => do! x := reset in Ret (RsReset x)
  | RqKill id => do! x := kill id in Ret (RsKilled x)
  | RqGet name => do! x := get name in Ret (RsGot x)
  | RqShutdown => do! _u := shutdown_and_join in Ret RsStopped
  end.

(** ** The system *)

Inductive control_event :=
| SupervisorMoves (h : nat) (ev : SupEvent)
| ConnectionCloses (id : Z).   (* a connection task ends *)

Abbreviation Supervise h ev := (Event (SupervisorMoves h ev)).
Abbreviation CloseConnection id := (Event (ConnectionCloses id)).

Definition is_ready (c : Control) (w : Waiting) : bool :=
  match w with OnDone d => is_done c d | OnHandle h => is_finished c h end.
Definition control_happens (e : control_event) (c : Control) : option Control :=
  match e with
  | SupervisorMoves h ev => sup_next h ev c
  | ConnectionCloses id => Some (set_cancellations (delete id (rt_cancellations c)) c)
  end.
#[export] Instance control_tasks : TaskState Control Waiting control_event :=
  {| ready := is_ready; happen := control_happens |}.

Abbreviation ControlSystem := (System Control Waiting response).
Abbreviation sys_control := sys_state.
Definition control_step : relation ControlSystem := sys_step.

Definition initial (c : Control) (rs : list request) : ControlSystem := {| sys_state := c; sys_calls := map call rs |}.
