(* ===== verification/ControlInv.v ===== *)
(** * What no interleaving of the control plane breaks

    The invariant of the proxy map, the supervisors and their tracking, and
    the two things every step promises the others: memory only grows, and a
    policy only gains generations. *)

From Stdlib Require Import Bool SpecFloat.
From stdpp Require Import base list gmap strings sorting relations.
From S2P Require Import Prelude Rng Float64 Plan Policy Schedule Wire Server Tasks Control.

(** ** The invariant *)

Abbreviation cell_wf := (@cell_ok FaultPlan ValidationError plan_validate).

Definition live_supervisor (s : Supervisor) : Prop := sv_phase s <> SFinished.
Definition flagged (s : Supervisor) : Prop := sv_phase s = SFlagged \/ sv_phase s = SFinished.

Record entry_ok (c : Control) (name : string) (e : ManagedProxy) : Prop := {
  eo_name : ps_name (mp_spec e) = name;
  eo_valid : proxy_spec_validate (mp_spec e) = Ok tt;
  eo_up : cell_wf (ps_upstream_policy (mp_spec e));
  eo_down : cell_wf (ps_downstream_policy (mp_spec e));
  eo_stopped : mp_running e = false -> mp_bound_addr e = None;
  eo_running : mp_running e = true -> exists h s, rt_supervisors c !! h = Some s /\ sv_name s = name
    /\ sv_done s = mp_done e /\ sv_cancel s = mp_cancel e /\ mp_bound_addr e = Some (sv_listener s)
}.

Record control_ok (c : Control) : Prop := {
  ok_entries : map_Forall (entry_ok c) (rt_proxies c);
  ok_done_range : forall h s, rt_supervisors c !! h = Some s -> (sv_done s < length (rt_dones c))%nat;
  ok_done_unique : forall h1 h2 s1 s2, rt_supervisors c !! h1 = Some s1 -> rt_supervisors c !! h2 = Some s2 ->
    sv_done s1 = sv_done s2 -> h1 = h2;
  ok_done_flag : forall d, rt_dones c !! d = Some true <-> (exists h s, rt_supervisors c !! h = Some s /\ sv_done s = d /\ flagged s);
  ok_tracked : forall h s, rt_supervisors c !! h = Some s -> live_supervisor s ->
    rt_shutdown_initiated c = false -> h ∈ map snd (rt_root c);
  ok_root_named : forall name h, (name, h) ∈ rt_root c -> exists s, rt_supervisors c !! h = Some s /\ sv_name s = name;
  ok_select : forall h s e, rt_supervisors c !! h = Some s -> sv_phase s = SSelect e -> ps_name (mp_spec e) = sv_name s
}.

(** ** What a step may do *)

Definition same_task (s s' : Supervisor) : Prop :=
  sv_name s' = sv_name s /\ sv_listener s' = sv_listener s /\ sv_cancel s' = sv_cancel s /\ sv_done s' = sv_done s.

(** A cell that stays only gains snapshots. *)
Definition cell_grows (a b : LivePolicy) : Prop := snapshots a `prefix_of` snapshots b.
Definition policies_grow (c c' : Control) : Prop :=
  forall name e e', rt_proxies c !! name = Some e -> rt_proxies c' !! name = Some e' ->
    cell_grows (ps_upstream_policy (mp_spec e)) (ps_upstream_policy (mp_spec e'))
    /\ cell_grows (ps_downstream_policy (mp_spec e)) (ps_downstream_policy (mp_spec e')).

Record grows (c c' : Control) : Prop := {
  gr_seed : rt_seed c' = rt_seed c;
  gr_shutdown : rt_shutdown_initiated c = true -> rt_shutdown_initiated c' = true;
  gr_supervisors : forall h s, rt_supervisors c !! h = Some s ->
    exists s', rt_supervisors c' !! h = Some s' /\ same_task s s'
      /\ (sv_phase s = SFinished -> sv_phase s' = SFinished);
  gr_dones : (length (rt_dones c) <= length (rt_dones c'))%nat;
  gr_unowned : forall d, (d < length (rt_dones c))%nat ->
    (forall h s, rt_supervisors c !! h = Some s -> sv_done s <> d) ->
    (forall h s, rt_supervisors c' !! h = Some s -> sv_done s <> d);
  gr_no_spawn : rt_shutdown_initiated c = true -> length (rt_supervisors c') = length (rt_supervisors c);
  gr_drained : rt_shutdown_initiated c = true -> rt_root c = [] -> rt_root c' = []
}.

(** A task is forgotten only when it is over, and the shutdown flag is left
    alone: what every step but those of [shutdown_and_join] promises. *)
Definition tracking_kept (c c' : Control) : Prop :=
  rt_shutdown_initiated c' = rt_shutdown_initiated c /\
  forall h, h ∈ map snd (rt_root c) -> h ∈ map snd (rt_root c') \/ is_finished c' h = true.

Lemma tracking_same c c' : rt_shutdown_initiated c' = rt_shutdown_initiated c -> rt_root c' = rt_root c -> tracking_kept c c'.
Proof. intros S E. split; [done|]. rewrite E. by left. Qed.

Record guarantee (c c' : Control) : Prop := {
  gu_grows : grows c c';
  gu_policies : policies_grow c c'
}.
Record guarantee_tracked (c c' : Control) : Prop := {
  gt_guarantee : guarantee c c';
  gt_tracking : tracking_kept c c'
}.

#[export] Instance grows_preorder : PreOrder grows.
Proof.
  split.
  - intros c. constructor; try lia; auto. intros h s H. exists s. unfold same_task. intuition.
  - intros a b c [] []. constructor; try congruence; try lia; auto.
    + intros h s H. destruct (gr_supervisors0 h s H) as (s' & H' & (?&?&?&?) & F).
      destruct (gr_supervisors1 h s' H') as (s'' & H'' & (?&?&?&?) & F'). exists s''.
      repeat split; [congruence..|auto].
    + intros d Hd Hu. apply gr_unowned1; [lia|by apply gr_unowned0].
    + intros H. rewrite gr_no_spawn1; auto.
Qed.

Lemma rtc_grows R c c' : (forall a b, R a b -> grows a b) -> rtc R c c' -> grows c c'.
Proof. intros H Hr. induction Hr; [done|]. etrans; eauto. Qed.

#[export] Hint Resolve gu_grows gt_guarantee gu_policies : egg.

(** ** The state the invariant reads

    Tokens, counters, the generation and the cancellation handles of
    connections are outside it. *)
Definition core (c : Control) :=
  (rt_seed c, rt_proxies c, rt_shutdown_initiated c, rt_dones c, rt_supervisors c, rt_root c).

(** A step that is allowed. *)
Definition good (c c' : Control) : Prop := control_ok c' /\ guarantee_tracked c c'.

Ltac by_core H := unfold core in H; injection H as Eseed Eprox Eshut Edone Esup Eroot.

Lemma control_ok_core c c' : core c = core c' -> control_ok c -> control_ok c'.
Proof.
  intros H []. by_core H. constructor.
  - intros name e He. rewrite <- Eprox in He. destruct (ok_entries0 name e He). constructor; try done.
    rewrite <- Esup. done.
  - rewrite <- Esup, <- Edone. done.
  - rewrite <- Esup. done.
  - rewrite <- Esup, <- Edone. done.
  - rewrite <- Esup, <- Eshut, <- Eroot. done.
  - rewrite <- Esup, <- Eroot. done.
  - rewrite <- Esup. done.
Qed.

Lemma grows_core a c c' : core c = core c' -> grows a c -> grows a c'.
Proof.
  intros H []. by_core H. constructor; rewrite <- ?Eseed, <- ?Eshut, <- ?Edone, <- ?Eroot, <- ?Esup; done.
Qed.

Lemma good_core a c c' : core c = core c' -> good a c -> good a c'.
Proof.
  intros H [Hok [[Hg Hp] Ht]]. split; [by eapply control_ok_core|]. split; [split; [by eapply grows_core|]|]; by_core H.
  - unfold policies_grow. rewrite <- Eprox. done.
  - unfold tracking_kept, is_finished. rewrite <- Esup, <- Eroot, <- Eshut. done.
Qed.

Lemma cell_grows_refl a : cell_grows a a.
Proof. unfold cell_grows. reflexivity. Qed.
#[export] Hint Resolve cell_grows_refl : egg.

Lemma policies_grow_refl c : policies_grow c c.
Proof. intros name e e' H H'. rewrite H in H'. injection H' as <-. auto with egg. Qed.

Lemma good_refl c : control_ok c -> good c c.
Proof. intros H. split; [done|]. split; [split; [reflexivity|apply policies_grow_refl]|]. by apply tracking_same. Qed.

Lemma good_frame c c' : control_ok c -> core c = core c' -> good c c'.
Proof. intros H E. by apply (good_core _ c), good_refl. Qed.

(** ** Steps on the map *)

Lemma entry_ok_mono c c' name e : grows c c' -> entry_ok c name e -> entry_ok c' name e.
Proof.
  intros G []. constructor; try done. intros R. destruct (eo_running0 R) as (h & s & H & ? & ? & ? & ?).
  destruct (gr_supervisors _ _ G h s H) as (s' & H' & (?&?&?&?) & _). exists h, s'. repeat split; congruence.
Qed.

Lemma entries_mono c c' (m : gmap string ManagedProxy) : grows c c' -> map_Forall (entry_ok c) m -> map_Forall (entry_ok c') m.
Proof. intros G H name e He. eapply entry_ok_mono; [done|by apply H]. Qed.

Lemma set_proxies_grows m c : grows c (set_proxies m c).
Proof. constructor; auto. intros h s H. exists s. unfold same_task. intuition. Qed.

Lemma set_proxies_good c m :
  control_ok c -> map_Forall (entry_ok c) m ->
  (forall name e e', rt_proxies c !! name = Some e -> m !! name = Some e' ->
     cell_grows (ps_upstream_policy (mp_spec e)) (ps_upstream_policy (mp_spec e'))
     /\ cell_grows (ps_downstream_policy (mp_spec e)) (ps_downstream_policy (mp_spec e'))) ->
  good c (set_proxies m c).
Proof.
  intros Hok Hm Hp. pose proof (set_proxies_grows m c) as G. split; [|split; [split; done|by apply tracking_same]].
  destruct Hok. constructor; [exact (entries_mono _ _ _ G Hm)|done..].
Qed.

Lemma insert_proxy_good c name e :
  control_ok c -> entry_ok c name e ->
  (forall old, rt_proxies c !! name = Some old ->
     cell_grows (ps_upstream_policy (mp_spec old)) (ps_upstream_policy (mp_spec e))
     /\ cell_grows (ps_downstream_policy (mp_spec old)) (ps_downstream_policy (mp_spec e))) ->
  good c (insert_proxy name e c).
Proof.
  intros Hok He Hold. apply set_proxies_good; [done| |].
  - apply map_Forall_insert_2; [done|]. apply Hok.
  - intros n a b Ha Hb. destruct (decide (n = name)) as [->|Hne].
    + rewrite lookup_insert_eq in Hb. injection Hb as <-. by apply Hold.
    + rewrite lookup_insert_ne in Hb by done. rewrite Ha in Hb. injection Hb as <-. auto with egg.
Qed.

Lemma delete_proxy_good c name : control_ok c -> good c (set_proxies (delete name (rt_proxies c)) c).
Proof.
  intros Hok. apply set_proxies_good; [done|by apply map_Forall_delete, Hok|].
  intros n a b Ha [_ Hb]%lookup_delete_Some. rewrite Ha in Hb. injection Hb as <-. auto with egg.
Qed.

(** ** Steps on the supervisors *)

Lemma new_done_good c : control_ok c -> good c (set_dones (rt_dones c ++ [false]) c).
Proof.
  intros []. assert (Hl : forall d, (rt_dones c ++ [false]) !! d = Some true <-> rt_dones c !! d = Some true).
  { intros d. split; [|by apply lookup_app_l_Some]. intros [H|[_ H]]%lookup_app_Some; [done|].
    by apply list_lookup_singleton_Some in H as [_ ?]. }
  assert (G : grows c (set_dones (rt_dones c ++ [false]) c)).
  { constructor; auto; cbn; [|rewrite length_app; lia]. intros h s H. exists s. unfold same_task. intuition. }
  split; [|split; [split; [done|exact (policies_grow_refl c)]|by apply tracking_same]].
  constructor; [exact (entries_mono _ _ _ G ok_entries0)|..|done|done|done].
  - intros h s H. cbn. rewrite length_app. specialize (ok_done_range0 h s H). lia.
  - done.
  - intros d. cbn. by rewrite Hl.
Qed.

Definition spawned (task : Supervisor) (name : string) (c : Control) : Control :=
  set_root (rt_root c ++ [(name, length (rt_supervisors c))])
    (set_supervisors (rt_supervisors c ++ [task]) (set_dones (rt_dones c ++ [false]) c)).

Lemma spawned_good c task : control_ok c -> rt_shutdown_initiated c = false ->
  sv_done task = length (rt_dones c) -> sv_phase task = SLoop -> good c (spawned task (sv_name task) c).
Proof.
  intros [] Hs Hd Hp.
  assert (Hl : forall h s, (rt_supervisors c ++ [task]) !! h = Some s <->
    rt_supervisors c !! h = Some s \/ h = length (rt_supervisors c) /\ s = task).
  { intros h s. rewrite lookup_app_Some, list_lookup_singleton_Some. split.
    - intros [H|(? & ? & ->)]; [by left|right]. split; [lia|done].
    - intros [H|[-> ->]]; [by left|right]. split; [lia|]. split; [lia|done]. }
  assert (G : grows c (spawned task (sv_name task) c)).
  { constructor; cbn; try done; try congruence.
    - intros h s H. exists s. rewrite Hl. unfold same_task. intuition.
    - rewrite length_app. lia.
    - intros d Hlt Hu h s [H|[-> ->]]%Hl; [by eapply Hu|]. lia. }
  split; [|split; [split; [done|exact (policies_grow_refl c)]|]].
  - constructor; [exact (entries_mono _ _ _ G ok_entries0)|..]; cbn.
    + intros h s [H|[-> ->]]%Hl; rewrite length_app; cbn; [|lia]. specialize (ok_done_range0 h s H). lia.
    + intros h1 h2 s1 s2 [H1|[-> ->]]%Hl [H2|[-> ->]]%Hl E; [by eapply ok_done_unique0|..|done].
      * specialize (ok_done_range0 _ _ H1). lia.
      * specialize (ok_done_range0 _ _ H2). lia.
    + intros d. split.
      * intros [H|[_ H]]%lookup_app_Some; [|by apply list_lookup_singleton_Some in H as [_ ?]].
        apply ok_done_flag0 in H as (h & s & ? & ?). exists h, s. rewrite Hl. auto.
      * intros (h & s & [H|[-> ->]]%Hl & ? & F); [|destruct F; congruence].
        apply lookup_app_l_Some, ok_done_flag0. eauto.
    + intros h s [H|[-> ->]]%Hl L S; rewrite map_app, elem_of_app; [left; by eapply ok_tracked0|right; left].
    + intros name h [H|H]%elem_of_app.
      * destruct (ok_root_named0 _ _ H) as (s & ? & ?). exists s. rewrite Hl. auto.
      * apply list_elem_of_singleton in H as [= -> ->]. exists task. rewrite Hl. auto.
    + intros h s e [H|[-> ->]]%Hl E; [by eapply ok_select0|congruence].
  - split; [done|]. intros h H. left. cbn. rewrite map_app, elem_of_app. by left.
Qed.

(** ** Tracking *)

Lemma position_Some {A} (f : A -> bool) l i : position f l = Some i -> exists x, l !! i = Some x /\ f x = true.
Proof.
  revert i. induction l as [|y l IH]; cbn; intros i H; [done|].
  destruct (f y) eqn:E; [injection H as <-; by exists y|].
  destruct (position f l) as [j|]; [|done]. injection H as <-. cbn. by apply IH.
Qed.

Lemma swap_remove_perm {A} (l : list A) i x : l !! i = Some x -> x :: swap_remove i l ≡ₚ l.
Proof.
  intros H. unfold swap_remove. destruct (last l) as [y|] eqn:El; [|by apply last_None in El as ->].
  apply last_Some in El as [k ->]. rewrite length_app, Nat.add_sub.
  destruct (decide (i = length k)) as [->|Hne].
  - rewrite list_lookup_middle in H by done. injection H as <-. rewrite take_insert_ge by lia.
    rewrite take_app_length. by rewrite (Permutation_app_comm k).
  - assert (i < length k)%nat by (apply lookup_lt_Some in H; rewrite length_app in H; cbn in H; lia).
    rewrite lookup_app_l in H by done. rewrite insert_app_l by done.
    rewrite take_app_le by (rewrite length_insert; lia). rewrite take_ge by (rewrite length_insert; lia).
    rewrite insert_take_drop by done. rewrite (Permutation_app_comm k [y]). cbn.
    rewrite <- Permutation_middle. rewrite <- (take_drop_middle k i x H) at 3.
    rewrite <- Permutation_middle. apply Permutation_swap.
Qed.

Lemma untrack_spec name c :
  core (untrack name c) = core c
  \/ exists h rest, untrack name c = set_root rest c /\ is_finished c h = true
       /\ (name, h) :: rest ≡ₚ rt_root c.
Proof.
  unfold untrack. destruct (position _ _) as [i|] eqn:E; [right|by left].
  apply position_Some in E as ([n h] & H & F). apply andb_true_iff in F as [N F].
  apply bool_decide_eq_true in N as ->. exists h, (swap_remove i (rt_root c)). split; [done|]. split; [done|].
  by apply swap_remove_perm.
Qed.

Lemma set_root_good c rest : control_ok c -> rest ⊆ rt_root c ->
  (forall h, h ∈ map snd (rt_root c) -> h ∈ map snd rest \/ is_finished c h = true) ->
  good c (set_root rest c).
Proof.
  intros Hok Hs Ht. assert (G : grows c (set_root rest c)).
  { constructor; auto; cbn.
    - intros h s H. exists s. unfold same_task. intuition.
    - intros _ E. rewrite E in Hs. destruct rest as [|x rest]; [done|].
      by specialize (Hs x (list_elem_of_here _ _)) as ?%elem_of_nil. }
  split; [|split; [split; [done|exact (policies_grow_refl c)]|by split]].
  destruct Hok. constructor; [exact (entries_mono _ _ _ G ok_entries0)|done..| | |done]; cbn.
  - intros h s H L S. destruct (Ht h) as [?|F]; [by eapply ok_tracked0|done|].
    unfold is_finished in F. rewrite H in F. unfold live_supervisor in L. by destruct (sv_phase s).
  - intros name h H. apply ok_root_named0. by apply Hs.
Qed.

Lemma untrack_good c name : control_ok c -> good c (untrack name c).
Proof.
  intros Hok. destruct (untrack_spec name c) as [E|(h & rest & -> & F & P)]; [by apply good_frame|].
  apply set_root_good; [done| |].
  - intros x Hx. rewrite <- P. by right.
  - intros h' H. rewrite <- P in H. cbn in H. apply elem_of_cons in H as [->|H]; [by right|by left].
Qed.

(** [shutdown_and_join] takes every handle at once: the one step that may
    forget tasks that still run. *)
Lemma take_root_ok c : control_ok c -> rt_shutdown_initiated c = true ->
  control_ok (set_root [] c) /\ guarantee c (set_root [] c).
Proof.
  intros Hok Hs. assert (G : grows c (set_root [] c)).
  { constructor; auto; cbn. intros h s H. exists s. unfold same_task. intuition. }
  split; [|split; [done|exact (policies_grow_refl c)]].
  destruct Hok. constructor; [exact (entries_mono _ _ _ G ok_entries0)|done..| | |done]; cbn.
  - intros h s H L S. congruence.
  - intros name h H. by apply elem_of_nil in H.
Qed.

Lemma set_shutdown_ok c : control_ok c -> control_ok (set_shutdown true c) /\ guarantee c (set_shutdown true c).
Proof.
  intros Hok. assert (G : grows c (set_shutdown true c)).
  { constructor; auto; cbn. intros h s H. exists s. unfold same_task. intuition. }
  split; [|split; [done|exact (policies_grow_refl c)]].
  destruct Hok. constructor; [exact (entries_mono _ _ _ G ok_entries0)|done..| |done|done].
  intros h s H L S. discriminate S.
Qed.

(** ** Moves of supervisors *)

Lemma phase_grows c h s phase (d : list bool) :
  rt_supervisors c !! h = Some s -> sv_phase s <> SFinished ->
  length (rt_dones c) = length d ->
  grows c (set_supervisor h phase (set_dones d c)).
Proof.
  intros H P L. constructor; cbn; try done; try lia.
  - intros h' s' H'. destruct (decide (h' = h)) as [->|Hne].
    + rewrite H in H'. injection H' as <-. rewrite list_lookup_alter_eq, H. exists (set_phase phase s).
      split; [done|]. split; [done|]. intros F. by destruct P.
    + rewrite list_lookup_alter_ne by done. exists s'. unfold same_task. intuition.
  - intros d' Hd Hu h' s' H'. destruct (decide (h' = h)) as [->|Hne].
    + rewrite list_lookup_alter_eq, H in H'. injection H' as <-. exact (Hu h s H).
    + rewrite list_lookup_alter_ne in H' by done. by eapply Hu.
  - intros _. by rewrite length_alter.
Qed.

(** Before its flag is set a supervisor moves between unflagged phases. *)
Lemma phase_good c h s phase :
  control_ok c -> rt_supervisors c !! h = Some s -> sv_phase s <> SFinished ->
  (flagged s <-> phase = SFlagged \/ phase = SFinished) ->
  (forall e, phase = SSelect e -> ps_name (mp_spec e) = sv_name s) -> good c (set_supervisor h phase c).
Proof.
  intros Hok H P F N. pose proof (phase_grows c h s phase (rt_dones c) H P eq_refl) as G.
  assert (E : set_supervisor h phase (set_dones (rt_dones c) c) = set_supervisor h phase c) by (by destruct c).
  rewrite E in G. clear E.
  assert (L : forall h' s', rt_supervisors (set_supervisor h phase c) !! h' = Some s' ->
    exists s0, rt_supervisors c !! h' = Some s0 /\ same_task s0 s' /\ (flagged s0 <-> flagged s')
      /\ (live_supervisor s' -> live_supervisor s0)).
  { intros h' s' H'. cbn in H'. destruct (decide (h' = h)) as [->|Hne].
    - rewrite list_lookup_alter_eq, H in H'. injection H' as <-. exists s. by unfold flagged, live_supervisor.
    - rewrite list_lookup_alter_ne in H' by done. exists s'. by unfold same_task. }
  split; [|split; [split; [done|exact (policies_grow_refl c)]|by apply tracking_same]].
  destruct Hok. constructor; [exact (entries_mono _ _ _ G ok_entries0)|..].
  - intros h' s' H'. destruct (L _ _ H') as (s0 & H0 & (_&_&_&E) & _). rewrite E. by eapply ok_done_range0.
  - intros h1 h2 s1 s2 H1 H2 E. destruct (L _ _ H1) as (a & Ha & (_&_&_&Ea) & _).
    destruct (L _ _ H2) as (b & Hb & (_&_&_&Eb) & _). eapply ok_done_unique0; [done..|congruence].
  - intros d. cbn [rt_dones set_supervisor set_supervisors]. rewrite ok_done_flag0. split.
    + intros (h' & s' & H' & D & F'). destruct (gr_supervisors _ _ G _ _ H') as (s'' & H'' & (_&_&_&E) & _).
      destruct (L _ _ H'') as (s0 & H0 & _ & F0 & _). exists h', s''. rewrite H' in H0. injection H0 as <-.
      split; [done|]. split; [congruence|tauto].
    + intros (h' & s' & H' & D & F'). destruct (L _ _ H') as (s0 & H0 & (_&_&_&E) & F0 & _).
      exists h', s0. split; [done|]. split; [congruence|tauto].
  - intros h' s' H' Lv S. destruct (L _ _ H') as (s0 & H0 & _ & _ & Lv0). by eapply ok_tracked0; auto.
  - intros name h' H'. destruct (ok_root_named0 _ _ H') as (s0 & H0 & N0).
    destruct (gr_supervisors _ _ G _ _ H0) as (s'' & H'' & (E&_) & _). exists s''. by rewrite E.
  - intros h' s' e H' Ph. cbn in H'. destruct (decide (h' = h)) as [->|Hne].
    + rewrite list_lookup_alter_eq, H in H'. injection H' as <-. by apply N.
    + rewrite list_lookup_alter_ne in H' by done. by eapply ok_select0.
Qed.

(** The step that sets the flag. *)
Lemma flag_good c h s : control_ok c -> rt_supervisors c !! h = Some s -> sv_phase s = SStopping ->
  good c (set_supervisor h SFlagged (finish_done (sv_done s) c)).
Proof.
  intros Hok H P.
  assert (G : grows c (set_supervisor h SFlagged (finish_done (sv_done s) c))).
  { apply (phase_grows c h s SFlagged); [done|by rewrite P|by rewrite length_alter]. }
  set (c' := set_supervisor h SFlagged (finish_done (sv_done s) c)) in *.
  assert (L : forall h' s', rt_supervisors c' !! h' = Some s' ->
    exists s0, rt_supervisors c !! h' = Some s0 /\ same_task s0 s' /\ (h' <> h -> s' = s0)).
  { intros h' s' H'. cbn in H'. destruct (decide (h' = h)) as [->|Hne].
    - rewrite list_lookup_alter_eq, H in H'. injection H' as <-. by exists s.
    - rewrite list_lookup_alter_ne in H' by done. exists s'. by unfold same_task. }
  assert (Hh : rt_supervisors c' !! h = Some (set_phase SFlagged s)).
  { cbn. by rewrite list_lookup_alter_eq, H. }
  split; [|split; [split; [done|exact (policies_grow_refl c)]|by apply tracking_same]].
  destruct Hok. pose proof (ok_done_range0 _ _ H) as Hr. constructor; [exact (entries_mono _ _ _ G ok_entries0)|..].
  - intros h' s' H'. destruct (L _ _ H') as (s0 & H0 & (_&_&_&E) & _). rewrite E.
    cbn. rewrite length_alter. by eapply ok_done_range0.
  - intros h1 h2 s1 s2 H1 H2 E. destruct (L _ _ H1) as (a & Ha & (_&_&_&Ea) & _).
    destruct (L _ _ H2) as (b & Hb & (_&_&_&Eb) & _). eapply ok_done_unique0; [done..|congruence].
  - intros d. cbn [rt_dones c' set_supervisor set_supervisors finish_done set_dones].
    destruct (decide (d = sv_done s)) as [->|Hne].
    + rewrite list_lookup_alter_eq. split; [intros _|].
      * exists h, (set_phase SFlagged s). split; [done|]. split; [done|by left].
      * intros _. destruct (lookup_lt_is_Some_2 _ _ Hr) as [b ->]. done.
    + rewrite list_lookup_alter_ne by done. rewrite ok_done_flag0. split.
      * intros (h' & s' & H' & D & F). assert (h' <> h) by (intros ->; congruence). exists h', s'.
        split; [|done]. cbn. by rewrite list_lookup_alter_ne.
      * intros (h' & s' & H' & D & F). destruct (L _ _ H') as (s0 & H0 & (_&_&_&E) & K).
        assert (h' <> h) by (intros ->; rewrite H in H0; injection H0 as <-; congruence).
        rewrite K in * by done. by exists h', s0.
  - intros h' s' H' Lv S. destruct (L _ _ H') as (s0 & H0 & _ & K).
    destruct (decide (h' = h)) as [->|Hne]; [|rewrite K in * by done; by eapply ok_tracked0].
    eapply ok_tracked0; [done| |done]. rewrite H in H0. injection H0 as <-. unfold live_supervisor. by rewrite P.
  - intros name h' H'. destruct (ok_root_named0 _ _ H') as (s0 & H0 & N).
    destruct (gr_supervisors _ _ G _ _ H0) as (s'' & H'' & (E&_) & _). exists s''. by rewrite E.
  - intros h' s' e H' Ph. destruct (decide (h' = h)) as [->|Hne].
    + rewrite Hh in H'. injection H' as <-. discriminate Ph.
    + destruct (L _ _ H') as (s0 & H0 & _ & K). rewrite K in * by done. by eapply ok_select0.
Qed.

Lemma sup_next_good h ev c c' : control_ok c -> sup_next h ev c = Some c' -> good c c'.
Proof.
  intros Hok H. unfold sup_next in H. destruct (rt_supervisors c !! h) as [s|] eqn:E; [|discriminate].
  destruct (sv_phase s) as [|entry| | |] eqn:P, ev as [| |[id|]]; try discriminate H.
  - destruct (rt_proxies c !! sv_name s) as [entry|] eqn:Ex; injection H as <-; eapply phase_good; try done; try congruence.
    + unfold flagged. rewrite P. destruct (scope_cancelled c s); intuition congruence.
    + intros e. destruct (scope_cancelled c s); [done|]. intros [= <-]. by apply (ok_entries c Hok) in Ex as [].
    + unfold flagged. rewrite P. intuition congruence.
  - destruct (scope_cancelled c s); [|discriminate]. injection H as <-. eapply phase_good; try done; try congruence.
    unfold flagged. rewrite P. intuition congruence.
  - cbn in H. injection H as <-. apply (good_core _ (set_supervisor h SLoop c)); [done|].
    eapply phase_good; try done; try congruence. unfold flagged. rewrite P. intuition congruence.
  - injection H as <-. eapply phase_good; try done; try congruence. unfold flagged. rewrite P. intuition congruence.
  - injection H as <-. by apply flag_good.
  - injection H as <-. eapply phase_good; try done; try congruence. unfold flagged. rewrite P. intuition congruence.
Qed.
