(* ===== verification/ControlSafe.v ===== *)
(** * Every call keeps the invariant of the control plane

    Each operation of [Control.v] is safe in the logic of [Tasks.v]:
    whatever the other calls and the supervisors do between its steps, its own
    steps keep the invariant and their promises, and it does not panic. *)

From Stdlib Require Import Bool SpecFloat.
From stdpp Require Import base list gmap strings sorting relations.
From S2P Require Import Prelude Rng Float64 Plan Policy Schedule ScheduleProps Wire WireProps Server Tasks Control ControlInv.

(** ** Definitions and policies *)

Lemma validate_ignores_enabled b p : proxy_spec_validate (set_ps_enabled b p) = proxy_spec_validate p.
Proof. reflexivity. Qed.
Lemma validate_ignores_policies up down p : proxy_spec_validate (set_ps_policies up down p) = proxy_spec_validate p.
Proof. reflexivity. Qed.

Lemma validate_plans p : proxy_spec_validate p = Ok tt ->
  plan_validate (ps_upstream_faults p) = Ok tt /\ plan_validate (ps_downstream_faults p) = Ok tt.
Proof.
  unfold proxy_spec_validate. do 2 (case_split; [done|]).
  destruct (plan_validate (ps_upstream_faults p)) as [[]|]; [|done].
  destruct (plan_validate (ps_downstream_faults p)) as [[]|]; done.
Qed.

Lemma validate_set_faults up down p : proxy_spec_validate p = Ok tt ->
  plan_validate up = Ok tt -> plan_validate down = Ok tt -> proxy_spec_validate (set_ps_faults up down p) = Ok tt.
Proof.
  intros V U D. destruct (validate_plans p V) as [U' D']. unfold proxy_spec_validate in *.
  cbn [ps_name ps_listen ps_upstream ps_upstream_faults ps_downstream_faults ps_max_connections ps_connect_timeout set_ps_faults].
  rewrite U, D. rewrite U', D' in V. done.
Qed.

Lemma init_policies_ok seed p : proxy_spec_validate p = Ok tt ->
  exists up down, init_policies seed p = Some (set_ps_policies up down p) /\ cell_wf up /\ cell_wf down.
Proof.
  intros [U D]%validate_plans. unfold init_policies, Stream.new.
  destruct (live_new plan_validate (ps_upstream_faults p) _) as [up|] eqn:Eu; [|unfold live_new in Eu; by rewrite U in Eu].
  destruct (live_new plan_validate (ps_downstream_faults p) _) as [down|] eqn:Ed; [|unfold live_new in Ed; by rewrite D in Ed].
  exists up, down. split; [done|]. split; by eapply cell_ok_new.
Qed.

Lemma load_snapshot cell : cell_wf cell -> snapshot cell = Some (load cell).
Proof. intros (s & H & _)%cell_ok_current. unfold load. by rewrite H. Qed.

(** A publication that succeeds stores one valid plan after the others. *)
Lemma publish_call_ok cell rq published cell' : cell_wf cell ->
  publish_call plan_validate GenerationOverflow cell rq = (Ok published, cell') ->
  cell_wf cell' /\ cell_grows cell cell' /\ plan_validate (pub_plan published) = Ok tt
  /\ load cell' = published /\ pub_plan published = rq_plan rq /\ seed_namespace published = rq_ns rq
  /\ generation published = generation (load cell) + 1.
Proof.
  intros C. unfold publish_call. destruct (plan_validate (rq_plan rq)) as [[]|] eqn:V; [|done].
  rewrite (load_snapshot _ C). destruct (loop_checks _ _ _) eqn:L; [done|].
  unfold compare_and_swap. rewrite Nat.eqb_refl. cbn [snd]. intros [= <- <-].
  destruct (swap_ok plan_validate GenerationOverflow cell rq (load cell) C (load_snapshot _ C) V L) as [Hok G].
  split; [done|]. split; [by eexists|]. split; [done|]. split; [|by split_and!].
  unfold load at 1, snapshot. cbn [snapshots current]. by rewrite lookup_app_r, Nat.sub_diag by lia.
Qed.

Lemma publish_call_error cell rq e cell' :
  publish_call plan_validate GenerationOverflow cell rq = (Err e, cell') -> cell' = cell.
Proof.
  unfold publish_call. destruct (plan_validate _); [|by intros [= _ <-]].
  destruct (snapshot cell); [|by intros [= _ <-]]. by destruct (loop_checks _ _ _); intros [= ].
Qed.

(** ** Entries *)

Lemma entry_ok_spec c name e spec :
  entry_ok c name e -> ps_name spec = name -> proxy_spec_validate spec = Ok tt ->
  cell_wf (ps_upstream_policy spec) -> cell_wf (ps_downstream_policy spec) -> entry_ok c name (set_spec e spec).
Proof. intros [] ? ? ? ?. constructor; done. Qed.

Lemma set_direction_ok c name e direction cell plan :
  entry_ok c name e -> cell_wf cell -> plan_validate plan = Ok tt ->
  entry_ok c name (set_spec e (set_direction direction cell plan (mp_spec e))).
Proof.
  intros H C P. pose proof H as [N V U D _ _]. destruct (validate_plans _ V) as [Pu Pd].
  apply entry_ok_spec; [done|by destruct direction|..]; destruct direction; cbn; try done;
    apply validate_set_faults; rewrite ?validate_ignores_policies; done.
Qed.

Lemma policy_of_ok c name e direction : entry_ok c name e -> cell_wf (policy_of direction (mp_spec e)).
Proof. intros []. by destruct direction. Qed.

(** What an entry gains when one of its directions grows. *)
Definition entry_grows (e e' : ManagedProxy) : Prop :=
  cell_grows (ps_upstream_policy (mp_spec e)) (ps_upstream_policy (mp_spec e'))
  /\ cell_grows (ps_downstream_policy (mp_spec e)) (ps_downstream_policy (mp_spec e')).

Lemma entry_grows_refl e : entry_grows e e.
Proof. split; apply cell_grows_refl. Qed.

Lemma set_direction_grows e direction cell plan : cell_grows (policy_of direction (mp_spec e)) cell ->
  entry_grows e (set_spec e (set_direction direction cell plan (mp_spec e))).
Proof. intros H. split; destruct direction; cbn in *; auto using cell_grows_refl. Qed.

Lemma replace_good c name e e' : control_ok c -> rt_proxies c !! name = Some e -> entry_ok c name e' ->
  entry_grows e e' -> good c (insert_proxy name e' c).
Proof. intros Hok H He G. apply insert_proxy_good; [done|done|]. intros old E. rewrite H in E. by injection E as <-. Qed.

Lemma publish_direction_ok c name e direction plan e' : entry_ok c name e ->
  publish_direction direction plan e = Ok e' -> entry_ok c name e' /\ entry_grows e e'.
Proof.
  intros H P. unfold publish_direction in P.
  destruct (Stream.publish_plan _ _ _) as [[published|] cell] eqn:E; [|done]. injection P as <-.
  apply publish_call_ok in E as (C & G & V & _); [|by eapply policy_of_ok].
  split; [by apply set_direction_ok|by apply set_direction_grows].
Qed.

Lemma publish_faults_good c name e direction fs g c' : control_ok c -> rt_proxies c !! name = Some e ->
  publish_faults name direction fs e c = Ok (g, c') -> good c c'.
Proof.
  intros Hok H P. unfold publish_faults in P. destruct (plan_new fs) as [plan|]; [|done]. cbn [map_err] in P.
  destruct (publish_direction direction plan e) as [e'|] eqn:E; [|done]. cbn [map_err] in P. injection P as <- <-.
  destruct (publish_direction_ok c name e direction plan e') as [He G]; [by apply Hok|done|].
  apply (good_core _ (insert_proxy name e' c)); [done|]. by eapply replace_good.
Qed.

(** ** Rules *)

(** Calls may await anything: some awaits never end ([ControlDemo]). *)
Abbreviation anywhere := (fun (_ : Control) (_ : Waiting) => True).

Section Operations.
Context (R : relation Control) (R_grows : forall c c', R c c' -> grows c c').
Abbreviation safely := (safe control_ok anywhere R guarantee_tracked).
Abbreviation anything := (fun _ _ => True).

Lemma rely_grows c c' : rtc R c c' -> grows c c'.
Proof. by apply rtc_grows. Qed.

Lemma safe_ret {A} (a : A) c : safely (Ret a) c anything.
Proof. done. Qed.

Lemma safe_atomic {A} (f : Control -> Control * proc A) c Q :
  (forall c', grows c c' -> control_ok c' -> good c' (f c').1 /\ safely (f c').2 (f c').1 Q) ->
  safely (atomic f) c Q.
Proof. intros H c' Hr I. destruct (H c' (rely_grows _ _ Hr) I) as [[I' G] S]. done. Qed.

Lemma safe_pure {A} (f : Control -> proc A) c Q :
  (forall c', grows c c' -> control_ok c' -> safely (f c') c' Q) -> safely (atomic (fun c => (c, f c))) c Q.
Proof. intros H. apply safe_atomic. intros c' G I. split; [by apply good_refl|by apply H]. Qed.

Lemma safe_observe {A B} (f : Control -> A) (k : A -> proc B) c Q :
  (forall c', grows c c' -> control_ok c' -> safely (k (f c')) c' Q) -> safely (do! x := observe f in k x) c Q.
Proof. intros H. apply (safe_pure (fun c => k (f c))). exact H. Qed.

Lemma safe_bump {A} (k : Z -> proc A) c Q :
  (forall g c', grows c c' -> control_ok c' -> safely (k g) c' Q) -> safely (do! g := bump in k g) c Q.
Proof.
  intros H. apply (safe_atomic (fun c => let '(g, c) := next_generation c in (c, k g))). intros c' G I.
  assert (good c' (set_generation (wadd (rt_generation c') 1) c')) as W by (by apply good_frame).
  split; [exact W|]. cbn. apply H; [|apply W]. etrans; [done|apply W].
Qed.

Lemma safe_scope {A} (k : nat -> proc A) c Q :
  (forall t c', grows c c' -> control_ok c' -> safely (k t) c' Q) -> safely (do! t := fresh_scope in k t) c Q.
Proof.
  intros H. apply (safe_atomic (fun c => let '(t, c) := child_token SHUTDOWN_TOKEN c in (c, k t))). intros c' G I.
  assert (W : good c' (child_token SHUTDOWN_TOKEN c').2) by (by apply good_frame).
  split; [exact W|]. apply H; [|apply W]. etrans; [done|apply W].
Qed.

Lemma safe_bind' {A B} (p : proc A) (k : A -> proc B) c Q Q' : control_ok c ->
  safely p c Q -> (forall a c', control_ok c' -> Q a c' -> safely (k a) c' Q') -> safely (do! x := p in k x) c Q'.
Proof. intros I S K. by eapply safe_bind. Qed.

Lemma safe_locked {A} (f : Control -> result (A * Control) ControlError) c :
  (forall c' a c'', grows c c' -> control_ok c' -> f c' = Ok (a, c'') -> good c' c'') -> safely (locked f) c anything.
Proof.
  intros H. apply safe_atomic. intros c' G I. specialize (H c').
  destruct (f c') as [[a c'']|e] eqn:E; cbn; (split; [|by intros]).
  - by eapply H.
  - by apply good_refl.
Qed.

Lemma safe_stop {A} name cancel done (k : proc A) c Q :
  (forall c', grows c c' -> control_ok c' -> safely k c' Q) -> safely (stop_supervisor name cancel done k) c Q.
Proof.
  intros H. apply safe_atomic. intros c1 G1 I1.
  assert (W1 : good c1 (cancel_token cancel c1)) by (by apply good_frame).
  split; [done|]. intros c2 R2 I2. split; [done|]. intros _. apply safe_atomic. intros c3 G3 I3.
  pose proof (untrack_good c3 name I3) as W3. split; [done|]. apply H; [|apply W3].
  etrans; [exact G1|]. etrans; [apply W1|]. etrans; [by apply rely_grows|]. etrans; [exact G3|]. apply W3.
Qed.

(** What [spawn_supervisor] returns stays true. *)
Definition spawned_ok (listener : SocketAddr) (name : string) (cancel : nat) (r : result nat ControlError) (c : Control) : Prop :=
  match r with
  | Err _ => True
  | Ok done => exists h s, rt_supervisors c !! h = Some s /\ sv_name s = name /\ sv_done s = done
      /\ sv_cancel s = cancel /\ sv_listener s = listener
  end.

Lemma spawned_ok_mono listener name cancel r c c' : grows c c' ->
  spawned_ok listener name cancel r c -> spawned_ok listener name cancel r c'.
Proof.
  intros G. destruct r as [d|]; [|done]. intros (h & s & H & ? & ? & ? & ?).
  destruct (gr_supervisors _ _ G _ _ H) as (s' & H' & (?&?&?&?) & _). exists h, s'. split_and!; congruence.
Qed.

Lemma safe_spawn listener name cancel c :
  safely (spawn_supervisor listener name cancel) c (spawned_ok listener name cancel).
Proof.
  apply safe_atomic. intros c' G I. destruct (rt_shutdown_initiated c') eqn:S; cbn.
  - split; [by apply good_frame|done].
  - set (task := {| sv_name := name; sv_listener := listener; sv_cancel := cancel;
                    sv_done := length (rt_dones c'); sv_phase := SLoop |}).
    split; [by apply (spawned_good c' task)|]. intros c'' Hr _.
    change (spawned_ok listener name cancel (Ok (length (rt_dones c'))) c'').
    eapply spawned_ok_mono; [exact (rely_grows _ _ Hr)|]. exists (length (rt_supervisors c')), task.
    split; [|done]. cbn. by rewrite lookup_app_r, Nat.sub_diag by lia.
Qed.

Lemma spawned_entry c name listener cancel done spec counters :
  spawned_ok listener name cancel (Ok done) c -> ps_name spec = name -> proxy_spec_validate spec = Ok tt ->
  cell_wf (ps_upstream_policy spec) -> cell_wf (ps_downstream_policy spec) ->
  entry_ok c name {| mp_spec := spec; mp_running := true; mp_bound_addr := Some listener; mp_cancel := cancel;
                     mp_done := done; mp_counters := counters |}.
Proof.
  intros (h & s & H & ? & ? & ? & <-) ? ? ? ?. constructor; cbn; try done.
  intros _. exists h, s. done.
Qed.

(** ** Definitions *)

Lemma grows_step a b c : grows a b -> good b c -> grows a c.
Proof. intros G W. etrans; [done|]. apply W. Qed.

Lemma contains_false name c : contains name c = false -> rt_proxies c !! name = None.
Proof. unfold contains. by destruct (rt_proxies c !! name). Qed.

Lemma insert_new_good c name e : control_ok c -> contains name c = false -> entry_ok c name e ->
  good c (insert_proxy name e c).
Proof. intros I H%contains_false E. apply insert_proxy_good; [done|done|]. intros old. by rewrite H. Qed.

Lemma import_safe proxy c : safely (import_definition proxy) c anything.
Proof.
  unfold import_definition. destruct (proxy_spec_validate proxy) as [[]|e] eqn:V; [|done].
  apply safe_atomic. intros c' _ I. destruct (init_policies_ok (rt_seed c') proxy V) as (up & down & -> & U & D).
  cbv zeta. destruct (contains _ c') eqn:E; cbn; [by split; [apply good_refl|]|].
  split; [|done]. pose proof (new_done_good c' I) as W.
  set (c1 := set_dones (rt_dones c' ++ [false]) c') in *.
  match goal with |- good _ (set_generation _ (insert_proxy ?n ?e ?c0)) =>
    set (entry := e); assert (Ec : core (insert_proxy n entry c1) = core (insert_proxy n entry c0)) by reflexivity end.
  assert (He : entry_ok c1 (ps_name proxy) entry) by (constructor; done).
  eapply good_core; [exact Ec|]. destruct W as [Hok1 [[G1 _] _]].
  destruct (insert_new_good c1 (ps_name proxy) entry Hok1 E He) as [Hok2 [[G2 P2] T2]].
  split; [done|]. split; [split; [by etrans|exact P2]|exact T2].
Qed.

Lemma create_publish_safe name e c : (forall c', grows c c' -> entry_ok c' name e) ->
  safely (create_publish name e) c anything.
Proof.
  intros H. apply safe_atomic. intros c' G I.
  destruct (contains name c') eqn:E; cbn [fst snd]; [split; [by apply good_refl|by apply safe_stop; intros]|].
  destruct (MAX_PROXIES <=? proxy_count c'); cbn [fst snd]; [split; [by apply good_refl|by apply safe_stop; intros]|].
  split; [apply insert_new_good; auto|]. by apply safe_bump.
Qed.

Lemma create_bound_safe proxy bound c : control_ok c -> proxy_spec_validate proxy = Ok tt ->
  safely (create_bound proxy bound) c anything.
Proof.
  intros _ V. apply safe_atomic. intros c' G I.
  destruct (init_policies_ok (rt_seed c') proxy V) as (up & down & -> & U & D). cbn [fst snd child_token new_counters].
  assert (W : good c' (set_counters (S (rt_counters c')) (set_tokens (rt_tokens c' ++ [{| tn_parent := Some SHUTDOWN_TOKEN; tn_cancelled := false |}]) c')))
    by (by apply good_frame).
  split; [exact W|]. eapply safe_bind'; [apply W|apply safe_spawn|].
  intros [done|e] c'' I' Q; [|by intros]. apply create_publish_safe. intros c3 G3.
  eapply spawned_entry; [by eapply spawned_ok_mono|done..].
Qed.

Lemma create_safe proxy c : safely (create_proxy proxy) c anything.
Proof.
  apply safe_observe. intros c1 _ _. destruct (rt_shutdown_initiated c1); [done|].
  destruct (proxy_spec_validate proxy) as [[]|e] eqn:V; [|done].
  apply safe_observe. intros c2 _ I2. destruct (contains _ c2); [done|]. destruct (MAX_PROXIES <=? proxy_count c2); [done|].
  intros [addr|src|src]; cbn [proc_bind]; [|done..]. by apply create_bound_safe.
Qed.

Lemma start_publish_safe name bound cancel done c :
  spawned_ok bound name cancel (Ok done) c -> safely (start_publish name bound cancel done) c anything.
Proof.
  intros H. apply safe_atomic. intros c' G I. destruct (rt_proxies c' !! name) as [entry|] eqn:E; cbn [fst snd].
  - split; [|by intros]. pose proof (ok_entries _ I name entry E) as [N V U D _ _].
    eapply replace_good; [done..| |by split; apply cell_grows_refl].
    eapply spawned_entry; [by eapply spawned_ok_mono|done..].
  - split; [by apply good_refl|by apply safe_stop; intros].
Qed.

Lemma start_stored_safe name spec c : safely (start_stored name spec) c anything.
Proof.
  apply safe_observe. intros c1 _ _. destruct (rt_shutdown_initiated c1); [done|].
  intros [addr|src|src]; cbn [proc_bind]; [|done..].
  apply safe_observe. intros c2 _ I2. destruct (rt_shutdown_initiated c2); [done|].
  apply safe_scope. intros cancel c3 _ I3. eapply safe_bind'; [done|apply safe_spawn|].
  intros [done|e] c'' I' Q; [|by intros]. by apply start_publish_safe.
Qed.

Lemma start_names_safe names first c : control_ok c -> safely (start_names names first) c anything.
Proof.
  revert first c. induction names as [|name names IH]; intros first c I; cbn [start_names].
  - destruct first; [done|]. by apply safe_observe.
  - apply safe_observe. intros c1 _ I1. destruct (option_map mp_spec _) as [spec|]; [|by apply IH].
    eapply safe_bind'; [done|apply start_stored_safe|]. intros [a|e] c2 I2 _; by apply IH.
Qed.

Lemma start_all_safe c : safely start_all c anything.
Proof. apply safe_observe. intros c1 _ I1. by apply start_names_safe. Qed.

Lemma delete_safe name c : safely (delete_proxy name) c anything.
Proof.
  apply safe_atomic. intros c' G I. destruct (rt_proxies c' !! name) as [entry|]; cbn [fst snd].
  - split; [by apply delete_proxy_good|]. apply safe_stop. intros. by apply safe_bump.
  - split; [by apply good_refl|done].
Qed.

Lemma mark_stopped_good c name entry spec : control_ok c -> rt_proxies c !! name = Some entry ->
  ps_name spec = name -> proxy_spec_validate spec = Ok tt ->
  ps_upstream_policy spec = ps_upstream_policy (mp_spec entry) ->
  ps_downstream_policy spec = ps_downstream_policy (mp_spec entry) ->
  good c (mark_stopped spec name entry c).
Proof.
  intros I E N V Eu Ed. pose proof (ok_entries _ I name entry E) as [_ _ U D _ _].
  set (e' := {| mp_spec := spec; mp_running := false; mp_bound_addr := None; mp_cancel := length (rt_tokens c);
                mp_done := mp_done entry; mp_counters := mp_counters entry |}).
  apply (good_core _ (insert_proxy name e' c)); [done|]. eapply replace_good; [done..| |].
  - constructor; cbn; by rewrite ?Eu, ?Ed.
  - split; cbn; rewrite ?Eu, ?Ed; apply cell_grows_refl.
Qed.

Lemma set_enabled_safe name enabled c : safely (set_enabled name enabled) c anything.
Proof.
  unfold set_enabled. destruct enabled.
  - apply safe_observe. intros c1 _ I1. destruct (rt_proxies c1 !! name) as [e|]; cbn [option_map]; [|done].
    destruct (mp_running e); [by apply safe_observe|].
    eapply safe_bind'; [done|apply start_stored_safe|]. intros [a|er] c2 I2 _; [|done]. by apply safe_bump.
  - apply safe_atomic. intros c' G I. destruct (rt_proxies c' !! name) as [entry|] eqn:E; cbn [fst snd];
      [|by split; [apply good_refl|]].
    destruct (mp_running entry); cbn [negb fst snd]; [|by split; [apply good_refl|]].
    pose proof (ok_entries _ I name entry E) as [N V _ _ _ _].
    split; [by apply mark_stopped_good|]. apply safe_stop. intros. by apply safe_bump.
Qed.

(** ** Updates *)

Lemma with_policies_ok c name entry spec : control_ok c -> rt_proxies c !! name = Some entry ->
  ps_name spec = name -> proxy_spec_validate spec = Ok tt ->
  let spec := with_policies_of spec entry in
  ps_name spec = name /\ proxy_spec_validate spec = Ok tt
  /\ cell_wf (ps_upstream_policy spec) /\ cell_wf (ps_downstream_policy spec).
Proof. intros I E N V. pose proof (ok_entries _ I name entry E) as [_ _ U D _ _]. done. Qed.

Lemma patch_generation_safe {A} g (k : Z -> proc A) c Q : control_ok c ->
  (forall g c', grows c c' -> control_ok c' -> safely (k g) c' Q) -> safely (do! g := patch_generation g in k g) c Q.
Proof. intros I H. destruct g as [g|]; cbn [patch_generation]; [by apply H|by apply safe_bump]. Qed.

Lemma update_live_fields_safe name spec g c : ps_name spec = name -> proxy_spec_validate spec = Ok tt ->
  safely (update_live_fields name spec g) c anything.
Proof.
  intros N V. apply safe_atomic. intros c' G I. destruct (rt_proxies c' !! name) as [entry|] eqn:E; cbn [fst snd];
    [|by split; [apply good_refl|]].
  destruct (with_policies_ok c' name entry spec I E N V) as (N' & V' & U' & D').
  assert (W : good c' (insert_proxy name (set_spec entry (with_policies_of spec entry)) c')).
  { eapply replace_good; [done..| |by split; apply cell_grows_refl]. apply entry_ok_spec; try done. by apply I. }
  split; [exact W|]. apply patch_generation_safe; [apply W|]. by intros.
Qed.

Lemma restart_publish_safe name spec bound cancel done g c : ps_name spec = name -> proxy_spec_validate spec = Ok tt ->
  spawned_ok bound name cancel (Ok done) c -> safely (restart_publish name spec bound cancel done g) c anything.
Proof.
  intros N V H. apply safe_atomic. intros c' G I. destruct (rt_proxies c' !! name) as [entry|] eqn:E; cbn [fst snd].
  - destruct (with_policies_ok c' name entry spec I E N V) as (N' & V' & U' & D').
    match goal with |- context [insert_proxy name ?e c'] => assert (W : good c' (insert_proxy name e c')) end.
    { eapply replace_good; [done..| |by split; apply cell_grows_refl].
      apply spawned_entry; [by eapply spawned_ok_mono|done..]. }
    split; [exact W|]. apply patch_generation_safe; [apply W|]. by intros.
  - split; [by apply good_refl|by apply safe_stop; intros].
Qed.

Lemma restart_bound_safe name spec bound g c : ps_name spec = name -> proxy_spec_validate spec = Ok tt ->
  safely (restart_bound name spec bound g) c anything.
Proof.
  intros N V. apply safe_atomic. intros c' G I. destruct (rt_proxies c' !! name) as [entry|] eqn:E; cbn [fst snd];
    [|by split; [apply good_refl|]].
  destruct (mp_running entry); cbn [negb fst snd]; [|by split; [apply good_refl|]].
  pose proof (ok_entries _ I name entry E) as [N' V' _ _ _ _].
  split; [by apply mark_stopped_good|]. apply safe_stop. intros c1 _ I1.
  apply safe_scope. intros cancel c2 _ I2. eapply safe_bind'; [done|apply safe_spawn|].
  intros [done|e] c'' I' Q; [|by intros]. by apply restart_publish_safe.
Qed.

Lemma update_fields_safe name patch g c : safely (update_fields name patch g) c anything.
Proof.
  unfold update_fields. destruct (bool_decide _); [done|].
  apply safe_observe. intros c1 _ I1. destruct (rt_proxies c1 !! name) as [e|] eqn:E; cbn [option_map]; [|done].
  destruct (proxy_spec_validate (patched patch (mp_spec e))) as [[]|] eqn:V; [|done].
  assert (N : ps_name (patched patch (mp_spec e)) = name) by (apply I1 in E; apply E).
  destruct (_ || _); [by apply update_live_fields_safe|].
  intros [addr|src|src]; [|done..]. by apply restart_bound_safe.
Qed.

Lemma update_safe name patch c : control_ok c -> safely (update_proxy name patch) c anything.
Proof.
  intros I. unfold update_proxy. destruct (pt_enabled patch) as [enabled|]; [|apply update_fields_safe].
  eapply safe_bind'; [done|apply set_enabled_safe|]. intros [g|e] c' I' _; [|done].
  destruct (patch_only_enabled patch); [|apply update_fields_safe]. by apply safe_pure.
Qed.

(** ** Faults and plans *)

Lemma add_fault_safe proxy u c : safely (add_fault proxy u) c anything.
Proof.
  unfold add_fault. destruct (build_fault_spec u) as [spec|]; [|done].
  apply safe_locked. intros c' a c'' _ I. unfold add_fault_locked.
  destruct (rt_proxies c' !! proxy) as [entry|] eqn:E; [|done]. destruct (is_some _); [done|].
  destruct (publish_faults _ _ _ _ _) as [[g c2]|] eqn:P; [|done]. intros [= <- <-]. by eapply publish_faults_good.
Qed.

Lemma update_direction_good proxy id patch entry c direction r c' : control_ok c ->
  rt_proxies c !! proxy = Some entry -> update_direction proxy id patch entry c direction = Some (Ok (r, c')) -> good c c'.
Proof.
  intros I E. unfold update_direction. destruct (plan_get _ _) as [existing|]; [|done].
  destruct (patch_spec patch existing) as [next|]; [|done].
  destruct (publish_faults _ _ _ _ _) as [[g c2]|] eqn:P; [|done]. intros [= <- <-]. by eapply publish_faults_good.
Qed.

Lemma update_fault_safe proxy id patch c : safely (update_fault proxy id patch) c anything.
Proof.
  unfold update_fault. case_split; [done|].
  apply safe_locked. intros c' a c'' _ I. unfold update_fault_locked.
  destruct (rt_proxies c' !! proxy) as [entry|] eqn:E; [|done].
  destruct (update_direction _ _ _ _ _ Upstream) as [r|] eqn:P; [intros ->; by eapply update_direction_good|].
  destruct (update_direction _ _ _ _ _ Downstream) as [r|] eqn:P'; [intros ->; by eapply update_direction_good|done].
Qed.

Lemma remove_direction_good proxy id entry c direction r c' : control_ok c ->
  rt_proxies c !! proxy = Some entry -> remove_direction proxy id entry c direction = Some (Ok (r, c')) -> good c c'.
Proof.
  intros I E. unfold remove_direction. destruct (is_none _); [done|].
  destruct (plan_validate _) as [[]|]; [|done]. cbn [map_err].
  destruct (publish_direction _ _ _) as [entry'|] eqn:P; [|done]. cbn [map_err]. intros [= <- <-].
  destruct (publish_direction_ok c proxy entry direction (without_fault (pub_plan (load (policy_of direction (mp_spec entry)))) id) entry') as [He G];
    [by apply I|done|].
  apply (good_core _ (insert_proxy proxy entry' c)); [done|]. by eapply replace_good.
Qed.

Lemma remove_fault_safe proxy id c : safely (remove_fault proxy id) c anything.
Proof.
  apply safe_locked. intros c' a c'' _ I. unfold remove_fault_locked.
  destruct (rt_proxies c' !! proxy) as [entry|] eqn:E; [|done].
  destruct (remove_direction _ _ _ _ Upstream) as [r|] eqn:P; [intros ->; by eapply remove_direction_good|].
  destruct (remove_direction _ _ _ _ Downstream) as [r|] eqn:P'; [intros ->; by eapply remove_direction_good|done].
Qed.

Lemma set_ps_policies_same p : set_ps_policies (ps_upstream_policy p) (ps_downstream_policy p) p = p.
Proof. by destruct p. Qed.

(** Both cells of an entry replaced by later ones. *)
Lemma store_cells_good c name entry up down : control_ok c -> rt_proxies c !! name = Some entry ->
  cell_wf up -> cell_wf down -> cell_grows (ps_upstream_policy (mp_spec entry)) up ->
  cell_grows (ps_downstream_policy (mp_spec entry)) down -> good c (store_cells name entry up down c).
Proof.
  intros I E U D Gu Gd. pose proof (ok_entries _ I name entry E) as W. pose proof W as [N V _ _ _ _].
  eapply replace_good; [done..| |by split]. by apply entry_ok_spec.
Qed.

Lemma store_published_good c name entry up down pu pd : control_ok c -> rt_proxies c !! name = Some entry ->
  cell_wf up -> cell_wf down -> cell_grows (ps_upstream_policy (mp_spec entry)) up ->
  cell_grows (ps_downstream_policy (mp_spec entry)) down -> plan_validate pu = Ok tt -> plan_validate pd = Ok tt ->
  good c (store_published name entry up down pu pd c).
Proof.
  intros I E U D Gu Gd Pu Pd. pose proof (ok_entries _ I name entry E) as W. pose proof W as [N V _ _ _ _].
  eapply replace_good; [done..| |by split]. apply entry_ok_spec; try done. by apply validate_set_faults.
Qed.

(** Publish upstream, then downstream: what both two-direction operations do. *)
Lemma publish_both_good {A} c name entry ru rd (err : PublishError ValidationError -> ControlError)
    (k : PublishedPolicy FaultPlan -> PublishedPolicy FaultPlan -> Z -> A) :
  control_ok c -> rt_proxies c !! name = Some entry ->
  let '(c', p) :=
    match publish_call plan_validate GenerationOverflow (ps_upstream_policy (mp_spec entry)) ru with
    | (Err e, _) => (c, Ret (Err (err e)))
    | (Ok published_up, up) =>
        match publish_call plan_validate GenerationOverflow (ps_downstream_policy (mp_spec entry)) rd with
        | (Err e, _) => (store_cells name entry up (ps_downstream_policy (mp_spec entry)) c, Ret (Err (err e)))
        | (Ok published_down, down) =>
            let '(g, c) := next_generation (store_published name entry up down (pub_plan published_up) (pub_plan published_down) c) in
            (c, Ret (Ok (k published_up published_down g)))
        end
    end in
  good c c' /\ safely p c' anything.
Proof.
  intros I E. pose proof (ok_entries _ I name entry E) as [_ _ U D _ _].
  destruct (publish_call _ _ _ ru) as [[pu|e] up] eqn:Pu; [|split; [by apply good_refl|by intros]].
  apply publish_call_ok in Pu as (Cu & Gu & Vu & _); [|done].
  destruct (publish_call _ _ _ rd) as [[pd|e] down] eqn:Pd.
  - apply publish_call_ok in Pd as (Cd & Gd & Vd & _); [|done]. cbn [next_generation].
    split; [|by intros]. apply (good_core _ (store_published name entry up down (pub_plan pu) (pub_plan pd) c)); [done|].
    by apply store_published_good.
  - split; [|by intros]. apply store_cells_good; auto using cell_grows_refl.
Qed.

Lemma publish_plans_safe name up down c : safely (publish_plans name up down) c anything.
Proof.
  unfold publish_plans. destruct (plan_validate up); [|done]. destruct (plan_validate down); [|done].
  apply safe_atomic. intros c' _ I. destruct (rt_proxies c' !! name) as [entry|] eqn:E;
    [|by split; [apply good_refl|]].
  pose proof (publish_both_good c' name entry
    {| rq_plan := up; rq_ns := seed_namespace (load (ps_upstream_policy (mp_spec entry))); rq_expected := None |}
    {| rq_plan := down; rq_ns := seed_namespace (load (ps_downstream_policy (mp_spec entry))); rq_expected := None |}
    (fun e => ControlInvalid (publish_error_display e)) (fun _ _ g => g) I E) as H. cbv zeta.
  unfold Stream.publish_plan, publish. revert H.
  destruct (publish_call _ _ _ {| rq_plan := up; rq_ns := _; rq_expected := _ |}) as [[pu|e] cu]; [|done].
  destruct (publish_call _ _ _ {| rq_plan := down; rq_ns := _; rq_expected := _ |}) as [[pd|e] cd]; done.
Qed.

Lemma publish_plans_expected_safe name p c : safely (publish_plans_expected name p) c anything.
Proof.
  apply safe_atomic. intros c' _ I. destruct (rt_proxies c' !! name) as [entry|] eqn:E;
    [|by split; [apply good_refl|]]. cbv zeta.
  destruct (stale _ (ep_expected_upstream p)); [by split; [apply good_refl|]|].
  destruct (stale _ (ep_expected_downstream p)); [by split; [apply good_refl|]|].
  pose proof (publish_both_good c' name entry
    {| rq_plan := ep_upstream p; rq_ns := ep_upstream_seed p; rq_expected := Some (ep_expected_upstream p) |}
    {| rq_plan := ep_downstream p; rq_ns := ep_downstream_seed p; rq_expected := Some (ep_expected_downstream p) |}
    (expected_error name) (fun pu pd g => (g, generation pu, generation pd)) I E) as H.
  unfold Stream.publish_plan_expected, publish_expected. revert H.
  destruct (publish_call _ _ _ {| rq_plan := ep_upstream p; rq_ns := _; rq_expected := _ |}) as [[pu|e] cu]; [|done].
  destruct (publish_call _ _ _ {| rq_plan := ep_downstream p; rq_ns := _; rq_expected := _ |}) as [[pd|e] cd]; done.
Qed.

Lemma publish_direction_expected_safe name direction plan ns expected c :
  safely (publish_direction_expected name direction plan ns expected) c anything.
Proof.
  apply safe_locked. intros c' a c'' _ I. destruct (rt_proxies c' !! name) as [entry|] eqn:E; [|done].
  destruct (Stream.publish_plan_expected _ _ _ _) as [[published|] cell] eqn:P; [|done]. intros [= <- <-].
  pose proof (ok_entries _ I name entry E) as W.
  apply publish_call_ok in P as (C & G & V & _); [|by eapply policy_of_ok].
  match goal with |- good _ (set_generation _ ?c2) => apply (good_core _ c2); [done|] end.
  eapply replace_good; [done..| |]; [by apply set_direction_ok|by apply set_direction_grows].
Qed.

(** ** Reset, kill, reads *)

Lemma clear_direction_ok c name e direction : entry_ok c name e ->
  entry_ok c name (set_spec e (clear_direction direction (mp_spec e)))
  /\ entry_grows e (set_spec e (clear_direction direction (mp_spec e))).
Proof.
  intros H. unfold clear_direction. destruct (Stream.publish_plan _ _ _) as [[published|] cell] eqn:P.
  - apply publish_call_ok in P as (C & G & V & _); [|by eapply policy_of_ok].
    split; [by apply set_direction_ok|by apply set_direction_grows].
  - replace (set_spec e (mp_spec e)) with e by (by destruct e). split; [done|apply entry_grows_refl].
Qed.

Lemma reset_entry_ok c name e : entry_ok c name e -> entry_ok c name (reset_entry e) /\ entry_grows e (reset_entry e).
Proof.
  intros H. set (e0 := set_spec e (set_ps_enabled true (mp_spec e))).
  assert (H0 : entry_ok c name e0) by (destruct H; by apply entry_ok_spec).
  destruct (clear_direction_ok c name e0 Upstream H0) as [H1 G1].
  destruct (clear_direction_ok c name _ Downstream H1) as [H2 G2].
  split; [exact H2|]. destruct G1, G2. split; unfold cell_grows in *; by etrans.
Qed.

Lemma cancel_all_core ts c : core (cancel_all_tokens ts c) = core c.
Proof. revert c. induction ts as [|t ts IH]; intros c; [done|]. cbn. unfold cancel_all_tokens in IH. by rewrite IH. Qed.

Lemma reset_map_good c : control_ok c -> good c (set_proxies (reset_entry <$> rt_proxies c) c).
Proof.
  intros I. apply set_proxies_good; [done| |].
  - intros name e' H. apply lookup_fmap_Some in H as (e & <- & H). by apply (reset_entry_ok c name e), I.
  - intros name e e' H H'. rewrite lookup_fmap, H in H'. injection H' as <-. by apply (reset_entry_ok c name e), I.
Qed.

Lemma reset_start_safe names failed c : control_ok c -> safely (reset_start names failed) c anything.
Proof.
  revert failed c. induction names as [|name names IH]; intros failed c I; cbn [reset_start]; [done|].
  apply safe_observe. intros c1 _ I1. destruct (option_map mp_spec _) as [spec|]; [|by apply IH].
  eapply safe_bind'; [done|apply start_stored_safe|]. intros [a|e] c2 I2 _; by apply IH.
Qed.

Lemma reset_streams_safe c : safely reset_streams c anything.
Proof.
  apply safe_observe. intros c1 _ I1.
  apply (safe_atomic (fun c => let c := cancel_all_tokens _ c in let c := set_proxies (reset_entry <$> rt_proxies c) c in
    (c, reset_start (names_where (fun e => negb (mp_running e)) c) []))).
  intros c' _ I. cbv zeta. cbn [fst snd].
  set (ts := map snd _). pose proof (cancel_all_core ts c') as E.
  assert (W : good c' (set_proxies (reset_entry <$> rt_proxies (cancel_all_tokens ts c')) (cancel_all_tokens ts c'))).
  { apply (good_core _ (set_proxies (reset_entry <$> rt_proxies c') c')); [|by apply reset_map_good].
    unfold core in *. injection E as Es Ep Eh Ed Ev Er. cbn. by rewrite Es, Ep, Eh, Ed, Ev, Er. }
  split; [exact W|]. apply reset_start_safe, W.
Qed.
Lemma reset_safe c : control_ok c -> safely reset c anything.
Proof. intros I. eapply safe_bind'; [done|apply reset_streams_safe|]. intros failed c2 I2 _. by apply safe_bump. Qed.

Lemma kill_safe id c : safely (kill id) c anything.
Proof.
  apply (safe_atomic (fun c => (set_cancellations (delete id (rt_cancellations c)) c,
    match rt_cancellations c !! id with
    | Some token => atomic (fun c => (cancel_token token c, Ret true))
    | None => Ret false
    end))).
  intros c' _ I. cbn [fst snd]. split; [by apply good_frame|].
  destruct (rt_cancellations c' !! id); [|done]. apply safe_atomic. intros c2 _ I2. split; [by apply good_frame|done].
Qed.

Lemma call_safe r c : control_ok c -> r <> RqShutdown -> safely (call r) c anything.
Proof.
  intros I N. destruct r; try done; (eapply safe_bind'; [done| |by intros]).
  - apply import_safe.
  - apply create_safe.
  - apply start_all_safe.
  - apply delete_safe.
  - apply set_enabled_safe.
  - by apply update_safe.
  - apply add_fault_safe.
  - apply update_fault_safe.
  - apply remove_fault_safe.
  - apply publish_plans_safe.
  - apply publish_plans_expected_safe.
  - apply publish_direction_expected_safe.
  - by apply reset_safe.
  - apply kill_safe.
  - apply safe_pure. intros. apply safe_ret.
Qed.
End Operations.
