(* ===== verification/ControlRun.v ===== *)
(** * Runs of the control plane

    The theorems about every interleaving: the invariant, the publications
    that are never lost, the shutdown that joins every task, supervisors that
    stop, and the deletion that never answers. *)

From Stdlib Require Import Bool SpecFloat.
From stdpp Require Import base list gmap strings sorting relations.
From S2P Require Import Prelude Rng Float64 Plan Policy Schedule Wire Server Tasks Control ControlInv ControlSafe.

Abbreviation anything := (fun _ _ => True).

(** ** Shutdown *)

Lemma finished_mono c c' h : grows c c' -> is_finished c h = true -> is_finished c' h = true.
Proof.
  intros G F. unfold is_finished in *. destruct (rt_supervisors c !! h) as [s|] eqn:E; [|discriminate].
  destruct (gr_supervisors _ _ G _ _ E) as (s' & -> & _ & P). destruct (sv_phase s) eqn:Ep; try discriminate.
  by rewrite P.
Qed.

Lemma await_all_safe {A} (R G : relation Control) (R_grows : forall a b, R a b -> grows a b) hs (k : proc A) c Q :
  (forall c', rtc R c c' -> control_ok c' -> (forall h, h ∈ hs -> is_finished c' h = true) -> safe control_ok anywhere R G k c' Q) ->
  control_ok c -> safe control_ok anywhere R G (await_all hs k) c Q.
Proof.
  revert c. induction hs as [|h hs IH]; cbn; intros c H I.
  - apply H; [done|done|]. intros h Hh. by apply elem_of_nil in Hh.
  - intros c1 R1 I1. split; [done|]. intros W. apply IH; [|done]. intros c2 R2 I2 F. apply H; [by etrans|done|].
    intros h' [->|Hh]%elem_of_cons; [|by apply F]. eapply finished_mono; [by eapply rtc_grows|done].
Qed.

(** Everything still running is tracked, and nothing more is spawned. *)
Definition accounted (c : Control) : Prop :=
  rt_shutdown_initiated c = true /\
  forall h, (h < length (rt_supervisors c))%nat -> h ∈ map snd (rt_root c) \/ is_finished c h = true.
Definition all_finished (c : Control) : Prop :=
  rt_shutdown_initiated c = true /\ forall h, (h < length (rt_supervisors c))%nat -> is_finished c h = true.

Lemma accounted_step c c' : guarantee_tracked c c' -> accounted c -> accounted c'.
Proof.
  intros [[G _] T] [S A]. split; [by apply G|]. intros h Hh. rewrite (gr_no_spawn _ _ G S) in Hh.
  destruct (A h Hh) as [H|H]; [by apply T|right; by eapply finished_mono].
Qed.
Lemma accounted_rtc c c' : rtc guarantee_tracked c c' -> accounted c -> accounted c'.
Proof. induction 1; eauto using accounted_step. Qed.

Lemma all_finished_mono c c' : grows c c' -> all_finished c -> all_finished c'.
Proof.
  intros G [S A]. split; [by apply G|]. intros h Hh. rewrite (gr_no_spawn _ _ G S) in Hh.
  eapply finished_mono; [done|by apply A].
Qed.

(** With the flag set, two rounds drain the root, whoever else runs. *)
Lemma drain_safe c : control_ok c -> rt_shutdown_initiated c = true ->
  safe control_ok anywhere guarantee guarantee (drain_root 2) c anything.
Proof.
  intros _ S c1 R1 I1. assert (S1 : rt_shutdown_initiated c1 = true) by (by apply (rtc_grows _ _ _ gu_grows R1)).
  destruct (take_root_ok c1 I1 S1) as [I1' G1]. split; [done|]. split; [done|].
  cbn [snd proc_bind]. destruct (rt_root c1); [done|].
  apply await_all_safe; [apply gu_grows| |done]. intros c2 R2 I2 _ c3 R3 I3.
  assert (S3 : rt_shutdown_initiated c3 = true) by (apply (rtc_grows _ _ _ gu_grows (transitivity R2 R3)); done).
  destruct (take_root_ok c3 I3 S3) as [I3' G3]. split; [done|]. split; [done|].
  assert (E : rt_root c3 = []) by (apply (rtc_grows _ _ _ gu_grows (transitivity R2 R3)); done).
  cbn [snd]. by rewrite E.
Qed.

Lemma drain_joins c : control_ok c -> accounted c ->
  safe control_ok anywhere guarantee_tracked guarantee (drain_root 2) c (fun _ c' => all_finished c').
Proof.
  assert (RG : forall a b, guarantee_tracked a b -> grows a b) by (intros a b []; by apply gu_grows).
  intros _ A c1 R1 I1. pose proof (accounted_rtc _ _ R1 A) as [S1 A1].
  destruct (take_root_ok c1 I1 S1) as [I1' G1]. split; [done|]. split; [done|].
  cbn [snd proc_bind]. destruct (rt_root c1) as [|r root] eqn:Er.
  - intros c2 R2 _. apply (all_finished_mono (set_root [] c1)); [by eapply rtc_grows|]. split; [done|].
    intros h Hh. destruct (A1 h Hh) as [H|H]; [by apply elem_of_nil in H|done].
  - apply await_all_safe; [done| |done]. intros c2 R2 I2 F2.
    assert (A2 : all_finished c2).
    { pose proof (rtc_grows _ _ _ RG R2) as G2. split; [by apply G2|]. intros h Hh.
      rewrite (gr_no_spawn _ _ G2 S1) in Hh. destruct (A1 h Hh) as [H|H]; [by apply F2|by eapply (finished_mono (set_root [] c1))]. }
    intros c3 R3 I3. pose proof (transitivity R2 R3) as R23.
    assert (E : rt_root c3 = []) by (apply (rtc_grows _ _ _ RG R23); done).
    assert (S3 : rt_shutdown_initiated c3 = true) by (apply (rtc_grows _ _ _ RG R23); done).
    destruct (take_root_ok c3 I3 S3) as [I3' G3]. split; [done|]. split; [done|].
    cbn [snd]. rewrite E. intros c4 R4 _. eapply all_finished_mono; [by eapply rtc_grows|].
    apply (all_finished_mono c2 (set_root [] c3)); [|done]. etrans; [by eapply rtc_grows|apply G3].
Qed.

Lemma shutdown_safe c : safe control_ok anywhere guarantee guarantee shutdown_and_join c anything.
Proof.
  intros c1 R1 I1. destruct (set_shutdown_ok c1 I1) as [I1' G1]. split; [done|]. split; [done|].
  intros c2 R2 I2. assert (W : good c2 (cancel_token SHUTDOWN_TOKEN c2)) by (by apply good_frame).
  split; [apply W|]. split; [apply W|]. apply drain_safe; [apply W|]. by apply (rtc_grows _ _ _ gu_grows R2).
Qed.

(** The one shutdown of a service starts with every running task tracked. *)
Lemma shutdown_joins c : rt_shutdown_initiated c = false ->
  safe control_ok anywhere guarantee_tracked guarantee shutdown_and_join c (fun _ c' => all_finished c').
Proof.
  intros S c1 R1 I1. assert (S1 : rt_shutdown_initiated c1 = false).
  { clear I1. induction R1 as [|a b c1 [_ [E _]] _ IH]; [done|]. apply IH. congruence. }
  destruct (set_shutdown_ok c1 I1) as [I1' G1]. split; [done|]. split; [done|].
  assert (A1 : accounted (set_shutdown true c1)).
  { split; [done|]. intros h Hh. destruct (lookup_lt_is_Some_2 _ _ Hh) as [s Hs].
    destruct (is_finished c1 h) eqn:F; [by right|left]. apply (ok_tracked _ I1 h s Hs); [|done].
    unfold live_supervisor. intros E. unfold is_finished in F. cbn in Hs. by rewrite Hs, E in F. }
  intros c2 R2 I2. assert (W : good c2 (cancel_token SHUTDOWN_TOKEN c2)) by (by apply good_frame).
  split; [apply W|]. split; [apply W|]. apply drain_joins; [apply W|].
  apply (accounted_step c2); [apply W|]. by eapply accounted_rtc.
Qed.

(** ** The system *)

Lemma control_new_ok seed : control_ok (control_new seed).
Proof.
  constructor; cbn; try done.
  - intros d. split; [done|]. by intros (h & s & ? & _).
  - by intros name h ?%elem_of_nil.
Qed.

Lemma closing_good id c : control_ok c -> good c (set_cancellations (delete id (rt_cancellations c)) c).
Proof. intros I. by apply good_frame. Qed.

Lemma event_good e c c' : control_ok c -> happen e c = Some c' -> good c c'.
Proof.
  intros I H. destruct e as [h ev|id]; cbn in H; [by eapply sup_next_good|].
  injection H as <-. by apply closing_good.
Qed.

Definition pool (Q : nat -> response -> Control -> Prop) : ControlSystem -> Prop :=
  pool_ok control_ok anywhere (fun _ => guarantee) (fun _ => guarantee) Q.

Lemma pool_initial c rs : control_ok c -> pool (fun _ => anything) (initial c rs).
Proof.
  intros I. split; [done|]. intros i p H. cbn in H. rewrite list_lookup_fmap in H.
  destruct (rs !! i) as [r|]; [|done]. injection H as <-.
  assert (r = RqShutdown \/ r <> RqShutdown) as [->|N] by (destruct r; (by left) || by right).
  - eapply safe_bind; [apply shutdown_safe| |done]. by intros.
  - apply (safe_weaken control_ok anywhere guarantee guarantee guarantee_tracked guarantee); [done|apply gt_guarantee|].
    by apply call_safe; [apply gu_grows|..].
Qed.

Lemma pool_run Q s s' : pool Q s -> rtc control_step s s' -> pool Q s'.
Proof.
  apply pool_reachable; [done|]. intros e c c' i I H. destruct (event_good _ _ _ I H) as [I' [G _]]. done.
Qed.

(** Whoever moves, the step is one the others expect. *)
Lemma pool_step_guarantee Q s s' : pool Q s -> control_step s s' -> guarantee (sys_control s) (sys_control s').
Proof.
  intros P H. destruct (pool_move _ _ _ _ _ _ _ P H) as [E|[[i G]|[e E]]]; [|done|].
  - rewrite E. destruct P as [I _]. apply (good_refl _ I).
  - destruct P as [I _]. by destruct (event_good _ _ _ I E) as [_ [G _]].
Qed.

(** C6: what no interleaving of calls, supervisors and connections breaks.
    In every state the control plane reaches, each stored definition is under
    its own name and valid, and its policies are cells of valid plans with
    generations 1, 2, 3, ...; a proxy that claims to run names the supervisor
    and the address of its listener, and one that does not claims no address;
    until shutdown every supervisor still running is tracked; and no call has
    panicked. *)
Theorem control_plane_invariant seed rs s :
  rtc control_step (initial (control_new seed) rs) s ->
  let c := sys_control s in
  (forall name e, rt_proxies c !! name = Some e ->
     ps_name (mp_spec e) = name /\ proxy_spec_validate (mp_spec e) = Ok tt
     /\ cell_wf (ps_upstream_policy (mp_spec e)) /\ cell_wf (ps_downstream_policy (mp_spec e))
     /\ if mp_running e
        then exists h v, rt_supervisors c !! h = Some v /\ sv_name v = name /\ sv_done v = mp_done e
               /\ sv_cancel v = mp_cancel e /\ mp_bound_addr e = Some (sv_listener v)
        else mp_bound_addr e = None)
  /\ (forall h v, rt_supervisors c !! h = Some v -> sv_phase v <> SFinished ->
        rt_shutdown_initiated c = false -> h ∈ map snd (rt_root c))
  /\ Panic ∉ sys_calls s.
Proof.
  intros H. pose proof (pool_run _ _ _ (pool_initial _ rs (control_new_ok seed)) H) as [I S].
  split; [|split].
  - intros name e He. destruct (ok_entries _ I name e He). split_and!; try done. destruct (mp_running e); auto.
  - intros h v Hv L Hs. by eapply ok_tracked.
  - intros [i Hi]%list_elem_of_lookup. exact (S i Panic Hi).
Qed.

(** C19: no publication is lost.  One step of anything, after any history,
    leaves every proxy that stays with all the snapshots its two policies
    had, in order: patches, restarts, resets and other calls in progress only
    add to them. *)
Theorem publications_survive seed rs s s' :
  rtc control_step (initial (control_new seed) rs) s -> control_step s s' ->
  forall name e e', rt_proxies (sys_control s) !! name = Some e -> rt_proxies (sys_control s') !! name = Some e' ->
    snapshots (ps_upstream_policy (mp_spec e)) `prefix_of` snapshots (ps_upstream_policy (mp_spec e'))
    /\ snapshots (ps_downstream_policy (mp_spec e)) `prefix_of` snapshots (ps_downstream_policy (mp_spec e')).
Proof.
  intros H Hs. apply (pool_run _ _ _ (pool_initial _ rs (control_new_ok seed))) in H.
  apply (pool_step_guarantee _ _ _ H Hs).
Qed.

(** ** One shutdown *)

Section OneShutdown.
Context (rs : list request) (i : nat).
Context (shutdown_here : rs !! i = Some RqShutdown) (only_here : forall j, rs !! j = Some RqShutdown -> j = i).

Definition rely_of (j : nat) : relation Control := if Nat.eqb j i then guarantee_tracked else guarantee.
Definition guarantee_of (j : nat) : relation Control := if Nat.eqb j i then guarantee else guarantee_tracked.
Definition result_of (j : nat) : response -> Control -> Prop :=
  if Nat.eqb j i then fun _ c => all_finished c else anything.

Lemma rely_of_good j c c' : good c c' -> rely_of j c c'.
Proof. intros [_ G]. unfold rely_of. case_match; [done|apply G]. Qed.

Lemma shutdown_pool_initial c : control_ok c -> rt_shutdown_initiated c = false ->
  pool_ok control_ok anywhere rely_of guarantee_of result_of (initial c rs).
Proof.
  intros I S. split; [done|]. intros j p H. cbn in H. rewrite list_lookup_fmap in H.
  destruct (rs !! j) as [r|] eqn:Ej; [|done]. injection H as <-. unfold rely_of, guarantee_of, result_of.
  destruct (Nat.eqb_spec j i) as [->|Hne].
  - rewrite shutdown_here in Ej. injection Ej as <-.
    eapply safe_bind; [by apply shutdown_joins| |done]. intros u c' _ F c'' R'' _. eapply all_finished_mono; [|done].
    eapply rtc_grows; [|done]. by intros a b [[]].
  - apply call_safe; [apply gu_grows|done|]. intros ->. by apply Hne, only_here.
Qed.

Lemma shutdown_pool_run s s' : pool_ok control_ok anywhere rely_of guarantee_of result_of s -> rtc control_step s s' ->
  pool_ok control_ok anywhere rely_of guarantee_of result_of s'.
Proof.
  apply pool_reachable.
  - intros j k c c' Hne G. unfold rely_of, guarantee_of in *.
    destruct (Nat.eqb_spec j i), (Nat.eqb_spec k i); subst; try done. by apply gt_guarantee.
  - intros e c c' j I H. pose proof (event_good _ _ _ I H) as W. split; [apply W|by apply rely_of_good].
Qed.
End OneShutdown.

(** C20: shutdown joins every task.  When the one [shutdown_and_join] of a
    service returns, every supervisor the service ever spawned has finished,
    and none is ever spawned again, whatever calls were in progress and
    however they interleaved with it. *)
Theorem shutdown_joins_every_task seed rs i s r :
  rs !! i = Some RqShutdown -> (forall j, rs !! j = Some RqShutdown -> j = i) ->
  rtc control_step (initial (control_new seed) rs) s -> sys_calls s !! i = Some (Ret r) ->
  forall s', rtc control_step s s' ->
    Forall (fun v => sv_phase v = SFinished) (rt_supervisors (sys_control s'))
    /\ length (rt_supervisors (sys_control s')) = length (rt_supervisors (sys_control s)).
Proof.
  intros Hi Ho H Hr s' H'.
  pose proof (shutdown_pool_initial rs i Hi Ho _ (control_new_ok seed) eq_refl) as P.
  pose proof (shutdown_pool_run i _ _ P H) as P1.
  assert (F1 : all_finished (sys_control s)).
  { destruct P1 as [I S]. specialize (S i _ Hr (sys_control s)). unfold result_of in S. rewrite Nat.eqb_refl in S. by apply S. }
  assert (G : grows (sys_control s) (sys_control s')).
  { pose proof (pool_run _ _ _ (pool_initial _ rs (control_new_ok seed)) H) as P2. clear -H' P2.
    induction H' as [|a b c Hab Hbc IH]; [done|]. etrans; [apply (pool_step_guarantee _ _ _ P2 Hab)|].
    apply IH. eapply pool_run; [done|by apply rtc_once]. }
  destruct (all_finished_mono _ _ G F1) as [S F]. split; [|by apply G, F1].
  apply Forall_lookup. intros h v Hv. specialize (F h (lookup_lt_Some _ _ _ Hv)).
  unfold is_finished in F. rewrite Hv in F. by destruct (sv_phase v).
Qed.

(** ** Supervisors stop *)

Definition phase_rank (p : SupervisorPhase) : nat :=
  match p with SSelect _ => 4 | SLoop => 3 | SStopping => 2 | SFlagged => 1 | SFinished => 0 end%nat.
Definition rank_of (c : Control) (h : nat) : nat :=
  match rt_supervisors c !! h with Some s => phase_rank (sv_phase s) | None => 0 end.

(** A cancelled supervisor stops.  Once its scope or the service is
    cancelled every move of a supervisor brings it closer to its end, four
    moves at most, accepting a last client included, and until then it can
    always move. *)
Theorem cancelled_supervisors_stop c h s :
  rt_supervisors c !! h = Some s -> scope_cancelled c s = true ->
  (forall ev c', sup_next h ev c = Some c' -> (rank_of c' h < rank_of c h)%nat)
  /\ (sv_phase s <> SFinished -> exists ev c', sup_next h ev c = Some c')
  /\ (rank_of c h <= 4)%nat.
Proof.
  intros H C. assert (L : forall p c0, rt_supervisors c0 = rt_supervisors c ->
    rank_of (set_supervisor h p c0) h = phase_rank p).
  { intros p c0 E. unfold rank_of, set_supervisor. cbn. rewrite list_lookup_alter_eq, E, H. done. }
  unfold rank_of at 2 3. rewrite H. split_and!.
  - intros ev c' N. unfold sup_next in N. rewrite H, C in N.
    destruct (sv_phase s) as [|e| | |], ev as [| |[id|]]; try discriminate N.
    + destruct (rt_proxies c !! sv_name s); injection N as <-; rewrite L by done; cbn; lia.
    + injection N as <-. rewrite L by done. cbn. lia.
    + cbn in N. injection N as <-. rewrite L by done. cbn. lia.
    + injection N as <-. rewrite L by done. cbn. lia.
    + injection N as <-. rewrite L by done. cbn. lia.
    + injection N as <-. rewrite L by done. cbn. lia.
  - intros P. unfold sup_next. rewrite H, C. destruct (sv_phase s); [exists SupNext|exists SupCancelled|exists SupNext..|done]; try by eexists.
    destruct (rt_proxies c !! sv_name s); by eexists.
  - destruct (sv_phase s); cbn; lia.
Qed.
