(* ===== verification/ControlSpec.v ===== *)
(** * What fault management promises

    An abstract store of two fault lists for each proxy, the effect a fault
    request has on it, and the proof that [add_fault], [update_fault] and
    [remove_fault] implement it on every branch. *)

From Stdlib Require Import Bool SpecFloat.
From stdpp Require Import base list gmap strings sorting relations.
From S2P Require Import Prelude Rng Float64 Plan Policy Schedule Wire Server Tasks Control ControlInv ControlSafe ControlRun.

(** ** Requests and their effect *)

Inductive FaultRequest :=
| AddFault (u : FaultUpsert)
| UpdateFault (id : string) (patch : FaultPatch)
| RemoveFault (id : string).

(** The direction a request edits, the faults it leaves there and the fault it
    reports. *)
Record Edit := { ed_direction : Direction; ed_faults : list FaultSpec; ed_reported : option FaultSpec }.

Definition side (d : Direction) (lists : list FaultSpec * list FaultSpec) : list FaultSpec :=
  match d with Upstream => lists.1 | Downstream => lists.2 end.
Definition set_side (d : Direction) (fs : list FaultSpec) (lists : list FaultSpec * list FaultSpec)
    : list FaultSpec * list FaultSpec :=
  match d with Upstream => (fs, lists.2) | Downstream => (lists.1, fs) end.

(** Upstream shadows downstream. *)
Definition holder (id : string) (lists : list FaultSpec * list FaultSpec) : option Direction :=
  if decide (id ∈ map fs_id lists.1) then Some Upstream
  else if decide (id ∈ map fs_id lists.2) then Some Downstream
  else None.

Definition added (u : FaultUpsert) : FaultSpec :=
  {| fs_id := fu_id u; fs_probability := fu_probability u; fs_kind := fu_kind u |}.
Definition patched_fault (patch : FaultPatch) (f : FaultSpec) : FaultSpec := {|
  fs_id := fs_id f; fs_probability := default (fs_probability f) (fpt_probability patch);
  fs_kind := default (fs_kind f) (fpt_kind patch)
|}.

(** What is wrong with a request before any proxy is looked at. *)
Definition request_error (rq : FaultRequest) : option string :=
  match rq with
  | AddFault u =>
      if (str_len (fu_id u) =? 0) || (128 <? str_len (fu_id u)) then Some "fault id must be 1..=128 bytes"%string
      else if probability_in_range (fu_probability u) then None
      else Some "probability must be finite and between 0 and 1"%string
  | UpdateFault _ patch =>
      match fpt_probability patch with
      | Some p => if probability_in_range p then None else Some "probability must be finite and between 0 and 1"%string
      | None => None
      end
  | RemoveFault _ => None
  end.

Definition edit_of (proxy : string) (rq : FaultRequest) (lists : list FaultSpec * list FaultSpec) : result Edit ControlError :=
  match rq with
  | AddFault u =>
      let d := fu_direction u in
      if decide (fu_id u ∈ map fs_id (side d lists)) then Err (fault_exists (fu_id u) proxy d)
      else Ok {| ed_direction := d; ed_faults := side d lists ++ [added u]; ed_reported := Some (added u) |}
  | UpdateFault id patch =>
      match holder id lists with
      | None => Err (no_fault id proxy)
      | Some d =>
          let rewrite_fault f := if decide (fs_id f = id) then patched_fault patch f else f in
          Ok {| ed_direction := d; ed_faults := map rewrite_fault (side d lists);
                ed_reported := option_map (patched_fault patch) (plan_get {| faults := side d lists |} id) |}
      end
  | RemoveFault id =>
      match holder id lists with
      | None => Err (no_fault id proxy)
      | Some d => Ok {| ed_direction := d; ed_faults := filter (fun f => fs_id f <> id) (side d lists); ed_reported := None |}
      end
  end.

(** The whole effect: the request, the proxy, the edit, the plan it makes,
    and a generation left to publish it under. *)
Definition fault_effect (proxy : string) (rq : FaultRequest) (lists : option (list FaultSpec * list FaultSpec))
    (exhausted : Direction -> bool) : result Edit ControlError :=
  match request_error rq, lists with
  | Some message, _ => Err (ControlInvalid message)
  | None, None => Err (ControlNotFound proxy)
  | None, Some lists =>
      let? e := edit_of proxy rq lists in
      let? _u := map_err (fun e => ControlInvalid (validation_error_display e)) (plan_validate {| faults := ed_faults e |}) in
      if exhausted (ed_direction e) then Err (ControlInvalid (validation_error_display GenerationOverflow)) else Ok e
  end.

(** ** The calls *)

Definition fault_call (proxy : string) (rq : FaultRequest) : proc (result (option (Direction * FaultSpec) * Z) ControlError) :=
  match rq with
  | AddFault u =>
      do! r := add_fault proxy u in
      Ret match r with Ok (d, f, g) => Ok (Some (d, f), g) | Err e => Err e end
  | UpdateFault id patch =>
      do! r := update_fault proxy id patch in
      Ret match r with Ok (d, f, g) => Ok (Some (d, f), g) | Err e => Err e end
  | RemoveFault id =>
      do! r := remove_fault proxy id in
      Ret match r with Ok g => Ok (None, g) | Err e => Err e end
  end.

Definition generation_of (d : Direction) (e : ManagedProxy) : Z := generation (load (policy_of d (mp_spec e))).
Definition namespace_of (d : Direction) (e : ManagedProxy) : Z := seed_namespace (load (policy_of d (mp_spec e))).
Definition mirror_of (d : Direction) (e : ManagedProxy) : FaultPlan :=
  match d with Upstream => ps_upstream_faults (mp_spec e) | Downstream => ps_downstream_faults (mp_spec e) end.
Definition opposite (d : Direction) : Direction := match d with Upstream => Downstream | Downstream => Upstream end.
Definition exhausted (proxy : string) (c : Control) (d : Direction) : bool :=
  match rt_proxies c !! proxy with Some e => generation_of d e =? U64_MAX | None => false end.

(** The state after an edit: one direction of one proxy is published anew,
    its mirror follows, and one generation of the service is taken. *)
Record committed (proxy : string) (e : Edit) (c c' : Control) : Prop := {
  cm_lists : list_faults_now proxy c' = option_map (set_side (ed_direction e) (ed_faults e)) (list_faults_now proxy c);
  cm_others : forall other, other <> proxy -> rt_proxies c' !! other = rt_proxies c !! other;
  cm_rest : c' = set_generation (wadd (rt_generation c) 1) (set_proxies (rt_proxies c') c);
  cm_entry : exists old new, rt_proxies c !! proxy = Some old /\ rt_proxies c' !! proxy = Some new
    /\ new = set_spec old (mp_spec new)
    /\ generation_of (ed_direction e) new = generation_of (ed_direction e) old + 1
    /\ namespace_of (ed_direction e) new = namespace_of (ed_direction e) old
    /\ policy_of (opposite (ed_direction e)) (mp_spec new) = policy_of (opposite (ed_direction e)) (mp_spec old)
    /\ mirror_of (ed_direction e) new = {| faults := ed_faults e |}
}.

(** ** One publication *)

Lemma publish_direction_eq c name e d plan : entry_ok c name e ->
  match plan_validate plan with
  | Err er => publish_direction d plan e = Err (validation_error_display er)
  | Ok _ =>
      if generation_of d e =? U64_MAX then publish_direction d plan e = Err (validation_error_display GenerationOverflow)
      else exists e', publish_direction d plan e = Ok e' /\ e' = set_spec e (mp_spec e')
        /\ pub_plan (load (policy_of d (mp_spec e'))) = plan
        /\ generation_of d e' = generation_of d e + 1 /\ namespace_of d e' = namespace_of d e
        /\ policy_of (opposite d) (mp_spec e') = policy_of (opposite d) (mp_spec e) /\ mirror_of d e' = plan
  end.
Proof.
  intros H. pose proof (policy_of_ok _ _ _ d H) as C. unfold publish_direction, generation_of, namespace_of.
  unfold Stream.publish_plan, publish.
  destruct (publish_call plan_validate GenerationOverflow _ _) as [[published|er] cell] eqn:E.
  - pose proof E as E'. apply publish_call_ok in E as (_ & _ & V & L & P & N & G); [|done]. cbn in P, N. rewrite P in V.
    rewrite V. unfold publish_call in E'. cbn [rq_plan] in E'. rewrite V, (load_snapshot _ C) in E'. cbn [loop_checks rq_expected] in E'.
    destruct (_ =? U64_MAX); [done|]. eexists. split; [done|]. cbn [mp_spec set_spec].
    destruct d; cbn [policy_of set_direction set_ps_faults set_ps_policies mirror_of mp_spec set_spec ps_upstream_policy
      ps_downstream_policy ps_upstream_faults ps_downstream_faults opposite] in *; rewrite L; by split_and!.
  - unfold publish_call in E. cbn [rq_plan] in E. destruct (plan_validate plan) as [[]|er'] eqn:V.
    + rewrite (load_snapshot _ C) in E. cbn [loop_checks rq_expected] in E.
      destruct (_ =? U64_MAX); [|done]. injection E as <- <-. done.
    + injection E as <- <-. done.
Qed.

Lemma live_lists proxy c e : rt_proxies c !! proxy = Some e ->
  list_faults_now proxy c = Some (faults (live_plan Upstream e), faults (live_plan Downstream e)).
Proof. intros H. unfold list_faults_now. by rewrite H. Qed.

Lemma side_live d e : side d (faults (live_plan Upstream e), faults (live_plan Downstream e)) = faults (live_plan d e).
Proof. by destruct d. Qed.

Lemma commit_edit proxy d fs reported e e' c :
  rt_proxies c !! proxy = Some e -> e' = set_spec e (mp_spec e') ->
  pub_plan (load (policy_of d (mp_spec e'))) = {| faults := fs |} ->
  generation_of d e' = generation_of d e + 1 -> namespace_of d e' = namespace_of d e ->
  policy_of (opposite d) (mp_spec e') = policy_of (opposite d) (mp_spec e) -> mirror_of d e' = {| faults := fs |} ->
  committed proxy {| ed_direction := d; ed_faults := fs; ed_reported := reported |} c (next_generation (insert_proxy proxy e' c)).2.
Proof.
  intros H E P G N O M. constructor; cbn [ed_direction ed_faults].
  - rewrite (live_lists proxy c e H). unfold list_faults_now. cbn. rewrite lookup_insert_eq. cbn. f_equal.
    unfold live_plan. destruct d; cbn in *; by rewrite P, O.
  - intros other Hne. cbn. by rewrite lookup_insert_ne.
  - done.
  - exists e, e'. cbn. rewrite lookup_insert_eq. by split_and!.
Qed.

(** The tail the three operations share, for a valid request. *)
Definition tail_of (proxy : string) (d : Direction) (fs : list FaultSpec) (e : ManagedProxy) (c : Control) : result (Z * Control) ControlError :=
  let? _u := map_err (fun er => ControlInvalid (validation_error_display er)) (plan_validate {| faults := fs |}) in
  let? e' := map_err ControlInvalid (publish_direction d {| faults := fs |} e) in
  Ok (next_generation (insert_proxy proxy e' c)).

Lemma tail_implements proxy d fs reported e c : control_ok c -> rt_proxies c !! proxy = Some e ->
  match (let? _u := map_err (fun er => ControlInvalid (validation_error_display er)) (plan_validate {| faults := fs |}) in
         if exhausted proxy c d then Err (ControlInvalid (validation_error_display GenerationOverflow)) else Ok tt) with
  | Err er => tail_of proxy d fs e c = Err er
  | Ok _ => exists c', tail_of proxy d fs e c = Ok (wadd (rt_generation c) 1, c')
      /\ committed proxy {| ed_direction := d; ed_faults := fs; ed_reported := reported |} c c'
  end.
Proof.
  intros I H. unfold tail_of, exhausted. rewrite H.
  pose proof (publish_direction_eq c proxy e d {| faults := fs |} (ok_entries _ I _ _ H)) as P.
  destruct (plan_validate {| faults := fs |}) as [[]|er]; [|done]. cbn [map_err].
  destruct (generation_of d e =? U64_MAX); [by rewrite P|].
  destruct P as (e' & -> & E & L & G & N & O & M). cbn [map_err]. eexists. split; [done|]. by eapply commit_edit.
Qed.

Lemma cell_plan_wf c name e d : entry_ok c name e -> plan_wf (live_plan d e).
Proof.
  intros H. pose proof (policy_of_ok _ _ _ d H) as C. pose proof C as (s & Hs & _)%cell_ok_current.
  unfold live_plan, load. rewrite Hs. apply plan_wf_validate. destruct C as [_ _ _ V].
  rewrite Forall_forall in V. apply V. apply list_elem_of_lookup. by eexists.
Qed.

(** ** Lists *)

Abbreviation probable := (Forall (fun f => probability_in_range (fs_probability f) = true)).

Lemma publish_faults_tail proxy d fs e c : probable fs -> publish_faults proxy d fs e c = tail_of proxy d fs e c.
Proof.
  intros P. unfold publish_faults, tail_of, plan_new, plan_validate. cbn [faults].
  destruct (MAX_STREAM_FAULTS <? zlen fs); [done|]. rewrite (plan_new_loop_validate ∅ fs P).
  by destruct (plan_validate_loop ∅ fs).
Qed.

Lemma plan_get_some p id f : plan_get p id = Some f -> f ∈ faults p /\ fs_id f = id.
Proof.
  intros [Hin E]%List.find_some. apply bool_decide_eq_true in E. split; [|done]. by apply list_elem_of_In.
Qed.

Lemma holder_upstream id lists : is_some (plan_get {| faults := lists.1 |} id) = true -> holder id lists = Some Upstream.
Proof.
  unfold holder. destruct (plan_get _ _) as [f|] eqn:E; [|done]. intros _. apply plan_get_some in E as [Hin <-].
  rewrite decide_True; [done|]. by apply list_elem_of_fmap_2.
Qed.
Lemma holder_not_upstream id lists : plan_get {| faults := lists.1 |} id = None ->
  holder id lists = match plan_get {| faults := lists.2 |} id with Some _ => Some Downstream | None => None end.
Proof.
  intros H%plan_get_none. unfold holder. rewrite decide_False by done.
  destruct (plan_get {| faults := lists.2 |} id) as [f|] eqn:E.
  - apply plan_get_some in E as [Hin <-]. rewrite decide_True; [done|]. by apply list_elem_of_fmap_2.
  - apply plan_get_none in E. by rewrite decide_False.
Qed.

Lemma overwrite_is_map id next g fs existing : NoDup (map fs_id fs) -> plan_get {| faults := fs |} id = Some existing ->
  g existing = next -> overwrite id next fs = map (fun f => if decide (fs_id f = id) then g f else f) fs.
Proof.
  intros N H E. unfold plan_get in H. cbn [faults] in H. induction fs as [|f fs IH]; [done|].
  cbn in *. apply NoDup_cons in N as [N1 N2]. destruct (decide (fs_id f = id)) as [<-|Hne].
  - rewrite bool_decide_eq_true_2 in H |- * by done. injection H as ->. f_equal; [done|].
    clear -N1. induction fs as [|k fs IH]; [done|]. cbn in *. apply not_elem_of_cons in N1 as [? ?].
    rewrite decide_False by congruence. f_equal. by apply IH.
  - rewrite bool_decide_eq_false_2 in H |- * by done. f_equal. by apply IH.
Qed.

Lemma without_fault_filter p id : without_fault p id = {| faults := filter (fun f => fs_id f <> id) (faults p) |}.
Proof.
  unfold without_fault. f_equal. induction (faults p) as [|f fs IH]; [done|]. cbn [List.filter]. rewrite filter_cons.
  destruct (decide (fs_id f = id)) as [E|E].
  - rewrite bool_decide_eq_true_2 by done. by rewrite decide_False by (by intros ?).
  - rewrite bool_decide_eq_false_2 by done. rewrite decide_True by done. cbn. by f_equal.
Qed.

(** ** The operations *)

Section Implementation.
Context (proxy : string) (c : Control) (I : control_ok c) (entry : ManagedProxy) (stored : rt_proxies c !! proxy = Some entry).
Let lists := (faults (live_plan Upstream entry), faults (live_plan Downstream entry)).

Lemma live_wf d : plan_wf (live_plan d entry).
Proof. eapply cell_plan_wf. by apply I. Qed.

Lemma plan_get_live d id : plan_get {| faults := faults (live_plan d entry) |} id = plan_get (live_plan d entry) id.
Proof. by destruct (live_plan d entry). Qed.

Lemma holder_live id : holder id lists =
  match plan_get (live_plan Upstream entry) id with
  | Some _ => Some Upstream
  | None => match plan_get (live_plan Downstream entry) id with Some _ => Some Downstream | None => None end
  end.
Proof.
  unfold lists. destruct (plan_get (live_plan Upstream entry) id) as [f|] eqn:U.
  - apply holder_upstream. cbn [fst]. by rewrite plan_get_live, U.
  - rewrite holder_not_upstream; cbn [fst snd]; by rewrite plan_get_live.
Qed.

(** What an operation that reached the entry makes of an edit. *)
Definition implements (r : result (Z * Control) ControlError) (e : result Edit ControlError) : Prop :=
  match (let? e := e in
         let? _u := map_err (fun er => ControlInvalid (validation_error_display er)) (plan_validate {| faults := ed_faults e |}) in
         if exhausted proxy c (ed_direction e) then Err (ControlInvalid (validation_error_display GenerationOverflow)) else Ok e) with
  | Err er => r = Err er
  | Ok e => exists c', r = Ok (wadd (rt_generation c) 1, c') /\ committed proxy e c c'
  end.

Lemma tail_implements_edit d fs reported :
  implements (tail_of proxy d fs entry c) (Ok {| ed_direction := d; ed_faults := fs; ed_reported := reported |}).
Proof.
  unfold implements. cbn. pose proof (tail_implements proxy d fs reported entry c I stored) as T.
  destruct (plan_validate _) as [u|]; cbn [map_err] in *; [|done]. by destruct (exhausted _ _ _).
Qed.

Lemma add_implements u : request_error (AddFault u) = None -> exists r,
  implements r (edit_of proxy (AddFault u) lists)
  /\ build_fault_spec u = Ok (added u)
  /\ add_fault_locked proxy (fu_direction u) (added u) c
     = match r with Ok (g, c') => Ok (fu_direction u, added u, g, c') | Err e => Err e end.
Proof.
  intros V. cbn in V. unfold build_fault_spec, wire_fault_id, wire_probability, fault_id_new, probability_new.
  destruct ((str_len (fu_id u) =? 0) || (128 <? str_len (fu_id u))); [done|].
  destruct (probability_in_range (fu_probability u)) eqn:P; [|done]. cbn [negb map_err].
  unfold add_fault_locked. rewrite stored. fold (live_plan (fu_direction u) entry).
  cbn [edit_of]. unfold lists. rewrite side_live. change (fs_id (added u)) with (fu_id u).
  destruct (plan_get (live_plan (fu_direction u) entry) (fu_id u)) as [f|] eqn:G; cbn [is_some].
  - apply plan_get_some in G as [Hin E]. rewrite decide_True by (rewrite <- E; by apply list_elem_of_fmap_2).
    eexists (Err _). by split_and!.
  - apply plan_get_none in G. rewrite decide_False by done.
    eexists. split; [apply tail_implements_edit|]. split; [done|]. rewrite publish_faults_tail; [done|].
    apply Forall_app_2; [apply live_wf|constructor; [exact P|constructor]].
Qed.

Lemma update_direction_implements id patch d existing : request_error (UpdateFault id patch) = None ->
  plan_get (live_plan d entry) id = Some existing -> holder id lists = Some d -> exists r,
  implements r (edit_of proxy (UpdateFault id patch) lists)
  /\ update_direction proxy id patch entry c d
     = Some (match r with Ok (g, c') => Ok (d, patched_fault patch existing, g, c') | Err e => Err e end).
Proof.
  intros V G H. unfold update_direction. fold (live_plan d entry). rewrite G. cbn [edit_of]. rewrite H.
  unfold lists. rewrite side_live.
  assert (P : patch_spec patch existing = Ok (patched_fault patch existing)).
  { cbn in V. unfold patch_spec, patched_fault, wire_probability, probability_new.
    destruct (fpt_probability patch) as [p|]; [|done]. by destruct (probability_in_range p). }
  rewrite P. eexists. split; [apply tail_implements_edit|].
  rewrite (overwrite_is_map id _ (patched_fault patch) _ existing); [|apply live_wf|by rewrite plan_get_live|done].
  rewrite publish_faults_tail; [done|].
  apply Forall_fmap. eapply Forall_impl; [apply live_wf|]. intros f Hf. cbn. destruct (decide (fs_id f = id)); [|done].
  unfold patched_fault. cbn in *. destruct (fpt_probability patch) as [p|]; [cbn|done]. by destruct (probability_in_range p).
Qed.

Lemma update_implements id patch : request_error (UpdateFault id patch) = None -> exists r,
  implements r (edit_of proxy (UpdateFault id patch) lists)
  /\ match update_fault_locked proxy id patch c with
     | Ok (d, f, g, c') => r = Ok (g, c')
         /\ exists e, edit_of proxy (UpdateFault id patch) lists = Ok e /\ ed_direction e = d /\ ed_reported e = Some f
     | Err e => r = Err e
     end.
Proof.
  intros V. unfold update_fault_locked. rewrite stored.
  assert (K : forall d existing, plan_get (live_plan d entry) id = Some existing -> holder id lists = Some d ->
    exists e, edit_of proxy (UpdateFault id patch) lists = Ok e /\ ed_direction e = d
      /\ ed_reported e = Some (patched_fault patch existing)).
  { intros d existing G H. cbn [edit_of]. rewrite H. eexists. split; [done|]. split; [done|]. cbn [ed_reported].
    unfold lists. by rewrite side_live, plan_get_live, G. }
  pose proof (holder_live id) as H. destruct (plan_get (live_plan Upstream entry) id) as [f|] eqn:U.
  - destruct (update_direction_implements id patch Upstream f V U H) as (r & Hr & ->). exists r. split; [done|].
    destruct r as [[g c']|]; [|done]. split; [done|]. by apply K.
  - assert (N : update_direction proxy id patch entry c Upstream = None).
    { unfold update_direction. fold (live_plan Upstream entry). by rewrite U. }
    rewrite N. destruct (plan_get (live_plan Downstream entry) id) as [f|] eqn:D.
    + destruct (update_direction_implements id patch Downstream f V D H) as (r & Hr & ->). exists r. split; [done|].
      destruct r as [[g c']|]; [|done]. split; [done|]. by apply K.
    + unfold update_direction at 1. fold (live_plan Downstream entry). rewrite D. eexists. split; [|done].
      unfold implements. cbn [edit_of]. by rewrite H.
Qed.

Lemma remove_direction_implements id d existing : plan_get (live_plan d entry) id = Some existing ->
  holder id lists = Some d -> exists r,
  implements r (edit_of proxy (RemoveFault id) lists) /\ remove_direction proxy id entry c d = Some r.
Proof.
  intros G H. unfold remove_direction. fold (live_plan d entry). rewrite G. cbn [is_none edit_of]. rewrite H.
  unfold lists. rewrite side_live. eexists. split; [apply tail_implements_edit|].
  rewrite without_fault_filter. unfold tail_of. by destruct (plan_validate _).
Qed.

Lemma remove_implements id : implements (remove_fault_locked proxy id c) (edit_of proxy (RemoveFault id) lists).
Proof.
  unfold remove_fault_locked. rewrite stored. pose proof (holder_live id) as H.
  destruct (plan_get (live_plan Upstream entry) id) as [f|] eqn:U.
  - by destruct (remove_direction_implements id Upstream f U H) as (r & Hr & ->).
  - assert (N : remove_direction proxy id entry c Upstream = None).
    { unfold remove_direction. fold (live_plan Upstream entry). by rewrite U. }
    rewrite N. destruct (plan_get (live_plan Downstream entry) id) as [f|] eqn:D.
    + by destruct (remove_direction_implements id Downstream f D H) as (r & Hr & ->).
    + unfold remove_direction. fold (live_plan Downstream entry). rewrite D. cbn [is_none].
      unfold implements. cbn [edit_of]. by rewrite H.
Qed.
End Implementation.

(** ** The refinement *)

(** What a fault request must answer and leave behind. *)
Definition answers_spec (proxy : string) (rq : FaultRequest) (c : Control)
    (r : result (option (Direction * FaultSpec) * Z) ControlError) (c' : Control) : Prop :=
  match fault_effect proxy rq (list_faults_now proxy c) (exhausted proxy c) with
  | Err e => r = Err e /\ c' = c
  | Ok e => r = Ok (option_map (pair (ed_direction e)) (ed_reported e), wadd (rt_generation c) 1) /\ committed proxy e c c'
  end.

Lemma refused_early proxy rq c message : request_error rq = Some message ->
  alone (fault_call proxy rq) c = Some (Err (ControlInvalid message), c).
Proof.
  destruct rq as [u|id patch|id]; cbn; [| |done].
  - unfold add_fault, build_fault_spec. destruct (_ || _); [by intros [= <-]|].
    by destruct (probability_in_range (fu_probability u)); [|intros [= <-]].
  - unfold update_fault. destruct (fpt_probability patch) as [p|]; [|done].
    by destruct (probability_in_range p); [|intros [= <-]].
Qed.

Lemma unknown_proxy proxy rq c : request_error rq = None -> rt_proxies c !! proxy = None ->
  alone (fault_call proxy rq) c = Some (Err (ControlNotFound proxy), c).
Proof.
  intros V H. destruct rq as [u|id patch|id]; cbn [fault_call].
  - unfold add_fault. assert (B : build_fault_spec u = Ok (added u)).
    { cbn in V. unfold build_fault_spec, wire_fault_id, wire_probability, fault_id_new, probability_new.
      destruct ((str_len (fu_id u) =? 0) || (128 <? str_len (fu_id u))); [done|].
      by destruct (probability_in_range (fu_probability u)). }
    rewrite B. cbn. unfold add_fault_locked. by rewrite H.
  - unfold update_fault. cbn in V. destruct (fpt_probability patch) as [p|].
    + destruct (probability_in_range p); [|done]. cbn. unfold update_fault_locked. by rewrite H.
    + cbn. unfold update_fault_locked. by rewrite H.
  - cbn. unfold remove_fault_locked. by rewrite H.
Qed.

Ltac answered := do 2 eexists; split; [reflexivity|split; reflexivity].

Ltac go_alone := unfold locked, atomic; cbn [proc_bind alone fst snd].

Lemma fault_call_implements proxy rq c : control_ok c ->
  exists r c', alone (fault_call proxy rq) c = Some (r, c') /\ answers_spec proxy rq c r c'.
Proof.
  intros I. unfold answers_spec, fault_effect. destruct (request_error rq) as [message|] eqn:V.
  { do 2 eexists. split; [by apply refused_early|done]. }
  destruct (rt_proxies c !! proxy) as [entry|] eqn:H.
  2: { do 2 eexists. split; [by apply unknown_proxy|]. unfold list_faults_now. by rewrite H. }
  rewrite (live_lists proxy c entry H).
  destruct rq as [u|id patch|id]; cbn [fault_call].
  - destruct (add_implements proxy c I entry H u V) as (r & Hr & B & L). unfold add_fault. rewrite B. go_alone. rewrite L.
    unfold implements in Hr. destruct (edit_of _ _ _) as [e|er] eqn:E; [|subst r; answered].
    destruct (map_err _ (plan_validate _)); [|subst r; answered].
    destruct (exhausted _ _ _); [subst r; answered|]. destruct Hr as (c' & -> & C).
    do 2 eexists. split; [done|]. split; [|done]. cbn in E. destruct (decide _); [done|]. by injection E as <-.
  - destruct (update_implements proxy c I entry H id patch V) as (r & Hr & L).
    assert (A : update_fault proxy id patch = locked (update_fault_locked proxy id patch)).
    { unfold update_fault. cbn in V. destruct (fpt_probability patch) as [p|]; [|done]. by destruct (probability_in_range p). }
    rewrite A. go_alone. unfold implements in Hr. destruct (update_fault_locked proxy id patch c) as [[[[d f] g] c']|er].
    + destruct L as (-> & e & E & <- & R). rewrite E in *. destruct (map_err _ (plan_validate _)); [|done].
      destruct (exhausted _ _ _); [done|]. destruct Hr as (c2 & [= -> ->] & C). do 2 eexists. split; [done|].
      by rewrite R.
    + subst r. destruct (edit_of _ _ _) as [e|]; [|injection Hr as ->; answered].
      destruct (map_err _ (plan_validate _)); [|injection Hr as ->; answered].
      destruct (exhausted _ _ _); [injection Hr as ->; answered|]. by destruct Hr as (? & ? & ?).
  - pose proof (remove_implements proxy c I entry H id) as Hr. unfold remove_fault. go_alone. unfold implements in Hr.
    destruct (edit_of _ _ _) as [e|er] eqn:E; [|rewrite Hr; answered].
    destruct (map_err _ (plan_validate _)); [|rewrite Hr; answered].
    destruct (exhausted _ _ _); [rewrite Hr; answered|]. destruct Hr as (c' & -> & C).
    do 2 eexists. split; [done|]. split; [|done]. cbn in E. destruct (holder _ _); [|done]. by injection E as <-.
Qed.

(** C8: fault management implements its specification.  In every state the
    control plane can reach, [add_fault], [update_fault] and [remove_fault]
    answer exactly what the abstract edit of the proxy's two fault lists
    answers: the request's own error, an unknown proxy, a duplicate or unknown
    fault, an invalid resulting plan, or an exhausted policy, and then nothing
    changes; otherwise the edited list is published under the next generation
    and the same namespace of that one direction, its mirror follows, one
    generation of the service is taken, and no other direction, proxy or
    listener changes. *)
Theorem fault_management_implements_spec seed rs s proxy rq :
  rtc control_step (initial (control_new seed) rs) s ->
  exists r c', alone (fault_call proxy rq) (sys_control s) = Some (r, c') /\ answers_spec proxy rq (sys_control s) r c'.
Proof.
  intros H. apply fault_call_implements.
  exact (proj1 (pool_run _ _ _ (pool_initial _ rs (control_new_ok seed)) H)).
Qed.
