(* ===== verification/ControlDemo.v ===== *)
(** * Concrete runs of the control plane

    Interleavings in which a call hangs, a listener leaks or a request is
    undone, and the runs at which the theorems about every run are applied. *)

From Stdlib Require Import Bool SpecFloat.
From stdpp Require Import base list gmap strings sorting relations.
From S2P Require Import Prelude Rng Float64 Plan Policy Schedule Wire Server Tasks Control ControlInv ControlSafe ControlRun ControlSpec.

(** ** A flag nobody will set *)

(** An entry no supervisor was ever spawned for: what [import_definition]
    stores. *)
Record never_started (c : Control) (name : string) (e : ManagedProxy) : Prop := {
  ns_stored : rt_proxies c !! name = Some e;
  ns_flag : (mp_done e < length (rt_dones c))%nat;
  ns_unowned : forall h s, rt_supervisors c !! h = Some s -> sv_done s <> mp_done e
}.

Lemma unowned_never_done c d : control_ok c -> (forall h s, rt_supervisors c !! h = Some s -> sv_done s <> d) ->
  is_done c d = false.
Proof.
  intros I U. unfold is_done. destruct (rt_dones c !! d) as [[]|] eqn:E; [|done..].
  apply ok_done_flag in E as (h & s & H & D & _); [|done]. by destruct (U h s H).
Qed.

(** Awaiting it never ends. *)
Lemma unowned_wait_safe {A} name cancel d (k : proc A) (Q : A -> Control -> Prop) c :
  (d < length (rt_dones c))%nat -> (forall h s, rt_supervisors c !! h = Some s -> sv_done s <> d) ->
  safe control_ok anywhere guarantee guarantee (stop_supervisor name cancel d k) c Q.
Proof.
  intros L U c1 R1 I1. assert (W : good c1 (cancel_token cancel c1)) by (by apply good_frame).
  split; [apply W|]. split; [apply W|]. intros c2 R2 I2. split; [done|]. intros Wt. exfalso.
  assert (G : grows c c2).
  { etrans; [exact (rtc_grows _ _ _ gu_grows R1)|]. etrans; [apply W|]. exact (rtc_grows _ _ _ gu_grows R2). }
  cbn in Wt. rewrite (unowned_never_done c2 d I2) in Wt; [discriminate|]. by apply (gr_unowned _ _ G).
Qed.

Definition never (i j : nat) : response -> Control -> Prop := if Nat.eqb j i then fun _ _ => False else anything.

(** Deleting a proxy that was imported and never started does not return.
    [delete_proxy] removes the definition and then awaits the done flag of a
    supervisor that was never spawned; whatever happens afterwards, the call
    is never answered. *)
Theorem deleting_an_imported_proxy_hangs seed rs s s1 i name e :
  rtc control_step (initial (control_new seed) rs) s ->
  sys_calls s !! i = Some (call (RqDelete name)) -> never_started (sys_control s) name e ->
  sys_next (Call i) s = Some s1 ->
  rt_proxies (sys_control s1) !! name = None
  /\ forall s' r, rtc control_step s1 s' -> sys_calls s' !! i <> Some (Ret r).
Proof.
  intros H Hi [Hs Hf Hu] N. pose proof (pool_run _ _ _ (pool_initial _ rs (control_new_ok seed)) H) as P.
  pose proof P as [I S]. cbn [sys_next] in N. rewrite Hi in N. cbn in N. injection N as <-. cbn [sys_state sys_calls].
  rewrite Hs. cbn [fst snd]. split; [apply lookup_delete_eq|].
  assert (W : good (sys_control s) (set_proxies (delete name (rt_proxies (sys_control s))) (sys_control s)))
    by (by apply delete_proxy_good).
  match goal with |- forall s' r, rtc control_step ?s1 s' -> _ => assert (P1 : pool (never i) s1) end.
  { split; [apply W|]. intros j p Hj. cbn [sys_calls] in Hj. unfold never. destruct (Nat.eqb_spec j i) as [->|Hne].
    - rewrite list_lookup_insert_eq in Hj by (by eapply lookup_lt_Some). injection Hj as <-. cbn [sys_state].
      match goal with |- safe _ _ _ _ ?p _ _ =>
        change p with (stop_supervisor name (mp_cancel e) (mp_done e) (do! x := (do! g := bump in Ret (Ok g)) in Ret (RsGeneration x)))
      end. by apply unowned_wait_safe.
    - rewrite list_lookup_insert_ne in Hj by done. eapply safe_mono; [|by apply (S j p)]. apply rtc_once, W. }
  intros s' r H' Hr. destruct (pool_run _ _ _ P1 H') as [I' S']. specialize (S' i _ Hr (sys_control s') ltac:(done) I').
  unfold never in S'. by rewrite Nat.eqb_refl in S'.
Qed.

(** ** Races *)

(** Make one move of a run, then compute what is left of the state. *)
Tactic Notation "choose" uconstr(ch) := eapply rtc_l; [exists ch; reflexivity|]; cbn.
Ltac empty_map := unfold contains, proxy_count; cbn; rewrite ?lookup_empty, ?map_size_empty; change (MAX_PROXIES <=? Z.of_nat 0) with false; cbn.

(** A created proxy can be dead from the start.  [create_proxy] spawns
    the supervisor before it stores the definition, and a supervisor that
    finds no definition under its name exits; so for every definition the
    server accepts there is a run where the creation reports a running,
    bound proxy while its listener is closed and its only supervisor has
    finished. *)
Theorem created_proxy_can_be_dead seed p addr : proxy_spec_validate p = Ok tt ->
  exists s view g, rtc control_step (initial (control_new seed) [RqCreate p]) s
    /\ sys_calls s = [Ret (RsView (Ok (view, g)))]
    /\ pv_running view = true /\ pv_bound_addr view = Some addr
    /\ Forall (fun v => sv_phase v = SFinished) (rt_supervisors (sys_control s)).
Proof.
  intros V. destruct (init_policies_ok seed p V) as (up & down & E & _).
  do 3 eexists. split.
  - unfold initial. cbn. choose (Call 0). rewrite V. choose (Call 0). empty_map.
    choose (Answer 0 (Bound addr)). choose (Call 0). rewrite E. choose (Call 0).
    choose (Supervise 0 SupNext). choose (Supervise 0 SupNext). choose (Supervise 0 SupNext).
    choose (Call 0). empty_map. choose (Call 0). apply rtc_refl.
  - cbn. split; [reflexivity|]. split; [reflexivity|]. split; [reflexivity|]. by repeat constructor.
Qed.

(** ** Concrete runs

    One proxy; each run below is evaluated. *)
Definition loopback (port : Z) : SocketAddr := SocketV4 2130706433 port.
Definition web : ProxySpec := proxy_spec_new "web" (loopback 0) (loopback 8080).

Tactic Notation "reaches" uconstr(chs) := eapply (run_reaches chs); vm_compute; reflexivity.

(** Two enables at once leak a listener.  [start_stored] checks that the
    proxy is stopped before it binds and not again when it stores its
    supervisor, so two calls that enable a stopped proxy both spawn one and
    the entry keeps the second; after the proxy is deleted, every call
    answered with success, the first listener still accepts clients, under a
    scope nothing can cancel but the shutdown of the service. *)
Theorem concurrent_enables_leak_a_listener : exists s v entry,
  rtc control_step (initial (control_new 0) [RqImport web; RqSetEnabled "web" true; RqSetEnabled "web" true; RqDelete "web"]) s
  /\ sys_calls s = map (fun g => Ret (RsGeneration (Ok g))) [2; 3; 4; 5]
  /\ rt_proxies (sys_control s) = ∅
  /\ rt_supervisors (sys_control s) !! 0%nat = Some v /\ sv_phase v = SSelect entry
  /\ sv_listener v = loopback 5001 /\ scope_cancelled (sys_control s) v = false.
Proof.
  do 3 eexists. split.
  - reaches [Call 0; Call 1; Call 1; Answer 1 (Bound (loopback 5001)); Call 1; Call 1; Call 1;
             Call 2; Call 2; Answer 2 (Bound (loopback 5002)); Call 2; Call 2; Call 2;
             Supervise 0 SupNext; Call 1; Call 1; Call 2; Call 2; Call 3; Call 3;
             Supervise 1 SupNext; Supervise 1 SupNext; Supervise 1 SupNext; Call 3; Call 3; Call 3].
  - split_and!; by vm_compute.
Qed.

Definition listen_patch (a : SocketAddr) : ProxyPatch := {|
  pt_listen := Some a; pt_upstream := None; pt_max_connections := None; pt_connect_timeout_ms := None; pt_enabled := None |}.
Definition limit_patch (n : Z) : ProxyPatch := {|
  pt_listen := None; pt_upstream := None; pt_max_connections := Some (Some n); pt_connect_timeout_ms := None; pt_enabled := None |}.
Definition timeout_patch (ms : Z) : ProxyPatch := {|
  pt_listen := None; pt_upstream := None; pt_max_connections := None; pt_connect_timeout_ms := Some ms; pt_enabled := None |}.

(** The calls that create [web] and leave its supervisor in its loop. *)
Definition create_web : list (move control_event) :=
  [Call 0; Call 0; Answer 0 (Bound (loopback 5001)); Call 0; Call 0; Call 0; Call 0].

(** A disable can be lost.  [update_proxy] marks the entry stopped while
    it replaces the listener; a disable that arrives then finds the proxy
    stopped and reports success without touching it, and the update, which
    says nothing of [enabled], ends with the proxy enabled and serving.  In
    either order of the two calls alone the proxy ends disabled. *)
Theorem disable_during_restart_is_lost : exists s entry v,
  rtc control_step (initial (control_new 0) [RqCreate web; RqUpdate "web" (listen_patch (loopback 9090)); RqSetEnabled "web" false]) s
  /\ sys_calls s !! 2%nat = Some (Ret (RsGeneration (Ok 2)))
  /\ sys_calls s !! 1%nat = Some (Ret (RsView (Ok (v, 3))))
  /\ rt_proxies (sys_control s) !! "web"%string = Some entry
  /\ mp_running entry = true /\ ps_enabled (mp_spec entry) = true.
Proof.
  do 3 eexists. split.
  - reaches (create_web ++ [Call 1; Answer 1 (Bound (loopback 9090)); Call 1; Call 2; Call 1;
      Supervise 0 SupNext; Supervise 0 SupNext; Supervise 0 SupNext; Call 1; Call 1; Call 1; Call 1; Call 1; Call 1]).
  - split_and!; by vm_compute.
Qed.

(** Of two patches of different fields both can succeed and one be lost:
    [update_proxy] writes the whole definition it read earlier. *)
Theorem concurrent_patches_lose_one : exists s v1 v2 entry,
  rtc control_step (initial (control_new 0) [RqCreate web; RqUpdate "web" (limit_patch 5); RqUpdate "web" (timeout_patch 7)]) s
  /\ sys_calls s !! 1%nat = Some (Ret (RsView (Ok (v1, 3)))) /\ pv_max_connections v1 = Some 5
  /\ sys_calls s !! 2%nat = Some (Ret (RsView (Ok (v2, 4))))
  /\ rt_proxies (sys_control s) !! "web"%string = Some entry
  /\ ps_max_connections (mp_spec entry) = None /\ ps_connect_timeout (mp_spec entry) = duration_from_millis 7.
Proof.
  do 4 eexists. split.
  - reaches (create_web ++ [Call 1; Call 2; Call 1; Call 1; Call 2; Call 2]).
  - split_and!; by vm_compute.
Qed.

(** Of two concurrent shutdowns the second returns while the supervisors
    still run: the first has taken the tracked tasks and awaits them, the
    second finds nothing to await. *)
Theorem concurrent_shutdown_returns_early : exists s v entry,
  rtc control_step (initial (control_new 0) [RqCreate web; RqShutdown; RqShutdown]) s
  /\ sys_calls s !! 2%nat = Some (Ret RsStopped)
  /\ rt_supervisors (sys_control s) !! 0%nat = Some v /\ sv_phase v = SSelect entry.
Proof.
  do 3 eexists. split.
  - reaches (create_web ++ [Supervise 0 SupNext; Call 1; Call 1; Call 1; Call 2; Call 2; Call 2]).
  - split_and!; by vm_compute.
Qed.

(** * Instances of the theorems *)

Ltac by_running := apply end_of_reaches; vm_compute; reflexivity.

Definition fault_upsert (direction : Direction) (id : string) : FaultUpsert :=
  {| fu_direction := direction; fu_id := id; fu_probability := f64_of_Z 1; fu_kind := LimitData {| ld_bytes := 64 |} |}.

(** Create a proxy, add a fault, shut the service down. *)
Definition requests : list request := [RqCreate web; RqAddFault "web" (fault_upsert Upstream "lag"); RqShutdown].
Definition before_the_fault : ControlSystem := end_of (create_web ++ [Supervise 0 SupNext]) (initial (control_new 7) requests).
Definition with_the_fault : ControlSystem := end_of [Call 1] before_the_fault.
Definition shut_down : ControlSystem :=
  end_of [Call 2; Call 2; Supervise 0 SupCancelled; Supervise 0 SupNext; Supervise 0 SupNext; Call 2; Call 2; Call 2]
    with_the_fault.

Lemma before_the_fault_reached : rtc control_step (initial (control_new 7) requests) before_the_fault.
Proof. by_running. Qed.
Lemma with_the_fault_reached : rtc control_step (initial (control_new 7) requests) with_the_fault.
Proof. etrans; [apply before_the_fault_reached|by_running]. Qed.
Lemma shut_down_reached : rtc control_step (initial (control_new 7) requests) shut_down.
Proof. etrans; [apply with_the_fault_reached|by_running]. Qed.

Lemma control_plane_invariant_witness :
  rtc control_step (initial (control_new 7) requests) with_the_fault /\ Panic ∉ sys_calls with_the_fault.
Proof.
  split; [apply with_the_fault_reached|].
  exact (proj2 (proj2 (control_plane_invariant 7 requests _ with_the_fault_reached))).
Defined.

Lemma fault_step : control_step before_the_fault with_the_fault.
Proof. exists (Call 1). apply (end_of_step (Call 1) before_the_fault). vm_compute. reflexivity. Qed.

Lemma publications_survive_witness : exists e e',
  rt_proxies (sys_control before_the_fault) !! "web"%string = Some e
  /\ rt_proxies (sys_control with_the_fault) !! "web"%string = Some e'
  /\ snapshots (ps_upstream_policy (mp_spec e)) `prefix_of` snapshots (ps_upstream_policy (mp_spec e'))
  /\ length (snapshots (ps_upstream_policy (mp_spec e))) = 1%nat
  /\ length (snapshots (ps_upstream_policy (mp_spec e'))) = 2%nat.
Proof.
  do 2 eexists. split; [vm_compute; reflexivity|]. split; [vm_compute; reflexivity|]. split; [|split; vm_compute; reflexivity].
  eapply (publications_survive 7 requests before_the_fault with_the_fault before_the_fault_reached) with (name := "web"%string);
    [apply fault_step|vm_compute; reflexivity..].
Defined.

Lemma shutdown_joins_every_task_witness :
  sys_calls shut_down !! 2%nat = Some (Ret RsStopped)
  /\ Forall (fun v => sv_phase v = SFinished) (rt_supervisors (sys_control shut_down)).
Proof.
  split; [vm_compute; reflexivity|].
  apply (shutdown_joins_every_task 7 requests 2 shut_down RsStopped); [reflexivity| |apply shut_down_reached|vm_compute; reflexivity|apply rtc_refl].
  intros [|[|[|j]]] H; [discriminate H..|reflexivity|]. by destruct j.
Defined.

(** The supervisor of [web] after the shutdown began. *)
Definition cancelled_control : Control := sys_control (end_of [Call 2; Call 2] with_the_fault).

Lemma cancelled_supervisors_stop_witness : exists v,
  rt_supervisors cancelled_control !! 0%nat = Some v /\ scope_cancelled cancelled_control v = true
  /\ (rank_of cancelled_control 0 <= 4)%nat.
Proof.
  eexists. split; [vm_compute; reflexivity|]. split; [vm_compute; reflexivity|].
  eapply (cancelled_supervisors_stop cancelled_control 0); vm_compute; reflexivity.
Defined.

(** An imported proxy whose deletion has begun. *)
Definition imported : ControlSystem := end_of [Call 0] (initial (control_new 7) [RqImport web; RqDelete "web"]).

Lemma deleting_an_imported_proxy_hangs_witness : let s1 := end_of [Call 1] imported in
  sys_next (Call 1) imported = Some s1 /\ rt_proxies (sys_control s1) !! "web"%string = None
  /\ forall s' r, rtc control_step s1 s' -> sys_calls s' !! 1%nat <> Some (Ret r).
Proof.
  assert (E : exists e, never_started (sys_control imported) "web" e).
  { eexists. split; [vm_compute; reflexivity|vm_compute; lia|]. intros h s H.
    assert (rt_supervisors (sys_control imported) = []) as E by (vm_compute; reflexivity). rewrite E in H. discriminate H. }
  destruct E as [e E]. intros s1.
  assert (N : sys_next (Call 1) imported = Some s1) by (apply end_of_step; vm_compute; reflexivity).
  split; [exact N|].
  apply (deleting_an_imported_proxy_hangs 7 [RqImport web; RqDelete "web"] imported s1 1 "web"%string e); [by_running|reflexivity|exact E|exact N].
Defined.

Lemma created_proxy_can_be_dead_witness : proxy_spec_validate web = Ok tt /\
  exists s view g, rtc control_step (initial (control_new 7) [RqCreate web]) s
    /\ sys_calls s = [Ret (RsView (Ok (view, g)))]
    /\ pv_running view = true /\ pv_bound_addr view = Some (loopback 5001)
    /\ Forall (fun v => sv_phase v = SFinished) (rt_supervisors (sys_control s)).
Proof. split; [vm_compute; reflexivity|]. apply (created_proxy_can_be_dead 7 web). vm_compute. reflexivity. Defined.

(** Adding the fault again is refused, removing it is not. *)
Lemma fault_management_implements_spec_witness :
  (exists e, fault_effect "web" (RemoveFault "lag") (list_faults_now "web" (sys_control with_the_fault))
     (exhausted "web" (sys_control with_the_fault)) = Ok e /\ ed_direction e = Upstream /\ ed_faults e = [])
  /\ fault_effect "web" (AddFault (fault_upsert Upstream "lag")) (list_faults_now "web" (sys_control with_the_fault))
     (exhausted "web" (sys_control with_the_fault)) = Err (ControlConflict "fault lag already exists on web/upstream")
  /\ exists r c', alone (fault_call "web" (RemoveFault "lag")) (sys_control with_the_fault) = Some (r, c')
       /\ answers_spec "web" (RemoveFault "lag") (sys_control with_the_fault) r c'.
Proof.
  split; [eexists; split; [vm_compute; reflexivity|by vm_compute]|]. split; [vm_compute; reflexivity|].
  exact (fault_management_implements_spec 7 requests _ "web" (RemoveFault "lag") with_the_fault_reached).
Defined.
