(* ===== verification/UdpState.v ===== *)
(** * Definitions, state and listeners of the datagram runtime
      ([crates/eggchaos-server/src/runtime/datagram]: [model.rs], [mod.rs],
      [registry.rs], [association.rs], [supervisor.rs])

    Limits, definitions, their validation and errors; then the structures the
    tasks share.  What [Arc]s share is memory: a proxy state, a listener task,
    a capacity lease, a setup reservation or an association is a position in
    the list that holds it.  Each operation here runs under one lock of the
    code, so it is one function on the state.

    Then the listener tasks: one move for each stretch of code under one lock
    or between two awaits.  Workers appear as what the rest of the runtime sees
    of them: they take datagrams, write their counters and end when cancelled. *)

From Stdlib Require Import Bool.
From stdpp Require Import base list gmap strings.
From S2P Require Import Prelude Rng Float64 Plan Policy Env DatagramPlan DatagramState Schedule Wire Server.

Abbreviation DatagramLivePolicy := (ArcSwap DatagramPlan).

(** Clients are keys of the association table. *)
#[export] Instance SocketAddr_countable : Countable SocketAddr.
Proof.
  refine (inj_countable'
    (fun a => match a with SocketV4 ip port => inl (ip, port) | SocketV6 ip port f s => inr (ip, port, f, s) end)
    (fun x => match x with inl (ip, port) => SocketV4 ip port | inr (ip, port, f, s) => SocketV6 ip port f s end) _).
  by intros [].
Defined.

Definition MAX_DATAGRAM_ASSOCIATIONS : Z := 65536.
Definition MAX_DATAGRAM_PROXIES : Z := 1024.
Definition MAX_ASSOCIATION_HISTORY : Z := 65536.
Definition MAX_INGRESS_QUEUE : Z := 1024.
Definition MAX_INGRESS_BUFFER_BYTES : Z := 1073741824.
Definition MAX_IDLE_TIMEOUT : Duration := 86400 * NANOS_PER_SEC.

(** ** Errors *)

Inductive DatagramRuntimeError :=
| DgInvalid (message : string)
| DgDuplicate (name : string)
| DgNotFound (name : string)
| DgBind (source : string)
| AssociationLimit
| DgConflict (message : string).

Definition datagram_error_display (e : DatagramRuntimeError) : string :=
  match e with
  | DgInvalid m => "invalid datagram proxy: " +:+ m
  | DgDuplicate n => "datagram proxy already exists: " +:+ n
  | DgNotFound n => "datagram proxy not found: " +:+ n
  | DgBind s => "datagram proxy listener bind failed: " +:+ s
  | AssociationLimit => "datagram runtime has reached its association limit"
  | DgConflict m => "datagram policy conflict: " +:+ m
  end.

(** [map_datagram_error] of [control.rs]. *)
Definition map_datagram_error (e : DatagramRuntimeError) : ControlError :=
  match e with
  | DgInvalid message => ControlInvalid message
  | DgDuplicate name => ControlConflict ("datagram proxy " +:+ name +:+ " already exists")
  | DgNotFound name => ControlNotFound name
  | DgBind source => BindFailed "datagram" source
  | AssociationLimit => ControlInvalid "datagram association limit reached"
  | DgConflict message => ControlConflict message
  end.

(** ** Limits *)

Record DatagramRuntimeLimits := {
  dl_max_proxies : Z;
  dl_max_associations : Z;
  dl_history : Z;
  dl_ingress_per_association : Z;
  dl_max_ingress_queue_bytes : Z
}.
Definition runtime_limits_default : DatagramRuntimeLimits := {|
  dl_max_proxies := 128; dl_max_associations := 4096; dl_history := 1024;
  dl_ingress_per_association := 16; dl_max_ingress_queue_bytes := 64 * 1024 * 1024
|}.

Definition runtime_limits_validate (l : DatagramRuntimeLimits) : result DatagramRuntimeLimits DatagramRuntimeError :=
  if (dl_max_proxies l =? 0) || (MAX_DATAGRAM_PROXIES <? dl_max_proxies l)
  then Err (DgInvalid "max_proxies must be 1..=1024")
  else if (dl_max_associations l =? 0) || (MAX_DATAGRAM_ASSOCIATIONS <? dl_max_associations l)
  then Err (DgInvalid "max_associations must be 1..=65536")
  else if MAX_ASSOCIATION_HISTORY <? dl_history l
  then Err (DgInvalid "history exceeds 65536 entries")
  else if (dl_ingress_per_association l =? 0) || (MAX_INGRESS_QUEUE <? dl_ingress_per_association l)
  then Err (DgInvalid "ingress_per_association must be 1..=1024")
  else if (dl_max_ingress_queue_bytes l =? 0) || (MAX_INGRESS_BUFFER_BYTES <? dl_max_ingress_queue_bytes l)
  then Err (DgInvalid "max_ingress_queue_bytes must be 1..=1073741824")
  else Ok l.

Definition runtime_datagram_limits (c : DatagramRuntimeConfigV1) : result DatagramRuntimeLimits string :=
  map_err datagram_error_display (runtime_limits_validate {|
    dl_max_proxies := rd_max_proxies c; dl_max_associations := rd_max_associations c; dl_history := rd_history c;
    dl_ingress_per_association := rd_ingress_per_association c;
    dl_max_ingress_queue_bytes := rd_max_ingress_queue_bytes c |}).

(** ** Definitions *)

Record DatagramProxySpec := {
  ds_name : string;
  ds_listen : SocketAddr;
  ds_upstream : SocketAddr;
  ds_max_associations : Z;
  ds_idle_timeout : Duration;
  ds_queue_limits : DatagramQueueLimits;
  ds_upstream_policy : DatagramLivePolicy;
  ds_downstream_policy : DatagramLivePolicy;
  ds_seed : Z
}.

Definition datagram_spec_new (name : string) (listen upstream : SocketAddr) (limits : DatagramQueueLimits)
    : result DatagramProxySpec DatagramRuntimeError :=
  let? limits := map_err DgInvalid (limits_validate limits) in
  let? up := map_err DgInvalid (Live.new dplan_empty 0) in
  let? down := map_err DgInvalid (Live.new dplan_empty 0) in
  Ok {| ds_name := name; ds_listen := listen; ds_upstream := upstream; ds_max_associations := 256;
        ds_idle_timeout := 60 * NANOS_PER_SEC; ds_queue_limits := limits;
        ds_upstream_policy := up; ds_downstream_policy := down; ds_seed := 0 |}.

Definition port_of (a : SocketAddr) : Z := match a with SocketV4 _ port => port | SocketV6 _ port _ _ => port end.

(** The current plan of a cell, which is never empty. *)
Definition dload (cell : DatagramLivePolicy) : PublishedPolicy DatagramPlan :=
  match snapshot cell with
  | Some p => p
  | None => {| generation := 1; pub_plan := dplan_empty; seed_namespace := 0 |}
  end.

Definition datagram_spec_validate (s : DatagramProxySpec) (global_associations : Z) : result unit DatagramRuntimeError :=
  if (str_len (ds_name s) =? 0) || (128 <? str_len (ds_name s)) || negb (forallb name_byte (as_bytes (ds_name s)))
  then Err (DgInvalid "proxy name must match [A-Za-z0-9._-]+ and be 1..=128 bytes")
  else if (ds_max_associations s =? 0) || (global_associations <? ds_max_associations s)
  then Err (DgInvalid "per-proxy associations must be nonzero and no greater than the global limit")
  else if (ds_idle_timeout s <? 1000000) || (MAX_IDLE_TIMEOUT <? ds_idle_timeout s)
  then Err (DgInvalid "association idle timeout must be 1 ms..=24 hours")
  else
    let? _l := map_err DgInvalid (limits_validate (ds_queue_limits s)) in
    let? _u := map_err DgInvalid (dplan_validate (pub_plan (dload (ds_upstream_policy s)))) in
    let? _d := map_err DgInvalid (dplan_validate (pub_plan (dload (ds_downstream_policy s)))) in
    if (port_of (ds_upstream s) =? 0) || is_unspecified (ds_upstream s) || is_multicast (ds_upstream s)
       || is_broadcast (ds_upstream s)
    then Err (DgInvalid "upstream must be a concrete unicast socket address with a nonzero port")
    else if is_multicast (ds_listen s) || is_broadcast (ds_listen s)
    then Err (DgInvalid "listen address must be unicast or unspecified")
    else Ok tt.

(** Replace the settings of a definition and keep its cells. *)
Definition set_ds_policies (up down : DatagramLivePolicy) (s : DatagramProxySpec) : DatagramProxySpec := {|
  ds_name := ds_name s; ds_listen := ds_listen s; ds_upstream := ds_upstream s;
  ds_max_associations := ds_max_associations s; ds_idle_timeout := ds_idle_timeout s;
  ds_queue_limits := ds_queue_limits s; ds_upstream_policy := up; ds_downstream_policy := down; ds_seed := ds_seed s
|}.

Definition datagram_request_into_spec (r : NativeDatagramProxyRequestV1) : result DatagramProxySpec string :=
  let? parts := request_into_core_parts r in
  let? spec := map_err datagram_error_display
    (datagram_spec_new (dc_name parts) (dc_listen parts) (dc_upstream parts) (dc_queue_limits parts)) in
  let? up_plan := dplan_new (dc_upstream_faults parts) in
  let? up := Live.new up_plan (dc_seed parts) in
  let? down_plan := dplan_new (dc_downstream_faults parts) in
  let? down := Live.new down_plan (dc_seed parts) in
  let spec := {|
    ds_name := ds_name spec; ds_listen := ds_listen spec; ds_upstream := ds_upstream spec;
    ds_max_associations := dc_max_associations parts;
    ds_idle_timeout := duration_from_millis (dc_association_idle_timeout_ms parts);
    ds_queue_limits := ds_queue_limits spec; ds_upstream_policy := up; ds_downstream_policy := down;
    ds_seed := dc_seed parts
  |} in
  let? _u := map_err datagram_error_display (datagram_spec_validate spec 65536) in
  Ok spec.

(** * State *)

(** ** Associations *)

(** A datagram on its way to the worker: the reservation of its bytes is
    released when it is dropped. *)
Record Ingress := { in_payload : bytes; in_policy : PublishedPolicy DatagramPlan }.

Record AssociationRecord := {
  ar_id : Z;
  ar_proxy : string;
  ar_client : SocketAddr;
  ar_upstream : SocketAddr;
  ar_created : Instant;
  ar_last_activity : Instant;
  ar_ingress_datagrams : Z;
  ar_ingress_bytes : Z;
  ar_egress_datagrams : Z;
  ar_egress_bytes : Z;
  ar_ingress_queue_overflow : Z;
  ar_oversize_datagrams : Z;
  ar_administrative_discards : Z;
  ar_send_errors : Z;
  ar_upstream_evidence : DatagramEvidence;
  ar_downstream_evidence : DatagramEvidence
}.
Definition set_ar_last_activity (x : Instant) (r : AssociationRecord) : AssociationRecord := {|
  ar_id := ar_id r; ar_proxy := ar_proxy r; ar_client := ar_client r; ar_upstream := ar_upstream r;
  ar_created := ar_created r; ar_last_activity := x; ar_ingress_datagrams := ar_ingress_datagrams r;
  ar_ingress_bytes := ar_ingress_bytes r; ar_egress_datagrams := ar_egress_datagrams r;
  ar_egress_bytes := ar_egress_bytes r; ar_ingress_queue_overflow := ar_ingress_queue_overflow r;
  ar_oversize_datagrams := ar_oversize_datagrams r; ar_administrative_discards := ar_administrative_discards r;
  ar_send_errors := ar_send_errors r; ar_upstream_evidence := ar_upstream_evidence r;
  ar_downstream_evidence := ar_downstream_evidence r |}.
Definition set_ar_ingress_datagrams (x : Z) (r : AssociationRecord) : AssociationRecord := {|
  ar_id := ar_id r; ar_proxy := ar_proxy r; ar_client := ar_client r; ar_upstream := ar_upstream r;
  ar_created := ar_created r; ar_last_activity := ar_last_activity r; ar_ingress_datagrams := x;
  ar_ingress_bytes := ar_ingress_bytes r; ar_egress_datagrams := ar_egress_datagrams r;
  ar_egress_bytes := ar_egress_bytes r; ar_ingress_queue_overflow := ar_ingress_queue_overflow r;
  ar_oversize_datagrams := ar_oversize_datagrams r; ar_administrative_discards := ar_administrative_discards r;
  ar_send_errors := ar_send_errors r; ar_upstream_evidence := ar_upstream_evidence r;
  ar_downstream_evidence := ar_downstream_evidence r |}.
Definition set_ar_ingress_bytes (x : Z) (r : AssociationRecord) : AssociationRecord := {|
  ar_id := ar_id r; ar_proxy := ar_proxy r; ar_client := ar_client r; ar_upstream := ar_upstream r;
  ar_created := ar_created r; ar_last_activity := ar_last_activity r;
  ar_ingress_datagrams := ar_ingress_datagrams r; ar_ingress_bytes := x;
  ar_egress_datagrams := ar_egress_datagrams r; ar_egress_bytes := ar_egress_bytes r;
  ar_ingress_queue_overflow := ar_ingress_queue_overflow r; ar_oversize_datagrams := ar_oversize_datagrams r;
  ar_administrative_discards := ar_administrative_discards r; ar_send_errors := ar_send_errors r;
  ar_upstream_evidence := ar_upstream_evidence r; ar_downstream_evidence := ar_downstream_evidence r |}.
Definition set_ar_ingress_queue_overflow (x : Z) (r : AssociationRecord) : AssociationRecord := {|
  ar_id := ar_id r; ar_proxy := ar_proxy r; ar_client := ar_client r; ar_upstream := ar_upstream r;
  ar_created := ar_created r; ar_last_activity := ar_last_activity r;
  ar_ingress_datagrams := ar_ingress_datagrams r; ar_ingress_bytes := ar_ingress_bytes r;
  ar_egress_datagrams := ar_egress_datagrams r; ar_egress_bytes := ar_egress_bytes r;
  ar_ingress_queue_overflow := x; ar_oversize_datagrams := ar_oversize_datagrams r;
  ar_administrative_discards := ar_administrative_discards r; ar_send_errors := ar_send_errors r;
  ar_upstream_evidence := ar_upstream_evidence r; ar_downstream_evidence := ar_downstream_evidence r |}.
Definition set_ar_oversize_datagrams (x : Z) (r : AssociationRecord) : AssociationRecord := {|
  ar_id := ar_id r; ar_proxy := ar_proxy r; ar_client := ar_client r; ar_upstream := ar_upstream r;
  ar_created := ar_created r; ar_last_activity := ar_last_activity r;
  ar_ingress_datagrams := ar_ingress_datagrams r; ar_ingress_bytes := ar_ingress_bytes r;
  ar_egress_datagrams := ar_egress_datagrams r; ar_egress_bytes := ar_egress_bytes r;
  ar_ingress_queue_overflow := ar_ingress_queue_overflow r; ar_oversize_datagrams := x;
  ar_administrative_discards := ar_administrative_discards r; ar_send_errors := ar_send_errors r;
  ar_upstream_evidence := ar_upstream_evidence r; ar_downstream_evidence := ar_downstream_evidence r |}.
Definition set_ar_administrative_discards (x : Z) (r : AssociationRecord) : AssociationRecord := {|
  ar_id := ar_id r; ar_proxy := ar_proxy r; ar_client := ar_client r; ar_upstream := ar_upstream r;
  ar_created := ar_created r; ar_last_activity := ar_last_activity r;
  ar_ingress_datagrams := ar_ingress_datagrams r; ar_ingress_bytes := ar_ingress_bytes r;
  ar_egress_datagrams := ar_egress_datagrams r; ar_egress_bytes := ar_egress_bytes r;
  ar_ingress_queue_overflow := ar_ingress_queue_overflow r; ar_oversize_datagrams := ar_oversize_datagrams r;
  ar_administrative_discards := x; ar_send_errors := ar_send_errors r;
  ar_upstream_evidence := ar_upstream_evidence r; ar_downstream_evidence := ar_downstream_evidence r |}.

(** [DatagramAssociationSnapshot]. *)
Record DatagramAssociationSnapshot := { av_record : AssociationRecord; av_age_ms : Z; av_idle_ms : Z }.
Definition millis_since (now earlier : Instant) : Z := Z.min (Z.max (now - earlier) 0 / 1000000) U64_MAX.
Definition record_snapshot (r : AssociationRecord) (now : Instant) : DatagramAssociationSnapshot := {|
  av_record := r; av_age_ms := millis_since now (ar_created r); av_idle_ms := millis_since now (ar_last_activity r)
|}.
Definition record_new (id : Z) (proxy : string) (client upstream : SocketAddr) (now : Instant) : AssociationRecord := {|
  ar_id := id; ar_proxy := proxy; ar_client := client; ar_upstream := upstream; ar_created := now;
  ar_last_activity := now; ar_ingress_datagrams := 0; ar_ingress_bytes := 0; ar_egress_datagrams := 0;
  ar_egress_bytes := 0; ar_ingress_queue_overflow := 0; ar_oversize_datagrams := 0; ar_administrative_discards := 0;
  ar_send_errors := 0; ar_upstream_evidence := devidence_default; ar_downstream_evidence := devidence_default
|}.

Record Association := {
  as_id : Z;
  as_proxy : nat;   (* the proxy state whose table and cap it belongs to *)
  as_client : SocketAddr;
  as_queue : list Ingress;   (* the channel to the worker *)
  as_hand : option Ingress;   (* what the worker took and still holds *)
  as_pending : Z;
  as_administrative : bool;
  as_cancelled : bool;
  as_ended : bool;   (* the worker returned *)
  as_lease : nat;
  as_record : AssociationRecord
}.
Definition set_as_queue (x : list Ingress) (a : Association) : Association := {|
  as_id := as_id a; as_proxy := as_proxy a; as_client := as_client a; as_queue := x; as_hand := as_hand a;
  as_pending := as_pending a; as_administrative := as_administrative a; as_cancelled := as_cancelled a;
  as_ended := as_ended a; as_lease := as_lease a; as_record := as_record a |}.
Definition set_as_hand (x : option Ingress) (a : Association) : Association := {|
  as_id := as_id a; as_proxy := as_proxy a; as_client := as_client a; as_queue := as_queue a; as_hand := x;
  as_pending := as_pending a; as_administrative := as_administrative a; as_cancelled := as_cancelled a;
  as_ended := as_ended a; as_lease := as_lease a; as_record := as_record a |}.
Definition set_as_pending (x : Z) (a : Association) : Association := {|
  as_id := as_id a; as_proxy := as_proxy a; as_client := as_client a; as_queue := as_queue a;
  as_hand := as_hand a; as_pending := x; as_administrative := as_administrative a;
  as_cancelled := as_cancelled a; as_ended := as_ended a; as_lease := as_lease a; as_record := as_record a |}.
Definition set_as_administrative (x : bool) (a : Association) : Association := {|
  as_id := as_id a; as_proxy := as_proxy a; as_client := as_client a; as_queue := as_queue a;
  as_hand := as_hand a; as_pending := as_pending a; as_administrative := x; as_cancelled := as_cancelled a;
  as_ended := as_ended a; as_lease := as_lease a; as_record := as_record a |}.
Definition set_as_cancelled (x : bool) (a : Association) : Association := {|
  as_id := as_id a; as_proxy := as_proxy a; as_client := as_client a; as_queue := as_queue a;
  as_hand := as_hand a; as_pending := as_pending a; as_administrative := as_administrative a;
  as_cancelled := x; as_ended := as_ended a; as_lease := as_lease a; as_record := as_record a |}.
Definition set_as_ended (x : bool) (a : Association) : Association := {|
  as_id := as_id a; as_proxy := as_proxy a; as_client := as_client a; as_queue := as_queue a;
  as_hand := as_hand a; as_pending := as_pending a; as_administrative := as_administrative a;
  as_cancelled := as_cancelled a; as_ended := x; as_lease := as_lease a; as_record := as_record a |}.
Definition set_as_record (x : AssociationRecord) (a : Association) : Association := {|
  as_id := as_id a; as_proxy := as_proxy a; as_client := as_client a; as_queue := as_queue a;
  as_hand := as_hand a; as_pending := as_pending a; as_administrative := as_administrative a;
  as_cancelled := as_cancelled a; as_ended := as_ended a; as_lease := as_lease a; as_record := x |}.

(** ** Capacity and setup *)

Record CapacityLease := { le_proxy : nat; le_released : bool }.

Inductive SetupOutcome := SetupStarting | SetupPublished | SetupAbandoned (retryable : bool).
Record StartingReservation := { rv_outcome : SetupOutcome; rv_lease : nat }.
Definition terminal (o : SetupOutcome) : bool := match o with SetupStarting => false | _ => true end.

Inductive Slot :=
| Starting (reservation : nat)
| Active (association : nat).

(** ** Proxies and their listeners *)

Record ProxyState := {
  px_spec : DatagramProxySpec;
  px_table : gmap SocketAddr Slot;
  px_active : Z;   (* proxy_active *)
  px_oversize : Z;
  px_rejections : Z;   (* capacity_rejections *)
  px_overflow : Z;   (* ingress_overflow *)
  px_failures : Z   (* association_setup_failures *)
}.
Definition set_px_spec (x : DatagramProxySpec) (p : ProxyState) : ProxyState := {|
  px_spec := x; px_table := px_table p; px_active := px_active p; px_oversize := px_oversize p;
  px_rejections := px_rejections p; px_overflow := px_overflow p; px_failures := px_failures p |}.
Definition set_px_table (x : gmap SocketAddr Slot) (p : ProxyState) : ProxyState := {|
  px_spec := px_spec p; px_table := x; px_active := px_active p; px_oversize := px_oversize p;
  px_rejections := px_rejections p; px_overflow := px_overflow p; px_failures := px_failures p |}.
Definition set_px_active (x : Z) (p : ProxyState) : ProxyState := {|
  px_spec := px_spec p; px_table := px_table p; px_active := x; px_oversize := px_oversize p;
  px_rejections := px_rejections p; px_overflow := px_overflow p; px_failures := px_failures p |}.
Definition set_px_oversize (x : Z) (p : ProxyState) : ProxyState := {|
  px_spec := px_spec p; px_table := px_table p; px_active := px_active p; px_oversize := x;
  px_rejections := px_rejections p; px_overflow := px_overflow p; px_failures := px_failures p |}.
Definition set_px_rejections (x : Z) (p : ProxyState) : ProxyState := {|
  px_spec := px_spec p; px_table := px_table p; px_active := px_active p; px_oversize := px_oversize p;
  px_rejections := x; px_overflow := px_overflow p; px_failures := px_failures p |}.
Definition set_px_overflow (x : Z) (p : ProxyState) : ProxyState := {|
  px_spec := px_spec p; px_table := px_table p; px_active := px_active p; px_oversize := px_oversize p;
  px_rejections := px_rejections p; px_overflow := x; px_failures := px_failures p |}.
Definition set_px_failures (x : Z) (p : ProxyState) : ProxyState := {|
  px_spec := px_spec p; px_table := px_table p; px_active := px_active p; px_oversize := px_oversize p;
  px_rejections := px_rejections p; px_overflow := px_overflow p; px_failures := x |}.

(** Where a listener task is.  The datagram it carries is the one it
    received. *)
Inductive ListenerPhase :=
| LSelect                                                            (* awaiting cancellation, a datagram or the reaper *)
| LResolve (client : SocketAddr) (payload : bytes)                   (* the read-locked lookup *)
| LLookup (client : SocketAddr) (payload : bytes)                    (* the write-locked lookup *)
| LWait (client : SocketAddr) (payload : bytes) (r : nat)            (* another task sets the association up *)
| LSetup (client : SocketAddr) (payload : bytes) (r : nat) (spec : DatagramProxySpec)   (* binding, connecting *)
| LPublish (client : SocketAddr) (payload : bytes) (r a : nat)       (* the worker runs *)
| LAbandon (a : nat)                                                 (* drained during setup: joining the worker *)
| LSend (client : SocketAddr) (payload : bytes) (a : nat)            (* resolved *)
| LReap (expired : list (SocketAddr * nat))                          (* idle associations still to remove *)
| LExit                                                              (* left the loop *)
| LDrain (rest : list nat)                                           (* drained associations still to stop *)
| LStop (a : nat) (administrative : bool) (next : ListenerPhase)     (* [stop_association] is called *)
| LJoin (a : nat) (next : ListenerPhase)                             (* and joins the worker *)
| LDone.

Record Listener := {
  lo_state : nat;
  lo_bound : SocketAddr;
  lo_cancelled : bool;   (* its token *)
  lo_drain_on_exit : bool;
  lo_phase : ListenerPhase
}.
Definition set_lo_cancelled (x : bool) (l : Listener) : Listener := {|
  lo_state := lo_state l; lo_bound := lo_bound l; lo_cancelled := x; lo_drain_on_exit := lo_drain_on_exit l;
  lo_phase := lo_phase l |}.
Definition set_lo_drain_on_exit (x : bool) (l : Listener) : Listener := {|
  lo_state := lo_state l; lo_bound := lo_bound l; lo_cancelled := lo_cancelled l; lo_drain_on_exit := x;
  lo_phase := lo_phase l |}.
Definition set_lo_phase (x : ListenerPhase) (l : Listener) : Listener := {|
  lo_state := lo_state l; lo_bound := lo_bound l; lo_cancelled := lo_cancelled l;
  lo_drain_on_exit := lo_drain_on_exit l; lo_phase := x |}.

Record ManagedDatagram := {
  mg_state : nat;
  mg_listener : option nat;
  mg_cancel_start : bool
}.

(** [RuntimeInner] of the datagram runtime, and the memory. *)
Record Datagrams := {
  dr_limits : DatagramRuntimeLimits;
  dr_proxies : gmap string ManagedDatagram;
  dr_states : list ProxyState;
  dr_listeners : list Listener;
  dr_leases : list CapacityLease;
  dr_reservations : list StartingReservation;
  dr_associations : list Association;
  dr_active : Z;   (* active_associations *)
  dr_next_association : Z;
  dr_buffered : Z;   (* ingress_buffered_bytes *)
  dr_history : list DatagramAssociationSnapshot;
  dr_clock : Instant   (* what [Instant::now()] reads *)
}.
Definition set_dr_proxies (x : gmap string ManagedDatagram) (s : Datagrams) : Datagrams := {|
  dr_limits := dr_limits s; dr_proxies := x; dr_states := dr_states s; dr_listeners := dr_listeners s;
  dr_leases := dr_leases s; dr_reservations := dr_reservations s; dr_associations := dr_associations s;
  dr_active := dr_active s; dr_next_association := dr_next_association s; dr_buffered := dr_buffered s;
  dr_history := dr_history s; dr_clock := dr_clock s |}.
Definition set_dr_states (x : list ProxyState) (s : Datagrams) : Datagrams := {|
  dr_limits := dr_limits s; dr_proxies := dr_proxies s; dr_states := x; dr_listeners := dr_listeners s;
  dr_leases := dr_leases s; dr_reservations := dr_reservations s; dr_associations := dr_associations s;
  dr_active := dr_active s; dr_next_association := dr_next_association s; dr_buffered := dr_buffered s;
  dr_history := dr_history s; dr_clock := dr_clock s |}.
Definition set_dr_listeners (x : list Listener) (s : Datagrams) : Datagrams := {|
  dr_limits := dr_limits s; dr_proxies := dr_proxies s; dr_states := dr_states s; dr_listeners := x;
  dr_leases := dr_leases s; dr_reservations := dr_reservations s; dr_associations := dr_associations s;
  dr_active := dr_active s; dr_next_association := dr_next_association s; dr_buffered := dr_buffered s;
  dr_history := dr_history s; dr_clock := dr_clock s |}.
Definition set_dr_leases (x : list CapacityLease) (s : Datagrams) : Datagrams := {|
  dr_limits := dr_limits s; dr_proxies := dr_proxies s; dr_states := dr_states s;
  dr_listeners := dr_listeners s; dr_leases := x; dr_reservations := dr_reservations s;
  dr_associations := dr_associations s; dr_active := dr_active s; dr_next_association := dr_next_association s;
  dr_buffered := dr_buffered s; dr_history := dr_history s; dr_clock := dr_clock s |}.
Definition set_dr_reservations (x : list StartingReservation) (s : Datagrams) : Datagrams := {|
  dr_limits := dr_limits s; dr_proxies := dr_proxies s; dr_states := dr_states s;
  dr_listeners := dr_listeners s; dr_leases := dr_leases s; dr_reservations := x;
  dr_associations := dr_associations s; dr_active := dr_active s; dr_next_association := dr_next_association s;
  dr_buffered := dr_buffered s; dr_history := dr_history s; dr_clock := dr_clock s |}.
Definition set_dr_associations (x : list Association) (s : Datagrams) : Datagrams := {|
  dr_limits := dr_limits s; dr_proxies := dr_proxies s; dr_states := dr_states s;
  dr_listeners := dr_listeners s; dr_leases := dr_leases s; dr_reservations := dr_reservations s;
  dr_associations := x; dr_active := dr_active s; dr_next_association := dr_next_association s;
  dr_buffered := dr_buffered s; dr_history := dr_history s; dr_clock := dr_clock s |}.
Definition set_dr_active (x : Z) (s : Datagrams) : Datagrams := {|
  dr_limits := dr_limits s; dr_proxies := dr_proxies s; dr_states := dr_states s;
  dr_listeners := dr_listeners s; dr_leases := dr_leases s; dr_reservations := dr_reservations s;
  dr_associations := dr_associations s; dr_active := x; dr_next_association := dr_next_association s;
  dr_buffered := dr_buffered s; dr_history := dr_history s; dr_clock := dr_clock s |}.
Definition set_dr_next_association (x : Z) (s : Datagrams) : Datagrams := {|
  dr_limits := dr_limits s; dr_proxies := dr_proxies s; dr_states := dr_states s;
  dr_listeners := dr_listeners s; dr_leases := dr_leases s; dr_reservations := dr_reservations s;
  dr_associations := dr_associations s; dr_active := dr_active s; dr_next_association := x;
  dr_buffered := dr_buffered s; dr_history := dr_history s; dr_clock := dr_clock s |}.
Definition set_dr_buffered (x : Z) (s : Datagrams) : Datagrams := {|
  dr_limits := dr_limits s; dr_proxies := dr_proxies s; dr_states := dr_states s;
  dr_listeners := dr_listeners s; dr_leases := dr_leases s; dr_reservations := dr_reservations s;
  dr_associations := dr_associations s; dr_active := dr_active s; dr_next_association := dr_next_association s;
  dr_buffered := x; dr_history := dr_history s; dr_clock := dr_clock s |}.
Definition set_dr_history (x : list DatagramAssociationSnapshot) (s : Datagrams) : Datagrams := {|
  dr_limits := dr_limits s; dr_proxies := dr_proxies s; dr_states := dr_states s;
  dr_listeners := dr_listeners s; dr_leases := dr_leases s; dr_reservations := dr_reservations s;
  dr_associations := dr_associations s; dr_active := dr_active s; dr_next_association := dr_next_association s;
  dr_buffered := dr_buffered s; dr_history := x; dr_clock := dr_clock s |}.
Definition set_dr_clock (x : Instant) (s : Datagrams) : Datagrams := {|
  dr_limits := dr_limits s; dr_proxies := dr_proxies s; dr_states := dr_states s;
  dr_listeners := dr_listeners s; dr_leases := dr_leases s; dr_reservations := dr_reservations s;
  dr_associations := dr_associations s; dr_active := dr_active s; dr_next_association := dr_next_association s;
  dr_buffered := dr_buffered s; dr_history := dr_history s; dr_clock := x |}.

Definition datagrams_new (limits : DatagramRuntimeLimits) : Datagrams := {|
  dr_limits := limits; dr_proxies := ∅; dr_states := []; dr_listeners := []; dr_leases := []; dr_reservations := [];
  dr_associations := []; dr_active := 0; dr_next_association := 1; dr_buffered := 0; dr_history := [];
  dr_clock := 0
|}.

(** ** Updates in place *)

Definition on_state (p : nat) (f : ProxyState -> ProxyState) (s : Datagrams) : Datagrams :=
  set_dr_states (alter f p (dr_states s)) s.
Definition on_association (a : nat) (f : Association -> Association) (s : Datagrams) : Datagrams :=
  set_dr_associations (alter f a (dr_associations s)) s.
Definition on_record (a : nat) (f : AssociationRecord -> AssociationRecord) (s : Datagrams) : Datagrams :=
  on_association a (fun x => set_as_record (f (as_record x)) x) s.
Definition on_listener (o : nat) (f : Listener -> Listener) (s : Datagrams) : Datagrams :=
  set_dr_listeners (alter f o (dr_listeners s)) s.
Definition to_phase (o : nat) (ph : ListenerPhase) (s : Datagrams) : Datagrams := on_listener o (set_lo_phase ph) s.
Definition cancel_listener (o : nat) (s : Datagrams) : Datagrams := on_listener o (set_lo_cancelled true) s.
Definition keep_on_exit (o : nat) (s : Datagrams) : Datagrams := on_listener o (set_lo_drain_on_exit false) s.

Definition table_of (p : nat) (s : Datagrams) : gmap SocketAddr Slot :=
  match dr_states s !! p with Some x => px_table x | None => ∅ end.
Definition set_table (p : nat) (t : gmap SocketAddr Slot) (s : Datagrams) : Datagrams := on_state p (set_px_table t) s.

Definition put_managed (name : string) (m : ManagedDatagram) (s : Datagrams) : Datagrams :=
  set_dr_proxies (<[name := m]> (dr_proxies s)) s.
Definition state_new (spec : DatagramProxySpec) : ProxyState := {|
  px_spec := spec; px_table := ∅; px_active := 0; px_oversize := 0; px_rejections := 0; px_overflow := 0;
  px_failures := 0 |}.

(** [fetch_add(1)] of a [u64] counter. *)
Definition bump (x : Z) : Z := wadd x 1.

(** ** Capacity ([CapacityLease]) *)

Definition try_acquire (p : nat) (s : Datagrams) : option (nat * Datagrams) :=
  match dr_states s !! p with
  | None => None
  | Some x =>
      if (px_active x + 1 <=? USIZE_MAX) && (px_active x + 1 <=? ds_max_associations (px_spec x)) then
        if (dr_active s + 1 <=? USIZE_MAX) && (dr_active s + 1 <=? dl_max_associations (dr_limits s)) then
          let s := on_state p (set_px_active (px_active x + 1)) s in
          let s := set_dr_active (dr_active s + 1) s in
          Some (length (dr_leases s), set_dr_leases (dr_leases s ++ [{| le_proxy := p; le_released := false |}]) s)
        else None
      else None
  end.

Definition release (l : nat) (s : Datagrams) : Datagrams :=
  match dr_leases s !! l with
  | None => s
  | Some x =>
      if le_released x then s
      else
        let s := set_dr_leases (<[l := {| le_proxy := le_proxy x; le_released := true |}]> (dr_leases s)) s in
        let s := set_dr_active (dr_active s - 1) s in
        on_state (le_proxy x) (fun p => set_px_active (px_active p - 1) p) s
  end.

(** ** Setup ([StartingReservation]) *)

Definition reservation_new (lease : nat) (s : Datagrams) : nat * Datagrams :=
  (length (dr_reservations s),
   set_dr_reservations (dr_reservations s ++ [{| rv_outcome := SetupStarting; rv_lease := lease |}]) s).

(** Only the first transition counts. *)
Definition transition (r : nat) (o : SetupOutcome) (s : Datagrams) : Datagrams :=
  set_dr_reservations
    (alter (fun x => if terminal (rv_outcome x) then x else {| rv_outcome := o; rv_lease := rv_lease x |}) r (dr_reservations s)) s.
Definition is_terminal (r : nat) (s : Datagrams) : bool :=
  match dr_reservations s !! r with Some x => terminal (rv_outcome x) | None => false end.
Definition release_reservation (r : nat) (s : Datagrams) : Datagrams :=
  match dr_reservations s !! r with Some x => release (rv_lease x) s | None => s end.

Definition same_reservation (slot : option Slot) (r : nat) : bool :=
  match slot with Some (Starting r') => Nat.eqb r' r | _ => false end.

Definition abandon_starting (p : nat) (client : SocketAddr) (r : nat) (retryable : bool) (s : Datagrams) : Datagrams :=
  let t := table_of p s in
  let s := if same_reservation (t !! client) r then set_table p (delete client t) s else s in
  release_reservation r (transition r (SetupAbandoned retryable) s).

(** [drain_associations]: the active ones are returned. *)
Definition drain_slot (retryable : bool) (s : Datagrams) (slot : Slot) : Datagrams :=
  match slot with
  | Starting r => release_reservation r (transition r (SetupAbandoned retryable) s)
  | Active _ => s
  end.
Definition active_of (slot : Slot) : option nat := match slot with Active a => Some a | Starting _ => None end.
Definition drain_associations (p : nat) (retryable : bool) (s : Datagrams) : list nat * Datagrams :=
  let slots := map snd (map_to_list (table_of p s)) in
  (omap active_of slots, foldl (drain_slot retryable) (set_table p ∅ s) slots).

(** ** Stopping ([stop_association], around the join of the worker) *)

Definition begin_stop (a : nat) (administrative : bool) (s : Datagrams) : Datagrams :=
  on_association a (fun x => set_as_cancelled true
    (if administrative then set_as_administrative true x else x)) s.
(** [while history.len() >= limit { pop_front }] then [push_back]. *)
Definition retain (limit : Z) (x : DatagramAssociationSnapshot) (h : list DatagramAssociationSnapshot) : list DatagramAssociationSnapshot :=
  if limit =? 0 then h else zdrop (zlen h - (limit - 1)) h ++ [x].
Definition end_stop (a : nat) (now : Instant) (s : Datagrams) : Datagrams :=
  match dr_associations s !! a with
  | None => s
  | Some x =>
      let s := release (as_lease x) s in
      set_dr_history (retain (dl_history (dr_limits s)) (record_snapshot (as_record x) now) (dr_history s)) s
  end.

(** ** Ingress bytes ([reserve_ingress], [IngressReservation]) *)

Definition reserve_ingress (n : Z) (s : Datagrams) : option Datagrams :=
  if (dr_buffered s + n <=? USIZE_MAX) && (dr_buffered s + n <=? dl_max_ingress_queue_bytes (dr_limits s))
  then Some (set_dr_buffered (dr_buffered s + n) s) else None.
Definition drop_ingress (n : Z) (s : Datagrams) : Datagrams := set_dr_buffered (dr_buffered s - n) s.

(** * Listener tasks *)

(** ** Listener loop *)

Definition spawn_listener (bound : SocketAddr) (p : nat) (s : Datagrams) : nat * Datagrams :=
  (length (dr_listeners s),
   set_dr_listeners (dr_listeners s ++ [{| lo_state := p; lo_bound := bound; lo_cancelled := false;
                                           lo_drain_on_exit := true; lo_phase := LSelect |}]) s).

Inductive ListenerEvent :=
| LNext                                            (* run to the next lock or await *)
| LCancelled                                       (* the select sees the token *)
| LReceived (client : SocketAddr) (payload : bytes)
| LTick                                            (* the reaper *)
| LConnected                                       (* bind and connect succeeded *)
| LSetupFailed.                                    (* one of them failed *)

Definition counted_oversize (now : Instant) (r : AssociationRecord) : AssociationRecord :=
  set_ar_last_activity now (set_ar_oversize_datagrams (sat_add64 (ar_oversize_datagrams r) 1) r).
Definition counted_overflow (now : Instant) (r : AssociationRecord) : AssociationRecord :=
  set_ar_last_activity now (set_ar_ingress_queue_overflow (sat_add64 (ar_ingress_queue_overflow r) 1) r).
Definition counted_closed (now : Instant) (r : AssociationRecord) : AssociationRecord :=
  let r := set_ar_ingress_queue_overflow (sat_add64 (ar_ingress_queue_overflow r) 1) r in
  set_ar_last_activity now (set_ar_administrative_discards (sat_add64 (ar_administrative_discards r) 1) r).
Definition counted_ingress (size : Z) (now : Instant) (r : AssociationRecord) : AssociationRecord :=
  let r := set_ar_ingress_datagrams (sat_add64 (ar_ingress_datagrams r) 1) r in
  set_ar_last_activity now (set_ar_ingress_bytes (sat_add64 (ar_ingress_bytes r) size) r).

(** The head of [receive_client_datagram]: oversize datagrams end here. *)
Definition receive_datagram (o p : nat) (client : SocketAddr) (payload : bytes) (now : Instant) (s : Datagrams) : Datagrams :=
  match dr_states s !! p with
  | None => s
  | Some x =>
      if max_datagram_bytes (ds_queue_limits (px_spec x)) <? zlen payload then
        let s := on_state p (fun x => set_px_oversize (bump (px_oversize x)) x) s in
        match px_table x !! client with
        | Some (Active a) => on_record a (counted_oversize now) s
        | _ => s
        end
      else to_phase o (LResolve client payload) s
  end.

(** [resolve_association] under the write lock. *)
Definition lookup_step (o p : nat) (client : SocketAddr) (payload : bytes) (s : Datagrams) : Datagrams :=
  let t := table_of p s in
  match t !! client with
  | Some (Active a) => to_phase o (LSend client payload a) s
  | Some (Starting r) =>
      if is_terminal r s then to_phase o (LResolve client payload) (set_table p (delete client t) s)
      else to_phase o (LWait client payload r) s
  | None =>
      match dr_states s !! p with
      | None => s
      | Some x =>
          match try_acquire p s with
          | None => to_phase o LSelect (on_state p (fun x => set_px_rejections (bump (px_rejections x)) x) s)
          | Some (lease, s) =>
              let '(r, s) := reservation_new lease s in
              to_phase o (LSetup client payload r (px_spec x)) (set_table p (<[client := Starting r]> t) s)
          end
      end
  end.

Definition setup_failure (o p : nat) (s : Datagrams) : Datagrams :=
  to_phase o LSelect (on_state p (fun x => set_px_failures (bump (px_failures x)) x) s).

(** The association is made and its worker spawned, before it is published. *)
Definition association_made (o p : nat) (client : SocketAddr) (payload : bytes) (r : nat) (spec : DatagramProxySpec)
    (now : Instant) (s : Datagrams) : Datagrams :=
  let id := dr_next_association s in
  let lease := match dr_reservations s !! r with Some x => rv_lease x | None => 0%nat end in
  let association := {|
    as_id := id; as_proxy := p; as_client := client; as_queue := []; as_hand := None; as_pending := 0;
    as_administrative := false; as_cancelled := false; as_ended := false; as_lease := lease;
    as_record := record_new id (ds_name spec) client (ds_upstream spec) now |} in
  let a := length (dr_associations s) in
  let s := set_dr_next_association (wadd id 1) s in
  to_phase o (LPublish client payload r a) (set_dr_associations (dr_associations s ++ [association]) s).

Definition publish_step (o p : nat) (client : SocketAddr) (payload : bytes) (r a : nat) (s : Datagrams) : Datagrams :=
  let t := table_of p s in
  if same_reservation (t !! client) r
  then to_phase o (LSend client payload a) (transition r SetupPublished (set_table p (<[client := Active a]> t) s))
  else to_phase o (LAbandon a) (begin_stop a false (abandon_starting p client r false s)).

(** The tail of [receive_client_datagram]. *)
Definition send_step (o p a : nat) (payload : bytes) (now : Instant) (s : Datagrams) : Datagrams :=
  let overflow s := on_state p (fun x => set_px_overflow (bump (px_overflow x)) x) s in
  match dr_states s !! p, dr_associations s !! a with
  | Some x, Some association =>
      let policy := dload (ds_upstream_policy (px_spec x)) in
      match reserve_ingress (zlen payload) s with
      | None => to_phase o LSelect (on_record a (counted_overflow now) (overflow s))
      | Some reserved =>
          if as_ended association
          then to_phase o LSelect (on_record a (counted_closed now) (overflow s))
          else if dl_ingress_per_association (dr_limits s) <=? zlen (as_queue association)
          then to_phase o LSelect (on_record a (counted_overflow now) (overflow s))
          else
            let item := {| in_payload := payload; in_policy := policy |} in
            let s := on_association a (fun x => set_as_pending (wadd (as_pending x) 1) (set_as_queue (as_queue x ++ [item]) x)) reserved in
            to_phase o LSelect (on_record a (counted_ingress (zlen payload) now) s)
      end
  | _, _ => s
  end.

(** The first half of [reap_idle]. *)
Definition is_idle (timeout : Duration) (now : Instant) (a : Association) : bool :=
  (d_queued_datagrams (ar_upstream_evidence (as_record a)) =? 0)
  && (d_queued_datagrams (ar_downstream_evidence (as_record a)) =? 0)
  && (as_pending a =? 0) && (timeout <=? Z.max (now - ar_last_activity (as_record a)) 0).
Definition expired_slot (p : nat) (now : Instant) (s : Datagrams) (entry : SocketAddr * Slot) : option (SocketAddr * nat) :=
  match dr_states s !! p, entry with
  | Some x, (client, Active a) =>
      match dr_associations s !! a with
      | Some association => if is_idle (ds_idle_timeout (px_spec x)) now association then Some (client, a) else None
      | None => None
      end
  | _, _ => None
  end.
Definition expired_of (p : nat) (now : Instant) (s : Datagrams) : list (SocketAddr * nat) :=
  omap (expired_slot p now s) (map_to_list (table_of p s)).

Definition is_active (slot : option Slot) (a : nat) : bool :=
  match slot with Some (Active a') => Nat.eqb a' a | _ => false end.

Definition is_ended (a : nat) (s : Datagrams) : bool :=
  match dr_associations s !! a with Some x => as_ended x | None => false end.

(** One move of a listener task; [None] when it cannot move that way. *)
Definition listener_next (o : nat) (ev : ListenerEvent) (s : Datagrams) : option Datagrams :=
  match dr_listeners s !! o with
  | None => None
  | Some l =>
      let p := lo_state l in
      match lo_phase l, ev with
      | LSelect, LCancelled => if lo_cancelled l then Some (to_phase o LExit s) else None
      | LSelect, LReceived client payload =>
          if lo_cancelled l then None else Some (receive_datagram o p client payload (dr_clock s) s)
      | LSelect, LTick => if lo_cancelled l then None else Some (to_phase o (LReap (expired_of p (dr_clock s) s)) s)
      | LResolve client payload, LNext =>
          Some match table_of p s !! client with
               | Some (Active a) => to_phase o (LSend client payload a) s
               | _ => to_phase o (LLookup client payload) s
               end
      | LLookup client payload, LNext => Some (lookup_step o p client payload s)
      | LWait client payload r, LNext =>
          match rv_outcome <$> (dr_reservations s !! r) with
          | Some SetupPublished | Some (SetupAbandoned true) => Some (to_phase o (LResolve client payload) s)
          | Some (SetupAbandoned false) => Some (setup_failure o p s)
          | Some SetupStarting | None => None
          end
      | LSetup client payload r spec, LSetupFailed => Some (setup_failure o p (abandon_starting p client r true s))
      | LSetup client payload r spec, LConnected => Some (association_made o p client payload r spec (dr_clock s) s)
      | LPublish client payload r a, LNext => Some (publish_step o p client payload r a s)
      | LAbandon a, LNext => if is_ended a s then Some (setup_failure o p s) else None
      | LSend client payload a, LNext => Some (send_step o p a payload (dr_clock s) s)
      | LReap [], LNext => Some (to_phase o LSelect s)
      | LReap ((client, a) :: rest), LNext =>
          let t := table_of p s in
          Some (if is_active (t !! client) a
                then to_phase o (LStop a false (LReap rest)) (set_table p (delete client t) s)
                else to_phase o (LReap rest) s)
      | LExit, LNext =>
          Some (if lo_drain_on_exit l
                then let '(drained, s) := drain_associations p false s in to_phase o (LDrain drained) s
                else to_phase o LDone s)
      | LDrain [], LNext => Some (to_phase o LDone s)
      | LDrain (a :: rest), LNext => Some (to_phase o (LStop a true (LDrain rest)) s)
      | LStop a administrative next, LNext => Some (to_phase o (LJoin a next) (begin_stop a administrative s))
      | LJoin a next, LNext => if is_ended a s then Some (to_phase o next (end_stop a (dr_clock s) s)) else None
      | _, _ => None
      end
  end.

(** ** Workers, from outside *)

Inductive WorkerEvent :=
| WorkerTakes                        (* the next datagram of the channel *)
| WorkerDrops                        (* it is done with the datagram *)
| WorkerOversize                     (* the counter of the proxy *)
| WorkerWrites (r : AssociationRecord)
| WorkerEnds.                        (* after its cancellation *)

(** The fields only the listeners write stay. *)
Definition worker_record (r old : AssociationRecord) : AssociationRecord := {|
  ar_id := ar_id old; ar_proxy := ar_proxy old; ar_client := ar_client old; ar_upstream := ar_upstream old;
  ar_created := ar_created old; ar_last_activity := ar_last_activity r;
  ar_ingress_datagrams := ar_ingress_datagrams old; ar_ingress_bytes := ar_ingress_bytes old;
  ar_egress_datagrams := ar_egress_datagrams r; ar_egress_bytes := ar_egress_bytes r;
  ar_ingress_queue_overflow := ar_ingress_queue_overflow old; ar_oversize_datagrams := ar_oversize_datagrams r;
  ar_administrative_discards := ar_administrative_discards r; ar_send_errors := ar_send_errors r;
  ar_upstream_evidence := ar_upstream_evidence r; ar_downstream_evidence := ar_downstream_evidence r |}.

Definition size_of (x : Ingress) : Z := zlen (in_payload x).
Definition held (a : Association) : Z := zsum (map size_of (as_queue a)) + match as_hand a with Some x => size_of x | None => 0 end.

Definition worker_next (a : nat) (ev : WorkerEvent) (s : Datagrams) : option Datagrams :=
  match dr_associations s !! a with
  | None => None
  | Some x =>
      if as_ended x then None
      else
        match ev with
        | WorkerTakes =>
            match as_hand x, as_queue x with
            | None, item :: rest =>
                Some (on_association a (fun x => set_as_pending (wrap64 (as_pending x - 1)) (set_as_hand (Some item) (set_as_queue rest x))) s)
            | _, _ => None
            end
        | WorkerDrops =>
            match as_hand x with
            | Some item => Some (drop_ingress (size_of item) (on_association a (set_as_hand None) s))
            | None => None
            end
        | WorkerOversize => Some (on_state (as_proxy x) (fun p => set_px_oversize (bump (px_oversize p)) p) s)
        | WorkerWrites r => Some (on_record a (worker_record r) s)
        | WorkerEnds =>
            if as_cancelled x
            then Some (drop_ingress (held x) (on_association a (fun x => set_as_ended true (set_as_hand None (set_as_queue [] x))) s))
            else None
        end
  end.
