(* ===== verification/UdpRuntime.v ===== *)
(** * The datagram runtime
      ([crates/eggchaos-server/src/runtime/datagram/registry.rs])

    Every operation of [DatagramRuntime] as a process of [Tasks]: a stretch of
    code under the lock of the proxy map, or on the locks of one proxy state,
    is one step.  Where the code keeps the map locked while it joins a listener
    the model releases it first, so it allows every interleaving of the code
    and a few more. *)

From Stdlib Require Import Bool.
From stdpp Require Import base list gmap strings sorting.
From S2P Require Import Prelude Rng Float64 Plan Policy Env DatagramPlan DatagramState Schedule Wire Server Tasks UdpState.

(** ** What tasks await, and what else moves *)

Inductive DatagramWait := OnListener (o : nat) | OnWorker (a : nat).
Inductive DatagramEvent :=
| ListenerMoves (o : nat) (ev : ListenerEvent)
| WorkerMoves (a : nat) (ev : WorkerEvent)
| TimePasses (d : Duration).

Definition listener_done (o : nat) (s : Datagrams) : bool :=
  match dr_listeners s !! o with
  | Some l => match lo_phase l with LDone => true | _ => false end
  | None => false
  end.

#[export] Instance datagram_tasks : TaskState Datagrams DatagramWait DatagramEvent := {
  ready s w := match w with OnListener o => listener_done o s | OnWorker a => is_ended a s end;
  happen e s :=
    match e with
    | ListenerMoves o ev => listener_next o ev s
    | WorkerMoves a ev => worker_next a ev s
    | TimePasses d => if 0 <=? d then Some (set_dr_clock (dr_clock s + d) s) else None
    end
}.

Abbreviation dproc := (process Datagrams DatagramWait).

(** ** Views *)

Record DatagramProxyView := {
  dv_name : string;
  dv_listen : SocketAddr;
  dv_bound_addr : option SocketAddr;
  dv_upstream : SocketAddr;
  dv_running : bool;
  dv_max_associations : Z;
  dv_association_idle_timeout_ms : Z;
  dv_max_datagram_size : Z;
  dv_max_queued_datagrams : Z;
  dv_max_queued_bytes : Z;
  dv_seed : Z;
  dv_active_associations : Z;
  dv_upstream_generation : Z;
  dv_downstream_generation : Z;
  dv_oversize_datagrams : Z;
  dv_association_capacity_rejections : Z;
  dv_ingress_queue_overflow : Z;
  dv_association_setup_failures : Z
}.

Definition active_count (t : gmap SocketAddr Slot) : Z := zlen (omap active_of (map snd (map_to_list t))).

Definition proxy_view (x : ProxyState) (bound : option SocketAddr) (running : bool) : DatagramProxyView :=
  let spec := px_spec x in
  {| dv_name := ds_name spec; dv_listen := ds_listen spec; dv_bound_addr := bound; dv_upstream := ds_upstream spec;
     dv_running := running; dv_max_associations := ds_max_associations spec;
     dv_association_idle_timeout_ms := Z.min (ds_idle_timeout spec / 1000000) U64_MAX;
     dv_max_datagram_size := max_datagram_bytes (ds_queue_limits spec);
     dv_max_queued_datagrams := max_queued_datagrams (ds_queue_limits spec);
     dv_max_queued_bytes := max_queued_bytes (ds_queue_limits spec); dv_seed := ds_seed spec;
     dv_active_associations := active_count (px_table x);
     dv_upstream_generation := generation (dload (ds_upstream_policy spec));
     dv_downstream_generation := generation (dload (ds_downstream_policy spec));
     dv_oversize_datagrams := px_oversize x; dv_association_capacity_rejections := px_rejections x;
     dv_ingress_queue_overflow := px_overflow x; dv_association_setup_failures := px_failures x |}.

(** Follow an [Arc]; an address that holds nothing would be a bug of the
    model, and panics. *)
Definition with_state {A} (p : nat) (f : ProxyState -> Datagrams -> Datagrams * dproc A) : dproc A :=
  atomic (fun s => match dr_states s !! p with Some x => f x s | None => (s, Panic) end).
Definition view_now (p : nat) (bound : option SocketAddr) (running : bool) : dproc DatagramProxyView :=
  with_state p (fun x s => (s, Ret (proxy_view x bound running))).

Definition bound_of (o : nat) (s : Datagrams) : option SocketAddr := lo_bound <$> (dr_listeners s !! o).
Definition managed_bound (m : ManagedDatagram) (s : Datagrams) : option SocketAddr :=
  match mg_listener m with Some o => bound_of o s | None => None end.
Definition managed_view (s : Datagrams) (m : ManagedDatagram) : option DatagramProxyView :=
  (fun x => proxy_view x (managed_bound m s) (is_some (mg_listener m))) <$> (dr_states s !! mg_state m).

Definition view_le (a b : DatagramProxyView) : Prop := String.le (dv_name a) (dv_name b).
#[export] Instance view_le_dec : RelDecision view_le := fun a b => decide (String.le (dv_name a) (dv_name b)).

Definition proxies : dproc (list DatagramProxyView) :=
  observe (fun s => merge_sort view_le (omap (managed_view s) (map snd (map_to_list (dr_proxies s))))).
Definition proxy (name : string) : dproc (option DatagramProxyView) :=
  observe (fun s => m ← dr_proxies s !! name; managed_view s m).

(** ** Stopping associations and listeners *)

Definition stop_association {A} (a : nat) (administrative : bool) (k : dproc A) : dproc A :=
  atomic (fun s => (begin_stop a administrative s,
    Await (OnWorker a) (atomic (fun s => (end_stop a (dr_clock s) s, k))))).
Fixpoint stop_all {A} (l : list nat) (k : dproc A) : dproc A :=
  match l with
  | [] => k
  | a :: l => stop_association a true (stop_all l k)
  end.
Definition drain_and_stop {A} (p : nat) (retryable : bool) (k : dproc A) : dproc A :=
  atomic (fun s => let '(drained, s) := drain_associations p retryable s in (s, stop_all drained k)).

(** [owner.cancel.cancel(); owner.task.await]. *)
Definition stop_listener {A} (o : nat) (k : dproc A) : dproc A :=
  atomic (fun s => (cancel_listener o s, Await (OnListener o) k)).
Definition stop_owner {A} (owner : option nat) (k : dproc A) : dproc A :=
  match owner with Some o => stop_listener o k | None => k end.
(** The same, and the associations stay. *)
Definition discard_listener {A} (o : nat) (k : dproc A) : dproc A :=
  atomic (fun s => (cancel_listener o (keep_on_exit o s), Await (OnListener o) k)).

(** ** The proxy map *)

Definition set_listener (o : option nat) (m : ManagedDatagram) : ManagedDatagram :=
  {| mg_state := mg_state m; mg_listener := o; mg_cancel_start := mg_cancel_start m |}.
Definition set_cancel_start (b : bool) (m : ManagedDatagram) : ManagedDatagram :=
  {| mg_state := mg_state m; mg_listener := mg_listener m; mg_cancel_start := b |}.

Definition admission (name : string) (s : Datagrams) : option DatagramRuntimeError :=
  if is_some (dr_proxies s !! name) then Some (DgDuplicate name)
  else if dl_max_proxies (dr_limits s) <=? Z.of_nat (size (dr_proxies s))
  then Some (DgInvalid "proxy definition limit reached")
  else None.

(** The socket is bound and [Bind] errors are returned. *)
Definition bind_datagram {A} (listen : SocketAddr) (k : SocketAddr -> dproc (result A DatagramRuntimeError))
    : dproc (result A DatagramRuntimeError) :=
  BindListener listen (fun answer =>
    match answer with
    | Bound addr => k addr
    | BindError source | AddrError source => Ret (Err (DgBind source))
    end).
Definition answer_view (p : nat) (bound : option SocketAddr) (running : bool) : dproc (result DatagramProxyView DatagramRuntimeError) :=
  do! view := view_now p bound running in Ret (Ok view).

(** ** Create *)

(** The spawned listener finds its proxy. *)
Definition create_publish (name : string) (p o : nat) (bound : SocketAddr) : dproc (result DatagramProxyView DatagramRuntimeError) :=
  atomic (fun s =>
    match dr_proxies s !! name with
    | Some managed =>
        if mg_cancel_start managed then (s, discard_listener o (answer_view p None false))
        else (put_managed name (set_listener (Some o) managed) s, answer_view p (Some bound) true)
    | None => (s, stop_listener o (Ret (Err (DgNotFound name))))
    end).
Definition create_spawn (name : string) (p : nat) (bound : SocketAddr) : dproc (result DatagramProxyView DatagramRuntimeError) :=
  atomic (fun s => let '(o, s) := spawn_listener bound p s in (s, create_publish name p o bound)).
Definition create_insert (spec : DatagramProxySpec) (bound : SocketAddr) : dproc (result DatagramProxyView DatagramRuntimeError) :=
  atomic (fun s =>
    match admission (ds_name spec) s with
    | Some e => (s, Ret (Err e))
    | None =>
        let p := length (dr_states s) in
        let managed := {| mg_state := p; mg_listener := None; mg_cancel_start := false |} in
        (put_managed (ds_name spec) managed (set_dr_states (dr_states s ++ [state_new spec]) s), create_spawn (ds_name spec) p bound)
    end).
Definition create_proxy (spec : DatagramProxySpec) : dproc (result DatagramProxyView DatagramRuntimeError) :=
  atomic (fun s =>
    match datagram_spec_validate spec (dl_max_associations (dr_limits s)) with
    | Err e => (s, Ret (Err e))
    | Ok _ =>
        match admission (ds_name spec) s with
        | Some e => (s, Ret (Err e))
        | None => (s, bind_datagram (ds_listen spec) (create_insert spec))
        end
    end).

(** ** Disable, enable, delete *)

Definition disable_proxy (name : string) : dproc (result unit DatagramRuntimeError) :=
  atomic (fun s =>
    match dr_proxies s !! name with
    | None => (s, Ret (Err (DgNotFound name)))
    | Some managed =>
        let owner := mg_listener managed in
        let managed := if is_some owner then managed else set_cancel_start true managed in
        (put_managed name (set_listener None managed) s,
         stop_owner owner (drain_and_stop (mg_state managed) false (Ret (Ok tt))))
    end).

Definition enable_publish (name : string) (p o : nat) (bound : SocketAddr) : dproc (result DatagramProxyView DatagramRuntimeError) :=
  atomic (fun s =>
    match dr_proxies s !! name with
    | None => (s, Ret (Err (DgNotFound name)))
    | Some managed =>
        match mg_listener managed with
        | Some _ => (s, discard_listener o (answer_view (mg_state managed) (managed_bound managed s) true))
        | None =>
            if mg_cancel_start managed
            then (s, discard_listener o (Ret (Err (DgConflict "datagram proxy was disabled while enabling"))))
            else (put_managed name (set_listener (Some o) managed) s, answer_view p (Some bound) true)
        end
    end).
Definition enable_spawn (name : string) (p : nat) (bound : SocketAddr) : dproc (result DatagramProxyView DatagramRuntimeError) :=
  atomic (fun s => let '(o, s) := spawn_listener bound p s in (s, enable_publish name p o bound)).
Definition enable_proxy (name : string) : dproc (result DatagramProxyView DatagramRuntimeError) :=
  atomic (fun s =>
    match dr_proxies s !! name with
    | None => (s, Ret (Err (DgNotFound name)))
    | Some managed =>
        let p := mg_state managed in
        match mg_listener managed with
        | Some _ => (s, answer_view p (managed_bound managed s) true)
        | None =>
            match dr_states s !! p with
            | None => (s, Panic)
            | Some x => (put_managed name (set_cancel_start false managed) s,
                         bind_datagram (ds_listen (px_spec x)) (enable_spawn name p))
            end
        end
    end).

Definition delete_proxy (name : string) : dproc bool :=
  atomic (fun s =>
    match dr_proxies s !! name with
    | None => (s, Ret false)
    | Some managed =>
        (set_dr_proxies (delete name (dr_proxies s)) s,
         stop_owner (mg_listener managed) (drain_and_stop (mg_state managed) false (Ret true)))
    end).

(** ** Update *)

Record DatagramUpdate := {
  up_listen : option SocketAddr;
  up_upstream : option SocketAddr;
  up_max_associations : option Z;
  up_idle_timeout : option Duration;
  up_enabled : option bool
}.

Definition updated (u : DatagramUpdate) (s : DatagramProxySpec) : DatagramProxySpec := {|
  ds_name := ds_name s; ds_listen := default (ds_listen s) (up_listen u);
  ds_upstream := default (ds_upstream s) (up_upstream u);
  ds_max_associations := default (ds_max_associations s) (up_max_associations u);
  ds_idle_timeout := default (ds_idle_timeout s) (up_idle_timeout u); ds_queue_limits := ds_queue_limits s;
  ds_upstream_policy := ds_upstream_policy s; ds_downstream_policy := ds_downstream_policy s; ds_seed := ds_seed s
|}.
(** [next] shares the cells of the definition it replaces. *)
Definition replace_spec (next current : DatagramProxySpec) : DatagramProxySpec :=
  set_ds_policies (ds_upstream_policy current) (ds_downstream_policy current) next.

Definition settings (s : DatagramProxySpec) := (ds_listen s, ds_upstream s, ds_max_associations s, ds_idle_timeout s).
Definition settings_changed (old current : DatagramProxySpec) : bool := negb (bool_decide (settings current = settings old)).

Definition cap_below_active : DatagramRuntimeError :=
  DgInvalid "max_associations cannot be lower than the current active count".
Definition changed_concurrently : DatagramRuntimeError := DgConflict "datagram proxy changed concurrently".
Abbreviation uproc := (dproc (result DatagramProxyView DatagramRuntimeError)).

Section Update.
Context (name : string) (p : nat) (old next : DatagramProxySpec) (running desired_running : bool) (bound : option SocketAddr).

Definition update_finish : uproc :=
  atomic (fun s =>
    match dr_proxies s !! name with
    | None => (s, Ret (Err (DgNotFound name)))
    | Some managed => (s, answer_view p (match bound with Some b => Some b | None => managed_bound managed s end) (is_some (mg_listener managed)))
    end).
Definition update_publish (o : nat) : uproc :=
  atomic (fun s =>
    match dr_proxies s !! name with
    | None => (s, discard_listener o (Ret (Err (DgNotFound name))))
    | Some managed => (put_managed name (set_listener (Some o) managed) s, update_finish)
    end).
(** The prebound socket gets its listener. *)
Definition update_start : uproc :=
  match bound with
  | Some addr => atomic (fun s => let '(o, s) := spawn_listener addr p s in (s, update_publish o))
  | None => update_finish
  end.

(** The concurrent-change check reads the definition before the capacity is
    locked. *)
Definition update_commit_stopped : uproc :=
  with_state p (fun x s =>
    if settings_changed old (px_spec x) then (s, Ret (Err changed_concurrently))
    else
      (s, with_state p (fun x s =>
        if ds_max_associations next <? px_active x then (s, Ret (Err cap_below_active))
        else (on_state p (fun x => set_px_spec (replace_spec next (px_spec x)) x) s, drain_and_stop p false update_start)))).
Definition update_commit : uproc :=
  with_state p (fun x s =>
    if settings_changed old (px_spec x) then (s, Ret (Err changed_concurrently))
    else if ds_max_associations next <? px_active x then (s, Ret (Err cap_below_active))
    else (on_state p (fun x => set_px_spec (replace_spec next (px_spec x)) x) s,
          if bool_decide (ds_upstream next = ds_upstream old) then update_start
          else drain_and_stop p running update_start)).

Definition must_stop_old : bool := running && (negb desired_running || negb (bool_decide (ds_listen next = ds_listen old))).
Definition update_stop : uproc :=
  if must_stop_old then
    with_state p (fun x s =>
      if ds_max_associations next <? px_active x then (s, Ret (Err cap_below_active))
      else
        (s, atomic (fun s =>
          match dr_proxies s !! name with
          | None => (s, update_commit_stopped)
          | Some managed => (put_managed name (set_listener None managed) s, stop_owner (mg_listener managed) update_commit_stopped)
          end)))
  else update_commit.
End Update.

Definition update_proxy (name : string) (u : DatagramUpdate) : uproc :=
  atomic (fun s =>
    match dr_proxies s !! name with
    | None => (s, Ret (Err (DgNotFound name)))
    | Some managed =>
        let p := mg_state managed in
        let running := is_some (mg_listener managed) in
        (s, do! clone := with_state p (fun x s => (s, Ret (px_spec x))) in
            with_state p (fun x s =>
              let old := px_spec x in
              let next := updated u clone in
              match datagram_spec_validate next (dl_max_associations (dr_limits s)) with
              | Err e => (s, Ret (Err e))
              | Ok _ =>
                  if ds_max_associations next <? px_active x then (s, Ret (Err cap_below_active))
                  else
                    let desired := default running (up_enabled u) in
                    if desired && (negb running || negb (bool_decide (ds_listen next = ds_listen old)))
                    then (s, bind_datagram (ds_listen next) (fun addr => update_stop name p old next running desired (Some addr)))
                    else (s, update_stop name p old next running desired None)
              end))
    end).

(** ** Policies *)

Definition plan_of (d : Direction) (s : DatagramProxySpec) : DatagramLivePolicy :=
  match d with Upstream => ds_upstream_policy s | Downstream => ds_downstream_policy s end.
Definition with_policy (d : Direction) (cell : DatagramLivePolicy) (s : DatagramProxySpec) : DatagramProxySpec :=
  match d with
  | Upstream => set_ds_policies cell (ds_downstream_policy s) s
  | Downstream => set_ds_policies (ds_upstream_policy s) cell s
  end.

Definition fault_plan (name : string) (d : Direction) : dproc (option (DatagramPlan * Z * Z)) :=
  observe (fun s =>
    m ← dr_proxies s !! name;
    x ← dr_states s !! mg_state m;
    let snap := dload (plan_of d (px_spec x)) in
    Some (pub_plan snap, generation snap, seed_namespace snap)).

Definition generation_moved (expected actual : Z) : DatagramRuntimeError :=
  DgConflict ("generation moved from " +:+ dec expected +:+ " to " +:+ dec actual).

(** Publishers of a direction exclude each other ([policy_mutation]). *)
Definition publish_guarded (d : Direction) (plan : DatagramPlan) (seed : Z) (expected : option Z) (x : ProxyState)
    : result (Z * ProxyState) DatagramRuntimeError :=
  let cell := plan_of d (px_spec x) in
  let current := generation (dload cell) in
  let moved := match expected with Some e => if e =? current then None else Some e | None => None end in
  match moved with
  | Some e => Err (generation_moved e current)
  | None =>
      match Live.publish_plan cell plan seed with
      | (Ok published, cell) => Ok (generation published, set_px_spec (with_policy d cell (px_spec x)) x)
      | (Err (Invalid e), _) => Err (DgInvalid e)
      | (Err (Conflict _), _) => Err (DgInvalid "")   (* [publish] has no expected generation *)
      end
  end.
Definition publish_fault_plan (name : string) (d : Direction) (plan : DatagramPlan) (seed : Z) (expected : option Z)
    : dproc (result Z DatagramRuntimeError) :=
  match dplan_validate plan with
  | Err e => Ret (Err (DgInvalid e))
  | Ok _ =>
      atomic (fun s =>
        match dr_proxies s !! name with
        | None => (s, Ret (Err (DgNotFound name)))
        | Some managed =>
            match dr_states s !! mg_state managed with
            | None => (s, Panic)
            | Some x =>
                match publish_guarded d plan seed expected x with
                | Err e => (s, Ret (Err e))
                | Ok (g, x) => (on_state (mg_state managed) (fun _ => x) s, Ret (Ok g))
                end
            end
        end)
  end.

(** ** Associations *)

Definition snapshot_of (s : Datagrams) (slot : Slot) : option DatagramAssociationSnapshot :=
  a ← active_of slot; x ← dr_associations s !! a; Some (record_snapshot (as_record x) (dr_clock s)).
Definition active_snapshots (s : Datagrams) : list DatagramAssociationSnapshot :=
  omap (snapshot_of s) (mjoin (map (fun m => map snd (map_to_list (table_of (mg_state m) s))) (map snd (map_to_list (dr_proxies s))))).

Definition snapshot_id (v : DatagramAssociationSnapshot) : Z := ar_id (av_record v).
Definition id_le (a b : DatagramAssociationSnapshot) : Prop := snapshot_id a <= snapshot_id b.
#[export] Instance id_le_dec : RelDecision id_le := fun a b => decide (snapshot_id a <= snapshot_id b).

Definition associations : dproc (list DatagramAssociationSnapshot) := observe (fun s => merge_sort id_le (active_snapshots s)).
(** The history is read first. *)
Definition all_associations : dproc (list DatagramAssociationSnapshot) :=
  do! retained := observe dr_history in
  do! live := associations in
  Ret (merge_sort id_le (retained ++ live)).
Definition association (id : Z) : dproc (option DatagramAssociationSnapshot) :=
  observe (fun s =>
    match List.find (fun v => snapshot_id v =? id) (active_snapshots s) with
    | Some v => Some v
    | None => List.find (fun v => snapshot_id v =? id) (dr_history s)
    end).

(** The slot whose association has this id. *)
Definition slot_with_id (id : Z) (s : Datagrams) (entry : SocketAddr * Slot) : option (SocketAddr * nat) :=
  match entry with
  | (client, Active a) =>
      match dr_associations s !! a with
      | Some x => if as_id x =? id then Some (client, a) else None
      | None => None
      end
  | (_, Starting _) => None
  end.
Definition find_slot (id : Z) (p : nat) (s : Datagrams) : option (SocketAddr * nat) :=
  head (omap (slot_with_id id s) (map_to_list (table_of p s))).

Fixpoint kill_in (id : Z) (states : list nat) : dproc bool :=
  match states with
  | [] => Ret false
  | p :: states =>
      atomic (fun s =>
        match find_slot id p s with
        | Some (client, a) => (set_table p (delete client (table_of p s)) s, stop_association a true (Ret true))
        | None => (s, kill_in id states)
        end)
  end.
Definition kill_association (id : Z) : dproc bool :=
  do! states := observe (fun s => map mg_state (map snd (map_to_list (dr_proxies s)))) in
  kill_in id states.

Fixpoint delete_each (names : list string) : dproc unit :=
  match names with
  | [] => Ret tt
  | name :: names => do! _d := delete_proxy name in delete_each names
  end.
Definition shutdown : dproc unit :=
  do! names := observe (fun s => map fst (map_to_list (dr_proxies s))) in
  delete_each names.

(** ** Calls *)

Inductive datagram_request :=
| DqCreate (spec : DatagramProxySpec)
| DqEnable (name : string)
| DqDisable (name : string)
| DqDelete (name : string)
| DqUpdate (name : string) (u : DatagramUpdate)
| DqPublish (name : string) (d : Direction) (plan : DatagramPlan) (seed : Z) (expected : option Z)
| DqFaultPlan (name : string) (d : Direction)
| DqProxies
| DqProxy (name : string)
| DqAssociations
| DqAllAssociations
| DqAssociation (id : Z)
| DqKill (id : Z)
| DqShutdown.

Inductive datagram_response :=
| DsView (r : result DatagramProxyView DatagramRuntimeError)
| DsDisabled (r : result unit DatagramRuntimeError)
| DsDone (b : bool)
| DsPublished (r : result Z DatagramRuntimeError)
| DsPlan (r : option (DatagramPlan * Z * Z))
| DsProxies (l : list DatagramProxyView)
| DsProxy (v : option DatagramProxyView)
| DsAssociations (l : list DatagramAssociationSnapshot)
| DsAssociation (v : option DatagramAssociationSnapshot)
| DsStopped.

Definition datagram_call (r : datagram_request) : dproc datagram_response :=
  match r with
  | DqCreate spec => do! x := create_proxy spec in Ret (DsView x)
  | DqEnable name => do! x := enable_proxy name in Ret (DsView x)
  | DqDisable name => do! x := disable_proxy name in Ret (DsDisabled x)
  | DqDelete name => do! x := delete_proxy name in Ret (DsDone x)
  | DqUpdate name u => do! x := update_proxy name u in Ret (DsView x)
  | DqPublish name d plan seed expected => do! x := publish_fault_plan name d plan seed expected in Ret (DsPublished x)
  | DqFaultPlan name d => do! x := fault_plan name d in Ret (DsPlan x)
  | DqProxies => do! x := proxies in Ret (DsProxies x)
  | DqProxy name => do! x := proxy name in Ret (DsProxy x)
  | DqAssociations => do! x := associations in Ret (DsAssociations x)
  | DqAllAssociations => do! x := all_associations in Ret (DsAssociations x)
  | DqAssociation id => do! x := association id in Ret (DsAssociation x)
  | DqKill id => do! x := kill_association id in Ret (DsDone x)
  | DqShutdown => do! _u := shutdown in Ret DsStopped
  end.

Abbreviation DatagramSystem := (System Datagrams DatagramWait datagram_response).
Definition datagram_step : relation DatagramSystem := sys_step.
Definition datagram_initial (s : Datagrams) (rs : list datagram_request) : DatagramSystem :=
  {| sys_state := s; sys_calls := map datagram_call rs |}.
