(* ===== verification/UdpOwn.v ===== *)
(** * Who owns what in the datagram runtime

    The part of the state that setup, publication and teardown fight over:
    tables, leases, setups, associations and listener tasks, without payloads
    and counters.  [own_ok] is its invariant; each move of the runtime is one
    of the transitions below. *)

From Stdlib Require Import Bool.
From stdpp Require Import base list gmap strings.
From S2P Require Import Prelude Wire UdpState.

(** What the others see of an association. *)
Record Seat := { se_proxy : nat; se_client : SocketAddr; se_lease : nat; se_cancelled : bool; se_ended : bool }.

Record Own := {
  ow_tables : list (gmap SocketAddr Slot);
  ow_leases : list CapacityLease;
  ow_outcomes : list SetupOutcome;
  ow_seats : list Seat;
  ow_tasks : list (nat * ListenerPhase)
}.

Definition slot_in (ts : list (gmap SocketAddr Slot)) (p : nat) (c : SocketAddr) : option Slot := t ← ts !! p; t !! c.
Definition slot_at (w : Own) : nat -> SocketAddr -> option Slot := slot_in (ow_tables w).
Definition lease_no (w : Own) (sl : Slot) : option nat :=
  match sl with Starting r => Some r | Active a => se_lease <$> (ow_seats w !! a) end.

Definition setting_up (ph : ListenerPhase) : option (SocketAddr * nat) :=
  match ph with LSetup c _ r _ | LPublish c _ r _ => Some (c, r) | _ => None end.
Definition publishing (ph : ListenerPhase) : option nat := match ph with LPublish _ _ _ a => Some a | _ => None end.

(** In no table, and nobody is about to put it in one. *)
Record retired (w : Own) (a : nat) : Prop := {
  rt_made : (a < length (ow_seats w))%nat;
  rt_unseated : forall p c, slot_at w p c <> Some (Active a);
  rt_unpublished : forall o p ph, ow_tasks w !! o = Some (p, ph) -> publishing ph <> Some a
}.
Definition cancelled (w : Own) (a : nat) : Prop := exists x, ow_seats w !! a = Some x /\ se_cancelled x = true.

Definition settled (ph : ListenerPhase) : Prop := match ph with LReap _ | LDrain _ => True | _ => False end.

Fixpoint phase_ok (w : Own) (p : nat) (ph : ListenerPhase) : Prop :=
  match ph with
  | LSelect | LResolve _ _ | LLookup _ _ | LExit | LDone => True
  | LWait _ _ r => (r < length (ow_outcomes w))%nat
  | LSetup _ _ r _ | LPublish _ _ r _ => (r < length (ow_outcomes w))%nat
  | LAbandon a => retired w a /\ cancelled w a
  | LSend c _ a => exists x, ow_seats w !! a = Some x /\ se_proxy x = p /\ se_client x = c
  | LReap l => forall c a, (c, a) ∈ l -> (a < length (ow_seats w))%nat
  | LDrain l => forall a, a ∈ l -> retired w a
  | LStop a _ next => retired w a /\ settled next /\ phase_ok w p next
  | LJoin a next => retired w a /\ cancelled w a /\ settled next /\ phase_ok w p next
  end.

Definition slot_ok (w : Own) (p : nat) (c : SocketAddr) (sl : Slot) : Prop :=
  match sl with
  | Starting r => ow_outcomes w !! r = Some SetupStarting /\ ow_leases w !! r = Some {| le_proxy := p; le_released := false |}
  | Active a => exists x, ow_seats w !! a = Some x /\ se_proxy x = p /\ se_client x = c /\ se_cancelled x = false
      /\ ow_leases w !! se_lease x = Some {| le_proxy := p; le_released := false |}
  end.

Record own_ok (w : Own) : Prop := {
  w_lease : length (ow_leases w) = length (ow_outcomes w);
  w_slot : forall p c sl, slot_at w p c = Some sl -> slot_ok w p c sl;
  w_one : forall p1 c1 sl1 p2 c2 sl2 l, slot_at w p1 c1 = Some sl1 -> slot_at w p2 c2 = Some sl2 ->
    lease_no w sl1 = Some l -> lease_no w sl2 = Some l -> p1 = p2 /\ c1 = c2;
  w_owned : forall r, ow_outcomes w !! r = Some SetupStarting -> exists o p ph c,
    ow_tasks w !! o = Some (p, ph) /\ setting_up ph = Some (c, r) /\ slot_at w p c = Some (Starting r);
  w_owner : forall o1 p1 ph1 c1 o2 p2 ph2 c2 r, ow_tasks w !! o1 = Some (p1, ph1) -> ow_tasks w !! o2 = Some (p2, ph2) ->
    setting_up ph1 = Some (c1, r) -> setting_up ph2 = Some (c2, r) -> o1 = o2;
  w_seat : forall a x, ow_seats w !! a = Some x -> (se_lease x < length (ow_outcomes w))%nat
    /\ (se_ended x = true -> se_cancelled x = true);
  w_seats : forall a1 x1 a2 x2, ow_seats w !! a1 = Some x1 -> ow_seats w !! a2 = Some x2 -> se_lease x1 = se_lease x2 -> a1 = a2;
  w_task : forall o p ph, ow_tasks w !! o = Some (p, ph) -> (p < length (ow_tables w))%nat /\ phase_ok w p ph;
  w_setup : forall o p c pl r spec, ow_tasks w !! o = Some (p, LSetup c pl r spec) ->
    ow_outcomes w !! r <> Some SetupPublished /\ forall a x, ow_seats w !! a = Some x -> se_lease x <> r;
  w_publish : forall o p c pl r a, ow_tasks w !! o = Some (p, LPublish c pl r a) ->
    exists x, ow_seats w !! a = Some x /\ se_proxy x = p /\ se_client x = c /\ se_lease x = r /\ se_cancelled x = false
      /\ forall p c, slot_at w p c <> Some (Active a)
}.

(** ** What every transition promises *)

Record evolves (w w' : Own) : Prop := {
  ev_tables : (length (ow_tables w) <= length (ow_tables w'))%nat;
  ev_outcomes : (length (ow_outcomes w) <= length (ow_outcomes w'))%nat;
  ev_seats : forall a x, ow_seats w !! a = Some x -> exists x', ow_seats w' !! a = Some x'
    /\ se_proxy x' = se_proxy x /\ se_client x' = se_client x /\ se_lease x' = se_lease x
    /\ (se_cancelled x = true -> se_cancelled x' = true);
  ev_retired : forall a, retired w a -> retired w' a
}.

#[export] Instance evolves_preorder : PreOrder evolves.
Proof.
  split.
  - intros w. constructor; [lia..| |done]. intros a x H. exists x. split_and!; done.
  - intros a b c [] []. constructor; [lia|lia| |auto]. intros i x H.
    destruct (ev_seats0 i x H) as (x' & H' & ? & ? & ? & ?). destruct (ev_seats1 i x' H') as (x'' & H'' & ? & ? & ? & ?).
    exists x''. split_and!; [done|congruence..|auto].
Qed.

Lemma evolves_cancelled w w' a : evolves w w' -> cancelled w a -> cancelled w' a.
Proof. intros E (x & H & C). destruct (ev_seats _ _ E a x H) as (x' & H' & _ & _ & _ & C'). exists x'. auto. Qed.
Lemma evolves_made w w' a : evolves w w' -> (a < length (ow_seats w))%nat -> (a < length (ow_seats w'))%nat.
Proof. intros E [x H]%lookup_lt_is_Some. destruct (ev_seats _ _ E a x H) as (x' & H' & _). by eapply lookup_lt_Some. Qed.

Lemma phase_mono w w' p ph : evolves w w' -> phase_ok w p ph -> phase_ok w' p ph.
Proof.
  intros E. pose proof (ev_outcomes _ _ E). induction ph; cbn; try done; try lia.
  - intros [? ?]. split; [by apply E|by eapply evolves_cancelled].
  - intros (x & Hx & ? & ?). destruct (ev_seats _ _ E _ _ Hx) as (x' & Hx' & ? & ? & _). exists x'. split_and!; congruence.
  - intros Hl c a Ha. eapply evolves_made; eauto.
  - intros Hl a Ha. apply E. auto.
  - intros (? & ? & ?). split_and!; [by apply E|done|auto].
  - intros (? & ? & ? & ?). split_and!; [by apply E|by eapply evolves_cancelled|done|auto].
Qed.

Lemma seats_evolve w w' : length (ow_tables w) = length (ow_tables w') -> length (ow_outcomes w) = length (ow_outcomes w') ->
  ow_seats w = ow_seats w' -> (forall a, retired w a -> retired w' a) -> evolves w w'.
Proof. intros T O S R. constructor; [lia|lia| |done]. intros a x H. exists x. rewrite <- S. auto. Qed.

(** ** Lookup after the list operations *)

Lemma lookup_alter_inv {A} (f : A -> A) i j (l : list A) y : alter f i l !! j = Some y ->
  (i <> j /\ l !! j = Some y) \/ (i = j /\ exists x, l !! i = Some x /\ y = f x).
Proof.
  rewrite list_lookup_alter. destruct (decide (i = j)) as [->|]; [|auto].
  destruct (l !! j) as [x|] eqn:E; [|done]. intros [= <-]. right. eauto.
Qed.

Lemma lookup_snoc_inv {A} (l : list A) x j y : (l ++ [x]) !! j = Some y -> l !! j = Some y \/ (j = length l /\ y = x).
Proof.
  rewrite lookup_app_Some, list_lookup_singleton_Some. intros [|(? & ? & ?)]; [by left|right]. split; [lia|done].
Qed.
Lemma lookup_snoc_old {A} (l : list A) x j y : l !! j = Some y -> (l ++ [x]) !! j = Some y.
Proof. apply lookup_app_l_Some. Qed.
Lemma lookup_snoc_new {A} (l : list A) x : (l ++ [x]) !! length l = Some x.
Proof. by rewrite lookup_app_r, Nat.sub_diag by lia. Qed.

(** ** A task moves on *)

Definition own_phase (o : nat) (ph : ListenerPhase) (w : Own) : Own := {|
  ow_tables := ow_tables w; ow_leases := ow_leases w; ow_outcomes := ow_outcomes w; ow_seats := ow_seats w;
  ow_tasks := alter (fun t => (t.1, ph)) o (ow_tasks w) |}.

Lemma phase_evolves w o ph : publishing ph = None -> evolves w (own_phase o ph w).
Proof.
  intros P. apply seats_evolve; try done. intros a [M U B]. constructor; [done|done|].
  intros o' p ph' [[_ H]|(_ & [q old] & H & [= -> ->])]%lookup_alter_inv; [by eapply B|by rewrite P].
Qed.

(** Not into a setup, and out of one only when it is over. *)
Lemma phase_own_ok w o p old ph : own_ok w -> ow_tasks w !! o = Some (p, old) ->
  setting_up ph = None -> phase_ok w p ph ->
  (forall c r, setting_up old = Some (c, r) -> ow_outcomes w !! r <> Some SetupStarting) ->
  own_ok (own_phase o ph w).
Proof.
  intros W Ho Hs Hp Hold. assert (P : publishing ph = None) by (by destruct ph).
  pose proof (phase_evolves w o ph P) as E. destruct W. constructor; try done; cbn [own_phase ow_tasks ow_outcomes ow_seats ow_tables].
  - intros r Hr. destruct (w_owned0 r Hr) as (o' & p' & ph' & c & Ht & Hu & Hsl). exists o', p', ph', c. split; [|done].
    rewrite list_lookup_alter_ne; [done|]. intros <-. rewrite Ho in Ht. injection Ht as <- <-. by eapply Hold.
  - intros o1 p1 ph1 c1 o2 p2 ph2 c2 r [[_ H1]|(_ & [] & _ & [= -> ->])]%lookup_alter_inv [[_ H2]|(_ & [] & _ & [= -> ->])]%lookup_alter_inv S1 S2; try congruence.
    by eapply (w_owner0 o1 p1 ph1 c1 o2 p2 ph2).
  - intros o' p' ph' [[_ H]|(<- & [q0 old0] & H & [= -> ->])]%lookup_alter_inv; (split; [by eapply w_task0|]); (eapply phase_mono; [exact E|]).
    + by eapply w_task0.
    + rewrite Ho in H. injection H as <- <-. done.
  - intros o' p' c pl r spec [[_ H]|(<- & [] & _ & [= -> <-])]%lookup_alter_inv; [by eapply w_setup0|done].
  - intros o' p' c pl r a [[_ H]|(<- & [] & _ & [= -> <-])]%lookup_alter_inv; [by eapply w_publish0|done].
Qed.

(** ** Slots *)

Definition put_slot (p : nat) (c : SocketAddr) (sl : Slot) (ts : list (gmap SocketAddr Slot)) := alter (insert c sl) p ts.
Definition del_slot (p : nat) (c : SocketAddr) (ts : list (gmap SocketAddr Slot)) := alter (delete c) p ts.

Lemma slot_put_inv p c sl ts p' c' x : slot_in (put_slot p c sl ts) p' c' = Some x ->
  (p' = p /\ c' = c /\ x = sl) \/ (slot_in ts p' c' = Some x /\ (p' <> p \/ c' <> c)).
Proof.
  unfold slot_in, put_slot. rewrite list_lookup_alter. destruct (decide (p = p')) as [<-|]; [|auto].
  destruct (ts !! p) as [t|]; cbn; [|done]. destruct (decide (c' = c)) as [->|].
  - rewrite lookup_insert_eq. intros [= <-]. auto.
  - rewrite lookup_insert_ne by done. auto.
Qed.
Lemma slot_put_old p c sl ts p' c' x : slot_in ts p' c' = Some x -> p' <> p \/ c' <> c -> slot_in (put_slot p c sl ts) p' c' = Some x.
Proof.
  unfold slot_in, put_slot. rewrite list_lookup_alter. destruct (decide (p = p')) as [<-|]; [|auto].
  destruct (ts !! p) as [t|]; cbn; [|done]. intros H [?|?]; [done|]. by rewrite lookup_insert_ne.
Qed.
Lemma slot_put_new p c sl ts : (p < length ts)%nat -> slot_in (put_slot p c sl ts) p c = Some sl.
Proof.
  intros [t H]%lookup_lt_is_Some. unfold slot_in, put_slot. rewrite list_lookup_alter_eq, H. cbn. by rewrite lookup_insert_eq.
Qed.

Lemma slot_del_inv p c ts p' c' x : slot_in (del_slot p c ts) p' c' = Some x -> slot_in ts p' c' = Some x /\ (p' <> p \/ c' <> c).
Proof.
  unfold slot_in, del_slot. rewrite list_lookup_alter. destruct (decide (p = p')) as [<-|]; [|auto].
  destruct (ts !! p) as [t|]; cbn; [|done]. intros [? ?]%lookup_delete_Some. auto.
Qed.
Lemma slot_del_old p c ts p' c' x : slot_in ts p' c' = Some x -> p' <> p \/ c' <> c -> slot_in (del_slot p c ts) p' c' = Some x.
Proof.
  unfold slot_in, del_slot. rewrite list_lookup_alter. destruct (decide (p = p')) as [<-|]; [|auto].
  destruct (ts !! p) as [t|]; cbn; [|done]. intros H [?|?]; [done|]. by rewrite lookup_delete_ne.
Qed.

(** Retirement outlives whatever seats nobody new. *)
Lemma retired_keeps w w' a : retired w a -> (length (ow_seats w) <= length (ow_seats w'))%nat ->
  (forall p c, slot_at w' p c = Some (Active a) -> slot_at w p c = Some (Active a)) ->
  (forall o p ph, ow_tasks w' !! o = Some (p, ph) -> publishing ph = Some a ->
     exists o' p' ph', ow_tasks w !! o' = Some (p', ph') /\ publishing ph' = Some a) ->
  retired w' a.
Proof.
  intros [M U B] L S T. constructor; [lia|by intros p c ?%S%U|]. intros o p ph H P.
  destruct (T _ _ _ H P) as (? & ? & ? & H' & P'). by eapply B.
Qed.

(** ** A setup starts *)

Definition own_reserve (o p : nat) (c : SocketAddr) (pl : bytes) (spec : DatagramProxySpec) (w : Own) : Own :=
  let r := length (ow_outcomes w) in
  {| ow_tables := put_slot p c (Starting r) (ow_tables w);
     ow_leases := ow_leases w ++ [{| le_proxy := p; le_released := false |}];
     ow_outcomes := ow_outcomes w ++ [SetupStarting]; ow_seats := ow_seats w;
     ow_tasks := alter (fun t => (t.1, LSetup c pl r spec)) o (ow_tasks w) |}.

Lemma reserve_evolves w o p c pl spec : evolves w (own_reserve o p c pl spec w).
Proof.
  constructor; cbn.
  - unfold put_slot. rewrite length_alter. lia.
  - rewrite length_app. lia.
  - intros a x H. exists x. auto.
  - intros a R. eapply retired_keeps; [exact R|done| |].
    + intros p' c' [(_ & _ & ?)|[H _]]%slot_put_inv; [done|exact H].
    + intros o' p' ph [[_ H]|(_ & [] & _ & [= -> ->])]%lookup_alter_inv P; [eauto|done].
Qed.

Lemma reserve_own_ok w o p c pl spec old : own_ok w -> ow_tasks w !! o = Some (p, old) -> setting_up old = None ->
  slot_at w p c = None -> own_ok (own_reserve o p c pl spec w).
Proof.
  intros W Ho Hold Hfree. pose proof (reserve_evolves w o p c pl spec) as E. destruct W.
  destruct (w_task0 _ _ _ Ho) as [Hp _]. set (n := length (ow_outcomes w)) in *.
  assert (Hseat : forall a x, ow_seats w !! a = Some x -> se_lease x <> n).
  { intros a x [H _]%w_seat0. unfold n. lia. }
  assert (Hslot : forall p' c' sl, slot_at w p' c' = Some sl -> (p' <> p \/ c' <> c) /\ lease_no w sl <> Some n).
  { intros p' c' sl H. split.
    - destruct (decide (p' = p)) as [->|]; [|auto]. destruct (decide (c' = c)) as [->|]; [congruence|auto].
    - destruct sl as [r|a]; cbn.
      + intros [= ->]. destruct (w_slot0 _ _ _ H) as [Hr%lookup_lt_Some _]. unfold n in Hr. lia.
      + destruct (w_slot0 _ _ _ H) as (x & Hx & _). rewrite Hx. intros [= Hl]. by eapply Hseat. }
  constructor; cbn [own_reserve ow_tables ow_leases ow_outcomes ow_seats ow_tasks]; fold n.
  - rewrite !length_app. cbn. lia.
  - intros p' c' sl [(-> & -> & ->)|[H _]]%slot_put_inv.
    + split; cbn; [apply lookup_snoc_new|]. rewrite <- (w_lease0 : _ = length (ow_outcomes w)). apply lookup_snoc_new.
    + apply w_slot0 in H. destruct sl; cbn in *.
      * destruct H. split; by apply lookup_snoc_old.
      * destruct H as (x & ? & ? & ? & ? & ?). exists x. split_and!; try done. by apply lookup_snoc_old.
  - intros p1 c1 sl1 p2 c2 sl2 l [(-> & -> & ->)|[H1 _]]%slot_put_inv [(-> & -> & ->)|[H2 _]]%slot_put_inv L1 L2.
    + done.
    + injection L1 as <-. by destruct (Hslot _ _ _ H2) as [_ []].
    + injection L2 as <-. by destruct (Hslot _ _ _ H1) as [_ []].
    + by eapply (w_one0 p1 c1 sl1 p2 c2 sl2).
  - intros r [Hr|[-> _]]%lookup_snoc_inv.
    + destruct (w_owned0 r Hr) as (o' & p' & ph & c' & Ht & Hu & Hs). exists o', p', ph, c'. split_and!.
      * rewrite list_lookup_alter_ne; [done|]. intros <-. congruence.
      * done.
      * apply slot_put_old; [done|]. by eapply Hslot.
    + exists o, p, (LSetup c pl n spec), c. split_and!; [|done|by apply slot_put_new].
      by rewrite list_lookup_alter_eq, Ho.
  - intros o1 p1 ph1 c1 o2 p2 ph2 c2 r [[N1 H1]|(-> & [q1 old1] & H1 & [= -> ->])]%lookup_alter_inv [[N2 H2]|(-> & [q2 old2] & H2 & [= -> ->])]%lookup_alter_inv S1 S2.
    + by eapply (w_owner0 o1 p1 ph1 c1 o2 p2 ph2).
    + injection S2 as <- <-. destruct (w_task0 _ _ _ H1) as [_ B]. destruct ph1; try done; injection S1 as _ ->; cbn in B; lia.
    + injection S1 as <- <-. destruct (w_task0 _ _ _ H2) as [_ B]. destruct ph2; try done; injection S2 as _ ->; cbn in B; lia.
    + done.
  - intros a x H. destruct (w_seat0 a x H). rewrite length_app. split; [lia|done].
  - done.
  - intros o' p' ph [[_ H]|(-> & [q old'] & H & [= -> ->])]%lookup_alter_inv; unfold put_slot; rewrite length_alter.
    + destruct (w_task0 _ _ _ H). split; [done|]. by eapply phase_mono.
    + destruct (w_task0 _ _ _ H). split; [done|]. cbn. rewrite length_app. cbn. unfold n. lia.
  - intros o' p' c' pl' r spec' [[_ H]|(-> & [q old'] & H & [= -> -> -> ->])]%lookup_alter_inv.
    + destruct (w_setup0 _ _ _ _ _ _ H) as [Hp' ?]. split; [|done]. destruct (w_task0 _ _ _ H) as [_ B]. cbn in B.
      rewrite lookup_app_l by done. done.
    + split; [|done]. unfold n. rewrite lookup_snoc_new. done.
  - intros o' p' c' pl' r a [[_ H]|(-> & [q old'] & H & [= ])]%lookup_alter_inv.
    destruct (w_publish0 _ _ _ _ _ _ H) as (x & ? & ? & ? & ? & ? & U). exists x. split_and!; try done.
    intros p'' c'' [(_ & _ & ?)|[? _]]%slot_put_inv; [done|by eapply U].
Qed.

(** ** The association of a setup is made *)

Lemma lease_no_evolves w w' p c sl : evolves w w' -> slot_ok w p c sl -> lease_no w' sl = lease_no w sl.
Proof.
  intros E S. destruct sl as [r|a]; cbn in *; [done|]. destruct S as (x & Hx & _). rewrite Hx.
  destruct (ev_seats _ _ E a x Hx) as (x' & Hx' & _ & _ & L & _). rewrite Hx'. cbn. by rewrite L.
Qed.

Definition own_made (o p : nat) (c : SocketAddr) (pl : bytes) (r : nat) (w : Own) : Own := {|
  ow_tables := ow_tables w; ow_leases := ow_leases w; ow_outcomes := ow_outcomes w;
  ow_seats := ow_seats w ++ [{| se_proxy := p; se_client := c; se_lease := r; se_cancelled := false; se_ended := false |}];
  ow_tasks := alter (fun t => (t.1, LPublish c pl r (length (ow_seats w)))) o (ow_tasks w) |}.

Lemma made_evolves w o p c pl r : evolves w (own_made o p c pl r w).
Proof.
  constructor; cbn; [done|done|..].
  - intros a x H. exists x. split_and!; try done. by apply lookup_snoc_old.
  - intros a R. eapply retired_keeps; [exact R| |done|]; cbn; [rewrite length_app; lia|].
    intros o' p' ph [[_ H]|(_ & [] & _ & [= -> ->])]%lookup_alter_inv P; [eauto|].
    injection P as <-. apply rt_made in R. lia.
Qed.

Lemma made_own_ok w o p c pl r spec : own_ok w -> ow_tasks w !! o = Some (p, LSetup c pl r spec) ->
  own_ok (own_made o p c pl r w).
Proof.
  intros W Ho. pose proof (made_evolves w o p c pl r) as E. destruct W.
  destruct (w_task0 _ _ _ Ho) as [Hp Hr]. destruct (w_setup0 _ _ _ _ _ _ Ho) as [Hout Hfree]. cbn in Hr.
  assert (Htask : forall o' p' ph c' r', ow_tasks (own_made o p c pl r w) !! o' = Some (p', ph) -> setting_up ph = Some (c', r') ->
    exists ph', ow_tasks w !! o' = Some (p', ph') /\ setting_up ph' = Some (c', r')).
  { intros o' p' ph c' r' [[_ H]|(<- & [q old] & H & [= -> ->])]%lookup_alter_inv S; [eauto|].
    rewrite Ho in H. injection H as <- <-. eauto. }
  constructor; cbn [own_made ow_tables ow_leases ow_outcomes ow_seats ow_tasks]; try done.
  - intros p' c' sl H. apply w_slot0 in H. destruct sl; [done|]. destruct H as (x & ? & ?). exists x. split; [by apply lookup_snoc_old|done].
  - intros p1 c1 sl1 p2 c2 sl2 l H1 H2. rewrite (lease_no_evolves w _ p1 c1 sl1 E), (lease_no_evolves w _ p2 c2 sl2 E) by (by apply w_slot0).
    by apply w_one0.
  - intros q Hq. destruct (w_owned0 q Hq) as (o' & p' & ph & c' & Ht & Hu & Hs). destruct (decide (o = o')) as [<-|Hne].
    + rewrite Ho in Ht. injection Ht as <- <-. eexists o, p, _, c'. split; [by rewrite list_lookup_alter_eq, Ho|]. by injection Hu as <- <-.
    + exists o', p', ph, c'. by rewrite list_lookup_alter_ne.
  - intros o1 p1 ph1 c1 o2 p2 ph2 c2 q H1 H2 S1 S2.
    destruct (Htask _ _ _ _ _ H1 S1) as (? & H1' & S1'). destruct (Htask _ _ _ _ _ H2 S2) as (? & H2' & S2').
    by eapply (w_owner0 o1 _ _ c1 o2 _ _ c2).
  - intros a x [H|[-> ->]]%lookup_snoc_inv; [by apply w_seat0 in H|]. done.
  - intros a1 x1 a2 x2 [H1|[-> ->]]%lookup_snoc_inv [H2|[-> ->]]%lookup_snoc_inv; cbn; [by eapply w_seats0|..|done].
    + intros L. by destruct (Hfree _ _ H1).
    + intros L. by destruct (Hfree _ _ H2).
  - intros o' p' ph [[_ H]|(<- & [q old] & H & [= -> ->])]%lookup_alter_inv.
    + destruct (w_task0 _ _ _ H). split; [done|]. by eapply phase_mono.
    + rewrite Ho in H. injection H as <- <-. done.
  - intros o' p' c' pl' q spec' [[N H]|(<- & [] & _ & [= ])]%lookup_alter_inv. destruct (w_setup0 _ _ _ _ _ _ H) as [? F].
    split; [done|]. intros a x [?|[-> ->]]%lookup_snoc_inv; [by eapply F|]. cbn. intros ->. apply N.
    by apply (w_owner0 o p (LSetup c pl q spec) c o' p' (LSetup c' pl' q spec') c' q).
  - intros o' p' c' pl' q a [[N H]|(<- & [q' old] & H & [= -> -> -> -> ->])]%lookup_alter_inv.
    + destruct (w_publish0 _ _ _ _ _ _ H) as (x & ? & ?). exists x. split; [by apply lookup_snoc_old|done].
    + rewrite Ho in H. injection H as <- <-. eexists. split; [apply lookup_snoc_new|]. split_and!; try done.
      intros p'' c'' Hs. destruct (w_slot0 _ _ _ Hs) as (x & Hx%lookup_lt_Some & _). lia.
Qed.

(** ** Slots are dropped

    Setups end, leases are released and slots disappear; what stays in the
    tables is untouched. *)
Record drops (w w' : Own) : Prop := {
  dp_tables : length (ow_tables w') = length (ow_tables w);
  dp_leases : length (ow_leases w') = length (ow_leases w);
  dp_outcomes : length (ow_outcomes w') = length (ow_outcomes w);
  dp_seats : ow_seats w' = ow_seats w;
  dp_tasks : ow_tasks w' = ow_tasks w;
  dp_kept : forall p c sl l, slot_at w' p c = Some sl -> slot_at w p c = Some sl /\ (lease_no w sl = Some l ->
    ow_leases w' !! l = ow_leases w !! l /\ (sl = Starting l -> ow_outcomes w' !! l = ow_outcomes w !! l));
  dp_starting : forall r, ow_outcomes w' !! r = Some SetupStarting -> ow_outcomes w !! r = Some SetupStarting
    /\ forall p c, slot_at w p c = Some (Starting r) -> slot_at w' p c = Some (Starting r);
  dp_published : forall r, ow_outcomes w' !! r = Some SetupPublished -> ow_outcomes w !! r = Some SetupPublished
}.

Lemma drops_evolves w w' : drops w w' -> evolves w w'.
Proof.
  intros []. apply seats_evolve; try congruence. intros a R. eapply retired_keeps; [exact R|by rewrite dp_seats0| |].
  - intros p c H. by apply (dp_kept0 p c _ 0%nat) in H as [H _].
  - rewrite dp_tasks0. eauto.
Qed.

Lemma drops_own_ok w w' : own_ok w -> drops w w' -> own_ok w'.
Proof.
  intros W D. pose proof (drops_evolves _ _ D) as E. destruct W, D.
  constructor; rewrite ?dp_tasks0, ?dp_seats0, ?dp_outcomes0, ?dp_leases0, ?dp_tables0; try done.
  - intros p c sl H. destruct sl as [r|a].
    + destruct (dp_kept0 _ _ _ r H) as [H' K]. destruct (w_slot0 _ _ _ H') as [O L]. destruct (K eq_refl) as [KL KO].
      split; [by rewrite KO|by rewrite KL].
    + destruct (dp_kept0 _ _ _ 0%nat H) as [H' _]. destruct (w_slot0 _ _ _ H') as (x & Hx & ? & ? & ? & L).
      destruct (dp_kept0 _ _ _ (se_lease x) H) as [_ K]. destruct K as [KL _]; [cbn; by rewrite Hx|].
      exists x. rewrite dp_seats0, KL. done.
  - intros p1 c1 sl1 p2 c2 sl2 l H1 H2. apply (dp_kept0 _ _ _ l) in H1 as [H1 _], H2 as [H2 _].
    rewrite (lease_no_evolves w w' p1 c1 sl1 E), (lease_no_evolves w w' p2 c2 sl2 E) by (by apply w_slot0). by apply w_one0.
  - intros r [Hr K]%dp_starting0. destruct (w_owned0 r Hr) as (o & p & ph & c & ? & ? & ?). exists o, p, ph, c. auto.
  - intros o p ph H. destruct (w_task0 _ _ _ H). split; [done|]. by eapply phase_mono.
  - intros o p c pl r spec H. destruct (w_setup0 _ _ _ _ _ _ H) as [? ?]. split; [auto|done].
  - intros o p c pl r a H. destruct (w_publish0 _ _ _ _ _ _ H) as (x & ? & ? & ? & ? & ? & U). exists x. split_and!; try done.
    intros p' c' H'. apply (dp_kept0 _ _ _ 0%nat) in H' as [H' _]. by eapply U.
Qed.

Definition freed (x : CapacityLease) : CapacityLease := {| le_proxy := le_proxy x; le_released := true |}.
Definition settle (b : bool) (o : SetupOutcome) : SetupOutcome := if terminal o then o else SetupAbandoned b.

Lemma settle_starting b o : settle b o <> SetupStarting.
Proof. by destruct o. Qed.
Lemma settle_published b o : settle b o = SetupPublished -> o = SetupPublished.
Proof. by destruct o. Qed.

(** A lease no slot uses. *)
Definition own_free (l : nat) (w : Own) : Own := {|
  ow_tables := ow_tables w; ow_leases := alter freed l (ow_leases w); ow_outcomes := ow_outcomes w;
  ow_seats := ow_seats w; ow_tasks := ow_tasks w |}.
Definition unused (w : Own) (l : nat) : Prop := forall p c sl, slot_at w p c = Some sl -> lease_no w sl <> Some l.

Lemma free_drops w l : unused w l -> drops w (own_free l w).
Proof.
  intros U. constructor; cbn; rewrite ?length_alter; auto. intros p c sl l' H. split; [done|]. intros L. split; [|done].
  rewrite list_lookup_alter_ne; [done|]. intros <-. by eapply U.
Qed.

Lemma retired_unused w a x : own_ok w -> retired w a -> ow_seats w !! a = Some x -> unused w (se_lease x).
Proof.
  intros W R Hx p c sl H L. destruct sl as [r|b]; cbn in L.
  - injection L as ->. destruct (w_slot _ W _ _ _ H) as [Ho _]. destruct (w_owned _ W _ Ho) as (o & q & ph & d & Ht & Hu & _).
    destruct ph; try done; injection Hu as -> Hr; subst.
    + destruct (w_setup _ W _ _ _ _ _ _ Ht) as [_ F]. by eapply F.
    + destruct (w_publish _ W _ _ _ _ _ _ Ht) as (y & Hy & _ & _ & E & _). apply (rt_unpublished _ _ R _ _ _ Ht). cbn. f_equal.
      by eapply (w_seats _ W _ y _ x).
  - destruct (ow_seats w !! b) as [y|] eqn:Hy; [|done]. injection L as L.
    rewrite (w_seats _ W _ _ _ _ Hy Hx L) in H. by eapply (rt_unseated _ _ R).
Qed.

(** An association leaves its table. *)
Definition own_remove (p : nat) (c : SocketAddr) (w : Own) : Own := {|
  ow_tables := del_slot p c (ow_tables w); ow_leases := ow_leases w; ow_outcomes := ow_outcomes w;
  ow_seats := ow_seats w; ow_tasks := ow_tasks w |}.

Lemma remove_drops w p c a : own_ok w -> slot_at w p c = Some (Active a) -> drops w (own_remove p c w).
Proof.
  intros W Ha. constructor; cbn; auto; [by unfold del_slot; rewrite length_alter|by intros p' c' sl l [H _]%slot_del_inv|].
  intros r Hr. split; [done|]. intros p' c' H. apply slot_del_old; [exact H|].
  destruct (decide (p' = p)) as [->|]; [|auto]. destruct (decide (c' = c)) as [->|]; [congruence|auto].
Qed.

Lemma seated_once w p c a p' c' : own_ok w -> slot_at w p c = Some (Active a) -> slot_at w p' c' = Some (Active a) -> p' = p /\ c' = c.
Proof.
  intros W H H'. destruct (w_slot _ W _ _ _ H) as (x & Hx & _).
  apply (w_one _ W _ _ _ _ _ _ (se_lease x) H' H); cbn; by rewrite Hx.
Qed.
Lemma seated_unpublished w p c a o q ph : own_ok w -> slot_at w p c = Some (Active a) -> ow_tasks w !! o = Some (q, ph) -> publishing ph <> Some a.
Proof.
  intros W H Ht P. destruct ph; try done. injection P as ->. destruct (w_publish _ W _ _ _ _ _ _ Ht) as (x & _ & _ & _ & _ & _ & U). by eapply U.
Qed.

Lemma remove_retires w p c a : own_ok w -> slot_at w p c = Some (Active a) -> retired (own_remove p c w) a.
Proof.
  intros W H. constructor; cbn.
  - destruct (w_slot _ W _ _ _ H) as (x & Hx & _). by eapply lookup_lt_Some.
  - intros p' c' [H' N]%slot_del_inv. destruct (seated_once w p c a p' c' W H H') as [-> ->]. by destruct N.
  - intros o q ph. by eapply seated_unpublished.
Qed.

(** The owner gives a setup up. *)
Definition own_abandon (p : nat) (c : SocketAddr) (r : nat) (b : bool) (w : Own) : Own := {|
  ow_tables := if same_reservation (slot_at w p c) r then del_slot p c (ow_tables w) else ow_tables w;
  ow_leases := alter freed r (ow_leases w); ow_outcomes := alter (settle b) r (ow_outcomes w);
  ow_seats := ow_seats w; ow_tasks := ow_tasks w |}.

Lemma owner_only w o p ph c r p' c' sl : own_ok w -> ow_tasks w !! o = Some (p, ph) -> setting_up ph = Some (c, r) ->
  slot_at w p' c' = Some sl -> lease_no w sl = Some r -> p' = p /\ c' = c /\ sl = Starting r.
Proof.
  intros W Ho Hu H L. destruct sl as [r'|a]; cbn in L.
  - injection L as ->. destruct (w_slot _ W _ _ _ H) as [Hr _]. destruct (w_owned _ W _ Hr) as (o' & q & ph' & d & Ht & Hu' & Hs).
    pose proof (w_owner _ W _ _ _ _ _ _ _ _ _ Ho Ht Hu Hu') as <-. rewrite Ho in Ht. injection Ht as <- <-.
    rewrite Hu in Hu'. injection Hu' as <-. destruct (w_one _ W _ _ _ _ _ _ r H Hs) as [-> ->]; done.
  - exfalso. destruct (ow_seats w !! a) as [x|] eqn:Hx; [|done]. injection L as L. destruct ph; try done; injection Hu as -> ->.
    + destruct (w_setup _ W _ _ _ _ _ _ Ho) as [_ F]. by eapply F.
    + destruct (w_publish _ W _ _ _ _ _ _ Ho) as (y & Hy & _ & _ & E & _ & U).
      assert (a = a0) as -> by (eapply (w_seats _ W _ x _ y); congruence). by eapply U.
Qed.

Lemma same_reservation_true sl r : same_reservation sl r = true <-> sl = Some (Starting r).
Proof.
  split; [|intros ->; apply Nat.eqb_refl]. destruct sl as [[r'|]|]; try done. cbn. by intros ->%Nat.eqb_eq.
Qed.

Lemma abandon_drops w o p ph c r b : own_ok w -> ow_tasks w !! o = Some (p, ph) -> setting_up ph = Some (c, r) ->
  drops w (own_abandon p c r b w).
Proof.
  intros W Ho Hu. pose proof (fun p' c' sl => owner_only w o p ph c r p' c' sl W Ho Hu) as Only.
  assert (Htab : forall p' c' sl, slot_at (own_abandon p c r b w) p' c' = Some sl -> slot_at w p' c' = Some sl /\ lease_no w sl <> Some r).
  { intros p' c' sl. unfold slot_at at 1, own_abandon. cbn. destruct (same_reservation (slot_at w p c) r) eqn:E.
    - intros [H N]%slot_del_inv. split; [exact H|]. intros L. destruct (Only _ _ _ H L) as (-> & -> & _). by destruct N.
    - intros H. split; [exact H|]. intros L. destruct (Only _ _ _ H L) as (-> & -> & ->).
      rewrite <- not_true_iff_false, same_reservation_true in E. done. }
  constructor; cbn; rewrite ?length_alter; try done.
  - case_match; [by unfold del_slot; rewrite length_alter|done].
  - intros p' c' sl l H. destruct (Htab _ _ _ H) as [H' N]. split; [done|]. intros L.
    assert (r <> l) by congruence. by rewrite !list_lookup_alter_ne.
  - intros q [[Nq Hq]|(<- & x & Hx & Hs)]%lookup_alter_inv; [|by destruct (settle_starting b x)]. split; [done|].
    intros p' c' H. unfold slot_at, own_abandon. cbn. destruct (same_reservation (slot_at w p c) r) eqn:E; [|exact H].
    apply slot_del_old; [exact H|]. apply same_reservation_true in E.
    destruct (decide (p' = p)) as [->|]; [|auto]. destruct (decide (c' = c)) as [->|]; [congruence|auto].
  - intros q [[Nq Hq]|(<- & x & Hx & Hs)]%lookup_alter_inv; [done|]. symmetry in Hs. by rewrite (settle_published _ _ Hs) in Hx.
Qed.

(** What the owner had made is nobody's then. *)
Lemma abandon_over p c r b w : ow_outcomes (own_abandon p c r b w) !! r <> Some SetupStarting.
Proof.
  cbn. rewrite list_lookup_alter_eq. destruct (ow_outcomes w !! r) as [x|]; cbn; [|done].
  intros [= H]. by apply settle_starting in H.
Qed.
Lemma abandon_retires w o p c pl r a b : own_ok w -> ow_tasks w !! o = Some (p, LPublish c pl r a) ->
  retired (own_phase o LSelect (own_abandon p c r b w)) a.
Proof.
  intros W Ho. destruct (w_publish _ W _ _ _ _ _ _ Ho) as (x & Hx & _ & _ & Hl & _ & U).
  pose proof (abandon_drops w o p _ c r b W Ho eq_refl) as D. constructor.
  - cbn. by eapply lookup_lt_Some.
  - intros p' c' H. apply (dp_kept _ _ D _ _ _ 0%nat) in H as [H _]. by eapply U.
  - intros o' q ph [[N H]|(_ & [] & _ & [= -> ->])]%lookup_alter_inv P; [|done]. apply N. destruct ph; try done. injection P as ->.
    destruct (w_publish _ W _ _ _ _ _ _ H) as (y & Hy & _ & _ & Hl' & _). rewrite Hx in Hy. injection Hy as <-.
    rewrite Hl in Hl'. subst. exact (w_owner _ W _ _ _ _ _ _ _ _ _ Ho H eq_refl eq_refl).
Qed.

(** A table is drained. *)
Definition own_drain_slot (b : bool) (w : Own) (sl : Slot) : Own :=
  match sl with
  | Starting r => {| ow_tables := ow_tables w; ow_leases := alter freed r (ow_leases w);
                     ow_outcomes := alter (settle b) r (ow_outcomes w); ow_seats := ow_seats w; ow_tasks := ow_tasks w |}
  | Active _ => w
  end.
Definition slots_of (w : Own) (p : nat) : list Slot := map snd (map_to_list (default ∅ (ow_tables w !! p))).
Definition own_clear (p : nat) (w : Own) : Own := {|
  ow_tables := alter (fun _ => ∅) p (ow_tables w); ow_leases := ow_leases w; ow_outcomes := ow_outcomes w;
  ow_seats := ow_seats w; ow_tasks := ow_tasks w |}.
Definition own_drain (p : nat) (b : bool) (w : Own) : Own := foldl (own_drain_slot b) (own_clear p w) (slots_of w p).

Lemma slots_of_elem w p sl : sl ∈ slots_of w p <-> exists c, slot_at w p c = Some sl.
Proof.
  unfold slots_of, slot_at, slot_in. destruct (ow_tables w !! p) as [t|]; cbn.
  - rewrite list_elem_of_fmap. split.
    + intros ([c x] & -> & H%elem_of_map_to_list). eauto.
    + intros [c H]. exists (c, sl). split; [done|]. by apply elem_of_map_to_list.
  - rewrite map_to_list_empty. split; [by intros ?%elem_of_nil|by intros [? ?]].
Qed.

Lemma drain_slots_effect b l w : let w' := foldl (own_drain_slot b) w l in
  ow_tables w' = ow_tables w /\ ow_seats w' = ow_seats w /\ ow_tasks w' = ow_tasks w
  /\ length (ow_leases w') = length (ow_leases w) /\ length (ow_outcomes w') = length (ow_outcomes w)
  /\ (forall r, Starting r ∉ l -> ow_leases w' !! r = ow_leases w !! r /\ ow_outcomes w' !! r = ow_outcomes w !! r)
  /\ (forall r, ow_outcomes w' !! r = Some SetupStarting -> ow_outcomes w !! r = Some SetupStarting /\ Starting r ∉ l)
  /\ (forall r, ow_outcomes w' !! r = Some SetupPublished -> ow_outcomes w !! r = Some SetupPublished).
Proof.
  revert w. induction l as [|sl l IH]; intros w; cbn.
  - split_and!; try done. intros r H. split; [done|]. by apply not_elem_of_nil.
  - destruct (IH (own_drain_slot b w sl)) as (T & S & K & L & O & F & G & P). destruct sl as [q|a]; cbn in *.
    + rewrite !length_alter in *. split_and!; try done.
      * intros r [N N']%not_elem_of_cons. destruct (F r N') as [-> ->]. rewrite !list_lookup_alter_ne by congruence. done.
      * intros r H. destruct (G r H) as [[[N H']|(<- & x & _ & Hs)]%lookup_alter_inv N']; [|by destruct (settle_starting b x)].
        split; [done|]. apply not_elem_of_cons. split; [congruence|done].
      * intros r H. destruct (lookup_alter_inv _ _ _ _ _ (P r H)) as [[_ H']|(<- & x & Hx & Hs)]; [done|].
        symmetry in Hs. by rewrite (settle_published _ _ Hs) in Hx.
    + split_and!; try done.
      * intros r [_ N']%not_elem_of_cons. by apply F.
      * intros r H. destruct (G r H) as [H' N']. split; [done|]. by apply not_elem_of_cons.
Qed.

Lemma slot_clear_inv w p p' c sl : slot_at (own_clear p w) p' c = Some sl -> slot_at w p' c = Some sl /\ p' <> p.
Proof.
  unfold slot_at, slot_in. cbn. rewrite list_lookup_alter. destruct (decide (p = p')) as [<-|]; [|by auto].
  by destruct (ow_tables w !! p).
Qed.

Lemma drain_drops w p b : own_ok w -> drops w (own_drain p b w).
Proof.
  intros W. destruct (drain_slots_effect b (slots_of w p) (own_clear p w)) as (T & S & K & L & O & F & G & P).
  fold (own_drain p b w) in *. constructor; try done.
  - rewrite T. cbn. by rewrite length_alter.
  - intros p' c sl l. unfold slot_at at 1. rewrite T. intros [H N]%slot_clear_inv. split; [done|]. intros Hl.
    destruct (F l) as [-> ->]; [|done]. rewrite slots_of_elem. intros [c' H']. apply N. by apply (w_one _ W _ _ _ _ _ _ l H H').
  - intros r H. destruct (G r H) as [H' N]. split; [done|]. intros p' c Hs. unfold slot_at. rewrite T. unfold slot_in. cbn.
    rewrite list_lookup_alter_ne; [exact Hs|]. intros <-. apply N, slots_of_elem. eauto.
Qed.

Lemma drain_retires w p b a : own_ok w -> a ∈ omap active_of (slots_of w p) -> retired (own_drain p b w) a.
Proof.
  intros W (sl & Hsl & Ha)%list_elem_of_omap. destruct sl as [|a']; [done|]. injection Ha as ->. apply slots_of_elem in Hsl as [c H].
  destruct (drain_slots_effect b (slots_of w p) (own_clear p w)) as (T & S & K & _). fold (own_drain p b w) in *. constructor.
  - rewrite S. destruct (w_slot _ W _ _ _ H) as (x & Hx & _). by eapply lookup_lt_Some.
  - intros p' c'. unfold slot_at. rewrite T. intros [H' N]%slot_clear_inv. by destruct (seated_once w p c a p' c' W H H') as [-> _].
  - intros o q ph. rewrite K. exact (seated_unpublished w p c a o q ph W H).
Qed.

(** ** Publication *)

Definition own_publish (o p : nat) (c : SocketAddr) (pl : bytes) (r a : nat) (w : Own) : Own := {|
  ow_tables := put_slot p c (Active a) (ow_tables w); ow_leases := ow_leases w;
  ow_outcomes := alter (fun x => if terminal x then x else SetupPublished) r (ow_outcomes w); ow_seats := ow_seats w;
  ow_tasks := alter (fun t => (t.1, LSend c pl a)) o (ow_tasks w) |}.

Section Publish.
Context (w : Own) (o p : nat) (c : SocketAddr) (pl : bytes) (r a : nat) (W : own_ok w).
Context (Ho : ow_tasks w !! o = Some (p, LPublish c pl r a)) (Hs : slot_at w p c = Some (Starting r)).
Abbreviation w' := (own_publish o p c pl r a w).

Lemma publish_outcome : ow_outcomes w !! r = Some SetupStarting.
Proof. by destruct (w_slot _ W _ _ _ Hs). Qed.

Lemma publish_outcomes q : ow_outcomes w' !! q = if decide (r = q) then Some SetupPublished else ow_outcomes w !! q.
Proof.
  cbn. rewrite list_lookup_alter. destruct (decide (r = q)) as [<-|]; [|done]. by rewrite publish_outcome.
Qed.

Lemma publish_evolves : evolves w w'.
Proof.
  apply seats_evolve; cbn; [by unfold put_slot; rewrite length_alter|by rewrite length_alter|done|].
  intros b R. eapply retired_keeps; [exact R|done| |].
  - intros p' c' [(_ & _ & [= <-])|[H _]]%slot_put_inv; [|exact H]. by destruct (rt_unpublished _ _ R _ _ _ Ho).
  - intros o' p' ph [[_ H]|(_ & [] & _ & [= -> ->])]%lookup_alter_inv P; [eauto|done].
Qed.

Lemma publish_slot p' c' sl : slot_at w' p' c' = Some sl ->
  (p' = p /\ c' = c /\ sl = Active a) \/ (slot_at w p' c' = Some sl /\ (p' <> p \/ c' <> c) /\ lease_no w sl <> Some r).
Proof.
  intros [?|[H N]]%slot_put_inv; [by left|right]. split_and!; [exact H|done|]. intros L.
  destruct (owner_only w o p _ c r p' c' sl W Ho eq_refl H L) as (-> & -> & _). by destruct N.
Qed.

Lemma publish_own_ok : own_ok w'.
Proof.
  pose proof publish_evolves as E. destruct (w_publish _ W _ _ _ _ _ _ Ho) as (x & Hx & Hxp & Hxc & Hxl & Hxn & Hxu).
  assert (Hl : lease_no w (Active a) = Some r) by (cbn; by rewrite Hx; cbn; rewrite Hxl).
  destruct (w_slot _ W _ _ _ Hs) as [Hr Hlease].
  constructor; cbn [own_publish ow_tables ow_leases ow_seats ow_tasks].
  - cbn. rewrite length_alter. apply W.
  - intros p' c' sl [(-> & -> & ->)|(H & _ & N)]%publish_slot.
    + exists x. split_and!; try done. by rewrite Hxl.
    + apply (w_slot _ W) in H. destruct sl as [q|b]; [|done]. destruct H as [Hq ?]. split; [|done].
      rewrite publish_outcomes. rewrite decide_False; [done|]. intros ->. by apply N.
  - intros p1 c1 sl1 p2 c2 sl2 l H1 H2 L1 L2. change (lease_no w sl1 = Some l) in L1. change (lease_no w sl2 = Some l) in L2.
    apply publish_slot in H1 as [(-> & -> & ->)|(H1 & _ & N1)], H2 as [(-> & -> & ->)|(H2 & _ & N2)]; [done|congruence..|].
    by eapply (w_one _ W p1 c1 sl1 p2 c2 sl2).
  - intros q. rewrite publish_outcomes. destruct (decide (r = q)) as [|N]; [done|]. intros Hq.
    destruct (w_owned _ W q Hq) as (o' & p' & ph & c' & Ht & Hu & Hsl). exists o', p', ph, c'. split_and!; [|done|].
    + rewrite list_lookup_alter_ne; [done|]. intros <-. rewrite Ho in Ht. injection Ht as <- <-. by injection Hu as <- <-.
    + apply slot_put_old; [exact Hsl|]. destruct (decide (p' = p)) as [->|]; [|auto].
      destruct (decide (c' = c)) as [->|]; [congruence|auto].
  - intros o1 p1 ph1 c1 o2 p2 ph2 c2 q [[_ H1]|(_ & [] & _ & [= -> ->])]%lookup_alter_inv [[_ H2]|(_ & [] & _ & [= -> ->])]%lookup_alter_inv; try done.
    by apply (w_owner _ W o1 p1 ph1 c1 o2 p2 ph2 c2 q).
  - cbn. rewrite length_alter. apply W.
  - apply W.
  - intros o' p' ph H. assert (Q : (p' < length (ow_tables w))%nat /\ phase_ok w p' ph).
    { apply lookup_alter_inv in H as [[_ H]|(<- & [q old] & H & [= -> ->])]; [by apply (w_task _ W) in H|].
      rewrite Ho in H. injection H as <- <-. split; [by destruct (w_task _ W _ _ _ Ho)|]. by exists x. }
    unfold put_slot. rewrite length_alter. split; [apply Q|]. eapply phase_mono; [exact E|apply Q].
  - intros o' p' c' pl' q spec [[_ H]|(_ & [] & _ & [= ])]%lookup_alter_inv. destruct (w_setup _ W _ _ _ _ _ _ H) as [? F].
    split; [|done]. rewrite publish_outcomes. destruct (decide (r = q)) as [<-|]; [|done]. by destruct (F _ _ Hx).
  - intros o' p' c' pl' q b [[N H]|(_ & [] & _ & [= ])]%lookup_alter_inv.
    destruct (w_publish _ W _ _ _ _ _ _ H) as (y & Hy & ? & ? & Hyl & ? & U). exists y. split_and!; try done.
    intros p'' c'' [(_ & _ & [= ->])|(H' & _)]%publish_slot; [|by eapply U].
    apply N. assert (q = r) as -> by congruence. exact (w_owner _ W _ _ _ _ _ _ _ _ r Ho H eq_refl eq_refl).
Qed.
End Publish.

(** ** Cancellation and the end of a worker *)

Definition own_seat (a : nat) (f : Seat -> Seat) (w : Own) : Own := {|
  ow_tables := ow_tables w; ow_leases := ow_leases w; ow_outcomes := ow_outcomes w; ow_seats := alter f a (ow_seats w);
  ow_tasks := ow_tasks w |}.
Definition seat_cancelled (x : Seat) : Seat :=
  {| se_proxy := se_proxy x; se_client := se_client x; se_lease := se_lease x; se_cancelled := true; se_ended := se_ended x |}.
Definition seat_ended (x : Seat) : Seat :=
  {| se_proxy := se_proxy x; se_client := se_client x; se_lease := se_lease x; se_cancelled := se_cancelled x; se_ended := true |}.

(** [f] keeps whose association it is, and cancels retired ones only. *)
Record seat_change (w : Own) (a : nat) (f : Seat -> Seat) : Prop := {
  sc_same : forall x, se_proxy (f x) = se_proxy x /\ se_client (f x) = se_client x /\ se_lease (f x) = se_lease x
    /\ (se_cancelled x = true -> se_cancelled (f x) = true);
  sc_cancel : retired w a \/ forall x, se_cancelled (f x) = se_cancelled x;
  sc_ended : forall x, ow_seats w !! a = Some x -> se_ended (f x) = true -> se_cancelled (f x) = true
}.

Lemma seat_evolves w a f : seat_change w a f -> evolves w (own_seat a f w).
Proof.
  intros []. constructor; cbn; try done.
  - intros b x H. rewrite list_lookup_alter. destruct (decide (a = b)) as [<-|]; [|by exists x].
    exists (f x). rewrite H. split; [done|]. apply sc_same0.
  - intros b R. eapply retired_keeps; [exact R|cbn; by rewrite length_alter|done|eauto].
Qed.

Lemma seat_own_ok w a f : own_ok w -> seat_change w a f -> own_ok (own_seat a f w).
Proof.
  intros W S. pose proof (seat_evolves w a f S) as E. destruct W, S.
  assert (Hseats : forall b y, alter f a (ow_seats w) !! b = Some y -> exists x, ow_seats w !! b = Some x /\ se_lease x = se_lease y).
  { intros b y [[_ H]|(<- & x & H & ->)]%lookup_alter_inv; [eauto|]. exists x. split; [done|]. by destruct (sc_same0 x) as (_ & _ & -> & _). }
  assert (Hkeep : forall b x, ow_seats w !! b = Some x -> se_cancelled x = false -> ~ retired w b ->
    exists y, alter f a (ow_seats w) !! b = Some y /\ se_proxy y = se_proxy x /\ se_client y = se_client x
      /\ se_lease y = se_lease x /\ se_cancelled y = false).
  { intros b x H C N. rewrite list_lookup_alter. destruct (decide (a = b)) as [<-|]; [|exists x; split_and!; done].
    exists (f x). rewrite H. destruct (sc_same0 x) as (? & ? & ? & _). destruct sc_cancel0 as [|K]; [done|].
    rewrite K. split_and!; done. }
  constructor; cbn [own_seat ow_tables ow_leases ow_outcomes ow_seats ow_tasks]; try done.
  - intros p c sl H. pose proof (w_slot0 _ _ _ H) as Hok. destruct sl as [r|b]; [done|].
    destruct Hok as (x & Hx & ? & ? & Hc & ?). destruct (Hkeep b x Hx Hc) as (y & Hy & ? & ? & El & ?).
    + intros R. by eapply (rt_unseated _ _ R).
    + exists y. cbn. rewrite El. split_and!; congruence.
  - intros p1 c1 sl1 p2 c2 sl2 l H1 H2.
    rewrite (lease_no_evolves w _ p1 c1 sl1 E), (lease_no_evolves w _ p2 c2 sl2 E) by (by apply w_slot0). by apply w_one0.
  - intros b y H. split; [destruct (Hseats b y H) as (x & Hx & <-); by destruct (w_seat0 b x Hx)|].
    apply lookup_alter_inv in H as [[_ H]|(<- & x & H & ->)]; [by destruct (w_seat0 b y H)|by apply sc_ended0].
  - intros a1 x1 a2 x2 H1 H2 L. destruct (Hseats _ _ H1) as (y1 & ? & ?), (Hseats _ _ H2) as (y2 & ? & ?).
    eapply (w_seats0 _ y1 _ y2); congruence.
  - intros o p ph H. destruct (w_task0 _ _ _ H). split; [done|]. by eapply phase_mono.
  - intros o p c pl r spec H. destruct (w_setup0 _ _ _ _ _ _ H) as [? F]. split; [done|].
    intros b y Hy. destruct (Hseats _ _ Hy) as (x & Hx & <-). by eapply F.
  - intros o p c pl r b H. destruct (w_publish0 _ _ _ _ _ _ H) as (x & Hx & ? & ? & ? & Hc & U).
    destruct (Hkeep b x Hx Hc) as (y & Hy & ? & ? & ? & ?); [|exists y; split_and!; try congruence; exact U].
    intros R. by apply (rt_unpublished _ _ R _ _ _ H).
Qed.

Lemma cancel_change w a : retired w a -> seat_change w a seat_cancelled.
Proof. intros R. constructor; cbn; auto. Qed.
Lemma ended_change w a : own_ok w -> cancelled w a -> seat_change w a seat_ended.
Proof.
  intros W (x & Hx & C). constructor; cbn; auto. intros y Hy. rewrite Hx in Hy. by injection Hy as <-.
Qed.

(** ** New proxies and listeners *)

Definition own_state (w : Own) : Own := {|
  ow_tables := ow_tables w ++ [∅]; ow_leases := ow_leases w; ow_outcomes := ow_outcomes w; ow_seats := ow_seats w;
  ow_tasks := ow_tasks w |}.
Definition own_spawn (p : nat) (w : Own) : Own := {|
  ow_tables := ow_tables w; ow_leases := ow_leases w; ow_outcomes := ow_outcomes w; ow_seats := ow_seats w;
  ow_tasks := ow_tasks w ++ [(p, LSelect)] |}.

Lemma slot_snoc ts p c : slot_in (ts ++ [∅]) p c = slot_in ts p c.
Proof.
  unfold slot_in. destruct (decide (p < length ts)%nat) as [|N]; [by rewrite lookup_app_l|].
  rewrite (lookup_ge_None_2 ts) by lia. destruct (decide (p = length ts)) as [->|]; [by rewrite lookup_snoc_new|].
  rewrite lookup_ge_None_2; [done|]. rewrite length_app. cbn. lia.
Qed.

Lemma state_evolves w : evolves w (own_state w).
Proof.
  constructor; cbn; [rewrite length_app; lia|done|intros a x H; by exists x|].
  intros a R. eapply retired_keeps; [exact R|done| |eauto]. intros p c. unfold slot_at. cbn. by rewrite slot_snoc.
Qed.
Lemma state_own_ok w : own_ok w -> own_ok (own_state w).
Proof.
  intros W. pose proof (state_evolves w) as E. destruct W.
  assert (S : forall p c, slot_at (own_state w) p c = slot_at w p c) by (intros; apply slot_snoc).
  constructor; cbn [own_state ow_leases ow_outcomes ow_seats ow_tasks]; try done.
  - intros p c sl. rewrite S. apply w_slot0.
  - intros p1 c1 sl1 p2 c2 sl2 l. rewrite !S. by apply w_one0.
  - intros r Hr. destruct (w_owned0 r Hr) as (o & p & ph & c & ? & ? & ?). exists o, p, ph, c. by rewrite S.
  - intros o p ph H. destruct (w_task0 _ _ _ H). split; [cbn; rewrite length_app; lia|]. by eapply phase_mono.
  - intros o p c pl r a H. destruct (w_publish0 _ _ _ _ _ _ H) as (x & ? & ? & ? & ? & ? & U). exists x. split_and!; try done.
    intros p' c'. rewrite S. apply U.
Qed.

Lemma spawn_evolves w p : evolves w (own_spawn p w).
Proof.
  apply seats_evolve; try done. intros a R. eapply retired_keeps; [exact R|done|done|].
  intros o' p' ph [H|[_ [= -> ->]]]%lookup_snoc_inv P; [eauto|done].
Qed.
Lemma spawn_own_ok w p : own_ok w -> (p < length (ow_tables w))%nat -> own_ok (own_spawn p w).
Proof.
  intros W Hp. pose proof (spawn_evolves w p) as E. destruct W.
  constructor; cbn [own_spawn ow_tables ow_leases ow_outcomes ow_seats ow_tasks]; try done.
  - intros r Hr. destruct (w_owned0 r Hr) as (o & q & ph & c & ? & ? & ?). exists o, q, ph, c. split; [by apply lookup_snoc_old|done].
  - intros o1 p1 ph1 c1 o2 p2 ph2 c2 r [H1|[_ [= -> ->]]]%lookup_snoc_inv [H2|[_ [= -> ->]]]%lookup_snoc_inv; try done. by apply (w_owner0 o1 p1 ph1 c1 o2 p2 ph2 c2 r).
  - intros o q ph [H|[_ [= -> ->]]]%lookup_snoc_inv; [|done]. destruct (w_task0 _ _ _ H). split; [done|]. by eapply phase_mono.
  - intros o q c pl r spec [H|[_ [= ]]]%lookup_snoc_inv. by eapply w_setup0.
  - intros o q c pl r a [H|[_ [= ]]]%lookup_snoc_inv. by eapply w_publish0.
Qed.
