(* ===== verification/UdpInv.v ===== *)
(** * What no interleaving of the datagram runtime breaks

    The invariant: who owns what ([UdpOwn]), and beside it the counts of
    leases, the buffered bytes, the definitions, the history and the ids.
    Each part reads its own projection of the state, so a step has to answer
    only for the parts it touches. *)

From Stdlib Require Import Bool.
From stdpp Require Import base list gmap strings.
From S2P Require Import Prelude Policy DatagramPlan DatagramState Wire Server UdpState UdpOwn.

(** ** Lists changed in place *)

Lemma lookup_map {A B} (g : A -> B) (l : list A) i : map g l !! i = g <$> (l !! i).
Proof. apply list_lookup_fmap. Qed.

Lemma map_alter_same {A B} (g : A -> B) (f : A -> A) i (l : list A) : (forall x, g (f x) = g x) -> map g (alter f i l) = map g l.
Proof. intros H. revert i. induction l as [|x l IH]; intros [|i]; cbn; f_equal; auto. Qed.

Lemma map_alter {A B} (g : A -> B) (f : A -> A) (h : B -> B) (i : nat) (l : list A) :
  (forall x, l !! i = Some x -> g (f x) = h (g x)) -> map g (alter f i l) = alter h i (map g l).
Proof.
  intros H. apply list_eq. intros j. rewrite lookup_map, !list_lookup_alter, lookup_map.
  destruct (decide (i = j)) as [<-|]; [|by rewrite lookup_map].  destruct (l !! i) as [x|] eqn:E; cbn; [|done]. by rewrite H.
Qed.

Lemma map_alter_at {A B} (g : A -> B) (f : A -> A) (i : nat) (l : list A) x : l !! i = Some x -> g (f x) = g x -> map g (alter f i l) = map g l.
Proof.
  intros H E. rewrite (map_alter g f (fun y => y)); [by apply list_alter_id|]. intros y Hy. rewrite H in Hy. by injection Hy as <-.
Qed.

Lemma insert_alter {A} (i : nat) (x y : A) (f : A -> A) (l : list A) : l !! i = Some x -> f x = y -> <[i := y]> l = alter f i l.
Proof.
  intros H <-. apply list_eq. intros j. rewrite list_lookup_alter, list_lookup_insert, H.
  apply lookup_lt_Some in H. destruct (decide (i = j)) as [<-|]; [by rewrite decide_True|]. by rewrite decide_False by tauto.
Qed.

Lemma zsum_alter {A} (g : A -> Z) (f : A -> A) (i : nat) (l : list A) x : l !! i = Some x -> zsum (map g (alter f i l)) = zsum (map g l) - g x + g (f x).
Proof.
  revert i. induction l as [|y l IH]; intros [|i] H; [done..| |].
  - injection H as ->. change (g (f x) + zsum (map g l) = g x + zsum (map g l) - g x + g (f x)). lia.
  - specialize (IH i H). change (g y + zsum (map g (alter f i l)) = g y + zsum (map g l) - g x + g (f x)). lia.
Qed.

(** Limits are [usize]s. *)
Record limits_typed (l : DatagramRuntimeLimits) : Prop := {
  lt_associations : 0 <= dl_max_associations l;
  lt_proxies : 0 <= dl_max_proxies l;
  lt_ingress : 0 <= dl_ingress_per_association l <= USIZE_MAX;
  lt_bytes : 0 <= dl_max_ingress_queue_bytes l;
  lt_history : 0 <= dl_history l
}.

(** ** Leases *)

Definition live (x : CapacityLease) : Z := if le_released x then 0 else 1.
Definition live_in (p : nat) (x : CapacityLease) : Z := if Nat.eqb (le_proxy x) p then live x else 0.

Record lease_inv (lims : DatagramRuntimeLimits) (leases : list CapacityLease) (active : Z) (caps : list (Z * Z)) : Prop := {
  lk_total : active = zsum (map live leases);
  lk_cap : active <= dl_max_associations lims;
  lk_proxies : forall p n m, caps !! p = Some (n, m) -> n = zsum (map (live_in p) leases) /\ n <= m;
  lk_range : forall l x, leases !! l = Some x -> (le_proxy x < length caps)%nat
}.

(** ** Bytes on their way to workers *)

Definition load_size (x : list Ingress * option Ingress * Z * bool) : Z :=
  match x with (q, h, _, _) => zsum (map size_of q) + match h with Some i => size_of i | None => 0 end end.
Record buffer_inv (lims : DatagramRuntimeLimits) (buffered : Z) (loads : list (list Ingress * option Ingress * Z * bool)) : Prop := {
  bf_total : buffered = zsum (map load_size loads);
  bf_cap : buffered <= dl_max_ingress_queue_bytes lims;
  bf_each : forall a q h n e, loads !! a = Some (q, h, n, e) ->
    zlen q <= dl_ingress_per_association lims /\ (e = true -> q = [] /\ h = None) /\ (e = false -> n = zlen q)
}.

(** ** Definitions *)

Abbreviation dcell_ok := (@cell_ok DatagramPlan string dplan_validate).

(** [NonZeroU64] fields. *)
Definition limits_nonzero (l : DatagramQueueLimits) : Prop :=
  1 <= max_queued_datagrams l /\ 1 <= max_queued_bytes l /\ 1 <= max_datagram_bytes l.

Record spec_ok (lims : DatagramRuntimeLimits) (s : DatagramProxySpec) : Prop := {
  sk_valid : datagram_spec_validate s (dl_max_associations lims) = Ok tt;
  sk_cap : 0 <= ds_max_associations s;
  sk_up : dcell_ok (ds_upstream_policy s);
  sk_down : dcell_ok (ds_downstream_policy s);
  sk_nonzero : limits_nonzero (ds_queue_limits s)
}.

Record proxies_inv (lims : DatagramRuntimeLimits) (proxies : gmap string ManagedDatagram) (specs : list DatagramProxySpec) (listeners : nat) : Prop := {
  pk_entries : map_Forall (fun name m => (exists s, specs !! mg_state m = Some s /\ ds_name s = name)
    /\ forall o, mg_listener m = Some o -> (o < listeners)%nat) proxies;
  pk_count : Z.of_nat (size proxies) <= dl_max_proxies lims;
  pk_specs : Forall (spec_ok lims) specs
}.

(** ** Identities *)

Definition identity (a : Association) := (as_id a, as_client a, ar_id (as_record a), ar_client (as_record a)).
Record ids_inv (next : Z) (ids : list (Z * SocketAddr * Z * SocketAddr)) : Prop := {
  ik_next : next = wrap64 (zlen ids + 1);
  ik_each : forall a i c j d, ids !! a = Some (i, c, j, d) -> i = wrap64 (Z.of_nat a + 1) /\ j = i /\ d = c
}.

(** ** The whole *)

Definition seat_of (a : Association) : Seat := {|
  se_proxy := as_proxy a; se_client := as_client a; se_lease := as_lease a; se_cancelled := as_cancelled a; se_ended := as_ended a |}.
Definition task_of (l : Listener) : nat * ListenerPhase := (lo_state l, lo_phase l).
Definition own_of (s : Datagrams) : Own := {|
  ow_tables := map px_table (dr_states s); ow_leases := dr_leases s; ow_outcomes := map rv_outcome (dr_reservations s);
  ow_seats := map seat_of (dr_associations s); ow_tasks := map task_of (dr_listeners s) |}.

Definition cap_of (x : ProxyState) : Z * Z := (px_active x, ds_max_associations (px_spec x)).
Definition load_of (a : Association) := (as_queue a, as_hand a, as_pending a, as_ended a).

Record datagrams_ok (s : Datagrams) : Prop := {
  dk_limits : limits_typed (dr_limits s);
  dk_own : own_ok (own_of s);
  dk_numbers : forall r l, map rv_lease (dr_reservations s) !! r = Some l -> l = r;
  dk_leases : lease_inv (dr_limits s) (dr_leases s) (dr_active s) (map cap_of (dr_states s));
  dk_buffers : buffer_inv (dr_limits s) (dr_buffered s) (map load_of (dr_associations s));
  dk_proxies : proxies_inv (dr_limits s) (dr_proxies s) (map px_spec (dr_states s)) (length (dr_listeners s));
  dk_history : zlen (dr_history s) <= dl_history (dr_limits s);
  dk_ids : ids_inv (dr_next_association s) (map identity (dr_associations s));
  dk_clock : 0 <= dr_clock s
}.

Definition names (s : Datagrams) : list string := map ds_name (map px_spec (dr_states s)).

(** The cancellation tokens of the listeners. *)
Definition tokens (s : Datagrams) : list bool := map lo_cancelled (dr_listeners s).

Record keeps (s s' : Datagrams) : Prop := {
  kp_own : evolves (own_of s) (own_of s');
  kp_limits : dr_limits s' = dr_limits s;
  kp_listeners : (length (dr_listeners s) <= length (dr_listeners s'))%nat;
  kp_names : names s `prefix_of` names s';
  kp_cancelled : forall o, tokens s !! o = Some true -> tokens s' !! o = Some true
}.

#[export] Instance keeps_preorder : PreOrder keeps.
Proof. split; [intros s; by constructor|]. intros a b c [] []. constructor; [by etrans|congruence|lia|by etrans|auto]. Qed.

Definition good (s s' : Datagrams) : Prop := datagrams_ok s' /\ keeps s s'.
Lemma udp_good_refl s : datagrams_ok s -> good s s.
Proof. done. Qed.
Lemma good_trans a b c : good a b -> good b c -> good a c.
Proof. intros [_ K] [I K']. split; [done|by etrans]. Qed.

Lemma tokens_length s s' : tokens s' = tokens s -> length (dr_listeners s') = length (dr_listeners s).
Proof. unfold tokens. intros E. rewrite <- !(length_map lo_cancelled). by rewrite E. Qed.

(** What a step that only moves ownership leaves alone. *)
Definition rest (s : Datagrams) :=
  (dr_limits s, dr_leases s, dr_active s, map rv_lease (dr_reservations s), map cap_of (dr_states s), dr_buffered s,
   map load_of (dr_associations s), dr_proxies s, map px_spec (dr_states s), tokens s, dr_history s,
   dr_next_association s, map identity (dr_associations s), dr_clock s).

Lemma rest_good s s' : datagrams_ok s -> own_ok (own_of s') -> evolves (own_of s) (own_of s') -> rest s' = rest s -> good s s'.
Proof.
  intros [] W E. unfold rest. intros [= E1 E2 E3 E4 E5 E6 E7 E8 E9 E10 E11 E12 E13 E14].
  assert (E15 : length (dr_listeners s') = length (dr_listeners s)) by (apply tokens_length; exact E10).
  split; constructor; unfold names; rewrite ?E15, ?E1, ?E2, ?E3, ?E4, ?E5, ?E6, ?E7, ?E8, ?E9, ?E10, ?E11, ?E12, ?E13, ?E14; done.
Qed.

Lemma same_own_good s s' : datagrams_ok s -> own_of s' = own_of s -> rest s' = rest s -> good s s'.
Proof. intros I E. apply rest_good; [done|rewrite E; apply I|by rewrite E]. Qed.

Ltac rest_same := unfold rest, tokens; cbn; by rewrite ?map_alter_same by done.

(** ** Tables, seen from the state *)

Lemma slot_table s p c : slot_at (own_of s) p c = table_of p s !! c.
Proof.
  unfold slot_at, slot_in, table_of. cbn. rewrite lookup_map.
  by destruct (dr_states s !! p) as [x|].
Qed.
Lemma seat_lookup s a x : dr_associations s !! a = Some x -> ow_seats (own_of s) !! a = Some (seat_of x).
Proof. intros H. cbn. by rewrite lookup_map, H. Qed.
Lemma seat_lookup_inv s a y : ow_seats (own_of s) !! a = Some y -> exists x, dr_associations s !! a = Some x /\ y = seat_of x.
Proof.
  cbn. rewrite lookup_map. destruct (dr_associations s !! a) as [x|]; cbn; [|done].
  intros [= <-]. eauto.
Qed.
Lemma task_lookup s o l : dr_listeners s !! o = Some l -> ow_tasks (own_of s) !! o = Some (lo_state l, lo_phase l).
Proof. intros H. cbn. by rewrite lookup_map, H. Qed.
Lemma outcome_lookup s r : ow_outcomes (own_of s) !! r = rv_outcome <$> (dr_reservations s !! r).
Proof. cbn. by rewrite lookup_map. Qed.
Lemma task_state s o l : datagrams_ok s -> dr_listeners s !! o = Some l -> exists x, dr_states s !! lo_state l = Some x.
Proof.
  intros I H. destruct (w_task _ (dk_own _ I) _ _ _ (task_lookup _ _ _ H)) as [B _]. cbn in B. rewrite length_map in B.
  by apply lookup_lt_is_Some.
Qed.

(** ** Steps that move ownership only *)

Lemma own_to_phase o ph s : own_of (to_phase o ph s) = own_phase o ph (own_of s).
Proof. unfold own_of, own_phase. cbn. f_equal. by apply map_alter. Qed.

Lemma to_phase_good s o l ph : datagrams_ok s -> dr_listeners s !! o = Some l -> setting_up ph = None ->
  phase_ok (own_of s) (lo_state l) ph ->
  (forall c r, setting_up (lo_phase l) = Some (c, r) -> ow_outcomes (own_of s) !! r <> Some SetupStarting) ->
  good s (to_phase o ph s).
Proof.
  intros I H S P Q. apply rest_good; rewrite ?own_to_phase; [done| | |rest_same].
  - eapply phase_own_ok; [apply I|by apply task_lookup|done..].
  - apply phase_evolves. by destruct ph.
Qed.

(** What the counters and the records of evidence hold is nobody's business. *)
Lemma counter_good s p f : datagrams_ok s -> (forall x, px_table (f x) = px_table x) -> (forall x, cap_of (f x) = cap_of x) ->
  (forall x, px_spec (f x) = px_spec x) -> good s (on_state p f s).
Proof.
  intros I T C S. apply same_own_good; [done| |].
  - unfold own_of. cbn. f_equal. by apply map_alter_same.
  - unfold rest. cbn. by rewrite (map_alter_same cap_of), (map_alter_same px_spec).
Qed.

Lemma record_good s a f : datagrams_ok s -> (forall r, ar_id (f r) = ar_id r) -> (forall r, ar_client (f r) = ar_client r) ->
  good s (on_record a f s).
Proof.
  intros I F C. apply same_own_good; [done| |].
  - unfold own_of. cbn. f_equal. by apply map_alter_same.
  - unfold rest. cbn. rewrite (map_alter_same load_of), (map_alter_same identity); [done| |done].
    intros x. unfold identity. cbn. by rewrite F, C.
Qed.

(** A listener is told to stop, or to leave its associations alone. *)
Lemma cancel_listener_good s o : datagrams_ok s -> (o < length (dr_listeners s))%nat ->
  good s (cancel_listener o s) /\ tokens (cancel_listener o s) !! o = Some true.
Proof.
  intros I [l Hl]%lookup_lt_is_Some. assert (E : own_of (cancel_listener o s) = own_of s).
  { unfold own_of. cbn. f_equal. by apply map_alter_same. }
  assert (T : forall o', tokens s !! o' = Some true -> tokens (cancel_listener o s) !! o' = Some true).
  { unfold tokens. cbn. intros o'. rewrite !lookup_map, list_lookup_alter. destruct (decide (o = o')) as [<-|]; [|done].
    by destruct (dr_listeners s !! o). }
  split.
  - destruct I. split; constructor; rewrite ?E; try done; cbn; by rewrite length_alter.
  - unfold tokens. cbn. by rewrite lookup_map, list_lookup_alter_eq, Hl.
Qed.
Lemma keep_on_exit_good s o : datagrams_ok s -> good s (keep_on_exit o s).
Proof.
  intros I. apply same_own_good; [done| |rest_same]. unfold own_of. cbn. f_equal. by apply map_alter_same.
Qed.

Lemma remove_good s p c a : datagrams_ok s -> table_of p s !! c = Some (Active a) ->
  good s (set_table p (delete c (table_of p s)) s) /\ retired (own_of (set_table p (delete c (table_of p s)) s)) a.
Proof.
  intros I H. assert (E : own_of (set_table p (delete c (table_of p s)) s) = own_remove p c (own_of s)).
  { unfold own_of, own_remove. cbn. f_equal. apply map_alter. intros x Hx. unfold table_of. by rewrite Hx. }
  rewrite <- slot_table in H. split; [|rewrite E; by apply remove_retires; [apply I|]].
  pose proof (remove_drops _ p c a (dk_own _ I) H) as D. apply rest_good; rewrite ?E; [done| | |rest_same].
  - by eapply drops_own_ok; [apply I|].
  - by apply drops_evolves.
Qed.

Lemma own_on_seat s a f g : (forall x, dr_associations s !! a = Some x -> seat_of (f x) = g (seat_of x)) ->
  own_of (on_association a f s) = own_seat a g (own_of s).
Proof. intros H. unfold own_of, own_seat. cbn. f_equal. by apply map_alter. Qed.

Lemma begin_stop_good s a b : datagrams_ok s -> retired (own_of s) a ->
  good s (begin_stop a b s) /\ cancelled (own_of (begin_stop a b s)) a.
Proof.
  intros I R. assert (E : own_of (begin_stop a b s) = own_seat a seat_cancelled (own_of s)).
  { apply own_on_seat. intros x _. by destruct b. }
  pose proof (cancel_change _ a R) as C. rewrite E. split.
  - apply rest_good; rewrite ?E; [done|by apply seat_own_ok; [apply I|]|by apply seat_evolves|].
    unfold rest, begin_stop. cbn. rewrite (map_alter_same load_of), (map_alter_same identity); [done|by destruct b..].
  - destruct (lookup_lt_is_Some_2 _ _ (rt_made _ _ R)) as [x Hx]. exists (seat_cancelled x). cbn.
    split; [|done]. cbn in Hx. by rewrite list_lookup_alter_eq, Hx.
Qed.
