(* ===== verification/UdpSteps.v ===== *)
(** * Every step of the datagram runtime keeps the invariant

    Leases taken and released, setups started, abandoned and published,
    datagrams queued and taken, proxies and listeners made: each primitive of
    [UdpState] is a [good] step. *)

From Stdlib Require Import Bool.
From stdpp Require Import base list gmap strings.
From S2P Require Import Prelude Policy DatagramPlan DatagramState Wire Server UdpState UdpOwn UdpInv.

(** ** Leases *)

Lemma zsum_snoc l x : zsum (l ++ [x]) = zsum l + x.
Proof. rewrite zsum_app. cbn. lia. Qed.

Lemma live_range x : 0 <= live x <= 1.
Proof. unfold live. destruct (le_released x); lia. Qed.

Lemma zsum_live_nonneg {A} (f : A -> Z) l : (forall x, 0 <= f x) -> 0 <= zsum (map f l).
Proof. intros H. apply zsum_nonneg. induction l; cbn; constructor; auto. Qed.

Lemma acquire_inv lims leases active caps p n m : lease_inv lims leases active caps -> caps !! p = Some (n, m) ->
  n + 1 <= m -> active + 1 <= dl_max_associations lims ->
  lease_inv lims (leases ++ [{| le_proxy := p; le_released := false |}]) (active + 1) (alter (fun c => (c.1 + 1, c.2)) p caps).
Proof.
  intros [] Hp N A. constructor.
  - rewrite map_app, zsum_app, lk_total. cbn. lia.
  - done.
  - intros q n' m' H. rewrite map_app, zsum_app. unfold live_in at 2, live at 1. cbn.
    apply lookup_alter_inv in H as [[Nq H]|(<- & [n0 m0] & H & [= -> ->])].
    + destruct (lk_proxies _ _ _ H) as [-> ?]. rewrite (proj2 (Nat.eqb_neq p q)) by done. lia.
    + rewrite Hp in H. injection H as <- <-. destruct (lk_proxies _ _ _ Hp) as [-> ?]. rewrite Nat.eqb_refl. lia.
  - intros l x. rewrite length_alter. intros [H|[_ ->]]%lookup_snoc_inv; [by eapply lk_range|]. cbn. by eapply lookup_lt_Some.
Qed.

Lemma release_inv lims leases active caps l x : lease_inv lims leases active caps -> leases !! l = Some x -> le_released x = false ->
  lease_inv lims (alter freed l leases) (active - 1) (alter (fun c => (c.1 - 1, c.2)) (le_proxy x) caps).
Proof.
  intros [] Hl R. assert (Hlive : live x = 1) by (unfold live; by rewrite R).
  constructor.
  - rewrite (zsum_alter live freed l leases x Hl), lk_total. cbn. lia.
  - lia.
  - intros q n m H. rewrite (zsum_alter (live_in q) freed l leases x Hl).
    assert (F : live_in q (freed x) = 0) by (unfold live_in; cbn; by case_match). rewrite F. unfold live_in at 2. rewrite Hlive.
    apply lookup_alter_inv in H as [[N H]|(<- & [n0 m0] & H & [= -> ->])]; destruct (lk_proxies _ _ _ H) as [-> ?].
    + rewrite (proj2 (Nat.eqb_neq _ q)) by done. lia.
    + rewrite Nat.eqb_refl. lia.
  - intros l' y. rewrite length_alter. intros [[_ H]|(<- & z & H & ->)]%lookup_alter_inv; [by eapply lk_range|]. by eapply (lk_range _ z).
Qed.

Lemma freed_id (l : nat) (leases : list CapacityLease) x : leases !! l = Some x -> le_released x = true -> alter freed l leases = leases.
Proof.
  intros H R. rewrite <- (insert_alter l x x freed leases H); [by apply list_insert_id|]. destruct x. cbn in R. by subst.
Qed.

(** ** [release] *)

Lemma own_release l s : own_of (release l s) = own_free l (own_of s).
Proof.
  unfold release, own_free, own_of. cbn. destruct (dr_leases s !! l) as [x|] eqn:E; cbn.
  - destruct (le_released x) eqn:R; cbn; [by rewrite (freed_id l _ x)|]. rewrite map_alter_same by done. f_equal.
    by apply (insert_alter l x).
  - f_equal. symmetry. apply list_eq. intros j. rewrite list_lookup_alter. destruct (decide (l = j)) as [<-|]; [|done]. by rewrite E.
Qed.

(** Everything but ownership, for a step that may release leases. *)
Definition others (s : Datagrams) :=
  (dr_limits s, map rv_lease (dr_reservations s), dr_buffered s, map load_of (dr_associations s), dr_proxies s,
   map px_spec (dr_states s), tokens s, dr_history s, dr_next_association s, map identity (dr_associations s), dr_clock s).
Abbreviation leases_ok := (fun s => lease_inv (dr_limits s) (dr_leases s) (dr_active s) (map cap_of (dr_states s))).

Lemma others_good s s' : datagrams_ok s -> own_ok (own_of s') -> evolves (own_of s) (own_of s') -> leases_ok s' ->
  others s' = others s -> good s s'.
Proof.
  intros [] W E L. unfold others. intros [= E1 E2 E3 E4 E5 E6 E7 E8 E9 E10 E11].
  assert (E12 : length (dr_listeners s') = length (dr_listeners s)) by (apply tokens_length; exact E7).
  split; constructor; unfold names; rewrite ?E12, ?E1, ?E2, ?E3, ?E4, ?E5, ?E6, ?E7, ?E8, ?E9, ?E10, ?E11; try done. by rewrite E1 in L.
Qed.

Lemma release_others l s : others (release l s) = others s.
Proof.
  unfold release. destruct (dr_leases s !! l) as [x|]; [|done]. destruct (le_released x); [done|].
  unfold others. cbn. by rewrite map_alter_same.
Qed.

Lemma release_leases l s : leases_ok s -> leases_ok (release l s).
Proof.
  intros L. unfold release. destruct (dr_leases s !! l) as [x|] eqn:E; [|done]. destruct (le_released x) eqn:R; [done|].
  cbn. rewrite (insert_alter l x _ freed) by done.
  rewrite (map_alter cap_of _ (fun c => (c.1 - 1, c.2))); [|done]. by apply release_inv.
Qed.

Lemma release_good l s : datagrams_ok s -> unused (own_of s) l -> good s (release l s).
Proof.
  intros I U. pose proof (free_drops _ l U) as D. apply others_good; rewrite ?own_release; [done| | | |].
  - eapply drops_own_ok; [apply I|done].
  - by apply drops_evolves.
  - apply release_leases, I.
  - apply release_others.
Qed.

(** ** Abandoned setups *)

Lemma own_transition r b s : own_of (transition r (SetupAbandoned b) s) = {|
  ow_tables := ow_tables (own_of s); ow_leases := ow_leases (own_of s); ow_outcomes := alter (settle b) r (ow_outcomes (own_of s));
  ow_seats := ow_seats (own_of s); ow_tasks := ow_tasks (own_of s) |}.
Proof. unfold own_of. cbn. f_equal. apply map_alter. intros [[] l] _; done. Qed.

Lemma transition_others r o s : others (transition r o s) = others s.
Proof. unfold others. cbn. rewrite map_alter_same; [done|]. intros [[] l]; done. Qed.

Lemma release_reservation_lease r s : (forall q l, map rv_lease (dr_reservations s) !! q = Some l -> l = q) ->
  release_reservation r s = match dr_reservations s !! r with Some _ => release r s | None => s end.
Proof.
  intros N. unfold release_reservation. destruct (dr_reservations s !! r) as [v|] eqn:E; [|done].
  by rewrite (N r (rv_lease v)) by (by rewrite lookup_map, E).
Qed.

(** [transition] then [release], wherever the state stands. *)
Definition numbers_ok (s : Datagrams) : Prop := forall r l, map rv_lease (dr_reservations s) !! r = Some l -> l = r.

Lemma abandon_steps r b s : numbers_ok s -> leases_ok s -> (r < length (dr_reservations s))%nat ->
  let s' := release_reservation r (transition r (SetupAbandoned b) s) in
  own_of s' = own_drain_slot b (own_of s) (Starting r) /\ leases_ok s' /\ others s' = others s.
Proof.
  intros N L [v Hv]%lookup_lt_is_Some. cbn zeta. pose proof (transition_others r (SetupAbandoned b) s) as O.
  rewrite release_reservation_lease.
  2:{ intros q l H. apply (N q l). unfold others in O. congruence. }
  cbn [transition set_dr_reservations dr_reservations]. rewrite list_lookup_alter_eq, Hv. cbn [fmap option_fmap option_map]. split_and!.
  - by rewrite own_release, own_transition.
  - by apply release_leases.
  - by rewrite release_others.
Qed.

(** [s'] does on the whole state what [w'] does on ownership. *)
Lemma drops_good s s' w' : datagrams_ok s -> own_of s' = w' -> drops (own_of s) w' -> leases_ok s' -> others s' = others s -> good s s'.
Proof.
  intros I <- D L O. apply others_good; [done| | |done|done].
  - eapply drops_own_ok; [apply I|done].
  - by apply drops_evolves.
Qed.

Lemma abandon_good s o l c r b : datagrams_ok s -> dr_listeners s !! o = Some l -> setting_up (lo_phase l) = Some (c, r) ->
  good s (abandon_starting (lo_state l) c r b s)
  /\ own_of (abandon_starting (lo_state l) c r b s) = own_abandon (lo_state l) c r b (own_of s).
Proof.
  intros I Ho Hu. set (p := lo_state l). assert (Hr : (r < length (dr_reservations s))%nat).
  { destruct (w_task _ (dk_own _ I) _ _ _ (task_lookup _ _ _ Ho)) as [_ B].
    destruct (lo_phase l); try done; injection Hu as -> ->; cbn in B; by rewrite length_map in B. }
  pose proof (abandon_drops _ o p _ c r b (dk_own _ I) (task_lookup _ _ _ Ho) Hu) as D.
  unfold abandon_starting. set (s1 := if same_reservation _ _ then _ else _).
  assert (E1 : own_of s1 = {| ow_tables := ow_tables (own_abandon p c r b (own_of s)); ow_leases := ow_leases (own_of s);
    ow_outcomes := ow_outcomes (own_of s); ow_seats := ow_seats (own_of s); ow_tasks := ow_tasks (own_of s) |}
    /\ others s1 = others s /\ map cap_of (dr_states s1) = map cap_of (dr_states s) /\ dr_leases s1 = dr_leases s
    /\ dr_active s1 = dr_active s /\ dr_reservations s1 = dr_reservations s).
  { unfold s1. cbn [own_abandon ow_tables]. rewrite slot_table. destruct (same_reservation _ _) eqn:S; [|done]. split_and!; try done.
    - unfold own_of. cbn. f_equal. apply map_alter. intros x Hx. unfold table_of. by rewrite Hx.
    - unfold others. cbn. by rewrite map_alter_same.
    - cbn. by rewrite map_alter_same. }
  destruct E1 as (E1 & O1 & C1 & L1 & A1 & R1).
  destruct (abandon_steps r b s1) as (E & L & O).
  - intros q m. rewrite R1. apply I.
  - cbn. rewrite L1, A1, C1. unfold others in O1. replace (dr_limits s1) with (dr_limits s) by congruence. apply I.
  - by rewrite R1.
  - rewrite O1 in O. rewrite E1 in E. split; [|exact E]. eapply drops_good; [done|exact E|exact D|done|done].
Qed.

(** ** Draining *)

Lemma others_reservations s s' : others s' = others s -> length (dr_reservations s') = length (dr_reservations s).
Proof. unfold others. intros H. rewrite <- !(length_map rv_lease). congruence. Qed.
Lemma others_numbers s s' : others s' = others s -> numbers_ok s -> numbers_ok s'.
Proof. unfold others, numbers_ok. intros [= _ -> _ _ _ _ _ _ _ _ _]. done. Qed.

Lemma drain_steps b l s : numbers_ok s -> leases_ok s -> (forall r, Starting r ∈ l -> (r < length (dr_reservations s))%nat) ->
  let s' := foldl (drain_slot b) s l in
  own_of s' = foldl (own_drain_slot b) (own_of s) l /\ leases_ok s' /\ others s' = others s.
Proof.
  revert s. induction l as [|[r|a] l IH]; intros s N L B; cbn; [done| |].
  - destruct (abandon_steps r b s N L) as (E & L' & O); [apply B; left|].
    destruct (IH (release_reservation r (transition r (SetupAbandoned b) s))) as (E' & L'' & O').
    + by eapply others_numbers.
    + done.
    + intros q Hq. rewrite (others_reservations _ _ O). apply B. by right.
    + rewrite E' , E. by rewrite O' , O.
  - apply IH; [done|done|]. intros q Hq. apply B. by right.
Qed.

Lemma slots_table s p : slots_of (own_of s) p = map snd (map_to_list (table_of p s)).
Proof. unfold slots_of, table_of. cbn. rewrite lookup_map. by destruct (dr_states s !! p). Qed.

Lemma drain_good s p b : datagrams_ok s -> good s (drain_associations p b s).2
  /\ forall a, a ∈ (drain_associations p b s).1 -> retired (own_of (drain_associations p b s).2) a.
Proof.
  intros I. unfold drain_associations. cbn [fst snd]. rewrite <- slots_table.
  assert (C : own_of (set_table p ∅ s) = own_clear p (own_of s)).
  { unfold own_of, own_clear. cbn. f_equal. by apply map_alter. }
  destruct (drain_steps b (slots_of (own_of s) p) (set_table p ∅ s)) as (E & L & O).
  - exact (dk_numbers _ I).
  - cbn. rewrite map_alter_same by done. apply I.
  - intros r [c H]%slots_of_elem. destruct (w_slot _ (dk_own _ I) _ _ _ H) as [Hr%lookup_lt_Some _]. cbn in *. by rewrite length_map in Hr.
  - rewrite C in E. split.
    + eapply drops_good; [done|exact E|by apply drain_drops, I|exact L|]. rewrite O. unfold others. cbn. by rewrite map_alter_same.
    + intros a Ha. rewrite E. by apply drain_retires; [apply I|].
Qed.

(** ** The end of an association *)

Lemma zlen_retain limit x h : 0 <= limit -> zlen h <= limit -> zlen (retain limit x h) <= limit.
Proof.
  intros P H. unfold retain. destruct (Z.eqb_spec limit 0) as [->|N]; [done|].
  rewrite zlen_app. cbn [length zlen]. unfold zdrop, zlen in *. rewrite length_drop. cbn [length]. lia.
Qed.

Lemma end_stop_good s a now : datagrams_ok s -> retired (own_of s) a -> good s (end_stop a now s).
Proof.
  intros I R. unfold end_stop. destruct (dr_associations s !! a) as [x|] eqn:Hx; [|done].
  pose proof (retired_unused _ a (seat_of x) (dk_own _ I) R (seat_lookup _ _ _ Hx)) as U.
  destruct (release_good (as_lease x) s I U) as [I' K]. split; [|split; apply K].
  destruct I'. constructor; try done. cbn. pose proof (zlen_nonneg (dr_history (release (as_lease x) s))).
  apply zlen_retain; [lia|done].
Qed.

(** ** A setup starts *)

Definition acquired (p : nat) (s : Datagrams) : Datagrams :=
  set_dr_leases (dr_leases s ++ [{| le_proxy := p; le_released := false |}])
    (set_dr_active (dr_active s + 1) (on_state p (fun x => set_px_active (px_active x + 1) x) s)).

Lemma try_acquire_Some p s x l s' : dr_states s !! p = Some x -> try_acquire p s = Some (l, s') ->
  l = length (dr_leases s) /\ s' = acquired p s /\ px_active x + 1 <= ds_max_associations (px_spec x)
  /\ dr_active s + 1 <= dl_max_associations (dr_limits s).
Proof.
  intros H. unfold try_acquire. rewrite H. case_split; [|done]. case_split; [|done]. bools. intros [= <- <-].
  split_and!; [done| |lia|lia]. unfold acquired. f_equal. f_equal. unfold on_state. f_equal.
  apply list_eq. intros j. rewrite !list_lookup_alter. destruct (decide (p = j)) as [<-|]; [|done]. by rewrite H.
Qed.

Lemma reserve_good s o l c pl x : datagrams_ok s -> dr_listeners s !! o = Some l -> lo_phase l = LLookup c pl ->
  dr_states s !! lo_state l = Some x -> table_of (lo_state l) s !! c = None ->
  px_active x + 1 <= ds_max_associations (px_spec x) -> dr_active s + 1 <= dl_max_associations (dr_limits s) ->
  let '(r, s2) := reservation_new (length (dr_leases s)) (acquired (lo_state l) s) in
  good s (to_phase o (LSetup c pl r (px_spec x)) (set_table (lo_state l) (<[c := Starting r]> (table_of (lo_state l) s)) s2)).
Proof.
  intros I Ho Hp Hx Hfree Hm Ha. set (p := lo_state l) in *. cbn [reservation_new]. set (r := length _).
  assert (E : own_of (to_phase o (LSetup c pl r (px_spec x)) (set_table p (<[c := Starting r]> (table_of p s))
      (set_dr_reservations (dr_reservations (acquired p s) ++ [{| rv_outcome := SetupStarting; rv_lease := length (dr_leases s) |}]) (acquired p s))))
    = own_reserve o p c pl (px_spec x) (own_of s)).
  { assert (r = length (ow_outcomes (own_of s))) as Hr by (cbn; by rewrite length_map).
    unfold own_reserve. cbv zeta. rewrite <- Hr. unfold own_of. cbn. f_equal.
    - rewrite (map_alter px_table _ (insert c (Starting r))).
      + f_equal. by apply map_alter_same.
      + intros y Hy. rewrite list_lookup_alter_eq, Hx in Hy. injection Hy as <-. unfold table_of. by rewrite Hx.
    - by rewrite map_app.
    - by apply map_alter. }
  pose proof (task_lookup _ _ _ Ho) as Ht. rewrite Hp in Ht.
  rewrite <- slot_table in Hfree. destruct I. split.
  - constructor; rewrite ?E; try done.
    + by eapply reserve_own_ok.
    + intros q n. cbn. rewrite map_app. intros [H|[-> H]]%lookup_snoc_inv; [by apply dk_numbers|]. cbn in H.
      subst n. rewrite length_map. pose proof (w_lease _ dk_own) as W. cbn in W. by rewrite length_map in W.
    + cbn. rewrite (map_alter_same cap_of) by done.
      rewrite (map_alter cap_of _ (fun c => (c.1 + 1, c.2))) by done.
      eapply acquire_inv; [done|by rewrite lookup_map, Hx|done..].
    + cbn. rewrite !(map_alter_same px_spec), length_alter by done. done.
  - constructor; rewrite ?E; [apply reserve_evolves|done|cbn; by rewrite length_alter|..].
    + unfold names. cbn. by rewrite !(map_alter_same px_spec).
    + unfold tokens. cbn. by rewrite map_alter_same.
Qed.

(** ** The association of a setup *)

Lemma made_good s o l c pl r spec now : datagrams_ok s -> dr_listeners s !! o = Some l -> lo_phase l = LSetup c pl r spec ->
  good s (association_made o (lo_state l) c pl r spec now s).
Proof.
  intros I Ho Hp. set (p := lo_state l). pose proof (task_lookup _ _ _ Ho) as Ht. rewrite Hp in Ht.
  destruct (w_task _ (dk_own _ I) _ _ _ Ht) as [_ Hr]. cbn in Hr. rewrite length_map in Hr. apply lookup_lt_is_Some in Hr as [v Hv].
  assert (Hn : rv_lease v = r) by (apply (dk_numbers _ I r); by rewrite lookup_map, Hv).
  unfold association_made. rewrite Hv, Hn. set (x := {| as_id := _ |}).
  assert (E : own_of (to_phase o (LPublish c pl r (length (dr_associations s)))
      (set_dr_associations (dr_associations (set_dr_next_association (wadd (dr_next_association s) 1) s) ++ [x])
         (set_dr_next_association (wadd (dr_next_association s) 1) s))) = own_made o p c pl r (own_of s)).
  { unfold own_of, own_made. cbn. f_equal; [by rewrite map_app|]. rewrite length_map. by apply map_alter. }
  destruct I. split.
  - constructor; rewrite ?E; try done.
    + by eapply made_own_ok.
    + cbn. rewrite map_app. destruct dk_buffers. constructor; [rewrite map_app, zsum_app; cbn; lia|done|].
      intros a q h n e [H|[_ [= -> -> -> ->]]]%lookup_snoc_inv; [by eapply bf_each|]. split_and!; try done. apply dk_limits.
    + cbn. by rewrite length_alter.
    + cbn. rewrite map_app. destruct dk_ids. constructor.
      * rewrite zlen_app, ik_next. unfold wadd, wrap64. cbn. rewrite Zplus_mod_idemp_l. f_equal.
      * intros a i d j e [H|[-> [= -> -> -> ->]]]%lookup_snoc_inv; [by eapply ik_each|]. done.
  - constructor; rewrite ?E; [apply made_evolves|done|cbn; by rewrite length_alter|done|].
    unfold tokens. cbn. by rewrite map_alter_same.
Qed.

(** ** Publication *)

Lemma release_listeners l s : dr_listeners (release l s) = dr_listeners s.
Proof. unfold release. destruct (dr_leases s !! l) as [x|]; [|done]. by destruct (le_released x). Qed.
Lemma abandon_listeners p c r b s : dr_listeners (abandon_starting p c r b s) = dr_listeners s.
Proof.
  unfold abandon_starting, release_reservation. set (s1 := if same_reservation _ _ then _ else _).
  assert (E : dr_listeners s1 = dr_listeners s) by (unfold s1; by case_match).
  destruct (_ !! r); [by rewrite release_listeners|done].
Qed.

Lemma to_phase_twice o ph ph' f s : (forall x, dr_listeners (f x) = dr_listeners x) -> (forall x ls, f (set_dr_listeners ls x) = set_dr_listeners ls (f x)) ->
  to_phase o ph' (f (to_phase o ph s)) = to_phase o ph' (f s).
Proof.
  intros E F. unfold to_phase, on_listener. rewrite F, !E. unfold set_dr_listeners. cbn. f_equal.
  apply list_eq. intros j. destruct (decide (o = j)) as [<-|]; [|by rewrite !list_lookup_alter_ne].
  rewrite !list_lookup_alter_eq. by destruct (dr_listeners s !! o).
Qed.

Lemma own_publish_step s o p c pl r a x : dr_states s !! p = Some x ->
  own_of (to_phase o (LSend c pl a) (transition r SetupPublished (set_table p (<[c := Active a]> (table_of p s)) s)))
  = own_publish o p c pl r a (own_of s).
Proof.
  intros Hx. unfold own_publish, own_of. cbn. f_equal.
  - apply map_alter. intros y Hy. rewrite Hx in Hy. injection Hy as <-. unfold table_of. by rewrite Hx.
  - apply map_alter. intros [[] l] _; done.
  - by apply map_alter.
Qed.

Lemma publish_good s o l c pl r a : datagrams_ok s -> dr_listeners s !! o = Some l -> lo_phase l = LPublish c pl r a ->
  good s (publish_step o (lo_state l) c pl r a s).
Proof.
  intros I Ho Hp. pose proof (task_lookup _ _ _ Ho) as Ht. rewrite Hp in Ht. unfold publish_step.
  destruct (same_reservation (table_of (lo_state l) s !! c) r) eqn:S.
  - apply same_reservation_true in S. rewrite <- slot_table in S. destruct (task_state _ _ _ I Ho) as [x Hx].
    apply others_good; rewrite ?(own_publish_step _ _ _ _ _ _ _ x) by done; [done| | | |].
    + apply publish_own_ok; [apply I|done|done].
    + by eapply publish_evolves.
    + cbn. rewrite map_alter_same by done. apply I.
    + unfold others, tokens. cbn. rewrite (map_alter_same px_spec), (map_alter_same rv_lease), (map_alter_same lo_cancelled) by (try done; by intros [[] ?]). done.
  - destruct (abandon_good s o l c r false I Ho) as [G E]; [by rewrite Hp|].
    set (s1 := abandon_starting (lo_state l) c r false s) in *.
    assert (H1 : dr_listeners s1 !! o = Some l) by (unfold s1; by rewrite abandon_listeners).
    assert (G2 : good s1 (to_phase o LSelect s1)).
    { eapply to_phase_good; [apply G|exact H1|done|done|]. rewrite Hp, E. intros c' r' [= <- <-]. apply abandon_over. }
    assert (R : retired (own_of (to_phase o LSelect s1)) a).
    { rewrite own_to_phase, E. eapply abandon_retires; [apply I|exact Ht]. }
    destruct (begin_stop_good _ a false (proj1 G2) R) as [G3 C3]. set (s3 := begin_stop a false (to_phase o LSelect s1)) in *.
    replace (to_phase o (LAbandon a) (begin_stop a false s1)) with (to_phase o (LAbandon a) s3)
      by (by apply (to_phase_twice o LSelect (LAbandon a) (begin_stop a false) s1)).
    eapply good_trans; [exact G|]. eapply good_trans; [exact G2|]. eapply good_trans; [exact G3|].
    eapply to_phase_good with (l := set_lo_phase LSelect l); [apply G3| |done| |done].
    + cbn. by rewrite list_lookup_alter_eq, H1.
    + split; [by apply G3|done].
Qed.

(** ** Datagrams between the listener and the worker *)

Lemma seat_same w a : own_ok w -> seat_change w a (fun x => x).
Proof. intros W. constructor; auto. intros x H. by destruct (w_seat _ W _ _ H). Qed.

Lemma loads_held l : map load_size (map load_of l) = map held l.
Proof. apply map_map. Qed.

(** [f] changes what association [a] holds by [n] bytes. *)
Lemma load_good s a x f g n : datagrams_ok s -> dr_associations s !! a = Some x ->
  (forall y, seat_of (f y) = g (seat_of y)) -> seat_change (own_of s) a g -> (forall y, identity (f y) = identity y) ->
  held (f x) = held x + n -> dr_buffered s + n <= dl_max_ingress_queue_bytes (dr_limits s) ->
  zlen (as_queue (f x)) <= dl_ingress_per_association (dr_limits s) ->
  (as_ended (f x) = true -> as_queue (f x) = [] /\ as_hand (f x) = None) ->
  (as_ended (f x) = false -> as_pending (f x) = zlen (as_queue (f x))) ->
  good s (set_dr_buffered (dr_buffered s + n) (on_association a f s)).
Proof.
  intros I Hx Hg C Hid Hn Hcap Hq He Hp.
  assert (E : own_of (set_dr_buffered (dr_buffered s + n) (on_association a f s)) = own_seat a g (own_of s)).
  { unfold own_of, own_seat. cbn. f_equal. by apply map_alter. }
  destruct I. split.
  - constructor; rewrite ?E; try done.
    + by apply seat_own_ok.
    + destruct dk_buffers. constructor; [|done|].
      * cbn [set_dr_buffered dr_associations on_association set_dr_associations dr_buffered].
        rewrite bf_total, !loads_held, (zsum_alter held f a _ x Hx). lia.
      * intros b q h m e. cbn. rewrite lookup_map. destruct (alter f a (dr_associations s) !! b) as [y|] eqn:Hy; [|done].
        intros [= <- <- <- <-]. apply lookup_alter_inv in Hy as [[_ Hy]|(<- & z & Hz & ->)].
        -- eapply bf_each. by rewrite lookup_map, Hy.
        -- rewrite Hx in Hz. injection Hz as <-. done.
    + cbn. rewrite map_alter_same by done. done.
  - constructor; rewrite ?E; [by apply seat_evolves|done..].
Qed.

Lemma load_facts s a x : datagrams_ok s -> dr_associations s !! a = Some x ->
  zlen (as_queue x) <= dl_ingress_per_association (dr_limits s) /\ (as_ended x = true -> as_queue x = [] /\ as_hand x = None)
  /\ (as_ended x = false -> as_pending x = zlen (as_queue x)).
Proof. intros I H. eapply (bf_each _ _ _ (dk_buffers _ I) a). by rewrite lookup_map, H. Qed.

Lemma size_nonneg x : 0 <= size_of x.
Proof. apply zlen_nonneg. Qed.
Lemma held_nonneg x : 0 <= held x.
Proof.
  unfold held. pose proof (zsum_live_nonneg size_of (as_queue x) size_nonneg). destruct (as_hand x) as [i|]; [|lia].
  pose proof (size_nonneg i). lia.
Qed.

Definition accept_item (item : Ingress) (x : Association) : Association :=
  set_as_pending (wadd (as_pending x) 1) (set_as_queue (as_queue x ++ [item]) x).

Lemma accept_good s a x item s' : datagrams_ok s -> dr_associations s !! a = Some x -> as_ended x = false ->
  zlen (as_queue x) < dl_ingress_per_association (dr_limits s) -> reserve_ingress (size_of item) s = Some s' ->
  good s (on_association a (accept_item item) s').
Proof.
  intros I Hx He Hq. unfold reserve_ingress. case_split; [|done]. bools. intros [= <-].
  destruct (load_facts _ _ _ I Hx) as (_ & _ & Hp). specialize (Hp He).
  apply (load_good s a x (accept_item item) (fun y => y)); try done.
  - apply seat_same, I.
  - unfold held. cbn. rewrite map_app, zsum_app. cbn. lia.
  - cbn. rewrite zlen_app, zlen_cons, zlen_nil. lia.
  - cbn. congruence.
  - intros _. cbn. rewrite zlen_app, zlen_cons, zlen_nil, Hp. pose proof (zlen_nonneg (as_queue x)).
    pose proof (lt_ingress _ (dk_limits _ I)). unfold wadd. rewrite wrap64_small; [lia|]. sat.
Qed.

Lemma send_good s o l c pl a : datagrams_ok s -> dr_listeners s !! o = Some l -> lo_phase l = LSend c pl a ->
  good s (send_step o (lo_state l) a pl (dr_clock s) s).
Proof.
  intros I Ho Hp. unfold send_step. destruct (task_state _ _ _ I Ho) as [y Hy]. rewrite Hy.
  destruct (dr_associations s !! a) as [x|] eqn:Hx; [|done].
  assert (Ph : forall s', good s s' -> dr_listeners s' = dr_listeners s -> good s (to_phase o LSelect s')).
  { intros s' G E. eapply good_trans; [exact G|]. eapply (to_phase_good _ _ l); [apply G|by rewrite E|done|done|by rewrite Hp]. }
  assert (Ov : forall f, (forall r, ar_id (f r) = ar_id r) -> (forall r, ar_client (f r) = ar_client r) ->
    good s (to_phase o LSelect (on_record a f (on_state (lo_state l) (fun x => set_px_overflow (bump (px_overflow x)) x) s)))).
  { intros f F C. apply Ph; [|done]. set (s1 := on_state _ _ s). assert (G1 : good s s1) by (by apply counter_good).
    eapply good_trans; [exact G1|]. apply record_good; [apply G1|done..]. }
  destruct (reserve_ingress (zlen pl) s) as [s'|] eqn:Hr; [|by apply Ov].
  destruct (as_ended x) eqn:He; [by apply Ov|]. case_split; [by apply Ov|]. bools. apply Ph.
  - set (s1 := on_association a _ s'). assert (G1 : good s s1).
    { unfold s1. eapply (accept_good s a x {| in_payload := pl; in_policy := _ |}); done. }
    eapply good_trans; [exact G1|]. apply record_good; [apply G1|done..].
  - unfold reserve_ingress in Hr. case_split_in Hr; [|done]. by injection Hr as <-.
Qed.

(** ** Workers *)

Lemma worker_good s a ev s' : datagrams_ok s -> worker_next a ev s = Some s' -> good s s'.
Proof.
  intros I. unfold worker_next. destruct (dr_associations s !! a) as [x|] eqn:Hx; [|done].
  destruct (load_facts _ _ _ I Hx) as (Hq & _ & Hp). pose proof (bf_cap _ _ _ (dk_buffers _ I)) as Hcap.
  destruct (as_ended x) eqn:He; [done|]. specialize (Hp eq_refl). destruct ev.
  - destruct (as_hand x) eqn:Hh; [done|]. destruct (as_queue x) as [|item rest] eqn:Eq; [done|]. intros [= <-].
    set (f := fun _ => _). assert (G : good s (set_dr_buffered (dr_buffered s + 0) (on_association a f s))).
    { apply (load_good s a x f (fun y => y)); try done.
      - apply seat_same, I.
      - unfold held. cbn. rewrite Hh, Eq. cbn. lia.
      - lia.
      - cbn. rewrite zlen_cons in Hq. lia.
      - cbn. congruence.
      - intros _. cbn. rewrite Hp, zlen_cons in *. pose proof (zlen_nonneg rest). pose proof (lt_ingress _ (dk_limits _ I)).
        rewrite wrap64_small; [lia|]. sat. }
    replace (on_association a f s) with (set_dr_buffered (dr_buffered s + 0) (on_association a f s)); [done|].
    rewrite Z.add_0_r. done.
  - destruct (as_hand x) as [item|] eqn:Hh; [|done]. intros [= <-]. unfold drop_ingress. cbn.
    pose proof (size_nonneg item).
    apply (load_good s a x (set_as_hand None) (fun y => y) (- size_of item)); try done.
    + apply seat_same, I.
    + unfold held. cbn [as_queue as_hand set_as_hand]. rewrite Hh. lia.
    + lia.
    + cbn. congruence.
  - intros [= <-]. by apply counter_good.
  - intros [= <-]. by apply record_good.
  - destruct (as_cancelled x) eqn:Hc; [|done]. intros [= <-]. unfold drop_ingress. cbn. pose proof (held_nonneg x).
    apply (load_good s a x _ seat_ended (- held x)); try done.
    + apply ended_change; [apply I|]. exists (seat_of x). split; [by apply seat_lookup|done].
    + unfold held at 1. cbn. lia.
    + lia.
    + cbn. apply zlen_nonneg || (rewrite zlen_nil; apply (dk_limits _ I)).
Qed.

(** ** Proxies and listeners *)

Lemma own_only_good s s' : datagrams_ok s -> own_of s' = own_of s -> leases_ok s' ->
  (dr_limits s', map rv_lease (dr_reservations s'), dr_buffered s', map load_of (dr_associations s'), dr_history s',
   dr_next_association s', map identity (dr_associations s'), dr_clock s')
  = (dr_limits s, map rv_lease (dr_reservations s), dr_buffered s, map load_of (dr_associations s), dr_history s,
   dr_next_association s, map identity (dr_associations s), dr_clock s) ->
  tokens s' = tokens s -> names s' = names s ->
  proxies_inv (dr_limits s) (dr_proxies s') (map px_spec (dr_states s')) (length (dr_listeners s)) -> good s s'.
Proof.
  intros [] E L [= E1 E2 E3 E4 E5 E6 E7 E8] T N P. pose proof (tokens_length _ _ T) as Ls.
  split; constructor; rewrite ?E, ?E1, ?E2, ?E3, ?E4, ?E5, ?E6, ?E7, ?E8, ?Ls, ?N, ?T; try done. by rewrite E1 in L.
Qed.

Lemma clock_good s d : datagrams_ok s -> 0 <= d -> good s (set_dr_clock (dr_clock s + d) s).
Proof. intros [] H. split; [|by constructor]. constructor; try done. cbn. lia. Qed.

Lemma spawn_good s p bound : datagrams_ok s -> (p < length (dr_states s))%nat -> good s (spawn_listener bound p s).2.
Proof.
  intros I Hp. assert (E : own_of (spawn_listener bound p s).2 = own_spawn p (own_of s)).
  { unfold own_of, own_spawn. cbn. by rewrite map_app. }
  destruct I. split.
  - constructor; rewrite ?E; try done.
    + apply spawn_own_ok; [done|]. cbn. by rewrite length_map.
    + destruct dk_proxies. constructor; [|done|done]. intros name m H. destruct (pk_entries name m H) as [? Hl]. split; [done|].
      intros o Ho. cbn. rewrite length_app. specialize (Hl o Ho). lia.
  - constructor; rewrite ?E; [apply spawn_evolves|done|cbn; rewrite length_app; lia|done|].
    intros o. unfold tokens. cbn. rewrite map_app. apply lookup_snoc_old.
Qed.

Definition managed_ok (s : Datagrams) (name : string) (m : ManagedDatagram) : Prop :=
  names s !! mg_state m = Some name /\ forall o, mg_listener m = Some o -> (o < length (dr_listeners s))%nat.

Lemma managed_spec s name m : managed_ok s name m <->
  (exists x, map px_spec (dr_states s) !! mg_state m = Some x /\ ds_name x = name)
  /\ forall o, mg_listener m = Some o -> (o < length (dr_listeners s))%nat.
Proof.
  unfold managed_ok, names. rewrite lookup_map. split; intros [H L]; (split; [|done]).
  - destruct (map px_spec (dr_states s) !! mg_state m) as [x|]; [|done]. injection H as H. by exists x.
  - destruct H as (x & -> & H). cbn. by rewrite H.
Qed.
Lemma managed_found s name m : datagrams_ok s -> dr_proxies s !! name = Some m -> managed_ok s name m.
Proof. intros I H. apply managed_spec. by apply (pk_entries _ _ _ _ (dk_proxies _ I)). Qed.
Lemma managed_state s name m : managed_ok s name m -> exists x, dr_states s !! mg_state m = Some x /\ ds_name (px_spec x) = name.
Proof.
  intros [(x & H & N) _]%managed_spec. rewrite lookup_map in H. destruct (dr_states s !! mg_state m) as [y|]; [|done].
  injection H as <-. by exists y.
Qed.

Lemma map_good s m : datagrams_ok s -> map_Forall (managed_ok s) m -> Z.of_nat (size m) <= dl_max_proxies (dr_limits s) ->
  good s (set_dr_proxies m s).
Proof.
  intros I H C. pose proof I as []. apply own_only_good; try done. destruct dk_proxies. constructor; [|done|done].
  intros name x Hx. apply (managed_spec s). by apply H.
Qed.

(** A known proxy is updated, or one is removed. *)
Lemma put_good s name old m : datagrams_ok s -> dr_proxies s !! name = Some old -> managed_ok s name m -> good s (put_managed name m s).
Proof.
  intros I H M. apply map_good; [done| |].
  - apply map_Forall_insert_2; [done|]. intros n x Hx. by apply managed_found.
  - rewrite map_size_insert_Some by done. apply I.
Qed.
Lemma delete_good s name : datagrams_ok s -> good s (set_dr_proxies (delete name (dr_proxies s)) s).
Proof.
  intros I. apply map_good; [done| |].
  - apply map_Forall_delete. intros n x Hx. by apply managed_found.
  - pose proof (pk_count _ _ _ _ (dk_proxies _ I)). rewrite map_size_delete. destruct (dr_proxies s !! name); unfold id; lia.
Qed.

Lemma live_in_fresh k ls : (forall l y, ls !! l = Some y -> (le_proxy y < k)%nat) -> zsum (map (live_in k) ls) = 0.
Proof.
  induction ls as [|y ls IH]; intros R; [done|]. change (live_in k y + zsum (map (live_in k) ls) = 0).
  rewrite IH by (intros l z Hz; by apply (R (S l))). pose proof (R 0%nat y eq_refl). unfold live_in.
  by rewrite (proj2 (Nat.eqb_neq _ _)) by lia.
Qed.

(** A new proxy. *)
Lemma insert_good s spec : datagrams_ok s -> spec_ok (dr_limits s) spec -> Z.of_nat (size (dr_proxies s)) < dl_max_proxies (dr_limits s) ->
  dr_proxies s !! ds_name spec = None ->
  good s (put_managed (ds_name spec) {| mg_state := length (dr_states s); mg_listener := None; mg_cancel_start := false |}
    (set_dr_states (dr_states s ++ [state_new spec]) s)).
Proof.
  intros I S C F. set (x := state_new spec). set (s1 := set_dr_states (dr_states s ++ [x]) s).
  assert (E : own_of s1 = own_state (own_of s)) by (unfold own_of, own_state; cbn; by rewrite map_app).
  assert (G : good s s1).
  { destruct I. split.
    - constructor; rewrite ?E; try done.
      + by apply state_own_ok.
      + cbn. rewrite map_app. destruct dk_leases. constructor; try done.
        * intros p n m [H|[-> [= -> ->]]]%lookup_snoc_inv; [by apply lk_proxies|]. split; [|by destruct S].
          by rewrite live_in_fresh.
        * intros l y H. rewrite length_app. pose proof (lk_range l y H). lia.
      + cbn. rewrite map_app. destruct dk_proxies. constructor; [|done|].
        * intros name m H. destruct (pk_entries name m H) as [(y & Hy & ?) ?]. split; [|done]. exists y. split; [by apply lookup_snoc_old|done].
        * apply Forall_app. split; [done|]. by apply Forall_singleton.
    - constructor; rewrite ?E; [apply state_evolves|done|done| |done]. unfold names. cbn. rewrite !map_app. by eexists. }
  eapply good_trans; [exact G|]. apply map_good; [apply G| |].
  - apply map_Forall_insert_2; [|intros n m Hm; apply managed_found; [apply G|done]]. apply managed_spec. split; [|done].
    exists spec. split; [|done]. cbn. rewrite map_app, <- (length_map px_spec). apply lookup_snoc_new.
  - cbn. rewrite map_size_insert_None by done. lia.
Qed.

(** A definition changes, and the number of associations in use still fits. *)
Lemma respec_good s p x f spec : datagrams_ok s -> dr_states s !! p = Some x -> f x = set_px_spec spec x ->
  spec_ok (dr_limits s) spec -> ds_name spec = ds_name (px_spec x) -> px_active x <= ds_max_associations spec ->
  good s (on_state p f s).
Proof.
  intros I Hx Hf S N A. apply own_only_good; try done.
  - unfold own_of. cbn. f_equal. apply (map_alter_at px_table f p _ x Hx). by rewrite Hf.
  - destruct I, dk_leases. cbn. rewrite (map_alter cap_of f (fun c => (c.1, ds_max_associations spec))).
    2:{ intros y Hy. rewrite Hx in Hy. injection Hy as <-. by rewrite Hf. }
    constructor; try done.
    + intros q n m [[_ H]|(<- & [n0 m0] & H & [= -> ->])]%lookup_alter_inv; [by apply lk_proxies|].
      rewrite lookup_map, Hx in H. injection H as <- <-. split; [|done].
      apply (lk_proxies p (px_active x) (ds_max_associations (px_spec x))). by rewrite lookup_map, Hx.
    + intros l y H. rewrite length_alter. by eapply lk_range.
  - unfold names. cbn. rewrite !map_map. apply (map_alter_at (fun y => ds_name (px_spec y)) f p _ x Hx). by rewrite Hf.
  - destruct I, dk_proxies. cbn. rewrite (map_alter px_spec f (fun _ => spec)).
    2:{ intros y Hy. rewrite Hx in Hy. injection Hy as <-. by rewrite Hf. }
    constructor; [|done|].
    + intros name m H. destruct (pk_entries name m H) as [(y & Hy & Hn) ?]. split; [|done].
      destruct (decide (p = mg_state m)) as [->|Hne]; [|exists y; by rewrite list_lookup_alter_ne].
      exists spec. rewrite list_lookup_alter_eq, lookup_map, Hx. split; [done|]. rewrite lookup_map, Hx in Hy. injection Hy as <-. congruence.
    + apply Forall_lookup. intros i y [[_ H]|(_ & z & _ & ->)]%lookup_alter_inv; [|done]. by eapply Forall_lookup_1 in pk_specs.
Qed.
