(* ===== verification/UdpSafe.v ===== *)
(** * Every task of the datagram runtime keeps the invariant

    Listener tasks and workers, and every operation of [UdpRuntime] in the
    logic of [Tasks]. *)

From Stdlib Require Import Bool.
From stdpp Require Import base list gmap strings sorting relations.
From S2P Require Import Prelude Rng Float64 Plan Policy Env DatagramPlan DatagramState Schedule Wire Server Tasks UdpState UdpRuntime UdpOwn UdpInv UdpSteps.

(** ** Listener tasks *)

Section Listener.
Context (s : Datagrams) (o : nat) (l : Listener) (I : datagrams_ok s) (Ho : dr_listeners s !! o = Some l).
Abbreviation p := (lo_state l).

Lemma task_phase : phase_ok (own_of s) p (lo_phase l).
Proof. by destruct (w_task _ (dk_own _ I) _ _ _ (task_lookup _ _ _ Ho)). Qed.

(** Out of any phase but a setup. *)
Lemma move_good ph : setting_up (lo_phase l) = None -> setting_up ph = None -> phase_ok (own_of s) p ph -> good s (to_phase o ph s).
Proof. intros H S P. eapply to_phase_good; [done|done|done|done|]. by rewrite H. Qed.

(** After a step that leaves the listeners where they are. *)
Lemma then_good s' ph : good s s' -> dr_listeners s' = dr_listeners s -> setting_up (lo_phase l) = None -> setting_up ph = None ->
  phase_ok (own_of s') p ph -> good s (to_phase o ph s').
Proof.
  intros G E H S P. eapply good_trans; [exact G|]. eapply (to_phase_good s' o l); [apply G|by rewrite E|done|done|]. by rewrite H.
Qed.

Lemma receive_good c pl now : lo_phase l = LSelect -> good s (receive_datagram o p c pl now s).
Proof.
  intros Hp. unfold receive_datagram. destruct (task_state _ _ _ I Ho) as [x Hx]. rewrite Hx. case_split.
  - set (s1 := on_state _ _ s). assert (G : good s s1) by (by apply counter_good).
    destruct (px_table x !! c) as [[]|]; [done| |done]. eapply good_trans; [exact G|]. apply record_good; [apply G|done..].
  - apply move_good; by rewrite ?Hp.
Qed.

Lemma seated_association c a : table_of p s !! c = Some (Active a) -> phase_ok (own_of s) p (LSend c [] a).
Proof.
  rewrite <- slot_table. intros H. destruct (w_slot _ (dk_own _ I) _ _ _ H) as (x & Hx & Hxp & Hxc & _). by exists x.
Qed.

Lemma table_starting c r : table_of p s !! c = Some (Starting r) ->
  ow_outcomes (own_of s) !! r = Some SetupStarting /\ is_terminal r s = false.
Proof.
  rewrite <- slot_table. intros H. destruct (w_slot _ (dk_own _ I) _ _ _ H) as [Hr _]. split; [done|].
  rewrite outcome_lookup in Hr. unfold is_terminal. destruct (dr_reservations s !! r) as [v|]; [|done]. by injection Hr as ->.
Qed.

Lemma lookup_good c pl : lo_phase l = LLookup c pl -> good s (lookup_step o p c pl s).
Proof.
  intros Hp. unfold lookup_step. destruct (table_of p s !! c) as [[r|a]|] eqn:Ht.
  - destruct (table_starting c r Ht) as [Hr ->]. apply move_good; [by rewrite Hp|done|]. by eapply lookup_lt_Some.
  - apply move_good; [by rewrite Hp|done|]. by apply seated_association.
  - destruct (task_state _ _ _ I Ho) as [x Hx]. rewrite Hx. destruct (try_acquire p s) as [[lease s1]|] eqn:A.
    + destruct (try_acquire_Some _ _ _ _ _ Hx A) as (-> & -> & Hm & Ha). by eapply reserve_good.
    + eapply then_good; [by apply counter_good|done|by rewrite Hp|done|done].
Qed.

Lemma failure_good : setting_up (lo_phase l) = None -> good s (setup_failure o p s).
Proof. intros H. eapply then_good; [by apply counter_good|done|done|done|done]. Qed.

Lemma abandon_failure_good c pl r spec : lo_phase l = LSetup c pl r spec -> good s (setup_failure o p (abandon_starting p c r true s)).
Proof.
  intros Hp. destruct (abandon_good s o l c r true I Ho) as [G E]; [by rewrite Hp|].
  eapply good_trans; [exact G|]. set (s1 := abandon_starting p c r true s) in *. unfold setup_failure. set (s2 := on_state _ _ s1).
  assert (G2 : good s1 s2) by (apply counter_good; [apply G|done..]). eapply good_trans; [exact G2|].
  apply (to_phase_good s2 o l); [apply G2| |done|done|].
  - cbn. unfold s1. by rewrite abandon_listeners.
  - rewrite Hp. intros c' r' [= <- <-]. replace (ow_outcomes (own_of s2)) with (ow_outcomes (own_of s1)) by done.
    rewrite E. apply abandon_over.
Qed.

Lemma expired_made now c a : (c, a) ∈ expired_of p now s -> (a < length (ow_seats (own_of s)))%nat.
Proof.
  intros ([c' sl] & _ & H)%list_elem_of_omap. unfold expired_slot in H. destruct (dr_states s !! p) as [x|]; [|done].
  destruct sl as [|b]; [done|]. destruct (dr_associations s !! b) as [y|] eqn:E; [|done]. case_split_in H; [|done]. injection H as <- <-.
  eapply lookup_lt_Some, seat_lookup, E.
Qed.

Lemma reap_good c a rest : lo_phase l = LReap ((c, a) :: rest) ->
  good s (if is_active (table_of p s !! c) a then to_phase o (LStop a false (LReap rest)) (set_table p (delete c (table_of p s)) s)
          else to_phase o (LReap rest) s).
Proof.
  intros Hp. pose proof task_phase as P. rewrite Hp in P. cbn in P.
  assert (P' : phase_ok (own_of s) p (LReap rest)) by (intros c' a' H; apply (P c'); by right).
  destruct (is_active _ _) eqn:A; [|by apply move_good; rewrite ?Hp].
  destruct (table_of p s !! c) as [[|b]|] eqn:Ht; try done. cbn in A. apply Nat.eqb_eq in A as ->.
  destruct (remove_good s p c a I Ht) as [G R]. apply then_good; [done|done|by rewrite Hp|done|]. split_and!; [done|done|].
  eapply phase_mono; [apply G|done].
Qed.

Lemma exit_good : lo_phase l = LExit ->
  good s (if lo_drain_on_exit l then let '(drained, s') := drain_associations p false s in to_phase o (LDrain drained) s' else to_phase o LDone s).
Proof.
  intros Hp. destruct (lo_drain_on_exit l); [|by apply move_good; rewrite ?Hp].
  destruct (drain_good s p false I) as [G R]. destruct (drain_associations p false s) as [drained s'] eqn:E.
  apply then_good; [done| |by rewrite Hp|done|done].
  assert (L : forall k s0, dr_listeners (foldl (drain_slot false) s0 k) = dr_listeners s0).
  { intros k. induction k as [|[r|b] k IH]; intros s0; cbn; [done| |by rewrite IH]. rewrite IH. unfold release_reservation.
    destruct (_ !! r); [by rewrite release_listeners|done]. }
  unfold drain_associations in E. injection E as _ <-. by rewrite L.
Qed.

Lemma stop_good a b next : lo_phase l = LStop a b next -> good s (to_phase o (LJoin a next) (begin_stop a b s)).
Proof.
  intros Hp. pose proof task_phase as P. rewrite Hp in P. destruct P as (R & S & P).
  destruct (begin_stop_good s a b I R) as [G C]. apply then_good; [done|done|by rewrite Hp|done|].
  split_and!; [by apply G|done|done|]. eapply phase_mono; [apply G|done].
Qed.

Lemma join_good a next : lo_phase l = LJoin a next -> good s (to_phase o next (end_stop a (dr_clock s) s)).
Proof.
  intros Hp. pose proof task_phase as P. rewrite Hp in P. destruct P as (R & C & S & P).
  pose proof (end_stop_good s a (dr_clock s) I R) as G. apply then_good; [done| |by rewrite Hp|by destruct next|].
  - unfold end_stop. destruct (dr_associations s !! a); [|done]. cbn. by rewrite release_listeners.
  - eapply phase_mono; [apply G|done].
Qed.

Lemma drain_next_good a rest : lo_phase l = LDrain (a :: rest) -> good s (to_phase o (LStop a true (LDrain rest)) s).
Proof.
  intros Hp. pose proof task_phase as P. rewrite Hp in P. cbn in P. apply move_good; [by rewrite Hp|done|]. split_and!; [|done|].
  - apply P. left.
  - intros b H. apply P. by right.
Qed.
End Listener.

Lemma listener_good s o ev s' : datagrams_ok s -> listener_next o ev s = Some s' -> good s s'.
Proof.
  intros I. unfold listener_next. destruct (dr_listeners s !! o) as [l|] eqn:Ho; [|done].
  assert (Mv : forall ph, setting_up (lo_phase l) = None -> setting_up ph = None -> phase_ok (own_of s) (lo_state l) ph -> good s (to_phase o ph s))
    by (intros; by eapply move_good).
  destruct (lo_phase l) eqn:Hp, ev; try (intros H; discriminate H); try (by destruct expired as [|[]]); try (by destruct rest).
  - destruct (lo_cancelled l); [|done]. intros [= <-]. by apply Mv.
  - destruct (lo_cancelled l); [done|]. intros [= <-]. by apply receive_good.
  - destruct (lo_cancelled l); [done|]. intros [= <-]. apply Mv; [done|done|]. intros c a. by eapply expired_made.
  - intros [= <-]. destruct (table_of (lo_state l) s !! client) as [[r|a]|] eqn:Ht; apply Mv; try done. by eapply seated_association.
  - intros [= <-]. by apply lookup_good.
  - destruct (rv_outcome <$> dr_reservations s !! r) as [[| |[]]|]; try done; intros [= <-]; [by apply Mv..|].
    apply failure_good; [done|done|by rewrite Hp].
  - intros [= <-]. by eapply made_good.
  - intros [= <-]. by eapply abandon_failure_good.
  - intros [= <-]. by apply publish_good.
  - destruct (is_ended a s); [|done]. intros [= <-]. apply failure_good; [done|done|by rewrite Hp].
  - intros [= <-]. by eapply send_good.
  - destruct expired as [|[c a] rest]; intros [= <-]; [by apply Mv|]. by apply reap_good.
  - intros [= <-]. by apply exit_good.
  - destruct rest as [|a rest]; intros [= <-]; [by apply Mv|]. by apply (drain_next_good s o l).
  - intros [= <-]. by eapply stop_good.
  - destruct (is_ended a s); [|done]. intros [= <-]. by eapply join_good.
Qed.

(** ** Definitions *)

Lemma dload_valid c : dcell_ok c -> snapshot c = Some (dload c) /\ dplan_validate (pub_plan (dload c)) = Ok tt.
Proof.
  intros C. destruct (cell_ok_current _ _ C) as (p & H & _). unfold dload. rewrite H. split; [done|].
  destruct C as [_ _ _ V]. rewrite Forall_forall in V. unfold snapshot in H. apply list_elem_of_lookup_2 in H.
  specialize (V p H). cbn in V. by destruct (dplan_validate (pub_plan p)) as [[]|].
Qed.

Lemma validate_policies s up down n : datagram_spec_validate s n = Ok tt -> dcell_ok up -> dcell_ok down ->
  datagram_spec_validate (set_ds_policies up down s) n = Ok tt.
Proof.
  intros V U D. destruct (dload_valid _ U) as [_ EU], (dload_valid _ D) as [_ ED].
  unfold datagram_spec_validate in *. cbn [ds_name ds_max_associations ds_idle_timeout ds_queue_limits ds_upstream ds_listen ds_upstream_policy ds_downstream_policy set_ds_policies].
  rewrite EU, ED. do 3 (case_split; [done|]). destruct (map_err DgInvalid (limits_validate (ds_queue_limits s))) as [|]; [|done].
  destruct (map_err DgInvalid (dplan_validate (pub_plan (dload (ds_upstream_policy s))))) as [[]|]; [|done].
  by destruct (map_err DgInvalid (dplan_validate (pub_plan (dload (ds_downstream_policy s))))) as [[]|].
Qed.

Lemma publish_cell cell plan seed published cell' : dcell_ok cell -> Live.publish_plan cell plan seed = (Ok published, cell') -> dcell_ok cell'.
Proof.
  intros C. unfold Live.publish_plan, publish, publish_call. cbn [rq_plan]. destruct (dplan_validate plan) as [[]|] eqn:V; [|done].
  destruct (dload_valid _ C) as [E _]. rewrite E. destruct (loop_checks _ _ _) eqn:L; [done|].
  unfold compare_and_swap. rewrite Nat.eqb_refl. cbn [snd]. intros [= _ <-].
  by destruct (swap_ok dplan_validate "generation overflow"%string cell {| rq_plan := plan; rq_ns := seed; rq_expected := None |} (dload cell) C E V L).
Qed.

Lemma publish_guarded_ok lims d plan seed expected x g y : spec_ok lims (px_spec x) ->
  publish_guarded d plan seed expected x = Ok (g, y) ->
  exists spec, y = set_px_spec spec x /\ spec_ok lims spec /\ ds_name spec = ds_name (px_spec x)
    /\ ds_max_associations spec = ds_max_associations (px_spec x).
Proof.
  intros [V N U D Z] H. unfold publish_guarded in H. destruct (match expected with Some _ => _ | None => _ end); [done|].
  destruct (Live.publish_plan _ _ _) as [[p|[e|c]] cell] eqn:P; try done. injection H as <- <-.
  assert (C : dcell_ok cell) by (eapply publish_cell; [|exact P]; by destruct d).
  eexists. split; [done|]. destruct d; (split_and!; [|done|done]); (constructor; [by apply validate_policies|done..]).
Qed.

(** ** Rules *)

(** Calls await listeners and workers that have been told to stop. *)
Definition awaitable (s : Datagrams) (w : DatagramWait) : Prop :=
  match w with OnListener o => tokens s !! o = Some true | OnWorker a => cancelled (own_of s) a end.

Lemma awaitable_mono s s' w : keeps s s' -> awaitable s w -> awaitable s' w.
Proof. intros K. destruct w; cbn; [by apply K|]. apply evolves_cancelled, K. Qed.

Section Operations.
Abbreviation safely := (safe datagrams_ok awaitable keeps keeps).
Abbreviation anything := (fun _ _ => True).

Lemma rely_keeps s s' : rtc keeps s s' -> keeps s s'.
Proof. induction 1; [done|by etrans]. Qed.

Lemma safe_step {A} (f : Datagrams -> Datagrams * dproc A) s Q :
  (forall s', keeps s s' -> datagrams_ok s' -> good s' (f s').1 /\ safely (f s').2 (f s').1 Q) -> safely (atomic f) s Q.
Proof. intros H s' Hr I. destruct (H s' (rely_keeps _ _ Hr) I) as [[I' K] S]. done. Qed.

Lemma safe_look {A} (f : Datagrams -> dproc A) s Q :
  (forall s', keeps s s' -> datagrams_ok s' -> safely (f s') s' Q) -> safely (atomic (fun s => (s, f s))) s Q.
Proof. intros H. apply safe_step. intros s' K I. split; [done|by apply H]. Qed.

Lemma safe_later {A} (p : dproc A) s s' Q : keeps s s' -> safely p s Q -> safely p s' Q.
Proof. intros K. apply safe_mono. by apply rtc_once. Qed.

(** A proxy state, by name. *)
Definition named (s : Datagrams) (p : nat) (name : string) : Prop := names s !! p = Some name.
Lemma named_mono s s' p name : keeps s s' -> named s p name -> named s' p name.
Proof. intros K H. by eapply prefix_lookup_Some; [exact H|apply K]. Qed.
Lemma named_state s p name : named s p name -> exists x, dr_states s !! p = Some x /\ ds_name (px_spec x) = name.
Proof.
  unfold named, names. rewrite !lookup_map. destruct (dr_states s !! p) as [x|]; [|done]. cbn. intros [= H]. by exists x.
Qed.
Lemma state_spec s p x : datagrams_ok s -> dr_states s !! p = Some x -> spec_ok (dr_limits s) (px_spec x).
Proof.
  intros I H. pose proof (pk_specs _ _ _ _ (dk_proxies _ I)) as F. eapply Forall_lookup_1; [exact F|]. by rewrite lookup_map, H.
Qed.

Lemma safe_state {A} p name (f : ProxyState -> Datagrams -> Datagrams * dproc A) s Q : named s p name ->
  (forall s' x, keeps s s' -> datagrams_ok s' -> dr_states s' !! p = Some x -> ds_name (px_spec x) = name ->
     good s' (f x s').1 /\ safely (f x s').2 (f x s').1 Q) ->
  safely (with_state p f) s Q.
Proof.
  intros N H. apply safe_step. intros s' K I. destruct (named_state s' p name) as (x & Hx & E); [by eapply named_mono|].
  rewrite Hx. by apply H.
Qed.

Lemma view_safe s p name bound running : named s p name -> safely (answer_view p bound running) s anything.
Proof.
  intros N s1 Hr I1. destruct (named_state s1 p name) as (x & Hx & _); [by eapply named_mono; [apply rely_keeps|]|].
  rewrite Hx. done.
Qed.

Lemma stop_association_safe {A} a b (k : dproc A) s : datagrams_ok s -> retired (own_of s) a ->
  (forall s', keeps s s' -> datagrams_ok s' -> safely k s' anything) -> safely (stop_association a b k) s anything.
Proof.
  intros _ R H. apply safe_step. intros s1 K1 I1. assert (R1 : retired (own_of s1) a) by (by apply K1).
  destruct (begin_stop_good s1 a b I1 R1) as [G C]. split; [done|]. cbn [snd fst]. intros s2 Hr I2.
  apply rely_keeps in Hr. split; [by apply (awaitable_mono _ _ (OnWorker a) Hr)|]. intros _. apply safe_step. intros s3 K3 I3.
  assert (R3 : retired (own_of s3) a) by (by apply K3, Hr, G).
  pose proof (end_stop_good s3 a (dr_clock s3) I3 R3) as G3. split; [done|]. cbn [snd fst]. apply H; [|apply G3].
  etrans; [exact K1|]. etrans; [apply G|]. etrans; [exact Hr|]. etrans; [exact K3|apply G3].
Qed.

Lemma stop_all_safe {A} l (k : dproc A) s : datagrams_ok s -> (forall a, a ∈ l -> retired (own_of s) a) ->
  (forall s', keeps s s' -> datagrams_ok s' -> safely k s' anything) -> safely (stop_all l k) s anything.
Proof.
  revert s. induction l as [|a l IH]; intros s I R H; cbn; [by apply H|].
  apply stop_association_safe; [done|apply R; left|]. intros s' K I'. apply IH; [done| |].
  - intros b Hb. apply K, R. by right.
  - intros s'' K'. apply H. by etrans.
Qed.

Lemma drain_and_stop_safe {A} p b (k : dproc A) s :
  (forall s', keeps s s' -> datagrams_ok s' -> safely k s' anything) -> safely (drain_and_stop p b k) s anything.
Proof.
  intros H. apply safe_step. intros s1 K1 I1. destruct (drain_good s1 p b I1) as [G R].
  destruct (drain_associations p b s1) as [l s2]. cbn [fst snd] in *. split; [done|]. apply stop_all_safe; [apply G|done|].
  intros s3 K3. apply H. etrans; [exact K1|]. etrans; [apply G|done].
Qed.

Definition listed (s : Datagrams) (o : nat) : Prop := (o < length (dr_listeners s))%nat.
Lemma listed_mono s s' o : keeps s s' -> listed s o -> listed s' o.
Proof. unfold listed. intros K H. pose proof (kp_listeners _ _ K). lia. Qed.

Lemma stop_listener_safe {A} o (k : dproc A) s : listed s o ->
  (forall s', keeps s s' -> datagrams_ok s' -> safely k s' anything) -> safely (stop_listener o k) s anything.
Proof.
  intros L H. apply safe_step. intros s1 K1 I1. destruct (cancel_listener_good s1 o I1) as [G T]; [by eapply listed_mono|].
  split; [done|]. cbn [fst snd]. intros s2 Hr I2. apply rely_keeps in Hr. split; [by apply (awaitable_mono _ _ (OnListener o) Hr)|].
  intros _. apply H; [|done]. etrans; [exact K1|]. etrans; [apply G|done].
Qed.
Lemma stop_owner_safe {A} o (k : dproc A) s : (forall o', o = Some o' -> listed s o') ->
  (forall s', keeps s s' -> datagrams_ok s' -> safely k s' anything) -> datagrams_ok s -> safely (stop_owner o k) s anything.
Proof. intros L H I. destruct o; [by apply stop_listener_safe; [apply L|]|by apply H]. Qed.
Lemma discard_listener_safe {A} o (k : dproc A) s : listed s o ->
  (forall s', keeps s s' -> datagrams_ok s' -> safely k s' anything) -> safely (discard_listener o k) s anything.
Proof.
  intros L H. apply safe_step. intros s1 K1 I1. pose proof (keep_on_exit_good s1 o I1) as [I2 K2].
  destruct (cancel_listener_good (keep_on_exit o s1) o I2) as [G T].
  { apply (listed_mono s1); [done|]. by eapply listed_mono. }
  split; [split; [apply G|]; etrans; [exact K2|apply G]|]. cbn [fst snd]. intros s3 Hr I3. apply rely_keeps in Hr.
  split; [by apply (awaitable_mono _ _ (OnListener o) Hr)|]. intros _. apply H; [|done].
  etrans; [exact K1|]. etrans; [exact K2|]. etrans; [apply G|done].
Qed.

Lemma bind_safe {A} listen (k : SocketAddr -> dproc (result A DatagramRuntimeError)) s :
  (forall addr, safely (k addr) s anything) -> safely (bind_datagram listen k) s anything.
Proof. intros H [addr|e|e]; [apply H|done|done]. Qed.

(** A spawned listener, and whoever publishes it. *)
Lemma spawn_safe {A} p name bound (k : nat -> dproc A) s : named s p name ->
  (forall o s', keeps s s' -> datagrams_ok s' -> listed s' o -> safely (k o) s' anything) ->
  safely (atomic (fun s => let '(o, s) := spawn_listener bound p s in (s, k o))) s anything.
Proof.
  intros N H. apply safe_step. intros s1 K1 I1. cbn [spawn_listener fst snd].
  assert (G : good s1 (spawn_listener bound p s1).2).
  { apply spawn_good; [done|]. destruct (named_state s1 p name) as (x & Hx & _); [by eapply named_mono|]. by eapply lookup_lt_Some. }
  split; [done|]. apply H; [by etrans; [exact K1|apply G]|apply G|]. unfold listed. cbn. rewrite length_app. cbn. lia.
Qed.

(** Publish listener [o] in the entry found under [name]. *)
Lemma set_listener_good s name m o : datagrams_ok s -> dr_proxies s !! name = Some m ->
  (forall o', o = Some o' -> listed s o') -> good s (put_managed name (set_listener o m) s).
Proof.
  intros I H L. destruct (managed_found s name m I H) as [N _]. by eapply put_good.
Qed.
Lemma managed_listed s name m o : datagrams_ok s -> dr_proxies s !! name = Some m -> mg_listener m = Some o -> listed s o.
Proof. intros I H. destruct (managed_found s name m I H) as [_ L]. apply L. Qed.
Lemma managed_named s name m : datagrams_ok s -> dr_proxies s !! name = Some m -> named s (mg_state m) name.
Proof. intros I H. by destruct (managed_found s name m I H). Qed.
End Operations.

(** * Calls *)

Abbreviation safely := (safe datagrams_ok awaitable keeps keeps).
Abbreviation anything := (fun _ _ => True).

(** What the Rust types promise of a request. *)
Record spec_typed (s : DatagramProxySpec) : Prop := {
  st_cap : 0 <= ds_max_associations s;
  st_up : dcell_ok (ds_upstream_policy s);
  st_down : dcell_ok (ds_downstream_policy s);
  st_nonzero : limits_nonzero (ds_queue_limits s)
}.
Definition request_typed (r : datagram_request) : Prop :=
  match r with
  | DqCreate spec => spec_typed spec
  | DqUpdate _ u => match up_max_associations u with Some m => 0 <= m | None => True end
  | _ => True
  end.

(** ** Create *)

Lemma udp_create_publish_safe name p o bound pname s : named s p pname -> listed s o ->
  safely (create_publish name p o bound) s anything.
Proof.
  intros N L. apply safe_step. intros s1 K1 I1. assert (N1 : named s1 p pname) by (by eapply named_mono).
  destruct (dr_proxies s1 !! name) as [m|] eqn:Hm; cbn [fst snd].
  - destruct (mg_cancel_start m); cbn [fst snd].
    + split; [done|]. apply discard_listener_safe; [by eapply listed_mono|]. intros s2 K2 _. eapply view_safe. by eapply named_mono.
    + assert (G : good s1 (put_managed name (set_listener (Some o) m) s1)).
      { apply set_listener_good; [done|done|]. intros o' [= <-]. by eapply listed_mono. }
      split; [done|]. eapply view_safe. by eapply named_mono; [apply G|].
  - split; [done|]. apply stop_listener_safe; [by eapply listed_mono|done].
Qed.

Lemma create_insert_safe spec bound s : datagram_spec_validate spec (dl_max_associations (dr_limits s)) = Ok tt -> spec_typed spec ->
  safely (create_insert spec bound) s anything.
Proof.
  intros V [C U D Z]. apply safe_step. intros s1 K1 I1. destruct (admission (ds_name spec) s1) as [e|] eqn:A; [done|].
  unfold admission in A. destruct (dr_proxies s1 !! ds_name spec) eqn:F; [done|]. cbn in A. case_split_in A; [done|]. bools.
  assert (G : good s1 (put_managed (ds_name spec) {| mg_state := length (dr_states s1); mg_listener := None; mg_cancel_start := false |}
    (set_dr_states (dr_states s1 ++ [state_new spec]) s1))).
  { apply insert_good; [done| |lia|done]. constructor; [|done..]. by rewrite (kp_limits _ _ K1). }
  split; [exact G|]. cbn [fst snd]. apply (spawn_safe (length (dr_states s1)) (ds_name spec)).
  - unfold named, names. cbn. rewrite !map_app. rewrite <- (length_map px_spec), <- (length_map ds_name). apply lookup_snoc_new.
  - intros o s2 K2 I2 L. eapply (udp_create_publish_safe _ _ _ _ (ds_name spec)); [|done]. eapply named_mono; [exact K2|].
    unfold named, names. cbn. rewrite !map_app. rewrite <- (length_map px_spec), <- (length_map ds_name). apply lookup_snoc_new.
Qed.

Lemma udp_create_safe spec s : spec_typed spec -> safely (create_proxy spec) s anything.
Proof.
  intros T. apply safe_step. intros s1 K1 I1. destruct (datagram_spec_validate _ _) as [[]|e] eqn:V; [|done].
  destruct (admission _ _); [done|]. split; [done|]. apply bind_safe. intros addr. by apply create_insert_safe.
Qed.

(** ** Disable, enable, delete *)

Lemma disable_safe name s : safely (disable_proxy name) s anything.
Proof.
  apply safe_step. intros s1 K1 I1. destruct (dr_proxies s1 !! name) as [m|] eqn:Hm; [|done]. cbn [fst snd].
  set (m' := if is_some (mg_listener m) then m else set_cancel_start true m).
  assert (G : good s1 (put_managed name (set_listener None m') s1)).
  { destruct (managed_found s1 name m I1 Hm) as [N L]. eapply put_good; [done|exact Hm|]. split; [|done]. unfold m'. by case_match. }
  split; [done|]. apply stop_owner_safe; [|intros s2 K2 I2; by apply drain_and_stop_safe|apply G].
  intros o Ho. eapply listed_mono; [apply G|]. by eapply managed_listed.
Qed.

Lemma enable_publish_safe name p o bound pname s : named s p pname -> listed s o ->
  safely (enable_publish name p o bound) s anything.
Proof.
  intros N L. apply safe_step. intros s1 K1 I1. assert (N1 : named s1 p pname) by (by eapply named_mono).
  destruct (dr_proxies s1 !! name) as [m|] eqn:Hm; [|done]. cbn [fst snd]. destruct (mg_listener m) as [o'|]; cbn [fst snd].
  - split; [done|]. apply discard_listener_safe; [by eapply listed_mono|]. intros s2 K2 _. eapply view_safe, named_mono; [exact K2|]. by eapply managed_named.
  - destruct (mg_cancel_start m); cbn [fst snd]; [split; [done|]; apply discard_listener_safe; [by eapply listed_mono|done]|].
    assert (G : good s1 (put_managed name (set_listener (Some o) m) s1)).
    { apply set_listener_good; [done|done|]. intros o' [= <-]. by eapply listed_mono. }
    split; [done|]. eapply view_safe. by eapply named_mono; [apply G|].
Qed.

Lemma enable_safe name s : safely (enable_proxy name) s anything.
Proof.
  apply safe_step. intros s1 K1 I1. destruct (dr_proxies s1 !! name) as [m|] eqn:Hm; [|done].
  pose proof (managed_named s1 name m I1 Hm) as N. destruct (mg_listener m) as [o|]; [split; [done|]; by eapply view_safe|].
  destruct (named_state _ _ _ N) as (x & Hx & _). cbv zeta. rewrite Hx. cbn [fst snd].
  assert (G : good s1 (put_managed name (set_cancel_start false m) s1)).
  { destruct (managed_found s1 name m I1 Hm) as [N' L]. by eapply put_good. }
  split; [done|]. apply bind_safe. intros addr. apply (spawn_safe (mg_state m) name); [by eapply named_mono; [apply G|]|].
  intros o s2 K2 I2 L. eapply enable_publish_safe; [|done]. eapply named_mono; [exact K2|]. by eapply named_mono; [apply G|].
Qed.

Lemma udp_delete_safe name s : safely (delete_proxy name) s anything.
Proof.
  apply safe_step. intros s1 K1 I1. destruct (dr_proxies s1 !! name) as [m|] eqn:Hm; [|done]. cbn [fst snd].
  pose proof (delete_good s1 name I1) as G. split; [done|]. apply stop_owner_safe; [|intros s2 K2 I2; by apply drain_and_stop_safe|apply G].
  intros o Ho. eapply listed_mono; [apply G|]. by eapply managed_listed.
Qed.

(** ** Update *)

Section Update.
Context (name pname : string) (p : nat) (old next : DatagramProxySpec) (running desired : bool) (bound : option SocketAddr).

Lemma update_finish_safe s : named s p pname -> safely (update_finish name p bound) s anything.
Proof.
  intros N. apply safe_step. intros s1 K1 I1. destruct (dr_proxies s1 !! name); [|done]. split; [done|].
  eapply view_safe. by eapply named_mono.
Qed.
Lemma update_start_safe s : named s p pname -> safely (update_start name p bound) s anything.
Proof.
  intros N. pose proof update_finish_safe as F. unfold update_start. destruct bound as [addr|] eqn:Eb; [|by apply F].
  apply (spawn_safe p pname); [done|]. intros o s1 K1 I1 L. apply safe_step. intros s2 K2 I2. pose proof (named_mono _ _ _ _ K1 N) as N1.
  pose proof (named_mono _ _ _ _ K2 N1) as N2. destruct (dr_proxies s2 !! name) as [m|] eqn:Hm; cbn [fst snd].
  - assert (G : good s2 (put_managed name (set_listener (Some o) m) s2)).
    { apply set_listener_good; [done|done|]. intros o' [= <-]. by eapply listed_mono. }
    split; [done|]. apply F. by eapply named_mono; [apply G|].
  - split; [done|]. apply discard_listener_safe; [by eapply listed_mono|done].
Qed.

(** The new definition keeps the policies of the one it replaces. *)
Lemma replace_spec_good s x : datagrams_ok s -> dr_states s !! p = Some x -> ds_name next = ds_name (px_spec x) ->
  datagram_spec_validate next (dl_max_associations (dr_limits s)) = Ok tt -> 0 <= ds_max_associations next -> limits_nonzero (ds_queue_limits next) ->
  px_active x <= ds_max_associations next ->
  good s (on_state p (fun x => set_px_spec (replace_spec next (px_spec x)) x) s).
Proof.
  intros I Hx N V C Z A. destruct (state_spec s p x I Hx) as [_ _ U D _].
  apply (respec_good s p x _ (replace_spec next (px_spec x))); try done. constructor; [by apply validate_policies|done..].
Qed.

Context (limits : DatagramRuntimeLimits) (next_name : ds_name next = pname).
Context (next_valid : datagram_spec_validate next (dl_max_associations limits) = Ok tt) (next_typed : 0 <= ds_max_associations next) (next_nonzero : limits_nonzero (ds_queue_limits next)).

Lemma update_commit_safe s : named s p pname -> dr_limits s = limits ->
  safely (update_commit name p old next running bound) s anything.
Proof.
  intros N L. apply (safe_state p pname); [done|]. intros s1 x K1 I1 Hx Hn. case_split; [done|]. case_split; [done|]. bools. cbn [fst snd].
  assert (G : good s1 (on_state p (fun x => set_px_spec (replace_spec next (px_spec x)) x) s1)).
  { eapply replace_spec_good; [done|exact Hx|congruence| |done|done|lia]. by rewrite (kp_limits _ _ K1), L. }
  assert (N1 : named (on_state p (fun x => set_px_spec (replace_spec next (px_spec x)) x) s1) p pname).
  { eapply named_mono; [apply G|]. by eapply named_mono. }
  split; [done|]. case_match; [by apply update_start_safe|]. apply drain_and_stop_safe. intros s2 K2 _. apply update_start_safe. by eapply named_mono.
Qed.

Lemma update_commit_stopped_safe s : named s p pname -> dr_limits s = limits ->
  safely (update_commit_stopped name p old next bound) s anything.
Proof.
  intros N L. apply (safe_state p pname); [done|]. intros s1 x K1 I1 _ _. case_split; [done|]. split; [done|]. cbn [fst snd].
  apply (safe_state p pname); [by eapply named_mono|]. intros s2 y K2 I2 Hy Hn. case_split; [done|]. bools. cbn [fst snd].
  assert (G : good s2 (on_state p (fun x => set_px_spec (replace_spec next (px_spec x)) x) s2)).
  { eapply replace_spec_good; [done|exact Hy|congruence| |done|done|lia]. by rewrite (kp_limits _ _ K2), (kp_limits _ _ K1), L. }
  split; [done|]. apply drain_and_stop_safe. intros s3 K3 _. apply update_start_safe.
  eapply named_mono; [exact K3|]. eapply named_mono; [apply G|]. eapply named_mono; [exact K2|]. by eapply named_mono.
Qed.

Lemma update_stop_safe s : named s p pname -> dr_limits s = limits ->
  safely (update_stop name p old next running desired bound) s anything.
Proof.
  intros N L. unfold update_stop. case_match; [|by apply update_commit_safe].
  apply (safe_state p pname); [done|]. intros s1 x K1 I1 _ _. case_split; [done|]. split; [done|]. cbn [fst snd].
  assert (N1 : named s1 p pname) by (by eapply named_mono). assert (L1 : dr_limits s1 = limits) by (by rewrite (kp_limits _ _ K1)).
  apply safe_step. intros s2 K2 I2. assert (N2 : named s2 p pname) by (by eapply named_mono).
  assert (L2 : dr_limits s2 = limits) by (by rewrite (kp_limits _ _ K2)).
  destruct (dr_proxies s2 !! name) as [m|] eqn:Hm; cbn [fst snd]; [|split; [done|]; by apply update_commit_stopped_safe].
  assert (G : good s2 (put_managed name (set_listener None m) s2)) by (by apply set_listener_good).
  split; [done|]. apply stop_owner_safe; [intros o Ho; eapply listed_mono; [apply G|]; by eapply managed_listed| |apply G].
  intros s3 K3 I3. apply update_commit_stopped_safe.
  - eapply named_mono; [exact K3|]. by eapply named_mono; [apply G|].
  - by rewrite (kp_limits _ _ K3).
Qed.
End Update.

Lemma udp_update_safe name u s : (match up_max_associations u with Some m => 0 <= m | None => True end) -> safely (update_proxy name u) s anything.
Proof.
  intros T. apply safe_step. intros s1 K1 I1. destruct (dr_proxies s1 !! name) as [m|] eqn:Hm; [|done]. split; [done|]. cbn [fst snd].
  pose proof (managed_named s1 name m I1 Hm) as N1. intros s2 R2 I2. apply rely_keeps in R2. pose proof (named_mono _ _ _ _ R2 N1) as N2.
  destruct (named_state _ _ _ N2) as (x & Hx & Hn). rewrite Hx. split; [done|]. split; [done|]. cbn [fst snd proc_bind].
  apply (safe_state (mg_state m) name); [done|]. intros s3 y K3 I3 Hy Hny.
  destruct (datagram_spec_validate (updated u (px_spec x)) (dl_max_associations (dr_limits s3))) as [[]|e] eqn:V; [|done].
  case_split; [done|]. assert (N3 : named s3 (mg_state m) name) by (by eapply named_mono).
  assert (C : 0 <= ds_max_associations (updated u (px_spec x))).
  { cbn. destruct (up_max_associations u); [done|]. by destruct (state_spec s2 _ _ I2 Hx). }
  assert (Z : limits_nonzero (ds_queue_limits (updated u (px_spec x)))) by (exact (sk_nonzero _ _ (state_spec s2 _ x I2 Hx))).
  case_split; cbn [fst snd]; (split; [done|]).
  - apply bind_safe. intros addr. by eapply (update_stop_safe _ name _ _ _ _ _ _ (dr_limits s3)).
  - by eapply (update_stop_safe _ name _ _ _ _ _ _ (dr_limits s3)).
Qed.

(** ** Policies, associations, shutdown *)

Lemma publish_safe name d plan seed expected s : safely (publish_fault_plan name d plan seed expected) s anything.
Proof.
  unfold publish_fault_plan. destruct (dplan_validate plan) as [[]|]; [|done]. apply safe_step. intros s1 K1 I1.
  destruct (dr_proxies s1 !! name) as [m|] eqn:Hm; [|done]. pose proof (managed_named s1 name m I1 Hm) as N.
  destruct (named_state _ _ _ N) as (x & Hx & _). rewrite Hx.
  destruct (publish_guarded d plan seed expected x) as [[g y]|e] eqn:P; [|done]. split; [|done]. cbn [fst].
  pose proof (state_spec s1 _ x I1 Hx) as S. destruct (publish_guarded_ok _ _ _ _ _ _ _ _ S P) as (spec & -> & S' & En & Em).
  apply (respec_good s1 _ x _ spec); try done. rewrite Em.
  destruct (dk_leases _ I1) as [_ _ B _]. apply (B (mg_state m) (px_active x)). by rewrite lookup_map, Hx.
Qed.

Lemma kill_in_safe id states s : safely (kill_in id states) s anything.
Proof.
  revert s. induction states as [|p states IH]; intros s; [done|]. apply safe_step. intros s1 K1 I1.
  destruct (find_slot id p s1) as [[c a]|] eqn:F; cbn [fst snd]; [|split; [done|apply IH]].
  assert (H : table_of p s1 !! c = Some (Active a)).
  { unfold find_slot in F. apply head_Some in F as [l F].
    assert (E : (c, a) ∈ omap (slot_with_id id s1) (map_to_list (table_of p s1))) by (rewrite F; left).
    apply list_elem_of_omap in E as ([c' sl] & E%elem_of_map_to_list & Hs). cbn in Hs. destruct sl as [|b]; [done|].
    destruct (dr_associations s1 !! b); [|done]. case_split_in Hs; [|done]. by injection Hs as <- <-. }
  destruct (remove_good s1 p c a I1 H) as [G R]. split; [done|]. by apply stop_association_safe; [apply G|..].
Qed.

Lemma delete_each_safe names s : datagrams_ok s -> safely (delete_each names) s anything.
Proof.
  revert s. induction names as [|n names IH]; intros s I; [done|]. eapply safe_bind; [apply udp_delete_safe| |done].
  intros b s' I' _. by apply IH.
Qed.

Lemma observe_safe {A} (f : Datagrams -> A) s : safely (observe f) s anything.
Proof. by apply safe_look. Qed.

Lemma datagram_call_safe r s : datagrams_ok s -> request_typed r -> safely (datagram_call r) s anything.
Proof.
  intros I T. assert (B : forall A (p : dproc A) (k : A -> datagram_response), safely p s anything -> safely (do! x := p in Ret (k x)) s anything).
  { intros A p k P. eapply safe_bind; [exact P| |done]. done. }
  destruct r; cbn [datagram_call]; apply B.
  - by apply udp_create_safe.
  - apply enable_safe.
  - apply disable_safe.
  - apply udp_delete_safe.
  - by apply udp_update_safe.
  - apply publish_safe.
  - apply observe_safe.
  - apply observe_safe.
  - apply observe_safe.
  - apply observe_safe.
  - eapply safe_bind; [apply observe_safe| |done]. intros l s' I' _. eapply safe_bind; [apply observe_safe| |done]. done.
  - apply observe_safe.
  - eapply safe_bind; [apply observe_safe| |done]. intros l s' I' _. apply kill_in_safe.
  - eapply safe_bind; [apply observe_safe| |done]. intros l s' I' _. by apply delete_each_safe.
Qed.
