(* ===== verification/UdpRun.v ===== *)
(** * Runs of the datagram runtime

    Whatever a listener is doing when it is told to stop, it and the tasks it
    depends on have moves left that bring it to its end: no waiter of a setup
    is stranded, and every worker somebody joins has been cancelled.  Then the
    theorems about every interleaving of calls, listeners and workers; runs in
    which calls that succeed alone get in each other's way, and the runs at
    which the theorems are applied. *)

From Stdlib Require Import Bool.
From stdpp Require Import base list gmap strings relations.
From S2P Require Import Prelude Rng Float64 Plan Policy Env DatagramPlan DatagramState Schedule Wire Server Tasks UdpState UdpRuntime UdpOwn UdpInv UdpSteps UdpSafe.

#[export] Instance SetupOutcome_eq_dec : EqDecision SetupOutcome.
Proof. solve_decision. Defined.

(** Moves of listeners and workers. *)
Definition moves (s s' : Datagrams) : Prop := exists e, happen e s = Some s'.

Lemma udp_event_good e s s' : datagrams_ok s -> happen e s = Some s' -> good s s'.
Proof.
  intros I. destruct e as [o ev|a ev|d]; cbn; [by apply listener_good|by apply worker_good|].
  case_split; [|done]. bools. intros [= <-]. apply clock_good; [done|lia].
Qed.
Lemma moves_good s s' : datagrams_ok s -> rtc moves s s' -> good s s'.
Proof.
  intros I H. induction H as [|a b c [e E] _ IH]; [done|]. pose proof (udp_event_good _ _ _ I E) as G.
  eapply good_trans; [exact G|]. apply IH, G.
Qed.

Section Stop.
Context (o : nat).
Definition can_finish (s : Datagrams) : Prop := exists s', rtc moves s s' /\ listener_done o s' = true.

(** Listener [o] has been told to stop, and is in this phase. *)
Definition stopping (s : Datagrams) (l : Listener) : Prop := dr_listeners s !! o = Some l /\ lo_cancelled l = true.

Lemma finish_move ev s s' : listener_next o ev s = Some s' -> can_finish s' -> can_finish s.
Proof. intros N (t & R & D). exists t. split; [|done]. eapply rtc_l; [by exists (ListenerMoves o ev)|done]. Qed.
Lemma finish_later s s' : rtc moves s s' -> can_finish s' -> can_finish s.
Proof. intros R (t & R' & D). exists t. split; [by etrans|done]. Qed.

(** What holds of a phase whatever else the state is. *)
Definition ends (ph : ListenerPhase) : Prop := forall s l, datagrams_ok s -> stopping s l -> lo_phase l = ph -> can_finish s.

Lemma ends_step ev s l s0 ph : datagrams_ok s -> stopping s l -> ends ph -> dr_listeners s0 = dr_listeners s ->
  listener_next o ev s = Some (to_phase o ph s0) -> can_finish s.
Proof.
  intros I [H C] E L N. eapply finish_move; [exact N|]. apply (E _ (set_lo_phase ph l)); [|split|done].
  - eapply listener_good; [exact I|exact N].
  - cbn. by rewrite L, list_lookup_alter_eq, H.
  - done.
Qed.

(** One move of [listener_next], with the phase known. *)
Ltac next H P := unfold listener_next; rewrite (proj1 H), P; cbn [fst snd].

Lemma ends_done : ends LDone.
Proof. intros s l I H P. exists s. split; [done|]. unfold listener_done. by rewrite (proj1 H), P. Qed.

Lemma worker_ends s a : datagrams_ok s -> cancelled (own_of s) a ->
  exists s', rtc moves s s' /\ is_ended a s' = true /\ dr_listeners s' = dr_listeners s.
Proof.
  intros I (y & Hy & C). destruct (seat_lookup_inv s a y Hy) as (x & Hx & ->). cbn in C. destruct (as_ended x) eqn:E.
  - exists s. split_and!; try done. unfold is_ended. by rewrite Hx.
  - eexists. split_and!; [apply rtc_once; exists (WorkerMoves a WorkerEnds); cbn; unfold worker_next; by rewrite Hx, E, C|..].
    + unfold is_ended. cbn. by rewrite list_lookup_alter_eq, Hx.
    + done.
Qed.

Lemma end_stop_listeners a now s : dr_listeners (end_stop a now s) = dr_listeners s.
Proof. unfold end_stop. destruct (dr_associations s !! a); [|done]. cbn. by rewrite release_listeners. Qed.

Lemma ends_join a next : ends next -> ends (LJoin a next).
Proof.
  intros E s l I H P. pose proof (task_phase s o l I (proj1 H)) as K. rewrite P in K. destruct K as (_ & C & _).
  destruct (worker_ends s a I C) as (s' & R & D & L). eapply finish_later; [exact R|].
  assert (H' : stopping s' l) by (split; [by rewrite L; apply H|apply H]).
  eapply (ends_step LNext s' l (end_stop a (dr_clock s') s') next); [by apply (moves_good _ _ I R)|done|done|apply end_stop_listeners|].
  next H' P. by rewrite D.
Qed.
Lemma ends_stop a b next : ends next -> ends (LStop a b next).
Proof.
  intros E s l I H P. eapply (ends_step LNext s l (begin_stop a b s) (LJoin a next)); [done|done|by apply ends_join|done|]. by next H P.
Qed.

Lemma ends_drain rest : ends (LDrain rest).
Proof.
  induction rest as [|a rest IH]; intros s l I H P.
  - eapply (ends_step LNext s l s LDone); [done|done|apply ends_done|done|]. by next H P.
  - eapply (ends_step LNext s l s (LStop a true (LDrain rest))); [done|done|by apply ends_stop|done|]. by next H P.
Qed.

Lemma drain_listeners p b s : dr_listeners (drain_associations p b s).2 = dr_listeners s.
Proof.
  unfold drain_associations. cbn [snd].
  assert (L : forall k s0, dr_listeners (foldl (drain_slot b) s0 k) = dr_listeners s0).
  { intros k. induction k as [|[r|a] k IH]; intros s0; cbn; [done| |by rewrite IH]. rewrite IH. unfold release_reservation.
    destruct (_ !! r); [by rewrite release_listeners|done]. }
  by rewrite L.
Qed.

Lemma ends_exit : ends LExit.
Proof.
  intros s l I H P. destruct (lo_drain_on_exit l) eqn:D.
  - eapply (ends_step LNext s l (drain_associations (lo_state l) false s).2 (LDrain (drain_associations (lo_state l) false s).1));
      [done|done|apply ends_drain|apply drain_listeners|]. next H P. by rewrite D.
  - eapply (ends_step LNext s l s LDone); [done|done|apply ends_done|done|]. next H P. by rewrite D.
Qed.
Lemma ends_select : ends LSelect.
Proof.
  intros s l I H P. eapply (ends_step LCancelled s l s LExit); [done|done|apply ends_exit|done|]. next H P. by rewrite (proj2 H).
Qed.

Lemma ends_reap expired : ends (LReap expired).
Proof.
  induction expired as [|[c a] rest IH]; intros s l I H P.
  - eapply (ends_step LNext s l s LSelect); [done|done|apply ends_select|done|]. by next H P.
  - destruct (is_active (table_of (lo_state l) s !! c) a) eqn:A.
    + eapply (ends_step LNext s l (set_table (lo_state l) (delete c (table_of (lo_state l) s)) s) (LStop a false (LReap rest)));
        [done|done|by apply ends_stop|done|]. next H P. by rewrite A.
    + eapply (ends_step LNext s l s (LReap rest)); [done|done|done|done|]. next H P. by rewrite A.
Qed.

Lemma send_selects s l c pl a : datagrams_ok s -> stopping s l -> lo_phase l = LSend c pl a ->
  exists s0, send_step o (lo_state l) a pl (dr_clock s) s = to_phase o LSelect s0 /\ dr_listeners s0 = dr_listeners s.
Proof.
  intros I H P. unfold send_step. destruct (task_state s o l I (proj1 H)) as [x Hx]. rewrite Hx.
  pose proof (task_phase s o l I (proj1 H)) as K. rewrite P in K. destruct K as (y & Hy & _).
  destruct (seat_lookup_inv s a y Hy) as (z & Hz & ->). rewrite Hz. unfold reserve_ingress.
  destruct (_ && _); [|by eexists]. destruct (as_ended z); [by eexists|]. destruct (_ <=? _); by eexists.
Qed.
Lemma ends_send c pl a : ends (LSend c pl a).
Proof.
  intros s l I H P. destruct (send_selects s l c pl a I H P) as (s0 & E & L).
  eapply (ends_step LNext s l s0 LSelect); [done|done|apply ends_select|done|]. next H P. by rewrite E.
Qed.

(** A failed setup is counted, and the listener is back in its loop. *)
Lemma ends_failure ev s l s0 : datagrams_ok s -> stopping s l -> dr_listeners s0 = dr_listeners s ->
  listener_next o ev s = Some (setup_failure o (lo_state l) s0) -> can_finish s.
Proof. intros I H L N. eapply (ends_step ev s l _ LSelect); [done|done|apply ends_select| |exact N]. done. Qed.

Lemma ends_abandon a : ends (LAbandon a).
Proof.
  intros s l I H P. pose proof (task_phase s o l I (proj1 H)) as K. rewrite P in K. destruct K as [_ C].
  destruct (worker_ends s a I C) as (s' & R & D & L). eapply finish_later; [exact R|].
  assert (H' : stopping s' l) by (split; [by rewrite L; apply H|apply H]).
  eapply (ends_failure LNext s' l s'); [by apply (moves_good _ _ I R)|done|done|]. next H' P. by rewrite D.
Qed.
Lemma ends_setup c pl r spec : ends (LSetup c pl r spec).
Proof.
  intros s l I H P. eapply (ends_failure LSetupFailed s l (abandon_starting (lo_state l) c r true s)); [done|done|apply abandon_listeners|].
  by next H P.
Qed.
Lemma ends_publish c pl r a : ends (LPublish c pl r a).
Proof.
  intros s l I H P. destruct (same_reservation (table_of (lo_state l) s !! c) r) eqn:S.
  - eapply (ends_step LNext s l _ (LSend c pl a)); [done|done|apply ends_send| |next H P; unfold publish_step; by rewrite S]. done.
  - eapply (ends_step LNext s l _ (LAbandon a)); [done|done|apply ends_abandon| |next H P; unfold publish_step; by rewrite S].
    cbn. apply abandon_listeners.
Qed.
End Stop.

(** ** Setups end *)

(** The owner of a setup can always end it, and no other listener has to
    move for that. *)
Lemma setup_ends s r : datagrams_ok s -> ow_outcomes (own_of s) !! r = Some SetupStarting ->
  exists o l c s', dr_listeners s !! o = Some l /\ setting_up (lo_phase l) = Some (c, r) /\ moves s s'
    /\ ow_outcomes (own_of s') !! r <> Some SetupStarting
    /\ (forall o', o' <> o -> dr_listeners s' !! o' = dr_listeners s !! o')
    /\ (forall p c q, slot_at (own_of s') p c = Some (Starting q) -> slot_at (own_of s) p c = Some (Starting q)).
Proof.
  intros I Hr. destruct (w_owned _ (dk_own _ I) r Hr) as (o & p & ph & c & Ht & Hu & Hs).
  assert (Hl : exists l, dr_listeners s !! o = Some l /\ lo_state l = p /\ lo_phase l = ph).
  { cbn in Ht. rewrite lookup_map in Ht. destruct (dr_listeners s !! o) as [l|]; [|done]. injection Ht as <- <-. by exists l. }
  destruct Hl as (l & Hl & Hp & Hph). subst p. exists o, l, c.
  assert (Phase : forall s0 ph, dr_listeners s0 = dr_listeners s -> forall o', o' <> o -> dr_listeners (to_phase o ph s0) !! o' = dr_listeners s !! o').
  { intros s0 ph0 L o' N. cbn. by rewrite L, list_lookup_alter_ne. }
  destruct ph; try done; injection Hu as -> ->.
  - exists (setup_failure o (lo_state l) (abandon_starting (lo_state l) c r true s)).
    destruct (abandon_good s o l c r true I Hl) as [_ E]; [by rewrite Hph|]. split_and!; [done|by rewrite Hph|..].
    + exists (ListenerMoves o LSetupFailed). cbn. unfold listener_next. by rewrite Hl, Hph.
    + pose proof (abandon_over (lo_state l) c r true (own_of s)) as A. rewrite <- E in A. exact A.
    + apply Phase. cbn. apply abandon_listeners.
    + intros p c' q H. pose proof (abandon_drops _ o (lo_state l) _ c r true (dk_own _ I) Ht eq_refl) as D.
      apply (dp_kept _ _ D p c' _ 0%nat). rewrite <- E. unfold setup_failure in H. rewrite own_to_phase in H.
      unfold slot_at in *. cbn in H. by rewrite map_alter_same in H.
  - exists (to_phase o (LSend c payload a) (transition r SetupPublished (set_table (lo_state l) (<[c := Active a]> (table_of (lo_state l) s)) s))).
    destruct (task_state s o l I Hl) as [x Hx]. rewrite (own_publish_step _ _ _ _ _ _ _ x Hx). split_and!; [done|by rewrite Hph|..].
    + exists (ListenerMoves o LNext). cbn. unfold listener_next. rewrite Hl, Hph. unfold publish_step.
      rewrite slot_table in Hs. by rewrite Hs, (proj2 (same_reservation_true _ r)).
    + rewrite (publish_outcomes _ _ _ _ _ _ _ (dk_own _ I) Hs). by rewrite decide_True.
    + by apply Phase.
    + intros p c' q [(_ & _ & ?)|[H _]]%slot_put_inv; done.
Qed.

(** For a listener that sets nothing up itself. *)
Lemma help s o l r : datagrams_ok s -> dr_listeners s !! o = Some l -> setting_up (lo_phase l) = None ->
  exists s', rtc moves s s' /\ ow_outcomes (own_of s') !! r <> Some SetupStarting /\ dr_listeners s' !! o = Some l
    /\ (forall p c q, slot_at (own_of s') p c = Some (Starting q) -> slot_at (own_of s) p c = Some (Starting q)).
Proof.
  intros I Hl Hn. destruct (decide (ow_outcomes (own_of s) !! r = Some SetupStarting)) as [Hr|Hr]; [|by exists s].
  destruct (setup_ends s r I Hr) as (o' & l' & c & s' & Hl' & Hu & M & D & L & S). exists s'. split_and!; [by apply rtc_once|done| |done].
  rewrite L; [done|]. intros <-. rewrite Hl in Hl'. injection Hl' as <-. congruence.
Qed.

Lemma free_slot s o l p c : datagrams_ok s -> dr_listeners s !! o = Some l -> setting_up (lo_phase l) = None ->
  exists s', rtc moves s s' /\ dr_listeners s' !! o = Some l /\ forall r, table_of p s' !! c <> Some (Starting r).
Proof.
  intros I Hl Hn. destruct (table_of p s !! c) as [[r|a]|] eqn:E; [|exists s; split_and!; [done|done|intros r Hr; congruence]..].
  destruct (help s o l r I Hl Hn) as (s' & R & D & L & S). exists s'. split_and!; [done|done|]. intros q Hq.
  rewrite <- slot_table in Hq. pose proof (S _ _ _ Hq) as Hq'. rewrite slot_table, E in Hq'. injection Hq' as <-.
  apply D. destruct (w_slot _ (dk_own _ (proj1 (moves_good _ _ I R))) _ _ _ Hq) as [Hr _]. exact Hr.
Qed.

Section Wait.
Context (o : nat).
Ltac next H P := unfold listener_next; rewrite (proj1 H), P; cbn [fst snd].

Lemma ends_lookup c pl : ends o (LLookup c pl).
Proof.
  intros s l I [Hl C] P. destruct (free_slot s o l (lo_state l) c I Hl) as (s' & R & Hl' & F); [by rewrite P|].
  eapply finish_later; [exact R|]. pose proof (moves_good _ _ I R) as [I' _]. assert (H : stopping o s' l) by done.
  destruct (table_of (lo_state l) s' !! c) as [[r|a]|] eqn:E.
  - by destruct (F r).
  - eapply (ends_step o LNext s' l s' (LSend c pl a)); [done|done|apply ends_send|done|]. next H P. unfold lookup_step. by rewrite E.
  - destruct (task_state s' o l I' Hl') as [x Hx]. destruct (try_acquire (lo_state l) s') as [[n s1]|] eqn:A.
    + destruct (try_acquire_Some _ _ _ _ _ Hx A) as (-> & -> & _).
      eapply (ends_step o LNext s' l _ (LSetup c pl _ (px_spec x))); [done|done|apply ends_setup| |next H P; unfold lookup_step; by rewrite E, Hx, A].
      done.
    + eapply (ends_step o LNext s' l _ LSelect); [done|done|apply ends_select| |next H P; unfold lookup_step; by rewrite E, Hx, A]. done.
Qed.
Lemma ends_resolve c pl : ends o (LResolve c pl).
Proof.
  intros s l I H P. destruct (table_of (lo_state l) s !! c) as [[r|a]|] eqn:E.
  - eapply (ends_step o LNext s l s (LLookup c pl)); [done|done|apply ends_lookup|done|]. next H P. by rewrite E.
  - eapply (ends_step o LNext s l s (LSend c pl a)); [done|done|apply ends_send|done|]. next H P. by rewrite E.
  - eapply (ends_step o LNext s l s (LLookup c pl)); [done|done|apply ends_lookup|done|]. next H P. by rewrite E.
Qed.
Lemma ends_wait c pl r : ends o (LWait c pl r).
Proof.
  intros s l I [Hl C] P. destruct (help s o l r I Hl) as (s' & R & D & Hl' & _); [by rewrite P|].
  eapply finish_later; [exact R|]. pose proof (moves_good _ _ I R) as [I' _]. assert (H : stopping o s' l) by done.
  pose proof (task_phase s' o l I' Hl') as K. rewrite P in K. cbn in K. rewrite length_map in K. apply lookup_lt_is_Some in K as [v Hv].
  rewrite outcome_lookup, Hv in D. cbn in D. destruct (rv_outcome v) as [| |[]] eqn:E; [by destruct D|..].
  1, 2: eapply (ends_step o LNext s' l s' (LResolve c pl)); [done|done|apply ends_resolve|done|]; next H P; rewrite Hv; cbn; by rewrite E.
  eapply (ends_failure o LNext s' l s'); [done|done|done|]. next H P. rewrite Hv. cbn. by rewrite E.
Qed.

(** Whatever it is doing. *)
Lemma ends_always ph s l : datagrams_ok s -> stopping o s l -> lo_phase l = ph -> can_finish o s.
Proof.
  intros I H P. pose proof (task_phase s o l I (proj1 H)) as K. rewrite P in K. destruct ph.
  - by eapply ends_select. - by eapply ends_resolve. - by eapply ends_lookup. - by eapply ends_wait. - by eapply ends_setup.
  - by eapply ends_publish. - by eapply ends_abandon. - by eapply ends_send. - by eapply ends_reap. - by eapply ends_exit.
  - by eapply ends_drain.
  - destruct K as (_ & S & _). destruct ph; try done; [eapply (ends_stop o a administrative (LReap expired))|eapply (ends_stop o a administrative (LDrain rest))]; eauto using ends_reap, ends_drain.
  - destruct K as (_ & _ & S & _). destruct ph; try done; [eapply (ends_join o a (LReap expired))|eapply (ends_join o a (LDrain rest))]; eauto using ends_reap, ends_drain.
  - by eapply ends_done.
Qed.
End Wait.

(** * Runs *)

(** ** The system *)

Definition datagram_pool : DatagramSystem -> Prop := pool_ok datagrams_ok awaitable (fun _ => keeps) (fun _ => keeps) (fun _ => anything).

Lemma datagrams_new_ok lims : limits_typed lims -> datagrams_ok (datagrams_new lims).
Proof.
  intros L. pose proof L as []. constructor; cbn; try done.
Qed.

Lemma datagram_pool_initial s rs : datagrams_ok s -> Forall request_typed rs -> datagram_pool (datagram_initial s rs).
Proof.
  intros I T. split; [done|]. intros i p H. cbn in H. rewrite lookup_map in H. destruct (rs !! i) as [r|] eqn:E; [|done].
  injection H as <-. apply datagram_call_safe; [done|]. by eapply Forall_lookup_1.
Qed.

Lemma datagram_pool_run s s' : datagram_pool s -> rtc datagram_step s s' -> datagram_pool s'.
Proof.
  apply pool_reachable; [done|]. intros e c c' _ I H. by destruct (udp_event_good _ _ _ I H).
Qed.

(** ** Slots and leases *)

Lemma live_slots_count p ls leases : NoDup ls ->
  (forall l, l ∈ ls -> exists x, leases !! l = Some x /\ live_in p x = 1) -> zlen ls <= zsum (map (live_in p) leases).
Proof.
  revert leases. induction ls as [|l ls IH]; intros leases N H.
  - apply zsum_live_nonneg. intros x. unfold live_in. pose proof (live_range x). case_match; lia.
  - apply NoDup_cons in N as [Nl N]. destruct (H l) as (x & Hx & V); [left|].
    assert (F : live_in p (freed x) = 0) by (unfold live_in; cbn; by case_match).
    pose proof (zsum_alter (live_in p) freed l leases x Hx) as Z. rewrite F, V in Z.
    specialize (IH (alter freed l leases) N). rewrite zlen_cons. cut (zlen ls <= zsum (map (live_in p) (alter freed l leases))); [lia|].
    apply IH. intros k Hk. destruct (H k) as (y & Hy & Vy); [by right|]. exists y. split; [|done].
    rewrite list_lookup_alter_ne; [done|]. by intros <-.
Qed.

Definition lease_of (s : Datagrams) (sl : Slot) : nat := default 0%nat (lease_no (own_of s) sl).

Lemma slot_lease s p c sl : datagrams_ok s -> table_of p s !! c = Some sl ->
  lease_no (own_of s) sl = Some (lease_of s sl) /\ dr_leases s !! lease_of s sl = Some {| le_proxy := p; le_released := false |}.
Proof.
  intros I H. rewrite <- slot_table in H. pose proof (w_slot _ (dk_own _ I) _ _ _ H) as Hok. unfold lease_of.
  destruct sl as [r|a]; cbn in *; [by destruct Hok|]. destruct Hok as (x & -> & _ & _ & _ & L). done.
Qed.

Lemma NoDup_map_inj {A B} (f : A -> B) l : NoDup l -> (forall x y, x ∈ l -> y ∈ l -> f x = f y -> x = y) -> NoDup (map f l).
Proof.
  induction 1 as [|x l N D IH]; intros Inj; cbn; constructor.
  - intros (y & E & Hy)%list_elem_of_fmap. apply N. by rewrite (Inj x y); [|left|right|].
  - apply IH. intros y z Hy Hz. apply Inj; by right.
Qed.

(** Every slot of a table has a lease of its own. *)
Lemma table_fits s p x : datagrams_ok s -> dr_states s !! p = Some x -> Z.of_nat (size (px_table x)) <= px_active x.
Proof.
  intros I Hx. pose proof (dk_leases _ I) as [_ _ B _].
  destruct (B p (px_active x) (ds_max_associations (px_spec x))) as [-> _]; [by rewrite lookup_map, Hx|].
  assert (T : table_of p s = px_table x) by (unfold table_of; by rewrite Hx).
  rewrite <- length_map_to_list. set (es := map_to_list (px_table x)).
  assert (E : forall c sl, (c, sl) ∈ es -> table_of p s !! c = Some sl) by (intros c sl; unfold es; by rewrite elem_of_map_to_list, T).
  replace (Z.of_nat (length es)) with (zlen (map (fun e => lease_of s e.2) es)) by (unfold zlen; by rewrite length_map).
  apply live_slots_count.
  - apply NoDup_map_inj; [apply NoDup_map_to_list|]. intros [c1 s1] [c2 s2] H1%E H2%E. cbn. intros L.
    destruct (slot_lease s p c1 s1 I H1) as [L1 _], (slot_lease s p c2 s2 I H2) as [L2 _]. rewrite <- slot_table in H1, H2.
    destruct (w_one _ (dk_own _ I) p c1 s1 p c2 s2 (lease_of s s1)) as [_ ->]; try done; [by rewrite L|]. congruence.
  - intros l ([c sl] & -> & H%E)%list_elem_of_fmap. destruct (slot_lease s p c sl I H) as [_ L]. eexists. split; [exact L|].
    unfold live_in. cbn. by rewrite Nat.eqb_refl.
Qed.

(** C9: what no interleaving of calls, listeners and workers breaks.  The
    global and the per-proxy counts of associations are the leases taken and
    not yet released, so they never drift, and they stay within the global
    limit and within the definition of the proxy as it is now; the table of a
    proxy never holds more clients than that.  Every association in a table
    belongs to that proxy and that client, holds a lease of its own that is
    not released, and its worker has neither been cancelled nor ended.  The
    buffered bytes are what the channels and the workers hold and stay within
    their limit, the history within its own; every definition is valid and
    under its own name; and no call has panicked. *)
Theorem datagram_runtime_invariant lims rs s :
  limits_typed lims -> Forall request_typed rs -> rtc datagram_step (datagram_initial (datagrams_new lims) rs) s ->
  let d := sys_state s in
  dr_active d = zsum (map live (dr_leases d)) /\ dr_active d <= dl_max_associations lims
  /\ (forall p x, dr_states d !! p = Some x ->
        px_active x = zsum (map (live_in p) (dr_leases d)) /\ px_active x <= ds_max_associations (px_spec x)
        /\ Z.of_nat (size (px_table x)) <= px_active x
        /\ forall c a, px_table x !! c = Some (Active a) -> exists y, dr_associations d !! a = Some y
             /\ as_proxy y = p /\ as_client y = c /\ as_cancelled y = false /\ as_ended y = false
             /\ dr_leases d !! as_lease y = Some {| le_proxy := p; le_released := false |})
  /\ dr_buffered d = zsum (map held (dr_associations d)) /\ dr_buffered d <= dl_max_ingress_queue_bytes lims
  /\ zlen (dr_history d) <= dl_history lims
  /\ (forall name m, dr_proxies d !! name = Some m -> exists x, dr_states d !! mg_state m = Some x
        /\ ds_name (px_spec x) = name /\ datagram_spec_validate (px_spec x) (dl_max_associations lims) = Ok tt)
  /\ Panic ∉ sys_calls s.
Proof.
  intros L T H. pose proof (datagram_pool_run _ _ (datagram_pool_initial _ rs (datagrams_new_ok lims L) T) H) as [I S].
  assert (E : dr_limits (sys_state s) = lims).
  { clear I S. remember (datagram_initial (datagrams_new lims) rs) as s0 eqn:E0.
    assert (P0 : datagram_pool s0) by (subst; by apply datagram_pool_initial; [apply datagrams_new_ok|]).
    assert (L0 : dr_limits (sys_state s0) = lims) by by subst.
    clear E0. induction H as [|a b c Hab _ IH]; [done|]. apply IH; [by eapply datagram_pool_run; [|apply rtc_once]|].
    destruct (pool_move _ _ _ _ _ _ _ P0 Hab) as [->|[[i K]|[e K]]]; [done|by rewrite (kp_limits _ _ K)|].
    by rewrite (kp_limits _ _ (proj2 (udp_event_good _ _ _ (proj1 P0) K))). }
  pose proof (dk_leases _ I) as [Tot Cap Each _]. pose proof (dk_buffers _ I) as [Buf BufCap _]. rewrite E in *.
  split_and!; try done.
  - intros p x Hx. destruct (Each p (px_active x) (ds_max_associations (px_spec x))) as [-> C]; [by rewrite lookup_map, Hx|].
    split_and!; [done|done| |].
    + pose proof (table_fits _ _ _ I Hx) as F. destruct (Each p (px_active x) (ds_max_associations (px_spec x))) as [<- _]; [by rewrite lookup_map, Hx|done].
    + intros c a Ha. assert (Hs : slot_at (own_of (sys_state s)) p c = Some (Active a)).
      { rewrite slot_table. unfold table_of. by rewrite Hx. }
      destruct (w_slot _ (dk_own _ I) _ _ _ Hs) as (y & Hy & ? & ? & Hc & ?). destruct (seat_lookup_inv _ _ _ Hy) as (z & Hz & ->).
      exists z. split_and!; try done. destruct (w_seat _ (dk_own _ I) _ _ Hy) as [_ Q]. cbn in *. destruct (as_ended z); [|done]. by rewrite Q in Hc.
  - by rewrite Buf, loads_held.
  - rewrite <- E. apply I.
  - intros name m Hm. destruct (managed_state _ name m (managed_found _ _ _ I Hm)) as (x & Hx & Hn). exists x. split_and!; try done.
    rewrite <- E. by destruct (state_spec _ _ _ I Hx).
  - intros [i Hi]%list_elem_of_lookup. exact (S i Panic Hi).
Qed.

(** ** Waiting *)

Lemma moves_system (s : DatagramSystem) d : rtc moves (sys_state s) d ->
  rtc datagram_step s {| sys_state := d; sys_calls := sys_calls s |}.
Proof.
  intros H. remember (sys_state s) as d0 eqn:E. revert s E. induction H as [d0|a b c [e N] _ IH]; intros s ->.
  - by destruct s.
  - eapply rtc_l; [|by apply (IH {| sys_state := b; sys_calls := sys_calls s |})]. exists (Event e). cbn in *. by rewrite N.
Qed.

(** C23: no task of the datagram runtime waits forever.  In any state it can
    reach, whatever a call awaits, a listener or a worker, has already been
    told to stop, and the listeners and workers have moves left that let the
    call go on with nobody else having to move; the same holds of any
    listener told to stop, whatever it is doing; and an association being set
    up has a listener whose next move ends the setup and releases its waiters. *)
Theorem datagram_tasks_never_hang lims rs s :
  limits_typed lims -> Forall request_typed rs -> rtc datagram_step (datagram_initial (datagrams_new lims) rs) s ->
  (forall i w k, sys_calls s !! i = Some (Await w k) ->
     exists s', rtc datagram_step s s' /\ sys_calls s' = sys_calls s /\ ready (sys_state s') w = true)
  /\ (forall o l, dr_listeners (sys_state s) !! o = Some l -> lo_cancelled l = true ->
     exists s', rtc datagram_step s s' /\ sys_calls s' = sys_calls s /\ listener_done o (sys_state s') = true)
  /\ (forall r v, dr_reservations (sys_state s) !! r = Some v -> rv_outcome v = SetupStarting ->
     exists s', datagram_step s s' /\ sys_calls s' = sys_calls s /\ is_terminal r (sys_state s') = true).
Proof.
  intros L T H. pose proof (datagram_pool_run _ _ (datagram_pool_initial _ rs (datagrams_new_ok lims L) T) H) as P.
  pose proof P as [I _]. set (d := sys_state s) in *.
  assert (Fin : forall o l, dr_listeners d !! o = Some l -> lo_cancelled l = true ->
    exists s', rtc datagram_step s s' /\ sys_calls s' = sys_calls s /\ listener_done o (sys_state s') = true).
  { intros o l Hl C. destruct (ends_always o (lo_phase l) d l I (conj Hl C) eq_refl) as (d' & R & D).
    eexists. split; [exact (moves_system s d' R)|done]. }
  split_and!; [|exact Fin|].
  - intros i w k Hi. pose proof (pool_awaits _ _ _ _ _ _ _ _ _ P Hi) as A. destruct w as [o|a]; cbn in A.
    + unfold tokens in A. rewrite lookup_map in A. destruct (dr_listeners (sys_state s) !! o) as [l|] eqn:Hl; [|done].
      injection A as C. by apply (Fin o l).
    + destruct (worker_ends d a I A) as (d' & R & D & _). eexists. split; [exact (moves_system s d' R)|done].
  - intros r v Hv Hr. destruct (setup_ends d r I) as (o & l & c & d' & _ & _ & [e M] & D & _).
    { by rewrite outcome_lookup, Hv, <- Hr. }
    exists {| sys_state := d'; sys_calls := sys_calls s |}. split_and!; [exists (Event e); unfold sys_next; fold d; by rewrite M|done|].
    cbn. rewrite outcome_lookup in D. pose proof (udp_event_good _ _ _ I M) as [_ K]. unfold is_terminal.
    pose proof (ev_outcomes _ _ (kp_own _ _ K)) as Len. cbn in Len. rewrite !length_map in Len.
    destruct (lookup_lt_is_Some_2 (dr_reservations d') r) as [v' Hv']; [apply lookup_lt_Some in Hv; lia|].
    rewrite Hv' in *. cbn in D. destruct (rv_outcome v'); done.
Qed.

(** * Concrete runs *)

(** ** Concrete runs *)

Definition loopback_port (port : Z) : SocketAddr := SocketV4 2130706433 port.
Definition empty_cell : DatagramLivePolicy := {|
  snapshots := [{| generation := 1; pub_plan := dplan_empty; seed_namespace := 0 |}]; current := 0 |}.
Definition dns_queue : DatagramQueueLimits := {| max_queued_datagrams := 64; max_queued_bytes := 65536; max_datagram_bytes := 1500 |}.
Definition dns : DatagramProxySpec := {|
  ds_name := "dns"; ds_listen := loopback_port 0; ds_upstream := loopback_port 53; ds_max_associations := 256;
  ds_idle_timeout := 60 * NANOS_PER_SEC; ds_queue_limits := dns_queue;
  ds_upstream_policy := empty_cell; ds_downstream_policy := empty_cell; ds_seed := 0 |}.

Definition no_change : DatagramUpdate := {|
  up_listen := None; up_upstream := None; up_max_associations := None; up_idle_timeout := None; up_enabled := None |}.
Definition enable_update : DatagramUpdate := {|
  up_listen := None; up_upstream := None; up_max_associations := None; up_idle_timeout := None; up_enabled := Some true |}.
Definition listen_update (a : SocketAddr) : DatagramUpdate := {|
  up_listen := Some a; up_upstream := None; up_max_associations := None; up_idle_timeout := None; up_enabled := None |}.
Definition cap_update (n : Z) : DatagramUpdate := {|
  up_listen := None; up_upstream := None; up_max_associations := Some n; up_idle_timeout := None; up_enabled := None |}.

Abbreviation Listen o ev := (Event (ListenerMoves o ev)).
Abbreviation Work a ev := (Event (WorkerMoves a ev)).

(** [create_proxy], and [disable_proxy] of a proxy without associations. *)
Definition create_dns (i : nat) (port : Z) : list (move DatagramEvent) :=
  [Call i; Answer i (Bound (loopback_port port)); Call i; Call i; Call i; Call i].
Definition stop_idle (i o : nat) : list (move DatagramEvent) :=
  [Call i; Call i; Listen o LCancelled; Listen o LNext; Listen o LNext; Call i; Call i].

Tactic Notation "reaches" uconstr(chs) := eapply (run_reaches chs); vm_compute; reflexivity.

(** A listener at work that no proxy owns. *)
Record leaked (s : Datagrams) (o : nat) (bound : SocketAddr) : Prop := {
  lq_unowned : map_Forall (fun _ m => mg_listener m <> Some o) (dr_proxies s);
  lq_serves : exists l, dr_listeners s !! o = Some l /\ lo_bound l = bound /\ lo_cancelled l = false /\ lo_phase l = LSelect
}.

(** Enabling a proxy that is deleted meanwhile leaks its listener.
    [enable_proxy] spawns the listener it has bound and then looks the
    definition up again; when a delete has removed it, the [?] returns the
    error and drops the owner of the listener, which neither cancels nor
    joins it: the socket stays bound and the task serves clients under a
    definition that no longer exists, and no call can stop it. *)
Theorem enable_racing_delete_leaks_a_listener : exists s v,
  rtc datagram_step (datagram_initial (datagrams_new runtime_limits_default)
    [DqCreate dns; DqDisable "dns"; DqEnable "dns"; DqDelete "dns"; DqShutdown]) s
  /\ sys_calls s = [Ret (DsView (Ok v)); Ret (DsDisabled (Ok tt)); Ret (DsView (Err (DgNotFound "dns"))); Ret (DsDone true); Ret DsStopped]
  /\ leaked (sys_state s) 1 (loopback_port 5002).
Proof.
  do 2 eexists. split.
  - reaches (create_dns 0 5001 ++ stop_idle 1 0 ++ [Call 2; Call 3; Call 3; Answer 2 (Bound (loopback_port 5002)); Call 2; Call 2; Call 4]).
  - split; [vm_compute; reflexivity|]. constructor; [by intros ? ? ?|]. eexists. by split_and!.
Qed.

(** Two updates that enable a stopped proxy leak a listener.  Each has
    bound a socket because the proxy was stopped when it began; the second to
    finish overwrites the owner the first has stored, and deleting the proxy
    stops only the one that is stored.  Every call reports success. *)
Theorem concurrent_updates_leak_a_listener : exists s v1 v2 v3,
  rtc datagram_step (datagram_initial (datagrams_new runtime_limits_default)
    [DqCreate dns; DqDisable "dns"; DqUpdate "dns" enable_update; DqUpdate "dns" enable_update; DqDelete "dns"]) s
  /\ sys_calls s = [Ret (DsView (Ok v1)); Ret (DsDisabled (Ok tt)); Ret (DsView (Ok v2)); Ret (DsView (Ok v3)); Ret (DsDone true)]
  /\ leaked (sys_state s) 1 (loopback_port 5002).
Proof.
  do 4 eexists. split.
  - reaches (create_dns 0 5001 ++ stop_idle 1 0 ++ [Call 2; Call 2; Call 2; Call 3; Call 3; Call 3;
      Answer 2 (Bound (loopback_port 5002)); Call 2; Call 2; Call 2; Call 2; Call 2;
      Answer 3 (Bound (loopback_port 5003)); Call 3; Call 3; Call 3; Call 3; Call 3] ++ stop_idle 4 2).
  - split; [vm_compute; reflexivity|]. constructor; [by intros ? ? ?|]. eexists. by split_and!.
Qed.

(** An update that fails can stop the proxy.  [update_proxy] binds the
    new listener before it stops the old one, but checks for concurrent
    changes only after it has stopped it: when another update has changed any
    setting in the meantime it returns the conflict, and the proxy, which
    nobody asked to stop, is left without a listener. *)
Theorem conflicting_update_stops_the_proxy : exists s v1 v2 m,
  rtc datagram_step (datagram_initial (datagrams_new runtime_limits_default)
    [DqCreate dns; DqUpdate "dns" (listen_update (loopback_port 9090)); DqUpdate "dns" (cap_update 64)]) s
  /\ sys_calls s = [Ret (DsView (Ok v1)); Ret (DsView (Err changed_concurrently)); Ret (DsView (Ok v2))]
  /\ dv_running v1 = true /\ dv_running v2 = true /\ dv_max_associations v2 = 64
  /\ dr_proxies (sys_state s) !! "dns"%string = Some m /\ mg_listener m = None.
Proof.
  do 4 eexists. split.
  - reaches (create_dns 0 5001 ++ [Call 1; Call 1; Call 1; Answer 1 (Bound (loopback_port 9090));
      Call 2; Call 2; Call 2; Call 2; Call 2; Call 2; Call 1; Call 1; Call 1;
      Listen 0 LCancelled; Listen 0 LNext; Listen 0 LNext; Call 1; Call 1]).
  - split; [vm_compute; reflexivity|]. by split_and!.
Qed.

(** * Instances of the theorems *)

(** A client sends two datagrams; the second arrives while the proxy is being
    deleted. *)
Definition udp_requests : list datagram_request := [DqCreate dns; DqDelete "dns"].
Definition a_client : SocketAddr := loopback_port 40000.
Definition query : bytes := [1; 2; 3].
Definition udp_start : DatagramSystem := datagram_initial (datagrams_new runtime_limits_default) udp_requests.
Definition one_association : DatagramSystem :=
  end_of (create_dns 0 5001 ++ [Listen 0 (LReceived a_client query); Listen 0 LNext; Listen 0 LNext; Listen 0 LConnected;
    Listen 0 LNext; Listen 0 LNext; Work 0 WorkerTakes; Listen 0 (LReceived a_client query); Listen 0 LNext; Listen 0 LNext]) udp_start.
Definition deleting : DatagramSystem := end_of [Listen 0 (LReceived a_client query); Call 1; Call 1] one_association.

Lemma one_association_reached : rtc datagram_step udp_start one_association.
Proof. apply end_of_reaches. vm_compute. reflexivity. Qed.
Lemma deleting_reached : rtc datagram_step udp_start deleting.
Proof. etrans; [apply one_association_reached|]. apply end_of_reaches. vm_compute. reflexivity. Qed.

Lemma default_limits_typed : limits_typed runtime_limits_default.
Proof. by constructor. Qed.
Lemma empty_cell_ok : dcell_ok empty_cell.
Proof. by eapply (cell_ok_new dplan_validate dplan_empty 0). Qed.
Lemma udp_requests_typed : Forall request_typed udp_requests.
Proof. repeat constructor; apply empty_cell_ok. Qed.

Lemma datagram_runtime_invariant_witness :
  dr_active (sys_state one_association) = 1 /\ dr_buffered (sys_state one_association) = 6
  /\ dr_buffered (sys_state one_association) = zsum (map held (dr_associations (sys_state one_association)))
  /\ Panic ∉ sys_calls one_association.
Proof.
  destruct (datagram_runtime_invariant runtime_limits_default udp_requests one_association default_limits_typed
    udp_requests_typed one_association_reached) as (_ & _ & _ & B & _ & _ & _ & P).
  split; [vm_compute; reflexivity|]. split; [vm_compute; reflexivity|]. split; [exact B|exact P].
Defined.

(** The deletion awaits a listener that is about to look the client up. *)
Definition awaited_here (s : DatagramSystem) : option DatagramWait :=
  match sys_calls s !! 1%nat with Some (Await w _) => Some w | _ => None end.
Lemma datagram_tasks_never_hang_witness :
  awaited_here deleting = Some (OnListener 0)
  /\ exists s, rtc datagram_step deleting s /\ listener_done 0 (sys_state s) = true.
Proof.
  split; [vm_compute; reflexivity|].
  destruct (datagram_tasks_never_hang runtime_limits_default udp_requests deleting default_limits_typed
    udp_requests_typed deleting_reached) as (_ & F & _).
  assert (H : exists l, dr_listeners (sys_state deleting) !! 0%nat = Some l /\ lo_cancelled l = true)
    by (eexists; split; vm_compute; reflexivity).
  destruct H as (l & Hl & C). destruct (F 0%nat l Hl C) as (s & R & _ & D). exists s. split; [exact R|exact D].
Defined.
