(* ===== verification/UdpWorker.v ===== *)
(** * Workers of the datagram runtime
      ([association_loop] and what it calls, in [association.rs])

    [UdpState] shows a worker from outside.  Here is its code: a task with
    two datagram engines of its own, which touches the shared state only by
    taking from its channel, writing its record, bumping the counter of its
    proxy, dropping what it took and returning, each a [worker_next] event.
    [Runtime] puts the actual workers into the system of [UdpRuntime]. *)

From Stdlib Require Import Bool.
From stdpp Require Import base list gmap strings relations.
From S2P Require Import Prelude Rng Float64 Plan Policy Env DatagramPlan DatagramState Datagram Schedule Wire Server Tasks UdpState UdpRuntime.

(** ** State of a worker *)

(** The counters [send_upstream] and [send_downstream] batch. *)
Record SendCounts := { sc_datagrams : Z; sc_bytes : Z; sc_errors : Z }.
Definition counts_zero : SendCounts := {| sc_datagrams := 0; sc_bytes := 0; sc_errors := 0 |}.

(** Where a send returns to: either half of [emit_ready], or an arm of the
    select; [taken] when the arm holds a datagram of the channel. *)
Inductive AfterSend := AfterUpstream (now : Instant) | AfterDownstream | AfterAdmission (taken : bool).

Inductive WorkerPhase :=
| WTop                                     (* the head of the loop *)
| WSend (d : Direction) (ready : list DatagramScheduled) (c : SendCounts) (after : AfterSend)
| WSending (d : Direction) (item : DatagramScheduled) (rest : list DatagramScheduled) (c : SendCounts) (after : AfterSend)
| WSelect
| WOversize                                (* the record after the counter of the proxy *)
| WFailed                                  (* the upstream socket reported an error *)
| WTouch (taken : bool)                    (* [last_activity] after an admission *)
| WDrop (stop : bool)                      (* the arm ends: its datagram is dropped *)
| WTurn                                    (* the evidence, if it changed *)
| WExit                                    (* after the loop *)
| WCount (discarded seen : Z)
| WReturn (seen : Z) (administrative : bool)
| WEnded (lost : Z).                       (* datagrams that came after the count *)

Record Worker := {
  wk_spec : DatagramProxySpec;
  wk_upstream : DatagramDirectionEngine;
  wk_downstream : DatagramDirectionEngine;
  wk_dirty : bool;   (* evidence_dirty *)
  wk_failures : Z;   (* errors of the upstream socket so far: kept for the accounts, the code has no such counter *)
  wk_phase : WorkerPhase
}.
Definition set_wk_phase (ph : WorkerPhase) (w : Worker) : Worker := {|
  wk_spec := wk_spec w; wk_upstream := wk_upstream w; wk_downstream := wk_downstream w; wk_dirty := wk_dirty w;
  wk_failures := wk_failures w; wk_phase := ph |}.
Definition set_wk_dirty (b : bool) (w : Worker) : Worker := {|
  wk_spec := wk_spec w; wk_upstream := wk_upstream w; wk_downstream := wk_downstream w; wk_dirty := b;
  wk_failures := wk_failures w; wk_phase := wk_phase w |}.
Definition failed_once (w : Worker) : Worker := {|
  wk_spec := wk_spec w; wk_upstream := wk_upstream w; wk_downstream := wk_downstream w; wk_dirty := wk_dirty w;
  wk_failures := wk_failures w + 1; wk_phase := wk_phase w |}.
Definition set_wk_engine (d : Direction) (e : DatagramDirectionEngine) (w : Worker) : Worker :=
  match d with
  | Upstream => {| wk_spec := wk_spec w; wk_upstream := e; wk_downstream := wk_downstream w; wk_dirty := wk_dirty w;
                   wk_failures := wk_failures w; wk_phase := wk_phase w |}
  | Downstream => {| wk_spec := wk_spec w; wk_upstream := wk_upstream w; wk_downstream := e; wk_dirty := wk_dirty w;
                   wk_failures := wk_failures w; wk_phase := wk_phase w |}
  end.
Definition wk_engine (d : Direction) (w : Worker) : DatagramDirectionEngine :=
  match d with Upstream => wk_upstream w | Downstream => wk_downstream w end.

(** [None] is the panic of [expect("validated queue limits")]. *)
Definition worker_new (spec : DatagramProxySpec) (id : Z) : option Worker :=
  match dengine_new (ds_queue_limits spec) (ds_name spec) id Upstream V1,
        dengine_new (ds_queue_limits spec) (ds_name spec) id Downstream V1 with
  | Ok up, Ok down => Some {| wk_spec := spec; wk_upstream := up; wk_downstream := down; wk_dirty := false;
                             wk_failures := 0; wk_phase := WTop |}
  | _, _ => None
  end.

(** ** Records *)

Definition set_ar_egress (datagrams size errors : Z) (r : AssociationRecord) : AssociationRecord := {|
  ar_id := ar_id r; ar_proxy := ar_proxy r; ar_client := ar_client r; ar_upstream := ar_upstream r;
  ar_created := ar_created r; ar_last_activity := ar_last_activity r;
  ar_ingress_datagrams := ar_ingress_datagrams r; ar_ingress_bytes := ar_ingress_bytes r;
  ar_egress_datagrams := datagrams; ar_egress_bytes := size;
  ar_ingress_queue_overflow := ar_ingress_queue_overflow r; ar_oversize_datagrams := ar_oversize_datagrams r;
  ar_administrative_discards := ar_administrative_discards r; ar_send_errors := errors;
  ar_upstream_evidence := ar_upstream_evidence r; ar_downstream_evidence := ar_downstream_evidence r |}.
Definition set_ar_evidence (up down : DatagramEvidence) (r : AssociationRecord) : AssociationRecord := {|
  ar_id := ar_id r; ar_proxy := ar_proxy r; ar_client := ar_client r; ar_upstream := ar_upstream r;
  ar_created := ar_created r; ar_last_activity := ar_last_activity r;
  ar_ingress_datagrams := ar_ingress_datagrams r; ar_ingress_bytes := ar_ingress_bytes r;
  ar_egress_datagrams := ar_egress_datagrams r; ar_egress_bytes := ar_egress_bytes r;
  ar_ingress_queue_overflow := ar_ingress_queue_overflow r; ar_oversize_datagrams := ar_oversize_datagrams r;
  ar_administrative_discards := ar_administrative_discards r; ar_send_errors := ar_send_errors r;
  ar_upstream_evidence := up; ar_downstream_evidence := down |}.

Definition counted_egress (c : SendCounts) (r : AssociationRecord) : AssociationRecord :=
  set_ar_egress (sat_add64 (ar_egress_datagrams r) (sc_datagrams c)) (sat_add64 (ar_egress_bytes r) (sc_bytes c))
    (sat_add64 (ar_send_errors r) (sc_errors c)) r.
Definition counted_discards (n : Z) (r : AssociationRecord) : AssociationRecord :=
  set_ar_administrative_discards (sat_add64 (ar_administrative_discards r) n) r.
Definition counted_failure (r : AssociationRecord) : AssociationRecord :=
  set_ar_egress (ar_egress_datagrams r) (ar_egress_bytes r) (sat_add64 (ar_send_errors r) 1) r.
Definition update_evidence (w : Worker) (r : AssociationRecord) : AssociationRecord :=
  set_ar_evidence (de_evidence (wk_upstream w)) (de_evidence (wk_downstream w)) r.

(** [Ok(size) if size == payload.len()], or an error. *)
Definition counted_send (payload : bytes) (size : option Z) (c : SendCounts) : SendCounts :=
  match size with
  | Some n =>
      if n =? zlen payload
      then {| sc_datagrams := sat_add64 (sc_datagrams c) 1; sc_bytes := sat_add64 (sc_bytes c) n; sc_errors := sc_errors c |}
      else {| sc_datagrams := sc_datagrams c; sc_bytes := sc_bytes c; sc_errors := sat_add64 (sc_errors c) 1 |}
  | None => {| sc_datagrams := sc_datagrams c; sc_bytes := sc_bytes c; sc_errors := sat_add64 (sc_errors c) 1 |}
  end.

(** ** The loop *)

(** The two halves of [emit_ready]. *)
Definition emit_downstream (now : Instant) (w : Worker) : Worker :=
  let '(ready, e) := take_ready now (wk_downstream w) in
  let w := set_wk_engine Downstream e w in
  match ready with
  | [] => set_wk_phase WSelect w
  | _ => set_wk_phase (WSend Downstream ready counts_zero AfterDownstream) w
  end.
Definition emit_upstream (now : Instant) (w : Worker) : Worker :=
  let '(ready, e) := take_ready now (wk_upstream w) in
  let w := set_wk_engine Upstream e w in
  match ready with
  | [] => emit_downstream now w
  | _ => set_wk_phase (WSend Upstream ready counts_zero (AfterUpstream now)) w
  end.

Definition after_send (after : AfterSend) (w : Worker) : Worker :=
  match after with
  | AfterUpstream now => emit_downstream now w
  | AfterDownstream => set_wk_phase WSelect w
  | AfterAdmission taken => set_wk_phase (WTouch taken) w
  end.
(** [return true], and then the [break] of the caller. *)
Definition stop_sending (after : AfterSend) : WorkerPhase :=
  match after with AfterAdmission true => WDrop true | _ => WExit end.

Definition admit_in (d : Direction) (now : Instant) (payload : bytes) (policy : PublishedPolicy DatagramPlan) (taken : bool) (w : Worker) : Worker :=
  let '(a, e) := admit_datagram now payload policy (wk_engine d w) in
  let w := set_wk_engine d e w in
  match a with
  | Immediate ready => set_wk_phase (WSend d ready counts_zero (AfterAdmission taken)) w
  | QueuedAdmission | Consumed => set_wk_phase (WTouch taken) w
  end.

Definition next_wake (w : Worker) : option Instant :=
  match next_deadline (wk_upstream w), next_deadline (wk_downstream w) with
  | Some a, Some b => Some (Z.min a b)
  | Some a, None => Some a
  | None, b => b
  end.

Inductive WorkerInput :=
| WStep                       (* run to the next lock or await *)
| WSeesCancel                 (* the select sees the token *)
| WReceives                   (* a datagram of the channel *)
| WDatagram (payload : bytes) (* a datagram of the upstream socket *)
| WSocketFails                (* an error of the upstream socket *)
| WWakes                      (* the next deadline *)
| WSent (size : option Z).    (* what a send returned *)

(** Write the record under its lock. *)
Definition write_record (a : nat) (f : AssociationRecord -> AssociationRecord) (s : Datagrams) : option Datagrams :=
  x ← dr_associations s !! a; worker_next a (WorkerWrites (f (as_record x))) s.

(** One move of a worker; [None] when it cannot move that way.  A poll of the
    select, which tries its arms in order, is one move. *)
Definition worker_move (a : nat) (i : WorkerInput) (w : Worker) (s : Datagrams) : option (Worker * Datagrams) :=
  x ← dr_associations s !! a;
  match wk_phase w, i with
  | WTop, WStep => Some (emit_upstream (dr_clock s) w, s)
  | WSend d [] c after, WStep =>
      if (0 <? sc_datagrams c) || (0 <? sc_errors c)
      then s ← write_record a (counted_egress c) s; Some (after_send after (set_wk_dirty true w), s)
      else Some (after_send after w, s)
  | WSend d ((item :: rest) as ready) c after, WStep =>
      if as_cancelled x
      then s ← write_record a (fun r => counted_discards (zlen ready) (counted_egress c r)) s;
           Some (set_wk_phase (stop_sending after) (set_wk_dirty true w), s)
      else Some (set_wk_phase (WSending d item rest c after) w, s)
  | WSending d item rest c after, WSent size =>
      Some (set_wk_phase (WSend d rest (counted_send (ds_payload item) size c) after) w, s)
  | WSelect, WSeesCancel => if as_cancelled x then Some (set_wk_phase WExit w, s) else None
  | WSelect, WReceives =>
      if as_cancelled x then None
      else
        match as_queue x with
        | item :: _ =>
            s ← worker_next a WorkerTakes s; Some (admit_in Upstream (dr_clock s) (in_payload item) (in_policy item) true w, s)
        | [] => None
        end
  | WSelect, WDatagram payload =>
      if as_cancelled x || negb (bool_decide (as_queue x = [])) then None
      else if max_datagram_bytes (ds_queue_limits (wk_spec w)) <? zlen payload
      then s ← worker_next a WorkerOversize s; Some (set_wk_phase WOversize w, s)
      else
        (* the definition shares its policy cells with the clone it was made from *)
        y ← dr_states s !! as_proxy x;
        Some (admit_in Downstream (dr_clock s) payload (dload (ds_downstream_policy (px_spec y))) false w, s)
  | WSelect, WSocketFails =>
      if as_cancelled x || negb (bool_decide (as_queue x = [])) then None
      else Some (set_wk_phase WFailed (set_wk_dirty true w), s)
  | WSelect, WWakes =>
      if as_cancelled x || negb (bool_decide (as_queue x = [])) then None
      else match next_wake w with Some t => if t <=? dr_clock s then Some (set_wk_phase WTurn w, s) else None | None => None end
  | WOversize, WStep =>
      s ← write_record a (counted_oversize (dr_clock s)) s; Some (set_wk_phase WTurn (set_wk_dirty true w), s)
  | WFailed, WStep => s ← write_record a counted_failure s; Some (set_wk_phase WTurn (failed_once w), s)
  | WTouch taken, WStep =>
      s ← write_record a (set_ar_last_activity (dr_clock s)) s;
      Some (set_wk_phase (if taken then WDrop false else WTurn) (set_wk_dirty true w), s)
  | WDrop stop, WStep => s ← worker_next a WorkerDrops s; Some (set_wk_phase (if stop then WExit else WTurn) w, s)
  | WTurn, WStep =>
      if wk_dirty w
      then s ← write_record a (update_evidence w) s; Some (set_wk_phase WTop (set_wk_dirty false w), s)
      else Some (set_wk_phase WTop w, s)
  | WExit, WStep =>
      let '(n, up) := discard_all (wk_upstream w) in
      let '(m, down) := discard_all (wk_downstream w) in
      let seen := zlen (as_queue x) in
      Some (set_wk_phase (WCount (wadd (sat_add USIZE_MAX n m) seen) seen) (set_wk_engine Downstream down (set_wk_engine Upstream up w)), s)
  | WCount discarded seen, WStep =>
      s ← write_record a (fun r => update_evidence w (if as_administrative x then counted_discards discarded r else r)) s;
      Some (set_wk_phase (WReturn seen (as_administrative x)) w, s)
  | WReturn seen _, WStep =>
      s ← worker_next a WorkerEnds s; Some (set_wk_phase (WEnded (zlen (as_queue x) - seen)) w, s)
  | _, _ => None
  end.

(** ** The runtime with its workers *)

(** The worker of an association, under its number; [None] when its task
    panicked at the start. *)
Record Runtime := { rt_system : DatagramSystem; rt_workers : list (option Worker) }.

Inductive runtime_move := RSystem (m : move DatagramEvent) | RWorker (a : nat) (i : WorkerInput).

(** [publish_association] spawns the worker of the association it makes. *)
Definition spawned (m : move DatagramEvent) (s : Datagrams) : list (option Worker) :=
  match m with
  | Event (ListenerMoves o LConnected) =>
      match lo_phase <$> dr_listeners s !! o with
      | Some (LSetup _ _ _ spec) => [worker_new spec (dr_next_association s)]
      | _ => []
      end
  | _ => []
  end.

Definition runtime_next (m : runtime_move) (r : Runtime) : option Runtime :=
  match m with
  | RSystem (Event (WorkerMoves _ _)) => None
  | RSystem m =>
      sys ← sys_next m (rt_system r);
      Some {| rt_system := sys; rt_workers := rt_workers r ++ spawned m (sys_state (rt_system r)) |}
  | RWorker a i =>
      worker ← rt_workers r !! a;
      w ← worker;
      '(w, s) ← worker_move a i w (sys_state (rt_system r));
      Some {| rt_system := {| sys_state := s; sys_calls := sys_calls (rt_system r) |}; rt_workers := <[a := Some w]> (rt_workers r) |}
  end.
Definition runtime_step (r r' : Runtime) : Prop := exists m, runtime_next m r = Some r'.
Definition runtime_initial (lims : DatagramRuntimeLimits) (rs : list datagram_request) : Runtime :=
  {| rt_system := datagram_initial (datagrams_new lims) rs; rt_workers := [] |}.

Fixpoint runtime_run (ms : list runtime_move) (r : Runtime) : option Runtime :=
  match ms with
  | [] => Some r
  | m :: ms => match runtime_next m r with Some r => runtime_run ms r | None => None end
  end.
