(* ===== verification/UdpWorkerInv.v ===== *)
(** * Workers of the datagram runtime among the others

    What the calls and the listeners do to an association whose worker runs,
    and the invariant that ties each worker to its association. *)

From Stdlib Require Import Bool.
From stdpp Require Import base list gmap strings relations.
From S2P Require Import Prelude Rng Float64 Plan Policy Env DatagramPlan DatagramState Datagram DatagramProps DatagramRun Schedule Wire Server Tasks UdpState UdpRuntime UdpOwn UdpInv UdpSteps UdpSafe UdpRun UdpWorker.

(** ** Steps of the others *)

Definition cells_of (x : ProxyState) : DatagramLivePolicy * DatagramLivePolicy := (ds_upstream_policy (px_spec x), ds_downstream_policy (px_spec x)).
Definition fine_cells (c : DatagramLivePolicy * DatagramLivePolicy) : Prop := policy_fine (dload c.1) /\ policy_fine (dload c.2).
(** Every published plan is a value of its type that was validated. *)
Definition plans_fine (s : Datagrams) : Prop := Forall fine_cells (map cells_of (dr_states s)).

(** An association before and after a step that is not its worker's. *)
Record outside (s : Datagrams) (x x' : Association) : Prop := {
  ou_hand : as_hand x' = as_hand x;
  ou_ended : as_ended x' = as_ended x;
  ou_cancelled : as_cancelled x = true -> as_cancelled x' = true;
  ou_egress : ar_egress_datagrams (as_record x') = ar_egress_datagrams (as_record x)
    /\ ar_send_errors (as_record x') = ar_send_errors (as_record x);
  ou_evidence : ar_upstream_evidence (as_record x') = ar_upstream_evidence (as_record x)
    /\ ar_downstream_evidence (as_record x') = ar_downstream_evidence (as_record x);
  ou_discards : as_ended x = false -> ar_administrative_discards (as_record x') = ar_administrative_discards (as_record x);
  ou_queue : (as_queue x' = as_queue x /\ ar_ingress_datagrams (as_record x') = ar_ingress_datagrams (as_record x))
    \/ exists item, as_queue x' = as_queue x ++ [item] /\ (plans_fine s -> policy_fine (in_policy item))
       /\ ar_ingress_datagrams (as_record x') = sat_add64 (ar_ingress_datagrams (as_record x)) 1
}.
Lemma outside_refl s x : outside s x x.
Proof. constructor; auto. Qed.

Record outside_step (s s' : Datagrams) : Prop := {
  os_seen : forall a x, dr_associations s !! a = Some x -> exists x', dr_associations s' !! a = Some x' /\ outside s x x';
  os_length : length (dr_associations s') = length (dr_associations s);
  os_plans : plans_fine s -> plans_fine s'
}.

(** Steps that touch neither associations nor policies. *)
Definition quiet (s s' : Datagrams) : Prop :=
  dr_associations s' = dr_associations s /\ map cells_of (dr_states s') = map cells_of (dr_states s).
#[export] Instance quiet_preorder : PreOrder quiet.
Proof. split; [done|]. intros a b c [] []. split; congruence. Qed.

Lemma quiet_outside s s' : quiet s s' -> outside_step s s'.
Proof.
  intros [E C]. constructor; rewrite ?E; [|done|unfold plans_fine; by rewrite C]. intros a x H. exists x. split; [done|apply outside_refl].
Qed.

Lemma on_state_quiet p f s : (forall x, cells_of (f x) = cells_of x) -> quiet s (on_state p f s).
Proof. intros H. split; [done|]. cbn. by apply map_alter_same. Qed.
Lemma release_quiet l s : quiet s (release l s).
Proof.
  unfold release. destruct (dr_leases s !! l) as [x|]; [|done]. destruct (le_released x); [done|].
  split; [done|]. cbn. by apply map_alter_same.
Qed.
Lemma release_reservation_quiet r s : quiet s (release_reservation r s).
Proof. unfold release_reservation. destruct (dr_reservations s !! r); [apply release_quiet|done]. Qed.
Lemma abandon_quiet p c r b s : quiet s (abandon_starting p c r b s).
Proof.
  unfold abandon_starting. destruct (same_reservation _ _).
  - trans (set_table p (delete c (table_of p s)) s); [by apply on_state_quiet|]. etrans; [|apply release_reservation_quiet]. done.
  - etrans; [|apply release_reservation_quiet]. done.
Qed.
Lemma drain_quiet p b s : quiet s (drain_associations p b s).2.
Proof.
  unfold drain_associations. cbn [snd]. trans (set_table p ∅ s); [by apply on_state_quiet|].
  generalize (map snd (map_to_list (table_of p s))). intros l. generalize (set_table p ∅ s). clear s.
  induction l as [|[r|a] l IH]; intros s; cbn; [done| |apply IH]. etrans; [|apply IH].
  etrans; [|apply release_reservation_quiet]. done.
Qed.
Lemma acquire_quiet p s n s' : try_acquire p s = Some (n, s') -> quiet s s'.
Proof.
  unfold try_acquire. destruct (dr_states s !! p) as [x|]; [|done]. do 2 (case_match; [|done]). intros [= _ <-].
  split; [done|]. cbn. by apply map_alter_same.
Qed.
Lemma end_stop_quiet a now s : quiet s (end_stop a now s).
Proof. unfold end_stop. destruct (dr_associations s !! a); [|done]. exact (release_quiet _ s). Qed.

Lemma alter_outside s s' a f : dr_associations s' = alter f a (dr_associations s) -> (forall x, outside s x (f x)) ->
  (plans_fine s -> plans_fine s') -> outside_step s s'.
Proof.
  intros E H P. constructor; [|by rewrite E, length_alter|done]. intros b x Hx. rewrite E. destruct (decide (a = b)) as [<-|N].
  - rewrite list_lookup_alter_eq, Hx. eexists. split; [done|apply H].
  - rewrite list_lookup_alter_ne by done. exists x. split; [done|apply outside_refl].
Qed.
Lemma begin_stop_outside a b s : outside_step s (begin_stop a b s).
Proof.
  eapply (alter_outside s _ a); [reflexivity| |done]. intros x. destruct b; constructor; auto.
Qed.

(** ** Listener tasks that only listeners move *)

(** A listener is new, or where it was. *)
Definition tasks_kept (s s' : Datagrams) : Prop := forall o l', dr_listeners s' !! o = Some l' ->
  lo_phase l' = LSelect \/ exists l, dr_listeners s !! o = Some l /\ lo_phase l' = lo_phase l.
Lemma same_tasks s s' : dr_listeners s' = dr_listeners s -> tasks_kept s s'.
Proof. intros E o l' H. right. exists l'. by rewrite <- E. Qed.
Lemma on_listener_tasks o f s : (forall l, lo_phase (f l) = lo_phase l) -> tasks_kept s (on_listener o f s).
Proof.
  intros F o' l'. cbn. intros [[_ H]|(<- & l & H & ->)]%lookup_alter_inv; right; eauto.
Qed.

(** ** Calls *)

Section Within.
Context {S W : Type} (G : relation S).
(** Every step a process may take is of kind [G]. *)
Fixpoint within {A} (p : process S W A) : Prop :=
  match p with
  | Ret _ | Panic => True
  | Step f k => forall s, G s (f s) /\ within (k s)
  | BindListener _ k => forall ans, within (k ans)
  | Await _ k => within k
  end.
Lemma within_bind {A B} (p : process S W A) (k : A -> process S W B) : within p -> (forall a, within (k a)) -> within (proc_bind p k).
Proof. intros P K. induction p as [a| |f q IH|addr q IH|w q IH]; cbn in *; auto. intros s. destruct (P s). auto. Qed.
Lemma within_atomic {A} (f : S -> S * process S W A) : (forall s, G s (f s).1 /\ within (f s).2) -> within (atomic f).
Proof. done. Qed.
End Within.

Lemma publish_cells_fine d plan seed expected x g y : dplan_typed plan -> fine_cells (cells_of x) ->
  publish_guarded d plan seed expected x = Ok (g, y) -> fine_cells (cells_of y).
Proof.
  intros T F. unfold publish_guarded. destruct (match expected with Some _ => _ | None => _ end); [done|].
  destruct (Live.publish_plan _ _ _) as [[p|[e|c]] cell] eqn:P; try done. intros [= _ <-].
  assert (C : policy_fine (dload cell)).
  { unfold Live.publish_plan, publish, publish_call in P. cbn [rq_plan] in P. destruct (dplan_validate plan) as [[]|] eqn:V; [|done].
    destruct (snapshot (plan_of d (px_spec x))) as [cur|] eqn:E; [|done]. destruct (loop_checks _ _ _) eqn:L; [done|].
    unfold compare_and_swap in P. rewrite Nat.eqb_refl in P. cbn [snd] in P. injection P as _ <-.
    unfold dload, snapshot. cbn. rewrite lookup_app_r by lia. rewrite Nat.sub_diag. split; [by apply (dplan_wf_validate plan)|done]. }
  destruct F as [F1 F2]. by destruct d.
Qed.

(** The plans of a request are values of their type, and validated where the
    request brings the cell they are published in. *)
Definition request_plans (r : datagram_request) : Prop :=
  match r with
  | DqCreate spec => fine_cells (ds_upstream_policy spec, ds_downstream_policy spec)
  | DqPublish _ _ plan _ _ => dplan_typed plan
  | _ => True
  end.

(** What the operations do to the state between their locks. *)
Record admits_calls (G : relation Datagrams) : Prop := {
  ac_refl : forall s, G s s;
  ac_proxies : forall ps s, G s (set_dr_proxies ps s);
  ac_drain : forall p b s, G s (drain_associations p b s).2;
  ac_remove : forall p t s, G s (set_table p t s);
  ac_begin : forall a b s, G s (begin_stop a b s);
  ac_end : forall a now s, G s (end_stop a now s);
  ac_cancel : forall o s, G s (cancel_listener o s);
  ac_discard : forall o s, G s (cancel_listener o (keep_on_exit o s));
  ac_spawn : forall bound p s, G s (spawn_listener bound p s).2;
  ac_replace : forall p next s, G s (on_state p (fun x => set_px_spec (replace_spec next (px_spec x)) x) s);
  ac_create : forall spec name m s, fine_cells (ds_upstream_policy spec, ds_downstream_policy spec) ->
    G s (put_managed name m (set_dr_states (dr_states s ++ [state_new spec]) s));
  ac_publish : forall d plan seed expected p x g y s, dplan_typed plan -> dr_states s !! p = Some x ->
    publish_guarded d plan seed expected x = Ok (g, y) -> G s (on_state p (fun _ => y) s)
}.

Create HintDb tame discriminated.
#[export] Hint Extern 5 (within _ _) => exact I : tame.

Section Calls.
Context (G : relation Datagrams) (C : admits_calls G).
Abbreviation tame := (@within Datagrams DatagramWait G _).

#[local] Hint Extern 1 (G _ _) => solve [by apply C] : tame.

Lemma observe_tame {A} (f : Datagrams -> A) : tame (observe f : dproc A).
Proof. apply within_atomic. intros s. split; [by apply C|done]. Qed.
Lemma with_state_tame {A} p (f : ProxyState -> Datagrams -> Datagrams * dproc A) :
  (forall x s, dr_states s !! p = Some x -> G s (f x s).1 /\ tame (f x s).2) -> tame (with_state p f).
Proof. intros H. apply within_atomic. intros s. destruct (dr_states s !! p) eqn:E; [by apply H|]. split; [by apply C|done]. Qed.
Lemma view_tame p b r : tame (answer_view p b r).
Proof. apply within_bind; [|done]. apply with_state_tame. intros x s _. split; [by apply C|done]. Qed.
Lemma stop_association_tame {A} a b (k : dproc A) : tame k -> tame (stop_association a b k).
Proof. intros K. apply within_atomic. intros s. split; [by apply C|]. cbn. intros s'. split; [by apply C|done]. Qed.
Lemma stop_all_tame {A} l (k : dproc A) : tame k -> tame (stop_all l k).
Proof. intros K. induction l; cbn; [done|]. by apply stop_association_tame. Qed.
Lemma drain_and_stop_tame {A} p b (k : dproc A) : tame k -> tame (drain_and_stop p b k).
Proof.
  intros K. apply within_atomic. intros s. pose proof (ac_drain _ C p b s) as Q. destruct (drain_associations p b s) as [l s'].
  split; [done|]. by apply stop_all_tame.
Qed.
Lemma stop_listener_tame {A} o (k : dproc A) : tame k -> tame (stop_listener o k).
Proof. intros K. apply within_atomic. intros s. split; [by apply C|done]. Qed.
Lemma stop_owner_tame {A} o (k : dproc A) : tame k -> tame (stop_owner o k).
Proof. destruct o; [apply stop_listener_tame|done]. Qed.
Lemma discard_listener_tame {A} o (k : dproc A) : tame k -> tame (discard_listener o k).
Proof. intros K. apply within_atomic. intros s. split; [by apply C|done]. Qed.
Lemma bind_tame {A} listen (k : SocketAddr -> dproc (result A DatagramRuntimeError)) : (forall addr, tame (k addr)) -> tame (bind_datagram listen k).
Proof. intros K [addr|e|e]; [apply K|done..]. Qed.
Lemma spawn_tame {A} bound p (k : nat -> dproc A) : (forall o, tame (k o)) ->
  tame (atomic (fun s => let '(o, s) := spawn_listener bound p s in (s, k o))).
Proof. intros K. apply within_atomic. intros s. split; [exact (ac_spawn _ C bound p s)|apply K]. Qed.
#[local] Hint Resolve observe_tame view_tame stop_association_tame stop_all_tame drain_and_stop_tame stop_listener_tame
  stop_owner_tame discard_listener_tame bind_tame spawn_tame : tame.

(** A step, by the cases of its conditions. *)
Ltac tame_cases := let s := fresh "s" in apply within_atomic; intros s; cbv zeta; repeat case_match; cbn [fst snd];
  (split; [by auto with tame|]); auto with tame.

Lemma create_tame spec : fine_cells (ds_upstream_policy spec, ds_downstream_policy spec) -> tame (create_proxy spec).
Proof.
  intros F. tame_cases. apply bind_tame. intros addr. tame_cases. apply spawn_tame. intros o. tame_cases.
Qed.
Lemma disable_tame name : tame (disable_proxy name).
Proof. tame_cases. Qed.
Lemma delete_tame name : tame (delete_proxy name).
Proof. tame_cases. Qed.
Lemma enable_tame name : tame (enable_proxy name).
Proof. tame_cases. apply bind_tame. intros addr. apply spawn_tame. intros o. tame_cases. Qed.

Lemma update_start_tame name p bound : tame (update_start name p bound).
Proof.
  assert (F : tame (update_finish name p bound)) by tame_cases.
  destruct bound; [|exact F]. apply spawn_tame. intros o. tame_cases.
Qed.
#[local] Hint Resolve update_start_tame : tame.
Ltac state_cases := let x := fresh "x" in let s := fresh "s" in apply with_state_tame; intros x s ?; cbv zeta; repeat case_match; cbn [fst snd];
  (split; [by auto with tame|]); auto with tame.
Lemma update_stop_tame name p old next running desired bound : tame (update_stop name p old next running desired bound).
Proof.
  assert (T : tame (update_commit_stopped name p old next bound)) by (state_cases; state_cases).
  unfold update_stop. case_match; state_cases. tame_cases.
Qed.
Lemma update_tame name u : tame (update_proxy name u).
Proof.
  tame_cases. apply within_bind; [state_cases|]. intros clone. state_cases.
  - apply bind_tame. intros addr. apply update_stop_tame.
  - apply update_stop_tame.
Qed.

Lemma publish_tame name d plan seed expected : dplan_typed plan -> tame (publish_fault_plan name d plan seed expected).
Proof.
  intros T. unfold publish_fault_plan. destruct (dplan_validate plan); [|done]. apply within_atomic. intros s.
  destruct (dr_proxies s !! name) as [m|]; [|by split; [apply C|]].
  destruct (dr_states s !! mg_state m) as [x|] eqn:Hx; [|by split; [apply C|]].
  destruct (publish_guarded d plan seed expected x) as [[g y]|e] eqn:E; (split; [|done]); [|by apply C].
  by eapply (ac_publish _ C).
Qed.

Lemma kill_tame id : tame (kill_association id).
Proof.
  apply within_bind; [apply observe_tame|]. intros l. induction l as [|p l IH]; cbn [kill_in]; [done|]. apply within_atomic. intros s.
  destruct (find_slot id p s) as [[c a]|]; (split; [by apply C|cbn [snd]; by auto with tame]).
Qed.
Lemma shutdown_tame : tame shutdown.
Proof.
  apply within_bind; [apply observe_tame|]. intros l. induction l as [|n l IH]; cbn [delete_each]; [done|].
  apply within_bind; [apply delete_tame|done].
Qed.

Lemma call_tame r : request_plans r -> tame (datagram_call r).
Proof.
  intros P. destruct r; cbn [datagram_call request_plans] in *; (apply within_bind; [|done]); try apply observe_tame.
  - by apply create_tame.
  - apply enable_tame.
  - apply disable_tame.
  - apply delete_tame.
  - apply update_tame.
  - by apply publish_tame.
  - apply within_bind; [apply observe_tame|]. intros h. apply within_bind; [apply observe_tame|done].
  - apply kill_tame.
  - apply shutdown_tame.
Qed.
End Calls.

(** What a call does between two awaits. *)
Record call_step (s s' : Datagrams) : Prop := { cs_outside : outside_step s s'; cs_tasks : tasks_kept s s' }.

Lemma published_outside d plan seed expected p x g y s : dplan_typed plan -> dr_states s !! p = Some x ->
  publish_guarded d plan seed expected x = Ok (g, y) -> outside_step s (on_state p (fun _ => y) s).
Proof.
  intros T Hx E. constructor; cbn; [|done|].
  - intros b z Hz. exists z. split; [done|apply outside_refl].
  - unfold plans_fine. cbn. intros P. apply Forall_lookup_2. intros i c. rewrite lookup_map, list_lookup_alter.
    case_decide as D; [|rewrite <- lookup_map; by apply Forall_lookup_1]. subst i. rewrite Hx. intros [= <-].
    eapply publish_cells_fine; [done| |exact E]. eapply (Forall_lookup_1 _ _ p); [exact P|]. by rewrite lookup_map, Hx.
Qed.

Lemma release_tasks l s : dr_listeners (release l s) = dr_listeners s.
Proof. unfold release. destruct (dr_leases s !! l) as [x|]; [|done]. by destruct (le_released x). Qed.

Lemma call_steps : admits_calls call_step.
Proof.
  constructor.
  - intros s. split; [by apply quiet_outside|by apply same_tasks].
  - intros ps s. split; [by apply quiet_outside|by apply same_tasks].
  - intros p b s. split; [apply quiet_outside, drain_quiet|apply same_tasks, drain_listeners].
  - intros p t s. split; [by apply quiet_outside, on_state_quiet|by apply same_tasks].
  - intros a b s. split; [apply begin_stop_outside|by apply same_tasks].
  - intros a now s. split; [apply quiet_outside, end_stop_quiet|apply same_tasks, end_stop_listeners].
  - intros o s. split; [by apply quiet_outside|by apply on_listener_tasks].
  - intros o s. split; [by apply quiet_outside|]. intros o' l'. cbn.
    intros [[_ [[_ H]|(<- & l & H & ->)]%lookup_alter_inv]|(<- & l & [[_ H]|(_ & l0 & H & ->)]%lookup_alter_inv & ->)]%lookup_alter_inv; right; eauto.
  - intros bound p s. split; [by apply quiet_outside|]. intros o l'. cbn. intros [H|[_ ->]]%lookup_snoc_inv; [right; eauto|by left].
  - intros p next s. split; [|by apply same_tasks]. apply quiet_outside. split; [done|]. by apply map_alter_same.
  - intros spec name m s F. split; [|by apply same_tasks]. constructor; cbn; [|done|].
    + intros b x Hx. exists x. split; [done|apply outside_refl].
    + unfold plans_fine. cbn. rewrite map_app. intros P. apply Forall_app. split; [done|]. by constructor.
  - intros d plan seed expected p x g y s T Hx E. split; [by eapply published_outside|by apply same_tasks].
Qed.

(** ** Listeners and other workers *)

Lemma then_quiet s s1 s2 : outside_step s s1 -> quiet s1 s2 -> outside_step s s2.
Proof.
  intros [Q1 L1 P1] [E C]. constructor; rewrite ?E; [done|done|]. unfold plans_fine. rewrite C. exact P1.
Qed.
Lemma record_outside s s' a f : quiet s s' -> (forall x, outside s x (set_as_record (f (as_record x)) x)) -> outside_step s (on_record a f s').
Proof.
  intros [E C] H. eapply (alter_outside s _ a); [unfold on_record, on_association; cbn; by rewrite E|exact H|].
  unfold plans_fine. cbn. by rewrite C.
Qed.

Lemma send_outside o p a payload now s : outside_step s (send_step o p a payload now s).
Proof.
  unfold send_step. destruct (dr_states s !! p) as [x|] eqn:Hx; [|by apply quiet_outside].
  destruct (dr_associations s !! a) as [y|] eqn:Hy; [|by apply quiet_outside]. cbv zeta. set (ov := fun s => on_state p (fun x => set_px_overflow (bump (px_overflow x)) x) s).
  assert (Q : quiet s (ov s)) by (by apply on_state_quiet).
  destruct (reserve_ingress _ s) as [s1|] eqn:R.
  2:{ apply (then_quiet s (on_record a (counted_overflow now) (ov s))); [|done]. apply record_outside; [exact Q|].
    intros z. constructor; auto. }
  assert (Q1 : quiet s s1) by (unfold reserve_ingress in R; case_match; [by injection R as <-|done]).
  destruct (as_ended y) eqn:E.
  { apply (then_quiet s (on_record a (counted_closed now) (ov s))); [|done]. eapply (alter_outside s _ a (fun x => if as_ended x then set_as_record (counted_closed now (as_record x)) x else x)).
    - apply list_eq. intros i. cbn. rewrite !list_lookup_alter. case_decide as D; [|done]. subst i. rewrite Hy. cbn. by rewrite E.
    - intros z. destruct (as_ended z) eqn:Ez; [|apply outside_refl]. constructor; auto. by rewrite Ez.
    - intros P. unfold plans_fine in *. rewrite <- (proj2 Q) in P. exact P. }
  destruct (_ <=? _).
  { apply (then_quiet s (on_record a (counted_overflow now) (ov s))); [|done]. apply record_outside; [exact Q|].
    intros z. constructor; auto. }
  set (item := {| in_payload := payload; in_policy := _ |}). set (s2 := on_record a _ _).
  apply (then_quiet s s2); [|done].
  eapply (alter_outside s _ a (fun x => set_as_record (counted_ingress (zlen payload) now (as_record x))
    (set_as_pending (wadd (as_pending x) 1) (set_as_queue (as_queue x ++ [item]) x)))).
  - apply list_eq. intros i. cbn. rewrite (proj1 Q1), !list_lookup_alter. destruct (decide (a = i)); [|done].
    rewrite decide_True by done. by destruct (dr_associations s !! a).
  - intros z. constructor; auto. right. exists item. split_and!; [done| |done]. intros P. cbn.
    assert (F : fine_cells (cells_of x)) by (eapply (Forall_lookup_1 _ _ p); [exact P|]; by rewrite lookup_map, Hx). apply F.
  - intros P. unfold plans_fine in *. rewrite <- (proj2 Q1) in P. exact P.
Qed.

(** What [LConnected] appends. *)
Record association_fresh (x : Association) : Prop := {
  af_queue : as_queue x = [];
  af_hand : as_hand x = None;
  af_ended : as_ended x = false;
  af_record : exists id proxy client upstream now, as_record x = record_new id proxy client upstream now
}.

Lemma made_fresh o p c pl r spec now s :
  exists x, association_fresh x
    /\ dr_associations (association_made o p c pl r spec now s) = dr_associations s ++ [x]
    /\ map cells_of (dr_states (association_made o p c pl r spec now s)) = map cells_of (dr_states s).
Proof.
  eexists. split; [|by split]. constructor; try done. by do 5 eexists.
Qed.

Lemma listener_outside o ev s s' : ev <> LConnected -> listener_next o ev s = Some s' -> outside_step s s'.
Proof.
  intros N. unfold listener_next. destruct (dr_listeners s !! o) as [l|]; [|done].
  assert (F : forall s1, quiet s s1 -> outside_step s (setup_failure o (lo_state l) s1)).
  { intros s1 Q. apply quiet_outside. etrans; [exact Q|]. trans (on_state (lo_state l) (fun x => set_px_failures (bump (px_failures x)) x) s1); [by apply on_state_quiet|done]. }
  destruct (lo_phase l) eqn:Hp, ev; try (intros H; discriminate H); try (by destruct expired as [|[]]); try (by destruct rest); try done.
  - destruct (lo_cancelled l); [|done]. intros [= <-]. by apply quiet_outside.
  - destruct (lo_cancelled l); [done|]. intros [= <-]. unfold receive_datagram.
    destruct (dr_states s !! lo_state l) as [x|]; [|by apply quiet_outside]. case_match; [|by apply quiet_outside].
    cbv zeta. set (s1 := on_state _ _ s). assert (Q : quiet s s1) by (by apply on_state_quiet).
    destruct (px_table x !! client) as [[r|a]|]; [by apply quiet_outside| |by apply quiet_outside].
    apply record_outside; [done|]. intros z. constructor; auto.
  - destruct (lo_cancelled l); [done|]. intros [= <-]. by apply quiet_outside.
  - intros [= <-]. apply quiet_outside. by destruct (table_of (lo_state l) s !! client) as [[r|a]|].
  - intros [= <-]. apply quiet_outside. unfold lookup_step. destruct (table_of (lo_state l) s !! client) as [[r|a]|]; [|done|].
    + destruct (is_terminal r s); [|done].
      trans (set_table (lo_state l) (delete client (table_of (lo_state l) s)) s); [by apply on_state_quiet|done].
    + destruct (dr_states s !! lo_state l) as [x|]; [|done]. destruct (try_acquire (lo_state l) s) as [[lease s1]|] eqn:A.
      * apply acquire_quiet in A. cbn. trans s1; [done|].
        trans (set_table (lo_state l) (<[client := Starting (length (dr_reservations s1))]> (table_of (lo_state l) s)) (reservation_new lease s1).2); [|done].
        trans (reservation_new lease s1).2; [done|]. by apply on_state_quiet.
      * trans (on_state (lo_state l) (fun x => set_px_rejections (bump (px_rejections x)) x) s); [by apply on_state_quiet|done].
  - destruct (rv_outcome <$> dr_reservations s !! r) as [[| |[]]|]; try done; intros [= <-]; [by apply quiet_outside..|by apply F].
  - intros [= <-]. apply F, abandon_quiet.
  - intros [= <-]. unfold publish_step. destruct (same_reservation _ _).
    + apply quiet_outside. trans (set_table (lo_state l) (<[client := Active a]> (table_of (lo_state l) s)) s); [by apply on_state_quiet|done].
    + apply (then_quiet s (begin_stop a false (abandon_starting (lo_state l) client r false s))); [|done].
      pose proof (abandon_quiet (lo_state l) client r false s) as Q.
      eapply (alter_outside s _ a); [cbn; by rewrite (proj1 Q)| |intros P; unfold plans_fine in *; rewrite <- (proj2 Q) in P; exact P].
      intros z. constructor; auto.
  - destruct (is_ended a s); [|done]. intros [= <-]. by apply F.
  - intros [= <-]. apply send_outside.
  - destruct expired as [|[c a] rest]; intros [= <-]; [by apply quiet_outside|]. apply quiet_outside.
    destruct (is_active _ _); [|done]. trans (set_table (lo_state l) (delete c (table_of (lo_state l) s)) s); [by apply on_state_quiet|done].
  - intros [= <-]. apply quiet_outside. destruct (lo_drain_on_exit l); [|done].
    exact (drain_quiet (lo_state l) false s).
  - destruct rest as [|a rest]; intros [= <-]; by apply quiet_outside.
  - intros [= <-]. apply (then_quiet s (begin_stop a administrative s)); [apply begin_stop_outside|done].
  - destruct (is_ended a s); [|done]. intros [= <-]. apply quiet_outside. exact (end_stop_quiet a (dr_clock s) s).
Qed.

(** ** Setups hold validated definitions *)

Definition setups_fine (s : Datagrams) : Prop := forall o l c pl r spec,
  dr_listeners s !! o = Some l -> lo_phase l = LSetup c pl r spec -> limits_ok (ds_queue_limits spec).

Lemma spec_limits lims s : spec_ok lims s -> limits_ok (ds_queue_limits s).
Proof.
  intros [V _ _ _ (N1 & N2 & N3)]. unfold datagram_spec_validate in V. do 3 (case_split_in V; [done|]).
  unfold limits_validate in V. destruct (_ || _) eqn:B in V; [done|]. apply orb_false_iff in B as [[B1 B2]%orb_false_iff B3].
  apply Z.ltb_ge in B1, B2, B3. constructor; lia.
Qed.

Lemma setups_kept s s' : tasks_kept s s' -> setups_fine s -> setups_fine s'.
Proof.
  intros T F o l c pl r spec H P. destruct (T o l H) as [E|(l0 & H0 & E)]; [congruence|]. eapply F; [exact H0|rewrite <- E; exact P].
Qed.

Lemma to_phase_setups o ph s s' : dr_listeners s' = dr_listeners s -> setups_fine s ->
  (forall c pl r spec, ph = LSetup c pl r spec -> limits_ok (ds_queue_limits spec)) -> setups_fine (to_phase o ph s').
Proof.
  intros E F P o' l c pl r spec. cbn. rewrite E. intros [[_ H]|(<- & l0 & H & ->)]%lookup_alter_inv; cbn; [by eapply F|]. apply P.
Qed.

Lemma abandon_tasks p c r b s : dr_listeners (abandon_starting p c r b s) = dr_listeners s.
Proof. apply abandon_listeners. Qed.
Lemma acquire_tasks p s n s' : try_acquire p s = Some (n, s') -> dr_listeners s' = dr_listeners s.
Proof. unfold try_acquire. destruct (dr_states s !! p); [|done]. do 2 (case_match; [|done]). by intros [= _ <-]. Qed.

Lemma listener_setups o ev s s' : datagrams_ok s -> listener_next o ev s = Some s' -> setups_fine s -> setups_fine s'.
Proof.
  intros I. unfold listener_next. destruct (dr_listeners s !! o) as [l|] eqn:Ho; [|done]. intros H F.
  assert (T : forall ph s1, dr_listeners s1 = dr_listeners s -> setting_up ph = None -> setups_fine (to_phase o ph s1)).
  { intros ph s1 E N. apply (to_phase_setups o ph s s1); [done|done|]. by intros c pl r spec ->. }
  destruct (lo_phase l) eqn:Hp, ev; try discriminate H; try (by destruct expired as [|[]]); try (by destruct rest).
  - destruct (lo_cancelled l); [|done]. injection H as <-. by apply T.
  - destruct (lo_cancelled l); [done|]. injection H as <-. unfold receive_datagram.
    destruct (dr_states s !! lo_state l) as [x|]; [|done]. case_match; [|by apply T]. by destruct (px_table x !! client) as [[]|].
  - destruct (lo_cancelled l); [done|]. injection H as <-. by apply T.
  - injection H as <-. destruct (table_of (lo_state l) s !! client) as [[r|a]|]; by apply T.
  - injection H as <-. unfold lookup_step. destruct (table_of (lo_state l) s !! client) as [[r|a]|]; [destruct (is_terminal r s); by apply T|by apply T|].
    destruct (dr_states s !! lo_state l) as [x|] eqn:Hx; [|done]. destruct (try_acquire (lo_state l) s) as [[lease s1]|] eqn:A; [|by apply T].
    apply acquire_tasks in A. cbn. apply (to_phase_setups o _ s); [done|done|]. intros c pl r spec [= _ _ _ <-].
    eapply spec_limits. by eapply state_spec.
  - destruct (rv_outcome <$> dr_reservations s !! r) as [[| |[]]|]; try done; injection H as <-; by apply T.
  - injection H as <-. by apply (to_phase_setups o _ s).
  - injection H as <-. apply T; [|done]. cbn. by rewrite abandon_tasks.
  - injection H as <-. unfold publish_step. destruct (same_reservation _ _); apply T; try done. cbn. by rewrite abandon_tasks.
  - destruct (is_ended a s); [|done]. injection H as <-. by apply T.
  - injection H as <-. unfold send_step. destruct (dr_states s !! lo_state l) as [x|]; [|done]. destruct (dr_associations s !! a) as [y|]; [|done].
    cbv zeta. destruct (reserve_ingress _ s) as [s1|] eqn:R; [|by apply T].
    assert (E : dr_listeners s1 = dr_listeners s) by (unfold reserve_ingress in R; case_match; [by injection R as <-|done]).
    destruct (as_ended y); [by apply T|]. destruct (_ <=? _); by apply T.
  - destruct expired as [|[c a] rest]; injection H as <-; [by apply T|]. destruct (is_active _ _); by apply T.
  - injection H as <-. destruct (lo_drain_on_exit l); [|by apply T]. pose proof (drain_listeners (lo_state l) false s) as E. by apply T.
  - destruct rest as [|a rest]; injection H as <-; by apply T.
  - injection H as <-. by apply T.
  - destruct (is_ended a s); [|done]. injection H as <-. apply T; [apply end_stop_listeners|].
    pose proof (task_phase s o l I Ho) as P. rewrite Hp in P. destruct P as (_ & _ & S & _). by match goal with |- setting_up ?n = None => destruct n end.
Qed.
