(* ===== verification/UdpWorkerRun.v ===== *)
(** * Runs of the datagram runtime with its workers

    The actual workers behave as the runtime expects of them, and every
    datagram that enters an association is accounted for. *)

From Stdlib Require Import Bool.
From stdpp Require Import base list gmap strings relations.
From S2P Require Import Prelude Rng Float64 Plan Policy Env DatagramPlan DatagramState Datagram DatagramProps DatagramRun Schedule Wire Server Tasks UdpState UdpRuntime UdpOwn UdpInv UdpSteps UdpSafe UdpRun UdpWorker UdpWorkerInv.

(** ** What an engine gives out *)

Definition admitted (e : DatagramDirectionEngine) : Z := d_admitted_datagrams (de_evidence e).
Definition duplicated (e : DatagramDirectionEngine) : Z := d_duplicated_copies (de_evidence e).
Definition emitted (e : DatagramDirectionEngine) : Z := d_emitted_datagrams (de_evidence e).

Definition ranged (e : DatagramDirectionEngine) : Prop := 0 <= duplicated e <= U64_MAX /\ 0 <= emitted e <= U64_MAX.
Definition flow (n : Z) (e e' : DatagramDirectionEngine) : Prop :=
  ranged e -> ranged e' /\ admitted e' = admitted e /\ emitted e' = sat_add64 (emitted e) n /\ duplicated e <= duplicated e'.

Lemma flow_same e e' : (admitted e', duplicated e', emitted e') = (admitted e, duplicated e, emitted e) -> flow 0 e e'.
Proof. unfold flow, ranged. intros [= -> -> ->] R. split_and!; try done; unfold sat_add; lia. Qed.
Lemma flow_trans n m a b c : 0 <= n -> 0 <= m -> flow n a b -> flow m b c -> flow (n + m) a c.
Proof.
  intros Hn Hm F G R. destruct (F R) as (R1 & A1 & E1 & D1). destruct (G R1) as (R2 & A2 & E2 & D2).
  split_and!; [done|lia|rewrite E2, E1; unfold sat_add; lia|lia].
Qed.
Lemma flow_then n a b c : 0 <= n -> flow 0 a b -> flow n b c -> flow n a c.
Proof. intros Hn F G. by apply (flow_trans 0 n a b c). Qed.

Lemma duplicate_flow n p d : forall nx v cs nx' v', duplicate_loop n p d nx v = (cs, nx', v') ->
  d_admitted_datagrams v' = d_admitted_datagrams v /\ d_emitted_datagrams v' = d_emitted_datagrams v
  /\ (0 <= d_duplicated_copies v <= U64_MAX -> d_duplicated_copies v <= d_duplicated_copies v' <= U64_MAX).
Proof.
  induction n as [|n IH]; intros nx v cs nx' v'; cbn [duplicate_loop]; [intros [= _ _ <-]; split_and!; lia|].
  destruct (duplicate_loop n p d _ _) as [[rest next] v1] eqn:E. intros [= _ _ <-].
  destruct (IH _ _ _ _ _ E) as (A & B & C). cbn in *. split_and!; [done|done|]. intros R. unfold sat_add in C. lia.
Qed.

Lemma apply_fault_flow now fault rng draft nx e out nx' e' : apply_fault now fault rng draft nx e = (out, nx', e') -> flow 0 e e'.
Proof.
  destruct draft as [[copy payload] delay]. unfold apply_fault. destruct (dg_kind fault) as [d j| |n|hold|count|rate burst]; cbv zeta.
  - intros [= _ _ <-]. by apply flow_same.
  - intros [= _ _ <-]. by apply flow_same.
  - destruct (duplicate_loop _ _ _ _ _) as [[cs x] v] eqn:E. intros [= _ _ <-]. apply duplicate_flow in E as (A & B & C).
    intros [R1 R2]. unfold ranged, duplicated, admitted, emitted in *. cbn. rewrite A, B. specialize (C R1).
    split_and!; try lia; unfold sat_add; lia.
  - intros [= _ _ <-]. by apply flow_same.
  - destruct payload; intros [= _ _ <-]; by apply flow_same.
  - unfold bandwidth_delay. destruct (bucket_pace _ _ _ _ _). intros [= _ _ <-]. by apply flow_same.
Qed.

Lemma run_stage_flow now policy ordinal stage fault l : forall nx e out nx' e',
  run_stage now policy ordinal stage fault l nx e = (out, nx', e') -> flow 0 e e'.
Proof.
  induction l as [|draft l IH]; intros nx e out nx' e'; cbn [run_stage]; [intros [= _ _ <-]; by apply flow_same|].
  destruct (run_candidate _ _ _ _ _ _ _ _) as [[o n1] e1] eqn:E1. destruct (run_stage _ _ _ _ _ l n1 e1) as [[o2 n2] e2] eqn:E2.
  intros [= _ _ <-]. apply (flow_then 0 e e1 e2); [done| |by eapply IH]. unfold run_candidate in E1. cbv zeta in E1.
  destruct (bernoulli _ _) as [active rng]. destruct active; cbn [negb] in E1.
  - apply apply_fault_flow in E1. eapply flow_then; [done| |exact E1]. by apply flow_same.
  - injection E1 as _ _ <-. by apply flow_same.
Qed.
Lemma run_stages_flow now policy ordinal fs : forall stage l nx e out nx' e',
  run_stages now policy ordinal stage fs l nx e = (out, nx', e') -> flow 0 e e'.
Proof.
  induction fs as [|f fs IH]; intros stage l nx e out nx' e'; cbn [run_stages]; [intros [= _ _ <-]; by apply flow_same|].
  destruct (run_stage _ _ _ _ _ _ _ _) as [[o n1] e1] eqn:E1. intros E2. apply run_stage_flow in E1.
  eapply flow_then; [done|exact E1|by eapply IH].
Qed.

Lemma queue_all_flow now ordinal g l : forall b e, flow 0 e (queue_all now ordinal g l b e).2.
Proof.
  induction l as [|[[c p] d] l IH]; intros b e; cbn [queue_all]; [by apply flow_same|].
  case_match; (eapply flow_then; [done| |apply IH]); by apply flow_same.
Qed.
Lemma emit_flow ordinal p g c e : flow 1 e (emit_immediate ordinal p g c e).2.
Proof. intros [R1 R2]. unfold ranged, duplicated, admitted, emitted in *. cbn. split_and!; try done; unfold sat_add; lia. Qed.
Lemma emit_all_flow ordinal g l : forall e, flow (zlen l) e (emit_all ordinal g l e).2.
Proof.
  induction l as [|[[c p] d] l IH]; intros e; cbn [emit_all]; [by apply flow_same|].
  pose proof (emit_flow ordinal p g c e) as F. destruct (emit_immediate ordinal p g c e) as [item e1]. specialize (IH e1).
  destruct (emit_all ordinal g l e1) as [items e2]. cbn [snd] in *. rewrite zlen_cons. apply (flow_trans 1 (zlen l) e e1 e2); [lia|apply zlen_nonneg|done|done].
Qed.
Lemma sort_items_length l : zlen (sort_items l) = zlen l.
Proof.
  assert (I : forall x k, zlen (sorted_insert x k) = 1 + zlen k).
  { intros x k. induction k as [|y k IH]; cbn [sorted_insert]; [done|]. case_match; rewrite ?zlen_cons; [rewrite IH|]; lia. }
  induction l as [|x l IH]; [done|]. change (sort_items (x :: l)) with (sorted_insert x (sort_items l)). by rewrite I, IH, zlen_cons.
Qed.
Lemma dispose_flow now ordinal g l e : flow (zlen (items_of (dispose now ordinal g l e).1)) e (dispose now ordinal g l e).2.
Proof.
  rewrite dispose_eq. destruct (immediate_now l e); cbn [fst snd items_of].
  - pose proof (emit_all_flow ordinal g l e) as F. rewrite sort_items_length.
    destruct (emit_all ordinal g l e) as [items e1] eqn:E. cbn [fst snd] in *. apply emit_all_spec in E as (-> & _). by rewrite zlen_map.
  - destruct l as [|d k]; [by apply flow_same|]. cbn [fst snd].
    pose proof (queue_all_flow now ordinal g (d :: k) false e) as F. by destruct (queue_all now ordinal g (d :: k) false e) as [[] e1].
Qed.
Lemma plain_flow now p ordinal g e : flow (zlen (items_of (admit_plain now p ordinal g e).1)) e (admit_plain now p ordinal g e).2.
Proof.
  unfold admit_plain. destruct (_ && _); [|destruct (fits _ _); by apply flow_same].
  pose proof (emit_flow ordinal p g 0 e) as F. by destruct (emit_immediate ordinal p g 0 e).
Qed.

(** An admission counts one datagram, and the items it gives out. *)
Lemma admit_flow now payload policy e : ranged e -> 0 <= admitted e <= U64_MAX ->
  let r := admit_datagram now payload policy e in
  ranged r.2 /\ admitted r.2 = sat_add64 (admitted e) 1 /\ emitted r.2 = sat_add64 (emitted e) (zlen (items_of r.1))
  /\ duplicated e <= duplicated r.2.
Proof.
  intros R A. cbv zeta. set (e1 := opened payload e).
  assert (O : ranged e1 /\ admitted e1 = sat_add64 (admitted e) 1 /\ emitted e1 = emitted e /\ duplicated e1 = duplicated e) by done.
  destruct O as (R1 & A1 & E1 & D1).
  assert (K : flow (zlen (items_of (admit_datagram now payload policy e).1)) e1 (admit_datagram now payload policy e).2).
  { unfold admit_datagram. cbv zeta. fold (opened payload e). fold e1. case_match; [by apply flow_same|].
    fold (stamped policy e1). set (e2 := stamped policy e1).
    assert (S : flow 0 e1 e2) by (destruct (stamped_frame policy e1) as (_ & _ & L); unfold ledger in L; injection L as L1 L2 _ _ _ L6;
      apply flow_same; unfold admitted, duplicated, emitted, e2; by rewrite L1, L2, L6).
    destruct (dp_faults (pub_plan policy)) as [|f fs] eqn:Ef.
    - eapply flow_then; [apply zlen_nonneg|exact S|apply plain_flow].
    - destruct (run_stages _ _ _ _ _ _ _ _) as [[l n] e3] eqn:E3. apply run_stages_flow in E3.
      eapply flow_then; [apply zlen_nonneg|exact S|]. eapply flow_then; [apply zlen_nonneg|exact E3|apply dispose_flow]. }
  destruct (K R1) as (R2 & A2 & E2 & D2). rewrite A2, E2, E1. split_and!; done.
Qed.

Lemma take_flow now e out e' : take_ready now e = (out, e') -> flow (zlen out) e e'.
Proof.
  unfold take_ready. destruct (take_ready_loop _ _ _) as [[o rest] v] eqn:E. intros [= <- <-].
  apply take_ready_loop_spec in E as (due & Hq & -> & Hd & Hr & ->).
  destruct (emitted_counters due (de_evidence e)) as ([= C1 C2 C3 C4 C5] & _ & Em & _). cbv zeta in *.
  intros [R1 R2]. unfold ranged, admitted, duplicated, emitted in *. cbn. specialize (Em R2). rewrite Em, zlen_map.
  pose proof (zlen_nonneg due). unfold sat_add, U64_MAX in *. split_and!; lia.
Qed.

(** ** The accounts of an association *)

(** Datagrams released by the engines of a worker and not yet written off. *)
Definition in_flight (ph : WorkerPhase) : Z :=
  match ph with
  | WSend _ ready c _ => zlen ready + sc_datagrams c + sc_errors c
  | WSending _ _ rest c _ => 1 + zlen rest + sc_datagrams c + sc_errors c
  | _ => 0
  end.
Definition holds (ph : WorkerPhase) : bool :=
  match ph with
  | WSend _ _ _ (AfterAdmission true) | WSending _ _ _ _ (AfterAdmission true) | WTouch true | WDrop _ => true
  | _ => false
  end.
Definition leaving (ph : WorkerPhase) : bool :=
  match ph with WDrop true | WExit | WCount _ _ | WReturn _ _ | WEnded _ => true | _ => false end.
Definition drained (ph : WorkerPhase) : bool := match ph with WCount _ _ | WReturn _ _ | WEnded _ => true | _ => false end.
Definition over (ph : WorkerPhase) : bool := match ph with WEnded _ => true | _ => false end.
Definition counts_nonneg (ph : WorkerPhase) : Prop :=
  match ph with
  | WSend _ _ c _ | WSending _ _ _ c _ => 0 <= sc_datagrams c /\ 0 <= sc_errors c
  | _ => True
  end.

(** Everything that entered: what the listener queued, what the upstream
    socket delivered, the copies made of either and the errors it reported. *)
Definition entered (r : AssociationRecord) (up down : DatagramDirectionEngine) (failures : Z) : Z :=
  ar_ingress_datagrams r + duplicated up + admitted down + duplicated down + failures.
Definition written_off (r : AssociationRecord) : Z := ar_egress_datagrams r + ar_send_errors r + ar_administrative_discards r.

Definition record_ranges (r : AssociationRecord) : Prop :=
  0 <= ar_ingress_datagrams r <= U64_MAX /\ 0 <= ar_egress_datagrams r /\ 0 <= ar_send_errors r /\ 0 <= ar_administrative_discards r.

(** [gu] and [gd] are what the engines discarded, [k] what is in flight. *)
Record accounts (x : Association) (up down : DatagramDirectionEngine) (failures gu gd k : Z) : Prop := {
  ax_up : dengine_ok up /\ conserved 0 gu up;
  ax_down : dengine_ok down /\ conserved 0 gd down;
  ax_gone : 0 <= gu /\ 0 <= gd;
  ax_signs : 0 <= failures /\ 0 <= k /\ record_ranges (as_record x);
  ax_balance : entered (as_record x) up down failures < U64_MAX ->
    admitted up + zlen (as_queue x) = ar_ingress_datagrams (as_record x)
    /\ emitted up + emitted down + failures = written_off (as_record x) + k
}.

Lemma conserved_ranged gone e : conserved 0 gone e -> ranged e /\ 0 <= admitted e <= U64_MAX.
Proof. intros [(A & D & _ & _ & _ & E) _]. done. Qed.

(** Nothing saturates while less than [2^64 - 1] entered. *)
Lemma accounts_bound x up down failures gu gd k : accounts x up down failures gu gd k ->
  entered (as_record x) up down failures < U64_MAX ->
  written_off (as_record x) + k + gu + gd + zlen (as_queue x) <= entered (as_record x) up down failures.
Proof.
  intros [[Ou Cu] [Od Cd] [Gu Gd] (F & K & R) B] E. destruct (B E) as [B1 B2].
  destruct Cu as [(Au & Du & Lu & Su & Qu & Eu) Bu], Cd as [(Ad & Dd & Ld & Sd & Qd & Ed) Bd].
  destruct R as (R1 & R2 & R3 & R4). unfold entered, admitted, duplicated, emitted in *.
  pose proof (zlen_nonneg (as_queue x)). pose proof (zlen_nonneg (de_queue up)). pose proof (zlen_nonneg (de_queue down)). lia.
Qed.

(** An engine that took in [a] datagrams and gave out [n]. *)
Record gives (e e' : DatagramDirectionEngine) (a n : Z) : Prop := {
  gv_ok : dengine_ok e';
  gv_conserved : conserved 0 0 e';
  gv_signs : 0 <= a /\ 0 <= n;
  gv_admitted : admitted e' = sat_add64 (admitted e) a;
  gv_emitted : emitted e' = sat_add64 (emitted e) n;
  gv_duplicated : duplicated e <= duplicated e'
}.

Lemma take_gives now e out e' : dengine_ok e -> conserved 0 0 e -> take_ready now e = (out, e') -> gives e e' 0 (zlen out).
Proof.
  intros O C T. pose proof (take_ready_ok _ _ _ _ T) as (O' & _ & C'). destruct (conserved_ranged _ _ C) as [R A].
  destruct (take_flow _ _ _ _ T R) as (_ & Ae & Ee & De). pose proof (zlen_nonneg out). constructor; try done.
  - by apply O'.
  - by apply C'.
  - rewrite Ae. unfold sat_add. lia.
Qed.
Lemma admit_gives now payload policy e : dengine_ok e -> conserved 0 0 e -> policy_fine policy ->
  gives e (admit_datagram now payload policy e).2 1 (zlen (items_of (admit_datagram now payload policy e).1)).
Proof.
  intros O C F. destruct (admit_effect now payload policy e O F) as (O' & _ & _ & _ & C'). destruct (conserved_ranged _ _ C) as [R A].
  destruct (admit_flow now payload policy e R A) as (_ & Ae & Ee & De). constructor; try done; [by apply C'|]. split; [done|apply zlen_nonneg].
Qed.

(** Emissions do not saturate while the admissions do not. *)
Lemma gives_emitted e e' a n : gives e e' a n -> admitted e' + duplicated e' < U64_MAX -> 0 <= emitted e -> emitted e' = emitted e + n.
Proof.
  intros [_ [R B] S _ E _] L P. destruct R as (? & ? & ? & ? & ? & ?). unfold admitted, duplicated, emitted in *. specialize (B L).
  pose proof (zlen_nonneg (de_queue e')). unfold sat_add in E. lia.
Qed.

Abbreviation running x up down failures k := (accounts x up down failures 0 0 k).

Lemma running_up x x' up down e failures k a n : running x up down failures k -> gives up e a n ->
  as_record x' = as_record x -> zlen (as_queue x) = zlen (as_queue x') + a -> running x' e down failures (k + n).
Proof.
  intros A V Er Eq. pose proof (ax_up _ _ _ _ _ _ _ A) as [Ou Cu]. pose proof (ax_down _ _ _ _ _ _ _ A) as [Od Cd].
  destruct (ax_signs _ _ _ _ _ _ _ A) as (F & K & R). pose proof V as [O' C' S Ad Em Du]. constructor; rewrite ?Er; try done.
  - split_and!; [done|lia|done].
  - intros E. assert (E0 : entered (as_record x) up down failures < U64_MAX) by (unfold entered in *; lia).
    destruct (ax_balance _ _ _ _ _ _ _ A E0) as [B1 B2]. destruct R as (R1 & _).
    destruct (conserved_ranged _ _ Cu) as [[Rd Re] Ra]. destruct (conserved_ranged _ _ Cd) as [[Sd Se] Sa].
    pose proof (zlen_nonneg (as_queue x')). assert (Ad' : admitted e = admitted up + a) by (unfold sat_add in Ad; unfold entered in *; lia).
    rewrite (gives_emitted _ _ _ _ V); [lia|unfold entered in *; lia|lia].
Qed.

Lemma running_down x up down e failures k a n : running x up down failures k -> gives down e a n -> running x up e failures (k + n).
Proof.
  intros A V. pose proof (ax_up _ _ _ _ _ _ _ A) as [Ou Cu]. pose proof (ax_down _ _ _ _ _ _ _ A) as [Od Cd].
  destruct (ax_signs _ _ _ _ _ _ _ A) as (F & K & R). pose proof V as [O' C' S Ad Em Du]. constructor; try done.
  - split_and!; [done|lia|done].
  - intros E. destruct R as (R1 & _). destruct (conserved_ranged _ _ Cu) as [[Rd Re] Ra]. destruct (conserved_ranged _ _ Cd) as [[Sd Se] Sa].
    assert (Ad' : admitted e = admitted down + a) by (unfold sat_add in Ad; unfold entered in *; lia).
    assert (E0 : entered (as_record x) up down failures < U64_MAX) by (unfold entered in *; lia).
    destruct (ax_balance _ _ _ _ _ _ _ A E0) as [B1 B2].
    rewrite (gives_emitted _ _ _ _ V); [lia|unfold entered in *; lia|lia].
Qed.

(** A record written under its lock: [n] more written off, of which [k - k']
    were in flight and the rest failures. *)
Lemma running_write x r up down failures failures' gu gd k k' : accounts x up down failures gu gd k ->
  ar_ingress_datagrams r = ar_ingress_datagrams (as_record x) -> record_ranges r -> 0 <= k' -> failures <= failures' ->
  (entered (as_record x) up down failures' < U64_MAX ->
    (entered (as_record x) up down failures < U64_MAX ->
     written_off (as_record x) + k + gu + gd + zlen (as_queue x) <= entered (as_record x) up down failures) ->
    written_off r + k' = written_off (as_record x) + k + (failures' - failures)) ->
  accounts (set_as_record r x) up down failures' gu gd k'.
Proof.
  intros A Ei Rr K' Ff W. pose proof (accounts_bound _ _ _ _ _ _ _ A) as L. destruct A as [U D G (F & K & R) B].
  constructor; cbn [as_record as_queue set_as_record]; try done; [split_and!; [lia|done|done]|].
  intros E. unfold entered in E, W, L, B. rewrite Ei in *. specialize (W E L). destruct B as [B1 B2]; [lia|]. lia.
Qed.

(** ** A worker and its association *)

Definition lost_by (v : DatagramEvidence) : Z := d_configured_loss v + d_oversize_datagrams v + d_queue_overflow v.

(** When everything is discarded and written off: [dropped] are those no
    counter shows. *)
Definition balanced (x : Association) (up down : DatagramDirectionEngine) (failures dropped : Z) : Prop :=
  entered (as_record x) up down failures < U64_MAX ->
  entered (as_record x) up down failures
  = lost_by (de_evidence up) + lost_by (de_evidence down) + written_off (as_record x) + dropped.

Record worker_ok (x : Association) (w : Worker) : Prop := {
  wo_hand : is_some (as_hand x) = holds (wk_phase w);
  wo_ended : as_ended x = over (wk_phase w);
  wo_leaving : leaving (wk_phase w) = true -> as_cancelled x = true;
  wo_policies : Forall (fun i => policy_fine (in_policy i)) (as_queue x);
  wo_counts : counts_nonneg (wk_phase w);
  wo_running : drained (wk_phase w) = false -> running x (wk_upstream w) (wk_downstream w) (wk_failures w) (in_flight (wk_phase w));
  wo_count : forall n seen, wk_phase w = WCount n seen -> exists gu gd,
    accounts x (wk_upstream w) (wk_downstream w) (wk_failures w) gu gd 0
    /\ de_queue (wk_upstream w) = [] /\ de_queue (wk_downstream w) = [] /\ 0 <= seen <= zlen (as_queue x) /\ 0 <= n
    /\ (entered (as_record x) (wk_upstream w) (wk_downstream w) (wk_failures w) < U64_MAX -> n = gu + gd + seen);
  wo_return : forall seen b, wk_phase w = WReturn seen b ->
    ar_upstream_evidence (as_record x) = de_evidence (wk_upstream w)
    /\ ar_downstream_evidence (as_record x) = de_evidence (wk_downstream w)
    /\ 0 <= seen <= zlen (as_queue x) /\ record_ranges (as_record x) /\ 0 <= wk_failures w
    /\ ranged (wk_upstream w) /\ ranged (wk_downstream w) /\ 0 <= admitted (wk_downstream w)
    /\ exists uncounted, 0 <= uncounted /\ (b = true -> uncounted = 0)
       /\ balanced x (wk_upstream w) (wk_downstream w) (wk_failures w) (uncounted + (zlen (as_queue x) - seen))
}.

Lemma outside_written s x x' : as_ended x = false -> outside s x x' -> written_off (as_record x') = written_off (as_record x).
Proof. intros E O. unfold written_off. destruct (ou_egress _ _ _ O) as [-> ->]. by rewrite (ou_discards _ _ _ O E). Qed.
Lemma outside_ranges s x x' : as_ended x = false -> outside s x x' -> record_ranges (as_record x) -> record_ranges (as_record x').
Proof.
  intros E O (R1 & R2 & R3 & R4). unfold record_ranges. destruct (ou_egress _ _ _ O) as [-> ->]. rewrite (ou_discards _ _ _ O E).
  destruct (ou_queue _ _ _ O) as [[_ ->]|(item & _ & _ & ->)]; split_and!; try lia; unfold sat_add; lia.
Qed.

(** The queue grows with the count of what entered. *)
Lemma outside_entered s x x' up down failures : record_ranges (as_record x) -> outside s x x' ->
  0 <= duplicated up -> 0 <= admitted down -> 0 <= duplicated down -> 0 <= failures ->
  entered (as_record x') up down failures < U64_MAX ->
  exists n, 0 <= n /\ entered (as_record x') up down failures = entered (as_record x) up down failures + n
    /\ zlen (as_queue x') = zlen (as_queue x) + n /\ ar_ingress_datagrams (as_record x') = ar_ingress_datagrams (as_record x) + n.
Proof.
  intros (R1 & _) O D1 D2 D3 F. unfold entered. destruct (ou_queue _ _ _ O) as [[-> ->]|(item & -> & _ & ->)]; intros E.
  - exists 0. lia.
  - exists 1. rewrite zlen_app. change (zlen [item]) with 1. unfold sat_add in *. lia.
Qed.

Lemma outside_accounts s x x' up down failures gu gd k : as_ended x = false -> outside s x x' ->
  accounts x up down failures gu gd k -> accounts x' up down failures gu gd k.
Proof.
  intros E O [[Ou Cu] [Od Cd] G (F & K & R) B]. constructor; try done; [split_and!; [done|done|by eapply outside_ranges]|].
  intros L. destruct (conserved_ranged _ _ Cu) as [[Rd _] _]. destruct (conserved_ranged _ _ Cd) as [[Sd _] [Sa _]].
  destruct (outside_entered _ _ _ up down failures R O) as (n & Hn & E1 & Q & I); [lia..|]. rewrite (outside_written _ _ _ E O), Q, I.
  destruct B; lia.
Qed.

Lemma worker_ok_outside s x x' w : plans_fine s -> outside s x x' -> worker_ok x w -> worker_ok x' w.
Proof.
  intros P O [H N L Po C R Ct Rt]. pose proof N as N0. destruct (over (wk_phase w)) eqn:V.
  - destruct (wk_phase w) eqn:Ph; try done. constructor; rewrite ?Ph; try done.
    + by rewrite (ou_hand _ _ _ O).
    + by rewrite (ou_ended _ _ _ O).
    + intros _. apply O, L. done.
    + destruct (ou_queue _ _ _ O) as [[-> _]|(item & -> & F & _)]; [done|]. apply Forall_app. split; [done|]. constructor; [by apply F|done].
  - constructor.
    + by rewrite (ou_hand _ _ _ O).
    + by rewrite (ou_ended _ _ _ O), N, V.
    + intros Hl. by apply O, L.
    + destruct (ou_queue _ _ _ O) as [[-> _]|(item & -> & F & _)]; [done|]. apply Forall_app. split; [done|]. constructor; [by apply F|done].
    + done.
    + intros D. eapply outside_accounts; [exact N0|exact O|by apply R].
    + intros n seen Ph. destruct (Ct n seen Ph) as (gu & gd & A & Q1 & Q2 & S & Nn & E). exists gu, gd.
      pose proof A as [[_ Cu] [_ Cd] _ (F & _ & Rg) _].
      destruct (conserved_ranged _ _ Cu) as [[Rd _] _]. destruct (conserved_ranged _ _ Cd) as [[Sd _] [Sa _]].
      split_and!; try done; [by eapply outside_accounts|lia| |].
      * destruct (ou_queue _ _ _ O) as [[-> _]|(item & -> & _ & _)]; [lia|]. rewrite zlen_app. change (zlen [item]) with 1. lia.
      * intros Lt. destruct (outside_entered _ _ _ (wk_upstream w) (wk_downstream w) (wk_failures w) Rg O) as (m & Hm & E1 & _); [lia..|].
        apply E. lia.
    + intros seen b Ph. destruct (Rt seen b Ph) as (V1 & V2 & S & Rg & F & Ru & Rd & Ad & u & U & Ub & St).
      destruct (ou_evidence _ _ _ O) as [-> ->]. split_and!; try done; [lia| | |].
      * destruct (ou_queue _ _ _ O) as [[-> _]|(item & -> & _ & _)]; [lia|]. rewrite zlen_app. change (zlen [item]) with 1. lia.
      * by eapply outside_ranges.
      * exists u. split_and!; [done|done|]. intros Lt. destruct Ru as [Ru _], Rd as [Rd _].
        destruct (outside_entered _ _ _ (wk_upstream w) (wk_downstream w) (wk_failures w) Rg O) as (m & Hm & E1 & Q & _); [lia..|].
        rewrite (outside_written _ _ _ N0 O), Q, E1. unfold balanced in St. lia.
Qed.

(** ** Moves of a worker *)

(** What its own move makes of an association, and leaves of the rest. *)
Definition self_move (a : nat) (x' : Association) (s s' : Datagrams) : Prop :=
  dr_associations s' = alter (fun _ => x') a (dr_associations s)
  /\ map cells_of (dr_states s') = map cells_of (dr_states s) /\ dr_listeners s' = dr_listeners s.

Lemma self_stays a x s : dr_associations s !! a = Some x -> self_move a x s s.
Proof. intros H. split_and!; [|done|done]. symmetry. by rewrite <- (insert_alter a x x (fun _ => x) _ H eq_refl), list_insert_id. Qed.

Lemma alter_at {A} (f : A -> A) a (l : list A) x : l !! a = Some x -> alter f a l = alter (fun _ => f x) a l.
Proof. intros H. rewrite <- (insert_alter a x (f x) f l H eq_refl). by apply (insert_alter a x). Qed.

Definition worker_effect (ev : WorkerEvent) (x : Association) : Association :=
  match ev with
  | WorkerTakes => set_as_pending (wrap64 (as_pending x - 1)) (set_as_hand (head (as_queue x)) (set_as_queue (tail (as_queue x)) x))
  | WorkerDrops => set_as_hand None x
  | WorkerOversize => x
  | WorkerWrites r => set_as_record (worker_record r (as_record x)) x
  | WorkerEnds => set_as_ended true (set_as_hand None (set_as_queue [] x))
  end.

Lemma worker_next_self a ev s s' x : dr_associations s !! a = Some x -> worker_next a ev s = Some s' ->
  as_ended x = false /\ self_move a (worker_effect ev x) s s'.
Proof.
  intros Hx. unfold worker_next. rewrite Hx. destruct (as_ended x) eqn:E; [done|]. intros H. split; [done|]. destruct ev; cbn.
  - destruct (as_hand x) eqn:Hh; [done|]. destruct (as_queue x) as [|item rest] eqn:Q; [done|]. injection H as <-.
    split_and!; [|done|done]. cbn. by rewrite (alter_at _ _ _ _ Hx).
  - destruct (as_hand x) as [item|]; [|done]. injection H as <-. split_and!; [|done|done]. cbn. by rewrite (alter_at _ _ _ _ Hx).
  - injection H as <-. destruct (self_stays a x s Hx) as [S _]. split_and!; [exact S| |done]. cbn. by apply map_alter_same.
  - injection H as <-. split_and!; [|done|done]. cbn. by rewrite (alter_at _ _ _ _ Hx).
  - destruct (as_cancelled x); [|done]. injection H as <-. split_and!; [|done|done]. cbn. by rewrite (alter_at _ _ _ _ Hx).
Qed.

(** A record the worker writes keeps the fields of the listeners. *)
Lemma write_record_self a f s s' x : dr_associations s !! a = Some x -> write_record a f s = Some s' ->
  as_ended x = false /\ self_move a (set_as_record (worker_record (f (as_record x)) (as_record x)) x) s s'.
Proof.
  intros Hx. unfold write_record. rewrite Hx. cbn. intros H. exact (worker_next_self a _ s s' x Hx H).
Qed.

(** The parts of an association that do not change while its worker writes. *)
Definition face (x : Association) := (as_hand x, as_ended x, as_cancelled x, as_queue x).

Lemma worker_ok_calm x x' w w' : worker_ok x w -> face x' = face x -> over (wk_phase w') = over (wk_phase w) -> drained (wk_phase w') = false ->
  holds (wk_phase w') = holds (wk_phase w) -> (leaving (wk_phase w') = true -> as_cancelled x = true) -> counts_nonneg (wk_phase w') ->
  running x' (wk_upstream w') (wk_downstream w') (wk_failures w') (in_flight (wk_phase w')) -> worker_ok x' w'.
Proof.
  unfold face. intros [H N L P C R _ _] [= E1 E2 E3 E4] O D Ho Le C' R'. constructor; rewrite ?E1, ?E2, ?E3, ?E4; try done;
    [by rewrite Ho|by rewrite O|intros n seen E|intros seen b E]; by rewrite E in D.
Qed.

Lemma emit_downstream_ok x x' w now : worker_ok x w -> face x' = face x -> drained (wk_phase w) = false -> over (wk_phase w) = false ->
  holds (wk_phase w) = false -> running x' (wk_upstream w) (wk_downstream w) (wk_failures w) 0 ->
  worker_ok x' (emit_downstream now w).
Proof.
  intros W F D O H A. unfold emit_downstream. destruct (take_ready now (wk_downstream w)) as [out e] eqn:T.
  destruct (ax_down _ _ _ _ _ _ _ A) as [Od Cd]. pose proof (running_down _ _ _ _ _ _ _ _ A (take_gives _ _ _ _ Od Cd T)) as A'.
  destruct out as [|item out]; (eapply worker_ok_calm; [exact W|exact F|cbn; congruence|done|cbn; congruence|done|done|]); cbn in *; [exact A'|].
  by rewrite !Z.add_0_r.
Qed.

Lemma emit_upstream_ok x w now : worker_ok x w -> wk_phase w = WTop -> worker_ok x (emit_upstream now w).
Proof.
  intros W Ph. pose proof (wo_running _ _ W) as A. rewrite Ph in A. specialize (A eq_refl). unfold emit_upstream.
  destruct (take_ready now (wk_upstream w)) as [out e] eqn:T.
  destruct (ax_up _ _ _ _ _ _ _ A) as [Ou Cu]. pose proof (take_gives _ _ _ _ Ou Cu T) as V.
  pose proof (running_up x x _ _ _ _ _ _ _ A V eq_refl ltac:(lia)) as A'. cbn [in_flight] in A'. destruct out as [|item out].
  - assert (W' : worker_ok x (set_wk_engine Upstream e w)) by (eapply worker_ok_calm; [exact W|reflexivity|..]; cbn; by rewrite ?Ph).
    apply (emit_downstream_ok x x _ now W'); cbn; by rewrite ?Ph.
  - eapply worker_ok_calm; [exact W|done|cbn; by rewrite ?Ph|done|cbn; by rewrite ?Ph|done|done|]. cbn in *. by rewrite !Z.add_0_r.
Qed.

Lemma worker_ok_dirty x w b : worker_ok x w -> worker_ok x (set_wk_dirty b w).
Proof. intros []. by constructor. Qed.

Lemma after_send_ok x x' w d c after b : worker_ok x w -> face x' = face x -> wk_phase w = WSend d [] c after ->
  running x' (wk_upstream w) (wk_downstream w) (wk_failures w) 0 -> worker_ok x' (after_send after (set_wk_dirty b w)).
Proof.
  intros W F Ph A. destruct after as [now| |taken]; cbn [after_send].
  - apply (emit_downstream_ok x x' _ _ (worker_ok_dirty _ _ b W)); cbn; by rewrite ?Ph.
  - eapply worker_ok_calm; [exact W|exact F|..]; cbn; by rewrite ?Ph.
  - eapply worker_ok_calm; [exact W|exact F|..]; cbn; rewrite ?Ph; by destruct taken.
Qed.

Lemma worker_record_face x f : face (set_as_record (worker_record f (as_record x)) x) = face x.
Proof. done. Qed.

Section Write.
Context (x : Association) (w : Worker) (W : worker_ok x w) (D : drained (wk_phase w) = false).
Abbreviation self f := (set_as_record (worker_record (f (as_record x)) (as_record x)) x).

Lemma batch_running d c after : wk_phase w = WSend d [] c after ->
  running (self (counted_egress c)) (wk_upstream w) (wk_downstream w) (wk_failures w) 0.
Proof.
  intros Ph. pose proof (wo_running _ _ W D) as A. pose proof (wo_counts _ _ W) as C. rewrite Ph in A, C. cbn [in_flight counts_nonneg] in *.
  destruct (ax_signs _ _ _ _ _ _ _ A) as (F & K & R1 & R2 & R3 & R4). change (zlen []) with 0 in *.
  eapply running_write; [exact A|done| |done|done|].
  - split_and!; cbn; try done; unfold sat_add, U64_MAX in *; lia.
  - intros E L. specialize (L E). pose proof (zlen_nonneg (as_queue x)). unfold written_off in *. cbn. unfold sat_add, U64_MAX in *. lia.
Qed.

Lemma cancelled_running d item rest c after : wk_phase w = WSend d (item :: rest) c after ->
  running (self (fun r => counted_discards (zlen (item :: rest)) (counted_egress c r))) (wk_upstream w) (wk_downstream w) (wk_failures w) 0.
Proof.
  intros Ph. pose proof (wo_running _ _ W D) as A. pose proof (wo_counts _ _ W) as C. rewrite Ph in A, C. cbn [in_flight counts_nonneg] in *.
  destruct (ax_signs _ _ _ _ _ _ _ A) as (F & K & R1 & R2 & R3 & R4). pose proof (zlen_nonneg (item :: rest)).
  eapply running_write; [exact A|done| |done|done|].
  - split_and!; cbn; try done; unfold sat_add, U64_MAX in *; lia.
  - intros E L. specialize (L E). pose proof (zlen_nonneg (as_queue x)). unfold written_off in *. cbn. unfold sat_add, U64_MAX in *. lia.
Qed.

(** A write that counts nothing. *)
Lemma plain_running f k : running x (wk_upstream w) (wk_downstream w) (wk_failures w) k ->
  (forall r, (ar_egress_datagrams (f r), ar_send_errors (f r), ar_administrative_discards (f r))
     = (ar_egress_datagrams r, ar_send_errors r, ar_administrative_discards r)) ->
  running (self f) (wk_upstream w) (wk_downstream w) (wk_failures w) k.
Proof.
  intros A E. specialize (E (as_record x)). injection E as E1 E2 E3.
  destruct (ax_signs _ _ _ _ _ _ _ A) as (F & K & R1 & R2 & R3 & R4). eapply running_write; [exact A|done| |done|done|].
  - split_and!; cbn; rewrite ?E1, ?E2, ?E3; done || lia.
  - intros _ _. unfold written_off. cbn. rewrite E1, E2, E3. lia.
Qed.

Lemma failure_running : wk_phase w = WFailed ->
  running (self counted_failure) (wk_upstream w) (wk_downstream w) (wk_failures w + 1) 0.
Proof.
  intros Ph. pose proof (wo_running _ _ W D) as A. rewrite Ph in A. cbn [in_flight] in A.
  destruct (ax_signs _ _ _ _ _ _ _ A) as (F & K & R1 & R2 & R3 & R4).
  eapply running_write; [exact A|done| |done|lia|].
  - split_and!; cbn; try done; unfold sat_add, U64_MAX in *; lia.
  - intros E L. assert (E0 : entered (as_record x) (wk_upstream w) (wk_downstream w) (wk_failures w) < U64_MAX) by (unfold entered in *; lia).
    specialize (L E0). pose proof (zlen_nonneg (as_queue x)). unfold written_off, entered in *. cbn. unfold sat_add, U64_MAX in *. lia.
Qed.
End Write.

Lemma accounts_same x x' up down f gu gd k : as_record x' = as_record x -> zlen (as_queue x') = zlen (as_queue x) ->
  accounts x up down f gu gd k -> accounts x' up down f gu gd k.
Proof. intros R Q []. constructor; rewrite ?R, ?Q; done. Qed.

Lemma running_flight x up down f k k' : running x up down f k -> 0 <= k' ->
  (k < U64_MAX -> k' = k) -> running x up down f k'.
Proof.
  intros A K' E. pose proof (accounts_bound _ _ _ _ _ _ _ A) as L. destruct A as [U D G (F & K & R) B]. constructor; try done.
  intros Lt. specialize (L Lt). destruct R as (R1 & R2 & R3 & R4). pose proof (zlen_nonneg (as_queue x)).
  rewrite E by (unfold written_off in *; lia). by apply B.
Qed.

Lemma counted_send_nonneg p size c : 0 <= sc_datagrams c -> 0 <= sc_errors c ->
  0 <= sc_datagrams (counted_send p size c) /\ 0 <= sc_errors (counted_send p size c).
Proof. intros. destruct size as [n|]; cbn; [case_match|]; cbn; unfold sat_add, U64_MAX; lia. Qed.
Lemma counted_send_one p size c : 0 <= sc_datagrams c -> 0 <= sc_errors c -> 1 + sc_datagrams c + sc_errors c <= U64_MAX ->
  sc_datagrams (counted_send p size c) + sc_errors (counted_send p size c) = 1 + sc_datagrams c + sc_errors c.
Proof. intros. destruct size as [n|]; cbn; [case_match|]; cbn; unfold sat_add, U64_MAX in *; lia. Qed.

Lemma discard_counts e : conserved 0 0 e -> dengine_ok e ->
  dengine_ok (discard_all e).2 /\ conserved 0 (discard_all e).1 (discard_all e).2 /\ 0 <= (discard_all e).1 /\ de_queue (discard_all e).2 = []
  /\ (admitted (discard_all e).2, duplicated (discard_all e).2, emitted (discard_all e).2) = (admitted e, duplicated e, emitted e)
  /\ (discard_all e).1 <= 1000000.
Proof.
  intros C O. destruct (discard_ok e 0 O ltac:(lia) C) as [O' C']. split_and!; try done; cbn.
  - apply zlen_nonneg.
  - pose proof (do_room _ O) as [R _]. pose proof (lo_datagrams _ (do_limits _ O)). lia.
Qed.

(** [take], [admit] on either side. *)
Lemma admit_in_ok x x' w d now payload policy taken a : worker_ok x w -> wk_phase w = WSelect -> policy_fine policy ->
  as_record x' = as_record x -> as_ended x' = as_ended x -> Forall (fun i => policy_fine (in_policy i)) (as_queue x') ->
  match d with Upstream => a = 1 | Downstream => a = 0 end -> zlen (as_queue x) = zlen (as_queue x') + a -> is_some (as_hand x') = taken ->
  worker_ok x' (admit_in d now payload policy taken w).
Proof.
  intros W Ph F Er Ee P Ha Q H. pose proof (wo_running _ _ W) as A. rewrite Ph in A. specialize (A eq_refl). cbn [in_flight] in A.
  unfold admit_in. destruct (admit_datagram now payload policy (wk_engine d w)) as [adm e] eqn:E.
  assert (A' : running x' (wk_upstream (set_wk_engine d e w)) (wk_downstream (set_wk_engine d e w)) (wk_failures w) (zlen (items_of adm))).
  { destruct d; cbn in *.
    - destruct (ax_up _ _ _ _ _ _ _ A) as [Ou Cu]. pose proof (admit_gives now payload policy _ Ou Cu F) as V. rewrite E in V.
      apply (running_up x x' _ _ _ _ 0 1 _ A V Er). lia.
    - destruct (ax_down _ _ _ _ _ _ _ A) as [Od Cd]. pose proof (admit_gives now payload policy _ Od Cd F) as V. rewrite E in V.
      exact (running_down _ _ _ _ _ 0 _ _ (accounts_same x x' _ _ _ _ _ _ Er ltac:(lia) A) V). }
  assert (N : as_ended x' = false) by (rewrite Ee, (wo_ended _ _ W), Ph; done).
  assert (Fa : wk_failures (set_wk_engine d e w) = wk_failures w) by (by destruct d).
  destruct adm as [|items|]; constructor; cbn; rewrite ?Fa; try done; try (by destruct taken); intros _; cbn in A'; rewrite ?Z.add_0_r; exact A'.
Qed.

(** The last write: the evidence, and the discards if the stop is
    administrative. *)
Lemma return_settled x w n seen (b : bool) : worker_ok x w -> wk_phase w = WCount n seen ->
  let r := update_evidence w (if b then counted_discards n (as_record x) else as_record x) in
  let x' := set_as_record (worker_record r (as_record x)) x in
  ar_upstream_evidence (as_record x') = de_evidence (wk_upstream w)
  /\ ar_downstream_evidence (as_record x') = de_evidence (wk_downstream w)
  /\ 0 <= seen <= zlen (as_queue x') /\ record_ranges (as_record x') /\ 0 <= wk_failures w
  /\ ranged (wk_upstream w) /\ ranged (wk_downstream w) /\ 0 <= admitted (wk_downstream w)
  /\ exists uncounted, 0 <= uncounted /\ (b = true -> uncounted = 0)
     /\ balanced x' (wk_upstream w) (wk_downstream w) (wk_failures w) (uncounted + (zlen (as_queue x') - seen)).
Proof.
  intros W Ph. destruct (wo_count _ _ W n seen Ph) as (gu & gd & A & Qu & Qd & S & Nn & En). cbv zeta.
  pose proof (accounts_bound _ _ _ _ _ _ _ A) as Bd. pose proof A as [[Ou Cu] [Od Cd] [Gu Gd] (F & _ & R1 & R2 & R3 & R4) B].
  destruct (conserved_ranged _ _ Cu) as [Ru Au]. destruct (conserved_ranged _ _ Cd) as [Rd Ad].
  destruct Cu as [(?&?&?&?&?&?) Bu], Cd as [(?&?&?&?&?&?) Bdn]. rewrite Qu in Bu. rewrite Qd in Bdn.
  rewrite ?zlen_nil in *.
  assert (Sat : entered (as_record x) (wk_upstream w) (wk_downstream w) (wk_failures w) < U64_MAX ->
    sat_add64 (ar_administrative_discards (as_record x)) n = ar_administrative_discards (as_record x) + n).
  { intros L. specialize (Bd L). specialize (En L). unfold written_off in Bd. unfold sat_add. lia. }
  split_and!; try done; [apply S|apply S| |apply Ad|].
  - destruct b; split_and!; cbn; try done; unfold sat_add, U64_MAX in *; lia.
  - exists (if b then 0 else gu + gd + seen). split_and!; [destruct b; lia|by intros ->|]. intros L.
    change (entered (as_record x) (wk_upstream w) (wk_downstream w) (wk_failures w) < U64_MAX) in L.
    specialize (En L). specialize (Sat L). destruct (B L) as [B1 B2].
    destruct b; unfold balanced, entered, written_off, lost_by, admitted, duplicated, emitted in *; cbn; rewrite ?Sat; lia.
Qed.

Lemma worker_move_ok a i w s w' s' x : plans_fine s -> dr_associations s !! a = Some x -> worker_ok x w ->
  worker_move a i w s = Some (w', s') -> exists x', self_move a x' s s' /\ worker_ok x' w'.
Proof.
  intros P Hx W. unfold worker_move. rewrite Hx. cbn [mbind option_bind]. pose proof (self_stays a x s Hx) as St.
  pose proof (wo_running _ _ W) as A. destruct (wk_phase w) as [|d ready c after|d item rest c after| | | |taken|stop| | |n seen|seen b|lost] eqn:Ph, i;
    try (by destruct ready); try done.
  - intros [= <- <-]. exists x. split; [done|]. by apply emit_upstream_ok.
  - destruct ready as [|item rest].
    + case_match eqn:Ec.
      * destruct (write_record _ _ _) as [s1|] eqn:Wr; [|done]. cbn. intros [= <- <-]. destruct (write_record_self _ _ _ _ _ Hx Wr) as [_ S].
        eexists. split; [exact S|]. eapply after_send_ok; [exact W|done|exact Ph|]. eapply batch_running; [done|by rewrite Ph|exact Ph].
      * intros [= <- <-]. exists x. split; [done|].
        replace w with (set_wk_dirty (wk_dirty w) w) by (by destruct w). eapply after_send_ok; [exact W|done|exact Ph|].
        pose proof (wo_counts _ _ W) as C. rewrite Ph in C. cbn in C. bools. specialize (A eq_refl). cbn in A.
        eapply running_flight; [exact A|done|]. change (zlen (@nil DatagramScheduled)) with 0. lia.
    + destruct (as_cancelled x) eqn:Ec.
      * destruct (write_record _ _ _) as [s1|] eqn:Wr; [|done]. cbn. intros [= <- <-]. destruct (write_record_self _ _ _ _ _ Hx Wr) as [_ S].
        eexists. split; [exact S|]. eapply worker_ok_calm; [exact W|done|..]; rewrite ?Ph; cbn; try (by destruct after as [| |[]]).
        eapply (cancelled_running x w W ltac:(by rewrite Ph)) in Ph. by destruct after as [| |[]].
      * intros [= <- <-]. exists x. split; [done|]. eapply worker_ok_calm; [exact W|done|..]; cbn; rewrite ?Ph; try done.
        { pose proof (wo_counts _ _ W) as C. by rewrite Ph in C. }
        specialize (A eq_refl). cbn in A. by rewrite zlen_cons in A.
  - intros [= <- <-]. exists x. split; [done|]. pose proof (wo_counts _ _ W) as C. rewrite Ph in C. cbn in C. destruct C as [C1 C2].
    pose proof (counted_send_nonneg (ds_payload item) size c C1 C2). pose proof (zlen_nonneg rest).
    eapply worker_ok_calm; [exact W|done|..]; cbn [wk_phase set_wk_phase over drained holds leaving counts_nonneg in_flight]; rewrite ?Ph; try done.
    specialize (A eq_refl). cbn [in_flight] in A. eapply running_flight; [exact A|lia|]. intros Lt.
    pose proof (counted_send_one (ds_payload item) size c C1 C2). lia.
  - destruct (as_cancelled x) eqn:Ec; [|done]. intros [= <- <-]. exists x. split; [done|]. eapply worker_ok_calm; [exact W|done|..]; cbn; rewrite ?Ph; try done. by apply A.
  - destruct (as_cancelled x); [done|]. destruct (as_queue x) as [|item rest] eqn:Q; [done|].
    destruct (worker_next a WorkerTakes s) as [s1|] eqn:T; [|done]. cbn. intros [= <- <-].
    destruct (worker_next_self _ _ _ _ _ Hx T) as [_ S]. eexists. split; [exact S|]. pose proof (wo_policies _ _ W) as Po. rewrite Q in Po.
    apply Forall_cons in Po as [P1 P2].
    eapply (admit_in_ok x _ w Upstream _ _ _ true 1); try done; cbn; rewrite ?Q; try done. rewrite zlen_cons. cbn. lia.
  - destruct (_ || _); [done|]. case_match.
    + destruct (worker_next a WorkerOversize s) as [s1|] eqn:T; [|done]. cbn. intros [= <- <-].
      destruct (worker_next_self _ _ _ _ _ Hx T) as [_ S]. exists x. split; [exact S|].
      eapply worker_ok_calm; [exact W|done|..]; cbn; rewrite ?Ph; try done. by apply A.
    + destruct (dr_states s !! as_proxy x) as [y|] eqn:Hy; [|done]. cbn. intros [= <- <-]. exists x. split; [done|].
      eapply (admit_in_ok x x w Downstream _ _ _ false 0); try done; [|apply W|lia|].
      * assert (F : fine_cells (cells_of y)) by (eapply (Forall_lookup_1 _ _ (as_proxy x)); [exact P|]; by rewrite lookup_map, Hy). apply F.
      * by rewrite (wo_hand _ _ W), Ph.
  - destruct (_ || _); [done|]. intros [= <- <-]. exists x. split; [done|]. eapply worker_ok_calm; [exact W|done|..]; cbn; rewrite ?Ph; try done. by apply A.
  - destruct (_ || _); [done|]. destruct (next_wake w) as [t|]; [|done]. case_match; [|done]. intros [= <- <-]. exists x. split; [done|].
    eapply worker_ok_calm; [exact W|done|..]; cbn; rewrite ?Ph; try done. by apply A.
  - destruct (write_record _ _ _) as [s1|] eqn:Wr; [|done]. cbn. intros [= <- <-]. destruct (write_record_self _ _ _ _ _ Hx Wr) as [_ S].
    eexists. split; [exact S|]. eapply worker_ok_calm; [exact W|done|..]; cbn; rewrite ?Ph; try done.
    apply (plain_running x w); [by apply A|done].
  - destruct (write_record _ _ _) as [s1|] eqn:Wr; [|done]. cbn. intros [= <- <-]. destruct (write_record_self _ _ _ _ _ Hx Wr) as [_ S].
    eexists. split; [exact S|]. eapply worker_ok_calm; [exact W|done|..]; cbn; rewrite ?Ph; try done.
    by apply (failure_running x w W ltac:(by rewrite Ph)).
  - destruct (write_record _ _ _) as [s1|] eqn:Wr; [|done]. cbn. intros [= <- <-]. destruct (write_record_self _ _ _ _ _ Hx Wr) as [_ S].
    eexists. split; [exact S|]. eapply worker_ok_calm; [exact W|done|..]; destruct taken; cbn; rewrite ?Ph; try done.
    all: by apply (plain_running x w); [by apply A|].
  - destruct (worker_next a WorkerDrops s) as [s1|] eqn:T; [|done]. cbn. intros [= <- <-].
    destruct (worker_next_self _ _ _ _ _ Hx T) as [_ S]. eexists. split; [exact S|].
    pose proof (accounts_same x (set_as_hand None x) _ _ _ _ _ _ eq_refl eq_refl (A eq_refl)) as A'.
    pose proof (wo_ended _ _ W) as E. pose proof (wo_leaving _ _ W) as L. rewrite Ph in E, L.
    destruct stop; constructor; cbn; try done; first [by apply L|apply W].
  - case_match.
    + destruct (write_record _ _ _) as [s1|] eqn:Wr; [|done]. cbn. intros [= <- <-]. destruct (write_record_self _ _ _ _ _ Hx Wr) as [_ S].
      eexists. split; [exact S|]. eapply worker_ok_calm; [exact W|done|..]; cbn; rewrite ?Ph; try done.
      apply (plain_running x w); [by apply A|done].
    + intros [= <- <-]. exists x. split; [done|]. eapply worker_ok_calm; [exact W|done|..]; cbn; rewrite ?Ph; try done. by apply A.
  - specialize (A eq_refl). destruct (ax_up _ _ _ _ _ _ _ A) as [Ou Cu]. destruct (ax_down _ _ _ _ _ _ _ A) as [Od Cd].
    destruct (discard_counts _ Cu Ou) as (Ou' & Cu' & Gu & Qu & Eu & Lu). destruct (discard_counts _ Cd Od) as (Od' & Cd' & Gd & Qd & Ed & Ld).
    destruct (discard_all (wk_upstream w)) as [gu up]. destruct (discard_all (wk_downstream w)) as [gd down]. cbn [fst snd] in *.
    intros [= <- <-]. exists x. split; [done|]. injection Eu as Eu1 Eu2 Eu3. injection Ed as Ed1 Ed2 Ed3.
    assert (A' : accounts x up down (wk_failures w) gu gd 0).
    { destruct (ax_signs _ _ _ _ _ _ _ A) as (F & K & R). constructor; try done. unfold entered. rewrite Eu1, Eu2, Eu3, Ed1, Ed2, Ed3.
      exact (ax_balance _ _ _ _ _ _ _ A). }
    pose proof (wo_leaving _ _ W) as L. pose proof (wo_hand _ _ W) as H. pose proof (wo_ended _ _ W) as E. rewrite Ph in L, H, E.
    constructor; cbn; try done; [apply W|]. intros n seen [= <- <-]. exists gu, gd. pose proof (zlen_nonneg (as_queue x)).
    split_and!; try done; try lia; [apply wadd_range|]. intros Lt. pose proof (accounts_bound _ _ _ _ _ _ _ A' Lt) as B.
    destruct (ax_signs _ _ _ _ _ _ _ A') as (_ & _ & R1 & R2 & R3 & R4). unfold written_off in B. unfold wadd, sat_add, USIZE_MAX, U64_MAX in *.
    rewrite wrap64_small; unfold is_u64, TWO64; lia.
  -     destruct (write_record _ _ _) as [s1|] eqn:Wr; [|done]. cbn. intros [= <- <-]. destruct (write_record_self _ _ _ _ _ Hx Wr) as [_ S].
    eexists. split; [exact S|]. pose proof (wo_leaving _ _ W) as L. pose proof (wo_hand _ _ W) as H. pose proof (wo_ended _ _ W) as E. rewrite Ph in L, H, E.
    constructor; cbn [as_hand as_ended as_cancelled as_queue set_as_record wk_phase set_wk_phase holds over leaving drained counts_nonneg]; try done; [apply W|].
    intros ? ? [= <- <-]. exact (return_settled x w n seen (as_administrative x) W Ph).
  - destruct (worker_next a WorkerEnds s) as [s1|] eqn:T; [|done]. cbn. intros [= <- <-].
    destruct (worker_next_self _ _ _ _ _ Hx T) as [_ S]. eexists. split; [exact S|].
    pose proof (wo_leaving _ _ W) as L. rewrite Ph in L. constructor; cbn; done || by apply L.
Qed.
