(* ===== verification/UdpAccounts.v ===== *)
(** * The datagram runtime with its workers

    The system in which every association is served by the code of its worker:
    it refines the one that shows workers from outside, no worker panics, every
    datagram of an association is in one counter, and a worker that is told to
    stop ends. *)

From Stdlib Require Import Bool.
From stdpp Require Import base list gmap strings relations.
From S2P Require Import Prelude Rng Float64 Plan Policy Env DatagramPlan DatagramState Datagram DatagramProps DatagramRun Schedule Wire Server Tasks UdpState UdpRuntime UdpOwn UdpInv UdpSteps UdpSafe UdpRun UdpWorker UdpWorkerInv UdpWorkerRun.

(** ** Workers from inside and from outside *)

(** A move of a worker is at most one event of its association. *)
Lemma worker_move_event a i w s w' s' : worker_move a i w s = Some (w', s') -> s' = s \/ exists ev, worker_next a ev s = Some s'.
Proof.
  unfold worker_move. destruct (dr_associations s !! a) as [x|] eqn:Hx; [|done]. cbn [mbind option_bind].
  assert (Wr : forall f s1, write_record a f s = Some s1 -> exists ev, worker_next a ev s = Some s1).
  { intros f s1. unfold write_record. rewrite Hx. cbn. eauto. }
  destruct (wk_phase w) as [|d ready c after|d item rest c after| | | |taken|stop| | |n seen|seen b|lost], i; try (by destruct ready); try done;
    repeat (case_match; try done);
    first [by intros [= _ <-]; left
          | destruct (write_record _ _ _) eqn:E; [|done]; cbn; intros [= _ <-]; right; by eapply Wr
          | match goal with |- context[worker_next a ?ev s] => destruct (worker_next a ev s) eqn:E; [|done] end; cbn; intros [= _ <-]; right; by eexists
          | destruct (dr_states s !! as_proxy x); [|done]; cbn; intros [= _ <-]; by left].
Qed.

Definition calm (s : DatagramSystem) (d : Datagrams) : DatagramSystem := {| sys_state := d; sys_calls := sys_calls s |}.

(** A step with the workers is a step, or nothing, seen from outside. *)
Lemma runtime_projection m r r' : runtime_next m r = Some r' -> rtc datagram_step (rt_system r) (rt_system r').
Proof.
  destruct m as [m|a i]; cbn.
  - intros H. assert (E : exists sys, sys_next m (rt_system r) = Some sys /\ rt_system r' = sys).
    { destruct m as [i|i ans|[o ev|a ev|d]]; try done; (destruct (sys_next _ _) as [sys|]; [|done]); cbn in H; injection H as <-; by eexists. }
    destruct E as (sys & E & ->). apply rtc_once. by exists m.
  - destruct (rt_workers r !! a) as [[w|]|]; try done. cbn. destruct (worker_move _ _ _ _) as [[w' s']|] eqn:E; [|done]. cbn. intros [= <-].
    cbn. apply worker_move_event in E as [->|[ev E]]; [by destruct (rt_system r)|]. apply rtc_once. exists (Event (WorkerMoves a ev)). cbn. by rewrite E.
Qed.
Lemma runtime_projects r r' : rtc runtime_step r r' -> rtc datagram_step (rt_system r) (rt_system r').
Proof. induction 1 as [|a b c [m H] _ IH]; [done|]. etrans; [by eapply runtime_projection|done]. Qed.

(** ** The invariant *)

Record runtime_ok (r : Runtime) : Prop := {
  rk_pool : datagram_pool (rt_system r);
  rk_plans : plans_fine (sys_state (rt_system r));
  rk_setups : setups_fine (sys_state (rt_system r));
  rk_calls : Forall (within call_step) (sys_calls (rt_system r));
  rk_length : length (rt_workers r) = length (dr_associations (sys_state (rt_system r)));
  rk_workers : forall a x, dr_associations (sys_state (rt_system r)) !! a = Some x -> exists w, rt_workers r !! a = Some (Some w) /\ worker_ok x w
}.

(** A worker at its start. *)
Lemma worker_new_ok spec id x : limits_ok (ds_queue_limits spec) -> association_fresh x ->
  exists w, worker_new spec id = Some w /\ worker_ok x w.
Proof.
  intros L [Q H E (i & p & c & u & now & R)]. unfold worker_new.
  assert (N : forall d, exists e, dengine_new (ds_queue_limits spec) (ds_name spec) id d V1 = Ok e
    /\ dengine_ok e /\ conserved 0 0 e /\ admitted e = 0 /\ duplicated e = 0 /\ emitted e = 0).
  { intros d. destruct (dengine_new (ds_queue_limits spec) (ds_name spec) id d V1) as [e|] eqn:N.
    - exists e. pose proof (dstart_ok _ _ _ _ _ _ L N) as D. split; [done|]. split; [apply D|]. split; [apply D|].
      unfold dengine_new in N. destruct (limits_validate _); [|done]. by injection N as <-.
    - exfalso. unfold dengine_new, limits_validate in N. destruct L as [L1 L2 L3].
      destruct (_ || _) eqn:B in N; [|done]. rewrite !orb_true_iff, !Z.ltb_lt in B. lia. }
  destruct (N Upstream) as (up & -> & Ou & Cu & A1 & D1 & E1). destruct (N Downstream) as (down & -> & Od & Cd & A2 & D2 & E2).
  eexists. split; [done|]. constructor; cbn; rewrite ?Q, ?H, ?E; try done. intros _. constructor; try done.
  - rewrite R. cbn. unfold record_ranges, U64_MAX. cbn. lia.
  - intros _. rewrite Q, R, A1, E1, E2. done.
Qed.

Lemma runtime_ok_outside r sys : runtime_ok r -> datagram_pool sys -> setups_fine (sys_state sys) -> Forall (within call_step) (sys_calls sys) ->
  outside_step (sys_state (rt_system r)) (sys_state sys) -> runtime_ok {| rt_system := sys; rt_workers := rt_workers r ++ [] |}.
Proof.
  intros [_ P _ _ N W] Po S C [Seen Len Pl]. rewrite app_nil_r. constructor; cbn; try done; [by apply Pl|by rewrite Len|].
  intros a x' Hx'. destruct (lookup_lt_is_Some_2 (dr_associations (sys_state (rt_system r))) a) as [x Hx].
  { rewrite <- Len. by eapply lookup_lt_Some. }
  destruct (Seen a x Hx) as (y & Hy & O). rewrite Hx' in Hy. injection Hy as <-.
  destruct (W a x Hx) as (w & Hw & Ok'). exists w. split; [done|]. by eapply worker_ok_outside.
Qed.

Lemma pool_next m r r' : datagram_pool (rt_system r) -> runtime_next m r = Some r' -> datagram_pool (rt_system r').
Proof. intros P H. eapply datagram_pool_run; [exact P|by eapply runtime_projection]. Qed.

Lemma connected_ok o r sys : runtime_ok r -> datagram_pool sys -> sys_next (Event (ListenerMoves o LConnected)) (rt_system r) = Some sys ->
  runtime_ok {| rt_system := sys; rt_workers := rt_workers r ++ spawned (Event (ListenerMoves o LConnected)) (sys_state (rt_system r)) |}.
Proof.
  intros [_ P S C N W] Po H. cbn in H. set (s := sys_state (rt_system r)) in *. destruct (listener_next o LConnected s) as [s'|] eqn:L; [|done].
  injection H as <-. cbn [spawned]. unfold listener_next in L. destruct (dr_listeners s !! o) as [l|] eqn:Ho; [|done]. cbn [fmap option_fmap option_map].
  destruct (lo_phase l) as [| | | |c pl rv spec| | | |expired| |rest| | |] eqn:Hp; try discriminate L; try (by destruct expired as [|[]]); try (by destruct rest). injection L as <-.
  destruct (made_fresh o (lo_state l) c pl rv spec (dr_clock s) s) as (x & F & Ea & Ec).
  destruct (worker_new_ok spec (dr_next_association s) x) as (w & Hw & Ok'); [by eapply S|done|]. rewrite Hw.
  constructor; cbn [rt_system rt_workers sys_state sys_calls]; try done; [| |].
  - by apply (to_phase_setups o _ s).
  - rewrite Ea, !length_app. cbn. by rewrite N.
  - intros a y. rewrite Ea. intros [Hy|[-> ->]]%lookup_snoc_inv.
    + destruct (W a y Hy) as (v & Hv & Ov). exists v. split; [by apply lookup_app_l_Some|done].
    + exists w. split; [|done]. rewrite <- N, lookup_app_r, Nat.sub_diag by done. done.
Qed.

Lemma worker_step_ok a i r r' : runtime_ok r -> runtime_next (RWorker a i) r = Some r' -> runtime_ok r'.
Proof.
  intros Ok' H. pose proof (pool_next _ _ _ (rk_pool _ Ok') H) as Po. destruct Ok' as [_ P S C N W]. cbn in H.
  destruct (rt_workers r !! a) as [[w|]|] eqn:Hw; try done. cbn in H.
  destruct (worker_move a i w (sys_state (rt_system r))) as [[w' s']|] eqn:M; [|done]. cbn in H. injection H as <-.
  destruct (dr_associations (sys_state (rt_system r)) !! a) as [x|] eqn:Hx; [|unfold worker_move in M; by rewrite Hx in M].
  destruct (W a x Hx) as (v & Hv & Ov). rewrite Hw in Hv. injection Hv as <-.
  destruct (worker_move_ok a i w _ w' s' x P Hx Ov M) as (x' & (Ea & Ec & El) & Ow). constructor; cbn [rt_system rt_workers sys_state sys_calls]; try done.
  - unfold plans_fine. by rewrite Ec.
  - eapply setups_kept; [by apply same_tasks|done].
  - by rewrite Ea, length_alter, length_insert.
  - intros b y. rewrite Ea. intros [[Nb Hy]|(<- & y0 & Hy & ->)]%lookup_alter_inv.
    + destruct (W b y Hy) as (u & Hu & Ou). exists u. split; [by rewrite list_lookup_insert_ne|done].
    + exists w'. split; [|done]. apply list_lookup_insert_eq. by eapply lookup_lt_Some.
Qed.

Lemma runtime_step_ok r r' : runtime_ok r -> runtime_step r r' -> runtime_ok r'.
Proof.
  intros Ok' [m H]. destruct m as [m|a i]; [|by eapply worker_step_ok].
  pose proof (pool_next _ _ _ (rk_pool _ Ok') H) as Po. pose proof Ok' as [Pool P S C N W].
  set (s := sys_state (rt_system r)) in *.
  destruct m as [i|i ans|[o ev|a ev|d]]; [| | |done|]; cbn [runtime_next] in H.
  - cbn in H. destruct (sys_calls (rt_system r) !! i) as [[a| |f k|addr k|wt k]|] eqn:Ei; try done.
    + injection H as <-. pose proof (Forall_lookup_1 _ _ _ _ C Ei (sys_state (rt_system r))) as [[O T] K].
      apply runtime_ok_outside; try done; [by eapply setups_kept|]. cbn. by apply Forall_insert.
    + match type of H with context[if ?b then _ else _] => destruct b; [|done] end. injection H as <-. pose proof (Forall_lookup_1 _ _ _ _ C Ei) as K.
      apply runtime_ok_outside; try done; [by apply Forall_insert|by apply quiet_outside].
  - cbn in H. destruct (sys_calls (rt_system r) !! i) as [[]|] eqn:Ei; try done. injection H as <-. pose proof (Forall_lookup_1 _ _ _ _ C Ei ans) as K.
    apply runtime_ok_outside; try done; [by apply Forall_insert|by apply quiet_outside].
  - destruct (sys_next _ _) as [sys|] eqn:E; [|done]. cbn in H. injection H as <-. 
    assert (D : ev = LConnected \/ ev <> LConnected) by (destruct ev; (by left) || by right). destruct D as [->|Ne]; [by apply connected_ok|].
    cbn in E. fold s in E. destruct (listener_next o ev s) as [s'|] eqn:L; [|done]. injection E as <-.
    match goal with |- context[rt_workers r ++ ?l] => replace l with (@nil (option Worker)) by (destruct ev; first [done|by destruct Ne]) end.
    apply runtime_ok_outside; try done; [eapply listener_setups; [apply Pool|exact L|done]|by eapply listener_outside].
  - cbn in H. destruct (0 <=? d); [|done]. injection H as <-.
    apply runtime_ok_outside; try done. by apply quiet_outside.
Qed.
Lemma runtime_reachable_ok r r' : runtime_ok r -> rtc runtime_step r r' -> runtime_ok r'.
Proof. intros Ok' H. induction H; eauto using runtime_step_ok. Qed.

(** The runtime of a server, and calls with values of their types. *)
Record started (lims : DatagramRuntimeLimits) (rs : list datagram_request) : Prop := {
  sd_limits : limits_typed lims;
  sd_requests : Forall request_typed rs;
  sd_plans : Forall request_plans rs
}.
Lemma runtime_initial_ok lims rs : started lims rs -> runtime_ok (runtime_initial lims rs).
Proof.
  intros [L T P]. constructor; cbn; try done.
  - apply datagram_pool_initial; [by apply datagrams_new_ok|done].
  - constructor.
  - apply Forall_map. eapply Forall_impl; [exact P|]. intros r F. by apply (call_tame _ call_steps).
Qed.
Lemma runtime_runs_ok lims rs r : started lims rs -> rtc runtime_step (runtime_initial lims rs) r -> runtime_ok r.
Proof. intros S. by apply runtime_reachable_ok, runtime_initial_ok. Qed.

(** ** Accounts *)

Lemma worker_of r a x w : runtime_ok r -> dr_associations (sys_state (rt_system r)) !! a = Some x -> rt_workers r !! a = Some (Some w) -> worker_ok x w.
Proof. intros Ok' Hx Hw. destruct (rk_workers _ Ok' a x Hx) as (v & Hv & O). rewrite Hw in Hv. by injection Hv as <-. Qed.

(** C11: the runtime with the code of its workers refines the runtime that
    shows them from outside.  Every state its runs reach is, workers aside, one
    the outside view reaches, so what holds of every run there (the counts of
    leases and bytes, the tables, that nobody waits forever) holds with the
    actual workers; every association has its worker, which did not panic at
    its start, holds a datagram of the channel exactly where its code does and
    leaves its loop only after it has been cancelled. *)
Theorem workers_refine_their_view lims rs r : started lims rs -> rtc runtime_step (runtime_initial lims rs) r ->
  rtc datagram_step (datagram_initial (datagrams_new lims) rs) (rt_system r)
  /\ length (rt_workers r) = length (dr_associations (sys_state (rt_system r)))
  /\ forall a x, dr_associations (sys_state (rt_system r)) !! a = Some x -> exists w, rt_workers r !! a = Some (Some w)
       /\ as_ended x = over (wk_phase w) /\ is_some (as_hand x) = holds (wk_phase w)
       /\ (leaving (wk_phase w) = true -> as_cancelled x = true).
Proof.
  intros S H. pose proof (runtime_runs_ok _ _ _ S H) as Ok'. split_and!; [exact (runtime_projects _ _ H)|exact (rk_length _ Ok')|].
  intros a x Hx. destruct (rk_workers _ Ok' a x Hx) as (w & Hw & O). exists w. split_and!; [done|apply O..].
Qed.

(** C10: every datagram of an association is in one counter.  What the
    listener queued, what the upstream socket delivered, the copies made of
    either and the errors of that socket are together exactly: the datagrams
    the engines of the worker lost or refused, those written off in the record
    as sent, failed or discarded, those the worker is sending, those the
    engines hold and those in the channel.  When the worker has counted for an
    administrative stop nothing is left but the channel, its record shows the
    final evidence, and the datagrams that reached the channel after it was
    counted are the only ones no counter has. *)
Theorem association_datagrams_are_accounted lims rs r a x w : started lims rs -> rtc runtime_step (runtime_initial lims rs) r ->
  dr_associations (sys_state (rt_system r)) !! a = Some x -> rt_workers r !! a = Some (Some w) ->
  entered (as_record x) (wk_upstream w) (wk_downstream w) (wk_failures w) < U64_MAX ->
  (drained (wk_phase w) = false ->
     entered (as_record x) (wk_upstream w) (wk_downstream w) (wk_failures w)
     = lost_by (de_evidence (wk_upstream w)) + lost_by (de_evidence (wk_downstream w)) + written_off (as_record x) + in_flight (wk_phase w)
       + zlen (de_queue (wk_upstream w)) + zlen (de_queue (wk_downstream w)) + zlen (as_queue x))
  /\ forall seen administrative, wk_phase w = WReturn seen administrative ->
     ar_upstream_evidence (as_record x) = de_evidence (wk_upstream w)
     /\ ar_downstream_evidence (as_record x) = de_evidence (wk_downstream w)
     /\ 0 <= seen <= zlen (as_queue x)
     /\ (administrative = true ->
         entered (as_record x) (wk_upstream w) (wk_downstream w) (wk_failures w)
         = lost_by (ar_upstream_evidence (as_record x)) + lost_by (ar_downstream_evidence (as_record x)) + written_off (as_record x)
           + (zlen (as_queue x) - seen)).
Proof.
  intros S H Hx Hw Lt. pose proof (worker_of _ _ _ _ (runtime_runs_ok _ _ _ S H) Hx Hw) as O. split.
  - intros D. destruct (wo_running _ _ O D) as [[_ Cu] [_ Cd] _ (F & K & R & _) B]. destruct (B Lt) as [B1 B2].
    destruct Cu as [(?&?&?&?&?&?) Bu], Cd as [(?&?&?&?&?&?) Bd]. pose proof (zlen_nonneg (as_queue x)).
    unfold entered, lost_by, admitted, duplicated, emitted in *. lia.
  - intros seen b Ph. destruct (wo_return _ _ O seen b Ph) as (V1 & V2 & Se & _ & _ & _ & _ & _ & u & U & Ub & St).
    split_and!; [done..|lia|lia|]. intros ->. rewrite V1, V2, (St Lt), (Ub eq_refl). lia.
Qed.

(** ** Workers that are told to stop *)

(** What a cancelled worker still has to do, at most. *)
Definition rank (ph : WorkerPhase) : nat :=
  match ph with
  | WEnded _ => 0 | WReturn _ _ => 1 | WCount _ _ => 2 | WExit => 3 | WDrop true | WSelect => 4
  | WSend _ (_ :: _) _ _ | WSend _ [] _ AfterDownstream => 5
  | WSend _ [] _ (AfterUpstream _) | WTop => 6
  | WTurn => 7
  | WDrop false | WOversize | WFailed => 8
  | WTouch _ => 9
  | WSend _ [] _ (AfterAdmission _) => 10
  | WSending _ _ _ _ _ => 11
  end%nat.
Lemma rank_bound ph : (rank ph <= 11)%nat.
Proof. destruct ph as [|d [|] c []|d item rest c after| | | |taken|[]| | |n seen|seen b|lost]; cbn; lia. Qed.

Lemma emit_downstream_rank now w : (rank (wk_phase (emit_downstream now w)) <= 5)%nat.
Proof. unfold emit_downstream. destruct (take_ready _ _) as [[|item out] e]; cbn; lia. Qed.
Lemma emit_upstream_rank now w : (rank (wk_phase (emit_upstream now w)) <= 5)%nat.
Proof.
  unfold emit_upstream. destruct (take_ready _ _) as [[|item out] e]; [|cbn; lia]. apply emit_downstream_rank.
Qed.
Lemma after_send_rank d c after w : (rank (wk_phase (after_send after w)) < rank (WSend d [] c after))%nat.
Proof. destruct after as [now| |taken]; cbn; [|lia..]. pose proof (emit_downstream_rank now w). lia. Qed.

Lemma cancelled_move_lowers a i w s w' s' x : dr_associations s !! a = Some x -> as_cancelled x = true ->
  worker_move a i w s = Some (w', s') -> (rank (wk_phase w') < rank (wk_phase w))%nat.
Proof.
  intros Hx C. unfold worker_move. rewrite Hx. cbn [mbind option_bind].
  destruct (wk_phase w) as [|d ready c after|d item rest c after| | | |taken|stop| | |n seen|seen b|lost], i;
    try (by destruct ready); try done; rewrite ?C; cbn [orb]; try done.
  - intros [= <- _]. pose proof (emit_upstream_rank (dr_clock s) w). cbn. lia.
  - destruct ready as [|item rest].
    + case_match; [destruct (write_record _ _ _); [|done]; cbn [mbind option_bind]|]; intros [= <- _]; apply after_send_rank.
    + destruct (write_record _ _ _); [|done]. cbn [mbind option_bind]. intros [= <- _]. by destruct after as [| |[]]; cbn; lia.
  - intros [= <- _]. cbn [wk_phase set_wk_phase]. destruct rest; [destruct after|]; cbn; lia.
  - intros [= <- _]. cbn. lia.
  - destruct (write_record _ _ _); [|done]. intros [= <- _]. cbn. lia.
  - destruct (write_record _ _ _); [|done]. intros [= <- _]. cbn. lia.
  - destruct (write_record _ _ _); [|done]. intros [= <- _]. destruct taken; cbn; lia.
  - destruct (worker_next _ _ _); [|done]. intros [= <- _]. destruct stop; cbn; lia.
  - case_match; [destruct (write_record _ _ _); [|done]|]; intros [= <- _]; cbn; lia.
  - destruct (discard_all (wk_upstream w)), (discard_all (wk_downstream w)). intros [= <- _]. cbn. lia.
  - destruct (write_record _ _ _); [|done]. intros [= <- _]. cbn. lia.
  - destruct (worker_next _ _ _); [|done]. intros [= <- _]. cbn. lia.
Qed.

(** It is never stuck. *)
Lemma cancelled_worker_moves a w s x : dr_associations s !! a = Some x -> worker_ok x w -> as_cancelled x = true -> as_ended x = false ->
  exists i w' s', worker_move a i w s = Some (w', s').
Proof.
  intros Hx O C E. unfold worker_move. rewrite Hx. cbn [mbind option_bind].
  assert (Wr : forall f, exists s1, write_record a f s = Some s1).
  { intros f. unfold write_record, worker_next. rewrite Hx. cbn. rewrite E. by eexists. }
  pose proof (wo_hand _ _ O) as H. pose proof (wo_ended _ _ O) as V. rewrite E in V.
  destruct (wk_phase w) as [|d ready c after|d item rest c after| | | |taken|stop| | |n seen|seen b|lost] eqn:Ph.
  - exists WStep. by do 2 eexists.
  - exists WStep. destruct ready as [|item rest].
    + case_match; [|by do 2 eexists]. destruct (Wr (counted_egress c)) as [s1 ->]. by do 2 eexists.
    + rewrite C. destruct (Wr (fun r => counted_discards (zlen (item :: rest)) (counted_egress c r))) as [s1 ->]. by do 2 eexists.
  - exists (WSent None). by do 2 eexists.
  - exists WSeesCancel. rewrite C. by do 2 eexists.
  - exists WStep. destruct (Wr (counted_oversize (dr_clock s))) as [s1 ->]. by do 2 eexists.
  - exists WStep. destruct (Wr counted_failure) as [s1 ->]. by do 2 eexists.
  - exists WStep. destruct (Wr (set_ar_last_activity (dr_clock s))) as [s1 ->]. by do 2 eexists.
  - exists WStep. unfold worker_next. rewrite Hx, E. cbn in H. destruct (as_hand x); [|done]. by do 2 eexists.
  - exists WStep. case_match; [|by do 2 eexists]. destruct (Wr (update_evidence w)) as [s1 ->]. by do 2 eexists.
  - exists WStep. destruct (discard_all (wk_upstream w)), (discard_all (wk_downstream w)). by do 2 eexists.
  - exists WStep. destruct (Wr (fun r => update_evidence w (if as_administrative x then counted_discards n r else r))) as [s1 ->]. by do 2 eexists.
  - exists WStep. unfold worker_next. rewrite Hx, E, C. by do 2 eexists.
  - done.
Qed.

Definition moves_it (a : nat) (m : runtime_move) : bool := match m with RWorker b _ => Nat.eqb a b | RSystem _ => false end.
Fixpoint own_moves (a : nat) (ms : list runtime_move) : nat :=
  match ms with [] => 0 | m :: ms => (if moves_it a m then 1 else 0) + own_moves a ms end%nat.

Lemma runtime_run_reaches ms : forall r r', runtime_run ms r = Some r' -> rtc runtime_step r r'.
Proof.
  induction ms as [|m ms IH]; cbn; intros r r' H; [by injection H as ->|].
  destruct (runtime_next m r) as [r1|] eqn:N; [|done]. eapply rtc_l; [by exists m|by apply IH].
Qed.

(** What is cancelled stays so. *)
Lemma cancelled_kept m r r' a : datagram_pool (rt_system r) -> runtime_next m r = Some r' ->
  cancelled (own_of (sys_state (rt_system r))) a -> cancelled (own_of (sys_state (rt_system r'))) a.
Proof.
  intros P H C. apply runtime_projection in H. revert P C. induction H as [|u v t N _ IH]; [done|]. intros P C. apply IH; [eapply datagram_pool_run; [exact P|by apply rtc_once]|].
  destruct (pool_move _ _ _ _ _ _ _ P N) as [->|[[i K]|[e K]]]; [done| |].
  - by apply (awaitable_mono _ _ (OnWorker a) K).
  - by apply (awaitable_mono _ _ (OnWorker a) (proj2 (udp_event_good _ _ _ (proj1 P) K))).
Qed.

Lemma cancelled_seat s a x : dr_associations s !! a = Some x -> cancelled (own_of s) a <-> as_cancelled x = true.
Proof.
  intros H. split.
  - intros (y & Hy & C). destruct (seat_lookup_inv _ _ _ Hy) as (z & Hz & ->). rewrite H in Hz. by injection Hz as ->.
  - intros C. exists (seat_of x). split; [cbn; by rewrite lookup_map, H|done].
Qed.

(** The worker of a cancelled association across a move of anyone. *)
Lemma cancelled_next m r r' a w : runtime_ok r -> cancelled (own_of (sys_state (rt_system r))) a -> rt_workers r !! a = Some (Some w) ->
  runtime_next m r = Some r' ->
  exists w', rt_workers r' !! a = Some (Some w') /\ ((if moves_it a m then 1 else 0) + rank (wk_phase w') <= rank (wk_phase w))%nat.
Proof.
  intros Ok' C Hw H. destruct m as [m|b i].
  - exists w. split; [|cbn; lia]. cbn in H. assert (E : exists l, rt_workers r' = rt_workers r ++ l).
    { destruct m as [i|i ans|[o ev|b ev|d]]; try done; (destruct (sys_next _ _) as [sys|]; [|done]); cbn in H; injection H as <-; by eexists. }
    destruct E as [l ->]. by apply lookup_app_l_Some.
  - cbn in H. destruct (rt_workers r !! b) as [[v|]|] eqn:Hv; try done. cbn in H.
    destruct (worker_move b i v _) as [[v' s']|] eqn:M; [|done]. cbn in H. injection H as <-. cbn [rt_workers moves_it].
    destruct (Nat.eqb_spec a b) as [->|N].
    + rewrite Hv in Hw. injection Hw as ->. exists v'. split; [apply list_lookup_insert_eq; by eapply lookup_lt_Some|].
      destruct (dr_associations (sys_state (rt_system r)) !! b) as [x|] eqn:Hx; [|unfold worker_move in M; by rewrite Hx in M].
      pose proof (cancelled_move_lowers b i w _ _ _ x Hx (proj1 (cancelled_seat _ _ _ Hx) C) M). lia.
    + exists w. split; [by rewrite list_lookup_insert_ne|lia].
Qed.

Lemma cancelled_run ms : forall r r' a w, runtime_ok r -> cancelled (own_of (sys_state (rt_system r))) a -> rt_workers r !! a = Some (Some w) ->
  runtime_run ms r = Some r' ->
  runtime_ok r' /\ cancelled (own_of (sys_state (rt_system r'))) a
  /\ exists w', rt_workers r' !! a = Some (Some w') /\ (own_moves a ms + rank (wk_phase w') <= rank (wk_phase w))%nat.
Proof.
  induction ms as [|m ms IH]; cbn [runtime_run own_moves]; intros r r' a w Ok' C Hw H.
  - injection H as <-. split; [done|]. split; [done|]. exists w. split; [done|lia].
  - destruct (runtime_next m r) as [r1|] eqn:N; [|done]. destruct (cancelled_next m r r1 a w Ok' C Hw N) as (w1 & Hw1 & L1).
    destruct (IH r1 r' a w1) as (Ok2 & C2 & w2 & Hw2 & L2); try done.
    + eapply runtime_step_ok; [exact Ok'|by exists m].
    + eapply cancelled_kept; [apply Ok'|exact N|exact C].
    + split; [done|]. split; [done|]. exists w2. split; [done|lia].
Qed.

(** C25: a worker that is told to stop ends.  From the moment its association
    is cancelled, and whatever calls, listeners, clients and other workers do
    meanwhile, the worker makes at most eleven moves more, and it has a move to
    make at every moment until it has ended: whatever it was sending, holding
    or waiting for, and whatever the sockets answer. *)
Theorem cancelled_workers_end lims rs r a x w ms r' : started lims rs -> rtc runtime_step (runtime_initial lims rs) r ->
  dr_associations (sys_state (rt_system r)) !! a = Some x -> as_cancelled x = true -> rt_workers r !! a = Some (Some w) ->
  runtime_run ms r = Some r' ->
  (own_moves a ms <= 11)%nat
  /\ (is_ended a (sys_state (rt_system r')) = true \/ exists i, is_some (runtime_next (RWorker a i) r') = true).
Proof.
  intros S H Hx C Hw R. pose proof (runtime_runs_ok _ _ _ S H) as Ok'.
  destruct (cancelled_run ms r r' a w Ok' (proj2 (cancelled_seat _ _ _ Hx) C) Hw R) as (Ok2 & C2 & w' & Hw' & L).
  pose proof (rank_bound (wk_phase w)). split; [lia|]. destruct C2 as (y & Hy & Cy). destruct (seat_lookup_inv _ _ _ Hy) as (z & Hz & ->).
  unfold is_ended. rewrite Hz. destruct (as_ended z) eqn:E; [by left|right].
  destruct (cancelled_worker_moves a w' _ z Hz (worker_of _ _ _ _ Ok2 Hz Hw') Cy E) as (i & v & s & M). exists i. cbn. rewrite Hw'. cbn. by rewrite M.
Qed.

(** ** Concrete runs *)

Definition runtime_end (ms : list runtime_move) (r : Runtime) : Runtime := default r (runtime_run ms r).
Lemma runtime_end_reaches ms r : is_some (runtime_run ms r) = true -> rtc runtime_step r (runtime_end ms r).
Proof. unfold runtime_end. intros H. apply (runtime_run_reaches ms). by destruct (runtime_run ms r). Qed.

Abbreviation Sys m := (RSystem m).
Abbreviation Worker0 i := (RWorker 0 i).

Definition kill_requests : list datagram_request := [DqCreate dns; DqKill 1].
Definition kill_start : Runtime := runtime_initial runtime_limits_default kill_requests.
(** A client sends a query; its association forwards it, and the answer
    fails. *)
Definition first_query : list runtime_move :=
  map RSystem (create_dns 0 5001)
  ++ [Sys (Listen 0 (LReceived a_client query)); Sys (Listen 0 LNext); Sys (Listen 0 LNext); Sys (Listen 0 LConnected);
      Sys (Listen 0 LNext); Sys (Listen 0 LNext);
      Worker0 WStep; Worker0 WReceives; Worker0 WStep; Worker0 (WSent (Some 3)); Worker0 WStep; Worker0 WStep; Worker0 WStep; Worker0 WStep;
      Worker0 WStep; Worker0 (WDatagram query); Worker0 WStep; Worker0 (WSent None)].
Definition answered : Runtime := runtime_end first_query kill_start.
(** The second query has been resolved when the association is killed. *)
Definition second_query : list runtime_move :=
  [Worker0 WStep; Worker0 WStep; Worker0 WStep; Worker0 WStep;
   Sys (Listen 0 (LReceived a_client query)); Sys (Listen 0 LNext); Sys (Call 1); Sys (Call 1); Sys (Call 1)].
Definition killed : Runtime := runtime_end second_query answered.
(** It is accepted after the worker has counted its channel. *)
Definition worker_counts : list runtime_move := [Worker0 WSeesCancel; Worker0 WStep; Worker0 WStep].
Definition counted : Runtime := runtime_end worker_counts killed.
Definition accepted_late : list runtime_move := [Sys (Listen 0 LNext); Worker0 WStep; Sys (Call 1); Sys (Call 1)].

Lemma kill_started : started runtime_limits_default kill_requests.
Proof.
  assert (F : policy_fine (dload empty_cell)) by (split; [apply dplan_wf_validate; [constructor|by vm_compute]|constructor]).
  split; [apply default_limits_typed|repeat constructor; apply empty_cell_ok|repeat constructor; apply F].
Qed.
Lemma answered_reached : rtc runtime_step kill_start answered.
Proof. apply runtime_end_reaches. vm_compute. reflexivity. Qed.
Lemma killed_reached : rtc runtime_step kill_start killed.
Proof. etrans; [apply answered_reached|]. apply runtime_end_reaches. vm_compute. reflexivity. Qed.
Lemma counted_reached : rtc runtime_step kill_start counted.
Proof. etrans; [apply killed_reached|]. apply runtime_end_reaches. vm_compute. reflexivity. Qed.

(** The association and the worker under a number. *)
Definition association_at (a : nat) (r : Runtime) : option Association := dr_associations (sys_state (rt_system r)) !! a.
Definition worker_at (a : nat) (r : Runtime) : option Worker := mjoin (rt_workers r !! a).
Definition entered_at (a : nat) (r : Runtime) : option Z :=
  x ← association_at a r; w ← worker_at a r; Some (entered (as_record x) (wk_upstream w) (wk_downstream w) (wk_failures w)).
Lemma worker_at_some a r w : worker_at a r = Some w -> rt_workers r !! a = Some (Some w).
Proof. unfold worker_at. destruct (rt_workers r !! a) as [[v|]|]; cbn; congruence. Qed.

(** A datagram accepted while its association is killed can be in no
    counter.  The worker counts its channel before it writes its record and
    closes the channel only when it returns: a datagram that the listener has
    already resolved and sends in between is accepted and counted as ingress,
    and is dropped with the channel.  The kill reports success, and the record
    it keeps shows two queries in and one answer of which two were sent, failed,
    discarded or lost in an engine, and none refused by the channel. *)
Theorem kill_loses_a_datagram : exists r v x w,
  rtc runtime_step (runtime_initial runtime_limits_default [DqCreate dns; DqKill 1]) r
  /\ sys_calls (rt_system r) = [Ret (DsView (Ok v)); Ret (DsDone true)]
  /\ association_at 0 r = Some x /\ worker_at 0 r = Some w /\ wk_phase w = WEnded 1 /\ as_administrative x = true
  /\ dr_history (sys_state (rt_system r)) = [record_snapshot (as_record x) 0]
  /\ ar_ingress_datagrams (as_record x) = 2 /\ d_admitted_datagrams (ar_downstream_evidence (as_record x)) = 1
  /\ entered (as_record x) (wk_upstream w) (wk_downstream w) (wk_failures w) = 3
  /\ lost_by (ar_upstream_evidence (as_record x)) + lost_by (ar_downstream_evidence (as_record x)) + written_off (as_record x) = 2
  /\ ar_ingress_queue_overflow (as_record x) = 0.
Proof.
  exists (runtime_end accepted_late counted). do 3 eexists. split.
  - etrans; [exact counted_reached|]. apply runtime_end_reaches. vm_compute. reflexivity.
  - split; [vm_compute; reflexivity|]. split; [vm_compute; reflexivity|]. split; [vm_compute; reflexivity|]. by split_and!.
Qed.

(** *** Instances of the theorems *)

Lemma workers_refine_their_view_witness :
  rtc datagram_step (datagram_initial (datagrams_new runtime_limits_default) kill_requests) (rt_system killed)
  /\ length (rt_workers killed) = 1%nat.
Proof.
  destruct (workers_refine_their_view runtime_limits_default kill_requests killed kill_started killed_reached) as (H & L & _).
  split; [exact H|]. rewrite L. vm_compute. reflexivity.
Defined.

(** In the middle of an answer, and after the count. *)
Lemma association_datagrams_are_accounted_witness : exists x w y v,
  association_at 0 answered = Some x /\ worker_at 0 answered = Some w /\ association_at 0 counted = Some y /\ worker_at 0 counted = Some v
  /\ entered (as_record x) (wk_upstream w) (wk_downstream w) (wk_failures w) = 2 /\ in_flight (wk_phase w) = 1
  /\ 2 = lost_by (de_evidence (wk_upstream w)) + lost_by (de_evidence (wk_downstream w)) + written_off (as_record x) + 1
         + zlen (de_queue (wk_upstream w)) + zlen (de_queue (wk_downstream w)) + zlen (as_queue x)
  /\ entered (as_record y) (wk_upstream v) (wk_downstream v) (wk_failures v)
     = lost_by (ar_upstream_evidence (as_record y)) + lost_by (ar_downstream_evidence (as_record y)) + written_off (as_record y) + 0.
Proof.
  assert (H : exists x w, association_at 0 answered = Some x /\ worker_at 0 answered = Some w
    /\ entered (as_record x) (wk_upstream w) (wk_downstream w) (wk_failures w) = 2 /\ in_flight (wk_phase w) = 1
    /\ drained (wk_phase w) = false) by (do 2 eexists; split; [vm_compute; reflexivity|]; split; [vm_compute; reflexivity|]; by split_and!).
  assert (K : exists y v, association_at 0 counted = Some y /\ worker_at 0 counted = Some v
    /\ entered (as_record y) (wk_upstream v) (wk_downstream v) (wk_failures v) = 2 /\ wk_phase v = WReturn 0 true /\ zlen (as_queue y) = 0)
    by (do 2 eexists; split; [vm_compute; reflexivity|]; split; [vm_compute; reflexivity|]; by split_and!).
  destruct H as (x & w & Hx & Hw & E & F & D), K as (y & v & Hy & Hv & Ey & P & Q). exists x, w, y, v.
  split; [exact Hx|]. split; [exact Hw|]. split; [exact Hy|]. split; [exact Hv|]. split; [exact E|]. split; [exact F|]. split.
  - destruct (association_datagrams_are_accounted runtime_limits_default kill_requests answered 0 x w kill_started answered_reached Hx
      (worker_at_some _ _ _ Hw)) as [A _]; [unfold U64_MAX; lia|]. specialize (A D). rewrite E, F in A. exact A.
  - destruct (association_datagrams_are_accounted runtime_limits_default kill_requests counted 0 y v kill_started counted_reached Hy
      (worker_at_some _ _ _ Hv)) as [_ A]; [unfold U64_MAX; lia|]. destruct (A 0 true P) as (_ & _ & _ & B). rewrite (B eq_refl), Q. reflexivity.
Defined.

Lemma cancelled_workers_end_witness : exists x w,
  association_at 0 killed = Some x /\ as_cancelled x = true /\ worker_at 0 killed = Some w
  /\ is_ended 0 (sys_state (rt_system counted)) = false
  /\ exists i, is_some (runtime_next (RWorker 0 i) counted) = true.
Proof.
  assert (H : exists x w, association_at 0 killed = Some x /\ as_cancelled x = true /\ worker_at 0 killed = Some w)
    by (do 2 eexists; split; [vm_compute; reflexivity|]; split; [reflexivity|vm_compute; reflexivity]).
  assert (E : is_ended 0 (sys_state (rt_system counted)) = false) by (vm_compute; reflexivity).
  assert (R : runtime_run worker_counts killed = Some counted).
  { unfold counted, runtime_end. assert (N : is_some (runtime_run worker_counts killed) = true) by (vm_compute; reflexivity).
    destruct (runtime_run worker_counts killed); [reflexivity|discriminate N]. }
  destruct H as (x & w & Hx & C & Hw). exists x, w. split; [exact Hx|]. split; [exact C|]. split; [exact Hw|]. split; [exact E|].
  destruct (cancelled_workers_end runtime_limits_default kill_requests killed 0 x w worker_counts counted kill_started killed_reached Hx C
    (worker_at_some _ _ _ Hw) R) as [_ [F|F]]; [rewrite E in F; discriminate F|exact F].
Defined.
