(* ===== verification/Scenario.v ===== *)
(** * Scenario documents, run records and their registry
      ([crates/eggchaos-server/src/scenario.rs], [runtime/scenario_registry.rs])

    The data of scenario runs, and the bookkeeping both languages share: each
    family keeps its records in the order of their ids and a cancellation token
    for every run that may still be cancelled. *)

From Stdlib Require Import Bool.
From stdpp Require Import base list gmap sorting strings.
From S2P Require Import Prelude Rng Float64 Plan Policy DatagramPlan Schedule Driver WireSchedule.

(** ** Documents and records *)

Record ScenarioEvent := { sn_at_ms : Z; sn_action : ScenarioAction }.
Record Scenario := { sn_version : Z; sn_seed : Z; sn_events : list ScenarioEvent }.

Inductive ScenarioRunStatus := ScnPending | ScnRunning | ScnCancelling | ScnCancelled | ScnCompleted | ScnFailed.
#[export] Instance ScenarioRunStatus_eq_dec : EqDecision ScenarioRunStatus.
Proof. solve_decision. Defined.

Record ScenarioEventResult := {
  se_index : Z;
  se_at_ms : Z;
  se_action : string;
  se_proxy : string;
  se_direction : Direction;
  se_global_generation : Z;
  se_upstream_generation : Z;
  se_downstream_generation : Z
}.

Record ScenarioRunRecord := {
  sr_run_id : Z;
  sr_seed : Z;
  sr_status : ScenarioRunStatus;
  sr_applied : Z;
  sr_failure : option string;
  sr_trail : list ScenarioEventResult
}.
Definition set_sr_status (st : ScenarioRunStatus) (r : ScenarioRunRecord) : ScenarioRunRecord := {|
  sr_run_id := sr_run_id r; sr_seed := sr_seed r; sr_status := st; sr_applied := sr_applied r;
  sr_failure := sr_failure r; sr_trail := sr_trail r |}.
Definition set_sr_failed (message : string) (r : ScenarioRunRecord) : ScenarioRunRecord := {|
  sr_run_id := sr_run_id r; sr_seed := sr_seed r; sr_status := ScnFailed; sr_applied := sr_applied r;
  sr_failure := Some message; sr_trail := sr_trail r |}.
(** [record.applied += 1; record.trail.push(trail)]: one of at most 1024
    events. *)
Definition add_sr_event (e : ScenarioEventResult) (r : ScenarioRunRecord) : ScenarioRunRecord := {|
  sr_run_id := sr_run_id r; sr_seed := sr_seed r; sr_status := sr_status r; sr_applied := sr_applied r + 1;
  sr_failure := sr_failure r; sr_trail := sr_trail r ++ [e] |}.

(** ** A family of runs *)

Definition SCENARIO_FAMILY_CAPACITY : nat := 32.
Inductive AdmitError := CapacityExceeded.

(** Records that say whether their run is still active. *)
Class RunRecord (R : Type) := run_active : R -> bool.

Record Family (R : Type) := { fm_runs : gmap Z R; fm_tokens : gmap Z nat }.
Arguments fm_runs {R}. Arguments fm_tokens {R}.

Section Family.
Context {R : Type} `{A : RunRecord R}.
Abbreviation family := (Family R).

Definition family_new : family := {| fm_runs := ∅; fm_tokens := ∅ |}.
Definition set_runs (m : gmap Z R) (f : family) : family := {| fm_runs := m; fm_tokens := fm_tokens f |}.
Definition set_run_tokens (m : gmap Z nat) (f : family) : family := {| fm_runs := fm_runs f; fm_tokens := m |}.

Definition run_le (a b : Z * R) : Prop := a.1 <= b.1.
#[export] Instance run_le_dec : RelDecision run_le := fun a b => decide (a.1 <= b.1).
(** The iteration order of a [BTreeMap]. *)
Definition ordered (m : gmap Z R) : list (Z * R) := merge_sort run_le (map_to_list m).

Definition active_count (f : family) : nat := length (List.filter (fun e => run_active e.2) (map_to_list (fm_runs f))).
Definition first_oldest_finished (f : family) : option Z :=
  option_map fst (List.find (fun e => negb (run_active e.2)) (ordered (fm_runs f))).
Definition remove_run (id : Z) (f : family) : family := {| fm_runs := delete id (fm_runs f); fm_tokens := delete id (fm_tokens f) |}.

Definition prune (f : family) : family :=
  if Nat.leb SCENARIO_FAMILY_CAPACITY (size (fm_runs f))
  then match first_oldest_finished f with Some oldest => remove_run oldest f | None => f end
  else f.
Definition admit_run (id : Z) (record : R) (f : family) : result family AdmitError :=
  if Nat.leb SCENARIO_FAMILY_CAPACITY (active_count f) then Err CapacityExceeded
  else let f := prune f in Ok (set_runs (<[id := record]> (fm_runs f)) f).

Definition insert_token (id : Z) (token : nat) (f : family) : family := set_run_tokens (<[id := token]> (fm_tokens f)) f.
Definition admit_with_token (id : Z) (record : R) (token : nat) (f : family) : result family AdmitError :=
  let? f := admit_run id record f in Ok (insert_token id token f).

Definition update (id : Z) (change : R -> R) (f : family) : bool * family :=
  match fm_runs f !! id with
  | Some record => (true, set_runs (<[id := change record]> (fm_runs f)) f)
  | None => (false, f)
  end.
Definition take_token (id : Z) (f : family) : option nat * family :=
  (fm_tokens f !! id, set_run_tokens (delete id (fm_tokens f)) f).
Definition drop_token (id : Z) (f : family) : family := set_run_tokens (delete id (fm_tokens f)) f.
End Family.

(** ** The registry *)

Definition v1_active (s : ScenarioRunStatus) : bool :=
  match s with ScnPending | ScnRunning | ScnCancelling => true | _ => false end.
Definition v2_active (s : ScheduleRunStatus) : bool :=
  match s with RunPending | RunRunning | RunCancelling => true | _ => false end.
#[export] Instance ScenarioRunRecord_active : RunRecord ScenarioRunRecord := fun r => v1_active (sr_status r).
#[export] Instance ScheduleRunRecord_active : RunRecord ScenarioScheduleRunRecord := fun r => v2_active (rr_status r).

Record ScenarioRegistry := { rg_v1 : Family ScenarioRunRecord; rg_v2 : Family ScenarioScheduleRunRecord }.
Definition registry_new : ScenarioRegistry := {| rg_v1 := family_new; rg_v2 := family_new |}.
Definition set_v1 (f : Family ScenarioRunRecord) (r : ScenarioRegistry) : ScenarioRegistry := {| rg_v1 := f; rg_v2 := rg_v2 r |}.
Definition set_v2 (f : Family ScenarioScheduleRunRecord) (r : ScenarioRegistry) : ScenarioRegistry := {| rg_v1 := rg_v1 r; rg_v2 := f |}.

(** [cancel_all]: the tokens to cancel, and the registry without them. *)
Definition tokens_of (r : ScenarioRegistry) : list nat :=
  map snd (map_to_list (fm_tokens (rg_v1 r))) ++ map snd (map_to_list (fm_tokens (rg_v2 r))).
Definition clear_tokens (r : ScenarioRegistry) : ScenarioRegistry := {|
  rg_v1 := set_run_tokens ∅ (rg_v1 r); rg_v2 := set_run_tokens ∅ (rg_v2 r) |}.

(** ** What a family keeps *)

Section Kept.
Context {R : Type} `{A : RunRecord R}.
Implicit Types (f : Family R) (id : Z) (r : R).

(** Bounded, and no token without its record. *)
Record family_ok f : Prop := {
  fk_bound : (size (fm_runs f) <= SCENARIO_FAMILY_CAPACITY)%nat;
  fk_tokens : dom (fm_tokens f) ⊆ dom (fm_runs f)
}.

Lemma filter_all {B} (p : B -> bool) (l : list B) : length (List.filter p l) = length l -> Forall (fun x => p x = true) l.
Proof.
  induction l as [|x l IH]; cbn; [by constructor|]. destruct (p x) eqn:E; cbn; intros H.
  - constructor; [done|]. apply IH. lia.
  - pose proof (filter_length_le p l). lia.
Qed.

Lemma ordered_entry (m : gmap Z R) id r : (id, r) ∈ ordered m <-> m !! id = Some r.
Proof. unfold ordered. by rewrite merge_sort_Permutation, elem_of_map_to_list. Qed.

Lemma run_le_trans : Transitive (@run_le R).
Proof. intros a b c; unfold run_le; lia. Qed.
#[local] Instance run_le_total : Total (@run_le R).
Proof. intros a b. unfold run_le. lia. Qed.

Lemma find_sorted (p : Z * R -> bool) l e : StronglySorted (@run_le R) l -> List.find p l = Some e ->
  p e = true /\ e ∈ l /\ forall d, d ∈ l -> p d = true -> e.1 <= d.1.
Proof.
  intros S. induction S as [|x l S IH F]; cbn; [done|]. destruct (p x) eqn:E.
  - intros [= <-]. split_and!; [done|by left|]. intros d [->|H]%elem_of_cons _; [lia|]. rewrite Forall_forall in F. by apply F.
  - intros H. destruct (IH H) as (P & I & M). split_and!; [done|by right|]. intros d [->|Hd]%elem_of_cons Pd; [congruence|by apply M].
Qed.

(** The oldest finished run: none is older, and there is one when not every
    run is active. *)
Lemma oldest_spec f id : first_oldest_finished f = Some id ->
  exists r, fm_runs f !! id = Some r /\ run_active r = false
  /\ forall j s, fm_runs f !! j = Some s -> run_active s = false -> id <= j.
Proof.
  unfold first_oldest_finished. destruct (List.find _ _) as [[i r]|] eqn:F; [|done]. intros [= <-].
  apply find_sorted in F as (P & I & M); [|apply StronglySorted_merge_sort; [apply run_le_trans|apply _]].
  apply ordered_entry in I. exists r. cbn in *. split_and!; [done|by destruct (run_active r)|]. intros j s Hj Hs.
  apply (M (j, s)); [by apply ordered_entry|cbn; by rewrite Hs].
Qed.
Lemma oldest_exists f : (active_count f < size (fm_runs f))%nat -> exists id, first_oldest_finished f = Some id.
Proof.
  intros L. unfold first_oldest_finished. destruct (List.find _ _) as [[i r]|] eqn:F; [by eexists|]. exfalso.
  assert (E : List.filter (fun e => run_active e.2) (map_to_list (fm_runs f)) = map_to_list (fm_runs f)).
  { assert (P : forall e, e ∈ map_to_list (fm_runs f) -> run_active e.2 = true).
    { intros [i r] H. pose proof (List.find_none _ _ F (i, r)) as N. cbn in *. destruct (run_active r); [done|]. exfalso.
      apply (f_equal negb) in N; [done|]. apply list_elem_of_In. unfold ordered. by rewrite merge_sort_Permutation. }
    induction (map_to_list (fm_runs f)) as [|e l IH]; [done|]. cbn. rewrite P by left. f_equal. apply IH. intros d Hd. apply P. by right. }
  unfold active_count in L. rewrite E, length_map_to_list in L. lia.
Qed.

(** What pruning removes: the oldest finished run of a full family. *)
Definition oldest_finished f id : Prop := exists r, fm_runs f !! id = Some r /\ run_active r = false
  /\ forall j s, fm_runs f !! j = Some s -> run_active s = false -> id <= j.

Lemma prune_spec f : family_ok f -> (active_count f < SCENARIO_FAMILY_CAPACITY)%nat ->
  (prune f = f /\ (size (fm_runs f) < SCENARIO_FAMILY_CAPACITY)%nat)
  \/ exists id, oldest_finished f id /\ prune f = remove_run id f /\ size (fm_runs f) = SCENARIO_FAMILY_CAPACITY.
Proof.
  intros [B _] L. unfold prune. destruct (Nat.leb_spec SCENARIO_FAMILY_CAPACITY (size (fm_runs f))) as [H|H]; [right|by left].
  destruct (oldest_exists f) as [id E]; [lia|]. exists id. rewrite E. split_and!; [by apply oldest_spec|done|lia].
Qed.

Lemma remove_run_ok id f : family_ok f -> family_ok (remove_run id f).
Proof.
  intros [B T]. constructor; cbn.
  - pose proof (map_size_delete id (fm_runs f)). destruct (fm_runs f !! id); cbn in *; lia.
  - rewrite !dom_delete_L. set_solver.
Qed.

Lemma update_ok id change f : family_ok f -> family_ok (update id change f).2.
Proof.
  intros [B T]. unfold update. destruct (fm_runs f !! id) as [r|] eqn:E; [|done]. constructor; cbn.
  - by rewrite map_size_insert_Some.
  - rewrite dom_insert_L. set_solver.
Qed.
Lemma drop_token_ok id f : family_ok f -> family_ok (drop_token id f).
Proof. intros [B T]. constructor; cbn; [done|]. rewrite dom_delete_L. set_solver. Qed.
Lemma take_token_ok id f : family_ok f -> family_ok (take_token id f).2.
Proof. apply drop_token_ok. Qed.
Lemma clear_ok f : family_ok f -> family_ok (set_run_tokens ∅ f).
Proof. intros [B T]. constructor; cbn; [done|]. rewrite dom_empty_L. set_solver. Qed.

Lemma admit_ok id r token f f' : family_ok f -> admit_with_token id r token f = Ok f' -> family_ok f'.
Proof.
  intros F. unfold admit_with_token, admit_run. destruct (Nat.leb_spec SCENARIO_FAMILY_CAPACITY (active_count f)) as [|L]; [done|]. intros [= <-].
  assert (P : family_ok (prune f) /\ (size (fm_runs (prune f)) < SCENARIO_FAMILY_CAPACITY)%nat).
  { destruct (prune_spec f F L) as [[-> S]|(o & (s & Hs & _) & -> & S)]; [done|]. split; [by apply remove_run_ok|]. cbn.
    rewrite map_size_delete_Some by done. lia. }
  destruct P as [[_ T] S]. constructor; cbn.
  - rewrite map_size_insert. destruct (_ !! id); cbn; lia.
  - rewrite !dom_insert_L. set_solver.
Qed.

(** A family of runs is bounded, and admission drops nothing that is
    alive.  A run is refused only when 32 runs of its family are active, and
    then nothing changes.  Otherwise it is recorded with its token, every other
    record stays as it was - except, when the family was full, the oldest of
    the finished ones - and there are never more than 32 records, nor a token
    without its record. *)
Theorem admission_drops_nothing_alive f id r token : family_ok f -> fm_runs f !! id = None ->
  match admit_with_token id r token f with
  | Err _ => (SCENARIO_FAMILY_CAPACITY <= active_count f)%nat
  | Ok f' =>
      (active_count f < SCENARIO_FAMILY_CAPACITY)%nat /\ family_ok f'
      /\ fm_runs f' !! id = Some r /\ fm_tokens f' !! id = Some token
      /\ forall j, j <> id ->
           (fm_runs f' !! j = fm_runs f !! j /\ fm_tokens f' !! j = fm_tokens f !! j)
           \/ (oldest_finished f j /\ size (fm_runs f) = SCENARIO_FAMILY_CAPACITY
               /\ fm_runs f' !! j = None /\ fm_tokens f' !! j = None)
  end.
Proof.
  intros F N. destruct (admit_with_token id r token f) as [f'|e] eqn:E.
  - pose proof (admit_ok _ _ _ _ _ F E) as F'. unfold admit_with_token, admit_run in E.
    destruct (Nat.leb_spec SCENARIO_FAMILY_CAPACITY (active_count f)) as [|L]; [done|]. injection E as <-.
    split_and!; [done|done|cbn; apply lookup_insert_eq..|]. intros j Hj. cbn. rewrite !lookup_insert_ne by done.
    destruct (prune_spec f F L) as [[-> _]|(o & O & -> & S)]; [by left|]. cbn. destruct (decide (o = j)) as [->|Hne].
    + right. split_and!; [done|done|apply lookup_delete_eq..].
    + left. by rewrite !lookup_delete_ne.
  - unfold admit_with_token, admit_run in E. by destruct (Nat.leb_spec SCENARIO_FAMILY_CAPACITY (active_count f)).
Qed.
End Kept.

(** A full family of two finished runs and thirty active ones. *)
Definition run_record (id : Z) (st : ScenarioRunStatus) : ScenarioRunRecord := {|
  sr_run_id := id; sr_seed := 0; sr_status := st; sr_applied := 0; sr_failure := None; sr_trail := [] |}.
Definition full_family : Family ScenarioRunRecord := {|
  fm_runs := list_to_map (map (fun i => (Z.of_nat i, run_record (Z.of_nat i) (if decide (i = 3 \/ i = 7)%nat then ScnCompleted else ScnRunning))) (seq 1 32));
  fm_tokens := ∅ |}.
Lemma admission_drops_nothing_alive_witness :
  exists f', admit_with_token 33 (run_record 33 ScnPending) 5 full_family = Ok f' /\ fm_runs f' !! 3 = None
    /\ fm_runs f' !! 7 = fm_runs full_family !! 7 /\ family_ok f'.
Proof.
  assert (F : family_ok full_family) by (split; [apply Nat.leb_le; vm_compute; reflexivity|cbn; by rewrite dom_empty_L]).
  assert (N : fm_runs full_family !! 33 = None) by (vm_compute; reflexivity).
  assert (E : exists f', admit_with_token 33 (run_record 33 ScnPending) 5 full_family = Ok f' /\ fm_runs f' !! 3 = None
    /\ fm_runs f' !! 7 = fm_runs full_family !! 7)
    by (eexists; split; [vm_compute; reflexivity|]; split; vm_compute; reflexivity).
  destruct E as (f' & E & E3 & E7). pose proof (admission_drops_nothing_alive full_family 33 (run_record 33 ScnPending) 5 F N) as H.
  rewrite E in H. exists f'. split; [exact E|]. split; [exact E3|]. split; [exact E7|]. apply H.
Defined.
