(* ===== verification/Service.v ===== *)
(** * The service
      ([runtime/control_datagram.rs], the scenario part of [runtime/control.rs],
      [scenario.rs], the target of [scenario_v2/runtime.rs])

    [ControlState] as a whole: the control plane, the datagram runtime and the
    scenario runs, with the operations that go across them.  Each is a process
    over the joint state, so a datagram fault is managed, and a scenario run,
    by the same locks as in the code and in between of anything else. *)

From Stdlib Require Import Bool.
From stdpp Require Import base list gmap strings relations.
From S2P Require Import Prelude Rng Float64 Plan Policy Env DatagramPlan Schedule Fingerprint Target Driver Wire WireSchedule Server Tasks Control UdpState UdpRuntime Scenario.

(** ** State *)

Inductive ScenarioTask :=
| TaskV1 (run : Z) (scenario : Scenario) (token : nat)
| TaskV2 (run : Z) (compiled : CompiledScenarioV2) (token : nat).

Record Service := {
  sx_control : Control;
  sx_datagrams : Datagrams;
  sx_registry : ScenarioRegistry;
  sx_next_run : Z;                       (* next_run_id *)
  sx_tasks : list (option ScenarioTask); (* scenario_tasks: what was spawned; [None] once it runs *)
  sx_ended : list bool                   (* and whether it returned *)
}.
Definition set_sx_control (x : Control) (s : Service) : Service := {|
  sx_control := x; sx_datagrams := sx_datagrams s; sx_registry := sx_registry s; sx_next_run := sx_next_run s;
  sx_tasks := sx_tasks s; sx_ended := sx_ended s |}.
Definition set_sx_datagrams (x : Datagrams) (s : Service) : Service := {|
  sx_control := sx_control s; sx_datagrams := x; sx_registry := sx_registry s; sx_next_run := sx_next_run s;
  sx_tasks := sx_tasks s; sx_ended := sx_ended s |}.
Definition set_sx_registry (x : ScenarioRegistry) (s : Service) : Service := {|
  sx_control := sx_control s; sx_datagrams := sx_datagrams s; sx_registry := x; sx_next_run := sx_next_run s;
  sx_tasks := sx_tasks s; sx_ended := sx_ended s |}.
Definition set_sx_next_run (x : Z) (s : Service) : Service := {|
  sx_control := sx_control s; sx_datagrams := sx_datagrams s; sx_registry := sx_registry s; sx_next_run := x;
  sx_tasks := sx_tasks s; sx_ended := sx_ended s |}.
Definition set_sx_tasks (x : list (option ScenarioTask)) (e : list bool) (s : Service) : Service := {|
  sx_control := sx_control s; sx_datagrams := sx_datagrams s; sx_registry := sx_registry s; sx_next_run := sx_next_run s;
  sx_tasks := x; sx_ended := e |}.

Definition service_new (seed : Z) (limits : DatagramRuntimeLimits) : Service := {|
  sx_control := control_new seed; sx_datagrams := datagrams_new limits; sx_registry := registry_new;
  sx_next_run := 1; sx_tasks := []; sx_ended := [] |}.

Inductive ServiceWait :=
| OnControl (w : Waiting)
| OnDatagrams (w : DatagramWait)
| OnRun (token : nat) (deadline : Instant)   (* the select of a run: cancelled, or slept *)
| OnSpawned (i : nat)                        (* the runtime picks up a task *)
| OnTasks.                                   (* every task has returned *)

(** What else moves.  A schedule run ([TaskV2]) is played by the driver of
    [Driver]: here it is what the others see of it. *)
Inductive ScheduleMove :=
| SmPublish (name : string) (d : Direction) (plan : FaultPlan) (ns expected : Z)
| SmPublishDatagram (name : string) (d : Direction) (plan : DatagramPlan) (ns expected : Z)
| SmBump
| SmEvent (run : Z) (e : ScheduleEventResult)
| SmStatus (run : Z) (status : ScheduleRunStatus) (applied : option Z) (failure : option string) (cleanup : option CleanupOutcome)
| SmForget (run : Z)
| SmEnd (i : nat).
Inductive ServiceEvent :=
| InControl (e : control_event)
| InDatagrams (e : DatagramEvent)
| InSchedule (m : ScheduleMove).

Definition claimable (i : nat) (s : Service) : bool :=
  match sx_tasks s !! i with Some (Some _) => true | _ => false end.
Definition clock (s : Service) : Instant := dr_clock (sx_datagrams s).

Definition service_ready (s : Service) (w : ServiceWait) : bool :=
  match w with
  | OnControl w => ready (sx_control s) w
  | OnDatagrams w => ready (sx_datagrams s) w
  | OnRun token deadline => is_cancelled (sx_control s) token || (deadline <=? clock s)
  | OnSpawned i => claimable i s
  | OnTasks => forallb (fun b => b) (sx_ended s)
  end.

(** ** Processes of the parts *)

Section Embed.
Context {S S' W W' : Type} (get : S' -> S) (put : S -> S' -> S') (wait : W -> W').
(** A process on a part of the state, as a process on the whole. *)
Fixpoint embed {A} (p : process S W A) : process S' W' A :=
  match p with
  | Ret a => Ret a
  | Panic => Panic
  | Step f k => Step (fun s => put (f (get s)) s) (fun s => embed (k (get s)))
  | BindListener addr k => BindListener addr (fun ans => embed (k ans))
  | Await w k => Await (wait w) (embed k)
  end.
End Embed.

Abbreviation sproc := (process Service ServiceWait).
Definition on_control {A} (p : process Control Waiting A) : sproc A := embed sx_control set_sx_control OnControl p.
Definition on_datagrams {A} (p : process Datagrams DatagramWait A) : sproc A := embed sx_datagrams set_sx_datagrams OnDatagrams p.
(** Under the lock of the registry. *)
Definition on_registry {A} (f : ScenarioRegistry -> A * ScenarioRegistry) : sproc A :=
  atomic (fun s => let '(a, r) := f (sx_registry s) in (set_sx_registry r s, Ret a)).

Notation "'do?' x ':=' p 'in' k" := (proc_bind p (fun r => match r with Ok x => k | Err e => Ret (Err e) end))
  (at level 10, x name, p at level 200, k at level 200) : egg_scope.

(** ** Datagram proxies of the service ([control_datagram.rs]) *)

(** [map_err(map_datagram_error)], and the next global generation. *)
Definition with_generation {A} (map : DatagramRuntimeError -> ControlError) (p : dproc (result A DatagramRuntimeError))
    : sproc (result (A * Z) ControlError) :=
  do! r := on_datagrams p in
  match r with
  | Err e => Ret (Err (map e))
  | Ok a => do! g := on_control Control.bump in Ret (Ok (a, g))
  end.

Definition create_datagram_proxy (proxy : DatagramProxySpec) : sproc (result (DatagramProxyView * Z) ControlError) :=
  with_generation map_datagram_error (UdpRuntime.create_proxy proxy).

Definition enable_error (name : string) (e : DatagramRuntimeError) : ControlError :=
  match e with DgBind reason => BindFailed name reason | other => map_datagram_error other end.
Definition set_datagram_proxy_enabled (name : string) (enabled : bool) : sproc (result (DatagramProxyView * Z) ControlError) :=
  if enabled then with_generation (enable_error name) (enable_proxy name)
  else
    do! r := on_datagrams (disable_proxy name) in
    match r with
    | Err e => Ret (Err (map_datagram_error e))
    | Ok _ =>
        do! view := on_datagrams (UdpRuntime.proxy name) in
        match view with
        | None => Ret (Err (ControlNotFound name))
        | Some view => do! g := on_control Control.bump in Ret (Ok (view, g))
        end
    end.

Definition update_error (name : string) (e : DatagramRuntimeError) : ControlError :=
  match e with
  | DgBind reason => RestartFailed name ("replacement listener was not bound; existing definition remains active: " +:+ reason)
  | other => map_datagram_error other
  end.
(** The wire timeout is in milliseconds. *)
Record DatagramProxyUpdate := {
  du_listen : option SocketAddr;
  du_upstream : option SocketAddr;
  du_max_associations : option Z;
  du_idle_timeout_ms : option Z;
  du_enabled : option bool
}.
Definition runtime_update (u : DatagramProxyUpdate) : DatagramUpdate := {|
  up_listen := du_listen u; up_upstream := du_upstream u; up_max_associations := du_max_associations u;
  up_idle_timeout := duration_from_millis <$> du_idle_timeout_ms u; up_enabled := du_enabled u |}.
Definition update_datagram_proxy (name : string) (u : DatagramProxyUpdate) : sproc (result (DatagramProxyView * Z) ControlError) :=
  if match du_idle_timeout_ms u with Some t => (t =? 0) || (86400000 <? t) | None => false end
  then Ret (Err (ControlInvalid "association_idle_timeout_ms must be in 1..=86400000"))
  else with_generation (update_error name) (UdpRuntime.update_proxy name (runtime_update u)).

Definition delete_datagram_proxy (name : string) : sproc (result Z ControlError) :=
  do! found := on_datagrams (UdpRuntime.delete_proxy name) in
  if negb found then Ret (Err (ControlNotFound name))
  else do! g := on_control Control.bump in Ret (Ok g).

Definition get_datagram_plan (name : string) (d : Direction) : sproc (result (DatagramPlan * Z * Z) ControlError) :=
  do! r := on_datagrams (fault_plan name d) in
  Ret (match r with Some x => Ok x | None => Err (ControlNotFound name) end).
(** The generation of the policy is dropped: the answer is the global one. *)
Definition publish_datagram_plan (name : string) (d : Direction) (plan : DatagramPlan) (ns : Z) (expected : option Z)
    : sproc (result Z ControlError) :=
  do! r := on_datagrams (publish_fault_plan name d plan ns expected) in
  match r with
  | Err e => Ret (Err (map_datagram_error e))
  | Ok _ => do! g := on_control Control.bump in Ret (Ok g)
  end.

Definition other_direction (d : Direction) : Direction := match d with Upstream => Downstream | Downstream => Upstream end.
Definition has_fault (id : string) (fs : list DatagramFaultSpec) : bool := existsb (fun f => bool_decide (dg_id f = id)) fs.
Definition find_fault (id : string) (fs : list DatagramFaultSpec) : option DatagramFaultSpec :=
  List.find (fun f => bool_decide (dg_id f = id)) fs.
Definition without_id (id : string) (fs : list DatagramFaultSpec) : list DatagramFaultSpec :=
  List.filter (fun f => negb (bool_decide (dg_id f = id))) fs.
Definition not_unique : ControlError := ControlConflict "datagram fault id must be unique across directions for path lookup".

(** [is_ok_and]: an error counts as no. *)
Definition other_has (name : string) (d : Direction) (id : string) : sproc bool :=
  do! other := get_datagram_plan name (other_direction d) in
  Ret (match other with Ok (plan, _, _) => has_fault id (dp_faults plan) | Err _ => false end).

(** The duplicate that was published after all is taken back, if nobody has
    published since. *)
Definition take_back (name : string) (d : Direction) (id : string) : sproc (result unit ControlError) :=
  do? found := get_datagram_plan name d in
  let '(current, generation, seed) := found in
  match dplan_new (without_id id (dp_faults current)) with
  | Ok rolled_back => do! _r := publish_datagram_plan name d rolled_back seed (Some generation) in Ret (Ok tt)
  | Err _ => Ret (Ok tt)
  end.

Definition add_datagram_fault (name : string) (d : Direction) (fault : DatagramFaultSpec)
    : sproc (result (Direction * DatagramFaultSpec * Z) ControlError) :=
  do? found := get_datagram_plan name d in
  let '(plan, generation, seed) := found in
  if has_fault (dg_id fault) (dp_faults plan) then Ret (Err (ControlConflict "datagram fault already exists"))
  else
    do! taken := other_has name d (dg_id fault) in
    if taken then Ret (Err not_unique)
    else
      match dplan_new (dp_faults plan ++ [fault]) with
      | Err e => Ret (Err (ControlInvalid e))
      | Ok plan =>
          do? next := publish_datagram_plan name d plan seed (Some generation) in
          do! taken := other_has name d (dg_id fault) in
          if taken then do? _t := take_back name d (dg_id fault) in Ret (Err not_unique)
          else Ret (Ok (d, fault, next))
      end.

(** Search upstream, then downstream. *)
Definition get_datagram_fault (name id : string) : sproc (option (Direction * DatagramFaultSpec)) :=
  let faults_of (r : result (DatagramPlan * Z * Z) ControlError) := match r with Ok (plan, _, _) => dp_faults plan | Err _ => [] end in
  do! up := get_datagram_plan name Upstream in
  match find_fault id (faults_of up) with
  | Some fault => Ret (Some (Upstream, fault))
  | None =>
      do! down := get_datagram_plan name Downstream in
      Ret (option_map (fun fault => (Downstream, fault)) (find_fault id (faults_of down)))
  end.
Definition list_datagram_faults (name : string) : sproc (option (list DatagramFaultSpec * list DatagramFaultSpec)) :=
  do! up := get_datagram_plan name Upstream in
  match up with
  | Err _ => Ret None
  | Ok (up, _, _) =>
      do! down := get_datagram_plan name Downstream in
      Ret (match down with Ok (down, _, _) => Some (dp_faults up, dp_faults down) | Err _ => None end)
  end.

(** The first match is overwritten. *)
Fixpoint overwrite_fault (next : DatagramFaultSpec) (fs : list DatagramFaultSpec) : list DatagramFaultSpec :=
  match fs with
  | [] => []
  | f :: fs => if bool_decide (dg_id f = dg_id next) then next :: fs else f :: overwrite_fault next fs
  end.
Record DatagramFaultPatch := { dpt_probability : option f64; dpt_kind : option DatagramFaultKind }.
Definition patched_fault (patch : DatagramFaultPatch) (fault : DatagramFaultSpec) : result DatagramFaultSpec ControlError :=
  let? probability := match dpt_probability patch with
                      | Some p => map_err ControlInvalid (wire_probability p)
                      | None => Ok (dg_probability fault)
                      end in
  Ok {| dg_id := dg_id fault; dg_probability := probability; dg_kind := default (dg_kind fault) (dpt_kind patch) |}.

Definition no_datagram_fault (id name : string) : ControlError := ControlNotFound ("fault " +:+ id +:+ " on " +:+ name).

(** One turn of the loop over the directions; [k] is the next. *)
Definition edit_direction {A} (name id : string) (edit : DatagramFaultSpec -> list DatagramFaultSpec -> result (A * list DatagramFaultSpec) ControlError)
    (d : Direction) (k : sproc (result (Direction * A * Z) ControlError)) : sproc (result (Direction * A * Z) ControlError) :=
  do! found := get_datagram_plan name d in
  match found with
  | Err _ => k
  | Ok (plan, generation, seed) =>
      match find_fault id (dp_faults plan) with
      | None => k
      | Some fault =>
          match edit fault (dp_faults plan) with
          | Err e => Ret (Err e)
          | Ok (a, fs) =>
              match dplan_new fs with
              | Err e => Ret (Err (ControlInvalid e))
              | Ok plan =>
                  do? next := publish_datagram_plan name d plan seed (Some generation) in
                  Ret (Ok (d, a, next))
              end
          end
      end
  end.
Definition edit_fault {A} (name id : string) (edit : DatagramFaultSpec -> list DatagramFaultSpec -> result (A * list DatagramFaultSpec) ControlError)
    : sproc (result (Direction * A * Z) ControlError) :=
  edit_direction name id edit Upstream (edit_direction name id edit Downstream (Ret (Err (no_datagram_fault id name)))).

Definition update_datagram_fault (name id : string) (patch : DatagramFaultPatch)
    : sproc (result (Direction * DatagramFaultSpec * Z) ControlError) :=
  if is_none (dpt_probability patch) && is_none (dpt_kind patch)
  then Ret (Err (ControlInvalid "fault patch must include probability or kind"))
  else if match dpt_probability patch with Some p => negb (probability_in_range p) | None => false end
  then Ret (Err (ControlInvalid "probability must be finite and between 0 and 1"))
  else edit_fault name id (fun fault fs => let? next := patched_fault patch fault in Ok (next, overwrite_fault next fs)).
Definition remove_datagram_fault (name id : string) : sproc (result (Direction * Z) ControlError) :=
  do? r := edit_fault name id (fun _ fs => Ok (tt, without_id id fs)) in
  let '(d, _, next) := r in Ret (Ok (d, next)).

(** ** Validation of scenarios ([validate_scenario]) *)

Inductive ScenarioError :=
| ScenarioInvalid (message : string)     (* [EggchaosError::InvalidProxy] *)
| ScenarioPlan (e : ValidationError)
| ScenarioControl (e : ControlError)
| ScenarioSchedule (e : ScheduleError).  (* a schedule that does not compile, as [Control(Invalid(..))] *)

Definition shares_id (a b : list DatagramFaultSpec) : bool := existsb (fun f => has_fault (dg_id f) b) a.
Definition invalid_fault_id (e : ValidationError) : ScenarioError := ScenarioInvalid ("invalid fault id: " +:+ validation_error_display e).
Definition across_directions : string := "datagram fault IDs must be unique across directions".

Definition snapshot_or_missing (proxy : string) : sproc (result (PublishedPolicy FaultPlan * PublishedPolicy FaultPlan) ScenarioError) :=
  do! found := on_control (snapshot_policies proxy) in
  Ret (match found with Some x => Ok x | None => Err (ScenarioInvalid "scenario proxy not found") end).
Definition plan_or_control (proxy : string) (d : Direction) : sproc (result (DatagramPlan * Z * Z) ScenarioError) :=
  do! found := get_datagram_plan proxy d in Ret (map_err ScenarioControl found).
Definition directional_plan (d : Direction) (both : PublishedPolicy FaultPlan * PublishedPolicy FaultPlan) : PublishedPolicy FaultPlan :=
  match d with Upstream => both.1 | Downstream => both.2 end.

Definition validate_action (action : ScenarioAction) : sproc (result unit ScenarioError) :=
  match action with
  | SetDatagramPlan proxy d fs =>
      match dplan_new fs with
      | Err e => Ret (Err (ScenarioInvalid e))
      | Ok _ =>
          do! view := on_datagrams (UdpRuntime.proxy proxy) in
          match view with
          | None => Ret (Err (ScenarioInvalid "scenario datagram proxy not found"))
          | Some _ =>
              do? found := plan_or_control proxy (other_direction d) in
              if shares_id fs (dp_faults found.1.1) then Ret (Err (ScenarioInvalid across_directions)) else Ret (Ok tt)
          end
      end
  | RemoveDatagramFault proxy d id =>
      match fault_id_new id with
      | Err e => Ret (Err (invalid_fault_id e))
      | Ok _ =>
          do? found := plan_or_control proxy d in
          if has_fault id (dp_faults found.1.1) then Ret (Ok tt)
          else Ret (Err (ScenarioInvalid ("scenario datagram fault " +:+ id +:+ " not present on " +:+ proxy)))
      end
  | SetPlan proxy d fs =>
      match plan_new fs with
      | Err e => Ret (Err (ScenarioPlan e))
      | Ok _ => do? _both := snapshot_or_missing proxy in Ret (Ok tt)
      end
  | RemoveFault proxy d id =>
      match fault_id_new id with
      | Err e => Ret (Err (invalid_fault_id e))
      | Ok _ =>
          do? both := snapshot_or_missing proxy in
          if is_none (plan_get (pub_plan (directional_plan d both)) id)
          then Ret (Err (ScenarioInvalid ("scenario fault " +:+ id +:+ " not present on " +:+ proxy)))
          else Ret (Ok tt)
      end
  end.
Fixpoint validate_events (previous : Z) (events : list ScenarioEvent) : sproc (result unit ScenarioError) :=
  match events with
  | [] => Ret (Ok tt)
  | event :: events =>
      if sn_at_ms event <? previous then Ret (Err (ScenarioInvalid "scenario events must be ordered"))
      else do? _u := validate_action (sn_action event) in validate_events (sn_at_ms event) events
  end.
Definition validate_scenario (scenario : Scenario) : sproc (result unit ScenarioError) :=
  if negb (sn_version scenario =? 1) then Ret (Err (ScenarioInvalid "unsupported scenario version"))
  else if 1024 <? zlen (sn_events scenario) then Ret (Err (ScenarioInvalid "too many scenario events"))
  else validate_events 0 (sn_events scenario).

(** ** Runs of scenarios *)

Definition update_scenario_run (run : Z) (change : ScenarioRunRecord -> ScenarioRunRecord) : sproc bool :=
  on_registry (fun r => let '(b, f) := update run change (rg_v1 r) in (b, set_v1 f r)).
Definition remove_scenario_token (run : Z) : sproc unit :=
  on_registry (fun r => (tt, set_v1 (drop_token run (rg_v1 r)) r)).
Definition get_scenario (run : Z) : sproc (option ScenarioRunRecord) :=
  on_registry (fun r => (fm_runs (rg_v1 r) !! run, r)).

Definition fail_run (run : Z) (message : string) : sproc unit :=
  do! _u := update_scenario_run run (set_sr_failed message) in remove_scenario_token run.

(** *** One event

    The answer is the entry of the trail, or the message the run fails with. *)

Definition action_target (action : ScenarioAction) : string * Direction :=
  match action with
  | SetPlan proxy d _ | RemoveFault proxy d _ | SetDatagramPlan proxy d _ | RemoveDatagramFault proxy d _ => (proxy, d)
  end.
Definition not_found (proxy : string) : string := "scenario proxy " +:+ proxy +:+ " not found".
Definition datagram_not_found (proxy : string) (e : ControlError) : string :=
  "scenario datagram proxy " +:+ proxy +:+ " not found: " +:+ control_error_display e.
Definition plan_or_fail (proxy : string) (d : Direction) : sproc (result (DatagramPlan * Z * Z) string) :=
  do! found := get_datagram_plan proxy d in Ret (map_err (datagram_not_found proxy) found).
Definition both_generations (d : Direction) (own other : Z) : Z * Z :=
  match d with Upstream => (own, other) | Downstream => (other, own) end.

Section Event.
Context (seed run index : Z) (event : ScenarioEvent) (proxy : string) (d : Direction).

Definition trail_entry (action : string) (global : Z) (generations : Z * Z) : ScenarioEventResult := {|
  se_index := index; se_at_ms := sn_at_ms event; se_action := action; se_proxy := proxy; se_direction := d;
  se_global_generation := global; se_upstream_generation := generations.1; se_downstream_generation := generations.2 |}.
Definition event_failed (e : ControlError) : string := "scenario event failed: " +:+ control_error_display e.

(** The faults to publish, and the summary. *)
Definition next_datagram_faults (base : DatagramPlan) : sproc (result (list DatagramFaultSpec * string) string) :=
  match sn_action event with
  | SetDatagramPlan _ _ replacement =>
      match dplan_new replacement with
      | Err e => Ret (Err ("scenario datagram plan invalid: " +:+ e))
      | Ok plan =>
          do? other := plan_or_fail proxy (other_direction d) in
          if shares_id replacement (dp_faults other.1.1) then Ret (Err across_directions)
          else Ret (Ok (dp_faults plan, "set-datagram-plan"%string))
      end
  | RemoveDatagramFault _ _ id =>
      if negb (has_fault id (dp_faults base))
      then Ret (Err ("scenario datagram fault " +:+ id +:+ " not present on " +:+ proxy))
      else Ret (Ok (without_id id (dp_faults base), "remove-datagram-fault"%string))
  | _ => Panic
  end.

(** After a plan was set: whether the directions share an id now, in which
    case the plan the event found is put back. *)
Definition recheck (base : DatagramPlan) : sproc bool :=
  do! other := get_datagram_plan proxy (other_direction d) in
  match other with
  | Err _ => Ret false
  | Ok (other, _, _) =>
      do! own := get_datagram_plan proxy d in
      match own with
      | Err _ => Ret false
      | Ok (own, _, _) =>
          if shares_id (dp_faults own) (dp_faults other)
          then
            do! now := get_datagram_plan proxy d in
            match now with
            | Err _ => Ret true
            | Ok (_, own_generation, own_seed) =>
                do! _r := publish_datagram_plan proxy d base own_seed (Some own_generation) in Ret true
            end
          else Ret false
      end
  end.
Definition is_set (action : ScenarioAction) : bool := match action with SetDatagramPlan _ _ _ => true | _ => false end.

Definition datagram_event : sproc (result ScenarioEventResult string) :=
  do? found := plan_or_fail proxy d in
  let '(base, expected, _) := found in
  do? next := next_datagram_faults base in
  let '(fs, summary) := next in
  match dplan_new fs with
  | Err e => Ret (Err ("scenario datagram plan invalid: " +:+ e))
  | Ok plan =>
      do! published := publish_datagram_plan proxy d plan (derive_policy_seed seed run index) (Some expected) in
      match published with
      | Err e => Ret (Err (event_failed e))
      | Ok generation =>
          do! duplicate := (if is_set (sn_action event) then recheck base else Ret false) in
          if duplicate then Ret (Err across_directions)
          else
            do! other := get_datagram_plan proxy (other_direction d) in
            match other with
            | Err _ => Ret (Err (not_found proxy))
            | Ok (_, other_generation, _) =>
                do! global := on_control generation_now in
                Ret (Ok (trail_entry summary global (both_generations d generation other_generation)))
            end
      end
  end.

Definition next_stream_plan (base : FaultPlan) : option (result (FaultPlan * string) string) :=
  match sn_action event with
  | SetPlan _ _ fs =>
      Some match plan_new fs with
           | Err e => Err ("scenario plan invalid: " +:+ validation_error_display e)
           | Ok next => Ok (next, "set-plan"%string)
           end
  | RemoveFault _ _ id =>
      Some (if is_none (plan_get base id) then Err ("scenario fault " +:+ id +:+ " not present on " +:+ proxy)
            else Ok (without_fault base id, "remove-fault"%string))
  | _ => None   (* [unreachable!] *)
  end.
Definition stream_event : sproc (result ScenarioEventResult string) :=
  do! found := on_control (snapshot_policies proxy) in
  match found with
  | None => Ret (Err (not_found proxy))
  | Some both =>
      let base := directional_plan d both in
      match next_stream_plan (pub_plan base) with
      | None => Panic
      | Some (Err e) => Ret (Err e)
      | Some (Ok (plan, summary)) =>
          do! published := on_control (publish_direction_expected proxy d plan (derive_policy_seed seed run index) (generation base)) in
          Ret (match published with
               | Err e => Err (event_failed e)
               | Ok (global, own) =>
                   Ok (trail_entry summary global (both_generations d own (generation (directional_plan (other_direction d) both))))
               end)
      end
  end.

Definition scenario_event : sproc (result ScenarioEventResult string) :=
  match sn_action event with
  | SetDatagramPlan _ _ _ | RemoveDatagramFault _ _ _ => datagram_event
  | SetPlan _ _ _ | RemoveFault _ _ _ => stream_event
  end.
End Event.

(** *** The driver ([drive_scenario_run]) *)

Fixpoint drive_events (seed run : Z) (token : nat) (index previous : Z) (events : list ScenarioEvent) : sproc unit :=
  match events with
  | [] => do! _u := update_scenario_run run (set_sr_status ScnCompleted) in remove_scenario_token run
  | event :: events =>
      do! now := observe clock in
      Await (OnRun token (now + duration_from_millis (sat_sub (sn_at_ms event) previous)))
        (do! cancelled := observe (fun s => is_cancelled (sx_control s) token) in
         if cancelled
         then do! _u := update_scenario_run run (set_sr_status ScnCancelled) in remove_scenario_token run
         else
           let '(proxy, d) := action_target (sn_action event) in
           do! applied := scenario_event seed run index event proxy d in
           match applied with
           | Err message => fail_run run message
           | Ok entry =>
               do! _u := update_scenario_run run (add_sr_event entry) in
               drive_events seed run token (index + 1) (sn_at_ms event) events
           end)
  end.
Definition drive_scenario_run (run : Z) (scenario : Scenario) (token : nat) : sproc unit :=
  do! _u := update_scenario_run run (set_sr_status ScnRunning) in
  drive_events (sn_seed scenario) run token 0 0 (sn_events scenario).

(** *** Starting and cancelling *)

Definition too_many_runs : ControlError := ControlConflict "too many active scenario runs".
Definition allocate_run : sproc Z := atomic (fun s => (set_sx_next_run (wadd (sx_next_run s) 1) s, Ret (sx_next_run s))).
Definition spawn_task (t : ScenarioTask) : sproc unit :=
  atomic (fun s => (set_sx_tasks (sx_tasks s ++ [Some t]) (sx_ended s ++ [false]) s, Ret tt)).

Definition start_scenario (scenario : Scenario) : sproc (result ScenarioRunRecord ScenarioError) :=
  do? _v := validate_scenario scenario in
  do! run := allocate_run in
  let record := {| sr_run_id := run; sr_seed := sn_seed scenario; sr_status := ScnPending; sr_applied := 0;
                   sr_failure := None; sr_trail := [] |} in
  do! token := on_control fresh_scope in
  do! admitted := on_registry (fun r =>
    match admit_with_token run record token (rg_v1 r) with
    | Ok f => (true, set_v1 f r)
    | Err _ => (false, r)
    end) in
  if negb admitted then Ret (Err (ScenarioControl too_many_runs))
  else do! _u := spawn_task (TaskV1 run scenario token) in Ret (Ok record).

Definition cancel_run_token (token : option nat) (k : sproc unit) : sproc unit :=
  match token with
  | None => Ret tt
  | Some token => do! _u := on_control (atomic (fun c => (cancel_token token c, Ret tt))) in k
  end.
Definition cancelling (r : ScenarioRunRecord) : ScenarioRunRecord :=
  match sr_status r with ScnPending | ScnRunning => set_sr_status ScnCancelling r | _ => r end.
Definition cancel_scenario (run : Z) : sproc (option ScenarioRunRecord) :=
  do! token := on_registry (fun r => let '(t, f) := take_token run (rg_v1 r) in (t, set_v1 f r)) in
  do! _u := cancel_run_token token (do! _b := update_scenario_run run cancelling in Ret tt) in
  get_scenario run.

(** ** Schedules ([start_schedule_v2] and what a run does to its record) *)

Definition set_rr_status (st : ScheduleRunStatus) (r : ScenarioScheduleRunRecord) : ScenarioScheduleRunRecord := {|
  rr_run_id := rr_run_id r; rr_seed := rr_seed r; rr_execution_key := rr_execution_key r;
  rr_schedule_fingerprint := rr_schedule_fingerprint r; rr_compiler_semantics_version := rr_compiler_semantics_version r;
  rr_isolation := rr_isolation r; rr_cleanup_policy := rr_cleanup_policy r; rr_status := st; rr_applied := rr_applied r;
  rr_failure := rr_failure r; rr_events := rr_events r; rr_cleanup := rr_cleanup r |}.
Definition set_rr_outcome (st : ScheduleRunStatus) (applied : option Z) (failure : option string) (cleanup : option CleanupOutcome)
    (r : ScenarioScheduleRunRecord) : ScenarioScheduleRunRecord := {|
  rr_run_id := rr_run_id r; rr_seed := rr_seed r; rr_execution_key := rr_execution_key r;
  rr_schedule_fingerprint := rr_schedule_fingerprint r; rr_compiler_semantics_version := rr_compiler_semantics_version r;
  rr_isolation := rr_isolation r; rr_cleanup_policy := rr_cleanup_policy r; rr_status := st; rr_applied := default (rr_applied r) applied;
  rr_failure := match failure with Some e => Some e | None => rr_failure r end; rr_events := rr_events r;
  rr_cleanup := match cleanup with Some c => Some c | None => rr_cleanup r end |}.
Definition add_rr_event (e : ScheduleEventResult) (r : ScenarioScheduleRunRecord) : ScenarioScheduleRunRecord := {|
  rr_run_id := rr_run_id r; rr_seed := rr_seed r; rr_execution_key := rr_execution_key r;
  rr_schedule_fingerprint := rr_schedule_fingerprint r; rr_compiler_semantics_version := rr_compiler_semantics_version r;
  rr_isolation := rr_isolation r; rr_cleanup_policy := rr_cleanup_policy r; rr_status := rr_status r;
  rr_applied := rr_applied r + 1; rr_failure := rr_failure r; rr_events := rr_events r ++ [e]; rr_cleanup := rr_cleanup r |}.

Definition update_v2 (run : Z) (change : ScenarioScheduleRunRecord -> ScenarioScheduleRunRecord) (r : ScenarioRegistry) : bool * ScenarioRegistry :=
  let '(b, f) := update run change (rg_v2 r) in (b, set_v2 f r).
Definition append_schedule_v2_event (run : Z) (e : ScheduleEventResult) : sproc bool := on_registry (update_v2 run (add_rr_event e)).
Definition get_schedule_v2 (run : Z) : sproc (option ScenarioScheduleRunRecord) := on_registry (fun r => (fm_runs (rg_v2 r) !! run, r)).

Definition start_schedule_v2 (sha256 : bytes -> bytes) (source : ScenarioScheduleV2) : sproc (result ScenarioScheduleRunRecord ScenarioError) :=
  match compile_schedule source with
  | Err e => Ret (Err (ScenarioSchedule e))
  | Ok compiled =>
      do! run := allocate_run in
      let record := {|
        rr_run_id := run; rr_seed := src_seed source; rr_execution_key := src_execution_key source;
        rr_schedule_fingerprint := compiled_fingerprint sha256 compiled;
        rr_compiler_semantics_version := cp_compiler_semantics_version compiled; rr_isolation := src_isolation source;
        rr_cleanup_policy := src_cleanup source; rr_status := RunPending; rr_applied := 0; rr_failure := None;
        rr_events := []; rr_cleanup := None |} in
      do! token := on_control fresh_scope in
      do! admitted := on_registry (fun r =>
        match admit_with_token run record token (rg_v2 r) with
        | Ok f => (true, set_v2 f r)
        | Err _ => (false, r)
        end) in
      if negb admitted then Ret (Err (ScenarioControl too_many_runs))
      else do! _u := spawn_task (TaskV2 run compiled token) in Ret (Ok record)
  end.
Definition cancelling_v2 (r : ScenarioScheduleRunRecord) : ScenarioScheduleRunRecord :=
  match rr_status r with RunPending | RunRunning => set_rr_status RunCancelling r | _ => r end.
Definition cancel_schedule_v2 (run : Z) : sproc (option ScenarioScheduleRunRecord) :=
  do! token := on_registry (fun r => let '(t, f) := take_token run (rg_v2 r) in (t, set_v2 f r)) in
  do! _u := cancel_run_token token (do! _b := on_registry (update_v2 run cancelling_v2) in Ret tt) in
  get_schedule_v2 run.

(** ** The service as a target of schedules ([ControlStateTarget]) *)

Definition stream_missing (r : ScheduleResource) : TargetError := missing ("stream proxy " +:+ rs_proxy r +:+ " not found").
Definition datagram_missing (r : ScheduleResource) : TargetError := missing ("datagram proxy " +:+ rs_proxy r +:+ " not found").

Definition target_snapshot (r : ScheduleResource) : sproc (result TargetSnapshot TargetError) :=
  match rs_transport r with
  | StreamTransport =>
      do! found := on_control (snapshot_policies (rs_proxy r)) in
      Ret (match found with
           | None => Err (stream_missing r)
           | Some both => let p := directional_plan (rs_direction r) both in
                          Ok {| ts_generation := generation p; ts_plan := StreamPlan (pub_plan p) |}
           end)
  | DatagramTransport =>
      do! found := get_datagram_plan (rs_proxy r) (rs_direction r) in
      Ret (match found with
           | Err _ => Err (datagram_missing r)
           | Ok (plan, g, _) => Ok {| ts_generation := g; ts_plan := DatagramPlanOf plan |}
           end)
  end.

(** [datagram_current_generations]: upstream, then downstream. *)
Definition datagram_generations (name : string) : sproc (option (Z * Z)) :=
  do! up := on_datagrams (fault_plan name Upstream) in
  match up with
  | None => Ret None
  | Some (_, g_up, _) =>
      do! down := on_datagrams (fault_plan name Downstream) in
      Ret (option_map (fun x => (g_up, x.1.2)) down)
  end.
Definition pick (d : Direction) (both : Z * Z) : Z := match d with Upstream => both.1 | Downstream => both.2 end.
Definition target_generation (r : ScheduleResource) : sproc (result Z TargetError) :=
  match rs_transport r with
  | StreamTransport =>
      do! found := on_control (Control.current_generations (rs_proxy r)) in
      Ret (match found with None => Err (stream_missing r) | Some both => Ok (pick (rs_direction r) both) end)
  | DatagramTransport =>
      do! found := datagram_generations (rs_proxy r) in
      Ret (match found with None => Err (datagram_missing r) | Some both => Ok (pick (rs_direction r) both) end)
  end.

Definition map_publish_error (r : ScheduleResource) (expected : Z) (e : ControlError) : sproc TargetError :=
  match e with
  | ControlNotFound _ => Ret (missing ("proxy " +:+ rs_proxy r +:+ " not found"))
  | ControlInvalid detail => Ret (invalid detail)
  | ControlConflict _ =>
      do! found := target_generation r in
      Ret (GenerationConflict expected (match found with Ok g => g | Err _ => expected end))
  | BindFailed _ reason | RestartFailed _ reason => Ret (internal reason)
  end.

(** The receipt of a datagram publication is read back from the proxy. *)
Definition target_publish (r : ScheduleResource) (expected : Z) (plan : TargetPlan) (ns : Z) : sproc (result PublishReceipt TargetError) :=
  match plan, rs_transport r with
  | StreamPlan plan, StreamTransport =>
      do! published := on_control (publish_direction_expected (rs_proxy r) (rs_direction r) plan ns expected) in
      match published with
      | Ok (_, g) => Ret (Ok {| rc_generation := g |})
      | Err e => do! e := map_publish_error r expected e in Ret (Err e)
      end
  | DatagramPlanOf plan, DatagramTransport =>
      do! published := publish_datagram_plan (rs_proxy r) (rs_direction r) plan ns (Some expected) in
      match published with
      | Ok _ =>
          do! found := get_datagram_plan (rs_proxy r) (rs_direction r) in
          Ret (match found with
               | Ok (_, g, _) => Ok {| rc_generation := g |}
               | Err e => Err (missing (control_error_display e))
               end)
      | Err e => do! e := map_publish_error r expected e in Ret (Err e)
      end
  | _, _ => Ret (Err (unsupported "plan/transport mismatch"))
  end.

(** An operation nobody interrupts; none of them awaits. *)
Definition at_once {A} (p : sproc (result A TargetError)) (s : Service) : result A TargetError * Service :=
  match alone p s with Some (r, s) => (r, s) | None => (Err (Internal EmptyString), s) end.
#[export] Instance Service_target : PolicyTarget Service := {
  pt_capabilities _ := {| cap_stream := true; cap_datagram := true |};
  pt_snapshot s r := (at_once (target_snapshot r) s).1;
  pt_current_generation s r := (at_once (target_generation r) s).1;
  pt_publish s r expected plan ns := at_once (target_publish r expected plan ns) s;
  pt_global_generation s := rt_generation (sx_control s)
}.

(** ** Reset

    The streams first; then every datagram proxy that was there when they were
    listed. *)

(** The empty plan in one direction; a conflict is tried once more. *)
Definition clear_published (name : string) (d : Direction) (again : sproc (result unit ControlError)) : sproc (result unit ControlError) :=
  do! found := on_datagrams (fault_plan name d) in
  match found with
  | None => Ret (Ok tt)
  | Some (_, generation, seed) =>
      do! published := on_datagrams (publish_fault_plan name d dplan_empty seed (Some generation)) in
      match published with
      | Ok _ => Ret (Ok tt)
      | Err (DgConflict _) => again
      | Err e => Ret (Err (map_datagram_error e))
      end
  end.
(** The second conflict is the answer of the reset. *)
Definition clear_datagram_direction (name : string) (d : Direction) : sproc (result unit ControlError) :=
  clear_published name d
    (do! found := on_datagrams (fault_plan name d) in
     match found with
     | None => Ret (Ok tt)
     | Some (_, fresh, fresh_seed) =>
         do! published := on_datagrams (publish_fault_plan name d dplan_empty fresh_seed (Some fresh)) in
         Ret (match published with Ok _ => Ok tt | Err e => Err (map_datagram_error e) end)
     end).
Fixpoint kill_associations (ids : list Z) : sproc unit :=
  match ids with
  | [] => Ret tt
  | id :: ids => do! _k := on_datagrams (kill_association id) in kill_associations ids
  end.
Definition ids_of_proxy (name : string) (vs : list DatagramAssociationSnapshot) : list Z :=
  map snapshot_id (List.filter (fun v => bool_decide (ar_proxy (av_record v) = name)) vs).
Fixpoint reset_datagrams (views : list DatagramProxyView) (failed : list string) : sproc (result (list string) ControlError) :=
  match views with
  | [] => Ret (Ok failed)
  | view :: views =>
      let name := dv_name view in
      do! live := on_datagrams associations in
      do! _k := kill_associations (ids_of_proxy name live) in
      do? _up := clear_datagram_direction name Upstream in
      do? _down := clear_datagram_direction name Downstream in
      if dv_running view then reset_datagrams views failed
      else
        do! enabled := on_datagrams (enable_proxy name) in
        reset_datagrams views (if is_ok enabled then failed else failed ++ [name])
  end.
Record ServiceResetReport := { rp_generation : Z; rp_reset : bool; rp_failed_enables : list string; rp_failed_datagram_enables : list string }.
Definition service_reset : sproc (result ServiceResetReport ControlError) :=
  do! failed := on_control reset_streams in
  do! views := on_datagrams proxies in
  do? failed_datagrams := reset_datagrams views [] in
  do! g := on_control Control.bump in
  Ret (Ok {| rp_generation := g; rp_reset := true; rp_failed_enables := failed; rp_failed_datagram_enables := failed_datagrams |}).

(** ** Shutdown

    [scenario_tasks] is a lock, and a shutdown holds it while it joins, so no
    run is spawned then; here a run may be spawned meanwhile, and is joined
    too. *)

(** [cancel_all]. *)
Definition cancel_runs : sproc unit :=
  atomic (fun s => (set_sx_registry (clear_tokens (sx_registry s))
    (set_sx_control (cancel_all_tokens (tokens_of (sx_registry s)) (sx_control s)) s), Ret tt)).
Definition service_shutdown : sproc unit :=
  do! _u := on_control initiate_shutdown in
  do! _u := cancel_runs in
  do! _u := on_control (drain_root 2) in
  Await OnTasks (on_datagrams UdpRuntime.shutdown).

(** ** Tasks *)

(** The runtime runs a spawned task once. *)
Definition end_task (i : nat) (s : Service) : Service := set_sx_tasks (sx_tasks s) (<[i := true]> (sx_ended s)) s.
Definition run_task (i : nat) : sproc unit :=
  Await (OnSpawned i)
    (do! task := atomic (fun s => (set_sx_tasks (<[i := None]> (sx_tasks s)) (sx_ended s) s, Ret (mjoin (sx_tasks s !! i)))) in
     match task with
     | Some (TaskV1 run scenario token) =>
         do! _u := drive_scenario_run run scenario token in
         atomic (fun s => (end_task i s, Ret tt))
     | Some (TaskV2 _ _ _) | None => Ret tt
     end).

(** ** The system *)

Inductive service_request :=
| SqControl (r : request)
| SqDatagrams (r : datagram_request)
| SqCreateDatagram (proxy : DatagramProxySpec)
| SqEnableDatagram (name : string) (enabled : bool)
| SqUpdateDatagram (name : string) (u : DatagramProxyUpdate)
| SqDeleteDatagram (name : string)
| SqPublishDatagram (name : string) (d : Direction) (plan : DatagramPlan) (ns : Z) (expected : option Z)
| SqAddDatagramFault (name : string) (d : Direction) (fault : DatagramFaultSpec)
| SqUpdateDatagramFault (name id : string) (patch : DatagramFaultPatch)
| SqRemoveDatagramFault (name id : string)
| SqGetDatagramFault (name id : string)
| SqListDatagramFaults (name : string)
| SqStart (scenario : Scenario)
| SqGet (run : Z)
| SqCancel (run : Z)
| SqStartSchedule (source : ScenarioScheduleV2)
| SqGetSchedule (run : Z)
| SqCancelSchedule (run : Z)
| SqSnapshot (r : ScheduleResource)
| SqGeneration (r : ScheduleResource)
| SqPublish (r : ScheduleResource) (expected : Z) (plan : TargetPlan) (ns : Z)
| SqReset
| SqTask (i : nat)   (* a worker of the runtime *)
| SqShutdown.

Inductive service_response :=
| SsControl (r : response)
| SsDatagrams (r : datagram_response)
| SsView (r : result (DatagramProxyView * Z) ControlError)
| SsGeneration (r : result Z ControlError)
| SsFault (r : result (Direction * DatagramFaultSpec * Z) ControlError)
| SsRemoved (r : result (Direction * Z) ControlError)
| SsFound (r : option (Direction * DatagramFaultSpec))
| SsFaults (r : option (list DatagramFaultSpec * list DatagramFaultSpec))
| SsStarted (r : result ScenarioRunRecord ScenarioError)
| SsRun (r : option ScenarioRunRecord)
| SsScheduled (r : result ScenarioScheduleRunRecord ScenarioError)
| SsSchedule (r : option ScenarioScheduleRunRecord)
| SsSnapshot (r : result TargetSnapshot TargetError)
| SsTarget (r : result Z TargetError)
| SsReceipt (r : result PublishReceipt TargetError)
| SsReset (r : result ServiceResetReport ControlError)
| SsDone.

Definition service_call (sha256 : bytes -> bytes) (r : service_request) : sproc service_response :=
  match r with
  | SqControl r => do! x := on_control (Control.call r) in Ret (SsControl x)
  | SqDatagrams r => do! x := on_datagrams (datagram_call r) in Ret (SsDatagrams x)
  | SqCreateDatagram proxy => do! x := create_datagram_proxy proxy in Ret (SsView x)
  | SqEnableDatagram name enabled => do! x := set_datagram_proxy_enabled name enabled in Ret (SsView x)
  | SqUpdateDatagram name u => do! x := update_datagram_proxy name u in Ret (SsView x)
  | SqDeleteDatagram name => do! x := delete_datagram_proxy name in Ret (SsGeneration x)
  | SqPublishDatagram name d plan ns expected => do! x := publish_datagram_plan name d plan ns expected in Ret (SsGeneration x)
  | SqAddDatagramFault name d fault => do! x := add_datagram_fault name d fault in Ret (SsFault x)
  | SqUpdateDatagramFault name id patch => do! x := update_datagram_fault name id patch in Ret (SsFault x)
  | SqRemoveDatagramFault name id => do! x := remove_datagram_fault name id in Ret (SsRemoved x)
  | SqGetDatagramFault name id => do! x := get_datagram_fault name id in Ret (SsFound x)
  | SqListDatagramFaults name => do! x := list_datagram_faults name in Ret (SsFaults x)
  | SqStart scenario => do! x := start_scenario scenario in Ret (SsStarted x)
  | SqGet run => do! x := get_scenario run in Ret (SsRun x)
  | SqCancel run => do! x := cancel_scenario run in Ret (SsRun x)
  | SqStartSchedule source => do! x := start_schedule_v2 sha256 source in Ret (SsScheduled x)
  | SqGetSchedule run => do! x := get_schedule_v2 run in Ret (SsSchedule x)
  | SqCancelSchedule run => do! x := cancel_schedule_v2 run in Ret (SsSchedule x)
  | SqSnapshot r => do! x := target_snapshot r in Ret (SsSnapshot x)
  | SqGeneration r => do! x := target_generation r in Ret (SsTarget x)
  | SqPublish r expected plan ns => do! x := target_publish r expected plan ns in Ret (SsReceipt x)
  | SqReset => do! x := service_reset in Ret (SsReset x)
  | SqTask i => do! _u := run_task i in Ret SsDone
  | SqShutdown => do! _u := service_shutdown in Ret SsDone
  end.

(** What a step of a schedule run does. *)
Definition finish {A} (p : sproc A) (s : Service) : option Service := option_map snd (alone p s).
Definition schedule_moves (m : ScheduleMove) (s : Service) : option Service :=
  match m with
  | SmPublish name d plan ns expected => finish (on_control (publish_direction_expected name d plan ns expected)) s
  | SmPublishDatagram name d plan ns expected => finish (on_datagrams (publish_fault_plan name d plan ns (Some expected))) s
  | SmBump => finish (on_control Control.bump) s
  | SmEvent run e => finish (append_schedule_v2_event run e) s
  | SmStatus run st applied failure cleanup => finish (on_registry (update_v2 run (set_rr_outcome st applied failure cleanup))) s
  | SmForget run => finish (on_registry (fun r => (tt, set_v2 (drop_token run (rg_v2 r)) r))) s
  | SmEnd i => Some (end_task i s)
  end.
Definition service_happens (e : ServiceEvent) (s : Service) : option Service :=
  match e with
  | InControl e => option_map (fun c => set_sx_control c s) (happen e (sx_control s))
  | InDatagrams e => option_map (fun d => set_sx_datagrams d s) (happen e (sx_datagrams s))
  | InSchedule m => schedule_moves m s
  end.
#[export] Instance service_tasks : TaskState Service ServiceWait ServiceEvent := {|
  ready := service_ready; happen := service_happens |}.

Abbreviation ServiceSystem := (System Service ServiceWait service_response).
Definition service_step : relation ServiceSystem := sys_step.
Definition service_initial (sha256 : bytes -> bytes) (s : Service) (rs : list service_request) : ServiceSystem :=
  {| sys_state := s; sys_calls := map (service_call sha256) rs |}.
