(* ===== verification/ServiceProps.v ===== *)
(** * Runs of the service

    What no interleaving of calls, listeners, supervisors, scenario runs and
    schedules breaks, and the service as a target of schedules. *)

From Stdlib Require Import Bool.
From stdpp Require Import base list gmap strings relations.
From S2P Require Import Prelude Rng Float64 Plan Policy Env DatagramPlan Schedule Fingerprint Target Driver Wire WireSchedule Server Tasks Control ControlInv ControlSafe ControlRun UdpState UdpRuntime UdpOwn UdpInv UdpSteps UdpSafe UdpRun Scenario Service.

(** ** Processes of a part are safe in the whole *)

Lemma safe_bind_inv {S W E A B} `{TS : !TaskState S W E} (Inv : S -> Prop) May (R G : relation S) (p : process S W A) (k : A -> process S W B) c Q :
  safe Inv May R G (proc_bind p k) c Q -> safe Inv May R G p c (fun _ _ => True).
Proof.
  revert c. induction p as [a| |f q IH|addr q IH|w q IH]; cbn; intros c H; try done.
  - intros c' Hr I. destruct (H c' Hr I) as (I' & Hg & P). split_and!; [done|done|]. by apply IH.
  - intros a. by eapply IH.
  - intros c' Hr I. destruct (H c' Hr I) as [M P]. split; [done|]. intros Rd. by apply IH, P.
Qed.

Section Embed.
Context {S W E S' W' E' : Type} `{TS : !TaskState S W E} `{TS' : !TaskState S' W' E'}.
Context (get : S' -> S) (put : S -> S' -> S') (wait : W -> W').
Context (Inv : S -> Prop) (May : S -> W -> Prop) (G : relation S) (Inv' : S' -> Prop) (May' : S' -> W' -> Prop) (G' : relation S').
Context (get_put : forall x s, get (put x s) = x).
Context (inv_get : forall s, Inv' s -> Inv (get s)) (may_get : forall s w, Inv' s -> May (get s) w -> May' s (wait w)).
Context (step_put : forall s x, Inv' s -> Inv x -> G (get s) x -> Inv' (put x s) /\ G' s (put x s)).
Context (step_get : forall s s', G' s s' -> G (get s) (get s')) (ready_get : forall s w, ready s (wait w) = ready (get s) w).

Lemma rely_get s s' : rtc G' s s' -> rtc G (get s) (get s').
Proof. induction 1; [done|]. eapply rtc_l; [by apply step_get|done]. Qed.

Lemma embed_safe {A} (p : process S W A) s Q : safe Inv May G G p (get s) Q ->
  safe Inv' May' G' G' (embed get put wait p) s (fun a s' => Q a (get s')).
Proof.
  revert s. induction p as [a| |f k IH|addr k IH|w k IH]; cbn; intros s P; try done.
  - intros s' Hr I'. apply P; [by apply rely_get|by apply inv_get].
  - intros s' Hr I'. destruct (P (get s') (rely_get _ _ Hr) (inv_get _ I')) as (I1 & G1 & P1).
    destruct (step_put s' (f (get s')) I' I1 G1) as [I2 G2]. split_and!; [done|done|]. apply IH. by rewrite get_put.
  - intros a. by apply IH.
  - intros s' Hr I'. destruct (P (get s') (rely_get _ _ Hr) (inv_get _ I')) as [M P1]. split; [by apply may_get|].
    rewrite ready_get. intros Rd. apply IH. by apply P1.
Qed.
End Embed.

(** ** The invariant of the service *)

Definition counted_run (r : ScenarioRunRecord) : Prop := sr_applied r = zlen (sr_trail r).
Record service_ok (s : Service) : Prop := {
  xk_control : control_ok (sx_control s);
  xk_datagrams : datagrams_ok (sx_datagrams s);
  xk_v1 : family_ok (rg_v1 (sx_registry s));
  xk_v2 : family_ok (rg_v2 (sx_registry s));
  xk_counted : map_Forall (fun _ r => counted_run r) (fm_runs (rg_v1 (sx_registry s)))
}.
(** What every step keeps. *)
Definition service_keeps (s s' : Service) : Prop :=
  guarantee (sx_control s) (sx_control s') /\ keeps (sx_datagrams s) (sx_datagrams s').
Definition service_may (s : Service) (w : ServiceWait) : Prop :=
  match w with OnDatagrams w => awaitable (sx_datagrams s) w | _ => True end.

Abbreviation ssafe := (safe service_ok service_may service_keeps service_keeps).

Lemma service_keeps_refl s : service_ok s -> service_keeps s s.
Proof. intros I. split; [apply (good_refl _ (xk_control _ I))|done]. Qed.

Lemma control_call_safe r c : control_ok c -> safe control_ok anywhere guarantee guarantee (Control.call r) c (fun _ _ => True).
Proof.
  intros I. assert (r = RqShutdown \/ r <> RqShutdown) as [->|N] by (destruct r; (by left) || by right).
  - eapply safe_bind; [apply shutdown_safe| |done]. by intros.
  - apply (safe_weaken control_ok anywhere guarantee guarantee guarantee_tracked guarantee); [done|apply gt_guarantee|].
    by apply ControlSafe.call_safe; [apply gu_grows|..].
Qed.

(** ** Pieces *)

Lemma on_control_safe {A} (p : process Control Waiting A) s Q : service_ok s ->
  safe control_ok anywhere guarantee guarantee p (sx_control s) Q -> ssafe (on_control p) s (fun a s' => Q a (sx_control s')).
Proof.
  intros I. apply (embed_safe sx_control set_sx_control OnControl control_ok anywhere guarantee); try done.
  - by intros s' [].
  - intros s' x [] Ix Gx. split; [by constructor|]. by split.
  - by intros a b [].
Qed.
Lemma on_datagrams_safe {A} (p : dproc A) s Q : service_ok s -> safely p (sx_datagrams s) Q ->
  ssafe (on_datagrams p) s (fun a s' => Q a (sx_datagrams s')).
Proof.
  intros I. apply (embed_safe sx_datagrams set_sx_datagrams OnDatagrams datagrams_ok awaitable keeps); try done.
  - by intros s' [].
  - intros s' x [] Ix Gx. split; [by constructor|]. split; [by apply good_refl|done].
  - by intros a b [].
Qed.

(** A step on the registry keeps its bounds and its counts. *)
Definition registry_ok (r : ScenarioRegistry) : Prop :=
  family_ok (rg_v1 r) /\ family_ok (rg_v2 r) /\ map_Forall (fun _ r => counted_run r) (fm_runs (rg_v1 r)).
Lemma service_registry s : service_ok s -> registry_ok (sx_registry s).
Proof. by intros []. Qed.
Lemma registry_step s r : service_ok s -> registry_ok r -> service_ok (set_sx_registry r s) /\ service_keeps s (set_sx_registry r s).
Proof. intros I (A & B & C). split; [by destruct I|]. split; [apply good_refl, I|done]. Qed.
Lemma on_registry_safe {A} (f : ScenarioRegistry -> A * ScenarioRegistry) s : service_ok s ->
  (forall r, registry_ok r -> registry_ok (f r).2) -> ssafe (on_registry f) s (fun _ _ => True).
Proof.
  intros _ H s1 _ I1. cbn. specialize (H _ (service_registry _ I1)). destruct (f (sx_registry s1)) as [a r]. cbn in *.
  destruct (registry_step s1 r I1 H). by split_and!.
Qed.

(** A step that leaves the parts alone. *)
Lemma aside_safe {A} (f : Service -> Service) (k : Service -> sproc A) s Q :
  (forall s, sx_control (f s) = sx_control s /\ sx_datagrams (f s) = sx_datagrams s /\ sx_registry (f s) = sx_registry s) ->
  (forall s', service_ok s' -> ssafe (k s') (f s') Q) -> ssafe (Step f k) s Q.
Proof.
  intros E K s1 _ I1. destruct (E s1) as (E1 & E2 & E3). assert (I2 : service_ok (f s1)) by (destruct I1; by constructor; rewrite ?E1, ?E2, ?E3).
  split; [done|]. split; [|by apply K]. unfold service_keeps. rewrite E1, E2. by apply service_keeps_refl.
Qed.

Lemma ssafe_bind {A B} (p : sproc A) (k : A -> sproc B) s Q : service_ok s -> ssafe p s (fun _ _ => True) ->
  (forall a s', service_ok s' -> ssafe (k a) s' Q) -> ssafe (proc_bind p k) s Q.
Proof. intros I P K. eapply safe_bind; [exact P| |done]. intros a s' I' _. by apply K. Qed.

Lemma control_part {A} (k : A -> response) (p : process Control Waiting A) r s : service_ok s ->
  Control.call r = proc_bind p (fun x => Ret (k x)) -> ssafe (on_control p) s (fun _ _ => True).
Proof.
  intros I E. apply (on_control_safe _ _ (fun _ _ => True)); [done|]. pose proof (control_call_safe r (sx_control s) (xk_control _ I)) as H. rewrite E in H.
  by eapply safe_bind_inv.
Qed.
Lemma datagram_part {A} (k : A -> datagram_response) (p : dproc A) r s : service_ok s -> request_typed r ->
  datagram_call r = proc_bind p (fun x => Ret (k x)) -> ssafe (on_datagrams p) s (fun _ _ => True).
Proof.
  intros I T E. apply (on_datagrams_safe _ _ (fun _ _ => True)); [done|]. pose proof (datagram_call_safe r (sx_datagrams s) (xk_datagrams _ I) T) as H. rewrite E in H.
  by eapply safe_bind_inv.
Qed.
(** A step of the control plane outside what its invariant reads. *)
Lemma control_aside {A} (f : Control -> Control * process Control Waiting A) s : service_ok s ->
  (forall c, core c = core (f c).1) -> (forall c, exists a, (f c).2 = Ret a) -> ssafe (on_control (atomic f)) s (fun _ _ => True).
Proof.
  intros I E R. apply (on_control_safe _ _ (fun _ _ => True)); [done|]. intros c _ Ic. destruct (good_frame c _ Ic (E c)) as [Ic' G]. split; [done|].
  split; [apply G|]. by destruct (R c) as [a ->].
Qed.

Create HintDb service discriminated.
#[export] Hint Extern 4 (ssafe (Ret _) _ _) => (intros ? _ _; exact I) : service.
#[export] Hint Resolve ssafe_bind : service.

Lemma bump_safe s : service_ok s -> ssafe (on_control Control.bump) s (fun _ _ => True).
Proof. intros I. apply control_aside; [done|done|]. intros c. by eexists. Qed.
Lemma scope_safe s : service_ok s -> ssafe (on_control fresh_scope) s (fun _ _ => True).
Proof. intros I. apply control_aside; [done|done|]. intros c. by eexists. Qed.
Lemma cancel_token_safe t s : service_ok s -> ssafe (on_control (atomic (fun c => (cancel_token t c, Ret tt)))) s (fun _ _ => True).
Proof. intros I. apply control_aside; [done|done|]. intros c. by eexists. Qed.
Lemma generation_now_safe s : service_ok s -> ssafe (on_control generation_now) s (fun _ _ => True).
Proof. intros I. apply control_aside; [done|done|]. intros c. by eexists. Qed.
Lemma snapshot_safe name s : service_ok s -> ssafe (on_control (snapshot_policies name)) s (fun _ _ => True).
Proof. intros I. apply control_aside; [done|done|]. intros c. by eexists. Qed.
Lemma generations_safe name s : service_ok s -> ssafe (on_control (Control.current_generations name)) s (fun _ _ => True).
Proof.
  intros I. apply (on_control_safe _ _ (fun _ _ => True)); [done|]. intros c _ Ic. split; [done|]. split; [apply (good_refl _ Ic)|]. done.
Qed.
Lemma publish_direction_safe name d plan ns expected s : service_ok s ->
  ssafe (on_control (publish_direction_expected name d plan ns expected)) s (fun _ _ => True).
Proof. intros I. by eapply (control_part _ _ (RqPublishDirection name d plan ns expected)). Qed.
Lemma fault_plan_safe name d s : service_ok s -> ssafe (on_datagrams (fault_plan name d)) s (fun _ _ => True).
Proof. intros I. by eapply (datagram_part _ _ (DqFaultPlan name d)). Qed.
Lemma publish_fault_plan_safe name d plan ns expected s : service_ok s ->
  ssafe (on_datagrams (publish_fault_plan name d plan ns expected)) s (fun _ _ => True).
Proof. intros I. by eapply (datagram_part _ _ (DqPublish name d plan ns expected)). Qed.
Lemma proxy_safe name s : service_ok s -> ssafe (on_datagrams (UdpRuntime.proxy name)) s (fun _ _ => True).
Proof. intros I. by eapply (datagram_part _ _ (DqProxy name)). Qed.
#[export] Hint Resolve bump_safe scope_safe cancel_token_safe generation_now_safe snapshot_safe generations_safe
  publish_direction_safe fault_plan_safe publish_fault_plan_safe proxy_safe : service.

(** ** Operations *)

(** Operations by the pieces they are made of. *)
Ltac service_cases := repeat match goal with
  | |- ssafe (Ret _) _ _ => intros ? _ _; exact I
  | |- ssafe (proc_bind _ _) _ _ => apply ssafe_bind; [assumption| |let a := fresh "a" in let s := fresh "s" in let I := fresh "I" in intros a s I]
  | |- ssafe (match ?x with _ => _ end) _ _ => destruct x
  | |- ssafe (let '(_, _) := ?x in _) _ _ => destruct x
  | |- ssafe _ _ _ => solve [auto with service nocore]
  end.

Section Operations.
Context (s : Service) (I : service_ok s).

Lemma with_generation_safe {A} (map : DatagramRuntimeError -> ControlError) (p : dproc (result A DatagramRuntimeError)) :
  ssafe (on_datagrams p) s (fun _ _ => True) -> ssafe (with_generation map p) s (fun _ _ => True).
Proof. intros P. unfold with_generation. apply ssafe_bind; [done|exact P|]. intros a s' I'. service_cases. Qed.

Lemma plan_safe name d : ssafe (get_datagram_plan name d) s (fun _ _ => True).
Proof. unfold get_datagram_plan. service_cases. Qed.
Lemma publish_plan_safe name d plan ns expected : ssafe (publish_datagram_plan name d plan ns expected) s (fun _ _ => True).
Proof. unfold publish_datagram_plan. service_cases. Qed.
End Operations.
#[export] Hint Resolve plan_safe publish_plan_safe : service.

Section Faults.
Context (s : Service) (I : service_ok s).

Lemma other_has_safe name d id : ssafe (other_has name d id) s (fun _ _ => True).
Proof. unfold other_has. service_cases. Qed.
Lemma take_back_safe name d id : ssafe (take_back name d id) s (fun _ _ => True).
Proof. unfold take_back. service_cases. Qed.
Lemma edit_direction_safe {A} name id edit d (k : sproc (result (Direction * A * Z) ControlError)) :
  (forall s, service_ok s -> ssafe k s (fun _ _ => True)) -> ssafe (edit_direction name id edit d k) s (fun _ _ => True).
Proof. intros K. unfold edit_direction. service_cases; by apply K. Qed.
End Faults.
#[export] Hint Resolve other_has_safe take_back_safe : service.

Section Calls.
Context (s : Service) (I : service_ok s).

Lemma add_datagram_fault_safe name d f : ssafe (add_datagram_fault name d f) s (fun _ _ => True).
Proof. unfold add_datagram_fault. service_cases. Qed.
Lemma edit_fault_safe {A} name id (edit : DatagramFaultSpec -> list DatagramFaultSpec -> result (A * list DatagramFaultSpec) ControlError) :
  ssafe (edit_fault name id edit) s (fun _ _ => True).
Proof.
  unfold edit_fault. apply edit_direction_safe; [done|]. intros s1 I1. apply edit_direction_safe; [done|]. intros s2 I2. service_cases.
Qed.
End Calls.
#[export] Hint Resolve add_datagram_fault_safe edit_fault_safe : service.

Section Reads.
Context (s : Service) (I : service_ok s).
Lemma get_fault_safe name id : ssafe (get_datagram_fault name id) s (fun _ _ => True).
Proof. unfold get_datagram_fault. service_cases. Qed.
Lemma list_faults_safe name : ssafe (list_datagram_faults name) s (fun _ _ => True).
Proof. unfold list_datagram_faults. service_cases. Qed.
Lemma update_fault_service_safe name id patch : ssafe (update_datagram_fault name id patch) s (fun _ _ => True).
Proof. unfold update_datagram_fault. service_cases. Qed.
Lemma remove_fault_service_safe name id : ssafe (remove_datagram_fault name id) s (fun _ _ => True).
Proof. unfold remove_datagram_fault. service_cases. Qed.

(** *** Targets *)

Lemma target_generation_safe r : ssafe (target_generation r) s (fun _ _ => True).
Proof. unfold target_generation, datagram_generations. service_cases. Qed.
Lemma target_snapshot_safe r : ssafe (target_snapshot r) s (fun _ _ => True).
Proof. unfold target_snapshot. service_cases. Qed.
End Reads.
#[export] Hint Resolve get_fault_safe list_faults_safe update_fault_service_safe remove_fault_service_safe target_generation_safe target_snapshot_safe : service.

Lemma publish_error_safe r expected e s : service_ok s -> ssafe (map_publish_error r expected e) s (fun _ _ => True).
Proof. intros I. unfold map_publish_error. service_cases. Qed.
#[export] Hint Resolve publish_error_safe : service.
Lemma target_publish_safe r expected plan ns s : service_ok s -> ssafe (target_publish r expected plan ns) s (fun _ _ => True).
Proof. intros I. unfold target_publish. service_cases. Qed.

(** *** Scenarios *)

Lemma update_run_safe run change s : service_ok s -> (forall r, counted_run r -> counted_run (change r)) ->
  ssafe (update_scenario_run run change) s (fun _ _ => True).
Proof.
  intros I C. apply on_registry_safe; [done|]. intros r (A & B & D). pose proof (update_ok run change _ A) as U. unfold update in *.
  destruct (fm_runs (rg_v1 r) !! run) as [x|] eqn:E; [|done]. cbn in *. split_and!; [done|done|].
  apply map_Forall_insert_2; [|done]. apply C. by eapply D.
Qed.
Lemma remove_token_safe run s : service_ok s -> ssafe (remove_scenario_token run) s (fun _ _ => True).
Proof. intros I. apply on_registry_safe; [done|]. intros r (A & B & D). split_and!; [by apply drop_token_ok|done|done]. Qed.
Lemma status_safe run st s : service_ok s -> ssafe (update_scenario_run run (set_sr_status st)) s (fun _ _ => True).
Proof. intros I. by apply update_run_safe. Qed.
Lemma failed_safe run e s : service_ok s -> ssafe (update_scenario_run run (set_sr_failed e)) s (fun _ _ => True).
Proof. intros I. by apply update_run_safe. Qed.
Lemma event_safe run e s : service_ok s -> ssafe (update_scenario_run run (add_sr_event e)) s (fun _ _ => True).
Proof. intros I. apply update_run_safe; [done|]. unfold counted_run. cbn. intros r ->. by rewrite zlen_app. Qed.
Lemma cancelling_safe run s : service_ok s -> ssafe (update_scenario_run run cancelling) s (fun _ _ => True).
Proof. intros I. apply update_run_safe; [done|]. intros r. unfold cancelling. by destruct (sr_status r). Qed.
Lemma get_run_safe run s : service_ok s -> ssafe (get_scenario run) s (fun _ _ => True).
Proof. intros I. by apply on_registry_safe. Qed.
#[export] Hint Resolve remove_token_safe status_safe failed_safe event_safe cancelling_safe get_run_safe : service.

Lemma snapshot_or_missing_safe proxy s : service_ok s -> ssafe (snapshot_or_missing proxy) s (fun _ _ => True).
Proof. intros I. unfold snapshot_or_missing. service_cases. Qed.
Lemma plan_or_control_safe proxy d s : service_ok s -> ssafe (plan_or_control proxy d) s (fun _ _ => True).
Proof. intros I. unfold plan_or_control. service_cases. Qed.
Lemma plan_or_fail_safe proxy d s : service_ok s -> ssafe (plan_or_fail proxy d) s (fun _ _ => True).
Proof. intros I. unfold plan_or_fail. service_cases. Qed.
#[export] Hint Resolve snapshot_or_missing_safe plan_or_control_safe plan_or_fail_safe : service.
Lemma validate_action_safe a s : service_ok s -> ssafe (validate_action a) s (fun _ _ => True).
Proof. intros I. unfold validate_action. service_cases. Qed.
#[export] Hint Resolve validate_action_safe : service.
Lemma validate_events_safe events : forall previous s, service_ok s -> ssafe (validate_events previous events) s (fun _ _ => True).
Proof.
  induction events as [|event events IH]; cbn [validate_events]; intros previous s I; service_cases; by apply IH.
Qed.
#[export] Hint Resolve validate_events_safe : service.
Lemma validate_scenario_safe scenario s : service_ok s -> ssafe (validate_scenario scenario) s (fun _ _ => True).
Proof. intros I. unfold validate_scenario. service_cases. Qed.
#[export] Hint Resolve validate_scenario_safe : service.

(** *** Events *)

Definition datagram_action (action : ScenarioAction) : Prop :=
  match action with SetDatagramPlan _ _ _ | RemoveDatagramFault _ _ _ => True | _ => False end.

Lemma recheck_safe proxy d base s : service_ok s -> ssafe (recheck proxy d base) s (fun _ _ => True).
Proof. intros I. unfold recheck. service_cases. Qed.
Lemma next_faults_safe event proxy d base s : service_ok s -> datagram_action (sn_action event) ->
  ssafe (next_datagram_faults event proxy d base) s (fun _ _ => True).
Proof. intros I D. unfold next_datagram_faults. destruct (sn_action event); [done|done|..]; service_cases. Qed.
#[export] Hint Resolve recheck_safe next_faults_safe : service.
Lemma datagram_event_safe seed run index event proxy d s : service_ok s -> datagram_action (sn_action event) ->
  ssafe (datagram_event seed run index event proxy d) s (fun _ _ => True).
Proof. intros I D. unfold datagram_event. service_cases. Qed.
Lemma stream_event_safe seed run index event proxy d s : service_ok s -> ~ datagram_action (sn_action event) ->
  ssafe (stream_event seed run index event proxy d) s (fun _ _ => True).
Proof. intros I D. unfold stream_event, next_stream_plan. destruct (sn_action event); cbn in D; try (by destruct D); service_cases. Qed.
#[export] Hint Resolve datagram_event_safe stream_event_safe : service.
Lemma scenario_event_safe seed run index event proxy d s : service_ok s ->
  ssafe (scenario_event seed run index event proxy d) s (fun _ _ => True).
Proof.
  intros I. unfold scenario_event. destruct (sn_action event) eqn:E;
    first [apply stream_event_safe; [done|by rewrite E; intros []] | apply datagram_event_safe; [done|by rewrite E]].
Qed.
Lemma fail_run_safe run message s : service_ok s -> ssafe (fail_run run message) s (fun _ _ => True).
Proof. intros I. unfold fail_run. service_cases. Qed.
#[export] Hint Resolve scenario_event_safe fail_run_safe : service.

Lemma sobserve_safe {A} (f : Service -> A) s : ssafe (observe f) s (fun _ _ => True).
Proof. intros s1 _ I1. split; [done|]. split; [by apply service_keeps_refl|done]. Qed.
Lemma await_run_safe {A} token deadline (k : sproc A) s Q : (forall s, service_ok s -> ssafe k s Q) -> ssafe (Await (OnRun token deadline) k) s Q.
Proof. intros K s1 _ I1. split; [done|]. intros _. by apply K. Qed.
#[export] Hint Resolve sobserve_safe : service.

Lemma drive_events_safe seed run token events : forall index previous s, service_ok s ->
  ssafe (drive_events seed run token index previous events) s (fun _ _ => True).
Proof.
  induction events as [|event events IH]; cbn [drive_events]; intros index previous s I; [service_cases|].
  apply ssafe_bind; [done|apply sobserve_safe|]. intros now s1 I1. apply await_run_safe. intros s2 I2.
  apply ssafe_bind; [done|apply sobserve_safe|]. intros [] s3 I3; [service_cases|].
  destruct (action_target (sn_action event)) as [proxy d]. service_cases.
Qed.
Lemma drive_run_safe run scenario token s : service_ok s -> ssafe (drive_scenario_run run scenario token) s (fun _ _ => True).
Proof. intros I. apply ssafe_bind; [done|by apply status_safe|]. intros _ s1 I1. by apply drive_events_safe. Qed.
#[export] Hint Resolve drive_run_safe : service.

(** *** Starting and cancelling *)

Lemma allocate_safe s : service_ok s -> ssafe allocate_run s (fun _ _ => True).
Proof. intros I. unfold allocate_run. apply (aside_safe (fun s => set_sx_next_run (wadd (sx_next_run s) 1) s)); [done|]. by intros. Qed.
Lemma spawn_task_safe t s : service_ok s -> ssafe (spawn_task t) s (fun _ _ => True).
Proof.
  intros I. apply (aside_safe (fun s => set_sx_tasks (sx_tasks s ++ [Some t]) (sx_ended s ++ [false]) s)); [done|]. by intros.
Qed.
Lemma end_task_safe i s : service_ok s -> ssafe (atomic (fun s => (end_task i s, Ret tt))) s (fun _ _ => True).
Proof. intros I. apply (aside_safe (end_task i)); [done|]. by intros. Qed.
#[export] Hint Resolve allocate_safe spawn_task_safe end_task_safe : service.

Lemma admit_runs {R} `{RunRecord R} id (r : R) token f f' : admit_with_token id r token f = Ok f' ->
  forall j x, fm_runs f' !! j = Some x -> (j = id /\ x = r) \/ fm_runs f !! j = Some x.
Proof.
  unfold admit_with_token, admit_run. destruct (Nat.leb _ _); [done|]. intros [= <-] j x. cbn. intros Hj.
  apply lookup_insert_Some in Hj as [[<- <-]|[_ Hj]]; [by left|right]. unfold prune in Hj. destruct (Nat.leb _ _); [|done].
  destruct (first_oldest_finished f); [|done]. cbn in Hj. by apply lookup_delete_Some in Hj as [_ Hj].
Qed.
Lemma start_scenario_safe scenario s : service_ok s -> ssafe (start_scenario scenario) s (fun _ _ => True).
Proof.
  intros I. unfold start_scenario. apply ssafe_bind; [done|by apply validate_scenario_safe|]. intros [[]|e] s1 I1; [|service_cases].
  apply ssafe_bind; [done|by apply allocate_safe|]. intros run s2 I2. apply ssafe_bind; [done|by apply scope_safe|]. intros token s3 I3.
  apply ssafe_bind; [done| |intros [] s4 I4; cbn [negb]; service_cases]. apply on_registry_safe; [done|]. intros r (A & B & C).
  destruct (admit_with_token run _ token (rg_v1 r)) as [f|e] eqn:E; [|done]. split_and!; [by eapply admit_ok|done|].
  intros j x Hj. destruct (admit_runs _ _ _ _ _ E _ _ Hj) as [[_ ->]|H]; [done|by eapply C].
Qed.
Lemma start_schedule_safe sha256 source s : service_ok s -> ssafe (start_schedule_v2 sha256 source) s (fun _ _ => True).
Proof.
  intros I. unfold start_schedule_v2. destruct (compile_schedule source) as [compiled|e]; [|service_cases].
  apply ssafe_bind; [done|by apply allocate_safe|]. intros run s2 I2. apply ssafe_bind; [done|by apply scope_safe|]. intros token s3 I3.
  apply ssafe_bind; [done| |intros [] s4 I4; cbn [negb]; service_cases]. apply on_registry_safe; [done|]. intros r (A & B & C).
  destruct (admit_with_token run _ token (rg_v2 r)) as [f|e] eqn:E; [|done]. split_and!; [done|by eapply admit_ok|done].
Qed.

Lemma take_run_safe run s : service_ok s ->
  ssafe (on_registry (fun r => let '(t, f) := take_token run (rg_v1 r) in (t, set_v1 f r))) s (fun _ _ => True).
Proof. intros I. apply on_registry_safe; [done|]. intros r (A & B & C). split_and!; [by apply (take_token_ok run)|done|done]. Qed.
Lemma take_schedule_safe run s : service_ok s ->
  ssafe (on_registry (fun r => let '(t, f) := take_token run (rg_v2 r) in (t, set_v2 f r))) s (fun _ _ => True).
Proof. intros I. apply on_registry_safe; [done|]. intros r (A & B & C). split_and!; [done|by apply (take_token_ok run)|done]. Qed.
Lemma update_schedule_safe run change s : service_ok s -> ssafe (on_registry (update_v2 run change)) s (fun _ _ => True).
Proof.
  intros I. apply on_registry_safe; [done|]. intros r (A & B & C). unfold update_v2.
  pose proof (update_ok run change _ B) as U. by destruct (update run change (rg_v2 r)).
Qed.
Lemma forget_schedule_safe run s : service_ok s -> ssafe (on_registry (fun r => (tt, set_v2 (drop_token run (rg_v2 r)) r))) s (fun _ _ => True).
Proof. intros I. apply on_registry_safe; [done|]. intros r (A & B & C). split_and!; [done|by apply drop_token_ok|done]. Qed.
Lemma get_schedule_safe run s : service_ok s -> ssafe (get_schedule_v2 run) s (fun _ _ => True).
Proof. intros I. by apply on_registry_safe. Qed.
#[export] Hint Resolve take_run_safe take_schedule_safe update_schedule_safe get_schedule_safe : service.

Lemma cancel_run_token_safe t k s : service_ok s -> (forall s, service_ok s -> ssafe k s (fun _ _ => True)) ->
  ssafe (cancel_run_token t k) s (fun _ _ => True).
Proof. intros I K. unfold cancel_run_token. service_cases. Qed.
Lemma cancel_scenario_safe run s : service_ok s -> ssafe (cancel_scenario run) s (fun _ _ => True).
Proof.
  intros I. unfold cancel_scenario. apply ssafe_bind; [done|by apply take_run_safe|]. intros t s1 I1.
  apply ssafe_bind; [done| |intros; service_cases]. apply cancel_run_token_safe; [done|]. intros s2 I2. service_cases.
Qed.
Lemma cancel_schedule_safe run s : service_ok s -> ssafe (cancel_schedule_v2 run) s (fun _ _ => True).
Proof.
  intros I. unfold cancel_schedule_v2. apply ssafe_bind; [done|by apply take_schedule_safe|]. intros t s1 I1.
  apply ssafe_bind; [done| |intros; service_cases]. apply cancel_run_token_safe; [done|]. intros s2 I2. service_cases.
Qed.

(** *** Shutdown *)

Lemma cancel_all_good ts c : control_ok c -> ControlInv.good c (cancel_all_tokens ts c).
Proof.
  intros I. apply good_frame; [done|]. unfold cancel_all_tokens. clear I. revert c.
  induction ts as [|t ts IH]; intros c; [done|]. cbn. by rewrite <- IH.
Qed.
Lemma cancel_runs_safe s : service_ok s -> ssafe cancel_runs s (fun _ _ => True).
Proof.
  intros _ s1 _ [C D V1 V2 N]. destruct (cancel_all_good (tokens_of (sx_registry s1)) _ C) as [C' G].
  split; [constructor; try done; by apply clear_ok|]. split; [split; [apply G|done]|done].
Qed.
Definition closing (s : Service) : Prop := rt_shutdown_initiated (sx_control s) = true.
Lemma closing_mono s s' : rtc service_keeps s s' -> closing s -> closing s'.
Proof. induction 1 as [|a b c [[G _] _] _ IH]; [done|]. intros C. by apply IH, G. Qed.

Lemma initiate_safe c : control_ok c ->
  safe control_ok anywhere guarantee guarantee initiate_shutdown c (fun _ c' => rt_shutdown_initiated c' = true).
Proof.
  intros _ c1 _ I1. destruct (set_shutdown_ok c1 I1) as [I1' G1]. split; [done|]. split; [done|].
  intros c2 R2 I2. assert (W : ControlInv.good c2 (cancel_token SHUTDOWN_TOKEN c2)) by (by apply good_frame).
  split; [apply W|]. split; [apply W|]. intros c3 R3 _. apply (rtc_grows _ _ _ gu_grows R3). by apply (rtc_grows _ _ _ gu_grows R2).
Qed.
Lemma safe_remembers {A} (p : sproc A) s (P : Service -> Prop) : (forall s s', rtc service_keeps s s' -> P s -> P s') ->
  P s -> ssafe p s (fun _ _ => True) -> ssafe p s (fun _ => P).
Proof.
  intros M. revert s. induction p as [a| |f k IH|addr k IH|w k IH]; cbn; intros s Ps H; try done.
  - intros s' Hr _. by eapply M.
  - intros s' Hr I'. destruct (H s' Hr I') as (I1 & G1 & P1). split_and!; [done|done|]. apply IH; [|done].
    eapply M; [|exact Ps]. by eapply rtc_r.
  - intros a. by apply IH.
  - intros s' Hr I'. destruct (H s' Hr I') as [Y P1]. split; [done|]. intros Rd. apply IH; [by eapply M|by apply P1].
Qed.
Lemma service_shutdown_safe s : service_ok s -> ssafe service_shutdown s (fun _ _ => True).
Proof.
  intros I. unfold service_shutdown. eapply safe_bind; [apply (on_control_safe _ _ (fun _ c => rt_shutdown_initiated c = true)); [done|by apply initiate_safe, I]| |done].
  intros u s1 I1 C1. cbv beta in C1. eapply safe_bind; [apply (safe_remembers _ _ closing); [apply closing_mono|exact C1|by apply cancel_runs_safe]| |done].
  intros u2 s2 I2 C2. apply ssafe_bind; [done| |].
  - apply (on_control_safe _ _ (fun _ _ => True)); [done|]. by apply drain_safe; [apply I2|].
  - intros _ s3 I3 s4 _ I4. split; [done|]. intros _. by eapply (datagram_part _ _ DqShutdown).
Qed.

(** *** Reset *)

Lemma associations_safe s : service_ok s -> ssafe (on_datagrams associations) s (fun _ _ => True).
Proof. intros I. by eapply (datagram_part _ _ DqAssociations). Qed.
Lemma proxies_safe s : service_ok s -> ssafe (on_datagrams proxies) s (fun _ _ => True).
Proof. intros I. by eapply (datagram_part _ _ DqProxies). Qed.
Lemma kill_one_safe id s : service_ok s -> ssafe (on_datagrams (kill_association id)) s (fun _ _ => True).
Proof. intros I. by eapply (datagram_part _ _ (DqKill id)). Qed.
Lemma enable_proxy_safe name s : service_ok s -> ssafe (on_datagrams (enable_proxy name)) s (fun _ _ => True).
Proof. intros I. by eapply (datagram_part _ _ (DqEnable name)). Qed.
#[export] Hint Resolve associations_safe proxies_safe kill_one_safe enable_proxy_safe : service.
Lemma kill_associations_safe ids : forall s, service_ok s -> ssafe (kill_associations ids) s (fun _ _ => True).
Proof. induction ids as [|id ids IH]; cbn [kill_associations]; intros s I; service_cases. Qed.
Lemma clear_direction_safe name d s : service_ok s -> ssafe (clear_datagram_direction name d) s (fun _ _ => True).
Proof. intros I. unfold clear_datagram_direction, clear_published. service_cases. Qed.
#[export] Hint Resolve kill_associations_safe clear_direction_safe : service.
Lemma reset_datagrams_safe views : forall failed s, service_ok s -> ssafe (reset_datagrams views failed) s (fun _ _ => True).
Proof. induction views as [|view views IH]; cbn [reset_datagrams]; intros failed s I; service_cases. Qed.
Lemma streams_reset_safe s : service_ok s -> ssafe (on_control reset_streams) s (fun _ _ => True).
Proof.
  intros I. apply (on_control_safe _ _ (fun _ _ => True)); [done|].
  pose proof (safe_bind_inv _ _ _ _ _ _ _ _ (control_call_safe RqReset (sx_control s) (xk_control _ I))) as H. by eapply safe_bind_inv.
Qed.
#[export] Hint Resolve reset_datagrams_safe streams_reset_safe : service.
Lemma service_reset_safe s : service_ok s -> ssafe service_reset s (fun _ _ => True).
Proof. intros I. unfold service_reset. service_cases. Qed.

(** *** Calls *)

Lemma run_task_safe i s : service_ok s -> ssafe (run_task i) s (fun _ _ => True).
Proof.
  intros _ s1 _ I1. split; [done|]. intros _. apply ssafe_bind; [done| |].
  - apply (aside_safe (fun s => set_sx_tasks (<[i := None]> (sx_tasks s)) (sx_ended s) s)); [done|]. by intros.
  - intros t s2 I2. service_cases.
Qed.

(** What the Rust types promise of a request. *)
Definition service_typed (r : service_request) : Prop :=
  match r with
  | SqDatagrams r => request_typed r
  | SqCreateDatagram spec => spec_typed spec
  | SqUpdateDatagram _ u => match du_max_associations u with Some m => 0 <= m | None => True end
  | _ => True
  end.

Lemma service_call_safe sha256 r s : service_ok s -> service_typed r -> ssafe (service_call sha256 r) s (fun _ _ => True).
Proof.
  intros I T. destruct r; cbn [service_call]; (apply ssafe_bind; [done| |intros; service_cases]).
  - apply (on_control_safe _ _ (fun _ _ => True)); [done|]. by apply control_call_safe, I.
  - apply (on_datagrams_safe _ _ (fun _ _ => True)); [done|]. by apply datagram_call_safe; [apply I|].
  - apply with_generation_safe; [done|]. by eapply (datagram_part _ _ (DqCreate proxy)).
  - unfold set_datagram_proxy_enabled. destruct enabled.
    + apply with_generation_safe; [done|]. by eapply (datagram_part _ _ (DqEnable name)).
    + apply ssafe_bind; [done|by eapply (datagram_part _ _ (DqDisable name))|]. intros [|] s1 I1; service_cases.
  - unfold update_datagram_proxy. case_match; [service_cases|]. apply with_generation_safe; [done|].
    by eapply (datagram_part _ _ (DqUpdate name (runtime_update u))).
  - unfold delete_datagram_proxy. apply ssafe_bind; [done|by eapply (datagram_part _ _ (DqDelete name))|]. intros [] s1 I1; service_cases.
  - service_cases.
  - service_cases.
  - service_cases.
  - service_cases.
  - service_cases.
  - service_cases.
  - by apply start_scenario_safe.
  - service_cases.
  - by apply cancel_scenario_safe.
  - by apply start_schedule_safe.
  - service_cases.
  - by apply cancel_schedule_safe.
  - service_cases.
  - service_cases.
  - by apply target_publish_safe.
  - by apply service_reset_safe.
  - by apply run_task_safe.
  - by apply service_shutdown_safe.
Qed.

(** ** Events *)

(** A process of at most one step. *)
Definition brief {A} (p : sproc A) : Prop := match p with Step _ k => forall s, match k s with Step _ _ => False | _ => True end | _ => True end.
Lemma finish_good {A} (p : sproc A) s s' : brief p -> service_ok s -> ssafe p s (fun _ _ => True) -> finish p s = Some s' ->
  service_ok s' /\ service_keeps s s'.
Proof.
  intros B I H. unfold finish. destruct p as [a| |f k|addr k|w k]; cbn in *; try done.
  - intros [= <-]. split; [done|by apply service_keeps_refl].
  - destruct (H s) as (I1 & G1 & _); [done|done|]. specialize (B s). destruct (k s); cbn; try done. by intros [= <-].
Qed.

Lemma schedule_good m s s' : service_ok s -> schedule_moves m s = Some s' -> service_ok s' /\ service_keeps s s'.
Proof.
  intros I. destruct m as [name d plan ns g|name d plan ns g| |run e|run st a f c|run|i]; cbn [schedule_moves].
  - apply finish_good; [|done|by apply publish_direction_safe]. cbn. intros t. repeat case_match; done.
  - apply finish_good; [|done|by apply publish_fault_plan_safe]. unfold publish_fault_plan. destruct (dplan_validate plan); cbn; [|done].
    intros t. repeat case_match; done.
  - apply finish_good; [done|done|by apply bump_safe].
  - apply finish_good; [|done|by apply update_schedule_safe]. cbn. intros t. repeat case_match; done.
  - apply finish_good; [|done|by apply update_schedule_safe]. cbn. intros t. repeat case_match; done.
  - apply finish_good; [done|done|by apply forget_schedule_safe].
  - intros [= <-]. split; [by destruct I|]. split; [by apply good_refl, I|done].
Qed.

Lemma service_event_good e s s' : service_ok s -> service_happens e s = Some s' -> service_ok s' /\ service_keeps s s'.
Proof.
  intros I. destruct e as [e|e|m]; cbn [service_happens]; [| |by apply schedule_good].
  - destruct (happen e (sx_control s)) as [c|] eqn:H; [|done]. intros [= <-]. destruct (event_good _ _ _ (xk_control _ I) H) as [I' [G _]].
    split; [by destruct I|by split].
  - destruct (happen e (sx_datagrams s)) as [d|] eqn:H; [|done]. intros [= <-]. destruct (udp_event_good _ _ _ (xk_datagrams _ I) H) as [I' G].
    split; [by destruct I|]. split; [by apply good_refl, I|done].
Qed.

Definition service_pool : ServiceSystem -> Prop :=
  pool_ok service_ok service_may (fun _ => service_keeps) (fun _ => service_keeps) (fun _ _ _ => True).

Lemma family_new_ok {R} : family_ok (@family_new R).
Proof. constructor; cbn; [rewrite map_size_empty; lia|]. by rewrite !dom_empty_L. Qed.
Lemma service_new_ok seed limits : limits_typed limits -> service_ok (service_new seed limits).
Proof. intros L. constructor; cbn; [apply control_new_ok|by apply datagrams_new_ok|apply family_new_ok..|done]. Qed.
Lemma service_pool_initial sha256 s rs : service_ok s -> Forall service_typed rs -> service_pool (service_initial sha256 s rs).
Proof.
  intros I T. split; [done|]. intros i p H. cbn in H. rewrite lookup_map in H. destruct (rs !! i) as [r|] eqn:E; [|done].
  injection H as <-. apply service_call_safe; [done|]. by eapply Forall_lookup_1.
Qed.
Lemma service_pool_run s s' : service_pool s -> rtc service_step s s' -> service_pool s'.
Proof. apply pool_reachable; [done|]. intros e c c' _ I H. by destruct (service_event_good _ _ _ I H). Qed.
