(* ===== verification/ServiceTarget.v ===== *)
(** * The service as a target of schedules
      ([ControlStateTarget] of [scenario_v2/runtime.rs])

    What the server promises a schedule driver, and that it keeps the contract
    of [Target]: each resource has a history of plans, and a publication
    appends to the history of its resource and to nothing else. *)

From Stdlib Require Import Bool.
From stdpp Require Import base list gmap strings relations.
From S2P Require Import Prelude Rng Float64 Plan Policy Env DatagramPlan Schedule Target Driver Wire Server Tasks Control ControlInv ControlSafe UdpState UdpRuntime UdpInv UdpSteps UdpSafe Scenario Service ServiceProps.

(** ** Histories *)

Definition as_snapshot {P} (wrap : P -> TargetPlan) (p : PublishedPolicy P) : TargetSnapshot :=
  {| ts_generation := generation p; ts_plan := wrap (pub_plan p) |}.
Definition history (s : Service) (r : ScheduleResource) : option (list TargetSnapshot) :=
  match rs_transport r with
  | StreamTransport =>
      e ← rt_proxies (sx_control s) !! rs_proxy r;
      Some (map (as_snapshot StreamPlan) (snapshots (policy_of (rs_direction r) (mp_spec e))))
  | DatagramTransport =>
      m ← dr_proxies (sx_datagrams s) !! rs_proxy r;
      x ← dr_states (sx_datagrams s) !! mg_state m;
      Some (map (as_snapshot DatagramPlanOf) (snapshots (plan_of (rs_direction r) (px_spec x))))
  end.
(** The plan in force. *)
Definition newest (s : Service) (r : ScheduleResource) : option TargetSnapshot := h ← history s r; last h.

(** ** Publications to a cell *)

Section Cell.
Context {P F : Type} {validate : P -> result unit F} {overflow : F}.
Implicit Types (c : @ArcSwap P).

Lemma cell_last c : cell_ok validate c -> snapshot c = last (snapshots c).
Proof. intros [C _ _ _]. unfold snapshot. rewrite last_lookup. f_equal. lia. Qed.

Lemma publish_call_history c rq : cell_ok validate c ->
  match publish_call validate overflow c rq with
  | (Ok p, c') =>
      validate (rq_plan rq) = Ok tt /\ snapshots c' = snapshots c ++ [p] /\ pub_plan p = rq_plan rq
      /\ generation p = zlen (snapshots c) + 1 /\ zlen (snapshots c) <> U64_MAX
      /\ match rq_expected rq with Some e => zlen (snapshots c) = e | None => True end
  | (Err (Conflict cf), _) =>
      rq_expected rq = Some (pc_expected cf) /\ pc_found cf = zlen (snapshots c) /\ pc_found cf <> pc_expected cf
  | (Err (Invalid _), _) => (forall u, validate (rq_plan rq) <> Ok u) \/ zlen (snapshots c) = U64_MAX
  end.
Proof.
  intros C. unfold publish_call. destruct (validate (rq_plan rq)) as [[]|] eqn:V; [|by left].
  destruct (cell_ok_current _ _ C) as (cur & E & G & _). rewrite E. destruct (loop_checks overflow rq cur) as [e|] eqn:L.
  - unfold loop_checks in L. rewrite <- G. destruct (rq_expected rq) as [x|]; repeat case_split_in L; try done; injection L as <-; bools; cbn; auto.
  - destruct (swap_ok _ _ _ _ _ C E V L) as [_ N]. apply loop_checks_none in L as [M L]. unfold compare_and_swap. rewrite Nat.eqb_refl.
    cbn [snd snapshots]. split_and!; [done|done|done|by rewrite <- G|by rewrite <- G|]. destruct (rq_expected rq); [by rewrite <- G|done].
Qed.
End Cell.

(** ** Reads *)

Lemma alone_bind {S W A B} (p : process S W A) (k : A -> process S W B) s :
  alone (proc_bind p k) s = match alone p s with Some (a, s') => alone (k a) s' | None => None end.
Proof. revert s. induction p as [a| |f q IH|addr q IH|w q IH]; intros s; cbn; [done..|apply IH|done|done]. Qed.
Lemma alone_embed {S S' W W' A} (get : S' -> S) (put : S -> S' -> S') (wait : W -> W') (p : process S W A) s :
  (forall x s, get (put x s) = x) -> (forall s, put (get s) s = s) -> (forall x y s, put x (put y s) = put x s) ->
  alone (embed get put wait p) s = match alone p (get s) with Some (a, c) => Some (a, put c s) | None => None end.
Proof.
  intros GP PG PP. revert s. induction p as [a| |f k IH|addr k IH|w k IH]; intros s; cbn; try done; [by rewrite PG|].
  rewrite IH, GP. destruct (alone (k (get s)) (f (get s))) as [[a c]|]; [by rewrite PP|done].
Qed.
Lemma alone_control {A} (p : process Control Waiting A) s :
  alone (on_control p) s = match alone p (sx_control s) with Some (a, c) => Some (a, set_sx_control c s) | None => None end.
Proof. apply alone_embed; [done|by intros []|done]. Qed.
Lemma alone_datagrams {A} (p : dproc A) s :
  alone (on_datagrams p) s = match alone p (sx_datagrams s) with Some (a, c) => Some (a, set_sx_datagrams c s) | None => None end.
Proof. apply alone_embed; [done|by intros []|done]. Qed.
Lemma same_control s : set_sx_control (sx_control s) s = s.
Proof. by destruct s. Qed.
Lemma same_datagrams s : set_sx_datagrams (sx_datagrams s) s = s.
Proof. by destruct s. Qed.

Definition resource_missing (r : ScheduleResource) : TargetError :=
  match rs_transport r with StreamTransport => stream_missing r | DatagramTransport => datagram_missing r end.

Section Reads.
Context (s : Service) (I : service_ok s) (r : ScheduleResource).

(** What a history holds, and what the server reads of it. *)
Lemma newest_stream e : rs_transport r = StreamTransport -> rt_proxies (sx_control s) !! rs_proxy r = Some e ->
  let cell := policy_of (rs_direction r) (mp_spec e) in
  cell_wf cell /\ newest s r = Some (as_snapshot StreamPlan (load cell)) /\ generation (load cell) = zlen (snapshots cell).
Proof.
  intros T H. cbn. assert (C : cell_wf (policy_of (rs_direction r) (mp_spec e))) by (eapply policy_of_ok, (ok_entries _ (xk_control _ I)), H).
  split; [done|]. destruct (cell_ok_current _ _ C) as (p & E & G & _). unfold newest, history, load. rewrite T, H, E.
  split; [|done]. cbn. rewrite fmap_last. by rewrite <- (cell_last _ C), E.
Qed.
Lemma datagram_found m : dr_proxies (sx_datagrams s) !! rs_proxy r = Some m -> exists x, dr_states (sx_datagrams s) !! mg_state m = Some x
  /\ ds_name (px_spec x) = rs_proxy r /\ spec_ok (dr_limits (sx_datagrams s)) (px_spec x).
Proof.
  intros H. destruct (managed_found _ _ _ (xk_datagrams _ I) H) as [N _]. destruct (named_state _ _ _ N) as (x & Hx & Hn).
  exists x. split_and!; [done|done|]. by eapply state_spec; [apply I|].
Qed.
Lemma newest_datagram m x : rs_transport r = DatagramTransport -> dr_proxies (sx_datagrams s) !! rs_proxy r = Some m ->
  dr_states (sx_datagrams s) !! mg_state m = Some x ->
  let cell := plan_of (rs_direction r) (px_spec x) in
  dcell_ok cell /\ newest s r = Some (as_snapshot DatagramPlanOf (dload cell)) /\ generation (dload cell) = zlen (snapshots cell).
Proof.
  intros T H Hx. cbn. assert (C : dcell_ok (plan_of (rs_direction r) (px_spec x))).
  { destruct (datagram_found m H) as (y & Hy & _ & [_ _ U D _]). rewrite Hx in Hy. injection Hy as <-. by destruct (rs_direction r). }
  split; [done|]. destruct (cell_ok_current _ _ C) as (p & E & G & _). unfold newest, history, dload. rewrite T, H. cbn. rewrite Hx. cbn. rewrite E.
  split; [|done]. rewrite fmap_last. by rewrite <- (cell_last _ C), E.
Qed.

Lemma alone_snapshot : alone (target_snapshot r) s = Some (match newest s r with Some t => Ok t | None => Err (resource_missing r) end, s).
Proof.
  unfold target_snapshot, resource_missing. destruct (rs_transport r) eqn:T.
  - rewrite alone_bind, alone_control. cbn. rewrite same_control. unfold snapshot_policies_now.
    destruct (rt_proxies (sx_control s) !! rs_proxy r) as [e|] eqn:H; cbn.
    + destruct (newest_stream e T H) as (_ & -> & _). by destruct (rs_direction r).
    + unfold newest, history. by rewrite T, H.
  - unfold get_datagram_plan. rewrite alone_bind, alone_bind, alone_datagrams. cbn. rewrite same_datagrams.
    destruct (dr_proxies (sx_datagrams s) !! rs_proxy r) as [m|] eqn:H; cbn.
    + destruct (datagram_found m H) as (x & Hx & _ & _). destruct (newest_datagram m x T H Hx) as (_ & -> & _). rewrite Hx. done.
    + unfold newest, history. by rewrite T, H.
Qed.
Lemma alone_generation :
  alone (target_generation r) s = Some (match newest s r with Some t => Ok (ts_generation t) | None => Err (resource_missing r) end, s).
Proof.
  unfold target_generation, resource_missing. destruct (rs_transport r) eqn:T.
  - rewrite alone_bind, alone_control. cbn. rewrite same_control. unfold snapshot_policies_now.
    destruct (rt_proxies (sx_control s) !! rs_proxy r) as [e|] eqn:H; cbn.
    + destruct (newest_stream e T H) as (_ & -> & _). by destruct (rs_direction r).
    + unfold newest, history. by rewrite T, H.
  - unfold datagram_generations. rewrite alone_bind, alone_bind, alone_datagrams. cbn. rewrite same_datagrams.
    destruct (dr_proxies (sx_datagrams s) !! rs_proxy r) as [m|] eqn:H; cbn.
    + destruct (datagram_found m H) as (x & Hx & _ & _). destruct (newest_datagram m x T H Hx) as (_ & -> & _). rewrite Hx. cbn.
      rewrite H; cbn; rewrite Hx; cbn; rewrite same_datagrams. by destruct (rs_direction r).
    + unfold newest, history. by rewrite T, H.
Qed.
End Reads.

Lemma history_newest s r t : newest s r = Some t -> exists h, history s r = Some h /\ last h = Some t.
Proof. unfold newest. destruct (history s r) as [h|]; [|done]. cbn. eauto. Qed.

(** ** Publications *)

(** What a publication that succeeds does to the histories, and what an error
    says; nothing changes then. *)
Definition valid_plan (plan : TargetPlan) : bool :=
  match plan with
  | StreamPlan p => match plan_validate p with Ok _ => true | Err _ => false end
  | DatagramPlanOf p => match dplan_validate p with Ok _ => true | Err _ => false end
  end.
Definition published_one (s s' : Service) (r : ScheduleResource) (expected : Z) (plan : TargetPlan) : Prop :=
  exists h t, history s r = Some h /\ last h = Some t /\ ts_generation t = expected
    /\ history s' r = Some (h ++ [{| ts_generation := expected + 1; ts_plan := plan |}])
    /\ (forall r', r' <> r -> history s' r' = history s r')
    /\ rt_generation (sx_control s') = wadd (rt_generation (sx_control s)) 1.
Definition exhausted (s : Service) (r : ScheduleResource) : Prop := ts_generation <$> newest s r = Some U64_MAX.
Definition refused (s : Service) (r : ScheduleResource) (expected : Z) (plan : TargetPlan) (e : ControlError) : Prop :=
  match e with
  | ControlNotFound _ => newest s r = None
  | ControlInvalid _ => valid_plan plan = false \/ exhausted s r
  | ControlConflict _ => exists t, newest s r = Some t /\ ts_generation t <> expected
  | BindFailed _ _ | RestartFailed _ _ => False
  end.
Definition refused_well (s : Service) (r : ScheduleResource) (expected : Z) (plan : TargetPlan) (e : TargetError) : Prop :=
  match e with
  | MissingResource _ => newest s r = None
  | GenerationConflict wanted found => wanted = expected /\ found <> expected /\ ts_generation <$> newest s r = Some found
  | UnsupportedCapability _ =>
      match plan, rs_transport r with StreamPlan _, DatagramTransport | DatagramPlanOf _, StreamTransport => True | _, _ => False end
  | Validation _ => valid_plan plan = false \/ exhausted s r
  | Internal _ => False
  end.

Lemma error_alone r expected e s : service_ok s ->
  alone (map_publish_error r expected e) s = Some (match e with
    | ControlNotFound _ => missing ("proxy " +:+ rs_proxy r +:+ " not found")
    | ControlInvalid detail => invalid detail
    | ControlConflict _ => GenerationConflict expected (match newest s r with Some t => ts_generation t | None => expected end)
    | BindFailed _ reason | RestartFailed _ reason => internal reason
    end, s).
Proof.
  intros I. destruct e; try done. cbn [map_publish_error]. rewrite alone_bind, alone_generation by done. cbn. by destruct (newest s r).
Qed.

Lemma refused_alone r expected plan e s : service_ok s -> refused s r expected plan e ->
  exists e', alone (map_publish_error r expected e) s = Some (e', s) /\ refused_well s r expected plan e'.
Proof.
  intros I H. rewrite error_alone by done. eexists. split; [done|]. destruct e; cbn in *; [done| |done..].
  destruct H as (t & -> & N). done.
Qed.

(** *** Streams *)

Section Stream.
Context (s : Service) (I : service_ok s) (r : ScheduleResource) (expected : Z) (plan : FaultPlan) (ns : Z).
Context (T : rs_transport r = StreamTransport).

Definition published_entry (e : ManagedProxy) (cell : Policy.Stream.LivePolicy) : ManagedProxy :=
  set_spec e (set_direction (rs_direction r) cell plan (mp_spec e)).

Lemma stream_published e cell p : rt_proxies (sx_control s) !! rs_proxy r = Some e ->
  snapshots cell = snapshots (policy_of (rs_direction r) (mp_spec e)) ++ [p] -> generation p = expected + 1 -> pub_plan p = plan ->
  zlen (snapshots (policy_of (rs_direction r) (mp_spec e))) = expected ->
  published_one s (set_sx_control (set_generation (wadd (rt_generation (sx_control s)) 1)
    (insert_proxy (rs_proxy r) (published_entry e cell) (sx_control s))) s) r expected (StreamPlan plan).
Proof.
  intros H Hc G P L. destruct (newest_stream s I r e T H) as (C & N & Z). destruct (history_newest _ _ _ N) as (h & Hh & Ht).
  exists h, (as_snapshot StreamPlan (load (policy_of (rs_direction r) (mp_spec e)))). split_and!; [done|done|cbn; lia| | |done].
  - unfold history in *. rewrite T, H in *. cbn in *. rewrite lookup_insert_eq. cbn. injection Hh as <-. f_equal.
    assert (E : policy_of (rs_direction r) (set_direction (rs_direction r) cell plan (mp_spec e)) = cell) by (by destruct (rs_direction r)).
    rewrite E, Hc, map_app. cbn. unfold as_snapshot at 2. by rewrite G, P.
  - intros r' Hr. unfold history. destruct (rs_transport r') eqn:T'; [|done]. cbn.
    destruct (decide (rs_proxy r' = rs_proxy r)) as [E|E]; [|by rewrite lookup_insert_ne by congruence].
    rewrite E, lookup_insert_eq, H. cbn. assert (D : rs_direction r' <> rs_direction r) by (intros D; apply Hr; destruct r, r'; cbn in *; congruence).
    by destruct (rs_direction r), (rs_direction r').
Qed.

(** What the publication answers when nobody interrupts it. *)
Lemma publish_direction_alone : exists res s',
  alone (on_control (publish_direction_expected (rs_proxy r) (rs_direction r) plan ns expected)) s = Some (res, s')
  /\ match res with
     | Ok (g, own) => g = rt_generation (sx_control s') /\ own = expected + 1 /\ valid_plan (StreamPlan plan) = true /\ expected <> U64_MAX
         /\ published_one s s' r expected (StreamPlan plan)
     | Err e => s' = s /\ refused s r expected (StreamPlan plan) e
     end.
Proof.
  rewrite alone_control. cbn. destruct (rt_proxies (sx_control s) !! rs_proxy r) as [e|] eqn:H; cbn.
  - destruct (newest_stream s I r e T H) as (C & N & Z).
    pose proof (publish_call_history (overflow := GenerationOverflow) _ {| rq_plan := plan; rq_ns := ns; rq_expected := Some expected |} C) as P.
    unfold Policy.Stream.publish_plan_expected, publish_expected. destruct (publish_call _ _ _ _) as [[p|[e'|cf]] cell] eqn:Ep; cbn in *.
    + destruct P as (V & Hc & Pp & G & M & L). do 2 eexists. split; [done|]. cbn. rewrite V. split_and!; [done|lia|done|congruence|]. rewrite Pp.
      by apply (stream_published _ _ p); [..|lia| |].
    + rewrite same_control. do 2 eexists. split; [done|]. split; [done|]. cbn. destruct P as [P|P]; [left|right; unfold exhausted; rewrite N; cbn; congruence].
      destruct (plan_validate plan) as [u|]; [by destruct (P u)|done].
    + rewrite same_control. do 2 eexists. split; [done|]. split; [done|]. cbn. rewrite N. destruct P as ([= ->] & F & Ne).
      eexists. split; [done|]. cbn. lia.
  - rewrite same_control. do 2 eexists. split; [done|]. split; [done|]. cbn. unfold newest, history. by rewrite T, H.
Qed.

Lemma stream_target : exists res s', alone (target_publish r expected (StreamPlan plan) ns) s = Some (res, s')
  /\ match res with
     | Ok rc => rc_generation rc = expected + 1 /\ published_one s s' r expected (StreamPlan plan)
     | Err e => s' = s /\ refused_well s r expected (StreamPlan plan) e
     end.
Proof.
  unfold target_publish. rewrite T, alone_bind. destruct publish_direction_alone as (res & s' & -> & H). destruct res as [[g own]|e].
  - destruct H as (_ & -> & _ & _ & H). do 2 eexists. split; [done|]. by split.
  - destruct H as [-> H]. destruct (refused_alone _ _ _ _ s I H) as (e' & E & R). rewrite alone_bind, E. do 2 eexists. split; [done|]. by split.
Qed.
End Stream.

(** *** Datagrams *)

Section Datagrams.
Context (s : Service) (I : service_ok s) (r : ScheduleResource) (expected : Z) (plan : DatagramPlan) (ns : Z).
Context (T : rs_transport r = DatagramTransport).

Definition published_state (x : ProxyState) (cell : DatagramLivePolicy) : ProxyState :=
  set_px_spec (with_policy (rs_direction r) cell (px_spec x)) x.
Definition after_publication (p : nat) (x : ProxyState) : Service :=
  set_sx_control (set_generation (wadd (rt_generation (sx_control s)) 1) (sx_control s))
    (set_sx_datagrams (on_state p (fun _ => x) (sx_datagrams s)) s).

Lemma datagram_history p x r' : rs_transport r' = DatagramTransport -> history (after_publication p x) r' =
  (m ← dr_proxies (sx_datagrams s) !! rs_proxy r'; y ← alter (fun _ => x) p (dr_states (sx_datagrams s)) !! mg_state m;
   Some (map (as_snapshot DatagramPlanOf) (snapshots (plan_of (rs_direction r') (px_spec y))))).
Proof. intros T'. unfold history. by rewrite T'. Qed.

(** Two names have two states. *)
Lemma other_state name m m' x : dr_proxies (sx_datagrams s) !! rs_proxy r = Some m -> dr_states (sx_datagrams s) !! mg_state m = Some x ->
  dr_proxies (sx_datagrams s) !! name = Some m' -> name <> rs_proxy r -> mg_state m' <> mg_state m.
Proof.
  intros H Hx H' N E. destruct (managed_found _ _ _ (xk_datagrams _ I) H) as [A _]. destruct (managed_found _ _ _ (xk_datagrams _ I) H') as [B _].
  rewrite E in B. congruence.
Qed.

Lemma datagram_published m x cell p : dr_proxies (sx_datagrams s) !! rs_proxy r = Some m -> dr_states (sx_datagrams s) !! mg_state m = Some x ->
  snapshots cell = snapshots (plan_of (rs_direction r) (px_spec x)) ++ [p] -> generation p = expected + 1 -> pub_plan p = plan ->
  zlen (snapshots (plan_of (rs_direction r) (px_spec x))) = expected ->
  published_one s (after_publication (mg_state m) (published_state x cell)) r expected (DatagramPlanOf plan).
Proof.
  intros H Hx Hc G P L. destruct (newest_datagram s I r m x T H Hx) as (C & N & Z). destruct (history_newest _ _ _ N) as (h & Hh & Ht).
  exists h, (as_snapshot DatagramPlanOf (dload (plan_of (rs_direction r) (px_spec x)))). split_and!; [done|done|cbn; lia| | |done].
  - rewrite (datagram_history _ _ _ T), H. unfold history in Hh. rewrite T, H in Hh. cbn [mbind option_bind] in *.
    rewrite list_lookup_alter_eq, Hx. rewrite Hx in Hh. cbn in *. injection Hh as <-. f_equal. assert (E : plan_of (rs_direction r) (with_policy (rs_direction r) cell (px_spec x)) = cell) by (by destruct (rs_direction r)).
    rewrite E, Hc, map_app. cbn. unfold as_snapshot at 2. by rewrite G, P.
  - intros r' Hr. destruct (rs_transport r') eqn:T'; [unfold history; by rewrite T'|]. rewrite (datagram_history _ _ _ T').
    unfold history. rewrite T'. destruct (dr_proxies (sx_datagrams s) !! rs_proxy r') as [m'|] eqn:H'; cbn [mbind option_bind]; [|done].
    destruct (decide (rs_proxy r' = rs_proxy r)) as [E|E].
    + assert (m' = m) as -> by (rewrite E in H'; congruence). rewrite list_lookup_alter_eq, Hx. cbn.
      assert (D : rs_direction r' <> rs_direction r) by (intros D; apply Hr; destruct r, r'; cbn in *; congruence).
      by destruct (rs_direction r), (rs_direction r').
    + by rewrite list_lookup_alter_ne by (intros Em; by eapply (other_state _ m m' x H Hx H' E)).
Qed.

(** What the publication answers when nobody interrupts it: not the
    generation of the policy, but the global one. *)
Lemma publish_alone : exists res s', alone (publish_datagram_plan (rs_proxy r) (rs_direction r) plan ns (Some expected)) s = Some (res, s')
  /\ match res with
     | Ok g => g = rt_generation (sx_control s') /\ valid_plan (DatagramPlanOf plan) = true /\ expected <> U64_MAX
         /\ published_one s s' r expected (DatagramPlanOf plan)
     | Err e => s' = s /\ refused s r expected (DatagramPlanOf plan) e
     end.
Proof.
  unfold publish_datagram_plan. rewrite alone_bind, alone_datagrams. unfold publish_fault_plan.
  destruct (dplan_validate plan) as [[]|e] eqn:V.
  2: { cbn. rewrite same_datagrams. do 2 eexists. split; [done|]. split; [done|]. cbn. rewrite V. by left. }
  cbn [alone atomic]. destruct (dr_proxies (sx_datagrams s) !! rs_proxy r) as [m|] eqn:H; cbn [fst snd alone].
  - destruct (datagram_found s I r m H) as (x & Hx & _ & _). destruct (newest_datagram s I r m x T H Hx) as (C & N & Z). rewrite Hx.
    unfold publish_guarded. rewrite Z. destruct (Z.eqb_spec expected (zlen (snapshots (plan_of (rs_direction r) (px_spec x))))) as [L|L]; cbn [fst snd alone].
    + pose proof (publish_call_history (overflow := "generation overflow"%string) _ {| rq_plan := plan; rq_ns := ns; rq_expected := None |} C) as P.
      unfold Live.publish_plan, publish. destruct (publish_call _ _ _ _) as [[p|[e|cf]] cell] eqn:Ep; cbn [rq_plan rq_expected] in P.
      * destruct P as (_ & Hc & Pp & G & M & _). do 2 eexists. split; [reflexivity|]. cbn [valid_plan]. rewrite V. split_and!; [done|done|congruence|].
        by apply (datagram_published m x cell p); [..|lia| |].
      * cbn. rewrite same_datagrams. do 2 eexists. split; [done|]. split; [done|]. cbn. right. destruct P as [P|P]; [by destruct (P tt)|].
        unfold exhausted. rewrite N. cbn. congruence.
      * by destruct P as [P _].
    + cbn. rewrite same_datagrams. do 2 eexists. split; [done|]. split; [done|]. cbn. eexists. split; [exact N|]. cbn. lia.
  - cbn. rewrite same_datagrams. do 2 eexists. split; [done|]. split; [done|]. cbn. unfold newest, history. by rewrite T, H.
Qed.
End Datagrams.

(** The receipt is what the proxy says afterwards. *)
Lemma alone_plan s r : service_ok s -> rs_transport r = DatagramTransport ->
  exists res, alone (get_datagram_plan (rs_proxy r) (rs_direction r)) s = Some (res, s)
  /\ match res with
     | Ok (plan, g, _) => newest s r = Some {| ts_generation := g; ts_plan := DatagramPlanOf plan |}
     | Err _ => newest s r = None
     end.
Proof.
  intros I T. unfold get_datagram_plan. rewrite alone_bind, alone_datagrams. cbn. rewrite same_datagrams. eexists. split; [done|].
  destruct (dr_proxies (sx_datagrams s) !! rs_proxy r) as [m|] eqn:H; cbn.
  - destruct (datagram_found s I r m H) as (x & Hx & _ & _). destruct (newest_datagram s I r m x T H Hx) as (_ & -> & _). by rewrite Hx.
  - unfold newest, history. by rewrite T, H.
Qed.

Lemma alone_safe {A} (p : sproc A) s a s' : service_ok s -> ssafe p s (fun _ _ => True) -> alone p s = Some (a, s') -> service_ok s'.
Proof.
  revert s. induction p as [x| |f k IH|addr k IH|w k IH]; cbn; intros s I H; try done; [by intros [= _ <-]|].
  destruct (H s) as (I1 & _ & P); [done|done|]. by apply IH.
Qed.

Lemma published_newest s s' r expected plan : published_one s s' r expected plan ->
  newest s' r = Some {| ts_generation := expected + 1; ts_plan := plan |}.
Proof. intros (h & t & _ & _ & _ & E & _). unfold newest. rewrite E. cbn. by rewrite last_snoc. Qed.

Lemma datagram_target s r expected plan ns : service_ok s -> rs_transport r = DatagramTransport ->
  exists res s', alone (target_publish r expected (DatagramPlanOf plan) ns) s = Some (res, s')
  /\ match res with
     | Ok rc => rc_generation rc = expected + 1 /\ published_one s s' r expected (DatagramPlanOf plan)
     | Err e => s' = s /\ refused_well s r expected (DatagramPlanOf plan) e
     end.
Proof.
  intros I T. unfold target_publish. rewrite T, alone_bind. destruct (publish_alone s I r expected plan ns T) as (res & s' & E & H). rewrite E.
  assert (I' : service_ok s') by (eapply alone_safe; [exact I| |exact E]; by apply publish_plan_safe).
  destruct res as [g|e].
  - destruct H as (_ & _ & _ & H). destruct (alone_plan s' r I' T) as (found & F & M). rewrite (published_newest _ _ _ _ _ H) in M.
    rewrite alone_bind, F. destruct found as [[[p g'] sd]|]; [|done]. injection M as <- _. do 2 eexists. split; [done|]. by split.
  - destruct H as [-> H]. destruct (refused_alone _ _ _ _ s I H) as (e' & E' & R). rewrite alone_bind, E'. do 2 eexists. split; [done|]. by split.
Qed.

(** ** The contract *)

Lemma publish_target s r expected plan ns : service_ok s ->
  exists res s', alone (target_publish r expected plan ns) s = Some (res, s') /\ service_ok s'
  /\ match res with
     | Ok rc => rc_generation rc = expected + 1 /\ published_one s s' r expected plan
     | Err e => s' = s /\ refused_well s r expected plan e
     end.
Proof.
  intros I. assert (H : exists res s', alone (target_publish r expected plan ns) s = Some (res, s')
    /\ match res with Ok rc => rc_generation rc = expected + 1 /\ published_one s s' r expected plan
       | Err e => s' = s /\ refused_well s r expected plan e end).
  { destruct plan as [plan|plan], (rs_transport r) eqn:T.
    - by apply stream_target.
    - unfold target_publish. rewrite T. do 2 eexists. split; [done|]. split; [done|]. cbn. by rewrite T.
    - unfold target_publish. rewrite T. do 2 eexists. split; [done|]. split; [done|]. cbn. by rewrite T.
    - by apply datagram_target. }
  destruct H as (res & s' & E & H). exists res, s'. split_and!; [done| |done].
  eapply alone_safe; [exact I| |exact E]. by apply target_publish_safe.
Qed.

(** Other publications only add to a history. *)
Definition histories_grow (s s' : Service) : Prop := forall r,
  match history s r, history s' r with Some h, Some h' => h `prefix_of` h' | None, None => True | _, _ => False end.
Record service_evolves (s s' : Service) : Prop := {
  sv_ok : service_ok s -> service_ok s';
  sv_histories : histories_grow s s'
}.
#[export] Instance service_evolves_preorder : PreOrder service_evolves.
Proof.
  split.
  - intros s. split; [done|]. intros r. by destruct (history s r).
  - intros a b c [A1 A2] [B1 B2]. split; [auto|]. intros r. specialize (A2 r). specialize (B2 r).
    destruct (history a r), (history b r), (history c r); try done. by etrans.
Qed.

Lemma newest_length s r h t : service_ok s -> history s r = Some h -> newest s r = Some t -> ts_generation t = zlen h.
Proof.
  intros I Hh Ht. destruct (rs_transport r) eqn:T; unfold history in Hh; rewrite T in Hh.
  - destruct (rt_proxies (sx_control s) !! rs_proxy r) as [e|] eqn:H; [|done]. injection Hh as <-.
    destruct (newest_stream s I r e T H) as (_ & N & Z). rewrite N in Ht. injection Ht as <-. cbn. by rewrite Z, zlen_map.
  - destruct (dr_proxies (sx_datagrams s) !! rs_proxy r) as [m|] eqn:H; [|done]. destruct (datagram_found s I r m H) as (x & Hx & _ & _).
    cbn in Hh. rewrite Hx in Hh. injection Hh as <-. destruct (newest_datagram s I r m x T H Hx) as (_ & N & Z).
    rewrite N in Ht. injection Ht as <-. cbn. by rewrite Z, zlen_map.
Qed.

Lemma published_evolves s s' r expected plan : service_ok s' -> published_one s s' r expected plan -> service_evolves s s'.
Proof.
  intros I (h & t & E & _ & _ & E' & O & _). split; [done|]. intros r'. destruct (decide (r' = r)) as [->|N].
  - rewrite E, E'. by eexists.
  - rewrite O by done. by destruct (history s r').
Qed.

Lemma service_snapshot_ok s r t : service_ok s -> pt_snapshot s r = Ok t <-> newest s r = Some t.
Proof. intros I. cbn. unfold at_once. rewrite alone_snapshot by done. cbn. destruct (newest s r); naive_solver. Qed.
Lemma service_generation_ok s r g : service_ok s -> pt_current_generation s r = Ok g <-> ts_generation <$> newest s r = Some g.
Proof. intros I. cbn. unfold at_once. rewrite alone_generation by done. cbn. destruct (newest s r); naive_solver. Qed.

#[export] Instance Service_target_ok : PolicyTargetOk Service.
Proof.
  refine {| pt_ok := service_ok; pt_evolves := service_evolves |}.
  - by intros t t' [].
  - intros t t' r p p' I Ev H H'. apply service_snapshot_ok in H; [|done]. apply service_snapshot_ok in H'; [|by apply Ev].
    destruct (history_newest _ _ _ H) as (h & Eh & L), (history_newest _ _ _ H') as (h' & Eh' & L').
    pose proof (sv_histories _ _ Ev r) as P. rewrite Eh, Eh' in P. destruct P as [k ->].
    rewrite (newest_length _ _ _ _ I Eh H), (newest_length _ _ _ _ (sv_ok _ _ Ev I) Eh' H'), zlen_app.
    pose proof (zlen_nonneg k). split; [lia|]. intros Z. assert (k = []) as -> by (apply zlen_zero_inv; lia).
    rewrite app_nil_r in L'. congruence.
  - intros t r g I. rewrite service_generation_ok by done. split.
    + intros H. destruct (newest t r) as [[g' plan]|] eqn:N; [|done]. injection H as <-. exists plan. by apply service_snapshot_ok.
    + intros (plan & H). apply service_snapshot_ok in H; [|done]. by rewrite H.
  - intros t r expected plan ns rc t' I H. cbn in H. unfold at_once in H.
    destruct (publish_target t r expected plan ns I) as (res & s' & E & I' & R). rewrite E in H. injection H as -> ->. destruct R as [G P].
    rewrite service_generation_ok, service_snapshot_ok by done. rewrite G, (published_newest _ _ _ _ _ P).
    split_and!; [|lia|done|by eapply published_evolves]. destruct P as (h & x & Eh & L & <- & _). unfold newest. rewrite Eh. cbn. by rewrite L.
  - intros t r expected plan ns e t' I H. cbn in H. unfold at_once in H.
    destruct (publish_target t r expected plan ns I) as (res & s' & E & I' & R). rewrite E in H. injection H as -> ->. by destruct R.
Defined.

(** C13: the server keeps what it promises the driver of a schedule.  A snapshot
    is the newest plan of the resource, or the resource is missing.  A
    publication nobody interrupts succeeds only over the generation it expects:
    it appends the plan to the history of that resource, as the next
    generation, changes no other history, and its receipt is that generation.
    Otherwise it changes nothing, and its error is true: missing, of the wrong
    transport, invalid, or moved to the generation it names.  With these laws
    ([Service_target_ok]) the theorems of the schedule driver apply to the
    server. *)
Theorem server_target_keeps_the_contract s r expected plan ns : service_ok s ->
  alone (target_snapshot r) s = Some (match newest s r with Some t => Ok t | None => Err (resource_missing r) end, s)
  /\ exists res s', alone (target_publish r expected plan ns) s = Some (res, s') /\ service_ok s'
     /\ match res with
        | Ok rc => rc_generation rc = expected + 1 /\ published_one s s' r expected plan
        | Err e => s' = s /\ refused_well s r expected plan e
        end.
Proof. intros I. split; [by apply alone_snapshot|by apply publish_target]. Qed.
