(* ===== verification/ServiceRun.v ===== *)
(** * Runs of the service

    What an event of a scenario does when nobody interrupts it, what no
    interleaving breaks, and the interleavings in which operations that succeed
    alone undo or confuse each other. *)

From Stdlib Require Import Bool.
From stdpp Require Import base list gmap strings relations.
From S2P Require Import Prelude Rng Float64 Plan Policy Env DatagramPlan Schedule Fingerprint Target Driver Wire WireSchedule Server Tasks Control ControlInv UdpState UdpRuntime UdpInv UdpSafe UdpRun Scenario Service ServiceProps ServiceTarget.

(** ** One event *)

Definition opposite (r : ScheduleResource) : ScheduleResource :=
  {| rs_proxy := rs_proxy r; rs_direction := other_direction (rs_direction r); rs_transport := rs_transport r |}.

(** The plan an action asks for, over the plan in force. *)
Definition action_next (s : Service) (action : ScenarioAction) (base : TargetPlan) : option TargetPlan :=
  match action, base with
  | SetPlan _ _ fs, StreamPlan _ => Some (StreamPlan {| faults := fs |})
  | RemoveFault _ _ id, StreamPlan b => if is_none (plan_get b id) then None else Some (StreamPlan (without_fault b id))
  | SetDatagramPlan _ _ fs, DatagramPlanOf _ =>
      match newest s (opposite (action_resource action)) with
      | Some {| ts_plan := DatagramPlanOf other |} => if shares_id fs (dp_faults other) then None else Some (DatagramPlanOf {| dp_faults := fs |})
      | _ => None
      end
  | RemoveDatagramFault _ _ id, DatagramPlanOf b => if has_fault id (dp_faults b) then Some (DatagramPlanOf {| dp_faults := without_id id (dp_faults b) |}) else None
  | _, _ => None
  end.
(** What an event publishes, and over what. *)
Definition event_next (s : Service) (action : ScenarioAction) : option (TargetSnapshot * TargetPlan) :=
  t ← newest s (action_resource action);
  next ← action_next s action (ts_plan t);
  if valid_plan next && negb (ts_generation t =? U64_MAX) then Some (t, next) else None.

Definition action_label (action : ScenarioAction) : string :=
  match action with
  | SetPlan _ _ _ => "set-plan" | RemoveFault _ _ _ => "remove-fault"
  | SetDatagramPlan _ _ _ => "set-datagram-plan" | RemoveDatagramFault _ _ _ => "remove-datagram-fault"
  end.
(** The trail: for a datagram event, the global generation stands where that
    of the policy should. *)
Definition trail_of (s s' : Service) (index : Z) (event : ScenarioEvent) (t : TargetSnapshot) (e : ScenarioEventResult) : Prop :=
  let r := action_resource (sn_action event) in
  let both := (se_upstream_generation e, se_downstream_generation e) in
  se_index e = index /\ se_at_ms e = sn_at_ms event /\ se_action e = action_label (sn_action event)
  /\ se_proxy e = rs_proxy r /\ se_direction e = rs_direction r /\ se_global_generation e = rt_generation (sx_control s')
  /\ Some (pick (rs_direction (opposite r)) both) = ts_generation <$> newest s (opposite r)
  /\ pick (rs_direction r) both = match rs_transport r with
                                  | StreamTransport => ts_generation t + 1
                                  | DatagramTransport => rt_generation (sx_control s')
                                  end.

Lemma alone_policies s name : service_ok s -> exists found, alone (on_control (snapshot_policies name)) s = Some (found, s)
  /\ forall r, rs_proxy r = name -> rs_transport r = StreamTransport ->
     newest s r = option_map (fun both => as_snapshot StreamPlan (directional_plan (rs_direction r) both)) found.
Proof.
  intros I. rewrite alone_control. cbn. rewrite same_control. eexists. split; [done|]. intros r <- T. unfold snapshot_policies_now.
  destruct (rt_proxies (sx_control s) !! rs_proxy r) as [e|] eqn:H; cbn.
  - destruct (newest_stream s I r e T H) as (_ & -> & _). by destruct (rs_direction r).
  - unfold newest, history. by rewrite T, H.
Qed.

(** What the Rust types promise of an event ([Probability]). *)
Definition event_typed (event : ScenarioEvent) : Prop :=
  match sn_action event with
  | SetPlan _ _ fs => Forall (fun f => probability_in_range (fs_probability f) = true) fs
  | _ => True
  end.
Lemma plan_new_typed fs : Forall (fun f => probability_in_range (fs_probability f) = true) fs ->
  plan_new fs = let? _u := plan_validate {| faults := fs |} in Ok {| faults := fs |}.
Proof.
  intros P. unfold plan_new, plan_validate. cbn [faults]. destruct (_ <? _); [done|]. by rewrite (plan_new_loop_validate ∅ fs P).
Qed.

Section Alone.
Context (s : Service) (I : service_ok s) (seed run index : Z) (event : ScenarioEvent).
Local Abbreviation r := (action_resource (sn_action event)).

Definition event_outcome (res : result ScenarioEventResult string) (s' : Service) : Prop :=
  match event_next s (sn_action event) with
  | Some (t, next) => exists e, res = Ok e /\ published_one s s' r (ts_generation t) next /\ trail_of s s' index event t e
  | None => s' = s /\ exists message, res = Err message
  end.

Lemma nothing_next : newest s r = None -> event_next s (sn_action event) = None.
Proof. intros N. unfold event_next. by rewrite N. Qed.
(** A refusal of the plan asked for is of an event that has none to publish. *)
Lemma refused_next t next e : newest s r = Some t -> action_next s (sn_action event) (ts_plan t) = Some next ->
  refused s r (ts_generation t) next e -> event_next s (sn_action event) = None.
Proof.
  intros N A R. unfold event_next. rewrite N. cbn. rewrite A. cbn. destruct e; cbn in R; [congruence| | |done|done].
  - destruct R as (t' & N' & Ne). congruence.
  - destruct R as [->|X]; [done|]. unfold exhausted in X. rewrite N in X. injection X as ->. by rewrite Z.eqb_refl, andb_false_r.
Qed.
Lemma accepted_next t next : newest s r = Some t -> action_next s (sn_action event) (ts_plan t) = Some next ->
  valid_plan next = true -> ts_generation t <> U64_MAX -> event_next s (sn_action event) = Some (t, next).
Proof. intros N A V M. unfold event_next. rewrite N. cbn. rewrite A. cbn. rewrite V. by apply Z.eqb_neq in M as ->. Qed.

Lemma stream_next base : rs_transport r = StreamTransport -> event_typed event ->
  match next_stream_plan event (rs_proxy r) base with
  | Some (Ok (plan, label)) => action_next s (sn_action event) (StreamPlan base) = Some (StreamPlan plan) /\ label = action_label (sn_action event)
  | Some (Err _) => match action_next s (sn_action event) (StreamPlan base) with Some next => valid_plan next = false | None => True end
  | None => False
  end.
Proof.
  unfold next_stream_plan, event_typed. destruct (sn_action event) as [p d fs|p d id|p d fs|p d id]; intros T Ty; try done.
  - rewrite (plan_new_typed _ Ty). cbn. by destruct (plan_validate {| faults := fs |}) as [[]|].
  - cbn. by destruct (is_none (plan_get base id)).
Qed.

Lemma stream_event_alone : rs_transport r = StreamTransport -> event_typed event ->
  exists res s', alone (stream_event seed run index event (rs_proxy r) (rs_direction r)) s = Some (res, s') /\ event_outcome res s'.
Proof.
  intros T Ty. unfold stream_event, event_outcome. destruct (alone_policies s (rs_proxy r) I) as (found & E & F). rewrite alone_bind, E.
  pose proof (F r eq_refl T) as N. destruct found as [both|]; cbn [option_map] in N.
  2: { rewrite (nothing_next N). do 2 eexists. split; [done|]. split; [done|]. by eexists. }
  set (base := directional_plan (rs_direction r) both) in *. pose proof (stream_next (pub_plan base) T Ty) as S.
  destruct (next_stream_plan event (rs_proxy r) (pub_plan base)) as [[[plan label]|m]|]; [| |done].
  - destruct S as [A ->]. rewrite alone_bind.
    destruct (publish_direction_alone s I r (generation base) plan (derive_policy_seed seed run index) T) as (res & s' & -> & H).
    destruct res as [[g own]|e].
    + destruct H as (-> & -> & V & M & P). rewrite (accepted_next _ _ N A V M). do 2 eexists. split; [done|]. eexists. split; [done|].
      split; [done|]. unfold trail_of. rewrite T. rewrite (F (opposite r) eq_refl T). unfold opposite. cbn. unfold both_generations.
      by destruct (rs_direction r).
    + destruct H as [-> R]. rewrite (refused_next _ _ _ N A R). do 2 eexists. split; [done|]. split; [done|]. by eexists.
  - assert (X : event_next s (sn_action event) = None).
    { unfold event_next. rewrite N. cbn. destruct (action_next s (sn_action event) (StreamPlan (pub_plan base))) as [next|]; [|done]. cbn. by rewrite S. }
    rewrite X. do 2 eexists. split; [done|]. split; [done|]. by eexists.
Qed.

Lemma alone_other t r' : service_ok t -> rs_transport r' = DatagramTransport ->
  exists res, alone (get_datagram_plan (rs_proxy r') (other_direction (rs_direction r'))) t = Some (res, t)
  /\ match res with
     | Ok (plan, g, _) => newest t (opposite r') = Some {| ts_generation := g; ts_plan := DatagramPlanOf plan |}
     | Err _ => newest t (opposite r') = None
     end.
Proof. intros It T. exact (alone_plan t (opposite r') It T). Qed.

Lemma datagram_next base : rs_transport r = DatagramTransport ->
  exists res, alone (next_datagram_faults event (rs_proxy r) (rs_direction r) base) s = Some (res, s)
  /\ match res with
     | Ok (fs, label) => action_next s (sn_action event) (DatagramPlanOf base) = Some (DatagramPlanOf {| dp_faults := fs |})
         /\ label = action_label (sn_action event)
     | Err _ => match action_next s (sn_action event) (DatagramPlanOf base) with Some next => valid_plan next = false | None => True end
     end.
Proof.
  unfold next_datagram_faults. destruct (sn_action event) as [p d fs|p d id|p d fs|p d id] eqn:A; intros T; try done.
  - unfold dplan_new. destruct (dplan_validate {| dp_faults := fs |}) as [[]|e] eqn:V.
    + destruct (alone_other s (action_resource (SetDatagramPlan p d fs)) I T) as (res & E & N). unfold plan_or_fail. cbn -[alone get_datagram_plan newest opposite] in *.
      rewrite alone_bind, alone_bind, E. cbn -[newest opposite]. destruct res as [[[other g] sd]|e]; cbn -[newest opposite] in *; rewrite N.
      * destruct (shares_id fs (dp_faults other)); by eexists.
      * by eexists.
    + eexists. split; [done|]. cbn -[newest opposite]. destruct (newest s _) as [[g [|other]]|]; [done| |done]. destruct (shares_id _ _); [done|]. cbn. by rewrite V.
  - cbn. destruct (has_fault id (dp_faults base)); by eexists.
Qed.

Lemma opposite_found : rs_transport r = DatagramTransport -> forall t, newest s r = Some t -> newest s (opposite r) <> None.
Proof.
  intros T t N. unfold newest, history in N |- *. cbn. rewrite T in *. destruct (dr_proxies (sx_datagrams s) !! rs_proxy r) as [m|] eqn:H; [|done].
  destruct (datagram_found s I (opposite r) m H) as (x & Hx & _ & _). destruct (newest_datagram s I (opposite r) m x T H Hx) as (_ & N' & _).
  unfold newest, history in N'. cbn in N'. rewrite T, H in N'. cbn in *. by rewrite N'.
Qed.
Lemma opposite_other (x : ScheduleResource) : opposite x <> x.
Proof. destruct x as [p [] t]; by intros [=]. Qed.

(** After the publication the directions still share no id. *)
Lemma recheck_alone base t g next : service_ok t -> is_set (sn_action event) = true -> rs_transport r = DatagramTransport ->
  action_next s (sn_action event) (DatagramPlanOf base) = Some (DatagramPlanOf next) ->
  newest t r = Some {| ts_generation := g; ts_plan := DatagramPlanOf next |} -> newest t (opposite r) = newest s (opposite r) ->
  alone (recheck (rs_proxy r) (rs_direction r) base) t = Some (false, t).
Proof.
  intros It Is T A N O. unfold recheck. destruct (alone_other t r It T) as (res & E & M). rewrite alone_bind, E.
  destruct res as [[[other go] so]|]; [|done]. destruct (alone_plan t r It T) as (res & E' & M'). rewrite alone_bind, E'.
  destruct res as [[[own gw] sw]|]; [|done]. rewrite O in M. rewrite N in M'. injection M' as _ <-.
  destruct (sn_action event) as [p d fs|p d id|p d fs|p d id]; try done. cbn -[newest opposite action_resource] in A. rewrite M in A.
  destruct (shares_id fs (dp_faults other)) eqn:S; [done|]. injection A as <-. cbn -[shares_id]. by rewrite S.
Qed.

Lemma datagram_event_alone : rs_transport r = DatagramTransport ->
  exists res s', alone (datagram_event seed run index event (rs_proxy r) (rs_direction r)) s = Some (res, s') /\ event_outcome res s'.
Proof.
  intros T. unfold datagram_event, plan_or_fail, event_outcome. destruct (alone_plan s r I T) as (res & E & N). rewrite alone_bind, alone_bind, E. cbn [alone].
  destruct res as [[[base g] sd]|e]; cbn [map_err].
  2: { rewrite (nothing_next N). do 2 eexists. split; [done|]. split; [done|]. by eexists. }
  destruct (datagram_next base T) as (res & E1 & A). rewrite alone_bind, E1. destruct res as [[fs label]|m].
  2: { assert (X : event_next s (sn_action event) = None).
    { unfold event_next. rewrite N. cbn. destruct (action_next s (sn_action event) (DatagramPlanOf base)) as [next|]; [|done]. cbn. by rewrite A. }
    rewrite X. do 2 eexists. split; [done|]. split; [done|]. by eexists. }
  destruct A as [A ->]. unfold dplan_new. destruct (dplan_validate {| dp_faults := fs |}) as [[]|e] eqn:V.
  2: { assert (X : event_next s (sn_action event) = None) by (unfold event_next; rewrite N; cbn; rewrite A; cbn; by rewrite V).
    rewrite X. do 2 eexists. split; [done|]. split; [done|]. by eexists. }
  destruct (publish_alone s I r g {| dp_faults := fs |} (derive_policy_seed seed run index) T) as (res & s' & E2 & H). rewrite alone_bind, E2.
  destruct res as [gen|e].
  2: { destruct H as [-> R]. rewrite (refused_next _ _ _ N A R). do 2 eexists. split; [done|]. split; [done|]. by eexists. }
  assert (I' : service_ok s') by (eapply alone_safe; [exact I| |exact E2]; by apply publish_plan_safe).
  destruct H as (-> & Vp & M & P). rewrite (accepted_next _ _ N A Vp M).
  assert (O : newest s' (opposite r) = newest s (opposite r)).
  { destruct P as (h & t & _ & _ & _ & _ & K & _). unfold newest. by rewrite (K _ (opposite_other r)). }
  rewrite alone_bind. assert (D : alone (if is_set (sn_action event) then recheck (rs_proxy r) (rs_direction r) base else Ret false) s' = Some (false, s')).
  { destruct (is_set (sn_action event)) eqn:Is; [|done]. eapply recheck_alone; [done|done|done|exact A|by eapply published_newest|done]. }
  rewrite D. destruct (alone_other s' r I' T) as (res & E3 & L). rewrite alone_bind, E3.
  destruct res as [[[other go] so]|e]; [|by destruct (opposite_found T _ N); rewrite <- O].
  rewrite alone_bind, alone_control. cbn [alone generation_now observe atomic fst snd]. rewrite same_control.
  do 2 eexists. split; [done|]. eexists. split; [done|]. split; [done|]. unfold trail_of. rewrite T, <- O, L. unfold opposite. cbn. unfold both_generations.
  by destruct (rs_direction r).
Qed.
End Alone.

(** C14: an event nobody interrupts does exactly what it says.  It publishes the
    plan its action asks for - the replacement, or the plan in force without
    one fault - over the generation it found: that history gains this one plan
    and no other changes, and the trail records where.  When there is nothing
    to publish - the proxy or the fault is missing, the plan is invalid, its
    ids are taken by the other direction, or the generations are exhausted -
    the run fails and nothing has changed.  The trail is not all it should be:
    of a datagram event it gives the global generation for the policy's. *)
Theorem scenario_events_apply_exactly s seed run index event proxy d : service_ok s -> event_typed event ->
  action_target (sn_action event) = (proxy, d) ->
  exists res s', alone (scenario_event seed run index event proxy d) s = Some (res, s') /\ service_ok s' /\ event_outcome s index event res s'.
Proof.
  intros I Ty A. assert (H : exists res s', alone (scenario_event seed run index event proxy d) s = Some (res, s') /\ event_outcome s index event res s').
  { assert (E : proxy = rs_proxy (action_resource (sn_action event)) /\ d = rs_direction (action_resource (sn_action event)))
      by (by destruct (sn_action event); injection A as -> ->).
    destruct E as [-> ->]. unfold scenario_event.
    pose proof (stream_event_alone s I seed run index event) as St. pose proof (datagram_event_alone s I seed run index event) as Dg.
    destruct (sn_action event); [by apply St|by apply St|by apply Dg|by apply Dg]. }
  destruct H as (res & s' & E & H). exists res, s'. split_and!; [done| |done]. eapply alone_safe; [exact I| |exact E]. by apply scenario_event_safe.
Qed.

(** ** Every run *)

(** What holds of every policy: generations count from one. *)
Definition histories_count (s : Service) : Prop := forall r h, history s r = Some h ->
  h <> [] /\ forall i t, h !! i = Some t -> ts_generation t = Z.of_nat i + 1 /\ valid_plan (ts_plan t) = true.

Lemma cell_counts {P F} (validate : P -> result unit F) (wrap : P -> TargetPlan) c : cell_ok validate c ->
  (forall p, validate p = Ok tt -> valid_plan (wrap p) = true) ->
  map (as_snapshot wrap) (snapshots c) <> [] /\ forall i t, map (as_snapshot wrap) (snapshots c) !! i = Some t ->
    ts_generation t = Z.of_nat i + 1 /\ valid_plan (ts_plan t) = true.
Proof.
  intros [C _ G V] W. split; [by destruct (snapshots c)|]. intros i t. rewrite lookup_map. destruct (snapshots c !! i) as [p|] eqn:E; [|done].
  intros [= <-]. split; [by eapply G|]. apply W. by eapply Forall_lookup_1 in V.
Qed.
Lemma service_counts s : service_ok s -> histories_count s.
Proof.
  intros I r h H. unfold history in H. destruct (rs_transport r) eqn:T.
  - destruct (rt_proxies (sx_control s) !! rs_proxy r) as [e|] eqn:Hp; [|done]. injection H as <-.
    destruct (newest_stream s I r e T Hp) as (C & _). eapply cell_counts; [exact C|]. intros p V. cbn. by rewrite V.
  - destruct (dr_proxies (sx_datagrams s) !! rs_proxy r) as [m|] eqn:Hp; [|done]. destruct (datagram_found s I r m Hp) as (x & Hx & _).
    cbn in H. rewrite Hx in H. injection H as <-. destruct (newest_datagram s I r m x T Hp Hx) as (C & _).
    eapply cell_counts; [exact C|]. intros p V. cbn. by rewrite V.
Qed.

(** C12: the parts of the service keep their invariants together.  In every
    state that any interleaving of calls, listeners, supervisors, workers,
    scenario runs and schedules reaches, the control plane and the datagram
    runtime satisfy the invariants they have alone; the plans of every policy,
    stream or datagram, are valid and their generations are 1, 2, 3, ...; each
    family holds at most 32 runs and no token without its run; every run has
    applied exactly the events of its trail; and no operation, and no run, has
    panicked - the [unreachable!] of a datagram event included. *)
Theorem service_invariant sha256 seed limits rs s : limits_typed limits -> Forall service_typed rs ->
  rtc service_step (service_initial sha256 (service_new seed limits) rs) s ->
  let x := sys_state s in
  control_ok (sx_control x) /\ datagrams_ok (sx_datagrams x) /\ histories_count x
  /\ (size (fm_runs (rg_v1 (sx_registry x))) <= 32)%nat /\ (size (fm_runs (rg_v2 (sx_registry x))) <= 32)%nat
  /\ (forall run, fm_runs (rg_v1 (sx_registry x)) !! run = None -> fm_tokens (rg_v1 (sx_registry x)) !! run = None)
  /\ (forall run, fm_runs (rg_v2 (sx_registry x)) !! run = None -> fm_tokens (rg_v2 (sx_registry x)) !! run = None)
  /\ (forall run r, fm_runs (rg_v1 (sx_registry x)) !! run = Some r -> sr_applied r = zlen (sr_trail r))
  /\ Panic ∉ sys_calls s.
Proof.
  intros L T H. pose proof (service_pool_run _ _ (service_pool_initial sha256 _ rs (service_new_ok seed _ L) T) H) as [I S].
  assert (N : forall R (f : Family R) run, dom (fm_tokens f) ⊆ dom (fm_runs f) -> fm_runs f !! run = None -> fm_tokens f !! run = None).
  { intros R f run D Hr. apply not_elem_of_dom. apply not_elem_of_dom in Hr. set_solver. }
  pose proof I as [C D [B1 D1] [B2 D2] K]. split_and!; try done.
  - by apply service_counts.
  - intros run. by apply N.
  - intros run. by apply N.
  - intros [i Hi]%list_elem_of_lookup. exact (S i Panic Hi).
Qed.

(** ** Concrete runs *)

Definition no_hash (b : bytes) : bytes := b.
Definition loss_fault (id : string) : DatagramFaultSpec := {| dg_id := id; dg_probability := f64_one; dg_kind := DLoss |}.
Definition loss_plan (ids : list string) : DatagramPlan := {| dp_faults := map loss_fault ids |}.
Definition dns_up : ScheduleResource := {| rs_proxy := "dns"; rs_direction := Upstream; rs_transport := DatagramTransport |}.
Definition steps_of (i n : nat) : list (move ServiceEvent) := repeat (Call i) n.
Definition create_service_dns : list (move ServiceEvent) := Call 0 :: Answer 0 (Bound (loopback_port 5001)) :: steps_of 0 5.
Definition service_start (rs : list service_request) : ServiceSystem :=
  service_initial no_hash (service_new 7 runtime_limits_default) (SqCreateDatagram dns :: rs).
Definition loss_scenario : Scenario := {| sn_version := 1; sn_seed := 5;
  sn_events := [{| sn_at_ms := 0; sn_action := SetDatagramPlan "dns" Upstream [loss_fault "x"] |}] |}.

(** What the calls after the creation have answered. *)
Definition answers (s : ServiceSystem) : list (option service_response) :=
  map (fun p => match p with Ret a => Some a | _ => None end) (tail (sys_calls s)).

(** Faults that were refused stay active.  Two calls add the fault [x] to
    one direction each; both see the other direction without it and publish;
    both then find the duplicate and take theirs back - but only over the
    generation they have read, and each reads before someone else publishes
    once more, so both rollbacks fail, unnoticed.  Both callers are told that
    the id is not unique, and [x] is in force in both directions, which no
    successful call allows. *)
Theorem refused_faults_stay_active : exists s up down,
  rtc service_step (service_start
    [SqAddDatagramFault "dns" Upstream (loss_fault "x"); SqAddDatagramFault "dns" Downstream (loss_fault "x");
     SqAddDatagramFault "dns" Upstream (loss_fault "y"); SqAddDatagramFault "dns" Downstream (loss_fault "z");
     SqListDatagramFaults "dns"]) s
  /\ answers s = [Some (SsFault (Err not_unique)); Some (SsFault (Err not_unique));
       Some (SsFault (Ok (Upstream, loss_fault "y", 5))); Some (SsFault (Ok (Downstream, loss_fault "z", 6))); Some (SsFaults (Some (up, down)))]
  /\ has_fault "x" up = true /\ has_fault "x" down = true.
Proof.
  do 3 eexists. split.
  - eapply (run_reaches (create_service_dns ++ steps_of 1 2 ++ steps_of 2 2 ++ steps_of 1 2 ++ steps_of 2 2 ++ steps_of 1 2 ++ steps_of 2 2
      ++ steps_of 3 5 ++ steps_of 4 5 ++ steps_of 1 1 ++ steps_of 2 1 ++ steps_of 5 2)). vm_compute. reflexivity.
  - split; [vm_compute; reflexivity|]. split; vm_compute; reflexivity.
Qed.

(** A scenario can overwrite a publication that was acknowledged.  The run
    sets a plan with the fault [x] upstream; meanwhile someone publishes [x]
    downstream, the run finds the duplicate, and before it rolls back someone
    publishes another upstream plan over the generation of the run, and is
    told it worked.  The rollback reads the generation anew and publishes the
    plan the event had found: the acknowledged plan is gone, although it had
    no part in the duplicate. *)
Theorem scenario_rollback_overwrites : exists s h,
  rtc service_step (service_start [SqStart loss_scenario; SqTask 0;
    SqPublishDatagram "dns" Downstream (loss_plan ["x"%string]) 0 (Some 1);
    SqPublishDatagram "dns" Upstream (loss_plan ["b"%string]) 0 (Some 2)]) s
  /\ tail (answers s) = [Some SsDone; Some (SsGeneration (Ok 4)); Some (SsGeneration (Ok 5))]
  /\ history (sys_state s) dns_up = Some h
  /\ map ts_plan h = [DatagramPlanOf dplan_empty; DatagramPlanOf (loss_plan ["x"%string]); DatagramPlanOf (loss_plan ["b"%string]);
                      DatagramPlanOf dplan_empty].
Proof.
  do 2 eexists. split.
  - eapply (run_reaches (create_service_dns ++ steps_of 1 6 ++ steps_of 2 10 ++ steps_of 3 2 ++ steps_of 2 2 ++ steps_of 4 2 ++ steps_of 2 6)).
    vm_compute. reflexivity.
  - split; [vm_compute; reflexivity|]. split; vm_compute; reflexivity.
Qed.

(** The receipt of a datagram publication can be another's.  [publish] of
    the server target drops the generation its publication has made and reads
    the proxy again for the receipt; when someone publishes in between, the
    receipt names their generation: a driver that owns what it was receipted
    for replaces their plan on its next event, with no conflict. *)
Theorem datagram_receipts_may_be_anothers : exists s h,
  rtc service_step (service_start [SqPublish dns_up 1 (DatagramPlanOf (loss_plan ["a"%string])) 0;
    SqPublishDatagram "dns" Upstream (loss_plan ["b"%string]) 0 (Some 2); SqPublish dns_up 3 (DatagramPlanOf dplan_empty) 0]) s
  /\ answers s = [Some (SsReceipt (Ok {| rc_generation := 3 |})); Some (SsGeneration (Ok 4)); Some (SsReceipt (Ok {| rc_generation := 4 |}))]
  /\ history (sys_state s) dns_up = Some h
  /\ map ts_plan h = [DatagramPlanOf dplan_empty; DatagramPlanOf (loss_plan ["a"%string]); DatagramPlanOf (loss_plan ["b"%string]);
                      DatagramPlanOf dplan_empty].
Proof.
  do 2 eexists. split.
  - eapply (run_reaches (create_service_dns ++ steps_of 1 2 ++ steps_of 2 2 ++ steps_of 1 1 ++ steps_of 3 3)). vm_compute. reflexivity.
  - split; [vm_compute; reflexivity|]. split; vm_compute; reflexivity.
Qed.

(** A run cancelled before its task began is driven all the same: the status
    goes from cancelling back to running, and a run without events completes. *)
Theorem cancelled_run_completes : exists s r,
  rtc service_step (service_start [SqStart {| sn_version := 1; sn_seed := 5; sn_events := [] |}; SqCancel 1; SqTask 0]) s
  /\ sys_calls s !! 2%nat = Some (Ret (SsRun (Some r))) /\ sr_status r = ScnCancelling
  /\ sr_status <$> fm_runs (rg_v1 (sx_registry (sys_state s))) !! 1 = Some ScnCompleted.
Proof.
  do 2 eexists. split.
  - eapply (run_reaches (create_service_dns ++ steps_of 1 4 ++ steps_of 2 4 ++ steps_of 3 6)). vm_compute. reflexivity.
  - split; [vm_compute; reflexivity|]. split; vm_compute; reflexivity.
Qed.

(** ** Instances of the theorems *)

Definition service_requests : list service_request := [SqCreateDatagram dns; SqStart loss_scenario; SqTask 0].
Definition service_begin : ServiceSystem := service_initial no_hash (service_new 7 runtime_limits_default) service_requests.
Definition served : ServiceSystem := end_of create_service_dns service_begin.
Definition completed : ServiceSystem := end_of (create_service_dns ++ steps_of 1 6 ++ steps_of 2 18) service_begin.

Lemma service_requests_typed : Forall service_typed service_requests.
Proof. repeat constructor; apply empty_cell_ok. Qed.
Lemma served_reached : rtc service_step service_begin served.
Proof. apply end_of_reaches. vm_compute. reflexivity. Qed.
Lemma completed_reached : rtc service_step service_begin completed.
Proof. apply end_of_reaches. vm_compute. reflexivity. Qed.
Lemma served_ok : service_ok (sys_state served).
Proof.
  apply (service_pool_run service_begin); [|apply served_reached]. apply service_pool_initial; [|apply service_requests_typed].
  apply service_new_ok, default_limits_typed.
Qed.

Lemma service_invariant_witness :
  sr_status <$> fm_runs (rg_v1 (sx_registry (sys_state completed))) !! 1 = Some ScnCompleted
  /\ (forall run r, fm_runs (rg_v1 (sx_registry (sys_state completed))) !! run = Some r -> sr_applied r = zlen (sr_trail r))
  /\ Panic ∉ sys_calls completed.
Proof.
  destruct (service_invariant no_hash 7 runtime_limits_default service_requests completed default_limits_typed service_requests_typed
    completed_reached) as (_ & _ & _ & _ & _ & _ & _ & C & P).
  split; [vm_compute; reflexivity|]. split; [exact C|exact P].
Defined.

Lemma server_target_keeps_the_contract_witness : exists rc s',
  alone (target_publish dns_up 1 (DatagramPlanOf (loss_plan ["a"%string])) 0) (sys_state served) = Some (Ok rc, s')
  /\ rc_generation rc = 2 /\ newest s' dns_up = Some {| ts_generation := 2; ts_plan := DatagramPlanOf (loss_plan ["a"%string]) |}.
Proof.
  destruct (server_target_keeps_the_contract (sys_state served) dns_up 1 (DatagramPlanOf (loss_plan ["a"%string])) 0 served_ok)
    as (_ & res & s' & E & _ & H).
  assert (O : match alone (target_publish dns_up 1 (DatagramPlanOf (loss_plan ["a"%string])) 0) (sys_state served) with
              | Some (Ok _, _) => true | _ => false end = true) by (vm_compute; reflexivity).
  rewrite E in O. destruct res as [rc|e]; [|discriminate O]. destruct H as [G P]. exists rc, s'. split; [exact E|]. split; [exact G|].
  exact (published_newest _ _ _ _ _ P).
Defined.

Lemma scenario_events_apply_exactly_witness : exists e s',
  alone (scenario_event 5 1 0 {| sn_at_ms := 0; sn_action := SetDatagramPlan "dns" Upstream [loss_fault "x"] |} "dns" Upstream) (sys_state served)
    = Some (Ok e, s')
  /\ newest s' dns_up = Some {| ts_generation := 2; ts_plan := DatagramPlanOf (loss_plan ["x"%string]) |}
  /\ se_upstream_generation e = rt_generation (sx_control s').
Proof.
  set (event := {| sn_at_ms := 0; sn_action := SetDatagramPlan "dns" Upstream [loss_fault "x"] |}).
  destruct (scenario_events_apply_exactly (sys_state served) 5 1 0 event "dns" Upstream served_ok) as (res & s' & E & _ & H); [exact I|reflexivity|].
  unfold event_outcome in H. assert (N : event_next (sys_state served) (sn_action event)
    = Some ({| ts_generation := 1; ts_plan := DatagramPlanOf dplan_empty |}, DatagramPlanOf (loss_plan ["x"%string]))) by (vm_compute; reflexivity).
  rewrite N in H. destruct H as (e & -> & P & T). exists e, s'. split; [exact E|]. split; [exact (published_newest _ _ _ _ _ P)|]. apply T.
Defined.
