(* ===== verification/Connections.v ===== *)
(** * Connections of the server
      ([crates/eggchaos-server/src/runtime/connection.rs], [metrics.rs],
      [transport.rs], and the connection types of [runtime/model.rs])

    What the server records of its connections: the summary of each active
    one, the bounded history of closed ones and the counters that reconcile
    with it.  Everything here is a function on one value; who calls it, and
    between which awaits, is [Relay]. *)

From Stdlib Require Import Bool.
From stdpp Require Import base list gmap strings.
From S2P Require Import Prelude Rng Float64 Plan EngineState Stream Schedule Wire Server.

(** ** Records *)

Inductive ConnectionState := Connecting | Relaying | Closed.

Record DirectionBytes := { db_accepted : Z; db_forwarded : Z; db_discarded : Z }.
Definition bytes_zero : DirectionBytes := {| db_accepted := 0; db_forwarded := 0; db_discarded := 0 |}.

(** The fields of [ConnectionSnapshot] that exist once per direction. *)
Record DirectionView := {
  dv_accepted_generation : Z;
  dv_accepted_seed : Z;
  dv_observed_generation : Z;
  dv_pending_generation : option Z;
  dv_seed_namespace : Z;
  dv_transitions : Z;
  dv_bytes : DirectionBytes;
  dv_chunks_evaluated : Z;
  dv_chunks_dropped : Z;
  dv_loss_bytes_discarded : Z;
  dv_faults : list ActiveFault;
  dv_faults_truncated : bool
}.
(** What a connection starts with: the policy it was accepted under. *)
Definition view_accepted (generation namespace : Z) : DirectionView := {|
  dv_accepted_generation := generation; dv_accepted_seed := namespace;
  dv_observed_generation := generation; dv_pending_generation := None; dv_seed_namespace := namespace;
  dv_transitions := 0; dv_bytes := bytes_zero;
  dv_chunks_evaluated := 0; dv_chunks_dropped := 0; dv_loss_bytes_discarded := 0;
  dv_faults := []; dv_faults_truncated := false
|}.

Record ConnectionSnapshot := {
  sn_id : Z;
  sn_proxy : string;
  sn_ordinal : Z;
  sn_peer : SocketAddr;
  sn_upstream : SocketAddr;
  sn_state : ConnectionState;
  sn_connection_key : Z;
  sn_seed : Z;
  sn_generation : Z;
  sn_up : DirectionView;
  sn_down : DirectionView;
  sn_rng_version : RngVersion
}.
Definition set_sn_state (x : ConnectionState) (s : ConnectionSnapshot) : ConnectionSnapshot := {|
  sn_id := sn_id s; sn_proxy := sn_proxy s; sn_ordinal := sn_ordinal s; sn_peer := sn_peer s;
  sn_upstream := sn_upstream s; sn_state := x; sn_connection_key := sn_connection_key s; sn_seed := sn_seed s;
  sn_generation := sn_generation s; sn_up := sn_up s; sn_down := sn_down s; sn_rng_version := sn_rng_version s |}.
Definition set_sn_views (up down : DirectionView) (s : ConnectionSnapshot) : ConnectionSnapshot := {|
  sn_id := sn_id s; sn_proxy := sn_proxy s; sn_ordinal := sn_ordinal s; sn_peer := sn_peer s;
  sn_upstream := sn_upstream s; sn_state := sn_state s; sn_connection_key := sn_connection_key s; sn_seed := sn_seed s;
  sn_generation := sn_generation s; sn_up := up; sn_down := down; sn_rng_version := sn_rng_version s |}.

(** [ConnectionEvidence] once read: the records the two [Arc]s point to. *)
Definition EvidencePair : Type := StreamEvidence * StreamEvidence.

(** ** Live evidence *)

(** The body of the loop of [merge_evidence]. *)
Definition merge_direction (h : StreamEvidence) (v : DirectionView) : DirectionView := {|
  dv_accepted_generation := dv_accepted_generation v; dv_accepted_seed := dv_accepted_seed v;
  dv_observed_generation := sv_observed_generation h;
  dv_pending_generation := if sv_pending_generation h =? 0 then None else Some (sv_pending_generation h);
  dv_seed_namespace := sv_seed_namespace h;
  dv_transitions := sv_transitions h;
  dv_bytes := {| db_accepted := sv_bytes_accepted h; db_forwarded := sv_bytes_forwarded h;
                 db_discarded := sv_bytes_discarded h |};
  dv_chunks_evaluated := sv_chunks_evaluated (ds_counters (evidence_snapshot h V1));
  dv_chunks_dropped := sv_chunks_dropped (ds_counters (evidence_snapshot h V1));
  dv_loss_bytes_discarded := sv_loss_bytes_discarded (ds_counters (evidence_snapshot h V1));
  dv_faults := fst (sv_active_faults h);
  dv_faults_truncated := snd (sv_active_faults h)
|}.
Definition merge_evidence (s : ConnectionSnapshot) (evidence : option EvidencePair) : ConnectionSnapshot :=
  match evidence with
  | None => s
  | Some (up, down) => set_sn_views (merge_direction up (sn_up s)) (merge_direction down (sn_down s)) s
  end.

(** ** Outcomes *)

Inductive ResetResult :=
| Applied
| Failed (reason : string)
| Unsupported (reason : string).

Inductive ConnectionOutcome :=
| RelayCompleted
| ConnectFailed (reason : string)
| KilledByOperator
| ServiceShutdown
| ProxyRemoved
| GracefulTermination (drained : bool)
| HardReset (client upstream : ResetResult)
| RelayError (reason : string).

Definition outcome_class (o : ConnectionOutcome) : nat :=
  match o with
  | RelayCompleted => 0
  | ConnectFailed _ => 1
  | KilledByOperator => 2
  | ServiceShutdown => 3
  | ProxyRemoved => 4
  | GracefulTermination _ => 5
  | HardReset _ _ => 6
  | RelayError _ => 7
  end%nat.
Definition OUTCOME_CLASS_NAMES : list string :=
  ["relay_completed"; "connect_failed"; "killed_by_operator"; "service_shutdown"; "proxy_removed";
   "graceful_termination"; "hard_reset"; "relay_error"]%string.

Record ClosedConnection := {
  cl_snapshot : ConnectionSnapshot;
  cl_outcome : ConnectionOutcome;
  cl_upstream_termination : option TerminationInfo;
  cl_downstream_termination : option TerminationInfo;
  cl_detail : option string
}.

(** ** The socket edge ([transport.rs]) *)

Record TcpResetHandle := { th_reset_on_close : bool; th_outcome : option ResetResult }.
Definition reset_handle_new : TcpResetHandle := {| th_reset_on_close := false; th_outcome := None |}.
Definition request_reset (h : TcpResetHandle) : TcpResetHandle :=
  {| th_reset_on_close := true; th_outcome := th_outcome h |}.

(** [Drop] of [ResettableTcpStream].  [inner] is whether it still holds its
    socket, [linger] what setting a zero linger answers. *)
Definition drop_stream (inner : bool) (linger : result unit string) (h : TcpResetHandle) : TcpResetHandle :=
  if negb inner then h
  else if negb (th_reset_on_close h) then h
  else {| th_reset_on_close := th_reset_on_close h;
          th_outcome := Some (match linger with Ok _ => Applied | Err reason => Failed reason end) |}.

(** ** Counters ([metrics.rs]) *)

Definition MAX_METRIC_PROXIES : Z := 1024.
Definition MAX_METRIC_ACTIVATIONS : Z := 8192.

(** [[u64; 3]]. *)
Definition Three : Type := Z * Z * Z.
Definition three_zero : Three := (0, 0, 0).
Definition three_add (slot value : Three) : Three :=
  let '(a, b, c) := slot in
  let '(x, y, z) := value in
  (sat_add U64_MAX a x, sat_add U64_MAX b y, sat_add U64_MAX c z).

Record PerProxyMetrics := {
  pm_accepted : Z;
  pm_completed : Z;
  pm_bytes : Three * Three;
  pm_stream_loss : Three * Three
}.
Definition per_proxy_default : PerProxyMetrics :=
  {| pm_accepted := 0; pm_completed := 0; pm_bytes := (three_zero, three_zero); pm_stream_loss := (three_zero, three_zero) |}.

Definition ActivationKey : Type := string * string * string.
Record MetricTables := {
  mt_proxies : gmap string PerProxyMetrics;
  mt_overflow_proxy : PerProxyMetrics;
  mt_activations : gmap ActivationKey Z;
  mt_overflow_activations : Z
}.
Definition tables_default : MetricTables :=
  {| mt_proxies := ∅; mt_overflow_proxy := per_proxy_default; mt_activations := ∅; mt_overflow_activations := 0 |}.

(** A write through the reference [proxy_entry] returns. *)
Definition update_proxy_entry (proxy : string) (f : PerProxyMetrics -> PerProxyMetrics) (t : MetricTables) : MetricTables :=
  let with_proxies m := {| mt_proxies := m; mt_overflow_proxy := mt_overflow_proxy t;
                           mt_activations := mt_activations t; mt_overflow_activations := mt_overflow_activations t |} in
  match mt_proxies t !! proxy with
  | Some entry => with_proxies (<[proxy := f entry]> (mt_proxies t))
  | None =>
      if MAX_METRIC_PROXIES <=? Z.of_nat (size (mt_proxies t))
      then {| mt_proxies := mt_proxies t; mt_overflow_proxy := f (mt_overflow_proxy t);
              mt_activations := mt_activations t; mt_overflow_activations := mt_overflow_activations t |}
      else with_proxies (<[proxy := f per_proxy_default]> (mt_proxies t))
  end.

Definition record_accept (proxy : string) : MetricTables -> MetricTables :=
  update_proxy_entry proxy (fun e =>
    {| pm_accepted := wadd (pm_accepted e) 1; pm_completed := pm_completed e;
       pm_bytes := pm_bytes e; pm_stream_loss := pm_stream_loss e |}).
Definition record_complete (proxy : string) (up down : Three) : MetricTables -> MetricTables :=
  update_proxy_entry proxy (fun e =>
    {| pm_accepted := pm_accepted e; pm_completed := wadd (pm_completed e) 1;
       pm_bytes := (three_add (fst (pm_bytes e)) up, three_add (snd (pm_bytes e)) down);
       pm_stream_loss := pm_stream_loss e |}).
Definition record_stream_loss (proxy : string) (up down : Three) : MetricTables -> MetricTables :=
  update_proxy_entry proxy (fun e =>
    {| pm_accepted := pm_accepted e; pm_completed := pm_completed e; pm_bytes := pm_bytes e;
       pm_stream_loss := (three_add (fst (pm_stream_loss e)) up, three_add (snd (pm_stream_loss e)) down) |}).

Definition record_activation (key : ActivationKey) (count : Z) (t : MetricTables) : MetricTables :=
  if count =? 0 then t
  else
    match mt_activations t !! key with
    | Some slot =>
        {| mt_proxies := mt_proxies t; mt_overflow_proxy := mt_overflow_proxy t;
           mt_activations := <[key := sat_add U64_MAX slot count]> (mt_activations t);
           mt_overflow_activations := mt_overflow_activations t |}
    | None =>
        if MAX_METRIC_ACTIVATIONS <=? Z.of_nat (size (mt_activations t))
        then {| mt_proxies := mt_proxies t; mt_overflow_proxy := mt_overflow_proxy t;
                mt_activations := mt_activations t;
                mt_overflow_activations := sat_add U64_MAX (mt_overflow_activations t) count |}
        else {| mt_proxies := mt_proxies t; mt_overflow_proxy := mt_overflow_proxy t;
                mt_activations := <[key := count]> (mt_activations t);
                mt_overflow_activations := mt_overflow_activations t |}
    end.
(** The loop of [record_activations]: one count per name of [FAULT_TYPE_NAMES]. *)
Fixpoint record_activations_of (proxy direction : string) (names : list string) (counts : list Z) (t : MetricTables)
    : MetricTables :=
  match names, counts with
  | name :: names, count :: counts =>
      record_activations_of proxy direction names counts (record_activation (proxy, direction, name) count t)
  | _, _ => t
  end.
Definition record_activations (proxy direction : string) (counts : list Z) : MetricTables -> MetricTables :=
  record_activations_of proxy direction FAULT_TYPE_NAMES counts.

(** The counters of connections; those of schedule runs are the driver's. *)
Record MetricsCounters := {
  mc_accepted : Z;
  mc_completed : Z;
  mc_rejected : Z;
  mc_outcomes : list Z;
  mc_graceful_requests : Z;
  mc_hard_reset_requests : Z;
  mc_reset_applied : Z;
  mc_reset_unsupported : Z;
  mc_reset_failed : Z;
  mc_bytes_accepted : Z;
  mc_bytes_forwarded : Z;
  mc_bytes_discarded : Z;
  mc_transitions : Z;
  mc_tables : MetricTables
}.
Definition metrics_default : MetricsCounters := {|
  mc_accepted := 0; mc_completed := 0; mc_rejected := 0; mc_outcomes := [0; 0; 0; 0; 0; 0; 0; 0];
  mc_graceful_requests := 0; mc_hard_reset_requests := 0; mc_reset_applied := 0; mc_reset_unsupported := 0;
  mc_reset_failed := 0; mc_bytes_accepted := 0; mc_bytes_forwarded := 0; mc_bytes_discarded := 0;
  mc_transitions := 0; mc_tables := tables_default
|}.
Definition count_rejected (m : MetricsCounters) : MetricsCounters := {|
  mc_accepted := mc_accepted m; mc_completed := mc_completed m; mc_rejected := wadd (mc_rejected m) 1;
  mc_outcomes := mc_outcomes m; mc_graceful_requests := mc_graceful_requests m;
  mc_hard_reset_requests := mc_hard_reset_requests m; mc_reset_applied := mc_reset_applied m;
  mc_reset_unsupported := mc_reset_unsupported m; mc_reset_failed := mc_reset_failed m;
  mc_bytes_accepted := mc_bytes_accepted m; mc_bytes_forwarded := mc_bytes_forwarded m;
  mc_bytes_discarded := mc_bytes_discarded m; mc_transitions := mc_transitions m; mc_tables := mc_tables m |}.
Definition count_accepted (proxy : string) (m : MetricsCounters) : MetricsCounters := {|
  mc_accepted := wadd (mc_accepted m) 1; mc_completed := mc_completed m; mc_rejected := mc_rejected m;
  mc_outcomes := mc_outcomes m; mc_graceful_requests := mc_graceful_requests m;
  mc_hard_reset_requests := mc_hard_reset_requests m; mc_reset_applied := mc_reset_applied m;
  mc_reset_unsupported := mc_reset_unsupported m; mc_reset_failed := mc_reset_failed m;
  mc_bytes_accepted := mc_bytes_accepted m; mc_bytes_forwarded := mc_bytes_forwarded m;
  mc_bytes_discarded := mc_bytes_discarded m; mc_transitions := mc_transitions m;
  mc_tables := record_accept proxy (mc_tables m) |}.

(** How many of the two reset results a counter counts. *)
Definition reset_results (o : ConnectionOutcome) : list ResetResult :=
  match o with HardReset client upstream => [client; upstream] | _ => [] end.
Definition results_like (f : ResetResult -> bool) (o : ConnectionOutcome) : Z := zlen (List.filter f (reset_results o)).
Definition is_applied (r : ResetResult) : bool := match r with Applied => true | _ => false end.
Definition is_unsupported (r : ResetResult) : bool := match r with Unsupported _ => true | _ => false end.
Definition is_failed (r : ResetResult) : bool := match r with Failed _ => true | _ => false end.
Definition requested (r : TerminationRequest) (t : option TerminationInfo) : Z :=
  match t with
  | Some info => if match ti_request info, r with
                    | Graceful, Graceful | EngineState.HardReset, EngineState.HardReset => true
                    | _, _ => false
                    end then 1 else 0
  | None => 0
  end.
Definition three_of (b : DirectionBytes) : Three := (db_accepted b, db_forwarded b, db_discarded b).
Definition loss_of (v : DirectionView) : Three := (dv_chunks_evaluated v, dv_chunks_dropped v, dv_loss_bytes_discarded v).

(** The tables' part of [aggregate_close_metrics]. *)
Definition close_tables (s : ConnectionSnapshot) (up down : list Z) (t : MetricTables) : MetricTables :=
  let t := record_complete (sn_proxy s) (three_of (dv_bytes (sn_up s))) (three_of (dv_bytes (sn_down s))) t in
  let t := record_activations (sn_proxy s) "upstream" up t in
  let t := record_activations (sn_proxy s) "downstream" down t in
  record_stream_loss (sn_proxy s) (loss_of (sn_up s)) (loss_of (sn_down s)) t.

(** [aggregate_close_metrics], and the [completed.fetch_add(1)] that follows
    every call of it. *)
Definition aggregate_close_metrics (s : ConnectionSnapshot) (evidence : option EvidencePair) (o : ConnectionOutcome)
    (termination : option TerminationInfo) (m : MetricsCounters) : MetricsCounters :=
  let zeros := [0; 0; 0; 0; 0; 0; 0] in
  let up := match evidence with Some (u, _) => sv_activations u | None => zeros end in
  let down := match evidence with Some (_, d) => sv_activations d | None => zeros end in
  let transitions := match evidence with Some (u, d) => wadd (sv_transitions u) (sv_transitions d) | None => 0 end in
  let sum f := wadd (f (dv_bytes (sn_up s))) (f (dv_bytes (sn_down s))) in
  {| mc_accepted := mc_accepted m;
     mc_completed := wadd (mc_completed m) 1;
     mc_rejected := mc_rejected m;
     mc_outcomes := alter (fun n => wadd n 1) (outcome_class o) (mc_outcomes m);
     mc_graceful_requests := wadd (mc_graceful_requests m) (requested Graceful termination);
     mc_hard_reset_requests := wadd (mc_hard_reset_requests m) (requested EngineState.HardReset termination);
     mc_reset_applied := wadd (mc_reset_applied m) (results_like is_applied o);
     mc_reset_unsupported := wadd (mc_reset_unsupported m) (results_like is_unsupported o);
     mc_reset_failed := wadd (mc_reset_failed m) (results_like is_failed o);
     mc_bytes_accepted := wadd (mc_bytes_accepted m) (sum db_accepted);
     mc_bytes_forwarded := wadd (mc_bytes_forwarded m) (sum db_forwarded);
     mc_bytes_discarded := wadd (mc_bytes_discarded m) (sum db_discarded);
     mc_transitions := wadd (mc_transitions m) transitions;
     mc_tables := close_tables s up down (mc_tables m) |}.

(** ** History *)

Record AdmissionLimits := { al_global_connections : Z; al_history : Z }.
Definition admission_default : AdmissionLimits := {| al_global_connections := 1024; al_history := 256 |}.

(** [while len >= limit { pop_front }; push_back]; [limit] is not zero. *)
Definition push_history (limit : Z) (entry : ClosedConnection) (history : list ClosedConnection) : list ClosedConnection :=
  zdrop (zlen history - limit + 1) history ++ [entry].
