(* ===== verification/Relay.v ===== *)
(** * Connection tasks
      ([crates/eggchaos-server/src/runtime/connection.rs], [supervisor.rs], and
      the readers of connections in [control.rs])

    The accept path of a supervisor, the task of a connection and the purge
    that follows a supervisor's loop, on the state they share with the control
    plane.  A task is a state machine whose states are the places where it
    awaits: a lock, a socket, or a [select!].  The control plane moves by its
    own steps ([Control]), so every run here contains a run of it.  The two
    [ChaosStream]s of a connection ([Stream]) appear as the evidence they
    write, the sockets and the relay of [egress_relay] as the choices the
    environment makes. *)

From Stdlib Require Import Bool.
From stdpp Require Import base list gmap strings relations sorting.
From S2P Require Import Prelude Rng Float64 Plan Policy EngineState Stream Schedule Wire Server Tasks Control Connections.

(** ** Durations as text *)

(** [fmt_decimal] of [core::time]: [digits] digits after the point, without
    trailing zeros. *)
Fixpoint trim_zeros (digits : nat) (frac : Z) : nat * Z :=
  match digits with
  | O => (O, 0)
  | S d => if frac mod 10 =? 0 then trim_zeros d (frac / 10) else (digits, frac)
  end.
Fixpoint zeros (n : nat) : string := match n with O => "" | S n => "0" +:+ zeros n end.
Definition padded (digits : nat) (x : Z) : string := zeros (digits - String.length (dec x)) +:+ dec x.
Definition decimal (whole frac : Z) (digits : nat) (suffix : string) : string :=
  let '(d, f) := trim_zeros digits frac in
  dec whole +:+ (match d with O => "" | _ => "." +:+ padded d f end) +:+ suffix.
(** [Debug] of [Duration]. *)
Definition debug_duration (d : Duration) : string :=
  if NANOS_PER_SEC <=? d then decimal (d / NANOS_PER_SEC) (d mod NANOS_PER_SEC) 9 "s"
  else if 1000000 <=? d then decimal (d / 1000000) (d mod 1000000) 6 "ms"
  else if 1000 <=? d then decimal (d / 1000) (d mod 1000) 3 "µs"
  else decimal d 0 0 "ns".

(** ** State *)

(** The two counters the [Arc]s of a [ManagedProxy] share. *)
Record Counters := { ct_active : Z; ct_ordinal : Z }.
Definition counters_zero : Counters := {| ct_active := 0; ct_ordinal := 0 |}.

Record Conns := {
  cn_limits : AdmissionLimits;
  cn_term_grace : Duration;
  cn_active : Z;
  cn_next_id : Z;
  cn_counters : gmap nat Counters;
  cn_connections : gmap Z ConnectionSnapshot;
  cn_evidence : gmap Z (nat * nat);
  cn_handles : list StreamEvidence;     (* every evidence record a stream owns *)
  cn_history : list ClosedConnection;
  cn_metrics : MetricsCounters
}.
Definition conns_new (limits : AdmissionLimits) (term_grace : Duration) : Conns := {|
  cn_limits := limits; cn_term_grace := term_grace; cn_active := 0; cn_next_id := 1; cn_counters := ∅;
  cn_connections := ∅; cn_evidence := ∅; cn_handles := []; cn_history := []; cn_metrics := metrics_default |}.

Definition set_cn_active (x : Z) (k : Conns) : Conns := {|
  cn_limits := cn_limits k; cn_term_grace := cn_term_grace k; cn_active := x; cn_next_id := cn_next_id k;
  cn_counters := cn_counters k; cn_connections := cn_connections k; cn_evidence := cn_evidence k;
  cn_handles := cn_handles k; cn_history := cn_history k; cn_metrics := cn_metrics k |}.
Definition set_cn_next_id (x : Z) (k : Conns) : Conns := {|
  cn_limits := cn_limits k; cn_term_grace := cn_term_grace k; cn_active := cn_active k; cn_next_id := x;
  cn_counters := cn_counters k; cn_connections := cn_connections k; cn_evidence := cn_evidence k;
  cn_handles := cn_handles k; cn_history := cn_history k; cn_metrics := cn_metrics k |}.
Definition set_cn_counters (x : gmap nat Counters) (k : Conns) : Conns := {|
  cn_limits := cn_limits k; cn_term_grace := cn_term_grace k; cn_active := cn_active k; cn_next_id := cn_next_id k;
  cn_counters := x; cn_connections := cn_connections k; cn_evidence := cn_evidence k;
  cn_handles := cn_handles k; cn_history := cn_history k; cn_metrics := cn_metrics k |}.
Definition set_cn_connections (x : gmap Z ConnectionSnapshot) (k : Conns) : Conns := {|
  cn_limits := cn_limits k; cn_term_grace := cn_term_grace k; cn_active := cn_active k; cn_next_id := cn_next_id k;
  cn_counters := cn_counters k; cn_connections := x; cn_evidence := cn_evidence k;
  cn_handles := cn_handles k; cn_history := cn_history k; cn_metrics := cn_metrics k |}.
Definition set_cn_evidence (x : gmap Z (nat * nat)) (k : Conns) : Conns := {|
  cn_limits := cn_limits k; cn_term_grace := cn_term_grace k; cn_active := cn_active k; cn_next_id := cn_next_id k;
  cn_counters := cn_counters k; cn_connections := cn_connections k; cn_evidence := x;
  cn_handles := cn_handles k; cn_history := cn_history k; cn_metrics := cn_metrics k |}.
Definition set_cn_handles (x : list StreamEvidence) (k : Conns) : Conns := {|
  cn_limits := cn_limits k; cn_term_grace := cn_term_grace k; cn_active := cn_active k; cn_next_id := cn_next_id k;
  cn_counters := cn_counters k; cn_connections := cn_connections k; cn_evidence := cn_evidence k;
  cn_handles := x; cn_history := cn_history k; cn_metrics := cn_metrics k |}.
Definition set_cn_history (x : list ClosedConnection) (k : Conns) : Conns := {|
  cn_limits := cn_limits k; cn_term_grace := cn_term_grace k; cn_active := cn_active k; cn_next_id := cn_next_id k;
  cn_counters := cn_counters k; cn_connections := cn_connections k; cn_evidence := cn_evidence k;
  cn_handles := cn_handles k; cn_history := x; cn_metrics := cn_metrics k |}.
Definition set_cn_metrics (x : MetricsCounters) (k : Conns) : Conns := {|
  cn_limits := cn_limits k; cn_term_grace := cn_term_grace k; cn_active := cn_active k; cn_next_id := cn_next_id k;
  cn_counters := cn_counters k; cn_connections := cn_connections k; cn_evidence := cn_evidence k;
  cn_handles := cn_handles k; cn_history := cn_history k; cn_metrics := x |}.

(** ** Closing a connection *)

(** What [record_close] is called with. *)
Record Closing := {
  cg_outcome : ConnectionOutcome;
  cg_upstream : option TerminationInfo;
  cg_downstream : option TerminationInfo;
  cg_detail : option string
}.
Definition closing (o : ConnectionOutcome) (terms : option TerminationInfo * option TerminationInfo) (detail : option string)
    : Closing := {| cg_outcome := o; cg_upstream := fst terms; cg_downstream := snd terms; cg_detail := detail |}.

(** The awaits of [take_connection] and of its callers: the locks of the
    tokens, the connections, the evidence and the history. *)
Inductive TakeStage :=
| TakeToken
| TakeSnapshot
| TakeEvidence (s : option ConnectionSnapshot)
| TakeHistory (entry : ClosedConnection).

Definition handle_at (k : Conns) (a : nat) : StreamEvidence := default stream_evidence_default (cn_handles k !! a).
Definition evidence_of (k : Conns) (id : Z) : option EvidencePair :=
  option_map (fun p => (handle_at k (fst p), handle_at k (snd p))) (cn_evidence k !! id).

Definition counters_at (k : Conns) (a : nat) : Counters := default counters_zero (cn_counters k !! a).
Definition proxy_add (n : Z) (a : nat) (k : Conns) : Conns :=
  let c := counters_at k a in
  set_cn_counters (<[a := {| ct_active := wadd (ct_active c) n; ct_ordinal := ct_ordinal c |}]> (cn_counters k)) k.

(** From the removal of the evidence to the lock of the history: the slots,
    the counters and the history entry. *)
Definition account_close (counters : option nat) (c : Closing) (s : ConnectionSnapshot) (evidence : option EvidencePair)
    (k : Conns) : ClosedConnection * Conns :=
  let k := set_cn_active (wadd (cn_active k) (-1)) k in
  let k := match counters with Some a => proxy_add (-1) a k | None => k end in
  let s := merge_evidence s evidence in
  let termination := match cg_upstream c with Some info => Some info | None => cg_downstream c end in
  let k := set_cn_metrics (aggregate_close_metrics s evidence (cg_outcome c) termination (cn_metrics k)) k in
  ({| cl_snapshot := set_sn_state Closed s; cl_outcome := cg_outcome c; cl_upstream_termination := cg_upstream c;
      cl_downstream_termination := cg_downstream c; cl_detail := cg_detail c |}, k).

(** One stage; no next stage when the close is over. *)
Definition close_conns (counters : option nat) (c : Closing) (id : Z) (stage : TakeStage) (k : Conns)
    : option TakeStage * Conns :=
  match stage with
  | TakeToken => (Some TakeSnapshot, k)
  | TakeSnapshot =>
      (Some (TakeEvidence (cn_connections k !! id)), set_cn_connections (delete id (cn_connections k)) k)
  | TakeEvidence None => (None, set_cn_evidence (delete id (cn_evidence k)) k)
  | TakeEvidence (Some s) =>
      let evidence := evidence_of k id in
      let '(entry, k) := account_close counters c s evidence (set_cn_evidence (delete id (cn_evidence k)) k) in
      if al_history (cn_limits k) =? 0 then (None, k) else (Some (TakeHistory entry), k)
  | TakeHistory entry => (None, set_cn_history (push_history (al_history (cn_limits k)) entry (cn_history k)) k)
  end.

(** ** Connection tasks *)

(** What [egress_relay] returns. *)
Record RelayReport := { rp_termination : string; rp_bytes_upstream : Z; rp_bytes_downstream : Z }.
Record RelayFailure := {
  rf_aborted : bool;      (* [source.kind() == ConnectionAborted] *)
  rf_source : string;     (* [source.to_string()] *)
  rf_display : string     (* [to_string()] of the failure *)
}.
Definition is_eggchaos_termination (f : RelayFailure) : bool :=
  rf_aborted f && String.prefix "eggchaos stream terminated" (rf_source f).

Definition Terms : Type := option TerminationInfo * option TerminationInfo.

Inductive ConnPhase :=
| Dialing                                (* the select of the dial *)
| Connected                              (* the lock of the connections, to mark it relaying *)
| Registering (up down : nat)            (* the lock of the evidence *)
| InRelay                                (* the select of the relay *)
| Draining (terms : Terms)               (* the select of a graceful termination *)
| Closing_ (c : Closing) (stage : TakeStage)
| Ended
| Aborted (was : ConnPhase).             (* dropped at the await it was in *)

(** A task of [run_connection]. *)
Record Child := {
  ch_id : Z;
  ch_supervisor : nat;
  ch_counters : nat;
  ch_token : nat;              (* conn_token *)
  ch_scope : nat;              (* proxy_cancel *)
  ch_connect_timeout : Duration;
  ch_aborting : bool;          (* abort() was called *)
  ch_phase : ConnPhase
}.
Definition set_ch_phase (x : ConnPhase) (c : Child) : Child := {|
  ch_id := ch_id c; ch_supervisor := ch_supervisor c; ch_counters := ch_counters c; ch_token := ch_token c;
  ch_scope := ch_scope c; ch_connect_timeout := ch_connect_timeout c; ch_aborting := ch_aborting c; ch_phase := x |}.
Definition abort_child (c : Child) : Child := {|
  ch_id := ch_id c; ch_supervisor := ch_supervisor c; ch_counters := ch_counters c; ch_token := ch_token c;
  ch_scope := ch_scope c; ch_connect_timeout := ch_connect_timeout c; ch_aborting := true; ch_phase := ch_phase c |}.

(** Where a supervisor is while the control plane sees it in its select, or
    stopping. *)
Inductive AcceptStage :=
| AcceptGlobal                              (* about to take a global slot *)
| AcceptProxy (current : Z)                 (* about to take a slot of the proxy *)
| AcceptDecide (current current_proxy : Z)
| AcceptInsert (s : ConnectionSnapshot)     (* the lock of the connections *)
| AcceptRegister (id : Z).                  (* the lock of the tokens, then the spawn *)
Inductive PurgeStage :=
| PurgeList
| PurgeLook (ids : list Z)                  (* the lock of the proxies *)
| PurgeTake (counters : option nat) (ids : list Z) (stage : TakeStage).  (* of the first of [ids] *)
Inductive SupervisorJob :=
| Accepting (entry : ManagedProxy) (peer : SocketAddr) (stage : AcceptStage)
| Joining                                   (* children.shutdown() *)
| Purging (o : ConnectionOutcome) (stage : PurgeStage)
| Purged.

Record Relay := {
  rl_control : ControlSystem;
  rl_conns : Conns;
  rl_children : list Child;                 (* every task ever spawned *)
  rl_jobs : gmap nat SupervisorJob
}.
Definition set_rl_control (x : ControlSystem) (r : Relay) : Relay := {|
  rl_control := x; rl_conns := rl_conns r; rl_children := rl_children r; rl_jobs := rl_jobs r |}.
Definition set_rl_conns (x : Conns) (r : Relay) : Relay := {|
  rl_control := rl_control r; rl_conns := x; rl_children := rl_children r; rl_jobs := rl_jobs r |}.
Definition set_rl_children (x : list Child) (r : Relay) : Relay := {|
  rl_control := rl_control r; rl_conns := rl_conns r; rl_children := x; rl_jobs := rl_jobs r |}.
Definition set_rl_jobs (x : gmap nat SupervisorJob) (r : Relay) : Relay := {|
  rl_control := rl_control r; rl_conns := rl_conns r; rl_children := rl_children r; rl_jobs := x |}.
Definition set_job (h : nat) (j : SupervisorJob) (r : Relay) : Relay := set_rl_jobs (<[h := j]> (rl_jobs r)) r.
Definition control_of (r : Relay) : Control := sys_state (rl_control r).
Definition relay_new (limits : AdmissionLimits) (term_grace : Duration) (s : ControlSystem) : Relay :=
  {| rl_control := s; rl_conns := conns_new limits term_grace; rl_children := []; rl_jobs := ∅ |}.

(** A step of the control plane. *)
Definition control_does (mv : move control_event) (r : Relay) : option Relay :=
  option_map (fun s => set_rl_control s r) (sys_next mv (rl_control r)).

(** A stage of a close: the first removes the token, which is the control
    plane's. *)
Definition close_stage (counters : option nat) (c : Closing) (id : Z) (stage : TakeStage) (r : Relay)
    : option (option TakeStage * Relay) :=
  let '(next, k) := close_conns counters c id stage (rl_conns r) in
  let r := set_rl_conns k r in
  match stage with
  | TakeToken => option_map (pair next) (control_does (CloseConnection id) r)
  | _ => Some (next, r)
  end.

Definition classify_cancel (c : Child) (r : Relay) : ConnectionOutcome :=
  if rt_shutdown_initiated (control_of r) then ServiceShutdown
  else if is_cancelled (control_of r) (ch_scope c) then ProxyRemoved
  else KilledByOperator.

(** What decides a [select!], or answers an await. *)
Inductive ConnChoice :=
| ChGranted                                                      (* a lock *)
| ChCancelled (terms : Terms)                                    (* conn_token.cancelled() *)
| ChDialed
| ChDialFailed (error : string)
| ChDialTimeout
| ChStreams (streams : result EvidencePair (Direction * string)) (* a lock, and the two [new_live] *)
| ChRelayed (outcome : result RelayReport RelayFailure) (terms : Terms)
| ChTerminated (info : TerminationInfo) (terms : Terms)
    (sockets : (bool * result unit string) * (bool * result unit string))
| ChGraceExpired.

Definition no_terms : Terms := (None, None).
Definition record_close (o : ConnectionOutcome) (terms : Terms) (detail : option string) : ConnPhase :=
  Closing_ (closing o terms detail) TakeToken.

Definition sockets_released : string := "relay failed as the hard-reset request resolved; sockets already released".
(** The relay returned. *)
Definition relay_ended (outcome : result RelayReport RelayFailure) (terms : Terms) : ConnPhase :=
  match outcome with
  | Ok report =>
      record_close RelayCompleted terms
        (Some ("relay " +:+ rp_termination report +:+ " (+" +:+ dec (rp_bytes_upstream report) +:+ "/"
               +:+ dec (rp_bytes_downstream report) +:+ ")"))
  | Err failure =>
      if is_eggchaos_termination failure then
        match ti_request <$> (match fst terms with Some info => Some info | None => snd terms end) with
        | Some EngineState.HardReset =>
            record_close (HardReset (Unsupported sockets_released) (Unsupported sockets_released)) terms
              (Some (rf_display failure))
        | _ => record_close (GracefulTermination true) terms (Some (rf_display failure))
        end
      else record_close (RelayError (rf_display failure)) terms None
  end.

(** [handle_termination] for a hard reset: both sockets are flagged, the
    relay is dropped, and each handle tells what became of its socket. *)
Definition reset_outcome (side : string) (socket : bool * result unit string) : ResetResult :=
  match th_outcome (drop_stream (fst socket) (snd socket) (request_reset reset_handle_new)) with
  | Some outcome => outcome
  | None => Unsupported (side +:+ " socket outcome unavailable")
  end.
Definition hard_reset (info : TerminationInfo) (terms : Terms)
    (sockets : (bool * result unit string) * (bool * result unit string)) : ConnPhase :=
  record_close (HardReset (reset_outcome "client" (fst sockets)) (reset_outcome "upstream" (snd sockets))) terms
    (Some ("hard reset requested by " +:+ default "unknown fault"%string (ti_fault_id info))).

(** The relay returned while a graceful termination was draining. *)
Definition drain_ended (outcome : result RelayReport RelayFailure) (terms : Terms) : ConnPhase :=
  match outcome with
  | Ok report => record_close (GracefulTermination true) terms (Some ("relay " +:+ rp_termination report))
  | Err failure =>
      if is_eggchaos_termination failure
      then record_close (GracefulTermination true) terms (Some (rf_display failure))
      else record_close (RelayError ("graceful termination due, then relay failed: " +:+ rf_display failure)) terms None
  end.

Definition direction_engine (d : Direction) : string :=
  match d with Upstream => "upstream engine: " | Downstream => "downstream engine: " end.
Definition mark_relaying (id : Z) (k : Conns) : Conns :=
  set_cn_connections (alter (set_sn_state Relaying) id (cn_connections k)) k.

(** One move of a connection task; [None] when it cannot move that way. *)
Definition child_next (ch : ConnChoice) (c : Child) (r : Relay) : option (ConnPhase * Relay) :=
  let cancelled := is_cancelled (control_of r) (ch_token c) in
  let k := rl_conns r in
  match ch_phase c, ch with
  | Dialing, ChCancelled _ =>
      if cancelled
      then Some (record_close (classify_cancel c r) no_terms (Some "cancelled during upstream connect"%string), r)
      else None
  | Dialing, ChDialed => Some (Connected, r)
  | Dialing, ChDialFailed error => Some (record_close (ConnectFailed ("dial: " +:+ error)) no_terms None, r)
  | Dialing, ChDialTimeout =>
      Some (record_close (ConnectFailed ("dial timed out after " +:+ debug_duration (ch_connect_timeout c))) no_terms None, r)
  | Connected, ChStreams streams =>
      let r := set_rl_conns (mark_relaying (ch_id c) k) r in
      match streams with
      | Err (d, error) => Some (record_close (RelayError (direction_engine d +:+ error)) no_terms None, r)
      | Ok (up, down) =>
          let a := length (cn_handles k) in
          Some (Registering a (S a), set_rl_conns (set_cn_handles (cn_handles k ++ [up; down]) (rl_conns r)) r)
      end
  | Registering up down, ChGranted =>
      Some (InRelay, set_rl_conns (set_cn_evidence (<[ch_id c := (up, down)]> (cn_evidence k)) k) r)
  | InRelay, ChCancelled terms => if cancelled then Some (record_close (classify_cancel c r) terms None, r) else None
  | InRelay, ChRelayed outcome terms => if cancelled then None else Some (relay_ended outcome terms, r)
  | InRelay, ChTerminated info terms sockets =>
      if cancelled then None
      else
        match ti_request info with
        | Graceful => Some (Draining terms, r)
        | EngineState.HardReset => Some (hard_reset info terms sockets, r)
        end
  | Draining terms, ChCancelled _ =>
      if cancelled then Some (record_close KilledByOperator terms (Some "cancelled during graceful drain"%string), r) else None
  | Draining terms, ChRelayed outcome _ => if cancelled then None else Some (drain_ended outcome terms, r)
  | Draining terms, ChGraceExpired =>
      if cancelled then None
      else Some (record_close (GracefulTermination false) terms
                   (Some ("grace period of " +:+ debug_duration (cn_term_grace k) +:+ " expired; relay aborted")), r)
  | Closing_ cg stage, ChGranted =>
      option_map (fun '(next, r) => (match next with Some stage => Closing_ cg stage | None => Ended end, r))
        (close_stage (Some (ch_counters c)) cg (ch_id c) stage r)
  | _, _ => None
  end.

(** ** Accepting ([accept_connection]) *)

(** The generation and the namespace of a policy now.  A clone of an entry
    shares the cells with the stored one, which it is as long as it has the
    same counters; the cells of an entry that was removed are only known to
    have been valid. *)
Definition policy_now (cell : ManagedProxy -> LivePolicy) (entry : ManagedProxy) (c : Control) (seen : Z * Z) : bool :=
  let shows e := bool_decide (seen = (generation (load (cell e)), seed_namespace (load (cell e)))) in
  match rt_proxies c !! ps_name (mp_spec entry) with
  | Some stored => if Nat.eqb (mp_counters stored) (mp_counters entry) then shows stored else true
  | None => true
  end.
Definition up_cell (e : ManagedProxy) : LivePolicy := ps_upstream_policy (mp_spec e).
Definition down_cell (e : ManagedProxy) : LivePolicy := ps_downstream_policy (mp_spec e).

Definition over_limits (k : Conns) (entry : ManagedProxy) (current current_proxy : Z) : bool :=
  (al_global_connections (cn_limits k) <? current)
  || match ps_max_connections (mp_spec entry) with Some limit => limit <? current_proxy | None => false end.

Definition reject (entry : ManagedProxy) (k : Conns) : Conns :=
  let k := proxy_add (-1) (mp_counters entry) (set_cn_active (wadd (cn_active k) (-1)) k) in
  set_cn_metrics (count_rejected (cn_metrics k)) k.

(** The id, the key and the summary of an admitted connection. *)
Definition admitted (entry : ManagedProxy) (peer : SocketAddr) (up down : Z * Z) (c : Control) (k : Conns)
    : ConnectionSnapshot * Conns :=
  let spec := mp_spec entry in
  let k := set_cn_metrics (count_accepted (ps_name spec) (cn_metrics k)) k in
  let id := cn_next_id k in
  let counters := counters_at k (mp_counters entry) in
  let key := ct_ordinal counters in
  let k := set_cn_next_id (wadd id 1) k in
  let k := set_cn_counters
    (<[mp_counters entry := {| ct_active := ct_active counters; ct_ordinal := wadd key 1 |}]> (cn_counters k)) k in
  ({| sn_id := id; sn_proxy := ps_name spec; sn_ordinal := key; sn_peer := peer; sn_upstream := ps_upstream spec;
      sn_state := Connecting; sn_connection_key := key; sn_seed := Z.lxor (rt_seed c) (ps_seed spec);
      sn_generation := rt_generation c; sn_up := view_accepted (fst up) (snd up);
      sn_down := view_accepted (fst down) (snd down); sn_rng_version := V1 |}, k).

Definition new_child (h : nat) (entry : ManagedProxy) (id : Z) (token : nat) : Child := {|
  ch_id := id; ch_supervisor := h; ch_counters := mp_counters entry; ch_token := token; ch_scope := mp_cancel entry;
  ch_connect_timeout := ps_connect_timeout (mp_spec entry); ch_aborting := false; ch_phase := Dialing |}.

(** The supervisor is back at the top of its loop: a client was refused, or
    admitted under an id, whose token the control plane registers. *)
Definition accept_done (h : nat) (id : option Z) (r : Relay) : option Relay :=
  option_map (fun r => set_rl_jobs (delete h (rl_jobs r)) r) (control_does (Supervise h (SupAccept id)) r).

Definition accept_next (h : nat) (up down : Z * Z) (entry : ManagedProxy) (peer : SocketAddr) (stage : AcceptStage)
    (r : Relay) : option Relay :=
  let k := rl_conns r in
  let at_stage s r := Some (set_job h (Accepting entry peer s) r) in
  match stage with
  | AcceptGlobal =>
      let current := wadd (cn_active k) 1 in
      at_stage (AcceptProxy current) (set_rl_conns (set_cn_active current k) r)
  | AcceptProxy current =>
      at_stage (AcceptDecide current (wadd (ct_active (counters_at k (mp_counters entry))) 1))
        (set_rl_conns (proxy_add 1 (mp_counters entry) k) r)
  | AcceptDecide current current_proxy =>
      if over_limits k entry current current_proxy then accept_done h None (set_rl_conns (reject entry k) r)
      else if policy_now up_cell entry (control_of r) up && policy_now down_cell entry (control_of r) down then
        let '(s, k) := admitted entry peer up down (control_of r) k in
        at_stage (AcceptInsert s) (set_rl_conns k r)
      else None
  | AcceptInsert s =>
      at_stage (AcceptRegister (sn_id s))
        (set_rl_conns (set_cn_connections (<[sn_id s := s]> (cn_connections k)) k) r)
  | AcceptRegister id =>
      let token := length (rt_tokens (control_of r)) in
      option_map (fun r => set_rl_children (rl_children r ++ [new_child h entry id token]) r) (accept_done h (Some id) r)
  end.

(** ** The end of a supervisor *)

Definition is_over (c : Child) : bool := match ch_phase c with Ended | Aborted _ => true | _ => false end.
Definition is_child_of (h : nat) (c : Child) : bool := Nat.eqb (ch_supervisor c) h.

Definition purge_closing (o : ConnectionOutcome) : Closing :=
  closing o no_terms (Some "supervisor purge after task abort"%string).
(** The ids of a name, in the order the hash map has them: any order. *)
Definition ids_named (name : string) (k : Conns) : gset Z :=
  dom (filter (fun p => sn_proxy (snd p) = name) (cn_connections k)).
Definition lists (ids : list Z) (s : gset Z) : bool :=
  bool_decide (NoDup ids) && bool_decide (list_to_set ids = s).

Definition purge_next (h : nat) (name : string) (listed : list Z) (o : ConnectionOutcome) (stage : PurgeStage) (r : Relay)
    : option Relay :=
  let continue_with counters ids r :=
    set_job h (match ids with [] => Purged | _ :: _ => Purging o (PurgeTake counters ids TakeToken) end) r in
  match stage with
  | PurgeList =>
      if lists listed (ids_named name (rl_conns r))
      then Some (set_job h (match listed with [] => Purged | _ :: _ => Purging o (PurgeLook listed) end) r)
      else None
  | PurgeLook ids => Some (continue_with (option_map mp_counters (rt_proxies (control_of r) !! name)) ids r)
  | PurgeTake counters [] stage => None
  | PurgeTake counters (id :: ids) stage =>
      match close_stage counters (purge_closing o) id stage r with
      | None => None
      | Some (Some stage, r) => Some (set_job h (Purging o (PurgeTake counters (id :: ids) stage)) r)
      | Some (None, r) => Some (continue_with counters ids r)
      end
  end.

(** ** The system *)

Inductive RelayMove :=
| RmControl (mv : move control_event)              (* the control plane *)
| RmAccept (h : nat) (peer : SocketAddr)           (* a client connects *)
| RmAccepting (h : nat) (up down : Z * Z)          (* the accept path goes on, seeing these policies *)
| RmJoin (h : nat)                                 (* children.shutdown() *)
| RmJoined (h : nat)                               (* every child is over *)
| RmPurge (h : nat) (listed : list Z)
| RmChild (i : nat) (ch : ConnChoice)
| RmAborted (i : nat)                              (* an abort takes effect *)
| RmEvidence (a : nat) (e : StreamEvidence).       (* a stream writes its evidence *)

Definition sup_phase (h : nat) (r : Relay) : option SupervisorPhase := sv_phase <$> (rt_supervisors (control_of r) !! h).
Definition no_job (h : nat) (r : Relay) : bool := is_none (rl_jobs r !! h).

(** The moves of the control plane that no task of this file makes, with a
    supervisor's own work in between: it is not in its select while it
    accepts, and its flag is set after the purge. *)
Definition control_moves (mv : move control_event) (r : Relay) : bool :=
  match mv with
  | Event (SupervisorMoves h (SupAccept (Some _))) => false
  | Event (ConnectionCloses _) => false
  | Event (SupervisorMoves h SupNext) =>
      match sup_phase h r with
      | Some SStopping => match rl_jobs r !! h with Some Purged => true | _ => false end
      | _ => true
      end
  | Event (SupervisorMoves h _) => no_job h r
  | _ => true
  end.

Definition relay_next (mv : RelayMove) (r : Relay) : option Relay :=
  match mv with
  | RmControl mv => if control_moves mv r then control_does mv r else None
  | RmAccept h peer =>
      match sup_phase h r, rl_jobs r !! h with
      | Some (SSelect entry), None => Some (set_job h (Accepting entry peer AcceptGlobal) r)
      | _, _ => None
      end
  | RmAccepting h up down =>
      match rl_jobs r !! h with
      | Some (Accepting entry peer stage) => accept_next h up down entry peer stage r
      | _ => None
      end
  | RmJoin h =>
      match sup_phase h r, rl_jobs r !! h with
      | Some SStopping, None =>
          Some (set_job h Joining
            (set_rl_children (map (fun c => if is_child_of h c then abort_child c else c) (rl_children r)) r))
      | _, _ => None
      end
  | RmJoined h =>
      match rl_jobs r !! h with
      | Some Joining =>
          if forallb (fun c => negb (is_child_of h c) || is_over c) (rl_children r)
          then Some (set_job h
                 (Purging (if rt_shutdown_initiated (control_of r) then ServiceShutdown else ProxyRemoved) PurgeList) r)
          else None
      | _ => None
      end
  | RmPurge h listed =>
      match rl_jobs r !! h, rt_supervisors (control_of r) !! h with
      | Some (Purging o stage), Some s => purge_next h (sv_name s) listed o stage r
      | _, _ => None
      end
  | RmChild i ch =>
      match rl_children r !! i with
      | Some c =>
          option_map (fun '(phase, r) => set_rl_children (<[i := set_ch_phase phase c]> (rl_children r)) r) (child_next ch c r)
      | None => None
      end
  | RmAborted i =>
      match rl_children r !! i with
      | Some c =>
          if ch_aborting c && negb (is_over c)
          then Some (set_rl_children (<[i := set_ch_phase (Aborted (ch_phase c)) c]> (rl_children r)) r)
          else None
      | None => None
      end
  | RmEvidence a e => Some (set_rl_conns (set_cn_handles (<[a := e]> (cn_handles (rl_conns r))) (rl_conns r)) r)
  end.

Definition relay_step (r r' : Relay) : Prop := exists mv, relay_next mv r = Some r'.

Fixpoint relay_run (mvs : list RelayMove) (r : Relay) : option Relay :=
  match mvs with
  | [] => Some r
  | mv :: mvs => match relay_next mv r with Some r => relay_run mvs r | None => None end
  end.
Lemma relay_run_reaches mvs r r' : relay_run mvs r = Some r' -> rtc relay_step r r'.
Proof.
  revert r. induction mvs as [|mv mvs IH]; cbn; intros r H; [by injection H as ->|].
  destruct (relay_next mv r) as [t|] eqn:N; [|discriminate H]. eapply rtc_l; [by exists mv|by apply IH].
Qed.

(** ** Readers *)

Definition connections (k : Conns) : list ConnectionSnapshot :=
  map (fun '(id, s) => merge_evidence s (evidence_of k (sn_id s))) (map_to_list (cn_connections k)).
Definition get_connection (id : Z) (k : Conns) : option ConnectionSnapshot :=
  option_map (fun s => merge_evidence s (evidence_of k id)) (cn_connections k !! id).
Definition history (k : Conns) : list ClosedConnection := cn_history k.
