(* ===== verification/RelayInv.v ===== *)
(** * The books of the connections

    What every interleaving of accept paths, connection tasks, purges, aborts
    and control operations keeps: the slots that are taken, the connections
    that were counted in and not yet out, and who may still record the close
    of which connection. *)

From Stdlib Require Import Bool.
From stdpp Require Import base list gmap strings relations sorting.
From S2P Require Import Prelude Rng Float64 Plan Policy EngineState Stream Schedule Wire Server Tasks Control ControlInv ControlRun Connections Relay.

(** ** Sums *)

Definition lsum {A} (f : A -> Z) (l : list A) : Z := zsum (map f l).
Definition msum {K A} `{Countable K} (f : A -> Z) (m : gmap K A) : Z := lsum (fun p => f (snd p)) (map_to_list m).
(** The share of one key. *)
Definition at_key {K A} `{Countable K} (f : A -> Z) (m : gmap K A) (k : K) : Z := from_option f 0 (m !! k).

Lemma lsum_app {A} (f : A -> Z) l l' : lsum f (l ++ l') = lsum f l + lsum f l'.
Proof. unfold lsum. by rewrite map_app, zsum_app. Qed.
Lemma lsum_cons {A} (f : A -> Z) x l : lsum f (x :: l) = f x + lsum f l.
Proof. done. Qed.
Lemma lsum_perm {A} (f : A -> Z) l l' : l ≡ₚ l' -> lsum f l = lsum f l'.
Proof. induction 1; rewrite ?lsum_cons in *; lia. Qed.
Lemma lsum_nonneg {A} (f : A -> Z) l : (forall x, 0 <= f x) -> 0 <= lsum f l.
Proof. intros H. apply zsum_nonneg, Forall_fmap, Forall_forall. auto. Qed.
Lemma lsum_ext {A} (f g : A -> Z) l : (forall x, f x = g x) -> lsum f l = lsum g l.
Proof. intros H. unfold lsum. f_equal. by apply map_ext. Qed.
Lemma lsum_map {A B} (f : B -> Z) (g : A -> B) l : lsum f (map g l) = lsum (fun x => f (g x)) l.
Proof. unfold lsum. by rewrite map_map. Qed.
Lemma lsum_insert {A} (f : A -> Z) l i x y : l !! i = Some x -> lsum f (<[i := y]> l) = lsum f l - f x + f y.
Proof.
  intros H. rewrite <- (take_drop_middle l i x H) at 2.
  rewrite (insert_take_drop l i y) by (by eapply lookup_lt_Some). rewrite !lsum_app, !lsum_cons. lia.
Qed.
Lemma lsum_elem {A} (f : A -> Z) l i x : (forall x, 0 <= f x) -> l !! i = Some x -> f x <= lsum f l.
Proof.
  intros P H. rewrite <- (take_drop_middle l i x H), lsum_app, lsum_cons.
  pose proof (lsum_nonneg f (take i l) P). pose proof (lsum_nonneg f (drop (S i) l) P). lia.
Qed.

Section MapSums.
Context {K A : Type} `{Countable K} (f : A -> Z).
Implicit Types m : gmap K A.

Lemma msum_empty : msum f (∅ : gmap K A) = 0.
Proof. unfold msum. by rewrite map_to_list_empty. Qed.
Lemma msum_delete m k : msum f (delete k m) = msum f m - at_key f m k.
Proof.
  unfold msum, at_key. destruct (m !! k) as [x|] eqn:E; cbn; [|rewrite delete_id by done; lia].
  rewrite <- (lsum_perm _ _ _ (map_to_list_delete m k x E)). rewrite lsum_cons. cbn. lia.
Qed.
Lemma msum_insert m k x : msum f (<[k := x]> m) = msum f m - at_key f m k + f x.
Proof.
  rewrite <- insert_delete_eq. unfold msum at 1.
  rewrite (lsum_perm _ _ _ (map_to_list_insert _ k x (lookup_delete_eq m k))). rewrite lsum_cons. cbn.
  fold (msum f (delete k m)). rewrite msum_delete. lia.
Qed.
Lemma msum_nonneg m : (forall x, 0 <= f x) -> 0 <= msum f m.
Proof. intros P. by apply lsum_nonneg. Qed.
Lemma at_key_some m k x : m !! k = Some x -> at_key f m k = f x.
Proof. unfold at_key. by intros ->. Qed.
Lemma at_key_none m k : m !! k = None -> at_key f m k = 0.
Proof. unfold at_key. by intros ->. Qed.
End MapSums.

Lemma wadd_up x : 0 <= x < U64_MAX -> wadd x 1 = x + 1.
Proof. intros H. apply wrap64_small. unfold is_u64, TWO64, U64_MAX in *. lia. Qed.
Lemma wadd_down x : 1 <= x <= U64_MAX -> wadd x (-1) = x - 1.
Proof. intros H. replace (x - 1) with (x + -1) by lia. apply wrap64_small. unfold is_u64, TWO64, U64_MAX in *. lia. Qed.

(** ** What one value of the records says *)

Definition ind (b : bool) : Z := if b then 1 else 0.
Definition open_count (k : Conns) : Z := Z.of_nat (size (cn_connections k)).
Definition is_open (k : Conns) (id : Z) : Z := ind (is_some (cn_connections k !! id)).
Definition closed_count (k : Conns) (id : Z) : Z := lsum (fun e => ind (sn_id (cl_snapshot e) =? id)) (cn_history k).

(** A connection out of the map and not yet counted out; and the one whose
    close a stage records. *)
Definition due_at (stage : TakeStage) : Z := match stage with TakeEvidence (Some _) => 1 | _ => 0 end.
Definition holds_at (id : Z) (stage : TakeStage) : Z :=
  match stage with
  | TakeEvidence (Some s) => ind (sn_id s =? id)
  | TakeHistory e => ind (sn_id (cl_snapshot e) =? id)
  | _ => 0
  end.

(** What the tasks hold between them. *)
Record Books := {
  bo_slots : Z;         (* slots taken for no connection in the map *)
  bo_due : Z;           (* admitted connections not in the map and not counted out *)
  bo_holds : Z -> Z;    (* closes on their way, by id *)
  bo_placed : Z -> Prop (* ids that were put in the map *)
}.

Record books_ok (n : Z) (b : Books) (k : Conns) : Prop := {
  bk_active : cn_active k = open_count k + bo_slots b;
  bk_bound : cn_active k <= n;
  bk_accepted : mc_accepted (cn_metrics k) = mc_completed (cn_metrics k) + open_count k + bo_due b;
  bk_accepted_bound : mc_accepted (cn_metrics k) <= n;
  bk_completed : 0 <= mc_completed (cn_metrics k) <= n;
  bk_outcomes : zsum (mc_outcomes (cn_metrics k)) = mc_completed (cn_metrics k);
  bk_classes : length (mc_outcomes (cn_metrics k)) = 8%nat;
  bk_each : Forall (fun x => 0 <= x) (mc_outcomes (cn_metrics k));
  bk_history : zlen (cn_history k) <= al_history (cn_limits k);
  bk_keyed : map_Forall (fun id s => sn_id s = id) (cn_connections k);
  bk_once : forall id, is_open k id + bo_holds b id + closed_count k id <= 1;
  bk_placed : forall id, 1 <= is_open k id + bo_holds b id + closed_count k id -> bo_placed b id
}.

Lemma ind_range b : 0 <= ind b <= 1.
Proof. by destruct b. Qed.
Lemma is_open_range k id : 0 <= is_open k id <= 1.
Proof. apply ind_range. Qed.
Lemma closed_count_nonneg k id : 0 <= closed_count k id.
Proof. apply lsum_nonneg. intros. apply ind_range. Qed.
Lemma due_at_range s : 0 <= due_at s <= 1.
Proof. destruct s as [| |[]|]; cbn; lia. Qed.
Lemma holds_at_range id s : 0 <= holds_at id s <= 1.
Proof. destruct s as [| |[]|]; cbn; try apply ind_range; lia. Qed.

Lemma merge_keeps_id s e : sn_id (merge_evidence s e) = sn_id s.
Proof. by destruct e as [[]|]. Qed.

Lemma sum_alter (f : Z -> Z) l i : (i < length l)%nat -> Forall (fun x => 0 <= x) l -> (forall x, In x l -> f x = x + 1) ->
  zsum (alter f i l) = zsum l + 1 /\ Forall (fun x => 0 <= x) (alter f i l).
Proof.
  revert i. induction l as [|x l IH]; intros i Hi F E; [cbn in Hi; lia|].
  apply Forall_cons in F as [Fx Fl]. destruct i as [|i].
  - change (f x + zsum l = x + zsum l + 1 /\ Forall (fun x => 0 <= x) (f x :: l)).
    rewrite E by (by left). split; [lia|]. constructor; [lia|done].
  - destruct (IH i) as [E' F']; [cbn in Hi; lia|done|intros; apply E; by right|].
    change (x + zsum (alter f i l) = x + zsum l + 1 /\ Forall (fun x => 0 <= x) (x :: alter f i l)).
    split; [lia|]. by constructor.
Qed.

Lemma zsum_elem l x : Forall (fun x => 0 <= x) l -> In x l -> x <= zsum l.
Proof.
  induction l as [|y l IH]; [done|]. intros [Fy Fl]%Forall_cons. pose proof (zsum_nonneg l Fl) as P. cbn.
  intros [->|Hx]; [unfold zsum in *; lia|]. specialize (IH Fl Hx). unfold zsum in *. lia.
Qed.

(** ** Closing *)

Definition next_stage (f : TakeStage -> Z) (next : option TakeStage) : Z := from_option f 0 next.
(** The books once a task holds [next] instead of [stage]. *)
Definition shifted (stage : TakeStage) (next : option TakeStage) (b : Books) : Books := {|
  bo_slots := bo_slots b - due_at stage + next_stage due_at next;
  bo_due := bo_due b - due_at stage + next_stage due_at next;
  bo_holds := fun id => bo_holds b id - holds_at id stage + next_stage (holds_at id) next;
  bo_placed := bo_placed b
|}.

Lemma delete_open k id : open_count (set_cn_connections (delete id (cn_connections k)) k) = open_count k - is_open k id.
Proof.
  unfold open_count, is_open. cbn. destruct (cn_connections k !! id) as [s|] eqn:E; cbn.
  - rewrite map_size_delete, E. assert (size (cn_connections k) <> 0%nat); [|lia].
    intros Z%map_size_empty_inv. by rewrite Z, lookup_empty in E.
  - rewrite delete_id by done. lia.
Qed.

Lemma delete_is_open k id i :
  is_open (set_cn_connections (delete id (cn_connections k)) k) i = is_open k i - ind (bool_decide (i = id)) * is_open k i.
Proof.
  unfold is_open. cbn. case_bool_decide as D; [subst|].
  - rewrite lookup_delete_eq. cbn. lia.
  - rewrite lookup_delete_ne by done. cbn. lia.
Qed.

Lemma account_close_counts n counters c s evidence k entry k' :
  n < U64_MAX -> 1 <= cn_active k <= n -> length (mc_outcomes (cn_metrics k)) = 8%nat ->
  Forall (fun x => 0 <= x) (mc_outcomes (cn_metrics k)) -> zsum (mc_outcomes (cn_metrics k)) = mc_completed (cn_metrics k) ->
  mc_completed (cn_metrics k) < n ->
  account_close counters c s evidence k = (entry, k') ->
  cn_active k' = cn_active k - 1
  /\ mc_completed (cn_metrics k') = mc_completed (cn_metrics k) + 1
  /\ mc_accepted (cn_metrics k') = mc_accepted (cn_metrics k)
  /\ (zsum (mc_outcomes (cn_metrics k')) = mc_completed (cn_metrics k')
      /\ length (mc_outcomes (cn_metrics k')) = 8%nat /\ Forall (fun x => 0 <= x) (mc_outcomes (cn_metrics k')))
  /\ cn_connections k' = cn_connections k /\ cn_history k' = cn_history k /\ cn_limits k' = cn_limits k
  /\ cn_next_id k' = cn_next_id k /\ sn_id (cl_snapshot entry) = sn_id s.
Proof.
  intros Hn Ha Hl Hf Hs Hc H. unfold account_close in H. injection H as <- <-.
  assert (0 <= mc_completed (cn_metrics k)) by (rewrite <- Hs; by apply zsum_nonneg).
  destruct (sum_alter (fun x => wadd x 1) (mc_outcomes (cn_metrics k)) (outcome_class (cg_outcome c))) as [E F].
  { rewrite Hl. destruct (cg_outcome c); cbn; lia. }
  { done. }
  { intros x Hx. apply wadd_up. pose proof (zsum_elem _ _ Hf Hx). rewrite List.Forall_forall in Hf. specialize (Hf x Hx). lia. }
  assert (D : wadd (cn_active k) (-1) = cn_active k - 1) by (apply wadd_down; lia).
  assert (C : wadd (mc_completed (cn_metrics k)) 1 = mc_completed (cn_metrics k) + 1) by (apply wadd_up; lia).
  destruct counters as [a|]; cbv zeta;
    cbn [cn_active cn_metrics cn_connections cn_history cn_limits cn_next_id set_cn_metrics set_cn_active set_cn_counters
         proxy_add mc_completed mc_accepted mc_outcomes aggregate_close_metrics cl_snapshot set_sn_state sn_id];
    rewrite D, C, E, length_alter, Hs, merge_keeps_id; auto 10.
Qed.

Lemma push_history_length limit e l : 1 <= limit -> zlen l <= limit -> zlen (push_history limit e l) <= limit.
Proof.
  intros. unfold push_history, zlen, zdrop in *. rewrite length_app, length_drop. cbn. lia.
Qed.
Lemma push_history_count limit e l (f : ClosedConnection -> Z) : (forall x, 0 <= f x) ->
  lsum f (push_history limit e l) <= lsum f l + f e.
Proof.
  intros P. unfold push_history. rewrite lsum_app, lsum_cons. unfold zdrop. set (i := Z.to_nat _).
  assert (E : lsum f l = lsum f (take i l) + lsum f (drop i l)) by (by rewrite <- lsum_app, take_drop).
  pose proof (lsum_nonneg f (take i l) P). change (lsum f []) with 0. lia.
Qed.

(** Two values of the records that differ in nothing the books count. *)
Definition same_books (k k' : Conns) : Prop :=
  cn_active k' = cn_active k /\ cn_connections k' = cn_connections k /\ cn_history k' = cn_history k
  /\ cn_metrics k' = cn_metrics k /\ cn_limits k' = cn_limits k /\ cn_next_id k' = cn_next_id k.

Definition books_le (b b' : Books) : Prop :=
  bo_slots b' = bo_slots b /\ bo_due b' = bo_due b /\ (forall id, bo_holds b' id = bo_holds b id)
  /\ (forall id, bo_placed b id -> bo_placed b' id).

Lemma books_same n b b' k k' : same_books k k' -> books_le b b' -> books_ok n b k -> books_ok n b' k'.
Proof.
  intros (Ea & Ec & Eh & Em & El & _) (Bs & Bd & Bh & Bp) [].
  assert (O : open_count k' = open_count k) by (unfold open_count; by rewrite Ec).
  assert (I : forall id, is_open k' id = is_open k id) by (intros; unfold is_open; by rewrite Ec).
  assert (C : forall id, closed_count k' id = closed_count k id) by (intros; unfold closed_count; by rewrite Eh).
  constructor; rewrite ?Ea, ?Em, ?Ec, ?Eh, ?El, ?O, ?Bs, ?Bd; try done.
  - intros id. rewrite I, C, Bh. auto.
  - intros id. rewrite I, C, Bh. auto.
Qed.

(** [take_connection] takes the summary out of the map. *)
Lemma take_snapshot_books n b k id :
  books_ok n b k ->
  books_ok n (shifted TakeSnapshot (Some (TakeEvidence (cn_connections k !! id))) b)
    (set_cn_connections (delete id (cn_connections k)) k).
Proof.
  intros []. pose proof (is_open_range k id) as Ro.
  assert (D : due_at (TakeEvidence (cn_connections k !! id)) = is_open k id)
    by (unfold is_open; by destruct (cn_connections k !! id)).
  assert (Hh : forall i, holds_at i (TakeEvidence (cn_connections k !! id)) = ind (bool_decide (i = id)) * is_open k i).
  { intros i. unfold is_open. case_bool_decide as E; [subst i|]; destruct (cn_connections k !! id) as [s|] eqn:L; cbn.
    - rewrite (bk_keyed0 _ _ L), Z.eqb_refl. done.
    - done.
    - rewrite (bk_keyed0 _ _ L). destruct (Z.eqb_spec id i); [congruence|done].
    - done. }
  constructor; cbn [shifted bo_slots bo_due bo_holds bo_placed next_stage from_option]; try done.
  - rewrite delete_open, D. change (due_at TakeSnapshot) with 0. cbn [set_cn_connections cn_active]. lia.
  - rewrite delete_open, D. change (due_at TakeSnapshot) with 0. cbn [set_cn_connections cn_metrics]. lia.
  - by apply map_Forall_delete.
  - intros i. rewrite delete_is_open, Hh. specialize (bk_once0 i). cbn [holds_at]. unfold closed_count in *. cbn [set_cn_connections cn_history]. lia.
  - intros i. rewrite delete_is_open, Hh. specialize (bk_placed0 i). cbn [holds_at]. unfold closed_count in *. cbn [set_cn_connections cn_history].
    intros H. apply bk_placed0. lia.
Qed.

(** [TakeHistory] is reached only with a history to write to. *)
Definition stage_ok (k : Conns) (stage : TakeStage) : Prop :=
  match stage with TakeHistory _ => al_history (cn_limits k) <> 0 | _ => True end.

(** The slot, the counters and what is left to write in the history. *)
Lemma take_evidence_books n b counters c s id k next k' :
  n < U64_MAX -> 1 <= bo_slots b -> 1 <= bo_due b -> books_ok n b k ->
  close_conns counters c id (TakeEvidence (Some s)) k = (next, k') ->
  books_ok n (shifted (TakeEvidence (Some s)) next b) k'
  /\ cn_limits k' = cn_limits k /\ cn_next_id k' = cn_next_id k /\ cn_connections k' = cn_connections k
  /\ next_stage due_at next = 0 /\ from_option (stage_ok k') True next.
Proof.
  intros Hn Hs Hd B H. pose proof B as []. cbn [close_conns] in H.
  destruct (account_close _ _ _ _ _) as [entry k1] eqn:E.
  assert (Ho : 0 <= open_count k) by (unfold open_count; lia).
  apply (account_close_counts n) in E as (A & C & Ac & (Os & Ol & Oe) & Em & Eh & El & En & Ei);
    [|done|cbn; lia|done..|cbn; lia].
  cbn [set_cn_evidence cn_active cn_metrics cn_connections cn_history cn_limits cn_next_id] in *.
  assert (K : k' = k1 /\ (next = None \/ next = Some (TakeHistory entry) /\ al_history (cn_limits k1) <> 0)).
  { destruct (Z.eqb_spec (al_history (cn_limits k1)) 0); injection H as <- <-; auto. }
  destruct K as [-> Hnext].
  assert (Dn : next_stage due_at next = 0) by (by destruct Hnext as [->|[-> _]]).
  split; [|by destruct Hnext as [->|[-> ?]]].
  assert (Hh : forall i, next_stage (holds_at i) next <= ind (sn_id s =? i)).
  { intros i. destruct Hnext as [->|[-> _]]; cbn; [apply ind_range|by rewrite Ei]. }
  assert (O : open_count k1 = open_count k) by (unfold open_count; by rewrite Em).
  assert (Io : forall i, is_open k1 i = is_open k i) by (intros; unfold is_open; by rewrite Em).
  assert (Cc : forall i, closed_count k1 i = closed_count k i) by (intros; unfold closed_count; by rewrite Eh).
  constructor; cbn [shifted bo_slots bo_due bo_holds bo_placed due_at holds_at];
    rewrite ?Dn, ?O, ?Em, ?Eh, ?El; try done; try lia.
  - intros i. rewrite Io, Cc. specialize (bk_once0 i). specialize (Hh i). lia.
  - intros i. rewrite Io, Cc. specialize (bk_placed0 i). specialize (Hh i). intros Hi. apply bk_placed0. lia.
Qed.

Lemma take_history_books n b e k : al_history (cn_limits k) <> 0 -> books_ok n b k ->
  books_ok n (shifted (TakeHistory e) None b) (set_cn_history (push_history (al_history (cn_limits k)) e (cn_history k)) k).
Proof.
  intros Hl []. assert (P : 0 <= zlen (cn_history k)) by apply zlen_nonneg.
  assert (Cc : forall i, lsum (fun e => ind (sn_id (cl_snapshot e) =? i)) (push_history (al_history (cn_limits k)) e (cn_history k))
                         <= closed_count k i + ind (sn_id (cl_snapshot e) =? i)).
  { intros i. apply (push_history_count _ e _ (fun e => ind (sn_id (cl_snapshot e) =? i))). intros. apply ind_range. }
  constructor; cbn [shifted bo_slots bo_due bo_holds bo_placed due_at holds_at next_stage from_option set_cn_history cn_active
                    cn_metrics cn_history cn_limits cn_connections]; rewrite ?Z.sub_0_r, ?Z.add_0_r; try done.
  - apply push_history_length; [|done]. lia.
  - intros i. specialize (bk_once0 i). specialize (Cc i). unfold closed_count, is_open in *.
    cbn [cn_history cn_connections set_cn_history]. lia.
  - intros i. specialize (bk_placed0 i). specialize (Cc i). unfold closed_count, is_open in *.
    cbn [cn_history cn_connections set_cn_history]. intros Hi. apply bk_placed0. lia.
Qed.

(** A stage of a close keeps the books, for whoever holds the stage. *)
Lemma close_books n counters c id stage next b k k' :
  n < U64_MAX -> close_conns counters c id stage k = (next, k') -> stage_ok k stage ->
  due_at stage <= bo_slots b -> due_at stage <= bo_due b ->
  books_ok n b k -> books_ok n (shifted stage next b) k'
  /\ cn_limits k' = cn_limits k /\ cn_next_id k' = cn_next_id k /\ open_count k' <= open_count k
  /\ (forall i s, cn_connections k' !! i = Some s -> cn_connections k !! i = Some s)
  /\ (stage = TakeSnapshot -> cn_connections k' !! id = None) /\ from_option (stage_ok k') True next.
Proof.
  intros Hn H Hk Hs Hd B. destruct stage as [| |[s|]|entry].
  - cbn in H. injection H as <- <-. split; [|by split_and!; cbn; try done; unfold open_count; cbn; lia].
    eapply books_same; [|split_and!|exact B]; cbn; try done; auto; intros; lia.
  - cbn in H. injection H as <- <-. split; [by apply take_snapshot_books|]. rewrite delete_open. pose proof (is_open_range k id).
    split; [done|]. split; [done|]. split; [|split; [|by split; [intros; apply lookup_delete_eq|]]].
    + lia.
    + cbn. by intros i s [_ ?]%lookup_delete_Some.
  - apply (take_evidence_books n b) in H as (B' & El & En & Ec & Dn & Sn); [|done|by cbn in *..|done].
    split; [done|]. split; [done|]. split; [done|]. unfold open_count. rewrite Ec. split; [done|]. by split_and!.
  - cbn in H. injection H as <- <-. split; [|by split_and!; cbn; try done; unfold open_count; cbn; lia].
    eapply books_same; [|split_and!|exact B]; cbn; try done; auto; intros; lia.
  - cbn [close_conns] in H. injection H as <- <-. split; [by apply take_history_books|]. by split_and!; cbn; try done; unfold open_count; cbn; lia.
Qed.

(** ** What the tasks hold *)

Definition child_stage (c : Child) : option TakeStage :=
  match ch_phase c with Closing_ _ stage | Aborted (Closing_ _ stage) => Some stage | _ => None end.
Definition child_due (c : Child) : Z := next_stage due_at (child_stage c).
Definition child_holds (id : Z) (c : Child) : Z := next_stage (holds_at id) (child_stage c).

Definition job_stage (j : SupervisorJob) : option TakeStage :=
  match j with Purging _ (PurgeTake _ _ stage) => Some stage | _ => None end.
Definition job_slots (j : SupervisorJob) : Z :=
  match j with
  | Accepting _ _ (AcceptProxy _ | AcceptDecide _ _ | AcceptInsert _) => 1
  | _ => next_stage due_at (job_stage j)
  end.
Definition job_due (j : SupervisorJob) : Z :=
  match j with Accepting _ _ (AcceptInsert _) => 1 | _ => next_stage due_at (job_stage j) end.
Definition job_holds (id : Z) (j : SupervisorJob) : Z := next_stage (holds_at id) (job_stage j).

Definition placed (r : Relay) (id : Z) : Prop :=
  id ∈ map ch_id (rl_children r) \/ exists h entry peer, rl_jobs r !! h = Some (Accepting entry peer (AcceptRegister id)).
Definition books_of (r : Relay) : Books := {|
  bo_slots := lsum child_due (rl_children r) + msum job_slots (rl_jobs r);
  bo_due := lsum child_due (rl_children r) + msum job_due (rl_jobs r);
  bo_holds := fun id => lsum (child_holds id) (rl_children r) + msum (job_holds id) (rl_jobs r);
  bo_placed := placed r
|}.

(** The ids given out. *)
Definition job_ids (j : SupervisorJob) : list Z :=
  match j with
  | Accepting _ _ (AcceptInsert s) => [sn_id s]
  | Accepting _ _ (AcceptRegister id) => [id]
  | _ => []
  end.
Definition jobs_ids (m : gmap nat SupervisorJob) : list Z := concat (map (fun p => job_ids (snd p)) (map_to_list m)).
Definition issued (r : Relay) : list Z := map ch_id (rl_children r) ++ jobs_ids (rl_jobs r).

(** An accept path that found room. *)
Definition job_tentative (limit : Z) (j : SupervisorJob) : Z :=
  match j with
  | Accepting _ _ (AcceptProxy current) | Accepting _ _ (AcceptDecide current _) => ind (current <=? limit)
  | Accepting _ _ (AcceptInsert _) => 1
  | _ => 0
  end.

Record ids_ok (n : Z) (r : Relay) : Prop := {
  io_next : cn_next_id (rl_conns r) = 1 + zlen (issued r);
  io_bound : zlen (issued r) <= n;
  io_unique : NoDup (issued r);
  io_range : Forall (fun id => 1 <= id <= zlen (issued r)) (issued r)
}.
Definition limit_ok (r : Relay) : Prop :=
  let limit := al_global_connections (cn_limits (rl_conns r)) in
  open_count (rl_conns r) + msum (job_tentative limit) (rl_jobs r) <= limit.
Record relay_ok (n : Z) (r : Relay) : Prop := {
  ro_books : books_ok n (books_of r) (rl_conns r);
  ro_children : Forall (fun c => from_option (stage_ok (rl_conns r)) True (child_stage c)) (rl_children r);
  ro_jobs : map_Forall (fun _ j => from_option (stage_ok (rl_conns r)) True (job_stage j)) (rl_jobs r);
  ro_ids : ids_ok n r;
  ro_limit : limit_ok r
}.

Lemma child_due_range c : 0 <= child_due c <= 1.
Proof. unfold child_due. destruct (child_stage c); cbn; [apply due_at_range|lia]. Qed.
Lemma child_holds_nonneg id c : 0 <= child_holds id c.
Proof. unfold child_holds. destruct (child_stage c); cbn; [apply holds_at_range|lia]. Qed.
Lemma job_slots_range j : 0 <= job_slots j <= 1.
Proof. destruct j as [? ? []| |? [| |? ? st]|]; cbn; try lia; apply due_at_range. Qed.
Lemma job_due_range j : 0 <= job_due j <= 1.
Proof. destruct j as [? ? []| |? [| |? ? st]|]; cbn; try lia; apply due_at_range. Qed.
Lemma job_holds_nonneg id j : 0 <= job_holds id j.
Proof. unfold job_holds. destruct (job_stage j); cbn; [apply holds_at_range|lia]. Qed.
Lemma job_tentative_range limit j : 0 <= job_tentative limit j <= 1.
Proof. destruct j as [? ? []| |? ?|]; cbn; try lia; apply ind_range. Qed.

(** ** Changes of a job or of a task *)

Lemma jobs_ids_insert m h j : jobs_ids (<[h := j]> m) ≡ₚ job_ids j ++ jobs_ids (delete h m).
Proof.
  rewrite <- insert_delete_eq. unfold jobs_ids at 1.
  rewrite (map_to_list_insert _ h j (lookup_delete_eq m h)). done.
Qed.
Lemma jobs_ids_delete (m : gmap nat SupervisorJob) h : jobs_ids m ≡ₚ from_option job_ids [] (m !! h) ++ jobs_ids (delete h m).
Proof.
  destruct (m !! h) as [j|] eqn:E; cbn; [|by rewrite delete_id].
  unfold jobs_ids at 1. by rewrite <- (map_to_list_delete m h j E).
Qed.
Lemma jobs_ids_elem m h j id : m !! h = Some j -> id ∈ job_ids j -> id ∈ jobs_ids m.
Proof. intros E H. rewrite (jobs_ids_delete m h), E, elem_of_app. by left. Qed.

(** The ids without the job's own. *)
Definition other_ids (h : nat) (r : Relay) : list Z := map ch_id (rl_children r) ++ jobs_ids (delete h (rl_jobs r)).
Lemma issued_without h r : issued r ≡ₚ from_option job_ids [] (rl_jobs r !! h) ++ other_ids h r.
Proof. unfold issued, other_ids. rewrite (jobs_ids_delete (rl_jobs r) h). solve_Permutation. Qed.
Lemma issued_set_job h j r : issued (set_job h j r) ≡ₚ job_ids j ++ other_ids h r.
Proof. unfold issued, other_ids. cbn. rewrite jobs_ids_insert. solve_Permutation. Qed.

Lemma ids_perm n r r' : issued r ≡ₚ issued r' -> cn_next_id (rl_conns r') = cn_next_id (rl_conns r) -> ids_ok n r -> ids_ok n r'.
Proof.
  intros P E []. assert (L : zlen (issued r') = zlen (issued r)) by (unfold zlen; by rewrite P).
  constructor; rewrite ?L, ?E, <- ?P; done.
Qed.

Lemma placed_job h j r id : (forall e p i, rl_jobs r !! h <> Some (Accepting e p (AcceptRegister i))) ->
  placed r id -> placed (set_job h j r) id.
Proof.
  intros N [H|(h' & e & p & H)]; [by left|right]. exists h', e, p. cbn.
  destruct (decide (h' = h)) as [->|D]; [by destruct (N e p id)|]. by rewrite lookup_insert_ne.
Qed.

(** An id that is given out and not yet put in the map. *)
Lemma inserting_not_placed n r h e p s : ids_ok n r -> rl_jobs r !! h = Some (Accepting e p (AcceptInsert s)) -> ~ placed r (sn_id s).
Proof.
  intros [_ _ U _] H P. rewrite (issued_without h), H in U. cbn in U. apply NoDup_cons in U as [U _]. apply U.
  unfold other_ids. rewrite elem_of_app. destruct P as [P|(h' & e' & p' & P)]; [by left|right].
  assert (h' <> h) by (intros ->; congruence).
  eapply (jobs_ids_elem _ h'); [by rewrite lookup_delete_ne|]. cbn. by left.
Qed.

Lemma msum_job f h j r : msum f (rl_jobs (set_job h j r)) = msum f (rl_jobs r) - at_key f (rl_jobs r) h + f j.
Proof. apply msum_insert. Qed.

Definition set_child (i : nat) (phase : ConnPhase) (c : Child) (r : Relay) : Relay :=
  set_rl_children (<[i := set_ch_phase phase c]> (rl_children r)) r.
Lemma set_child_ids i phase c r : rl_children r !! i = Some c -> map ch_id (rl_children (set_child i phase c r)) = map ch_id (rl_children r).
Proof.
  intros H. cbn. change (map ch_id) with (fmap ch_id (M := list)). rewrite list_fmap_insert. apply list_insert_id.
  rewrite list_lookup_fmap, H. done.
Qed.

(** ** Steps *)

Lemma books_weaken n n' b k : n <= n' -> books_ok n b k -> books_ok n' b k.
Proof. intros H []. constructor; try done; lia. Qed.
Lemma relay_ok_weaken n n' r : n <= n' -> relay_ok n r -> relay_ok n' r.
Proof.
  intros H [B C J [] L]. constructor; try done; [by eapply books_weaken|]. constructor; try done. lia.
Qed.
Lemma relay_ok_control n s r : relay_ok n r -> relay_ok n (set_rl_control s r).
Proof. destruct r. intros [? ? ? [] ?]. by constructor. Qed.

Lemma msum_mono {K A} `{Countable K} (f g : A -> Z) (m : gmap K A) : (forall x, f x <= g x) -> msum f m <= msum g m.
Proof.
  intros P. unfold msum, lsum. induction (map_to_list m) as [|x l IH]; cbn; [lia|].
  specialize (P (snd x)). unfold zsum in *. lia.
Qed.
Lemma tentative_takes limit j : job_tentative limit j <= job_slots j.
Proof. destruct j as [? ? []| |? [| |? ? st]|]; cbn; try lia; try apply ind_range. apply due_at_range. Qed.

(** The holdings after a job changes; the records are no part of them. *)
Lemma slots_job h j k r : bo_slots (books_of (set_job h j (set_rl_conns k r)))
  = bo_slots (books_of r) - at_key job_slots (rl_jobs r) h + job_slots j.
Proof. cbn [books_of bo_slots bo_due bo_holds set_job set_rl_jobs set_rl_conns rl_children rl_jobs]. rewrite msum_insert. lia. Qed.
Lemma due_job h j k r : bo_due (books_of (set_job h j (set_rl_conns k r)))
  = bo_due (books_of r) - at_key job_due (rl_jobs r) h + job_due j.
Proof. cbn [books_of bo_slots bo_due bo_holds set_job set_rl_jobs set_rl_conns rl_children rl_jobs]. rewrite msum_insert. lia. Qed.
Lemma holds_job h j k r id : bo_holds (books_of (set_job h j (set_rl_conns k r))) id
  = bo_holds (books_of r) id - at_key (job_holds id) (rl_jobs r) h + job_holds id j.
Proof. cbn [books_of bo_slots bo_due bo_holds set_job set_rl_jobs set_rl_conns rl_children rl_jobs]. rewrite msum_insert. lia. Qed.
Lemma slots_done h k r : bo_slots (books_of (set_rl_jobs (delete h (rl_jobs r)) (set_rl_conns k r)))
  = bo_slots (books_of r) - at_key job_slots (rl_jobs r) h.
Proof. cbn [books_of bo_slots bo_due bo_holds set_job set_rl_jobs set_rl_conns rl_children rl_jobs]. rewrite msum_delete. lia. Qed.
Lemma due_done h k r : bo_due (books_of (set_rl_jobs (delete h (rl_jobs r)) (set_rl_conns k r)))
  = bo_due (books_of r) - at_key job_due (rl_jobs r) h.
Proof. cbn [books_of bo_slots bo_due bo_holds set_job set_rl_jobs set_rl_conns rl_children rl_jobs]. rewrite msum_delete. lia. Qed.
Lemma holds_done h k r id : bo_holds (books_of (set_rl_jobs (delete h (rl_jobs r)) (set_rl_conns k r))) id
  = bo_holds (books_of r) id - at_key (job_holds id) (rl_jobs r) h.
Proof. cbn [books_of bo_slots bo_due bo_holds set_job set_rl_jobs set_rl_conns rl_children rl_jobs]. rewrite msum_delete. lia. Qed.

(** The job of a supervisor changes and the records do not. *)
Lemma set_job_ok n h j r :
  at_key job_slots (rl_jobs r) h = job_slots j -> at_key job_due (rl_jobs r) h = job_due j ->
  (forall id, at_key (job_holds id) (rl_jobs r) h = job_holds id j) ->
  (forall limit, job_tentative limit j <= at_key (job_tentative limit) (rl_jobs r) h) ->
  from_option job_ids [] (rl_jobs r !! h) = job_ids j ->
  (forall e p i, rl_jobs r !! h <> Some (Accepting e p (AcceptRegister i))) ->
  from_option (stage_ok (rl_conns r)) True (job_stage j) ->
  relay_ok n r -> relay_ok n (set_job h j r).
Proof.
  intros Es Ed Eh Et Ei N S [B C J I L]. constructor.
  - eapply books_same; [|split_and!|exact B]; [by split_and!|..].
    + etrans; [exact (slots_job h j (rl_conns r) r)|lia].
    + etrans; [exact (due_job h j (rl_conns r) r)|lia].
    + intros id. etrans; [exact (holds_job h j (rl_conns r) r id)|]. specialize (Eh id). lia.
    + intros id. by apply placed_job.
  - done.
  - by apply map_Forall_insert_2.
  - eapply (ids_perm n r); [|done|exact I]. rewrite issued_set_job, (issued_without h), Ei. done.
  - unfold limit_ok in *. cbv zeta in *. rewrite msum_job. specialize (Et (al_global_connections (cn_limits (rl_conns r)))).
    cbn [set_job set_rl_jobs rl_conns] in *. lia.
Qed.

(** Books and records that change without a close. *)
Lemma books_move n n' b b' k k' :
  books_ok n b k -> n <= n' ->
  cn_active k' = cn_active k - open_count k - bo_slots b + open_count k' + bo_slots b' -> cn_active k' <= n' ->
  mc_accepted (cn_metrics k') = mc_accepted (cn_metrics k) - open_count k - bo_due b + open_count k' + bo_due b' ->
  mc_accepted (cn_metrics k') <= n' ->
  mc_completed (cn_metrics k') = mc_completed (cn_metrics k) -> mc_outcomes (cn_metrics k') = mc_outcomes (cn_metrics k) ->
  cn_history k' = cn_history k -> cn_limits k' = cn_limits k ->
  map_Forall (fun id s => sn_id s = id) (cn_connections k') ->
  (forall id, is_open k' id + bo_holds b' id <= is_open k id + bo_holds b id
     \/ ~ bo_placed b id /\ is_open k' id + bo_holds b' id <= is_open k id + bo_holds b id + 1 /\ bo_placed b' id) ->
  (forall id, bo_placed b id -> bo_placed b' id) ->
  books_ok n' b' k'.
Proof.
  intros [] Hn Ha Hab Hc Hcb Em Eo Eh El Hk Hid Hp.
  assert (C : forall id, closed_count k' id = closed_count k id) by (intros; unfold closed_count; by rewrite Eh).
  constructor; rewrite ?Em, ?Eo, ?Eh, ?El; try done; try lia.
  - intros id. rewrite C. specialize (bk_once0 id). specialize (bk_placed0 id). destruct (Hid id) as [H|(N & H & _)]; [lia|].
    destruct (Z.leb_spec 1 (is_open k id + bo_holds b id + closed_count k id)); [by destruct N; apply bk_placed0|lia].
  - intros id. rewrite C. specialize (bk_placed0 id). destruct (Hid id) as [H|(N & H & P)]; [|done].
    intros Q. apply Hp, bk_placed0. lia.
Qed.

Lemma slots_nonneg r : 0 <= bo_slots (books_of r).
Proof.
  pose proof (lsum_nonneg child_due (rl_children r) (fun c => proj1 (child_due_range c))).
  pose proof (msum_nonneg job_slots (rl_jobs r) (fun j => proj1 (job_slots_range j))). cbn. lia.
Qed.
Lemma tentative_slots limit r : msum (job_tentative limit) (rl_jobs r) <= bo_slots (books_of r).
Proof.
  pose proof (lsum_nonneg child_due (rl_children r) (fun c => proj1 (child_due_range c))).
  pose proof (msum_mono (job_tentative limit) job_slots (rl_jobs r) (tentative_takes limit)). cbn. lia.
Qed.
Lemma at_key_le_msum {K A} `{Countable K} (f : A -> Z) (m : gmap K A) k : (forall x, 0 <= f x) -> at_key f m k <= msum f m.
Proof. intros P. pose proof (msum_delete f m k). pose proof (msum_nonneg f (delete k m) P). lia. Qed.

(** ** Accepting *)

Section AcceptSteps.
Context (n : Z) (h : nat) (entry : ManagedProxy) (peer : SocketAddr) (r : Relay).
Context (Hn : 0 <= n < U64_MAX - 1) (Hok : relay_ok n r).

(** Stages at which no id is given out or handed on. *)
Lemma accept_stage_ok stage j k :
  rl_jobs r !! h = Some (Accepting entry peer stage) -> job_ids (Accepting entry peer stage) = [] -> job_ids j = [] -> job_stage j = None ->
  cn_active k = cn_active (rl_conns r) - job_slots (Accepting entry peer stage) + job_slots j -> cn_active k <= n + 1 ->
  job_due j = 0 -> cn_connections k = cn_connections (rl_conns r) -> cn_history k = cn_history (rl_conns r) ->
  cn_limits k = cn_limits (rl_conns r) -> cn_next_id k = cn_next_id (rl_conns r) ->
  mc_accepted (cn_metrics k) = mc_accepted (cn_metrics (rl_conns r)) ->
  mc_completed (cn_metrics k) = mc_completed (cn_metrics (rl_conns r)) ->
  mc_outcomes (cn_metrics k) = mc_outcomes (cn_metrics (rl_conns r)) ->
  (let limit := al_global_connections (cn_limits (rl_conns r)) in
   msum (job_tentative limit) (rl_jobs r) - job_tentative limit (Accepting entry peer stage) + job_tentative limit j
     + open_count (rl_conns r) <= limit) ->
  relay_ok (n + 1) (set_job h j (set_rl_conns k r)).
Proof.
  intros H Io Ij Sj Ha Hb Hd Ec Eh El En Ea Em Eo Hl. pose proof Hok as [B C J I L].
  assert (O : open_count k = open_count (rl_conns r)) by (unfold open_count; by rewrite Ec).
  assert (Hdue : job_due (Accepting entry peer stage) = 0) by (by destruct stage).
  assert (No : forall i, job_holds i j = 0) by (intros i; unfold job_holds; by rewrite Sj).
  constructor.
  - change (rl_conns (set_job h j (set_rl_conns k r))) with k.
    eapply books_move; [exact B|lia|..]; rewrite ?slots_job, ?due_job, ?O; try done; rewrite ?(at_key_some _ _ _ _ H); try lia.
    + rewrite Ea. pose proof (bk_accepted_bound _ _ _ B). lia.
    + rewrite Ec. apply B.
    + intros id. left. rewrite holds_job, (at_key_some _ _ _ _ H), No. unfold is_open. rewrite Ec. cbn. lia.
    + intros id. apply (placed_job h j (set_rl_conns k r)). cbn. rewrite H. intros e p i [= -> -> ->]. discriminate Io.
  - cbn. unfold stage_ok. by rewrite El.
  - cbn. unfold stage_ok. rewrite El. apply map_Forall_insert_2; [by rewrite Sj|exact J].
  - eapply (ids_perm _ r); [|done|]; [|clear Hdue No; destruct I; constructor; try done; lia].
    rewrite (issued_without h r), issued_set_job, H. cbn [from_option]. by rewrite Io, Ij.
  - unfold limit_ok. cbv zeta. rewrite msum_job. cbn [rl_conns rl_jobs set_job set_rl_jobs set_rl_conns]. rewrite El, O, (at_key_some _ _ _ _ H).
    cbv zeta in Hl. lia.
Qed.

Lemma accept_global_ok : rl_jobs r !! h = Some (Accepting entry peer AcceptGlobal) ->
  let current := wadd (cn_active (rl_conns r)) 1 in
  relay_ok (n + 1) (set_job h (Accepting entry peer (AcceptProxy current)) (set_rl_conns (set_cn_active current (rl_conns r)) r)).
Proof.
  intros H. pose proof Hok as [[] C J I L]. pose proof (slots_nonneg r). pose proof (tentative_slots (al_global_connections (cn_limits (rl_conns r))) r).
  assert (Ho : 0 <= open_count (rl_conns r)) by (unfold open_count; lia).
  cbv zeta. rewrite wadd_up by lia. eapply accept_stage_ok; try done; cbn [set_cn_active cn_active job_slots job_stage next_stage from_option]; try lia.
  unfold limit_ok in L. cbv zeta in *. cbn [job_tentative].
  destruct (Z.leb_spec (cn_active (rl_conns r) + 1) (al_global_connections (cn_limits (rl_conns r)))); cbn [ind]; lia.
Qed.

Lemma accept_proxy_ok current x : rl_jobs r !! h = Some (Accepting entry peer (AcceptProxy current)) ->
  relay_ok (n + 1) (set_job h (Accepting entry peer (AcceptDecide current x)) (set_rl_conns (proxy_add 1 (mp_counters entry) (rl_conns r)) r)).
Proof.
  intros H. pose proof Hok as [[] C J I L]. eapply accept_stage_ok; try done; cbn; try lia.
  unfold limit_ok in L. cbv zeta in L. lia.
Qed.

(** The client is refused: both slots are given back. *)
Lemma accept_reject_ok current x : rl_jobs r !! h = Some (Accepting entry peer (AcceptDecide current x)) ->
  relay_ok (n + 1) (set_rl_jobs (delete h (rl_jobs r)) (set_rl_conns (reject entry (rl_conns r)) r)).
Proof.
  intros H. pose proof Hok as [B C J I L]. pose proof B as []. assert (Ho : 0 <= open_count (rl_conns r)) by (unfold open_count; lia).
  assert (S1 : 1 <= bo_slots (books_of r)).
  { pose proof (lsum_nonneg child_due (rl_children r) (fun c => proj1 (child_due_range c))).
    pose proof (at_key_le_msum job_slots (rl_jobs r) h (fun j => proj1 (job_slots_range j))) as K.
    rewrite (at_key_some _ _ _ _ H) in K. cbn [books_of bo_slots job_slots] in *. lia. }
  set (k := reject entry (rl_conns r)).
  assert (Ka : cn_active k = cn_active (rl_conns r) - 1) by (cbn; apply wadd_down; lia).
  constructor.
  - change (rl_conns _) with k. eapply books_move; [exact B|lia|..]; rewrite ?slots_done, ?due_done, ?(at_key_some _ _ _ _ H); try done.
    + rewrite Ka. change (open_count k) with (open_count (rl_conns r)). cbn. lia.
    + lia.
    + change (open_count k) with (open_count (rl_conns r)). cbn. lia.
    + change (mc_accepted (cn_metrics k)) with (mc_accepted (cn_metrics (rl_conns r))). lia.
    + intros id. left. rewrite holds_done, (at_key_some _ _ _ _ H). change (is_open k id) with (is_open (rl_conns r) id). cbn. lia.
    + intros id [P|(h' & e & p & P)]; [by left|right]. exists h', e, p. cbn. apply lookup_delete_Some. split; [|done].
      intros ->. congruence.
  - done.
  - by apply map_Forall_delete.
  - eapply (ids_perm _ r); [|done|destruct I; constructor; try done; lia].
    rewrite (issued_without h), H. done.
  - unfold limit_ok in *. cbv zeta in *. cbn [rl_jobs rl_conns set_rl_jobs set_rl_conns]. rewrite msum_delete.
    change (cn_limits k) with (cn_limits (rl_conns r)). change (open_count k) with (open_count (rl_conns r)).
    pose proof (at_key_le_msum (job_tentative (al_global_connections (cn_limits (rl_conns r)))) (rl_jobs r) h
                  (fun j => proj1 (job_tentative_range _ j))).
    rewrite (at_key_some _ _ _ _ H) in *. pose proof (proj1 (job_tentative_range (al_global_connections (cn_limits (rl_conns r))) (Accepting entry peer (AcceptDecide current x)))). lia.
Qed.

(** A connection is admitted: it gets the next id. *)
Lemma accept_admit_ok current x up down c : rl_jobs r !! h = Some (Accepting entry peer (AcceptDecide current x)) ->
  over_limits (rl_conns r) entry current x = false ->
  let '(s, k) := admitted entry peer up down c (rl_conns r) in
  relay_ok (n + 1) (set_job h (Accepting entry peer (AcceptInsert s)) (set_rl_conns k r)).
Proof.
  intros H Hov. pose proof Hok as [B C J I L]. pose proof B as []. pose proof I as [].
  destruct (admitted _ _ _ _ _ _) as [s k] eqn:E.
  assert (Ea : mc_accepted (cn_metrics k) = mc_accepted (cn_metrics (rl_conns r)) + 1).
  { injection E as _ <-. cbn. apply wadd_up. assert (0 <= open_count (rl_conns r)) by (unfold open_count; lia).
    assert (0 <= bo_due (books_of r)); [|lia]. cbn.
    pose proof (lsum_nonneg child_due (rl_children r) (fun c => proj1 (child_due_range c))).
    pose proof (msum_nonneg job_due (rl_jobs r) (fun j => proj1 (job_due_range j))). unfold lsum, msum, lsum, zsum in *. lia. }
  assert (En : sn_id s = 1 + zlen (issued r) /\ cn_next_id k = 1 + zlen (issued r) + 1).
  { injection E as <- <-. cbn. rewrite io_next0. split; [done|]. apply wadd_up. pose proof (zlen_nonneg (issued r)). lia. }
  assert (Ek : cn_active k = cn_active (rl_conns r) /\ cn_connections k = cn_connections (rl_conns r)
    /\ cn_history k = cn_history (rl_conns r) /\ cn_limits k = cn_limits (rl_conns r)
    /\ mc_completed (cn_metrics k) = mc_completed (cn_metrics (rl_conns r))
    /\ mc_outcomes (cn_metrics k) = mc_outcomes (cn_metrics (rl_conns r))) by (by injection E as _ <-).
  destruct Ek as (Eac & Ec & Eh & El & Ecm & Eo). destruct En as [Ei En]. clear E.
  assert (O : open_count k = open_count (rl_conns r)) by (unfold open_count; by rewrite Ec).
  constructor.
  - change (rl_conns (set_job h (Accepting entry peer (AcceptInsert s)) (set_rl_conns k r))) with k.
    eapply books_move; [exact B|lia|..]; rewrite ?slots_job, ?due_job, ?O; try done; rewrite ?(at_key_some _ _ _ _ H);
      cbn [job_slots job_due job_stage next_stage from_option]; try lia.
    + by rewrite Ec.
    + intros id. left. rewrite holds_job, (at_key_some _ _ _ _ H). unfold is_open. rewrite Ec. cbn. lia.
    + intros id. apply (placed_job h _ (set_rl_conns k r)). cbn. rewrite H. congruence.
  - cbn. unfold stage_ok. by rewrite El.
  - cbn. unfold stage_ok. rewrite El. by apply map_Forall_insert_2.
  - assert (P : issued (set_job h (Accepting entry peer (AcceptInsert s)) (set_rl_conns k r)) ≡ₚ sn_id s :: issued r).
    { rewrite issued_set_job, (issued_without h r), H. done. }
    assert (Z : zlen (issued (set_job h (Accepting entry peer (AcceptInsert s)) (set_rl_conns k r))) = zlen (issued r) + 1).
    { unfold zlen. rewrite P. cbn. lia. }
    constructor; rewrite ?Z, ?P.
    + change (cn_next_id k = 1 + (zlen (issued r) + 1)). lia.
    + lia.
    + apply NoDup_cons. split; [|done]. intros Q. rewrite List.Forall_forall in io_range0.
      specialize (io_range0 (sn_id s)). rewrite <- list_elem_of_In in io_range0. specialize (io_range0 Q). lia.
    + constructor; [pose proof (zlen_nonneg (issued r)); lia|]. eapply Forall_impl; [exact io_range0|]. cbn beta. intros ? ?. lia.
  - unfold limit_ok in *. cbv zeta in *. rewrite msum_job. cbn [rl_conns rl_jobs set_job set_rl_jobs set_rl_conns].
    rewrite El, O, (at_key_some _ _ _ _ H). cbn [job_tentative].
    apply orb_false_iff in Hov as [Hov _]. apply Z.ltb_ge in Hov. apply Z.leb_le in Hov. rewrite Hov. cbn [ind]. lia.
Qed.

(** The summary enters the map. *)
Lemma accept_insert_ok s : rl_jobs r !! h = Some (Accepting entry peer (AcceptInsert s)) ->
  relay_ok (n + 1) (set_job h (Accepting entry peer (AcceptRegister (sn_id s)))
    (set_rl_conns (set_cn_connections (<[sn_id s := s]> (cn_connections (rl_conns r))) (rl_conns r)) r)).
Proof.
  intros H. pose proof Hok as [B C J I L]. pose proof B as [].
  pose proof (inserting_not_placed n r h entry peer s I H) as N.
  assert (F : cn_connections (rl_conns r) !! sn_id s = None).
  { destruct (cn_connections (rl_conns r) !! sn_id s) as [x|] eqn:E; [|done]. destruct N. apply bk_placed0.
    unfold is_open. rewrite E. cbn [ind is_some is_none negb].
    pose proof (closed_count_nonneg (rl_conns r) (sn_id s)).
    assert (0 <= bo_holds (books_of r) (sn_id s)); [|lia]. cbn [books_of bo_holds].
    pose proof (lsum_nonneg (child_holds (sn_id s)) (rl_children r) (child_holds_nonneg _)).
    pose proof (msum_nonneg (job_holds (sn_id s)) (rl_jobs r) (job_holds_nonneg _)). lia. }
  set (k := set_cn_connections (<[sn_id s := s]> (cn_connections (rl_conns r))) (rl_conns r)).
  assert (O : open_count k = open_count (rl_conns r) + 1).
  { unfold open_count, k. cbn [set_cn_connections cn_connections]. rewrite map_size_insert_None by done. lia. }
  constructor.
  - change (rl_conns (set_job h (Accepting entry peer (AcceptRegister (sn_id s))) (set_rl_conns k r))) with k.
    eapply books_move; [exact B|lia|..]; rewrite ?slots_job, ?due_job, ?O; try done; rewrite ?(at_key_some _ _ _ _ H);
      cbn [job_slots job_due job_stage next_stage from_option k set_cn_connections cn_active cn_metrics]; try lia.
    + by apply map_Forall_insert_2.
    + intros id. rewrite holds_job, (at_key_some _ _ _ _ H). cbn [job_holds job_stage next_stage from_option].
      destruct (decide (id = sn_id s)) as [->|D].
      * right. split; [done|]. split; [|by right; exists h, entry, peer; cbn; rewrite lookup_insert_eq].
        unfold is_open, k. cbn. rewrite lookup_insert_eq, F. cbn. lia.
      * left. unfold is_open, k. cbn. rewrite lookup_insert_ne by done. lia.
    + intros id. apply (placed_job h _ (set_rl_conns k r)). cbn. rewrite H. congruence.
  - done.
  - cbn. by apply map_Forall_insert_2.
  - eapply (ids_perm _ r); [|done|destruct I; constructor; try done; lia].
    rewrite (issued_without h r), issued_set_job, H. done.
  - unfold limit_ok in *. cbv zeta in *. rewrite msum_job. cbn [rl_conns rl_jobs set_job set_rl_jobs set_rl_conns].
    change (cn_limits k) with (cn_limits (rl_conns r)). rewrite O, (at_key_some _ _ _ _ H). cbn [job_tentative]. lia.
Qed.

(** The task of the connection is spawned. *)
Lemma accept_register_ok id token : rl_jobs r !! h = Some (Accepting entry peer (AcceptRegister id)) ->
  relay_ok (n + 1) (set_rl_children (rl_children r ++ [new_child h entry id token]) (set_rl_jobs (delete h (rl_jobs r)) r)).
Proof.
  intros H. pose proof Hok as [B C J I L].
  assert (Hl : forall f, f (new_child h entry id token) = 0 -> lsum f (rl_children r ++ [new_child h entry id token]) = lsum f (rl_children r)).
  { intros f E. rewrite lsum_app, lsum_cons, E. change (lsum f []) with 0. lia. }
  constructor.
  - eapply books_same; [|split_and!|apply (books_weaken n); [lia|exact B]]; [by split_and!|..];
      cbn [books_of bo_slots bo_due bo_holds set_rl_children set_rl_jobs rl_children rl_jobs].
    + rewrite Hl, msum_delete, (at_key_some _ _ _ _ H) by done. cbn. lia.
    + rewrite Hl, msum_delete, (at_key_some _ _ _ _ H) by done. cbn. lia.
    + intros i. rewrite Hl, msum_delete, (at_key_some _ _ _ _ H) by done. cbn. lia.
    + intros i [P|(h' & e & p & P)].
      * left. cbn. rewrite map_app, elem_of_app. by left.
      * destruct (decide (h' = h)) as [->|D].
        -- left. cbn. rewrite map_app, elem_of_app. right. rewrite H in P. injection P as -> -> ->. cbn. by left.
        -- right. exists h', e, p. cbn. by rewrite lookup_delete_ne.
  - cbn. apply Forall_app. split; [done|]. by constructor.
  - by apply map_Forall_delete.
  - eapply (ids_perm _ r); [|done|destruct I; constructor; try done; lia].
    rewrite (issued_without h r), H. unfold issued, other_ids. cbn. rewrite map_app. cbn. solve_Permutation.
  - unfold limit_ok in *. cbv zeta in *. cbn [rl_jobs rl_conns set_rl_jobs set_rl_children]. rewrite msum_delete, (at_key_some _ _ _ _ H).
    cbn. lia.
Qed.
End AcceptSteps.

(** ** Closing, by a task or by a purge *)

Lemma close_stage_split counters c id stage r next r' : close_stage counters c id stage r = Some (next, r') ->
  exists k s, close_conns counters c id stage (rl_conns r) = (next, k) /\ r' = set_rl_control s (set_rl_conns k r).
Proof.
  unfold close_stage. destruct (close_conns _ _ _ _ _) as [next' k]. intros H.
  assert (E : exists s, next' = next /\ r' = set_rl_control s (set_rl_conns k r)).
  { destruct stage; [|injection H as <- <-; exists (rl_control r); by destruct r..].
    unfold control_does in H. destruct (sys_next _ _) as [s|]; [|done]. injection H as <- <-. by exists s. }
  destruct E as (s & -> & ->). by exists k, s.
Qed.

Lemma due_le_slots_job r h j : rl_jobs r !! h = Some j ->
  job_slots j <= bo_slots (books_of r) /\ job_due j <= bo_due (books_of r).
Proof.
  intros H. pose proof (lsum_nonneg child_due (rl_children r) (fun c => proj1 (child_due_range c))).
  pose proof (at_key_le_msum job_slots (rl_jobs r) h (fun j => proj1 (job_slots_range j))) as A.
  pose proof (at_key_le_msum job_due (rl_jobs r) h (fun j => proj1 (job_due_range j))) as A'.
  rewrite (at_key_some job_slots _ _ _ H) in A. rewrite (at_key_some job_due _ _ _ H) in A'. cbn [books_of bo_slots bo_due]. lia.
Qed.
Lemma due_le_slots_child r i c : rl_children r !! i = Some c ->
  child_due c <= bo_slots (books_of r) /\ child_due c <= bo_due (books_of r).
Proof.
  intros H. pose proof (lsum_elem child_due (rl_children r) i c (fun c => proj1 (child_due_range c)) H).
  pose proof (msum_nonneg job_slots (rl_jobs r) (fun j => proj1 (job_slots_range j))).
  pose proof (msum_nonneg job_due (rl_jobs r) (fun j => proj1 (job_due_range j))). cbn [books_of bo_slots bo_due]. lia.
Qed.

Lemma stage_ok_limits k k' stage : cn_limits k' = cn_limits k -> stage_ok k stage -> stage_ok k' stage.
Proof. unfold stage_ok. by intros ->. Qed.
Lemma held_ok_limits k k' o : cn_limits k' = cn_limits k -> from_option (stage_ok k) True o -> from_option (stage_ok k') True o.
Proof. destruct o; [|done]. apply stage_ok_limits. Qed.

Lemma purge_close_ok n h r o counters id ids stage next k j' :
  n < U64_MAX -> relay_ok n r -> rl_jobs r !! h = Some (Purging o (PurgeTake counters (id :: ids) stage)) ->
  close_conns counters (purge_closing o) id stage (rl_conns r) = (next, k) ->
  (forall f, f TakeToken = 0 -> next_stage f (job_stage j') = next_stage f next) ->
  (forall e p s, j' <> Accepting e p s) -> from_option (stage_ok k) True (job_stage j') ->
  relay_ok n (set_job h j' (set_rl_conns k r)).
Proof.
  intros Hn [B C J I L] H E Hf Hj Sj. pose proof (due_le_slots_job _ _ _ H) as [D1 D2].
  pose proof (J _ _ H) as Sh. cbn in Sh.
  destruct (close_books n _ _ _ _ _ (books_of r) _ _ Hn E Sh D1 D2 B) as (B' & El & En & Eo & _ & _ & Sk).
  assert (Sl : job_slots j' = next_stage due_at (job_stage j') /\ job_due j' = next_stage due_at (job_stage j')
    /\ job_ids j' = [] /\ forall limit, job_tentative limit j' = 0) by (destruct j' as [e p s| | |]; [by destruct (Hj e p s)|done..]).
  destruct Sl as (S1 & S2 & S3 & S4). constructor.
  - change (rl_conns (set_job h j' (set_rl_conns k r))) with k.
    eapply (books_same n (shifted stage next (books_of r)) _ k k); [by split_and!|split_and!|exact B'].
    + rewrite slots_job, (at_key_some _ _ _ _ H), S1, (Hf due_at) by done. done.
    + rewrite due_job, (at_key_some _ _ _ _ H), S2, (Hf due_at) by done. done.
    + intros i. rewrite holds_job, (at_key_some _ _ _ _ H). unfold job_holds. rewrite (Hf (holds_at i)) by done. done.
    + intros i. apply (placed_job h j' (set_rl_conns k r)). cbn. rewrite H. congruence.
  - eapply Forall_impl; [exact C|]. intros c. by apply (held_ok_limits (rl_conns r)).
  - apply map_Forall_insert_2; [exact Sj|]. eapply map_Forall_impl; [exact J|]. intros h' j. by apply (held_ok_limits (rl_conns r)).
  - eapply (ids_perm _ r); [|done|exact I]. rewrite (issued_without h r), issued_set_job, H, S3. done.
  - unfold limit_ok in *. cbv zeta in *. rewrite msum_job. cbn [rl_conns rl_jobs set_job set_rl_jobs set_rl_conns].
    rewrite El, (at_key_some _ _ _ _ H), S4. cbn [job_tentative]. lia.
Qed.

(** A task changes its phase. *)
Lemma set_child_books i phase c k r : rl_children r !! i = Some c ->
  let b := books_of (set_child i phase c (set_rl_conns k r)) in
  let c' := set_ch_phase phase c in
  bo_slots b = bo_slots (books_of r) - child_due c + child_due c'
  /\ bo_due b = bo_due (books_of r) - child_due c + child_due c'
  /\ (forall id, bo_holds b id = bo_holds (books_of r) id - child_holds id c + child_holds id c')
  /\ (forall id, bo_placed (books_of r) id -> bo_placed b id).
Proof.
  intros H. cbn [books_of bo_slots bo_due bo_holds bo_placed set_child set_rl_children set_rl_conns rl_children rl_jobs].
  rewrite !(lsum_insert _ _ _ _ _ H). split; [lia|]. split; [lia|]. split.
  - intros id. rewrite (lsum_insert _ _ _ _ _ H). lia.
  - intros id [P|P]; [left|by right]. exact (eq_rect_r (fun l => id ∈ l) P (set_child_ids i phase c (set_rl_conns k r) H)).
Qed.

Lemma set_child_rest n i phase c k r : rl_children r !! i = Some c -> relay_ok n r ->
  cn_limits k = cn_limits (rl_conns r) -> cn_next_id k = cn_next_id (rl_conns r) -> open_count k <= open_count (rl_conns r) ->
  from_option (stage_ok k) True (child_stage (set_ch_phase phase c)) ->
  books_ok n (books_of (set_child i phase c (set_rl_conns k r))) k ->
  relay_ok n (set_child i phase c (set_rl_conns k r)).
Proof.
  intros H [B C J I L] El En Eo S B'. constructor.
  - exact B'.
  - cbn. apply Forall_insert; [|done]. eapply Forall_impl; [exact C|]. intros x. by apply (held_ok_limits (rl_conns r)).
  - cbn. eapply map_Forall_impl; [exact J|]. intros h' j. by apply (held_ok_limits (rl_conns r)).
  - eapply (ids_perm _ r); [|done|exact I].
    unfold issued. by rewrite (set_child_ids i phase c (set_rl_conns k r) H).
  - unfold limit_ok in *. cbv zeta in *. cbn. rewrite El. cbn in L. unfold zsum in *. lia.
Qed.

Lemma child_close_ok n i c cg stage next k r : n < U64_MAX -> relay_ok n r ->
  rl_children r !! i = Some c -> ch_phase c = Closing_ cg stage ->
  close_conns (Some (ch_counters c)) cg (ch_id c) stage (rl_conns r) = (next, k) ->
  relay_ok n (set_child i (match next with Some stage => Closing_ cg stage | None => Ended end) c (set_rl_conns k r)).
Proof.
  intros Hn Hok H P E. pose proof Hok as [B C J I L].
  assert (Sc : child_stage c = Some stage) by (unfold child_stage; by rewrite P).
  pose proof (due_le_slots_child _ _ _ H) as D. unfold child_due in D. rewrite Sc in D. cbn in D. destruct D as [D1 D2].
  pose proof (Forall_lookup_1 _ _ _ _ C H) as Sh. cbn in Sh. rewrite Sc in Sh. cbn in Sh.
  destruct (close_books n _ _ _ _ _ (books_of r) _ _ Hn E Sh D1 D2 B) as (B' & El & En & Eo & _ & _ & Sk).
  set (phase := match next with Some stage => Closing_ cg stage | None => Ended end).
  assert (Sn : child_stage (set_ch_phase phase c) = next) by (subst phase; by destruct next).
  destruct (set_child_books i phase c k r H) as (b1 & b2 & b3 & b4). unfold child_due, child_holds in *. rewrite Sc, Sn in *.
  apply set_child_rest; try done; [by rewrite Sn|].
  eapply (books_same n (shifted stage next (books_of r)) _ k k); [by split_and!|by split_and!|exact B'].
Qed.

(** A move that takes nothing out of the records. *)
Lemma child_move_ok n i c phase k r : relay_ok n r -> rl_children r !! i = Some c ->
  (forall f, f TakeToken = 0 -> next_stage f (child_stage (set_ch_phase phase c)) = next_stage f (child_stage c)) ->
  from_option (stage_ok (rl_conns r)) True (child_stage (set_ch_phase phase c)) ->
  cn_active k = cn_active (rl_conns r) -> dom (cn_connections k) = dom (cn_connections (rl_conns r)) ->
  map_Forall (fun id s => sn_id s = id) (cn_connections k) ->
  cn_history k = cn_history (rl_conns r) -> cn_metrics k = cn_metrics (rl_conns r) -> cn_limits k = cn_limits (rl_conns r) ->
  cn_next_id k = cn_next_id (rl_conns r) ->
  relay_ok n (set_child i phase c (set_rl_conns k r)).
Proof.
  intros Hok H Hf S Ea Ed Hk Eh Em El En. pose proof Hok as [B C J I L].
  assert (O : open_count k = open_count (rl_conns r)) by (unfold open_count; by rewrite <- !size_dom, Ed).
  assert (Io : forall id, is_open k id = is_open (rl_conns r) id).
  { intros id. unfold is_open. apply (f_equal ind). pose proof (set_eq (dom (cn_connections k)) (dom (cn_connections (rl_conns r)))) as [Q _].
    specialize (Q Ed id). rewrite !elem_of_dom in Q. destruct (cn_connections k !! id), (cn_connections (rl_conns r) !! id); try done.
    - destruct (proj1 Q) as [? ?]; [by eexists|done].
    - destruct (proj2 Q) as [? ?]; [by eexists|done]. }
  destruct (set_child_books i phase c k r H) as (b1 & b2 & b3 & b4). unfold child_due, child_holds in *. rewrite (Hf due_at) in b1, b2 by done.
  apply set_child_rest; try done; [by rewrite O|by apply (held_ok_limits (rl_conns r))|].
  pose proof B as []. eapply books_move; [exact B|lia|..]; rewrite ?b1, ?b2, ?O, ?Ea, ?Em; try done; try lia.
  intros id. left. rewrite b3, (Hf (holds_at id)), Io by done. lia.
Qed.

(** Every move of a task but a stage of its close. *)
Lemma child_next_ok n i c ch r phase r' : n < U64_MAX -> relay_ok n r -> rl_children r !! i = Some c ->
  child_next ch c r = Some (phase, r') -> relay_ok n (set_rl_children (<[i := set_ch_phase phase c]> (rl_children r')) r').
Proof.
  intros Hn Hok H E. assert (K : map_Forall (fun id s => sn_id s = id) (cn_connections (rl_conns r))) by apply Hok.
  assert (Same : forall phase, child_stage c = None -> (child_stage (set_ch_phase phase c) = None \/ child_stage (set_ch_phase phase c) = Some TakeToken) ->
    forall k, cn_active k = cn_active (rl_conns r) -> dom (cn_connections k) = dom (cn_connections (rl_conns r)) ->
      map_Forall (fun id s => sn_id s = id) (cn_connections k) ->
      cn_history k = cn_history (rl_conns r) -> cn_metrics k = cn_metrics (rl_conns r) -> cn_limits k = cn_limits (rl_conns r) ->
      cn_next_id k = cn_next_id (rl_conns r) -> relay_ok n (set_child i phase c (set_rl_conns k r))).
  { intros p S [S'|S'] k ? ? ? ? ? ? ?; apply child_move_ok; try done; rewrite ?S, ?S'; try done. }
  assert (Here : forall phase, child_stage c = None -> (child_stage (set_ch_phase phase c) = None \/ child_stage (set_ch_phase phase c) = Some TakeToken) ->
    relay_ok n (set_child i phase c r)).
  { intros p S S'. specialize (Same p S S' (rl_conns r)). destruct r. by apply Same. }
  assert (Mk : dom (cn_connections (mark_relaying (ch_id c) (rl_conns r))) = dom (cn_connections (rl_conns r))
    /\ map_Forall (fun id s => sn_id s = id) (cn_connections (mark_relaying (ch_id c) (rl_conns r)))).
  { split; [apply dom_alter_L|]. intros id s Hs. cbn in Hs. apply lookup_alter_Some in Hs as [(<- & s0 & Hs & ->)|[_ Hs]]; by apply K in Hs. }
  destruct Mk as [Md Mk]. unfold child_next in E. cbv zeta in E.
  assert (Ended_at : forall o t p, child_stage (set_ch_phase (relay_ended o t) p) = Some TakeToken).
  { intros o t p. unfold relay_ended. destruct o; [done|]. destruct (is_eggchaos_termination _); [|done].
    by destruct (ti_request <$> _) as [[]|]. }
  assert (Drained_at : forall o t p, child_stage (set_ch_phase (drain_ended o t) p) = Some TakeToken).
  { intros o t p. unfold drain_ended. destruct o; [done|]. by destruct (is_eggchaos_termination _). }
  destruct (ch_phase c) as [| |up down| |terms|cg stage| |was] eqn:P; destruct ch as [|t| |e| |streams|outcome t|info t sockets|];
    try discriminate E; try (assert (Sc : child_stage c = None) by (unfold child_stage; by rewrite P)).
  all: try (destruct (is_cancelled _ _); try discriminate E).
  all: try (injection E as <- <-; apply Here; [done|]; by auto).
  - (* Connected *)
    destruct streams as [[u d]|[d e]]; injection E as <- <-.
    + apply Same; auto.
    + apply (Same (record_close (RelayError (direction_engine d +:+ e)) no_terms None) Sc (or_intror eq_refl)); done.
  - (* Registering *)
    injection E as <- <-. apply Same; auto.
  - (* a termination *)
    destruct (ti_request info); injection E as <- <-; apply Here; auto.
  - (* Closing *)
    destruct (close_stage _ _ _ _ _) as [[next r1]|] eqn:Q; [|discriminate E]. injection E as <- <-.
    apply close_stage_split in Q as (k & s & Q & ->).
    exact (relay_ok_control n s _ (child_close_ok n i c cg stage next k r Hn Hok H P Q)).
Qed.

Lemma map_children_ok n (f : Child -> Child) r :
  (forall c, ch_id (f c) = ch_id c) -> (forall c, ch_phase (f c) = ch_phase c) ->
  relay_ok n r -> relay_ok n (set_rl_children (map f (rl_children r)) r).
Proof.
  intros Hi Hp [B C J I L].
  assert (S : forall c, child_stage (f c) = child_stage c) by (intros; unfold child_stage; by rewrite Hp).
  assert (M : map ch_id (map f (rl_children r)) = map ch_id (rl_children r)) by (rewrite map_map; by apply map_ext).
  constructor; try done.
  - eapply books_same; [|split_and!|exact B]; [by split_and!|..]; cbn [books_of bo_slots bo_due bo_holds set_rl_children rl_children rl_jobs].
    + rewrite lsum_map. f_equal. apply lsum_ext. intros c. unfold child_due. by rewrite S.
    + rewrite lsum_map. f_equal. apply lsum_ext. intros c. unfold child_due. by rewrite S.
    + intros id. rewrite lsum_map. f_equal. apply lsum_ext. intros c. unfold child_holds. by rewrite S.
    + intros id [P|P]; [left|by right]. cbn. by rewrite M.
  - cbn. apply Forall_fmap. eapply Forall_impl; [exact C|]. intros c. cbn. by rewrite S.
  - eapply (ids_perm _ r); [|done|exact I]. unfold issued. cbn. by rewrite M.
Qed.

(** A task dropped at an await holds what it held. *)
Lemma aborted_ok n i c r : relay_ok n r -> rl_children r !! i = Some c -> is_over c = false ->
  relay_ok n (set_child i (Aborted (ch_phase c)) c r).
Proof.
  intros Hok H O. pose proof Hok as [B C J I L].
  assert (S : child_stage (set_ch_phase (Aborted (ch_phase c)) c) = child_stage c).
  { unfold child_stage, is_over in *. cbn. by destruct (ch_phase c). }
  pose proof (Forall_lookup_1 _ _ _ _ C H) as Sh.
  assert (Q : relay_ok n (set_child i (Aborted (ch_phase c)) c (set_rl_conns (rl_conns r) r))).
  { apply child_move_ok; try done; rewrite ?S; try done. apply B. }
  by destruct r.
Qed.

Lemma handles_ok n hs r : relay_ok n r -> relay_ok n (set_rl_conns (set_cn_handles hs (rl_conns r)) r).
Proof.
  intros [B C J I L]. constructor; try done.
  - eapply books_same; [|split_and!|exact B]; [by split_and!|done..].
  - eapply (ids_perm _ r); [done|done|exact I].
Qed.

(** ** The invariant *)

Lemma accept_next_ok n h up down entry peer stage r r' : 0 <= n < U64_MAX - 1 -> relay_ok n r ->
  rl_jobs r !! h = Some (Accepting entry peer stage) -> accept_next h up down entry peer stage r = Some r' -> relay_ok (n + 1) r'.
Proof.
  intros Hn Hok H E. destruct stage as [|current|current x|s|id]; cbn [accept_next] in E.
  - injection E as <-. by apply accept_global_ok.
  - injection E as <-. by apply accept_proxy_ok.
  - destruct (over_limits _ _ _ _) eqn:Ov.
    + unfold accept_done, control_does in E. destruct (sys_next _ _) as [s|]; [|discriminate E]. injection E as <-.
      exact (relay_ok_control _ s _ (accept_reject_ok n h entry peer r Hn Hok current x H)).
    + destruct (policy_now _ _ _ _ && policy_now _ _ _ _); [|discriminate E].
      pose proof (accept_admit_ok n h entry peer r Hn Hok current x up down (control_of r) H Ov) as A.
      destruct (admitted _ _ _ _ _ _) as [s k]. by injection E as <-.
  - injection E as <-. by apply accept_insert_ok.
  - unfold accept_done, control_does in E. destruct (sys_next _ _) as [s|]; [|discriminate E]. injection E as <-.
    exact (relay_ok_control _ s _ (accept_register_ok n h entry peer r Hok id _ H)).
Qed.

Lemma purge_next_ok n h name listed o stage r r' : n < U64_MAX -> relay_ok n r ->
  rl_jobs r !! h = Some (Purging o stage) -> purge_next h name listed o stage r = Some r' -> relay_ok n r'.
Proof.
  intros Hn Hok H E.
  assert (Idle : forall j, job_slots (Purging o stage) = 0 -> job_due (Purging o stage) = 0 -> (forall id, job_holds id (Purging o stage) = 0) ->
    (j = Purged \/ exists st, j = Purging o st /\ job_stage j = None \/ j = Purging o st /\ job_stage j = Some TakeToken) ->
    relay_ok n (set_job h j r)).
  { intros j Z1 Z2 Z3 Hj.
    assert (Q : job_slots j = 0 /\ job_due j = 0 /\ (forall id, job_holds id j = 0) /\ (forall limit, job_tentative limit j = 0)
      /\ job_ids j = [] /\ from_option (stage_ok (rl_conns r)) True (job_stage j)).
    { destruct Hj as [->|(st & [[-> S]|[-> S]])]; [done|..]; cbn in S; unfold job_slots, job_due, job_holds; cbn; by rewrite S. }
    destruct Q as (Q1 & Q2 & Q3 & Q4 & Q5 & Q6).
    apply set_job_ok; rewrite ?(at_key_some _ _ _ _ H), ?Q1, ?Q2; try done.
    - intros id. by rewrite (at_key_some _ _ _ _ H), Q3.
    - intros limit. rewrite (at_key_some _ _ _ _ H), Q4. done.
    - rewrite H. cbn. by rewrite Q5.
    - intros e p i. rewrite H. done. }
  destruct stage as [|ids|counters [|id ids] stage]; cbn [purge_next] in E; [..|discriminate E|].
  - destruct (lists _ _); [|discriminate E]. injection E as <-. apply Idle; try done. destruct listed; eauto.
  - injection E as <-. apply Idle; try done. destruct ids; eauto.
  - destruct (close_stage _ _ _ _ _) as [[next r1]|] eqn:Q; [|discriminate E].
    apply close_stage_split in Q as (k & s & Q & ->).
    assert (Sk : from_option (stage_ok k) True next).
    { pose proof Hok as [B C J I L]. pose proof (due_le_slots_job _ _ _ H) as [D1 D2]. pose proof (J _ _ H) as Sh. cbn in Sh.
      by destruct (close_books n _ _ _ _ _ (books_of r) _ _ Hn Q Sh D1 D2 B) as (_ & _ & _ & _ & _ & _ & Sk). }
    destruct next as [st|]; injection E as <-.
    + refine (relay_ok_control n s _ (purge_close_ok n h r o counters id ids stage _ k
        (Purging o (PurgeTake counters (id :: ids) st)) Hn Hok H Q _ _ Sk)); done.
    + refine (relay_ok_control n s _ (purge_close_ok n h r o counters id ids stage _ k _ Hn Hok H Q _ _ _)).
      * intros f F. destruct ids; [done|exact F].
      * by destruct ids.
      * by destruct ids.
Qed.

Lemma relay_next_ok n mv r r' : 0 <= n < U64_MAX - 1 -> relay_ok n r -> relay_next mv r = Some r' -> relay_ok (n + 1) r'.
Proof.
  intros Hn Hok E. assert (W : forall r, relay_ok n r -> relay_ok (n + 1) r) by (intros; eapply relay_ok_weaken; [|done]; lia).
  destruct mv as [mv|h peer|h up down|h|h|h listed|i ch|i|a e]; cbn [relay_next] in E.
  - destruct (control_moves _ _); [|discriminate E]. unfold control_does in E. destruct (sys_next _ _) as [s|]; [|discriminate E].
    injection E as <-. by apply W, relay_ok_control.
  - destruct (sup_phase h r) as [[]|]; try discriminate E. destruct (rl_jobs r !! h) eqn:H; [discriminate E|]. injection E as <-.
    apply W, set_job_ok; rewrite ?(at_key_none _ _ _ H), ?H; try done; intros; by rewrite (at_key_none _ _ _ H).
  - destruct (rl_jobs r !! h) as [[]|] eqn:H; try discriminate E. by eapply accept_next_ok.
  - destruct (sup_phase h r) as [[]|]; try discriminate E. destruct (rl_jobs r !! h) eqn:H; [discriminate E|]. injection E as <-.
    apply W. set (r1 := set_rl_children _ r).
    assert (Hok1 : relay_ok n r1) by (apply map_children_ok; [intros c; by destruct (is_child_of h c)..|done]).
    apply set_job_ok; change (rl_jobs r1) with (rl_jobs r); rewrite ?(at_key_none _ _ _ H), ?H; try done;
      intros; by rewrite (at_key_none _ _ _ H).
  - destruct (rl_jobs r !! h) as [[]|] eqn:H; try discriminate E. destruct (forallb _ _); [|discriminate E]. injection E as <-.
    apply W, set_job_ok; rewrite ?(at_key_some _ _ _ _ H), ?H; try done; intros; by rewrite (at_key_some _ _ _ _ H).
  - destruct (rl_jobs r !! h) as [[]|] eqn:H; try discriminate E. destruct (rt_supervisors _ !! h) as [s|]; [|discriminate E].
    apply W. eapply purge_next_ok; [|done..]. lia.
  - destruct (rl_children r !! i) as [c|] eqn:H; [|discriminate E]. destruct (child_next ch c r) as [[phase r1]|] eqn:Q; [|discriminate E].
    injection E as <-. apply W. eapply child_next_ok; [|done..]. lia.
  - destruct (rl_children r !! i) as [c|] eqn:H; [|discriminate E]. destruct (ch_aborting c); [|discriminate E].
    destruct (is_over c) eqn:O; [discriminate E|]. injection E as <-. by apply W, aborted_ok.
  - injection E as <-. by apply W, handles_ok.
Qed.

Lemma relay_new_ok limits grace s : 0 <= al_global_connections limits -> 0 <= al_history limits ->
  relay_ok 0 (relay_new limits grace s).
Proof.
  intros Hg Hh. constructor; try done.
  - constructor; cbn; try done; try lia;
      try (intros id; unfold is_open, closed_count; cbn; rewrite ?lookup_empty; cbn; lia).
    by repeat constructor.
  - constructor; try done; constructor.
Qed.

(** A run of fewer than [2^64 - 1] moves. *)
Lemma relay_steps_ok n r r' : Z.of_nat n < U64_MAX -> relay_ok 0 r -> nsteps relay_step n r r' -> relay_ok (Z.of_nat n) r'.
Proof.
  intros Hn H0 H. revert r' Hn H. induction n as [|n IH]; intros r' Hn H.
  - inversion H; by subst.
  - apply nsteps_inv_r in H as (r1 & H & [mv E]). replace (Z.of_nat (S n)) with (Z.of_nat n + 1) by lia.
    eapply relay_next_ok; [lia|apply IH; [lia|done]|done].
Qed.
