(* ===== verification/RelayRun.v ===== *)
(** * What the server promises about its connections

    The invariant of [RelayInv] and of the purge, on every run that starts
    with a fresh server; and the runs in which connections of one name, or an
    abort at the wrong await, break the accounting. *)

From Stdlib Require Import Bool.
From stdpp Require Import base list gmap strings relations sorting.
From S2P Require Import Prelude Rng Float64 Plan Policy EngineState Stream Schedule Wire Server Tasks Control ControlInv ControlRun ControlDemo Connections Relay RelayInv.

(** ** The control plane inside *)

Lemma relay_control mv r r' : relay_next mv r = Some r' ->
  rl_control r' = rl_control r \/ control_step (rl_control r) (rl_control r').
Proof.
  intros E. assert (D : forall mv r r', control_does mv r = Some r' -> control_step (rl_control r) (rl_control r')).
  { intros m x x' H. unfold control_does in H. destruct (sys_next m (rl_control x)) as [s|] eqn:N; [|discriminate H].
    injection H as <-. by exists m. }
  assert (Cl : forall counters c id st x next x', close_stage counters c id st x = Some (next, x') ->
    rl_control x' = rl_control x \/ control_step (rl_control x) (rl_control x')).
  { intros counters c id st x next x' H. unfold close_stage in H. destruct (close_conns _ _ _ _ _) as [nx k].
    destruct st; [|injection H as <- <-; by left..].
    destruct (control_does _ _) as [x1|] eqn:N; [|discriminate H]. injection H as <- <-. right. by apply D in N. }
  assert (Ac : forall h id x x', accept_done h id x = Some x' -> control_step (rl_control x) (rl_control x')).
  { intros h id x x' H. unfold accept_done in H. destruct (control_does _ _) as [x1|] eqn:N; [|discriminate H].
    injection H as <-. by apply D in N. }
  destruct mv as [mv|h peer|h up down|h|h|h listed|i ch|i|a e]; cbn [relay_next] in E.
  - destruct (control_moves _ _); [|discriminate E]. right. by eapply D.
  - destruct (sup_phase h r) as [[]|]; try discriminate E. destruct (rl_jobs r !! h); [discriminate E|]. injection E as <-. by left.
  - destruct (rl_jobs r !! h) as [[entry peer stage| | |]|]; try discriminate E. destruct stage; cbn [accept_next] in E.
    + injection E as <-. by left.
    + injection E as <-. by left.
    + destruct (over_limits _ _ _ _); [right; exact (Ac _ _ _ _ E)|]. destruct (_ && _); [|discriminate E].
      destruct (admitted _ _ _ _ _ _). injection E as <-. by left.
    + injection E as <-. by left.
    + destruct (accept_done _ _ _) as [x|] eqn:N; [|discriminate E]. injection E as <-. right. exact (Ac _ _ _ _ N).
  - destruct (sup_phase h r) as [[]|]; try discriminate E. destruct (rl_jobs r !! h); [discriminate E|]. injection E as <-. by left.
  - destruct (rl_jobs r !! h) as [[]|]; try discriminate E. destruct (forallb _ _); [|discriminate E]. injection E as <-. by left.
  - destruct (rl_jobs r !! h) as [[| |o stage|]|]; try discriminate E. destruct (rt_supervisors _ !! h); [|discriminate E].
    destruct stage as [|ids|counters [|id ids] stage]; cbn [purge_next] in E; [| |discriminate E|].
    + destruct (lists _ _); [|discriminate E]. injection E as <-. by left.
    + injection E as <-. by left.
    + destruct (close_stage _ _ _ _ _) as [[[st|] x]|] eqn:N; [..|discriminate E]; injection E as <-; exact (Cl _ _ _ _ _ _ _ N).
  - destruct (rl_children r !! i) as [c|]; [|discriminate E]. destruct (child_next ch c r) as [[phase x]|] eqn:N; [|discriminate E].
    injection E as <-. change (rl_control (set_rl_children (<[i := set_ch_phase phase c]> (rl_children x)) x)) with (rl_control x).
    unfold child_next in N. cbv zeta in N. destruct (ch_phase c), ch; try discriminate N;
      try (destruct (is_cancelled _ _); try discriminate N); try (injection N as <- <-; by left).
    + destruct streams as [[]|[]]; injection N as <- <-; by left.
    + destruct (ti_request info); injection N as <- <-; by left.
    + destruct (close_stage _ _ _ _ _) as [[nx x1]|] eqn:Q; [|discriminate N]. injection N as <- <-. exact (Cl _ _ _ _ _ _ _ Q).
  - destruct (rl_children r !! i) as [c|]; [|discriminate E]. destruct (_ && _); [|discriminate E]. injection E as <-. by left.
  - injection E as <-. by left.
Qed.

(** A run of the server contains a run of its control plane. *)
Lemma relay_run_controls r r' : rtc relay_step r r' -> rtc control_step (rl_control r) (rl_control r').
Proof.
  induction 1 as [|r r1 r' [mv E] _ IH]; [done|]. destruct (relay_control _ _ _ E) as [Q|Q]; [by rewrite <- Q|].
  by eapply rtc_l.
Qed.

Definition fresh (seed : Z) (limits : AdmissionLimits) (grace : Duration) (rs : list request) : Relay :=
  relay_new limits grace (initial (control_new seed) rs).

Lemma fresh_pool seed limits grace rs r : rtc relay_step (fresh seed limits grace rs) r -> pool (fun _ => anything) (rl_control r).
Proof. intros H. eapply pool_run; [apply pool_initial, control_new_ok|exact (relay_run_controls _ _ H)]. Qed.

(** ** Purges *)

Definition named (k : Conns) (id : Z) (name : string) : Prop :=
  forall s, cn_connections k !! id = Some s -> sn_proxy s = name.
Definition gone (k : Conns) (id : Z) : Prop := cn_connections k !! id = None.

(** The ids a purge has still to take. *)
Definition to_take (j : SupervisorJob) : option (list Z) :=
  match j with
  | Purging _ (PurgeLook ids) | Purging _ (PurgeTake _ ids (TakeToken | TakeSnapshot)) => Some ids
  | Purging _ (PurgeTake _ ids (TakeEvidence _ | TakeHistory _)) => Some (tail ids)
  | Purged => Some []
  | _ => None
  end.
Definition ends (j : SupervisorJob) : bool := match j with Purging _ _ | Purged => true | _ => false end.
Definition job_named (k : Conns) (name : string) (j : SupervisorJob) : Prop :=
  match j with
  | Accepting entry _ stage =>
      ps_name (mp_spec entry) = name
      /\ match stage with AcceptInsert s => sn_proxy s = name | AcceptRegister id => named k id name | _ => True end
  | _ => True
  end.

Record settled (r : Relay) : Prop := {
  se_children : forall i c, rl_children r !! i = Some c ->
    exists v, rt_supervisors (control_of r) !! ch_supervisor c = Some v /\ named (rl_conns r) (ch_id c) (sv_name v);
  se_jobs : forall h j, rl_jobs r !! h = Some j ->
    exists v, rt_supervisors (control_of r) !! h = Some v /\ job_named (rl_conns r) (sv_name v) j;
  se_over : forall h j i c, rl_jobs r !! h = Some j -> ends j = true -> rl_children r !! i = Some c ->
    ch_supervisor c = h -> is_over c = true;
  se_left : forall h j i c ids, rl_jobs r !! h = Some j -> to_take j = Some ids -> rl_children r !! i = Some c ->
    ch_supervisor c = h -> gone (rl_conns r) (ch_id c) \/ ch_id c ∈ ids
}.

(** Nothing enters the map, no task is reborn, no supervisor changes its name. *)
Record calmer (r r' : Relay) : Prop := {
  ca_supervisors : forall h v, rt_supervisors (control_of r) !! h = Some v ->
    exists v', rt_supervisors (control_of r') !! h = Some v' /\ sv_name v' = sv_name v;
  ca_connections : forall id s', cn_connections (rl_conns r') !! id = Some s' ->
    exists s, cn_connections (rl_conns r) !! id = Some s /\ sn_proxy s' = sn_proxy s;
  ca_children : forall i c', rl_children r' !! i = Some c' -> exists c, rl_children r !! i = Some c
    /\ ch_id c' = ch_id c /\ ch_supervisor c' = ch_supervisor c /\ (is_over c = true -> is_over c' = true)
    /\ (ch_aborting c = true -> ch_aborting c' = true)
}.

Lemma named_calmer r r' id name : calmer r r' -> named (rl_conns r) id name -> named (rl_conns r') id name.
Proof. intros C N s' H. destruct (ca_connections _ _ C _ _ H) as (s & H' & ->). by apply N. Qed.
Lemma gone_calmer r r' id : calmer r r' -> gone (rl_conns r) id -> gone (rl_conns r') id.
Proof.
  unfold gone. intros C N. destruct (cn_connections (rl_conns r') !! id) as [s'|] eqn:H; [|done].
  destruct (ca_connections _ _ C _ _ H) as (s & H' & _). congruence.
Qed.
Lemma job_named_calmer r r' name j : calmer r r' -> job_named (rl_conns r) name j -> job_named (rl_conns r') name j.
Proof. intros C. destruct j as [e p []| | |]; try done. intros [? ?]. split; [done|]. by eapply named_calmer. Qed.

Lemma settled_calmer r r' : calmer r r' -> rl_jobs r' = rl_jobs r -> settled r -> settled r'.
Proof.
  intros C J []. constructor; rewrite ?J.
  - intros i c' H. destruct (ca_children _ _ C _ _ H) as (c & Hc & Ei & Es & _ & _). destruct (se_children0 _ _ Hc) as (v & Hv & N).
    destruct (ca_supervisors _ _ C _ _ Hv) as (v' & Hv' & En). exists v'. rewrite Es, Ei, En. split; [done|]. by eapply named_calmer.
  - intros h j H. destruct (se_jobs0 _ _ H) as (v & Hv & N). destruct (ca_supervisors _ _ C _ _ Hv) as (v' & Hv' & En).
    exists v'. rewrite En. split; [done|]. by eapply job_named_calmer.
  - intros h j i c' H E Hc' Hs. destruct (ca_children _ _ C _ _ Hc') as (c & Hc & _ & Es & O & _). apply O. eapply se_over0; eauto. congruence.
  - intros h j i c' ids H T Hc' Hs. destruct (ca_children _ _ C _ _ Hc') as (c & Hc & Ei & Es & _ & _). rewrite Ei.
    destruct (se_left0 h j i c ids H T Hc) as [G|G]; [congruence|left; by eapply gone_calmer|by right].
Qed.

Lemma settled_job h j r v : settled r -> rt_supervisors (control_of r) !! h = Some v -> job_named (rl_conns r) (sv_name v) j ->
  (ends j = true -> forall i c, rl_children r !! i = Some c -> ch_supervisor c = h -> is_over c = true) ->
  (forall ids, to_take j = Some ids -> forall i c, rl_children r !! i = Some c -> ch_supervisor c = h ->
     gone (rl_conns r) (ch_id c) \/ ch_id c ∈ ids) ->
  settled (set_job h j r).
Proof.
  intros [] Hv N O L. constructor; cbn; [done|..].
  - intros h' j' [[<- <-]|[D H]]%lookup_insert_Some; [by exists v|by apply se_jobs0].
  - intros h' j' i c [[<- <-]|[D H]]%lookup_insert_Some E Hc Hs; [by eapply O|by eapply se_over0].
  - intros h' j' i c ids [[<- <-]|[D H]]%lookup_insert_Some T Hc Hs; [by eapply L|by eapply se_left0].
Qed.

Lemma calmer_trans a b c : calmer a b -> calmer b c -> calmer a c.
Proof.
  intros [S1 C1 K1] [S2 C2 K2]. constructor.
  - intros h v H. destruct (S1 _ _ H) as (v1 & H1 & E1). destruct (S2 _ _ H1) as (v2 & H2 & E2). exists v2. split; [done|congruence].
  - intros id s H. destruct (C2 _ _ H) as (s1 & H1 & E1). destruct (C1 _ _ H1) as (s2 & H2 & E2). exists s2. split; [done|congruence].
  - intros i x H. destruct (K2 _ _ H) as (c1 & H1 & Ei & Es & O1 & A1). destruct (K1 _ _ H1) as (c2 & H2 & Ei' & Es' & O2 & A2).
    exists c2. split; [done|]. split; [congruence|]. split; [congruence|auto].
Qed.

Lemma calmer_conns k r : (forall id s', cn_connections k !! id = Some s' ->
    exists s, cn_connections (rl_conns r) !! id = Some s /\ sn_proxy s' = sn_proxy s) -> calmer r (set_rl_conns k r).
Proof. intros H. constructor; [by eauto|done|by eauto 10]. Qed.
Lemma calmer_same_conns k r : cn_connections k = cn_connections (rl_conns r) -> calmer r (set_rl_conns k r).
Proof. intros E. apply calmer_conns. rewrite E. by eauto. Qed.
Lemma calmer_less_conns k r : (forall id s, cn_connections k !! id = Some s -> cn_connections (rl_conns r) !! id = Some s) ->
  calmer r (set_rl_conns k r).
Proof. intros H. apply calmer_conns. intros id s Hs. exists s. auto. Qed.

Lemma calmer_control r s : pool (fun _ => anything) (rl_control r) -> control_step (rl_control r) s -> calmer r (set_rl_control s r).
Proof.
  intros P H. pose proof (pool_step_guarantee _ _ _ P H) as [G _]. constructor; cbn; [|by eauto|by eauto 10].
  intros h v Hv. destruct (gr_supervisors _ _ G _ _ Hv) as (v' & Hv' & (En & _) & _). by exists v'.
Qed.

Lemma calmer_child i phase c r : rl_children r !! i = Some c -> (is_over c = true -> is_over (set_ch_phase phase c) = true) ->
  calmer r (set_child i phase c r).
Proof.
  intros H O. constructor; cbn; [by eauto|by eauto|]. intros j c' [(<- & <- & _)|[_ Hc']]%list_lookup_insert_Some; [|by eauto 10].
  exists c. auto.
Qed.

Lemma calmer_abort (f : Child -> bool) r :
  calmer r (set_rl_children (map (fun c => if f c then abort_child c else c) (rl_children r)) r).
Proof.
  constructor; cbn; [by eauto|by eauto|]. intros i c' H. rewrite list_lookup_fmap in H.
  destruct (rl_children r !! i) as [c|]; [|done]. injection H as <-. exists c. by destruct (f c).
Qed.

Lemma settled_done h r : settled r -> settled (set_rl_jobs (delete h (rl_jobs r)) r).
Proof.
  intros []. constructor; cbn; [done|..].
  - intros h' j [_ H]%lookup_delete_Some. by apply se_jobs0.
  - intros h' j i c [_ H]%lookup_delete_Some. by apply se_over0.
  - intros h' j i c ids [_ H]%lookup_delete_Some. by apply se_left0.
Qed.

(** The one summary that enters the map belongs to no task yet. *)
Lemma settled_insert n h entry peer s r : relay_ok n r -> rl_jobs r !! h = Some (Accepting entry peer (AcceptInsert s)) -> settled r ->
  settled (set_rl_conns (set_cn_connections (<[sn_id s := s]> (cn_connections (rl_conns r))) (rl_conns r)) r).
Proof.
  intros Hok H []. pose proof (inserting_not_placed n r h entry peer s (ro_ids _ _ Hok) H) as N.
  assert (F : forall i c, rl_children r !! i = Some c -> ch_id c <> sn_id s).
  { intros i c Hc E. apply N. left. rewrite <- E. apply list_elem_of_fmap. exists c. split; [done|]. by eapply list_elem_of_lookup_2. }
  assert (Nm : forall id name, id <> sn_id s -> named (rl_conns r) id name ->
    named (set_cn_connections (<[sn_id s := s]> (cn_connections (rl_conns r))) (rl_conns r)) id name).
  { intros id name D Hn x. cbn. rewrite lookup_insert_ne by done. apply Hn. }
  constructor; cbn.
  - intros i c Hc. destruct (se_children0 i c Hc) as (v & Hv & Hn). exists v. split; [done|]. apply Nm; [by eapply F|done].
  - intros h' j Hj. destruct (se_jobs0 h' j Hj) as (v & Hv & Hn). exists v. split; [done|].
    destruct j as [e p []| | |]; try done. destruct Hn as [Hn Hi]. split; [done|]. apply Nm; [|done].
    intros ->. apply N. right. by exists h', e, p.
  - done.
  - intros h' j i c ids Hj T Hc Hs. destruct (se_left0 h' j i c ids Hj T Hc Hs) as [G|G]; [left|by right].
    unfold gone in *. cbn. rewrite lookup_insert_ne; [done|]. intros E. by apply (F i c Hc).
Qed.

Lemma settled_spawn h entry peer id token r : rl_jobs r !! h = Some (Accepting entry peer (AcceptRegister id)) -> settled r ->
  settled (set_rl_children (rl_children r ++ [new_child h entry id token]) (set_rl_jobs (delete h (rl_jobs r)) r)).
Proof.
  intros H S. pose proof S as []. apply (settled_done h) in S. pose proof S as [S1 S2 S3 S4].
  destruct (se_jobs0 h _ H) as (v & Hv & _ & Hn). constructor; cbn in *.
  - intros i c Hc. apply lookup_app_Some in Hc as [Hc|[_ Hc]]; [by eapply S1|].
    apply list_lookup_singleton_Some in Hc as [_ <-]. by exists v.
  - done.
  - intros h' j i c Hj E Hc Hs. apply lookup_app_Some in Hc as [Hc|[_ Hc]]; [by eapply S3|].
    apply list_lookup_singleton_Some in Hc as [_ <-]. cbn in Hs. subst h'. by rewrite lookup_delete_eq in Hj.
  - intros h' j i c ids Hj T Hc Hs. apply lookup_app_Some in Hc as [Hc|[_ Hc]]; [by eapply S4|].
    apply list_lookup_singleton_Some in Hc as [_ <-]. cbn in Hs. subst h'. by rewrite lookup_delete_eq in Hj.
Qed.

Lemma close_less counters c id stage k next k' : close_conns counters c id stage k = (next, k') ->
  (forall i s, cn_connections k' !! i = Some s -> cn_connections k !! i = Some s)
  /\ (stage = TakeSnapshot -> cn_connections k' !! id = None).
Proof.
  intros H. destruct stage as [| |[s|]|e]; cbn [close_conns] in H.
  - injection H as <- <-. done.
  - injection H as <- <-. cbn. split; [by intros i s [_ ?]%lookup_delete_Some|]. intros _. apply lookup_delete_eq.
  - destruct (account_close _ _ _ _ _) as [entry k1] eqn:E.
    assert (Q : cn_connections k1 = cn_connections k) by (unfold account_close in E; injection E as _ <-; by destruct counters).
    split; [|done]. destruct (Z.eqb_spec (al_history (cn_limits k1)) 0); injection H as <- <-; rewrite <- Q; done.
  - injection H as <- <-. done.
  - injection H as <- <-. done.
Qed.

(** A stage of a close, in the whole state. *)
Lemma close_stage_calmer counters c id stage r next r' : pool (fun _ => anything) (rl_control r) ->
  close_stage counters c id stage r = Some (next, r') ->
  calmer r r' /\ rl_jobs r' = rl_jobs r /\ rl_children r' = rl_children r
  /\ (stage = TakeSnapshot -> gone (rl_conns r') id).
Proof.
  intros P H. unfold close_stage in H. destruct (close_conns counters c id stage (rl_conns r)) as [nx k] eqn:E.
  apply close_less in E as [L G]. pose proof (calmer_less_conns k r L) as C. destruct stage.
  - unfold control_does in H. destruct (sys_next _ _) as [s|] eqn:N; [|discriminate H]. injection H as <- <-. split; [|done].
    eapply calmer_trans; [exact C|]. apply calmer_control; [done|]. by exists (CloseConnection id).
  - injection H as <- <-. by auto.
  - by injection H as <- <-.
  - by injection H as <- <-.
Qed.

Lemma child_next_calmer ch c r phase r' : pool (fun _ => anything) (rl_control r) -> child_next ch c r = Some (phase, r') ->
  calmer r r' /\ rl_jobs r' = rl_jobs r /\ rl_children r' = rl_children r /\ is_over c = false.
Proof.
  intros P N. assert (R : calmer r r).
  { destruct r as [a k b d]. by apply (calmer_same_conns k {| rl_control := a; rl_conns := k; rl_children := b; rl_jobs := d |}). }
  assert (M : calmer r (set_rl_conns (mark_relaying (ch_id c) (rl_conns r)) r)).
  { apply calmer_conns. intros id s H. cbn in H. apply lookup_alter_Some in H as [(<- & s0 & H & ->)|[_ H]]; [by exists s0|by exists s]. }
  unfold child_next in N. cbv zeta in N.
  destruct (ch_phase c) eqn:Ph; destruct ch; try discriminate N; try (assert (O : is_over c = false) by (unfold is_over; by rewrite Ph));
    try (destruct (is_cancelled _ _); try discriminate N); try (injection N as <- <-; by auto).
  - destruct streams as [[u d]|[d e]]; injection N as <- <-; [|by auto]. split; [|done].
    eapply calmer_trans; [exact M|]. by apply calmer_same_conns.
  - injection N as <- <-. split; [|done]. by apply calmer_same_conns.
  - destruct (ti_request info); injection N as <- <-; auto.
  - destruct (close_stage _ _ _ _ _) as [[nx x]|] eqn:Q; [|discriminate N]. injection N as <- <-.
    apply close_stage_calmer in Q; [|done]. destruct Q as (? & ? & ? & _). auto.
Qed.

Lemma lists_elem ids s id : lists ids s = true -> id ∈ s -> id ∈ ids.
Proof.
  intros [_ H]%andb_true_iff Hi. apply bool_decide_eq_true in H. rewrite <- H in Hi. by apply elem_of_list_to_set in Hi.
Qed.

Lemma purge_next_settled h v listed o stage r r' : pool (fun _ => anything) (rl_control r) -> settled r ->
  rl_jobs r !! h = Some (Purging o stage) -> rt_supervisors (control_of r) !! h = Some v ->
  purge_next h (sv_name v) listed o stage r = Some r' -> settled r'.
Proof.
  intros P S H Hv E. pose proof S as []. assert (O : forall i c, rl_children r !! i = Some c -> ch_supervisor c = h -> is_over c = true).
  { intros i c Hc Hs. by eapply (se_over0 h _ i c H eq_refl). }
  destruct stage as [|ids|counters [|id ids] stage]; cbn [purge_next] in E; [..|discriminate E|].
  - destruct (lists _ _) eqn:L; [|discriminate E]. injection E as <-.
    assert (K : forall i c, rl_children r !! i = Some c -> ch_supervisor c = h -> gone (rl_conns r) (ch_id c) \/ ch_id c ∈ listed).
    { intros i c Hc Hs. destruct (cn_connections (rl_conns r) !! ch_id c) as [s|] eqn:G; [right|by left].
      apply (lists_elem _ _ _ L). unfold ids_named. apply elem_of_dom. exists s. apply map_lookup_filter_Some. split; [done|].
      destruct (se_children0 i c Hc) as (v' & Hv' & N). rewrite Hs, Hv in Hv'. injection Hv' as <-. by apply N. }
    apply (settled_job h _ r v S Hv); [by destruct listed|done|]. intros ids T. assert (ids = listed) as ->; [|done].
    destruct listed; by injection T as <-.
  - injection E as <-. apply (settled_job h _ r v S Hv); [by destruct ids|done|]. intros ids' T.
    assert (ids' = ids) as -> by (destruct ids; by injection T as <-). intros i c Hc Hs. by eapply (se_left0 h _ i c ids H eq_refl).
  - destruct (close_stage counters (purge_closing o) id stage r) as [[next r1]|] eqn:Q; [|discriminate E].
    destruct (close_stage_calmer _ _ _ _ _ _ _ P Q) as (C & J & Ch & G).
    assert (Nx : match stage with TakeToken => next = Some TakeSnapshot | TakeSnapshot => exists s, next = Some (TakeEvidence s)
                 | TakeEvidence _ => next = None \/ exists e, next = Some (TakeHistory e) | TakeHistory _ => next = None end).
    { apply close_stage_split in Q as (k & s & Q & _). destruct stage as [| |[x|]|e]; cbn [close_conns] in Q; try (injection Q as <- _; by eauto).
      destruct (account_close _ _ _ _ _) as [entry k1].
      destruct (Z.eqb_spec (al_history (cn_limits k1)) 0); injection Q as <- _; by eauto. }
    apply (settled_calmer r r1 C J) in S. pose proof S as [S1 S2 S3 S4].
    assert (H1 : rl_jobs r1 !! h = Some (Purging o (PurgeTake counters (id :: ids) stage))) by (by rewrite J).
    destruct (S2 h _ H1) as (v1 & Hv1 & _).
    assert (O1 : forall i c, rl_children r1 !! i = Some c -> ch_supervisor c = h -> is_over c = true).
    { intros i c Hc Hs. by eapply (S3 h _ i c H1 eq_refl). }
    assert (L1 : forall i c, rl_children r1 !! i = Some c -> ch_supervisor c = h ->
      gone (rl_conns r1) (ch_id c) \/ ch_id c ∈ (match stage with TakeToken => id :: ids | _ => ids end)).
    { intros i c Hc Hs. destruct stage.
      - by eapply (S4 h _ i c _ H1 eq_refl).
      - destruct (S4 h _ i c _ H1 eq_refl Hc Hs) as [?|[->|?]%elem_of_cons]; [by left|left; by apply G|by right].
      - by eapply (S4 h _ i c _ H1 eq_refl).
      - by eapply (S4 h _ i c _ H1 eq_refl). }
    destruct next as [st|]; injection E as <-; apply (settled_job h _ r1 v1 S Hv1); try done.
    + intros ids' T i c Hc Hs. destruct (L1 i c Hc Hs) as [?|L]; [by left|right].
      destruct stage as [| |?|?]; [|destruct Nx as [? Nx]|destruct Nx as [?|[? Nx]]; [done|]|done]; injection Nx as ->; by injection T as <-.
    + by destruct ids.
    + intros ids' T i c Hc Hs. destruct (L1 i c Hc Hs) as [?|L]; [by left|right].
      assert (ids' = ids) as -> by (destruct ids; by injection T as <-).
      destruct stage as [| |?|?]; [done|by destruct Nx as [? Nx]|done|done].
Qed.

Lemma settled_step n mv r r' : relay_ok n r -> pool (fun _ => anything) (rl_control r) -> settled r ->
  relay_next mv r = Some r' -> settled r'.
Proof.
  intros Hok P S E. destruct mv as [mv|h peer|h up down|h|h|h listed|i ch|i|a e]; cbn [relay_next] in E.
  - destruct (control_moves _ _); [|discriminate E]. unfold control_does in E. destruct (sys_next _ _) as [s|] eqn:N; [|discriminate E].
    injection E as <-. eapply settled_calmer; [apply calmer_control; [done|by exists mv]|done..].
  - unfold sup_phase in E. destruct (rt_supervisors (control_of r) !! h) as [v|] eqn:Hv; [|discriminate E]. cbn in E.
    destruct (sv_phase v) as [|entry| | |] eqn:Ph; try discriminate E. destruct (rl_jobs r !! h); [discriminate E|]. injection E as <-.
    apply (settled_job h _ r v S Hv); [|done..]. split; [|done]. by apply (ok_select _ (proj1 P) h v entry Hv Ph).
  - destruct (rl_jobs r !! h) as [[entry peer stage| | |]|] eqn:H; try discriminate E.
    destruct (se_jobs _ S h _ H) as (v & Hv & Nm & Nj).
    assert (Q : forall k j, cn_connections k = cn_connections (rl_conns r) -> job_named k (sv_name v) j -> ends j = false -> to_take j = None ->
      settled (set_job h j (set_rl_conns k r))).
    { intros k j Ec Jn Ej Tj. assert (S1 : settled (set_rl_conns k r)) by (eapply settled_calmer; [by apply calmer_same_conns|done..]).
      apply (settled_job h j _ v S1 Hv Jn); congruence. }
    assert (D : forall id s, sys_next (Supervise h (SupAccept id)) (rl_control r) = Some s -> settled (set_rl_control s r)).
    { intros id s N. eapply settled_calmer; [apply calmer_control; [done|by exists (Supervise h (SupAccept id))]|done..]. }
    destruct stage as [|current|current x|s|id]; cbn [accept_next] in E.
    + injection E as <-. by apply Q.
    + injection E as <-. by apply Q.
    + destruct (over_limits _ _ _ _).
      * unfold accept_done, control_does in E. destruct (sys_next _ _) as [s|] eqn:N; [|discriminate E]. injection E as <-.
        refine (settled_done h (set_rl_conns (reject entry (rl_conns r)) (set_rl_control s r)) _).
        eapply settled_calmer; [by apply calmer_same_conns|done|exact (D None s N)].
      * destruct (_ && _); [|discriminate E]. destruct (admitted _ _ _ _ _ _) as [s k] eqn:A. injection A as <- <-. injection E as <-.
        by apply Q.
    + injection E as <-. pose proof (settled_insert n h entry peer s r Hok H S) as S1.
      apply (settled_job h _ _ v S1 Hv); [|done..]. split; [done|]. intros x Hx. cbn in Hx. rewrite lookup_insert_eq in Hx. by injection Hx as <-.
    + unfold accept_done, control_does in E. destruct (sys_next _ _) as [s|] eqn:N; [|discriminate E]. injection E as <-.
      exact (settled_spawn h entry peer id _ (set_rl_control s r) H (D (Some id) s N)).
  - unfold sup_phase in E. destruct (rt_supervisors (control_of r) !! h) as [v|] eqn:Hv; [|discriminate E]. cbn in E.
    destruct (sv_phase v); try discriminate E. destruct (rl_jobs r !! h); [discriminate E|]. injection E as <-.
    eapply (settled_job h Joining _ v); [|exact Hv|done..]. eapply settled_calmer; [apply calmer_abort|done..].
  - destruct (rl_jobs r !! h) as [[]|] eqn:H; try discriminate E. destruct (forallb _ _) eqn:F; [|discriminate E]. injection E as <-.
    destruct (se_jobs _ S h _ H) as (v & Hv & _). apply (settled_job h _ r v S Hv); [done|..|done].
    intros _ i c Hc Hs. rewrite forallb_forall in F. specialize (F c). rewrite <- list_elem_of_In in F.
    specialize (F (list_elem_of_lookup_2 _ _ _ Hc)). unfold is_child_of in F. by rewrite Hs, Nat.eqb_refl in F.
  - destruct (rl_jobs r !! h) as [[| |o stage|]|] eqn:H; try discriminate E.
    destruct (rt_supervisors _ !! h) as [v|] eqn:Hv; [|discriminate E]. by eapply purge_next_settled.
  - destruct (rl_children r !! i) as [c|] eqn:H; [|discriminate E]. destruct (child_next ch c r) as [[phase x]|] eqn:N; [|discriminate E].
    injection E as <-. apply child_next_calmer in N as (C & J & Ch & O); [|done]. eapply (settled_calmer x); [|done|by eapply settled_calmer].
    apply calmer_child; [by rewrite Ch|congruence].
  - destruct (rl_children r !! i) as [c|] eqn:H; [|discriminate E]. destruct (_ && _); [|discriminate E]. injection E as <-.
    eapply settled_calmer; [by apply calmer_child|done..].
  - injection E as <-. eapply settled_calmer; [by apply calmer_same_conns|done..].
Qed.

Lemma fresh_settled seed limits grace rs : settled (fresh seed limits grace rs).
Proof. constructor; cbn; try done; intros *; rewrite lookup_empty; done. Qed.

Lemma fresh_steps n seed limits grace rs r :
  0 <= al_global_connections limits -> 0 <= al_history limits -> Z.of_nat n < U64_MAX ->
  nsteps relay_step n (fresh seed limits grace rs) r -> relay_ok (Z.of_nat n) r.
Proof. intros G H Hn R. eapply relay_steps_ok; [done| |exact R]. by apply relay_new_ok. Qed.

Lemma settled_run n seed limits grace rs r :
  0 <= al_global_connections limits -> 0 <= al_history limits -> Z.of_nat n < U64_MAX ->
  nsteps relay_step n (fresh seed limits grace rs) r -> settled r.
Proof.
  intros G H. revert r. induction n as [|n IH]; intros r Hn R.
  - inversion R; subst. apply fresh_settled.
  - apply nsteps_inv_r in R as (r1 & R & [mv E]). eapply settled_step; [eapply fresh_steps; [..|exact R]|..|exact E]; try done; [lia|..].
    + eapply fresh_pool, rtc_nsteps. by eexists.
    + apply IH; [lia|done].
Qed.

(** ** Supervisors end *)

Definition joining_job (r : Relay) (h : nat) (j : SupervisorJob) : Prop :=
  match j with
  | Joining => forall i c, rl_children r !! i = Some c -> ch_supervisor c = h -> ch_aborting c = true
  | Purging _ (PurgeTake _ ids _) => ids <> []
  | _ => True
  end.
(** Who waits for its children has aborted them, and a purge that takes has
    something to take. *)
Definition joining (r : Relay) : Prop := forall h j, rl_jobs r !! h = Some j -> joining_job r h j.

Lemma joining_job_children r r' h j :
  (forall i c', rl_children r' !! i = Some c' -> exists c, rl_children r !! i = Some c
     /\ ch_supervisor c' = ch_supervisor c /\ (ch_aborting c = true -> ch_aborting c' = true)) ->
  joining_job r h j -> joining_job r' h j.
Proof.
  intros C. destruct j as [| |o []|]; try done. cbn. intros J i c' Hc Hs. destruct (C i c' Hc) as (c & Hc' & Es & A).
  apply A, (J i c Hc'). congruence.
Qed.
Lemma joining_calmer r r' : calmer r r' -> rl_jobs r' = rl_jobs r -> joining r -> joining r'.
Proof.
  intros C E J h j H. rewrite E in H. apply (joining_job_children r); [|by apply J].
  intros i c' Hc. destruct (ca_children _ _ C _ _ Hc) as (c & ? & ? & ? & ? & ?). eauto.
Qed.
Lemma joining_set h j r : joining r -> joining_job r h j -> joining (set_job h j r).
Proof. intros J H h' j' Hj. cbn in Hj. apply lookup_insert_Some in Hj as [[<- <-]|[D H']]; [done|by apply J]. Qed.
Lemma joining_done h r : joining r -> joining (set_rl_jobs (delete h (rl_jobs r)) r).
Proof. intros J h' j' Hj. cbn in Hj. apply lookup_delete_Some in Hj as [D H]. by apply J. Qed.

Lemma calmer_refl r : calmer r r.
Proof. destruct r as [a k b d]. by apply (calmer_same_conns k {| rl_control := a; rl_conns := k; rl_children := b; rl_jobs := d |}). Qed.

Lemma joining_step mv r r' : pool (fun _ => anything) (rl_control r) -> joining r -> relay_next mv r = Some r' -> joining r'.
Proof.
  intros P J E. assert (Cl : forall counters c id stage next x, close_stage counters c id stage r = Some (next, x) -> joining x).
  { intros counters c id stage next x H. apply close_stage_calmer in H as (C & Ej & _); [|done]. by eapply joining_calmer. }
  destruct mv as [mv|h peer|h up down|h|h|h listed|i ch|i|a e]; cbn [relay_next] in E.
  - destruct (control_moves _ _); [|discriminate E]. unfold control_does in E. destruct (sys_next _ _) as [s|] eqn:N; [|discriminate E].
    injection E as <-. exact J.
  - destruct (sup_phase h r) as [[]|]; try discriminate E. destruct (rl_jobs r !! h); [discriminate E|]. injection E as <-. by apply joining_set.
  - destruct (rl_jobs r !! h) as [[entry peer stage| | |]|] eqn:H; try discriminate E. destruct stage as [|current|current x|s|id]; cbn [accept_next] in E;
      unfold accept_done, control_does in E; try (injection E as <-; by apply joining_set).
    + destruct (over_limits _ _ _ _).
      * destruct (sys_next _ _) as [s|] eqn:N; [|discriminate E]. injection E as <-. exact (joining_done h r J).
      * destruct (_ && _); [|discriminate E]. destruct (admitted _ _ _ _ _ _) as [s k] eqn:A. injection E as <-. by apply joining_set.
    + destruct (sys_next _ _) as [s|] eqn:N; [|discriminate E]. injection E as <-. intros h' j Hj. cbn in Hj. apply lookup_delete_Some in Hj as [D Hj].
      specialize (J h' j Hj). destruct j; try done. intros i c Hc Hs. apply lookup_app_Some in Hc as [Hc|[_ Hc]]; [by eapply J|].
      apply list_lookup_singleton_Some in Hc as [_ <-]. by destruct D.
  - destruct (sup_phase h r) as [[]|]; try discriminate E. destruct (rl_jobs r !! h); [discriminate E|]. injection E as <-.
    apply joining_set; [by eapply joining_calmer; [apply calmer_abort|..]|]. intros i c' H Hs. cbn in H. rewrite list_lookup_fmap in H.
    destruct (rl_children r !! i) as [c|]; [|done]. injection H as <-. unfold is_child_of in *.
    destruct (Nat.eqb_spec (ch_supervisor c) h); [done|by destruct n].
  - destruct (rl_jobs r !! h) as [[]|]; try discriminate E. destruct (forallb _ _); [|discriminate E]. injection E as <-. by apply joining_set.
  - destruct (rl_jobs r !! h) as [[| |o stage|]|] eqn:H; try discriminate E. destruct (rt_supervisors _ !! h); [|discriminate E].
    destruct stage as [|ids|counters [|id ids] stage]; cbn [purge_next] in E; [| |discriminate E|].
    + destruct (lists _ _); [|discriminate E]. injection E as <-. apply joining_set; [done|]. by destruct listed.
    + injection E as <-. apply joining_set; [done|]. by destruct ids.
    + destruct (close_stage _ _ _ _ _) as [[[st|] x]|] eqn:N; [..|discriminate E]; injection E as <-; apply Cl in N; apply joining_set; try done.
      by destruct ids.
  - destruct (rl_children r !! i) as [c|] eqn:H; [|discriminate E]. destruct (child_next ch c r) as [[phase x]|] eqn:N; [|discriminate E].
    injection E as <-. apply child_next_calmer in N as (C & Ej & Ch & O); [|done]. eapply (joining_calmer x); [|done|by eapply joining_calmer].
    apply calmer_child; [by rewrite Ch|congruence].
  - destruct (rl_children r !! i) as [c|] eqn:H; [|discriminate E]. destruct (_ && _); [|discriminate E]. injection E as <-.
    eapply joining_calmer; [by apply calmer_child|done..].
  - injection E as <-. eapply joining_calmer; [by apply calmer_same_conns|done..].
Qed.

Lemma joining_run seed limits grace rs r : rtc relay_step (fresh seed limits grace rs) r -> joining r.
Proof.
  intros R. assert (J : joining (fresh seed limits grace rs)) by (intros h j H; cbn in H; by rewrite lookup_empty in H).
  refine (rtc_ind_r joining (fresh seed limits grace rs) J _ r R). intros y z Ry [mv E] Jy. eapply joining_step; [by eapply fresh_pool|done|exact E].
Qed.

(** *** Progress *)

Definition flagged (h : nat) (r : Relay) : Prop := sup_phase h r = Some SFlagged.
Definition stopping (h : nat) (r : Relay) : Prop :=
  sup_phase h r = Some SStopping /\ match rl_jobs r !! h with Some (Accepting _ _ _) => False | _ => True end.

Lemma close_stage_goes counters c id stage r :
  exists next r', close_stage counters c id stage r = Some (next, r')
    /\ rt_supervisors (control_of r') = rt_supervisors (control_of r) /\ rl_jobs r' = rl_jobs r
    /\ match stage with TakeToken => next = Some TakeSnapshot | TakeSnapshot => exists s, next = Some (TakeEvidence s)
       | TakeEvidence _ => next = None \/ exists e, next = Some (TakeHistory e) | TakeHistory _ => next = None end.
Proof.
  unfold close_stage. destruct (close_conns counters c id stage (rl_conns r)) as [nx k] eqn:E.
  assert (N : match stage with TakeToken => nx = Some TakeSnapshot | TakeSnapshot => exists s, nx = Some (TakeEvidence s)
       | TakeEvidence _ => nx = None \/ exists e, nx = Some (TakeHistory e) | TakeHistory _ => nx = None end).
  { destruct stage as [| |[s|]|e]; cbn [close_conns] in E; try (injection E as <- _; by eauto).
    destruct (account_close _ _ _ _ _) as [entry k1]. destruct (Z.eqb_spec (al_history (cn_limits k1)) 0); injection E as <- _; by eauto. }
  destruct stage; cbn; do 2 eexists; (split; [reflexivity|]); by split_and!.
Qed.

Definition take_left (stage : TakeStage) : nat :=
  match stage with TakeToken => 4 | TakeSnapshot => 3 | TakeEvidence _ => 2 | TakeHistory _ => 1 end.

(** A purge that takes goes on to its end. *)
Lemma purge_takes n r h v o counters ids stage : rt_supervisors (control_of r) !! h = Some v -> ids <> [] ->
  rl_jobs r !! h = Some (Purging o (PurgeTake counters ids stage)) -> (4 * length ids + take_left stage <= n)%nat ->
  exists r', rtc relay_step r r' /\ rl_jobs r' !! h = Some Purged /\ rt_supervisors (control_of r') = rt_supervisors (control_of r).
Proof.
  revert r ids stage. induction n as [|n IH]; intros r [|id ids] stage Hv D H L; [done|cbn in L; lia|done|].
  destruct (close_stage_goes counters (purge_closing o) id stage r) as (next & r1 & E & Es & Ej & N).
  assert (S : relay_next (RmPurge h []) r = Some (match next with
    | Some st => set_job h (Purging o (PurgeTake counters (id :: ids) st)) r1
    | None => set_job h (match ids with [] => Purged | _ :: _ => Purging o (PurgeTake counters ids TakeToken) end) r1 end)).
  { cbn [relay_next]. rewrite H, Hv. cbn [purge_next]. rewrite E. by destruct next. }
  destruct next as [st|].
  - destruct (IH (set_job h (Purging o (PurgeTake counters (id :: ids) st)) r1) (id :: ids) st) as (r' & R & J & Es').
    + change (rt_supervisors (control_of r1) !! h = Some v). by rewrite Es.
    + done.
    + apply lookup_insert_eq.
    + destruct stage as [| |?|?]; [|destruct N as [? N]|destruct N as [?|[? N]]; [done|]|done]; injection N as ->; cbn in *; lia.
    + exists r'. split; [eapply rtc_l; [by exists (RmPurge h [])|exact R]|]. split; [done|]. rewrite Es'. exact Es.
  - destruct ids as [|id' ids].
    + eexists. split; [eapply rtc_once; by exists (RmPurge h [])|]. split; [apply lookup_insert_eq|exact Es].
    + destruct (IH (set_job h (Purging o (PurgeTake counters (id' :: ids) TakeToken)) r1) (id' :: ids) TakeToken) as (r' & R & J & Es').
      * change (rt_supervisors (control_of r1) !! h = Some v). by rewrite Es.
      * done.
      * apply lookup_insert_eq.
      * destruct stage; cbn in *; lia.
      * exists r'. split; [eapply rtc_l; [by exists (RmPurge h [])|exact R]|]. split; [done|]. rewrite Es'. exact Es.
Qed.

Lemma purge_ends r h v o stage : rt_supervisors (control_of r) !! h = Some v -> joining_job r h (Purging o stage) ->
  rl_jobs r !! h = Some (Purging o stage) ->
  exists r', rtc relay_step r r' /\ rl_jobs r' !! h = Some Purged /\ rt_supervisors (control_of r') = rt_supervisors (control_of r).
Proof.
  intros Hv J H. assert (Look : forall r ids, rt_supervisors (control_of r) !! h = Some v -> rl_jobs r !! h = Some (Purging o (PurgeLook ids)) ->
    exists r', rtc relay_step r r' /\ rl_jobs r' !! h = Some Purged /\ rt_supervisors (control_of r') = rt_supervisors (control_of r)).
  { clear. intros r ids Hv H. assert (E : relay_next (RmPurge h []) r = Some (set_job h (match ids with [] => Purged
      | _ :: _ => Purging o (PurgeTake (option_map mp_counters (rt_proxies (control_of r) !! sv_name v)) ids TakeToken) end) r)).
    { cbn [relay_next]. by rewrite H, Hv. }
    destruct ids as [|id ids].
    - eexists. split; [eapply rtc_once; by exists (RmPurge h [])|]. split; [apply lookup_insert_eq|done].
    - set (counters := option_map mp_counters (rt_proxies (control_of r) !! sv_name v)) in *.
      destruct (purge_takes (4 * length (id :: ids) + 4) (set_job h (Purging o (PurgeTake counters (id :: ids) TakeToken)) r) h v o
        counters (id :: ids) TakeToken Hv) as (r' & R & Jr & Es); [done|apply lookup_insert_eq|done|].
      exists r'. split; [eapply rtc_l; [by exists (RmPurge h [])|exact R]|]. done. }
  destruct stage as [|ids|counters ids stage].
  - set (ids := elements (ids_named (sv_name v) (rl_conns r))).
    assert (E : relay_next (RmPurge h ids) r = Some (set_job h (match ids with [] => Purged | _ :: _ => Purging o (PurgeLook ids) end) r)).
    { cbn [relay_next]. rewrite H, Hv. cbn [purge_next]. unfold lists. rewrite !bool_decide_eq_true_2; [done| |].
      - apply list_to_set_elements_L.
      - apply NoDup_elements. }
    destruct ids as [|id l] eqn:Ei.
    + eexists. split; [eapply rtc_once; by eexists|]. split; [apply lookup_insert_eq|done].
    + destruct (Look (set_job h (Purging o (PurgeLook (id :: l))) r) (id :: l) Hv) as (r' & R & Jr & Es); [apply lookup_insert_eq|].
      exists r'. split; [eapply rtc_l; [by eexists|exact R]|]. done.
  - by apply (Look r ids).
  - by eapply purge_takes.
Qed.

(** The children of a supervisor that waits for them are aborted. *)
Lemma children_end r h k : joining_job r h Joining ->
  exists r', rtc relay_step r r' /\ rl_jobs r' = rl_jobs r /\ control_of r' = control_of r
    /\ joining_job r' h Joining /\ length (rl_children r') = length (rl_children r)
    /\ forall i c, (i < k)%nat -> rl_children r' !! i = Some c -> ch_supervisor c = h -> is_over c = true.
Proof.
  intros J. induction k as [|k (r1 & R & Ej & Ec & J1 & L & O)]; [exists r; split_and!; [apply rtc_refl|done..|intros; lia]|].
  destruct (rl_children r1 !! k) as [c|] eqn:K; [destruct (decide (ch_supervisor c = h /\ is_over c = false)) as [[Hs Ho]|N]|].
  - assert (S : relay_next (RmAborted k) r1 = Some (set_rl_children (<[k := set_ch_phase (Aborted (ch_phase c)) c]> (rl_children r1)) r1)).
    { cbn [relay_next]. by rewrite K, (J1 k c K Hs), Ho. }
    eexists. split; [eapply rtc_r; [exact R|by eexists]|]. split; [done|]. split; [done|]. split; [|split; [by cbn; rewrite length_insert|]].
    + intros i c' Hi Es. cbn in Hi. apply list_lookup_insert_Some in Hi as [(<- & <- & _)|[_ Hi]]; [exact (J1 k c K Hs)|by eapply J1].
    + intros i c' Hi Hc Es. cbn in Hc. apply list_lookup_insert_Some in Hc as [(<- & <- & _)|[D Hc]]; [done|]. eapply O; [|done..]. lia.
  - exists r1. split_and!; try done. intros i c' Hi Hc Hs. destruct (decide (i = k)) as [->|]; [|eapply O; [|done..]; lia].
    rewrite K in Hc. injection Hc as <-. destruct (is_over c) eqn:Ho; [done|]. by destruct N.
  - exists r1. split_and!; try done. intros i c' Hi Hc Hs. destruct (decide (i = k)) as [->|]; [congruence|]. eapply O; [|done..]; lia.
Qed.

Lemma joined_ends r h v : rt_supervisors (control_of r) !! h = Some v -> joining_job r h Joining -> rl_jobs r !! h = Some Joining ->
  exists r', rtc relay_step r r' /\ rl_jobs r' !! h = Some Purged /\ rt_supervisors (control_of r') = rt_supervisors (control_of r).
Proof.
  intros Hv J H. destruct (children_end r h (length (rl_children r)) J) as (r1 & R & Ej & Ec & _ & L & O).
  assert (F : forallb (fun c => negb (is_child_of h c) || is_over c) (rl_children r1) = true).
  { apply forallb_forall. intros c Hc. apply list_elem_of_In, list_elem_of_lookup_1 in Hc as [i Hi]. unfold is_child_of.
    destruct (Nat.eqb_spec (ch_supervisor c) h) as [Es|]; [|done]. cbn. eapply O; [|done..]. rewrite <- L. by eapply lookup_lt_Some. }
  set (o := if rt_shutdown_initiated (control_of r1) then ServiceShutdown else ProxyRemoved).
  assert (S : relay_next (RmJoined h) r1 = Some (set_job h (Purging o PurgeList) r1)) by (cbn [relay_next]; by rewrite Ej, H, F).
  destruct (purge_ends (set_job h (Purging o PurgeList) r1) h v o PurgeList) as (r2 & R2 & J2 & E2);
    [change (rt_supervisors (control_of r1) !! h = Some v); by rewrite Ec|done|apply lookup_insert_eq|].
  exists r2. split; [etrans; [exact R|]; eapply rtc_l; [by eexists|exact R2]|]. split; [done|]. rewrite E2.
  change (rt_supervisors (control_of r1) = rt_supervisors (control_of r)). by rewrite Ec.
Qed.

Lemma purged_flags r h v : rt_supervisors (control_of r) !! h = Some v -> sv_phase v = SStopping -> rl_jobs r !! h = Some Purged ->
  exists r', rtc relay_step r r' /\ flagged h r'.
Proof.
  intros Hv Ph H. destruct (rl_control r) as [c calls] eqn:Ec.
  assert (Hc : rt_supervisors c !! h = Some v) by (unfold control_of in Hv; by rewrite Ec in Hv).
  eexists. split.
  - eapply rtc_once. exists (RmControl (Supervise h SupNext)). cbn [relay_next control_moves]. unfold sup_phase. rewrite Hv, H. cbn [fmap option_fmap option_map].
    rewrite Ph. unfold control_does. rewrite Ec. cbn [sys_next happen control_tasks control_happens sup_next sys_state].
    unfold sup_next. rewrite Hc, Ph. reflexivity.
  - unfold flagged, sup_phase, control_of. cbn. by rewrite list_lookup_alter_eq, Hc.
Qed.


(** ** Limits and leaks *)

Definition is_leaked (c : Child) : bool :=
  match ch_phase c with Aborted (Closing_ _ (TakeEvidence (Some _))) => true | _ => false end.
(** The tasks that were aborted between taking their summary and giving their
    slot back. *)
Definition leaked (r : Relay) : Z := lsum (fun c => ind (is_leaked c)) (rl_children r).

Lemma close_conns_limits counters c id stage k next k' : close_conns counters c id stage k = (next, k') -> cn_limits k' = cn_limits k.
Proof.
  intros H. destruct stage as [| |[s|]|e]; cbn [close_conns] in H; try (by injection H as <- <-).
  destruct (account_close _ _ _ _ _) as [entry k1] eqn:E.
  assert (Q : cn_limits k1 = cn_limits k) by (unfold account_close in E; injection E as _ <-; by destruct counters).
  destruct (Z.eqb_spec (al_history (cn_limits k1)) 0); by injection H as <- <-.
Qed.

Lemma close_stage_keeps counters c id stage r next r' : close_stage counters c id stage r = Some (next, r') ->
  cn_limits (rl_conns r') = cn_limits (rl_conns r) /\ rl_children r' = rl_children r.
Proof.
  intros H. unfold close_stage, control_does in H. destruct (close_conns _ _ _ _ _) as [nx k] eqn:E. apply close_conns_limits in E.
  destruct stage; [|by injection H as <- <-..]. destruct (sys_next _ _); [|discriminate H]. by injection H as <- <-.
Qed.

Lemma child_next_keeps ch c r phase r' : child_next ch c r = Some (phase, r') ->
  cn_limits (rl_conns r') = cn_limits (rl_conns r) /\ rl_children r' = rl_children r /\ is_over c = false.
Proof.
  intros N. unfold child_next in N. cbv zeta in N.
  destruct (ch_phase c) eqn:Ph; destruct ch; try discriminate N; unfold is_over; rewrite Ph;
    try (destruct (is_cancelled _ _); try discriminate N); try (by injection N as <- <-).
  - destruct streams as [[]|[]]; by injection N as <- <-.
  - destruct (ti_request info); by injection N as <- <-.
  - destruct (close_stage _ _ _ _ _) as [[nx x]|] eqn:Q; [|discriminate N]. injection N as <- <-.
    by apply close_stage_keeps in Q as [? ?].
Qed.

Lemma leaked_next mv r r' : relay_next mv r = Some r' -> cn_limits (rl_conns r') = cn_limits (rl_conns r) /\ leaked r <= leaked r'.
Proof.
  intros E. assert (K : forall x, cn_limits (rl_conns x) = cn_limits (rl_conns r) -> rl_children x = rl_children r ->
    cn_limits (rl_conns x) = cn_limits (rl_conns r) /\ leaked r <= leaked x).
  { intros x El Ec. unfold leaked. rewrite Ec. done. }
  assert (A : forall (f : Child -> bool) l, lsum (fun c => ind (is_leaked c)) (map (fun c => if f c then abort_child c else c) l)
    = lsum (fun c => ind (is_leaked c)) l).
  { intros f l. rewrite lsum_map. apply lsum_ext. intros c. by destruct (f c). }
  destruct mv as [mv|h peer|h up down|h|h|h listed|i ch|i|a e]; cbn [relay_next] in E.
  - destruct (control_moves _ _); [|discriminate E]. unfold control_does in E. destruct (sys_next _ _); [|discriminate E].
    injection E as <-. by apply K.
  - destruct (sup_phase h r) as [[]|]; try discriminate E. destruct (rl_jobs r !! h); [discriminate E|]. injection E as <-. by apply K.
  - destruct (rl_jobs r !! h) as [[entry peer stage| | |]|]; try discriminate E. destruct stage; cbn [accept_next] in E;
      unfold accept_done, control_does in E.
    + injection E as <-. by apply K.
    + injection E as <-. by apply K.
    + destruct (over_limits _ _ _ _).
      * destruct (sys_next _ _); [|discriminate E]. injection E as <-. by apply K.
      * destruct (_ && _); [|discriminate E]. destruct (admitted _ _ _ _ _ _) as [s k] eqn:Q. injection E as <-. apply K; [|done].
        unfold admitted in Q. by injection Q as _ <-.
    + injection E as <-. by apply K.
    + destruct (sys_next _ _); [|discriminate E]. injection E as <-. split; [done|]. unfold leaked. cbn [rl_children set_rl_children set_rl_jobs set_rl_control].
      rewrite lsum_app. pose proof (lsum_nonneg (fun c => ind (is_leaked c)) [new_child h entry id (length (rt_tokens (control_of r)))]).
      assert (forall x, 0 <= ind (is_leaked x)) by (intros; apply ind_range). intuition lia.
  - destruct (sup_phase h r) as [[]|]; try discriminate E. destruct (rl_jobs r !! h); [discriminate E|]. injection E as <-.
    split; [done|]. unfold leaked. cbn [rl_children set_rl_children set_job set_rl_jobs]. by rewrite A.
  - destruct (rl_jobs r !! h) as [[]|]; try discriminate E. destruct (forallb _ _); [|discriminate E]. injection E as <-. by apply K.
  - destruct (rl_jobs r !! h) as [[| |o stage|]|]; try discriminate E. destruct (rt_supervisors _ !! h); [|discriminate E].
    destruct stage as [|ids|counters [|id ids] stage]; cbn [purge_next] in E; [| |discriminate E|].
    + destruct (lists _ _); [|discriminate E]. injection E as <-. by apply K.
    + injection E as <-. by apply K.
    + destruct (close_stage _ _ _ _ _) as [[[st|] x]|] eqn:N; [..|discriminate E]; injection E as <-;
        apply close_stage_keeps in N as [? ?]; by apply K.
  - destruct (rl_children r !! i) as [c|] eqn:H; [|discriminate E]. destruct (child_next ch c r) as [[phase x]|] eqn:N; [|discriminate E].
    injection E as <-. apply child_next_keeps in N as (El & Ec & O). split; [done|]. unfold leaked.
    cbn [rl_children set_rl_children]. rewrite Ec, (lsum_insert _ _ _ c) by done.
    assert (is_leaked c = false) as -> by (revert O; unfold is_over, is_leaked; by destruct (ch_phase c)).
    pose proof (ind_range (is_leaked (set_ch_phase phase c))). cbn [ind]. lia.
  - destruct (rl_children r !! i) as [c|] eqn:H; [|discriminate E]. destruct (_ && _) eqn:O; [|discriminate E]. injection E as <-.
    split; [done|]. unfold leaked. cbn [rl_children set_rl_children]. rewrite (lsum_insert _ _ _ c) by done.
    apply andb_true_iff in O as [_ O]. assert (is_leaked c = false) as -> by (revert O; unfold is_over, is_leaked; by destruct (ch_phase c)).
    pose proof (ind_range (is_leaked (set_ch_phase (Aborted (ch_phase c)) c))). cbn [ind]. lia.
  - injection E as <-. by apply K.
Qed.

Lemma leaked_run n r r' : nsteps relay_step n r r' -> cn_limits (rl_conns r') = cn_limits (rl_conns r) /\ leaked r <= leaked r'.
Proof.
  induction 1 as [|n r r1 r' [mv E] _ [El Eg]]; [done|]. apply leaked_next in E as [? ?]. split; [congruence|lia].
Qed.

Lemma leaked_hold_slots r : leaked r <= lsum child_due (rl_children r).
Proof.
  unfold leaked. induction (rl_children r) as [|c l IH]; [done|]. rewrite !lsum_cons.
  assert (ind (is_leaked c) <= child_due c); [|lia]. pose proof (child_due_range c). unfold is_leaked, child_due, child_stage in *.
  destruct (ch_phase c) as [| | | | | | |[| | | | |? [| |[]|]| |]]; cbn in *; lia.
Qed.

(** ** The tables of the counters *)

Definition total (g : PerProxyMetrics -> Z) (t : MetricTables) : Z := msum g (mt_proxies t) + g (mt_overflow_proxy t).
Definition each (g : PerProxyMetrics -> Z) (t : MetricTables) : Prop :=
  map_Forall (fun _ e => 0 <= g e) (mt_proxies t) /\ 0 <= g (mt_overflow_proxy t).
Record tables_ok (accepted completed : Z) (t : MetricTables) : Prop := {
  tb_proxies : Z.of_nat (size (mt_proxies t)) <= MAX_METRIC_PROXIES;
  tb_activations : Z.of_nat (size (mt_activations t)) <= MAX_METRIC_ACTIVATIONS;
  tb_accepted : total pm_accepted t = accepted;
  tb_completed : total pm_completed t = completed;
  tb_each_accepted : each pm_accepted t;
  tb_each_completed : each pm_completed t
}.

Lemma msum_forall_nonneg {K} `{Countable K} {A} (g : A -> Z) (m : gmap K A) : map_Forall (fun _ e => 0 <= g e) m -> 0 <= msum g m.
Proof.
  intros F. unfold msum, lsum. apply zsum_nonneg, Forall_fmap, Forall_forall. intros [k x] Hx.
  apply elem_of_map_to_list in Hx. exact (F k x Hx).
Qed.
Lemma msum_entry {K} `{Countable K} {A} (g : A -> Z) (m : gmap K A) k x :
  map_Forall (fun _ e => 0 <= g e) m -> m !! k = Some x -> g x <= msum g m.
Proof.
  intros F Hx. pose proof (msum_delete g m k) as D. rewrite (at_key_some _ _ _ _ Hx) in D.
  pose proof (msum_forall_nonneg g (delete k m) (map_Forall_delete _ _ _ F)). lia.
Qed.

(** A write to the entry of a proxy that adds [d] to one of its fields. *)
Lemma update_entry_total g proxy f d t : 0 <= d -> g per_proxy_default = 0 -> each g t ->
  (forall e, 0 <= g e <= total g t -> g (f e) = g e + d) ->
  total g (update_proxy_entry proxy f t) = total g t + d /\ each g (update_proxy_entry proxy f t).
Proof.
  intros Hd Z0 [F O] G. pose proof (msum_forall_nonneg g _ F) as N. unfold update_proxy_entry, total, each in *. cbv zeta.
  destruct (mt_proxies t !! proxy) as [e|] eqn:E; cbn [mt_proxies mt_overflow_proxy].
  - pose proof (msum_entry g _ _ _ F E). pose proof (F _ _ E) as P. cbn in P. rewrite msum_insert, (at_key_some _ _ _ _ E), G by lia.
    split; [lia|]. split; [|done]. apply map_Forall_insert_2; [rewrite G by lia; lia|done].
  - destruct (MAX_METRIC_PROXIES <=? _); cbn [mt_proxies mt_overflow_proxy].
    + rewrite G by lia. split; [lia|]. split; [done|lia].
    + rewrite msum_insert, (at_key_none _ _ _ E), G by (rewrite Z0; lia). rewrite Z0. split; [lia|]. split; [|done].
      apply map_Forall_insert_2; [rewrite G by (rewrite Z0; lia); lia|done].
Qed.

Lemma update_entry_bounds proxy f t :
  Z.of_nat (size (mt_proxies t)) <= MAX_METRIC_PROXIES -> Z.of_nat (size (mt_proxies (update_proxy_entry proxy f t))) <= MAX_METRIC_PROXIES.
Proof.
  intros H. unfold update_proxy_entry. cbv zeta. destruct (mt_proxies t !! proxy) as [e|] eqn:E; cbn [mt_proxies].
  - by rewrite map_size_insert, E.
  - destruct (Z.leb_spec MAX_METRIC_PROXIES (Z.of_nat (size (mt_proxies t)))); cbn [mt_proxies]; [done|]. rewrite map_size_insert, E. lia.
Qed.
Lemma update_entry_activations proxy f t : mt_activations (update_proxy_entry proxy f t) = mt_activations t.
Proof. unfold update_proxy_entry. cbv zeta. destruct (mt_proxies t !! proxy); [done|]. by destruct (_ <=? _). Qed.

(** [update_proxy_entry] in the tables, when it adds to the two fields that
    are summed. *)
Lemma update_tables a c da dc proxy f t : 0 <= da -> 0 <= dc -> tables_ok a c t ->
  (forall e, 0 <= pm_accepted e <= a -> pm_accepted (f e) = pm_accepted e + da) ->
  (forall e, 0 <= pm_completed e <= c -> pm_completed (f e) = pm_completed e + dc) ->
  tables_ok (a + da) (c + dc) (update_proxy_entry proxy f t).
Proof.
  intros Ha Hc [Tp Ta Sa Sc Ea Ec] Fa Fc. subst a c.
  destruct (update_entry_total pm_accepted proxy f da t Ha eq_refl Ea Fa), (update_entry_total pm_completed proxy f dc t Hc eq_refl Ec Fc).
  constructor; try done; [by apply update_entry_bounds|by rewrite update_entry_activations].
Qed.

Lemma record_activation_ok a c key count t : tables_ok a c t -> tables_ok a c (record_activation key count t).
Proof.
  intros []. unfold record_activation. destruct (count =? 0); [done|].
  destruct (mt_activations t !! key) as [slot|] eqn:E; [|destruct (Z.leb_spec MAX_METRIC_ACTIVATIONS (Z.of_nat (size (mt_activations t))))];
    constructor; cbn [mt_proxies mt_overflow_proxy mt_activations]; try done; rewrite map_size_insert, E; unfold id; lia.
Qed.
Lemma record_activations_ok a c proxy direction counts t :
  tables_ok a c t -> tables_ok a c (record_activations proxy direction counts t).
Proof.
  unfold record_activations. generalize FAULT_TYPE_NAMES. intros names. revert counts t.
  induction names as [|name names IH]; intros [|count counts] t H; cbn; try done. by apply IH, record_activation_ok.
Qed.

Definition metrics_ok (m : MetricsCounters) : Prop := tables_ok (mc_accepted m) (mc_completed m) (mc_tables m).

Lemma count_accepted_ok proxy m : mc_accepted m < U64_MAX -> 0 <= mc_accepted m -> metrics_ok m -> metrics_ok (count_accepted proxy m).
Proof.
  intros Hn H0 H. unfold metrics_ok. cbn [count_accepted mc_accepted mc_completed mc_tables]. rewrite wadd_up by lia.
  replace (mc_completed m) with (mc_completed m + 0) by lia. apply update_tables; try done; cbn; intros; [apply wadd_up|]; lia.
Qed.
Lemma aggregate_ok s e o t m : mc_completed m < U64_MAX -> 0 <= mc_completed m -> metrics_ok m -> metrics_ok (aggregate_close_metrics s e o t m).
Proof.
  intros Hn H0 H. unfold metrics_ok. cbn [aggregate_close_metrics mc_accepted mc_completed mc_tables]. rewrite wadd_up by lia.
  unfold close_tables. cbv zeta. replace (mc_accepted m) with (mc_accepted m + 0 + 0) by lia.
  replace (mc_completed m + 1) with (mc_completed m + 1 + 0) by lia.
  apply update_tables; [done|done| |cbn; intros; lia..]. do 2 apply record_activations_ok.
  apply update_tables; try done; cbn; intros; [|apply wadd_up]; lia.
Qed.

(** What a move can do to the counters. *)
Inductive counts (m : MetricsCounters) : MetricsCounters -> Prop :=
| CtSame : counts m m
| CtRejected : counts m (count_rejected m)
| CtAccepted proxy : counts m (count_accepted proxy m)
| CtClosed s e o t : counts m (aggregate_close_metrics s e o t m).

Lemma close_conns_counts counters c id stage k next k' : close_conns counters c id stage k = (next, k') ->
  counts (cn_metrics k) (cn_metrics k').
Proof.
  intros H. destruct stage as [| |[s|]|e]; cbn [close_conns] in H; try (injection H as <- <-; constructor).
  destruct (account_close _ _ _ _ _) as [entry k1] eqn:E.
  assert (Q : counts (cn_metrics k) (cn_metrics k1)).
  { unfold account_close in E. injection E as _ <-. destruct counters; constructor. }
  destruct (Z.eqb_spec (al_history (cn_limits k1)) 0); by injection H as <- <-.
Qed.
Lemma close_stage_counts counters c id stage r next r' : close_stage counters c id stage r = Some (next, r') ->
  counts (cn_metrics (rl_conns r)) (cn_metrics (rl_conns r')).
Proof.
  intros H. unfold close_stage, control_does in H. destruct (close_conns _ _ _ _ _) as [nx k] eqn:E. apply close_conns_counts in E.
  destruct stage; [|by injection H as <- <-..]. destruct (sys_next _ _); [|discriminate H]. by injection H as <- <-.
Qed.
Lemma relay_counts mv r r' : relay_next mv r = Some r' -> counts (cn_metrics (rl_conns r)) (cn_metrics (rl_conns r')).
Proof.
  intros E. destruct mv as [mv|h peer|h up down|h|h|h listed|i ch|i|a e]; cbn [relay_next] in E.
  - destruct (control_moves _ _); [|discriminate E]. unfold control_does in E. destruct (sys_next _ _); [|discriminate E].
    injection E as <-. constructor.
  - destruct (sup_phase h r) as [[]|]; try discriminate E. destruct (rl_jobs r !! h); [discriminate E|]. injection E as <-. constructor.
  - destruct (rl_jobs r !! h) as [[entry peer stage| | |]|]; try discriminate E. destruct stage; cbn [accept_next] in E;
      unfold accept_done, control_does in E; try (injection E as <-; constructor).
    + destruct (over_limits _ _ _ _).
      * destruct (sys_next _ _); [|discriminate E]. injection E as <-. constructor.
      * destruct (_ && _); [|discriminate E]. destruct (admitted _ _ _ _ _ _) as [s k] eqn:Q. injection E as <-.
        unfold admitted in Q. injection Q as _ <-. constructor.
    + destruct (sys_next _ _); [|discriminate E]. injection E as <-. constructor.
  - destruct (sup_phase h r) as [[]|]; try discriminate E. destruct (rl_jobs r !! h); [discriminate E|]. injection E as <-. constructor.
  - destruct (rl_jobs r !! h) as [[]|]; try discriminate E. destruct (forallb _ _); [|discriminate E]. injection E as <-. constructor.
  - destruct (rl_jobs r !! h) as [[| |o stage|]|]; try discriminate E. destruct (rt_supervisors _ !! h); [|discriminate E].
    destruct stage as [|ids|counters [|id ids] stage]; cbn [purge_next] in E; [| |discriminate E|].
    + destruct (lists _ _); [|discriminate E]. injection E as <-. constructor.
    + injection E as <-. constructor.
    + destruct (close_stage _ _ _ _ _) as [[[st|] x]|] eqn:N; [..|discriminate E]; injection E as <-; exact (close_stage_counts _ _ _ _ _ _ _ N).
  - destruct (rl_children r !! i) as [c|]; [|discriminate E]. destruct (child_next ch c r) as [[phase x]|] eqn:N; [|discriminate E].
    injection E as <-. cbn. unfold child_next in N. cbv zeta in N. destruct (ch_phase c), ch; try discriminate N;
      try (destruct (is_cancelled _ _); try discriminate N); try (injection N as <- <-; constructor).
    + destruct streams as [[]|[]]; injection N as <- <-; constructor.
    + destruct (ti_request info); injection N as <- <-; constructor.
    + destruct (close_stage _ _ _ _ _) as [[nx x1]|] eqn:Q; [|discriminate N]. injection N as <- <-. exact (close_stage_counts _ _ _ _ _ _ _ Q).
  - destruct (rl_children r !! i) as [c|]; [|discriminate E]. destruct (_ && _); [|discriminate E]. injection E as <-. constructor.
  - injection E as <-. constructor.
Qed.

(** ** The accounts *)

Definition entry_id (e : ClosedConnection) : Z := sn_id (cl_snapshot e).

Lemma counted_once_nodup l : (forall id, lsum (fun e => ind (entry_id e =? id)) l <= 1) -> NoDup (map entry_id l).
Proof.
  induction l as [|e l IH]; intros H; [constructor|].
  assert (P : forall id, 0 <= lsum (fun e => ind (entry_id e =? id)) l) by (intros; apply lsum_nonneg; intros; apply ind_range).
  assert (L : forall id, lsum (fun e => ind (entry_id e =? id)) l <= 1).
  { intros id. specialize (H id). rewrite lsum_cons in H. pose proof (ind_range (entry_id e =? id)). lia. }
  cbn. constructor; [|by apply IH]. intros M. apply list_elem_of_fmap in M as (e' & Ee & M).
  apply list_elem_of_lookup_1 in M as [i Hi]. specialize (H (entry_id e)). rewrite lsum_cons, Z.eqb_refl in H. cbn [ind] in H.
  pose proof (lsum_elem (fun x => ind (entry_id x =? entry_id e)) l i e' (fun x => proj1 (ind_range _)) Hi) as Q.
  cbn beta in Q. rewrite <- Ee, Z.eqb_refl in Q. cbn [ind] in Q. lia.
Qed.

(** C7: every connection is accounted for.  In every state of every run with
    fewer than [2^64 - 1] moves, over any interleaving of accept paths,
    connection tasks, purges, aborts and control operations: the slots taken
    are those of the connections in the map and of the paths on their way in
    or out; accepted connections are the completed ones, the ones in the map
    and the ones on their way; the map stays within the global limit and the
    history within its own; the outcome classes sum to the completed ones; no
    connection is in the history twice, or in the history and in the map. *)
Theorem connections_are_accounted n seed limits grace rs r :
  0 <= al_global_connections limits -> 0 <= al_history limits -> Z.of_nat n < U64_MAX ->
  nsteps relay_step n (fresh seed limits grace rs) r ->
  let k := rl_conns r in
  let leaving := lsum child_due (rl_children r) in
  cn_active k = open_count k + leaving + msum job_slots (rl_jobs r)
  /\ mc_accepted (cn_metrics k) = mc_completed (cn_metrics k) + open_count k + leaving + msum job_due (rl_jobs r)
  /\ open_count k <= al_global_connections limits
  /\ zlen (cn_history k) <= al_history limits
  /\ zsum (mc_outcomes (cn_metrics k)) = mc_completed (cn_metrics k)
  /\ NoDup (map entry_id (cn_history k))
  /\ forall e, e ∈ cn_history k -> cn_connections k !! entry_id e = None.
Proof.
  intros G Hh Hn R k leaving. pose proof (fresh_steps _ _ _ _ _ _ G Hh Hn R) as [[Ba Bb Bc Bd Be Bo Bl Bf Bh Bk Bi Bp] _ _ _ L]. apply leaked_run in R as [El _].
  unfold limit_ok in L. cbn [books_of bo_slots bo_due bo_holds] in *. fold k in L. change (cn_limits k = limits) in El. rewrite El in *.
  assert (C : forall id, is_open k id + closed_count k id <= 1).
  { intros id. specialize (Bi id). unfold k.
    pose proof (lsum_nonneg (child_holds id) (rl_children r) (child_holds_nonneg id)).
    pose proof (msum_nonneg (job_holds id) (rl_jobs r) (job_holds_nonneg id)). lia. }
  pose proof (msum_nonneg (job_tentative (al_global_connections limits)) (rl_jobs r) (fun j => proj1 (job_tentative_range _ j))).
  fold k in Ba, Bc, Bh, Bo. rewrite El in *. split; [unfold leaving; lia|]. split; [unfold leaving; lia|].
  split; [lia|]. split; [done|]. split; [done|]. split.
  - apply counted_once_nodup. intros id. specialize (C id). pose proof (is_open_range k id). unfold closed_count in C. unfold entry_id. lia.
  - intros e [i He]%list_elem_of_lookup_1. specialize (C (entry_id e)). destruct (cn_connections k !! entry_id e) as [s|] eqn:O; [|done].
    exfalso. unfold is_open in C. rewrite O in C. unfold closed_count in C. change (ind (is_some (Some s))) with 1 in C.
    pose proof (lsum_elem (fun x => ind (entry_id x =? entry_id e)) _ i e (fun x => proj1 (ind_range _)) He) as Q.
    cbn beta in Q. rewrite Z.eqb_refl in Q. cbn [ind] in Q. unfold entry_id in *. lia.
Qed.

(** C21: a supervisor reports its end after the last of its connections.  When
    the flag of a supervisor is raised, every connection it accepted has
    ended or was aborted, and none is left in the map. *)
Theorem flag_rises_after_settling n seed limits grace rs r r' h :
  0 <= al_global_connections limits -> 0 <= al_history limits -> Z.of_nat n < U64_MAX ->
  nsteps relay_step n (fresh seed limits grace rs) r ->
  sup_phase h r = Some SStopping -> relay_next (RmControl (Supervise h SupNext)) r = Some r' ->
  forall i c, rl_children r' !! i = Some c -> ch_supervisor c = h ->
    is_over c = true /\ cn_connections (rl_conns r') !! ch_id c = None.
Proof.
  intros G Hh Hn R Ph E i c Hc Hs. pose proof (settled_run _ _ _ _ _ _ G Hh Hn R) as [S1 S2 S3 S4].
  cbn [relay_next control_moves] in E. rewrite Ph in E.
  destruct (rl_jobs r !! h) as [[]|] eqn:J; try discriminate E. unfold control_does in E.
  destruct (sys_next _ _) as [s|]; [|discriminate E]. injection E as <-. cbn in *. split; [by eapply (S3 h _ i c J)|].
  by destruct (S4 h _ i c [] J eq_refl Hc Hs) as [|[]%elem_of_nil].
Qed.

(** C39: an abort while a connection is being closed takes its slot for good.
    [take_connection] takes the summary out of the map before it awaits the
    evidence; a task aborted at that await never gives its slot back, and the
    purge does not find it.  Such slots stay taken in every later state, and
    once there are as many as the global limit every client is refused. *)
Theorem aborted_closes_leak_their_slots n m seed limits grace rs r r' :
  0 <= al_global_connections limits -> 0 <= al_history limits -> Z.of_nat (n + m) < U64_MAX - 1 ->
  nsteps relay_step n (fresh seed limits grace rs) r -> nsteps relay_step m r r' ->
  open_count (rl_conns r') + leaked r <= cn_active (rl_conns r')
  /\ (al_global_connections limits <= leaked r ->
      forall entry current_proxy, over_limits (rl_conns r') entry (wadd (cn_active (rl_conns r')) 1) current_proxy = true).
Proof.
  intros G Hh Hn R R'. pose proof (leaked_run _ _ _ R') as [_ L]. pose proof (leaked_hold_slots r') as D.
  pose proof (nsteps_trans _ _ _ _ _ R R') as R2. pose proof (leaked_run _ _ _ R2) as [El _]. change (cn_limits (rl_conns r') = limits) in El.
  assert (Hn2 : Z.of_nat (n + m) < U64_MAX) by lia.
  pose proof (fresh_steps _ _ _ _ _ _ G Hh Hn2 R2) as [[Ba Bb Bc Bd Be Bo Bl Bf Bh Bk Bi Bp] _ _ _ _]. cbn [books_of bo_slots] in *.
  pose proof (msum_nonneg job_slots (rl_jobs r') (fun j => proj1 (job_slots_range j))).
  assert (O : 0 <= open_count (rl_conns r')) by (unfold open_count; lia).
  assert (0 <= leaked r) by (apply lsum_nonneg; intros; apply ind_range).
  split; [lia|]. intros Le entry current_proxy. unfold over_limits. rewrite El. apply orb_true_iff. left. apply Z.ltb_lt.
  rewrite wadd_up by (unfold U64_MAX in *; lia). lia.
Qed.

(** C24: a supervisor that left its loop is never stuck.  In every state of every
    run, whatever its connections are doing, there are moves by which its
    children end, the purge takes what they left, and its flag is raised. *)
Theorem stopping_supervisors_finish seed limits grace rs r h :
  rtc relay_step (fresh seed limits grace rs) r -> stopping h r ->
  exists r', rtc relay_step r r' /\ flagged h r'.
Proof.
  intros R [Ph Jb]. pose proof (joining_run _ _ _ _ _ R) as J. unfold sup_phase in Ph.
  destruct (rt_supervisors (control_of r) !! h) as [v|] eqn:Hv; [|discriminate Ph]. injection Ph as Ph.
  assert (E : exists r', rtc relay_step r r' /\ rl_jobs r' !! h = Some Purged /\ rt_supervisors (control_of r') = rt_supervisors (control_of r)).
  { destruct (rl_jobs r !! h) as [[| |o stage|]|] eqn:H; [done|..].
    - eapply joined_ends; [done|exact (J h _ H)|done].
    - eapply purge_ends; [done|exact (J h _ H)|done].
    - by exists r.
    - assert (S : relay_next (RmJoin h) r = Some (set_job h Joining
        (set_rl_children (map (fun c => if is_child_of h c then abort_child c else c) (rl_children r)) r))).
      { cbn [relay_next]. unfold sup_phase. by rewrite Hv, H; cbn; rewrite Ph. }
      pose proof (joining_step _ _ _ (fresh_pool _ _ _ _ _ R) J S) as J1.
      destruct (joined_ends (set_job h Joining
        (set_rl_children (map (fun c => if is_child_of h c then abort_child c else c) (rl_children r)) r)) h v Hv) as (r' & R' & Jr & Es);
        [apply (J1 h); apply lookup_insert_eq|apply lookup_insert_eq|].
      exists r'. split; [eapply rtc_l; [by eexists|exact R']|]. by split. }
  destruct E as (r1 & R1 & J1 & E1). destruct (purged_flags r1 h v) as (r2 & R2 & F); [by rewrite E1|done|done|].
  exists r2. split; [by etrans|done].
Qed.

(** C5: the tables reconcile with the totals.  In every state of every run with
    fewer than [2^64 - 1] moves the per-proxy counts and the overflow bucket
    sum to the totals of accepted and of completed connections, whatever
    names proxies had, and the tables stay within their bounds. *)
Theorem metrics_reconcile n seed limits grace rs r :
  0 <= al_global_connections limits -> 0 <= al_history limits -> Z.of_nat n < U64_MAX ->
  nsteps relay_step n (fresh seed limits grace rs) r ->
  let m := cn_metrics (rl_conns r) in
  total pm_accepted (mc_tables m) = mc_accepted m /\ total pm_completed (mc_tables m) = mc_completed m
  /\ Z.of_nat (size (mt_proxies (mc_tables m))) <= MAX_METRIC_PROXIES
  /\ Z.of_nat (size (mt_activations (mc_tables m))) <= MAX_METRIC_ACTIVATIONS.
Proof.
  intros G Hh Hn R m. assert (M : metrics_ok m); [|by destruct M]. subst m. revert r Hn R. induction n as [|n IH]; intros r Hn R.
  - inversion R; subst. constructor; done.
  - apply nsteps_inv_r in R as (r1 & R & [mv E]). assert (Hn1 : Z.of_nat n < U64_MAX) by lia.
    specialize (IH r1 Hn1 R). pose proof (fresh_steps _ _ _ _ _ _ G Hh Hn1 R) as [[Ba Bb Bc Bd Be Bo Bl Bf Bh Bk Bi Bp] _ _ _ _].
    cbn [books_of bo_slots bo_due] in *. pose proof (msum_nonneg job_due (rl_jobs r1) (fun j => proj1 (job_due_range j))).
    assert (0 <= lsum child_due (rl_children r1)) by (apply lsum_nonneg; intros; apply child_due_range).
    assert (0 <= open_count (rl_conns r1)) by (unfold open_count; lia).
    destruct (relay_counts _ _ _ E); [done|done|apply count_accepted_ok; [lia|lia|done]|apply aggregate_ok; [lia|lia|done]].
Qed.
