(* ===== verification/RelayDemo.v ===== *)
(** * Concrete runs of the connections

    The runs at which the theorems of [RelayRun] are applied, and those in
    which a connection is closed under the wrong name, in the wrong words, or
    not at all. *)

From Stdlib Require Import Bool.
From stdpp Require Import base list gmap strings relations sorting.
From S2P Require Import Prelude Rng Float64 Plan Policy EngineState Stream Schedule Wire Server Tasks Control ControlInv ControlRun ControlDemo Connections Relay RelayInv RelayRun.

(** ** Moves *)

Definition control_runs (l : list (move control_event)) : list RelayMove := map RmControl l.
(** A supervisor enters its select, and a client arrives. *)
Definition arrives (h : nat) : list RelayMove := [RmControl (Supervise h SupNext); RmAccept h (loopback 4000)].
Definition accepts (h : nat) : list RelayMove := arrives h ++ repeat (RmAccepting h (1, 7) (1, 7)) 5.
Definition refuses (h : nat) : list RelayMove := arrives h ++ repeat (RmAccepting h (1, 7) (1, 7)) 3.
(** A task dials, makes its streams and registers them. *)
Definition connects (i : nat) : list RelayMove :=
  [RmChild i ChDialed; RmChild i (ChStreams (Ok (stream_evidence_default, stream_evidence_default))); RmChild i ChGranted].
Definition closes (i : nat) : list RelayMove := repeat (RmChild i ChGranted) 4.
Definition deletes (call : nat) : list RelayMove := control_runs [Call call; Call call].
Definition stops (h : nat) : list RelayMove := [RmControl (Supervise h SupNext); RmJoin h].
Definition purges (h : nat) (listed : list Z) : list RelayMove := RmPurge h listed :: repeat (RmPurge h []) (1 + 4 * length listed).

Definition capped : ProxySpec := {|
  ps_name := "web"; ps_listen := loopback 0; ps_upstream := loopback 8080;
  ps_upstream_faults := plan_empty; ps_downstream_faults := plan_empty;
  ps_upstream_policy := policy_default; ps_downstream_policy := policy_default;
  ps_enabled := true; ps_max_connections := Some 4; ps_connect_timeout := duration_from_millis 5000; ps_seed := 0
|}.
Definition server (limits : AdmissionLimits) (rs : list request) : Relay := fresh 7 limits (5 * NANOS_PER_SEC) rs.
Definition creates (call : nat) (port : Z) : list RelayMove :=
  control_runs [Call call; Call call; Answer call (Bound (loopback port)); Call call; Call call; Call call; Call call].

Lemma relay_run_steps mvs r r' : relay_run mvs r = Some r' -> nsteps relay_step (length mvs) r r'.
Proof.
  revert r. induction mvs as [|mv mvs IH]; cbn; intros r H; [injection H as ->; constructor|].
  destruct (relay_next mv r) as [t|] eqn:N; [|discriminate H]. econstructor; [by exists mv|by apply IH].
Qed.

(** Where a run ends; the runs below all succeed. *)
Definition after (mvs : list RelayMove) (r : Relay) : Relay := default r (relay_run mvs r).
Lemma after_runs mvs r : is_some (relay_run mvs r) = true -> relay_run mvs r = Some (after mvs r).
Proof. unfold after. by destruct (relay_run mvs r). Qed.
Lemma next_runs mv r : is_some (relay_next mv r) = true -> relay_next mv r = Some (default r (relay_next mv r)).
Proof. by destruct (relay_next mv r). Qed.
Lemma after_steps mvs r : is_some (relay_run mvs r) = true -> nsteps relay_step (length mvs) r (after mvs r).
Proof. intros H. by apply relay_run_steps, after_runs. Qed.
Lemma after_reaches mvs r : is_some (relay_run mvs r) = true -> rtc relay_step r (after mvs r).
Proof. intros H. apply rtc_nsteps. eexists. by apply after_steps. Qed.

Definition namesakes : list RelayMove :=
  creates 0 5001 ++ accepts 0 ++ accepts 0
  ++ deletes 1 ++ [RmControl (Supervise 0 SupNext)] ++ creates 2 5002
  ++ [RmJoin 0; RmAborted 0; RmAborted 1; RmJoined 0] ++ purges 0 [1; 2].

Definition renamed : Relay := server admission_default [RqCreate web; RqDelete "web"; RqCreate capped].

(** A purge charges its namesake.  The purge of a deleted proxy looks up
    the counters under the proxy's name; when a proxy of that name was
    created meanwhile, the connections of the old one are taken from the
    slots of the new one.  Its counter wraps, and a proxy with a limit and
    without a single connection refuses the next client. *)
Theorem namesake_purge_breaks_admission : exists r r' e,
  rtc relay_step renamed r
  /\ rt_proxies (control_of r) !! "web"%string = Some e /\ ps_max_connections (mp_spec e) = Some 4
  /\ map ch_supervisor (rl_children r) = [0; 0]%nat /\ forallb is_over (rl_children r) = true
  /\ cn_active (rl_conns r) = 0
  /\ ct_active (counters_at (rl_conns r) (mp_counters e)) = U64_MAX - 1
  /\ relay_run (refuses 1) r = Some r'
  /\ mc_rejected (cn_metrics (rl_conns r')) = mc_rejected (cn_metrics (rl_conns r)) + 1
  /\ ct_active (counters_at (rl_conns r') (mp_counters e)) = U64_MAX - 1.
Proof.
  exists (after namesakes renamed), (after (refuses 1) (after namesakes renamed)).
  eexists. split; [apply after_reaches; by vm_compute|].
  do 6 (split; [vm_compute; reflexivity|]).
  split; [apply after_runs; by vm_compute|].
  split; vm_compute; reflexivity.
Qed.

(** ** Draining *)

Definition drained_by (d : Direction) : TerminationInfo := {| ti_request := Graceful; ti_direction := d; ti_fault_id := None |}.
Definition kept_socket : bool * result unit string := (true, Ok tt).
Definition drains (i : nat) : RelayMove := RmChild i (ChTerminated (drained_by Upstream) no_terms (kept_socket, kept_socket)).
Definition cancels (i : nat) : list RelayMove := RmChild i (ChCancelled no_terms) :: closes i.

Definition two_clients : list RelayMove := creates 0 5001 ++ accepts 0 ++ accepts 0 ++ connects 0 ++ connects 1.
Definition deleted_while_draining : list RelayMove := two_clients ++ drains 1 :: deletes 1 ++ cancels 0 ++ cancels 1.

(** A connection cancelled while it drains loses the reason.  Of two
    connections of a proxy that is deleted, the one that relays is recorded
    as ended by the removal of its proxy, and the one that drains as killed
    by the operator; nobody killed it. *)
Theorem draining_connections_lose_their_reason : exists r,
  rtc relay_step (server admission_default [RqCreate web; RqDelete "web"]) r
  /\ map (fun e => (entry_id e, cl_outcome e)) (cn_history (rl_conns r)) = [(1, ProxyRemoved); (2, KilledByOperator)]
  /\ map ch_scope (rl_children r) = [1; 1]%nat /\ is_cancelled (control_of r) 1 = true.
Proof.
  exists (after deleted_while_draining (server admission_default [RqCreate web; RqDelete "web"])).
  split; [apply after_reaches; by vm_compute|]. split_and!; by vm_compute.
Qed.

(** ** Witnesses *)

Definition one_client : AdmissionLimits := {| al_global_connections := 1; al_history := 2 |}.
Definition removed : Relay := server admission_default [RqCreate web; RqDelete "web"].

Lemma connections_are_accounted_witness : exists r,
  nsteps relay_step (length deleted_while_draining) removed r
  /\ mc_completed (cn_metrics (rl_conns r)) = 2 /\ NoDup (map entry_id (cn_history (rl_conns r))).
Proof.
  exists (after deleted_while_draining removed). split; [apply after_steps; by vm_compute|]. split; [by vm_compute|].
  apply (connections_are_accounted (length deleted_while_draining) 7 admission_default (5 * NANOS_PER_SEC)
    [RqCreate web; RqDelete "web"] (after deleted_while_draining removed)); [by vm_compute|by vm_compute|by vm_compute|].
  apply after_steps. by vm_compute.
Defined.

Definition stopped_and_purged : list RelayMove :=
  two_clients ++ deletes 1 ++ stops 0 ++ [RmAborted 0; RmAborted 1; RmJoined 0] ++ purges 0 [2; 1].

Definition purged_client : Child := {|
  ch_id := 2; ch_supervisor := 0; ch_counters := 0; ch_token := 3; ch_scope := 1; ch_connect_timeout := 5 * NANOS_PER_SEC;
  ch_aborting := true; ch_phase := Aborted InRelay |}.

Lemma flag_rises_after_settling_witness : exists r r' c,
  nsteps relay_step (length stopped_and_purged) removed r /\ relay_next (RmControl (Supervise 0 SupNext)) r = Some r'
  /\ rl_children r' !! 1%nat = Some c /\ is_over c = true /\ cn_connections (rl_conns r') !! ch_id c = None.
Proof.
  pose proof (after_steps stopped_and_purged removed ltac:(by vm_compute)) as R.
  pose proof (next_runs (RmControl (Supervise 0 SupNext)) (after stopped_and_purged removed) ltac:(by vm_compute)) as N.
  exists (after stopped_and_purged removed). eexists. exists purged_client.
  split; [exact R|]. split; [exact N|]. split; [by vm_compute|].
  apply (flag_rises_after_settling (length stopped_and_purged) 7 admission_default (5 * NANOS_PER_SEC) [RqCreate web; RqDelete "web"]
    (after stopped_and_purged removed) _ 0 ltac:(by vm_compute) ltac:(by vm_compute) ltac:(by vm_compute) R ltac:(by vm_compute) N 1);
    by vm_compute.
Defined.

(** A task is aborted at its third await in a close; the proxy is gone and a
    new one finds the only slot taken. *)
Definition leaks : list RelayMove :=
  creates 0 5001 ++ accepts 0 ++ connects 0 ++ deletes 1
  ++ [RmChild 0 (ChCancelled no_terms); RmChild 0 ChGranted; RmChild 0 ChGranted]
  ++ stops 0 ++ [RmAborted 0; RmJoined 0; RmPurge 0 []].
Definition alone : Relay := server one_client [RqCreate web; RqDelete "web"; RqCreate capped].

Lemma aborted_closes_leak_their_slots_witness : exists r r' e,
  nsteps relay_step (length leaks) alone r /\ nsteps relay_step (length (creates 2 5002)) r r'
  /\ rt_proxies (control_of r') !! "web"%string = Some e
  /\ open_count (rl_conns r') = 0 /\ over_limits (rl_conns r') e (wadd (cn_active (rl_conns r')) 1) 1 = true.
Proof.
  exists (after leaks alone), (after (creates 2 5002) (after leaks alone)). eexists.
  split; [apply after_steps; by vm_compute|]. split; [apply after_steps; by vm_compute|]. split; [vm_compute; reflexivity|].
  split; [by vm_compute|].
  apply (aborted_closes_leak_their_slots (length leaks) (length (creates 2 5002)) 7 one_client (5 * NANOS_PER_SEC)
    [RqCreate web; RqDelete "web"; RqCreate capped] (after leaks alone));
    [by vm_compute|by vm_compute|by vm_compute|apply after_steps; by vm_compute|apply after_steps; by vm_compute|by vm_compute].
Defined.

Lemma metrics_reconcile_witness : exists r,
  nsteps relay_step (length deleted_while_draining) removed r
  /\ mc_accepted (cn_metrics (rl_conns r)) = 2 /\ total pm_accepted (mc_tables (cn_metrics (rl_conns r))) = mc_accepted (cn_metrics (rl_conns r)).
Proof.
  exists (after deleted_while_draining removed). split; [apply after_steps; by vm_compute|]. split; [by vm_compute|].
  apply (metrics_reconcile (length deleted_while_draining) 7 admission_default (5 * NANOS_PER_SEC)
    [RqCreate web; RqDelete "web"] (after deleted_while_draining removed)); [by vm_compute|by vm_compute|by vm_compute|].
  apply after_steps. by vm_compute.
Defined.

(** Two clients relay when the supervisor leaves its loop. *)
Definition left_behind : list RelayMove := two_clients ++ deletes 1 ++ [RmControl (Supervise 0 SupNext)].

Lemma stopping_supervisors_finish_witness : exists r,
  rtc relay_step removed r /\ map ch_phase (rl_children r) = [InRelay; InRelay] /\ exists r', rtc relay_step r r' /\ flagged 0 r'.
Proof.
  exists (after left_behind removed). split; [apply after_reaches; by vm_compute|]. split; [by vm_compute|].
  apply (stopping_supervisors_finish 7 admission_default (5 * NANOS_PER_SEC) [RqCreate web; RqDelete "web"]); [apply after_reaches; by vm_compute|].
  by split; vm_compute.
Defined.
