(* ===== verification/Config.v ===== *)
(** * Configuration files and the start of a service
      ([crates/eggchaos-server/src/config.rs], [ServiceBuilder] and
      [EggchaosService] of [runtime/mod.rs], [serve] of the command line)

    A configuration is the document serde builds from the TOML text; what
    follows is the checks of [NativeConfig::parse], the compilation of its
    definitions, and the construction and start of the service they describe. *)

From Stdlib Require Import Bool SpecFloat.
From stdpp Require Import base list gmap strings relations.
From S2P Require Import Prelude Rng Float64 Plan Policy Env DatagramPlan DatagramState Schedule Wire Server Tasks Control UdpState UdpRuntime Service Connections.

(** ** Strings *)

(** [str::strip_suffix] and its prefix counterpart. *)
Definition strip_prefix (p s : string) : option string :=
  if String.prefix p s then Some (String.substring (String.length p) (String.length s - String.length p) s) else None.
Definition strip_suffix (p s : string) : option string :=
  let n := (String.length s - String.length p)%nat in
  if (String.length p <=? String.length s)%nat && bool_decide (String.substring n (String.length p) s = p)
  then Some (String.substring 0 n s) else None.

Definition char_of (b : Z) : Ascii.ascii := Ascii.ascii_of_N (Z.to_N b).
Fixpoint of_bytes (bs : bytes) : string := match bs with [] => EmptyString | b :: bs => String (char_of b) (of_bytes bs) end.

(** The UTF-8 encodings of the characters [char::is_whitespace] accepts. *)
Definition WHITE_SPACE : list string :=
  map of_bytes ([[9]; [10]; [11]; [12]; [13]; [32]; [194; 133]; [194; 160]; [225; 154; 128]]
    ++ map (fun b => [226; 128; b]) (seqZ 128 11) ++ [[226; 128; 168]; [226; 128; 169]; [226; 128; 175]; [226; 129; 159]; [227; 128; 128]]).
Definition first_of {A} (f : A -> option string) (l : list A) : option string :=
  foldr (fun x acc => match f x with Some r => Some r | None => acc end) None l.
(** [str::trim]; a turn removes at least one byte. *)
Fixpoint trim_by (strip : string -> string -> option string) (fuel : nat) (s : string) : string :=
  match fuel with
  | O => s
  | S fuel => match first_of (fun w => strip w s) WHITE_SPACE with Some r => trim_by strip fuel r | None => s end
  end.
Definition trim (s : string) : string :=
  let s := trim_by strip_prefix (String.length s) s in
  trim_by strip_suffix (String.length s) s.

(** [u64::from_str]: an optional [+], then one digit or more. *)
Fixpoint digits_value (acc : Z) (bs : bytes) : option Z :=
  match bs with
  | [] => Some acc
  | b :: bs =>
      if (48 <=? b) && (b <=? 57) then
        let acc := acc * 10 + (b - 48) in
        if acc <=? U64_MAX then digits_value acc bs else None
      else None
  end.
Definition parse_u64 (s : string) : option Z :=
  match as_bytes s with
  | [] => None
  | 43 :: [] => None
  | 43 :: bs => digits_value 0 bs
  | bs => digits_value 0 bs
  end.

(** [str::split_once(' ')]. *)
Fixpoint split_once_space (s : string) : option (string * string) :=
  match s with
  | EmptyString => None
  | String c s =>
      if bool_decide (Ascii.N_of_ascii c = 32%N) then Some (""%string, s)
      else option_map (fun p => (String c (fst p), snd p)) (split_once_space s)
  end.

(** ** Errors *)

Inductive NativeConfigError :=
| ConfigToml (error : string)
| ConfigIo (error : string)
| ConfigVersion (version : Z)
| ConfigField (field message : string).
Definition config_error_display (e : NativeConfigError) : string :=
  match e with
  | ConfigToml error => "invalid TOML: " +:+ error
  | ConfigIo error => "configuration I/O: " +:+ error
  | ConfigVersion version => "unsupported configuration version: " +:+ dec version
  | ConfigField field message => "invalid configuration field " +:+ field +:+ ": " +:+ message
  end.
(** [Display] of the errors of a definition. *)
Definition definition_error_display (e : EggchaosError) : string :=
  match e with InvalidProxy message => "invalid proxy: " +:+ message | InvalidPlan e => validation_error_display e end.

(** ** Durations *)

Definition parse_duration (value : string) : result Duration string :=
  let value := trim value in
  let unit_of :=
    match strip_suffix "ms" value with
    | Some number => Some (number, 1000000)
    | None =>
        match strip_suffix "us" value with
        | Some number => Some (number, 1000)
        | None => option_map (fun number => (number, 1000000000)) (strip_suffix "s" value)
        end
    end in
  match unit_of with
  | None => Err "duration must use ms, us, or s"%string
  | Some (number, multiplier) =>
      match parse_u64 number with
      | None => Err "duration number is invalid"%string
      | Some number => if number * multiplier <=? U64_MAX then Ok (number * multiplier) else Err "duration overflows"%string
      end
  end.

(** ** Documents *)

Record AdminFileConfig := { ad_bind : SocketAddr; ad_public : bool; ad_token : option string }.
Definition default_admin_bind : SocketAddr := SocketV4 2130706433 8475.
Definition admin_file_default : AdminFileConfig := {| ad_bind := default_admin_bind; ad_public := false; ad_token := None |}.

Record FaultFileConfig := {
  ff_id : string;
  ff_direction : Direction;
  ff_type : string;
  ff_probability : f64;
  ff_delay : option string;
  ff_jitter : option string;
  ff_max_buffer_bytes : option Z;
  ff_bytes_per_second : option Z;
  ff_burst_bytes : option Z;
  ff_bytes : option Z;
  ff_average_size : option Z;
  ff_variation : option Z;
  ff_hard_reset : bool;
  ff_loss_rate : option f64;
  ff_correlation : option f64
}.
Record ProxyFileConfig := {
  pf_name : string;
  pf_listen : SocketAddr;
  pf_upstream : SocketAddr;
  pf_connect_timeout_ms : Z;
  pf_seed : Z;
  pf_enabled : bool;
  pf_max_connections : option Z;
  pf_faults : list FaultFileConfig
}.
(** [DatagramProxyFileConfig] has the fields of the request of the API. *)
Record DatagramProxyFileConfig := {
  gf_name : string;
  gf_listen : SocketAddr;
  gf_upstream : SocketAddr;
  gf_max_associations : Z;
  gf_association_idle_timeout_ms : Z;
  gf_max_queued_datagrams : Z;
  gf_max_queued_bytes : Z;
  gf_max_datagram_size : Z;
  gf_seed : Z;
  gf_upstream_faults : list DatagramFaultSpecV1;
  gf_downstream_faults : list DatagramFaultSpecV1
}.
Record NativeConfig := {
  nc_version : Z;
  nc_seed : Z;
  nc_admin : AdminFileConfig;
  nc_runtime : RuntimeConfigV1;
  nc_proxies : list ProxyFileConfig;
  nc_datagram_proxies : list DatagramProxyFileConfig
}.

(** ** Faults *)

Definition field_error {A} (field : string) (r : result A string) : result A NativeConfigError :=
  map_err (ConfigField field) r.
(** The closures [duration] and [to_ns]. *)
Definition duration_of (value : option string) (field : string) : result Duration NativeConfigError :=
  field_error field (match value with Some value => parse_duration value | None => Ok 0 end).
Definition to_ns (value : Duration) (field : string) : result Z NativeConfigError :=
  if value <=? U64_MAX then Ok value else Err (ConfigField field "duration exceeds native v1 nanosecond range").
Definition ns_of (value : option string) (field : string) : result Z NativeConfigError :=
  let? d := duration_of value field in to_ns d field.
Definition given {A} (value : option A) (d : A) : A := match value with Some a => a | None => d end.
Definition required {A} (value : option A) (field message : string) : result A NativeConfigError :=
  match value with Some a => Ok a | None => Err (ConfigField field message) end.

Definition type_is (names : list string) (f : FaultFileConfig) : bool := bool_decide (ff_type f ∈ names).

(** The behaviour a fault entry asks for, as the document of the API. *)
Definition fault_file_kind (f : FaultFileConfig) : result FaultKindV1 NativeConfigError :=
  if type_is ["latency"%string] f then
    let? delay := ns_of (ff_delay f) "fault.delay" in
    let? jitter := ns_of (ff_jitter f) "fault.jitter" in
    Ok (LatencyV1 delay jitter (given (ff_max_buffer_bytes f) NATIVE_DEFAULT_BUFFER_BYTES))
  else if type_is ["bandwidth"%string] f then
    Ok (BandwidthV1 (given (ff_bytes_per_second f) NATIVE_DEFAULT_BANDWIDTH_BYTES_PER_SECOND)
          (given (ff_burst_bytes f) NATIVE_DEFAULT_BANDWIDTH_BURST_BYTES))
  else if type_is ["blackhole"; "timeout"]%string f then
    let? close := try_map (fun value => let? d := field_error "fault.delay" (parse_duration value) in to_ns d "fault.delay") (ff_delay f) in
    Ok (BlackholeV1 close)
  else if type_is ["limit_data"; "limit-data"]%string f then Ok (LimitDataV1 (given (ff_bytes f) NATIVE_DEFAULT_LIMIT_BYTES))
  else if type_is ["slow_close"; "slow-close"]%string f then
    let? delay := ns_of (ff_delay f) "fault.delay" in Ok (SlowCloseV1 delay)
  else if type_is ["slicer"; "slice"]%string f then
    let? delay := ns_of (ff_delay f) "fault.delay" in
    Ok (SliceV1 (given (ff_average_size f) NATIVE_DEFAULT_SLICE_AVERAGE_SIZE) (given (ff_variation f) 0) delay)
  else if type_is ["disconnect"; "reset_peer"]%string f then
    let? after := ns_of (ff_delay f) "fault.delay" in Ok (DisconnectV1 after (ff_hard_reset f))
  else if type_is ["stream-loss"%string] f then
    let? loss_rate := required (ff_loss_rate f) "fault.loss_rate" "loss_rate is required for stream-loss" in
    let? correlation := required (ff_correlation f) "fault.correlation" "correlation is required for stream-loss" in
    Ok (StreamLossV1 loss_rate correlation)
  else Err (ConfigField "fault.type" ("unsupported type " +:+ ff_type f)).

(** The message of [into_core] starts with the name of its field. *)
Definition kind_field_error (message : string) : NativeConfigError :=
  let '(field, detail) := match split_once_space message with Some p => p | None => ("kind"%string, message) end in
  ConfigField ("fault." +:+ field) detail.

Definition fault_file_compile (f : FaultFileConfig) : result FaultSpec NativeConfigError :=
  let? id := field_error "fault.id" (wire_fault_id (ff_id f)) in
  let? probability := field_error "fault.probability" (wire_probability (ff_probability f)) in
  let? kind := fault_file_kind f in
  let? kind := map_err kind_field_error (kind_into_core kind) in
  Ok {| fs_id := id; fs_probability := probability; fs_kind := kind |}.

(** ** Proxies *)

(** The loop over the entries. *)
Fixpoint compile_entries (fs : list FaultFileConfig) (up down : list FaultSpec)
    : result (list FaultSpec * list FaultSpec) NativeConfigError :=
  match fs with
  | [] => Ok (up, down)
  | f :: fs =>
      let? spec := fault_file_compile f in
      match ff_direction f with
      | Upstream => compile_entries fs (up ++ [spec]) down
      | Downstream => compile_entries fs up (down ++ [spec])
      end
  end.

Definition proxy_file_spec (p : ProxyFileConfig) (up down : FaultPlan) : ProxySpec := {|
  ps_name := pf_name p; ps_listen := pf_listen p; ps_upstream := pf_upstream p;
  ps_upstream_faults := up; ps_downstream_faults := down;
  ps_upstream_policy := policy_default; ps_downstream_policy := policy_default;
  ps_enabled := pf_enabled p; ps_max_connections := pf_max_connections p;
  ps_connect_timeout := duration_from_millis (pf_connect_timeout_ms p); ps_seed := pf_seed p |}.

Definition plan_field (faults : list FaultSpec) : result FaultPlan NativeConfigError :=
  map_err (fun e => ConfigField "fault" (validation_error_display e)) (plan_new faults).

Definition proxy_file_compile (p : ProxyFileConfig) : result ProxySpec NativeConfigError :=
  let? faults := compile_entries (pf_faults p) [] [] in
  let? up := plan_field (fst faults) in
  let? down := plan_field (snd faults) in
  let proxy := proxy_file_spec p up down in
  let? _u := map_err (fun e => ConfigField "proxy" (definition_error_display e)) (proxy_spec_validate proxy) in
  Ok proxy.

Definition datagram_file_request (p : DatagramProxyFileConfig) : NativeDatagramProxyRequestV1 := {|
  dr_name := gf_name p; dr_listen := gf_listen p; dr_upstream := gf_upstream p;
  dr_max_associations := gf_max_associations p; dr_association_idle_timeout_ms := gf_association_idle_timeout_ms p;
  dr_max_queued_datagrams := gf_max_queued_datagrams p; dr_max_queued_bytes := gf_max_queued_bytes p;
  dr_max_datagram_size := gf_max_datagram_size p; dr_seed := gf_seed p;
  dr_upstream_faults := gf_upstream_faults p; dr_downstream_faults := gf_downstream_faults p |}.
Definition datagram_field (p : DatagramProxyFileConfig) : string := "datagram_proxies." +:+ gf_name p.
Definition datagram_file_compile (p : DatagramProxyFileConfig) : result DatagramProxySpec NativeConfigError :=
  field_error (datagram_field p) (datagram_request_into_spec (datagram_file_request p)).

(** ** The checks of [NativeConfig::parse] *)

(** [IpAddr::is_loopback]. *)
Definition is_loopback (a : SocketAddr) : bool :=
  match a with SocketV4 ip _ => Z.shiftr ip 24 =? 127 | SocketV6 ip _ _ _ => ip =? 1 end.
(** An admin listener that others can reach without a token. *)
Definition insecure_admin (bind : SocketAddr) (public : bool) (token : option string) : bool :=
  negb (is_loopback bind) && (negb public || match token with Some t => str_len t =? 0 | None => true end).

Definition runtime_admission_limits (c : RuntimeConfigV1) : result AdmissionLimits string :=
  let? _u := runtime_validate c in
  Ok {| al_global_connections := rt_global_connections c; al_history := Wire.rt_history c |}.

(** The two loops over the definitions; [seen] are the names so far. *)
Fixpoint check_proxies (seen : gset string) (ps : list ProxyFileConfig) : result unit NativeConfigError :=
  match ps with
  | [] => Ok tt
  | p :: ps =>
      if bool_decide (pf_name p ∈ seen) then Err (ConfigField "proxy.name" ("duplicate proxy " +:+ pf_name p))
      else let? _p := proxy_file_compile p in check_proxies ({[pf_name p]} ∪ seen) ps
  end.
Definition validate_datagram (p : DatagramProxyFileConfig) (spec : DatagramProxySpec) (global : Z) : result unit NativeConfigError :=
  field_error (datagram_field p) (map_err datagram_error_display (datagram_spec_validate spec global)).
Fixpoint check_datagrams (runtime : DatagramRuntimeConfigV1) (seen : gset string) (ps : list DatagramProxyFileConfig)
    : result unit NativeConfigError :=
  match ps with
  | [] => Ok tt
  | p :: ps =>
      if bool_decide (gf_name p ∈ seen) then Err (ConfigField "datagram_proxies.name" ("duplicate datagram proxy " +:+ gf_name p))
      else
        let? compiled := datagram_file_compile p in
        let? global := field_error "runtime.datagram" (runtime_datagram_limits runtime) in
        let? _u := validate_datagram p compiled (dl_max_associations global) in
        check_datagrams runtime ({[gf_name p]} ∪ seen) ps
  end.

Definition insecure_message : string := "non-loopback admin requires public_admin=true and a non-empty auth_token".
Definition config_check (c : NativeConfig) : result unit NativeConfigError :=
  if negb (nc_version c =? 1) then Err (ConfigVersion (nc_version c))
  else if insecure_admin (ad_bind (nc_admin c)) (ad_public (nc_admin c)) (ad_token (nc_admin c))
  then Err (ConfigField "admin" insecure_message)
  else if 1024 <? zlen (nc_proxies c) then Err (ConfigField "proxy" "too many proxies")
  else if 128 <? zlen (nc_datagram_proxies c) then Err (ConfigField "datagram_proxies" "too many datagram proxies")
  else
    let runtime := nc_runtime c in
    let? _a := field_error "runtime" (runtime_admission_limits runtime) in
    let? _b := field_error "runtime.relay_buffer_bytes" (relay_buffer runtime) in
    let? _g := field_error "runtime.termination_grace_ms" (termination_grace runtime) in
    let? _d := field_error "runtime.datagram" (runtime_datagram_limits (rt_datagram runtime)) in
    if rd_max_proxies (rt_datagram runtime) <? zlen (nc_datagram_proxies c)
    then Err (ConfigField "datagram_proxies" "datagram proxy count exceeds runtime.datagram.max_proxies")
    else
      let? _p := check_proxies ∅ (nc_proxies c) in
      let? _q := check_datagrams (rt_datagram runtime) ∅ (nc_datagram_proxies c) in
      Ok tt.

(** [parse]; [toml] is the TOML parser with the derived [Deserialize]. *)
Definition config_parse (toml : string -> result NativeConfig string) (text : string) : result NativeConfig NativeConfigError :=
  let? config := map_err ConfigToml (toml text) in
  let? _u := config_check config in
  Ok config.

Definition MAX_CONFIG_BYTES : Z := 1048576.
Definition config_too_large : NativeConfigError := ConfigField "config" "config file exceeds the 1 MiB limit".
(** [load]: what the metadata say, then what reading at most one byte more
    than the limit gives. *)
Definition config_load (toml : string -> result NativeConfig string) (metadata : result Z string) (read : Z -> result string string)
    : result NativeConfig NativeConfigError :=
  let? size := map_err ConfigIo metadata in
  if MAX_CONFIG_BYTES <? size then Err config_too_large
  else
    let? text := map_err ConfigIo (read (MAX_CONFIG_BYTES + 1)) in
    if MAX_CONFIG_BYTES <? str_len text then Err config_too_large
    else config_parse toml text.

Definition compile_proxies (c : NativeConfig) : result (list ProxySpec) NativeConfigError :=
  collect proxy_file_compile (nc_proxies c).
Definition compile_datagram_proxies (c : NativeConfig) : result (list DatagramProxySpec) NativeConfigError :=
  let? global := field_error "runtime.datagram" (runtime_datagram_limits (rt_datagram (nc_runtime c))) in
  collect (fun p =>
    let? compiled := datagram_file_compile p in
    let? _u := validate_datagram p compiled (dl_max_associations global) in
    Ok compiled) (nc_datagram_proxies c).

(** ** The service builder *)

(** [half_close] is handed to egress_relay and read by nobody else. *)
Record RuntimeParams := {
  rm_seed : Z;
  rm_limits : AdmissionLimits;
  rm_relay_buffer : Z;
  rm_term_grace : Duration;
  rm_datagram_limits : DatagramRuntimeLimits
}.
Record ServiceBuilder := {
  sb_params : RuntimeParams;
  sb_proxies : list ProxySpec;
  sb_datagram_proxies : list DatagramProxySpec
}.
(** [ServiceBuilder::new]; the methods that follow it set one field each. *)
Definition builder_new (seed : Z) : ServiceBuilder := {|
  sb_params := {| rm_seed := seed; rm_limits := admission_default; rm_relay_buffer := NATIVE_DEFAULT_BUFFER_BYTES;
                  rm_term_grace := duration_from_millis NATIVE_DEFAULT_PROXY_TIMEOUT_MS; rm_datagram_limits := runtime_limits_default |};
  sb_proxies := []; sb_datagram_proxies := [] |}.

(** [EggchaosError], as far as building and starting produce it. *)
Inductive ServiceError :=
| SeDefinition (e : EggchaosError)
| SeDuplicate (name : string)
| SeControl (e : ControlError)
| SeIo (context source : string).

Fixpoint build_names (seen : gset string) (ps : list ProxySpec) : result unit ServiceError :=
  match ps with
  | [] => Ok tt
  | p :: ps =>
      let? _v := map_err SeDefinition (proxy_spec_validate p) in
      if bool_decide (ps_name p ∈ seen) then Err (SeDuplicate (ps_name p)) else build_names ({[ps_name p]} ∪ seen) ps
  end.
Fixpoint build_datagram_names (seen : gset string) (ps : list DatagramProxySpec) : result unit ServiceError :=
  match ps with
  | [] => Ok tt
  | p :: ps => if bool_decide (ds_name p ∈ seen) then Err (SeDuplicate (ds_name p)) else build_datagram_names ({[ds_name p]} ∪ seen) ps
  end.

Definition refuse (message : string) : result unit ServiceError := Err (SeDefinition (InvalidProxy message)).
(** [build]; what it returns is the builder itself, checked. *)
Definition build (b : ServiceBuilder) : result unit ServiceError :=
  let m := sb_params b in
  if 1024 <? zlen (sb_proxies b) then refuse "stream proxy definitions exceed the 1024 proxy limit"
  else
    let? _n := build_names ∅ (sb_proxies b) in
    let? _d := build_datagram_names ∅ (sb_datagram_proxies b) in
    if (al_global_connections (rm_limits m) =? 0) || (MAX_CONNECTION_LIMIT <? al_global_connections (rm_limits m))
       || (MAX_HISTORY_LIMIT <? al_history (rm_limits m))
    then refuse "runtime connection/history limit is outside the supported range"
    else if (MAX_RELAY_BUFFER_BYTES <? rm_relay_buffer m) || (MAX_CONTROL_TIMEOUT_MS <? rm_term_grace m / 1000000)
    then refuse "runtime buffer/grace setting is outside the supported range"
    else
      let? _l := map_err (fun e => SeDefinition (InvalidProxy (datagram_error_display e))) (runtime_limits_validate (rm_datagram_limits m)) in
      if dl_max_proxies (rm_datagram_limits m) <? zlen (sb_datagram_proxies b)
      then refuse "datagram proxy definitions exceed the configured proxy limit"
      else Ok tt.

(** ** Starting ([EggchaosService::start]) *)

(** [create_proxy] for the enabled ones, [import_definition] for the others;
    the first failure returns. *)
Fixpoint start_streams (ps : list ProxySpec) : sproc (result unit ServiceError) :=
  match ps with
  | [] => Ret (Ok tt)
  | p :: ps =>
      do! x := on_control (if ps_enabled p then do! r := Control.create_proxy p in Ret (map_err SeControl (let? _v := r in Ok tt))
                           else do! r := import_definition p in Ret (map_err SeControl (let? _g := r in Ok tt))) in
      match x with Err e => Ret (Err e) | Ok _ => start_streams ps end
  end.
(** A failure shuts the service down first. *)
Fixpoint start_datagrams (ps : list DatagramProxySpec) : sproc (result unit ServiceError) :=
  match ps with
  | [] => Ret (Ok tt)
  | p :: ps =>
      do! x := create_datagram_proxy p in
      match x with
      | Ok _ => start_datagrams ps
      | Err e => do! _u := service_shutdown in Ret (Err (SeIo "starting configured UDP proxy" (control_error_display e)))
      end
  end.
Definition start (b : ServiceBuilder) : sproc (result unit ServiceError) :=
  do! x := start_streams (sb_proxies b) in
  match x with Err e => Ret (Err e) | Ok _ => start_datagrams (sb_datagram_proxies b) end.

(** ** [serve] of the command line, up to the start *)

(** The builder [serve] makes of a configuration. *)
Definition serve_builder (c : NativeConfig) : result ServiceBuilder string :=
  let? proxies := map_err config_error_display (compile_proxies c) in
  let? datagram_proxies := map_err config_error_display (compile_datagram_proxies c) in
  let runtime := nc_runtime c in
  let invalid := fun error => "invalid runtime config: " +:+ error in
  let? limits := map_err invalid (runtime_admission_limits runtime) in
  let? buffer := map_err invalid (relay_buffer runtime) in
  let? grace := map_err invalid (termination_grace runtime) in
  let? datagram_limits := map_err (fun error => "invalid datagram runtime config: " +:+ error) (runtime_datagram_limits (rt_datagram runtime)) in
  Ok {| sb_params := {| rm_seed := nc_seed c; rm_limits := limits; rm_relay_buffer := buffer;
                        rm_term_grace := grace; rm_datagram_limits := datagram_limits |};
        sb_proxies := proxies; sb_datagram_proxies := datagram_proxies |}.

(** ** Lemmas *)

Lemma let_ok {A B E} (r : result A E) (k : A -> result B E) y : (let? x := r in k x) = Ok y -> exists x, r = Ok x /\ k x = Ok y.
Proof. destruct r as [x|e]; [by exists x|done]. Qed.
Lemma map_err_ok {A E F} (f : E -> F) (r : result A E) x : map_err f r = Ok x -> r = Ok x.
Proof. destruct r; cbn; [by intros [= ->]|done]. Qed.
Lemma field_ok {A} field (r : result A string) x : field_error field r = Ok x -> r = Ok x.
Proof. apply map_err_ok. Qed.

(** Take a chain of [let?] apart. *)
Ltac ok_chain H :=
  repeat match type of H with
  | (let? x := _ in _) = Ok _ => let E := fresh "E" in let x := fresh "x" in apply let_ok in H as (x & E & H)
  | (if ?b then Err _ else _) = Ok _ => let E := fresh "C" in destruct b eqn:E; [discriminate H|]
  end.

Lemma proxy_file_compile_ok p spec : proxy_file_compile p = Ok spec ->
  ps_name spec = pf_name p /\ proxy_spec_validate spec = Ok tt.
Proof.
  intros H. unfold proxy_file_compile in H. ok_chain H. apply map_err_ok in E2. injection H as <-. split; [done|]. by destruct x2.
Qed.

Lemma check_proxies_ok ps : forall seen, check_proxies seen ps = Ok tt ->
  exists specs, collect proxy_file_compile ps = Ok specs /\ build_names seen specs = Ok tt /\ map ps_name specs = map pf_name ps.
Proof.
  induction ps as [|p ps IH]; cbn; intros seen H; [by exists []|]. destruct (bool_decide _) eqn:D; [discriminate H|].
  apply let_ok in H as (spec & C & H). apply IH in H as (specs & Cs & B & N). destruct (proxy_file_compile_ok _ _ C) as [En V].
  exists (spec :: specs). rewrite C, Cs. cbn. rewrite V, En, D, N. by split_and!.
Qed.

Lemma datagram_file_compile_name p spec : datagram_file_compile p = Ok spec -> ds_name spec = gf_name p.
Proof.
  intros H. apply field_ok in H. unfold datagram_request_into_spec in H. apply let_ok in H as (parts & P & H). ok_chain H.
  injection H as <-. cbn. apply map_err_ok in E. unfold datagram_spec_new in E. ok_chain E. injection E as <-. cbn.
  unfold request_into_core_parts in P. ok_chain P. by injection P as <-.
Qed.

Lemma check_datagrams_ok runtime global ps : runtime_datagram_limits runtime = Ok global -> forall seen, check_datagrams runtime seen ps = Ok tt ->
  exists specs, collect (fun p => let? compiled := datagram_file_compile p in
      let? _u := validate_datagram p compiled (dl_max_associations global) in Ok compiled) ps = Ok specs
    /\ build_datagram_names seen specs = Ok tt
    /\ Forall (fun s => datagram_spec_validate s (dl_max_associations global) = Ok tt) specs
    /\ map ds_name specs = map gf_name ps.
Proof.
  intros L. induction ps as [|p ps IH]; cbn; intros seen H; [by exists []|]. destruct (bool_decide _) eqn:D; [discriminate H|].
  rewrite L in H. cbn in H. apply let_ok in H as (spec & C & H). apply let_ok in H as ([] & V & H).
  apply IH in H as (specs & Cs & B & F & N). exists (spec :: specs). rewrite C. cbn. rewrite V, Cs. cbn.
  pose proof (datagram_file_compile_name _ _ C) as En. rewrite En, D, N. split_and!; try done. constructor; [|done].
  by apply field_ok, map_err_ok in V.
Qed.

Lemma build_names_unique ps : forall seen, build_names seen ps = Ok tt -> NoDup (map ps_name ps) /\ forall n, n ∈ map ps_name ps -> n ∉ seen.
Proof.
  induction ps as [|p ps IH]; cbn; intros seen H; [split; [constructor|by intros n ?%elem_of_nil]|].
  apply let_ok in H as ([] & _ & H). destruct (bool_decide_reflect (ps_name p ∈ seen)) as [|D]; [discriminate H|].
  apply IH in H as [U S]. split.
  - constructor; [|done]. intros M. by apply (S _ M), elem_of_union_l, elem_of_singleton.
  - intros n [->|M]%elem_of_cons; [done|]. intros M'. by apply (S _ M), elem_of_union_r.
Qed.

Lemma limits_in_range c limits buffer grace :
  runtime_admission_limits c = Ok limits -> relay_buffer c = Ok buffer -> termination_grace c = Ok grace ->
  (al_global_connections limits =? 0) || (MAX_CONNECTION_LIMIT <? al_global_connections limits) || (MAX_HISTORY_LIMIT <? al_history limits) = false
  /\ (MAX_RELAY_BUFFER_BYTES <? buffer) || (MAX_CONTROL_TIMEOUT_MS <? grace / 1000000) = false.
Proof.
  intros A B G. unfold runtime_admission_limits in A. ok_chain A. injection A as <-. unfold runtime_validate in E. ok_chain E.
  unfold relay_buffer, nonzero_or in B. ok_chain B. injection B as <-. unfold termination_grace in G. ok_chain G. injection G as <-.
  cbn. rewrite C, C0. split; [done|]. unfold duration_from_millis. rewrite Z.div_mul by done.
  change MAX_CONTROL_TIMEOUT_MS with MAX_TIMEOUT_MS.
  repeat match goal with E : ?b = false |- context [?b] => rewrite E; cbn end. done.
Qed.
Lemma runtime_datagram_ok c l : runtime_datagram_limits c = Ok l -> runtime_limits_validate l = Ok l /\ dl_max_proxies l = rd_max_proxies c.
Proof.
  intros H. apply map_err_ok in H. pose proof H as H'. unfold runtime_limits_validate in H'. ok_chain H'. injection H' as E. by subst l.
Qed.

(** C31: a configuration that parses builds.  Whatever document passes the
    checks of [parse]: [serve] compiles every definition, the builder accepts
    them with the limits of the document, and the admin listener is not
    refused as insecure; the proxies are those of the document, valid, in
    order and under distinct names. *)
Theorem parsed_configurations_build c : config_check c = Ok tt ->
  exists b, serve_builder c = Ok b /\ build b = Ok tt
    /\ map ps_name (sb_proxies b) = map pf_name (nc_proxies c) /\ NoDup (map ps_name (sb_proxies b))
    /\ map ds_name (sb_datagram_proxies b) = map gf_name (nc_datagram_proxies c)
    /\ Forall (fun s => datagram_spec_validate s (dl_max_associations (rm_datagram_limits (sb_params b))) = Ok tt) (sb_datagram_proxies b)
    /\ insecure_admin (ad_bind (nc_admin c)) (ad_public (nc_admin c)) (ad_token (nc_admin c)) = false.
Proof.
  intros H. unfold config_check in H. cbv zeta in H. ok_chain H. rename x into limits, x0 into buffer, x1 into grace, x2 into datagrams.
  apply field_ok in E, E0, E1, E2. destruct x3, x4.
  destruct (check_proxies_ok _ _ E3) as (specs & Cs & B & N). destruct (check_datagrams_ok _ _ _ E2 _ E4) as (dspecs & Cd & Bd & Fd & Nd).
  unfold serve_builder, compile_proxies, compile_datagram_proxies. rewrite E2, Cs. cbn. rewrite Cd, E, E0, E1. cbn.
  eexists. split; [reflexivity|]. cbn. split; [|by split_and!; try done; [apply build_names_unique in B as [? _]]].
  assert (Lp : zlen specs = zlen (nc_proxies c)) by (unfold zlen; by rewrite <- (length_map ps_name), N, length_map).
  assert (Ld : zlen dspecs = zlen (nc_datagram_proxies c)) by (unfold zlen; by rewrite <- (length_map ds_name), Nd, length_map).
  destruct (limits_in_range _ _ _ _ E E0 E1) as (R1 & R2). destruct (runtime_datagram_ok _ _ E2) as [Vd Em].
  unfold build. cbn. rewrite Lp, C1, B. cbn. rewrite Bd. cbn. rewrite R1, R2, Vd. cbn. by rewrite Em, Ld, C3.
Qed.

(** ** Concrete configurations *)

Definition file_latency : FaultFileConfig := {|
  ff_id := "delay"; ff_direction := Downstream; ff_type := "latency"; ff_probability := f64_one;
  ff_delay := Some "250ms"%string; ff_jitter := None; ff_max_buffer_bytes := None; ff_bytes_per_second := None;
  ff_burst_bytes := None; ff_bytes := None; ff_average_size := None; ff_variation := None; ff_hard_reset := false;
  ff_loss_rate := None; ff_correlation := None |}.
Definition local (port : Z) : SocketAddr := SocketV4 2130706433 port.
Definition file_proxy (name : string) (faults : list FaultFileConfig) : ProxyFileConfig := {|
  pf_name := name; pf_listen := local 0; pf_upstream := local 6379; pf_connect_timeout_ms := NATIVE_DEFAULT_PROXY_TIMEOUT_MS;
  pf_seed := 0; pf_enabled := true; pf_max_connections := None; pf_faults := faults |}.
Definition file_datagram : DatagramProxyFileConfig := {|
  gf_name := "dns"; gf_listen := local 0; gf_upstream := local 5353; gf_max_associations := 256;
  gf_association_idle_timeout_ms := 60000; gf_max_queued_datagrams := 1024; gf_max_queued_bytes := 4 * 1024 * 1024;
  gf_max_datagram_size := 65507; gf_seed := 0;
  gf_upstream_faults := [{| df_id := "loss"; df_probability := f64_one; df_kind := LossV1 |}]; gf_downstream_faults := [] |}.
Definition file_config (proxies : list ProxyFileConfig) : NativeConfig := {|
  nc_version := 1; nc_seed := 42; nc_admin := admin_file_default; nc_runtime := runtime_default;
  nc_proxies := proxies; nc_datagram_proxies := [file_datagram] |}.

(** The repository's own tests of the file format. *)
Example durations : map parse_duration ["250ms"; " 7us "; "+2s"; "s"; "1.5s"; "3m"; "18446744073710s"]%string
  = [Ok 250000000; Ok 7000; Ok 2000000000; Err "duration number is invalid"; Err "duration number is invalid";
     Err "duration must use ms, us, or s"; Err "duration overflows"]%string.
Proof. by vm_compute. Qed.
Example zero_burst : fault_file_compile {|
  ff_id := "rate"; ff_direction := Downstream; ff_type := "bandwidth"; ff_probability := f64_one;
  ff_delay := None; ff_jitter := None; ff_max_buffer_bytes := None; ff_bytes_per_second := Some 1000;
  ff_burst_bytes := Some 0; ff_bytes := None; ff_average_size := None; ff_variation := None; ff_hard_reset := false;
  ff_loss_rate := None; ff_correlation := None |} = Err (ConfigField "fault.burst_bytes" "must be non-zero").
Proof. by vm_compute. Qed.
Example duplicate_names : config_check (file_config [file_proxy "same" []; file_proxy "same" []])
  = Err (ConfigField "proxy.name" "duplicate proxy same").
Proof. by vm_compute. Qed.

Lemma parsed_configurations_build_witness :
  config_check (file_config [file_proxy "redis" [file_latency]; file_proxy "web" []]) = Ok tt
  /\ exists b, serve_builder (file_config [file_proxy "redis" [file_latency]; file_proxy "web" []]) = Ok b /\ build b = Ok tt
    /\ map ps_name (sb_proxies b) = ["redis"; "web"]%string /\ map ds_name (sb_datagram_proxies b) = ["dns"]%string.
Proof.
  split; [by vm_compute|]. destruct (parsed_configurations_build (file_config [file_proxy "redis" [file_latency]; file_proxy "web" []]))
    as (b & S & B & N & _ & D & _); [by vm_compute|].
  exists b. split; [exact S|]. split; [exact B|]. split; [exact N|exact D].
Defined.

(** ** Starts that fail *)

Definition start_moves (answer : BindAnswer) : list (move ServiceEvent) := [Call 0; Call 0; Answer 0 answer; Call 0; Call 0; Call 0; Call 0].
Definition two_proxies : ServiceBuilder := {|
  sb_params := sb_params (builder_new 7);
  sb_proxies := [proxy_spec_new "one" (local 0) (local 80); proxy_spec_new "two" (local 0) (local 80)];
  sb_datagram_proxies := [] |}.
Definition starting (b : ServiceBuilder) : System Service ServiceWait (result unit ServiceError) :=
  {| sys_state := service_new (rm_seed (sb_params b)) (rm_datagram_limits (sb_params b)); sys_calls := [start b] |}.
Definition first_bound : list (move ServiceEvent) :=
  start_moves (Bound (local 5001)) ++ [Event (InControl (SupervisorMoves 0 SupNext)); Call 0; Call 0; Answer 0 (BindError "in use")].

(** A start that fails leaves listeners behind.  When the second stream
    proxy cannot bind, [start] returns the error and no handle; the listener
    of the first is in its accept loop, and nothing was told to stop. *)
Theorem failed_start_leaves_listeners : exists s v entry,
  build two_proxies = Ok tt /\ rtc sys_step (starting two_proxies) s
  /\ sys_calls s = [Ret (Err (SeControl (BindFailed "two" "in use")))]
  /\ rt_supervisors (sx_control (sys_state s)) !! 0%nat = Some v /\ sv_phase v = SSelect entry
  /\ sv_listener v = local 5001 /\ scope_cancelled (sx_control (sys_state s)) v = false
  /\ rt_shutdown_initiated (sx_control (sys_state s)) = false.
Proof.
  exists (end_of first_bound (starting two_proxies)). do 2 eexists. split; [by vm_compute|].
  split; [apply end_of_reaches; by vm_compute|]. split_and!; vm_compute; reflexivity.
Qed.
