(* ===== verification/Metrics.v ===== *)
(** * The text of the metrics ([metrics_text] of [runtime/control.rs])

    A scrape reads counters, tables, live connections, proxies and datagram
    evidence, and writes one line per sample.  A sample here is its metric,
    its labels and its value; [line_text] is its line. *)

From Stdlib Require Import Bool.
From stdpp Require Import base list gmap strings relations sorting.
From S2P Require Import Prelude Rng Float64 Plan Policy Env DatagramPlan DatagramState Schedule Target Wire Server Tasks Control UdpState UdpRuntime Stream Service Connections Relay.

(** ** The node: the service and its connections *)

(** The counters of schedule runs are written by [start_schedule_v2] and
    [append_schedule_v2_event]. *)
Record ScheduleCounters := { sk_runs : Z; sk_events : Z; sk_late_events : Z }.
Record Node := { nd_service : Service; nd_conns : Conns; nd_schedules : ScheduleCounters }.
Definition set_nd_service (s : Service) (n : Node) : Node := {|
  nd_service := s; nd_conns := nd_conns n; nd_schedules := nd_schedules n |}.
Definition set_nd_conns (k : Conns) (n : Node) : Node := {|
  nd_service := nd_service n; nd_conns := k; nd_schedules := nd_schedules n |}.

(** What connections and schedule runs do to their counters happens at any
    time: [Relay] has the steps of the connections. *)
Inductive NodeEvent :=
| InService (e : ServiceEvent)
| InConnections (k : Conns)
| InCounters (x : ScheduleCounters).
Definition node_happens (e : NodeEvent) (n : Node) : option Node :=
  match e with
  | InService e => option_map (fun s => set_nd_service s n) (service_happens e (nd_service n))
  | InConnections k => Some (set_nd_conns k n)
  | InCounters x => Some {| nd_service := nd_service n; nd_conns := nd_conns n; nd_schedules := x |}
  end.
#[export] Instance node_tasks : TaskState Node ServiceWait NodeEvent := {|
  ready n := service_ready (nd_service n); happen := node_happens |}.

Abbreviation nproc := (process Node ServiceWait).
Definition on_service {A} (p : sproc A) : nproc A := embed nd_service set_nd_service (fun w => w) p.

(** ** Lines *)

Definition QUOTE : string := String (Ascii.ascii_of_nat 34) EmptyString.
Definition NEWLINE : string := String (Ascii.ascii_of_nat 10) EmptyString.

Definition Label : Type := string * string.
Inductive Line :=
| Comment (text : string)
| Sample (metric : string) (labels : list Label) (value : Z).

Definition label_text (l : Label) : string := l.1 +:+ "=" +:+ QUOTE +:+ l.2 +:+ QUOTE.
Fixpoint labels_text (ls : list Label) : string :=
  match ls with [] => "" | [l] => label_text l | l :: ls => label_text l +:+ "," +:+ labels_text ls end.
Definition line_text (l : Line) : string :=
  match l with
  | Comment text => text +:+ NEWLINE
  | Sample metric [] value => metric +:+ " " +:+ dec value +:+ NEWLINE
  | Sample metric labels value => metric +:+ "{" +:+ labels_text labels +:+ "} " +:+ dec value +:+ NEWLINE
  end.
Definition text_of (ls : list Line) : string := foldr (fun l text => line_text l +:+ text) EmptyString ls.

Definition described (metric help kind : string) : list Line :=
  [Comment ("# HELP " +:+ metric +:+ " " +:+ help); Comment ("# TYPE " +:+ metric +:+ " " +:+ kind)].
Definition single (metric help kind : string) (value : Z) : list Line := described metric help kind ++ [Sample metric [] value].

(** ** What a scrape reads *)

Record Scrape := {
  sp_generation : Z;
  sp_metrics : MetricsCounters;
  sp_active : Z;
  sp_schedules : ScheduleCounters;
  sp_gauges : list (string * list Z);      (* per proxy, in order: see [gauges_of] *)
  sp_datagrams : list DatagramProxyView;
  sp_associations : list AssociationRecord
}.

(** ** Totals *)

Definition totals (s : Scrape) : list Line :=
  let m := sp_metrics s in
  single "eggchaos_config_generation" "Current configuration generation" "gauge" (sp_generation s)
  ++ single "eggchaos_connections_accepted_total" "Accepted connections" "counter" (mc_accepted m)
  ++ single "eggchaos_connections_completed_total" "Completed connections" "counter" (mc_completed m)
  ++ single "eggchaos_connections_rejected_total" "Rejected connections" "counter" (mc_rejected m)
  ++ single "eggchaos_connections_active" "Active connections" "gauge" (sp_active s)
  ++ zip_with (fun name count => Sample "eggchaos_connection_outcomes_total" [("outcome", name)] count)
       OUTCOME_CLASS_NAMES (mc_outcomes m)
  ++ described "eggchaos_termination_requests_total" "Injected termination requests observed at close" "counter"
  ++ [Sample "eggchaos_termination_requests_total" [("request", "graceful")] (mc_graceful_requests m);
      Sample "eggchaos_termination_requests_total" [("request", "hard_reset")] (mc_hard_reset_requests m)]
  ++ described "eggchaos_reset_results_total" "Abortive-close outcomes at the TCP edge" "counter"
  ++ [Sample "eggchaos_reset_results_total" [("result", "applied")] (mc_reset_applied m);
      Sample "eggchaos_reset_results_total" [("result", "unsupported")] (mc_reset_unsupported m);
      Sample "eggchaos_reset_results_total" [("result", "failed")] (mc_reset_failed m)]
  ++ described "eggchaos_bytes_total" "Bytes by flow across closed connections" "counter"
  ++ [Sample "eggchaos_bytes_total" [("flow", "accepted")] (mc_bytes_accepted m);
      Sample "eggchaos_bytes_total" [("flow", "forwarded")] (mc_bytes_forwarded m);
      Sample "eggchaos_bytes_total" [("flow", "discarded")] (mc_bytes_discarded m)]
  ++ single "eggchaos_policy_transitions_total" "Completed live-policy transitions" "counter" (mc_transitions m)
  ++ single "eggchaos_schedule_v2_runs_total" "V2 schedule runs started" "counter" (sk_runs (sp_schedules s))
  ++ single "eggchaos_schedule_v2_events_total" "V2 schedule events applied" "counter" (sk_events (sp_schedules s))
  ++ single "eggchaos_schedule_v2_late_events_total" "V2 schedule events applied after their deadline" "counter"
       (sk_late_events (sp_schedules s))
  ++ described "eggchaos_stream_loss_chunks_evaluated_total" "Logical stream-loss chunks evaluated" "counter"
  ++ described "eggchaos_stream_loss_chunks_dropped_total" "Logical stream-loss chunks dropped" "counter"
  ++ described "eggchaos_stream_loss_bytes_discarded_total" "Bytes discarded by stream-loss faults" "counter".

(** ** Tables of closed connections *)

Definition per_direction {A} (f : string -> A -> list Line) (both : A * A) : list Line :=
  f "upstream"%string both.1 ++ f "downstream"%string both.2.

Definition stream_loss_samples (proxy : string) (samples : Three * Three) : list Line :=
  per_direction (fun direction '(evaluated, dropped, discarded) =>
    let labels := [("proxy", proxy); ("direction", direction)]%string in
    [Sample "eggchaos_stream_loss_chunks_evaluated_total" labels evaluated;
     Sample "eggchaos_stream_loss_chunks_dropped_total" labels dropped;
     Sample "eggchaos_stream_loss_bytes_discarded_total" labels discarded]) samples.
Definition proxy_counts (proxy : string) (e : PerProxyMetrics) : list Line :=
  [Sample "eggchaos_proxy_connections_accepted_total" [("proxy"%string, proxy)] (pm_accepted e);
   Sample "eggchaos_proxy_connections_completed_total" [("proxy"%string, proxy)] (pm_completed e)].
Definition proxy_bytes (proxy : string) (e : PerProxyMetrics) : list Line :=
  per_direction (fun direction '(accepted, forwarded, discarded) =>
    let labels flow := [("proxy", proxy); ("direction", direction); ("flow", flow)]%string in
    [Sample "eggchaos_proxy_bytes_total" (labels "accepted"%string) accepted;
     Sample "eggchaos_proxy_bytes_total" (labels "forwarded"%string) forwarded;
     Sample "eggchaos_proxy_bytes_total" (labels "discarded"%string) discarded]) (pm_bytes e).
Definition proxy_samples (entry : string * PerProxyMetrics) : list Line :=
  let '(name, e) := entry in
  proxy_counts name e ++ proxy_bytes name e ++ stream_loss_samples name (pm_stream_loss e).

Definition OVERFLOW : string := "_overflow".
Definition overflow_samples (e : PerProxyMetrics) : list Line :=
  if 0 <? wadd (pm_accepted e) (pm_completed e) then proxy_counts OVERFLOW e ++ stream_loss_samples OVERFLOW (pm_stream_loss e) else [].

Definition activation_sample (entry : ActivationKey * Z) : Line :=
  let '((proxy, direction, fault_type), count) := entry in
  Sample "eggchaos_fault_activations_total" [("proxy", proxy); ("direction", direction); ("fault_type", fault_type)]%string count.

Definition name_le {A} (a b : string * A) : Prop := string_le a.1 b.1.
#[local] Instance name_le_dec {A} (a b : string * A) : Decision (name_le a b).
Proof. unfold name_le. apply _. Defined.
Definition by_name {A} (m : gmap string A) : list (string * A) := merge_sort name_le (map_to_list m).
(** The order of the tuples. *)
Definition activation_le (a b : ActivationKey * Z) : Prop :=
  let '((p, d, t), _) := a in
  let '((p', d', t'), _) := b in
  if decide (p = p') then if decide (d = d') then string_le t t' else string_le d d' else string_le p p'.
#[local] Instance activation_le_dec a b : Decision (activation_le a b).
Proof. destruct a as [[[p d] t] c], b as [[[p' d'] t'] c']. unfold activation_le. repeat case_decide; apply _. Defined.
Definition activations_in_order (m : gmap ActivationKey Z) : list (ActivationKey * Z) := merge_sort activation_le (map_to_list m).

Definition tables (t : MetricTables) : list Line :=
  flat_map proxy_samples (by_name (mt_proxies t))
  ++ overflow_samples (mt_overflow_proxy t)
  ++ map activation_sample (activations_in_order (mt_activations t))
  ++ (if 0 <? mt_overflow_activations t then [activation_sample ((OVERFLOW, OVERFLOW, OVERFLOW), mt_overflow_activations t)] else []).

(** ** Live gauges *)

(** One slot of [queued]: what the connections of a proxy still hold in a
    direction. *)
Definition held_bytes (h : StreamEvidence) : Z :=
  sat_sub (sv_bytes_accepted h) (sat_add64 (sv_bytes_forwarded h) (sv_bytes_discarded h)).
Definition queued_bytes (proxy : string) (pick : EvidencePair -> StreamEvidence) (k : Conns) : Z :=
  foldl (fun total s =>
    if decide (sn_proxy s = proxy)
    then match evidence_of k (sn_id s) with Some record => sat_add64 total (held_bytes (pick record)) | None => total end
    else total) 0 (map snd (map_to_list (cn_connections k))).

Definition gauges_of (c : Control) (k : Conns) (entry : string * ManagedProxy) : string * list Z :=
  let '(name, e) := entry in
  (name, [ct_active (counters_at k (mp_counters e));
          generation (load (ps_upstream_policy (mp_spec e))); generation (load (ps_downstream_policy (mp_spec e)));
          queued_bytes name fst k; queued_bytes name snd k]).
Definition gauge_series (proxy : string) : list (string * list Label) :=
  let labels direction := [("proxy", proxy); ("direction", direction)]%string in
  [("eggchaos_proxy_connections_active"%string, [("proxy"%string, proxy)]);
   ("eggchaos_proxy_policy_generation"%string, labels "upstream"%string);
   ("eggchaos_proxy_policy_generation"%string, labels "downstream"%string);
   ("eggchaos_proxy_queue_bytes"%string, labels "upstream"%string);
   ("eggchaos_proxy_queue_bytes"%string, labels "downstream"%string)].
Definition gauges (g : string * list Z) : list Line :=
  zip_with (fun series value => Sample series.1 series.2 value) (gauge_series g.1) g.2.

(** ** Datagrams *)

Definition EVIDENCE_KINDS : list string :=
  ["ingress_datagrams"; "ingress_bytes"; "egress_datagrams"; "egress_bytes"; "configured_loss"; "queue_overflow";
   "duplicated_copies"; "corrupted_candidates"; "queued_datagrams"; "queued_bytes"; "high_water_datagrams"; "high_water_bytes"]%string.
Definition evidence_values (e : DatagramEvidence) : list Z :=
  [d_admitted_datagrams e; d_admitted_bytes e; d_emitted_datagrams e; d_emitted_bytes e; d_configured_loss e; d_queue_overflow e;
   d_duplicated_copies e; d_corrupted_candidates e; d_queued_datagrams e; d_queued_bytes e; d_high_water_datagrams e; d_high_water_bytes e].
Definition add_each : list Z -> list Z -> list Z := zip_with sat_add64.
(** [totals] and [activations], over the associations of a proxy. *)
Definition evidence_totals (es : list DatagramEvidence) : list Z :=
  foldl (fun totals e => add_each totals (evidence_values e)) (replicate 12 0) es.
Definition activation_totals (es : list DatagramEvidence) : list Z :=
  foldl (fun totals e => add_each totals (d_fault_activations e)) (replicate 6 0) es.

Definition described_datagrams : list Line :=
  described "eggchaos_datagram_associations_active" "Active UDP client associations" "gauge"
  ++ described "eggchaos_datagram_evidence" "Current plus retained association evidence; kind labels are fixed" "gauge"
  ++ described "eggchaos_datagram_fault_activations" "Current plus retained datagram fault activations" "gauge"
  ++ described "eggchaos_datagram_proxy_drops" "Proxy-level UDP admission/drop observations" "gauge"
  ++ described "eggchaos_datagram_administrative_discards" "Queued datagrams discarded by operator lifecycle actions" "gauge".
Definition drop_sample (proxy : string) (kind : string) (value : Z) : Line :=
  Sample "eggchaos_datagram_proxy_drops" [("proxy", proxy); ("kind", kind)]%string value.
Definition direction_samples (proxy : string) (direction : string) (es : list DatagramEvidence) : list Line :=
  zip_with (fun kind value => Sample "eggchaos_datagram_evidence" [("proxy", proxy); ("direction", direction); ("kind", kind)]%string value)
    EVIDENCE_KINDS (evidence_totals es)
  ++ zip_with (fun fault_type value => Sample "eggchaos_datagram_fault_activations"
       [("proxy", proxy); ("direction", direction); ("fault_type", fault_type)]%string value)
    DATAGRAM_FAULT_TYPE_NAMES (activation_totals es).
Definition datagram_samples (associations : list AssociationRecord) (v : DatagramProxyView) : list Line :=
  let name := dv_name v in
  let own := List.filter (fun a => bool_decide (ar_proxy a = name)) associations in
  [Sample "eggchaos_datagram_associations_active" [("proxy"%string, name)] (dv_active_associations v);
   drop_sample name "oversize" (dv_oversize_datagrams v);
   drop_sample name "capacity_rejection" (dv_association_capacity_rejections v);
   drop_sample name "ingress_queue_overflow" (dv_ingress_queue_overflow v);
   drop_sample name "association_setup_failure" (dv_association_setup_failures v);
   Sample "eggchaos_datagram_administrative_discards" [("proxy"%string, name)]
     (foldl (fun total a => sat_add64 total (ar_administrative_discards a)) 0 own)]
  ++ direction_samples name "upstream" (map ar_upstream_evidence own)
  ++ direction_samples name "downstream" (map ar_downstream_evidence own).

(** ** The text *)

Definition scrape_lines (s : Scrape) : list Line :=
  totals s
  ++ tables (mc_tables (sp_metrics s))
  ++ flat_map gauges (sp_gauges s)
  ++ described_datagrams
  ++ flat_map (datagram_samples (sp_associations s)) (sp_datagrams s).

(** The counters and tables, then the proxies with their connections, then
    the datagram proxies and their associations. *)
Definition metrics_scrape : nproc Scrape :=
  do! counters := observe (fun n => (rt_generation (sx_control (nd_service n)), cn_metrics (nd_conns n), cn_active (nd_conns n), nd_schedules n)) in
  do! live := observe (fun n => map (gauges_of (sx_control (nd_service n)) (nd_conns n)) (by_name (rt_proxies (sx_control (nd_service n))))) in
  do! views := on_service (on_datagrams proxies) in
  do! associations := on_service (on_datagrams all_associations) in
  let '(generation, metrics, active, schedules) := counters in
  Ret {| sp_generation := generation; sp_metrics := metrics; sp_active := active; sp_schedules := schedules;
         sp_gauges := live; sp_datagrams := views; sp_associations := map av_record associations |}.
Definition metrics_text : nproc string := do! s := metrics_scrape in Ret (text_of (scrape_lines s)).

(** ** Series

    A scrape is ill formed when two samples are of one series. *)

Definition Series : Type := string * list Label.
Definition series (l : Line) : option Series := match l with Comment _ => None | Sample metric labels _ => Some (metric, labels) end.
Definition all_series (ls : list Line) : list Series := omap series ls.

Lemma all_series_app a b : all_series (a ++ b) = all_series a ++ all_series b.
Proof. apply omap_app. Qed.
Lemma all_series_flat {A} (f : A -> list Line) l : all_series (flat_map f l) = flat_map (fun x => all_series (f x)) l.
Proof. induction l as [|x l IH]; cbn; [done|]. by rewrite all_series_app, IH. Qed.
Lemma series_zip {A B} (f : A -> Series) (g : A -> B -> Line) l k : (forall x v, series (g x v) = Some (f x)) ->
  all_series (zip_with g l k) `sublist_of` map f l.
Proof.
  intros E. revert k. induction l as [|x l IH]; intros [|v k]; cbn; try apply sublist_nil_l.
  rewrite E. by apply sublist_skip.
Qed.

(** The series of one proxy: its label in front of a pattern. *)
Definition of_proxy (patterns : list Series) (proxy : string) : list Series :=
  map (fun p => (p.1, ("proxy"%string, proxy) :: p.2)) patterns.
Definition COUNT_PATTERNS : list Series :=
  [("eggchaos_proxy_connections_accepted_total", []); ("eggchaos_proxy_connections_completed_total", [])]%string.
Definition BYTE_PATTERNS : list Series :=
  flat_map (fun direction => map (fun flow => ("eggchaos_proxy_bytes_total", [("direction", direction); ("flow", flow)]))
    ["accepted"; "forwarded"; "discarded"]) ["upstream"; "downstream"]%string.
Definition LOSS_PATTERNS : list Series :=
  flat_map (fun direction => map (fun metric => (metric, [("direction", direction)]))
    ["eggchaos_stream_loss_chunks_evaluated_total"; "eggchaos_stream_loss_chunks_dropped_total"; "eggchaos_stream_loss_bytes_discarded_total"])
    ["upstream"; "downstream"]%string.
Definition PROXY_PATTERNS : list Series := COUNT_PATTERNS ++ BYTE_PATTERNS ++ LOSS_PATTERNS.
Definition GAUGE_PATTERNS : list Series :=
  ("eggchaos_proxy_connections_active"%string, [])
  :: flat_map (fun metric => map (fun direction => (metric, [("direction", direction)])) ["upstream"; "downstream"])
       ["eggchaos_proxy_policy_generation"; "eggchaos_proxy_queue_bytes"]%string.
Definition DIRECTION_PATTERNS (direction : string) : list Series :=
  map (fun kind => ("eggchaos_datagram_evidence", [("direction", direction); ("kind", kind)])%string) EVIDENCE_KINDS
  ++ map (fun fault_type => ("eggchaos_datagram_fault_activations", [("direction", direction); ("fault_type", fault_type)])%string)
       DATAGRAM_FAULT_TYPE_NAMES.
Definition VIEW_PATTERNS : list Series :=
  [("eggchaos_datagram_associations_active", [])]%string
  ++ map (fun kind => ("eggchaos_datagram_proxy_drops", [("kind", kind)])%string)
       ["oversize"; "capacity_rejection"; "ingress_queue_overflow"; "association_setup_failure"]%string
  ++ [("eggchaos_datagram_administrative_discards", [])]%string.
Definition DATAGRAM_PATTERNS : list Series := VIEW_PATTERNS ++ DIRECTION_PATTERNS "upstream" ++ DIRECTION_PATTERNS "downstream".
Definition TOTAL_SERIES : list Series :=
  map (fun metric => (metric, []))
    ["eggchaos_config_generation"; "eggchaos_connections_accepted_total"; "eggchaos_connections_completed_total";
     "eggchaos_connections_rejected_total"; "eggchaos_connections_active"]%string
  ++ map (fun name => ("eggchaos_connection_outcomes_total", [("outcome", name)])) OUTCOME_CLASS_NAMES
  ++ map (fun name => ("eggchaos_termination_requests_total", [("request", name)])) ["graceful"; "hard_reset"]%string
  ++ map (fun name => ("eggchaos_reset_results_total", [("result", name)])) ["applied"; "unsupported"; "failed"]%string
  ++ map (fun name => ("eggchaos_bytes_total", [("flow", name)])) ["accepted"; "forwarded"; "discarded"]%string
  ++ map (fun metric => (metric, []))
    ["eggchaos_policy_transitions_total"; "eggchaos_schedule_v2_runs_total"; "eggchaos_schedule_v2_events_total";
     "eggchaos_schedule_v2_late_events_total"]%string.
Definition activation_series (k : ActivationKey) : Series :=
  let '(proxy, direction, fault_type) := k in
  ("eggchaos_fault_activations_total", [("proxy", proxy); ("direction", direction); ("fault_type", fault_type)])%string.

(** *** What each section writes *)

Lemma totals_series s : all_series (totals s) `sublist_of` TOTAL_SERIES.
Proof.
  unfold totals, TOTAL_SERIES. rewrite !all_series_app. cbn [all_series single described app omap list_omap series map].
  repeat (apply sublist_skip). apply sublist_app; [|done].
  by apply (series_zip (fun name => ("eggchaos_connection_outcomes_total"%string, [("outcome"%string, name)]))).
Qed.
Lemma loss_series proxy x : all_series (stream_loss_samples proxy x) = of_proxy LOSS_PATTERNS proxy.
Proof. by destruct x as [[[? ?] ?] [[? ?] ?]]. Qed.
Lemma proxy_series e : all_series (proxy_samples e) = of_proxy PROXY_PATTERNS e.1.
Proof.
  destruct e as [name e]. unfold proxy_samples. rewrite !all_series_app, loss_series. unfold proxy_bytes.
  by destruct (pm_bytes e) as [[[? ?] ?] [[? ?] ?]].
Qed.
Lemma overflow_series e : all_series (overflow_samples e) `sublist_of` of_proxy PROXY_PATTERNS OVERFLOW.
Proof.
  unfold overflow_samples. case_match; [|apply sublist_nil_l]. rewrite all_series_app, loss_series.
  unfold PROXY_PATTERNS, of_proxy. rewrite !map_app. apply sublist_app; [done|]. by apply sublist_inserts_l.
Qed.
Lemma gauges_series g : all_series (gauges g) `sublist_of` of_proxy GAUGE_PATTERNS g.1.
Proof.
  unfold gauges. etrans; [by apply (series_zip (fun x => x)); intros [] ?|]. done.
Qed.
Lemma direction_series name d es : all_series (direction_samples name d es) `sublist_of` of_proxy (DIRECTION_PATTERNS d) name.
Proof.
  unfold direction_samples, DIRECTION_PATTERNS, of_proxy. rewrite all_series_app, map_app, !map_map.
  apply sublist_app; by apply series_zip.
Qed.
Lemma datagram_series associations v : all_series (datagram_samples associations v) `sublist_of` of_proxy DATAGRAM_PATTERNS (dv_name v).
Proof.
  unfold datagram_samples. rewrite !all_series_app. unfold DATAGRAM_PATTERNS, of_proxy. rewrite !map_app.
  apply sublist_app; [done|]. apply sublist_app; apply direction_series.
Qed.

(** *** No series twice *)

Lemma flat_map_sublist {A B} (f g : A -> list B) l : (forall x, f x `sublist_of` g x) -> flat_map f l `sublist_of` flat_map g l.
Proof. intros H. induction l as [|x l IH]; cbn; [done|]. by apply sublist_app. Qed.
Lemma flat_map_map {A B C} (f : B -> list C) (g : A -> B) l : flat_map f (map g l) = flat_map (fun x => f (g x)) l.
Proof. induction l as [|x l IH]; cbn; [done|]. by rewrite IH. Qed.

(** The canonical list: every series of a scrape, at most once. *)
Definition canonical (proxies gauged datagrams : list string) (activations : list ActivationKey) : list Series :=
  TOTAL_SERIES ++ flat_map (of_proxy PROXY_PATTERNS) proxies ++ map activation_series activations
  ++ flat_map (of_proxy GAUGE_PATTERNS) gauged ++ flat_map (of_proxy DATAGRAM_PATTERNS) datagrams.

Definition table_names (t : MetricTables) : list string := map fst (by_name (mt_proxies t)) ++ [OVERFLOW].
Definition table_activations (t : MetricTables) : list ActivationKey :=
  map fst (activations_in_order (mt_activations t)) ++ [(OVERFLOW, OVERFLOW, OVERFLOW)].

Lemma activation_lines l : all_series (map activation_sample l) = map activation_series (map fst l).
Proof. induction l as [|[[[p d] t] c] l IH]; cbn; [done|]. by f_equal. Qed.
Lemma scrape_series s : all_series (scrape_lines s) `sublist_of`
  canonical (table_names (mc_tables (sp_metrics s))) (map fst (sp_gauges s)) (map dv_name (sp_datagrams s)) (table_activations (mc_tables (sp_metrics s))).
Proof.
  unfold scrape_lines, tables, canonical, table_names, table_activations.
  rewrite !all_series_app, !all_series_flat, flat_map_app, !map_app, !flat_map_map, activation_lines, <- !(assoc_L (++)).
  apply sublist_app; [apply totals_series|]. apply sublist_app; [apply flat_map_sublist; intros e; by rewrite proxy_series|].
  apply sublist_app; [exact (overflow_series _)|]. apply sublist_app; [done|].
  apply sublist_app; [case_match; [done|apply sublist_nil_l]|].
  apply sublist_app; [by apply flat_map_sublist, gauges_series|].
  change (all_series described_datagrams) with (@nil Series). cbn [app]. apply flat_map_sublist, datagram_series.
Qed.

(** The metrics a list of series is of. *)
Definition within (metrics : list string) (l : list Series) : Prop := Forall (fun x => x.1 ∈ metrics) l.
Lemma within_flat metrics patterns l : within metrics patterns -> within metrics (flat_map (of_proxy patterns) l).
Proof.
  intros H. induction l as [|n l IH]; cbn; [constructor|]. apply Forall_app. split; [|done].
  unfold of_proxy. apply Forall_map. by eapply Forall_impl.
Qed.
Lemma nodup_within ms ns a b : within ms a -> within ns b -> NoDup (ms ++ ns) -> NoDup a -> NoDup b -> NoDup (a ++ b).
Proof.
  intros Ha Hb (_ & D & _)%NoDup_app Na Nb. apply NoDup_app. split_and!; [done| |done]. intros x Xa Xb.
  unfold within in Ha, Hb. rewrite Forall_forall in Ha, Hb. by apply (D x.1); [apply Ha|apply Hb].
Qed.
Lemma within_app ms ns a b : within ms a -> within ns b -> within (ms ++ ns) (a ++ b).
Proof.
  intros Ha Hb. apply Forall_app. split; eapply Forall_impl; [exact Ha| |exact Hb|]; cbn; intros; apply elem_of_app; tauto.
Qed.
Lemma of_proxy_elem patterns name x : x ∈ of_proxy patterns name -> exists rest, x.2 = ("proxy"%string, name) :: rest.
Proof. intros (p & -> & _)%list_elem_of_fmap. by exists p.2. Qed.
Lemma nodup_of_proxy patterns l : NoDup patterns -> NoDup l -> NoDup (flat_map (of_proxy patterns) l).
Proof.
  intros P. induction 1 as [|n l N _ IH]; cbn; [constructor|]. apply NoDup_app. split_and!; [| |done].
  - apply NoDup_fmap_2; [|done]. intros [m ls] [m' ls'] [= -> ->]. done.
  - intros x (r & E)%of_proxy_elem M. apply list_elem_of_In, in_flat_map in M as (n' & N' & M).
    apply list_elem_of_In, of_proxy_elem in M as (r' & E'). rewrite E in E'. injection E' as <- _. by apply N, list_elem_of_In.
Qed.

Definition TOTAL_METRICS : list string := remove_dups (map fst TOTAL_SERIES).
Definition PROXY_METRICS : list string := remove_dups (map fst PROXY_PATTERNS).
Definition ACTIVATION_METRICS : list string := ["eggchaos_fault_activations_total"]%string.
Definition GAUGE_METRICS : list string := remove_dups (map fst GAUGE_PATTERNS).
Definition DATAGRAM_METRICS : list string := remove_dups (map fst DATAGRAM_PATTERNS).

Ltac decided := apply (bool_decide_unpack _); by vm_compute.
Lemma patterns_within : within TOTAL_METRICS TOTAL_SERIES /\ within PROXY_METRICS PROXY_PATTERNS
  /\ within GAUGE_METRICS GAUGE_PATTERNS /\ within DATAGRAM_METRICS DATAGRAM_PATTERNS.
Proof. unfold within. split_and!; decided. Qed.
Lemma families_distinct : NoDup (TOTAL_METRICS ++ PROXY_METRICS ++ ACTIVATION_METRICS ++ GAUGE_METRICS ++ DATAGRAM_METRICS).
Proof. decided. Qed.

Lemma nodup_canonical proxies gauged datagrams activations :
  NoDup proxies -> NoDup gauged -> NoDup datagrams -> NoDup activations -> NoDup (canonical proxies gauged datagrams activations).
Proof.
  intros P G D A. destruct patterns_within as (Wt & Wp & Wg & Wd). pose proof families_distinct as F.
  assert (Wa : within ACTIVATION_METRICS (map activation_series activations)).
  { apply Forall_map, Forall_true. intros [[? ?] ?]. by apply list_elem_of_singleton. }
  apply (within_flat _ _ gauged) in Wg. apply (within_flat _ _ datagrams) in Wd. apply (within_flat _ _ proxies) in Wp.
  pose proof (within_app _ _ _ _ Wg Wd) as W1. pose proof (within_app _ _ _ _ Wa W1) as W2. pose proof (within_app _ _ _ _ Wp W2) as W3.
  pose proof F as F1. apply NoDup_app in F1 as (_ & _ & F1). pose proof F1 as F2. apply NoDup_app in F2 as (_ & _ & F2).
  pose proof F2 as F3. apply NoDup_app in F3 as (_ & _ & F3).
  eapply nodup_within; [exact Wt|exact W3|exact F|decided|].
  eapply nodup_within; [exact Wp|exact W2|exact F1|apply nodup_of_proxy; [decided|done]|].
  eapply nodup_within; [exact Wa|exact W1|exact F2| |].
  { apply NoDup_fmap_2; [|done]. by intros [[? ?] ?] [[? ?] ?] [= -> -> ->]. }
  eapply nodup_within; [exact Wg|exact Wd|exact F3|apply nodup_of_proxy; [decided|done]|apply nodup_of_proxy; [decided|done]].
Qed.

(** *** Scrapes *)

(** Proxies appear once each. *)
Record scrape_wf (s : Scrape) : Prop := {
  sw_gauges : NoDup (map fst (sp_gauges s));
  sw_datagrams : NoDup (map dv_name (sp_datagrams s))
}.
(** Nothing is recorded under the name the overflow is shown as. *)
Definition overflow_is_free (t : MetricTables) : Prop :=
  mt_proxies t !! OVERFLOW = None /\ mt_activations t !! (OVERFLOW, OVERFLOW, OVERFLOW) = None.

Lemma nodup_sorted {K A} `{Countable K} (R : relation (K * A)) `{!RelDecision R} (m : gmap K A) : NoDup (map fst (merge_sort R (map_to_list m))).
Proof. rewrite merge_sort_Permutation. apply NoDup_fst_map_to_list. Qed.
Lemma sorted_absent {K A} `{Countable K} (R : relation (K * A)) `{!RelDecision R} (m : gmap K A) k : m !! k = None ->
  NoDup (map fst (merge_sort R (map_to_list m)) ++ [k]).
Proof.
  intros N. apply NoDup_app. split_and!; [apply nodup_sorted| |apply NoDup_singleton].
  intros x Hx ->%list_elem_of_singleton. apply list_elem_of_fmap in Hx as ([k' v] & -> & M). rewrite merge_sort_Permutation in M.
  apply elem_of_map_to_list in M. cbn in N. congruence.
Qed.
Lemma gauged_names c k (m : gmap string ManagedProxy) : map fst (map (gauges_of c k) (by_name m)) = map fst (by_name m).
Proof. rewrite map_map. apply map_ext. by intros []. Qed.

Lemma scrape_series_unique s : scrape_wf s -> overflow_is_free (mc_tables (sp_metrics s)) -> NoDup (all_series (scrape_lines s)).
Proof.
  intros [G D] [P A]. eapply sublist_NoDup; [|apply scrape_series]. apply nodup_canonical; [|done|done|].
  - by apply sorted_absent.
  - by apply sorted_absent.
Qed.

(** Otherwise a series is written twice.  A name every check accepts is the
    name of the overflow: once the table is full, a scrape has two samples
    for it. *)
Definition crowded : MetricTables :=
  foldl (fun t name => record_accept name t) tables_default (map (fun i => "p" +:+ dec i) (seqZ 0 1023) ++ [OVERFLOW; "late"%string]).
Definition scrape_of (t : MetricTables) : Scrape := {|
  sp_generation := 0; sp_active := 0; sp_schedules := {| sk_runs := 0; sk_events := 0; sk_late_events := 0 |};
  sp_metrics := {| mc_accepted := 1025; mc_completed := 0; mc_rejected := 0; mc_outcomes := [0; 0; 0; 0; 0; 0; 0; 0];
    mc_graceful_requests := 0; mc_hard_reset_requests := 0; mc_reset_applied := 0; mc_reset_unsupported := 0; mc_reset_failed := 0;
    mc_bytes_accepted := 0; mc_bytes_forwarded := 0; mc_bytes_discarded := 0; mc_transitions := 0; mc_tables := t |};
  sp_gauges := []; sp_datagrams := []; sp_associations := [] |}.
Definition accepted_series (proxy : string) : Series := ("eggchaos_proxy_connections_accepted_total", [("proxy", proxy)])%string.

Theorem overflow_name_collides : validate_proxy_name OVERFLOW = Ok tt
  /\ length (List.filter (fun x => bool_decide (x = accepted_series OVERFLOW)) (all_series (scrape_lines (scrape_of crowded)))) = 2%nat.
Proof. split; by vm_compute. Qed.
