(* ===== verification/Admin.v ===== *)
(** * The native admin API
      ([admin.rs], [operations.rs] and [native.rs] of
      [crates/eggchaos-server/src], [routes.rs] of [crates/eggchaos-protocol])

    A request is authorised, its path cut and decoded, matched against the
    routes and answered from the service.  What the HTTP server and serde do
    (framing, the size of bodies, JSON) are parameters; a document here is
    the value that is serialised. *)

From Stdlib Require Import Bool.
From stdpp Require Import base list gmap strings relations.
From S2P Require Import Prelude Rng Float64 Plan Policy Env DatagramPlan DatagramState Schedule Fingerprint Target Driver Wire WireSchedule Server Tasks Control UdpState UdpRuntime Stream Scenario Service Connections Relay Config Metrics.

(** ** Documents *)

Record NativeProxyViewV1 := {
  nv_name : string;
  nv_listen : SocketAddr;
  nv_upstream : SocketAddr;
  nv_bound_addr : option SocketAddr;
  nv_running : bool;
  nv_enabled : bool;
  nv_upstream_faults : list NativeFaultViewV1;
  nv_downstream_faults : list NativeFaultViewV1;
  nv_upstream_generation : Z;
  nv_downstream_generation : Z;
  nv_upstream_seed_namespace : Z;
  nv_downstream_seed_namespace : Z;
  nv_max_connections : option Z;
  nv_connect_timeout_ms : Z;
  nv_seed : Z
}.
Definition proxy_view_from (v : ProxyView) : NativeProxyViewV1 := {|
  nv_name := pv_name v; nv_listen := pv_listen v; nv_upstream := pv_upstream v; nv_bound_addr := pv_bound_addr v;
  nv_running := pv_running v; nv_enabled := pv_enabled v;
  nv_upstream_faults := map view_from_core (faults (pv_upstream_faults v));
  nv_downstream_faults := map view_from_core (faults (pv_downstream_faults v));
  nv_upstream_generation := pv_upstream_generation v; nv_downstream_generation := pv_downstream_generation v;
  nv_upstream_seed_namespace := pv_upstream_seed_namespace v; nv_downstream_seed_namespace := pv_downstream_seed_namespace v;
  nv_max_connections := pv_max_connections v; nv_connect_timeout_ms := pv_connect_timeout_ms v; nv_seed := pv_seed v |}.

(** [NativeDatagramProxyViewV1] and [NativeDatagramAssociationViewV1] have the
    fields of the views they are made from, and so have [ScenarioRunV1] and
    the records of the runs. *)
Record DatagramFaultUpsertV1 := { dup_direction : Direction; dup_fault : DatagramFaultSpecV1 }.

Inductive Document :=
| DocError (code message : string)
| DocHealth (generation : Z)
| DocVersion
| DocReset (r : ServiceResetReport)
| DocDeleted (generation : Z)
| DocTerminated (id : Z)
| DocProxies (vs : list NativeProxyViewV1)
| DocProxy (v : NativeProxyViewV1)
| DocProxyApplied (v : NativeProxyViewV1) (generation : Z)
| DocFaults (upstream downstream : list NativeFaultViewV1)
| DocFault (d : Direction) (f : NativeFaultViewV1)
| DocFaultApplied (d : Direction) (f : NativeFaultViewV1) (generation : Z)
| DocDatagramProxies (vs : list DatagramProxyView)
| DocDatagramProxy (v : DatagramProxyView)
| DocDatagramProxyApplied (v : DatagramProxyView) (generation : Z)
| DocDatagramFaults (upstream downstream : list DatagramFaultSpecV1 * Z * Z)
| DocDatagramFault (d : Direction) (f : DatagramFaultSpecV1)
| DocDatagramFaultApplied (d : Direction) (f : DatagramFaultSpecV1) (generation : Z)
| DocAssociations (vs : list DatagramAssociationSnapshot)
| DocAssociation (v : DatagramAssociationSnapshot)
| DocConnections (vs : list ConnectionSnapshot)
| DocConnection (v : ConnectionSnapshot)
| DocHistory (vs : list ClosedConnection)
| DocRun (r : ScenarioRunRecord)
| DocScheduleRun (r : ScheduleRunV2)
| DocValidated (v : ScheduleValidateV2)
| DocCompiled (c : ScheduleCompileV2).

(** ** Requests and answers *)

(** What reading the body fails with. *)
Record BodyError := { be_limit_exceeded : bool; be_message : string }.
(** [hr_authorization] is the first header of that name, when it is text. *)
Record HttpRequest := {
  hr_method : string;
  hr_path : string;
  hr_authorization : option string;
  hr_body : result bytes BodyError
}.
Inductive Content := Json (d : Document) | Text (text : string).
(** [Rejected] is [ServiceError::rejected]. *)
Inductive HttpAnswer := Response (status : Z) (content : Content) | Rejected (status : Z) (message : string).

Definition error_answer (status : Z) (code message : string) : HttpAnswer := Response status (Json (DocError code message)).
Definition control_status (e : ControlError) : Z :=
  match e with
  | ControlNotFound _ => 404
  | ControlConflict _ | BindFailed _ _ => 409
  | ControlInvalid _ => 400
  | RestartFailed _ _ => 500
  end.
Definition control_error_response (e : ControlError) : HttpAnswer :=
  error_answer (control_status e) (control_code e) (control_error_display e).

(** ** The listener ([NativeAdmin::start]) *)

Record AdminConfig := { ac_bind : SocketAddr; ac_public_admin : bool; ac_auth_token : option string }.
Definition refuses_to_start (c : AdminConfig) : bool := insecure_admin (ac_bind c) (ac_public_admin c) (ac_auth_token c).

(** ** Paths *)

(** [path.split('/')]. *)
Fixpoint split_path (s : string) : list string :=
  match s with
  | EmptyString => [EmptyString]
  | String c s =>
      match split_path s with
      | [] => [String c EmptyString]
      | part :: parts => if bool_decide (Ascii.N_of_ascii c = 47%N) then EmptyString :: part :: parts else String c part :: parts
      end
  end.
Definition segments_of (path : string) : list string := List.filter (fun part => negb (bool_decide (part = EmptyString))) (split_path path).

Definition hex_value (byte : Z) : option Z :=
  if (48 <=? byte) && (byte <=? 57) then Some (byte - 48)
  else if (97 <=? byte) && (byte <=? 102) then Some (byte - 97 + 10)
  else if (65 <=? byte) && (byte <=? 70) then Some (byte - 65 + 10)
  else None.
(** The loop of [decode_path_component]. *)
Fixpoint decode_bytes (bs : bytes) : option bytes :=
  match bs with
  | [] => Some []
  | 37 :: bs =>
      match bs with
      | a :: b :: bs =>
          match hex_value a, hex_value b with
          | Some hi, Some lo => option_map (cons (Z.lor (Z.shiftl hi 4) lo)) (decode_bytes bs)
          | _, _ => None
          end
      | _ => None
      end
  | b :: bs => option_map (cons b) (decode_bytes bs)
  end.

(** [String::from_utf8]: the well-formed sequences of bytes. *)
Definition in_range (lo hi b : Z) : bool := (lo <=? b) && (b <=? hi).
Definition continuation : Z -> bool := in_range 128 191.
Fixpoint utf8_valid (bs : bytes) : bool :=
  match bs with
  | [] => true
  | a :: bs =>
      if in_range 0 127 a then utf8_valid bs
      else
        match bs with
        | [] => false
        | b :: bs =>
            if in_range 194 223 a then continuation b && utf8_valid bs
            else
              match bs with
              | [] => false
              | c :: bs =>
                  if in_range 224 239 a then
                    (if a =? 224 then in_range 160 191 b else if a =? 237 then in_range 128 159 b else continuation b)
                    && continuation c && utf8_valid bs
                  else
                    match bs with
                    | [] => false
                    | d :: bs =>
                        in_range 240 244 a
                        && (if a =? 240 then in_range 144 191 b else if a =? 244 then in_range 128 143 b else continuation b)
                        && continuation c && continuation d && utf8_valid bs
                    end
              end
        end
  end.
Definition decode_path_component (input : string) : option string :=
  match decode_bytes (as_bytes input) with
  | Some decoded => if utf8_valid decoded then Some (of_bytes decoded) else None
  | None => None
  end.

(** The identity of a fault is the one segment that is decoded. *)
Definition names_a_fault (segments : list string) : bool :=
  match segments with
  | [a; b; _; c; _] =>
      bool_decide (a = "v1"%string) && (bool_decide (b = "proxies"%string) || bool_decide (b = "datagram-proxies"%string))
      && bool_decide (c = "faults"%string)
  | _ => false
  end.
Definition decoded_segments (segments : list string) : option (list string) :=
  if names_a_fault segments then
    match decode_path_component (nth 4 segments EmptyString) with
    | Some id => Some (<[4%nat := id]> segments)
    | None => None
    end
  else Some segments.

(** [encode_path_component] of the command line, and the path of a fault. *)
Definition unreserved (b : Z) : bool := is_ascii_alphanumeric b || (b =? 45) || (b =? 95) || (b =? 46) || (b =? 126).
Definition hex_digit (n : Z) : Z := if n <? 10 then 48 + n else 55 + n.
Definition encode_byte (b : Z) : bytes := if unreserved b then [b] else [37; hex_digit (b / 16); hex_digit (b mod 16)].
Definition encode_path_component (value : string) : string := of_bytes (flat_map encode_byte (as_bytes value)).
Definition fault_path (collection proxy id : string) : string :=
  "/v1/" +:+ collection +:+ "/" +:+ encode_path_component proxy +:+ "/faults/" +:+ encode_path_component id.

(** ** Routes *)

Inductive Operation :=
| GetHealth | GetVersion | GetMetrics | ResetService
| ListDatagramProxies | CreateDatagramProxy | GetDatagramProxy | PatchDatagramProxy | DeleteDatagramProxy
| ListDatagramFaults | CreateDatagramFault | GetDatagramFault | PatchDatagramFault | DeleteDatagramFault
| ListDatagramAssociations | GetDatagramAssociation | KillDatagramAssociation
| ListProxies | CreateProxy | GetProxy | PatchProxy | DeleteProxy
| ListFaults | CreateFault | GetFault | PatchFault | DeleteFault
| ListConnections | GetConnection | KillConnection
| ListHistory
| ApplyScenario | ValidateScenario | CompileScenario | GetScenarioRun | CancelScenarioRun.

(** A segment of a pattern: itself, or anything, which is bound. *)
Inductive Segment := Lit (s : string) | Var.
Fixpoint match_segments (pattern : list Segment) (segments : list string) : option (list string) :=
  match pattern, segments with
  | [], [] => Some []
  | Lit s :: pattern, x :: segments => if bool_decide (x = s) then match_segments pattern segments else None
  | Var :: pattern, x :: segments => option_map (cons x) (match_segments pattern segments)
  | _, _ => None
  end.
Record Route := { ro_method : string; ro_pattern : list Segment; ro_operation : Operation }.
Definition to (method : string) (pattern : list Segment) (operation : Operation) : Route :=
  {| ro_method := method; ro_pattern := pattern; ro_operation := operation |}.
(** The arms of [route], in their order. *)
Definition ROUTES : list Route :=
  [to "GET" [Lit "v1"; Lit "health"] GetHealth;
   to "GET" [Lit "v1"; Lit "version"] GetVersion;
   to "GET" [Lit "metrics"] GetMetrics;
   to "POST" [Lit "v1"; Lit "reset"] ResetService;
   to "GET" [Lit "v1"; Lit "datagram-proxies"] ListDatagramProxies;
   to "POST" [Lit "v1"; Lit "datagram-proxies"] CreateDatagramProxy;
   to "GET" [Lit "v1"; Lit "datagram-proxies"; Var] GetDatagramProxy;
   to "PATCH" [Lit "v1"; Lit "datagram-proxies"; Var] PatchDatagramProxy;
   to "DELETE" [Lit "v1"; Lit "datagram-proxies"; Var] DeleteDatagramProxy;
   to "GET" [Lit "v1"; Lit "datagram-proxies"; Var; Lit "faults"] ListDatagramFaults;
   to "POST" [Lit "v1"; Lit "datagram-proxies"; Var; Lit "faults"] CreateDatagramFault;
   to "GET" [Lit "v1"; Lit "datagram-proxies"; Var; Lit "faults"; Var] GetDatagramFault;
   to "PATCH" [Lit "v1"; Lit "datagram-proxies"; Var; Lit "faults"; Var] PatchDatagramFault;
   to "DELETE" [Lit "v1"; Lit "datagram-proxies"; Var; Lit "faults"; Var] DeleteDatagramFault;
   to "GET" [Lit "v1"; Lit "datagram-associations"] ListDatagramAssociations;
   to "GET" [Lit "v1"; Lit "datagram-associations"; Var] GetDatagramAssociation;
   to "DELETE" [Lit "v1"; Lit "datagram-associations"; Var] KillDatagramAssociation;
   to "GET" [Lit "v1"; Lit "proxies"] ListProxies;
   to "POST" [Lit "v1"; Lit "proxies"] CreateProxy;
   to "GET" [Lit "v1"; Lit "proxies"; Var] GetProxy;
   to "PATCH" [Lit "v1"; Lit "proxies"; Var] PatchProxy;
   to "DELETE" [Lit "v1"; Lit "proxies"; Var] DeleteProxy;
   to "GET" [Lit "v1"; Lit "proxies"; Var; Lit "faults"] ListFaults;
   to "POST" [Lit "v1"; Lit "proxies"; Var; Lit "faults"] CreateFault;
   to "GET" [Lit "v1"; Lit "proxies"; Var; Lit "faults"; Var] GetFault;
   to "PATCH" [Lit "v1"; Lit "proxies"; Var; Lit "faults"; Var] PatchFault;
   to "DELETE" [Lit "v1"; Lit "proxies"; Var; Lit "faults"; Var] DeleteFault;
   to "GET" [Lit "v1"; Lit "connections"] ListConnections;
   to "GET" [Lit "v1"; Lit "connections"; Var] GetConnection;
   to "DELETE" [Lit "v1"; Lit "connections"; Var] KillConnection;
   to "GET" [Lit "v1"; Lit "history"] ListHistory;
   to "POST" [Lit "v1"; Lit "scenarios"; Lit "apply"] ApplyScenario;
   to "POST" [Lit "v1"; Lit "scenarios"; Lit "validate"] ValidateScenario;
   to "POST" [Lit "v1"; Lit "scenarios"; Lit "compile"] CompileScenario;
   to "GET" [Lit "v1"; Lit "scenarios"; Var] GetScenarioRun;
   to "DELETE" [Lit "v1"; Lit "scenarios"; Var] CancelScenarioRun]%string.

(** The identifiers of the OpenAPI document. *)
Definition operation_id (o : Operation) : string :=
  match o with
  | GetHealth => "getHealth"
  | GetVersion => "getVersion"
  | GetMetrics => "getMetrics"
  | ResetService => "resetService"
  | ListDatagramProxies => "listDatagramProxies"
  | CreateDatagramProxy => "createDatagramProxy"
  | GetDatagramProxy => "getDatagramProxy"
  | PatchDatagramProxy => "patchDatagramProxy"
  | DeleteDatagramProxy => "deleteDatagramProxy"
  | ListDatagramFaults => "listDatagramFaults"
  | CreateDatagramFault => "addDatagramFault"
  | GetDatagramFault => "getDatagramFault"
  | PatchDatagramFault => "patchDatagramFault"
  | DeleteDatagramFault => "deleteDatagramFault"
  | ListDatagramAssociations => "listDatagramAssociations"
  | GetDatagramAssociation => "getDatagramAssociation"
  | KillDatagramAssociation => "killDatagramAssociation"
  | ListProxies => "listProxies"
  | CreateProxy => "createProxy"
  | GetProxy => "getProxy"
  | PatchProxy => "patchProxy"
  | DeleteProxy => "deleteProxy"
  | ListFaults => "listFaults"
  | CreateFault => "addFault"
  | GetFault => "getFault"
  | PatchFault => "patchFault"
  | DeleteFault => "deleteFault"
  | ListConnections => "listConnections"
  | GetConnection => "getConnection"
  | KillConnection => "killConnection"
  | ListHistory => "getHistory"
  | ApplyScenario => "applyScenario"
  | ValidateScenario => "validateSchedule"
  | CompileScenario => "compileSchedule"
  | GetScenarioRun => "getScenario"
  | CancelScenarioRun => "cancelScenario"
  end%string.

Fixpoint first_route (routes : list Route) (method : string) (segments : list string) : option (Operation * list string) :=
  match routes with
  | [] => None
  | r :: routes =>
      match (if bool_decide (ro_method r = method) then match_segments (ro_pattern r) segments else None) with
      | Some vars => Some (ro_operation r, vars)
      | None => first_route routes method segments
      end
  end.
Definition find_route : string -> list string -> option (Operation * list string) := first_route ROUTES.

(** ** The inventory ([routes.rs]) *)

Record NativeOperation := { op_method : string; op_path : string; op_id : string }.
Definition NATIVE_OPERATIONS : list NativeOperation :=
  [{| op_method := "GET"; op_path := "/v1/health"; op_id := "getHealth" |};
   {| op_method := "GET"; op_path := "/v1/version"; op_id := "getVersion" |};
   {| op_method := "GET"; op_path := "/metrics"; op_id := "getMetrics" |};
   {| op_method := "POST"; op_path := "/v1/reset"; op_id := "resetService" |};
   {| op_method := "GET"; op_path := "/v1/proxies"; op_id := "listProxies" |};
   {| op_method := "POST"; op_path := "/v1/proxies"; op_id := "createProxy" |};
   {| op_method := "GET"; op_path := "/v1/proxies/{name}"; op_id := "getProxy" |};
   {| op_method := "PATCH"; op_path := "/v1/proxies/{name}"; op_id := "patchProxy" |};
   {| op_method := "DELETE"; op_path := "/v1/proxies/{name}"; op_id := "deleteProxy" |};
   {| op_method := "GET"; op_path := "/v1/proxies/{name}/faults"; op_id := "listFaults" |};
   {| op_method := "POST"; op_path := "/v1/proxies/{name}/faults"; op_id := "addFault" |};
   {| op_method := "GET"; op_path := "/v1/proxies/{name}/faults/{id}"; op_id := "getFault" |};
   {| op_method := "PATCH"; op_path := "/v1/proxies/{name}/faults/{id}"; op_id := "patchFault" |};
   {| op_method := "DELETE"; op_path := "/v1/proxies/{name}/faults/{id}"; op_id := "deleteFault" |};
   {| op_method := "GET"; op_path := "/v1/connections"; op_id := "listConnections" |};
   {| op_method := "GET"; op_path := "/v1/connections/{id}"; op_id := "getConnection" |};
   {| op_method := "DELETE"; op_path := "/v1/connections/{id}"; op_id := "killConnection" |};
   {| op_method := "GET"; op_path := "/v1/history"; op_id := "getHistory" |};
   {| op_method := "POST"; op_path := "/v1/scenarios/apply"; op_id := "applyScenario" |};
   {| op_method := "POST"; op_path := "/v1/scenarios/validate"; op_id := "validateSchedule" |};
   {| op_method := "POST"; op_path := "/v1/scenarios/compile"; op_id := "compileSchedule" |};
   {| op_method := "GET"; op_path := "/v1/scenarios/{id}"; op_id := "getScenario" |};
   {| op_method := "DELETE"; op_path := "/v1/scenarios/{id}"; op_id := "cancelScenario" |};
   {| op_method := "GET"; op_path := "/v1/datagram-proxies"; op_id := "listDatagramProxies" |};
   {| op_method := "POST"; op_path := "/v1/datagram-proxies"; op_id := "createDatagramProxy" |};
   {| op_method := "GET"; op_path := "/v1/datagram-proxies/{name}"; op_id := "getDatagramProxy" |};
   {| op_method := "PATCH"; op_path := "/v1/datagram-proxies/{name}"; op_id := "patchDatagramProxy" |};
   {| op_method := "DELETE"; op_path := "/v1/datagram-proxies/{name}"; op_id := "deleteDatagramProxy" |};
   {| op_method := "GET"; op_path := "/v1/datagram-proxies/{name}/faults"; op_id := "listDatagramFaults" |};
   {| op_method := "POST"; op_path := "/v1/datagram-proxies/{name}/faults"; op_id := "addDatagramFault" |};
   {| op_method := "GET"; op_path := "/v1/datagram-proxies/{name}/faults/{id}"; op_id := "getDatagramFault" |};
   {| op_method := "PATCH"; op_path := "/v1/datagram-proxies/{name}/faults/{id}"; op_id := "patchDatagramFault" |};
   {| op_method := "DELETE"; op_path := "/v1/datagram-proxies/{name}/faults/{id}"; op_id := "deleteDatagramFault" |};
   {| op_method := "GET"; op_path := "/v1/datagram-associations"; op_id := "listDatagramAssociations" |};
   {| op_method := "GET"; op_path := "/v1/datagram-associations/{id}"; op_id := "getDatagramAssociation" |};
   {| op_method := "DELETE"; op_path := "/v1/datagram-associations/{id}"; op_id := "killDatagramAssociation" |}]%string.

(** [{name}] and [{id}] stand for a segment. *)
Definition template_segment (s : string) : Segment := if String.prefix "{" s then Var else Lit s.
Definition template_of (path : string) : list Segment := map template_segment (segments_of path).

(** ** Operations ([operations.rs]) *)

Definition into_result {A} (r : result A string) : sproc (result A ControlError) := Ret (map_err ControlInvalid r).

Definition apply_proxy_request (r : NativeProxyRequestV1) : sproc (result (NativeProxyViewV1 * Z) ControlError) :=
  do? spec := into_result (proxy_request_into_spec r) in
  do? out := on_control (Control.create_proxy spec) in
  Ret (Ok (proxy_view_from out.1, out.2)).
Definition apply_proxy_patch (name : string) (p : NativeProxyPatchV1) : sproc (result (NativeProxyViewV1 * Z) ControlError) :=
  do? out := on_control (Control.update_proxy name (patch_from_wire p)) in
  Ret (Ok (proxy_view_from out.1, out.2)).
Definition stream_fault_outcome (out : Direction * FaultSpec * Z) : Direction * NativeFaultViewV1 * Z :=
  let '(d, f, g) := out in (d, view_from_core f, g).
Definition apply_stream_fault_upsert (proxy : string) (u : FaultUpsertV1) : sproc (result (Direction * NativeFaultViewV1 * Z) ControlError) :=
  do? u := into_result (fault_upsert_into_runtime u) in
  do? out := on_control (Control.add_fault proxy u) in
  Ret (Ok (stream_fault_outcome out)).
Definition apply_stream_fault_patch (proxy id : string) (p : FaultPatchV1) : sproc (result (Direction * NativeFaultViewV1 * Z) ControlError) :=
  match fp_probability p, fp_kind p with
  | None, None => Ret (Err (ControlInvalid "fault patch must include probability or kind"))
  | _, _ =>
      do? p := into_result (fault_patch_into_runtime p) in
      do? out := on_control (Control.update_fault proxy id p) in
      Ret (Ok (stream_fault_outcome out))
  end.

Definition apply_datagram_proxy_request (r : NativeDatagramProxyRequestV1) : sproc (result (DatagramProxyView * Z) ControlError) :=
  do? spec := into_result (datagram_request_into_spec r) in
  create_datagram_proxy spec.
Definition datagram_update_of (p : NativeDatagramProxyPatchV1) : DatagramProxyUpdate := {|
  du_listen := dp_listen p; du_upstream := dp_upstream p; du_max_associations := dp_max_associations p;
  du_idle_timeout_ms := dp_association_idle_timeout_ms p; du_enabled := dp_enabled p |}.
Definition apply_datagram_proxy_patch (name : string) (p : NativeDatagramProxyPatchV1) : sproc (result (DatagramProxyView * Z) ControlError) :=
  if is_none (dp_enabled p) && is_none (dp_listen p) && is_none (dp_upstream p)
     && is_none (dp_max_associations p) && is_none (dp_association_idle_timeout_ms p)
  then Ret (Err (ControlInvalid "empty datagram proxy patch"))
  else update_datagram_proxy name (datagram_update_of p).
Definition datagram_fault_outcome (out : Direction * DatagramFaultSpec * Z) : Direction * DatagramFaultSpecV1 * Z :=
  let '(d, f, g) := out in (d, dspec_from_core f, g).
Definition datagram_fault_upsert_into_runtime (u : DatagramFaultUpsertV1) : result (Direction * DatagramFaultSpec) string :=
  let? fault := dspec_into_core (dup_fault u) in Ok (dup_direction u, fault).
Definition apply_datagram_fault_upsert (proxy : string) (u : DatagramFaultUpsertV1)
    : sproc (result (Direction * DatagramFaultSpecV1 * Z) ControlError) :=
  do? parts := into_result (datagram_fault_upsert_into_runtime u) in
  do? out := add_datagram_fault proxy parts.1 parts.2 in
  Ret (Ok (datagram_fault_outcome out)).
Definition datagram_fault_patch_into_runtime (p : DatagramFaultPatchV1) : result DatagramFaultPatch string :=
  let? parts := dpatch_into_core_parts p in Ok {| dpt_probability := parts.1; dpt_kind := parts.2 |}.
Definition apply_datagram_fault_patch (proxy id : string) (p : DatagramFaultPatchV1)
    : sproc (result (Direction * DatagramFaultSpecV1 * Z) ControlError) :=
  do? p := into_result (datagram_fault_patch_into_runtime p) in
  do? out := update_datagram_fault proxy id p in
  Ret (Ok (datagram_fault_outcome out)).

(** [Display] of the errors of a schedule. *)
Definition schedule_error_display (e : ScheduleError) : string :=
  match e with
  | UnsupportedVersion version => "unsupported schedule version: " +:+ dec version
  | TooManyCompiledEvents have => "compiled event count exceeds ceiling: have " +:+ dec have +:+ ", ceiling " +:+ dec MAX_COMPILED_EVENTS
  | RepeatOutOfRange got => "repeat count must be in 1..=" +:+ dec MAX_REPEAT_COUNT +:+ " (got " +:+ dec got +:+ ")"
  | TooManyPhases got => "phase count must be at most " +:+ dec MAX_PHASES +:+ " (got " +:+ dec got +:+ ")"
  | TooManyRepeatPhases got => "repeat-block phases must be at most " +:+ dec MAX_PHASES +:+ " (got " +:+ dec got +:+ ")"
  | TooManyPhaseActions got => "phase actions must be at most " +:+ dec MAX_PHASE_ACTIONS +:+ " per phase (got " +:+ dec got +:+ ")"
  | InvalidPhaseName => "phase name must be 1..=128 bytes when provided"
  | OffsetOverflow => "phase offset overflows u64"
  | EmptyPhase => "phase has no actions"
  | EmptySchedule => "schedule has no phases and no repeat phases"
  | InvalidStreamPlan detail => "invalid stream plan: " +:+ detail
  | InvalidDatagramPlan detail => "invalid datagram plan: " +:+ detail
  end.
(** The closure over [EggchaosError]. *)
Definition scenario_control_error (e : ScenarioError) : ControlError :=
  match e with
  | ScenarioControl inner => inner
  | ScenarioSchedule e => ControlInvalid (schedule_error_display e)
  | ScenarioInvalid message => ControlInvalid ("invalid proxy: " +:+ message)
  | ScenarioPlan e => ControlInvalid (validation_error_display e)
  end.

Definition scenario_v1_into_runtime (s : ScenarioV1) : result Scenario string :=
  let? actions := into_core_actions s in
  Ok {| sn_version := sv_version s; Scenario.sn_seed := sv_seed s;
        sn_events := map (fun '(at_ms, action) => {| sn_at_ms := at_ms; sn_action := action |}) actions |}.
Definition apply_scenario_v1 (s : ScenarioV1) : sproc (result ScenarioRunRecord ControlError) :=
  do? scenario := into_result (scenario_v1_into_runtime s) in
  do! r := start_scenario scenario in
  Ret (map_err scenario_control_error r).
Definition apply_scenario_v2_dto (sha256 : bytes -> bytes) (dto : ScenarioScheduleV2Dto) : sproc (result ScheduleRunV2 ControlError) :=
  do? source := into_result (schedule_into_internal dto) in
  do! r := start_schedule_v2 sha256 source in
  Ret (map_err scenario_control_error (let? record := r in Ok (run_from_record record))).
Definition compiled_dto (dto : ScenarioScheduleV2Dto) : result CompiledScenarioV2 ControlError :=
  let? source := map_err ControlInvalid (schedule_into_internal dto) in
  map_err (fun e => ControlInvalid (schedule_error_display e)) (compile_schedule source).
Definition validate_scenario_v2_dto (sha256 : bytes -> bytes) (dto : ScenarioScheduleV2Dto) : result ScheduleValidateV2 ControlError :=
  let? compiled := compiled_dto dto in Ok (validate_from_compiled sha256 compiled).
Definition compile_scenario_v2_dto (sha256 : bytes -> bytes) (dto : ScenarioScheduleV2Dto) : result ScheduleCompileV2 ControlError :=
  let? compiled := compiled_dto dto in Ok (compile_from_compiled sha256 compiled).

Inductive ScenarioRunLookup := LookupV1 (r : ScenarioRunRecord) | LookupV2 (r : ScheduleRunV2).
Definition lookup_run (v1 : sproc (option ScenarioRunRecord)) (v2 : sproc (option ScenarioScheduleRunRecord)) : sproc (option ScenarioRunLookup) :=
  do! found := v1 in
  match found with
  | Some record => Ret (Some (LookupV1 record))
  | None => do! found := v2 in Ret (option_map (fun r => LookupV2 (run_from_record r)) found)
  end.
Definition get_scenario_run (run : Z) : sproc (option ScenarioRunLookup) := lookup_run (get_scenario run) (get_schedule_v2 run).
Definition cancel_scenario_run (run : Z) : sproc (option ScenarioRunLookup) := lookup_run (cancel_scenario run) (cancel_schedule_v2 run).

(** ** Answering *)

(** What a body parses to ([serde_json::from_slice]), and the digest. *)
Class FromJson (A : Type) := from_slice : bytes -> result A string.
Class AdminEnv := {
  digest : bytes -> bytes;
  json_proxy_request :: FromJson NativeProxyRequestV1;
  json_proxy_patch :: FromJson NativeProxyPatchV1;
  json_fault_upsert :: FromJson FaultUpsertV1;
  json_fault_patch :: FromJson FaultPatchV1;
  json_datagram_request :: FromJson NativeDatagramProxyRequestV1;
  json_datagram_patch :: FromJson NativeDatagramProxyPatchV1;
  json_datagram_upsert :: FromJson DatagramFaultUpsertV1;
  json_datagram_fault_patch :: FromJson DatagramFaultPatchV1;
  json_scenario :: FromJson ScenarioV1;
  json_schedule :: FromJson ScenarioScheduleV2Dto;
  json_version : bytes -> option Z   (* the member [version], when it is a [u64] *)
}.

Section Answer.
Context `{env : AdminEnv}.

Inductive RouteOutcome :=
| RoResponse (a : HttpAnswer)
| RoControlError (e : ControlError)
| RoBadJson (error : string)
| RoNotFound.

Definition document (status : Z) (d : Document) : RouteOutcome := RoResponse (Response status (Json d)).
(** [match .. await { Ok(x) => .., Err(error) => ControlError(error) }]. *)
Definition answer {A} (p : sproc (result A ControlError)) (ok : A -> RouteOutcome) : nproc RouteOutcome :=
  do! r := on_service p in
  Ret (match r with Ok a => ok a | Err e => RoControlError e end).
Definition shown {A} (p : sproc A) (show : A -> Document) : nproc RouteOutcome :=
  do! a := on_service p in Ret (document 200 (show a)).
Definition found_or {A} (missing : ControlError) (show : A -> Document) (a : option A) : RouteOutcome :=
  match a with Some a => document 200 (show a) | None => RoControlError missing end.
Definition found {A} (p : sproc (option A)) (missing : ControlError) (show : A -> Document) : nproc RouteOutcome :=
  do! a := on_service p in Ret (found_or missing show a).
(** [parse_json], and what is done with the value. *)
Definition with_json {A} `{FromJson A} (body : bytes) (k : A -> nproc RouteOutcome) : nproc RouteOutcome :=
  match from_slice body with Ok a => k a | Err e => Ret (RoBadJson e) end.
(** [id.parse::<u64>()]. *)
Definition with_id (what id : string) (k : Z -> nproc RouteOutcome) : nproc RouteOutcome :=
  match parse_u64 id with
  | Some id => k id
  | None => Ret (RoControlError (ControlInvalid (what +:+ " id must be an integer")))
  end.
Definition missing_id (what : string) (id : Z) : ControlError := ControlNotFound (what +:+ " " +:+ dec id).
Definition missing_fault (id name : string) : ControlError := ControlNotFound ("fault " +:+ id +:+ " on " +:+ name).
Definition killed (what : string) (id : Z) (p : sproc bool) : nproc RouteOutcome :=
  do! b := on_service p in
  Ret (if (b : bool) then document 200 (DocTerminated id) else RoControlError (missing_id what id)).
Definition run_document (r : ScenarioRunLookup) : Document :=
  match r with LookupV1 r => DocRun r | LookupV2 r => DocScheduleRun r end.

(** [version_of]. *)
Definition version_of (body : bytes) : option Z :=
  match json_version body with Some v => if v <=? 4294967295 then Some v else None | None => None end.

Definition datagram_plan_entry (x : DatagramPlan * Z * Z) : list DatagramFaultSpecV1 * Z * Z :=
  let '(plan, generation, seed) := x in (map dspec_from_core (dp_faults plan), generation, seed).
(** Both directions are read; the first error is the answer. *)
Definition list_datagram_plans (name : string) : nproc RouteOutcome :=
  do! up := on_service (get_datagram_plan name Upstream) in
  do! down := on_service (get_datagram_plan name Downstream) in
  Ret (match up, down with
       | Ok up, Ok down => document 200 (DocDatagramFaults (datagram_plan_entry up) (datagram_plan_entry down))
       | Err e, _ | _, Err e => RoControlError e
       end).
Definition applied_proxy (status : Z) (out : NativeProxyViewV1 * Z) : RouteOutcome := document status (DocProxyApplied out.1 out.2).
Definition applied_datagram_proxy (status : Z) (out : DatagramProxyView * Z) : RouteOutcome :=
  document status (DocDatagramProxyApplied out.1 out.2).
Definition applied_fault (status : Z) (out : Direction * NativeFaultViewV1 * Z) : RouteOutcome :=
  let '(d, f, g) := out in document status (DocFaultApplied d f g).
Definition applied_datagram_fault (status : Z) (out : Direction * DatagramFaultSpecV1 * Z) : RouteOutcome :=
  let '(d, f, g) := out in document status (DocDatagramFaultApplied d f g).
Definition deleted (g : Z) : RouteOutcome := document 200 (DocDeleted g).

Definition serve_service (operation : Operation) (body : bytes) : nproc RouteOutcome :=
  match operation with
  | GetHealth => shown (on_control generation_now) DocHealth
  | GetVersion => Ret (document 200 DocVersion)
  | GetMetrics => do! text := metrics_text in Ret (RoResponse (Response 200 (Text text)))
  | ResetService => answer service_reset (fun r => document 200 (DocReset r))
  | ListDatagramProxies => shown (on_datagrams proxies) DocDatagramProxies
  | CreateDatagramProxy => with_json body (fun r => answer (apply_datagram_proxy_request r) (applied_datagram_proxy 201))
  | ListDatagramAssociations => shown (on_datagrams associations) DocAssociations
  | ListProxies => shown (on_control (observe list_views)) (fun vs => DocProxies (map proxy_view_from vs))
  | CreateProxy => with_json body (fun r => answer (apply_proxy_request r) (applied_proxy 201))
  | ListConnections => do! vs := observe (fun n => connections (nd_conns n)) in Ret (document 200 (DocConnections vs))
  | ListHistory => do! vs := observe (fun n => history (nd_conns n)) in Ret (document 200 (DocHistory vs))
  | ApplyScenario =>
      match version_of body with
      | Some 2 => with_json body (fun dto => answer (apply_scenario_v2_dto digest dto) (fun r => document 202 (DocScheduleRun r)))
      | _ => with_json body (fun scenario => answer (apply_scenario_v1 scenario) (fun r => document 202 (DocRun r)))
      end
  | ValidateScenario => with_json body (fun dto => answer (Ret (validate_scenario_v2_dto digest dto)) (fun v => document 200 (DocValidated v)))
  | CompileScenario => with_json body (fun dto => answer (Ret (compile_scenario_v2_dto digest dto)) (fun c => document 200 (DocCompiled c)))
  | _ => Ret RoNotFound
  end.
(** The routes with one variable. *)
Definition serve_named (operation : Operation) (name : string) (body : bytes) : nproc RouteOutcome :=
  match operation with
  | GetDatagramProxy => found (on_datagrams (UdpRuntime.proxy name)) (ControlNotFound name) DocDatagramProxy
  | PatchDatagramProxy => with_json body (fun p => answer (apply_datagram_proxy_patch name p) (applied_datagram_proxy 200))
  | DeleteDatagramProxy => answer (delete_datagram_proxy name) deleted
  | ListDatagramFaults => list_datagram_plans name
  | CreateDatagramFault => with_json body (fun u => answer (apply_datagram_fault_upsert name u) (applied_datagram_fault 201))
  | GetDatagramAssociation =>
      with_id "datagram association" name (fun id => found (on_datagrams (association id)) (missing_id "datagram association" id) DocAssociation)
  | KillDatagramAssociation =>
      with_id "datagram association" name (fun id => killed "datagram association" id (on_datagrams (kill_association id)))
  | GetProxy => found (on_control (Control.get name)) (ControlNotFound name) (fun v => DocProxy (proxy_view_from v))
  | PatchProxy => with_json body (fun p => answer (apply_proxy_patch name p) (applied_proxy 200))
  | DeleteProxy => answer (on_control (Control.delete_proxy name)) deleted
  | ListFaults =>
      found (on_control (Control.list_faults name)) (ControlNotFound name)
        (fun '(up, down) => DocFaults (map view_from_core up) (map view_from_core down))
  | CreateFault => with_json body (fun u => answer (apply_stream_fault_upsert name u) (applied_fault 201))
  | GetConnection =>
      with_id "connection" name (fun id =>
        do! s := observe (fun n => get_connection id (nd_conns n)) in
        Ret (found_or (missing_id "connection" id) DocConnection s))
  | KillConnection => with_id "connection" name (fun id => killed "connection" id (on_control (kill id)))
  | GetScenarioRun => with_id "scenario run" name (fun id => found (get_scenario_run id) (missing_id "scenario run" id) run_document)
  | CancelScenarioRun => with_id "scenario run" name (fun id => found (cancel_scenario_run id) (missing_id "scenario run" id) run_document)
  | _ => Ret RoNotFound
  end.
(** The routes of a fault. *)
Definition serve_fault (operation : Operation) (name id : string) (body : bytes) : nproc RouteOutcome :=
  match operation with
  | GetDatagramFault =>
      found (get_datagram_fault name id) (missing_fault id name) (fun '(d, f) => DocDatagramFault d (dspec_from_core f))
  | PatchDatagramFault => with_json body (fun p => answer (apply_datagram_fault_patch name id p) (applied_datagram_fault 200))
  | DeleteDatagramFault => answer (remove_datagram_fault name id) (fun '(_, g) => deleted g)
  | GetFault => found (on_control (Control.get_fault name id)) (missing_fault id name) (fun '(d, f) => DocFault d (view_from_core f))
  | PatchFault => with_json body (fun p => answer (apply_stream_fault_patch name id p) (applied_fault 200))
  | DeleteFault => answer (on_control (Control.remove_fault name id)) deleted
  | _ => Ret RoNotFound
  end.
(** [route]. *)
Definition route (method : string) (segments : list string) (body : bytes) : nproc RouteOutcome :=
  match find_route method segments with
  | Some (operation, []) => serve_service operation body
  | Some (operation, [name]) => serve_named operation name body
  | Some (operation, [name; id]) => serve_fault operation name id body
  | _ => Ret RoNotFound
  end.

(** [constant_time_equal]. *)
Definition constant_time_equal (left right : bytes) : bool :=
  foldl (fun diff '(a, b) => Z.lor diff (Z.lxor a b)) 0 (zip (digest left) (digest right)) =? 0.
(** What passes the listener when it has a token. *)
Definition authorized (auth : option string) (r : HttpRequest) : bool :=
  match auth with
  | None => true
  | Some expected =>
      match hr_authorization r with
      | Some value =>
          match strip_prefix "Bearer " value with
          | Some token => negb (str_len expected =? 0) && constant_time_equal (as_bytes token) (as_bytes expected)
          | None => false
          end
      | None => false
      end
  end.

Definition outcome_answer (o : RouteOutcome) : HttpAnswer :=
  match o with
  | RoResponse a => a
  | RoControlError e => control_error_response e
  | RoBadJson error => error_answer 400 "invalid_json" error
  | RoNotFound => error_answer 404 "not_found" "route not found"
  end.
Definition unauthorized : HttpAnswer := error_answer 403 "unauthorized" "authorization required".
Definition handle_request (auth : option string) (r : HttpRequest) : nproc HttpAnswer :=
  if negb (authorized auth r) then Ret unauthorized
  else
    match hr_body r with
    | Err e => Ret (Rejected (if be_limit_exceeded e then 413 else 400) (be_message e))
    | Ok body =>
        match decoded_segments (segments_of (hr_path r)) with
        | None => Ret (error_answer 400 "invalid" "invalid path component")
        | Some segments => do! o := route (hr_method r) segments body in Ret (outcome_answer o)
        end
    end.
End Answer.

(** ** A node under requests *)

Inductive NodeRequest := NqHttp (auth : option string) (r : HttpRequest) | NqService (r : service_request).
Inductive NodeResponse := NsHttp (a : HttpAnswer) | NsService (r : service_response).
Definition node_call `{env : AdminEnv} (r : NodeRequest) : nproc NodeResponse :=
  match r with
  | NqHttp auth r => do! a := handle_request auth r in Ret (NsHttp a)
  | NqService r => do! x := on_service (service_call digest r) in Ret (NsService x)
  end.
Definition node_new (seed : Z) (limits : DatagramRuntimeLimits) (admission : AdmissionLimits) (term_grace : Duration) : Node := {|
  nd_service := service_new seed limits; nd_conns := conns_new admission term_grace;
  nd_schedules := {| sk_runs := 0; sk_events := 0; sk_late_events := 0 |} |}.
Definition node_initial `{env : AdminEnv} (n : Node) (rs : list NodeRequest) : System Node ServiceWait NodeResponse :=
  {| sys_state := n; sys_calls := map node_call rs |}.
