(* ===== verification/AdminRun.v ===== *)
(** * The native admin API: theorems

    Routing against the inventory, paths of faults, the token of the
    listener, what a created fault is read back as, and what holds while any
    requests interleave with everything else the service does. *)

From Stdlib Require Import Bool.
From stdpp Require Import base list gmap strings relations sorting.
From S2P Require Import Prelude Rng Float64 Plan Policy Env DatagramPlan DatagramState Schedule Fingerprint Target Driver Wire WireSchedule WireProps Server Tasks Control ControlInv ControlSafe ControlRun ControlSpec UdpState UdpRuntime UdpOwn UdpInv UdpSteps UdpSafe UdpRun Stream Scenario Service ServiceProps ServiceTarget Connections Relay Config Metrics Admin.

(** ** Routes *)

(** The rows of both tables in one form. *)
Definition Row : Type := string * list Segment * string.
#[export] Instance Segment_eq_dec : EqDecision Segment.
Proof. solve_decision. Defined.
Definition route_row (r : Route) : Row := (ro_method r, ro_pattern r, operation_id (ro_operation r)).
Definition operation_row (o : NativeOperation) : Row := (op_method o, template_of (op_path o), op_id o).
Definition row_matches (method : string) (segments : list string) (r : Row) : bool :=
  bool_decide (r.1.1 = method) && is_some (match_segments r.1.2 segments).
(** An operation of the inventory is meant by a request. *)
Definition op_matches (method : string) (segments : list string) (o : NativeOperation) : bool :=
  bool_decide (op_method o = method) && is_some (match_segments (template_of (op_path o)) segments).

(** No request matches two rows. *)
Fixpoint apart (p q : list Segment) : bool :=
  match p, q with
  | [], [] => false
  | Lit a :: p, Lit b :: q => negb (bool_decide (a = b)) || apart p q
  | _ :: p, _ :: q => apart p q
  | _, _ => true
  end.
Fixpoint all_apart (rows : list Row) : bool :=
  match rows with
  | [] => true
  | r :: rows => forallb (fun q => negb (bool_decide (r.1.1 = q.1.1)) || apart r.1.2 q.1.2) rows && all_apart rows
  end.

Lemma apart_sound p : forall q segments, apart p q = true -> is_some (match_segments p segments) = true -> is_some (match_segments q segments) = false.
Proof.
  induction p as [|x p IH]; intros [|y q] [|s segments] A M; cbn in *; try done; try (by destruct x); try (by destruct y).
  destruct x as [a|], y as [b|]; cbn in *.
  - destruct (bool_decide_reflect (s = a)) as [->|]; [|done]. destruct (bool_decide_reflect (a = b)) as [->|N]; cbn in A; [by apply IH|done].
  - destruct (bool_decide_reflect (s = a)) as [->|]; [|done]. specialize (IH q segments A M). by destruct (match_segments q segments).
  - destruct (bool_decide_reflect (s = b)) as [->|]; [|done]. apply IH; [done|]. by destruct (match_segments p segments).
  - assert (M' : is_some (match_segments p segments) = true) by (by destruct (match_segments p segments)).
    specialize (IH q segments A M'). by destruct (match_segments q segments).
Qed.

Lemma matches_once rows method segments : all_apart rows = true -> forall r, r ∈ rows -> row_matches method segments r = true ->
  List.find (row_matches method segments) rows = Some r /\ List.filter (row_matches method segments) rows = [r].
Proof.
  induction rows as [|q rows IH]; intros A r Hr M; [by apply not_elem_of_nil in Hr|]. cbn in A. apply andb_true_iff in A as [A1 A2].
  assert (D : forall x, x ∈ rows -> row_matches method segments q = true -> row_matches method segments x = false).
  { intros x Hx Mq. rewrite forallb_forall in A1. specialize (A1 x (proj1 (list_elem_of_In _ _) Hx)).
    unfold row_matches in *. apply andb_true_iff in Mq as [E Mq]. apply bool_decide_eq_true in E. subst method.
    destruct (bool_decide_reflect (x.1.1 = q.1.1)) as [E'|]; [|done]. rewrite E' in A1. rewrite bool_decide_eq_true_2 in A1 by done.
    cbn in *. by eapply apart_sound. }
  cbn. apply elem_of_cons in Hr as [->|Hr].
  - rewrite M. split; [done|]. f_equal. assert (F : forall x, x ∈ rows -> row_matches method segments x = false) by auto.
    clear -F. induction rows as [|x rows IH]; cbn; [done|]. rewrite (F x) by apply list_elem_of_here. apply IH. intros y Hy. apply F. by apply list_elem_of_further.
  - destruct (row_matches method segments q) eqn:Mq; [by rewrite (D r Hr eq_refl) in M|]. by apply IH.
Qed.

Lemma same_tables rows rows' method segments : all_apart rows = true -> all_apart rows' = true ->
  (forall r, r ∈ rows <-> r ∈ rows') -> List.find (row_matches method segments) rows = List.find (row_matches method segments) rows'.
Proof.
  intros A A' E. destruct (List.find _ rows) as [r|] eqn:F.
  - apply List.find_some in F as [Hr M]. apply list_elem_of_In, E in Hr. by destruct (matches_once _ _ _ A' _ Hr M) as [-> _].
  - destruct (List.find _ rows') as [r|] eqn:F'; [|done]. apply List.find_some in F' as [Hr M].
    apply list_elem_of_In, E, list_elem_of_In in Hr. by rewrite (List.find_none _ _ F _ Hr) in M.
Qed.

Lemma first_route_row routes method segments :
  option_map (fun x => operation_id x.1) (first_route routes method segments)
  = option_map snd (List.find (row_matches method segments) (map route_row routes)).
Proof.
  induction routes as [|r routes IH]; cbn; [done|]. unfold row_matches at 1. cbn.
  destruct (bool_decide _); cbn; [|done]. by destruct (match_segments _ _).
Qed.
Lemma find_operation_row ops method segments :
  option_map op_id (List.find (op_matches method segments) ops)
  = option_map snd (List.find (row_matches method segments) (map operation_row ops)).
Proof.
  induction ops as [|o ops IH]; cbn; [done|]. unfold row_matches at 1, op_matches at 1. cbn. by destruct (_ && _).
Qed.

Definition route_rows : list Row := map route_row ROUTES.
Definition operation_rows : list Row := map operation_row NATIVE_OPERATIONS.
Lemma tables_apart : all_apart route_rows = true /\ all_apart operation_rows = true.
Proof. split; by vm_compute. Qed.
Lemma tables_agree r : r ∈ route_rows <-> r ∈ operation_rows.
Proof.
  assert (S : forall l k : list Row, forallb (fun x => bool_decide (x ∈ k)) l = true -> r ∈ l -> r ∈ k).
  { intros l k H Hr. rewrite forallb_forall in H. by eapply (bool_decide_unpack _), Is_true_true, H, list_elem_of_In. }
  split; apply S; by vm_compute.
Qed.

Lemma matched_once method segments : (length (List.filter (op_matches method segments) NATIVE_OPERATIONS) <= 1)%nat.
Proof.
  assert (M : forall ops, length (List.filter (op_matches method segments) ops)
    = length (List.filter (row_matches method segments) (map operation_row ops))).
  { induction ops as [|o ops IH]; cbn; [done|]. unfold row_matches at 1, op_matches at 1. cbn. destruct (_ && _); cbn; by rewrite ?IH. }
  rewrite M. fold operation_rows. destruct (List.filter _ operation_rows) as [|r l] eqn:F; cbn; [lia|].
  assert (H : In r (List.filter (row_matches method segments) operation_rows)) by (rewrite F; by left).
  apply List.filter_In in H as [Hr Mr]. apply list_elem_of_In in Hr.
  destruct (matches_once _ _ _ (proj2 tables_apart) _ Hr Mr) as [_ E]. rewrite F in E. injection E as ->. done.
Qed.

(** *** Every route answers *)

(** How many variables the pattern of an operation has. *)
Definition variables (o : Operation) : nat :=
  match o with
  | GetDatagramFault | PatchDatagramFault | DeleteDatagramFault | GetFault | PatchFault | DeleteFault => 2
  | GetDatagramProxy | PatchDatagramProxy | DeleteDatagramProxy | ListDatagramFaults | CreateDatagramFault
  | GetDatagramAssociation | KillDatagramAssociation | GetProxy | PatchProxy | DeleteProxy | ListFaults | CreateFault
  | GetConnection | KillConnection | GetScenarioRun | CancelScenarioRun => 1
  | _ => 0
  end.
Lemma match_variables p : forall segments vars, match_segments p segments = Some vars ->
  length vars = length (List.filter (fun x => match x with Var => true | Lit _ => false end) p).
Proof.
  induction p as [|x p IH]; intros [|s segments] vars H; cbn in *; try done; [by injection H as <-|by destruct x|].
  destruct x; [case_match; [by apply IH in H|done]|]. destruct (match_segments p segments) as [vs|] eqn:M; [|done].
  injection H as <-. cbn. by rewrite (IH _ _ M).
Qed.
Lemma first_route_arity routes method segments o vars :
  forallb (fun r => Nat.eqb (length (List.filter (fun x => match x with Var => true | Lit _ => false end) (ro_pattern r))) (variables (ro_operation r))) routes = true ->
  first_route routes method segments = Some (o, vars) -> length vars = variables o.
Proof.
  induction routes as [|r routes IH]; cbn; intros F H; [done|]. apply andb_true_iff in F as [F1 F2]. apply Nat.eqb_eq in F1.
  destruct (bool_decide _); [|by apply IH]. destruct (match_segments _ _) as [vs|] eqn:M; [|by apply IH].
  injection H as <- <-. by rewrite (match_variables _ _ _ M).
Qed.
Lemma find_route_arity method segments o vars : find_route method segments = Some (o, vars) -> length vars = variables o.
Proof. apply first_route_arity. by vm_compute. Qed.

(** A process is not at once the answer [x]. *)
Lemma bind_never {S W A B} (p : process S W A) (f : A -> B) x : (forall a, f a <> x) -> proc_bind p (fun a => Ret (f a)) <> Ret x.
Proof. destruct p; cbn; try done. intros H [= E]. by apply (H a). Qed.

Section Routes.
Context `{env : AdminEnv}.

Definition speaks (o : RouteOutcome) : Prop := o <> RoNotFound.
Lemma answer_speaks {A} (p : sproc (result A ControlError)) ok : (forall a, speaks (ok a)) -> answer p ok <> Ret RoNotFound.
Proof. intros H. apply bind_never. intros [a|e]; [apply H|done]. Qed.
Lemma with_json_speaks {A} `{FromJson A} body (k : A -> nproc RouteOutcome) : (forall a, k a <> Ret RoNotFound) -> with_json body k <> Ret RoNotFound.
Proof. intros K. unfold with_json. by case_match. Qed.
Lemma with_id_speaks what id k : (forall a, k a <> Ret RoNotFound) -> with_id what id k <> Ret RoNotFound.
Proof. intros K. unfold with_id. by case_match. Qed.
Lemma found_speaks {A} (p : sproc (option A)) missing show : found p missing show <> Ret RoNotFound.
Proof. apply bind_never. by intros [a|]. Qed.
Lemma killed_speaks what id p : killed what id p <> Ret RoNotFound.
Proof. apply bind_never. by intros []. Qed.

Lemma applied_speaks status out : speaks (applied_fault status out).
Proof. by destruct out as [[? ?] ?]. Qed.
Lemma applied_datagram_speaks status out : speaks (applied_datagram_fault status out).
Proof. by destruct out as [[? ?] ?]. Qed.
Ltac speaks := repeat first
  [ done | apply applied_speaks | apply applied_datagram_speaks | apply with_json_speaks; intros ? | apply with_id_speaks; intros ? | apply answer_speaks; intros ?
  | apply found_speaks | apply killed_speaks | (apply bind_never; intros ?) | case_match ].
Lemma serve_service_speaks o body : variables o = 0%nat -> serve_service o body <> Ret RoNotFound.
Proof. destruct o; try done; intros _; cbn [serve_service]; speaks. Qed.
Lemma serve_named_speaks o name body : variables o = 1%nat -> serve_named o name body <> Ret RoNotFound.
Proof. destruct o; try done; intros _; cbn [serve_named]; speaks. Qed.
Lemma serve_fault_speaks o name id body : variables o = 2%nat -> serve_fault o name id body <> Ret RoNotFound.
Proof. destruct o; try done; intros _; cbn [serve_fault]; speaks. Qed.

(** The routes are the inventory.  For any method and segments the request
    is answered as unknown exactly when no operation of the inventory
    matches; otherwise one does, and only one, and the route that is taken is
    the route of that operation. *)
Theorem routes_are_the_inventory method segments body :
  option_map (fun x => operation_id x.1) (find_route method segments)
    = option_map op_id (List.find (op_matches method segments) NATIVE_OPERATIONS)
  /\ (length (List.filter (op_matches method segments) NATIVE_OPERATIONS) <= 1)%nat
  /\ (route method segments body = Ret RoNotFound <-> List.find (op_matches method segments) NATIVE_OPERATIONS = None)
  /\ length NATIVE_OPERATIONS = 36%nat /\ NoDup (map op_id NATIVE_OPERATIONS).
Proof.
  assert (E : option_map (fun x => operation_id x.1) (find_route method segments)
    = option_map op_id (List.find (op_matches method segments) NATIVE_OPERATIONS)).
  { unfold find_route. rewrite first_route_row, find_operation_row.
    exact (f_equal (option_map snd) (same_tables route_rows operation_rows _ _ (proj1 tables_apart) (proj2 tables_apart) tables_agree)). }
  split_and!; [exact E|apply matched_once| |done|apply (bool_decide_unpack _); by vm_compute].
  revert E. generalize (List.find (op_matches method segments) NATIVE_OPERATIONS). intros op E. unfold route.
  destruct (find_route method segments) as [[o vars]|] eqn:F; destruct op as [op|]; try done. split; [|done].
  apply find_route_arity in F. intros H. exfalso. revert H.
  destruct vars as [|name [|id [|]]]; cbn [length] in F;
    [by apply serve_service_speaks|by apply serve_named_speaks|by apply serve_fault_speaks|by destruct o].
Qed.
End Routes.

(** ** Paths *)

Definition byte (b : Z) : Prop := 0 <= b < 256.
Lemma as_bytes_byte s : Forall byte (as_bytes s).
Proof.
  induction s as [|c s IH]; cbn; constructor; [|done]. pose proof (Ascii.N_ascii_bounded c). unfold byte. lia.
Qed.
Lemma of_as_bytes s : of_bytes (as_bytes s) = s.
Proof. induction s as [|c s IH]; cbn; [done|]. unfold char_of. by rewrite N2Z.id, Ascii.ascii_N_embedding, IH. Qed.
Lemma as_of_bytes bs : Forall byte bs -> as_bytes (of_bytes bs) = bs.
Proof.
  induction 1 as [|b bs H _ IH]; cbn; [done|]. unfold byte in H. f_equal; [|done]. unfold char_of. rewrite Ascii.N_ascii_embedding by lia. lia.
Qed.
(** *** What is encoded is decoded *)

Lemma each_byte (P : Z -> bool) b : forallb P (seqZ 0 256) = true -> byte b -> P b = true.
Proof. intros F H. rewrite forallb_forall in F. by apply F, list_elem_of_In, elem_of_seqZ. Qed.
Lemma hex_digits n : 0 <= n < 16 -> hex_value (hex_digit n) = Some n.
Proof.
  intros H. pose (P n := (16 <=? n) || match hex_value (hex_digit n) with Some m => m =? n | None => false end).
  assert (E : P n = true) by (apply each_byte; [by vm_compute|unfold byte; lia]). unfold P in E.
  rewrite (proj2 (Z.leb_gt 16 n)) in E by lia. cbn in E. destruct (hex_value _); [|done]. by apply Z.eqb_eq in E as ->.
Qed.
Lemma nibbles b : byte b -> Z.lor (Z.shiftl (b / 16) 4) (b mod 16) = b.
Proof. intros H. apply Z.eqb_eq. revert H. by apply (each_byte (fun b => Z.lor (Z.shiftl (b / 16) 4) (b mod 16) =? b)); vm_compute. Qed.
Lemma decode_encode_byte b bs : byte b -> decode_bytes (encode_byte b ++ bs) = option_map (cons b) (decode_bytes bs).
Proof.
  intros H. unfold encode_byte. destruct (unreserved b) eqn:U.
  - cbn [app decode_bytes]. unfold unreserved, is_ascii_alphanumeric in U. unfold byte in H. destruct b as [|p|p]; [done| |lia].
    do 6 (destruct p as [p|p|]; try done).
  - cbn [app decode_bytes]. unfold byte in H. pose proof (Z.div_lt_upper_bound b 16 16). pose proof (Z.div_pos b 16). pose proof (Z.mod_pos_bound b 16).
    rewrite !hex_digits by lia. by rewrite nibbles.
Qed.
Lemma decode_encode bs : Forall byte bs -> decode_bytes (flat_map encode_byte bs) = Some bs.
Proof. induction 1 as [|b bs H _ IH]; cbn [flat_map]; [done|]. by rewrite decode_encode_byte, IH. Qed.

Lemma encode_bytes_byte bs : Forall byte bs -> Forall (fun b => byte b /\ b <> 47) (flat_map encode_byte bs).
Proof.
  intros F. apply Forall_flat_map. eapply Forall_impl; [exact F|]. cbn. intros b H. unfold encode_byte, byte in *.
  pose proof (Z.div_lt_upper_bound b 16 16). pose proof (Z.div_pos b 16). pose proof (Z.mod_pos_bound b 16).
  destruct (unreserved b) eqn:U.
  - repeat constructor; [lia|lia|]. intros ->. done.
  - unfold hex_digit. repeat constructor; try lia; repeat case_match; lia.
Qed.
Lemma decode_encode_component id : utf8_valid (as_bytes id) = true -> decode_path_component (encode_path_component id) = Some id.
Proof.
  intros V. unfold decode_path_component, encode_path_component. pose proof (as_bytes_byte id) as B.
  rewrite as_of_bytes by (eapply Forall_impl; [by apply encode_bytes_byte|]; cbn; tauto). rewrite decode_encode by done. by rewrite V, of_as_bytes.
Qed.

(** *** Cutting *)

Definition no_slash (s : string) : Prop := Forall (fun b => b <> 47) (as_bytes s).
Lemma no_slash_known s : forallb (fun b => negb (b =? 47)) (as_bytes s) = true -> no_slash s.
Proof. rewrite forallb_forall. intros H. apply Forall_forall. intros b Hb ->. by specialize (H 47 (proj1 (list_elem_of_In _ _) Hb)). Qed.
Lemma split_path_cons s : exists part parts, split_path s = part :: parts.
Proof. induction s as [|c s (part & parts & E)]; cbn; [eauto|]. rewrite E. case_match; eauto. Qed.
Lemma split_slash a b : no_slash a -> split_path (a +:+ "/" +:+ b) = a :: split_path b.
Proof.
  induction a as [|c a IH]; intros N.
  - change (split_path (String (Ascii.ascii_of_N 47) b) = EmptyString :: split_path b). cbn [split_path].
    by destruct (split_path_cons b) as (p & ps & ->).
  - inversion N as [|? ? Hc Na]; subst. specialize (IH Na). change (String c a +:+ "/" +:+ b) with (String c (a +:+ "/" +:+ b)). cbn [split_path].
    rewrite IH. rewrite bool_decide_eq_false_2; [done|]. intros E. apply Hc. by rewrite E.
Qed.
Lemma split_last a : no_slash a -> split_path a = [a].
Proof.
  induction a as [|c a IH]; cbn; intros N; [done|]. inversion N as [|? ? Hc Na]; subst. rewrite IH by done.
  rewrite bool_decide_eq_false_2; [done|]. intros E. apply Hc. by rewrite E.
Qed.
Lemma encode_no_slash id : no_slash (encode_path_component id).
Proof.
  unfold no_slash, encode_path_component. pose proof (encode_bytes_byte _ (as_bytes_byte id)) as F.
  rewrite as_of_bytes by (eapply Forall_impl; [exact F|]; cbn; tauto). eapply Forall_impl; [exact F|]. cbn. tauto.
Qed.
Lemma encode_empty id : encode_path_component id = EmptyString -> id = EmptyString.
Proof.
  destruct id as [|c id]; [done|]. unfold encode_path_component. cbn [as_bytes flat_map]. unfold encode_byte. by case_match.
Qed.
(** The name of a proxy is its own encoding. *)
Lemma encode_name name : forallb name_byte (as_bytes name) = true -> encode_path_component name = name.
Proof.
  intros F. unfold encode_path_component. rewrite <- (of_as_bytes name) at 2. f_equal. rewrite forallb_forall in F.
  induction (as_bytes name) as [|b bs IH]; cbn [flat_map]; [done|]. rewrite IH by (intros x Hx; apply F; by right).
  specialize (F b (or_introl eq_refl)). unfold encode_byte, unreserved, name_byte in *. destruct (is_ascii_alphanumeric b); [done|]. cbn in F.
  destruct (b =? 46); [|destruct (b =? 95); [|destruct (b =? 45)]]; try done; by rewrite ?orb_true_r.
Qed.

Lemma names_valid name : validate_proxy_name name = Ok tt -> forallb name_byte (as_bytes name) = true /\ name <> EmptyString.
Proof.
  unfold validate_proxy_name. destruct ((str_len name =? 0) || (128 <? str_len name)) eqn:L; [done|]. destruct (forallb _ _); [|done].
  intros _. split; [done|]. by intros ->.
Qed.

Definition COLLECTIONS : list string := ["proxies"; "datagram-proxies"]%string.

Lemma fault_path_decoded collection proxy id :
  collection ∈ COLLECTIONS -> validate_proxy_name proxy = Ok tt -> id <> EmptyString -> utf8_valid (as_bytes id) = true ->
  decoded_segments (segments_of (fault_path collection proxy id)) = Some ["v1"; collection; proxy; "faults"; id]%string.
Proof.
  intros C N I V. apply names_valid in N as [N Ne].
  assert (S : segments_of (fault_path collection proxy id) = ["v1"; collection; proxy; "faults"; encode_path_component id]%string).
  { unfold segments_of, fault_path. rewrite encode_name by done.
    replace ("/v1/" +:+ collection +:+ "/" +:+ proxy +:+ "/faults/" +:+ encode_path_component id)
      with ("" +:+ "/" +:+ "v1" +:+ "/" +:+ collection +:+ "/" +:+ proxy +:+ "/" +:+ "faults" +:+ "/" +:+ encode_path_component id) by done.
    assert (Nc : no_slash collection) by (apply elem_of_cons in C as [->|E%list_elem_of_singleton]; [|subst collection]; by apply no_slash_known).
    assert (Np : no_slash proxy) by (rewrite <- (encode_name proxy N); apply encode_no_slash).
    rewrite !split_slash, split_last; try first [assumption|apply encode_no_slash|by apply no_slash_known].
    assert (Ce : collection <> EmptyString) by (apply elem_of_cons in C as [->|E%list_elem_of_singleton]; [done|by subst collection]).
    assert (Ie : encode_path_component id <> EmptyString) by (intros E; by apply I, encode_empty).
    cbn [List.filter]. by rewrite (bool_decide_eq_false_2 _ Ce), (bool_decide_eq_false_2 _ Ne), (bool_decide_eq_false_2 _ Ie). }
  rewrite S. unfold decoded_segments. replace (names_a_fault _) with true; [cbn [nth]; by rewrite decode_encode_component|].
  apply elem_of_cons in C as [->|E%list_elem_of_singleton]; [done|by subst collection].
Qed.

(** Faults keep their address.  The path the command line writes for a
    fault of a valid proxy is cut and decoded into the collection, the proxy
    and that very identity, whatever characters the identity has. *)
Theorem fault_paths_round_trip collection proxy id :
  collection ∈ COLLECTIONS -> validate_proxy_name proxy = Ok tt -> id <> EmptyString -> utf8_valid (as_bytes id) = true ->
  decoded_segments (segments_of (fault_path collection proxy id)) = Some ["v1"; collection; proxy; "faults"; id]%string.
Proof. apply fault_path_decoded. Qed.
Lemma fault_paths_round_trip_witness : decoded_segments (segments_of (fault_path "proxies" "redis" "50% / é"))
  = Some ["v1"; "proxies"; "redis"; "faults"; "50% / é"]%string.
Proof. apply fault_paths_round_trip; [by apply list_elem_of_here|by vm_compute|done|by vm_compute]. Defined.

(** ** The token of the listener *)

Lemma substring_all s : String.substring 0 (String.length s) s = s.
Proof. induction s as [|c s IH]; [done|]. change (String c (String.substring 0 (String.length s) s) = String c s). by rewrite IH. Qed.
Lemma strip_prefix_cons c p d s : strip_prefix (String c p) (String d s) = if decide (c = d) then strip_prefix p s else None.
Proof. unfold strip_prefix. cbn [String.prefix String.length]. destruct (Ascii.ascii_dec c d), (decide (c = d)); try done. Qed.
Lemma strip_prefix_nil s : strip_prefix EmptyString s = Some s.
Proof. unfold strip_prefix. destruct s; [done|]. cbn [String.prefix String.length]. rewrite Nat.sub_0_r. f_equal. apply (substring_all (String a s)). Qed.
Lemma strip_prefix_some p : forall s t, strip_prefix p s = Some t <-> s = p +:+ t.
Proof.
  induction p as [|c p IH]; intros s t.
  - rewrite strip_prefix_nil. change ("" +:+ t) with t. split; congruence.
  - change (String c p +:+ t) with (String c (p +:+ t)). destruct s as [|d s]; [done|]. rewrite strip_prefix_cons.
    destruct (decide (c = d)) as [->|N]; [|split; congruence]. rewrite IH. split; [by intros ->|by intros [= ->]].
Qed.

Lemma lor_zero a b : Z.lor a b = 0 <-> a = 0 /\ b = 0.
Proof. apply Z.lor_eq_0_iff. Qed.
Lemma diff_zero l k : forall d, length l = length k ->
  (foldl (fun diff '(a, b) => Z.lor diff (Z.lxor a b)) d (zip l k) = 0 <-> d = 0 /\ l = k).
Proof.
  revert k. induction l as [|a l IH]; intros [|b k] d L; cbn in *; try done; [tauto|]. rewrite IH by lia. rewrite lor_zero, Z.lxor_eq_0_iff.
  split; [by intros [[-> ->] ->]|by intros [-> [= -> ->]]].
Qed.

Section Token.
Context `{env : AdminEnv} (digest_length : forall x, length (digest x) = 32%nat).

Lemma constant_time_equal_spec a b : constant_time_equal a b = true <-> digest a = digest b.
Proof.
  unfold constant_time_equal. rewrite Z.eqb_eq, diff_zero by (by rewrite !digest_length). tauto.
Qed.

(** Nobody gets past the listener without its token.  A listener that
    others can reach does not start without a token, and a request that does
    not carry it is refused before its body or path is looked at; one that
    does is let through.  The digest may collide, but not with what was
    sent. *)
Theorem admin_token_is_required c : is_loopback (ac_bind c) = false -> refuses_to_start c = false ->
  exists token, ac_auth_token c = Some token /\ token <> EmptyString /\ forall r,
    (forall sent, hr_authorization r = Some ("Bearer " +:+ sent) -> digest (as_bytes sent) = digest (as_bytes token) -> sent = token) ->
    (hr_authorization r <> Some ("Bearer " +:+ token) -> handle_request (ac_auth_token c) r = Ret unauthorized)
    /\ (hr_authorization r = Some ("Bearer " +:+ token) -> authorized (ac_auth_token c) r = true).
Proof.
  unfold refuses_to_start, insecure_admin. intros -> H. cbn in H. apply orb_false_iff in H as [_ H].
  destruct (ac_auth_token c) as [token|]; [|done]. exists token. assert (N : token <> EmptyString) by (intros ->; done).
  split_and!; [done|done|]. intros r D. unfold handle_request, authorized. split.
  - intros A. destruct (hr_authorization r) as [value|]; [|done]. destruct (strip_prefix _ value) as [sent|] eqn:P; [|done].
    apply strip_prefix_some in P as ->. rewrite H. cbn [negb andb].
    destruct (constant_time_equal _ _) eqn:E; [|done]. apply constant_time_equal_spec in E. exfalso. apply A. by rewrite (D sent eq_refl E).
  - intros ->. rewrite (proj2 (strip_prefix_some _ _ _) eq_refl), H. cbn [negb andb]. by apply constant_time_equal_spec.
Qed.
End Token.

(** ** Runs *)

(** *** The invariant of a node *)

Definition node_ok (n : Node) : Prop := service_ok (nd_service n).
Definition node_keeps (n n' : Node) : Prop := service_keeps (nd_service n) (nd_service n').
Definition node_may (n : Node) (w : ServiceWait) : Prop := service_may (nd_service n) w.
Abbreviation nsafe := (safe node_ok node_may node_keeps node_keeps).
Abbreviation anything := (fun _ _ => True).

Lemma on_service_safe {A} (p : sproc A) n Q : ssafe p (nd_service n) Q -> nsafe (on_service p) n (fun a n' => Q a (nd_service n')).
Proof. apply (embed_safe nd_service set_nd_service (fun w => w) service_ok service_may service_keeps); done. Qed.
Lemma nobserve_safe {A} (f : Node -> A) n (Q : A -> Prop) : (forall n, node_ok n -> Q (f n)) -> nsafe (observe f) n (fun a _ => Q a).
Proof. intros H n1 _ I1. split; [done|]. split; [by apply service_keeps_refl|]. intros n2 _ _. by apply H. Qed.
Lemma node_event_good e n n' : node_ok n -> node_happens e n = Some n' -> node_ok n' /\ node_keeps n n'.
Proof.
  intros I. destruct e as [e|k|x]; cbn; [|intros [= <-]; (split; [exact I|by apply service_keeps_refl])..].
  destruct (service_happens e (nd_service n)) as [s|] eqn:H; [|done]. intros [= <-]. by eapply service_event_good.
Qed.

(** *** What an answer looks like *)

(** The codes of the error envelope ([common.rs]) and their statuses. *)
Definition ERROR_CODES : list (Z * string) :=
  [(404, "not_found"); (409, "conflict"); (400, "invalid"); (409, "bind_failed"); (500, "restart_failed");
   (400, "invalid_json"); (403, "unauthorized")]%string.
Definition proper (a : HttpAnswer) : Prop :=
  match a with
  | Rejected status _ => status = 400 \/ status = 413
  | Response status (Json (DocError code _)) => (status, code) ∈ ERROR_CODES
  | Response status (Json _) => status ∈ [200; 201; 202]
  | Response status (Text text) => status = 200 /\ exists s, text = text_of (scrape_lines s)
      /\ (overflow_is_free (mc_tables (sp_metrics s)) -> NoDup (all_series (scrape_lines s)))
  end.
Definition proper_outcome (o : RouteOutcome) : Prop := proper (outcome_answer o).

Lemma control_errors_proper e : proper_outcome (RoControlError e).
Proof. destruct e; apply (bool_decide_unpack _); by vm_compute. Qed.
Lemma document_proper status d : status ∈ [200; 201; 202] -> (forall code message, d <> DocError code message) -> proper_outcome (document status d).
Proof. intros S D. destruct d; try done. by destruct (D code message). Qed.

(** *** Scrapes *)

Lemma views_named s : datagrams_ok s -> NoDup (map dv_name (merge_sort view_le (omap (managed_view s) (map snd (map_to_list (dr_proxies s)))))).
Proof.
  intros I. rewrite merge_sort_Permutation. pose proof (pk_entries _ _ _ _ (dk_proxies _ I)) as E.
  assert (H : forall l, (forall name m, (name, m) ∈ l -> dr_proxies s !! name = Some m) ->
    map dv_name (omap (managed_view s) (map snd l)) `sublist_of` map fst l).
  { induction l as [|[name m] l IH]; cbn; intros L; [done|]. specialize (IH (fun n k Hk => L n k (list_elem_of_further _ _ _ Hk))).
    destruct (managed_view s m) as [v|] eqn:V; cbn; [|by apply sublist_cons]. unfold managed_view in V.
    destruct (dr_states s !! mg_state m) as [x|] eqn:X; [|done]. injection V as <-. cbn.
    destruct (E name m (L name m (list_elem_of_here _ _))) as [(spec & Hs & <-) _]. rewrite list_lookup_fmap, X in Hs.
    injection Hs as <-. by apply sublist_skip. }
  eapply sublist_NoDup; [|apply H; intros name m; by rewrite elem_of_map_to_list]. apply NoDup_fst_map_to_list.
Qed.
Lemma metrics_scrape_safe n : node_ok n -> nsafe metrics_scrape n (fun s _ => scrape_wf s).
Proof.
  intros I. unfold metrics_scrape. eapply safe_bind; [apply (nobserve_safe _ _ (fun _ => True)); done| |done]. intros counters n1 I1 _.
  eapply safe_bind; [apply (nobserve_safe _ _ (fun live => NoDup (map fst live)))| |done].
  { intros n2 _. rewrite gauged_names. apply nodup_sorted. }
  intros live n2 I2 L. eapply safe_bind; [apply (on_service_safe _ _ (fun views _ => NoDup (map dv_name views)))| |done].
  { apply (on_datagrams_safe _ _ (fun views _ => NoDup (map dv_name views))); [done|].
    intros d _ Id. split; [done|]. split; [done|]. intros d' _ _. by apply views_named. }
  intros views n3 I3 V. eapply safe_bind; [apply (on_service_safe _ _ anything)| |done].
  { by eapply (datagram_part _ _ DqAllAssociations). }
  intros associations n4 I4 _. destruct counters as [[[? ?] ?] ?]. intros n5 _ _. by constructor.
Qed.

(** *** Requests *)

(** What serde and the types of the fields promise. *)
Definition request_fields (r : NativeDatagramProxyRequestV1) : Prop :=
  0 <= dr_max_associations r /\ 0 <= dr_max_queued_datagrams r /\ 0 <= dr_max_queued_bytes r /\ 0 <= dr_max_datagram_size r.
Class AdminEnvOk `(env : AdminEnv) : Prop := {
  request_typed_json body (r : NativeDatagramProxyRequestV1) : from_slice body = Ok r -> request_fields r;
  patch_typed_json body (p : NativeDatagramProxyPatchV1) m : from_slice body = Ok p -> Wire.dp_max_associations p = Some m -> 0 <= m
}.

Lemma limits_validate_ok l l' : limits_validate l = Ok l' -> l' = l.
Proof. unfold limits_validate. case_match; [done|]. by intros [= <-]. Qed.
Lemma nonzero_or_positive x error y : nonzero_or x error = Ok y -> 0 <= x -> 1 <= y.
Proof. unfold nonzero_or. destruct (Z.eqb_spec x 0); [done|]. intros [= <-]. lia. Qed.
Lemma into_spec_typed r spec : request_fields r -> datagram_request_into_spec r = Ok spec -> spec_typed spec.
Proof.
  intros (M & Q1 & Q2 & Q3) H. unfold datagram_request_into_spec in H. cbv zeta in H. ok_chain H. injection H as <-.
  unfold request_into_core_parts in E. ok_chain E. injection E as <-. cbn in *.
  match goal with N : map_err _ (datagram_spec_new _ _ _ _) = Ok _ |- _ => apply map_err_ok in N; unfold datagram_spec_new in N; ok_chain N; injection N as <- end.
  match goal with Q : request_queue_limits r = Ok _ |- _ => unfold request_queue_limits in Q; ok_chain Q end.
  repeat match goal with L : limits_validate _ = Ok _ |- _ => apply limits_validate_ok in L as -> | L : map_err DgInvalid (limits_validate _) = Ok _ |- _ => apply map_err_ok in L end.
  constructor; cbn; [done|by eapply cell_ok_new..|].
  unfold limits_nonzero; cbn. split_and!; by eapply nonzero_or_positive.
Qed.

Section Requests.
Context `{env : AdminEnv} {env_ok : AdminEnvOk env}.

Lemma service_part {A} (k : A -> service_response) (p : sproc A) r s : service_ok s -> service_typed r ->
  service_call digest r = proc_bind p (fun x => Ret (k x)) -> ssafe p s anything.
Proof. intros I T E. pose proof (service_call_safe digest r s I T) as H. rewrite E in H. by eapply safe_bind_inv. Qed.
Lemma control_observe {A} (f : Control -> A) s : service_ok s -> ssafe (on_control (observe f)) s anything.
Proof. intros I. apply control_aside; [done|done|]. intros c. by eexists. Qed.

(** Operations. *)
Lemma create_proxy_safe spec s : service_ok s -> ssafe (on_control (Control.create_proxy spec)) s anything.
Proof. intros I. by eapply (control_part _ _ (RqCreate spec)). Qed.
Lemma update_proxy_safe name p s : service_ok s -> ssafe (on_control (Control.update_proxy name p)) s anything.
Proof. intros I. by eapply (control_part _ _ (RqUpdate name p)). Qed.
Lemma stream_fault_safe proxy u s : service_ok s -> ssafe (on_control (Control.add_fault proxy u)) s anything.
Proof. intros I. by eapply (control_part _ _ (RqAddFault proxy u)). Qed.
Lemma patch_fault_safe proxy id p s : service_ok s -> ssafe (on_control (Control.update_fault proxy id p)) s anything.
Proof. intros I. by eapply (control_part _ _ (RqUpdateFault proxy id p)). Qed.
Lemma create_datagram_safe spec s : service_ok s -> spec_typed spec -> ssafe (create_datagram_proxy spec) s anything.
Proof. intros I T. by eapply (service_part _ _ (SqCreateDatagram spec)). Qed.
Lemma update_datagram_safe name u s : service_ok s -> match du_max_associations u with Some m => 0 <= m | None => True end ->
  ssafe (update_datagram_proxy name u) s anything.
Proof. intros I T. by eapply (service_part _ _ (SqUpdateDatagram name u)). Qed.
Lemma add_datagram_safe name d f s : service_ok s -> ssafe (add_datagram_fault name d f) s anything.
Proof. intros I. by eapply (service_part _ _ (SqAddDatagramFault name d f)). Qed.
Lemma patch_datagram_safe name id p s : service_ok s -> ssafe (update_datagram_fault name id p) s anything.
Proof. intros I. by eapply (service_part _ _ (SqUpdateDatagramFault name id p)). Qed.
Lemma start_run_safe x s : service_ok s -> ssafe (start_scenario x) s anything.
Proof. intros I. by eapply (service_part _ _ (SqStart x)). Qed.
Lemma start_schedule_run_safe x s : service_ok s -> ssafe (start_schedule_v2 digest x) s anything.
Proof. intros I. by eapply (service_part _ _ (SqStartSchedule x)). Qed.
Lemma cancel_run_safe x s : service_ok s -> ssafe (cancel_scenario x) s anything.
Proof. intros I. by eapply (service_part _ _ (SqCancel x)). Qed.
Lemma cancel_schedule_run_safe x s : service_ok s -> ssafe (cancel_schedule_v2 x) s anything.
Proof. intros I. by eapply (service_part _ _ (SqCancelSchedule x)). Qed.
Lemma read_run_safe x s : service_ok s -> ssafe (get_scenario x) s anything.
Proof. intros I. by eapply (service_part _ _ (SqGet x)). Qed.
Lemma read_schedule_safe x s : service_ok s -> ssafe (get_schedule_v2 x) s anything.
Proof. intros I. by eapply (service_part _ _ (SqGetSchedule x)). Qed.
Hint Resolve create_proxy_safe update_proxy_safe stream_fault_safe patch_fault_safe add_datagram_safe patch_datagram_safe
  start_run_safe start_schedule_run_safe cancel_run_safe cancel_schedule_run_safe read_run_safe read_schedule_safe : service.

Lemma ret_safe {A} (a : A) s : ssafe (Ret a) s anything.
Proof. by intros ? _ _. Qed.
Ltac operation := unfold into_result; service_cases.
Lemma apply_proxy_request_safe r s : service_ok s -> ssafe (apply_proxy_request r) s anything.
Proof. intros I. unfold apply_proxy_request. operation. Qed.
Lemma apply_proxy_patch_safe name p s : service_ok s -> ssafe (apply_proxy_patch name p) s anything.
Proof. intros I. unfold apply_proxy_patch. operation. Qed.
Lemma apply_stream_fault_upsert_safe proxy u s : service_ok s -> ssafe (apply_stream_fault_upsert proxy u) s anything.
Proof. intros I. unfold apply_stream_fault_upsert. operation. Qed.
Lemma apply_stream_fault_patch_safe proxy id p s : service_ok s -> ssafe (apply_stream_fault_patch proxy id p) s anything.
Proof. intros I. unfold apply_stream_fault_patch. operation. Qed.
Lemma apply_datagram_request_safe r s : service_ok s -> request_fields r -> ssafe (apply_datagram_proxy_request r) s anything.
Proof.
  intros I T. unfold apply_datagram_proxy_request, into_result. destruct (datagram_request_into_spec r) as [spec|e] eqn:E; cbn [map_err proc_bind]; [|operation].
  apply create_datagram_safe; [done|]. by eapply into_spec_typed.
Qed.
Lemma apply_datagram_patch_safe name p s : service_ok s -> (forall m, Wire.dp_max_associations p = Some m -> 0 <= m) ->
  ssafe (apply_datagram_proxy_patch name p) s anything.
Proof.
  intros I T. unfold apply_datagram_proxy_patch. case_match; [operation|]. apply update_datagram_safe; [done|]. cbn. case_match; [by apply T|done].
Qed.
Lemma apply_datagram_upsert_safe proxy u s : service_ok s -> ssafe (apply_datagram_fault_upsert proxy u) s anything.
Proof. intros I. unfold apply_datagram_fault_upsert. operation. Qed.
Lemma apply_datagram_fault_patch_safe proxy id p s : service_ok s -> ssafe (apply_datagram_fault_patch proxy id p) s anything.
Proof. intros I. unfold apply_datagram_fault_patch. operation. Qed.
Lemma apply_v1_safe x s : service_ok s -> ssafe (apply_scenario_v1 x) s anything.
Proof. intros I. unfold apply_scenario_v1. operation. Qed.
Lemma apply_v2_safe x s : service_ok s -> ssafe (apply_scenario_v2_dto digest x) s anything.
Proof. intros I. unfold apply_scenario_v2_dto. operation. Qed.
Lemma get_run_lookup_safe id s : service_ok s -> ssafe (get_scenario_run id) s anything.
Proof. intros I. unfold get_scenario_run, lookup_run. operation. Qed.
Lemma cancel_run_lookup_safe id s : service_ok s -> ssafe (cancel_scenario_run id) s anything.
Proof. intros I. unfold cancel_scenario_run, lookup_run. operation. Qed.

(** Answers. *)
Lemma answer_safe {A} (p : sproc (result A ControlError)) (ok : A -> RouteOutcome) n : node_ok n ->
  ssafe p (nd_service n) anything -> (forall a, proper_outcome (ok a)) -> nsafe (answer p ok) n (fun o _ => proper_outcome o).
Proof.
  intros I P K. eapply safe_bind; [by apply (on_service_safe _ _ anything)| |done]. intros [a|e] n1 _ _ n2 _ _; [by apply K|apply control_errors_proper].
Qed.
Lemma shown_safe {A} (p : sproc A) (show : A -> Document) n : node_ok n -> ssafe p (nd_service n) anything ->
  (forall a code message, show a <> DocError code message) -> nsafe (shown p show) n (fun o _ => proper_outcome o).
Proof.
  intros I P K. eapply safe_bind; [by apply (on_service_safe _ _ anything)| |done]. intros a n1 _ _ n2 _ _. by apply document_proper; [set_solver|].
Qed.
Lemma found_or_proper {A} missing (show : A -> Document) a : (forall a code message, show a <> DocError code message) -> proper_outcome (found_or missing show a).
Proof. intros K. destruct a; [by apply document_proper; [set_solver|]|apply control_errors_proper]. Qed.
Lemma found_safe {A} (p : sproc (option A)) missing (show : A -> Document) n : node_ok n -> ssafe p (nd_service n) anything ->
  (forall a code message, show a <> DocError code message) -> nsafe (found p missing show) n (fun o _ => proper_outcome o).
Proof.
  intros I P K. eapply safe_bind; [by apply (on_service_safe _ _ anything)| |done]. intros a n1 _ _ n2 _ _. by apply found_or_proper.
Qed.
Lemma killed_safe what id p n : node_ok n -> ssafe p (nd_service n) anything -> nsafe (killed what id p) n (fun o _ => proper_outcome o).
Proof.
  intros I P. eapply safe_bind; [by apply (on_service_safe _ _ anything)| |done].
  intros [] n1 _ _ n2 _ _; [by apply document_proper; [set_solver|]|apply control_errors_proper].
Qed.
Lemma with_json_safe {A} `{FromJson A} body (k : A -> nproc RouteOutcome) n : node_ok n ->
  (forall a, from_slice body = Ok a -> nsafe (k a) n (fun o _ => proper_outcome o)) -> nsafe (with_json body k) n (fun o _ => proper_outcome o).
Proof.
  intros I K. unfold with_json. destruct (from_slice body) as [a|e]; [by apply K|]. intros n1 _ _. apply (bool_decide_unpack _). by vm_compute.
Qed.
Lemma with_id_safe what id (k : Z -> nproc RouteOutcome) n : (forall i, nsafe (k i) n (fun o _ => proper_outcome o)) ->
  nsafe (with_id what id k) n (fun o _ => proper_outcome o).
Proof. intros K. unfold with_id. destruct (parse_u64 id); [by apply K|]. intros n1 _ _. apply control_errors_proper. Qed.
Lemma not_found_safe n : nsafe (Ret RoNotFound) n (fun o _ => proper_outcome o).
Proof. intros n1 _ _. apply (bool_decide_unpack _). by vm_compute. Qed.

Lemma associations_one_safe id s : service_ok s -> ssafe (on_datagrams (association id)) s anything.
Proof. intros I. by eapply (datagram_part _ _ (DqAssociation id)). Qed.
Lemma proxies_view_safe s : service_ok s -> ssafe (on_datagrams proxies) s anything.
Proof. intros I. by eapply (datagram_part _ _ DqProxies). Qed.
Lemma kill_connection_safe id s : service_ok s -> ssafe (on_control (kill id)) s anything.
Proof. intros I. by eapply (control_part _ _ (RqKill id)). Qed.
Lemma delete_stream_safe name s : service_ok s -> ssafe (on_control (Control.delete_proxy name)) s anything.
Proof. intros I. by eapply (control_part _ _ (RqDelete name)). Qed.
Lemma remove_stream_fault_safe name id s : service_ok s -> ssafe (on_control (Control.remove_fault name id)) s anything.
Proof. intros I. by eapply (control_part _ _ (RqRemoveFault name id)). Qed.
Lemma delete_datagram_safe name s : service_ok s -> ssafe (delete_datagram_proxy name) s anything.
Proof. intros I. by eapply (service_part _ _ (SqDeleteDatagram name)). Qed.
Lemma get_proxy_safe name s : service_ok s -> ssafe (on_control (Control.get name)) s anything.
Proof. intros I. by apply control_observe. Qed.
Lemma get_stream_fault_safe name id s : service_ok s -> ssafe (on_control (Control.get_fault name id)) s anything.
Proof. intros I. by apply control_observe. Qed.
Lemma list_stream_faults_safe name s : service_ok s -> ssafe (on_control (Control.list_faults name)) s anything.
Proof. intros I. by apply control_observe. Qed.

Lemma list_plans_safe name n : node_ok n -> nsafe (list_datagram_plans name) n (fun o _ => proper_outcome o).
Proof.
  intros I. eapply safe_bind; [apply (on_service_safe _ _ anything); by apply plan_safe| |done]. intros up n1 I1 _.
  eapply safe_bind; [apply (on_service_safe _ _ anything); by apply plan_safe| |done]. intros down n2 _ _ n3 _ _.
  destruct up, down; try apply control_errors_proper. by apply document_proper; [set_solver|].
Qed.
Lemma metrics_text_safe n : node_ok n -> nsafe (do! text := metrics_text in Ret (RoResponse (Response 200 (Text text)))) n (fun o _ => proper_outcome o).
Proof.
  intros I. unfold metrics_text. eapply safe_bind; [|intros text n1 _ P n2 _ _; exact P|done].
  eapply safe_bind; [by apply metrics_scrape_safe| |done]. intros s n1 _ W n2 _ _. split; [done|]. exists s. split; [done|].
  by apply scrape_series_unique.
Qed.

Create HintDb answers discriminated.
#[local] Hint Resolve apply_proxy_request_safe apply_proxy_patch_safe apply_stream_fault_upsert_safe apply_stream_fault_patch_safe
  apply_datagram_upsert_safe apply_datagram_fault_patch_safe apply_v1_safe apply_v2_safe get_run_lookup_safe cancel_run_lookup_safe
  associations_one_safe proxies_view_safe kill_connection_safe delete_stream_safe remove_stream_fault_safe delete_datagram_safe
  control_observe get_proxy_safe get_stream_fault_safe list_stream_faults_safe service_reset_safe ret_safe : answers.
Ltac serve := repeat match goal with
  | |- nsafe (Ret RoNotFound) _ _ => apply not_found_safe
  | |- nsafe (Ret _) _ _ => intros ? _ _; by apply document_proper; [set_solver|]
  | |- nsafe (with_json _ _) _ _ => apply with_json_safe; [assumption|intros ? ?]
  | |- nsafe (with_id _ _ _) _ _ => apply with_id_safe; intros ?
  | |- nsafe (answer _ _) _ _ => apply answer_safe; [assumption| |]
  | |- nsafe (shown _ _) _ _ => apply shown_safe; [assumption| |done]
  | |- nsafe (found _ _ _) _ _ => apply found_safe; [assumption| |let a := fresh "a" in intros a ? ?; first [done | by destruct a]]
  | |- nsafe (killed _ _ _) _ _ => apply killed_safe; [assumption|]
  | |- ssafe (apply_datagram_proxy_request _) _ _ => apply apply_datagram_request_safe; [assumption|by eapply request_typed_json]
  | |- ssafe (apply_datagram_proxy_patch _ _) _ _ => apply apply_datagram_patch_safe; [assumption|intros ? ?; by eapply patch_typed_json]
  | |- ssafe _ _ _ => solve [auto with answers service nocore]
  | |- forall a, proper_outcome (@?f a) => let a := fresh "a" in intros a; repeat match goal with x : _ * _ |- _ => destruct x end; by apply document_proper; [set_solver|]
  end.

Lemma serve_service_safe operation body n : node_ok n -> nsafe (serve_service operation body) n (fun o _ => proper_outcome o).
Proof.
  intros I. destruct operation; cbn [serve_service]; serve.
  - by apply metrics_text_safe.
  - eapply safe_bind; [by apply (nobserve_safe _ _ (fun _ => True))| |done]. intros vs n1 I1 _. serve.
  - eapply safe_bind; [by apply (nobserve_safe _ _ (fun _ => True))| |done]. intros vs n1 I1 _. serve.
  - repeat case_match; serve.
Qed.
Lemma serve_named_safe operation name body n : node_ok n -> nsafe (serve_named operation name body) n (fun o _ => proper_outcome o).
Proof.
  intros I. destruct operation; cbn [serve_named].
  all: serve.
  - by apply list_plans_safe.
  - eapply safe_bind; [by apply (nobserve_safe _ _ (fun _ => True))| |done]. intros vs n1 I1 _ n2 _ _. by apply found_or_proper.
Qed.
Lemma serve_fault_safe operation name id body n : node_ok n -> nsafe (serve_fault operation name id body) n (fun o _ => proper_outcome o).
Proof. intros I. destruct operation; cbn [serve_fault]; serve. Qed.
Lemma route_safe method segments body n : node_ok n -> nsafe (route method segments body) n (fun o _ => proper_outcome o).
Proof.
  intros I. unfold route. destruct (find_route method segments) as [[operation [|name [|id [|]]]]|]; try apply not_found_safe;
    [by apply serve_service_safe|by apply serve_named_safe|by apply serve_fault_safe].
Qed.
Lemma handle_request_safe auth r n : node_ok n -> nsafe (handle_request auth r) n (fun a _ => proper a).
Proof.
  intros I. unfold handle_request. destruct (authorized auth r); cbn [negb]; [|intros n1 _ _; apply (bool_decide_unpack _); by vm_compute].
  destruct (hr_body r) as [body|e]; [|intros n1 _ _; cbn; destruct (be_limit_exceeded e); auto].
  destruct (decoded_segments _) as [segments|]; [|intros n1 _ _; apply (bool_decide_unpack _); by vm_compute].
  eapply safe_bind; [by apply route_safe| |done]. intros o n1 _ P n2 _ _. exact P.
Qed.
End Requests.

(** ** Any requests, any interleaving *)

Section Pool.
Context `{env : AdminEnv} {env_ok : AdminEnvOk env}.

Definition node_request_typed (r : NodeRequest) : Prop := match r with NqService r => service_typed r | _ => True end.
Definition response_proper (r : NodeResponse) : Prop := match r with NsHttp a => proper a | _ => True end.
Definition node_pool : System Node ServiceWait NodeResponse -> Prop :=
  pool_ok node_ok node_may (fun _ => node_keeps) (fun _ => node_keeps) (fun _ (r : NodeResponse) (_ : Node) => response_proper r).

Lemma node_call_safe r n : node_ok n -> node_request_typed r -> nsafe (node_call r) n (fun r _ => response_proper r).
Proof.
  intros I T. destruct r as [auth r|r]; cbn [node_call].
  - eapply safe_bind; [by apply handle_request_safe| |done]. intros a n1 _ P n2 _ _. exact P.
  - eapply safe_bind; [apply (on_service_safe _ _ anything); by apply service_call_safe| |done]. by intros x n1 _ _ n2 _ _.
Qed.
Lemma node_pool_initial n rs : node_ok n -> Forall node_request_typed rs -> node_pool (node_initial n rs).
Proof.
  intros I T. split; [done|]. intros i p H. cbn in H. rewrite lookup_map in H. destruct (rs !! i) as [r|] eqn:E; [|done].
  injection H as <-. apply node_call_safe; [done|]. by eapply Forall_lookup_1.
Qed.
Lemma node_pool_run s s' : node_pool s -> rtc sys_step s s' -> node_pool s'.
Proof. apply pool_reachable; [done|]. intros e n n' _ I H. by eapply node_event_good. Qed.

(** Whatever is asked, the API answers in form and the service holds.
    Any requests, with any bodies, interleave with direct calls of the
    service, with connections and with every event: no task panics, the
    invariants of the service hold, and each answer is one of the API -- an
    error with the status of its code, a document, or the metrics, in which
    no series is written twice unless a proxy has the overflow's name. *)
Theorem admin_requests_keep_the_service seed limits admission term_grace rs s : limits_typed limits -> Forall node_request_typed rs ->
  rtc sys_step (node_initial (node_new seed limits admission term_grace) rs) s ->
  service_ok (nd_service (sys_state s)) /\ (Panic ∉ sys_calls s)
  /\ forall i a, sys_calls s !! i = Some (Ret (NsHttp a)) -> proper a.
Proof.
  intros L T R. assert (P : node_pool s).
  { eapply node_pool_run; [|exact R]. apply node_pool_initial; [|done]. exact (service_new_ok seed _ L). }
  destruct P as [I C]. split_and!; [done| |].
  - intros P. apply list_elem_of_lookup_1 in P as [i H]. exact (C _ _ H).
  - intros i a H. by apply (C _ _ H (sys_state s)).
Qed.
End Pool.


(** ** The life of a fault *)

Section Found.
Context `{env : AdminEnv} {env_ok : AdminEnvOk env}.

Definition node_control (n : Node) : Control := sx_control (nd_service n).
Definition with_control (c : Control) (n : Node) : Node := set_nd_service (set_sx_control c (nd_service n)) n.
Lemma with_same n : with_control (node_control n) n = n.
Proof. by destruct n as [[] ? ?]. Qed.

(** What is asked about the faults of a stream proxy. *)
Definition faults_request (header : option string) (proxy : string) (body : bytes) : HttpRequest :=
  {| hr_method := "POST"; hr_path := "/v1/proxies/" +:+ proxy +:+ "/faults"; hr_authorization := header; hr_body := Ok body |}.
Definition fault_request (method : string) (header : option string) (proxy id : string) (body : bytes) : HttpRequest :=
  {| hr_method := method; hr_path := fault_path "proxies" proxy id; hr_authorization := header; hr_body := Ok body |}.



Section Asked.
Context (auth header : option string) (proxy id : string).
Context (passes : forall method path body, authorized auth {| hr_method := method; hr_path := path; hr_authorization := header; hr_body := body |} = true).
Context (valid : validate_proxy_name proxy = Ok tt) (named : id <> EmptyString) (text : utf8_valid (as_bytes id) = true).

End Asked.




End Found.

(** ** A node that is asked *)

(** One document of each kind, and a digest that tells short tokens apart. *)
Definition demo_env : AdminEnv := {|
  digest x := take 32 (x ++ repeat 0 32);
  json_proxy_request _ := Ok {| pr_name := "redis"; pr_listen := local 0; pr_upstream := local 6379; pr_enabled := true;
    pr_max_connections := None; pr_connect_timeout_ms := 1000; pr_seed := 7 |};
  json_proxy_patch _ := Ok {| pp_listen := None; pp_upstream := None; pp_enabled := Some false; pp_max_connections := None; pp_connect_timeout_ms := None |};
  json_fault_upsert body := Ok {| up_direction := match body with [] => Downstream | _ => Upstream end; up_id := "50%/cut"; up_probability := f64_one; up_kind := LimitDataV1 10 |};
  json_fault_patch _ := Ok {| fp_probability := None; fp_kind := Some (LimitDataV1 20) |};
  json_datagram_request _ := Ok (datagram_request_default "dns" (local 0) (local 53));
  json_datagram_patch _ := Ok {| dp_enabled := Some false; dp_listen := None; dp_upstream := None; dp_max_associations := Some 4; dp_association_idle_timeout_ms := None |};
  json_datagram_upsert _ := Err "EOF while parsing"%string;
  json_datagram_fault_patch _ := Err "EOF while parsing"%string;
  json_scenario _ := Ok {| sv_version := 1; sv_seed := 7; sv_events := [] |};
  json_schedule _ := Err "EOF while parsing"%string;
  json_version _ := Some 1 |}.
#[local] Existing Instance demo_env.
#[local] Instance demo_env_ok : AdminEnvOk demo_env.
Proof. split; [intros body r [= <-]; by cbv|intros body p m [= <-] [= <-]; by cbv]. Qed.

Definition request_to (method path : string) : HttpRequest :=
  {| hr_method := method; hr_path := path; hr_authorization := Some "Bearer secret"%string; hr_body := Ok [] |}.
Definition demo_requests : list NodeRequest :=
  map (NqHttp (Some "secret"%string))
    [request_to "POST" "/v1/proxies"; request_to "POST" "/v1/proxies"; request_to "POST" "/v1/proxies/redis/faults";
     request_to "GET" "/v1/proxies/redis/faults/50%25%2Fcut"; request_to "GET" "/metrics"; request_to "DELETE" "/v1/connections/x";
     {| hr_method := "GET"; hr_path := "/v1/health"; hr_authorization := Some "Bearer guess"%string; hr_body := Ok [] |}]%string.
Definition demo_start : System Node ServiceWait NodeResponse :=
  node_initial (node_new 7 runtime_limits_default admission_default 0) demo_requests.
Definition steps_of (i n : nat) : list (move NodeEvent) := repeat (Call i) n.
Definition proxy_created : list (move NodeEvent) := [Call 0; Call 0; Answer 0 (Bound (local 5001))] ++ steps_of 0 4.
Definition all_asked : list (move NodeEvent) := proxy_created ++ steps_of 1 2 ++ steps_of 2 1 ++ steps_of 3 1 ++ steps_of 4 5.
Definition created : System Node ServiceWait NodeResponse := end_of proxy_created demo_start.
Definition asked : System Node ServiceWait NodeResponse := end_of all_asked demo_start.
Lemma asked_reached : rtc sys_step demo_start asked.
Proof. apply end_of_reaches. vm_compute. reflexivity. Qed.
Lemma demo_typed : Forall node_request_typed demo_requests.
Proof. repeat constructor. Qed.

(** Status and, of an error, its code. *)
Definition outline (p : nproc NodeResponse) : option (Z * string) :=
  match p with
  | Ret (NsHttp (Response status (Json (DocError code _)))) => Some (status, code)
  | Ret (NsHttp (Response status _)) => Some (status, EmptyString)
  | _ => None
  end.
Lemma admin_requests_keep_the_service_witness :
  map outline (sys_calls asked) = [Some (201, ""); Some (409, "conflict"); Some (201, ""); Some (200, ""); Some (200, "");
    Some (400, "invalid"); Some (403, "unauthorized")]%string
  /\ service_ok (nd_service (sys_state asked)) /\ (Panic ∉ sys_calls asked)
  /\ forall i a, sys_calls asked !! i = Some (Ret (NsHttp a)) -> proper a.
Proof.
  split; [vm_compute; reflexivity|].
  exact (admin_requests_keep_the_service 7 _ admission_default 0 demo_requests asked default_limits_typed demo_typed asked_reached).
Defined.

Lemma admin_token_is_required_witness : exists token, token = "secret"%string
  /\ handle_request (Some token) {| hr_method := "POST"; hr_path := "/v1/reset"; hr_authorization := Some "Bearer guess"; hr_body := Ok [] |}%string
     = Ret unauthorized.
Proof.
  assert (L : forall x, length (digest x) = 32%nat).
  { intros x. change (length (take 32 (x ++ repeat 0 32)) = 32%nat). rewrite length_take, length_app, repeat_length. lia. }
  destruct (admin_token_is_required L {| ac_bind := SocketV4 0 8474; ac_public_admin := true; ac_auth_token := Some "secret"%string |}
    ltac:(vm_compute; reflexivity) ltac:(vm_compute; reflexivity)) as (token & [= <-] & _ & H).
  exists "secret"%string. split; [reflexivity|]. apply H; [|discriminate]. intros sent E D. exfalso. vm_compute in E. injection E as E.
  subst sent. vm_compute in D. discriminate D.
Defined.

Definition BEARER : option string := Some "Bearer secret"%string.
Definition ask (method id : string) (n : Node) : option (HttpAnswer * Node) :=
  alone (handle_request (Some "secret"%string) (fault_request method BEARER "redis" id [])) n.
Definition post (body : bytes) (n : Node) : option (HttpAnswer * Node) :=
  alone (handle_request (Some "secret"%string) (faults_request BEARER "redis" body)) n.
Definition after_ask (x : option (HttpAnswer * Node)) : Node := match x with Some (_, n) => n | None => sys_state created end.


(** A fault can hide another.  [add_fault] looks for its identity in its own
    direction only, so both directions of a proxy can hold the same one, each
    created with 201; the path then shows and deletes the upstream fault, and
    the one downstream appears once that is gone. *)
Definition shown_fault (x : option (HttpAnswer * Node)) : option (Z * Direction * string) :=
  match x with
  | Some (Response status (Json (DocFaultApplied d f _)), _) | Some (Response status (Json (DocFault d f)), _) => Some (status, d, fv_id f)
  | _ => None
  end.
Lemma twins_hide :
  let n0 := sys_state created in let n1 := after_ask (post [] n0) in let n2 := after_ask (post [1] n1) in
  let n3 := after_ask (ask "DELETE" "50%/cut" n2) in
  shown_fault (post [] n0) = Some (201, Downstream, "50%/cut"%string)
  /\ shown_fault (post [1] n1) = Some (201, Upstream, "50%/cut"%string)
  /\ shown_fault (ask "GET" "50%/cut" n2) = Some (200, Upstream, "50%/cut"%string)
  /\ shown_fault (ask "GET" "50%/cut" n3) = Some (200, Downstream, "50%/cut"%string).
Proof. split_and!; vm_compute; reflexivity. Qed.
